(* ===== verification/_CoqProject ===== *)
-Q . S2P
Prelude.v
ScanRange.v
SpanningTree.v
ScanQueue.v
ChainTip.v
PruneQueue.v
LatestPool.v
WireReader.v
Transaction.v
TransactionCodec.v
TransactionParse.v
TransactionErrors.v
TxId.v
TxIdBinding.v
PcztCommon.v
PcztTransparent.v
PcztSapling.v
PcztOrchard.v
PcztOrchardCodec.v
Pczt.v
PcztSample.v
BitStream.v
GcsFilter.v
FilterValidate.v
FilterBuild.v
Zatoshi.v
Fees.v
ChangeBalance.v
ChangeProofs.v
ChangeTheorems.v
FeeCoverage.v
UneconomicInputs.v
ChangeStrategies.v
FeeSample.v
Proposal.v
ProposalProofs.v
FeeProposal.v
Locking.v
LockingProofs.v
ProposalSample.v
InputSelection.v
InputSelectionProofs.v
SelectionLoop.v
SelectionValid.v
SelectionTheorems.v
SelectionStrategies.v
Shielding.v
ShieldingProofs.v
ShieldingTheorems.v
SelectionSample.v
ShardEvents.v
ShardEventProofs.v
ShardCompact.v
ShardRecords.v
ShardPageRow.v
ShardPacking.v
ShardDemand.v
ShardBestFit.v
ShardFreeSpace.v
ShardPrediction.v
ShardLayout.v
ShardLayoutProofs.v
DirectoryPlacement.v
DirectoryRelocation.v
DirectoryPlaceTheorems.v
DirectoryChoice.v
DirectoryPeel.v
DirectoryChoiceTheorems.v
DirectoryTable.v
DirectoryTableTheorems.v
ShardBuilder.v
ShardBuilderProofs.v
ShardChain.v
ShardPublish.v
ChainWalk.v
ChainWalkProofs.v
DirectorySample.v
