(* ===== verification/Prelude.v ===== *)
(** * Zakura wallet libraries: a verification development

    The repository holds the libraries of a Zcash wallet: the forks of librustzcash
    ([librustzcash/]: the wallet backend, its SQLite storage and the PCZT format) and
    the libraries of the Zakura services ([zakura/]: the transaction wire format,
    filters, and private information retrieval).  This development models eight of its
    subsystems as executable functions and proves what makes them correct.

    ** Parts and how they interact

    The scanner asks the storage layer which block ranges to scan.  The storage keeps
    a table of ranges with priorities; every operation on it (a new chain tip, a
    subtree to be found, pruning) builds a spanning tree of the old and the new ranges
    and writes its leaves back.  Downloaded transactions are parsed by the wire reader
    and identified by their hash.

    To spend, the wallet is given a request.  The greedy selector asks the storage for
    notes, and a change strategy for the balance that they give; it repeats this with
    more notes, or without dust, until the strategy is satisfied, and builds a proposal
    of one step, or of two when TEX addresses are paid.  [Step::from_parts] checks every
    step against the rules for pools and values.  The inputs of a proposal can be locked
    in the storage, which keeps later selections away from them until the lock expires
    or is released.  Outgoing transactions travel between their signers as PCZTs, which
    are parsed, combined and serialized.

    A publisher describes the scripts of a range of blocks by a filter, which the wallet
    downloads, validates and matches against its own scripts to learn what to fetch.
    What it fetches privately are fixed-size rows: a directory row names a script by a
    tag, holds its last events and points to the page row with the rest; page rows hold
    runs of older events, several scripts to a row.  The publisher predicts from the sizes
    of the histories how many page rows a shard needs, to seal it before it is too large,
    and must lay the runs out in just so many.  Every script is placed in one of two rows
    of the directory, and a choice table tells a wallet which.  The builder takes blocks
    and keeps the two newest events of every script; each event that they push out goes to
    the page shard that is open, and the runs of a script are linked, newest first.  The
    wallet reads the directory row, follows the links from run to run, checks every reply
    and commits what it read to its store.

    ** Files

    [Prelude]: results and panics ([res], [exec], [run]), folds, tactics and the hint
    database [wallet].

    Scanning ([librustzcash/zcash_client_backend/src/data_api/scanning.rs],
    [scanning/spanning_tree.rs], [librustzcash/zcash_client_sqlite/src/wallet/scanning.rs]
    and [scanning/latest_pool.rs]):
    - [ScanRange]: [ScanPriority], [ScanRange] and its splitting operations.
    - [SpanningTree]: [Dominance], [Joined], [SpanningTree] with [insert], [into_vec]
      and their helper functions, one definition for each.
    - [ScanQueue]: the [scan_queue] table as the list of its rows; [insert_queue_entries],
      [replace_queue_entries], [suggest_scan_ranges].
    - [ChainTip]: [update_chain_tip].  [PruneQueue]: [prune_scan_queue_below].
      [LatestPool]: the suggestions for the most recent pool.

    Transactions ([zakura/transaction-wire/src]):
    - [WireReader]: [Reader] and [DecodeError] as a parser monad, and the interface
      [ZcashProtocol] to the crate zcash_protocol, with an instance.
    - [Transaction]: [TransactionView] and all reading functions.
    - [TransactionCodec], [TransactionParse]: a reference encoder and the proof that the
      reader is its inverse.  [TransactionErrors]: which errors can occur.
    - [TxId], [TxIdBinding]: [TransactionView::txid] over abstract hash functions.

    PCZT ([librustzcash/pczt/src]):
    - [PcztCommon] ([common.rs] and the merge helpers of [roles/combiner/mod.rs]),
      [PcztTransparent] ([transparent.rs]), [PcztSapling] ([sapling.rs]), [PcztOrchard]
      and [PcztOrchardCodec] ([orchard.rs]), [Pczt] ([lib.rs], [roles/combiner/mod.rs]);
      [PcztSample] evaluates them.

    Filters ([zakura/filters/src], [zakura/pir-protocol/src/transparent/filter],
    [zakura/pir-publisher/src/transparent/filter/build_filter.rs]):
    - [BitStream]: [BitStreamReader] and [BitStreamWriter].  [GcsFilter]: CompactSize,
      [hash_to_range] and [GcsFilterWriter].  [FilterValidate]: [validate_parameters] and
      [match_keyed].  [FilterBuild]: the publisher's [encode_with].

    Transparent shards ([zakura/pir-protocol/src/transparent/events/mod.rs], [shard/] beside
    it, [zakura/pir-publisher/src/transparent/build.rs]):
    - [ShardEvents]: events, their metadata and both encodings; [ShardEventProofs].
      [ShardCompact] ([shard/compact.rs]): the encoding that refers to the event before.
    - [ShardRecords] ([shard/records.rs]): rows of tagged entries and directory rows;
      [ShardPageRow] ([shard/page_row.rs]): page rows and the links between runs.
    - [ShardPacking] ([shard/packing.rs]): fragments and [HistoryLayout].  [ShardDemand]
      (the same file): [PackedDemand] and the prediction of rows, over an interface
      [FreeStore] with two instances, the ordered map and the array with a bitmap.
      [ShardBestFit], [ShardFreeSpace], [ShardPrediction] hold the proofs.
    - [ShardLayout] ([shard/layout.rs], [build.rs]): geometries, segments, [lay_out_runs];
      [ShardLayoutProofs].

    Directories ([zakura/pir-publisher/src/directory.rs], [zakura/pir-protocol/src/directory],
    [shard/choice.rs], [build.rs]):
    - [DirectoryPlacement]: candidate rows and tags over the interface [Sha256], [FixedRows]
      with relocation and undo, [place].  [DirectoryRelocation], [DirectoryPlaceTheorems].
    - [DirectoryChoice] ([choice.rs]): the choice table, its construction by peeling and its
      bytes.  [DirectoryPeel], [DirectoryChoiceTheorems].
    - [DirectoryTable] ([build.rs]): [place_directory]; [DirectoryTableTheorems].

    Building and reading shards ([build.rs], [shard/tag.rs], [filter/hash.rs],
    [filter/profile.rs]; [zakura/pir-client/src/transparent/engine/sync/walk.rs], [shard.rs]
    beside it, [engine/store.rs], [shard/manifest.rs]):
    - [ShardBuilder]: [DirectoryBuilder] with all its operations, [build_directory_shard].
      [ShardBuilderProofs]: histories and what a block adds to them.  [ShardChain]: the
      inductive [chain] of linked runs and the invariant [built], which [close_child] keeps.
      [ShardPublish]: the whole shard ([shard_published]).
    - [ChainWalk]: [entry_in] and the methods of [Walker], over the interface [WalletStore].
      [ChainWalkProofs]: an honest service, the laws [StoreLaws], and the proof that the
      walk over it reads what was published.  [DirectorySample]: concrete inputs.

    Spending ([librustzcash/zcash_client_backend/src]):
    - [Zatoshi]: amounts and pools, the interface [ZatoshisOps].
    - [Fees] ([fees.rs]): change values, [TransactionBalance], split and dust policies.
      [ChangeBalance] ([fees/common.rs]): [single_pool_output_balance] and its parts, over
      the interface [FeeEnv].  [ChangeStrategies] ([fees/zip317.rs], [fees/fixed.rs]).
      [ChangeProofs], [ChangeTheorems], [FeeCoverage], [UneconomicInputs] hold the proofs,
      [FeeSample] an instance.
    - [Proposal] ([proposal.rs]): [Step] and [Proposal] with their constructors and checks,
      over the interface [ProposalEnv].  [ProposalProofs]: what they accept.
      [FeeProposal]: the balances of [ChangeBalance] are accepted.  [ProposalSample].
    - [InputSelection] ([data_api/wallet/input_selection.rs], parts of [data_api.rs]):
      the spend policies, [ReceivedNotes] and [GreedyInputSelector::propose_transaction],
      over the interfaces [SelectionEnv] (addresses and ZIP 321), [InputSource] (the
      wallet) and [ChangeStrategy].  [InputSelectionProofs] states the laws of these
      interfaces; [SelectionLoop], [SelectionValid] and [SelectionTheorems] prove the
      selector against them; [SelectionStrategies] proves that the strategies of
      [ChangeStrategies] satisfy theirs; [SelectionSample] is a wallet.
    - [Shielding] (the rest of the same file): [propose_send_max], [propose_shielding] and
      [propose_shielding_coinbase]; [ShieldingProofs], [ShieldingTheorems].

    Locking ([data_api/locking.rs], [zcash_client_sqlite/src/wallet/locking.rs]):
    - [Locking]: the lock columns of the output tables, the statements that read and write
      them, and the policies of selection.  [LockingProofs].

    ** How code is modelled

    A fallible function returns [res E A]; a function that can panic returns [exec A],
    whose errors are the kinds of panic; one that can do both returns [run E A], whose
    errors are [Failed e] or [Panicked k], so that the absence of panics is a statement
    ([errs_only]).  Integers are [Z] with the width written out where the code depends on
    it (bytes, little-endian encodings, the [u8] flags of PCZTs, [usize] counts, sums of
    amounts).  Bytes are [byte], slices and [Vec]s are lists, a [BTreeMap] is a [gmap] or,
    where its order matters, the sorted list of its entries ([btree]), a database table is
    the list of its rows or a map by key, and a [&mut self] method returns the new state.
    The code is modelled with the features [orchard] and [transparent-inputs].

    Crates that are not in the repository are interfaces with named laws:
    [ZcashProtocol], [BlockHeightOps], the hash functions of [TxId], [Postcard], SipHash as
    a function argument, [ZatoshisOps] with [ZatoshisLaws], [FeeEnv] with [FeeEnvLaws],
    [CountLaws] and [PaddingLaws], [ProposalEnv] with [ProposalEnvLaws], [SelectionEnv] with
    [SelectionEnvLaws] and [SendLaws], [Sha256] with [Sha256Laws].  Traits that the code is generic in are interfaces
    too: [InputSource] with [InputSourceLaws] and [ShieldingSourceLaws], [ChangeStrategy]
    with [ChangeStrategyLaws], [WalletStore] with [StoreLaws].  Each has an instance that satisfies its laws.

    ** What the theorems show

    - Scanning.  The spanning tree implements an abstract function from heights to
      priorities: insertion does not panic on trees of non-empty ranges, keeps the
      invariant and combines priorities by the dominance rule ([tree_insert_refines]);
      flattening gives the unique normal form ([into_vec_normal_form]); a tree with an
      empty leaf panics ([tree_insert_empty_leaf_panics]).  The queue operations refine the
      same function and keep the stored ranges disjoint ([replace_queue_entries_refines]),
      for a new chain tip ([update_chain_tip_covers]), for pruning
      ([prune_scan_queue_below_spec]) and for suggestions
      ([suggest_scan_ranges_latest_spec]).
    - Transactions.  The reader accepts exactly the canonical encodings of well-formed
      transactions of versions 1 to 6 and returns them ([parse_prefix_iff]).  The identifier
      is defined for whatever parses, ignores authorizing data and binds the rest up to
      hash collisions ([txid_ignores_authorization], [txid_binds_effects]).
    - PCZT.  Merging is a partial join ([global_merge_semilattice] and the laws of the
      bundles), lock times follow BIP 370 ([determine_lock_time_bip370]), the format
      round-trips ([parse_serialize]), and combining keeps all data but the binding
      signature keys ([combine_preserves_data]).
    - Filters.  The validator accepts exactly the canonical encodings of sets
      ([validate_parameters_exact]), hence whatever the publisher encodes
      ([encode_validate_roundtrip]); matching has no false negatives, and false positives
      only on hash collisions ([match_no_false_negatives]).
    - Shards.  Each encoding is canonical: the decoder accepts exactly what the encoder
      writes for valid values and never panics on other bytes ([event_bytes_exact],
      [compact_decode_exact], [directory_row_exact], [page_row_exact]).  Histories are cut
      into the fewest fragments ([fragments_correct]) and summarized event by event
      ([history_layout_incremental]); a demand follows its histories
      ([demand_tracks_histories]), the array of free spaces does what the map does
      ([dense_best_fit_is_sparse]), and the predicted number of rows is that of packing the
      entries one at a time ([predicted_rows_exact]).  The layout takes exactly this number
      ([lay_out_runs_as_predicted]), and a reader gets each run back from the encoded rows
      ([page_shard_readable]), which the segments of the table hold ([segments_hold_rows]).
    - Directories.  Placement with relocation ends, keeps every key in one of its candidate
      rows and no row over its capacity ([place_correct]); a batch is inserted or leaves no
      trace ([insert_batch_atomic]), and batches compose ([batches_compose]).  A choice table
      names the bit of every key ([choice_build_routes]), whatever their order
      ([choice_build_order]), and its bytes are canonical ([choice_decode_exact]).  The
      tables of a directory hold every entry where a wallet looks ([place_directory_correct]).
    - Building and reading.  A shard that is built holds the history of every indexed script
      as its newest events and a chain of runs, and a filter of all scripts with events
      ([directory_shard_published]).  A wallet that asks an honest service finds the entry,
      commits the newest events, follows the chain without a failure and so commits the whole
      history up to its target ([wallet_reads_history]).  The two meet in [chain] alone: the builder keeps it, the
      walk consumes it.  Without a choice table, an honest entry can be refused
      ([directory_reply_refused]).
    - Change.  A computed balance accounts for every zatoshi ([balance_conserves_value]),
      puts no more change into Orchard than the inputs take from it once Ironwood is active
      ([orchard_turnstile]), pays what the fee rule asks for the transaction that is built
      unless an ephemeral output meets a canonical crossing ([fee_covers_shape],
      [ephemeral_crossing_underpays]), has the shape of the policies ([change_shape],
      [split_count_largest]); its computation never panics, additions of counts included, on
      lists that fit in memory ([balance_never_panics]).
    - Proposals.  [Step::from_parts] and [Proposal::multi_step] accept exactly the valid
      steps and proposals ([from_parts_exact], [multi_step_exact]), and the balances of the
      change computation are among them ([computed_balance_accepted]).
    - Selection.  For every wallet and change strategy that follow the laws of the
      interfaces, the selector ends without a panic ([propose_transaction_terminates]); what
      it returns has the payments of the request, in valid balanced steps
      ([propose_transaction_pays]), spends only what the policy and the locks permit
      ([propose_transaction_respects_policy]), and a balance that was found is not refused
      afterwards ([propose_transaction_consistent]) unless TEX payments come after others,
      which are then never proposed ([propose_transaction_tex_first]).  The strategies of
      the repository follow the laws ([change_strategies_meet_contract]).  Sending
      everything spends all that is offered, in one step, or in two through an ephemeral
      output for a TEX address ([propose_send_max_spends_all]); shielding takes the most
      valuable outputs, never links an ephemeral address, and leaves out only what the change
      strategy calls dust ([propose_shielding_shields], [propose_shielding_coinbase_pays]).
    - Locking.  Locks are not stolen ([no_stealing]) and expire ([locks_expire]); locking is
      atomic ([lock_outputs_atomic]); unlocking a proposal restores what locking changed
      ([lock_unlock_proposal]); filters split the outputs into locked and eligible ones
      ([locked_eligible_complement]).
    - Theorems in the files that are no longer repeated here: inactive pools are never
      reported ([pool_not_active_unreachable]), truncations and other errors, the exact
      Sprout balance, the laws of the bundle merges and where the code departs from them.

    ** Bounds and fuel

    Most recursions are structural.  [join_nonoverlapping] calls itself with swapped
    arguments: it has fuel 2, and [join_nonoverlapping_eq] shows that one swap is enough.
    Loops over a [u64] count are bounded by the input, since the reader checks the count
    against the remaining bytes before it allocates.  The loops over bits in [BitStream],
    [GcsFilter] and [FilterValidate] have as fuel the number of bits (or blocks of 64 ones)
    they can consume; their specifications hold for this fuel.  The selection loop
    [select_loop] has its fuel as an argument of [propose_transaction]:
    [propose_transaction_terminates] shows that for every call there is an amount that is
    enough, and that the result is the same for any larger one.  The loop [fill] of the
    prediction has as fuel the number of entries to be placed: each turn places at least one
    ([fill_place]).  Variable-length integers have ten turns, one for each seven bits of 64.
    Additions of [usize] counts in the change computation panic when they overflow
    ([usize_add]), as in a build with overflow checks.  [count_limit], a sixteenth of
    [usize::MAX], bounds the lists of a request ([request_fits]), the minimum of a padding
    ([padding_fits]) and the target of a split policy ([split_fits]); [CountLaws] says how far
    the bundle types of other crates can exceed the counts they are given.  For the selector
    the bounds follow from laws: a wallet offers at most [offer_limit] outputs, and ZIP 321
    admits a bounded number of payments.  The bound on the split target is not checked by the
    code ([split_target_overflows]).
    A relocation visits at most 512 rows, as in the code; the fuel of a path back is the
    index of its node, and that of peeling the number of slots and three times that of keys.
    The rounds of a walk have their number as an argument: one for each run and one for the
    first head are enough, hence 33 ([wallet_reads_history]); [cached_runs] has as fuel one
    more than the number of the page shard that it starts from, as each turn goes to an
    earlier one.

    ** What is not modelled

    [scan_complete] and the extension of ranges to subtrees, which read the note
    commitment tables; the PCZT roles other than the Combiner and the conversions into
    the types of orchard, sapling-crypto and transparent, whose code is not in the
    repository; the construction of transactions from proposals; note decryption and
    proofs; the SQL of the wallet's tables other than the scan queue and the locks; the
    migrations; Tor, gRPC and HTTP transports and the servers; generated protocol buffers.
    Builds without the features [orchard] and [transparent-inputs] are left out.

    Of the shards: manifests, their signatures and digests, the sealer and the stream that
    drive the builder, several walks in one round, the dummy queries that a failed walk
    still sends (their number is modelled), budgets, and the ledger that the wallet derives
    from the events.  The counters of 64 bits of the builder are unbounded.  The walk is
    proved over a store that holds no cached run and accepts every commit, and over a source
    that answers every request.

    Left for a continuation: the receiver filters and manifests of [zakura/pir-protocol];
    the rounds of several walks with failures; confirmations, anchor retention and status
    policy of the data API; the encoding of proposals; [scan_complete]; the PCZT roles that
    only edit fields; configuration of services. *)

From stdpp Require Export base list gmap strings.
From coqutil Require Export Byte Word.LittleEndianList.

#[global] Open Scope Z_scope.

(** ** Results

    Fallible Rust code returns [Result<A, E>] or may panic.  Both are values of
    [res E A]; code that can only panic uses [exec]. *)

Inductive res (E A : Type) : Type :=
| Ok (a : A)
| Err (e : E).
Arguments Ok {E A} a.
Arguments Err {E A} e.

(** The ways in which Rust code panics, and the exhaustion of the fuel of a loop
    or recursion that is not structural. *)
Inductive panic : Type :=
| AssertFailed
| ExpectFailed
| Unreachable
| OutOfFuel.

Abbreviation exec := (res panic).

#[global] Instance res_ret {E} : MRet (res E) := fun A a => Ok a.
#[global] Instance res_bind {E} : MBind (res E) := fun A B f m =>
  match m with Ok a => f a | Err e => Err e end.
#[global] Instance res_fmap {E} : FMap (res E) := fun A B f m =>
  match m with Ok a => Ok (f a) | Err e => Err e end.

(** [assert!(b)] *)
Definition assert_that (b : bool) : exec unit :=
  if b then Ok () else Err AssertFailed.

(** [o.expect(..)] *)
Definition expect {A} (o : option A) : exec A :=
  match o with Some a => Ok a | None => Err ExpectFailed end.

(** [o.ok_or(e)] *)
Definition ok_or {E A} (o : option A) (e : E) : res E A :=
  match o with Some a => Ok a | None => Err e end.

(** Code that both fails and panics returns [run E A]: [fails] and [panics] embed the two
    kinds of step. *)
Inductive fault (E : Type) : Type :=
| Failed (e : E)
| Panicked (p : panic).
Arguments Failed {E} e.
Arguments Panicked {E} p.

Abbreviation run E := (res (fault E)).

Definition fails {E A} (r : res E A) : run E A :=
  match r with Ok a => Ok a | Err e => Err (Failed e) end.

Definition panics {E A} (r : exec A) : run E A :=
  match r with Ok a => Ok a | Err p => Err (Panicked p) end.

(** [r.map_err(f)] *)
Definition map_err {E F A} (f : E -> F) (r : res E A) : res F A :=
  match r with Ok a => Ok a | Err e => Err (f e) end.

#[global] Instance res_eq_dec {E A} `{EqDecision E, EqDecision A} : EqDecision (res E A).
Proof. solve_decision. Defined.
#[global] Instance panic_eq_dec : EqDecision panic.
Proof. solve_decision. Defined.

(** ** Bytes *)

#[global] Instance byte_eq_decision : EqDecision byte := Stdlib.Strings.Byte.byte_eq_dec.
#[global] Instance byte_countable : Countable byte.
Proof.
  refine (inj_countable' Stdlib.Strings.Byte.to_N
    (fun n => match Stdlib.Strings.Byte.of_N n with Some b => b | None => Byte.x00 end) _).
  intros b. by rewrite Stdlib.Strings.Byte.of_to_N.
Defined.

Lemma le_combine_range n bs : length bs = n -> 0 <= le_combine bs < 2 ^ (8 * Z.of_nat n).
Proof. intros <-. apply le_combine_bound. Qed.

Lemma le_combine_split_small n v :
  0 <= v < 2 ^ (8 * Z.of_nat n) -> le_combine (le_split n v) = v.
Proof. intros H. rewrite le_combine_split, Z.mod_small; [done|]. by rewrite Z.mul_comm. Qed.

Create HintDb wallet.

Section ResLemmas.
Context {E A B : Type}.

Lemma res_bind_Ok (m : res E A) (f : A -> res E B) b :
  (m ≫= f) = Ok b <-> exists a, m = Ok a /\ f a = Ok b.
Proof. destruct m; cbn; naive_solver. Qed.

Lemma res_bind_Err (m : res E A) (f : A -> res E B) e :
  (m ≫= f) = Err e <-> m = Err e \/ exists a, m = Ok a /\ f a = Err e.
Proof. destruct m; cbn; naive_solver. Qed.

Lemma ok_or_Ok (o : option A) (e : E) a : ok_or o e = Ok a <-> o = Some a.
Proof. destruct o; cbn; naive_solver. Qed.
End ResLemmas.

Lemma assert_that_Ok b u : assert_that b = Ok u <-> b = true.
Proof. destruct b, u; cbn; naive_solver. Qed.

Lemma assert_that_true b : b = true -> assert_that b = Ok ().
Proof. by intros ->. Qed.

Lemma expect_Ok {A} (o : option A) a : expect o = Ok a <-> o = Some a.
Proof. destruct o; cbn; naive_solver. Qed.

Lemma fails_Ok {E A} (r : res E A) a : fails r = Ok a <-> r = Ok a.
Proof. destruct r; cbn; naive_solver. Qed.

Lemma panics_Ok {E A} (r : exec A) a : panics (E := E) r = Ok a <-> r = Ok a.
Proof. destruct r; cbn; naive_solver. Qed.

Lemma map_err_Ok {E F A} (f : E -> F) (r : res E A) a : map_err f r = Ok a <-> r = Ok a.
Proof. destruct r; cbn; naive_solver. Qed.

(** ** Tactics *)

(** Inverts the successful run of a monadic computation found in the context:
    one equation per step. *)
Ltac inv_step :=
  match goal with
  | H : (_ ≫= _) = Ok _ |- _ =>
      let a := fresh "v" in let H1 := fresh "Hstep" in
      apply res_bind_Ok in H as (a & H1 & H)
  | H : assert_that _ = Ok _ |- _ => apply assert_that_Ok in H
  | H : expect _ = Ok _ |- _ => apply expect_Ok in H
  | H : ok_or _ _ = Ok _ |- _ => apply ok_or_Ok in H
  | H : fails _ = Ok _ |- _ => apply (proj1 (fails_Ok _ _)) in H
  | H : panics _ = Ok _ |- _ => apply (proj1 (panics_Ok _ _)) in H
  | H : map_err _ _ = Ok _ |- _ => apply (proj1 (map_err_Ok _ _ _)) in H
  | H : mret _ = Ok _ |- _ => injection H as H
  | H : Ok _ = Ok _ |- _ => injection H as H
  | H : Err _ = Ok _ |- _ => discriminate H
  end.
Ltac inv_run := repeat (inv_step; simplify_eq).

(** Removes the wrappers around a step that succeeded, and names the first step of a
    successful computation. *)
Ltac unwrap_ok H :=
  repeat lazymatch type of H with
  | fails _ = Ok _ => apply (proj1 (fails_Ok _ _)) in H
  | panics _ = Ok _ => apply (proj1 (panics_Ok _ _)) in H
  | map_err _ _ = Ok _ => apply (proj1 (map_err_Ok _ _ _)) in H
  | expect _ = Ok _ => apply (proj1 (expect_Ok _ _)) in H
  | ok_or _ _ = Ok _ => apply (proj1 (ok_or_Ok _ _ _)) in H
  end.
Tactic Notation "bind_step" hyp(H) "as" ident(x) ident(Hx) :=
  apply res_bind_Ok in H as (x & Hx & H); unwrap_ok Hx.

(** Runs the steps of a computation in the goal that are known to succeed. *)
Ltac run_ok :=
  repeat (progress (cbn [panics fails expect]; change (Ok ?x ≫= ?g) with (g x); cbv beta)).

(** Splits the boolean comparisons of [Z] in the goal and the context, closing
    the contradictory branches as it goes. *)
Ltac zcase_step :=
  match goal with
  | |- context [?a <=? ?b] => destruct (Z.leb_spec a b)
  | |- context [?a <? ?b] => destruct (Z.ltb_spec a b)
  | |- context [?a =? ?b] => destruct (Z.eqb_spec a b)
  | H : context [?a <=? ?b] |- _ => destruct (Z.leb_spec a b)
  | H : context [?a <? ?b] |- _ => destruct (Z.ltb_spec a b)
  | H : context [?a =? ?b] |- _ => destruct (Z.eqb_spec a b)
  end.
Ltac zcases := repeat (zcase_step; try (exfalso; lia)).

(** ** Runs that do not panic *)

(** [m] does not panic, and its errors satisfy [Q]. *)
Definition errs_only {E A} (Q : E -> Prop) (m : run E A) : Prop :=
  match m with Ok _ => True | Err (Failed e) => Q e | Err (Panicked _) => False end.

Section ErrsOnly.
Context {E A B : Type} (Q : E -> Prop).

Lemma errs_only_bind (m : run E A) (f : A -> run E B) :
  errs_only Q m -> (forall a, m = Ok a -> errs_only Q (f a)) -> errs_only Q (m ≫= f).
Proof. destruct m; cbn; auto. Qed.

Lemma errs_only_mono (P : E -> Prop) (m : run E A) :
  (forall e, P e -> Q e) -> errs_only P m -> errs_only Q m.
Proof. destruct m as [|[]]; cbn; auto. Qed.

Lemma errs_only_fails (r : res E A) : (forall e, r = Err e -> Q e) -> errs_only Q (fails r).
Proof. destruct r; cbn; auto. Qed.

Lemma errs_only_panics (r : exec A) a : r = Ok a -> errs_only Q (panics r).
Proof. by intros ->. Qed.

Lemma errs_only_ok_or (o : option A) e : (o = None -> Q e) -> errs_only Q (fails (ok_or o e)).
Proof. destruct o; cbn; auto. Qed.
End ErrsOnly.

(** ** Pairwise relations on lists *)

Section Pairwise.
Context {A : Type} (R : A -> A -> Prop).

Fixpoint pairwise (l : list A) : Prop :=
  match l with
  | [] => True
  | a :: l => Forall (R a) l /\ pairwise l
  end.

Lemma pairwise_app l1 l2 :
  pairwise (l1 ++ l2) <->
  pairwise l1 /\ pairwise l2 /\ (forall x y, x ∈ l1 -> y ∈ l2 -> R x y).
Proof.
  induction l1 as [|a l1 IH]; cbn.
  - split; [|tauto]. intros. split_and!; [done..|]. intros x y Hx. by apply not_elem_of_nil in Hx.
  - rewrite Forall_app, IH, !Forall_forall. setoid_rewrite elem_of_cons. naive_solver.
Qed.

Lemma pairwise_filter (P : A -> Prop) `{!forall x, Decision (P x)} l :
  pairwise l -> pairwise (filter P l).
Proof.
  induction l as [|a l IH]; [done|]. intros [Ha Hl]. rewrite filter_cons.
  case_decide; [|auto]. split; [|auto]. rewrite Forall_forall in *.
  intros x [_ Hx]%list_elem_of_filter. auto.
Qed.

Context `{!Symmetric R}.

#[global] Instance pairwise_Permutation : Proper ((≡ₚ) ==> iff) pairwise.
Proof using Type*.
  intros l1 l2 Hp. induction Hp as [|x l1 l2 Hp IH|x y l|l1 l2 l3 _ IH1 _ IH2]; cbn.
  - done.
  - by rewrite IH, Hp.
  - rewrite !Forall_cons. split; intros; destruct_and?; split_and!; auto.
  - by rewrite IH1.
Qed.

Lemma pairwise_elem l x y : pairwise l -> x ∈ l -> y ∈ l -> x = y \/ R x y.
Proof using Type*.
  induction l as [|a l IH]; [by intros ? ?%not_elem_of_nil|].
  cbn. rewrite Forall_forall, !elem_of_cons. intros [Ha Hl] [->|Hx] [->|Hy]; auto.
Qed.
End Pairwise.

(** ** Monadic folds *)

Section FoldM.
Context {E A B : Type} (f : B -> A -> res E B).

Fixpoint foldM (b : B) (l : list A) : res E B :=
  match l with
  | [] => Ok b
  | a :: l => b ← f b a; foldM b l
  end.

Lemma foldM_app b l1 l2 : foldM b (l1 ++ l2) = (b ← foldM b l1; foldM b l2).
Proof.
  revert b. induction l1 as [|a l1 IH]; intros b; cbn; [done|].
  destruct (f b a); cbn; auto.
Qed.

(** A step that always succeeds and keeps an invariant makes the fold do so. *)
Lemma foldM_invariant (P : B -> Prop) (Q : A -> Prop) b l :
  (forall b a, P b -> Q a -> exists b', f b a = Ok b' /\ P b') ->
  P b -> Forall Q l -> exists b', foldM b l = Ok b' /\ P b'.
Proof.
  intros Hstep. revert b. induction l as [|a l IH]; intros b Hb Hl; cbn; [eauto|].
  inversion Hl; subst. destruct (Hstep b a) as (b' & -> & Hb'); [done..|]. cbn. auto.
Qed.
End FoldM.

(** [iter.map(f).collect::<Result<Vec<_>, _>>()] *)
Fixpoint mapM_res {E A B} (f : A -> res E B) (l : list A) : res E (list B) :=
  match l with
  | [] => Ok []
  | a :: l => b ← f a; bs ← mapM_res f l; Ok (b :: bs)
  end.

Lemma mapM_res_Ok {E A B} (f : A -> res E B) l k :
  mapM_res f l = Ok k <-> Forall2 (fun a b => f a = Ok b) l k.
Proof.
  revert k. induction l as [|a l IH]; intros k; cbn.
  - split; [intros [= <-]; constructor | intros H; by inversion H].
  - rewrite res_bind_Ok. split.
    + intros (b & Hb & (bs & Hbs & [= <-])%res_bind_Ok). constructor; [done|by apply IH].
    + intros H. inversion H as [|? b ? bs Hb Hbs]; subst. exists b. split; [done|].
      apply res_bind_Ok. exists bs. by rewrite IH.
Qed.

Lemma mapM_res_total {E A B} (f : A -> res E B) l :
  Forall (fun a => exists b, f a = Ok b) l -> exists k, mapM_res f l = Ok k.
Proof.
  induction 1 as [|a l [b Hb] _ [k Hk]]; cbn; [eauto|]. rewrite Hb; cbn. rewrite Hk; cbn. eauto.
Qed.

Lemma mapM_res_Err {E A B} (f : A -> res E B) l e :
  mapM_res f l = Err e <->
  exists l1 a l2 k, l = l1 ++ a :: l2 /\ mapM_res f l1 = Ok k /\ f a = Err e.
Proof.
  induction l as [|a l IH]; cbn.
  - split; [done|]. intros ([|] & ? & ? & ? & ? & _); done.
  - split.
    + destruct (f a) as [b|e'] eqn:Ea; cbn.
      * destruct (mapM_res f l) as [k|e'']; cbn; [done|]. intros [= ->].
        destruct (proj1 IH eq_refl) as (l1 & x & l2 & k & -> & Hk & Hx).
        exists (a :: l1), x, l2, (b :: k). cbn. by rewrite Ea, Hk.
      * intros [= ->]. exists [], a, l, []. done.
    + intros ([|c l1] & x & l2 & k & [= -> ->] & Hk & Hx); [by rewrite Hx|].
      cbn in Hk. apply res_bind_Ok in Hk as (b & -> & (bs & Hbs & _)%res_bind_Ok). cbn.
      rewrite (proj2 IH); [done|]. eauto 10.
Qed.
