(* ===== verification/ScanRange.v ===== *)
(** * Scan ranges

    [zcash_client_backend/src/data_api/scanning.rs]: scanning priorities and the
    half-open block ranges that carry them.  Block heights are [u32] values that
    the code only compares, so they are integers here; the one subtraction, in
    [len], is shown not to underflow on the ranges the constructor accepts. *)

From S2P Require Import Prelude.

(** [ScanPriority], in declaration order: Rust derives [Ord] from it. *)
Inductive ScanPriority : Type :=
| Ignored
| Scanned
| Historic
| LatestPoolActivation
| OpenAdjacent
| FoundNote
| ChainTip
| Verify.

#[global] Instance ScanPriority_eq_dec : EqDecision ScanPriority.
Proof. solve_decision. Defined.

(** The discriminant that the derived [Ord] compares. *)
Definition prio_rank (p : ScanPriority) : Z :=
  match p with
  | Ignored => 0 | Scanned => 1 | Historic => 2 | LatestPoolActivation => 3
  | OpenAdjacent => 4 | FoundNote => 5 | ChainTip => 6 | Verify => 7
  end.

(** [ScanPriority::cmp] *)
Definition prio_cmp (a b : ScanPriority) : comparison := prio_rank a ?= prio_rank b.

Lemma prio_rank_inj a b : prio_rank a = prio_rank b -> a = b.
Proof. destruct a, b; done. Qed.

Lemma prio_cmp_spec a b :
  CompareSpec (a = b) (prio_rank a < prio_rank b) (prio_rank b < prio_rank a) (prio_cmp a b).
Proof.
  unfold prio_cmp. destruct (Z.compare_spec (prio_rank a) (prio_rank b)); constructor;
    auto using prio_rank_inj.
Qed.

(** [core::ops::Range<BlockHeight>] *)
Record Range : Type := MkRange { rstart : Z; rend : Z }.
Notation "a ..- b" := (MkRange a b) (at level 45).

#[global] Instance Range_eq_dec : EqDecision Range.
Proof. solve_decision. Defined.

(** [Range::is_empty]: [!(start < end)]. *)
Definition range_is_empty (r : Range) : bool := negb (rstart r <? rend r).

Definition in_range (h : Z) (r : Range) : bool := (rstart r <=? h) && (h <? rend r).

Record ScanRange : Type := MkScanRange { block_range : Range; priority : ScanPriority }.

#[global] Instance ScanRange_eq_dec : EqDecision ScanRange.
Proof. solve_decision. Defined.

(** Shorthands for the bounds of a scan range. *)
Abbreviation sstart r := (rstart (block_range r)).
Abbreviation send r := (rend (block_range r)).

(** [ScanRange::from_parts] *)
Definition from_parts (br : Range) (p : ScanPriority) : exec ScanRange :=
  _ ← assert_that (rstart br <=? rend br);
  Ok (MkScanRange br p).

(** [ScanRange::is_empty] *)
Definition is_empty (r : ScanRange) : bool := range_is_empty (block_range r).

(** [ScanRange::len]: a [u32] subtraction, which panics on underflow. *)
Definition len (r : ScanRange) : exec Z :=
  _ ← assert_that (sstart r <=? send r);
  Ok (send r - sstart r).

(** [ScanRange::truncate_start] *)
Definition truncate_start (r : ScanRange) (block_height : Z) : option ScanRange :=
  if (send r <=? block_height) || is_empty r then None
  else Some (MkScanRange (Z.max (sstart r) block_height ..- send r) (priority r)).

(** [ScanRange::truncate_end] *)
Definition truncate_end (r : ScanRange) (block_height : Z) : option ScanRange :=
  if (block_height <=? sstart r) || is_empty r then None
  else Some (MkScanRange (sstart r ..- Z.min (send r) block_height) (priority r)).

(** [ScanRange::split_at] *)
Definition split_at (r : ScanRange) (p : Z) : option (ScanRange * ScanRange) :=
  if (sstart r <? p) && (p <? send r)
  then Some (MkScanRange (sstart r ..- p) (priority r), MkScanRange (p ..- send r) (priority r))
  else None.

(** ** Lemmas *)

(** The ranges that [from_parts] accepts. *)
Definition sr_ok (r : ScanRange) : Prop := sstart r <= send r.
Definition sr_nonempty (r : ScanRange) : Prop := sstart r < send r.

Lemma sr_nonempty_ok r : sr_nonempty r -> sr_ok r.
Proof. unfold sr_nonempty, sr_ok. lia. Qed.
#[export] Hint Resolve sr_nonempty_ok : wallet.

Lemma from_parts_ok br p : rstart br <= rend br -> from_parts br p = Ok (MkScanRange br p).
Proof. intros ?. unfold from_parts. rewrite assert_that_true; [done | lia]. Qed.

Lemma is_empty_false r : is_empty r = false <-> sr_nonempty r.
Proof. unfold is_empty, range_is_empty, sr_nonempty. zcases; naive_solver lia. Qed.

Lemma is_empty_true r : is_empty r = true <-> send r <= sstart r.
Proof. unfold is_empty, range_is_empty. zcases; naive_solver lia. Qed.

Lemma len_ok r : sr_ok r -> len r = Ok (send r - sstart r).
Proof. intros ?. unfold len. rewrite assert_that_true; [done | unfold sr_ok in *; lia]. Qed.

(** Truncation and splitting as set operations on the heights covered. *)
Lemma truncate_start_spec r h :
  match truncate_start r h with
  | Some r' => sr_nonempty r' /\ priority r' = priority r /\ sstart r' = Z.max (sstart r) h /\
               send r' = send r /\ sr_nonempty r /\ h < send r
  | None => send r <= h \/ send r <= sstart r
  end.
Proof.
  unfold truncate_start, is_empty, range_is_empty, sr_nonempty. cbn.
  zcases; cbn; lia || (repeat split; lia).
Qed.

Lemma truncate_end_spec r h :
  match truncate_end r h with
  | Some r' => sr_nonempty r' /\ priority r' = priority r /\ send r' = Z.min (send r) h /\
               sstart r' = sstart r /\ sr_nonempty r /\ sstart r < h
  | None => h <= sstart r \/ send r <= sstart r
  end.
Proof.
  unfold truncate_end, is_empty, range_is_empty, sr_nonempty. cbn.
  zcases; cbn; lia || (repeat split; lia).
Qed.

Lemma split_at_inside r p :
  sstart r < p < send r ->
  split_at r p = Some (MkScanRange (sstart r ..- p) (priority r),
                       MkScanRange (p ..- send r) (priority r)).
Proof. intros ?. unfold split_at. zcases; cbn; (lia || done). Qed.

Lemma split_at_outside r p : p <= sstart r \/ send r <= p -> split_at r p = None.
Proof. intros ?. unfold split_at. zcases; cbn; (lia || done). Qed.

(** ** Queues as functions from heights to priorities *)

(** The priority that a list of ranges gives to a height: that of the first
    range that contains it. *)
Fixpoint prio_at (l : list ScanRange) (h : Z) : option ScanPriority :=
  match l with
  | [] => None
  | r :: l => if in_range h (block_range r) then Some (priority r) else prio_at l h
  end.

(** [chain s l e]: the ranges of [l] are adjacent and cover exactly [s..e]. *)
Fixpoint chain (s : Z) (l : list ScanRange) (e : Z) : Prop :=
  match l with
  | [] => s = e
  | r :: l => sstart r = s /\ sr_ok r /\ chain (send r) l e
  end.

Lemma in_range_true h r : in_range h r = true <-> rstart r <= h < rend r.
Proof. unfold in_range. zcases; naive_solver lia. Qed.

Lemma in_range_false h r : in_range h r = false <-> ~ rstart r <= h < rend r.
Proof. unfold in_range. zcases; naive_solver lia. Qed.

Lemma chain_le s l e : chain s l e -> s <= e.
Proof.
  revert s. induction l as [|r l IH]; cbn; intros s; [lia|].
  intros (<- & Hok & Hc). apply IH in Hc. unfold sr_ok in *. lia.
Qed.

Lemma chain_app s l1 l2 e : chain s (l1 ++ l2) e <-> exists m, chain s l1 m /\ chain m l2 e.
Proof.
  revert s. induction l1 as [|r l1 IH]; cbn; intros s; [naive_solver|].
  rewrite IH. naive_solver.
Qed.

Lemma prio_at_app l1 l2 h :
  prio_at (l1 ++ l2) h = match prio_at l1 h with Some p => Some p | None => prio_at l2 h end.
Proof. induction l1 as [|r l1 IH]; cbn; [done|]. by destruct (in_range _ _). Qed.

Lemma chain_prio_inside s l e h : chain s l e -> s <= h < e -> is_Some (prio_at l h).
Proof.
  revert s. induction l as [|r l IH]; cbn; intros s; [lia|].
  intros (<- & Hok & Hc) Hh. destruct (in_range h _) eqn:E; [eauto|].
  apply in_range_false in E. eapply IH; [done|lia].
Qed.

Lemma chain_prio_outside s l e h : chain s l e -> ~ s <= h < e -> prio_at l h = None.
Proof.
  revert s. induction l as [|r l IH]; cbn; intros s; [done|].
  intros (<- & Hok & Hc) Hh. pose proof (chain_le _ _ _ Hc). unfold sr_ok in *.
  destruct (in_range h _) eqn:E; [apply in_range_true in E; lia|].
  eapply IH; [done|lia].
Qed.

Lemma chain_strict s l e : chain s l e -> Forall sr_nonempty l -> l <> [] -> s < e.
Proof.
  destruct l as [|r l]; cbn; [done|]. intros (<- & _ & Hc) Hne _.
  apply chain_le in Hc. inversion Hne. unfold sr_nonempty in *. lia.
Qed.
