(* ===== verification/SpanningTree.v ===== *)
(** * The spanning tree of scan ranges

    [zcash_client_backend/src/data_api/scanning/spanning_tree.rs]: merging scan
    ranges of different priorities.  [assert!], [expect] and [unreachable!] are
    the panics of [exec]; the theorems show which inputs cannot reach them. *)

From S2P Require Import Prelude ScanRange.

(** ** Data *)

Inductive InsertOn : Type := OnLeft | OnRight.

Record Insert : Type := MkInsert { on : InsertOn; force_rescan : bool }.

(** [Insert::left], [Insert::right] *)
Definition insert_left (force : bool) : Insert := MkInsert OnLeft force.
Definition insert_right (force : bool) : Insert := MkInsert OnRight force.

(** [impl Not for Insert] *)
Definition insert_not (i : Insert) : Insert :=
  MkInsert (match on i with OnLeft => OnRight | OnRight => OnLeft end) (force_rescan i).

Inductive Dominance : Type := DomLeft | DomRight | DomEqual.

(** [impl From<Insert> for Dominance] *)
Definition dominance_from (i : Insert) : Dominance :=
  match on i with OnLeft => DomLeft | OnRight => DomRight end.

(** [dominance] *)
Definition dominance (current inserted : ScanPriority) (insert : Insert) : Dominance :=
  match prio_cmp current inserted, current, inserted with
  | Eq, _, _ => DomEqual
  | _, _, (Verify | Scanned) => dominance_from insert
  | c, Scanned, _ =>
      if negb (force_rescan insert) then dominance_from (insert_not insert)
      else match c with
           | Lt => dominance_from insert
           | _ => dominance_from (insert_not insert)
           end
  | Lt, _, _ => dominance_from insert
  | Gt, _, _ => dominance_from (insert_not insert)
  end.

Inductive RangeOrdering : Type :=
| LeftFirstDisjoint | LeftFirstOverlap | LeftContained | REqual
| RightContained | RightFirstOverlap | RightFirstDisjoint.

(** [RangeOrdering::cmp] *)
Definition range_cmp (a b : Range) : exec RangeOrdering :=
  _ ← assert_that ((rstart a <=? rend a) && (rstart b <=? rend b));
  Ok (if rend a <=? rstart b then LeftFirstDisjoint
      else if rend b <=? rstart a then RightFirstDisjoint
      else match rstart a ?= rstart b, rend a ?= rend b with
           | Lt, Lt => LeftFirstOverlap
           | Eq, Lt | Gt, Lt | Gt, Eq => LeftContained
           | Eq, Eq => REqual
           | Eq, Gt | Lt, Gt | Lt, Eq => RightContained
           | Gt, Gt => RightFirstOverlap
           end).

Inductive Joined : Type :=
| One (a : ScanRange)
| Two (a b : ScanRange)
| Three (a b c : ScanRange).

(** [join_nonoverlapping].  The recursive calls of the source receive adjacent
    ranges, so the recursion is at most two deep; [join_nonoverlapping_total]
    shows that the fuel [2] is enough. *)
Fixpoint join_nonoverlapping_fuel (fuel : nat) (left right : ScanRange) : exec Joined :=
  match fuel with
  | O => Err OutOfFuel
  | S fuel =>
      _ ← assert_that (send left <=? sstart right);
      if send left =? sstart right then
        if decide (priority left = priority right) then
          m ← from_parts (sstart left ..- send right) (priority left);
          Ok (One m)
        else Ok (Two left right)
      else
        gap ← from_parts (send left ..- sstart right) Historic;
        j ← join_nonoverlapping_fuel fuel left gap;
        match j with
        | One merged => join_nonoverlapping_fuel fuel merged right
        | Two l gap =>
            j ← join_nonoverlapping_fuel fuel gap right;
            match j with
            | One merged => Ok (Two l merged)
            | Two gap r => Ok (Three l gap r)
            | Three _ _ _ => Err Unreachable
            end
        | Three _ _ _ => Err Unreachable
        end
  end.

Definition join_nonoverlapping : ScanRange -> ScanRange -> exec Joined :=
  join_nonoverlapping_fuel 2.

(** [insert::join_overlapping] *)
Definition join_overlapping (left right : ScanRange) (insert : Insert) : exec Joined :=
  _ ← assert_that ((sstart left <=? sstart right) && (sstart right <? send left));
  match (match on insert with
         | OnLeft => dominance (priority right) (priority left) insert
         | OnRight => dominance (priority left) (priority right) insert
         end) with
  | DomLeft =>
      match truncate_start right (send left) with
      | Some r => Ok (Two left r)
      | None => Ok (One left)
      end
  | DomEqual =>
      m ← from_parts (sstart left ..- Z.max (send left) (send right)) (priority left);
      Ok (One m)
  | DomRight =>
      Ok match truncate_end left (sstart right), truncate_start left (send right) with
         | Some before, Some after => Three before right after
         | Some before, None => Two before right
         | None, Some after => Two right after
         | None, None => One right
         end
  end.

(** [insert] *)
Definition insert_range (current to_insert : ScanRange) (force_rescans : bool) : exec Joined :=
  o ← range_cmp (block_range to_insert) (block_range current);
  match o with
  | LeftFirstDisjoint => join_nonoverlapping to_insert current
  | LeftFirstOverlap | RightContained =>
      join_overlapping to_insert current (insert_left force_rescans)
  | REqual =>
      m ← from_parts (block_range to_insert)
            (match dominance (priority current) (priority to_insert)
                     (insert_right force_rescans) with
             | DomLeft | DomEqual => priority current
             | DomRight => priority to_insert
             end);
      Ok (One m)
  | RightFirstOverlap | LeftContained =>
      join_overlapping current to_insert (insert_right force_rescans)
  | RightFirstDisjoint => join_nonoverlapping current to_insert
  end.

Inductive SpanningTree : Type :=
| Leaf (entry : ScanRange)
| Parent (tspan : Range) (left right : SpanningTree).

(** [SpanningTree::span] *)
Definition span (t : SpanningTree) : Range :=
  match t with Leaf entry => block_range entry | Parent s _ _ => s end.

(** [SpanningTree::from_joined] *)
Definition from_joined (j : Joined) : SpanningTree :=
  match j with
  | One entry => Leaf entry
  | Two l r => Parent (sstart l ..- send r) (Leaf l) (Leaf r)
  | Three l mid r =>
      Parent (sstart l ..- send r) (Leaf l)
        (Parent (sstart mid ..- send r) (Leaf mid) (Leaf r))
  end.

(** [SpanningTree::from_insert] and [SpanningTree::from_split] call
    [SpanningTree::insert] on the children: the recursive call is an argument. *)
Section FromChildren.
Variable insert_rec : SpanningTree -> ScanRange -> bool -> exec SpanningTree.

Definition from_insert (left right : SpanningTree) (to_insert : ScanRange) (insert : Insert)
    : exec SpanningTree :=
  match on insert with
  | OnLeft =>
      left ← insert_rec left to_insert (force_rescan insert);
      Ok (Parent (rstart (span left) ..- rend (span right)) left right)
  | OnRight =>
      right ← insert_rec right to_insert (force_rescan insert);
      Ok (Parent (rstart (span left) ..- rend (span right)) left right)
  end.

Definition from_split (left right : SpanningTree) (to_insert : ScanRange) (split_point : Z)
    (force_rescans : bool) : exec SpanningTree :=
  '(l_insert, r_insert) ← expect (split_at to_insert split_point);
  left ← insert_rec left l_insert force_rescans;
  right ← insert_rec right r_insert force_rescans;
  Ok (Parent (rstart (span left) ..- rend (span right)) left right).
End FromChildren.

(** [SpanningTree::insert] *)
Fixpoint tree_insert (t : SpanningTree) (to_insert : ScanRange) (force_rescans : bool)
    : exec SpanningTree :=
  match t with
  | Leaf cur => j ← insert_range cur to_insert force_rescans; Ok (from_joined j)
  | Parent tspan lt rt =>
      let split_point := rend (span lt) in
      o ← range_cmp tspan (block_range to_insert);
      match o with
      | LeftFirstDisjoint =>
          from_insert tree_insert lt rt to_insert (insert_right force_rescans)
      | LeftFirstOverlap =>
          if sstart to_insert <? split_point
          then from_split tree_insert lt rt to_insert split_point force_rescans
          else from_insert tree_insert lt rt to_insert (insert_right force_rescans)
      | RightContained =>
          if split_point <=? sstart to_insert
          then from_insert tree_insert lt rt to_insert (insert_right force_rescans)
          else if send to_insert <=? split_point
          then from_insert tree_insert lt rt to_insert (insert_left force_rescans)
          else from_split tree_insert lt rt to_insert split_point force_rescans
      | REqual =>
          if sstart to_insert <? split_point
          then from_split tree_insert lt rt to_insert split_point force_rescans
          else tree_insert rt to_insert force_rescans
      | LeftContained =>
          from_split tree_insert lt rt to_insert split_point force_rescans
      | RightFirstOverlap =>
          if split_point <? send to_insert
          then from_split tree_insert lt rt to_insert split_point force_rescans
          else from_insert tree_insert lt rt to_insert (insert_left force_rescans)
      | RightFirstDisjoint =>
          from_insert tree_insert lt rt to_insert (insert_left force_rescans)
      end
  end.

(** [SpanningTree::into_vec::go].  The accumulator is the vector in reverse, so
    that [pop] and [push] are at its head. *)
Fixpoint into_vec_go (acc : list ScanRange) (t : SpanningTree) : exec (list ScanRange) :=
  match t with
  | Leaf entry =>
      if negb (is_empty entry) then
        match acc with
        | top :: acc =>
            j ← join_nonoverlapping top entry;
            match j with
            | One merged => Ok (merged :: acc)
            | Two l r => Ok (r :: l :: acc)
            | Three _ _ _ => Err Unreachable
            end
        | [] => Ok [entry]
        end
      else Ok acc
  | Parent _ lt rt => acc ← into_vec_go acc lt; into_vec_go acc rt
  end.

(** [SpanningTree::into_vec] *)
Definition into_vec (t : SpanningTree) : exec (list ScanRange) :=
  acc ← into_vec_go [] t; Ok (reverse acc).

(** ** Specification

    The abstract queue is the function from heights to priorities.  [combine] is
    the rule stated at [dominance]: an inserted [Verify] or [Scanned] wins, a
    current [Scanned] is kept unless a rescan is forced, and otherwise the higher
    priority wins. *)
Definition combine (force : bool) (current inserted : ScanPriority) : ScanPriority :=
  if decide (inserted = Verify \/ inserted = Scanned) then inserted
  else if decide (current = Scanned /\ force = false) then current
  else if prio_rank current <? prio_rank inserted then inserted else current.

Definition hull (a b : Range) : Range :=
  Z.min (rstart a) (rstart b) ..- Z.max (rend a) (rend b).

(** Inserting [r] into a queue that covers [s] with the priorities [old]: heights
    of [r] are combined, other covered heights are kept, and a gap between [s]
    and [r] becomes [Historic]. *)
Definition insert_spec (force : bool) (s : Range) (old : Z -> option ScanPriority)
    (r : ScanRange) (h : Z) : option ScanPriority :=
  match old h with
  | Some c => Some (if in_range h (block_range r) then combine force c (priority r) else c)
  | None =>
      if in_range h (block_range r) then Some (priority r)
      else if in_range h (hull s (block_range r)) then Some Historic
      else None
  end.

Fixpoint leaves (t : SpanningTree) : list ScanRange :=
  match t with Leaf e => [e] | Parent _ l r => leaves l ++ leaves r end.

Definition joined_list (j : Joined) : list ScanRange :=
  match j with One a => [a] | Two a b => [a; b] | Three a b c => [a; b; c] end.

(** The tree invariant: siblings are adjacent and each node stores its span. *)
Fixpoint wf (t : SpanningTree) : Prop :=
  match t with
  | Leaf e => sr_ok e
  | Parent s l r =>
      wf l /\ wf r /\ rend (span l) = rstart (span r) /\ s = (rstart (span l) ..- rend (span r))
  end.

Definition nonempty_leaves (t : SpanningTree) : Prop := Forall sr_nonempty (leaves t).

(** ** Lemmas *)

Variant dominance_cases (force : bool) (c i : ScanPriority) (ins : Insert) : Dominance -> Prop :=
| dc_equal : c = i -> dominance_cases force c i ins DomEqual
| dc_inserted : combine force c i = i -> dominance_cases force c i ins (dominance_from ins)
| dc_current : combine force c i = c ->
    dominance_cases force c i ins (dominance_from (insert_not ins)).

Lemma dominance_spec c i ins :
  dominance_cases (force_rescan ins) c i ins (dominance c i ins).
Proof.
  destruct ins as [o f].
  destruct c, i; destruct f;
    first [ by apply dc_equal | by apply dc_inserted | by apply dc_current ].
Qed.

Lemma combine_diag f c : combine f c c = c.
Proof. by destruct c, f. Qed.

(** What a join of ranges must deliver: adjacent ranges over [s], with the
    priorities [f]. *)
Definition joined_spec (s : Range) (f : Z -> option ScanPriority) (strict : Prop) (j : Joined)
    : Prop :=
  chain (rstart s) (joined_list j) (rend s) /\
  (forall h, prio_at (joined_list j) h = f h) /\
  (strict -> Forall sr_nonempty (joined_list j)).

Lemma join_adjacent fuel a b :
  sr_ok a -> sr_ok b -> send a = sstart b ->
  join_nonoverlapping_fuel (S fuel) a b =
    Ok (if decide (priority a = priority b)
        then One (MkScanRange (sstart a ..- send b) (priority a)) else Two a b).
Proof.
  unfold sr_ok. intros Ha Hb Hab. cbn. rewrite assert_that_true by lia. cbn.
  rewrite Hab, Z.eqb_refl. case_decide; [|done]. by rewrite from_parts_ok by (cbn; lia).
Qed.

Lemma join_gap fuel a b :
  send a < sstart b ->
  join_nonoverlapping_fuel (S fuel) a b =
    (j ← join_nonoverlapping_fuel fuel a (MkScanRange (send a ..- sstart b) Historic);
     match j with
     | One merged => join_nonoverlapping_fuel fuel merged b
     | Two l gap =>
         j ← join_nonoverlapping_fuel fuel gap b;
         match j with
         | One merged => Ok (Two l merged)
         | Two gap r => Ok (Three l gap r)
         | Three _ _ _ => Err Unreachable
         end
     | Three _ _ _ => Err Unreachable
     end).
Proof.
  intros Hab. cbn [join_nonoverlapping_fuel]. rewrite assert_that_true by lia.
  cbn [mbind res_bind]. rewrite (proj2 (Z.eqb_neq _ _)) by lia.
  by rewrite from_parts_ok by (cbn; lia).
Qed.

(** The two-level recursion of [join_nonoverlapping] always ends. *)
Lemma join_nonoverlapping_eq a b :
  sr_ok a -> sr_ok b -> send a <= sstart b ->
  join_nonoverlapping a b =
    Ok (if decide (send a = sstart b) then
          if decide (priority a = priority b)
          then One (MkScanRange (sstart a ..- send b) (priority a)) else Two a b
        else
          let g := MkScanRange (send a ..- sstart b) Historic in
          if decide (priority a = Historic) then
            if decide (priority b = Historic)
            then One (MkScanRange (sstart a ..- send b) Historic)
            else Two (MkScanRange (sstart a ..- sstart b) Historic) b
          else if decide (Historic = priority b)
          then Two a (MkScanRange (send a ..- send b) Historic)
          else Three a g b).
Proof.
  unfold sr_ok. intros Ha Hb Hab. unfold join_nonoverlapping.
  destruct (decide (send a = sstart b)) as [E|E].
  { by apply join_adjacent. }
  rewrite join_gap by lia. rewrite join_adjacent by (unfold sr_ok; cbn; lia).
  cbn [mbind res_bind block_range priority rstart rend].
  destruct (decide (priority a = Historic)) as [Hp|Hp];
    cbn [mbind res_bind]; rewrite join_adjacent by (unfold sr_ok; cbn; lia);
    cbn; rewrite ?Hp; repeat case_decide; (done || congruence).
Qed.

Ltac ranges :=
  repeat match goal with
  | r : ScanRange |- _ => destruct r as [[? ?] ?]
  | r : Range |- _ => destruct r as [? ?]
  end; cbn in *; unfold sr_ok, sr_nonempty, hull, in_range in *; cbn in *.

Lemma join_nonoverlapping_spec a b :
  sr_ok a -> sr_ok b -> send a <= sstart b ->
  exists j, join_nonoverlapping a b = Ok j /\
    joined_spec (sstart a ..- send b)
      (fun h => match prio_at [a] h with Some p => Some p | None =>
                if in_range h (send a ..- sstart b) then Some Historic else prio_at [b] h end)
      (sr_nonempty a /\ sr_nonempty b) j.
Proof.
  intros Ha Hb Hab. eexists. split; [by apply join_nonoverlapping_eq|].
  ranges. repeat case_decide; subst; unfold joined_spec; cbn;
    (split; [unfold sr_ok; cbn; lia|]; split;
     [ intros h; unfold in_range; cbn; zcases; done
     | intros [? ?]; unfold sr_nonempty; repeat constructor; cbn; lia ]).
Qed.

(** Closes the goals of [joined_spec] on concrete lists of ranges. *)
Ltac solve_joined :=
  unfold joined_spec, insert_spec, hull, in_range, sr_ok, sr_nonempty; cbn;
  split; [unfold sr_ok; cbn; lia|]; split;
  [ let h := fresh "h" in intros h; unfold in_range; cbn; zcases; cbn;
    rewrite ?combine_diag; (done || congruence)
  | intros; repeat constructor; cbn; lia ].

Lemma join_overlapping_right l r force :
  sstart l <= sstart r < send l -> sr_ok r ->
  exists j, join_overlapping l r (insert_right force) = Ok j /\
    joined_spec (hull (block_range l) (block_range r))
      (insert_spec force (block_range l) (prio_at [l]) r) (sr_nonempty r) j.
Proof.
  intros Hlr Hr. unfold join_overlapping. rewrite assert_that_true by lia. cbn [mbind res_bind on insert_right].
  pose proof (dominance_spec (priority l) (priority r) (insert_right force)) as Hd.
  destruct Hd as [E|E|E]; cbn [dominance_from insert_not on insert_right force_rescan] in *.
  - rewrite from_parts_ok by (ranges; lia). eexists; split; [done|].
    ranges. subst. solve_joined.
  - eexists; split; [done|].
    pose proof (truncate_end_spec l (sstart r)) as He.
    pose proof (truncate_start_spec l (send r)) as Hs.
    destruct (truncate_end l _), (truncate_start l _); ranges; destruct_and?; subst;
      solve_joined.
  - pose proof (truncate_start_spec r (send l)) as Hs.
    destruct (truncate_start r _); eexists; (split; [done|]);
      ranges; destruct_and?; subst; solve_joined.
Qed.

Lemma join_overlapping_left l r force :
  sstart l <= sstart r < send l -> sr_ok r ->
  exists j, join_overlapping l r (insert_left force) = Ok j /\
    joined_spec (hull (block_range r) (block_range l))
      (insert_spec force (block_range r) (prio_at [r]) l) (sr_nonempty r) j.
Proof.
  intros Hlr Hr. unfold join_overlapping. rewrite assert_that_true by lia. cbn [mbind res_bind on insert_left].
  pose proof (dominance_spec (priority r) (priority l) (insert_left force)) as Hd.
  destruct Hd as [E|E|E]; cbn [dominance_from insert_not on insert_left force_rescan] in *.
  - rewrite from_parts_ok by (ranges; lia). eexists; split; [done|].
    ranges. subst. solve_joined.
  - pose proof (truncate_start_spec r (send l)) as Hs.
    destruct (truncate_start r _); eexists; (split; [done|]);
      ranges; destruct_and?; subst; solve_joined.
  - eexists; split; [done|].
    pose proof (truncate_end_spec l (sstart r)) as He.
    pose proof (truncate_start_spec l (send r)) as Hs.
    destruct (truncate_end l _), (truncate_start l _); ranges; destruct_and?; subst;
      solve_joined.
Qed.

(** The seven orderings as inequalities between the bounds. *)
Definition ordering_facts (a b : Range) (o : RangeOrdering) : Prop :=
  let overlap := rstart b < rend a /\ rstart a < rend b in
  match o with
  | LeftFirstDisjoint => rend a <= rstart b
  | RightFirstDisjoint => rend b <= rstart a
  | LeftFirstOverlap => overlap /\ rstart a < rstart b /\ rend a < rend b
  | RightFirstOverlap => overlap /\ rstart b < rstart a /\ rend b < rend a
  | LeftContained => overlap /\ rstart b <= rstart a /\ rend a <= rend b /\ a <> b
  | RightContained => overlap /\ rstart a <= rstart b /\ rend b <= rend a /\ a <> b
  | REqual => overlap /\ rstart a = rstart b /\ rend a = rend b
  end.

Lemma range_cmp_spec a b :
  rstart a <= rend a -> rstart b <= rend b ->
  exists o, range_cmp a b = Ok o /\ ordering_facts a b o.
Proof.
  intros Ha Hb. unfold range_cmp. rewrite assert_that_true by lia.
  eexists; split; [done|]. destruct a as [a1 a2], b as [b1 b2]; cbn in *.
  zcases; [done..|].
  destruct (Z.compare_spec a1 b1), (Z.compare_spec a2 b2); cbn;
    repeat split; subst; (lia || congruence || intros [=]; lia).
Qed.

Lemma joined_spec_weaken s f g (P Q : Prop) j :
  joined_spec s f P j -> (forall h, f h = g h) -> (Q -> P) -> joined_spec s g Q j.
Proof. intros (Hc & Hf & Hs) Hfg HQP. split_and!; [done| |tauto]. intros h. by rewrite Hf. Qed.

Lemma insert_range_spec cur r force :
  sr_ok cur -> sr_ok r ->
  exists j, insert_range cur r force = Ok j /\
    joined_spec (hull (block_range cur) (block_range r))
      (insert_spec force (block_range cur) (prio_at [cur]) r)
      (sr_nonempty cur /\ sr_nonempty r) j.
Proof.
  intros Hcur Hr. unfold insert_range.
  destruct (range_cmp_spec (block_range r) (block_range cur)) as (o & -> & Ho); [done..|].
  cbn [mbind res_bind].
  destruct o; cbn in Ho.
  - destruct (join_nonoverlapping_spec r cur) as (j & -> & Hj); [done..|].
    exists j; split; [done|]. replace (hull _ _) with (sstart r ..- send cur)
      by (ranges; f_equal; lia).
    eapply joined_spec_weaken; [exact Hj| |tauto]. clear Hj.
    intros h. unfold insert_spec. ranges. zcases; cbn; done.
  - destruct (join_overlapping_left r cur force) as (j & -> & Hj); [lia|done|].
    exists j; split; [done|]. eapply joined_spec_weaken; [exact Hj|done|tauto].
  - destruct (join_overlapping_right cur r force) as (j & -> & Hj); [lia|done|].
    exists j; split; [done|]. eapply joined_spec_weaken; [exact Hj|done|tauto].
  - rewrite from_parts_ok by done. eexists; split; [done|].
    pose proof (dominance_spec (priority cur) (priority r) (insert_right force)) as Hd.
    destruct Hd as [E|E|E]; cbn in *; ranges; destruct_and?; simplify_eq; solve_joined.
  - destruct (join_overlapping_left r cur force) as (j & -> & Hj); [lia|done|].
    exists j; split; [done|]. eapply joined_spec_weaken; [exact Hj|done|tauto].
  - destruct (join_overlapping_right cur r force) as (j & -> & Hj); [lia|done|].
    exists j; split; [done|]. eapply joined_spec_weaken; [exact Hj|done|tauto].
  - destruct (join_nonoverlapping_spec cur r) as (j & -> & Hj); [done..|].
    exists j; split; [done|]. replace (hull _ _) with (sstart cur ..- send r)
      by (ranges; f_equal; lia).
    eapply joined_spec_weaken; [exact Hj| |tauto]. clear Hj.
    intros h. unfold insert_spec. ranges. zcases; cbn; done.
Qed.

Lemma leaves_from_joined j : leaves (from_joined j) = joined_list j.
Proof. by destruct j. Qed.

Lemma from_joined_wf s e j :
  chain s (joined_list j) e -> wf (from_joined j) /\ span (from_joined j) = (s ..- e).
Proof.
  destruct j as [a|a b|a b c]; cbn.
  - intros (<- & ? & <-). by destruct a as [[]].
  - intros (<- & ? & ? & ? & <-). repeat split; auto.
  - intros (<- & ? & ? & ? & ? & ? & <-). repeat split; auto.
Qed.

Lemma wf_chain t : wf t -> chain (rstart (span t)) (leaves t) (rend (span t)).
Proof.
  induction t as [e|s l IHl r IHr]; cbn; [auto|].
  intros (Hl & Hr & Hlr & ->). cbn. apply chain_app. exists (rend (span l)).
  rewrite Hlr at 2. auto.
Qed.

Lemma leaves_not_nil t : leaves t <> [].
Proof. induction t as [|s l IHl r IHr]; cbn; [done|]. by destruct (leaves l). Qed.

Lemma wf_span_le t : wf t -> rstart (span t) <= rend (span t).
Proof. intros H. eapply chain_le, wf_chain, H. Qed.

Lemma wf_span_lt t : wf t -> nonempty_leaves t -> rstart (span t) < rend (span t).
Proof. intros H Hne. eapply chain_strict; eauto using wf_chain, leaves_not_nil. Qed.

(** The property that [tree_insert] establishes at every level. *)
Definition inserted (force : bool) (t : SpanningTree) (r : ScanRange) (t' : SpanningTree) : Prop :=
  wf t' /\ span t' = hull (span t) (block_range r) /\
  (forall h, prio_at (leaves t') h =
             insert_spec force (span t) (prio_at (leaves t)) r h) /\
  (sr_nonempty r -> nonempty_leaves t').

Lemma wf_prio_inside t h :
  wf t -> rstart (span t) <= h < rend (span t) -> is_Some (prio_at (leaves t) h).
Proof. intros H. eapply chain_prio_inside, wf_chain, H. Qed.

Lemma wf_prio_outside t h :
  wf t -> ~ rstart (span t) <= h < rend (span t) -> prio_at (leaves t) h = None.
Proof. intros H. eapply chain_prio_outside, wf_chain, H. Qed.

(** Evaluates [prio_at] on a subtree by cases on whether its span contains [h]. *)
Ltac region H h :=
  match type of H with
  | wf ?t =>
      let Hi := fresh "Hi" in
      destruct (decide (rstart (span t) <= h < rend (span t))) as [Hi|Hi];
      [ let E := fresh "E" in destruct (wf_prio_inside t h H Hi) as [? E]; rewrite ?E
      | rewrite ?(wf_prio_outside t h H Hi) ]
  end.

Ltac solve_pointwise :=
  unfold insert_spec; cbn [block_range rstart rend priority];
  unfold hull, in_range; cbn [block_range rstart rend priority]; zcases; cbn; done.

Section Children.
Context (force : bool) (s : Range) (l r : SpanningTree) (ti : ScanRange).
Context (Hwf : wf (Parent s l r)) (Hne : nonempty_leaves (Parent s l r)) (Hti : sr_ok ti).

Lemma children_nonempty : nonempty_leaves l /\ nonempty_leaves r.
Proof using Hne. by apply Forall_app in Hne. Qed.

Lemma inserted_right r' :
  rend (span l) <= sstart ti -> inserted force r ti r' ->
  inserted force (Parent s l r) ti (Parent (rstart (span l) ..- rend (span r')) l r').
Proof using Hwf Hne Hti.
  destruct children_nonempty as [Hl Hr]. cbn in Hwf. destruct Hwf as (Hwl & Hwr & Hlr & ->).
  intros Hle (Hwr' & Hsp & Hpt & Hne'). pose proof (wf_span_lt _ Hwl Hl).
  pose proof (wf_span_lt _ Hwr Hr). unfold sr_ok in Hti. split_and!.
  - cbn. rewrite Hsp. unfold hull; cbn. split_and!; [done..|lia|done].
  - cbn. rewrite Hsp. unfold hull; cbn. f_equal; lia.
  - intros h. cbn. rewrite !prio_at_app, Hpt. unfold insert_spec.
    rewrite ?prio_at_app. region Hwl h; region Hwr h; try lia; solve_pointwise.
  - intros Hn. apply Forall_app. split; [done|by apply Hne'].
Qed.

Lemma inserted_left l' :
  send ti <= rend (span l) -> inserted force l ti l' ->
  inserted force (Parent s l r) ti (Parent (rstart (span l') ..- rend (span r)) l' r).
Proof using Hwf Hne Hti.
  destruct children_nonempty as [Hl Hr]. cbn in Hwf. destruct Hwf as (Hwl & Hwr & Hlr & ->).
  intros Hle (Hwl' & Hsp & Hpt & Hne'). pose proof (wf_span_lt _ Hwl Hl).
  pose proof (wf_span_lt _ Hwr Hr). unfold sr_ok in Hti. split_and!.
  - cbn. rewrite Hsp. unfold hull; cbn. split_and!; [done..|lia|done].
  - cbn. rewrite Hsp. unfold hull; cbn. f_equal; lia.
  - intros h. cbn. rewrite !prio_at_app, Hpt. unfold insert_spec.
    rewrite ?prio_at_app. region Hwl h; region Hwr h; try lia; solve_pointwise.
  - intros Hn. apply Forall_app. split; [by apply Hne'|done].
Qed.

Lemma inserted_split l' r' :
  sstart ti < rend (span l) < send ti ->
  inserted force l (MkScanRange (sstart ti ..- rend (span l)) (priority ti)) l' ->
  inserted force r (MkScanRange (rend (span l) ..- send ti) (priority ti)) r' ->
  inserted force (Parent s l r) ti (Parent (rstart (span l') ..- rend (span r')) l' r').
Proof using Hwf Hne Hti.
  destruct children_nonempty as [Hl Hr]. cbn in Hwf. destruct Hwf as (Hwl & Hwr & Hlr & ->).
  intros Hin (Hwl' & Hspl & Hptl & Hnel) (Hwr' & Hspr & Hptr & Hner).
  pose proof (wf_span_lt _ Hwl Hl). pose proof (wf_span_lt _ Hwr Hr). split_and!.
  - cbn. rewrite Hspl, Hspr. unfold hull; cbn. split_and!; [done..|lia|done].
  - cbn. rewrite Hspl, Hspr. unfold hull; cbn. f_equal; lia.
  - intros h. cbn. rewrite !prio_at_app, Hptl, Hptr. unfold insert_spec.
    rewrite ?prio_at_app. region Hwl h; region Hwr h; try lia; solve_pointwise.
  - intros _. apply Forall_app. unfold sr_nonempty in *; cbn in *.
    split; [apply Hnel | apply Hner]; lia.
Qed.
End Children.

(** ** Theorems *)

Lemma tree_insert_inserted t r force :
  wf t -> nonempty_leaves t -> sr_ok r ->
  exists t', tree_insert t r force = Ok t' /\ inserted force t r t'.
Proof.
  revert r. induction t as [cur|s l IHl rt IHr]; intros r Hwf Hne Hr.
  { destruct (insert_range_spec cur r force) as (j & Hj & Hspec); [done..|].
    cbn. rewrite Hj. eexists; split; [done|].
    destruct Hspec as (Hc & Hpt & Hst). destruct (from_joined_wf _ _ _ Hc) as [Hw Hs].
    unfold inserted, nonempty_leaves in *. rewrite !leaves_from_joined. cbn [leaves] in *.
    split_and!; [done| |done|].
    - rewrite Hs. by destruct (hull _ _).
    - intros ?. apply Hst. by inversion Hne. }
  pose proof (wf_span_lt _ Hwf Hne) as Hlt. pose proof Hwf as (Hwl & Hwr & Hlr & Hs).
  destruct (children_nonempty _ _ _ Hne) as [Hnl Hnr].
  pose proof (wf_span_lt _ Hwl Hnl). pose proof (wf_span_lt _ Hwr Hnr).
  assert (Hright : rend (span l) <= sstart r -> forall o, o = insert_right force ->
    exists t', from_insert tree_insert l rt r o = Ok t' /\ inserted force (Parent s l rt) r t').
  { intros Hle ? ->. destruct (IHr r) as (r' & E & Hi); [done..|].
    cbn. rewrite E. eexists; split; [done|]. by apply inserted_right. }
  assert (Hleft : send r <= rend (span l) -> forall o, o = insert_left force ->
    exists t', from_insert tree_insert l rt r o = Ok t' /\ inserted force (Parent s l rt) r t').
  { intros Hle ? ->. destruct (IHl r) as (l' & E & Hi); [done..|].
    cbn. rewrite E. eexists; split; [done|]. by apply inserted_left. }
  assert (Hsplit : sstart r < rend (span l) < send r ->
    exists t', from_split tree_insert l rt r (rend (span l)) force = Ok t' /\
               inserted force (Parent s l rt) r t').
  { intros Hin. unfold from_split. rewrite (split_at_inside _ _ Hin). cbn.
    edestruct IHl as (l' & -> & Hil); [done..| |]; [|edestruct IHr as (r' & -> & Hir); [done..| |]].
    1,2: unfold sr_ok; cbn; lia.
    eexists; split; [done|]. by apply inserted_split. }
  clear IHl IHr. cbn in Hlt. destruct (range_cmp_spec s (block_range r)) as (o & E & Ho); [lia|done|].
  cbn [tree_insert]. rewrite E. cbn [mbind res_bind]. subst s. cbn in Ho. unfold sr_ok in Hr.
  destruct o; cbn in Ho; destruct_and?; zcases;
    first [ apply Hsplit; lia | apply Hright; [lia|done] | apply Hleft; [lia|done] | lia ].
Qed.

(** *** Canonical vectors *)

Fixpoint adj_distinct (l : list ScanRange) : Prop :=
  match l with
  | a :: ((b :: _) as l') => priority a <> priority b /\ adj_distinct l'
  | _ => True
  end.

(** The canonical form of a queue over [s..e]: adjacent non-empty ranges whose
    neighbours have different priorities. *)
Definition canonical (s : Z) (l : list ScanRange) (e : Z) : Prop :=
  chain s l e /\ Forall sr_nonempty l /\ adj_distinct l.

Lemma adj_distinct_snoc2 l a b :
  adj_distinct (l ++ [a]) -> priority a <> priority b -> adj_distinct (l ++ [a; b]).
Proof.
  induction l as [|x l IH]; cbn; [done|].
  destruct l as [|y l]; cbn in *; [naive_solver|]. intros [? ?] ?. split; [done|]. by apply IH.
Qed.

Lemma adj_distinct_replace_last l a b :
  adj_distinct (l ++ [a]) -> priority a = priority b -> adj_distinct (l ++ [b]).
Proof.
  induction l as [|x l IH]; cbn; [done|].
  destruct l as [|y l]; cbn in *; [|naive_solver].
  intros [? ?] E. by rewrite <- E.
Qed.

Lemma canonical_tail s r l e : canonical s (r :: l) e -> canonical (send r) l e.
Proof.
  intros ((_ & _ & Hc) & Hne & Hd). inversion Hne; subst.
  split_and!; [done..|]. destruct l; [done|]. by destruct Hd.
Qed.

(** The vector ends with [top]; appending an adjacent [entry] with
    [join_nonoverlapping] keeps the vector canonical. *)
Lemma canonical_push s l top entry :
  canonical s (l ++ [top]) (sstart entry) -> sr_nonempty entry ->
  exists l', (j ← join_nonoverlapping top entry;
              match j with
              | One merged => Ok (merged :: reverse l)
              | Two a b => Ok (b :: a :: reverse l)
              | Three _ _ _ => Err Unreachable
              end) = Ok (reverse l') /\
    canonical s l' (send entry) /\
    (forall h, prio_at l' h = prio_at ((l ++ [top]) ++ [entry]) h).
Proof.
  intros (Hc & Hne & Hd) He. apply chain_app in Hc as (m & Hcl & Hst & Hok & Hend).
  cbn in Hend. apply Forall_app in Hne as [Hnl Hnt]. rewrite Forall_singleton in Hnt.
  rewrite join_nonoverlapping_eq by (auto with wallet; lia).
  rewrite decide_True by done. cbn. case_decide as Hp.
  - exists (l ++ [MkScanRange (sstart top ..- send entry) (priority top)]).
    rewrite reverse_snoc. split; [done|]. split; [split_and!|].
    + apply chain_app. exists m. cbn. unfold sr_ok, sr_nonempty in *. cbn. split_and!; [done..|lia|done].
    + apply Forall_app. split; [done|]. apply Forall_singleton.
      unfold sr_nonempty in *. cbn. lia.
    + by eapply adj_distinct_replace_last.
    + intros h. rewrite !prio_at_app. destruct (prio_at l h); [done|]. ranges.
      subst. zcases; cbn; done.
  - exists (l ++ [top; entry]). rewrite reverse_app. split; [done|]. split; [split_and!|].
    + apply chain_app. exists m. cbn. split_and!; try done; auto with wallet.
    + apply Forall_app. repeat constructor; done.
    + by apply adj_distinct_snoc2.
    + intros h. by rewrite <- app_assoc.
Qed.

Lemma into_vec_go_spec t s l :
  wf t -> canonical s l (rstart (span t)) ->
  exists l', into_vec_go (reverse l) t = Ok (reverse l') /\ canonical s l' (rend (span t)) /\
    forall h, prio_at l' h = prio_at (l ++ leaves t) h.
Proof.
  revert l. induction t as [e|sp lt IHl rt IHr]; intros l Hwf Hcan.
  - cbn [into_vec_go span leaves] in *. destruct (is_empty e) eqn:Ee; cbn [negb].
    + exists l. apply is_empty_true in Ee. cbn in Hwf.
      assert (sstart e = send e) as Heq by (unfold sr_ok in Hwf; lia).
      rewrite <- Heq. split_and!; [done..|]. intros h. rewrite prio_at_app. destruct (prio_at l h); [done|].
      ranges. zcases; cbn; done.
    + apply is_empty_false in Ee.
      destruct l as [|top l _] using rev_ind.
      * exists [e]. destruct Hcan as (Hc & _ & _). cbn in Hc. subst s.
        split_and!; [done|split_and!|done]; repeat constructor; auto with wallet.
      * rewrite reverse_snoc. by apply canonical_push.
  - cbn in Hwf. destruct Hwf as (Hl & Hr & Hlr & ->). cbn in Hcan.
    destruct (IHl l) as (l1 & E1 & Hc1 & Hp1); [done..|].
    rewrite Hlr in Hc1. destruct (IHr l1) as (l2 & E2 & Hc2 & Hp2); [done..|].
    exists l2. cbn. rewrite E1. cbn. split_and!; [done..|].
    intros h. by rewrite Hp2, prio_at_app, Hp1, app_assoc, !prio_at_app.
Qed.

Lemma into_vec_ok t :
  wf t -> exists l, into_vec t = Ok l /\ canonical (rstart (span t)) l (rend (span t)) /\
    forall h, prio_at l h = prio_at (leaves t) h.
Proof.
  intros Hwf. destruct (into_vec_go_spec t (rstart (span t)) []) as (l & E & Hc & Hp); [done..|].
  exists l. unfold into_vec. change [] with (reverse (A:=ScanRange) []). rewrite E. cbn.
  by rewrite reverse_involutive.
Qed.

Lemma prio_at_head r l h :
  sstart r <= h < send r -> prio_at (r :: l) h = Some (priority r).
Proof. intros H. cbn. by rewrite (proj2 (in_range_true _ _)). Qed.

Lemma prio_at_skip r l h : send r <= h -> prio_at (r :: l) h = prio_at l h.
Proof. intros H. cbn. rewrite (proj2 (in_range_false _ _)); [done|]. lia. Qed.

(** The height just after the first range has another priority, or none. *)
Lemma canonical_next s r l e :
  canonical s (r :: l) e -> prio_at (r :: l) (send r) <> Some (priority r).
Proof.
  intros (Hc & Hne & Hd). rewrite prio_at_skip by lia. cbn in Hc. destruct Hc as (_ & _ & Hc).
  destruct l as [|r' l]; [done|]. cbn in Hc. destruct Hc as (Es & _ & _).
  inversion Hne as [|? ? _ Hne']; inversion Hne'; subst. unfold sr_nonempty in *.
  rewrite prio_at_head by lia. destruct Hd as [Hd _]. congruence.
Qed.

Lemma canonical_first_end s r1 l1 e1 r2 l2 e2 :
  canonical s (r1 :: l1) e1 -> canonical s (r2 :: l2) e2 ->
  (forall h, prio_at (r1 :: l1) h = prio_at (r2 :: l2) h) ->
  priority r1 = priority r2 -> send r2 <= send r1.
Proof.
  intros H1 H2 Hp Hpr. apply Z.le_ngt. intros Hlt.
  apply (canonical_next _ _ _ _ H1). rewrite Hp, Hpr.
  destruct H1 as ((Hs1 & Hok & _) & _), H2 as ((Hs2 & _) & _). unfold sr_ok in Hok.
  apply prio_at_head. lia.
Qed.

Lemma canonical_start_le s1 l1 e1 s2 r2 l2 e2 :
  canonical s1 l1 e1 -> canonical s2 (r2 :: l2) e2 ->
  (forall h, prio_at l1 h = prio_at (r2 :: l2) h) -> s1 <= s2.
Proof.
  intros (Hc1 & _) ((Hs & _ & _) & Hne & _) Hp. inversion Hne; subst. unfold sr_nonempty in *.
  apply Z.le_ngt. intros Hlt. specialize (Hp (sstart r2)).
  rewrite prio_at_head in Hp by lia. by rewrite (chain_prio_outside _ _ _ _ Hc1) in Hp by lia.
Qed.

(** Two canonical vectors that give every height the same priority are equal. *)
Lemma canonical_unique l1 : forall l2 s1 e1 s2 e2,
  canonical s1 l1 e1 -> canonical s2 l2 e2 -> (forall h, prio_at l1 h = prio_at l2 h) -> l1 = l2.
Proof.
  induction l1 as [|r1 l1 IH]; intros [|r2 l2] s1 e1 s2 e2 H1 H2 Hp; [done|exfalso..|].
  - pose proof H2 as (_ & Hne & _). inversion Hne; subst. unfold sr_nonempty in *.
    specialize (Hp (sstart r2)). by rewrite prio_at_head in Hp by lia.
  - pose proof H1 as (_ & Hne & _). inversion Hne; subst. unfold sr_nonempty in *.
    specialize (Hp (sstart r1)). by rewrite prio_at_head in Hp by lia.
  - assert (s1 = s2) as <-.
    { apply Z.le_antisymm; eapply canonical_start_le; eauto. }
    pose proof H1 as ((Hs1 & _ & Hc1) & Hne1 & _). pose proof H2 as ((Hs2 & _ & Hc2) & Hne2 & _).
    inversion Hne1; inversion Hne2; subst. unfold sr_nonempty in *.
    assert (priority r1 = priority r2) as Hpr.
    { pose proof (Hp (sstart r1)) as E. rewrite !prio_at_head in E by lia. by simplify_eq. }
    assert (send r1 = send r2) as Hend.
    { apply Z.le_antisymm; eapply canonical_first_end; eauto. }
    f_equal.
    + destruct r1 as [[] ], r2 as [[] ]; cbn in *. by subst.
    + eapply IH; eauto using canonical_tail. intros h.
      destruct (decide (h < send r1)) as [Hh|Hh].
      * by rewrite (chain_prio_outside _ _ _ _ Hc1), (chain_prio_outside _ _ _ _ Hc2) by lia.
      * pose proof (Hp h) as E. by rewrite !prio_at_skip in E by lia.
Qed.

(** *** Claims *)

(** C1: Inserting a range into a spanning tree never panics and refines the
    abstract queue.  For a tree that satisfies the invariant and has no empty
    leaf, and any range (even an empty one), [SpanningTree::insert] returns a
    tree that satisfies the invariant, spans the hull of the old span and the
    range, gives every height of the range the priority [combine] prescribes,
    leaves other covered heights alone, marks the gap [Historic], and has no
    empty leaf when the range is not empty. *)
Theorem tree_insert_refines (t : SpanningTree) (r : ScanRange) (force : bool) :
  wf t -> nonempty_leaves t -> sr_ok r ->
  exists t', tree_insert t r force = Ok t' /\
    wf t' /\ span t' = hull (span t) (block_range r) /\
    (forall h, prio_at (leaves t') h = insert_spec force (span t) (prio_at (leaves t)) r h) /\
    (sr_nonempty r -> nonempty_leaves t').
Proof. intros. by apply tree_insert_inserted. Qed.

(** C2: [SpanningTree::into_vec] never panics on a tree that satisfies the
    invariant, and returns its normal form: two trees give the same vector
    exactly when they give every height the same priority, and that vector is
    the canonical one (adjacent non-empty ranges over the tree's span whose
    neighbours differ in priority). *)
Theorem into_vec_normal_form (t1 t2 : SpanningTree) :
  wf t1 -> wf t2 ->
  exists l1 l2, into_vec t1 = Ok l1 /\ into_vec t2 = Ok l2 /\
    canonical (rstart (span t1)) l1 (rend (span t1)) /\
    (l1 = l2 <-> forall h, prio_at (leaves t1) h = prio_at (leaves t2) h).
Proof.
  intros H1 H2. destruct (into_vec_ok t1 H1) as (l1 & E1 & C1 & P1).
  destruct (into_vec_ok t2 H2) as (l2 & E2 & C2 & P2).
  exists l1, l2. split_and!; [done..|]. split.
  - intros <- h. by rewrite <- P1, <- P2.
  - intros Hp. eapply canonical_unique; eauto. intros h. by rewrite P1, P2, Hp.
Qed.

(** A tree with an empty leaf can make [SpanningTree::insert] panic: after the
    empty range [5..5] has been inserted into [0..10], inserting [5..12] asks
    [split_at] for a split at the start of the range and [expect] fails.  The
    hypothesis of [tree_insert_refines] on empty leaves is needed. *)
Theorem tree_insert_empty_leaf_panics :
  (t ← tree_insert (Leaf (MkScanRange (0 ..- 10) Historic))
         (MkScanRange (5 ..- 5) Verify) false;
   tree_insert t (MkScanRange (5 ..- 12) ChainTip) false) = Err ExpectFailed.
Proof. vm_compute. reflexivity. Qed.

(** *** Witnesses *)

(** The invariants are decidable on concrete trees. *)
Ltac solve_concrete :=
  repeat first [ apply Forall_cons; split | apply Forall_nil | split
               | progress unfold sr_ok, sr_nonempty, nonempty_leaves in * | progress cbn in * | done | lia ].

Definition example_tree : SpanningTree :=
  Parent (0 ..- 20) (Leaf (MkScanRange (0 ..- 10) Historic)) (Leaf (MkScanRange (10 ..- 20) Scanned)).

Lemma tree_insert_refines_witness :
  exists t', tree_insert example_tree (MkScanRange (5 ..- 25) ChainTip) false = Ok t' /\
    prio_at (leaves t') 7 = Some ChainTip /\ prio_at (leaves t') 12 = Some Scanned /\
    prio_at (leaves t') 24 = Some ChainTip.
Proof.
  destruct (tree_insert_refines example_tree (MkScanRange (5 ..- 25) ChainTip) false)
    as (t' & E & _ & _ & Hp & _).
  - vm_compute. repeat split; discriminate.
  - unfold example_tree. solve_concrete.
  - vm_compute. discriminate.
  - exists t'. rewrite !Hp. split; [exact E|]. vm_compute. auto.
Defined.

Lemma into_vec_normal_form_witness :
  exists l1 l2, into_vec example_tree = Ok l1 /\
    into_vec (Leaf (MkScanRange (0 ..- 20) Scanned)) = Ok l2 /\ l1 <> l2.
Proof.
  destruct (into_vec_normal_form example_tree (Leaf (MkScanRange (0 ..- 20) Scanned)))
    as (l1 & l2 & E1 & E2 & _ & Hiff).
  - vm_compute. repeat split; discriminate.
  - vm_compute. discriminate.
  - exists l1, l2. split; [exact E1|]. split; [exact E2|].
    intros E. apply Hiff with (h := 3) in E. vm_compute in E. discriminate.
Defined.
