(* ===== verification/ScanQueue.v ===== *)
(** * The persistent scan queue

    [zcash_client_sqlite/src/wallet/scanning.rs]: the [scan_queue] table, its rows
    and constraints, the query for suggested ranges and the operation that
    replaces entries.

    The table is the list of its rows; a [SELECT] is a filter and a sort, a
    [DELETE] a filter, and an [INSERT] checks the table's constraints.  An error
    ends the enclosing database transaction, so an operation returns the new
    table only when it succeeds. *)

From stdpp Require Import sorting.
From S2P Require Import Prelude ScanRange SpanningTree.

(** ** Rows *)

(** [priority_code] *)
Definition priority_code (p : ScanPriority) : Z :=
  match p with
  | Ignored => 0 | Scanned => 10 | Historic => 20 | LatestPoolActivation => 25
  | OpenAdjacent => 30 | FoundNote => 40 | ChainTip => 50 | Verify => 60
  end.

(** [parse_priority_code] *)
Definition parse_priority_code (code : Z) : option ScanPriority :=
  match code with
  | 0 => Some Ignored
  | 10 => Some Scanned
  | 20 => Some Historic
  | 25 => Some LatestPoolActivation
  | 30 => Some OpenAdjacent
  | 40 => Some FoundNote
  | 50 => Some ChainTip
  | 60 => Some Verify
  | _ => None
  end.

(** A row of [scan_queue]. *)
Record scan_row : Type := MkRow { row_start : Z; row_end : Z; row_priority : Z }.

#[global] Instance scan_row_eq_dec : EqDecision scan_row.
Proof. solve_decision. Defined.

Inductive QueueError : Type :=
| DbConstraint             (* rusqlite reports a violated table constraint *)
| CorruptedData (code : Z) (* a priority code that is not recognized *)
| Panicked (p : panic).

Definition lift_exec {A} (m : exec A) : res QueueError A :=
  match m with Ok a => Ok a | Err p => Err (Panicked p) end.

(** [scan_range_from_row] *)
Definition scan_range_from_row (row : scan_row) : res QueueError ScanRange :=
  priority ← ok_or (parse_priority_code (row_priority row)) (CorruptedData (row_priority row));
  lift_exec (from_parts (row_start row ..- row_end row) priority).

(** The constraints of [TABLE_SCAN_QUEUE]: unique starts, unique ends, and
    [block_range_start < block_range_end]. *)
Definition insert_row (tbl : list scan_row) (row : scan_row) : res QueueError (list scan_row) :=
  if (row_start row <? row_end row)
     && forallb (fun r => negb (row_start r =? row_start row) && negb (row_end r =? row_end row)) tbl
  then Ok (tbl ++ [row]) else Err DbConstraint.

(** The priority that [insert_queue_entries] stores: the read-time label
    [LatestPoolActivation] is never persisted. *)
Definition stored_priority (p : ScanPriority) : ScanPriority :=
  match p with LatestPoolActivation => Historic | p => p end.

Definition row_of (r : ScanRange) : scan_row :=
  MkRow (sstart r) (send r) (priority_code (priority r)).

(** [insert_queue_entries] *)
Definition insert_queue_entries (tbl : list scan_row) (entries : list ScanRange)
    : res QueueError (list scan_row) :=
  foldM (fun tbl entry =>
    if negb (is_empty entry)
    then insert_row tbl (MkRow (sstart entry) (send entry)
                           (priority_code (stored_priority (priority entry))))
    else Ok tbl) tbl entries.

(** ** Suggestions *)

(** [ORDER BY priority DESC, block_range_end DESC] *)
Definition row_order (a b : scan_row) : Prop :=
  row_priority b < row_priority a \/
  (row_priority a = row_priority b /\ row_end b <= row_end a).

#[global] Instance row_order_dec a b : Decision (row_order a b).
Proof. unfold row_order. apply _. Defined.

(** [suggest_scan_ranges] *)
Definition suggest_scan_ranges (tbl : list scan_row) (min_priority : ScanPriority)
    : res QueueError (list ScanRange) :=
  mapM_res scan_range_from_row
    (merge_sort row_order
       (filter (fun r => priority_code min_priority <= row_priority r) tbl)).

(** ** Replacing entries *)

Definition row_end_order (a b : scan_row) : Prop := row_end a <= row_end b.
#[global] Instance row_end_order_dec a b : Decision (row_end_order a b).
Proof. unfold row_end_order. apply _. Defined.

(** The rows that overlap the query range or are adjacent to it, in ascending
    order of their ends. *)
Definition adjacent_rows (query : Range) (tbl : list scan_row) : list scan_row :=
  merge_sort row_end_order
    (filter (fun r => ~ (rend query < row_start r \/ row_end r < rstart query)) tbl).

(** Adds an entry to the tree under construction. *)
Definition add_entry (force_rescans : bool) (to_create : option SpanningTree) (entry : ScanRange)
    : res QueueError (option SpanningTree) :=
  match to_create with
  | Some cur => t ← lift_exec (tree_insert cur entry force_rescans); Ok (Some t)
  | None => Ok (Some (Leaf entry))
  end.

(** [replace_queue_entries] *)
Definition replace_queue_entries (tbl : list scan_row) (query_range : Range)
    (entries : list ScanRange) (force_rescans : bool) : res QueueError (list scan_row) :=
  '(to_create, to_delete_ends) ←
    foldM (fun '(to_create, to_delete_ends) row =>
             entry ← scan_range_from_row row;
             to_create ← add_entry force_rescans to_create entry;
             Ok (to_create, to_delete_ends ++ [send entry]))
      (None, []) (adjacent_rows query_range tbl);
  to_create ← foldM (add_entry force_rescans) to_create entries;
  match to_create with
  | Some tree =>
      scan_ranges ← lift_exec (into_vec tree);
      insert_queue_entries
        (filter (fun r => row_end r ∉ (to_delete_ends : list Z)) tbl) scan_ranges
  | None => Ok tbl
  end.

(** ** Specification of the queue *)

Definition disjoint (a b : ScanRange) : Prop := send a <= sstart b \/ send b <= sstart a.

#[global] Instance disjoint_symmetric : Symmetric disjoint.
Proof. unfold disjoint. intros ? ?. tauto. Qed.

(** The invariant of the stored queue: non-empty ranges that do not overlap, none
    of them with the read-time priority. *)
Definition queue_ok (rs : list ScanRange) : Prop :=
  Forall sr_nonempty rs /\ pairwise disjoint rs /\
  Forall (fun r => priority r <> LatestPoolActivation) rs.

(** An abstract queue: a covered range and the priority of every height. *)
Definition abs_queue : Type := Range * (Z -> option ScanPriority).

Definition abs_insert (force : bool) (q : abs_queue) (e : ScanRange) : abs_queue :=
  (hull q.1 (block_range e), insert_spec force q.1 q.2 e).

(** The abstract queue that a list of insertions builds. *)
Definition abs_build (force : bool) (l : list ScanRange) : option abs_queue :=
  match l with
  | [] => None
  | e :: es => Some (foldl (abs_insert force) (block_range e, prio_at [e]) es)
  end.

Definition send_order (a b : ScanRange) : Prop := send a <= send b.
#[global] Instance send_order_dec a b : Decision (send_order a b).
Proof. unfold send_order. apply _. Defined.

Definition adjacent_to (query : Range) (r : ScanRange) : Prop :=
  ~ (rend query < sstart r \/ send r < rstart query).
#[global] Instance adjacent_to_dec query r : Decision (adjacent_to query r).
Proof. unfold adjacent_to. apply _. Defined.

(** The ranges of the queue that overlap the query range or touch it. *)
Definition adjacent_ranges (query : Range) (rs : list ScanRange) : list ScanRange :=
  merge_sort send_order (filter (adjacent_to query) rs).

(** Entries that may be inserted one after the other: only the last may be empty. *)
Definition entries_ok (es : list ScanRange) : Prop :=
  Forall sr_ok es /\ forall es' e, es = es' ++ [e] -> Forall sr_nonempty es'.

(** ** Lemmas *)

Lemma parse_priority_code_inv p : parse_priority_code (priority_code p) = Some p.
Proof. by destruct p. Qed.

Lemma scan_range_from_row_of r : sr_ok r -> scan_range_from_row (row_of r) = Ok r.
Proof.
  intros Hr. unfold scan_range_from_row, row_of. cbn. rewrite parse_priority_code_inv. cbn.
  destruct r as [[] ]. by rewrite from_parts_ok.
Qed.

Lemma disjoint_unique_end a b :
  sr_nonempty a -> sr_nonempty b -> a = b \/ disjoint a b -> send a = send b -> a = b.
Proof. unfold disjoint, sr_nonempty. intros ? ? [?|?] ?; [done|lia]. Qed.

Lemma queue_ok_elem rs x y :
  queue_ok rs -> x ∈ rs -> y ∈ rs -> sr_nonempty x /\ sr_nonempty y /\ (x = y \/ disjoint x y).
Proof.
  intros (Hne & Hd & _) Hx Hy. rewrite Forall_forall in Hne.
  split_and!; [auto..|]. by apply (pairwise_elem disjoint rs).
Qed.

Lemma queue_ok_Permutation rs rs' : rs ≡ₚ rs' -> queue_ok rs -> queue_ok rs'.
Proof. intros Hp. unfold queue_ok. by rewrite Hp. Qed.

Lemma queue_ok_filter (P : ScanRange -> Prop) `{!forall x, Decision (P x)} rs :
  queue_ok rs -> queue_ok (filter P rs).
Proof.
  unfold queue_ok. rewrite !Forall_forall. intros (? & ? & ?).
  split_and!; [|by apply pairwise_filter|]; intros x [_ Hx]%list_elem_of_filter; auto.
Qed.

(** Sorting the rows of a queue by a key is sorting its ranges by that key, when
    the key identifies the ranges. *)
Lemma merge_sort_rows (R : scan_row -> scan_row -> Prop) (R' : ScanRange -> ScanRange -> Prop)
    `{!forall a b, Decision (R a b), !forall a b, Decision (R' a b),
      !Transitive R, !Total R, !Transitive R', !Total R'} l :
  (forall a b, R (row_of a) (row_of b) <-> R' a b) ->
  (forall a b, a ∈ l -> b ∈ l -> R' a b -> R' b a -> a = b) ->
  merge_sort R (map row_of l) = map row_of (merge_sort R' l).
Proof.
  intros HR Hkey. eapply (StronglySorted_unique_strong R).
  - intros x1 x2 Hx1 Hx2 H1 H2. rewrite merge_sort_Permutation in Hx1.
    rewrite merge_sort_Permutation in Hx2.
    apply list_elem_of_fmap in Hx1 as (a & -> & Ha), Hx2 as (b & -> & Hb).
    f_equal. apply Hkey; [done..| |]; by apply HR.
  - by apply StronglySorted_merge_sort.
  - assert (StronglySorted R' (merge_sort R' l)) as Hs by by apply StronglySorted_merge_sort.
    induction Hs as [|a m Hm IH Ha]; cbn; constructor; [done|].
    apply Forall_map. eapply Forall_impl; [exact Ha|]. intros b Hb. by apply HR.
  - by rewrite !merge_sort_Permutation.
Qed.

Lemma filter_rows (P : scan_row -> Prop) (P' : ScanRange -> Prop)
    `{!forall a, Decision (P a), !forall a, Decision (P' a)} l :
  (forall a, P (row_of a) <-> P' a) -> filter P (map row_of l) = map row_of (filter P' l).
Proof.
  intros HP. induction l as [|r l IH]; [done|]. cbn [map]. rewrite !filter_cons, IH.
  repeat case_decide; naive_solver.
Qed.

Lemma mapM_rows l : Forall sr_ok l -> mapM_res scan_range_from_row (map row_of l) = Ok l.
Proof.
  induction 1 as [|r l Hr Hl IH]; cbn; [done|]. by rewrite scan_range_from_row_of, IH by done.
Qed.

(** [SELECT .. ORDER BY block_range_end] on the rows of a queue. *)
Lemma adjacent_rows_map query rs :
  queue_ok rs -> adjacent_rows query (map row_of rs) = map row_of (adjacent_ranges query rs).
Proof.
  intros Hok. unfold adjacent_rows, adjacent_ranges.
  rewrite (filter_rows _ (adjacent_to query)) by done. apply merge_sort_rows.
  1,3: intros ? ? ?; unfold row_end_order, send_order; lia.
  1,2: intros ? ?; unfold row_end_order, send_order; lia.
  - done.
  - intros a b [_ Ha]%list_elem_of_filter [_ Hb]%list_elem_of_filter H1 H2.
    destruct (queue_ok_elem _ _ _ Hok Ha Hb) as (? & ? & ?).
    apply disjoint_unique_end; [done..|]. unfold send_order in *. lia.
Qed.

(** The two loops of [replace_queue_entries] build one tree from the selected
    ranges followed by the new entries. *)
Lemma select_loop force l tc ends :
  Forall sr_ok l ->
  foldM (fun '(to_create, to_delete_ends) row =>
           entry ← scan_range_from_row row;
           to_create ← add_entry force to_create entry;
           Ok (to_create, to_delete_ends ++ [send entry])) (tc, ends) (map row_of l) =
  (tc ← foldM (add_entry force) tc l; Ok (tc, ends ++ map (fun r => send r) l)).
Proof.
  revert tc ends. induction l as [|r l IH]; intros tc ends Hl; cbn.
  { by rewrite app_nil_r. }
  inversion Hl; subst. rewrite scan_range_from_row_of by done. cbn.
  destruct (add_entry force tc r); cbn; [|done]. rewrite IH by done.
  by rewrite <- app_assoc.
Qed.

Lemma insert_spec_ext force s f g r h :
  f h = g h -> insert_spec force s f r h = insert_spec force s g r h.
Proof. intros E. unfold insert_spec. by rewrite E. Qed.

(** A tree that implements an abstract queue. *)
Definition implements (t : SpanningTree) (q : abs_queue) : Prop :=
  wf t /\ span t = q.1 /\ forall h, prio_at (leaves t) h = q.2 h.

Lemma add_entry_implements force t q e :
  implements t q -> nonempty_leaves t -> sr_ok e ->
  exists t', add_entry force (Some t) e = Ok (Some t') /\
    implements t' (abs_insert force q e) /\ (sr_nonempty e -> nonempty_leaves t').
Proof.
  intros (Hwf & Hs & Hp) Hne He.
  destruct (tree_insert_inserted t e force) as (t' & E & Hwf' & Hs' & Hp' & Hne'); [done..|].
  exists t'. cbn. rewrite E. split_and!; [done|split_and!; [done|..]|done]; cbn.
  - by rewrite Hs', Hs.
  - intros h. rewrite Hp', Hs. by apply insert_spec_ext.
Qed.

Lemma add_entries_implement force es : forall t q,
  implements t q -> nonempty_leaves t -> entries_ok es ->
  exists t', foldM (add_entry force) (Some t) es = Ok (Some t') /\
    implements t' (foldl (abs_insert force) q es).
Proof.
  induction es as [|e es IH]; intros t q Hi Hne [Hok Hlast]; [by exists t|].
  inversion Hok; subst.
  destruct (add_entry_implements force t q e) as (t1 & E1 & Hi1 & Hne1); [done..|].
  cbn [foldM]. rewrite E1. cbn [mbind res_bind foldl]. destruct es as [|e' es] using rev_ind; [by exists t1|].
  assert (Forall sr_nonempty (e :: es)) as Hall by by eapply Hlast.
  inversion Hall; subst. apply IH; [done|auto|]. split; [done|].
  intros es2 e2 E. apply app_inj_tail in E as [<- _]. done.
Qed.

(** Building a tree from scratch. *)
Lemma build_implements force l :
  l <> [] -> entries_ok l ->
  exists t q, foldM (add_entry force) None l = Ok (Some t) /\
    abs_build force l = Some q /\ implements t q.
Proof.
  destruct l as [|e es]; [done|]. intros _ [Hok Hlast]. inversion Hok; subst. cbn.
  destruct es as [|e' es _] using rev_ind.
  { eexists _, _. split_and!; [done..|]. by split_and!. }
  assert (Forall sr_nonempty (e :: es)) as Hall by by eapply Hlast.
  inversion Hall; subst.
  destruct (add_entries_implement force (es ++ [e']) (Leaf e) (block_range e, prio_at [e]))
    as (t & E & Hi).
  - by split_and!.
  - by apply Forall_singleton.
  - split; [done|]. intros es2 e2 E. by apply app_inj_tail in E as [<- _].
  - by exists t, (foldl (abs_insert force) (block_range e, prio_at [e]) (es ++ [e'])).
Qed.

Lemma abs_build_span force l q e :
  abs_build force l = Some q -> e ∈ l -> rstart q.1 <= sstart e /\ send e <= rend q.1.
Proof.
  destruct l as [|e0 es]; [done|]. intros [= <-].
  cut (forall q0 : abs_queue, (rstart (foldl (abs_insert force) q0 es).1 <= rstart q0.1 /\
     rend q0.1 <= rend (foldl (abs_insert force) q0 es).1) /\ forall e, e ∈ es ->
     rstart (foldl (abs_insert force) q0 es).1 <= sstart e /\
     send e <= rend (foldl (abs_insert force) q0 es).1).
  { intros H. specialize (H (block_range e0, prio_at [e0])) as [H1 H2].
    rewrite elem_of_cons. intros [->|?]; [done|auto]. }
  clear. induction es as [|e es IH]; intros q0; cbn.
  { split; [lia|]. by intros ? ?%not_elem_of_nil. }
  destruct (IH (abs_insert force q0 e)) as [IH1 IH2]. cbn in IH1. unfold hull in IH1. cbn in IH1.
  split; [lia|]. intros e' [->|?]%elem_of_cons; [lia|]. auto.
Qed.

(** The covered range starts and ends at inserted ranges. *)
Lemma abs_build_bounds force l q (P : Z -> Prop) :
  abs_build force l = Some q -> (forall e, e ∈ l -> P (sstart e)) -> P (rstart q.1).
Proof.
  destruct l as [|e0 es]; [done|]. intros [= <-] HP.
  cut (forall q0 : abs_queue, P (rstart q0.1) -> (forall e, e ∈ es -> P (sstart e)) ->
        P (rstart (foldl (abs_insert force) q0 es).1)).
  { intros H. apply H; cbn; intros; apply HP; rewrite elem_of_cons; auto. }
  clear. induction es as [|e es IH]; intros q0 H0 He; cbn; [done|].
  apply IH; cbn; [|intros; apply He; rewrite elem_of_cons; auto].
  destruct (Z.min_spec (rstart q0.1) (sstart e)) as [[_ ->]|[_ ->]]; [done|].
  apply He. rewrite elem_of_cons. auto.
Qed.

Lemma abs_build_bounds_end force l q (P : Z -> Prop) :
  abs_build force l = Some q -> (forall e, e ∈ l -> P (send e)) -> P (rend q.1).
Proof.
  destruct l as [|e0 es]; [done|]. intros [= <-] HP.
  cut (forall q0 : abs_queue, P (rend q0.1) -> (forall e, e ∈ es -> P (send e)) ->
        P (rend (foldl (abs_insert force) q0 es).1)).
  { intros H. apply H; cbn; intros; apply HP; rewrite elem_of_cons; auto. }
  clear. induction es as [|e es IH]; intros q0 H0 He; cbn; [done|].
  apply IH; cbn; [|intros; apply He; rewrite elem_of_cons; auto].
  destruct (Z.max_spec (rend q0.1) (send e)) as [[_ ->]|[_ ->]]; [|done].
  apply He. rewrite elem_of_cons. auto.
Qed.

(** *** Writing the table *)

(** What the table stores for a range. *)
Definition relabel (r : ScanRange) : ScanRange :=
  MkScanRange (block_range r) (stored_priority (priority r)).

Lemma insert_row_disjoint rs r :
  sr_nonempty r -> (forall x, x ∈ rs -> sr_nonempty x /\ disjoint x r) ->
  insert_row (map row_of rs) (row_of r) = Ok (map row_of (rs ++ [r])).
Proof.
  intros Hr Hd. unfold insert_row. rewrite map_app. cbn [row_of row_start row_end map].
  match goal with |- (if ?b then _ else _) = _ => replace b with true; [done|] end.
  symmetry. apply andb_true_iff. split; [unfold sr_nonempty in Hr; lia|].
  apply forallb_forall. intros x Hx%list_elem_of_In. apply list_elem_of_fmap in Hx as (y & -> & Hy).
  destruct (Hd y Hy) as [? ?]. unfold disjoint, sr_nonempty in *. cbn. lia.
Qed.

Lemma insert_queue_entries_ok new : forall rs,
  Forall sr_nonempty rs -> Forall sr_nonempty new -> pairwise disjoint (rs ++ new) ->
  insert_queue_entries (map row_of rs) new = Ok (map row_of (rs ++ map relabel new)).
Proof.
  unfold insert_queue_entries.
  induction new as [|r new IH]; intros rs Hrs Hnew Hd; cbn; [by rewrite app_nil_r|].
  inversion Hnew as [|? ? Hr Hnew']; subst. pose proof Hd as (_ & _ & Hx)%pairwise_app.
  rewrite (proj2 (is_empty_false r) Hr). cbn.
  change (MkRow (sstart r) (send r) (priority_code (stored_priority (priority r))))
    with (row_of (relabel r)).
  rewrite insert_row_disjoint; [|done|].
  - cbn. rewrite IH; [by rewrite <- app_assoc|apply Forall_app; split; [done|by repeat constructor]|done|].
    rewrite <- app_assoc. apply pairwise_app in Hd as (H1 & [H2 H3] & H4). apply pairwise_app.
    split_and!; [done| |].
    + split; [|done]. exact H2.
    + intros x y Hx1 [->|Hy]%elem_of_cons; [|apply H4; [done|rewrite elem_of_cons; auto]].
      apply (H4 x r); [done|rewrite elem_of_cons; auto].
  - intros x Hx1. rewrite Forall_forall in Hrs. split; [auto|].
    apply (Hx x r); [done|rewrite elem_of_cons; auto].
Qed.

Lemma chain_relabel s l e : chain s l e -> chain s (map relabel l) e.
Proof.
  revert s. induction l as [|a l IH]; intros s; cbn; [done|]. intros (? & ? & ?). split_and!; auto.
Qed.

Lemma prio_at_relabel l h : prio_at (map relabel l) h = stored_priority <$> prio_at l h.
Proof. induction l as [|r l IH]; cbn; [done|]. by destruct (in_range _ _). Qed.

Lemma prio_at_filter (P : ScanRange -> Prop) `{!forall x, Decision (P x)} l h :
  (forall r, r ∈ l -> in_range h (block_range r) = true -> P r) ->
  prio_at (filter P l) h = prio_at l h.
Proof.
  induction l as [|r l IH]; [done|]. intros Hin. rewrite filter_cons. cbn.
  destruct (in_range h (block_range r)) eqn:E.
  - rewrite decide_True by (apply Hin; [rewrite elem_of_cons; auto|done]). cbn. by rewrite E.
  - case_decide; cbn; rewrite ?E; apply IH; intros; apply Hin; rewrite ?elem_of_cons; auto.
Qed.

Lemma prio_at_None l h :
  (forall r, r ∈ l -> in_range h (block_range r) = false) -> prio_at l h = None.
Proof.
  induction l as [|r l IH]; [done|]. intros H. cbn.
  rewrite H by (rewrite elem_of_cons; auto). apply IH. intros. apply H. rewrite elem_of_cons; auto.
Qed.

(** In a queue without overlaps, any range that contains a height gives it its
    priority, so the order of the ranges is irrelevant. *)
Lemma prio_at_elem l r h :
  pairwise disjoint l -> r ∈ l -> in_range h (block_range r) = true -> prio_at l h = Some (priority r).
Proof.
  induction l as [|a l IH]; cbn; [by intros _ ?%not_elem_of_nil|].
  intros [Ha Hl] [->|Hr]%elem_of_cons Hin; [by rewrite Hin|].
  destruct (in_range h (block_range a)) eqn:E; [exfalso|auto].
  apply (proj1 (Forall_forall _ _) Ha) in Hr. apply in_range_true in Hin, E.
  unfold disjoint in Hr. lia.
Qed.

Lemma prio_at_Some l h p :
  prio_at l h = Some p -> exists r, r ∈ l /\ in_range h (block_range r) = true /\ priority r = p.
Proof.
  induction l as [|a l IH]; cbn; [done|]. destruct (in_range h _) eqn:E.
  - intros [= <-]. exists a. rewrite elem_of_cons. auto.
  - intros (r & ? & ? & ?)%IH. exists r. rewrite elem_of_cons. auto.
Qed.

Lemma prio_at_Permutation l l' h :
  pairwise disjoint l -> l ≡ₚ l' -> prio_at l h = prio_at l' h.
Proof.
  intros Hd Hp. destruct (prio_at l h) as [p|] eqn:E.
  - apply prio_at_Some in E as (r & Hr & Hin & <-). symmetry. apply prio_at_elem; [|by rewrite <- Hp|done].
    by rewrite <- Hp.
  - destruct (prio_at l' h) as [p|] eqn:E'; [|done].
    apply prio_at_Some in E' as (r & Hr & Hin & <-). rewrite <- Hp in Hr.
    by rewrite (prio_at_elem l r h) in E.
Qed.

Lemma chain_elem s l e r : chain s l e -> r ∈ l -> s <= sstart r /\ send r <= e.
Proof.
  revert s. induction l as [|a l IH]; intros s; cbn; [by intros _ ?%not_elem_of_nil|].
  intros (<- & Hok & Hc) [->|Hr]%elem_of_cons; unfold sr_ok in *.
  - apply chain_le in Hc. lia.
  - apply IH in Hc; [|done]. lia.
Qed.

Lemma chain_disjoint s l e : chain s l e -> pairwise disjoint l.
Proof.
  revert s. induction l as [|a l IH]; intros s; cbn; [done|]. intros (_ & _ & Hc).
  split; [|eauto]. apply Forall_forall. intros r Hr. left.
  by apply (chain_elem _ _ _ _ Hc) in Hr as [? _].
Qed.

Section Replace.
Context (rs : list ScanRange) (query : Range) (entries : list ScanRange) (force : bool).
Context (Hok : queue_ok rs).

Let selected := adjacent_ranges query rs.
Let rest := filter (fun r => ~ adjacent_to query r) rs.

Lemma selected_elem r : r ∈ selected <-> adjacent_to query r /\ r ∈ rs.
Proof using Type.
  unfold selected, adjacent_ranges. rewrite merge_sort_Permutation.
  by rewrite list_elem_of_filter.
Qed.

Lemma rest_elem r : r ∈ rest <-> ~ adjacent_to query r /\ r ∈ rs.
Proof using Type. unfold rest. by rewrite list_elem_of_filter. Qed.

Lemma selected_nonempty : Forall sr_nonempty selected.
Proof using Hok.
  apply Forall_forall. intros r [_ Hr]%selected_elem.
  destruct Hok as [Hne _]. by apply (proj1 (Forall_forall _ _) Hne).
Qed.

(** [DELETE .. WHERE block_range_end IN ..] removes exactly the selected rows. *)
Lemma delete_selected :
  filter (fun r => row_end r ∉ map (fun r => send r) selected) (map row_of rs) = map row_of rest.
Proof using Hok.
  assert (forall l, (forall r, r ∈ l -> r ∈ rs) ->
    filter (fun r => row_end r ∉ map (fun r => send r) selected) (map row_of l)
    = map row_of (filter (fun r => ~ adjacent_to query r) l)) as H; [|by apply H].
  induction l as [|r l IH]; intros Hsub; [done|]. cbn [map]. rewrite !filter_cons.
  rewrite IH by (intros; apply Hsub; rewrite elem_of_cons; auto). cbn [row_end row_of].
  assert (send r ∈ map (fun r => send r) selected <-> adjacent_to query r) as Hiff.
  { split.
    - intros (x & Hx & Hs)%list_elem_of_fmap. apply selected_elem in Hs as [Ha Hs].
      destruct (queue_ok_elem rs r x) as (? & ? & ?); [done|apply Hsub; rewrite elem_of_cons; auto|done|].
      by rewrite (disjoint_unique_end r x).
    - intros Ha. apply list_elem_of_fmap. exists r. split; [done|]. apply selected_elem.
      split; [done|]. apply Hsub. rewrite elem_of_cons; auto. }
  repeat case_decide; tauto || done.
Qed.

Context (Hentries : entries_ok entries).
Context (Hquery : forall e, e ∈ entries -> rstart query <= sstart e /\ send e <= rend query).

Lemma all_entries_ok : entries_ok (selected ++ entries).
Proof using Hok Hentries.
  clear Hquery. destruct Hentries as [He Hlast]. pose proof selected_nonempty as Hs. split.
  - apply Forall_app. split; [|done]. eapply Forall_impl; [exact Hs|]. auto with wallet.
  - intros es' e E. destruct entries as [|e' en' _] using rev_ind.
    + rewrite app_nil_r in E. rewrite E in Hs. by apply Forall_app in Hs as [? _].
    + rewrite app_assoc in E. apply app_inj_tail in E as [<- <-].
      apply Forall_app. split; [done|]. by eapply Hlast.
Qed.

(** A row that is left alone lies outside the range that is rewritten. *)
Lemma rest_outside q x :
  abs_build force (selected ++ entries) = Some q -> x ∈ rest ->
  send x <= rstart q.1 \/ rend q.1 <= sstart x.
Proof using Hok Hquery.
  intros Hb [Hna Hx]%rest_elem.
  assert (rend query < sstart x \/ send x < rstart query) as [Hc|Hc]
    by (unfold adjacent_to in Hna; destruct (decide (rend query < sstart x)); lia).
  - right. apply (abs_build_bounds_end _ _ _ (fun z => z <= sstart x) Hb).
    intros e [He|He]%elem_of_app; [|apply Hquery in He; lia].
    apply selected_elem in He as [Ha He].
    destruct (queue_ok_elem rs x e) as (? & ? & [->|Hd]); [done..| |];
      unfold adjacent_to, disjoint, sr_nonempty in *; lia.
  - left. apply (abs_build_bounds _ _ _ (fun z => send x <= z) Hb).
    intros e [He|He]%elem_of_app; [|apply Hquery in He; lia].
    apply selected_elem in He as [Ha He].
    destruct (queue_ok_elem rs x e) as (? & ? & [->|Hd]); [done..| |];
      unfold adjacent_to, disjoint, sr_nonempty in *; lia.
Qed.

Lemma rest_prio q h :
  abs_build force (selected ++ entries) = Some q ->
  prio_at rest h = if in_range h q.1 then None else prio_at rs h.
Proof using Hok Hquery.
  intros Hb. destruct (in_range h q.1) eqn:E.
  - apply in_range_true in E. apply prio_at_None. intros r Hr.
    apply (rest_outside _ _ Hb) in Hr. apply in_range_false. lia.
  - apply in_range_false in E. apply prio_at_filter. intros r Hr Hin Ha. apply E.
    apply in_range_true in Hin. destruct (abs_build_span force _ _ r Hb); [|lia].
    rewrite elem_of_app. left. by apply selected_elem.
Qed.

(** The table after the rewrite. *)
Lemma rewritten_queue_ok v s e :
  canonical s v e -> (forall x, x ∈ rest -> send x <= s \/ e <= sstart x) ->
  queue_ok (rest ++ map relabel v) /\ pairwise disjoint (rest ++ v).
Proof using Hok.
  intros (Hc & Hvne & _) Hout.
  assert (forall x y, x ∈ rest -> y ∈ v -> disjoint x y) as Hxy.
  { intros x y Hx Hy. apply Hout in Hx. apply (chain_elem _ _ _ _ Hc) in Hy.
    unfold disjoint. lia. }
  pose proof (queue_ok_filter (fun r => ~ adjacent_to query r) rs Hok) as (Hr1 & Hr2 & Hr3).
  split; [split_and!|].
  - apply Forall_app. split; [done|]. by apply Forall_map.
  - apply pairwise_app. split_and!; [done| |].
    + eapply chain_disjoint, chain_relabel, Hc.
    + intros x y Hx (z & -> & Hz)%list_elem_of_fmap. by apply (Hxy x z).
  - apply Forall_app. split; [done|]. apply Forall_map, Forall_forall.
    intros x _. cbn. by destruct (priority x).
  - apply pairwise_app. split_and!; [done|by eapply chain_disjoint|done].
Qed.

(** The operation as one fold over the selected ranges and the new entries. *)
Lemma replace_unfold :
  replace_queue_entries (map row_of rs) query entries force =
    (tc ← foldM (add_entry force) None (selected ++ entries);
     match tc with
     | Some tree =>
         scan_ranges ← lift_exec (into_vec tree);
         insert_queue_entries (map row_of rest) scan_ranges
     | None => Ok (map row_of rs)
     end).
Proof using Hok.
  unfold replace_queue_entries. rewrite adjacent_rows_map by done. fold selected.
  rewrite select_loop by (eapply Forall_impl; [apply selected_nonempty|]; auto with wallet).
  rewrite <- delete_selected, foldM_app. by destruct (foldM (add_entry force) None selected).
Qed.

Lemma replace_ok :
  exists rs', replace_queue_entries (map row_of rs) query entries force = Ok (map row_of rs') /\
    queue_ok rs' /\
    forall h, prio_at rs' h =
      match abs_build force (selected ++ entries) with
      | None => prio_at rs h
      | Some q => if in_range h q.1 then stored_priority <$> q.2 h else prio_at rs h
      end.
Proof using Hok Hentries Hquery.
  rewrite replace_unfold.
  destruct (decide (selected ++ entries = [])) as [Hnil|Hne].
  { exists rs. by rewrite Hnil. }
  destruct (build_implements force _ Hne all_entries_ok) as (t & q & -> & Hb & Hwf & Hspan & Hprio).
  destruct (into_vec_ok t Hwf) as (v & Hv & Hcan & Hvp).
  rewrite Hb. cbn. rewrite Hv. cbn. exists (rest ++ map relabel v).
  rewrite Hspan in Hcan. pose proof Hcan as (Hc & Hvne & _).
  destruct (rewritten_queue_ok v _ _ Hcan) as [Hq Hd]; [by intros; apply rest_outside|].
  split_and!; [|done|].
  - apply insert_queue_entries_ok; [|done..]. by apply (queue_ok_filter _ rs Hok).
  - intros h. rewrite prio_at_app, (rest_prio _ _ Hb), prio_at_relabel, Hvp, Hprio.
    destruct (in_range h q.1) eqn:E; [done|]. destruct (prio_at rs h); [done|].
    rewrite <- Hprio, (wf_prio_outside _ _ Hwf); [done|]. rewrite Hspan.
    by apply in_range_false.
Qed.
End Replace.

(** ** Splitting ranges into pieces *)

(** The range of a list that contains a height. *)
Definition cover (l : list ScanRange) (h : Z) : option ScanRange :=
  List.find (fun r => in_range h (block_range r)) l.

Lemma prio_at_cover l h : prio_at l h = priority <$> cover l h.
Proof. induction l as [|r l IH]; cbn; [done|]. by destruct (in_range _ _). Qed.

Lemma cover_Some l h r : cover l h = Some r -> r ∈ l /\ in_range h (block_range r) = true.
Proof. intros [? ?]%List.find_some. split; [by apply list_elem_of_In|done]. Qed.

Lemma cover_disjoint e l h :
  Forall (disjoint e) l -> in_range h (block_range e) = true -> cover l h = None.
Proof.
  intros Hd Hin. destruct (cover l h) as [r|] eqn:E; [|done]. exfalso.
  apply cover_Some in E as [Hr Hin2]. apply (proj1 (Forall_forall _ _) Hd) in Hr.
  apply in_range_true in Hin, Hin2. unfold disjoint in Hr. lia.
Qed.

Lemma prio_at_concat (g : ScanRange -> Z -> option ScanPriority) es ps h :
  Forall2 (fun e p => forall h, prio_at p h =
             if in_range h (block_range e) then g e h else None) es ps ->
  pairwise disjoint es ->
  prio_at (concat ps) h = cover es h ≫= fun e => g e h.
Proof.
  induction 1 as [|e p es ps Hp Hps IH]; cbn; [done|]. intros [He Hd].
  rewrite prio_at_app, Hp, IH by done. destruct (in_range h _) eqn:E; [|done].
  rewrite (cover_disjoint e) by done. cbn. by destruct (g e h).
Qed.

(** Pieces of ranges that do not overlap do not overlap either. *)
Lemma disjoint_concat es ps :
  Forall2 (fun e p => pairwise disjoint p /\
             Forall (fun x => sr_nonempty x /\ sstart e <= sstart x /\ send x <= send e) p) es ps ->
  pairwise disjoint es -> pairwise disjoint (concat ps) /\ Forall sr_nonempty (concat ps).
Proof.
  induction 1 as [|e p es ps [Hp Hin] Hps IH]; cbn; [done|]. intros [He Hes].
  destruct (IH Hes) as [IH1 IH2]. split.
  - apply pairwise_app. split_and!; [done..|]. intros x y Hx Hy.
    apply list_elem_of_In, in_concat in Hy as (q & Hq%list_elem_of_In & Hy%list_elem_of_In).
    apply list_elem_of_lookup_1 in Hq as (i & Hq).
    destruct (Forall2_lookup_r _ _ _ _ _ Hps Hq) as (e' & He' & _ & Hin').
    pose proof (proj1 (Forall_forall _ _) Hin x Hx) as (_ & ? & ?).
    pose proof (proj1 (Forall_forall _ _) Hin' y Hy) as (_ & ? & ?).
    apply list_elem_of_lookup_2 in He'. pose proof (proj1 (Forall_forall _ _) He _ He').
    unfold disjoint in *. lia.
  - apply Forall_app. split; [|done]. eapply Forall_impl; [exact Hin|]. naive_solver.
Qed.

(** ** Facts about the abstract queue *)

Lemma abs_build_total force l q h :
  abs_build force l = Some q -> entries_ok l -> in_range h q.1 = true -> is_Some (q.2 h).
Proof.
  intros Hb Hl Hin. destruct (build_implements force l) as (t & q' & _ & Hb' & Hwf & Hs & Hp).
  { by destruct l. } { done. } rewrite Hb in Hb'. simplify_eq.
  rewrite <- Hp. apply wf_prio_inside; [done|]. rewrite Hs. by apply in_range_true.
Qed.

(** The last insertion decides the heights it covers. *)
Lemma abs_build_last force l e q h :
  abs_build force (l ++ [e]) = Some q -> in_range h (block_range e) = true ->
  in_range h q.1 = true /\
  (q.2 h = Some (priority e) \/ exists c, q.2 h = Some (combine force c (priority e))).
Proof.
  intros Hb Hin. pose proof (abs_build_span force _ _ e Hb) as Hsp.
  split.
  { apply in_range_true in Hin. apply in_range_true.
    destruct Hsp; [rewrite elem_of_app, elem_of_cons; auto|lia]. }
  destruct l as [|e0 l]; cbn in Hb; simplify_eq; cbn.
  { left. by rewrite Hin. }
  rewrite foldl_app. cbn. unfold insert_spec. rewrite Hin.
  case_match; [right; by eexists | by left].
Qed.

(** *** Claims *)

(** C3: [replace_queue_entries] refines the abstract queue.  On a stored queue
    that satisfies the invariant, with entries inside the query range of which
    only the last may be empty, the call succeeds, restores the invariant, and
    gives every height in the rewritten span the priority obtained by inserting
    the ranges adjacent to the query and then the entries (with the read-time
    label stored as [Historic]); every other height keeps its priority. *)
Theorem replace_queue_entries_refines (rs : list ScanRange) (query : Range)
    (entries : list ScanRange) (force : bool) :
  queue_ok rs -> entries_ok entries ->
  (forall e, e ∈ entries -> rstart query <= sstart e /\ send e <= rend query) ->
  exists rs', replace_queue_entries (map row_of rs) query entries force = Ok (map row_of rs') /\
    queue_ok rs' /\
    forall h, prio_at rs' h =
      match abs_build force (adjacent_ranges query rs ++ entries) with
      | None => prio_at rs h
      | Some q => if in_range h q.1 then stored_priority <$> q.2 h else prio_at rs h
      end.
Proof. intros. by apply replace_ok. Qed.

(** *** Witnesses *)

Definition example_queue : list ScanRange :=
  [MkScanRange (150 ..- 200) ChainTip; MkScanRange (100 ..- 150) Scanned;
   MkScanRange (0 ..- 100) Historic].

Lemma example_queue_ok : queue_ok example_queue.
Proof.
  unfold queue_ok, example_queue. cbn [pairwise]. rewrite !Forall_cons, !Forall_nil.
  unfold sr_nonempty, disjoint. cbn. intuition (lia || discriminate).
Defined.

Lemma replace_queue_entries_refines_witness :
  exists rs', replace_queue_entries (map row_of example_queue) (150 ..- 160)
      [MkScanRange (150 ..- 160) Scanned] false = Ok (map row_of rs') /\
    prio_at rs' 155 = Some Scanned /\ prio_at rs' 170 = Some ChainTip /\ prio_at rs' 50 = Some Historic.
Proof.
  destruct (replace_queue_entries_refines example_queue (150 ..- 160)
              [MkScanRange (150 ..- 160) Scanned] false) as (rs' & E & _ & Hp).
  - exact example_queue_ok.
  - split.
    + apply Forall_cons; split; [|apply Forall_nil; exact I]. unfold sr_ok. cbn. lia.
    + intros es' e H. destruct es' as [|? [|]]; [apply Forall_nil; exact I|discriminate..].
  - intros e He. apply list_elem_of_singleton in He. subst e. cbn. lia.
  - exists rs'. split; [exact E|]. rewrite !Hp. vm_compute. auto.
Defined.
