(* ===== verification/ChainTip.v ===== *)
(** * Advancing the chain tip

    [zcash_client_sqlite/src/wallet/scanning.rs], [update_chain_tip], with the
    queries it makes of the other tables
    ([wallet.rs]: [block_height_extrema], [wallet_birthday]). *)

From S2P Require Import Prelude ScanRange SpanningTree ScanQueue.

(** Arithmetic on [zcash_protocol::consensus::BlockHeight], a [u32]: addition is
    exact while the result fits, and [saturating_sub] stops at zero. *)
Class BlockHeightOps : Type := {
  bh_add : Z -> Z -> Z;
  bh_saturating_sub : Z -> Z -> Z;
  bh_add_exact : forall h n, 0 <= h -> 0 <= n -> h + n < 2 ^ 32 -> bh_add h n = h + n;
  bh_sub_exact : forall h n, 0 <= h -> 0 <= n -> bh_saturating_sub h n = Z.max 0 (h - n)
}.

(** A model of the interface: saturating arithmetic. *)
#[export] Program Instance saturating_heights : BlockHeightOps := {
  bh_add h n := Z.min (h + n) (2 ^ 32 - 1);
  bh_saturating_sub h n := Z.max 0 (h - n)
}.
Next Obligation. intros; cbn. lia. Qed.
Next Obligation. done. Qed.

Definition PRUNING_DEPTH : Z := 100.
Definition VERIFY_LOOKAHEAD : Z := 10.

(** The tables read by [update_chain_tip]: block heights, account birthdays, and
    the end heights of each pool's commitment tree shards ([NULL] while a shard
    is incomplete). *)
Record WalletDb : Type := MkDb {
  scan_queue : list scan_row;
  blocks : list Z;
  birthday_heights : list Z;
  sapling_shard_ends : list (option Z);
  orchard_shard_ends : list (option Z);
  ironwood_shard_ends : list (option Z)
}.

(** The database with its scan queue replaced. *)
Definition with_queue (db : WalletDb) (queue : list scan_row) : WalletDb :=
  MkDb queue (blocks db) (birthday_heights db) (sapling_shard_ends db)
    (orchard_shard_ends db) (ironwood_shard_ends db).

(** SQL [MIN] and [MAX] of a column: [NULL] on no rows. *)
Fixpoint sql_min (l : list Z) : option Z :=
  match l with
  | [] => None
  | x :: l => Some (match sql_min l with Some y => Z.min x y | None => x end)
  end.
Fixpoint sql_max (l : list Z) : option Z :=
  match l with
  | [] => None
  | x :: l => Some (match sql_max l with Some y => Z.max x y | None => x end)
  end.

(** [block_height_extrema] *)
Definition block_height_extrema (db : WalletDb) : option (Z * Z) :=
  match sql_min (blocks db), sql_max (blocks db) with
  | Some lo, Some hi => Some (lo, hi)
  | _, _ => None
  end.

(** [wallet_birthday] *)
Definition wallet_birthday (db : WalletDb) : option Z := sql_min (birthday_heights db).

(** [tip_shard_end_height]: [MAX] ignores [NULL]. *)
Definition tip_shard_end_height (ends : list (option Z)) : option Z := sql_max (omap id ends).

(** [o.filter(p)] *)
Definition opt_filter {A} (p : A -> bool) (o : option A) : option A :=
  match o with Some a => if p a then Some a else None | None => None end.

Definition opt_list {A} (o : option A) : list A :=
  match o with Some a => [a] | None => [] end.

Section UpdateChainTip.
Context `{!BlockHeightOps}.

(** The range for the fragment of the last shard leading up to the new tip. *)
Definition tip_shard_entry (db : WalletDb) (chain_end : Z) : exec (option ScanRange) :=
  let min_shard_tip :=
    sql_min (omap id [tip_shard_end_height (sapling_shard_ends db);
                      tip_shard_end_height (orchard_shard_ends db);
                      tip_shard_end_height (ironwood_shard_ends db)]) in
  match opt_filter (fun h => h <? chain_end) min_shard_tip with
  | None => Ok None
  | Some h =>
      let min_to_scan :=
        match opt_filter (fun b => h <? b) (wallet_birthday db) with Some b => b | None => h end in
      r ← from_parts (min_to_scan ..- chain_end) ChainTip;
      Ok (Some r)
  end.

(** The range that connects the prior scanned state to the new tip. *)
Definition tip_entry (db : WalletDb) (sapling_activation new_tip chain_end : Z)
    (max_scanned : option Z) (have_tip_shard : bool) : exec ScanRange :=
  match max_scanned with
  | None =>
      match wallet_birthday db with
      | None => from_parts (sapling_activation ..- chain_end) Ignored
      | Some wallet_birthday => from_parts (wallet_birthday ..- chain_end) Historic
      end
  | Some max_scanned =>
      let min_unscanned := bh_add max_scanned 1 in
      if negb have_tip_shard then from_parts (min_unscanned ..- chain_end) Historic
      else
        let stable_height := bh_saturating_sub new_tip PRUNING_DEPTH in
        if stable_height <? max_scanned
        then from_parts (min_unscanned ..- chain_end) ChainTip
        else from_parts
               (min_unscanned ..-
                Z.min (bh_add stable_height 1) (bh_add min_unscanned VERIFY_LOOKAHEAD)) Verify
  end.

(** [update_chain_tip]; [sapling] is the Sapling activation height. *)
Definition update_chain_tip (db : WalletDb) (sapling : option Z) (new_tip : Z)
    : res QueueError WalletDb :=
  match opt_filter (fun h => h <=? new_tip) sapling with
  | None => Ok db
  | Some sapling_activation =>
      let max_scanned := snd <$> block_height_extrema db in
      if match max_scanned with Some h => new_tip <? h | None => false end then Ok db
      else
        let chain_end := bh_add new_tip 1 in
        shard_entry ← lift_exec (tip_shard_entry db chain_end);
        entry ← lift_exec (tip_entry db sapling_activation new_tip chain_end max_scanned
                             (match shard_entry with Some _ => true | None => false end));
        let query_range :=
          match shard_entry with
          | Some se => Z.min (sstart se) (sstart entry) ..- Z.max (send se) (send entry)
          | None => block_range entry
          end in
        queue ← replace_queue_entries (scan_queue db) query_range
                  (opt_list shard_entry ++ [entry]) false;
        Ok (with_queue db queue)
  end.
End UpdateChainTip.

(** ** Lemmas *)

Lemma sql_max_elem l x : sql_max l = Some x -> x ∈ l /\ forall y, y ∈ l -> y <= x.
Proof.
  revert x. induction l as [|a l IH]; intros x; cbn; [done|]. intros [= <-].
  destruct (sql_max l) as [y|] eqn:E.
  - destruct (IH y eq_refl) as [Hy Hle]. split.
    + rewrite elem_of_cons. destruct (Z.max_spec a y) as [[_ ->]|[_ ->]]; auto.
    + intros z [->|Hz]%elem_of_cons; [lia|]. apply Hle in Hz. lia.
  - destruct l; [|done]. split; [by rewrite elem_of_cons; left|].
    intros z Hz. apply list_elem_of_singleton in Hz. lia.
Qed.

Lemma sql_min_elem l x : sql_min l = Some x -> x ∈ l /\ forall y, y ∈ l -> x <= y.
Proof.
  revert x. induction l as [|a l IH]; intros x; cbn; [done|]. intros [= <-].
  destruct (sql_min l) as [y|] eqn:E.
  - destruct (IH y eq_refl) as [Hy Hle]. split.
    + rewrite elem_of_cons. destruct (Z.min_spec a y) as [[_ ->]|[_ ->]]; auto.
    + intros z [->|Hz]%elem_of_cons; [lia|]. apply Hle in Hz. lia.
  - destruct l; [|done]. split; [by rewrite elem_of_cons; left|].
    intros z Hz. apply list_elem_of_singleton in Hz. lia.
Qed.

(** The databases the theorems are about: a queue that satisfies the invariant,
    non-negative heights, and a tip that leaves room for the [u32] additions. *)
Definition db_ok (db : WalletDb) (rs : list ScanRange) (new_tip : Z) : Prop :=
  (scan_queue db = map row_of rs /\ queue_ok rs) /\
  Forall (fun h => 0 <= h) (blocks db) /\ 0 <= new_tip < 2 ^ 32 - 16.

Section Claims.
Context `{!BlockHeightOps}.
Context (db : WalletDb) (rs : list ScanRange) (new_tip : Z) (Hdb : db_ok db rs new_tip).

Lemma max_scanned_nonneg h : snd <$> block_height_extrema db = Some h -> 0 <= h.
Proof using Hdb.
  destruct Hdb as (_ & Hb & _). unfold block_height_extrema.
  destruct (sql_min _); [|done]. destruct (sql_max _) eqn:E; [|done]. intros [= <-].
  apply sql_max_elem in E as [E _]. by apply (proj1 (Forall_forall _ _) Hb).
Qed.

Context (Hbirth : forall b, wallet_birthday db = Some b -> b <= new_tip).

Lemma tip_shard_entry_ok :
  exists o, tip_shard_entry db (new_tip + 1) = Ok o /\
    match o with
    | Some r => sr_nonempty r /\ send r = new_tip + 1 /\ priority r = ChainTip
    | None => True
    end.
Proof using Hbirth.
  unfold tip_shard_entry. destruct (opt_filter _ (sql_min _)) as [h|] eqn:E; [|by exists None].
  assert (h < new_tip + 1) as Hh.
  { destruct (sql_min _) as [h'|]; [|done]. cbn in E. zcases; simplify_eq. lia. }
  set (m := match _ with Some b => b | None => h end).
  assert (m <= new_tip) as Hm.
  { subst m. destruct (wallet_birthday db) as [b|]; cbn; [|lia].
    specialize (Hbirth b eq_refl). zcases; lia. }
  rewrite from_parts_ok by (cbn; lia). eexists. split; [done|].
  split_and!; [unfold sr_nonempty; cbn; lia|done..].
Qed.

(** The shape of the entry that connects the scanned state to the tip. *)
Lemma tip_entry_ok act have :
  act <= new_tip ->
  match snd <$> block_height_extrema db with Some h => h <= new_tip | None => True end ->
  exists r, tip_entry db act new_tip (new_tip + 1) (snd <$> block_height_extrema db) have = Ok r /\
    sr_ok r /\ send r <= new_tip + 1 /\
    (have = false -> send r = new_tip + 1) /\
    match snd <$> block_height_extrema db with
    | None => sstart r <= new_tip /\ send r = new_tip + 1
    | Some m => sstart r = m + 1 /\
        (have = true -> m <= Z.max 0 (new_tip - PRUNING_DEPTH) ->
         priority r = Verify /\
         send r = Z.min (Z.max 0 (new_tip - PRUNING_DEPTH) + 1) (m + 1 + VERIFY_LOOKAHEAD))
    end.
Proof using Hdb Hbirth.
  intros Hact Hmax. pose proof Hdb as (_ & _ & Htip). unfold tip_entry.
  destruct (snd <$> block_height_extrema db) as [m|] eqn:E.
  - pose proof (max_scanned_nonneg _ E). rewrite bh_add_exact by lia.
    unfold PRUNING_DEPTH, VERIFY_LOOKAHEAD.
    destruct have; cbn [negb].
    + rewrite bh_sub_exact by lia. zcases.
      * rewrite from_parts_ok by (cbn; lia). eexists; split; [done|].
        unfold sr_ok; cbn. split_and!; [lia..| |done|]; intros; try done; lia.
      * rewrite !bh_add_exact by lia. rewrite from_parts_ok by (cbn; lia).
        eexists; split; [done|]. unfold sr_ok; cbn. split_and!; [lia..| |done|]; intros; done.
    + rewrite from_parts_ok by (cbn; lia). eexists; split; [done|].
      unfold sr_ok; cbn. split_and!; [lia..|done|done|done].
  - destruct (wallet_birthday db) as [b|].
    + specialize (Hbirth b eq_refl). rewrite from_parts_ok by (cbn; lia).
      eexists; split; [done|]. unfold sr_ok; cbn. split_and!; lia || done.
    + rewrite from_parts_ok by (cbn; lia).
      eexists; split; [done|]. unfold sr_ok; cbn. split_and!; lia || done.
Qed.

Lemma tip_update_ok a :
  a <= new_tip ->
  match snd <$> block_height_extrema db with Some h => h <= new_tip | None => True end ->
  exists o r rs',
    tip_shard_entry db (new_tip + 1) = Ok o /\
    update_chain_tip db (Some a) new_tip = Ok (with_queue db (map row_of rs')) /\
    queue_ok rs' /\
    (forall h e, e ∈ opt_list o ++ [r] -> in_range h (block_range e) = true ->
       is_Some (prio_at rs' h)) /\
    (forall h, priority r = Verify -> in_range h (block_range r) = true ->
       prio_at rs' h = Some Verify) /\
    match o with
    | Some e => sr_nonempty e /\ send e = new_tip + 1
    | None => send r = new_tip + 1
    end /\
    match snd <$> block_height_extrema db with
    | None => sstart r <= new_tip /\ send r = new_tip + 1
    | Some m => sstart r = m + 1 /\
        (is_Some o -> m <= Z.max 0 (new_tip - PRUNING_DEPTH) ->
         priority r = Verify /\
         send r = Z.min (Z.max 0 (new_tip - PRUNING_DEPTH) + 1) (m + 1 + VERIFY_LOOKAHEAD))
    end.
Proof using Hdb Hbirth.
  intros Ha Hmax. pose proof Hdb as ((Hq & Hok) & _ & Htip).
  destruct tip_shard_entry_ok as (o & Ho & Hos).
  destruct (tip_entry_ok a (match o with Some _ => true | None => false end) Ha Hmax)
    as (r & Hr & Hrok & Hrend & Hrh & Hrm).
  set (query := match o with
                | Some se => Z.min (sstart se) (sstart r) ..- Z.max (send se) (send r)
                | None => block_range r end).
  assert (entries_ok (opt_list o ++ [r])) as Hent.
  { split.
    - apply Forall_app. split; [|by apply Forall_singleton].
      destruct o; [apply Forall_singleton|done]. apply sr_nonempty_ok, Hos.
    - intros es' e E. apply app_inj_tail in E as [<- _].
      destruct o; [apply Forall_singleton, Hos|done]. }
  destruct (replace_ok rs query (opt_list o ++ [r]) false) as (rs' & Hrep & Hok' & Hp'); [done..| |].
  { intros e He. subst query. destruct o as [se|]; cbn in He; cbn.
    - apply elem_of_cons in He as [->|He]; [lia|]. apply list_elem_of_singleton in He as ->. lia.
    - apply list_elem_of_singleton in He as ->. lia. }
  exists o, r, rs'. split; [done|]. split.
  { unfold update_chain_tip. cbn [opt_filter]. rewrite (proj2 (Z.leb_le _ _) Ha).
    rewrite bh_add_exact by lia. rewrite Ho. cbn [mbind res_bind lift_exec]. rewrite Hr.
    cbn [mbind res_bind lift_exec]. rewrite Hq. fold query. rewrite Hrep.
    destruct (snd <$> block_height_extrema db); [|done]. by rewrite (proj2 (Z.ltb_ge _ _) Hmax). }
  destruct (abs_build false _) as [q|] eqn:Hb.
  2:{ by destruct (adjacent_ranges query rs), o. }
  split_and!; [done| | | |].
  3:{ destruct o; [|by apply Hrh]. by destruct Hos as (? & ? & ?). }
  - intros h e He Hin. rewrite Hp'.
    destruct (abs_build_span _ _ _ e Hb) as [H1 H2]; [rewrite elem_of_app; by right|].
    apply in_range_true in Hin. assert (in_range h q.1 = true) as Hq1 by (apply in_range_true; lia).
    rewrite Hq1. apply fmap_is_Some. eapply abs_build_total; [exact Hb| |done].
    by apply all_entries_ok.
  - intros h Hv Hin. rewrite Hp'. rewrite app_assoc in Hb.
    destruct (abs_build_last _ _ _ _ _ Hb Hin) as [-> [->|[c ->]]]; rewrite Hv; [done|].
    by destruct c.
  - destruct (snd <$> block_height_extrema db); [|done]. destruct Hrm as [? Hv].
    split; [done|]. intros [? ->]. by apply Hv.
Qed.
End Claims.

(** *** Claims *)

(** C4: [update_chain_tip] keeps the stored queue well formed and covers the new
    tip.  When the wallet birthday is not above the tip, the call succeeds, only
    the scan queue changes, the queue invariant holds, nothing changes for a tip
    below Sapling activation or below the last scanned block, and otherwise a tip
    above the last scanned block is covered by some queue entry. *)
Theorem update_chain_tip_covers `{!BlockHeightOps} (db : WalletDb) (rs : list ScanRange)
    (sapling : option Z) (new_tip : Z) :
  db_ok db rs new_tip ->
  (forall b, wallet_birthday db = Some b -> b <= new_tip) ->
  exists rs', update_chain_tip db sapling new_tip = Ok (with_queue db (map row_of rs')) /\
    queue_ok rs' /\
    ((forall a, sapling = Some a -> new_tip < a) -> rs' = rs) /\
    (forall m, snd <$> block_height_extrema db = Some m -> new_tip < m -> rs' = rs) /\
    (forall a, sapling = Some a -> a <= new_tip ->
       (forall m, snd <$> block_height_extrema db = Some m -> m < new_tip) ->
       is_Some (prio_at rs' new_tip)).
Proof.
  intros Hdb Hbirth. pose proof Hdb as ((Hq & Hok) & _).
  assert (with_queue db (map row_of rs) = db) as Hsame by (rewrite <- Hq; by destruct db).
  destruct (opt_filter (fun h => h <=? new_tip) sapling) as [a|] eqn:Ea.
  2:{ exists rs. unfold update_chain_tip. rewrite Ea, Hsame. split_and!; [done..|].
      intros a -> Hle. cbn in Ea. by rewrite (proj2 (Z.leb_le _ _) Hle) in Ea. }
  destruct sapling as [a'|]; [|done]. cbn in Ea. zcases; simplify_eq.
  assert (match snd <$> block_height_extrema db with Some h => h <= new_tip | None => True end \/
          exists m, snd <$> block_height_extrema db = Some m /\ new_tip < m) as [Hmax|(m & Em & Hmax)].
  { destruct (snd <$> block_height_extrema db) as [m|]; [|by left].
    destruct (decide (m <= new_tip)); [by left|right]. exists m. split; [done|lia]. }
  - destruct (tip_update_ok db rs new_tip Hdb Hbirth a) as (o & r & rs' & _ & E & Hok' & Hcov & _ & Ho & Hm);
      [done..|].
    exists rs'. split_and!; [done|done| | |].
    + intros Hlt. specialize (Hlt a eq_refl). lia.
    + intros m Em Hlt. rewrite Em in Hmax. lia.
    + intros _ _ _ Hlt. destruct o as [e|].
      * apply (Hcov new_tip e); [cbn; rewrite elem_of_cons; auto|]. apply in_range_true.
        destruct Ho. unfold sr_nonempty in *. lia.
      * apply (Hcov new_tip r); [by apply list_elem_of_singleton|]. apply in_range_true.
        destruct (snd <$> block_height_extrema db); [specialize (Hlt _ eq_refl)|]; lia.
  - exists rs.
    unfold update_chain_tip. cbn [opt_filter]. rewrite (proj2 (Z.leb_le a new_tip)) by done.
    rewrite Em. rewrite (proj2 (Z.ltb_lt _ _)) by lia. rewrite Hsame. split_and!; [done..|].
    intros _ _ _ Hlt. specialize (Hlt m eq_refl). lia.
Qed.

(** When the last scanned block is at or below the height considered stable
    and shard metadata is known, [update_chain_tip] marks the blocks above it, up
    to [VERIFY_LOOKAHEAD] of them and never beyond the stable height, with
    priority [Verify], whatever the queue held before. *)
Theorem update_chain_tip_verifies `{!BlockHeightOps} (db : WalletDb) (rs : list ScanRange)
    (sapling new_tip m : Z) (shard : ScanRange) :
  db_ok db rs new_tip ->
  (forall b, wallet_birthday db = Some b -> b <= new_tip) ->
  sapling <= new_tip ->
  snd <$> block_height_extrema db = Some m ->
  m <= Z.max 0 (new_tip - PRUNING_DEPTH) ->
  tip_shard_entry db (new_tip + 1) = Ok (Some shard) ->
  exists rs', update_chain_tip db (Some sapling) new_tip = Ok (with_queue db (map row_of rs')) /\
    forall h, m < h -> h <= Z.max 0 (new_tip - PRUNING_DEPTH) -> h <= m + VERIFY_LOOKAHEAD ->
      prio_at rs' h = Some Verify.
Proof.
  intros Hdb Hbirth Hs Hm Hst Hsh. pose proof Hdb as (_ & _ & Htip).
  destruct (tip_update_ok db rs new_tip Hdb Hbirth sapling) as (o & r & rs' & Ho & E & _ & _ & Hv & _ & Hr);
    [done|rewrite Hm; unfold PRUNING_DEPTH in *; lia|].
  rewrite Hm in Hr. rewrite Hsh in Ho. simplify_eq. destruct Hr as [Hst' Hr].
  destruct Hr as [Hp He]; [done..|].
  exists rs'. split; [done|]. intros h H1 H2 H3. apply Hv; [done|]. apply in_range_true.
  unfold VERIFY_LOOKAHEAD in *. lia.
Qed.

(** With no scanned blocks, [update_chain_tip] panics when the new tip is more
    than one block below the wallet birthday: the range from the birthday to the
    tip is reversed and [ScanRange::from_parts] asserts on it. *)
Theorem update_chain_tip_below_birthday_panics `{!BlockHeightOps} (db : WalletDb)
    (sapling new_tip b : Z) :
  0 <= new_tip < 2 ^ 32 - 1 -> sapling <= new_tip -> blocks db = [] ->
  wallet_birthday db = Some b -> new_tip + 1 < b ->
  update_chain_tip db (Some sapling) new_tip = Err (Panicked AssertFailed).
Proof.
  intros Htip Hs Hb Hbirth Hlt. unfold update_chain_tip. cbn [opt_filter].
  rewrite (proj2 (Z.leb_le _ _) Hs). unfold block_height_extrema. rewrite Hb. cbn [sql_min fmap option_fmap option_map].
  rewrite bh_add_exact by lia. unfold tip_shard_entry. rewrite Hbirth.
  destruct (opt_filter (fun h => h <? new_tip + 1) _) as [h|] eqn:E.
  - assert (h < b) as Hhb.
    { destruct (sql_min _); [|done]. cbn in E. zcases; simplify_eq. lia. }
    cbn [opt_filter]. rewrite (proj2 (Z.ltb_lt _ _) Hhb). unfold from_parts. cbn.
    by rewrite (proj2 (Z.leb_gt _ _)) by lia.
  - cbn. unfold tip_entry. rewrite Hbirth. unfold from_parts. cbn.
    by rewrite (proj2 (Z.leb_gt _ _)) by lia.
Qed.

(** *** Witnesses *)

Definition example_db : WalletDb :=
  MkDb (map row_of example_queue) [120; 149] [90] [Some 100; None] [Some 140] [].

Lemma example_db_ok : db_ok example_db example_queue 400.
Proof.
  unfold db_ok. split; [split; [reflexivity|exact example_queue_ok]|].
  split; [|lia]. cbn. rewrite !Forall_cons, Forall_nil. lia.
Defined.

Lemma update_chain_tip_covers_witness :
  exists rs', update_chain_tip example_db (Some 80) 400 = Ok (with_queue example_db (map row_of rs')) /\
    is_Some (prio_at rs' 400).
Proof.
  destruct (update_chain_tip_covers example_db example_queue (Some 80) 400)
    as (rs' & E & _ & _ & _ & Hc).
  - exact example_db_ok.
  - intros b Hb. vm_compute in Hb. injection Hb as <-. lia.
  - exists rs'. split; [exact E|]. apply (Hc 80); [reflexivity|lia|].
    intros m Hm. vm_compute in Hm. injection Hm as <-. lia.
Defined.

Lemma update_chain_tip_verifies_witness :
  exists rs', update_chain_tip example_db (Some 80) 400 = Ok (with_queue example_db (map row_of rs')) /\
    prio_at rs' 150 = Some Verify /\ prio_at rs' 159 = Some Verify.
Proof.
  destruct (update_chain_tip_verifies example_db example_queue 80 400 149
              (MkScanRange (100 ..- 401) ChainTip)) as (rs' & E & Hv).
  - exact example_db_ok.
  - intros b Hb. vm_compute in Hb. injection Hb as <-. lia.
  - lia.
  - reflexivity.
  - unfold PRUNING_DEPTH. lia.
  - reflexivity.
  - exists rs'. split; [exact E|]. split; apply Hv; unfold PRUNING_DEPTH, VERIFY_LOOKAHEAD; lia.
Defined.

Lemma update_chain_tip_below_birthday_panics_witness :
  update_chain_tip (MkDb [] [] [500] [] [] []) (Some 80) 400 = Err (Panicked AssertFailed).
Proof.
  apply (update_chain_tip_below_birthday_panics _ 80 400 500); [lia|lia|reflexivity|reflexivity|lia].
Defined.
