(* ===== verification/PruneQueue.v ===== *)
(** * Pruning the scan queue

    [zcash_client_sqlite/src/wallet/scanning.rs], [prune_scan_queue_below]: drops
    queued work below a height without opening a gap in the queue. *)

From stdpp Require Import sorting.
From S2P Require Import Prelude ScanRange SpanningTree ScanQueue.

(** The closure [is_retained]. *)
Definition is_retained (retain_with_priority : option ScanPriority) (p : ScanPriority) : bool :=
  match retain_with_priority with
  | Some retain => (prio_rank p <=? prio_rank Scanned) || (prio_rank retain <=? prio_rank p)
  | None => false
  end.

Definition row_start_order (a b : scan_row) : Prop := row_start a <= row_start b.
#[global] Instance row_start_order_dec a b : Decision (row_start_order a b).
Proof. unfold row_start_order. apply _. Defined.

(** The closure given to [flat_map]. *)
Definition prune_entry (height : Z) (retain : option ScanPriority) (fill_from : option Z)
    (entry : ScanRange) : exec (list ScanRange) :=
  if is_retained retain (priority entry) then Ok [entry]
  else
    pruned ← from_parts (sstart entry ..- Z.min (send entry) height) Ignored;
    kept ← (if height <? send entry
            then r ← from_parts (height ..- send entry) (priority entry); Ok [r]
            else Ok []);
    match fill_from with
    | Some floor => if floor <? send pruned then Ok (pruned :: kept) else Ok kept
    | None => Ok kept
    end.

(** The closure given to [fold]: coalesces an entry with the last one. *)
Definition coalesce (acc : list ScanRange) (entry : ScanRange) : exec (list ScanRange) :=
  match last acc with
  | Some prev =>
      if bool_decide (priority prev = priority entry) && (send prev =? sstart entry) then
        merged ← from_parts (sstart prev ..- send entry) (priority prev);
        Ok (removelast acc ++ [merged])
      else Ok (acc ++ [entry])
  | None => Ok (acc ++ [entry])
  end.

(** The list of entries that replaces the existing ones. *)
Definition prune_replacement (height : Z) (retain : option ScanPriority) (existing : list ScanRange)
    : exec (list ScanRange) :=
  let fill_from :=
    (fun e => sstart e) <$> List.find (fun e => is_retained retain (priority e)) existing in
  pieces ← mapM_res (prune_entry height retain fill_from) existing;
  foldM coalesce [] (concat pieces).

(** [prune_scan_queue_below]: the new table and the number of entries removed or
    altered. *)
Definition prune_scan_queue_below (tbl : list scan_row) (height : Z)
    (retain_with_priority : option ScanPriority) : res QueueError (list scan_row * Z) :=
  existing ← mapM_res scan_range_from_row
               (merge_sort row_start_order (filter (fun r => row_start r < height) tbl));
  replacement ← lift_exec (prune_replacement height retain_with_priority existing);
  if bool_decide (replacement = existing) then Ok (tbl, 0)
  else
    tbl ← insert_queue_entries (filter (fun r => ~ row_start r < height) tbl) replacement;
    Ok (tbl, Z.of_nat (length (filter (fun e => e ∉ replacement) existing))).

(** ** Lemmas *)

(** Ranges in ascending order that do not overlap. *)
Definition before (a b : ScanRange) : Prop := send a <= sstart b.
Definition ascending (l : list ScanRange) : Prop := pairwise before l.

Lemma ascending_disjoint l : ascending l -> pairwise disjoint l.
Proof.
  unfold ascending. induction l as [|a l IH]; cbn; [done|]. intros [Ha Hl]. split; [|auto].
  eapply Forall_impl; [exact Ha|]. unfold before, disjoint. auto.
Qed.

Lemma sorted_ascending l :
  queue_ok l -> StronglySorted (fun a b => sstart a <= sstart b) l -> ascending l.
Proof.
  intros Hok Hs. unfold ascending. pose proof Hok as (Hne & Hd & _).
  induction Hs as [|a l Hs IH Ha]; cbn; [done|].
  inversion Hne; subst. destruct Hd as [Hda Hd]. destruct Hok as (_ & _ & Hl). inversion Hl; subst.
  split; [|apply IH; [by split_and!|done..]].
  rewrite !Forall_forall in *. intros x Hx. specialize (Hda x Hx). specialize (Ha x Hx).
  unfold before, disjoint, sr_nonempty in *.
  match goal with H : forall x, x ∈ l -> sstart x < send x |- _ => specialize (H x Hx) end. lia.
Qed.

(** A list of pieces that lie inside [r], ascending. *)
Definition inside (r : ScanRange) (l : list ScanRange) : Prop :=
  ascending l /\ Forall (fun x => sr_nonempty x /\ sstart r <= sstart x /\ send x <= send r) l.

Lemma ascending_concat es ps :
  Forall2 inside es ps -> ascending es ->
  ascending (concat ps) /\ Forall sr_nonempty (concat ps).
Proof.
  unfold ascending.
  induction 1 as [|e p es ps [Hp Hin] Hps IH]; cbn; [done|]. intros [He Hes].
  destruct (IH Hes) as [IH1 IH2]. split.
  - apply pairwise_app. split_and!; [done..|]. intros x y Hx Hy.
    apply list_elem_of_In, in_concat in Hy as (q & Hq%list_elem_of_In & Hy%list_elem_of_In).
    apply list_elem_of_lookup_1 in Hq as (i & Hq).
    destruct (Forall2_lookup_r _ _ _ _ _ Hps Hq) as (e' & He' & _ & Hin').
    pose proof (proj1 (Forall_forall _ _) Hin x Hx) as (_ & _ & Hx').
    pose proof (proj1 (Forall_forall _ _) Hin' y Hy) as (_ & Hy' & _).
    apply list_elem_of_lookup_2 in He'. pose proof (proj1 (Forall_forall _ _) He _ He') as Hb.
    unfold before in *. lia.
  - apply Forall_app. split; [|done]. eapply Forall_impl; [exact Hin|]. naive_solver.
Qed.

(** Coalescing keeps the list ascending and changes no priority. *)
Lemma coalesce_ok acc e :
  ascending (acc ++ [e]) -> Forall sr_nonempty (acc ++ [e]) ->
  exists acc', coalesce acc e = Ok acc' /\ ascending acc' /\ Forall sr_nonempty acc' /\
    (forall h, prio_at acc' h = prio_at (acc ++ [e]) h) /\
    (forall r, Forall (fun x => before x r) (acc ++ [e]) -> Forall (fun x => before x r) acc').
Proof.
  intros Ha Hne. unfold coalesce. destruct acc as [|prev acc _] using rev_ind.
  { exists [e]. by split_and!. }
  rewrite last_snoc. destruct (bool_decide _ && _) eqn:E; [|by exists ((acc ++ [prev]) ++ [e])].
  apply andb_true_iff in E as [Hp%bool_decide_eq_true Hs%Z.eqb_eq].
  apply Forall_app in Hne as [Hne He]. apply Forall_app in Hne as [Hne Hprev].
  rewrite Forall_singleton in He, Hprev. unfold sr_nonempty in He, Hprev.
  rewrite from_parts_ok by (cbn; lia). cbn [mbind res_bind]. rewrite removelast_last.
  eexists. split; [done|]. rewrite <- app_assoc in Ha.
  apply pairwise_app in Ha as (Ha1 & (Hpe & _) & Ha3). split_and!.
  - apply pairwise_app. split_and!; [done|by cbn|]. intros x y Hx ->%list_elem_of_singleton.
    specialize (Ha3 x prev Hx). unfold before in *. cbn. apply Ha3. set_solver.
  - apply Forall_app. split; [done|]. apply Forall_singleton. unfold sr_nonempty. cbn. lia.
  - intros h. rewrite <- app_assoc, !prio_at_app. destruct (prio_at acc h); [done|].
    cbn. rewrite <- Hp. unfold in_range. cbn. zcases; done.
  - intros r Hr. apply Forall_app in Hr as [Hr Hre]. apply Forall_app in Hr as [Hr _].
    apply Forall_app. split; [done|]. apply Forall_singleton.
    by rewrite Forall_singleton in Hre.
Qed.

Lemma coalesce_all l : forall acc,
  ascending (acc ++ l) -> Forall sr_nonempty (acc ++ l) ->
  exists acc', foldM coalesce acc l = Ok acc' /\ ascending acc' /\ Forall sr_nonempty acc' /\
    forall h, prio_at acc' h = prio_at (acc ++ l) h.
Proof.
  induction l as [|e l IH]; intros acc Ha Hne.
  { rewrite app_nil_r in *. by exists acc. }
  change (e :: l) with ([e] ++ l) in *. rewrite app_assoc in Ha, Hne.
  apply Forall_app in Hne as [Hne1 Hne2]. pose proof Ha as (Ha1 & Ha2 & Ha3)%pairwise_app.
  destruct (coalesce_ok acc e) as (acc' & E & Hasc & Hne' & Hp & Hb); [done..|].
  destruct (IH acc') as (acc2 & E2 & H1 & H2 & H3).
  - apply pairwise_app. split_and!; [done..|]. intros x y Hx Hy.
    apply (proj1 (Forall_forall _ _) (Hb y ltac:(apply Forall_forall; intros; by apply Ha3)) x Hx).
  - by apply Forall_app.
  - exists acc2. cbn [foldM app]. rewrite E. cbn [mbind res_bind]. split_and!; [done..|].
    intros h. rewrite H3, prio_at_app, Hp, !prio_at_app. cbn.
    destruct (prio_at acc h); [done|]. by destruct (in_range _ _).
Qed.

Section Prune.
Context (height : Z) (retain : option ScanPriority).

(** The priority that pruning gives to a height of an entry. *)
Definition entry_spec (fill_from : option Z) (e : ScanRange) (h : Z) : option ScanPriority :=
  if (height <=? h) || is_retained retain (priority e) then Some (priority e)
  else match fill_from with
       | Some floor => if floor <? Z.min (send e) height then Some Ignored else None
       | None => None
       end.

Lemma prune_entry_ok fill_from e :
  sr_nonempty e -> sstart e < height ->
  exists p, prune_entry height retain fill_from e = Ok p /\ inside e p /\
    (forall h, prio_at p h = if in_range h (block_range e) then entry_spec fill_from e h else None) /\
    Forall (fun x => priority x = priority e \/ priority x = Ignored) p.
Proof.
  intros He Hh. unfold prune_entry, entry_spec, inside, ascending. destruct (is_retained _ _).
  { exists [e]. split; [done|]. split_and!; [done| | |].
    - apply Forall_singleton. split_and!; [done|lia..].
    - intros h. cbn. by rewrite orb_true_r.
    - apply Forall_singleton. by left. }
  unfold sr_nonempty in *. destruct e as [[es ee] ep]; cbn in *.
  zcases; rewrite !from_parts_ok by (cbn; lia); cbn [mbind res_bind];
    (destruct fill_from as [floor|]; cbn; zcases);
    (eexists; split; [done|]; split_and!;
     [ cbn; unfold before; repeat constructor; cbn; lia
     | repeat constructor; cbn; lia
     | intros h; cbn; unfold in_range; cbn; zcases; done
     | rewrite ?Forall_cons; split_and?; try done; cbn; auto ]).
Qed.

Lemma prune_entries_ok fill_from l :
  Forall (fun e => sr_nonempty e /\ sstart e < height) l ->
  exists ps, mapM_res (prune_entry height retain fill_from) l = Ok ps /\
    Forall2 inside l ps /\
    Forall2 (fun e p => forall h, prio_at p h =
               if in_range h (block_range e) then entry_spec fill_from e h else None) l ps /\
    (Forall (fun r => priority r <> LatestPoolActivation) l ->
     Forall (fun r => priority r <> LatestPoolActivation) (concat ps)).
Proof.
  induction l as [|e l IH]; intros Hl; cbn.
  { exists []. by split_and!; try constructor. }
  inversion Hl as [|? ? [He1 He2] Hl']; subst.
  destruct (prune_entry_ok fill_from e) as (p & -> & H1 & H2 & H3); [done..|].
  destruct (IH Hl') as (ps & -> & H4 & H5 & H6). exists (p :: ps). cbn.
  split_and!; [done|by constructor..|]. intros Hlp. inversion Hlp; subst.
  apply Forall_app. split; [|auto]. eapply Forall_impl; [exact H3|].
  intros x [->| ->]; done.
Qed.
End Prune.

#[local] Instance row_start_order_trans : Transitive row_start_order.
Proof. intros ? ? ?. unfold row_start_order. lia. Qed.
#[local] Instance row_start_order_total : Total row_start_order.
Proof. intros ? ?. unfold row_start_order. lia. Qed.

(** The ranges of the queue that start below the height, in ascending order. *)
Definition start_order (a b : ScanRange) : Prop := sstart a <= sstart b.
#[global] Instance start_order_dec a b : Decision (start_order a b).
Proof. unfold start_order. apply _. Defined.

#[local] Instance start_order_trans : Transitive start_order.
Proof. intros ? ? ?. unfold start_order. lia. Qed.
#[local] Instance start_order_total : Total start_order.
Proof. intros ? ?. unfold start_order. lia. Qed.

Definition ranges_below (height : Z) (rs : list ScanRange) : list ScanRange :=
  merge_sort start_order (filter (fun r => sstart r < height) rs).

(** The floor: the start of the lowest retained entry below the height. *)
Definition prune_floor (height : Z) (retain : option ScanPriority) (rs : list ScanRange) : option Z :=
  (fun e => sstart e) <$>
    List.find (fun e => is_retained retain (priority e)) (ranges_below height rs).

(** What pruning does to the priority of a height: heights at or above [height]
    and retained priorities are kept, other heights become [Ignored] above the
    floor and are dropped below it. *)
Definition prune_spec (height : Z) (retain : option ScanPriority) (floor : option Z)
    (p : ScanPriority) (h : Z) : option ScanPriority :=
  if (height <=? h) || is_retained retain p then Some p
  else match floor with
       | Some f => if f <=? h then Some Ignored else None
       | None => None
       end.

Section PruneTable.
Context (rs : list ScanRange) (Hok : queue_ok rs) (height : Z) (retain : option ScanPriority).

Let existing := ranges_below height rs.
Let above := filter (fun r => ~ sstart r < height) rs.
Let floor := prune_floor height retain rs.

Lemma existing_Permutation : existing ++ above ≡ₚ rs.
Proof using Type.
  unfold existing, above, ranges_below. rewrite merge_sort_Permutation.
  clear. induction rs as [|r l IH]; [done|]. rewrite !filter_cons.
  destruct (decide (sstart r < height)), (decide (~ sstart r < height)); try lia; cbn.
  - by rewrite IH.
  - by rewrite <- Permutation_middle, IH.
Qed.

Lemma existing_ok : queue_ok existing /\ ascending existing /\
  Forall (fun e => sr_nonempty e /\ sstart e < height) existing.
Proof using Hok.
  assert (queue_ok existing) as He.
  { eapply queue_ok_Permutation; [symmetry; apply merge_sort_Permutation|]. by apply queue_ok_filter. }
  split_and!; [done| |].
  - apply sorted_ascending; [done|]. apply StronglySorted_merge_sort;
      [intros ? ? ?|intros ? ?]; unfold start_order; lia.
  - apply Forall_forall. intros e Hin. destruct He as [Hne _].
    split; [by apply (proj1 (Forall_forall _ _) Hne)|].
    unfold existing, ranges_below in Hin. rewrite merge_sort_Permutation in Hin.
    by apply list_elem_of_filter in Hin as [? _].
Qed.

(** The floor test on an entry is a test on each of its heights. *)
Lemma entry_spec_floor e h :
  e ∈ existing -> in_range h (block_range e) = true ->
  entry_spec height retain floor e h = prune_spec height retain floor (priority e) h.
Proof using Hok.
  intros He Hin. unfold entry_spec, prune_spec. zcases; [done|].
  destruct (is_retained retain (priority e)) eqn:Er; [done|]. cbn.
  destruct existing_ok as (Hq & _ & Hlt).
  pose proof (proj1 (Forall_forall _ _) Hlt e He) as [_ Hel].
  apply in_range_true in Hin. unfold floor, prune_floor. fold existing.
  destruct (List.find _ existing) as [f|] eqn:Ef; [|done]. cbn.
  apply List.find_some in Ef as [Hf%list_elem_of_In Hret].
  pose proof (proj1 (Forall_forall _ _) Hlt f Hf) as [_ Hfl].
  destruct (queue_ok_elem _ e f Hq He Hf) as (? & ? & [->|Hd]); [congruence|].
  unfold disjoint, sr_nonempty in *. zcases; done.
Qed.

Lemma replacement_ok :
  exists rep, prune_replacement height retain existing = Ok rep /\ ascending rep /\
    Forall sr_nonempty rep /\
    (forall h, prio_at rep h = prio_at existing h ≫= fun p => prune_spec height retain floor p h).
Proof using Hok.
  destruct existing_ok as ((Hne & Hd & Hlp) & Hasc & Hlt).
  destruct (prune_entries_ok height retain floor existing Hlt) as (ps & E & Hin & Hp & _).
  destruct (ascending_concat _ _ Hin Hasc) as [Hc Hcn].
  destruct (coalesce_all (concat ps) []) as (rep & E2 & H1 & H2 & H3); [done..|].
  exists rep. unfold prune_replacement. change (_ <$> List.find _ existing) with floor.
  rewrite E. cbn. split_and!; [done..|]. intros h.
  rewrite H3. cbn. rewrite (prio_at_concat _ _ _ h Hp Hd), prio_at_cover.
  destruct (cover existing h) as [e|] eqn:Ec; [|done]. cbn.
  apply cover_Some in Ec as [? ?]. by apply entry_spec_floor.
Qed.

(** The new entries stay clear of the rows that are left alone, and none of them
    has the read-time priority. *)
Lemma replacement_queue_ok rep :
  ascending rep -> Forall sr_nonempty rep ->
  (forall h, prio_at rep h = prio_at existing h ≫= fun p => prune_spec height retain floor p h) ->
  queue_ok (above ++ rep) /\ map relabel rep = rep.
Proof using Hok.
  intros Hasc Hne Hp. pose proof (ascending_disjoint _ Hasc) as Hd.
  destruct existing_ok as ((_ & _ & Hlp) & _ & _).
  assert (forall r h, r ∈ rep -> in_range h (block_range r) = true -> exists e p,
            e ∈ existing /\ in_range h (block_range e) = true /\
            prune_spec height retain floor (priority e) h = Some p /\ p = priority r) as Hcov.
  { intros r h Hr Hin. pose proof (prio_at_elem rep r h Hd Hr Hin) as E. rewrite Hp in E.
    apply bind_Some in E as (p & E & Es). apply prio_at_Some in E as (e & He & Hine & <-). eauto 6. }
  assert (Forall (fun r => priority r <> LatestPoolActivation) rep) as Hnl.
  { apply Forall_forall. intros r Hr. pose proof (proj1 (Forall_forall _ _) Hne r Hr) as Hrn.
    destruct (Hcov r (sstart r) Hr) as (e & p & He & _ & Hs & ->).
    { apply in_range_true. unfold sr_nonempty in Hrn. lia. }
    pose proof (proj1 (Forall_forall _ _) Hlp e He) as Hel. unfold prune_spec in Hs.
    repeat case_match; simplify_eq; congruence. }
  pose proof (queue_ok_filter (fun r => ~ sstart r < height) rs Hok) as (Ha1 & Ha2 & Ha3).
  assert (forall x r, x ∈ above -> r ∈ rep -> disjoint x r) as Hdis.
  { intros x r Hx Hr. pose proof (proj1 (Forall_forall _ _) Hne r Hr) as Hrn.
    pose proof (proj1 (Forall_forall _ _) Ha1 x Hx) as Hxn. unfold disjoint, sr_nonempty in *.
    destruct (decide (send x <= sstart r \/ send r <= sstart x)) as [|Hno]; [done|exfalso].
    destruct (Hcov r (Z.max (sstart x) (sstart r)) Hr) as (e & _ & He & Hin & _).
    { apply in_range_true. lia. }
    apply in_range_true in Hin. pose proof Hok as (_ & Hdr & _).
    rewrite <- existing_Permutation in Hdr. apply pairwise_app in Hdr as (_ & _ & Hea).
    specialize (Hea e x He Hx). unfold disjoint in Hea. lia. }
  split.
  - split_and!; [by apply Forall_app| |by apply Forall_app].
    apply pairwise_app. by split_and!.
  - clear -Hnl. induction Hnl as [|r l Hr Hl IH]; cbn; [done|]. rewrite IH. f_equal.
    destruct r as [? []]; done.
Qed.

(** The priorities of the rewritten queue. *)
Lemma pruned_prio rep h :
  (forall h, prio_at rep h = prio_at existing h ≫= fun p => prune_spec height retain floor p h) ->
  prio_at (above ++ rep) h = prio_at rs h ≫= fun p => prune_spec height retain floor p h.
Proof using Hok.
  intros Hp. pose proof Hok as (_ & Hd & _).
  pose proof (prio_at_Permutation rs (existing ++ above) h Hd) as ->; [|by rewrite existing_Permutation].
  rewrite <- existing_Permutation in Hd. apply pairwise_app in Hd as (_ & Hda & Hea).
  rewrite !prio_at_app, Hp. destruct (prio_at above h) as [p|] eqn:Ea.
  - apply prio_at_Some in Ea as (x & Hx & Hin & <-). pose proof Hx as [Hnlt _]%list_elem_of_filter.
    apply in_range_true in Hin. destruct (prio_at existing h) as [p|] eqn:Ee.
    + apply prio_at_Some in Ee as (e & He & Hine & _). apply in_range_true in Hine.
      specialize (Hea e x He Hx). unfold disjoint in Hea. lia.
    + cbn. unfold prune_spec. by rewrite (proj2 (Z.leb_le _ _)) by lia.
  - by destruct (prio_at existing h).
Qed.

Lemma unchanged_prio h :
  (forall h, prio_at existing h = prio_at existing h ≫= fun p => prune_spec height retain floor p h) ->
  prio_at rs h = prio_at rs h ≫= fun p => prune_spec height retain floor p h.
Proof using Hok.
  intros Hp. rewrite <- (pruned_prio existing h Hp). apply prio_at_Permutation; [apply Hok|].
  by rewrite <- existing_Permutation, Permutation_app_comm.
Qed.
End PruneTable.

(** *** Claims *)

(** [prune_scan_queue_below] drops exactly the work it names.  On a stored
    queue that satisfies the invariant the call succeeds and restores the
    invariant; a height at or above [height], or with a retained priority, keeps
    its priority; any other height becomes [Ignored] when it lies above the
    lowest retained entry, so that no interior gap opens, and leaves the queue
    otherwise; heights that were not queued stay so. *)
Theorem prune_scan_queue_below_spec (rs : list ScanRange) (height : Z)
    (retain : option ScanPriority) :
  queue_ok rs ->
  exists rs' n, prune_scan_queue_below (map row_of rs) height retain = Ok (map row_of rs', n) /\
    queue_ok rs' /\
    forall h, prio_at rs' h =
      prio_at rs h ≫= fun p => prune_spec height retain (prune_floor height retain rs) p h.
Proof.
  intros Hok. destruct (replacement_ok rs Hok height retain) as (rep & E & Hasc & Hne & Hp).
  destruct (existing_ok rs Hok height) as (Hq & _ & Hlt).
  assert (mapM_res scan_range_from_row (merge_sort row_start_order
            (filter (fun r => row_start r < height) (map row_of rs)))
          = Ok (ranges_below height rs)) as Hex.
  { rewrite (filter_rows _ (fun r => sstart r < height)) by done. unfold ranges_below.
    rewrite (merge_sort_rows row_start_order start_order).
    - apply mapM_rows. destruct Hq as [Hq _]. eapply Forall_impl; [exact Hq|]. auto with wallet.
    - done.
    - intros a b [_ Ha]%list_elem_of_filter [_ Hb]%list_elem_of_filter H1 H2.
      destruct (queue_ok_elem _ _ _ Hok Ha Hb) as (? & ? & [?|?]); [done|].
      unfold start_order, disjoint, sr_nonempty in *. lia. }
  unfold prune_scan_queue_below. rewrite Hex. cbn [mbind res_bind]. rewrite E. cbn [mbind res_bind lift_exec].
  destruct (bool_decide (rep = _)) eqn:Eb.
  - apply bool_decide_eq_true in Eb as ->. exists rs, 0. split_and!; [done..|].
    intros h. by apply unchanged_prio.
  - destruct (replacement_queue_ok rs Hok height retain rep Hasc Hne Hp) as [Hqo Hrl].
    rewrite (filter_rows _ (fun r => ~ sstart r < height)) by done.
    pose proof Hqo as (Hn1 & Hd1 & _). pose proof Hn1 as [Hn2 _]%Forall_app.
    rewrite insert_queue_entries_ok by done. rewrite Hrl. cbn.
    eexists _, _. split_and!; [done..|]. intros h. by apply pruned_prio.
Qed.

(** *** Witnesses *)

Lemma prune_scan_queue_below_spec_witness :
  exists rs' n, prune_scan_queue_below (map row_of example_queue) 170 (Some FoundNote)
      = Ok (map row_of rs', n) /\
    prio_at rs' 50 = None /\ prio_at rs' 120 = Some Scanned /\ prio_at rs' 160 = Some ChainTip.
Proof.
  destruct (prune_scan_queue_below_spec example_queue 170 (Some FoundNote)) as (rs' & n & E & _ & Hp).
  - exact example_queue_ok.
  - exists rs', n. split; [exact E|]. rewrite !Hp. vm_compute. auto.
Defined.
