(* ===== verification/LatestPool.v ===== *)
(** * Scan suggestions for the latest shielded pool

    [zcash_client_sqlite/src/wallet/scanning/latest_pool.rs]: the order in which
    queued ranges are handed to the scanner, and the read-time priority of the
    most recently activated pool. *)

From stdpp Require Import sorting.
From S2P Require Import Prelude ScanRange SpanningTree ScanQueue.

(** The order of the final [sort_by] of [derive_latest_pool_activation]. *)
Definition suggestion_order (a b : ScanRange) : Prop :=
  prio_rank (priority b) < prio_rank (priority a) \/
  (priority a = priority b /\ send b <= send a).

#[global] Instance suggestion_order_dec a b : Decision (suggestion_order a b).
Proof. unfold suggestion_order. apply _. Defined.

(** The loop body of [derive_latest_pool_activation]. *)
Definition split_for_activation (activation : Z) (range : ScanRange) : exec (list ScanRange) :=
  if decide (priority range <> Historic) then Ok [range]
  else
    match truncate_end range activation, truncate_start range activation with
    | Some below, Some above =>
        p ← from_parts (block_range above) LatestPoolActivation;
        Ok [below; p]
    | None, Some above =>
        p ← from_parts (block_range above) LatestPoolActivation;
        Ok [p]
    | _, _ => Ok [range]
    end.

(** [latest_pool::derive_latest_pool_activation] *)
Definition derive_latest_pool_activation (ranges : list ScanRange) (activation : option Z)
    : exec (list ScanRange) :=
  match activation with
  | None => Ok ranges
  | Some activation =>
      if negb (existsb (fun r => bool_decide (priority r = Historic) && (sstart r <? activation)) ranges)
      then Ok ranges
      else
        out ← foldM (fun out range =>
                       new ← split_for_activation activation range; Ok (out ++ new)) [] ranges;
        Ok (merge_sort suggestion_order out)
  end.

(** [latest_pool::suggest_scan_ranges]; [nu6_3] is
    [params.activation_height(NetworkUpgrade::Nu6_3)]. *)
Definition suggest_scan_ranges_latest (tbl : list scan_row) (nu6_3 : option Z)
    : res QueueError (list ScanRange) :=
  ranges ← suggest_scan_ranges tbl Historic;
  lift_exec (derive_latest_pool_activation ranges nu6_3).

(** ** Lemmas *)

#[global] Instance suggestion_order_trans : Transitive suggestion_order.
Proof.
  intros a b c. unfold suggestion_order. intros [?|[E1 ?]] [?|[E2 ?]].
  - left. lia.
  - left. by rewrite <- E2.
  - left. by rewrite E1.
  - right. split; [congruence|lia].
Qed.
#[global] Instance suggestion_order_total : Total suggestion_order.
Proof.
  intros a b. unfold suggestion_order.
  destruct (prio_cmp_spec (priority a) (priority b)) as [E|E|E]; [|auto..].
  rewrite E. destruct (Z.le_ge_cases (send a) (send b)); auto.
Qed.

(** The codes of the table order priorities as [ScanPriority] does. *)
Lemma priority_code_mono a b : priority_code a < priority_code b <-> prio_rank a < prio_rank b.
Proof. destruct a, b; cbn; lia. Qed.

Lemma row_order_of a b : row_order (row_of a) (row_of b) <-> suggestion_order a b.
Proof.
  unfold row_order, suggestion_order, row_of; cbn. rewrite priority_code_mono.
  split; intros [?|[E ?]]; auto; right; split; try done.
  - apply prio_rank_inj. pose proof (priority_code_mono (priority a) (priority b)).
    pose proof (priority_code_mono (priority b) (priority a)). lia.
  - by rewrite E.
Qed.

(** The new priority of a height of a [Historic] range. *)
Definition promote (activation : Z) (p : ScanPriority) (h : Z) : ScanPriority :=
  if decide (p = Historic /\ activation <= h) then LatestPoolActivation else p.

Lemma split_for_activation_ok activation r :
  sr_nonempty r ->
  exists l, split_for_activation activation r = Ok l /\
    Forall (fun x => sr_nonempty x /\ sstart r <= sstart x /\ send x <= send r) l /\
    pairwise disjoint l /\
    forall h, prio_at l h =
      if in_range h (block_range r) then Some (promote activation (priority r) h) else None.
Proof.
  intros Hr. unfold split_for_activation. case_decide as Hp.
  { exists [r]. split_and!; [done| |done|].
    - apply Forall_singleton. split_and!; [done|lia..].
    - intros h. cbn. unfold promote. rewrite decide_False by tauto. done. }
  assert (priority r = Historic) as Hh by (destruct (decide (priority r = Historic)); tauto).
  pose proof (truncate_end_spec r activation) as He.
  pose proof (truncate_start_spec r activation) as Hs.
  destruct r as [[rs re] rp]; cbn in Hh; subst rp. unfold sr_nonempty in *; cbn in Hr.
  destruct (truncate_end _ _) as [[[bs be] bp]|], (truncate_start _ _) as [[[cs ce] cp]|];
    cbn in *; destruct_and?; subst; rewrite ?from_parts_ok by (cbn; lia); cbn [mbind res_bind];
    try lia; eexists; (split; [done|]); split_and!;
    try (rewrite ?Forall_cons; split_and?; try done; cbn; lia);
    try (cbn; rewrite ?Forall_cons; split_and?; try done; unfold disjoint; cbn; lia).
  all: intros h; cbn; unfold in_range, promote; cbn.
  all: case_decide as Hd; [destruct Hd as [_ Hd]|assert (h < activation) by (destruct (decide (activation <= h)); [tauto|lia])].
  all: zcases; done.
Qed.

Lemma split_all_ok activation rs : forall out,
  Forall sr_nonempty rs ->
  exists ps,
    foldM (fun out range => new ← split_for_activation activation range; Ok (out ++ new)) out rs
      = Ok (out ++ concat ps) /\
    Forall2 (fun e p => pairwise disjoint p /\
               Forall (fun x => sr_nonempty x /\ sstart e <= sstart x /\ send x <= send e) p) rs ps /\
    Forall2 (fun e p => forall h, prio_at p h =
               if in_range h (block_range e) then Some (promote activation (priority e) h) else None)
      rs ps.
Proof.
  induction rs as [|r rs IH]; intros out Hne; cbn.
  { exists []. rewrite app_nil_r. split_and!; constructor. }
  inversion Hne as [|? ? Hr Hrs]; subst.
  destruct (split_for_activation_ok activation r Hr) as (p & -> & H1 & H2 & H3). cbn.
  destruct (IH (out ++ p) Hrs) as (ps & -> & H4 & H5). exists (p :: ps). cbn.
  rewrite app_assoc. split_and!; [done|by constructor..].
Qed.

(** Whether some [Historic] coverage starts below the activation height. *)
Definition has_older_history (activation : Z) (rs : list ScanRange) : bool :=
  existsb (fun r => bool_decide (priority r = Historic) && (sstart r <? activation)) rs.

Lemma derive_ok rs activation :
  Forall sr_nonempty rs -> pairwise disjoint rs -> StronglySorted suggestion_order rs ->
  exists out, derive_latest_pool_activation rs (Some activation) = Ok out /\
    StronglySorted suggestion_order out /\ Forall sr_nonempty out /\ pairwise disjoint out /\
    forall h, prio_at out h =
      (fun p => if has_older_history activation rs then promote activation p h else p) <$> prio_at rs h.
Proof.
  intros Hne Hd Hs. unfold derive_latest_pool_activation. fold (has_older_history activation rs).
  destruct (has_older_history activation rs); cbn [negb].
  2:{ exists rs. split_and!; [done..|]. intros h. by destruct (prio_at rs h). }
  destruct (split_all_ok activation rs [] Hne) as (ps & E & H1 & H2).
  rewrite E. cbn. destruct (disjoint_concat _ _ H1 Hd) as [Hcd Hcn].
  eexists. split; [done|].
  assert (merge_sort suggestion_order (concat ps) ≡ₚ concat ps) as Hp by apply merge_sort_Permutation.
  split_and!.
  - apply StronglySorted_merge_sort; apply _.
  - by rewrite Hp.
  - by rewrite Hp.
  - intros h. rewrite (prio_at_Permutation _ (concat ps)); [|by rewrite Hp|done].
    rewrite (prio_at_concat (fun e h => Some (promote activation (priority e) h)) rs) by done.
    rewrite prio_at_cover. by destruct (cover rs h).
Qed.

(** [suggest_scan_ranges] on the rows of a queue. *)
Lemma suggest_rows rs min_priority :
  queue_ok rs ->
  exists l, suggest_scan_ranges (map row_of rs) min_priority = Ok l /\
    l ≡ₚ filter (fun r => prio_rank min_priority <= prio_rank (priority r)) rs /\
    StronglySorted suggestion_order l.
Proof.
  intros Hok. unfold suggest_scan_ranges.
  rewrite (filter_rows _ (fun r => prio_rank min_priority <= prio_rank (priority r))).
  2:{ intros a. cbn. pose proof (priority_code_mono (priority a) min_priority). lia. }
  assert (Transitive row_order) as Ht by (intros ? ? ?; unfold row_order; lia).
  assert (Total row_order) as Htot by (intros ? ?; unfold row_order; lia).
  rewrite (merge_sort_rows row_order suggestion_order).
  - rewrite mapM_rows.
    + eexists. split; [done|]. split; [apply merge_sort_Permutation|].
      apply StronglySorted_merge_sort; apply _.
    + rewrite merge_sort_Permutation. apply Forall_forall. intros r [_ Hr]%list_elem_of_filter.
      destruct Hok as [Hne _]. by apply sr_nonempty_ok, (proj1 (Forall_forall _ _) Hne).
  - apply row_order_of.
  - intros a b [_ Ha]%list_elem_of_filter [_ Hb]%list_elem_of_filter H1 H2.
    destruct (queue_ok_elem _ _ _ Hok Ha Hb) as (? & ? & ?).
    apply disjoint_unique_end; [done..|]. unfold suggestion_order in *.
    destruct H1 as [?|[E1 ?]], H2 as [?|[E2 ?]]; rewrite ?E1, ?E2 in *; lia.
Qed.

(** *** Claims *)

(** The scanner receives the queued work in the right order.  For a stored
    queue that satisfies the invariant, [suggest_scan_ranges] returns ranges in
    descending priority (and, within a priority, descending end) that do not
    overlap and cover exactly the heights queued at [Historic] or above; while
    [Historic] coverage remains below the activation height of the latest pool,
    the [Historic] heights at or above it are reported as
    [LatestPoolActivation], and every other priority is reported as stored. *)
Theorem suggest_scan_ranges_latest_spec (rs : list ScanRange) (activation : Z) :
  queue_ok rs ->
  exists out, suggest_scan_ranges_latest (map row_of rs) (Some activation) = Ok out /\
    StronglySorted suggestion_order out /\ Forall sr_nonempty out /\ pairwise disjoint out /\
    forall h, prio_at out h =
      (p ← prio_at rs h;
       if prio_rank p <? prio_rank Historic then None
       else Some (if has_older_history activation rs then promote activation p h else p)).
Proof.
  intros Hok. pose proof Hok as (Hne & Hd & _).
  destruct (suggest_rows rs Historic Hok) as (l & E & Hp & Hs).
  assert (Forall sr_nonempty l /\ pairwise disjoint l) as [Hnl Hdl].
  { rewrite Hp. by apply (queue_ok_filter (fun r => prio_rank Historic <= prio_rank (priority r)) rs) in Hok as (? & ? & _). }
  destruct (derive_ok l activation Hnl Hdl Hs) as (out & Eo & H1 & H2 & H3 & H4).
  exists out. unfold suggest_scan_ranges_latest. rewrite E. cbn [mbind res_bind]. rewrite Eo. split_and!; [done..|].
  intros h. rewrite H4, (prio_at_Permutation l _ h Hdl Hp).
  assert (has_older_history activation l = has_older_history activation rs) as ->.
  { apply eq_bool_prop_intro. unfold has_older_history. rewrite !Is_true_true, !existsb_exists.
    split; intros (r & Hr%list_elem_of_In & Hx); exists r; (split; [apply list_elem_of_In|done]).
    - rewrite Hp in Hr. by apply list_elem_of_filter in Hr as [_ ?].
    - rewrite Hp. apply list_elem_of_filter. split; [|done].
      apply andb_true_iff in Hx as [->%bool_decide_eq_true _]. done. }
  destruct (prio_at rs h) as [p|] eqn:Ep; cbn.
  - apply prio_at_Some in Ep as (r & Hr & Hin & <-). zcases.
    + destruct (prio_at (filter _ rs) h) as [p|] eqn:Ef; [|done].
      apply prio_at_Some in Ef as (x & [Hxp Hx]%list_elem_of_filter & Hinx & <-).
      pose proof (prio_at_elem rs r h Hd Hr Hin). pose proof (prio_at_elem rs x h Hd Hx Hinx).
      assert (priority r = priority x) as Heq by congruence. rewrite Heq in *. cbn in *. lia.
    + rewrite (prio_at_elem _ r h); [done|by apply pairwise_filter| |done].
      by apply list_elem_of_filter.
  - rewrite prio_at_None; [done|]. intros r [_ Hr]%list_elem_of_filter.
    destruct (in_range h (block_range r)) eqn:Hin; [|done].
    by rewrite (prio_at_elem rs r h) in Ep.
Qed.

(** *** Witnesses *)

Lemma suggest_scan_ranges_latest_spec_witness :
  exists out, suggest_scan_ranges_latest (map row_of example_queue) (Some 60) = Ok out /\
    prio_at out 50 = Some Historic /\ prio_at out 70 = Some LatestPoolActivation /\
    prio_at out 120 = None.
Proof.
  destruct (suggest_scan_ranges_latest_spec example_queue 60) as (out & E & _ & _ & _ & Hp).
  - exact example_queue_ok.
  - exists out. split; [exact E|]. rewrite !Hp. vm_compute. auto.
Defined.
