(* ===== verification/WireReader.v ===== *)
(** * The bounds-checked reader of the transaction wire format

    [zakura/transaction-wire/src/reader.rs] and [error.rs], with the parts of the
    [zcash_protocol] crate that the wire format uses as an interface. *)

From S2P Require Import Prelude.

(** ** The protocol crate *)

(** [zcash_protocol::consensus::BranchId]: the variants that
    [TxVersion::valid_in_branch] matches exhaustively. *)
Inductive BranchId : Type :=
| Sprout | Overwinter | Sapling | Blossom | Heartwood | Canopy
| Nu5 | Nu6 | Nu6_1 | Nu6_2 | Nu6_3 | Nu7.

#[global] Instance byte_eq_decision : EqDecision byte := Stdlib.Strings.Byte.byte_eq_dec.

#[global] Instance BranchId_eq_dec : EqDecision BranchId.
Proof. solve_decision. Defined.

(** [zcash_protocol::consensus::OrchardProtocolRevision]: the two variants that the
    reader names, and any later one. *)
Inductive OrchardProtocolRevision : Type := InsecureV1 | RevV2 | LaterRevision.

(** Constants and conversions of [zcash_protocol]. *)
Class ZcashProtocol : Type := {
  usize_max : Z;
  MAX_COMPACT_SIZE : Z;
  MAX_MONEY : Z;
  V3_TX_VERSION : Z; V4_TX_VERSION : Z; V5_TX_VERSION : Z; V6_TX_VERSION : Z;
  V3_VERSION_GROUP_ID : Z; V4_VERSION_GROUP_ID : Z;
  V5_VERSION_GROUP_ID : Z; V6_VERSION_GROUP_ID : Z;
  branch_try_from : Z -> option BranchId;
  branch_to_u32 : BranchId -> Z;
  orchard_protocol_revision : BranchId -> option OrchardProtocolRevision;
  (* Zatoshis::from_nonnegative_i64_le_bytes, Zatoshis::from_u64_le_bytes *)
  zat_from_nonnegative_i64_le : list byte -> option Z;
  zat_from_u64_le : list byte -> option Z;
  (* ZatBalance::from_i64_le_bytes *)
  zat_balance_from_i64_le : list byte -> option Z;
  (* impl Add for ZatBalance, impl Sub for ZatBalance *)
  zat_balance_add : Z -> Z -> option Z;
  zat_balance_sub : Z -> Z -> option Z
}.

(** Two's complement reading of eight little-endian bytes. *)
Definition i64_of_le (bs : list byte) : Z :=
  let u := le_combine bs in if u <? 2 ^ 63 then u else u - 2 ^ 64.

(** The documented behaviour of those items. *)
Class ZcashProtocolLaws `{!ZcashProtocol} : Prop := {
  usize_max_bounds : 2 ^ 32 - 1 <= usize_max;
  max_compact_size_bounds : 0 <= MAX_COMPACT_SIZE < 2 ^ 32;
  max_money_bounds : 0 <= MAX_MONEY < 2 ^ 63;
  v3_number : V3_TX_VERSION = 3;
  v4_number : V4_TX_VERSION = 4;
  v5_number : V5_TX_VERSION = 5;
  v6_number : V6_TX_VERSION = 6;
  v3_group_u32 : 0 <= V3_VERSION_GROUP_ID < 2 ^ 32;
  v4_group_u32 : 0 <= V4_VERSION_GROUP_ID < 2 ^ 32;
  v5_group_u32 : 0 <= V5_VERSION_GROUP_ID < 2 ^ 32;
  v6_group_u32 : 0 <= V6_VERSION_GROUP_ID < 2 ^ 32;
  branch_to_u32_u32 : forall b, 0 <= branch_to_u32 b < 2 ^ 32;
  branch_try_from_spec : forall z b, branch_try_from z = Some b <-> branch_to_u32 b = z;
  zat_from_nonnegative_i64_le_spec : forall bs v, length bs = 8%nat ->
    zat_from_nonnegative_i64_le bs = Some v <-> i64_of_le bs = v /\ 0 <= v <= MAX_MONEY;
  zat_from_u64_le_spec : forall bs v, length bs = 8%nat ->
    zat_from_u64_le bs = Some v <-> le_combine bs = v /\ 0 <= v <= MAX_MONEY;
  zat_balance_from_i64_le_spec : forall bs v, length bs = 8%nat ->
    zat_balance_from_i64_le bs = Some v <-> i64_of_le bs = v /\ - MAX_MONEY <= v <= MAX_MONEY;
  zat_balance_add_spec : forall a b v,
    zat_balance_add a b = Some v <-> v = a + b /\ - MAX_MONEY <= v <= MAX_MONEY;
  zat_balance_sub_spec : forall a b v,
    zat_balance_sub a b = Some v <-> v = a - b /\ - MAX_MONEY <= v <= MAX_MONEY
}.

(** The branches under which the Orchard-protocol pools are active: Orchard from NU5
    on, Ironwood (a revision after [V2]) from NU6.3 on. *)
Class OrchardRevisions `{!ZcashProtocol} : Prop := {
  orchard_from_nu5 : forall b, b ∈ [Nu5; Nu6; Nu6_1; Nu6_2; Nu6_3; Nu7] ->
    is_Some (orchard_protocol_revision b);
  ironwood_from_nu6_3 : forall b, b ∈ [Nu6_3; Nu7] ->
    orchard_protocol_revision b = Some LaterRevision
}.

(** ** Errors *)

(** [DecodeError] *)
Inductive DecodeError : Type :=
| Truncated (field : string) (needed : Z)
| NonCanonicalCompactSize (field : string)
| CompactSizeTooLarge (field : string) (value : Z)
| CountExceedsInput (field : string) (count : Z)
| UnsupportedVersion (header : Z) (version_group_id : option Z)
| UnknownBranchId (id : Z)
| VersionNotValidInBranch (version branch_id : Z)
| ValueOutOfRange (field : string)
| PoolNotActive (pool : string)
| NonZeroBalanceWithoutDescriptions
| InvalidFlags (pool : string) (flags : Z)
| InvalidProofLength (pool : string) (expected actual : Z)
| TrailingBytes (count : Z).

(** ** The reader *)

Record Reader : Type := MkReader { data : list byte; pos : nat }.

(** A reading function: [&mut Reader] to [Result<A, DecodeError>]. *)
Definition parser (A : Type) : Type := Reader -> res DecodeError (A * Reader).

#[global] Instance parser_ret : MRet parser := fun A a r => Ok (a, r).
#[global] Instance parser_bind : MBind parser := fun A B f p r =>
  match p r with Ok (a, r) => f a r | Err e => Err e end.

Definition fail {A} (e : DecodeError) : parser A := fun _ => Err e.

(** [o.map_err(..)?] on a conversion. *)
Definition lift_opt {A} (e : DecodeError) (o : option A) : parser A :=
  match o with Some a => mret a | None => fail e end.

(** [Reader::new] *)
Definition reader_new (bs : list byte) : Reader := MkReader bs 0.

(** [Reader::position] *)
Definition position : parser nat := fun r => Ok (pos r, r).

(** [Reader::remaining] *)
Definition remaining (r : Reader) : Z := Z.of_nat (length (data r)) - Z.of_nat (pos r).

(** [Reader::take] *)
Definition take_bytes (n : Z) (field : string) : parser (list byte) := fun r =>
  if remaining r <? n then Err (Truncated field (n - remaining r))
  else Ok (take (Z.to_nat n) (drop (pos r) (data r)),
           MkReader (data r) (pos r + Z.to_nat n)).

(** [Reader::array] *)
Definition array (n : Z) (field : string) : parser (list byte) := take_bytes n field.

(** [Reader::u8] *)
Definition read_u8 (field : string) : parser Z :=
  bs ← array 1 field; mret (le_combine bs).

(** [Reader::u32_le] *)
Definition u32_le (field : string) : parser Z :=
  bs ← array 4 field; mret (le_combine bs).

(** [Reader::le_bytes8] *)
Definition le_bytes8 (field : string) : parser (list byte) := array 8 field.

(** [checked_mul] and [checked_add] on [usize]. *)
Definition checked `{!ZcashProtocol} (n : Z) : option Z := if n <=? usize_max then Some n else None.

Section Reader.
Context {ZP : ZcashProtocol}.

(** The multi-byte cases of [Reader::compact_size]: [n] bytes, at least [minimum]. *)
Definition compact_size_wide (field : string) (n minimum : Z) : parser Z :=
  bs ← array n field;
  if le_combine bs <? minimum then fail (NonCanonicalCompactSize field)
  else mret (le_combine bs).

(** [Reader::compact_size] *)
Definition compact_size (field : string) : parser Z :=
  flag ← read_u8 field;
  value ← (if flag <=? 252 then mret flag
           else if flag =? 253 then compact_size_wide field 2 253
           else if flag =? 254 then compact_size_wide field 4 0x10000
           else compact_size_wide field 8 0x100000000);
  if MAX_COMPACT_SIZE <? value then fail (CompactSizeTooLarge field value) else mret value.

(** [Reader::check_count] *)
Definition check_count (field : string) (count element_size : Z) : parser () := fun r =>
  match checked (count * element_size) with
  | Some total => if total <=? remaining r then Ok ((), r) else Err (CountExceedsInput field count)
  | None => Err (CountExceedsInput field count)
  end.

(** [Reader::count] *)
Definition read_count (field : string) (min_element_size : Z) : parser Z :=
  count ← compact_size field;
  check_count field count min_element_size;;
  mret count.

(** [Reader::var_bytes] *)
Definition var_bytes (field : string) : parser (list byte) :=
  len ← compact_size field;
  take_bytes len field.
End Reader.

Fixpoint elements_nat {A} (n : nat) (f : parser A) : parser (list A) :=
  match n with
  | O => mret []
  | S n => a ← f; l ← elements_nat n f; mret (a :: l)
  end.

(** [Reader::elements] *)
Definition elements {A} (count : Z) (f : parser A) : parser (list A) :=
  elements_nat (Z.to_nat count) f.

(** A loop [for x in &mut xs { x.field = r.array(..)?; }]. *)
Fixpoint read_each {A B} (f : parser B) (set : A -> B -> A) (l : list A) : parser (list A) :=
  match l with
  | [] => mret []
  | a :: l => b ← f; l ← read_each f set l; mret (set a b :: l)
  end.

(** ** Reading as consuming bytes *)

(** [adv r bs r']: [r'] is [r] after consuming exactly the bytes [bs]. *)
Definition adv (r : Reader) (bs : list byte) (r' : Reader) : Prop :=
  data r' = data r /\ pos r' = (pos r + length bs)%nat /\
  exists pre post, data r = pre ++ bs ++ post /\ length pre = pos r.

(** The cursor is inside the input, and the input is a Rust slice: its length is a
    [usize]. *)
Definition reader_ok `{!ZcashProtocol} (r : Reader) : Prop :=
  (pos r <= length (data r))%nat /\ Z.of_nat (length (data r)) <= usize_max.

Section Advance.
Context {ZP : ZcashProtocol}.

Lemma adv_nil r : reader_ok r -> adv r [] r.
Proof.
  destruct r as [d p]. unfold adv, reader_ok; cbn. intros [Hp _].
  split_and!; [done|lia|]. exists (take p d), (drop p d).
  rewrite take_drop, length_take. split; [done|lia].
Qed.

Lemma adv_nil_inv r r' : adv r [] r' -> r' = r.
Proof.
  destruct r as [d p], r' as [d' p']. unfold adv; cbn.
  intros (-> & -> & _). by rewrite Nat.add_0_r.
Qed.

Lemma adv_app r bs1 bs2 r' :
  adv r (bs1 ++ bs2) r' <-> exists r1, adv r bs1 r1 /\ adv r1 bs2 r'.
Proof.
  destruct r as [d p], r' as [d' p']. unfold adv; cbn. split.
  - intros (-> & -> & pre & post & -> & <-). rewrite <- !app_assoc.
    exists (MkReader (pre ++ bs1 ++ bs2 ++ post) (length pre + length bs1)); cbn.
    rewrite length_app. split_and!; [done..|by exists pre, (bs2 ++ post)|done|lia|].
    exists (pre ++ bs1), post. rewrite length_app, <- !app_assoc. done.
  - intros ([d1 p1] & (-> & -> & pre & post & -> & <-) & (E1 & -> & pre' & post' & E2 & Hl)); cbn in *.
    rewrite length_app. split_and!; [done|lia|].
    assert (pre' = pre ++ bs1) as ->.
    { rewrite app_assoc in E2. apply app_inj_1 in E2 as [-> _]; [done|]. rewrite length_app. lia. }
    exists pre, post'. rewrite E2, <- !app_assoc. done.
Qed.

Lemma adv_ok r bs r' : adv r bs r' -> reader_ok r -> reader_ok r'.
Proof.
  unfold adv, reader_ok. intros (E & -> & pre & post & Ed & <-) [_ Hs].
  rewrite E, Ed, !length_app in *. lia.
Qed.

Lemma adv_remaining r bs r' : adv r bs r' -> remaining r = Z.of_nat (length bs) + remaining r'.
Proof. unfold adv, remaining. intros (-> & -> & _). lia. Qed.

Lemma reader_ok_remaining r : reader_ok r -> 0 <= remaining r <= usize_max.
Proof. unfold reader_ok, remaining. lia. Qed.
End Advance.

(** ** Codecs

    [Codec p W e]: the reading function [p] accepts exactly the encodings [e a] of
    the values that satisfy [W], and returns the value that was encoded. *)
Class Codec `{!ZcashProtocol} {A} (p : parser A) (W : A -> Prop) (e : A -> list byte) : Prop := {
  codec_sound : forall r a r', reader_ok r -> p r = Ok (a, r') -> W a /\ adv r (e a) r';
  codec_complete : forall r a r', reader_ok r -> W a -> adv r (e a) r' -> p r = Ok (a, r')
}.

Lemma parser_bind_Ok {A B} (p : parser A) (k : A -> parser B) r b r' :
  (p ≫= k) r = Ok (b, r') <-> exists a r1, p r = Ok (a, r1) /\ k a r1 = Ok (b, r').
Proof.
  unfold mbind, parser_bind. split.
  - destruct (p r) as [[a r1]|]; [eauto|done].
  - by intros (a & r1 & -> & ?).
Qed.

Lemma parser_bind_run {A B} (p : parser A) (k : A -> parser B) r a r1 :
  p r = Ok (a, r1) -> (p ≫= k) r = k a r1.
Proof. unfold mbind, parser_bind. by intros ->. Qed.

Lemma parser_ret_Ok {A} (a : A) r b r' : (mret a : parser A) r = Ok (b, r') <-> a = b /\ r = r'.
Proof. unfold mret, parser_ret. naive_solver. Qed.

Lemma parser_ret_run {A B} (a : A) (k : A -> parser B) r : (mret a ≫= k) r = k a r.
Proof. done. Qed.

Lemma parser_bind_assoc {A B C} (p : parser A) (f : A -> parser B) (g : B -> parser C) r :
  (a ← p; b ← f a; g b) r = (b ← (a ← p; f a); g b) r.
Proof. unfold mbind, parser_bind. by destruct (p r) as [[??]|]. Qed.

Lemma codec_sound_ok `{!ZcashProtocol} {A} (p : parser A) W e `{!Codec p W e} r a r' :
  reader_ok r -> p r = Ok (a, r') -> W a /\ adv r (e a) r' /\ reader_ok r'.
Proof.
  intros Hr Hp. destruct (codec_sound r a r' Hr Hp) as [Hw Ha]. eauto using adv_ok.
Qed.

(** Inverts a successful run of a sequence of reading functions that have codecs. *)
Ltac parse_step :=
  match goal with
  | H : mret _ _ = Ok (_, _) |- _ => apply parser_ret_Ok in H as [? ?]; subst
  | H : fail _ _ = Ok (_, _) |- _ => discriminate H
  | H : (_ ≫= _) ?r = Ok (_, _), Hr : reader_ok ?r |- _ =>
      let a := fresh "a" in let r1 := fresh "r" in let H1 := fresh "H" in
      let Hw := fresh "Hw" in let Ha := fresh "Ha" in let Hk := fresh "Hk" in
      apply parser_bind_Ok in H as (a & r1 & H1 & H);
      destruct (codec_sound_ok _ _ _ _ _ _ Hr H1) as (Hw & Ha & Hk); clear H1;
      cbn beta in Hw, Ha
  end.
Ltac parse_inv := repeat parse_step.

(** Splits the consumed bytes of the context field by field. *)
Ltac adv_split :=
  repeat match goal with
  | H : adv _ (_ ++ _) _ |- _ =>
      let r := fresh "r" in let H1 := fresh "Ha" in apply adv_app in H as (r & H1 & H)
  | H : adv _ [] _ |- _ => apply adv_nil_inv in H; subst
  end.

(** Joins the consumed bytes again. *)
Ltac adv_join :=
  repeat match goal with
  | |- adv _ (_ ++ _) _ => apply adv_app; eexists; split; [eassumption|]
  | |- adv _ [] _ => by apply adv_nil
  end; try eassumption.

(** Runs one reading function that has a codec on the bytes of the context. *)
Ltac parse_run_step :=
  match goal with
  | H : adv ?r _ ?r1, Hr : reader_ok ?r |- (?p ≫= _) ?r = _ =>
      let Hr1 := fresh "Hr" in
      pose proof (adv_ok _ _ _ H Hr) as Hr1;
      erewrite (parser_bind_run p _ r _ r1);
        [clear H|eapply codec_complete; [exact Hr| |exact H]; cbn beta; try done; try lia]
  end.
Ltac parse_run := repeat parse_run_step.

Section Codecs.
Context {ZP : ZcashProtocol}.

Lemma take_bytes_Codec n field :
  0 <= n -> Codec (take_bytes n field) (fun bs => Z.of_nat (length bs) = n) (fun bs => bs).
Proof.
  intros Hn. unfold take_bytes. split.
  - intros [d p] a r' Hok. unfold remaining, reader_ok in *; cbn in *. zcases; [done|].
    intros [= <- <-]. assert (length (take (Z.to_nat n) (drop p d)) = Z.to_nat n) as Hl
      by (rewrite length_take, length_drop; lia).
    split; [lia|]. unfold adv; cbn. rewrite Hl. split_and!; [done..|].
    exists (take p d), (drop (Z.to_nat n) (drop p d)). rewrite !take_drop, length_take.
    split; [done|lia].
  - intros [d p] a r' _ Hl (Ed & Ep & pre & post & Ed' & Epre). destruct r' as [d' p']. cbn in *. subst.
    rewrite (proj2 (Z.ltb_ge _ _)) by (unfold remaining; cbn; rewrite !length_app; lia).
    rewrite Nat2Z.id, drop_app_length, take_app_length. done.
Qed.

Lemma array_Codec n field :
  0 <= n -> Codec (array n field) (fun bs => Z.of_nat (length bs) = n) (fun bs => bs).
Proof. apply take_bytes_Codec. Qed.
End Codecs.
#[export] Hint Extern 1 (Codec (array _ _) _ _) =>
  apply array_Codec; first [lia|vm_compute; discriminate] : typeclass_instances.
#[export] Hint Extern 1 (Codec (le_bytes8 _) _ _) => apply array_Codec; lia : typeclass_instances.

Section IntegerCodecs.
Context {ZP : ZcashProtocol}.

(** An unsigned little-endian integer of [n] bytes. *)
Lemma le_uint_Codec (n : nat) field :
  Codec (bs ← array (Z.of_nat n) field; mret (le_combine bs))
    (fun v => 0 <= v < 2 ^ (8 * Z.of_nat n)) (le_split n).
Proof.
  split.
  - intros r a r' Hr H. parse_inv. assert (length a0 = n) as Hl by lia. split.
    + by apply le_combine_range.
    + rewrite (split_le_combine' _ _ Hl). done.
  - intros r a r' Hr Hv Ha. parse_run.
    + rewrite le_combine_split_small by done. done.
    + rewrite length_le_split. lia.
Qed.

#[export] Instance u8_Codec field :
  Codec (read_u8 field) (fun v => 0 <= v < 256) (le_split 1).
Proof. exact (le_uint_Codec 1 field). Qed.

#[export] Instance u32_Codec field :
  Codec (u32_le field) (fun v => 0 <= v < 2 ^ 32) (le_split 4).
Proof. exact (le_uint_Codec 4 field). Qed.
End IntegerCodecs.

(** ** CompactSize *)

(** [txid.rs: write_compact_size], as the bytes it feeds to the hash. *)
Definition write_compact_size (n : Z) : list byte :=
  if n <? 253 then le_split 1 n
  else if n <=? 0xFFFF then le_split 1 253 ++ le_split 2 n
  else le_split 1 254 ++ le_split 4 n.

Section CompactSize.
Context {ZP : ZcashProtocol} {ZPL : ZcashProtocolLaws}.

Lemma compact_size_wide_Codec field (n : nat) minimum :
  Codec (compact_size_wide field (Z.of_nat n) minimum)
    (fun v => minimum <= v /\ 0 <= v < 2 ^ (8 * Z.of_nat n)) (le_split n).
Proof using Type.
  unfold compact_size_wide. split.
  - intros r a r' Hr H. parse_step. zcases; parse_inv.
    assert (length a0 = n) as Hl by lia. rewrite (split_le_combine' _ _ Hl).
    split; [|done]. split; [lia|]. by apply le_combine_range.
  - intros r a r' Hr [Hm Hv] Ha. parse_run.
    + rewrite le_combine_split_small by done. rewrite (proj2 (Z.ltb_ge _ _)) by lia. done.
    + rewrite length_le_split. lia.
Qed.

#[export] Instance compact_size_Codec field :
  Codec (compact_size field) (fun v => 0 <= v <= MAX_COMPACT_SIZE) write_compact_size.
Proof using Type*.
  pose proof (compact_size_wide_Codec field 2 253).
  pose proof (compact_size_wide_Codec field 4 0x10000).
  pose proof (compact_size_wide_Codec field 8 0x100000000).
  pose proof max_compact_size_bounds. unfold compact_size, write_compact_size. split.
  - intros r a r' Hr H3. parse_step. apply parser_bind_Ok in H3 as (v & r1 & H3 & H4).
    assert (v <= MAX_COMPACT_SIZE /\ a = v /\ r' = r1) as (Hv & -> & ->) by (zcases; parse_inv; auto).
    clear H4. zcases; 
      try (apply parser_ret_Ok in H3 as [-> ->]; first [exfalso; lia|split; [lia|done]]);
      destruct (codec_sound r0 v r1 Hk H3) as [Hw' Ha']; cbn in Hw'; try (exfalso; lia);
      (split; [lia|]); subst a0; adv_join.
  - intros r a r' Hr Hv Ha.
    zcases; adv_split; parse_run; try (rewrite (proj2 (Z.leb_le _ _)) by lia);
      cbn -[mbind mret compact_size_wide MAX_COMPACT_SIZE le_split];
      rewrite ?parser_ret_run; parse_run; by rewrite (proj2 (Z.ltb_ge _ _)) by lia.
Qed.
End CompactSize.

(** ** Byte strings and counted lists *)

(** A [CompactSize]-prefixed byte string. *)
Definition write_var_bytes (bs : list byte) : list byte :=
  write_compact_size (Z.of_nat (length bs)) ++ bs.

(** The encodings of a list of elements, one after the other. *)
Definition write_all {A} (e : A -> list byte) (l : list A) : list byte := mjoin (e <$> l).

(** A [CompactSize] count followed by the elements. *)
Definition write_counted {A} (e : A -> list byte) (l : list A) : list byte :=
  write_compact_size (Z.of_nat (length l)) ++ write_all e l.

#[global] Arguments write_all : simpl never.
#[global] Arguments write_counted : simpl never.

Lemma write_all_length {A} (e : A -> list byte) m l :
  Forall (fun a => m <= Z.of_nat (length (e a))) l ->
  Z.of_nat (length l) * m <= Z.of_nat (length (write_all e l)).
Proof.
  unfold write_all. induction 1 as [|a l Ha Hl IH]; cbn; [lia|].
  rewrite length_app, Nat2Z.inj_succ, Z.mul_succ_l, Nat2Z.inj_add, Z.add_comm. by apply Z.add_le_mono.
Qed.

Lemma write_all_fmap {A B} (e : B -> list byte) (f : A -> B) l :
  write_all e (f <$> l) = write_all (fun a => e (f a)) l.
Proof. unfold write_all. by rewrite <- list_fmap_compose. Qed.

Lemma write_all_ext {A} (e1 e2 : A -> list byte) l :
  (forall a, a ∈ l -> e1 a = e2 a) -> write_all e1 l = write_all e2 l.
Proof.
  intros He. unfold write_all. f_equal. apply list_fmap_ext. intros i a Hi.
  apply He. by eapply list_elem_of_lookup_2.
Qed.

Section Lists.
Context {ZP : ZcashProtocol} {ZPL : ZcashProtocolLaws}.

#[export] Instance var_bytes_Codec field :
  Codec (var_bytes field) (fun bs => Z.of_nat (length bs) <= MAX_COMPACT_SIZE) write_var_bytes.
Proof using Type*.
  unfold var_bytes, write_var_bytes. split.
  - intros r a r' Hr H. parse_step.
    pose proof (take_bytes_Codec a0 field (proj1 Hw)).
    destruct (codec_sound _ _ _ Hk H) as [Hl Ha']. cbn in Hl. split; [lia|]. subst. adv_join.
  - intros r a r' Hr Hl Ha. adv_split. parse_run.
    pose proof (take_bytes_Codec (Z.of_nat (length a)) field (Zle_0_nat _)).
    by apply codec_complete.
Qed.

#[export] Instance elements_nat_Codec {A} (p : parser A) W e `{!Codec p W e} n :
  Codec (elements_nat n p) (fun l => length l = n /\ Forall W l) (write_all e).
Proof using Type.
  unfold write_all. induction n as [|n IH]; cbn.
  - split.
    + intros r a r' Hr H. parse_inv. split; [done|]. by apply adv_nil.
    + intros r a r' Hr [Hn _] Ha. destruct a; [|done]. by apply adv_nil_inv in Ha as ->.
  - split.
    + intros r a r' Hr H. parse_inv. destruct Hw0 as [Hl HW]. split; [cbn; auto|]. cbn. adv_join.
    + intros r a r' Hr [Hl HW] Ha. destruct a as [|x l]; [done|].
      inversion HW; subst. cbn in *. injection Hl as Hl. adv_split. by parse_run.
Qed.

Lemma check_count_Ok field count m r u r' :
  reader_ok r -> check_count field count m r = Ok (u, r') <-> r' = r /\ count * m <= remaining r.
Proof using Type.
  intros Hr%reader_ok_remaining. unfold check_count, checked. destruct u. zcases; naive_solver lia.
Qed.

Lemma read_count_inv field m r n r' :
  reader_ok r -> read_count field m r = Ok (n, r') ->
  (0 <= n <= MAX_COMPACT_SIZE) /\ adv r (write_compact_size n) r' /\
  n * m <= remaining r' /\ reader_ok r'.
Proof using Type*.
  unfold read_count. intros Hr H. parse_step.
  apply parser_bind_Ok in H as ([] & r1 & H1 & H).
  apply check_count_Ok in H1 as [-> Hc]; [|done]. parse_inv. done.
Qed.

Lemma read_count_run field m r n r' :
  reader_ok r -> (0 <= n <= MAX_COMPACT_SIZE) -> adv r (write_compact_size n) r' ->
  n * m <= remaining r' -> read_count field m r = Ok (n, r').
Proof using Type*.
  unfold read_count. intros Hr Hn Ha Hm. parse_run.
  by rewrite (parser_bind_run _ _ r' () r') by (by apply check_count_Ok).
Qed.

(** The lists that [count] and [elements] read. *)
Definition counted_ok {A} (W : A -> Prop) (l : list A) : Prop :=
  Z.of_nat (length l) <= MAX_COMPACT_SIZE /\ Forall W l.

Section Counted.
Context {A : Type} (p : parser A) (W : A -> Prop) (e : A -> list byte) (m : Z).
Context `{!Codec p W e} (Hmin : forall a, W a -> m <= Z.of_nat (length (e a))).

Lemma counted_inv field r n r1 l r' :
  reader_ok r -> read_count field m r = Ok (n, r1) -> elements n p r1 = Ok (l, r') ->
  n = Z.of_nat (length l) /\ counted_ok W l /\ adv r (write_counted e l) r' /\ reader_ok r'.
Proof using ZP ZPL Codec0.
  intros Hr Hn Hl. apply read_count_inv in Hn as (Hb & Ha & _ & Hr1); [|done].
  unfold elements in Hl. destruct (codec_sound_ok _ _ _ _ _ _ Hr1 Hl) as ([Hlen HW] & Ha' & Hr').
  assert (n = Z.of_nat (length l)) as -> by lia. split_and!; [done|split; [lia|done]|..|done].
  unfold write_counted. adv_join.
Qed.

Lemma counted_run field r l r' :
  reader_ok r -> counted_ok W l -> adv r (write_counted e l) r' ->
  exists r1, read_count field m r = Ok (Z.of_nat (length l), r1) /\
    elements (Z.of_nat (length l)) p r1 = Ok (l, r') /\ reader_ok r1 /\ reader_ok r'.
Proof using Type*.
  intros Hr [Hl HW] Ha. unfold write_counted in Ha. adv_split. exists r0.
  pose proof (adv_ok _ _ _ Ha0 Hr) as Hr0. pose proof (adv_ok _ _ _ Ha Hr0) as Hr'.
  split_and!; [|..|done|done].
  - apply read_count_run; [done|lia|done|]. rewrite (adv_remaining _ _ _ Ha).
    pose proof (reader_ok_remaining _ Hr').
    pose proof (write_all_length e m l ltac:(eapply Forall_impl; [exact HW|exact Hmin])). lia.
  - unfold elements. rewrite Nat2Z.id. by apply codec_complete.
Qed.

(** [let n = r.count(field, m)?; r.elements(n, p)?] *)
Lemma counted_Codec field :
  Codec (n ← read_count field m; elements n p) (counted_ok W) (write_counted e).
Proof using Type*.
  split.
  - intros r l r' Hr H. apply parser_bind_Ok in H as (n & r1 & Hn & Hl).
    destruct (counted_inv field _ _ _ _ _ Hr Hn Hl) as (_ & ? & ? & _). done.
  - intros r l r' Hr Hl Ha. destruct (counted_run field _ _ _ Hr Hl Ha) as (r1 & E & Hl' & _).
    by rewrite (parser_bind_run _ _ _ _ _ E).
Qed.
End Counted.

Section ReadEach.
Context {A B : Type} (f : parser B) (set : A -> B -> A) (W : B -> Prop) (e : B -> list byte).
Context `{!Codec f W e}.

Lemma read_each_inv l r l' r' :
  reader_ok r -> read_each f set l r = Ok (l', r') ->
  exists bs, length bs = length l /\ Forall W bs /\ l' = zip_with set l bs /\
    adv r (write_all e bs) r' /\ reader_ok r'.
Proof using Codec0.
  revert r l'. induction l as [|a l IH]; cbn; intros r l' Hr H.
  - parse_inv. exists []. split_and!; auto. by apply adv_nil.
  - parse_step. apply parser_bind_Ok in H as (l1 & r1 & H & H1). parse_inv.
    destruct (IH _ _ Hk H) as (bs & Hl & HW & -> & Ha' & Hr').
    exists (a0 :: bs). split_and!; cbn; auto. unfold write_all in *; cbn. adv_join.
Qed.

Lemma read_each_run l bs r r' :
  reader_ok r -> length bs = length l -> Forall W bs -> adv r (write_all e bs) r' ->
  read_each f set l r = Ok (zip_with set l bs, r').
Proof using Codec0.
  unfold write_all. revert r bs. induction l as [|a l IH]; intros r [|b bs] Hr Hl HW Ha; try done; cbn in *.
  - by apply adv_nil_inv in Ha as ->.
  - inversion HW; subst. adv_split. parse_run.
    rewrite (parser_bind_run _ _ _ _ _ (IH _ bs Hr0 ltac:(lia) ltac:(done) Ha)). done.
Qed.
End ReadEach.
End Lists.

(** ** An instance of the interface

    Concrete constants and conversions that satisfy the laws, on which the theorems about
    the transaction format are evaluated.  The version group and branch identifiers are
    sample values. *)

Definition sample_branch_id (b : BranchId) : Z :=
  match b with
  | Sprout => 0 | Overwinter => 0x5ba81b19 | Sapling => 0x76b809bb | Blossom => 0x2bb40e60
  | Heartwood => 0xf5b9230b | Canopy => 0xe9ff75a6 | Nu5 => 0xc2d6d0b4 | Nu6 => 0xc8e71055
  | Nu6_1 => 0x4dec4df0 | Nu6_2 => 0x00000062 | Nu6_3 => 0x00000063 | Nu7 => 0x00000070
  end.

Definition all_branches : list BranchId :=
  [Sprout; Overwinter; Sapling; Blossom; Heartwood; Canopy; Nu5; Nu6; Nu6_1; Nu6_2; Nu6_3; Nu7].

Definition in_range (lo hi v : Z) : option Z := if (lo <=? v) && (v <=? hi) then Some v else None.

Definition sample_max_money : Z := 2100000000000000.

Definition sample_protocol : ZcashProtocol := {|
  usize_max := 2 ^ 64 - 1;
  MAX_COMPACT_SIZE := 0x02000000;
  MAX_MONEY := sample_max_money;
  V3_TX_VERSION := 3; V4_TX_VERSION := 4; V5_TX_VERSION := 5; V6_TX_VERSION := 6;
  V3_VERSION_GROUP_ID := 0x03C48270; V4_VERSION_GROUP_ID := 0x892F2085;
  V5_VERSION_GROUP_ID := 0x26A7270A; V6_VERSION_GROUP_ID := 0x0000AAAA;
  branch_try_from z := List.find (fun b => sample_branch_id b =? z) all_branches;
  branch_to_u32 := sample_branch_id;
  orchard_protocol_revision b :=
    match b with
    | Sprout | Overwinter | Sapling | Blossom | Heartwood | Canopy => None
    | Nu5 | Nu6 | Nu6_1 => Some InsecureV1
    | Nu6_2 => Some RevV2
    | Nu6_3 | Nu7 => Some LaterRevision
    end;
  zat_from_nonnegative_i64_le bs := in_range 0 sample_max_money (i64_of_le bs);
  zat_from_u64_le bs := in_range 0 sample_max_money (le_combine bs);
  zat_balance_from_i64_le bs := in_range (- sample_max_money) sample_max_money (i64_of_le bs);
  zat_balance_add a b := in_range (- sample_max_money) sample_max_money (a + b);
  zat_balance_sub a b := in_range (- sample_max_money) sample_max_money (a - b)
|}.

Lemma in_range_spec lo hi u v : in_range lo hi u = Some v <-> v = u /\ lo <= v <= hi.
Proof. unfold in_range. zcases; cbn; naive_solver lia. Qed.

Lemma sample_protocol_laws : @ZcashProtocolLaws sample_protocol.
Proof.
  split; cbn -[List.find]; try (unfold sample_max_money; lia); try done.
  - by intros [].
  - intros z b. split.
    + intros [_ E]%find_some. by apply Z.eqb_eq in E.
    + intros <-. by destruct b.
  - intros. rewrite in_range_spec. naive_solver.
  - intros. rewrite in_range_spec. naive_solver.
  - intros. rewrite in_range_spec. naive_solver.
  - intros. apply in_range_spec.
  - intros. apply in_range_spec.
Qed.

Lemma sample_protocol_revisions : @OrchardRevisions sample_protocol.
Proof.
  split; intros b Hb; cbn; repeat (apply elem_of_cons in Hb as [->|Hb]; [by eauto|]);
    by apply not_elem_of_nil in Hb.
Qed.
