(* ===== verification/Transaction.v ===== *)
(** * The transaction wire format

    [zakura/transaction-wire/src/lib.rs]: the transaction versions, the parsed
    transaction, the reading functions and the accessors.  A borrowed slice of the
    input is the list of its bytes. *)

From S2P Require Import Prelude WireReader.

(** ** Sizes and flags *)

Definition GROTH_PROOF_SIZE : Z := 192.
Definition PHGR_PROOF_SIZE : Z := 296.
Definition ENC_CIPHERTEXT_SIZE : Z := 580.
Definition OUT_CIPHERTEXT_SIZE : Z := 80.
Definition SPROUT_CIPHERTEXT_SIZE : Z := 601.
Definition OUTPOINT_SIZE : Z := 36.
Definition MIN_TX_IN_SIZE : Z := OUTPOINT_SIZE + 1 + 4.
Definition MIN_TX_OUT_SIZE : Z := 8 + 1.
Definition JOINSPLIT_FIXED_SIZE : Z := 8 + 8 + 32 + 2 * 32 + 2 * 32 + 32 + 32 + 2 * 32.
Definition JOINSPLIT_CIPHERTEXTS_SIZE : Z := 2 * SPROUT_CIPHERTEXT_SIZE.
Definition SAPLING_SPEND_V4_SIZE : Z := 32 * 4 + GROTH_PROOF_SIZE + 64.
Definition SAPLING_OUTPUT_V4_SIZE : Z :=
  32 * 3 + ENC_CIPHERTEXT_SIZE + OUT_CIPHERTEXT_SIZE + GROTH_PROOF_SIZE.
Definition SAPLING_SPEND_V5_SIZE : Z := 32 * 3.
Definition SAPLING_OUTPUT_V5_SIZE : Z := 32 * 3 + ENC_CIPHERTEXT_SIZE + OUT_CIPHERTEXT_SIZE.
Definition ACTION_SIZE : Z := 32 * 5 + ENC_CIPHERTEXT_SIZE + OUT_CIPHERTEXT_SIZE.
Definition ACTION_PROOF_BASE_SIZE : Z := 2720.
Definition ACTION_PROOF_PER_ACTION_SIZE : Z := 2272.
Definition FLAG_SPENDS_ENABLED : Z := 0x01.
Definition FLAG_OUTPUTS_ENABLED : Z := 0x02.
Definition FLAG_CROSS_ADDRESS_ENABLED : Z := 0x04.
(* The complement of 0b0000_0111 in a u8. *)
Definition FLAGS_ALWAYS_UNSET : Z := Z.lxor 0xFF 0x07.

(** ** Versions *)

Inductive TxVersion : Type := V1 | V2 | V3 | V4 | V5 | V6.

#[global] Instance TxVersion_eq_dec : EqDecision TxVersion.
Proof. solve_decision. Defined.

(** The derived [Ord]: the declaration order of the variants. *)
Definition version_rank (v : TxVersion) : Z :=
  match v with V1 => 0 | V2 => 1 | V3 => 2 | V4 => 3 | V5 => 4 | V6 => 5 end.

(** [TxVersion::has_sprout] *)
Definition has_sprout (v : TxVersion) : bool :=
  match v with V2 | V3 | V4 => true | _ => false end.

(** [TxVersion::has_legacy_txid] *)
Definition has_legacy_txid (v : TxVersion) : bool := version_rank v <=? version_rank V4.

(** [TxVersion::valid_in_branch] *)
Definition valid_in_branch (v : TxVersion) (branch : BranchId) : bool :=
  match v with
  | V5 => match branch with
          | Sprout | Overwinter | Sapling | Blossom | Heartwood | Canopy => false
          | Nu5 | Nu6 | Nu6_1 | Nu6_2 | Nu6_3 | Nu7 => true
          end
  | V6 => match branch with
          | Sprout | Overwinter | Sapling | Blossom | Heartwood | Canopy | Nu5 | Nu6
          | Nu6_1 | Nu6_2 => false
          | Nu6_3 | Nu7 => true
          end
  | _ => true
  end.

Section Version.
Context {ZP : ZcashProtocol}.

(** [TxVersion::number] *)
Definition number (v : TxVersion) : Z :=
  match v with
  | V1 => 1 | V2 => 2
  | V3 => V3_TX_VERSION | V4 => V4_TX_VERSION | V5 => V5_TX_VERSION | V6 => V6_TX_VERSION
  end.

(** [TxVersion::header] *)
Definition header (v : TxVersion) : Z :=
  match v with
  | V1 | V2 => number v
  | _ => Z.lor (number v) (Z.shiftl 1 31)
  end.

(** [TxVersion::version_group_id] *)
Definition version_group_id (v : TxVersion) : option Z :=
  match v with
  | V1 | V2 => None
  | V3 => Some V3_VERSION_GROUP_ID
  | V4 => Some V4_VERSION_GROUP_ID
  | V5 => Some V5_VERSION_GROUP_ID
  | V6 => Some V6_VERSION_GROUP_ID
  end.
End Version.

(** ** The parsed transaction *)

Record TransparentInput : Type := MkTransparentInput {
  prevout_txid : list byte; prevout_index : Z; script_sig : list byte; in_sequence : Z }.

Record TransparentOutput : Type := MkTransparentOutput {
  out_value : Z; script_pubkey : list byte }.

(** The arrays of two elements are pairs. *)
Record JoinSplit : Type := MkJoinSplit {
  vpub_old : Z; vpub_new : Z; js_anchor : list byte;
  js_nullifiers : list byte * list byte; js_commitments : list byte * list byte;
  js_ephemeral_key : list byte; random_seed : list byte;
  macs : list byte * list byte; js_proof : list byte;
  js_ciphertexts : list byte * list byte }.

Record SproutBundle : Type := MkSproutBundle {
  joinsplits : list JoinSplit; joinsplit_pubkey : list byte; joinsplit_sig : list byte }.

Record SaplingSpend : Type := MkSaplingSpend {
  sp_cv : list byte; sp_anchor : list byte; sp_nullifier : list byte; sp_rk : list byte;
  sp_zkproof : list byte; sp_spend_auth_sig : list byte }.

Record SaplingOutput : Type := MkSaplingOutput {
  so_cv : list byte; so_cmu : list byte; so_ephemeral_key : list byte;
  so_enc_ciphertext : list byte; so_out_ciphertext : list byte; so_zkproof : list byte }.

Record SaplingBundle : Type := MkSaplingBundle {
  sb_spends : list SaplingSpend; sb_outputs : list SaplingOutput;
  sb_value_balance : Z; sb_binding_sig : list byte }.

Inductive ActionPool : Type := Orchard | Ironwood.

#[global] Instance ActionPool_eq_dec : EqDecision ActionPool.
Proof. solve_decision. Defined.

(** [ActionPool::name] *)
Definition pool_name (p : ActionPool) : string :=
  match p with Orchard => "Orchard" | Ironwood => "Ironwood" end.

Record Action : Type := MkAction {
  ac_cv : list byte; ac_nullifier : list byte; ac_rk : list byte; ac_cmx : list byte;
  ac_ephemeral_key : list byte; ac_enc_ciphertext : list byte; ac_out_ciphertext : list byte;
  ac_spend_auth_sig : list byte }.

Record ActionBundle : Type := MkActionBundle {
  ab_pool : ActionPool; ab_actions : list Action; ab_flags : Z; ab_value_balance : Z;
  ab_anchor : list byte; ab_proof : list byte; ab_binding_sig : list byte }.

Record TransactionView : Type := MkTransactionView {
  raw : list byte;
  version : TxVersion;
  branch_id : option BranchId;
  lock_time : Z;
  expiry_height : option Z;
  transparent_inputs : list TransparentInput;
  transparent_outputs : list TransparentOutput;
  sprout : option SproutBundle;
  sapling : option SaplingBundle;
  orchard : option ActionBundle;
  ironwood : option ActionBundle }.

(** Assignments to the fields of a view. *)
Definition set_raw x (v : TransactionView) : TransactionView :=
  let 'MkTransactionView _ ve b l e i o sp sa oc ir := v in MkTransactionView x ve b l e i o sp sa oc ir.
Definition set_branch_id x (v : TransactionView) : TransactionView :=
  let 'MkTransactionView r ve _ l e i o sp sa oc ir := v in MkTransactionView r ve x l e i o sp sa oc ir.
Definition set_lock_time x (v : TransactionView) : TransactionView :=
  let 'MkTransactionView r ve b _ e i o sp sa oc ir := v in MkTransactionView r ve b x e i o sp sa oc ir.
Definition set_expiry_height x (v : TransactionView) : TransactionView :=
  let 'MkTransactionView r ve b l _ i o sp sa oc ir := v in MkTransactionView r ve b l x i o sp sa oc ir.
Definition set_transparent_inputs x (v : TransactionView) : TransactionView :=
  let 'MkTransactionView r ve b l e _ o sp sa oc ir := v in MkTransactionView r ve b l e x o sp sa oc ir.
Definition set_transparent_outputs x (v : TransactionView) : TransactionView :=
  let 'MkTransactionView r ve b l e i _ sp sa oc ir := v in MkTransactionView r ve b l e i x sp sa oc ir.
Definition set_sprout x (v : TransactionView) : TransactionView :=
  let 'MkTransactionView r ve b l e i o _ sa oc ir := v in MkTransactionView r ve b l e i o x sa oc ir.
Definition set_sapling x (v : TransactionView) : TransactionView :=
  let 'MkTransactionView r ve b l e i o sp _ oc ir := v in MkTransactionView r ve b l e i o sp x oc ir.
Definition set_orchard x (v : TransactionView) : TransactionView :=
  let 'MkTransactionView r ve b l e i o sp sa _ ir := v in MkTransactionView r ve b l e i o sp sa x ir.
Definition set_ironwood x (v : TransactionView) : TransactionView :=
  let 'MkTransactionView r ve b l e i o sp sa oc _ := v in MkTransactionView r ve b l e i o sp sa oc x.

(** ** Reading *)

Definition ZERO_PROOF : list byte := repeat Byte.x00 192.
Definition ZERO_32 : list byte := repeat Byte.x00 32.
Definition ZERO_64 : list byte := repeat Byte.x00 64.

#[global] Arguments ZERO_PROOF : simpl never.
#[global] Arguments ZERO_32 : simpl never.
#[global] Arguments ZERO_64 : simpl never.

Definition set_anchor (a : list byte) (s : SaplingSpend) : SaplingSpend :=
  let 'MkSaplingSpend cv _ nf rk p sg := s in MkSaplingSpend cv a nf rk p sg.
Definition set_spend_proof (s : SaplingSpend) (p : list byte) : SaplingSpend :=
  let 'MkSaplingSpend cv a nf rk _ sg := s in MkSaplingSpend cv a nf rk p sg.
Definition set_spend_sig (s : SaplingSpend) (sg : list byte) : SaplingSpend :=
  let 'MkSaplingSpend cv a nf rk p _ := s in MkSaplingSpend cv a nf rk p sg.
Definition set_output_proof (o : SaplingOutput) (p : list byte) : SaplingOutput :=
  let 'MkSaplingOutput cv cmu epk enc out _ := o in MkSaplingOutput cv cmu epk enc out p.
Definition set_action_sig (a : Action) (sg : list byte) : Action :=
  let 'MkAction cv nf rk cmx epk enc out _ := a in MkAction cv nf rk cmx epk enc out sg.

Section Reading.
Context {ZP : ZcashProtocol}.

(** [read_version] *)
Definition read_version : parser TxVersion :=
  hd ← u32_le "header";
  let overwintered := Z.shiftr hd 31 =? 1 in
  let num := Z.land hd 0x7FFFFFFF in
  if negb overwintered then
    if num =? 1 then mret V1
    else if num =? 2 then mret V2
    else fail (UnsupportedVersion hd None)
  else
    group ← u32_le "version group ID";
    if (num =? V3_TX_VERSION) && (group =? V3_VERSION_GROUP_ID) then mret V3
    else if (num =? V4_TX_VERSION) && (group =? V4_VERSION_GROUP_ID) then mret V4
    else if (num =? V5_TX_VERSION) && (group =? V5_VERSION_GROUP_ID) then mret V5
    else if (num =? V6_TX_VERSION) && (group =? V6_VERSION_GROUP_ID) then mret V6
    else fail (UnsupportedVersion hd (Some group)).

(** [read_balance] *)
Definition read_balance (field : string) : parser Z :=
  bs ← le_bytes8 field;
  lift_opt (ValueOutOfRange field) (zat_balance_from_i64_le bs).

(** [read_vpub] *)
Definition read_vpub (field : string) : parser Z :=
  bs ← le_bytes8 field;
  lift_opt (ValueOutOfRange field) (zat_from_u64_le bs).

(** [read_joinsplit] *)
Definition read_joinsplit (proof_size : Z) : parser JoinSplit :=
  vo ← read_vpub "vpub_old";
  vn ← read_vpub "vpub_new";
  anchor ← array 32 "JoinSplit anchor";
  nf1 ← array 32 "JoinSplit nullifier";
  nf2 ← array 32 "JoinSplit nullifier";
  cm1 ← array 32 "JoinSplit commitment";
  cm2 ← array 32 "JoinSplit commitment";
  epk ← array 32 "JoinSplit ephemeral key";
  seed ← array 32 "JoinSplit random seed";
  m1 ← array 32 "JoinSplit MAC";
  m2 ← array 32 "JoinSplit MAC";
  proof ← take_bytes proof_size "JoinSplit proof";
  c1 ← array SPROUT_CIPHERTEXT_SIZE "JoinSplit ciphertext";
  c2 ← array SPROUT_CIPHERTEXT_SIZE "JoinSplit ciphertext";
  mret (MkJoinSplit vo vn anchor (nf1, nf2) (cm1, cm2) epk seed (m1, m2) proof (c1, c2)).

(** [read_spend_v4] *)
Definition read_spend_v4 : parser SaplingSpend :=
  cv ← array 32 "Sapling spend cv";
  anchor ← array 32 "Sapling spend anchor";
  nf ← array 32 "Sapling spend nullifier";
  rk ← array 32 "Sapling spend rk";
  proof ← array GROTH_PROOF_SIZE "Sapling spend proof";
  sig ← array 64 "Sapling spend signature";
  mret (MkSaplingSpend cv anchor nf rk proof sig).

(** [read_output] *)
Definition read_output (proof : option (list byte)) : parser SaplingOutput :=
  cv ← array 32 "Sapling output cv";
  cmu ← array 32 "Sapling output cmu";
  epk ← array 32 "Sapling output ephemeral key";
  enc ← array ENC_CIPHERTEXT_SIZE "Sapling output enc_ciphertext";
  out ← array OUT_CIPHERTEXT_SIZE "Sapling output out_ciphertext";
  zkproof ← match proof with
            | Some p => mret p
            | None => array GROTH_PROOF_SIZE "Sapling output proof"
            end;
  mret (MkSaplingOutput cv cmu epk enc out zkproof).

(** The closure of [read_sapling_v5] that reads a spend. *)
Definition read_spend_v5 : parser SaplingSpend :=
  cv ← array 32 "Sapling spend cv";
  nf ← array 32 "Sapling spend nullifier";
  rk ← array 32 "Sapling spend rk";
  mret (MkSaplingSpend cv ZERO_32 nf rk ZERO_PROOF ZERO_64).

(** [read_sapling_v5] *)
Definition read_sapling_v5 : parser (option SaplingBundle) :=
  n_spends ← read_count "Sapling spends" SAPLING_SPEND_V5_SIZE;
  spends ← elements n_spends read_spend_v5;
  n_outputs ← read_count "Sapling outputs" SAPLING_OUTPUT_V5_SIZE;
  outputs ← elements n_outputs (read_output (Some ZERO_PROOF));
  if (n_spends =? 0) && (n_outputs =? 0) then mret None
  else
    value_balance ← read_balance "Sapling value balance";
    spends ← (if 0 <? n_spends
              then anchor ← array 32 "Sapling anchor"; mret (set_anchor anchor <$> spends)
              else mret spends);
    spends ← read_each (array GROTH_PROOF_SIZE "Sapling spend proof") set_spend_proof spends;
    spends ← read_each (array 64 "Sapling spend signature") set_spend_sig spends;
    outputs ← read_each (array GROTH_PROOF_SIZE "Sapling output proof") set_output_proof outputs;
    binding_sig ← array 64 "Sapling bindingSig";
    mret (Some (MkSaplingBundle spends outputs value_balance binding_sig)).

(** The closure of [read_action_bundle] that reads an action. *)
Definition read_action : parser Action :=
  cv ← array 32 "action cv";
  nf ← array 32 "action nullifier";
  rk ← array 32 "action rk";
  cmx ← array 32 "action cmx";
  epk ← array 32 "action ephemeral key";
  enc ← array ENC_CIPHERTEXT_SIZE "action enc_ciphertext";
  out ← array OUT_CIPHERTEXT_SIZE "action out_ciphertext";
  mret (MkAction cv nf rk cmx epk enc out ZERO_64).

(** The [enforce_proof_size] match of [read_action_bundle]; [None] is its error arm. *)
Definition enforce_proof_size (pool : ActionPool) (rev : option OrchardProtocolRevision) : option bool :=
  match pool, rev with
  | _, None | Ironwood, Some InsecureV1 | Ironwood, Some RevV2 => None
  | Orchard, Some InsecureV1 => Some false
  | _, Some _ => Some true
  end.

(** [flags & FLAGS_ALWAYS_UNSET != 0 || (flags & FLAG_CROSS_ADDRESS_ENABLED != 0
    && !cross_address_ok)] *)
Definition flags_invalid (pool : ActionPool) (flags : Z) : bool :=
  let cross_address_ok := bool_decide (pool = Ironwood) in
  negb (Z.land flags FLAGS_ALWAYS_UNSET =? 0)
  || (negb (Z.land flags FLAG_CROSS_ADDRESS_ENABLED =? 0) && negb cross_address_ok).

(** [n.checked_mul(..).and_then(|v| v.checked_add(..))] *)
Definition expected_proof_len (n : Z) : option Z :=
  v ← checked (n * ACTION_PROOF_PER_ACTION_SIZE);
  checked (v + ACTION_PROOF_BASE_SIZE).

Definition check_proof_len (pool : ActionPool) (n len : Z) : parser () :=
  let expected := expected_proof_len n in
  if bool_decide (expected = Some len) then mret ()
  else fail (InvalidProofLength (pool_name pool) (default usize_max expected) len).

(** [read_action_bundle] *)
Definition read_action_bundle (branch : BranchId) (pool : ActionPool) : parser (option ActionBundle) :=
  n ← read_count "actions" ACTION_SIZE;
  if n =? 0 then mret None
  else
    actions ← elements n read_action;
    enforce ← lift_opt (PoolNotActive (pool_name pool))
                (enforce_proof_size pool (orchard_protocol_revision branch));
    flags ← read_u8 "flags";
    if flags_invalid pool flags then fail (InvalidFlags (pool_name pool) flags)
    else
      value_balance ← read_balance (match pool with
                                    | Orchard => "Orchard value balance"
                                    | Ironwood => "Ironwood value balance" end);
      anchor ← array 32 "anchor";
      proof ← var_bytes "proof";
      (if enforce : bool then check_proof_len pool n (Z.of_nat (length proof)) else mret ());;
      actions ← read_each (array 64 "action spendAuthSig") set_action_sig actions;
      binding_sig ← array 64 "bindingSig";
      mret (Some (MkActionBundle pool actions flags value_balance anchor proof binding_sig)).

(** The closures of [read_transparent]. *)
Definition read_tx_in : parser TransparentInput :=
  txid ← array 32 "prevout txid";
  index ← u32_le "prevout index";
  script ← var_bytes "scriptSig";
  seq ← u32_le "sequence";
  mret (MkTransparentInput txid index script seq).

Definition read_tx_out : parser TransparentOutput :=
  bs ← le_bytes8 "output value";
  value ← lift_opt (ValueOutOfRange "transparent output value") (zat_from_nonnegative_i64_le bs);
  script ← var_bytes "scriptPubKey";
  mret (MkTransparentOutput value script).

(** [TransactionView::read_transparent] *)
Definition read_transparent (self : TransactionView) : parser TransactionView :=
  n ← read_count "transparent inputs" MIN_TX_IN_SIZE;
  ins ← elements n read_tx_in;
  let self := set_transparent_inputs ins self in
  n ← read_count "transparent outputs" MIN_TX_OUT_SIZE;
  outs ← elements n read_tx_out;
  mret (set_transparent_outputs outs self).

(** The [version == TxVersion::V4] block of [read_v1_to_v4]. *)
Definition read_sapling_v4 (v : TxVersion)
  : parser (option Z * list SaplingSpend * list SaplingOutput) :=
  if bool_decide (v = V4) then
    balance ← read_balance "Sapling value balance";
    n ← read_count "Sapling spends" SAPLING_SPEND_V4_SIZE;
    spends ← elements n read_spend_v4;
    n ← read_count "Sapling outputs" SAPLING_OUTPUT_V4_SIZE;
    outputs ← elements n (read_output None);
    mret (Some balance, spends, outputs)
  else mret (None, [], []).

(** The [version.has_sprout()] block of [read_v1_to_v4]. *)
Definition read_sprout (v : TxVersion) (self : TransactionView) : parser TransactionView :=
  if has_sprout v then
    let proof_size := if bool_decide (v = V4) then GROTH_PROOF_SIZE else PHGR_PROOF_SIZE in
    n ← read_count "JoinSplits" (JOINSPLIT_FIXED_SIZE + proof_size + JOINSPLIT_CIPHERTEXTS_SIZE);
    if 0 <? n then
      js ← elements n (read_joinsplit proof_size);
      pubkey ← array 32 "joinSplitPubKey";
      sig ← array 64 "joinSplitSig";
      mret (set_sprout (Some (MkSproutBundle js pubkey sig)) self)
    else mret self
  else mret self.

(** The [if let Some(value_balance) = sapling_balance] block of [read_v1_to_v4]. *)
Definition attach_sapling_v4 (sapling_balance : option Z) (spends : list SaplingSpend)
    (outputs : list SaplingOutput) (self : TransactionView) : parser TransactionView :=
  match sapling_balance with
  | Some value_balance =>
      if bool_decide (spends = []) && bool_decide (outputs = []) then
        if value_balance =? 0 then mret self else fail NonZeroBalanceWithoutDescriptions
      else
        binding_sig ← array 64 "Sapling bindingSig";
        mret (set_sapling (Some (MkSaplingBundle spends outputs value_balance binding_sig)) self)
  | None => mret self
  end.

(** [TransactionView::read_v1_to_v4] *)
Definition read_v1_to_v4 (self : TransactionView) : parser TransactionView :=
  let v := version self in
  self ← read_transparent self;
  lock ← u32_le "lock_time";
  let self := set_lock_time lock self in
  self ← (if version_rank V3 <=? version_rank v
          then exp ← u32_le "expiry_height"; mret (set_expiry_height (Some exp) self)
          else mret self);
  '(sapling_balance, spends, outputs) ← read_sapling_v4 v;
  self ← read_sprout v self;
  attach_sapling_v4 sapling_balance spends outputs self.

(** [TransactionView::read_v5_v6], from the assignment of [branch_id] on. *)
Definition read_v5_v6_body (branch : BranchId) (self : TransactionView) : parser TransactionView :=
  let self := set_branch_id (Some branch) self in
  lock ← u32_le "lock_time";
  let self := set_lock_time lock self in
  exp ← u32_le "expiry_height";
  let self := set_expiry_height (Some exp) self in
  self ← read_transparent self;
  sap ← read_sapling_v5;
  let self := set_sapling sap self in
  orc ← read_action_bundle branch Orchard;
  let self := set_orchard orc self in
  if bool_decide (version self = V6) then
    iro ← read_action_bundle branch Ironwood;
    mret (set_ironwood iro self)
  else mret self.

(** [TransactionView::read_v5_v6] *)
Definition read_v5_v6 (self : TransactionView) : parser TransactionView :=
  raw_branch ← u32_le "consensus branch ID";
  branch ← lift_opt (UnknownBranchId raw_branch) (branch_try_from raw_branch);
  if negb (valid_in_branch (version self) branch)
  then fail (VersionNotValidInBranch (number (version self)) raw_branch)
  else read_v5_v6_body branch self.

(** [TransactionView::read]; [input] is the whole input. *)
Definition read (input : list byte) : parser TransactionView :=
  v ← read_version;
  let view := MkTransactionView [] v None 0 None [] [] None None None None in
  view ← (if has_legacy_txid v then read_v1_to_v4 view else read_v5_v6 view);
  p ← position;
  mret (set_raw (take p input) view).

(** [TransactionView::parse_prefix] *)
Definition parse_prefix (input : list byte) : res DecodeError (TransactionView * list byte) :=
  '(view, r) ← read input (reader_new input);
  Ok (view, drop (pos r) input).

(** [TransactionView::parse_exact] *)
Definition parse_exact (input : list byte) : res DecodeError TransactionView :=
  '(view, rest) ← parse_prefix input;
  match rest with
  | [] => Ok view
  | _ => Err (TrailingBytes (Z.of_nat (length rest)))
  end.
End Reading.

(** ** Accessors *)

(** [TransparentInput::is_null_prevout] *)
Definition is_null_prevout (i : TransparentInput) : bool :=
  bool_decide (prevout_txid i = ZERO_32) && (prevout_index i =? 2 ^ 32 - 1).

(** [TransactionView::is_coinbase] *)
Definition is_coinbase (v : TransactionView) : bool :=
  match transparent_inputs v with [i] => is_null_prevout i | _ => false end.

(** [ActionBundle::spends_enabled], [ActionBundle::outputs_enabled] *)
Definition spends_enabled (b : ActionBundle) : bool :=
  negb (Z.land (ab_flags b) FLAG_SPENDS_ENABLED =? 0).
Definition outputs_enabled (b : ActionBundle) : bool :=
  negb (Z.land (ab_flags b) FLAG_OUTPUTS_ENABLED =? 0).

(** [TransactionView::has_shielded_components] *)
Definition has_shielded_components (v : TransactionView) : bool :=
  bool_decide (is_Some (sprout v)) || bool_decide (is_Some (sapling v))
  || bool_decide (is_Some (orchard v)) || bool_decide (is_Some (ironwood v)).

(** [TransactionView::sprout_value_balance] *)
Definition sprout_value_balance `{!ZcashProtocol} (v : TransactionView) : option Z :=
  match sprout v with
  | None => Some 0
  | Some b =>
      foldl (fun acc js => total ← acc; net ← zat_balance_sub (vpub_new js) (vpub_old js);
                           zat_balance_add total net) (Some 0) (joinsplits b)
  end.

(** [TransactionView::sapling_value_balance], [orchard_value_balance] and
    [ironwood_value_balance] *)
Definition sapling_value_balance (v : TransactionView) : Z :=
  match sapling v with Some b => sb_value_balance b | None => 0 end.
Definition orchard_value_balance (v : TransactionView) : Z :=
  match orchard v with Some b => ab_value_balance b | None => 0 end.
Definition ironwood_value_balance (v : TransactionView) : Z :=
  match ironwood v with Some b => ab_value_balance b | None => 0 end.
