(* ===== verification/TransactionCodec.v ===== *)
(** * The reader accepts exactly the canonical encodings

    A reference encoder of transactions, the well-formed transactions, and the
    theorem that the reading functions of [Transaction] are its inverse. *)

From S2P Require Import Prelude WireReader Transaction.

(** ** Amounts *)

Lemma le_split_wrap n v : le_split n (v - 2 ^ (8 * Z.of_nat n)) = le_split n v.
Proof.
  rewrite <- (split_le_combine' (le_split n v) n) by apply length_le_split.
  rewrite <- (split_le_combine' (le_split n (v - _)) n) by apply length_le_split.
  rewrite !le_combine_split. f_equal. rewrite Z.mul_comm.
  rewrite <- Zminus_mod_idemp_r, Z_mod_same_full, Z.sub_0_r. done.
Qed.

Lemma le_split_i64 bs : length bs = 8%nat -> le_split 8 (i64_of_le bs) = bs.
Proof.
  intros Hl. unfold i64_of_le. zcases; [|rewrite (le_split_wrap 8)];
    by apply split_le_combine'.
Qed.

Lemma i64_of_le_split v : - 2 ^ 63 <= v < 2 ^ 63 -> i64_of_le (le_split 8 v) = v.
Proof.
  intros Hv. unfold i64_of_le. rewrite le_combine_split. change (Z.of_nat 8 * 8) with 64.
  destruct (Z_le_dec 0 v).
  - rewrite Z.mod_small by lia. rewrite (proj2 (Z.ltb_lt _ _)) by lia. done.
  - rewrite <- (Z_mod_plus_full v 1), Z.mod_small by lia.
    rewrite (proj2 (Z.ltb_ge _ _)) by lia. lia.
Qed.

Section Amounts.
Context {ZP : ZcashProtocol} {ZPL : ZcashProtocolLaws}.

Definition balance_ok (v : Z) : Prop := - MAX_MONEY <= v <= MAX_MONEY.
Definition amount_ok (v : Z) : Prop := 0 <= v <= MAX_MONEY.

(** Eight bytes and a conversion with an error. *)
Lemma lift8_Codec (conv : list byte -> option Z) (dec : list byte -> Z) W field err :
  (forall bs v, length bs = 8%nat -> conv bs = Some v <-> dec bs = v /\ W v) ->
  (forall v, W v -> dec (le_split 8 v) = v) ->
  (forall bs, length bs = 8%nat -> le_split 8 (dec bs) = bs) ->
  Codec (bs ← le_bytes8 field; lift_opt err (conv bs)) W (le_split 8).
Proof using Type.
  intros Hc Hd He. split.
  - intros r a r' Hr H. parse_step. assert (length a0 = 8%nat) as Hl by lia.
    destruct (conv a0) as [v|] eqn:E; [|done]. apply Hc in E as [<- HW]; [|done].
    apply parser_ret_Ok in H as [<- <-]. by rewrite He.
  - intros r a r' Hr Hv Ha. parse_run.
    rewrite (proj2 (Hc (le_split 8 a) a (length_le_split _ _))) by auto. done.
Qed.

#[export] Instance read_balance_Codec field : Codec (read_balance field) balance_ok (le_split 8).
Proof using Type*.
  pose proof max_money_bounds. apply (lift8_Codec _ i64_of_le); intros.
  - by apply zat_balance_from_i64_le_spec.
  - apply i64_of_le_split. unfold balance_ok in *. lia.
  - by apply le_split_i64.
Qed.

#[export] Instance read_vpub_Codec field : Codec (read_vpub field) amount_ok (le_split 8).
Proof using Type*.
  pose proof max_money_bounds. apply (lift8_Codec _ le_combine); intros.
  - by apply zat_from_u64_le_spec.
  - apply le_combine_split_small. unfold amount_ok in *. lia.
  - by apply split_le_combine'.
Qed.

Lemma out_value_Codec field err :
  Codec (bs ← le_bytes8 field; lift_opt err (zat_from_nonnegative_i64_le bs)) amount_ok (le_split 8).
Proof using Type*.
  pose proof max_money_bounds. apply (lift8_Codec _ i64_of_le); intros.
  - by apply zat_from_nonnegative_i64_le_spec.
  - apply i64_of_le_split. unfold amount_ok in *. lia.
  - by apply le_split_i64.
Qed.
End Amounts.

(** ** Elements *)

Definition len_ok (n : Z) (bs : list byte) : Prop := Z.of_nat (length bs) = n.
Definition u32_ok (v : Z) : Prop := 0 <= v < 2 ^ 32.

Section ElementEncoding.
Context {ZP : ZcashProtocol}.

Definition script_ok (bs : list byte) : Prop := Z.of_nat (length bs) <= MAX_COMPACT_SIZE.

Definition enc_tx_in (i : TransparentInput) : list byte :=
  prevout_txid i ++ le_split 4 (prevout_index i) ++ write_var_bytes (script_sig i)
  ++ le_split 4 (in_sequence i).
Definition tx_in_ok (i : TransparentInput) : Prop :=
  len_ok 32 (prevout_txid i) /\ u32_ok (prevout_index i) /\ script_ok (script_sig i)
  /\ u32_ok (in_sequence i).

Definition enc_tx_out (o : TransparentOutput) : list byte :=
  le_split 8 (out_value o) ++ write_var_bytes (script_pubkey o).
Definition tx_out_ok (o : TransparentOutput) : Prop :=
  amount_ok (out_value o) /\ script_ok (script_pubkey o).

Definition enc_joinsplit (j : JoinSplit) : list byte :=
  le_split 8 (vpub_old j) ++ le_split 8 (vpub_new j) ++ js_anchor j
  ++ (js_nullifiers j).1 ++ (js_nullifiers j).2 ++ (js_commitments j).1 ++ (js_commitments j).2
  ++ js_ephemeral_key j ++ random_seed j ++ (macs j).1 ++ (macs j).2 ++ js_proof j
  ++ (js_ciphertexts j).1 ++ (js_ciphertexts j).2.
Definition joinsplit_ok (proof_size : Z) (j : JoinSplit) : Prop :=
  amount_ok (vpub_old j) /\ amount_ok (vpub_new j) /\ len_ok 32 (js_anchor j)
  /\ len_ok 32 (js_nullifiers j).1 /\ len_ok 32 (js_nullifiers j).2
  /\ len_ok 32 (js_commitments j).1 /\ len_ok 32 (js_commitments j).2
  /\ len_ok 32 (js_ephemeral_key j) /\ len_ok 32 (random_seed j)
  /\ len_ok 32 (macs j).1 /\ len_ok 32 (macs j).2 /\ len_ok proof_size (js_proof j)
  /\ len_ok SPROUT_CIPHERTEXT_SIZE (js_ciphertexts j).1
  /\ len_ok SPROUT_CIPHERTEXT_SIZE (js_ciphertexts j).2.
End ElementEncoding.

Definition enc_spend_v4 (s : SaplingSpend) : list byte :=
  sp_cv s ++ sp_anchor s ++ sp_nullifier s ++ sp_rk s ++ sp_zkproof s ++ sp_spend_auth_sig s.
Definition enc_spend_v5 (s : SaplingSpend) : list byte := sp_cv s ++ sp_nullifier s ++ sp_rk s.
Definition spend_ok (s : SaplingSpend) : Prop :=
  len_ok 32 (sp_cv s) /\ len_ok 32 (sp_anchor s) /\ len_ok 32 (sp_nullifier s)
  /\ len_ok 32 (sp_rk s) /\ len_ok GROTH_PROOF_SIZE (sp_zkproof s)
  /\ len_ok 64 (sp_spend_auth_sig s).

Definition enc_output_v5 (o : SaplingOutput) : list byte :=
  so_cv o ++ so_cmu o ++ so_ephemeral_key o ++ so_enc_ciphertext o ++ so_out_ciphertext o.
Definition enc_output_v4 (o : SaplingOutput) : list byte :=
  so_cv o ++ so_cmu o ++ so_ephemeral_key o ++ so_enc_ciphertext o ++ so_out_ciphertext o
  ++ so_zkproof o.
Definition output_ok (o : SaplingOutput) : Prop :=
  len_ok 32 (so_cv o) /\ len_ok 32 (so_cmu o) /\ len_ok 32 (so_ephemeral_key o)
  /\ len_ok ENC_CIPHERTEXT_SIZE (so_enc_ciphertext o)
  /\ len_ok OUT_CIPHERTEXT_SIZE (so_out_ciphertext o) /\ len_ok GROTH_PROOF_SIZE (so_zkproof o).

Definition enc_action (a : Action) : list byte :=
  ac_cv a ++ ac_nullifier a ++ ac_rk a ++ ac_cmx a ++ ac_ephemeral_key a
  ++ ac_enc_ciphertext a ++ ac_out_ciphertext a.
Definition action_ok (a : Action) : Prop :=
  len_ok 32 (ac_cv a) /\ len_ok 32 (ac_nullifier a) /\ len_ok 32 (ac_rk a)
  /\ len_ok 32 (ac_cmx a) /\ len_ok 32 (ac_ephemeral_key a)
  /\ len_ok ENC_CIPHERTEXT_SIZE (ac_enc_ciphertext a)
  /\ len_ok OUT_CIPHERTEXT_SIZE (ac_out_ciphertext a) /\ len_ok 64 (ac_spend_auth_sig a).

(** The descriptions as the v5 layout reads them first, without what follows in
    separate arrays. *)
Definition blank_spend (s : SaplingSpend) : Prop :=
  spend_ok s /\ sp_anchor s = ZERO_32 /\ sp_zkproof s = ZERO_PROOF /\ sp_spend_auth_sig s = ZERO_64.
Definition blank_output (o : SaplingOutput) : Prop := output_ok o /\ so_zkproof o = ZERO_PROOF.
Definition blank_action (a : Action) : Prop := action_ok a /\ ac_spend_auth_sig a = ZERO_64.

(** Proves that a record reader has the codec of its fields. *)
Ltac solve_record_codec :=
  split;
  [ intros r x r' Hr H; parse_inv; split; cbn; [split_and!; (done || lia) | adv_join]
  | intros r [] r' Hr Hw Ha; cbn in *; destruct_and?; adv_split; subst; by parse_run ].

Section Elements.
Context {ZP : ZcashProtocol} {ZPL : ZcashProtocolLaws}.

#[export] Instance read_tx_in_Codec : Codec read_tx_in tx_in_ok enc_tx_in.
Proof using Type*.
  unfold read_tx_in, tx_in_ok, enc_tx_in, len_ok, u32_ok, script_ok. solve_record_codec.
Qed.

#[export] Instance read_spend_v4_Codec : Codec read_spend_v4 spend_ok enc_spend_v4.
Proof using Type.
  unfold read_spend_v4, spend_ok, enc_spend_v4, len_ok, GROTH_PROOF_SIZE. solve_record_codec.
Qed.

#[export] Instance read_spend_v5_Codec : Codec read_spend_v5 blank_spend enc_spend_v5.
Proof using Type.
  unfold read_spend_v5, blank_spend, spend_ok, enc_spend_v5, len_ok. solve_record_codec.
Qed.

#[export] Instance read_action_Codec : Codec read_action blank_action enc_action.
Proof using Type.
  unfold read_action, blank_action, action_ok, enc_action, len_ok,
    ENC_CIPHERTEXT_SIZE, OUT_CIPHERTEXT_SIZE. solve_record_codec.
Qed.

#[export] Instance read_output_v4_Codec : Codec (read_output None) output_ok enc_output_v4.
Proof using Type.
  unfold read_output, output_ok, enc_output_v4, len_ok, GROTH_PROOF_SIZE,
    ENC_CIPHERTEXT_SIZE, OUT_CIPHERTEXT_SIZE. solve_record_codec.
Qed.

#[export] Instance read_output_v5_Codec :
  Codec (read_output (Some ZERO_PROOF)) blank_output enc_output_v5.
Proof using Type.
  unfold read_output, blank_output, output_ok, enc_output_v5, len_ok,
    ENC_CIPHERTEXT_SIZE, OUT_CIPHERTEXT_SIZE.
  split.
  - intros r x r' Hr H. repeat (parse_step || rewrite parser_ret_run in H).
    split; cbn; [split_and!; (done || lia)|adv_join].
  - intros r [] r' Hr Hw Ha. cbn in *. destruct_and?. adv_split. subst. parse_run.
    by rewrite parser_ret_run.
Qed.

Lemma read_joinsplit_Codec ps :
  0 <= ps -> Codec (read_joinsplit ps) (joinsplit_ok ps) enc_joinsplit.
Proof using Type*.
  intros Hps. pose proof (take_bytes_Codec ps "JoinSplit proof" Hps).
  unfold read_joinsplit, joinsplit_ok, enc_joinsplit, len_ok, SPROUT_CIPHERTEXT_SIZE. split.
  - intros r x r' Hr H1. parse_inv. split; cbn; [split_and!; (done || lia)|adv_join].
  - intros r [? ? ? [] [] ? ? [] ? []] r' Hr Hw Ha. cbn in *. destruct_and?. adv_split. by parse_run.
Qed.

#[export] Instance read_tx_out_Codec : Codec read_tx_out tx_out_ok enc_tx_out.
Proof using Type*.
  pose proof (out_value_Codec "output value" (ValueOutOfRange "transparent output value")).
  unfold read_tx_out, tx_out_ok, enc_tx_out, script_ok. split.
  - intros r x r' Hr H1. rewrite parser_bind_assoc in H1. parse_inv. split; [done|]. cbn. adv_join.
  - intros r [] r' Hr Hw Ha. cbn in *. destruct_and?. adv_split. rewrite parser_bind_assoc.
    by parse_run.
Qed.
End Elements.

(** ** Sizes of the elements *)

Lemma write_compact_size_length n : (1 <= length (write_compact_size n))%nat.
Proof. unfold write_compact_size. zcases; rewrite ?length_app, !length_le_split; lia. Qed.

Lemma write_var_bytes_length bs : (1 <= length (write_var_bytes bs))%nat.
Proof.
  unfold write_var_bytes. rewrite length_app.
  pose proof (write_compact_size_length (Z.of_nat (length bs))). lia.
Qed.

(** The length of an encoding whose fields have known lengths. *)
Ltac enc_length :=
  repeat match goal with |- context [write_var_bytes ?b] =>
    lazymatch goal with
    | _ : (1 <= length (write_var_bytes b))%nat |- _ => fail
    | _ => pose proof (write_var_bytes_length b)
    end end;
  unfold len_ok in *; rewrite ?length_app, ?length_le_split; destruct_and?; lia.

Section Sizes.
Context {ZP : ZcashProtocol}.

Lemma tx_in_length i : tx_in_ok i -> MIN_TX_IN_SIZE <= Z.of_nat (length (enc_tx_in i)).
Proof. unfold tx_in_ok, enc_tx_in, MIN_TX_IN_SIZE, OUTPOINT_SIZE. intros. enc_length. Qed.

Lemma tx_out_length o : tx_out_ok o -> MIN_TX_OUT_SIZE <= Z.of_nat (length (enc_tx_out o)).
Proof. unfold tx_out_ok, enc_tx_out, MIN_TX_OUT_SIZE. intros. enc_length. Qed.

Lemma joinsplit_length ps j :
  joinsplit_ok ps j ->
  JOINSPLIT_FIXED_SIZE + ps + JOINSPLIT_CIPHERTEXTS_SIZE <= Z.of_nat (length (enc_joinsplit j)).
Proof.
  unfold joinsplit_ok, enc_joinsplit, JOINSPLIT_FIXED_SIZE, JOINSPLIT_CIPHERTEXTS_SIZE,
    SPROUT_CIPHERTEXT_SIZE. intros. enc_length.
Qed.
End Sizes.

Lemma spend_v4_length s : spend_ok s -> SAPLING_SPEND_V4_SIZE <= Z.of_nat (length (enc_spend_v4 s)).
Proof. unfold spend_ok, enc_spend_v4, SAPLING_SPEND_V4_SIZE, GROTH_PROOF_SIZE. intros. enc_length. Qed.

Lemma spend_v5_length s : spend_ok s -> SAPLING_SPEND_V5_SIZE <= Z.of_nat (length (enc_spend_v5 s)).
Proof. unfold spend_ok, enc_spend_v5, SAPLING_SPEND_V5_SIZE. intros. enc_length. Qed.

Lemma output_v4_length o : output_ok o -> SAPLING_OUTPUT_V4_SIZE <= Z.of_nat (length (enc_output_v4 o)).
Proof.
  unfold output_ok, enc_output_v4, SAPLING_OUTPUT_V4_SIZE, GROTH_PROOF_SIZE,
    ENC_CIPHERTEXT_SIZE, OUT_CIPHERTEXT_SIZE. intros. enc_length.
Qed.

Lemma output_v5_length o : output_ok o -> SAPLING_OUTPUT_V5_SIZE <= Z.of_nat (length (enc_output_v5 o)).
Proof.
  unfold output_ok, enc_output_v5, SAPLING_OUTPUT_V5_SIZE, ENC_CIPHERTEXT_SIZE,
    OUT_CIPHERTEXT_SIZE. intros. enc_length.
Qed.

Lemma action_length a : action_ok a -> ACTION_SIZE <= Z.of_nat (length (enc_action a)).
Proof.
  unfold action_ok, enc_action, ACTION_SIZE, ENC_CIPHERTEXT_SIZE, OUT_CIPHERTEXT_SIZE.
  intros. enc_length.
Qed.

(** ** Fields attached from separate arrays *)

Section Attach.
Context {A B : Type} (set : A -> B -> A).

Lemma attach_keep (e : A -> list byte) l bs :
  (forall a b, e (set a b) = e a) -> length bs = length l ->
  write_all e (zip_with set l bs) = write_all e l.
Proof.
  intros He. unfold write_all. revert bs.
  induction l as [|a l IH]; intros [|b bs] Hl; try done. cbn. rewrite He, IH by (cbn in Hl; lia). done.
Qed.

Lemma attach_get (e : A -> list byte) (d : B -> list byte) l bs :
  (forall a b, e (set a b) = d b) -> length bs = length l ->
  write_all e (zip_with set l bs) = write_all d bs.
Proof.
  intros He. unfold write_all. revert bs.
  induction l as [|a l IH]; intros [|b bs] Hl; try done. cbn. rewrite He, IH by (cbn in Hl; lia). done.
Qed.

Lemma attach_Forall (P R : A -> Prop) (Q : B -> Prop) l bs :
  (forall a b, P a -> Q b -> R (set a b)) -> Forall P l -> Forall Q bs -> Forall R (zip_with set l bs).
Proof.
  intros HR Hl. revert bs. induction Hl as [|a l Ha Hl IH]; intros bs Hb; cbn; [constructor|].
  destruct Hb; constructor; auto.
Qed.

Lemma attach_self (g f : A -> A) (get : A -> B) (l : list A) :
  (forall a, a ∈ l -> set (g a) (get a) = f a) -> zip_with set (g <$> l) (get <$> l) = f <$> l.
Proof.
  intros Hs. rewrite zip_with_fmap_l, zip_with_fmap_r, zip_with_diag.
  apply list_fmap_ext. intros i a Hi. by eapply Hs, list_elem_of_lookup_2.
Qed.
End Attach.

(** ** The v5 Sapling bundle *)

Definition first_anchor (l : list SaplingSpend) : list byte :=
  match l with s :: _ => sp_anchor s | [] => [] end.

Definition shared_anchor (l : list SaplingSpend) : Prop :=
  Forall (fun s => sp_anchor s = first_anchor l) l.

Definition enc_sapling_v5 (b : option SaplingBundle) : list byte :=
  match b with
  | None => write_counted enc_spend_v5 [] ++ write_counted enc_output_v5 []
  | Some b =>
      write_counted enc_spend_v5 (sb_spends b) ++ write_counted enc_output_v5 (sb_outputs b)
      ++ le_split 8 (sb_value_balance b) ++ first_anchor (sb_spends b)
      ++ write_all sp_zkproof (sb_spends b) ++ write_all sp_spend_auth_sig (sb_spends b)
      ++ write_all so_zkproof (sb_outputs b) ++ sb_binding_sig b
  end.

Definition sapling_ok `{!ZcashProtocol} (b : SaplingBundle) : Prop :=
  ~ (sb_spends b = [] /\ sb_outputs b = []) /\ counted_ok spend_ok (sb_spends b)
  /\ counted_ok output_ok (sb_outputs b) /\ balance_ok (sb_value_balance b)
  /\ len_ok 64 (sb_binding_sig b).

Definition sapling_v5_ok `{!ZcashProtocol} (b : option SaplingBundle) : Prop :=
  match b with None => True | Some b => sapling_ok b /\ shared_anchor (sb_spends b) end.

(** The spend that the first pass of the v5 reader makes of a description. *)
Definition strip_spend (s : SaplingSpend) : SaplingSpend :=
  MkSaplingSpend (sp_cv s) ZERO_32 (sp_nullifier s) (sp_rk s) ZERO_PROOF ZERO_64.
Definition strip_output (o : SaplingOutput) : SaplingOutput := set_output_proof o ZERO_PROOF.
Definition strip_action (a : Action) : Action := set_action_sig a ZERO_64.

(** The assembled spends: the anchor is the same for all, proofs and signatures are
    attached in order. *)
Definition assemble (l0 : list SaplingSpend) (anchor : list byte) (ps ss : list (list byte)) :=
  zip_with set_spend_sig (zip_with set_spend_proof (set_anchor anchor <$> l0) ps) ss.

Lemma assemble_length l0 a ps ss :
  length ps = length l0 -> length ss = length l0 -> length (assemble l0 a ps ss) = length l0.
Proof. intros. unfold assemble. rewrite !length_zip_with, length_fmap. lia. Qed.

Lemma assemble_enc l0 a ps ss :
  length ps = length l0 -> length ss = length l0 ->
  write_all enc_spend_v5 (assemble l0 a ps ss) = write_all enc_spend_v5 l0
  /\ write_all sp_zkproof (assemble l0 a ps ss) = write_all (fun b => b) ps
  /\ write_all sp_spend_auth_sig (assemble l0 a ps ss) = write_all (fun b => b) ss.
Proof.
  intros Hp Hs. unfold assemble.
  assert (length (zip_with set_spend_proof (set_anchor a <$> l0) ps) = length l0)
    by (rewrite length_zip_with, length_fmap; lia).
  split_and!.
  - rewrite !attach_keep, write_all_fmap; rewrite ?length_fmap; try (by intros [] ?); try lia.
    apply write_all_ext. by intros [] _.
  - rewrite attach_keep by (try (by intros [] ?); lia).
    apply attach_get; [by intros [] ?|by rewrite length_fmap].
  - apply attach_get; [by intros [] ?|lia].
Qed.

Lemma assemble_ok l0 a ps ss :
  Forall blank_spend l0 -> len_ok 32 a -> Forall (len_ok GROTH_PROOF_SIZE) ps -> Forall (len_ok 64) ss ->
  Forall (fun s => spend_ok s /\ sp_anchor s = a) (assemble l0 a ps ss).
Proof.
  intros Hl Ha Hp Hs. unfold assemble.
  assert (Forall (fun s => spend_ok s /\ sp_anchor s = a) (set_anchor a <$> l0)) as H0.
  { apply Forall_fmap. eapply Forall_impl; [exact Hl|].
    intros [] [Hok _]. unfold spend_ok in *; cbn in *. naive_solver. }
  set (P := fun s => spend_ok s /\ sp_anchor s = a) in *.
  eapply (attach_Forall _ P); [|eapply (attach_Forall _ P); [|exact H0|exact Hp]|exact Hs];
    subst P; intros [] b [Hok <-] Hb; unfold spend_ok in *; cbn in *; naive_solver.
Qed.

Lemma strip_output_blank o : output_ok o -> blank_output (strip_output o).
Proof. destruct o. unfold blank_output, output_ok, len_ok; cbn. intros. destruct_and?. split_and!; done. Qed.

Lemma strip_action_blank a : action_ok a -> blank_action (strip_action a).
Proof. destruct a. unfold blank_action, action_ok, len_ok; cbn. intros. destruct_and?. split_and!; done. Qed.

Lemma strip_spend_blank s : spend_ok s -> blank_spend (strip_spend s).
Proof. unfold blank_spend, spend_ok, strip_spend, len_ok; cbn. intros. destruct_and?. split_and!; done. Qed.

Lemma assemble_strip l a :
  Forall (fun s => sp_anchor s = a) l ->
  assemble (strip_spend <$> l) a (sp_zkproof <$> l) (sp_spend_auth_sig <$> l) = l.
Proof.
  intros Hl. unfold assemble. rewrite <- list_fmap_compose.
  rewrite (attach_self _ _ (fun s => set_spend_sig s ZERO_64)); [|].
  - rewrite (attach_self _ _ id), list_fmap_id; [done|]. by intros [] _.
  - intros [] Hs. rewrite Forall_forall in Hl. cbn. by rewrite <- (Hl _ Hs).
Qed.

(** Inverts, and runs, [count] followed by [elements]. *)
Ltac counted_step :=
  match goal with
  | H : (read_count _ _ ≫= _) ?r = Ok (_, _), Hr : reader_ok ?r |- _ =>
      let n := fresh "n" in let r1 := fresh "r" in let H1 := fresh "H" in
      let l := fresh "l" in let r2 := fresh "r" in let H2 := fresh "H" in
      let Hl := fresh "Hl" in let Ha := fresh "Ha" in let Hk := fresh "Hk" in
      apply parser_bind_Ok in H as (n & r1 & H1 & H);
      apply parser_bind_Ok in H as (l & r2 & H2 & H);
      destruct (counted_inv _ _ _ _ _ _ _ _ _ _ Hr H1 H2) as (-> & Hl & Ha & Hk);
      clear H1 H2; cbn beta in H
  end.

(** Inverts a loop that reads a field of each element. *)
Ltac each_step :=
  match goal with
  | H : (read_each _ _ _ ≫= _) ?r = Ok (_, _), Hr : reader_ok ?r |- _ =>
      let l := fresh "l" in let r1 := fresh "r" in let H1 := fresh "H" in
      let bs := fresh "bs" in let Hn := fresh "Hn" in let HW := fresh "HW" in
      let Ha := fresh "Ha" in let Hk := fresh "Hk" in
      apply parser_bind_Ok in H as (l & r1 & H1 & H);
      destruct (read_each_inv _ _ _ _ _ _ _ _ Hr H1) as (bs & Hn & HW & -> & Ha & Hk);
      clear H1; cbn beta in H
  end.

Ltac counted_run_step p Hmin :=
  match goal with
  | H : adv ?r (write_counted _ ?l) ?r1, Hr : reader_ok ?r |- (read_count ?f ?m ≫= _) ?r = _ =>
      let r2 := fresh "r" in let E1 := fresh "E" in let E2 := fresh "E" in
      let Hk := fresh "Hk" in
      destruct (counted_run p _ _ m Hmin f r l r1 Hr) as (r2 & E1 & E2 & _ & Hk); [|exact H|];
      [|rewrite (parser_bind_run _ _ _ _ _ E1); cbn beta;
        rewrite (parser_bind_run _ _ _ _ _ E2); cbn beta; clear E1 E2 H]
  end.

Lemma read_each_get {ZP : ZcashProtocol} {A} n field (set : A -> list byte -> A) (g : A -> list byte) l k r r' :
  0 <= n -> reader_ok r -> length l = length k -> Forall (fun a => len_ok n (g a)) k ->
  adv r (write_all g k) r' ->
  read_each (array n field) set l r = Ok (zip_with set l (g <$> k), r') /\ reader_ok r'.
Proof.
  intros Hn Hr Hl Hk Ha. pose proof (adv_ok _ _ _ Ha Hr). split; [|done].
  eapply (read_each_run _ _ _ (fun b => b)); [done|by rewrite length_fmap| |].
  - by apply Forall_fmap.
  - by rewrite write_all_fmap.
Qed.

(** Runs a loop that reads a field of each element. *)
Ltac each_run n g H :=
  match type of H with adv ?r (write_all _ ?k) ?r1 =>
  match goal with Hr : reader_ok r |- (read_each ?p ?set ?l ≫= _) r = _ =>
    match p with array _ ?f =>
      let E := fresh "E" in let Hk := fresh "Hk" in
      destruct (read_each_get n f set g l k r r1) as [E Hk]; [done|exact Hr| | |exact H|];
      [| |rewrite (parser_bind_run _ _ _ _ _ E); cbn beta; clear E]
    end
  end end.

Section SaplingV5.
Context {ZP : ZcashProtocol} {ZPL : ZcashProtocolLaws}.

Lemma counted_ok_impl {A} (W W' : A -> Prop) l :
  (forall a, W a -> W' a) -> counted_ok W l -> counted_ok W' l.
Proof using Type. intros Hi [Hn Hl]. split; [done|]. by eapply Forall_impl. Qed.

Lemma counted_ok_nil {A} (W : A -> Prop) : counted_ok W [].
Proof using ZPL. pose proof max_compact_size_bounds. split; [cbn; lia|constructor]. Qed.

Lemma counted_ok_fmap {A B} (W : B -> Prop) (W' : A -> Prop) (f : A -> B) l :
  (forall a, W' a -> W (f a)) -> counted_ok W' l -> counted_ok W (f <$> l).
Proof using Type.
  intros Hi [Hn Hl]. split; [by rewrite length_fmap|]. apply Forall_fmap. by eapply Forall_impl.
Qed.

Lemma write_counted_eq {A B} (e : A -> list byte) (d : B -> list byte) l k :
  length l = length k -> write_all e l = write_all d k -> write_counted e l = write_counted d k.
Proof using Type. intros Hl Hw. unfold write_counted. by rewrite Hl, Hw. Qed.

(** [if n_spends > 0 { .. }], for the spends that were read. *)
Lemma read_anchor_inv l r l' r' :
  reader_ok r ->
  (if 0 <? Z.of_nat (length l)
   then anchor ← array 32 "Sapling anchor"; mret (set_anchor anchor <$> l)
   else mret l : parser _) r = Ok (l', r') ->
  exists a, len_ok 32 a /\ l' = set_anchor a <$> l /\
    adv r (if 0 <? Z.of_nat (length l) then a else []) r' /\ reader_ok r'.
Proof using Type.
  intros Hr H. destruct l as [|s l]; cbn [length] in *; zcases; parse_inv.
  - exists ZERO_32. split_and!; [done..| |done]. by apply adv_nil.
  - eexists. split_and!; done.
Qed.

Lemma read_anchor_run l0 l r r' :
  reader_ok r -> length l0 = length l -> Forall spend_ok l -> adv r (first_anchor l) r' ->
  exists a, (l <> [] -> a = first_anchor l) /\
  (if 0 <? Z.of_nat (length l0)
   then anchor ← array 32 "Sapling anchor"; mret (set_anchor anchor <$> l0)
   else mret l0 : parser _) r = Ok (set_anchor a <$> l0, r').
Proof using Type.
  intros Hr Hlen Hl Ha. destruct Hl as [|s l Hs Hl]; destruct l0; try done; cbn [length] in *; zcases.
  - exists ZERO_32. split; [done|]. by apply adv_nil_inv in Ha as ->.
  - exists (sp_anchor s). split; [done|]. cbn [first_anchor] in Ha. unfold spend_ok, len_ok in Hs. destruct_and!. by parse_run.
Qed.

Lemma write_counted_fmap {A} (e : A -> list byte) (f : A -> A) l :
  (forall a, e (f a) = e a) -> write_counted e (f <$> l) = write_counted e l.
Proof using Type.
  intros He. apply write_counted_eq; [by rewrite length_fmap|]. rewrite write_all_fmap.
  by apply write_all_ext.
Qed.

Lemma shared_anchor_intro a l : Forall (fun s => sp_anchor s = a) l -> shared_anchor l.
Proof using Type. unfold shared_anchor. intros Hl. destruct Hl; [done|]. subst. by constructor. Qed.

Lemma spends_sound l anc ps ss :
  counted_ok blank_spend l -> len_ok 32 anc ->
  length ps = length l -> Forall (len_ok GROTH_PROOF_SIZE) ps ->
  length ss = length l -> Forall (len_ok 64) ss ->
  let l' := assemble l anc ps ss in
  length l' = length l /\ counted_ok spend_ok l' /\ shared_anchor l' /\
  first_anchor l' = (if 0 <? Z.of_nat (length l) then anc else []) /\
  write_counted enc_spend_v5 l' = write_counted enc_spend_v5 l /\
  write_all sp_zkproof l' = write_all (fun b => b) ps /\
  write_all sp_spend_auth_sig l' = write_all (fun b => b) ss.
Proof using Type.
  intros [Hn Hl] Ha Hps Hp Hss Hs l'.
  pose proof (assemble_length l anc ps ss Hps Hss) as Hlen.
  destruct (assemble_enc l anc ps ss Hps Hss) as (E1 & E2 & E3).
  pose proof (assemble_ok l anc ps ss Hl Ha Hp Hs) as Hok. fold l' in Hlen, E1, E2, E3, Hok.
  assert (first_anchor l' = if 0 <? Z.of_nat (length l) then anc else []) as Hfirst.
  { rewrite <- Hlen. destruct Hok as [|s k [_ <-] _]; cbn [length first_anchor]; zcases; done. }
  split_and!; try done.
  - split; [by rewrite Hlen|]. eapply Forall_impl; [exact Hok|]. by intros s [? _].
  - apply (shared_anchor_intro anc). eapply Forall_impl; [exact Hok|]. by intros s [_ ?].
  - by apply write_counted_eq.
Qed.

Lemma outputs_sound l os :
  counted_ok blank_output l -> length os = length l -> Forall (len_ok GROTH_PROOF_SIZE) os ->
  let l' := zip_with set_output_proof l os in
  length l' = length l /\ counted_ok output_ok l' /\
  write_counted enc_output_v5 l' = write_counted enc_output_v5 l /\
  write_all so_zkproof l' = write_all (fun b => b) os.
Proof using Type.
  intros [Hn Hl] Hos Ho l'.
  assert (length l' = length l) as Hlen by (subst l'; rewrite length_zip_with; lia).
  split_and!; [done| | |].
  - split; [by rewrite Hlen|]. eapply attach_Forall; [|exact Hl|exact Ho].
    intros [] b [Hok _] Hb. unfold output_ok in *; cbn in *. naive_solver.
  - apply write_counted_eq; [done|]. apply attach_keep; [by intros [] ?|done].
  - apply attach_get; [by intros [] ?|done].
Qed.

#[export] Instance read_sapling_v5_Codec : Codec read_sapling_v5 sapling_v5_ok enc_sapling_v5.
Proof using Type*.
  unfold read_sapling_v5. split.
  - intros r b r' Hr H. counted_step. counted_step.
    destruct ((Z.of_nat (length l) =? 0) && (Z.of_nat (length l0) =? 0)) eqn:E.
    + destruct l, l0; try discriminate. parse_inv. split; [done|]. unfold enc_sapling_v5. adv_join.
    + parse_step. apply parser_bind_Ok in H as (l1 & rA & H1 & H).
      destruct (read_anchor_inv _ _ _ _ Hk1 H1) as (anc & Hla & -> & Haa & Hka).
      do 3 each_step. parse_inv. rewrite length_zip_with, !length_fmap in Hn0.
      rewrite length_fmap in Hn.
      destruct (spends_sound l anc bs bs0) as (Elen & Hs1 & Hs2 & Hs3 & Hs4 & Hs5 & Hs6);
        [done|done|lia|done|lia|done|].
      destruct (outputs_sound l0 bs1) as (Olen & Ho1 & Ho2 & Ho3); [done..|].
      unfold assemble in *. split.
      * split; [|done]. split_and!; try done; cbn [sb_spends sb_outputs].
        intros [E1%(f_equal length) E2%(f_equal length)]. rewrite Elen in E1. rewrite Olen in E2.
        cbn in E1, E2. rewrite E1, E2 in E. done.
      * cbn. rewrite Hs3, Hs4, Hs5, Hs6, Ho2, Ho3. adv_join.
  - intros r b r' Hr Hb Ha. destruct b as [[sps ous vb sig]|]; cbn in *; adv_split.
    + destruct Hb as [(Hne & Hs & Ho & Hvb & Hsig) Hsh]; cbn in *.
      rewrite <- (write_counted_fmap _ strip_spend) in Ha0 by (by intros []).
      rewrite <- (write_counted_fmap _ strip_output) in Ha1 by (by intros []).
      counted_run_step read_spend_v5 (fun a (H : blank_spend a) => spend_v5_length a (proj1 H));
        [by apply (counted_ok_fmap _ spend_ok); [apply strip_spend_blank|]|].
      counted_run_step (read_output (Some ZERO_PROOF)) (fun a (H : blank_output a) => output_v5_length a (proj1 H));
        [by apply (counted_ok_fmap _ output_ok); [apply strip_output_blank|]|].
      rewrite !length_fmap.
      rewrite (proj2 (andb_false_iff _ _)) by (destruct sps, ous; naive_solver).
      parse_run_step. destruct Hs as [_ Hs], Ho as [_ Ho].
      destruct (read_anchor_run (strip_spend <$> sps) sps _ _ Hr0 (length_fmap _ _) Hs Ha3)
        as (anc & Hanc & E). rewrite length_fmap in E.
      rewrite (parser_bind_run _ _ _ _ _ E). clear E.
      pose proof (adv_ok _ _ _ Ha3 Hr0) as Hr3.
      each_run GROTH_PROOF_SIZE sp_zkproof Ha4; [by rewrite !length_fmap| |].
      { eapply Forall_impl; [exact Hs|]. unfold spend_ok. tauto. }
      each_run 64 sp_spend_auth_sig Ha5; [by rewrite length_zip_with, !length_fmap, Nat.min_id| |].
      { eapply Forall_impl; [exact Hs|]. unfold spend_ok. tauto. }
      each_run GROTH_PROOF_SIZE so_zkproof Ha6; [by rewrite !length_fmap| |].
      { eapply Forall_impl; [exact Ho|]. unfold output_ok. tauto. }
      parse_run. fold (assemble (strip_spend <$> sps) anc (sp_zkproof <$> sps) (sp_spend_auth_sig <$> sps)).
      rewrite assemble_strip by (destruct sps; [constructor|]; by rewrite Hanc).
      rewrite (attach_self _ _ id), list_fmap_id by (by intros []). done.
    + counted_run_step read_spend_v5 (fun a (H : blank_spend a) => spend_v5_length a (proj1 H)).
      { by apply counted_ok_nil. }
      counted_run_step (read_output (Some ZERO_PROOF))
        (fun a (H : blank_output a) => output_v5_length a (proj1 H)).
      { by apply counted_ok_nil. }
      done.
Qed.
End SaplingV5.

(** ** Orchard and Ironwood bundles *)

Definition enc_action_bundle (b : option ActionBundle) : list byte :=
  match b with
  | None => write_counted enc_action []
  | Some b =>
      write_counted enc_action (ab_actions b) ++ le_split 1 (ab_flags b)
      ++ le_split 8 (ab_value_balance b) ++ ab_anchor b ++ write_var_bytes (ab_proof b)
      ++ write_all ac_spend_auth_sig (ab_actions b) ++ ab_binding_sig b
  end.

(** The flag bits that a pool allows: bits 3 to 7 are zero, and bit 2 may be set
    only for Ironwood. *)
Definition flags_ok (pool : ActionPool) (flags : Z) : Prop :=
  0 <= flags < match pool with Orchard => 4 | Ironwood => 8 end.

(** The proof has the canonical length, unless the branch has the first revision of
    the protocol and the pool is Orchard. *)
Definition proof_ok (pool : ActionPool) (rev : option OrchardProtocolRevision) (n len : Z) : Prop :=
  match pool, rev with
  | _, None | Ironwood, Some InsecureV1 | Ironwood, Some RevV2 => False
  | Orchard, Some InsecureV1 => True
  | _, Some _ => len = ACTION_PROOF_BASE_SIZE + n * ACTION_PROOF_PER_ACTION_SIZE
  end.

Section ActionBundles.
Context {ZP : ZcashProtocol} {ZPL : ZcashProtocolLaws}.

Definition action_bundle_ok (branch : BranchId) (pool : ActionPool) (b : option ActionBundle) : Prop :=
  match b with
  | None => True
  | Some b =>
      ab_pool b = pool /\ ab_actions b <> [] /\ counted_ok action_ok (ab_actions b)
      /\ flags_ok pool (ab_flags b) /\ balance_ok (ab_value_balance b) /\ len_ok 32 (ab_anchor b)
      /\ script_ok (ab_proof b)
      /\ proof_ok pool (orchard_protocol_revision branch) (Z.of_nat (length (ab_actions b)))
           (Z.of_nat (length (ab_proof b)))
      /\ len_ok 64 (ab_binding_sig b)
  end.

Lemma flags_invalid_spec pool flags :
  0 <= flags < 256 -> flags_invalid pool flags = false <-> flags_ok pool flags.
Proof using Type.
  intros Hf. unfold flags_ok.
  assert (forallb (fun f => bool_decide (flags_invalid pool (Z.of_nat f) = false <->
      (0 <= Z.of_nat f < match pool with Orchard => 4 | Ironwood => 8 end))) (seq 0 256) = true) as H
    by (destruct pool; vm_compute; done).
  rewrite forallb_forall in H. specialize (H (Z.to_nat flags)). rewrite Z2Nat.id in H by lia.
  apply bool_decide_eq_true in H; [done|]. apply in_seq. lia.
Qed.

Lemma expected_proof_len_spec n len :
  0 <= n -> 0 <= len <= MAX_COMPACT_SIZE ->
  expected_proof_len n = Some len <-> len = ACTION_PROOF_BASE_SIZE + n * ACTION_PROOF_PER_ACTION_SIZE.
Proof using Type*.
  pose proof usize_max_bounds. pose proof max_compact_size_bounds.
  unfold expected_proof_len, checked, ACTION_PROOF_BASE_SIZE, ACTION_PROOF_PER_ACTION_SIZE.
  intros. zcases; cbn [mbind option_bind]; zcases; split; intros; simplify_eq; try lia; f_equal; lia.
Qed.

Lemma check_proof_len_Ok pool n len r u r' :
  check_proof_len pool n len r = Ok (u, r') <-> expected_proof_len n = Some len /\ r' = r.
Proof using Type.
  destruct u. unfold check_proof_len. case_bool_decide as E.
  - rewrite parser_ret_Ok. naive_solver.
  - split; [discriminate|]. by intros [? _].
Qed.

Lemma proof_step_Ok (enforce : bool) pool n len r u r' :
  (if enforce then check_proof_len pool n len else mret ()) r = Ok (u, r') <->
  (enforce = true -> expected_proof_len n = Some len) /\ r' = r.
Proof using Type.
  destruct enforce; [rewrite check_proof_len_Ok|rewrite parser_ret_Ok]; destruct u; naive_solver.
Qed.

(** The checks of the pool and of the proof length. *)
Lemma proof_check_Ok pool rev n len :
  0 <= n -> 0 <= len <= MAX_COMPACT_SIZE ->
  (exists enforce, enforce_proof_size pool rev = Some enforce /\
    (enforce = true -> expected_proof_len n = Some len)) <-> proof_ok pool rev n len.
Proof using Type*.
  intros Hn Hl. pose proof (expected_proof_len_spec n len Hn Hl) as He.
  destruct pool, rev as [[]|]; cbn; naive_solver.
Qed.

Lemma actions_sound l ss :
  counted_ok blank_action l -> length ss = length l -> Forall (len_ok 64) ss ->
  let l' := zip_with set_action_sig l ss in
  length l' = length l /\ counted_ok action_ok l' /\
  write_counted enc_action l' = write_counted enc_action l /\
  write_all ac_spend_auth_sig l' = write_all (fun b => b) ss.
Proof using Type.
  intros [Hn Hl] Hss Hs l'.
  assert (length l' = length l) as Hlen by (subst l'; rewrite length_zip_with; lia).
  split_and!; [done| | |].
  - split; [by rewrite Hlen|]. eapply attach_Forall; [|exact Hl|exact Hs].
    intros [] b [Hok _] Hb. unfold action_ok in *; cbn in *. naive_solver.
  - apply write_counted_eq; [done|]. apply attach_keep; [by intros [] ?|done].
  - apply attach_get; [by intros [] ?|done].
Qed.

#[export] Instance read_action_bundle_Codec branch pool :
  Codec (read_action_bundle branch pool) (action_bundle_ok branch pool) enc_action_bundle.
Proof using Type*.
  pose proof max_compact_size_bounds.
  unfold read_action_bundle. split.
  - intros r b r' Hr Hp. apply parser_bind_Ok in Hp as (n & r1 & Hc & Hp).
    destruct (Z.eqb_spec n 0) as [->|Hn].
    + parse_inv. apply read_count_inv in Hc as (_ & Hc & _); [|done]. split; [done|].
      cbn. unfold write_counted. by rewrite app_nil_r.
    + apply parser_bind_Ok in Hp as (l & r2 & Hl & Hp).
      destruct (counted_inv _ _ _ _ _ _ _ _ _ _ Hr Hc Hl) as (-> & Hcl & Ha & Hk). clear Hc Hl.
      destruct (enforce_proof_size _ _) as [enforce|] eqn:Ee; [|done].
      cbn [lift_opt] in Hp. rewrite parser_ret_run in Hp. parse_step.
      destruct (flags_invalid _ _) eqn:Ef; [done|]. do 2 parse_step.
      parse_step. apply parser_bind_Ok in Hp as (u & r6 & Hu & Hp).
      apply proof_step_Ok in Hu as [Hu ->]. each_step. parse_inv.
      destruct (actions_sound l bs) as (Elen & Hok & E1 & E2); [done..|]. split.
      * unfold action_bundle_ok; cbn. split_and!; try done.
        -- intros E%(f_equal length). rewrite Elen in E. cbn in E. lia.
        -- by apply flags_invalid_spec.
        -- rewrite Elen. apply proof_check_Ok; [lia|lia|eauto].
      * cbn. rewrite E1, E2. adv_join.
  - intros r b r' Hr Hb Ha. destruct b as [[p l f vb an pr sig]|]; cbn in Hb, Ha; adv_split.
    + destruct Hb as (-> & Hne & Hl & Hf & Hvb & Han & Hpr & Hpl & Hsig).
      rewrite <- (write_counted_fmap _ strip_action) in Ha0 by (by intros []).
      destruct (counted_run read_action _ _ ACTION_SIZE
        (fun a (H : blank_action a) => action_length a (proj1 H)) "actions" r
        (strip_action <$> l) r0 Hr)
        as (r7 & E1 & E2 & _ & Hk); [|exact Ha0|].
      { by apply (counted_ok_fmap _ action_ok); [apply strip_action_blank|]. }
      rewrite (parser_bind_run _ _ _ _ _ E1), (proj2 (Z.eqb_neq _ _))
        by (rewrite length_fmap; destruct l; cbn; [done|lia]).
      rewrite (parser_bind_run _ _ _ _ _ E2). clear E1 E2.
      apply proof_check_Ok in Hpl as (enforce & Ee & Hpl); [|lia|unfold script_ok in *; lia].
      rewrite Ee. cbn [lift_opt]. rewrite parser_ret_run.
      unfold flags_ok in Hf. parse_run_step; [|destruct pool; lia].
      rewrite (proj2 (flags_invalid_spec pool f ltac:(destruct pool; lia)) Hf). do 3 parse_run_step.
      rewrite length_fmap, (parser_bind_run _ _ _ () r4) by (by apply proof_step_Ok).
      each_run 64 ac_spend_auth_sig Ha5; [by rewrite length_fmap| |].
      { eapply Forall_impl; [exact (proj2 Hl)|]. unfold action_ok. tauto. }
      parse_run. rewrite (attach_self _ _ id), list_fmap_id by (by intros []). done.
    + unfold write_counted in Ha. rewrite app_nil_r in Ha.
      pose proof (reader_ok_remaining _ (adv_ok _ _ _ Ha Hr)).
      by rewrite (parser_bind_run _ _ _ _ _
        (read_count_run "actions" ACTION_SIZE r 0 r' Hr ltac:(lia) Ha ltac:(lia))).
Qed.
End ActionBundles.
