(* ===== verification/TransactionParse.v ===== *)
(** * Parsing whole transactions

    The reference encoding of a transaction, the well-formed transactions of each
    version, and what [TransactionView::parse_prefix] and [parse_exact] accept. *)

From S2P Require Import Prelude WireReader Transaction TransactionCodec.

(** ** The reference encoding *)

Section Encoding.
Context {ZP : ZcashProtocol}.

Definition enc_version (v : TxVersion) : list byte :=
  le_split 4 (header v) ++ match version_group_id v with Some g => le_split 4 g | None => [] end.

Definition enc_transparent (v : TransactionView) : list byte :=
  write_counted enc_tx_in (transparent_inputs v) ++ write_counted enc_tx_out (transparent_outputs v).

Definition enc_sprout (ver : TxVersion) (b : option SproutBundle) : list byte :=
  if has_sprout ver then
    match b with
    | None => write_counted enc_joinsplit []
    | Some b => write_counted enc_joinsplit (joinsplits b) ++ joinsplit_pubkey b ++ joinsplit_sig b
    end
  else [].

Definition spends_of (b : option SaplingBundle) : list SaplingSpend :=
  match b with Some b => sb_spends b | None => [] end.
Definition outputs_of (b : option SaplingBundle) : list SaplingOutput :=
  match b with Some b => sb_outputs b | None => [] end.

Definition enc_u32_opt (o : option Z) : list byte :=
  match o with Some e => le_split 4 e | None => [] end.

Definition enc_legacy (v : TransactionView) : list byte :=
  enc_transparent v ++ le_split 4 (lock_time v) ++ enc_u32_opt (expiry_height v)
  ++ (if bool_decide (version v = V4) then
        le_split 8 (sapling_value_balance v) ++ write_counted enc_spend_v4 (spends_of (sapling v))
        ++ write_counted enc_output_v4 (outputs_of (sapling v))
      else [])
  ++ enc_sprout (version v) (sprout v)
  ++ match sapling v with Some b => sb_binding_sig b | None => [] end.

Definition enc_v5_v6 (v : TransactionView) : list byte :=
  enc_u32_opt (branch_to_u32 <$> branch_id v) ++ le_split 4 (lock_time v)
  ++ enc_u32_opt (expiry_height v) ++ enc_transparent v ++ enc_sapling_v5 (sapling v)
  ++ enc_action_bundle (orchard v)
  ++ (if bool_decide (version v = V6) then enc_action_bundle (ironwood v) else []).

(** The encoding of a transaction, from its fields. *)
Definition encode (v : TransactionView) : list byte :=
  enc_version (version v) ++ (if has_legacy_txid (version v) then enc_legacy v else enc_v5_v6 v).

(** ** Well-formed transactions *)

Definition transparent_ok (v : TransactionView) : Prop :=
  counted_ok tx_in_ok (transparent_inputs v) /\ counted_ok tx_out_ok (transparent_outputs v).

Definition sprout_proof_size (ver : TxVersion) : Z :=
  if bool_decide (ver = V4) then GROTH_PROOF_SIZE else PHGR_PROOF_SIZE.

Definition sprout_ok (ver : TxVersion) (b : option SproutBundle) : Prop :=
  match b with
  | None => True
  | Some b =>
      has_sprout ver = true /\ joinsplits b <> []
      /\ counted_ok (joinsplit_ok (sprout_proof_size ver)) (joinsplits b)
      /\ len_ok 32 (joinsplit_pubkey b) /\ len_ok 64 (joinsplit_sig b)
  end.

Definition expiry_ok (ver : TxVersion) (e : option Z) : Prop :=
  match e with
  | None => version_rank ver < version_rank V3
  | Some e => version_rank V3 <= version_rank ver /\ u32_ok e
  end.

Definition sapling_v4_ok (ver : TxVersion) (b : option SaplingBundle) : Prop :=
  match b with None => True | Some b => ver = V4 /\ sapling_ok b end.

Definition legacy_ok (v : TransactionView) : Prop :=
  transparent_ok v /\ u32_ok (lock_time v) /\ expiry_ok (version v) (expiry_height v)
  /\ sapling_v4_ok (version v) (sapling v) /\ sprout_ok (version v) (sprout v)
  /\ branch_id v = None /\ orchard v = None /\ ironwood v = None.

Definition v5_v6_ok (v : TransactionView) : Prop :=
  (exists b, branch_id v = Some b /\ valid_in_branch (version v) b = true
     /\ action_bundle_ok b Orchard (orchard v)
     /\ (if bool_decide (version v = V6) then action_bundle_ok b Ironwood (ironwood v)
         else ironwood v = None))
  /\ u32_ok (lock_time v) /\ (exists e, expiry_height v = Some e /\ u32_ok e)
  /\ transparent_ok v /\ sapling_v5_ok (sapling v) /\ sprout v = None.

Definition body_ok (v : TransactionView) : Prop :=
  if has_legacy_txid (version v) then legacy_ok v else v5_v6_ok v.

(** The fields are in range and consistent with the version, and [raw] is the
    encoding of the other fields. *)
Definition tx_ok (v : TransactionView) : Prop := body_ok v /\ raw v = encode v.
End Encoding.

(** Runs a reading function that has a codec and returns the value [x]. *)
Ltac parse_use x H :=
  match type of H with adv ?r _ ?r1 =>
  match goal with Hr : reader_ok r |- (?p ≫= _) r = _ =>
    let Hr1 := fresh "Hr" in
    pose proof (adv_ok _ _ _ H Hr) as Hr1;
    rewrite (parser_bind_run p _ r x r1); [clear H|apply codec_complete; [exact Hr| |exact H]];
    [|cbn beta]
  end end.

(** ** The parts *)

Lemma header_parts hd num :
  0 <= hd < 2 ^ 32 -> Z.shiftr hd 31 = 1 -> Z.land hd 0x7FFFFFFF = num -> hd = 2 ^ 31 + num.
Proof.
  intros Hd Hs <-. rewrite Z.shiftr_div_pow2 in Hs by lia.
  change 0x7FFFFFFF with (Z.ones 31). rewrite Z.land_ones by lia.
  pose proof (Z_div_mod_eq_full hd (2 ^ 31)). lia.
Qed.

Section Parts.
Context {ZP : ZcashProtocol} {ZPL : ZcashProtocolLaws}.

Lemma header_value v : header v = match v with V1 => 1 | V2 => 2 | V3 => 2 ^ 31 + 3
  | V4 => 2 ^ 31 + 4 | V5 => 2 ^ 31 + 5 | V6 => 2 ^ 31 + 6 end.
Proof using Type*.
  destruct v; cbn; rewrite ?v3_number, ?v4_number, ?v5_number, ?v6_number; reflexivity.
Qed.

#[export] Instance read_version_Codec : Codec read_version (fun _ => True) enc_version.
Proof using Type*.
  unfold read_version, enc_version. split.
  - intros r v r' Hr H. parse_step. destruct (Z.eqb_spec (Z.shiftr a 31) 1) as [Es|Es]; cbn [negb] in H.
    + parse_step. rewrite v3_number, v4_number, v5_number, v6_number in H.
      repeat match type of H with context [if ?b then _ else _] => destruct b eqn:? end;
        try discriminate;
        repeat match goal with E : (_ && _) = true |- _ =>
          apply andb_prop in E as [?%Z.eqb_eq ?%Z.eqb_eq] end;
        parse_inv; (split; [done|]); rewrite header_value; cbn [version_group_id];
        match goal with E : Z.land _ _ = _ |- _ => rewrite <- (header_parts _ _ Hw Es E) end; adv_join.
    + assert (Z.land a 0x7FFFFFFF = a) as El.
      { change 0x7FFFFFFF with (Z.ones 31). rewrite Z.land_ones by lia. apply Z.mod_small.
        rewrite Z.shiftr_div_pow2 in Es by lia. pose proof (Z_div_mod_eq_full a (2 ^ 31)).
        pose proof (Z.mod_pos_bound a (2 ^ 31)). split; [lia|].
        assert (a / 2 ^ 31 < 2) by (apply Z.div_lt_upper_bound; lia).
        assert (0 <= a / 2 ^ 31) by (apply Z.div_pos; lia). nia. }
      rewrite El in H. zcases; parse_inv; (split; [done|]); rewrite header_value; cbn; rewrite app_nil_r;
        by subst.
  - pose proof v3_group_u32. pose proof v4_group_u32. pose proof v5_group_u32. pose proof v6_group_u32.
    intros r v r' Hr _ Ha. rewrite header_value in Ha.
    destruct v; cbn [version_group_id] in Ha; adv_split; parse_run_step;
      repeat match goal with
      | |- context [Z.shiftr ?a 31] => let x := eval vm_compute in (Z.shiftr a 31) in
          change (Z.shiftr a 31) with x
      | |- context [Z.land ?a 0x7FFFFFFF] => let x := eval vm_compute in (Z.land a 0x7FFFFFFF) in
          change (Z.land a 0x7FFFFFFF) with x
      end; cbn -[mbind le_split]; parse_run;
      rewrite ?v3_number, ?v4_number, ?v5_number, ?v6_number, ?Z.eqb_refl; done.
Qed.

#[export] Instance read_transparent_Codec self :
  Codec (read_transparent self)
    (fun v => v = set_transparent_outputs (transparent_outputs v)
                    (set_transparent_inputs (transparent_inputs v) self) /\ transparent_ok v)
    enc_transparent.
Proof using Type*.
  unfold read_transparent, enc_transparent, transparent_ok. split.
  - intros r v r' Hr H. counted_step. counted_step. parse_inv. destruct self; cbn.
    split; [done|]. adv_join.
  - intros r v r' Hr (Ev & Hi & Ho) Ha. adv_split.
    counted_run_step read_tx_in tx_in_length; [done|].
    counted_run_step read_tx_out tx_out_length; [done|]. by rewrite Ev at 3.
Qed.

Lemma read_sprout_Codec ver self :
  sprout self = None ->
  Codec (read_sprout ver self)
    (fun v => v = set_sprout (sprout v) self /\ sprout_ok ver (sprout v))
    (fun v => enc_sprout ver (sprout v)).
Proof using Type*.
  intros Hs. assert (set_sprout None self = self) as Hself by (by destruct self; cbn in *; subst).
  unfold read_sprout, enc_sprout, sprout_ok. fold (sprout_proof_size ver).
  assert (0 <= sprout_proof_size ver) as Hps by (unfold sprout_proof_size; by case_bool_decide).
  pose proof (read_joinsplit_Codec _ Hps). pose proof max_compact_size_bounds.
  destruct (has_sprout ver) eqn:Ev; split.
  - intros r v r' Hr H1. apply parser_bind_Ok in H1 as (n & r1 & Hn & H1). zcases.
    + apply parser_bind_Ok in H1 as (l & r2 & Hl & H1).
      destruct (counted_inv _ _ _ _ _ _ _ _ _ _ Hr Hn Hl) as (-> & Hc & Ha & Hk). parse_inv.
      destruct self; cbn. split; [|adv_join]. split_and!; try done. by intros ->.
    + apply read_count_inv in Hn as (Hb & Ha & _); [|done]. parse_inv. rewrite Hs, Hself.
      assert (n = 0) as -> by lia. split; [done|]. unfold write_counted. by rewrite app_nil_r.
  - intros r v r' Hr (Ew & Hok) Ha. destruct (sprout v) as [[l pk sg]|]; subst v; cbn in *.
    + destruct Hok as (_ & Hne & Hl & Hpk & Hsg). adv_split.
      destruct (counted_run _ _ _ _ (joinsplit_length (sprout_proof_size ver)) "JoinSplits" r l r0 Hr Hl Ha0)
        as (r3 & E1 & E2 & _ & Hk).
      rewrite (parser_bind_run _ _ _ _ _ E1), (proj2 (Z.ltb_lt _ _)) by (destruct l; cbn; [done|lia]).
      rewrite (parser_bind_run _ _ _ _ _ E2). clear E1 E2. by parse_run.
    + unfold write_counted in Ha. rewrite app_nil_r in Ha.
      pose proof (reader_ok_remaining _ (adv_ok _ _ _ Ha Hr)). rewrite Hself.
      by rewrite (parser_bind_run _ _ _ _ _ (read_count_run "JoinSplits" _ r 0 r' Hr ltac:(lia) Ha ltac:(lia))).
  - intros r v r' Hr H1. parse_inv. rewrite Hs, Hself. split; [done|]. by apply adv_nil.
  - intros r v r' Hr (Ew & Hok) Ha. apply adv_nil_inv in Ha as ->.
    destruct (sprout v); [by destruct Hok|]. subst v. by rewrite Hself.
Qed.

#[export] Instance read_sapling_v4_Codec ver :
  Codec (read_sapling_v4 ver)
    (fun '(b, l, o) => if bool_decide (ver = V4)
       then (exists x, b = Some x /\ balance_ok x) /\ counted_ok spend_ok l /\ counted_ok output_ok o
       else b = None /\ l = [] /\ o = [])
    (fun '(b, l, o) => if bool_decide (ver = V4)
       then le_split 8 (default 0 b) ++ write_counted enc_spend_v4 l ++ write_counted enc_output_v4 o
       else []).
Proof using Type*.
  unfold read_sapling_v4. case_bool_decide as E; split.
  - intros r [[b l] o] r' Hr H. parse_step. counted_step. counted_step.
    apply parser_ret_Ok in H as [[= <- <- <-] <-]. cbn. split; [eauto|]. adv_join.
  - intros r [[b l] o] r' Hr ((x & -> & Hx) & Hl & Ho) Ha. cbn [default from_option] in Ha.
    adv_split. parse_run_step.
    counted_run_step read_spend_v4 spend_v4_length; [done|].
    by counted_run_step (read_output None) output_v4_length.
  - intros r [[b l] o] r' Hr H. apply parser_ret_Ok in H as [[= <- <- <-] <-].
    split; [done|]. by apply adv_nil.
  - intros r [[b l] o] r' Hr (-> & -> & ->) Ha. by apply adv_nil_inv in Ha as ->.
Qed.

(** [if version >= TxVersion::V3 { .. }] *)
Lemma read_expiry_Codec ver self :
  expiry_height self = None ->
  Codec (if version_rank V3 <=? version_rank ver
         then exp ← u32_le "expiry_height"; mret (set_expiry_height (Some exp) self)
         else mret self)
    (fun v => v = set_expiry_height (expiry_height v) self /\ expiry_ok ver (expiry_height v))
    (fun v => enc_u32_opt (expiry_height v)).
Proof using Type.
  intros Hs. assert (set_expiry_height None self = self) as Hself by (by destruct self; cbn in *; subst).
  unfold expiry_ok. zcases; split.
  - intros r v r' Hr H1. parse_inv. by destruct self.
  - intros r v r' Hr (Ew & Hok) Ha. destruct (expiry_height v) as [e|]; [|lia]. subst v. cbn in Ha.
    destruct Hok as [_ Hok]. by parse_run.
  - intros r v r' Hr H1. parse_inv. rewrite Hs, Hself. split; [done|]. by apply adv_nil.
  - intros r v r' Hr (Ew & Hok) Ha. destruct (expiry_height v) as [e|]; [lia|]. subst v.
    apply adv_nil_inv in Ha as ->. by rewrite Hself.
Qed.

(** The view with which [TransactionView::read] starts. *)
Definition initial (ver : TxVersion) : TransactionView :=
  MkTransactionView [] ver None 0 None [] [] None None None None.

(** The fields that the v4 block reads, from the bundle they end up in. *)
Definition v4_fields (ver : TxVersion) (b : option SaplingBundle)
  : option Z * list SaplingSpend * list SaplingOutput :=
  (if bool_decide (ver = V4) then Some (match b with Some b => sb_value_balance b | None => 0 end) else None,
   spends_of b, outputs_of b).

Definition v4_wf (ver : TxVersion) : option Z * list SaplingSpend * list SaplingOutput -> Prop :=
  fun '(b, l, o) => if bool_decide (ver = V4)
    then (exists x, b = Some x /\ balance_ok x) /\ counted_ok spend_ok l /\ counted_ok output_ok o
    else b = None /\ l = [] /\ o = [].

(** The end of [read_v1_to_v4] *)
Lemma attach_sapling_inv ver bal sps ous self r v r' :
  reader_ok r -> sapling self = None -> v4_wf ver (bal, sps, ous) ->
  attach_sapling_v4 bal sps ous self r = Ok (v, r') ->
  exists b, v = set_sapling b self /\ sapling_v4_ok ver b /\ (bal, sps, ous) = v4_fields ver b /\
    adv r (match b with Some b => sb_binding_sig b | None => [] end) r'.
Proof using ZPL.
  intros Hr Hs Hw H. assert (set_sapling None self = self) as Hself by (by destruct self; cbn in *; subst).
  unfold attach_sapling_v4, v4_fields, v4_wf in *. 
  destruct (bool_decide (ver = V4)) eqn:Ever.
  - destruct Hw as ((x & -> & Hx) & Hl & Ho).
    destruct (bool_decide (sps = []) && bool_decide (ous = [])) eqn:E.
    + apply andb_prop in E as [->%bool_decide_eq_true ->%bool_decide_eq_true].
      zcases; parse_inv. exists None. split_and!; try done. by apply adv_nil.
    + apply bool_decide_eq_true in Ever.
      parse_inv. eexists (Some _). split_and!; try done. cbn. split; [done|]. split_and!; try done.
      cbn. intros [-> ->]. done.
  - destruct Hw as (-> & -> & ->). parse_inv. exists None. split_and!; try done. by apply adv_nil.
Qed.

Lemma attach_sapling_run ver b bal sps ous self r r' :
  reader_ok r -> sapling self = None -> sapling_v4_ok ver b -> (bal, sps, ous) = v4_fields ver b ->
  adv r (match b with Some b => sb_binding_sig b | None => [] end) r' ->
  v4_wf ver (bal, sps, ous) /\ attach_sapling_v4 bal sps ous self r = Ok (set_sapling b self, r').
Proof using ZPL.
  intros Hr Hs Hb [= -> -> ->] Ha. pose proof max_money_bounds.
  assert (set_sapling None self = self) as Hself by (by destruct self; cbn in *; subst).
  unfold attach_sapling_v4, v4_wf. destruct b as [[sps ous vb sig]|]; cbn in *.
  - destruct Hb as (-> & Hne & Hl & Ho & Hvb & Hsig). cbn in *.
    rewrite bool_decide_true by done. split; [eauto|].
    rewrite (proj2 (andb_false_iff _ _)) by (rewrite !bool_decide_eq_false; destruct sps; naive_solver).
    by parse_run.
  - apply adv_nil_inv in Ha as ->. rewrite Hself. case_bool_decide; [|done]. split; [|done].
    split_and!; try apply counted_ok_nil. exists 0. split; [done|]. unfold balance_ok. lia.
Qed.

Lemma read_v1_to_v4_Codec ver :
  Codec (read_v1_to_v4 (initial ver))
    (fun v => raw v = [] /\ version v = ver /\ legacy_ok v) enc_legacy.
Proof using Type*.
  unfold read_v1_to_v4. cbn [version initial]. split.
  - intros r v r' Hr H. parse_step. destruct Hw as [Ev Htr]. parse_step.
    assert (expiry_height (set_lock_time a0 a) = None) as Hexp by (by rewrite Ev).
    pose proof (read_expiry_Codec ver _ Hexp). parse_step. destruct Hw0 as [Ev1 Hex].
    parse_step. destruct a2 as [[bal sps] ous].
    assert (sprout a1 = None) as Hspr by (by rewrite Ev1, Ev).
    pose proof (read_sprout_Codec ver _ Hspr). parse_step. destruct Hw1 as [Ev2 Hsp].
    assert (sapling a2 = None) as Hsa by (by rewrite Ev2, Ev1, Ev).
    destruct (attach_sapling_inv ver _ _ _ _ _ _ _ Hk3 Hsa Hw0 H)
      as (b & Ev3 & Hb & [= -> -> ->] & Ha4).
    clear H H0 H1 Hexp Hspr. destruct a, a1, a2; cbn in *.
    injection Ev; injection Ev1; injection Ev2; intros; subst; cbn. split.
    + by split_and!.
    + unfold enc_legacy; cbn. unfold v4_fields in Ha2.
      destruct (bool_decide (ver = V4)); adv_join.
  - intros r [rw ve br lt ex ins outs spr sap orc iro] r' Hr Hv Ha. unfold legacy_ok in Hv; cbn in Hv.
    destruct Hv as (-> & -> & Htr & Hlt & Hex & Hsap & Hspr & -> & -> & ->).
    unfold enc_legacy in Ha; cbn in Ha. adv_split.
    set (tr := MkTransactionView [] ver None 0 None ins outs None None None None).
    parse_use tr Ha0; [|by split]. parse_run_step.
    pose proof (read_expiry_Codec ver (set_lock_time lt tr) eq_refl).
    set (tr1 := set_expiry_height ex (set_lock_time lt tr)).
    parse_use tr1 Ha2; [|by split].
    assert (Hv4 := adv_ok _ _ _ Ha3 Hr2). pose proof (read_sprout_Codec ver tr1 eq_refl).
    destruct (attach_sapling_run ver sap (v4_fields ver sap).1.1 (spends_of sap) (outputs_of sap)
      (set_sprout spr tr1) _ _ (adv_ok _ _ _ Ha4 Hv4) eq_refl Hsap eq_refl Ha) as [Hwf Hend].
    assert (adv r2 (if bool_decide (ver = V4)
      then le_split 8 (default 0 (v4_fields ver sap).1.1) ++ write_counted enc_spend_v4 (spends_of sap)
           ++ write_counted enc_output_v4 (outputs_of sap) else []) r3) as Ha5
      by (unfold v4_fields; cbn; destruct (bool_decide (ver = V4)); exact Ha3).
    clear Ha3. parse_use (v4_fields ver sap) Ha5; [|exact Hwf]. cbn [v4_fields].
    parse_use (set_sprout spr tr1) Ha4; [|by split]. exact Hend.
Qed.

#[export] Instance read_branch_Codec :
  Codec (raw_branch ← u32_le "consensus branch ID";
         lift_opt (UnknownBranchId raw_branch) (branch_try_from raw_branch))
    (fun _ => True) (fun b => le_split 4 (branch_to_u32 b)).
Proof using Type*.
  split.
  - intros r b r' Hr H. parse_step. destruct (branch_try_from a) as [b'|] eqn:E; [|done].
    apply branch_try_from_spec in E as <-. apply parser_ret_Ok in H as [<- <-]. done.
  - intros r b r' Hr _ Ha. pose proof (branch_to_u32_u32 b). parse_run.
    by rewrite (proj2 (branch_try_from_spec _ b)).
Qed.

(** The branch check, with the reading of the branch as one step. *)
Lemma read_v5_v6_branch self r :
  read_v5_v6 self r =
  (branch ← (raw_branch ← u32_le "consensus branch ID";
             lift_opt (UnknownBranchId raw_branch) (branch_try_from raw_branch));
   if negb (valid_in_branch (version self) branch)
   then fail (VersionNotValidInBranch (number (version self)) (branch_to_u32 branch))
   else read_v5_v6_body branch self) r.
Proof using Type*.
  rewrite <- parser_bind_assoc. unfold read_v5_v6, mbind, parser_bind.
  destruct (u32_le _ r) as [[raw r1]|]; [|done].
  destruct (branch_try_from raw) as [b|] eqn:E; [|done]. cbn.
  apply branch_try_from_spec in E as <-. done.
Qed.

Lemma read_v5_v6_Codec ver :
  Codec (read_v5_v6 (initial ver))
    (fun v => raw v = [] /\ version v = ver /\ v5_v6_ok v) enc_v5_v6.
Proof using Type*.
  split.
  - intros r v r' Hr H. rewrite read_v5_v6_branch in H. cbn [version initial] in H. parse_step.
    destruct (valid_in_branch ver a) eqn:Evb; [|done]. cbn [negb] in H. unfold read_v5_v6_body in H.
    do 5 parse_step. destruct Hw2 as [Ev Htr]. destruct a2; cbn in *. injection Ev; intros; subst.
    destruct (bool_decide (ver = V6)) eqn:Ever; parse_inv; unfold v5_v6_ok, enc_v5_v6;
      cbn -[valid_in_branch]; rewrite Ever; split; try adv_join;
      split_and!; try done; [exists a|exists a1|exists a|exists a1]; by split_and!.
  - intros r [rw ve br lt ex ins outs spr sap orc iro] r' Hr Hv Ha.
    unfold v5_v6_ok in Hv; cbn -[valid_in_branch] in Hv.
    destruct Hv as (-> & -> & (b & -> & Hb & Horc & Hiro) & Hlt & (e & -> & He) & Htr & Hsap & ->).
    unfold enc_v5_v6 in Ha; cbn in Ha. adv_split. rewrite read_v5_v6_branch. cbn [version initial].
    parse_use b Ha0; [|done]. rewrite Hb; cbn [negb]. unfold read_v5_v6_body.
    do 2 parse_run_step.
    set (tr := MkTransactionView [] ver (Some b) lt (Some e) ins outs None None None None).
    parse_use tr Ha3; [|by split]. do 2 parse_run_step. cbn [version set_sapling set_orchard tr].
    destruct (bool_decide (ver = V6)); [by parse_run|]. subst iro. by apply adv_nil_inv in Ha as ->.
Qed.
End Parts.

(** ** Whole transactions *)

Lemma set_raw_fields x v :
  raw (set_raw x v) = x /\ version (set_raw x v) = version v.
Proof. by destruct v. Qed.

Section Parse.
Context {ZP : ZcashProtocol} {ZPL : ZcashProtocolLaws}.

Lemma body_ok_set_raw x v : body_ok (set_raw x v) = body_ok v.
Proof using Type. by destruct v. Qed.

Lemma encode_set_raw x v : encode (set_raw x v) = encode v.
Proof using Type. by destruct v. Qed.

Lemma set_raw_raw v : set_raw (raw v) v = v.
Proof using Type. by destruct v. Qed.

Lemma body_Codec ver :
  Codec (if has_legacy_txid ver then read_v1_to_v4 (initial ver) else read_v5_v6 (initial ver))
    (fun v => raw v = [] /\ version v = ver /\ body_ok v)
    (fun v => if has_legacy_txid ver then enc_legacy v else enc_v5_v6 v).
Proof using Type*.
  pose proof (read_v1_to_v4_Codec ver). pose proof (read_v5_v6_Codec ver).
  destruct (has_legacy_txid ver) eqn:E; split; unfold body_ok.
  - intros r v r' Hr H1. destruct (codec_sound _ _ _ Hr H1) as [(Hv1 & Hv2 & Hv3) Ha].
    rewrite Hv2, E. done.
  - intros r v r' Hr (Hv1 & Hv2 & Hv3) Ha. rewrite Hv2, E in Hv3. by apply codec_complete.
  - intros r v r' Hr H1. destruct (codec_sound _ _ _ Hr H1) as [(Hv1 & Hv2 & Hv3) Ha].
    rewrite Hv2, E. done.
  - intros r v r' Hr (Hv1 & Hv2 & Hv3) Ha. rewrite Hv2, E in Hv3. by apply codec_complete.
Qed.

(** The first step of every input: a cursor at its start. *)
Lemma adv_start bs rest r' :
  adv (reader_new (bs ++ rest)) bs r' <-> r' = MkReader (bs ++ rest) (length bs).
Proof using Type.
  unfold adv, reader_new; cbn. destruct r' as [d p]. split.
  - intros (E1 & E2 & _). cbn in *. by subst.
  - intros [= -> ->]. split_and!; [done..|]. by exists [], rest.
Qed.

Lemma adv_start_inv input bs r' :
  adv (reader_new input) bs r' -> exists rest, input = bs ++ rest /\ pos r' = length bs.
Proof using Type.
  intros (_ & Hp & pre & post & E & Hl). cbn in *. destruct pre; [|done]. eauto.
Qed.

Lemma parse_prefix_sound input v rest :
  Z.of_nat (length input) <= usize_max -> parse_prefix input = Ok (v, rest) ->
  tx_ok v /\ input = raw v ++ rest.
Proof using Type*.
  intros Hlen H. unfold parse_prefix, read in H. apply res_bind_Ok in H as ([v0 r0] & Hread & [= <- <-]).
  assert (reader_ok (reader_new input)) as Hr by (split; cbn; [lia|done]).
  parse_step. pose proof (body_Codec a) as Hbody. unfold initial in Hbody. parse_step.
  destruct Hw0 as (Hraw & Hver & Hok).
  unfold position in Hread. cbn [mbind parser_bind] in Hread. apply parser_ret_Ok in Hread as [<- Er].
  match type of Er with ?x = _ => subst x end.
  assert (adv (reader_new input) (encode a0) r0) as Hadv.
  { unfold encode. rewrite Hver. adv_join. }
  apply adv_start_inv in Hadv as (tl & -> & Hp). rewrite Hp, take_app_length, drop_app_length.
  split; [|by destruct (set_raw_fields (encode a0) a0) as [-> _]].
  split; [by rewrite body_ok_set_raw|]. rewrite encode_set_raw. by destruct a0.
Qed.

Lemma parse_prefix_complete v rest :
  Z.of_nat (length (raw v ++ rest)) <= usize_max -> tx_ok v ->
  parse_prefix (raw v ++ rest) = Ok (v, rest).
Proof using Type*.
  intros Hlen [Hok Hraw]. unfold parse_prefix.
  enough (read (raw v ++ rest) (reader_new (raw v ++ rest))
    = Ok (v, MkReader (raw v ++ rest) (length (raw v)))) as -> by (cbn; by rewrite drop_app_length).
  unfold read. set (v0 := set_raw [] v). set (r' := MkReader (raw v ++ rest) (length (raw v))).
  assert (reader_ok (reader_new (raw v ++ rest))) as Hr by (split; cbn; [lia|done]).
  assert (adv (reader_new (raw v ++ rest)) (encode v0) r') as Ha.
  { unfold v0. rewrite encode_set_raw, <- Hraw. by apply adv_start. }
  unfold encode in Ha. adv_split. pose proof (body_Codec (version v)) as Hbody. unfold initial in Hbody.
  assert (version v0 = version v) as Ever by (by destruct v). rewrite Ever in *.
  parse_use (version v) Ha0; [|done]. parse_use v0 Ha.
  - rewrite (parser_bind_run position _ r' (length (raw v)) r') by done.
    rewrite take_app_length. unfold v0. by destruct v.
  - split_and!; [by destruct v|done|]. unfold v0. by rewrite body_ok_set_raw.
Qed.
End Parse.

(** ** What the parser accepts *)

Section Theorems.
Context {ZP : ZcashProtocol} {ZPL : ZcashProtocolLaws}.

(** C12: [TransactionView::parse_prefix] accepts an input exactly when it starts with
    the canonical encoding of a well-formed transaction of version 1 to 6, and then
    it returns that transaction, its encoding as [raw], and the bytes that follow it:
    parsing is the inverse of the encoder, for every version and every pool. *)
Theorem parse_prefix_iff input v rest :
  Z.of_nat (length input) <= usize_max ->
  parse_prefix input = Ok (v, rest) <-> tx_ok v /\ input = raw v ++ rest.
Proof using Type*.
  intros Hlen. split; [by apply parse_prefix_sound|].
  intros [Hok ->]. by apply parse_prefix_complete.
Qed.

(** [TransactionView::parse_exact] returns a transaction exactly when the whole
    input is its encoding; an input that continues after a transaction is rejected
    with the number of the bytes that remain. *)
Theorem parse_exact_iff input :
  Z.of_nat (length input) <= usize_max ->
  (forall v, parse_exact input = Ok v <-> tx_ok v /\ raw v = input) /\
  (forall v rest, tx_ok v -> input = raw v ++ rest -> rest <> [] ->
     parse_exact input = Err (TrailingBytes (Z.of_nat (length rest)))).
Proof using Type*.
  intros Hlen. unfold parse_exact. split.
  - intros v. split.
    + intros H. apply res_bind_Ok in H as ([v0 rest] & H & Hm).
      apply parse_prefix_sound in H as [Hok ->]; [|done]. destruct rest; [|done].
      injection Hm as <-. by rewrite app_nil_r.
    + intros [Hok <-]. pose proof (parse_prefix_complete v [] ltac:(by rewrite app_nil_r) Hok) as H.
      rewrite app_nil_r in H. by rewrite H.
  - intros v rest Hok -> Hne. rewrite (parse_prefix_complete v rest Hlen Hok). by destruct rest.
Qed.

(** No transaction encoding is a proper prefix of another: every truncation of
    an accepted transaction is rejected. *)
Theorem truncation_rejected v k :
  Z.of_nat (length (raw v)) <= usize_max -> tx_ok v -> (k < length (raw v))%nat ->
  exists e, parse_prefix (take k (raw v)) = Err e.
Proof using Type*.
  intros Hlen Hok Hk. destruct (parse_prefix (take k (raw v))) as [[v' rest]|e] eqn:E; [|eauto].
  apply parse_prefix_sound in E as [Hok' E]; [|rewrite length_take; lia].
  assert (raw v = raw v' ++ (rest ++ drop k (raw v))) as Ev
    by (by rewrite app_assoc, <- E, take_drop).
  pose proof (parse_prefix_complete v' (rest ++ drop k (raw v)) ltac:(by rewrite <- Ev) Hok') as H1.
  rewrite <- Ev in H1. pose proof (parse_prefix_complete v [] ltac:(by rewrite app_nil_r) Hok) as H2.
  rewrite app_nil_r, H1 in H2. injection H2 as _ H2. apply (f_equal length) in H2.
  rewrite length_app, length_drop in H2. cbn in H2. lia.
Qed.
End Theorems.

(** ** A transaction *)

(** A v5 transaction with a transparent input and output, a Sapling spend and output
    and an Orchard action. *)
Definition sample_fields : TransactionView :=
  MkTransactionView [] V5 (Some Nu5) 7 (Some 1687121)
    [MkTransparentInput (repeat Byte.x11 32) 1 [Byte.x51; Byte.x52] (2 ^ 32 - 1)]
    [MkTransparentOutput 5000 [Byte.x51]]
    None
    (Some (MkSaplingBundle
      [MkSaplingSpend (repeat Byte.x21 32) (repeat Byte.x22 32) (repeat Byte.x23 32)
         (repeat Byte.x24 32) (repeat Byte.x25 192) (repeat Byte.x26 64)]
      [MkSaplingOutput (repeat Byte.x31 32) (repeat Byte.x32 32) (repeat Byte.x33 32)
         (repeat Byte.x34 580) (repeat Byte.x35 80) (repeat Byte.x36 192)]
      (-250) (repeat Byte.x27 64)))
    (Some (MkActionBundle Orchard
      [MkAction (repeat Byte.x41 32) (repeat Byte.x42 32) (repeat Byte.x43 32) (repeat Byte.x44 32)
         (repeat Byte.x45 32) (repeat Byte.x46 580) (repeat Byte.x47 80) (repeat Byte.x48 64)]
      3 300 (repeat Byte.x49 32) [Byte.x4a] (repeat Byte.x4b 64)))
    None.

Definition sample_tx : TransactionView := set_raw (@encode sample_protocol sample_fields) sample_fields.

Lemma sample_tx_parses :
  @parse_prefix sample_protocol (raw sample_tx ++ [Byte.x01]) = Ok (sample_tx, [Byte.x01]).
Proof. vm_compute. reflexivity. Qed.

Lemma sample_tx_ok : @tx_ok sample_protocol sample_tx.
Proof.
  pose proof sample_protocol_laws as L. eapply (parse_prefix_sound _ _ _); [|exact sample_tx_parses].
  vm_compute. discriminate.
Qed.

Lemma parse_prefix_iff_witness :
  @tx_ok sample_protocol sample_tx /\ raw sample_tx ++ [Byte.x01] = raw sample_tx ++ [Byte.x01].
Proof.
  apply (proj1 (@parse_prefix_iff sample_protocol sample_protocol_laws
    (raw sample_tx ++ [Byte.x01]) sample_tx [Byte.x01] ltac:(vm_compute; discriminate))).
  vm_compute. reflexivity.
Defined.

Lemma parse_exact_iff_witness :
  @parse_exact sample_protocol (raw sample_tx) = Ok sample_tx /\
  @parse_exact sample_protocol (raw sample_tx ++ [Byte.x01]) = Err (TrailingBytes 1).
Proof.
  split.
  - apply (proj1 (@parse_exact_iff sample_protocol sample_protocol_laws
      (raw sample_tx) ltac:(vm_compute; discriminate)) sample_tx).
    split; [exact sample_tx_ok|reflexivity].
  - apply (proj2 (@parse_exact_iff sample_protocol sample_protocol_laws
      (raw sample_tx ++ [Byte.x01]) ltac:(vm_compute; discriminate)) sample_tx [Byte.x01]).
    + exact sample_tx_ok.
    + reflexivity.
    + discriminate.
Defined.

Lemma truncation_rejected_witness :
  exists e, @parse_prefix sample_protocol (take 100 (raw sample_tx)) = Err e.
Proof.
  apply (@truncation_rejected sample_protocol sample_protocol_laws sample_tx 100).
  - vm_compute. discriminate.
  - exact sample_tx_ok.
  - apply Nat.ltb_lt. vm_compute. reflexivity.
Defined.
