(* ===== verification/TransactionErrors.v ===== *)
(** * Errors of the transaction reader

    Which errors the reading functions of [Transaction] can return, and when the
    Sprout value balance of a parsed transaction is defined. *)

From S2P Require Import Prelude WireReader Transaction TransactionCodec TransactionParse.

(** ** The errors of a reading function *)

(** [errs p E]: every error of [p] satisfies [E]. *)
Definition errs {A} (p : parser A) (E : DecodeError -> Prop) : Prop :=
  forall r e, p r = Err e -> E e.

Section Errs.
Context (E : DecodeError -> Prop).

Lemma errs_ret {A} (a : A) : errs (mret a) E.
Proof. intros r e H. discriminate H. Qed.

Lemma errs_fail {A} e : E e -> errs (fail e : parser A) E.
Proof. intros He r e' [= <-]. done. Qed.

Lemma errs_bind {A B} (p : parser A) (k : A -> parser B) :
  errs p E -> (forall a, errs (k a) E) -> errs (p ≫= k) E.
Proof.
  intros Hp Hk r e. unfold mbind, parser_bind. destruct (p r) as [[a r1]|e1] eqn:Ep.
  - apply Hk.
  - intros [= <-]. by eapply Hp.
Qed.

Lemma errs_bind_post {A B} (p : parser A) (Q : A -> Prop) (k : A -> parser B) :
  errs p E -> (forall r a r1, p r = Ok (a, r1) -> Q a) -> (forall a, Q a -> errs (k a) E) ->
  errs (p ≫= k) E.
Proof.
  intros Hp HQ Hk r e. unfold mbind, parser_bind. destruct (p r) as [[a r1]|e1] eqn:Ep.
  - by eapply Hk, HQ.
  - intros [= <-]. by eapply Hp.
Qed.

Lemma errs_if {A} (b : bool) (p q : parser A) :
  (b = true -> errs p E) -> (b = false -> errs q E) -> errs (if b then p else q) E.
Proof. destruct b; auto. Qed.

Lemma errs_lift_opt {A} e (o : option A) : E e -> errs (lift_opt e o) E.
Proof. intros He. destruct o; [apply errs_ret|by apply errs_fail]. Qed.

Lemma errs_lift_some {A} e (o : option A) : is_Some o -> errs (lift_opt e o) E.
Proof. intros [a ->]. apply errs_ret. Qed.

Lemma errs_position : errs position E.
Proof. intros r e H. discriminate H. Qed.

Lemma errs_elements {A} n (p : parser A) : errs p E -> errs (elements n p) E.
Proof.
  intros Hp. unfold elements. induction (Z.to_nat n) as [|k IH]; cbn; [apply errs_ret|].
  apply errs_bind; [done|]. intros a. apply errs_bind; [done|]. intros l. apply errs_ret.
Qed.

Lemma errs_read_each {A B} (f : parser B) (set : A -> B -> A) l :
  errs f E -> errs (read_each f set l) E.
Proof.
  intros Hf. induction l as [|a l IH]; cbn; [apply errs_ret|].
  apply errs_bind; [done|]. intros b. apply errs_bind; [done|]. intros k. apply errs_ret.
Qed.
End Errs.

(** Errors that do not depend on the activation of a pool. *)
Definition not_pool_error (e : DecodeError) : Prop := forall pool, e <> PoolNotActive pool.

Lemma errs_take n field : errs (take_bytes n field) not_pool_error.
Proof. intros r e. unfold take_bytes. destruct (_ <? _); [|done]. by intros [= <-]. Qed.

Lemma errs_check_count `{!ZcashProtocol} field n m : errs (check_count field n m) not_pool_error.
Proof.
  intros r e. unfold check_count. destruct (checked _); [|by intros [= <-]].
  destruct (_ <=? _); [done|by intros [= <-]].
Qed.

#[export] Hint Resolve errs_ret errs_take errs_check_count errs_elements errs_read_each
  errs_position : wallet.

Ltac solve_errs :=
  repeat (intros; match goal with
  | |- errs (_ ≫= _) _ => apply errs_bind
  | |- errs (if _ then _ else _) _ => apply errs_if
  | |- errs (match ?x with _ => _ end) _ => destruct x
  | |- errs (fail _) _ => by apply errs_fail
  | |- errs (lift_opt _ _) _ => by apply errs_lift_opt
  | |- errs (elements _ _) _ => apply errs_elements
  | |- errs (read_each _ _ _) _ => apply errs_read_each
  | |- errs _ _ => solve [auto with wallet]
  end).

Section PoolErrors.
Context {ZP : ZcashProtocol} {REV : OrchardRevisions}.

Lemma errs_compact_size field : errs (compact_size field) not_pool_error.
Proof using Type. unfold compact_size, compact_size_wide, read_u8, array. solve_errs. Qed.

Lemma errs_read_count field m : errs (read_count field m) not_pool_error.
Proof using Type. unfold read_count. solve_errs. apply errs_compact_size. Qed.

Lemma errs_var_bytes field : errs (var_bytes field) not_pool_error.
Proof using Type. unfold var_bytes. solve_errs. apply errs_compact_size. Qed.
End PoolErrors.
#[export] Hint Resolve errs_compact_size errs_read_count errs_var_bytes : wallet.

Section PoolErrorsOfParts.
Context {ZP : ZcashProtocol} {REV : OrchardRevisions}.

Lemma errs_read_version : errs read_version not_pool_error.
Proof using Type. unfold read_version, u32_le, array. solve_errs. Qed.

Lemma errs_read_balance field : errs (read_balance field) not_pool_error.
Proof using Type. unfold read_balance, le_bytes8, array. solve_errs. Qed.

Lemma errs_read_transparent self : errs (read_transparent self) not_pool_error.
Proof using Type.
  unfold read_transparent, read_tx_in, read_tx_out, u32_le, le_bytes8, array. solve_errs.
Qed.

Lemma errs_read_output o : errs (read_output o) not_pool_error.
Proof using Type. unfold read_output, array. solve_errs. Qed.

Lemma errs_read_sapling_v5 : errs read_sapling_v5 not_pool_error.
Proof using Type.
  unfold read_sapling_v5, read_spend_v5, array. solve_errs;
    auto using errs_read_output, errs_read_balance.
Qed.

Lemma errs_read_v1_to_v4 self : errs (read_v1_to_v4 self) not_pool_error.
Proof using Type.
  unfold read_v1_to_v4, read_sapling_v4, read_sprout, attach_sapling_v4, read_spend_v4,
    read_joinsplit, read_vpub, u32_le, le_bytes8, array.
  solve_errs; auto using errs_read_output, errs_read_balance, errs_read_transparent.
Qed.

Lemma read_transparent_version self r v r' :
  read_transparent self r = Ok (v, r') -> version v = version self.
Proof using Type.
  unfold read_transparent. intros H.
  repeat (apply parser_bind_Ok in H as (? & ? & _ & H)). apply parser_ret_Ok in H as [<- _].
  by destruct self.
Qed.

(** An action bundle of a pool that is active under the branch. *)
Lemma errs_read_action_bundle branch pool :
  is_Some (enforce_proof_size pool (orchard_protocol_revision branch)) ->
  errs (read_action_bundle branch pool) not_pool_error.
Proof using Type.
  intros Hp. unfold read_action_bundle, read_action, check_proof_len, read_u8, array.
  apply errs_bind; [auto with wallet|]. intros n. apply errs_if; [solve_errs|]. intros _.
  apply errs_bind; [solve_errs|]. intros l. apply errs_bind; [by apply errs_lift_some|].
  solve_errs; auto using errs_read_balance.
Qed.

Lemma orchard_active ver branch :
  has_legacy_txid ver = false -> valid_in_branch ver branch = true ->
  is_Some (enforce_proof_size Orchard (orchard_protocol_revision branch)).
Proof using REV.
  intros Hv Hb. assert (is_Some (orchard_protocol_revision branch)) as [rev ->].
  { apply orchard_from_nu5. destruct ver, branch; try done; set_solver. }
  destruct rev; cbn; eauto.
Qed.

Lemma ironwood_active branch :
  valid_in_branch V6 branch = true ->
  is_Some (enforce_proof_size Ironwood (orchard_protocol_revision branch)).
Proof using REV.
  intros Hb. rewrite ironwood_from_nu6_3; [cbn; eauto|]. destruct branch; try done; set_solver.
Qed.

Lemma errs_read_v5_v6 self :
  has_legacy_txid (version self) = false -> errs (read_v5_v6 self) not_pool_error.
Proof using REV.
  intros Hv. unfold read_v5_v6, read_v5_v6_body, u32_le, array.
  apply errs_bind; [solve_errs|]. intros raw_branch. apply errs_bind; [solve_errs|]. intros branch.
  apply errs_if; [solve_errs|]. intros Hb%negb_false_iff. cbn zeta.
  do 2 (apply errs_bind; [solve_errs|intros ?]).
  eapply (errs_bind_post _ _ (fun v => version v = version self));
    [apply errs_read_transparent|intros r v r' ->%read_transparent_version; by destruct self|]. intros v Hver.
  apply errs_bind; [apply errs_read_sapling_v5|]. intros sap.
  apply errs_bind; [by apply errs_read_action_bundle, (orchard_active (version self))|]. intros orc.
  apply errs_if; [|solve_errs]. intros Hv6%bool_decide_eq_true. apply errs_bind; [|solve_errs].
  apply errs_read_action_bundle, ironwood_active.
  rewrite <- Hb. f_equal. rewrite <- Hver. symmetry. by destruct v.
Qed.

Lemma errs_read input : errs (read input) not_pool_error.
Proof using REV.
  unfold read. apply errs_bind; [apply errs_read_version|]. intros ver. cbn zeta.
  apply errs_bind; [|solve_errs].
  apply errs_if; intros Hv; [apply errs_read_v1_to_v4|by apply errs_read_v5_v6].
Qed.

(** [PoolNotActive] is unreachable, as the README says: version 5 requires a branch
    from NU5 on and version 6 one from NU6.3 on, so no input makes the parser report
    an inactive pool. *)
Theorem pool_not_active_unreachable input pool :
  parse_prefix input <> Err (PoolNotActive pool) /\ parse_exact input <> Err (PoolNotActive pool).
Proof using REV.
  assert (parse_prefix input <> Err (PoolNotActive pool)) as Hp.
  { unfold parse_prefix. intros [H|(x & _ & H)]%res_bind_Err.
    - by eapply errs_read.
    - by destruct x. }
  split; [done|]. unfold parse_exact. intros [H|(x & _ & H)]%res_bind_Err; [done|].
  destruct x as [v rest]. by destruct rest.
Qed.
End PoolErrorsOfParts.

Lemma pool_not_active_unreachable_witness :
  @parse_prefix sample_protocol (raw sample_tx) <> Err (PoolNotActive "Orchard") /\
  @parse_exact sample_protocol (raw sample_tx) <> Err (PoolNotActive "Orchard").
Proof.
  exact (@pool_not_active_unreachable sample_protocol sample_protocol_revisions (raw sample_tx) "Orchard").
Defined.

(** ** The Sprout value balance *)

Definition sum_Z (l : list Z) : Z := foldr Z.add 0 l.

(** What a JoinSplit moves into the transparent pool. *)
Definition js_net (j : JoinSplit) : Z := vpub_new j - vpub_old j.

Definition sprout_nets (v : TransactionView) : list Z :=
  match sprout v with Some b => js_net <$> joinsplits b | None => [] end.

Section SproutBalance.
Context {ZP : ZcashProtocol} {ZPL : ZcashProtocolLaws}.

Lemma fold_balance_none l :
  foldl (fun acc js => total ← acc; net ← zat_balance_sub (vpub_new js) (vpub_old js);
                       zat_balance_add total net) None l = None.
Proof using Type. by induction l. Qed.

Lemma fold_balance l total b :
  Forall (fun j => balance_ok (js_net j)) l ->
  foldl (fun acc js => total ← acc; net ← zat_balance_sub (vpub_new js) (vpub_old js);
                       zat_balance_add total net) (Some total) l = Some b <->
  b = total + sum_Z (js_net <$> l) /\
  forall k, (0 < k <= length l)%nat -> balance_ok (total + sum_Z (take k (js_net <$> l))).
Proof using ZPL.
  intros Hl. revert total. induction Hl as [|j l Hj Hl IH]; intros total; cbn [foldl].
  - cbn. split; [intros [= ->]|intros [-> _]; f_equal; lia]. split; [lia|]. intros k Hk. lia.
  - cbn [mbind option_bind].
    rewrite (proj2 (zat_balance_sub_spec _ _ (js_net j)) (conj eq_refl Hj)). cbn [mbind option_bind].
    destruct (zat_balance_add total (js_net j)) as [t|] eqn:E.
    + apply zat_balance_add_spec in E as [-> Ht]. rewrite IH. unfold sum_Z. cbn -[Z.add]. split.
      * intros [-> Hk]. split; [lia|]. intros [|[|k]] Hk'; [lia|cbn; by rewrite Z.add_0_r|].
        cbn. rewrite Z.add_assoc. apply Hk. lia.
      * intros [-> Hk]. split; [lia|]. intros k Hk'. rewrite <- Z.add_assoc. apply (Hk (S k)). lia.
    + rewrite fold_balance_none. split; [done|]. intros [_ Hk]. exfalso.
      specialize (Hk 1%nat ltac:(cbn; lia)). cbn in Hk. rewrite Z.add_0_r in Hk.
      pose proof (proj2 (zat_balance_add_spec total (js_net j) _) (conj eq_refl Hk)). congruence.
Qed.

Lemma tx_ok_nets v b : tx_ok v -> sprout v = Some b -> Forall (fun j => balance_ok (js_net j)) (joinsplits b).
Proof using Type.
  intros [Hok _] Hb. unfold body_ok in Hok. destruct (has_legacy_txid _).
  - destruct Hok as (_ & _ & _ & _ & Hs & _). rewrite Hb in Hs. destruct Hs as (_ & _ & [_ Hs] & _).
    eapply Forall_impl; [exact Hs|]. intros j (Ho & Hn & _). unfold amount_ok, balance_ok, js_net in *. lia.
  - destruct Hok as (_ & _ & _ & _ & _ & Hs). congruence.
Qed.

(** For a well-formed transaction, [TransactionView::sprout_value_balance] is the sum
    of [vpub_new - vpub_old] over its JoinSplits, and it is [None] exactly when a
    partial sum leaves [-MAX_MONEY..=MAX_MONEY]. *)
Theorem sprout_value_balance_iff v b :
  tx_ok v ->
  sprout_value_balance v = Some b <->
  b = sum_Z (sprout_nets v) /\
  forall k, (k <= length (sprout_nets v))%nat -> balance_ok (sum_Z (take k (sprout_nets v))).
Proof using ZPL.
  intros Hok. pose proof max_money_bounds. unfold sprout_value_balance, sprout_nets.
  destruct (sprout v) as [sb|] eqn:E.
  - rewrite fold_balance by (by eapply tx_ok_nets). rewrite length_fmap. cbn.
    split; intros [-> Hk]; (split; [done|]).
    + intros [|k] Hk'; [rewrite take_0; unfold balance_ok; cbn; lia|]. apply (Hk (S k)). lia.
    + intros k Hk'. apply Hk. lia.
  - cbn. split; [intros [= <-]|by intros [-> _]]. split; [done|]. intros k _. destruct k; cbn; unfold balance_ok; lia.
Qed.
End SproutBalance.

(** A v2 transaction with two JoinSplits. *)
Definition sample_joinsplit (vo vn : Z) : JoinSplit :=
  let z32 := ZERO_32 in let c := repeat Byte.x07 601 in
  MkJoinSplit vo vn z32 (z32, z32) (z32, z32) z32 z32 (z32, z32) (repeat Byte.x08 296) (c, c).
Definition sprout_fields : TransactionView :=
  MkTransactionView [] V2 None 0 None [] []
    (Some (MkSproutBundle [sample_joinsplit 100 0; sample_joinsplit 0 350] ZERO_32 ZERO_64)) None None None.
Definition sprout_tx : TransactionView := set_raw (@encode sample_protocol sprout_fields) sprout_fields.

Lemma sprout_tx_ok : @tx_ok sample_protocol sprout_tx.
Proof.
  pose proof sample_protocol_laws as L.
  eapply (parse_prefix_sound (raw sprout_tx) sprout_tx []); [|vm_compute; reflexivity].
  vm_compute. discriminate.
Qed.

Lemma sprout_value_balance_iff_witness :
  250 = sum_Z (sprout_nets sprout_tx) /\
  forall k, (k <= length (sprout_nets sprout_tx))%nat ->
    @balance_ok sample_protocol (sum_Z (take k (sprout_nets sprout_tx))).
Proof.
  apply (proj1 (@sprout_value_balance_iff sample_protocol sample_protocol_laws sprout_tx 250 sprout_tx_ok)).
  vm_compute. reflexivity.
Defined.
