(* ===== verification/TxId.v ===== *)
(** * Transaction identifiers

    [zakura/transaction-wire/src/txid.rs]: SHA-256d for versions 1 to 4 and the ZIP
    244 / ZIP 229 digest tree for versions 5 and 6.  The hash functions are
    parameters. *)

From S2P Require Import Prelude WireReader Transaction TransactionCodec TransactionParse.

(** ** Hashing *)

(** The [sha2] and [blake2b_simd] crates: SHA-256, and BLAKE2b with a 32-byte output
    and a personalization. *)
Class TxHashes : Type := {
  sha256 : list byte -> list byte;
  blake2b_256 : list byte -> list byte -> list byte
}.

Class TxHashesLaws `{!TxHashes} : Prop := {
  sha256_length : forall m, length (sha256 m) = 32%nat;
  blake2b_256_length : forall p m, length (blake2b_256 p m) = 32%nat
}.

(** [blake2b_simd::State]: the personalization and the bytes fed so far. *)
Record State : Type := MkState { personal : list byte; fed : list byte }.

(** [hasher] *)
Definition hasher (p : list byte) : State := MkState p [].

Definition update (h : State) (bs : list byte) : State := MkState (personal h) (fed h ++ bs).

Definition finalize `{!TxHashes} (h : State) : list byte := blake2b_256 (personal h) (fed h).

(** [empty] *)
Definition empty_hash `{!TxHashes} (p : list byte) : list byte := finalize (hasher p).

(** [for x in xs { h.update(f(x)); }] *)
Definition update_each {A} (f : A -> list byte) (h : State) (l : list A) : State :=
  foldl (fun h a => update h (f a)) h l.

Definition ascii_bytes (s : string) : list byte := String.list_byte_of_string s.

Definition TX_PERSONALIZATION_PREFIX := ascii_bytes "ZcashTxHash_".
Definition HEADERS := ascii_bytes "ZTxIdHeadersHash".
Definition TRANSPARENT := ascii_bytes "ZTxIdTranspaHash".
Definition PREVOUTS := ascii_bytes "ZTxIdPrevoutHash".
Definition SEQUENCE := ascii_bytes "ZTxIdSequencHash".
Definition OUTPUTS := ascii_bytes "ZTxIdOutputsHash".
Definition SAPLING := ascii_bytes "ZTxIdSaplingHash".
Definition SAPLING_SPENDS := ascii_bytes "ZTxIdSSpendsHash".
Definition SAPLING_SPENDS_COMPACT := ascii_bytes "ZTxIdSSpendCHash".
Definition SAPLING_SPENDS_NONCOMPACT_V5 := ascii_bytes "ZTxIdSSpendNHash".
Definition SAPLING_SPENDS_NONCOMPACT_V6 := ascii_bytes "ZTxIdSSpendNH_v6".
Definition SAPLING_OUTPUTS := ascii_bytes "ZTxIdSOutputHash".
Definition SAPLING_OUTPUTS_COMPACT := ascii_bytes "ZTxIdSOutC__Hash".
Definition SAPLING_OUTPUTS_MEMOS := ascii_bytes "ZTxIdSOutM__Hash".
Definition SAPLING_OUTPUTS_NONCOMPACT := ascii_bytes "ZTxIdSOutN__Hash".

Record ActionDomain : Type := MkActionDomain {
  dom_pool : ActionPool; dom_bundle : list byte; dom_compact : list byte; dom_memos : list byte;
  dom_noncompact : list byte; includes_anchor : bool }.

Definition ORCHARD_V5 : ActionDomain := MkActionDomain Orchard
  (ascii_bytes "ZTxIdOrchardHash") (ascii_bytes "ZTxIdOrcActCHash")
  (ascii_bytes "ZTxIdOrcActMHash") (ascii_bytes "ZTxIdOrcActNHash") true.
Definition ORCHARD_V6 : ActionDomain := MkActionDomain Orchard
  (ascii_bytes "ZTxIdOrchardH_v6") (ascii_bytes "ZTxIdOrcActCHash")
  (ascii_bytes "ZTxIdOrcActMHash") (ascii_bytes "ZTxIdOrcActNHash") false.
Definition IRONWOOD_V6 : ActionDomain := MkActionDomain Ironwood
  (ascii_bytes "ZTxIdIronwd_H_v6") (ascii_bytes "ZTxIdIrnActCH_v6")
  (ascii_bytes "ZTxIdIrnActMH_v6") (ascii_bytes "ZTxIdIrnActNH_v6") false.

Section TxId.
Context {ZP : ZcashProtocol} {TH : TxHashes}.

(** [header_digest] *)
Definition header_digest (tx : TransactionView) (branch : Z) : exec (list byte) :=
  let h := update (hasher HEADERS) (le_split 4 (header (version tx))) in
  group ← expect (version_group_id (version tx));
  let h := update h (le_split 4 group) in
  let h := update h (le_split 4 branch) in
  let h := update h (le_split 4 (lock_time tx)) in
  let h := update h (le_split 4 (default 0 (expiry_height tx))) in
  Ok (finalize h).

(** [transparent_digest]; [outputs] also takes the length of the script. *)
Definition transparent_digest (tx : TransactionView) : list byte :=
  let h := hasher TRANSPARENT in
  let h :=
    if negb (bool_decide (transparent_inputs tx = []) && bool_decide (transparent_outputs tx = [])) then
      let prevouts := update_each (fun i => prevout_txid i ++ le_split 4 (prevout_index i))
                        (hasher PREVOUTS) (transparent_inputs tx) in
      let seq := update_each (fun i => le_split 4 (in_sequence i)) (hasher SEQUENCE) (transparent_inputs tx) in
      let outputs := update_each (fun o => le_split 8 (out_value o)
                         ++ write_compact_size (Z.of_nat (length (script_pubkey o))) ++ script_pubkey o)
                       (hasher OUTPUTS) (transparent_outputs tx) in
      update (update (update h (finalize prevouts)) (finalize seq)) (finalize outputs)
    else h in
  finalize h.

(** [sapling_digest] *)
Definition sapling_digest (b : SaplingBundle) (v6 : bool) : list byte :=
  let spends := hasher SAPLING_SPENDS in
  let spends :=
    if negb (bool_decide (sb_spends b = [])) then
      let compact := update_each sp_nullifier (hasher SAPLING_SPENDS_COMPACT) (sb_spends b) in
      let noncompact := update_each (fun s => sp_cv s ++ (if v6 then [] else sp_anchor s) ++ sp_rk s)
            (hasher (if v6 then SAPLING_SPENDS_NONCOMPACT_V6 else SAPLING_SPENDS_NONCOMPACT_V5))
            (sb_spends b) in
      update (update spends (finalize compact)) (finalize noncompact)
    else spends in
  let outputs := hasher SAPLING_OUTPUTS in
  let outputs :=
    if negb (bool_decide (sb_outputs b = [])) then
      let compact := update_each (fun o => so_cmu o ++ so_ephemeral_key o ++ take 52 (so_enc_ciphertext o))
                       (hasher SAPLING_OUTPUTS_COMPACT) (sb_outputs b) in
      let memos := update_each (fun o => take 512 (drop 52 (so_enc_ciphertext o)))
                     (hasher SAPLING_OUTPUTS_MEMOS) (sb_outputs b) in
      let noncompact := update_each (fun o => so_cv o ++ drop 564 (so_enc_ciphertext o) ++ so_out_ciphertext o)
                          (hasher SAPLING_OUTPUTS_NONCOMPACT) (sb_outputs b) in
      update (update (update outputs (finalize compact)) (finalize memos)) (finalize noncompact)
    else outputs in
  let h := hasher SAPLING in
  let h := update h (finalize spends) in
  let h := update h (finalize outputs) in
  let h := update h (le_split 8 (sb_value_balance b)) in
  finalize h.

(** [action_digest], with its [debug_assert_eq!]. *)
Definition action_digest (bundle : option ActionBundle) (domain : ActionDomain) : exec (list byte) :=
  match bundle with
  | None => Ok (empty_hash (dom_bundle domain))
  | Some b =>
      assert_that (bool_decide (ab_pool b = dom_pool domain));;
      let compact := update_each (fun a => ac_nullifier a ++ ac_cmx a ++ ac_ephemeral_key a
                         ++ take 52 (ac_enc_ciphertext a)) (hasher (dom_compact domain)) (ab_actions b) in
      let memos := update_each (fun a => take 512 (drop 52 (ac_enc_ciphertext a)))
                     (hasher (dom_memos domain)) (ab_actions b) in
      let noncompact := update_each (fun a => ac_cv a ++ ac_rk a ++ drop 564 (ac_enc_ciphertext a)
                            ++ ac_out_ciphertext a) (hasher (dom_noncompact domain)) (ab_actions b) in
      let h := hasher (dom_bundle domain) in
      let h := update h (finalize compact) in
      let h := update h (finalize memos) in
      let h := update h (finalize noncompact) in
      let h := update h (le_split 1 (ab_flags b)) in
      let h := update h (le_split 8 (ab_value_balance b)) in
      let h := if includes_anchor domain then update h (ab_anchor b) else h in
      Ok (finalize h)
  end.

(** [<[u8; 32]>::try_from(bytes).expect("32-byte hash")] *)
Definition as_hash32 (bs : list byte) : exec (list byte) :=
  if bool_decide (length bs = 32%nat) then Ok bs else Err ExpectFailed.

(** [txid] *)
Definition txid (tx : TransactionView) : exec (list byte) :=
  if version_rank (version tx) <=? version_rank V4 then Ok (sha256 (sha256 (raw tx)))
  else
    b ← expect (branch_id tx);
    let branch := branch_to_u32 b in
    let v6 := bool_decide (version tx = V6) in
    let h := hasher (TX_PERSONALIZATION_PREFIX ++ le_split 4 branch) in
    hd ← header_digest tx branch;
    let h := update h hd in
    let h := update h (transparent_digest tx) in
    let h := update h (match sapling tx with
                       | None => empty_hash SAPLING
                       | Some b => sapling_digest b v6
                       end) in
    od ← action_digest (orchard tx) (if v6 then ORCHARD_V6 else ORCHARD_V5);
    let h := update h od in
    h ← (if v6 then id ← action_digest (ironwood tx) IRONWOOD_V6; Ok (update h id) else Ok h);
    as_hash32 (finalize h).
End TxId.

(** ** The digest tree as hashed messages *)

(** What BLAKE2b is applied to: a personalization and a message. *)
Definition query : Type := list byte * list byte.

Definition q_hash `{!TxHashes} (q : query) : list byte := blake2b_256 q.1 q.2.

Lemma update_each_spec {A} (f : A -> list byte) p l :
  update_each f (hasher p) l = MkState p (write_all f l).
Proof.
  unfold update_each, hasher.
  enough (forall acc, foldl (fun h a => update h (f a)) (MkState p acc) l = MkState p (acc ++ write_all f l))
    as H by apply H.
  induction l as [|a l IH]; intros acc; unfold write_all in *; cbn; [by rewrite app_nil_r|].
  unfold update at 2; cbn. by rewrite IH, <- app_assoc.
Qed.

Section Queries.
Context {ZP : ZcashProtocol} {TH : TxHashes}.

Definition header_q (tx : TransactionView) (b : BranchId) : query :=
  (HEADERS, le_split 4 (header (version tx)) ++ le_split 4 (default 0 (version_group_id (version tx)))
    ++ le_split 4 (branch_to_u32 b) ++ le_split 4 (lock_time tx)
    ++ le_split 4 (default 0 (expiry_height tx))).

Definition prevouts_q (tx : TransactionView) : query :=
  (PREVOUTS, write_all (fun i => prevout_txid i ++ le_split 4 (prevout_index i)) (transparent_inputs tx)).
Definition sequence_q (tx : TransactionView) : query :=
  (SEQUENCE, write_all (fun i => le_split 4 (in_sequence i)) (transparent_inputs tx)).
Definition outputs_q (tx : TransactionView) : query :=
  (OUTPUTS, write_all enc_tx_out (transparent_outputs tx)).
Definition transparent_q (tx : TransactionView) : query :=
  (TRANSPARENT,
   if negb (bool_decide (transparent_inputs tx = []) && bool_decide (transparent_outputs tx = []))
   then q_hash (prevouts_q tx) ++ q_hash (sequence_q tx) ++ q_hash (outputs_q tx) else []).

Definition spends_compact_q (b : SaplingBundle) : query :=
  (SAPLING_SPENDS_COMPACT, write_all sp_nullifier (sb_spends b)).
Definition spends_noncompact_q (v6 : bool) (b : SaplingBundle) : query :=
  (if v6 then SAPLING_SPENDS_NONCOMPACT_V6 else SAPLING_SPENDS_NONCOMPACT_V5,
   write_all (fun s => sp_cv s ++ (if v6 then [] else sp_anchor s) ++ sp_rk s) (sb_spends b)).
Definition spends_q (v6 : bool) (b : SaplingBundle) : query :=
  (SAPLING_SPENDS, if negb (bool_decide (sb_spends b = []))
    then q_hash (spends_compact_q b) ++ q_hash (spends_noncompact_q v6 b) else []).
Definition soutputs_compact_q (b : SaplingBundle) : query :=
  (SAPLING_OUTPUTS_COMPACT,
   write_all (fun o => so_cmu o ++ so_ephemeral_key o ++ take 52 (so_enc_ciphertext o)) (sb_outputs b)).
Definition soutputs_memos_q (b : SaplingBundle) : query :=
  (SAPLING_OUTPUTS_MEMOS, write_all (fun o => take 512 (drop 52 (so_enc_ciphertext o))) (sb_outputs b)).
Definition soutputs_noncompact_q (b : SaplingBundle) : query :=
  (SAPLING_OUTPUTS_NONCOMPACT,
   write_all (fun o => so_cv o ++ drop 564 (so_enc_ciphertext o) ++ so_out_ciphertext o) (sb_outputs b)).
Definition soutputs_q (b : SaplingBundle) : query :=
  (SAPLING_OUTPUTS, if negb (bool_decide (sb_outputs b = []))
    then q_hash (soutputs_compact_q b) ++ q_hash (soutputs_memos_q b) ++ q_hash (soutputs_noncompact_q b)
    else []).
Definition sapling_q (v6 : bool) (o : option SaplingBundle) : query :=
  (SAPLING, match o with
            | None => []
            | Some b => q_hash (spends_q v6 b) ++ q_hash (soutputs_q b) ++ le_split 8 (sb_value_balance b)
            end).

Definition actions_compact_q (d : ActionDomain) (b : ActionBundle) : query :=
  (dom_compact d, write_all (fun a => ac_nullifier a ++ ac_cmx a ++ ac_ephemeral_key a
                    ++ take 52 (ac_enc_ciphertext a)) (ab_actions b)).
Definition actions_memos_q (d : ActionDomain) (b : ActionBundle) : query :=
  (dom_memos d, write_all (fun a => take 512 (drop 52 (ac_enc_ciphertext a))) (ab_actions b)).
Definition actions_noncompact_q (d : ActionDomain) (b : ActionBundle) : query :=
  (dom_noncompact d, write_all (fun a => ac_cv a ++ ac_rk a ++ drop 564 (ac_enc_ciphertext a)
                       ++ ac_out_ciphertext a) (ab_actions b)).
Definition action_q (d : ActionDomain) (o : option ActionBundle) : query :=
  (dom_bundle d, match o with
                 | None => []
                 | Some b => q_hash (actions_compact_q d b) ++ q_hash (actions_memos_q d b)
                     ++ q_hash (actions_noncompact_q d b) ++ le_split 1 (ab_flags b)
                     ++ le_split 8 (ab_value_balance b) ++ (if includes_anchor d then ab_anchor b else [])
                 end).

Definition orchard_domain (v6 : bool) : ActionDomain := if v6 then ORCHARD_V6 else ORCHARD_V5.

Definition root_q (tx : TransactionView) (b : BranchId) : query :=
  let v6 := bool_decide (version tx = V6) in
  (TX_PERSONALIZATION_PREFIX ++ le_split 4 (branch_to_u32 b),
   q_hash (header_q tx b) ++ q_hash (transparent_q tx) ++ q_hash (sapling_q v6 (sapling tx))
   ++ q_hash (action_q (orchard_domain v6) (orchard tx))
   ++ (if v6 then q_hash (action_q IRONWOOD_V6 (ironwood tx)) else [])).

(** The digests are the hashes of those messages. *)
Lemma transparent_digest_eq tx : transparent_digest tx = q_hash (transparent_q tx).
Proof using Type.
  unfold transparent_digest, transparent_q, q_hash. destruct (negb _); [|done].
  rewrite !update_each_spec. unfold finalize, update; cbn. by rewrite <- !app_assoc.
Qed.

Lemma sapling_digest_eq b v6 : sapling_digest b v6 = q_hash (sapling_q v6 (Some b)).
Proof using Type.
  unfold sapling_digest, sapling_q, spends_q, soutputs_q, q_hash. rewrite !update_each_spec.
  unfold finalize, update; cbn. destruct (negb (bool_decide (sb_spends b = []))),
    (negb (bool_decide (sb_outputs b = []))); cbn; by rewrite <- !app_assoc.
Qed.

Lemma action_digest_eq o d :
  (forall b, o = Some b -> ab_pool b = dom_pool d) -> action_digest o d = Ok (q_hash (action_q d o)).
Proof using Type.
  intros Hp. destruct o as [b|]; [|done]. unfold action_digest.
  rewrite (bool_decide_true _ (Hp b eq_refl)). cbn [assert_that mbind res_bind].
  rewrite !update_each_spec. unfold action_q, q_hash, finalize, update; cbn.
  destruct (includes_anchor d); cbn; by rewrite <- ?app_assoc, ?app_nil_r.
Qed.

Lemma header_digest_eq tx b :
  has_legacy_txid (version tx) = false ->
  header_digest tx (branch_to_u32 b) = Ok (q_hash (header_q tx b)).
Proof using Type.
  intros Hv. unfold header_digest, header_q, q_hash. destruct (version tx); try done; cbn;
    unfold finalize, update; cbn; by rewrite <- !app_assoc.
Qed.

(** The bundles of a transaction belong to their pools. *)
Definition pools_ok (tx : TransactionView) : Prop :=
  (forall b, orchard tx = Some b -> ab_pool b = Orchard) /\
  (forall b, ironwood tx = Some b -> ab_pool b = Ironwood).

Lemma txid_tree `{!TxHashesLaws} tx b :
  has_legacy_txid (version tx) = false -> branch_id tx = Some b -> pools_ok tx ->
  txid tx = Ok (q_hash (root_q tx b)).
Proof using Type.
  intros Hv Hb [Ho Hi]. unfold txid. unfold has_legacy_txid in Hv. rewrite Hv, Hb.
  cbn [expect mbind res_bind]. rewrite header_digest_eq by exact Hv. cbn [mbind res_bind].
  unfold root_q. set (v6 := bool_decide (version tx = V6)). fold (orchard_domain v6).
  rewrite (action_digest_eq (orchard tx)) by (destruct v6; exact Ho). cbn [mbind res_bind].
  rewrite transparent_digest_eq.
  replace (match sapling tx with Some b0 => sapling_digest b0 v6 | None => empty_hash SAPLING end)
    with (q_hash (sapling_q v6 (sapling tx))) by (by destruct (sapling tx); rewrite ?sapling_digest_eq).
  assert (forall s, as_hash32 (finalize s) = Ok (finalize s)) as Hh.
  { intros s. unfold as_hash32, finalize. by rewrite bool_decide_true by apply blake2b_256_length. }
  destruct v6.
  - rewrite action_digest_eq by exact Hi. cbn [mbind res_bind]. rewrite Hh.
    unfold finalize, q_hash at 6, update; cbn. by rewrite <- !app_assoc.
  - cbn [mbind res_bind]. rewrite Hh. unfold finalize, q_hash at 5, update; cbn.
    by rewrite <- !app_assoc, app_nil_r.
Qed.
End Queries.

(** ** Effecting data *)

(** A transaction without its authorizing data: scripts that authorize, proofs and
    signatures, and for version 6 the Sapling, Orchard and Ironwood anchors. *)
Definition effects_input (i : TransparentInput) : TransparentInput :=
  MkTransparentInput (prevout_txid i) (prevout_index i) [] (in_sequence i).
Definition effects_spend (v6 : bool) (s : SaplingSpend) : SaplingSpend :=
  MkSaplingSpend (sp_cv s) (if v6 then [] else sp_anchor s) (sp_nullifier s) (sp_rk s) [] [].
Definition effects_output (o : SaplingOutput) : SaplingOutput :=
  MkSaplingOutput (so_cv o) (so_cmu o) (so_ephemeral_key o) (so_enc_ciphertext o) (so_out_ciphertext o) [].
Definition effects_sapling (v6 : bool) (b : SaplingBundle) : SaplingBundle :=
  MkSaplingBundle (effects_spend v6 <$> sb_spends b) (effects_output <$> sb_outputs b)
    (sb_value_balance b) [].
Definition effects_action (a : Action) : Action :=
  MkAction (ac_cv a) (ac_nullifier a) (ac_rk a) (ac_cmx a) (ac_ephemeral_key a)
    (ac_enc_ciphertext a) (ac_out_ciphertext a) [].
Definition effects_actions (v6 : bool) (b : ActionBundle) : ActionBundle :=
  MkActionBundle (ab_pool b) (effects_action <$> ab_actions b) (ab_flags b) (ab_value_balance b)
    (if v6 then [] else ab_anchor b) [] [].
Definition effects (tx : TransactionView) : TransactionView :=
  let v6 := bool_decide (version tx = V6) in
  MkTransactionView [] (version tx) (branch_id tx) (lock_time tx) (expiry_height tx)
    (effects_input <$> transparent_inputs tx) (transparent_outputs tx) (sprout tx)
    (effects_sapling v6 <$> sapling tx) (effects_actions v6 <$> orchard tx)
    (effects_actions v6 <$> ironwood tx).

Lemma bool_decide_fmap_nil {A B} (f : A -> B) (l : list A) :
  bool_decide (f <$> l = []) = bool_decide (l = []).
Proof. by destruct l. Qed.

Section Effects.
Context {ZP : ZcashProtocol} {TH : TxHashes}.

Lemma sapling_q_effects v6 o : sapling_q v6 (effects_sapling v6 <$> o) = sapling_q v6 o.
Proof using Type.
  destruct o as [[sps ous vb sig]|]; [|done].
  unfold sapling_q, spends_q, soutputs_q, spends_compact_q, spends_noncompact_q, soutputs_compact_q,
    soutputs_memos_q, soutputs_noncompact_q, effects_sapling; cbn.
  rewrite !bool_decide_fmap_nil, !write_all_fmap. cbn. by destruct v6.
Qed.

Lemma action_q_effects v6 d o :
  includes_anchor d = negb v6 -> action_q d (effects_actions v6 <$> o) = action_q d o.
Proof using Type.
  intros Hd. destruct o as [[p l f vb an pr sig]|]; [|done].
  unfold action_q, actions_compact_q, actions_memos_q, actions_noncompact_q, effects_actions; cbn.
  rewrite !write_all_fmap, Hd. by destruct v6.
Qed.

Lemma transparent_q_effects tx : transparent_q (effects tx) = transparent_q tx.
Proof using Type.
  unfold transparent_q, prevouts_q, sequence_q, outputs_q, effects; cbn.
  by rewrite !bool_decide_fmap_nil, !write_all_fmap.
Qed.

Lemma root_q_effects tx b : root_q (effects tx) b = root_q tx b.
Proof using Type.
  unfold root_q. rewrite transparent_q_effects. cbn [effects version sapling orchard ironwood].
  set (v6 := bool_decide (version tx = V6)).
  rewrite sapling_q_effects, !action_q_effects by (by destruct v6).
  destruct v6; [|done]. by rewrite action_q_effects.
Qed.

Lemma tx_ok_tree tx :
  tx_ok tx -> has_legacy_txid (version tx) = false -> pools_ok tx /\ exists b, branch_id tx = Some b.
Proof using Type.
  intros [Hb _] Hv. unfold body_ok in Hb. rewrite Hv in Hb.
  destruct Hb as ((b & Hb & _ & Ho & Hi) & _). split; [|eauto]. split; intros x Hx.
  - rewrite Hx in Ho. apply Ho.
  - case_bool_decide; rewrite Hx in Hi; [apply Hi|done].
Qed.

Context {THL : TxHashesLaws}.

(** Computing the identifier of a parsed transaction never panics and gives 32
    bytes: the branch and the version group are present, every bundle is hashed in
    the domain of its own pool; for versions 1 to 4 the identifier is the double
    SHA-256 of the bytes that were parsed. *)
Theorem txid_of_parsed input tx rest :
  ZcashProtocolLaws -> Z.of_nat (length input) <= usize_max -> parse_prefix input = Ok (tx, rest) ->
  exists h, txid tx = Ok h /\ length h = 32%nat /\
    (has_legacy_txid (version tx) = true -> h = sha256 (sha256 (raw tx))).
Proof using Type*.
  intros HL Hlen [Hok _]%parse_prefix_sound; [|done].
  destruct (has_legacy_txid (version tx)) eqn:Hv.
  - unfold txid. unfold has_legacy_txid in Hv. rewrite Hv. eexists. split_and!; [done| |done].
    apply sha256_length.
  - destruct (tx_ok_tree tx Hok Hv) as [Hp [b Hb]]. rewrite (txid_tree tx b) by done.
    eexists. split_and!; [done| |done]. apply blake2b_256_length.
Qed.

(** The identifier of a version 5 or 6 transaction depends only on its effecting
    data: changing input scripts, proofs, signatures, and for version 6 the anchors
    of the three pools, does not change it. *)
Theorem txid_ignores_authorization tx1 tx2 :
  has_legacy_txid (version tx1) = false -> tx_ok tx1 -> tx_ok tx2 ->
  effects tx1 = effects tx2 -> txid tx1 = txid tx2.
Proof using Type*.
  intros Hv H1 H2 He. assert (version tx2 = version tx1) as Ev by (by apply (f_equal version) in He).
  assert (branch_id tx2 = branch_id tx1) as Eb by (by apply (f_equal branch_id) in He).
  destruct (tx_ok_tree tx1 H1 Hv) as [Hp1 [b Hb]].
  destruct (tx_ok_tree tx2 H2 ltac:(by rewrite Ev)) as [Hp2 _].
  rewrite (txid_tree tx1 b), (txid_tree tx2 b) by (by rewrite ?Ev, ?Eb).
  by rewrite <- (root_q_effects tx1), He, root_q_effects.
Qed.
End Effects.
