(* ===== verification/TxIdBinding.v ===== *)
(** * The identifier binds the effecting data

    Two version 5 or 6 transactions with the same identifier have the same
    effecting data, unless two of the messages that were hashed collide. *)

From S2P Require Import Prelude WireReader Transaction TransactionCodec TransactionParse TxId.

(** ** Injectivity of the hashed encodings *)

Lemma le_split_inj n a b :
  0 <= a < 2 ^ (8 * Z.of_nat n) -> 0 <= b < 2 ^ (8 * Z.of_nat n) -> le_split n a = le_split n b -> a = b.
Proof.
  intros Ha Hb E%(f_equal le_combine). by rewrite !le_combine_split_small in E.
Qed.

Lemma u32_split_inj a b : u32_ok a -> u32_ok b -> le_split 4 a = le_split 4 b -> a = b.
Proof. exact (le_split_inj 4 a b). Qed.

Lemma app_split (x1 y1 x2 y2 : list byte) :
  length x1 = length x2 -> x1 ++ y1 = x2 ++ y2 -> x1 = x2 /\ y1 = y2.
Proof. apply app_inj_1. Qed.

Lemma write_compact_size_inj n m x y :
  0 <= n < 2 ^ 32 -> 0 <= m < 2 ^ 32 ->
  write_compact_size n ++ x = write_compact_size m ++ y -> n = m /\ x = y.
Proof.
  intros Hn Hm. unfold write_compact_size.
  zcases; rewrite <- ?app_assoc; intros [E1 E]%app_split; try done;
    apply (le_split_inj 1) in E1; try lia; try (by subst);
    apply app_split in E as [E2 E]; try done.
  - apply (le_split_inj 2) in E2; [done|lia|lia].
  - apply (le_split_inj 4) in E2; [done|lia|lia].
Qed.

Lemma write_all_fixed_inj {A} (e : A -> list byte) (n : nat) l k :
  (0 < n)%nat -> Forall (fun a => length (e a) = n) l -> Forall (fun a => length (e a) = n) k ->
  write_all e l = write_all e k -> e <$> l = e <$> k.
Proof.
  intros Hn Hl. unfold write_all. revert k.
  induction Hl as [|a l Ha Hl IH]; intros k Hk E; destruct Hk as [|b k Hb Hk]; cbn in *; [done| | |].
  - apply (f_equal length) in E. rewrite length_app in E. cbn in E. lia.
  - apply (f_equal length) in E. rewrite length_app in E. cbn in E. lia.
  - apply app_split in E as [E1 E2]; [|lia]. f_equal; auto.
Qed.

Lemma fmap_pair_eq {A B C} (e : A -> B) (d : A -> C) (l k : list A) :
  e <$> l = e <$> k -> d <$> l = d <$> k ->
  (fun a => (e a, d a)) <$> l = (fun a => (e a, d a)) <$> k.
Proof.
  revert k. induction l as [|a l IH]; intros [|b k] E1 E2; try done.
  cbn in *. simplify_eq. f_equal; [congruence|auto].
Qed.

Lemma fmap_factor {A B C} (g : A -> B) (f : A -> C) (W : A -> Prop) (l k : list A) :
  (forall a b, W a -> W b -> g a = g b -> f a = f b) -> Forall W l -> Forall W k ->
  g <$> l = g <$> k -> f <$> l = f <$> k.
Proof.
  intros Hg Hl. revert k. induction Hl as [|a l Ha Hl IH]; intros k Hk E; destruct Hk; try done.
  cbn in *. simplify_eq. f_equal; auto.
Qed.

(** The three parts into which a note ciphertext is split for hashing. *)
Lemma ciphertext_parts (x y : list byte) :
  take 52 x = take 52 y -> take 512 (drop 52 x) = take 512 (drop 52 y) -> drop 564 x = drop 564 y -> x = y.
Proof.
  intros E1 E2 E3. rewrite <- (take_drop 52 x), <- (take_drop 52 y), E1. f_equal.
  rewrite <- (take_drop 512 (drop 52 x)), <- (take_drop 512 (drop 52 y)), E2, !drop_drop. by f_equal.
Qed.

(** Splits an equation between pairs. *)
Ltac split_pair E :=
  let E1 := fresh E in let E2 := fresh E in
  pose proof (f_equal fst E) as E1; pose proof (f_equal snd E) as E2; cbn [fst snd] in E1, E2; clear E;
  try split_pair E1.

(** Turns equal concatenations of fixed-length records into equal lists of records. *)
Ltac fixed_records n E :=
  apply (write_all_fixed_inj _ n) in E;
  [|lia|eapply Forall_impl; [eassumption|]; intros [] Hok;
    repeat match type of Hok with _ /\ _ => let H := fresh in destruct Hok as [H Hok] end;
    unfold len_ok in *; cbn in *; rewrite ?length_app, ?length_take, ?length_drop in *; lia..].

(** Splits equations between concatenations of fields of the same lengths. *)
Ltac split_fields :=
  repeat match goal with
  | H : _ ++ _ = _ ++ _ |- _ =>
      let H1 := fresh in
      apply app_split in H as [H1 H]; [|rewrite ?length_take, ?length_drop; lia]
  end.

Section Binding.
Context {ZP : ZcashProtocol} {ZPL : ZcashProtocolLaws} {TH : TxHashes} {THL : TxHashesLaws}.

Lemma tx_out_app_inj o1 o2 x y :
  tx_out_ok o1 -> tx_out_ok o2 -> enc_tx_out o1 ++ x = enc_tx_out o2 ++ y -> o1 = o2 /\ x = y.
Proof using ZPL.
  pose proof max_money_bounds. pose proof max_compact_size_bounds.
  destruct o1 as [v1 s1], o2 as [v2 s2]. unfold tx_out_ok, enc_tx_out, amount_ok, script_ok, write_var_bytes.
  cbn. intros [Hv1 Hs1] [Hv2 Hs2]. rewrite <- !app_assoc. intros [E1 E]%app_split; [|by rewrite !length_le_split].
  apply (le_split_inj 8) in E1 as ->; [|lia..].
  apply write_compact_size_inj in E as [E2 E]; [|lia..]. apply app_split in E as [-> ->]; [done|lia].
Qed.

Lemma tx_outs_inj l k :
  Forall tx_out_ok l -> Forall tx_out_ok k -> write_all enc_tx_out l = write_all enc_tx_out k -> l = k.
Proof using ZPL.
  intros Hl. unfold write_all. revert k.
  assert (forall o x, enc_tx_out o ++ x = [] -> False) as Hne.
  { intros o x E%(f_equal length). unfold enc_tx_out in E.
    rewrite !length_app, length_le_split in E. cbn in E. lia. }
  induction Hl as [|a l Ha Hl IH]; intros k Hk E; destruct Hk as [|b k Hb Hk]; cbn in E; [done| | |].
  - exfalso. by eapply Hne.
  - exfalso. by eapply Hne.
  - apply tx_out_app_inj in E as [-> E]; [|done..]. f_equal; auto.
Qed.

(** ** Hashes *)

Definition no_collision (l1 l2 : list query) : Prop :=
  forall q1 q2, q1 ∈ l1 -> q2 ∈ l2 -> q_hash q1 = q_hash q2 -> q1 = q2.

Lemma no_collision_app l1 k1 l2 k2 :
  no_collision (l1 ++ k1) (l2 ++ k2) -> no_collision l1 l2 /\ no_collision k1 k2.
Proof using Type. unfold no_collision. setoid_rewrite elem_of_app. naive_solver. Qed.

Lemma no_collision_cons q1 q2 l1 l2 :
  no_collision (q1 :: l1) (q2 :: l2) -> (q_hash q1 = q_hash q2 -> q1 = q2) /\ no_collision l1 l2.
Proof using Type. unfold no_collision. setoid_rewrite elem_of_cons. naive_solver. Qed.

Lemma q_hash_app q1 q2 x y : q_hash q1 ++ x = q_hash q2 ++ y -> q_hash q1 = q_hash q2 /\ x = y.
Proof using THL. apply app_split. unfold q_hash. by rewrite !blake2b_256_length. Qed.

Lemma q_hash_nonempty q x : q_hash q ++ x <> [].
Proof using THL.
  intros E%(f_equal length). rewrite length_app in E. unfold q_hash in E.
  rewrite blake2b_256_length in E. cbn in E. lia.
Qed.
(** ** The messages hashed for a transaction *)

Definition has_transparent (tx : TransactionView) : bool :=
  negb (bool_decide (transparent_inputs tx = []) && bool_decide (transparent_outputs tx = [])).

Definition transparent_queries (tx : TransactionView) : list query :=
  transparent_q tx ::
  (if has_transparent tx then [prevouts_q tx; sequence_q tx; outputs_q tx] else []).

Definition spend_queries (v6 : bool) (b : SaplingBundle) : list query :=
  spends_q v6 b ::
  (if negb (bool_decide (sb_spends b = [])) then [spends_compact_q b; spends_noncompact_q v6 b] else []).

Definition soutput_queries (b : SaplingBundle) : list query :=
  soutputs_q b ::
  (if negb (bool_decide (sb_outputs b = []))
   then [soutputs_compact_q b; soutputs_memos_q b; soutputs_noncompact_q b] else []).

Definition sapling_queries (v6 : bool) (o : option SaplingBundle) : list query :=
  sapling_q v6 o :: match o with None => [] | Some b => spend_queries v6 b ++ soutput_queries b end.

Definition action_queries (d : ActionDomain) (o : option ActionBundle) : list query :=
  action_q d o ::
  match o with
  | None => []
  | Some b => [actions_compact_q d b; actions_memos_q d b; actions_noncompact_q d b]
  end.

Definition tree_queries (tx : TransactionView) (b : BranchId) : list query :=
  let v6 := bool_decide (version tx = V6) in
  root_q tx b :: header_q tx b :: transparent_queries tx
  ++ sapling_queries v6 (sapling tx) ++ action_queries (orchard_domain v6) (orchard tx)
  ++ (if v6 then action_queries IRONWOOD_V6 (ironwood tx) else []).

(** The arguments of BLAKE2b when the identifier of [tx] is computed. *)
Definition queries (tx : TransactionView) : list query :=
  match branch_id tx with Some b => tree_queries tx b | None => [] end.

(** ** Each part of the tree *)

Lemma transparent_binding tx1 tx2 :
  transparent_ok tx1 -> transparent_ok tx2 ->
  no_collision (transparent_queries tx1) (transparent_queries tx2) ->
  q_hash (transparent_q tx1) = q_hash (transparent_q tx2) ->
  effects_input <$> transparent_inputs tx1 = effects_input <$> transparent_inputs tx2
  /\ transparent_outputs tx1 = transparent_outputs tx2.
Proof using ZPL THL.
  intros [[_ Hi1] [_ Ho1]] [[_ Hi2] [_ Ho2]] Hq E.
  apply no_collision_cons in Hq as [Hroot Hq]. apply Hroot in E. unfold transparent_q in E.
  injection E as E. fold (has_transparent tx1) in E. fold (has_transparent tx2) in E.
  destruct (has_transparent tx1) eqn:H1, (has_transparent tx2) eqn:H2.
  - apply no_collision_cons in Hq as [Hpre Hq]. apply no_collision_cons in Hq as [Hseq Hq].
    apply no_collision_cons in Hq as [Hout _].
    apply q_hash_app in E as [E1%Hpre E]. apply q_hash_app in E as [E2%Hseq E3%Hout].
    injection E1 as E1. injection E2 as E2. injection E3 as E3. split; [|by apply tx_outs_inj].
    apply (write_all_fixed_inj _ 36) in E1; [|lia|..];
      [|eapply Forall_impl; [eassumption|]; intros i (Hl & _); unfold len_ok in Hl;
        rewrite length_app, length_le_split; lia..].
    apply (write_all_fixed_inj _ 4) in E2; [|lia|..]; [|apply Forall_forall; intros; apply length_le_split..].
    eapply (fmap_factor _ _ _ _ _ _ Hi1 Hi2 (fmap_pair_eq _ _ _ _ E1 E2)).
    Unshelve. intros a b (Hl1 & Hx1 & _ & Hs1) (Hl2 & Hx2 & _ & Hs2) Ep.
    pose proof (f_equal fst Ep) as Ea. pose proof (f_equal snd Ep) as Es. cbn [fst snd] in Ea, Es.
    apply app_split in Ea as [Ea Ex]; [|unfold len_ok in *; lia].
    apply u32_split_inj in Ex; [|done..]. apply u32_split_inj in Es; [|done..].
    unfold effects_input. by rewrite Ea, Ex, Es.
  - by apply q_hash_nonempty in E.
  - symmetry in E. by apply q_hash_nonempty in E.
  - unfold has_transparent in H1, H2. apply negb_false_iff, andb_prop in H1 as [A1 B1].
    apply negb_false_iff, andb_prop in H2 as [A2 B2]. rewrite bool_decide_eq_true in A1, A2, B1, B2.
    by rewrite A1, A2, B1, B2.
Qed.
(** A hash of a list that is hashed only when it is not empty. *)
Lemma optional_message {A} (l1 l2 : list A) (q1 q2 : query) x1 x2 :
  (if negb (bool_decide (l1 = [])) then q_hash q1 ++ x1 else [])
  = (if negb (bool_decide (l2 = [])) then q_hash q2 ++ x2 else []) ->
  (l1 = [] /\ l2 = []) \/
  (negb (bool_decide (l1 = [])) = true /\ negb (bool_decide (l2 = [])) = true /\
   q_hash q1 = q_hash q2 /\ x1 = x2).
Proof using THL.
  intros E. destruct l1, l2; cbn in *; [auto| | |].
  - symmetry in E. by apply q_hash_nonempty in E.
  - by apply q_hash_nonempty in E.
  - apply q_hash_app in E. by right.
Qed.

Lemma spends_binding v6 b1 b2 :
  Forall spend_ok (sb_spends b1) -> Forall spend_ok (sb_spends b2) ->
  no_collision (spend_queries v6 b1) (spend_queries v6 b2) ->
  q_hash (spends_q v6 b1) = q_hash (spends_q v6 b2) ->
  effects_spend v6 <$> sb_spends b1 = effects_spend v6 <$> sb_spends b2.
Proof using THL.
  intros H1 H2 Hq E. apply no_collision_cons in Hq as [Hroot Hq]. apply Hroot in E.
  unfold spends_q in E. injection E as E.
  apply optional_message in E as [[-> ->]|(N1 & N2 & E1 & E2)]; [done|]. rewrite N1, N2 in Hq.
  apply no_collision_cons in Hq as [Hc Hq]. apply no_collision_cons in Hq as [Hn _].
  apply Hc in E1. apply Hn in E2. apply (f_equal snd) in E1, E2.
  unfold spends_compact_q, spends_noncompact_q in E1, E2; cbn [snd] in E1, E2.
  pose proof H1 as W1. pose proof H2 as W2. unfold spend_ok in W1, W2. fixed_records 32%nat E1.
  assert ((fun s => sp_cv s ++ (if v6 then [] else sp_anchor s) ++ sp_rk s) <$> sb_spends b1
    = (fun s => sp_cv s ++ (if v6 then [] else sp_anchor s) ++ sp_rk s) <$> sb_spends b2) as E3.
  { destruct v6; [fixed_records 64%nat E2|fixed_records 96%nat E2]; exact E2. }
  refine (fmap_factor _ _ spend_ok _ _ _ H1 H2 (fmap_pair_eq _ _ _ _ E1 E3)).
  intros [] [] Ha Hb E. unfold spend_ok, len_ok in Ha, Hb; cbn in *. destruct_and?. split_pair E.
  unfold effects_spend; cbn. subst. apply app_split in E4 as [-> E4]; [|lia].
  destruct v6; cbn in E4; [by rewrite E4|]. apply app_split in E4 as [-> ->]; [done|lia].
Qed.

Lemma soutputs_binding b1 b2 :
  Forall output_ok (sb_outputs b1) -> Forall output_ok (sb_outputs b2) ->
  no_collision (soutput_queries b1) (soutput_queries b2) ->
  q_hash (soutputs_q b1) = q_hash (soutputs_q b2) ->
  effects_output <$> sb_outputs b1 = effects_output <$> sb_outputs b2.
Proof using THL.
  intros H1 H2 Hq E. apply no_collision_cons in Hq as [Hroot Hq]. apply Hroot in E.
  unfold soutputs_q in E. injection E as E.
  apply optional_message in E as [[-> ->]|(N1 & N2 & E1 & E)]; [done|]. rewrite N1, N2 in Hq.
  apply q_hash_app in E as [E2 E3].
  apply no_collision_cons in Hq as [Hc Hq]. apply no_collision_cons in Hq as [Hm Hq].
  apply no_collision_cons in Hq as [Hn _]. apply Hc in E1. apply Hm in E2. apply Hn in E3.
  apply (f_equal snd) in E1, E2, E3.
  unfold soutputs_compact_q, soutputs_memos_q, soutputs_noncompact_q in E1, E2, E3; cbn [snd] in E1, E2, E3.
  pose proof H1 as W1. pose proof H2 as W2. unfold output_ok, ENC_CIPHERTEXT_SIZE, OUT_CIPHERTEXT_SIZE in W1, W2.
  fixed_records 116%nat E1. fixed_records 512%nat E2. fixed_records 128%nat E3.
  refine (fmap_factor _ _ output_ok _ _ _ H1 H2 (fmap_pair_eq _ _ _ _ (fmap_pair_eq _ _ _ _ E1 E2) E3)).
  intros [] [] Ha Hb E. unfold output_ok, len_ok, ENC_CIPHERTEXT_SIZE in Ha, Hb; cbn in *.
  destruct_and?. split_pair E. split_fields.
  assert (so_enc_ciphertext = so_enc_ciphertext0) by (by apply ciphertext_parts).
  unfold effects_output; cbn. by subst.
Qed.

Lemma balance_split_inj a b : balance_ok a -> balance_ok b -> le_split 8 a = le_split 8 b -> a = b.
Proof using ZPL.
  pose proof max_money_bounds. unfold balance_ok. intros Ha Hb E%(f_equal i64_of_le).
  by rewrite !i64_of_le_split in E by lia.
Qed.

Lemma actions_binding d b1 b2 :
  Forall action_ok (ab_actions b1) -> Forall action_ok (ab_actions b2) ->
  actions_compact_q d b1 = actions_compact_q d b2 -> actions_memos_q d b1 = actions_memos_q d b2 ->
  actions_noncompact_q d b1 = actions_noncompact_q d b2 ->
  effects_action <$> ab_actions b1 = effects_action <$> ab_actions b2.
Proof using Type.
  intros H1 H2 E1 E2 E3. apply (f_equal snd) in E1, E2, E3.
  unfold actions_compact_q, actions_memos_q, actions_noncompact_q in E1, E2, E3; cbn [snd] in E1, E2, E3.
  pose proof H1 as W1. pose proof H2 as W2. unfold action_ok, ENC_CIPHERTEXT_SIZE, OUT_CIPHERTEXT_SIZE in W1, W2.
  fixed_records 148%nat E1. fixed_records 512%nat E2. fixed_records 160%nat E3.
  refine (fmap_factor _ _ action_ok _ _ _ H1 H2 (fmap_pair_eq _ _ _ _ (fmap_pair_eq _ _ _ _ E1 E2) E3)).
  intros [] [] Ha Hb E. unfold action_ok, len_ok, ENC_CIPHERTEXT_SIZE in Ha, Hb; cbn in *.
  destruct_and?. split_pair E. split_fields.
  assert (ac_enc_ciphertext = ac_enc_ciphertext0) by (by apply ciphertext_parts).
  unfold effects_action; cbn. by subst.
Qed.

Lemma sapling_binding v6 o1 o2 :
  sapling_v5_ok o1 -> sapling_v5_ok o2 ->
  no_collision (sapling_queries v6 o1) (sapling_queries v6 o2) ->
  q_hash (sapling_q v6 o1) = q_hash (sapling_q v6 o2) ->
  effects_sapling v6 <$> o1 = effects_sapling v6 <$> o2.
Proof using ZPL THL.
  intros H1 H2 Hq E. apply no_collision_cons in Hq as [Hroot Hq]. apply Hroot in E.
  injection E as E. destruct o1 as [b1|], o2 as [b2|]; [| | |done].
  - destruct H1 as [(_ & [_ Hs1] & [_ Ho1] & Hb1 & _) _], H2 as [(_ & [_ Hs2] & [_ Ho2] & Hb2 & _) _].
    apply no_collision_app in Hq as [Hqs Hqo]. apply q_hash_app in E as [Es E].
    apply q_hash_app in E as [Eo Eb]. cbn. unfold effects_sapling.
    rewrite (spends_binding v6 b1 b2), (soutputs_binding b1 b2) by done.
    by rewrite (balance_split_inj _ _ Hb1 Hb2 Eb).
  - by apply q_hash_nonempty in E.
  - symmetry in E. by apply q_hash_nonempty in E.
Qed.

Lemma action_binding v6 branch1 branch2 pool d o1 o2 :
  includes_anchor d = negb v6 ->
  action_bundle_ok branch1 pool o1 -> action_bundle_ok branch2 pool o2 ->
  no_collision (action_queries d o1) (action_queries d o2) ->
  q_hash (action_q d o1) = q_hash (action_q d o2) ->
  effects_actions v6 <$> o1 = effects_actions v6 <$> o2.
Proof using ZPL THL.
  intros Hd H1 H2 Hq E. apply no_collision_cons in Hq as [Hroot Hq]. apply Hroot in E.
  apply (f_equal snd) in E. unfold action_q in E. cbn [snd] in E. destruct o1 as [b1|], o2 as [b2|]; [| | |done].
  - destruct H1 as (Hp1 & _ & [_ Ha1] & Hf1 & Hb1 & Hn1 & _), H2 as (Hp2 & _ & [_ Ha2] & Hf2 & Hb2 & Hn2 & _).
    apply no_collision_cons in Hq as [Hc Hq]. apply no_collision_cons in Hq as [Hm Hq].
    apply no_collision_cons in Hq as [Hn _].
    apply q_hash_app in E as [E1 E]. apply q_hash_app in E as [E2 E]. apply q_hash_app in E as [E3 E].
    apply app_split in E as [Ef E]; [|by rewrite !length_le_split].
    apply app_split in E as [Eb Ea]; [|by rewrite !length_le_split].
    apply balance_split_inj in Eb; [|done..].
    apply (le_split_inj 1) in Ef; [|unfold flags_ok in *; destruct pool; lia..].
    apply Hc in E1. apply Hm in E2. apply Hn in E3.
    cbn. unfold effects_actions. rewrite Hp1, Hp2, Ef, Eb, Hd in *.
    rewrite (actions_binding d b1 b2) by done. destruct v6; [done|]. cbn in Ea. by rewrite Ea.
  - by apply q_hash_nonempty in E.
  - symmetry in E. by apply q_hash_nonempty in E.
Qed.
Lemma branch_inj b1 b2 : branch_to_u32 b1 = branch_to_u32 b2 -> b1 = b2.
Proof using ZPL.
  intros E. pose proof (proj2 (branch_try_from_spec _ b1) E) as H1.
  pose proof (proj2 (branch_try_from_spec _ b2) eq_refl) as H2. congruence.
Qed.

Lemma header_binding tx1 tx2 b1 b2 :
  has_legacy_txid (version tx1) = false -> has_legacy_txid (version tx2) = false ->
  v5_v6_ok tx1 -> v5_v6_ok tx2 -> header_q tx1 b1 = header_q tx2 b2 ->
  version tx1 = version tx2 /\ b1 = b2 /\ lock_time tx1 = lock_time tx2
  /\ expiry_height tx1 = expiry_height tx2.
Proof using ZPL.
  intros Hv1 Hv2 (_ & Hl1 & (e1 & He1 & Hu1) & _) (_ & Hl2 & (e2 & He2 & Hu2) & _) E.
  apply (f_equal snd) in E. unfold header_q in E. cbn [snd] in E. rewrite He1, He2 in *.
  apply app_split in E as [Eh E]; [|by rewrite !length_le_split].
  apply app_split in E as [_ E]; [|by rewrite !length_le_split].
  apply app_split in E as [Eb E]; [|by rewrite !length_le_split].
  apply app_split in E as [El Ee]; [|by rewrite !length_le_split].
  apply u32_split_inj in El; [|done..]. apply u32_split_inj in Ee; [|done..]. cbn in Ee.
  apply u32_split_inj in Eb; [|apply branch_to_u32_u32..].
  split_and!; [|by apply branch_inj|done|congruence].
  apply u32_split_inj in Eh.
  - rewrite !header_value in Eh. by destruct (version tx1), (version tx2).
  - rewrite header_value. unfold u32_ok. destruct (version tx1); lia.
  - rewrite header_value. unfold u32_ok. destruct (version tx2); lia.
Qed.

(** C36: The identifier of a version 5 or 6 transaction commits to its effecting data:
    two well-formed transactions with the same identifier have the same version,
    branch, lock time, expiry, transparent data, Sapling, Orchard and Ironwood
    effects, provided that no two of the messages hashed for them collide. *)
Theorem txid_binds_effects tx1 tx2 :
  tx_ok tx1 -> tx_ok tx2 ->
  has_legacy_txid (version tx1) = false -> has_legacy_txid (version tx2) = false ->
  no_collision (queries tx1) (queries tx2) ->
  txid tx1 = txid tx2 -> effects tx1 = effects tx2.
Proof using Type*.
  intros Hok1 Hok2 Hv1 Hv2 Hq E.
  destruct (tx_ok_tree tx1 Hok1 Hv1) as [Hp1 [b1 Hb1]], (tx_ok_tree tx2 Hok2 Hv2) as [Hp2 [b2 Hb2]].
  destruct Hok1 as [Hok1 _], Hok2 as [Hok2 _]. unfold body_ok in Hok1, Hok2.
  rewrite Hv1 in Hok1. rewrite Hv2 in Hok2.
  rewrite (txid_tree tx1 b1), (txid_tree tx2 b2) in E by done. injection E as E.
  unfold queries in Hq. rewrite Hb1, Hb2 in Hq. unfold tree_queries in Hq.
  apply no_collision_cons in Hq as [Hroot Hq]. apply no_collision_cons in Hq as [Hhd Hq].
  apply no_collision_app in Hq as [Htr Hq].
  apply Hroot, (f_equal snd) in E. unfold root_q in E. cbn [snd] in E.
  apply q_hash_app in E as [Eh%Hhd E]. apply q_hash_app in E as [Et E].
  apply q_hash_app in E as [Es E].
  destruct (header_binding tx1 tx2 b1 b2 Hv1 Hv2 Hok1 Hok2 Eh) as (Ever & Eb & El & Ee).
  destruct Hok1 as ((x1 & Hx1 & _ & Ho1 & Hi1) & _ & _ & Ht1 & Hs1 & Hsp1),
    Hok2 as ((x2 & Hx2 & _ & Ho2 & Hi2) & _ & _ & Ht2 & Hs2 & Hsp2).
  destruct (transparent_binding tx1 tx2 Ht1 Ht2 Htr Et) as [Ein Eout].
  unfold effects. rewrite <- Ever in *. set (v6 := bool_decide (version tx1 = V6)) in *.
  apply no_collision_app in Hq as [Hqs Hq]. apply no_collision_app in Hq as [Hqo Hqi].
  apply q_hash_app in E as [Eo E].
  assert (effects_actions v6 <$> ironwood tx1 = effects_actions v6 <$> ironwood tx2) as Eir.
  { destruct v6; [|by rewrite Hi1, Hi2].
    by apply (action_binding true x1 x2 Ironwood IRONWOOD_V6). }
  rewrite Ein, Eout, El, Ee, Eir, Hb1, Hb2, Eb, Hsp1, Hsp2,
    (sapling_binding v6 (sapling tx1) (sapling tx2)),
    (action_binding v6 x1 x2 Orchard (orchard_domain v6) (orchard tx1) (orchard tx2)); try done.
  by destruct v6.
Qed.
End Binding.

(** ** Evaluation *)

(** A sample hash: a polynomial over the bytes, of 32 bytes. *)
Definition poly_hash (bs : list byte) : list byte :=
  le_split 32 (foldl (fun h b => Z.land (5 * h + byte.unsigned b + 1) 0xFFFFFFFFFFFF) 7 bs).

Definition sample_hashes : TxHashes := {|
  sha256 := poly_hash;
  blake2b_256 p m := poly_hash (p ++ m)
|}.

Lemma sample_hashes_laws : @TxHashesLaws sample_hashes.
Proof. split; intros; apply length_le_split. Qed.

(** The sample transaction with another input script, other proofs and signatures. *)
Definition resigned_fields : TransactionView :=
  MkTransactionView [] V5 (Some Nu5) 7 (Some 1687121)
    [MkTransparentInput (repeat Byte.x11 32) 1 [Byte.x53] (2 ^ 32 - 1)]
    [MkTransparentOutput 5000 [Byte.x51]]
    None
    (Some (MkSaplingBundle
      [MkSaplingSpend (repeat Byte.x21 32) (repeat Byte.x22 32) (repeat Byte.x23 32)
         (repeat Byte.x24 32) (repeat Byte.x75 192) (repeat Byte.x76 64)]
      [MkSaplingOutput (repeat Byte.x31 32) (repeat Byte.x32 32) (repeat Byte.x33 32)
         (repeat Byte.x34 580) (repeat Byte.x35 80) (repeat Byte.x86 192)]
      (-250) (repeat Byte.x77 64)))
    (Some (MkActionBundle Orchard
      [MkAction (repeat Byte.x41 32) (repeat Byte.x42 32) (repeat Byte.x43 32) (repeat Byte.x44 32)
         (repeat Byte.x45 32) (repeat Byte.x46 580) (repeat Byte.x47 80) (repeat Byte.x98 64)]
      3 300 (repeat Byte.x49 32) [Byte.x9a; Byte.x9b] (repeat Byte.x9b 64)))
    None.

Definition resigned_tx : TransactionView := set_raw (@encode sample_protocol resigned_fields) resigned_fields.

Lemma resigned_tx_ok : @tx_ok sample_protocol resigned_tx.
Proof.
  pose proof sample_protocol_laws as L.
  eapply (parse_prefix_sound (raw resigned_tx) resigned_tx []); [|vm_compute; reflexivity].
  vm_compute. discriminate.
Qed.

Definition with_hash `{!TxHashes} (l : list query) : list (list byte * query) :=
  (fun q => (q_hash q, q)) <$> l.

Definition no_collision_b `{!TxHashes} (l1 l2 : list query) : bool :=
  let k2 := with_hash l2 in
  forallb (fun '(h1, q1) => forallb (fun '(h2, q2) =>
    negb (bool_decide (h1 = h2)) || bool_decide (q1 = q2)) k2) (with_hash l1).

Lemma no_collision_b_sound {TH : TxHashes} l1 l2 : no_collision_b l1 l2 = true -> no_collision l1 l2.
Proof.
  assert (forall l q, q ∈ l -> In (q_hash q, q) (with_hash l)) as Hin.
  { intros l q Hq. apply list_elem_of_In. unfold with_hash. apply list_elem_of_fmap. eauto. }
  intros H q1 q2 H1%Hin H2%Hin E. unfold no_collision_b in H.
  rewrite forallb_forall in H. specialize (H _ H1). cbn in H. rewrite forallb_forall in H.
  specialize (H _ H2). cbn in H. rewrite (bool_decide_true _ E) in H. cbn in H.
  by apply bool_decide_eq_true in H.
Qed.

Lemma txid_of_parsed_witness :
  exists h, @txid sample_protocol sample_hashes sample_tx = Ok h /\ length h = 32%nat /\
    (has_legacy_txid (version sample_tx) = true -> h = @sha256 sample_hashes (@sha256 sample_hashes (raw sample_tx))).
Proof.
  apply (@txid_of_parsed sample_protocol sample_hashes sample_hashes_laws
    (raw sample_tx ++ [Byte.x01]) sample_tx [Byte.x01] sample_protocol_laws).
  - vm_compute. discriminate.
  - vm_compute. reflexivity.
Defined.

Lemma txid_ignores_authorization_witness :
  @txid sample_protocol sample_hashes sample_tx = @txid sample_protocol sample_hashes resigned_tx.
Proof.
  apply (@txid_ignores_authorization sample_protocol sample_hashes sample_hashes_laws sample_tx resigned_tx).
  - reflexivity.
  - exact sample_tx_ok.
  - exact resigned_tx_ok.
  - vm_compute. reflexivity.
Defined.

Lemma txid_binds_effects_witness : effects sample_tx = effects resigned_tx.
Proof.
  apply (@txid_binds_effects sample_protocol sample_protocol_laws sample_hashes sample_hashes_laws
    sample_tx resigned_tx).
  - exact sample_tx_ok.
  - exact resigned_tx_ok.
  - reflexivity.
  - reflexivity.
  - apply no_collision_b_sound. vm_compute. reflexivity.
  - vm_compute. reflexivity.
Defined.
