(* ===== verification/PcztCommon.v ===== *)
(** * PCZT: the Combiner's merge functions and the global fields

    [librustzcash/pczt/src/roles/combiner/mod.rs] ([merge_optional], [merge_map]) and
    [librustzcash/pczt/src/common.rs].  A [BTreeMap] is a [gmap], a byte array a list
    of bytes; a merge that returns [false] or [None] is [None]. *)

From S2P Require Import Prelude.

(** ** Merging optional values and maps *)

(** [merge_optional] *)
Definition merge_optional {T} `{EqDecision T} (lhs rhs : option T) : option (option T) :=
  match lhs, rhs with
  | _, None => Some lhs
  | None, Some rhs => Some (Some rhs)
  | Some l, Some r => if decide (l = r) then Some lhs else None
  end.

Section MergeMap.
Context {K V : Type} `{HK : Countable K, HV : EqDecision V}.

(** The body of the loop of [merge_map] *)
Definition merge_entry (lhs : gmap K V) (e : K * V) : option (gmap K V) :=
  let '(key, rhs_value) := e in
  match lhs !! key with
  | Some lhs_value => if decide (lhs_value = rhs_value) then Some lhs else None
  | None => Some (<[key := rhs_value]> lhs)
  end.

Fixpoint merge_entries (lhs : gmap K V) (es : list (K * V)) : option (gmap K V) :=
  match es with
  | [] => Some lhs
  | e :: es => lhs ← merge_entry lhs e; merge_entries lhs es
  end.

(** [merge_map] *)
Definition merge_map (lhs rhs : gmap K V) : option (gmap K V) :=
  merge_entries lhs (map_to_list rhs).
End MergeMap.

(** A required field: the values must be equal. *)
Definition merge_eq {T} `{EqDecision T} (lhs rhs : T) : option T :=
  if decide (lhs = rhs) then Some lhs else None.

(** ** Partial joins *)

(** The laws of merging: a partial, idempotent, commutative and associative
    operation.  [below a c] is the order in which [c] has all the data of [a]. *)
Class MergeLaws {A} (mg : A -> A -> option A) : Prop := {
  mg_idem : forall a, mg a a = Some a;
  mg_comm : forall a b, mg a b = mg b a;
  mg_assoc : forall a b c, (x ← mg a b; mg x c) = (y ← mg b c; mg a y)
}.

Definition below {A} (mg : A -> A -> option A) (a c : A) : Prop := mg a c = Some c.

Lemma merge_upper_bound {A} (mg : A -> A -> option A) `{!MergeLaws mg} a b c :
  mg a b = Some c -> below mg a c /\ below mg b c.
Proof.
  intros E. unfold below. split.
  - pose proof (mg_assoc a a b) as H. rewrite mg_idem, E in H. cbn in H. by rewrite E in H.
  - pose proof (mg_assoc b b a) as H. rewrite mg_idem, (mg_comm b a), E in H. cbn in H.
    rewrite mg_comm, E in H. done.
Qed.

(** The merge of two values is the least value that has the data of both. *)
Lemma merge_least {A} (mg : A -> A -> option A) `{!MergeLaws mg} a b d :
  below mg a d -> below mg b d -> exists c, mg a b = Some c /\ below mg c d.
Proof.
  unfold below. intros Ha Hb. pose proof (mg_assoc a b d) as H. rewrite Hb in H. cbn in H.
  rewrite Ha in H. destruct (mg a b) as [c|]; [|done]. cbn in H. eauto.
Qed.

#[export] Instance merge_eq_laws {T} `{EqDecision T} : MergeLaws (@merge_eq T _).
Proof.
  unfold merge_eq. split.
  - intros a. by rewrite decide_True.
  - intros a b. repeat case_decide; congruence.
  - intros a b c. repeat case_decide; cbn; repeat case_decide; congruence.
Qed.

#[export] Instance merge_optional_laws {T} `{EqDecision T} : MergeLaws (@merge_optional T _).
Proof.
  split.
  - intros [a|]; cbn; [by rewrite decide_True|done].
  - intros [a|] [b|]; cbn; repeat case_decide; congruence.
  - intros [a|] [b|] [c|]; cbn; repeat (case_decide; cbn); congruence.
Qed.

Section MergeMapLaws.
Context {K V : Type} `{HK : Countable K, HV : EqDecision V}.

Definition compatible (l r : gmap K V) : Prop :=
  forall k a b, l !! k = Some a -> r !! k = Some b -> a = b.

Lemma merge_entries_Some (lhs : gmap K V) es m :
  NoDup es.*1 ->
  merge_entries lhs es = Some m <->
  compatible lhs (list_to_map es) /\ m = lhs ∪ list_to_map es.
Proof.
  revert lhs. induction es as [|[k v] es IH]; intros lhs Hnd; cbn.
  - split.
    + intros [= ->]. split; [intros k a b _ Hb; by rewrite lookup_empty in Hb|].
      by rewrite map_union_empty.
    + intros [_ ->]. by rewrite map_union_empty.
  - apply NoDup_cons in Hnd as [Hk Hnd].
    assert (@list_to_map K V (gmap K V) _ _ es !! k = None) as Hnone
      by (by apply not_elem_of_list_to_map_1).
    destruct (lhs !! k) as [a|] eqn:El; cbn.
    + destruct (decide (a = v)) as [->|Hne]; cbn.
      * rewrite IH by done. assert (lhs ∪ <[k:=v]> (list_to_map es) = lhs ∪ list_to_map es) as ->.
        { apply map_eq. intros i. rewrite !lookup_union.
          destruct (decide (i = k)) as [->|Hi]; [by rewrite El, lookup_insert_eq, Hnone|].
          by rewrite lookup_insert_ne. }
        split; intros [Hc ->]; (split; [|done]).
        -- intros i x y Hx Hy. destruct (decide (i = k)) as [->|Hi].
           ++ rewrite lookup_insert_eq in Hy. congruence.
           ++ rewrite lookup_insert_ne in Hy by done. by eapply Hc.
        -- intros i x y Hx Hy. apply (Hc i x y Hx). rewrite lookup_insert_ne; [done|].
           intros <-. congruence.
      * split; [done|]. intros [Hc _]. exfalso. apply Hne, (Hc k); [done|]. by rewrite lookup_insert_eq.
    + rewrite IH by done. rewrite <- insert_union_l, insert_union_r by done.
      split; intros [Hc ->]; (split; [|done]).
      * intros i x y Hx Hy. destruct (decide (i = k)) as [->|Hi]; [congruence|].
        rewrite lookup_insert_ne in Hy by done. apply (Hc i); [by rewrite lookup_insert_ne|done].
      * intros i x y Hx Hy. destruct (decide (i = k)) as [->|Hi]; [congruence|].
        rewrite lookup_insert_ne in Hx by done. apply (Hc i); [done|by rewrite lookup_insert_ne].
Qed.

(** Merging maps succeeds exactly when they agree on their common keys, and gives
    their union. *)
Lemma merge_map_Some (l r m : gmap K V) :
  merge_map l r = Some m <-> compatible l r /\ m = l ∪ r.
Proof.
  unfold merge_map. rewrite merge_entries_Some by apply NoDup_fst_map_to_list.
  by rewrite list_to_map_to_list.
Qed.

Lemma compatible_union_comm (l r : gmap K V) : compatible l r -> l ∪ r = r ∪ l.
Proof.
  intros Hc. apply map_eq. intros i. rewrite !lookup_union.
  destruct (l !! i) eqn:El, (r !! i) eqn:Er; cbn; try done. f_equal. by eapply Hc.
Qed.

Lemma compatible_sym (l r : gmap K V) : compatible l r <-> compatible r l.
Proof. split; intros Hc k a b Ha Hb; symmetry; by eapply Hc. Qed.

Lemma compatible_union (l r s : gmap K V) :
  compatible l r -> compatible (l ∪ r) s <-> compatible l s /\ compatible r s.
Proof.
  intros Hlr. split.
  - intros H. split; intros k a b Ha Hb; apply (H k); try done; rewrite lookup_union, ?Ha; [by destruct (r !! k)|].
    destruct (l !! k) as [x|] eqn:El; cbn; [|done]. f_equal. by eapply Hlr.
  - intros [Hl Hr] k a b Ha Hb. rewrite lookup_union in Ha.
    destruct (l !! k) as [x|] eqn:El; [|by eapply Hr; [|done]; destruct (r !! k)].
    destruct (r !! k); cbn in Ha; injection Ha as <-; by eapply Hl.
Qed.

Lemma option_ext_Some {A} (x y : option A) : (forall a, x = Some a <-> y = Some a) -> x = y.
Proof. intros H. destruct x as [a|], y as [b|]; try done; naive_solver. Qed.

#[export] Instance merge_map_laws : MergeLaws (@merge_map K V _ _ _).
Proof.
  split.
  - intros a. apply merge_map_Some. split; [intros k x y Hx Hy; congruence|].
    apply map_eq. intros i. rewrite lookup_union. by destruct (a !! i).
  - intros a b. apply option_ext_Some. intros m. rewrite !merge_map_Some.
    rewrite compatible_sym. split; intros [Hc ->]; (split; [done|]);
      [|symmetry]; by apply compatible_union_comm, compatible_sym.
  - intros a b c. apply option_ext_Some. intros m.
    rewrite !bind_Some. setoid_rewrite merge_map_Some. split.
    + intros (x & [Hab ->] & Habc & ->). apply compatible_union in Habc as [Hac Hbc]; [|done].
      exists (b ∪ c). split; [done|]. split; [|by rewrite map_union_assoc].
      apply compatible_sym, compatible_union; [done|]. by split; apply compatible_sym.
    + intros (x & [Hbc ->] & Habc & ->). apply compatible_sym, compatible_union in Habc as [Hba Hca]; [|done].
      exists (a ∪ b). split; [by rewrite compatible_sym|]. split; [|by rewrite map_union_assoc].
      apply compatible_union; [by apply compatible_sym|]. by split; [apply compatible_sym|].
Qed.
End MergeMapLaws.

(** ** Merging records *)

Definition merge_pair {A B} (ma : A -> A -> option A) (mb : B -> B -> option B)
    (x y : A * B) : option (A * B) :=
  a ← ma x.1 y.1; b ← mb x.2 y.2; Some (a, b).

#[export] Instance merge_pair_laws {A B} (ma : A -> A -> option A) (mb : B -> B -> option B)
  `{!MergeLaws ma, !MergeLaws mb} : MergeLaws (merge_pair ma mb).
Proof.
  unfold merge_pair. split.
  - intros [a b]. cbn. rewrite !mg_idem. done.
  - intros [a1 b1] [a2 b2]. cbn. by rewrite (mg_comm a1 a2), (mg_comm b1 b2).
  - intros [a1 b1] [a2 b2] [a3 b3]. cbn.
    pose proof (mg_assoc a1 a2 a3) as Ha. pose proof (mg_assoc b1 b2 b3) as Hb.
    destruct (ma a1 a2) as [x|], (ma a2 a3) as [y|]; cbn in *;
      destruct (mb b1 b2) as [u|], (mb b2 b3) as [v|]; cbn in *;
      rewrite <- ?Ha, <- ?Hb; cbn; try done;
      rewrite ?Ha, ?Hb; cbn; try done;
      try (by destruct (ma x a3)); try (by destruct (ma a1 y)).
Qed.

(** A record is merged like the tuple of its fields. *)
Lemma merge_laws_iso {A B} (f : A -> B) (g : B -> A) (ma : A -> A -> option A) (mb : B -> B -> option B)
  `{!MergeLaws mb} :
  (forall a, g (f a) = a) -> (forall b, f (g b) = b) ->
  (forall a b, ma a b = g <$> mb (f a) (f b)) -> MergeLaws ma.
Proof.
  intros Hgf Hfg Hm. split.
  - intros a. rewrite Hm, mg_idem. cbn. by rewrite Hgf.
  - intros a b. by rewrite !Hm, mg_comm.
  - intros a b c. rewrite !Hm. pose proof (mg_assoc (f a) (f b) (f c)) as H.
    destruct (mb (f a) (f b)) as [x|], (mb (f b) (f c)) as [y|]; cbn in *; rewrite ?Hm, ?Hfg, ?H; try done.
    by rewrite <- H.
Qed.

(** Runs the merges of the fields of two records side by side. *)
Ltac merge_fields :=
  repeat match goal with
  | |- context [?m ≫= _] => lazymatch m with
      | merge_optional _ _ => destruct m eqn:?; cbn; [|done]
      | merge_map _ _ => destruct m eqn:?; cbn; [|done]
      | merge_eq _ _ => destruct m eqn:?; cbn; [|done]
      end
  end.

(** ** Global fields *)

Definition FLAG_TRANSPARENT_INPUTS_MODIFIABLE : Z := 0x01.
Definition FLAG_TRANSPARENT_OUTPUTS_MODIFIABLE : Z := 0x02.
Definition FLAG_HAS_SIGHASH_SINGLE : Z := 0x04.
Definition FLAG_SHIELDED_MODIFIABLE : Z := 0x80.

(** [!x] on a [u8] *)
Definition not_u8 (x : Z) : Z := Z.lxor 0xFF x.

Record Global : Type := MkGlobal {
  tx_version : Z;
  version_group_id : Z;
  consensus_branch_id : Z;
  fallback_lock_time : option Z;
  expiry_height : Z;
  coin_type : Z;
  tx_modifiable : Z;
  proprietary : gmap string (list byte)
}.

(** [Global::inputs_modifiable] and the other flag accessors *)
Definition inputs_modifiable (g : Global) : bool :=
  negb (Z.land (tx_modifiable g) FLAG_TRANSPARENT_INPUTS_MODIFIABLE =? 0).
Definition outputs_modifiable (g : Global) : bool :=
  negb (Z.land (tx_modifiable g) FLAG_TRANSPARENT_OUTPUTS_MODIFIABLE =? 0).
Definition has_sighash_single (g : Global) : bool :=
  negb (Z.land (tx_modifiable g) FLAG_HAS_SIGHASH_SINGLE =? 0).
Definition shielded_modifiable (g : Global) : bool :=
  negb (Z.land (tx_modifiable g) FLAG_SHIELDED_MODIFIABLE =? 0).

(** The assignments to [self.tx_modifiable] in [Global::merge] *)
Definition merge_modifiable (self other : Z) : option Z :=
  let self := if Z.land other FLAG_TRANSPARENT_INPUTS_MODIFIABLE =? 0
              then Z.land self (not_u8 FLAG_TRANSPARENT_INPUTS_MODIFIABLE) else self in
  let self := if Z.land other FLAG_TRANSPARENT_OUTPUTS_MODIFIABLE =? 0
              then Z.land self (not_u8 FLAG_TRANSPARENT_OUTPUTS_MODIFIABLE) else self in
  let self := if negb (Z.land other FLAG_HAS_SIGHASH_SINGLE =? 0)
              then Z.lor self FLAG_HAS_SIGHASH_SINGLE else self in
  if negb (Z.shiftr (Z.land self (not_u8 FLAG_SHIELDED_MODIFIABLE)) 3 =? 0)
     || negb (Z.shiftr (Z.land other (not_u8 FLAG_SHIELDED_MODIFIABLE)) 3 =? 0)
  then None
  else Some (if Z.land other FLAG_SHIELDED_MODIFIABLE =? 0
             then Z.land self (not_u8 FLAG_SHIELDED_MODIFIABLE) else self).

(** [Global::merge] *)
Definition global_merge (self other : Global) : option Global :=
  if negb (tx_version self =? tx_version other)
     || negb (version_group_id self =? version_group_id other)
     || negb (consensus_branch_id self =? consensus_branch_id other)
     || negb (bool_decide (fallback_lock_time self = fallback_lock_time other))
     || negb (expiry_height self =? expiry_height other)
     || negb (coin_type self =? coin_type other)
  then None
  else
    m ← merge_modifiable (tx_modifiable self) (tx_modifiable other);
    p ← merge_map (proprietary self) (proprietary other);
    Some (MkGlobal (tx_version self) (version_group_id self) (consensus_branch_id self)
            (fallback_lock_time self) (expiry_height self) (coin_type self) m p).

Definition u8_ok (x : Z) : Prop := 0 <= x < 256.

(** The reserved bits 3 to 6 are zero. *)
Definition reserved_zero (x : Z) : Prop := Z.shiftr (Z.land x 0x7F) 3 = 0.
#[global] Instance reserved_zero_dec x : Decision (reserved_zero x) := decide (_ = _).

(** Bits 0, 1 and 7 are conjunctions, bit 2 is a disjunction. *)
Definition join_modifiable (a b : Z) : Z :=
  Z.lor (Z.land (Z.land a b) 0x83) (Z.land (Z.lor a b) 0x04).

Lemma u8_forall (P : Z -> bool) :
  forallb (fun n => P (Z.of_nat n)) (seq 0 256) = true -> forall x, u8_ok x -> P x = true.
Proof.
  rewrite forallb_forall. intros H x Hx. specialize (H (Z.to_nat x)).
  rewrite Z2Nat.id in H by (unfold u8_ok in Hx; lia). apply H, in_seq. unfold u8_ok in Hx. lia.
Qed.

(** The changes to the bits 0 to 2 keep the reserved bits. *)
Lemma low_bits_keep_reserved (c0 c1 c2 : bool) x :
  u8_ok x ->
  let y := if c0 then Z.land x 0xFE else x in
  let y := if c1 then Z.land y 0xFD else y in
  let y := if c2 then Z.lor y 4 else y in
  Z.shiftr (Z.land y 0x7F) 3 = Z.shiftr (Z.land x 0x7F) 3.
Proof.
  intros Hx. apply Z.eqb_eq. revert x Hx. apply u8_forall.
  destruct c0, c1, c2; vm_compute; reflexivity.
Qed.

(** The sixteen bytes whose reserved bits are zero. *)
Definition valid_modifiable : list Z :=
  [0x00; 0x01; 0x02; 0x03; 0x04; 0x05; 0x06; 0x07; 0x80; 0x81; 0x82; 0x83; 0x84; 0x85; 0x86; 0x87].

Lemma reserved_zero_valid x : u8_ok x -> reserved_zero x -> In x valid_modifiable.
Proof.
  intros Hx Hr. unfold reserved_zero in Hr. apply Z.eqb_eq in Hr.
  assert (implb (Z.shiftr (Z.land x 0x7F) 3 =? 0) (existsb (Z.eqb x) valid_modifiable) = true) as H.
  { revert x Hx Hr. intros x Hx _. revert x Hx. apply u8_forall. vm_compute. reflexivity. }
  rewrite Hr in H. cbn [implb] in H. apply existsb_exists in H as (y & Hy & ->%Z.eqb_eq). done.
Qed.

Lemma merge_modifiable_valid a b :
  In a valid_modifiable -> In b valid_modifiable -> merge_modifiable a b = Some (join_modifiable a b).
Proof.
  intros Ha Hb.
  assert (forallb (fun x => forallb (fun y => bool_decide (merge_modifiable x y = Some (join_modifiable x y)))
    valid_modifiable) valid_modifiable = true) as H by (vm_compute; reflexivity).
  rewrite forallb_forall in H. specialize (H a Ha).
  rewrite forallb_forall in H. specialize (H b Hb). by apply bool_decide_eq_true in H.
Qed.

Lemma merge_modifiable_Some a b c :
  u8_ok a -> u8_ok b ->
  merge_modifiable a b = Some c <-> reserved_zero a /\ reserved_zero b /\ c = join_modifiable a b.
Proof.
  intros Ha Hb. destruct (decide (reserved_zero a /\ reserved_zero b)) as [[Ra Rb]|Hn].
  - rewrite merge_modifiable_valid by (by apply reserved_zero_valid). naive_solver.
  - split; [|naive_solver]. unfold merge_modifiable.
    change (not_u8 FLAG_TRANSPARENT_INPUTS_MODIFIABLE) with 0xFE.
    change (not_u8 FLAG_TRANSPARENT_OUTPUTS_MODIFIABLE) with 0xFD.
    change (not_u8 FLAG_SHIELDED_MODIFIABLE) with 0x7F.
    pose proof (low_bits_keep_reserved (Z.land b FLAG_TRANSPARENT_INPUTS_MODIFIABLE =? 0)
      (Z.land b FLAG_TRANSPARENT_OUTPUTS_MODIFIABLE =? 0)
      (negb (Z.land b FLAG_HAS_SIGHASH_SINGLE =? 0)) a Ha) as Hk.
    cbn zeta in *. unfold FLAG_HAS_SIGHASH_SINGLE in *. rewrite Hk. clear Hk. unfold reserved_zero in Hn.
    destruct (Z.eqb_spec (Z.shiftr (Z.land a 0x7F) 3) 0); [|done].
    destruct (Z.eqb_spec (Z.shiftr (Z.land b 0x7F) 3) 0); [|done]. by destruct Hn.
Qed.

Definition global_ok (g : Global) : Prop := u8_ok (tx_modifiable g).

Lemma global_merge_Some a b c :
  global_ok a -> global_ok b ->
  global_merge a b = Some c <->
  (tx_version a = tx_version b /\ version_group_id a = version_group_id b
   /\ consensus_branch_id a = consensus_branch_id b /\ fallback_lock_time a = fallback_lock_time b
   /\ expiry_height a = expiry_height b /\ coin_type a = coin_type b)
  /\ reserved_zero (tx_modifiable a) /\ reserved_zero (tx_modifiable b)
  /\ compatible (proprietary a) (proprietary b)
  /\ c = MkGlobal (tx_version a) (version_group_id a) (consensus_branch_id a) (fallback_lock_time a)
           (expiry_height a) (coin_type a) (join_modifiable (tx_modifiable a) (tx_modifiable b))
           (proprietary a ∪ proprietary b).
Proof.
  intros Ha Hb. unfold global_merge.
  destruct a as [tv vg cb fl eh ct m p], b as [tv' vg' cb' fl' eh' ct' m' p']; cbn in *.
  destruct (Z.eqb_spec tv tv'); cbn [negb orb]; [|naive_solver].
  destruct (Z.eqb_spec vg vg'); cbn [negb orb]; [|naive_solver].
  destruct (Z.eqb_spec cb cb'); cbn [negb orb]; [|naive_solver].
  case_bool_decide; cbn [negb orb]; [|naive_solver].
  destruct (Z.eqb_spec eh eh'); cbn [negb orb]; [|naive_solver].
  destruct (Z.eqb_spec ct ct'); cbn [negb orb]; [|naive_solver]. subst.
  rewrite bind_Some. setoid_rewrite bind_Some. setoid_rewrite merge_map_Some.
  setoid_rewrite (merge_modifiable_Some m m' _ Ha Hb). split.
  - intros (x & (Hr1 & Hr2 & ->) & y & (Hc & ->) & [= <-]). by split_and!.
  - intros (_ & Hr1 & Hr2 & Hc & ->). eexists. split; [done|]. eexists. by split.
Qed.

Lemma valid_modifiable_spec x : In x valid_modifiable <-> u8_ok x /\ reserved_zero x.
Proof.
  split; [|intros [? ?]; by apply reserved_zero_valid].
  intros H. assert (forallb (fun x => (0 <=? x) && (x <? 256) && (Z.shiftr (Z.land x 0x7F) 3 =? 0))
    valid_modifiable = true) as Hall by (vm_compute; reflexivity).
  rewrite forallb_forall in Hall. specialize (Hall x H). unfold u8_ok, reserved_zero. lia.
Qed.

(** On bytes with zero reserved bits the flags join like sets. *)
Lemma join_modifiable_laws a b c :
  In a valid_modifiable -> In b valid_modifiable -> In c valid_modifiable ->
  In (join_modifiable a b) valid_modifiable /\ join_modifiable a a = a
  /\ join_modifiable a b = join_modifiable b a
  /\ join_modifiable (join_modifiable a b) c = join_modifiable a (join_modifiable b c).
Proof.
  intros Ha Hb Hc.
  assert (forallb (fun a => forallb (fun b => forallb (fun c =>
      existsb (Z.eqb (join_modifiable a b)) valid_modifiable && (join_modifiable a a =? a)
      && (join_modifiable a b =? join_modifiable b a)
      && (join_modifiable (join_modifiable a b) c =? join_modifiable a (join_modifiable b c)))
    valid_modifiable) valid_modifiable) valid_modifiable = true) as H by (vm_compute; reflexivity).
  rewrite forallb_forall in H. specialize (H a Ha). rewrite forallb_forall in H. specialize (H b Hb).
  rewrite forallb_forall in H. specialize (H c Hc).
  apply andb_prop in H as [H H4%Z.eqb_eq]. apply andb_prop in H as [H H3%Z.eqb_eq].
  apply andb_prop in H as [H1 H2%Z.eqb_eq]. apply existsb_exists in H1 as (y & Hy & E%Z.eqb_eq).
  split_and!; [by rewrite E|done..].
Qed.

(** The flag accessors of the joined flags. *)
Lemma join_modifiable_flags a b :
  In a valid_modifiable -> In b valid_modifiable ->
  forall f, In f [(FLAG_TRANSPARENT_INPUTS_MODIFIABLE, andb); (FLAG_TRANSPARENT_OUTPUTS_MODIFIABLE, andb);
      (FLAG_HAS_SIGHASH_SINGLE, orb); (FLAG_SHIELDED_MODIFIABLE, andb)] ->
  negb (Z.land (join_modifiable a b) f.1 =? 0) = f.2 (negb (Z.land a f.1 =? 0)) (negb (Z.land b f.1 =? 0)).
Proof.
  intros Ha Hb f Hf.
  assert (forallb (fun a => forallb (fun b => forallb (fun f : Z * (bool -> bool -> bool) =>
      Bool.eqb (negb (Z.land (join_modifiable a b) f.1 =? 0))
        (f.2 (negb (Z.land a f.1 =? 0)) (negb (Z.land b f.1 =? 0))))
    [(FLAG_TRANSPARENT_INPUTS_MODIFIABLE, andb); (FLAG_TRANSPARENT_OUTPUTS_MODIFIABLE, andb);
      (FLAG_HAS_SIGHASH_SINGLE, orb); (FLAG_SHIELDED_MODIFIABLE, andb)])
    valid_modifiable) valid_modifiable = true) as H by (vm_compute; reflexivity).
  rewrite forallb_forall in H. specialize (H a Ha). rewrite forallb_forall in H. specialize (H b Hb).
  rewrite forallb_forall in H. specialize (H f Hf). by apply Bool.eqb_prop in H.
Qed.

Lemma global_merge_flags a b c :
  global_ok a -> global_ok b -> global_merge a b = Some c ->
  inputs_modifiable c = inputs_modifiable a && inputs_modifiable b
  /\ outputs_modifiable c = outputs_modifiable a && outputs_modifiable b
  /\ has_sighash_single c = has_sighash_single a || has_sighash_single b
  /\ shielded_modifiable c = shielded_modifiable a && shielded_modifiable b.
Proof.
  intros Ha Hb (_ & Ra & Rb & _ & ->)%global_merge_Some; [|done..].
  pose proof (join_modifiable_flags _ _ (reserved_zero_valid _ Ha Ra) (reserved_zero_valid _ Hb Rb)) as H.
  unfold inputs_modifiable, outputs_modifiable, has_sighash_single, shielded_modifiable; cbn [tx_modifiable].
  split_and!; [apply (H (_, andb))|apply (H (_, andb))|apply (H (_, orb))|apply (H (_, andb))]; cbn; auto.
Qed.

Lemma global_merge_ok a b c :
  global_ok a -> global_ok b -> global_merge a b = Some c ->
  global_ok c /\ reserved_zero (tx_modifiable c).
Proof.
  intros Ha Hb (_ & Ra & Rb & _ & ->)%global_merge_Some; [|done..]. cbn.
  apply (valid_modifiable_spec (join_modifiable (tx_modifiable a) (tx_modifiable b))).
  pose proof (reserved_zero_valid _ Ha Ra). pose proof (reserved_zero_valid _ Hb Rb).
  by apply (join_modifiable_laws _ _ (tx_modifiable a)).
Qed.

Lemma global_merge_comm a b : global_ok a -> global_ok b -> global_merge a b = global_merge b a.
Proof.
  intros Ha Hb. apply option_ext_Some. intros c. rewrite !global_merge_Some by done.
  split; intros ((-> & -> & -> & -> & -> & ->) & Ra & Rb & Hc & ->); split_and!; try done;
    try (by apply compatible_sym); f_equal;
    try (apply (join_modifiable_laws _ _ (tx_modifiable a)); by apply reserved_zero_valid);
    by apply compatible_union_comm.
Qed.

Lemma global_merge_assoc a b c :
  global_ok a -> global_ok b -> global_ok c ->
  (x ← global_merge a b; global_merge x c) = (y ← global_merge b c; global_merge a y).
Proof.
  intros Ha Hb Hc. apply option_ext_Some. intros m. rewrite !bind_Some. split.
  - intros (x & Hx & Hm). destruct (global_merge_ok a b x Ha Hb Hx) as [Hokx _].
    apply global_merge_Some in Hx as (Ex & Ra & Rb & Hab & ->); [|done..].
    apply global_merge_Some in Hm as (Em & _ & Rc & Habc & ->); [|done..]. cbn in *.
    apply compatible_union in Habc as [Hac Hbc]; [|done]. destruct_and?.
    pose proof (join_modifiable_laws _ _ _ (reserved_zero_valid _ Ha Ra) (reserved_zero_valid _ Hb Rb)
      (reserved_zero_valid _ Hc Rc)) as (_ & _ & _ & Hassoc).
    eexists. rewrite global_merge_Some by done.
    split; [split_and!; [congruence..|done|done|done|reflexivity]|].
    destruct (valid_modifiable_spec (join_modifiable (tx_modifiable b) (tx_modifiable c))) as [Hv _].
    destruct Hv as [Hv1 Hv2].
    { by apply (join_modifiable_laws _ _ (tx_modifiable b)); apply reserved_zero_valid. }
    rewrite global_merge_Some by done. cbn. split_and!; try congruence; try done.
    + apply compatible_sym, compatible_union; [done|]. by split; apply compatible_sym.
    + by rewrite Hassoc, map_union_assoc.
  - intros (y & Hy & Hm). destruct (global_merge_ok b c y Hb Hc Hy) as [Hoky _].
    apply global_merge_Some in Hy as (Ey & Rb & Rc & Hbc & ->); [|done..].
    apply global_merge_Some in Hm as (Em & Ra & _ & Habc & ->); [|done..]. cbn in *.
    apply compatible_sym, compatible_union in Habc as [Hba Hca]; [|done]. destruct_and?.
    pose proof (join_modifiable_laws _ _ _ (reserved_zero_valid _ Ha Ra) (reserved_zero_valid _ Hb Rb)
      (reserved_zero_valid _ Hc Rc)) as (_ & _ & _ & Hassoc).
    eexists. rewrite global_merge_Some by done.
    split; [split_and!; [congruence..|done|done|by apply compatible_sym|reflexivity]|].
    destruct (valid_modifiable_spec (join_modifiable (tx_modifiable a) (tx_modifiable b))) as [Hv _].
    destruct Hv as [Hv1 Hv2].
    { by apply (join_modifiable_laws _ _ (tx_modifiable b)); apply reserved_zero_valid. }
    rewrite global_merge_Some by done. cbn. split_and!; try congruence; try done.
    + apply compatible_union; [by apply compatible_sym|]. split; [by apply compatible_sym|done].
    + by rewrite Hassoc, map_union_assoc.
Qed.

Lemma global_merge_self g : global_ok g -> reserved_zero (tx_modifiable g) -> global_merge g g = Some g.
Proof.
  intros Hg Hr. rewrite global_merge_Some by done. split_and!; try done.
  - intros k x y Hx Hy. congruence.
  - pose proof (reserved_zero_valid _ Hg Hr) as Hv.
    rewrite (proj1 (proj2 (join_modifiable_laws _ _ _ Hv Hv Hv))), map_union_idemp. by destruct g.
Qed.

(** Merging the global fields does not depend on the order or grouping of the
    PCZTs, merging a PCZT with itself changes nothing, and the modifiable flags of
    the result are the conjunction (inputs, outputs, shielded) or the disjunction
    (SIGHASH_SINGLE) of those of the arguments. *)
Theorem global_merge_semilattice a b c :
  global_ok a -> global_ok b -> global_ok c ->
  (reserved_zero (tx_modifiable a) -> global_merge a a = Some a)
  /\ global_merge a b = global_merge b a
  /\ (x ← global_merge a b; global_merge x c) = (y ← global_merge b c; global_merge a y)
  /\ forall d, global_merge a b = Some d ->
       inputs_modifiable d = inputs_modifiable a && inputs_modifiable b
       /\ outputs_modifiable d = outputs_modifiable a && outputs_modifiable b
       /\ has_sighash_single d = has_sighash_single a || has_sighash_single b
       /\ shielded_modifiable d = shielded_modifiable a && shielded_modifiable b.
Proof.
  intros Ha Hb Hc. split_and!.
  - by apply global_merge_self.
  - by apply global_merge_comm.
  - by apply global_merge_assoc.
  - intros d Hd. by apply global_merge_flags.
Qed.

Definition sample_global (m : Z) (p : gmap string (list byte)) : Global :=
  MkGlobal 5 0x26A7270A 0xC2D6D0B4 None 1000 133 m p.

Lemma global_merge_semilattice_witness :
  global_merge (sample_global 0x83 {[ "a"%string := [Byte.x01] ]}) (sample_global 0x87 ∅)
  = global_merge (sample_global 0x87 ∅) (sample_global 0x83 {[ "a"%string := [Byte.x01] ]}).
Proof.
  destruct (global_merge_semilattice (sample_global 0x83 {[ "a"%string := [Byte.x01] ]})
    (sample_global 0x87 ∅) (sample_global 0x01 ∅)) as (_ & H & _).
  - unfold global_ok, u8_ok; cbn; lia.
  - unfold global_ok, u8_ok; cbn; lia.
  - unfold global_ok, u8_ok; cbn; lia.
  - exact H.
Defined.

(** ** The lock time *)

(** The trait [LockTimeInput] *)
Class LockTimeInput (L : Type) : Type := {
  required_time_lock_time : L -> option Z;
  required_height_lock_time : L -> option Z
}.

(** [Iterator::max] *)
Definition list_max (l : list Z) : option Z :=
  match l with [] => None | x :: l => Some (foldl Z.max x l) end.

Section LockTime.
Context {L : Type} `{LI : LockTimeInput L}.

(** [determine_lock_time] *)
Definition determine_lock_time (global : Global) (inputs : list L) : exec (option Z) :=
  let have_required_lock_time := existsb (fun i =>
    bool_decide (is_Some (required_time_lock_time i)) || bool_decide (is_Some (required_height_lock_time i))) inputs in
  let time_lock_time_unsupported := existsb (fun i => bool_decide (is_Some (required_height_lock_time i))) inputs in
  let height_lock_time_unsupported := existsb (fun i => bool_decide (is_Some (required_time_lock_time i))) inputs in
  match have_required_lock_time, time_lock_time_unsupported, height_lock_time_unsupported with
  | true, true, true => Ok None
  | true, false, true => m ← expect (list_max (omap required_time_lock_time inputs)); Ok (Some m)
  | true, _, false => m ← expect (list_max (omap required_height_lock_time inputs)); Ok (Some m)
  | false, _, _ => Ok (Some (default 0 (fallback_lock_time global)))
  end.

(** The lock time as BIP 370 and the comments of [determine_lock_time] describe it:
    the type that is present in all of the inputs which specify a lock time, height
    first, and the fallback if no input specifies one. *)
Definition bip370_lock_time (global : Global) (inputs : list L) : option Z :=
  let specifying := filter (fun i => is_Some (required_time_lock_time i) \/
                                     is_Some (required_height_lock_time i)) inputs in
  if bool_decide (specifying = []) then Some (default 0 (fallback_lock_time global))
  else if forallb (fun i => bool_decide (is_Some (required_height_lock_time i))) specifying
  then list_max (omap required_height_lock_time inputs)
  else if forallb (fun i => bool_decide (is_Some (required_time_lock_time i))) specifying
  then list_max (omap required_time_lock_time inputs)
  else None.

Definition specifies_both (i : L) : Prop :=
  is_Some (required_time_lock_time i) /\ is_Some (required_height_lock_time i).

Lemma list_max_omap (f : L -> option Z) inputs i x :
  i ∈ inputs -> f i = Some x -> exists m, list_max (omap f inputs) = Some m.
Proof using Type.
  intros Hi Hx. assert (x ∈ omap f inputs) as Hin by (apply list_elem_of_omap; eauto).
  destruct (omap f inputs); [by apply not_elem_of_nil in Hin|]. cbn. eauto.
Qed.

Lemma existsb_is_Some (f : L -> option Z) inputs :
  existsb (fun i => bool_decide (is_Some (f i))) inputs = true <-> exists i, i ∈ inputs /\ is_Some (f i).
Proof using Type.
  rewrite existsb_exists. setoid_rewrite bool_decide_eq_true. by setoid_rewrite list_elem_of_In.
Qed.

Lemma forallb_is_Some_true (f : L -> option Z) l :
  (forall i, i ∈ l -> is_Some (f i)) -> forallb (fun i => bool_decide (is_Some (f i))) l = true.
Proof using Type.
  intros H. apply forallb_forall. intros i Hi. apply bool_decide_eq_true, H. by apply list_elem_of_In.
Qed.

Lemma forallb_is_Some_false (f : L -> option Z) l i :
  i ∈ l -> f i = None -> forallb (fun i => bool_decide (is_Some (f i))) l = false.
Proof using Type.
  intros Hi Hn. apply not_true_iff_false. rewrite forallb_forall. intros H.
  specialize (H i (proj1 (list_elem_of_In _ _) Hi)). apply bool_decide_eq_true in H. by destruct H; congruence.
Qed.

Lemma existsb_orb_split (f g : L -> bool) l :
  existsb (fun i => f i || g i) l = existsb f l || existsb g l.
Proof using Type.
  induction l as [|i l IH]; cbn; [done|]. rewrite IH. by destruct (f i), (g i), (existsb f l).
Qed.

(** When no input specifies both a time and a height lock time, [determine_lock_time]
    does not panic and computes the lock time that BIP 370 prescribes. *)
Theorem determine_lock_time_bip370 global inputs :
  Forall (fun i => ~ specifies_both i) inputs ->
  determine_lock_time global inputs = Ok (bip370_lock_time global inputs).
Proof using Type.
  intros Hb. unfold determine_lock_time, bip370_lock_time. set (sp := filter _ inputs).
  assert (forall i, i ∈ sp <-> (is_Some (required_time_lock_time i) \/
    is_Some (required_height_lock_time i)) /\ i ∈ inputs) as Hsp
    by (intros i; unfold sp; by rewrite list_elem_of_filter).
  assert (forall i, i ∈ inputs -> is_Some (required_time_lock_time i) ->
    required_height_lock_time i = None) as Hexcl.
  { intros i Hi Ht. apply eq_None_not_Some. intros Hh. rewrite Forall_forall in Hb. by apply (Hb i Hi). }
  rewrite existsb_orb_split.
  destruct (existsb (fun i => bool_decide (is_Some (required_time_lock_time i))) inputs) eqn:ET;
    destruct (existsb (fun i => bool_decide (is_Some (required_height_lock_time i))) inputs) eqn:EH; cbn [orb].
  - apply existsb_is_Some in ET as (i & Hi & Ht), EH as (j & Hj & Hh).
    assert (i ∈ sp) as Hisp by (apply Hsp; auto). assert (j ∈ sp) as Hjsp by (apply Hsp; auto).
    rewrite bool_decide_false by (intros E; rewrite E in Hisp; by apply not_elem_of_nil in Hisp).
    rewrite (forallb_is_Some_false _ _ i Hisp) by auto.
    rewrite (forallb_is_Some_false _ _ j Hjsp); [done|].
    apply eq_None_not_Some. intros Ht'. rewrite (Hexcl j Hj Ht') in Hh. by destruct Hh.
  - apply existsb_is_Some in ET as (i & Hi & Ht). assert (i ∈ sp) as Hisp by (apply Hsp; auto).
    rewrite bool_decide_false by (intros E; rewrite E in Hisp; by apply not_elem_of_nil in Hisp).
    rewrite (forallb_is_Some_false _ _ i Hisp) by auto.
    rewrite forallb_is_Some_true.
    + destruct Ht as [x Hx]. destruct (list_max_omap _ _ _ _ Hi Hx) as [m Hm]. by rewrite Hm.
    + intros j [[Ht'|Hh'] Hj]%Hsp; [done|]. exfalso.
      assert (existsb (fun i => bool_decide (is_Some (required_height_lock_time i))) inputs = true)
        by (apply existsb_is_Some; eauto). congruence.
  - apply existsb_is_Some in EH as (j & Hj & Hh). assert (j ∈ sp) as Hjsp by (apply Hsp; auto).
    rewrite bool_decide_false by (intros E; rewrite E in Hjsp; by apply not_elem_of_nil in Hjsp).
    rewrite forallb_is_Some_true.
    + destruct Hh as [x Hx]. destruct (list_max_omap _ _ _ _ Hj Hx) as [m Hm]. by rewrite Hm.
    + intros i [[Ht'|Hh'] Hi]%Hsp; [|done]. exfalso.
      assert (existsb (fun i => bool_decide (is_Some (required_time_lock_time i))) inputs = true)
        by (apply existsb_is_Some; eauto). congruence.
  - rewrite bool_decide_true; [done|]. apply elem_of_nil_inv. intros i [[Ht|Hh] Hi]%Hsp.
    + assert (existsb (fun i => bool_decide (is_Some (required_time_lock_time i))) inputs = true)
        by (apply existsb_is_Some; eauto). congruence.
    + assert (existsb (fun i => bool_decide (is_Some (required_height_lock_time i))) inputs = true)
        by (apply existsb_is_Some; eauto). congruence.
Qed.

(** An input that specifies both lock times makes [determine_lock_time] report that
    the inputs are incompatible, although BIP 370 and the comments of the function
    give the height lock time of that input. *)
Theorem determine_lock_time_both_specified global i t h :
  required_time_lock_time i = Some t -> required_height_lock_time i = Some h ->
  (forall inputs, i ∈ inputs -> determine_lock_time global inputs = Ok None)
  /\ bip370_lock_time global [i] = Some h.
Proof using Type.
  intros Ht Hh. split.
  - intros inputs Hi. unfold determine_lock_time. rewrite existsb_orb_split.
    rewrite (proj2 (existsb_is_Some required_time_lock_time inputs)) by eauto.
    rewrite (proj2 (existsb_is_Some required_height_lock_time inputs)) by eauto. done.
  - unfold bip370_lock_time. rewrite filter_cons_True by eauto. cbn. rewrite Hh. done.
Qed.
End LockTime.

#[export] Instance pair_lock_time_input : LockTimeInput (option Z * option Z) := {|
  required_time_lock_time := fst; required_height_lock_time := snd |}.

Lemma determine_lock_time_bip370_witness :
  determine_lock_time (sample_global 0 ∅) [(None, Some 100); (None, None); (None, Some 250)]
  = Ok (bip370_lock_time (sample_global 0 ∅) [(None, Some 100); (None, None); (None, Some 250)]).
Proof.
  apply (determine_lock_time_bip370 (sample_global 0 ∅) [(None, Some 100); (None, None); (None, Some 250)]).
  repeat constructor; intros [[x Hx] [y Hy]]; cbn in *; discriminate.
Defined.

Lemma determine_lock_time_both_specified_witness :
  determine_lock_time (sample_global 0 ∅) [(Some 500000001, Some 100)] = Ok None
  /\ bip370_lock_time (sample_global 0 ∅) [(Some 500000001, Some 100)] = Some 100.
Proof.
  destruct (determine_lock_time_both_specified (sample_global 0 ∅) (Some 500000001, Some 100)
    500000001 100) as [H1 H2].
  - reflexivity.
  - reflexivity.
  - split; [apply H1; constructor|exact H2].
Defined.

(** ** Anchors *)

Definition PLACEHOLDER_ANCHOR : list byte := repeat Byte.x00 32.

Inductive AnchorRequirement : Type := NotRequired | Required.

(** [AnchorRequirement::for_pre_authorization]; [v6] is
    [zcash_protocol::constants::V6_TX_VERSION]. *)
Definition for_pre_authorization (v6 tx_version : Z) : AnchorRequirement :=
  if tx_version =? v6 then NotRequired else Required.

(** [AnchorRequirement::resolve] *)
Definition resolve (self : AnchorRequirement) (anchor : option (list byte)) (bundle_is_empty : bool)
  : option (list byte) :=
  match self, anchor with
  | _, Some anchor => Some anchor
  | NotRequired, None => Some PLACEHOLDER_ANCHOR
  | Required, None => if bundle_is_empty then Some PLACEHOLDER_ANCHOR else None
  end.
