(* ===== verification/PcztTransparent.v ===== *)
(** * PCZT: merging lists, and the transparent bundle

    The matching of lists that the [Bundle::merge] functions share, and
    [librustzcash/pczt/src/transparent.rs]. *)

From S2P Require Import Prelude PcztCommon.

(** ** Lists of inputs, outputs, spends or actions *)

Section MergeLists.
Context {A : Type} (mg : A -> A -> option A).

(** The [match] on the modifiable flags and the lengths: [None] is its error arm,
    otherwise the list of [self] after [extend] and the list of [other] after
    [drain]. *)
Definition move_excess (self_modifiable other_modifiable : bool) (self other : list A)
  : option (list A * list A) :=
  match self_modifiable, other_modifiable, Nat.compare (length self) (length other) with
  | false, _, Lt | _, false, Gt => None
  | true, _, Lt => Some (self ++ drop (length self) other, take (length self) other)
  | _, _, Eq | _, true, Gt => Some (self, other)
  end.

(** [for (lhs, rhs) in self.iter_mut().zip(other) { .. }] *)
Fixpoint zip_merge (self other : list A) : option (list A) :=
  match self, other with
  | l :: self, r :: other => x ← mg l r; xs ← zip_merge self other; Some (x :: xs)
  | self, _ => Some self
  end.

Definition merge_lists (self_modifiable other_modifiable : bool) (self other : list A)
  : option (list A) :=
  '(self, other) ← move_excess self_modifiable other_modifiable self other;
  zip_merge self other.

(** The merge of lists of any lengths, position by position. *)
Fixpoint join_lists (l r : list A) : option (list A) :=
  match l, r with
  | [], r => Some r
  | l, [] => Some l
  | a :: l, b :: r => x ← mg a b; xs ← join_lists l r; Some (x :: xs)
  end.

Lemma join_lists_nil_r l : join_lists l [] = Some l.
Proof. by destruct l. Qed.

Lemma zip_merge_join l r : (length r <= length l)%nat -> zip_merge l r = join_lists l r.
Proof.
  revert r. induction l as [|a l IH]; intros [|b r] Hl; cbn in *; try done; [lia|].
  rewrite IH by lia. done.
Qed.

Lemma zip_merge_extend l r :
  (length l <= length r)%nat ->
  zip_merge (l ++ drop (length l) r) (take (length l) r) = join_lists l r.
Proof.
  revert r. induction l as [|a l IH]; intros r Hl.
  - cbn. rewrite drop_0. by destruct r.
  - destruct r as [|b r]; cbn in *; [lia|]. rewrite IH by lia. done.
Qed.

(** A list can only grow in a bundle that is modifiable. *)
Definition may_merge (ml mr : bool) (l r : list A) : bool :=
  (ml || (length r <=? length l)%nat) && (mr || (length l <=? length r)%nat).

Lemma merge_lists_join ml mr l r :
  merge_lists ml mr l r = if may_merge ml mr l r then join_lists l r else None.
Proof.
  unfold merge_lists, move_excess, may_merge.
  destruct (Nat.compare_spec (length l) (length r)) as [E|E|E].
  - replace (length r <=? length l)%nat with true by (symmetry; apply Nat.leb_le; lia).
    replace (length l <=? length r)%nat with true by (symmetry; apply Nat.leb_le; lia).
    rewrite !orb_true_r. destruct ml, mr; cbn; apply zip_merge_join; lia.
  - replace (length r <=? length l)%nat with false by (symmetry; apply Nat.leb_gt; lia).
    replace (length l <=? length r)%nat with true by (symmetry; apply Nat.leb_le; lia).
    rewrite orb_true_r, orb_false_r, andb_true_r. destruct ml, mr; cbn; try done; apply zip_merge_extend; lia.
  - replace (length r <=? length l)%nat with true by (symmetry; apply Nat.leb_le; lia).
    replace (length l <=? length r)%nat with false by (symmetry; apply Nat.leb_gt; lia).
    rewrite orb_true_r, orb_false_r, andb_true_l. destruct ml, mr; cbn; try done; apply zip_merge_join; lia.
Qed.

Lemma may_merge_comm ml mr l r : may_merge ml mr l r = may_merge mr ml r l.
Proof. unfold may_merge. apply andb_comm. Qed.

Context `{ML : !MergeLaws mg}.

#[export] Instance join_lists_laws : MergeLaws join_lists.
Proof using ML.
  split.
  - intros l. induction l as [|a l IH]; cbn; [done|]. by rewrite (mg_idem a), IH.
  - intros l. induction l as [|a l IH]; intros [|b r]; cbn; try done. by rewrite (mg_comm a b), IH.
  - intros l. induction l as [|a l IH]; intros r s; cbn.
    + by destruct (join_lists r s).
    + destruct r as [|b r]; [done|]. destruct s as [|c s].
      * cbn. destruct (mg a b) as [x|], (join_lists l r) as [xs|]; cbn; try done.
      * pose proof (mg_assoc a b c) as Ha. pose proof (IH r s) as Hl. cbn.
        destruct (mg a b) as [x|], (mg b c) as [y|]; cbn in *;
          destruct (join_lists l r) as [xs|], (join_lists r s) as [ys|]; cbn in *;
          rewrite <- ?Ha, <- ?Hl; cbn; try done; rewrite ?Ha, ?Hl; cbn; try done;
          try (by destruct (mg x c)); try (by destruct (mg a y)).
Qed.

Lemma merge_lists_comm ml mr l r : merge_lists ml mr l r = merge_lists mr ml r l.
Proof using ML. by rewrite !merge_lists_join, may_merge_comm, mg_comm. Qed.

Lemma merge_lists_idem ml mr l : merge_lists ml mr l l = Some l.
Proof using ML.
  rewrite merge_lists_join, mg_idem. unfold may_merge.
  rewrite (proj2 (Nat.leb_le _ _)) by lia. by rewrite !orb_true_r.
Qed.

Lemma merge_lists_Some ml mr l r c :
  merge_lists ml mr l r = Some c <-> may_merge ml mr l r = true /\ join_lists l r = Some c.
Proof using Type. rewrite merge_lists_join. destruct (may_merge _ _ _ _); naive_solver. Qed.
End MergeLists.

Lemma join_lists_length {A} (mg : A -> A -> option A) l r c :
  join_lists mg l r = Some c -> length c = Nat.max (length l) (length r).
Proof.
  revert r c. induction l as [|a l IH]; intros [|b r] c; cbn; try (by intros [= <-]).
  destruct (mg a b); [|done]. cbn. destruct (join_lists mg l r) as [xs|] eqn:E; [|done].
  cbn. intros [= <-]. cbn. by rewrite (IH _ _ E).
Qed.

(** ** The transparent bundle *)

Record Zip32Derivation : Type := MkZip32Derivation {
  seed_fingerprint : list byte; derivation_path : list Z }.

#[global] Instance Zip32Derivation_eq_dec : EqDecision Zip32Derivation.
Proof. solve_decision. Defined.

Record TInput : Type := MkTInput {
  ti_prevout_txid : list byte;
  ti_prevout_index : Z;
  ti_sequence : option Z;
  ti_required_time_lock_time : option Z;
  ti_required_height_lock_time : option Z;
  ti_script_sig : option (list byte);
  ti_value : Z;
  ti_script_pubkey : list byte;
  ti_redeem_script : option (list byte);
  ti_partial_signatures : gmap (list byte) (list byte);
  ti_sighash_type : Z;
  ti_bip32_derivation : gmap (list byte) Zip32Derivation;
  ti_ripemd160_preimages : gmap (list byte) (list byte);
  ti_sha256_preimages : gmap (list byte) (list byte);
  ti_hash160_preimages : gmap (list byte) (list byte);
  ti_hash256_preimages : gmap (list byte) (list byte);
  ti_proprietary : gmap string (list byte)
}.

Record TOutput : Type := MkTOutput {
  to_value : Z;
  to_script_pubkey : list byte;
  to_redeem_script : option (list byte);
  to_bip32_derivation : gmap (list byte) Zip32Derivation;
  to_user_address : option string;
  to_proprietary : gmap string (list byte)
}.

Record TBundle : Type := MkTBundle { tb_inputs : list TInput; tb_outputs : list TOutput }.

#[global] Instance TInput_eq_dec : EqDecision TInput.
Proof. solve_decision. Defined.
#[global] Instance TOutput_eq_dec : EqDecision TOutput.
Proof. solve_decision. Defined.
#[global] Instance TBundle_eq_dec : EqDecision TBundle.
Proof. solve_decision. Defined.

(** [transparent::EMPTY_BUNDLE] *)
Definition EMPTY_TBUNDLE : TBundle := MkTBundle [] [].

(** The lock times of an input: [impl LockTimeInput for transparent::Input]. *)
#[export] Instance TInput_lock_time : LockTimeInput TInput := {|
  required_time_lock_time := ti_required_time_lock_time;
  required_height_lock_time := ti_required_height_lock_time |}.

(** The body of the loop over the inputs in [Bundle::merge] *)
Definition merge_input (lhs rhs : TInput) : option TInput :=
  if negb (bool_decide (ti_prevout_txid lhs = ti_prevout_txid rhs))
     || negb (ti_prevout_index lhs =? ti_prevout_index rhs)
     || negb (ti_value lhs =? ti_value rhs)
     || negb (bool_decide (ti_script_pubkey lhs = ti_script_pubkey rhs))
     || negb (ti_sighash_type lhs =? ti_sighash_type rhs)
  then None
  else
    sequence ← merge_optional (ti_sequence lhs) (ti_sequence rhs);
    time ← merge_optional (ti_required_time_lock_time lhs) (ti_required_time_lock_time rhs);
    height ← merge_optional (ti_required_height_lock_time lhs) (ti_required_height_lock_time rhs);
    script_sig ← merge_optional (ti_script_sig lhs) (ti_script_sig rhs);
    redeem ← merge_optional (ti_redeem_script lhs) (ti_redeem_script rhs);
    sigs ← merge_map (ti_partial_signatures lhs) (ti_partial_signatures rhs);
    bip32 ← merge_map (ti_bip32_derivation lhs) (ti_bip32_derivation rhs);
    ripemd160 ← merge_map (ti_ripemd160_preimages lhs) (ti_ripemd160_preimages rhs);
    sha256 ← merge_map (ti_sha256_preimages lhs) (ti_sha256_preimages rhs);
    hash160 ← merge_map (ti_hash160_preimages lhs) (ti_hash160_preimages rhs);
    hash256 ← merge_map (ti_hash256_preimages lhs) (ti_hash256_preimages rhs);
    prop ← merge_map (ti_proprietary lhs) (ti_proprietary rhs);
    Some (MkTInput (ti_prevout_txid lhs) (ti_prevout_index lhs) sequence time height script_sig
            (ti_value lhs) (ti_script_pubkey lhs) redeem sigs (ti_sighash_type lhs) bip32
            ripemd160 sha256 hash160 hash256 prop).

(** The body of the loop over the outputs in [Bundle::merge] *)
Definition merge_output (lhs rhs : TOutput) : option TOutput :=
  if negb (to_value lhs =? to_value rhs)
     || negb (bool_decide (to_script_pubkey lhs = to_script_pubkey rhs))
  then None
  else
    redeem ← merge_optional (to_redeem_script lhs) (to_redeem_script rhs);
    bip32 ← merge_map (to_bip32_derivation lhs) (to_bip32_derivation rhs);
    address ← merge_optional (to_user_address lhs) (to_user_address rhs);
    prop ← merge_map (to_proprietary lhs) (to_proprietary rhs);
    Some (MkTOutput (to_value lhs) (to_script_pubkey lhs) redeem bip32 address prop).

(** [transparent::Bundle::merge] *)
Definition tbundle_merge (self other : TBundle) (self_global other_global : Global) : option TBundle :=
  '(self_inputs, inputs) ← move_excess (inputs_modifiable self_global) (inputs_modifiable other_global)
                             (tb_inputs self) (tb_inputs other);
  '(self_outputs, outputs) ← move_excess (outputs_modifiable self_global) (outputs_modifiable other_global)
                               (tb_outputs self) (tb_outputs other);
  inputs ← zip_merge merge_input self_inputs inputs;
  outputs ← zip_merge merge_output self_outputs outputs;
  Some (MkTBundle inputs outputs).

(** ** The laws *)

(** Compares the required fields of two records. *)
Ltac required_fields :=
  repeat match goal with
  | |- context [decide (?x = ?y)] =>
      lazymatch x with merge_optional _ _ => fail | merge_map _ _ => fail | _ =>
        destruct (decide (x = y)) as [?|?];
        [subst; rewrite ?Z.eqb_refl, ?(bool_decide_true (y = y) eq_refl); cbn [negb orb mbind option_bind fmap option_fmap option_map]
        |rewrite ?(proj2 (Z.eqb_neq x y)), ?(bool_decide_false (x = y)) by done;
         cbn [negb orb]; rewrite ?orb_true_r; done]
      end
  end.

Definition input_tuple (i : TInput) :=
  (ti_prevout_txid i, (ti_prevout_index i, (ti_value i, (ti_script_pubkey i, (ti_sighash_type i,
  (ti_sequence i, (ti_required_time_lock_time i, (ti_required_height_lock_time i, (ti_script_sig i,
  (ti_redeem_script i, (ti_partial_signatures i, (ti_bip32_derivation i, (ti_ripemd160_preimages i,
  (ti_sha256_preimages i, (ti_hash160_preimages i, (ti_hash256_preimages i, ti_proprietary i)))))))))))))))).

Definition input_of_tuple t : TInput :=
  let '(txid, (idx, (v, (spk, (sht, (sq, (tm, (ht, (ss, (rs, (ps, (bd, (rp, (sh, (h1, (h2, pr)))))))))))))))) := t in
  MkTInput txid idx sq tm ht ss v spk rs ps sht bd rp sh h1 h2 pr.

#[export] Instance merge_input_laws : MergeLaws merge_input.
Proof.
  apply (merge_laws_iso input_tuple input_of_tuple merge_input
    (merge_pair merge_eq (merge_pair merge_eq (merge_pair merge_eq (merge_pair merge_eq (merge_pair merge_eq
    (merge_pair merge_optional (merge_pair merge_optional (merge_pair merge_optional (merge_pair merge_optional
    (merge_pair merge_optional (merge_pair merge_map (merge_pair merge_map (merge_pair merge_map
    (merge_pair merge_map (merge_pair merge_map (merge_pair merge_map merge_map))))))))))))))))).
  - by intros [].
  - by intros (?&?&?&?&?&?&?&?&?&?&?&?&?&?&?&?&?).
  - intros [] []. unfold merge_input, merge_pair, merge_eq, input_tuple; cbn. required_fields.
    merge_fields. done.
Qed.

Definition output_tuple (o : TOutput) :=
  (to_value o, (to_script_pubkey o, (to_redeem_script o, (to_bip32_derivation o, (to_user_address o, to_proprietary o))))).

Definition output_of_tuple t : TOutput :=
  let '(v, (spk, (rs, (bd, (ua, pr))))) := t in MkTOutput v spk rs bd ua pr.

#[export] Instance merge_output_laws : MergeLaws merge_output.
Proof.
  apply (merge_laws_iso output_tuple output_of_tuple merge_output
    (merge_pair merge_eq (merge_pair merge_eq (merge_pair merge_optional (merge_pair merge_map
    (merge_pair merge_optional merge_map)))))).
  - by intros [].
  - by intros (?&?&?&?&?&?).
  - intros [] []. unfold merge_output, merge_pair, merge_eq, output_tuple; cbn. required_fields.
    merge_fields. done.
Qed.

Lemma tbundle_merge_lists a b ga gb :
  tbundle_merge a b ga gb =
  (i ← merge_lists merge_input (inputs_modifiable ga) (inputs_modifiable gb) (tb_inputs a) (tb_inputs b);
   o ← merge_lists merge_output (outputs_modifiable ga) (outputs_modifiable gb) (tb_outputs a) (tb_outputs b);
   Some (MkTBundle i o)).
Proof.
  unfold tbundle_merge, merge_lists.
  destruct (move_excess _ _ (tb_inputs a) (tb_inputs b)) as [[i1 i2]|]; [|done]. cbn.
  destruct (move_excess _ _ (tb_outputs a) (tb_outputs b)) as [[o1 o2]|]; cbn; [done|].
  by destruct (zip_merge merge_input i1 i2).
Qed.

Lemma tbundle_merge_self b ga gb : tbundle_merge b b ga gb = Some b.
Proof.
  rewrite tbundle_merge_lists, (merge_lists_idem merge_input), (merge_lists_idem merge_output). by destruct b.
Qed.

Lemma tbundle_merge_below a b ga gb c :
  tbundle_merge a b ga gb = Some c ->
  (below (join_lists merge_input) (tb_inputs a) (tb_inputs c)
   /\ below (join_lists merge_output) (tb_outputs a) (tb_outputs c))
  /\ (below (join_lists merge_input) (tb_inputs b) (tb_inputs c)
      /\ below (join_lists merge_output) (tb_outputs b) (tb_outputs c)).
Proof.
  rewrite tbundle_merge_lists. intros (i & Hi & (o & Ho & [= <-])%bind_Some)%bind_Some. cbn.
  apply merge_lists_Some in Hi as [_ Hi], Ho as [_ Ho].
  destruct (merge_upper_bound _ _ _ _ Hi), (merge_upper_bound _ _ _ _ Ho). done.
Qed.

(** The transparent bundles of two PCZTs are merged independently of their order;
    a bundle merged with itself is unchanged; and the merge of two bundles has every
    input and output, signature, derivation path, preimage and proprietary field of
    both, and none that conflicts. *)
Theorem tbundle_merge_laws a b ga gb :
  tbundle_merge a b ga gb = tbundle_merge b a gb ga
  /\ tbundle_merge a a ga gb = Some a
  /\ forall c, tbundle_merge a b ga gb = Some c ->
       (below (join_lists merge_input) (tb_inputs a) (tb_inputs c)
        /\ below (join_lists merge_output) (tb_outputs a) (tb_outputs c))
       /\ (below (join_lists merge_input) (tb_inputs b) (tb_inputs c)
           /\ below (join_lists merge_output) (tb_outputs b) (tb_outputs c)).
Proof.
  split_and!; [|apply tbundle_merge_self|intros c; apply tbundle_merge_below].
  rewrite !tbundle_merge_lists.
  by rewrite (merge_lists_comm merge_input (inputs_modifiable ga)),
    (merge_lists_comm merge_output (outputs_modifiable ga)).
Qed.

(** A merge never adds inputs or outputs to a bundle whose PCZT does not allow it:
    if [self] is not modifiable, then it keeps its inputs and outputs one for one. *)
Theorem tbundle_merge_respects_modifiable a b ga gb c :
  tbundle_merge a b ga gb = Some c ->
  (inputs_modifiable ga = false -> length (tb_inputs c) = length (tb_inputs a))
  /\ (outputs_modifiable ga = false -> length (tb_outputs c) = length (tb_outputs a)).
Proof.
  rewrite tbundle_merge_lists.
  intros (i & Hi & (o & Ho & [= <-])%bind_Some)%bind_Some. cbn.
  apply merge_lists_Some in Hi as [Mi Hi], Ho as [Mo Ho].
  apply join_lists_length in Hi, Ho. unfold may_merge in Mi, Mo.
  split; intros E; rewrite E in *; cbn [orb] in *.
  - apply andb_prop in Mi as [Mi%Nat.leb_le _]. lia.
  - apply andb_prop in Mo as [Mo%Nat.leb_le _]. lia.
Qed.

(** ** Evaluation *)

Definition sample_input (idx : Z) (sig : option (list byte)) (sigs : gmap (list byte) (list byte)) : TInput :=
  MkTInput (repeat Byte.x01 32) idx None None None sig 1000 [Byte.x51] None sigs 1 ∅ ∅ ∅ ∅ ∅ ∅.

Definition sample_t1 : TBundle := MkTBundle [sample_input 0 (Some [Byte.xaa]) ∅] [].
Definition sample_t2 : TBundle := MkTBundle [sample_input 0 None ∅] [].

Lemma tbundle_merge_respects_modifiable_witness :
  length (tb_inputs sample_t1) = length (tb_inputs sample_t2).
Proof.
  apply (tbundle_merge_respects_modifiable sample_t2 sample_t1 (sample_global 0 ∅) (sample_global 0 ∅) sample_t1).
  - reflexivity.
  - reflexivity.
Defined.

Lemma tbundle_merge_laws_witness :
  tbundle_merge sample_t1 sample_t2 (sample_global 0 ∅) (sample_global 0 ∅) = Some sample_t1
  /\ below (join_lists merge_input) (tb_inputs sample_t2) (tb_inputs sample_t1).
Proof.
  split; [reflexivity|].
  apply (tbundle_merge_laws sample_t1 sample_t2 (sample_global 0 ∅) (sample_global 0 ∅)). reflexivity.
Defined.
