(* ===== verification/PcztSapling.v ===== *)
(** * PCZT: the Sapling bundle

    [librustzcash/pczt/src/sapling.rs]: the logical bundle, [Bundle::merge], and the
    conversions to and from the v1 and v2 encodings. *)

From S2P Require Import Prelude PcztCommon PcztTransparent.

Record SSpend : Type := MkSSpend {
  ss_cv : list byte;
  ss_nullifier : list byte;
  ss_rk : list byte;
  ss_zkproof : option (list byte);
  ss_spend_auth_sig : option (list byte);
  ss_recipient : option (list byte);
  ss_value : option Z;
  ss_rcm : option (list byte);
  ss_rseed : option (list byte);
  ss_rcv : option (list byte);
  ss_proof_generation_key : option (list byte * list byte);
  ss_witness : option (Z * list (list byte));
  ss_alpha : option (list byte);
  ss_zip32_derivation : option Zip32Derivation;
  ss_dummy_ask : option (list byte);
  ss_proprietary : gmap string (list byte)
}.

Record SOutput : Type := MkSOutput {
  sou_cv : list byte;
  sou_cmu : list byte;
  sou_ephemeral_key : list byte;
  sou_enc_ciphertext : list byte;
  sou_out_ciphertext : list byte;
  sou_zkproof : option (list byte);
  sou_recipient : option (list byte);
  sou_value : option Z;
  sou_rseed : option (list byte);
  sou_rcv : option (list byte);
  sou_ock : option (list byte);
  sou_zip32_derivation : option Zip32Derivation;
  sou_user_address : option string;
  sou_proprietary : gmap string (list byte)
}.

Record SBundle : Type := MkSBundle {
  sb_spends : list SSpend;
  sb_outputs : list SOutput;
  sb_value_sum : Z;
  sb_anchor : option (list byte);
  sb_bsk : option (list byte)
}.

#[global] Instance SSpend_eq_dec : EqDecision SSpend.
Proof. solve_decision. Defined.
#[global] Instance SOutput_eq_dec : EqDecision SOutput.
Proof. solve_decision. Defined.
#[global] Instance SBundle_eq_dec : EqDecision SBundle.
Proof. solve_decision. Defined.

(** [sapling::EMPTY_BUNDLE], [sapling::DEFAULT_ANCHOR] *)
Definition EMPTY_SBUNDLE : SBundle := MkSBundle [] [] 0 None None.
Definition SAPLING_DEFAULT_ANCHOR : list byte := repeat Byte.x00 32.

(** The body of the loop over the spends in [Bundle::merge] *)
Definition merge_sspend (lhs rhs : SSpend) : option SSpend :=
  if negb (bool_decide (ss_cv lhs = ss_cv rhs)) || negb (bool_decide (ss_nullifier lhs = ss_nullifier rhs))
     || negb (bool_decide (ss_rk lhs = ss_rk rhs))
  then None
  else
    zkproof ← merge_optional (ss_zkproof lhs) (ss_zkproof rhs);
    sig ← merge_optional (ss_spend_auth_sig lhs) (ss_spend_auth_sig rhs);
    recipient ← merge_optional (ss_recipient lhs) (ss_recipient rhs);
    value ← merge_optional (ss_value lhs) (ss_value rhs);
    rcm ← merge_optional (ss_rcm lhs) (ss_rcm rhs);
    rseed ← merge_optional (ss_rseed lhs) (ss_rseed rhs);
    rcv ← merge_optional (ss_rcv lhs) (ss_rcv rhs);
    pgk ← merge_optional (ss_proof_generation_key lhs) (ss_proof_generation_key rhs);
    witness ← merge_optional (ss_witness lhs) (ss_witness rhs);
    alpha ← merge_optional (ss_alpha lhs) (ss_alpha rhs);
    zip32 ← merge_optional (ss_zip32_derivation lhs) (ss_zip32_derivation rhs);
    dummy ← merge_optional (ss_dummy_ask lhs) (ss_dummy_ask rhs);
    prop ← merge_map (ss_proprietary lhs) (ss_proprietary rhs);
    Some (MkSSpend (ss_cv lhs) (ss_nullifier lhs) (ss_rk lhs) zkproof sig recipient value rcm rseed rcv
            pgk witness alpha zip32 dummy prop).

(** The body of the loop over the outputs in [Bundle::merge] *)
Definition merge_soutput (lhs rhs : SOutput) : option SOutput :=
  if negb (bool_decide (sou_cv lhs = sou_cv rhs)) || negb (bool_decide (sou_cmu lhs = sou_cmu rhs))
     || negb (bool_decide (sou_ephemeral_key lhs = sou_ephemeral_key rhs))
     || negb (bool_decide (sou_enc_ciphertext lhs = sou_enc_ciphertext rhs))
     || negb (bool_decide (sou_out_ciphertext lhs = sou_out_ciphertext rhs))
  then None
  else
    zkproof ← merge_optional (sou_zkproof lhs) (sou_zkproof rhs);
    recipient ← merge_optional (sou_recipient lhs) (sou_recipient rhs);
    value ← merge_optional (sou_value lhs) (sou_value rhs);
    rseed ← merge_optional (sou_rseed lhs) (sou_rseed rhs);
    rcv ← merge_optional (sou_rcv lhs) (sou_rcv rhs);
    ock ← merge_optional (sou_ock lhs) (sou_ock rhs);
    zip32 ← merge_optional (sou_zip32_derivation lhs) (sou_zip32_derivation rhs);
    address ← merge_optional (sou_user_address lhs) (sou_user_address rhs);
    prop ← merge_map (sou_proprietary lhs) (sou_proprietary rhs);
    Some (MkSOutput (sou_cv lhs) (sou_cmu lhs) (sou_ephemeral_key lhs) (sou_enc_ciphertext lhs)
            (sou_out_ciphertext lhs) zkproof recipient value rseed rcv ock zip32 address prop).

(** The state of [Bundle::merge] after the [match] on [bsk]: the spends and outputs of
    [self], those that remain of [other], and [self.value_sum]. *)
Definition sapling_match_bsk (self other : SBundle) (self_global other_global : Global)
  : option ((list SSpend * list SSpend) * (list SOutput * list SOutput) * Z) :=
  match sb_bsk self, sb_bsk other with
  | None, None =>
      let spends_cmp_other := Nat.compare (length (sb_spends self)) (length (sb_spends other)) in
      let outputs_cmp_other := Nat.compare (length (sb_outputs self)) (length (sb_outputs other)) in
      match spends_cmp_other, outputs_cmp_other with
      | Lt, Gt | Gt, Lt => None
      | _, _ =>
          spends ← move_excess (shielded_modifiable self_global) (shielded_modifiable other_global)
                     (sb_spends self) (sb_spends other);
          outputs ← move_excess (shielded_modifiable self_global) (shielded_modifiable other_global)
                      (sb_outputs self) (sb_outputs other);
          let value_sum := match spends_cmp_other, outputs_cmp_other with
                           | Lt, _ | _, Lt => sb_value_sum other
                           | _, _ => sb_value_sum self
                           end in
          Some (spends, outputs, value_sum)
      end
  | lhs, rhs =>
      if match lhs, rhs with Some l, Some r => negb (bool_decide (l = r)) | _, _ => false end then None
      else if negb (length (sb_spends self) =? length (sb_spends other))%nat
              || negb (length (sb_outputs self) =? length (sb_outputs other))%nat
              || negb (sb_value_sum self =? sb_value_sum other)
      then None
      else Some ((sb_spends self, sb_spends other), (sb_outputs self, sb_outputs other), sb_value_sum self)
  end.

(** [sapling::Bundle::merge] *)
Definition sbundle_merge (self other : SBundle) (self_global other_global : Global) : option SBundle :=
  '((self_spends, spends), (self_outputs, outputs), value_sum)
    ← sapling_match_bsk self other self_global other_global;
  anchor ← merge_optional (sb_anchor self) (sb_anchor other);
  spends ← zip_merge merge_sspend self_spends spends;
  outputs ← zip_merge merge_soutput self_outputs outputs;
  Some (MkSBundle spends outputs value_sum anchor (sb_bsk self)).

(** ** The v1 and v2 encodings *)

(** [EncodingError] of [lib.rs] *)
Inductive EncodingError : Type :=
| UnsupportedTxVersion | UnsupportedOrchardNoteVersion | RequiresV2.

(** [sapling::v1::Bundle] *)
Record SBundleV1 : Type := MkSBundleV1 {
  sv1_spends : list SSpend;
  sv1_outputs : list SOutput;
  sv1_value_sum : Z;
  sv1_anchor : list byte;
  sv1_bsk : option (list byte)
}.

(** [TryFrom<sapling::Bundle> for sapling::v1::Bundle] *)
Definition sapling_v1_try_from (bundle : SBundle) : res EncodingError SBundleV1 :=
  anchor ← match sb_anchor bundle with
           | Some anchor => Ok anchor
           | None => if bool_decide (sb_spends bundle = []) then Ok SAPLING_DEFAULT_ANCHOR
                     else Err RequiresV2
           end;
  Ok (MkSBundleV1 (sb_spends bundle) (sb_outputs bundle) (sb_value_sum bundle) anchor (sb_bsk bundle)).

(** [From<sapling::v1::Bundle> for sapling::Bundle] *)
Definition sapling_v1_into (bundle : SBundleV1) : SBundle :=
  MkSBundle (sv1_spends bundle) (sv1_outputs bundle) (sv1_value_sum bundle) (Some (sv1_anchor bundle))
    (sv1_bsk bundle).

(** [sapling::v2::is_default_empty], [sapling::v2::encode] *)
Definition sapling_is_default_empty (bundle : SBundle) : bool :=
  let anchor := if bool_decide (sb_anchor bundle = Some SAPLING_DEFAULT_ANCHOR) then None
                else sb_anchor bundle in
  bool_decide (MkSBundle (sb_spends bundle) (sb_outputs bundle) (sb_value_sum bundle) anchor (sb_bsk bundle)
               = EMPTY_SBUNDLE).

Definition sapling_v2_encode (bundle : SBundle) : option SBundle :=
  if negb (sapling_is_default_empty bundle) then Some bundle else None.

(** ** Laws *)

Definition sspend_tuple (s : SSpend) :=
  (ss_cv s, (ss_nullifier s, (ss_rk s, (ss_zkproof s, (ss_spend_auth_sig s, (ss_recipient s, (ss_value s,
  (ss_rcm s, (ss_rseed s, (ss_rcv s, (ss_proof_generation_key s, (ss_witness s, (ss_alpha s,
  (ss_zip32_derivation s, (ss_dummy_ask s, ss_proprietary s))))))))))))))).
Definition sspend_of_tuple t : SSpend :=
  let '(a, (b, (c, (d, (e, (f, (g, (h, (i, (j, (k, (l, (m, (n, (o, p))))))))))))))) := t in
  MkSSpend a b c d e f g h i j k l m n o p.

#[export] Instance merge_sspend_laws : MergeLaws merge_sspend.
Proof.
  apply (merge_laws_iso sspend_tuple sspend_of_tuple merge_sspend
    (merge_pair merge_eq (merge_pair merge_eq (merge_pair merge_eq
    (merge_pair merge_optional (merge_pair merge_optional (merge_pair merge_optional
    (merge_pair merge_optional (merge_pair merge_optional (merge_pair merge_optional
    (merge_pair merge_optional (merge_pair merge_optional (merge_pair merge_optional
    (merge_pair merge_optional (merge_pair merge_optional (merge_pair merge_optional merge_map)))))))))))))))).
  - by intros [].
  - by intros (?&?&?&?&?&?&?&?&?&?&?&?&?&?&?&?).
  - intros [] []. unfold merge_sspend, merge_pair, merge_eq, sspend_tuple; cbn. required_fields.
    merge_fields. done.
Qed.

Definition soutput_tuple (o : SOutput) :=
  (sou_cv o, (sou_cmu o, (sou_ephemeral_key o, (sou_enc_ciphertext o, (sou_out_ciphertext o, (sou_zkproof o,
  (sou_recipient o, (sou_value o, (sou_rseed o, (sou_rcv o, (sou_ock o, (sou_zip32_derivation o,
  (sou_user_address o, sou_proprietary o))))))))))))).
Definition soutput_of_tuple t : SOutput :=
  let '(a, (b, (c, (d, (e, (f, (g, (h, (i, (j, (k, (l, (m, n))))))))))))) := t in
  MkSOutput a b c d e f g h i j k l m n.

#[export] Instance merge_soutput_laws : MergeLaws merge_soutput.
Proof.
  apply (merge_laws_iso soutput_tuple soutput_of_tuple merge_soutput
    (merge_pair merge_eq (merge_pair merge_eq (merge_pair merge_eq (merge_pair merge_eq (merge_pair merge_eq
    (merge_pair merge_optional (merge_pair merge_optional (merge_pair merge_optional
    (merge_pair merge_optional (merge_pair merge_optional (merge_pair merge_optional
    (merge_pair merge_optional (merge_pair merge_optional merge_map)))))))))))))).
  - by intros [].
  - by intros (?&?&?&?&?&?&?&?&?&?&?&?&?&?).
  - intros [] []. unfold merge_soutput, merge_pair, merge_eq, soutput_tuple; cbn. required_fields.
    merge_fields. done.
Qed.

Lemma merge_lists_zip {A} (mg : A -> A -> option A) ml mr l r l' r' c :
  move_excess ml mr l r = Some (l', r') -> zip_merge mg l' r' = Some c ->
  may_merge ml mr l r = true /\ join_lists mg l r = Some c.
Proof.
  intros Hm Hz. apply merge_lists_Some. unfold merge_lists. by rewrite Hm.
Qed.

(** The IO Finalizer has run on one of the bundles. *)
Definition finalized (a b : SBundle) : Prop := is_Some (sb_bsk a) \/ is_Some (sb_bsk b).

Lemma sbundle_merge_inv a b ga gb c :
  sbundle_merge a b ga gb = Some c ->
  join_lists merge_sspend (sb_spends a) (sb_spends b) = Some (sb_spends c)
  /\ join_lists merge_soutput (sb_outputs a) (sb_outputs b) = Some (sb_outputs c)
  /\ merge_optional (sb_anchor a) (sb_anchor b) = Some (sb_anchor c)
  /\ sb_bsk c = sb_bsk a
  /\ (finalized a b -> length (sb_spends a) = length (sb_spends b)
        /\ length (sb_outputs a) = length (sb_outputs b) /\ sb_value_sum a = sb_value_sum b
        /\ sb_value_sum c = sb_value_sum a).
Proof.
  unfold sbundle_merge. intros ([[[s1 s2] [o1 o2]] vs] & Hm & H)%bind_Some.
  apply bind_Some in H as (anc & Hanc & H). apply bind_Some in H as (sps & Hsp & H).
  apply bind_Some in H as (ous & Hou & [= <-]). cbn. unfold sapling_match_bsk in Hm.
  assert (sb_bsk a = None /\ sb_bsk b = None \/ finalized a b) as [[Ea Eb]|Hf]
    by (unfold finalized; destruct (sb_bsk a), (sb_bsk b); cbn; eauto).
  - rewrite Ea, Eb in Hm.
    assert (exists sp ou, move_excess (shielded_modifiable ga) (shielded_modifiable gb) (sb_spends a) (sb_spends b)
        = Some sp /\ move_excess (shielded_modifiable ga) (shielded_modifiable gb) (sb_outputs a) (sb_outputs b)
        = Some ou /\ sp = (s1, s2) /\ ou = (o1, o2)) as (sp & ou & H1 & H2 & -> & ->).
    { repeat case_match; try done; apply bind_Some in Hm as (x & Hx & Hm);
        apply bind_Some in Hm as (y & Hy & [= <- <- _]); eauto 8. }
    apply merge_lists_zip with (1 := H1) in Hsp as [_ Hsp]. apply merge_lists_zip with (1 := H2) in Hou as [_ Hou].
    split_and!; try done. intros [[? ?]|[? ?]]; congruence.
  - assert (length (sb_spends a) = length (sb_spends b) /\ length (sb_outputs a) = length (sb_outputs b)
      /\ sb_value_sum a = sb_value_sum b /\ s1 = sb_spends a /\ s2 = sb_spends b /\ o1 = sb_outputs a
      /\ o2 = sb_outputs b /\ vs = sb_value_sum a) as (L1 & L2 & L3 & -> & -> & -> & -> & ->).
    { destruct (sb_bsk a) as [ka|] eqn:Ea, (sb_bsk b) as [kb|] eqn:Eb;
        try (destruct Hf as [[? ?]|[? ?]]; congruence);
        repeat case_match; try done; injection Hm as <- <- <- <- <-;
        repeat match goal with H : _ || _ = false |- _ => apply orb_false_elim in H as [? ?] end;
        repeat match goal with H : negb _ = false |- _ => apply negb_false_iff in H end;
        repeat match goal with H : (_ =? _)%nat = true |- _ => apply Nat.eqb_eq in H
                             | H : (_ =? _) = true |- _ => apply Z.eqb_eq in H end; done. }
    rewrite zip_merge_join in Hsp by lia. rewrite zip_merge_join in Hou by lia. by split_and!.
Qed.

Lemma zip_merge_self {A} (mg : A -> A -> option A) `{!MergeLaws mg} l : zip_merge mg l l = Some l.
Proof. rewrite zip_merge_join by lia. apply mg_idem. Qed.

Lemma move_excess_self {A} (ml mr : bool) (l r : list A) :
  length l = length r -> move_excess ml mr l r = Some (l, r).
Proof. intros E. unfold move_excess. rewrite E, Nat.compare_refl. by destruct ml, mr. Qed.

Definition set_sb_bsk (k : option (list byte)) (b : SBundle) : SBundle :=
  MkSBundle (sb_spends b) (sb_outputs b) (sb_value_sum b) (sb_anchor b) k.

(** Bundles that agree on everything but [bsk] are merged into [self]. *)
Lemma sbundle_merge_same a k ga gb :
  (forall x y, sb_bsk a = Some x -> k = Some y -> x = y) ->
  sbundle_merge a (set_sb_bsk k a) ga gb = Some a.
Proof.
  intros Hk. unfold sbundle_merge.
  assert (sapling_match_bsk a (set_sb_bsk k a) ga gb
    = Some ((sb_spends a, sb_spends a), (sb_outputs a, sb_outputs a), sb_value_sum a)) as ->.
  { unfold sapling_match_bsk. cbn. rewrite !Nat.compare_refl, !Nat.eqb_refl, Z.eqb_refl.
    rewrite !move_excess_self by done. cbn.
    destruct (sb_bsk a) as [x|] eqn:Ea, k as [y|]; try done.
    rewrite (Hk x y eq_refl eq_refl). by rewrite bool_decide_true. }
  cbn. rewrite (mg_idem (sb_anchor a)). cbn. rewrite !zip_merge_self by exact _. cbn. by destruct a.
Qed.

Lemma sbundle_merge_self b ga gb : sbundle_merge b b ga gb = Some b.
Proof. pose proof (sbundle_merge_same b (sb_bsk b) ga gb) as H. destruct b. apply H. cbn. congruence. Qed.

(** Merging Sapling bundles keeps the data of both: every spend, output, proof,
    signature and optional field of either bundle is in the result; after the IO
    Finalizer has run the bundles must have the same shape and value sum; and a
    bundle merged with itself is unchanged. *)
Theorem sbundle_merge_preserves_data a b ga gb :
  sbundle_merge a a ga gb = Some a
  /\ forall c, sbundle_merge a b ga gb = Some c ->
       below (join_lists merge_sspend) (sb_spends a) (sb_spends c)
       /\ below (join_lists merge_sspend) (sb_spends b) (sb_spends c)
       /\ below (join_lists merge_soutput) (sb_outputs a) (sb_outputs c)
       /\ below (join_lists merge_soutput) (sb_outputs b) (sb_outputs c)
       /\ below merge_optional (sb_anchor a) (sb_anchor c)
       /\ below merge_optional (sb_anchor b) (sb_anchor c)
       /\ (finalized a b -> length (sb_spends c) = length (sb_spends b)
             /\ length (sb_outputs c) = length (sb_outputs b)
             /\ sb_value_sum c = sb_value_sum a /\ sb_value_sum c = sb_value_sum b).
Proof.
  split.
  - apply sbundle_merge_self.
  - intros c (Hs & Ho & Ha & _ & Hf)%sbundle_merge_inv.
    destruct (merge_upper_bound _ _ _ _ Hs), (merge_upper_bound _ _ _ _ Ho), (merge_upper_bound _ _ _ _ Ha).
    split_and!; try done. intros (L1 & L2 & V1 & V2)%Hf.
    apply join_lists_length in Hs, Ho. split_and!; [lia|lia|congruence..].
Qed.

(** Merging loses the binding signature key: if only [other] has a [bsk], then the
    result has none, whereas merging in the other order keeps it. *)
Theorem sbundle_merge_drops_bsk a k ga gb :
  sb_bsk a = None ->
  sbundle_merge a (set_sb_bsk (Some k) a) ga gb = Some a
  /\ sbundle_merge (set_sb_bsk (Some k) a) a gb ga = Some (set_sb_bsk (Some k) a).
Proof.
  intros Ha. split.
  - apply sbundle_merge_same. congruence.
  - pose proof (sbundle_merge_same (set_sb_bsk (Some k) a) None gb ga) as H.
    assert (set_sb_bsk None (set_sb_bsk (Some k) a) = a) as E by (destruct a; cbn in *; by subst).
    rewrite E in H. apply H. congruence.
Qed.

Lemma sbundle_merge_drops_bsk_witness :
  sb_bsk EMPTY_SBUNDLE = None /\
  sbundle_merge EMPTY_SBUNDLE (set_sb_bsk (Some (repeat Byte.x01 32)) EMPTY_SBUNDLE)
    (sample_global 0 ∅) (sample_global 0 ∅) = Some EMPTY_SBUNDLE.
Proof.
  split; [reflexivity|].
  apply (sbundle_merge_drops_bsk EMPTY_SBUNDLE (repeat Byte.x01 32) (sample_global 0 ∅) (sample_global 0 ∅)).
  reflexivity.
Defined.

Definition sample_sbundle (anchor bsk : option (list byte)) : SBundle :=
  MkSBundle [MkSSpend [Byte.x01] [Byte.x02] [Byte.x03] None None None (Some 5) None None None None None
               None None None ∅] [] 5 anchor bsk.

Lemma sbundle_merge_preserves_data_witness :
  sbundle_merge (sample_sbundle None None) (sample_sbundle (Some [Byte.x07]) None)
    (sample_global 0 ∅) (sample_global 0 ∅) = Some (sample_sbundle (Some [Byte.x07]) None)
  /\ below (join_lists merge_sspend) (sb_spends (sample_sbundle None None))
       (sb_spends (sample_sbundle (Some [Byte.x07]) None)).
Proof.
  split; [reflexivity|].
  destruct (sbundle_merge_preserves_data (sample_sbundle None None) (sample_sbundle (Some [Byte.x07]) None)
    (sample_global 0 ∅) (sample_global 0 ∅)) as [_ H].
  exact (proj1 (H (sample_sbundle (Some [Byte.x07]) None) eq_refl)).
Defined.
