(* ===== verification/PcztOrchard.v ===== *)
(** * PCZT: the Orchard and Ironwood bundles

    [librustzcash/pczt/src/orchard.rs]: memo plaintexts, the logical bundle
    and its queries, and [Bundle::merge].  The encodings are in [PcztOrchardCodec]. *)

From S2P Require Import Prelude PcztCommon PcztTransparent PcztSapling.

(** ** Memo plaintexts *)

Definition MEMO_SIZE : nat := 512.

Inductive MemoPlaintextError : Type := TooLong | NotStripped.

(** [memo.iter().rposition(|b| *b != 0).map_or(0, |i| i + 1)] *)
Fixpoint stripped_len (l : list byte) : nat :=
  match l with
  | [] => 0
  | b :: l => match stripped_len l with
              | O => if decide (b = Byte.x00) then 0 else 1
              | S n => S (S n)
              end
  end.

(** [MemoPlaintext::from_memo] *)
Definition from_memo (memo : list byte) : list byte := take (stripped_len memo) memo.

(** [MemoPlaintext::from_stripped_bytes] *)
Definition from_stripped_bytes (bytes : list byte) : res MemoPlaintextError (list byte) :=
  if (MEMO_SIZE <? length bytes)%nat then Err TooLong
  else if decide (last bytes = Some Byte.x00) then Err NotStripped
  else Ok bytes.

(** [MemoPlaintext::to_memo]; the slice assignment panics if the plaintext is longer
    than a memo. *)
Definition to_memo (m : list byte) : exec (list byte) :=
  if (length m <=? MEMO_SIZE)%nat then Ok (m ++ repeat Byte.x00 (MEMO_SIZE - length m))
  else Err AssertFailed.

(** [EncCiphertext] *)
Inductive EncCiphertext : Type :=
| Encrypted (ciphertext : list byte)
| MemoPlaintext (memo : list byte).

#[global] Instance EncCiphertext_eq_dec : EqDecision EncCiphertext.
Proof. solve_decision. Defined.

(** [EncCiphertext::into_encrypted] *)
Definition into_encrypted (e : EncCiphertext) : option (list byte) :=
  match e with Encrypted c => Some c | MemoPlaintext _ => None end.

(** ** The logical bundle *)

Inductive NoteVersion : Type := NoteV2 | NoteV3.
#[global] Instance NoteVersion_eq_dec : EqDecision NoteVersion.
Proof. solve_decision. Defined.

Record OSpend : Type := MkOSpend {
  os_nullifier : list byte;
  os_rk : list byte;
  os_spend_auth_sig : option (list byte);
  os_recipient : option (list byte);
  os_value : option Z;
  os_rho : option (list byte);
  os_rseed : option (list byte);
  os_fvk : option (list byte);
  os_witness : option (Z * list (list byte));
  os_alpha : option (list byte);
  os_zip32_derivation : option Zip32Derivation;
  os_dummy_sk : option (list byte);
  os_proprietary : gmap string (list byte)
}.

Record OOutput : Type := MkOOutput {
  oo_cmx : option (list byte);
  oo_ephemeral_key : list byte;
  oo_enc_ciphertext : EncCiphertext;
  oo_out_ciphertext : list byte;
  oo_recipient : option (list byte);
  oo_value : option Z;
  oo_rseed : option (list byte);
  oo_ock : option (list byte);
  oo_zip32_derivation : option Zip32Derivation;
  oo_user_address : option string;
  oo_proprietary : gmap string (list byte)
}.

Record OAction : Type := MkOAction {
  oa_cv_net : option (list byte);
  oa_spend : OSpend;
  oa_output : OOutput;
  oa_rcv : option (list byte)
}.

Record OBundle : Type := MkOBundle {
  ob_actions : list OAction;
  ob_flags : Z;
  ob_value_sum : Z * bool;
  ob_anchor : option (list byte);
  ob_note_version : NoteVersion;
  ob_zkproof : option (list byte);
  ob_bsk : option (list byte)
}.

#[global] Instance OSpend_eq_dec : EqDecision OSpend.
Proof. solve_decision. Defined.
#[global] Instance OOutput_eq_dec : EqDecision OOutput.
Proof. solve_decision. Defined.
#[global] Instance OAction_eq_dec : EqDecision OAction.
Proof. solve_decision. Defined.
#[global] Instance OBundle_eq_dec : EqDecision OBundle.
Proof. solve_decision. Defined.

(** [Bundle::sole_action] *)
Definition sole_action (b : OBundle) : option OAction :=
  match ob_actions b with [a] => Some a | _ => None end.

(** [Bundle::value_carrying_outputs_all_pay] *)
Fixpoint actions_all_pay (recipient : list byte) (l : list OAction) : option bool :=
  match l with
  | [] => Some true
  | a :: l =>
      v ← oo_value (oa_output a);
      if v =? 0 then actions_all_pay recipient l
      else
        r ← oo_recipient (oa_output a);
        if negb (bool_decide (r = recipient)) then Some false else actions_all_pay recipient l
  end.
Definition value_carrying_outputs_all_pay (b : OBundle) (recipient : list byte) : option bool :=
  actions_all_pay recipient (ob_actions b).

Definition ORCHARD_SPENDS_AND_OUTPUTS_ENABLED : Z := 0x03.
Definition IRONWOOD_SPENDS_OUTPUTS_AND_CROSS_ADDRESS_ENABLED : Z := 0x07.
Definition ORCHARD_DEFAULT_ANCHOR : list byte := repeat Byte.x00 32.

Definition EMPTY_ORCHARD : OBundle :=
  MkOBundle [] ORCHARD_SPENDS_AND_OUTPUTS_ENABLED (0, false) None NoteV2 None None.
Definition EMPTY_IRONWOOD : OBundle :=
  MkOBundle [] IRONWOOD_SPENDS_OUTPUTS_AND_CROSS_ADDRESS_ENABLED (0, false) None NoteV3 None None.

(** ** Merging *)

(** The body of the loop over the actions in [Bundle::merge] *)
Definition merge_action (lhs rhs : OAction) : option OAction :=
  let ls := oa_spend lhs in let rs := oa_spend rhs in
  let lo := oa_output lhs in let ro := oa_output rhs in
  if negb (bool_decide (os_nullifier ls = os_nullifier rs))
     || negb (bool_decide (os_rk ls = os_rk rs))
     || negb (bool_decide (oo_ephemeral_key lo = oo_ephemeral_key ro))
     || negb (bool_decide (oo_enc_ciphertext lo = oo_enc_ciphertext ro))
     || negb (bool_decide (oo_out_ciphertext lo = oo_out_ciphertext ro))
  then None
  else
    cv_net ← merge_optional (oa_cv_net lhs) (oa_cv_net rhs);
    sig ← merge_optional (os_spend_auth_sig ls) (os_spend_auth_sig rs);
    recipient ← merge_optional (os_recipient ls) (os_recipient rs);
    value ← merge_optional (os_value ls) (os_value rs);
    rho ← merge_optional (os_rho ls) (os_rho rs);
    rseed ← merge_optional (os_rseed ls) (os_rseed rs);
    fvk ← merge_optional (os_fvk ls) (os_fvk rs);
    witness ← merge_optional (os_witness ls) (os_witness rs);
    alpha ← merge_optional (os_alpha ls) (os_alpha rs);
    zip32 ← merge_optional (os_zip32_derivation ls) (os_zip32_derivation rs);
    dummy ← merge_optional (os_dummy_sk ls) (os_dummy_sk rs);
    prop ← merge_map (os_proprietary ls) (os_proprietary rs);
    cmx ← merge_optional (oo_cmx lo) (oo_cmx ro);
    o_recipient ← merge_optional (oo_recipient lo) (oo_recipient ro);
    o_value ← merge_optional (oo_value lo) (oo_value ro);
    o_rseed ← merge_optional (oo_rseed lo) (oo_rseed ro);
    ock ← merge_optional (oo_ock lo) (oo_ock ro);
    o_zip32 ← merge_optional (oo_zip32_derivation lo) (oo_zip32_derivation ro);
    address ← merge_optional (oo_user_address lo) (oo_user_address ro);
    o_prop ← merge_map (oo_proprietary lo) (oo_proprietary ro);
    rcv ← merge_optional (oa_rcv lhs) (oa_rcv rhs);
    Some (MkOAction cv_net
            (MkOSpend (os_nullifier ls) (os_rk ls) sig recipient value rho rseed fvk witness alpha zip32 dummy prop)
            (MkOOutput cmx (oo_ephemeral_key lo) (oo_enc_ciphertext lo) (oo_out_ciphertext lo)
               o_recipient o_value o_rseed ock o_zip32 address o_prop)
            rcv).

(** The state of [Bundle::merge] after the [match] on [bsk]. *)
Definition orchard_match_bsk (self other : OBundle) (self_global other_global : Global)
  : option ((list OAction * list OAction) * (Z * bool)) :=
  match ob_bsk self, ob_bsk other with
  | None, None =>
      actions ← move_excess (shielded_modifiable self_global) (shielded_modifiable other_global)
                  (ob_actions self) (ob_actions other);
      let value_sum := match Nat.compare (length (ob_actions self)) (length (ob_actions other)) with
                       | Lt => ob_value_sum other | _ => ob_value_sum self end in
      Some (actions, value_sum)
  | lhs, rhs =>
      if match lhs, rhs with Some l, Some r => negb (bool_decide (l = r)) | _, _ => false end then None
      else if negb (length (ob_actions self) =? length (ob_actions other))%nat
              || negb (bool_decide (ob_value_sum self = ob_value_sum other))
      then None
      else Some ((ob_actions self, ob_actions other), ob_value_sum self)
  end.

(** [orchard::Bundle::merge] *)
Definition obundle_merge (self other : OBundle) (self_global other_global : Global) : option OBundle :=
  if negb (ob_flags self =? ob_flags other)
     || negb (bool_decide (ob_note_version self = ob_note_version other))
  then None
  else
    '((self_actions, actions), value_sum) ← orchard_match_bsk self other self_global other_global;
    anchor ← merge_optional (ob_anchor self) (ob_anchor other);
    zkproof ← merge_optional (ob_zkproof self) (ob_zkproof other);
    actions ← zip_merge merge_action self_actions actions;
    Some (MkOBundle actions (ob_flags self) value_sum anchor (ob_note_version self) zkproof (ob_bsk self)).

(** ** Laws of merging *)

Definition action_tuple (a : OAction) :=
  let s := oa_spend a in let o := oa_output a in
  (os_nullifier s, (os_rk s, (oo_ephemeral_key o, (oo_enc_ciphertext o, (oo_out_ciphertext o, (oa_cv_net a,
  (os_spend_auth_sig s, (os_recipient s, (os_value s, (os_rho s, (os_rseed s, (os_fvk s, (os_witness s,
  (os_alpha s, (os_zip32_derivation s, (os_dummy_sk s, (os_proprietary s, (oo_cmx o, (oo_recipient o,
  (oo_value o, (oo_rseed o, (oo_ock o, (oo_zip32_derivation o, (oo_user_address o, (oo_proprietary o,
  oa_rcv a))))))))))))))))))))))))).
Definition action_of_tuple t : OAction :=
  let '(nf, (rk, (epk, (enc, (out, (cv, (sg, (re, (va, (rho, (rs, (fvk, (wi, (al, (zi, (du, (pr, (cmx,
        (ore, (ova, (ors, (ock, (ozi, (ua, (opr, rcv))))))))))))))))))))))))) := t in
  MkOAction cv (MkOSpend nf rk sg re va rho rs fvk wi al zi du pr)
    (MkOOutput cmx epk enc out ore ova ors ock ozi ua opr) rcv.

#[export] Instance merge_action_laws : MergeLaws merge_action.
Proof.
  apply (merge_laws_iso action_tuple action_of_tuple merge_action
    (merge_pair merge_eq (merge_pair merge_eq (merge_pair merge_eq (merge_pair merge_eq (merge_pair merge_eq
    (merge_pair merge_optional (merge_pair merge_optional (merge_pair merge_optional
    (merge_pair merge_optional (merge_pair merge_optional (merge_pair merge_optional
    (merge_pair merge_optional (merge_pair merge_optional (merge_pair merge_optional
    (merge_pair merge_optional (merge_pair merge_optional (merge_pair merge_map
    (merge_pair merge_optional (merge_pair merge_optional (merge_pair merge_optional
    (merge_pair merge_optional (merge_pair merge_optional (merge_pair merge_optional
    (merge_pair merge_optional (merge_pair merge_map merge_optional)))))))))))))))))))))))))).
  - by intros [? [] [] ?].
  - by intros (?&?&?&?&?&?&?&?&?&?&?&?&?&?&?&?&?&?&?&?&?&?&?&?&?&?).
  - intros [? [] [] ?] [? [] [] ?]. unfold merge_action, merge_pair, merge_eq, action_tuple; cbn.
    required_fields. merge_fields. done.
Qed.

(** The IO Finalizer has run on one of the bundles. *)
Definition o_finalized (a b : OBundle) : Prop := is_Some (ob_bsk a) \/ is_Some (ob_bsk b).

Lemma obundle_merge_inv a b ga gb c :
  obundle_merge a b ga gb = Some c ->
  join_lists merge_action (ob_actions a) (ob_actions b) = Some (ob_actions c)
  /\ merge_optional (ob_anchor a) (ob_anchor b) = Some (ob_anchor c)
  /\ merge_optional (ob_zkproof a) (ob_zkproof b) = Some (ob_zkproof c)
  /\ ob_flags a = ob_flags b /\ ob_flags c = ob_flags a
  /\ ob_note_version a = ob_note_version b /\ ob_note_version c = ob_note_version a
  /\ ob_bsk c = ob_bsk a
  /\ (o_finalized a b -> length (ob_actions a) = length (ob_actions b)
        /\ ob_value_sum a = ob_value_sum b /\ ob_value_sum c = ob_value_sum a).
Proof.
  unfold obundle_merge. destruct (Z.eqb_spec (ob_flags a) (ob_flags b)) as [Ef|]; [|done].
  case_bool_decide as En; [|done]. cbn [negb orb].
  intros ([[l1 l2] vs] & Hm & H)%bind_Some.
  apply bind_Some in H as (anc & Hanc & H). apply bind_Some in H as (zk & Hzk & H).
  apply bind_Some in H as (acts & Hac & [= <-]). cbn. unfold orchard_match_bsk in Hm.
  assert (ob_bsk a = None /\ ob_bsk b = None \/ o_finalized a b) as [[Ea Eb]|Hf]
    by (unfold o_finalized; destruct (ob_bsk a), (ob_bsk b); cbn; eauto).
  - rewrite Ea, Eb in Hm. apply bind_Some in Hm as (x & Hx & [= -> _]).
    apply merge_lists_zip with (1 := Hx) in Hac as [_ Hac].
    split_and!; try done. intros [[? ?]|[? ?]]; congruence.
  - assert (length (ob_actions a) = length (ob_actions b) /\ ob_value_sum a = ob_value_sum b
      /\ l1 = ob_actions a /\ l2 = ob_actions b /\ vs = ob_value_sum a) as (L1 & L3 & -> & -> & ->).
    { destruct (ob_bsk a) as [ka|] eqn:Ea, (ob_bsk b) as [kb|] eqn:Eb;
        try (destruct Hf as [[? ?]|[? ?]]; congruence);
        repeat (case_match; try done); injection Hm as <- <- <-;
        repeat match goal with H : _ || _ = false |- _ => apply orb_false_elim in H as [? ?] end;
        repeat match goal with H : negb _ = false |- _ => apply negb_false_iff in H end;
        repeat match goal with H : (_ =? _)%nat = true |- _ => apply Nat.eqb_eq in H
                             | H : bool_decide _ = true |- _ => apply bool_decide_eq_true in H end; done. }
    rewrite zip_merge_join in Hac by lia. by split_and!.
Qed.

Definition set_ob_bsk (k : option (list byte)) (b : OBundle) : OBundle :=
  MkOBundle (ob_actions b) (ob_flags b) (ob_value_sum b) (ob_anchor b) (ob_note_version b) (ob_zkproof b) k.

Lemma obundle_merge_same a k ga gb :
  (forall x y, ob_bsk a = Some x -> k = Some y -> x = y) ->
  obundle_merge a (set_ob_bsk k a) ga gb = Some a.
Proof.
  intros Hk. unfold obundle_merge. cbn [set_ob_bsk ob_flags ob_note_version ob_anchor ob_zkproof].
  rewrite Z.eqb_refl, (bool_decide_true (ob_note_version a = ob_note_version a)) by done. cbn [negb orb].
  assert (orchard_match_bsk a (set_ob_bsk k a) ga gb
    = Some ((ob_actions a, ob_actions a), ob_value_sum a)) as ->.
  { unfold orchard_match_bsk. cbn. rewrite Nat.compare_refl, Nat.eqb_refl, (bool_decide_true (_ = _)) by done.
    rewrite move_excess_self by done. cbn.
    destruct (ob_bsk a) as [x|] eqn:Ea, k as [y|]; try done.
    rewrite (Hk x y eq_refl eq_refl). by rewrite bool_decide_true. }
  cbn. rewrite (mg_idem (ob_anchor a)). cbn. rewrite (mg_idem (ob_zkproof a)). cbn.
  rewrite zip_merge_self by exact _. cbn. by destruct a.
Qed.

Lemma obundle_merge_self b ga gb : obundle_merge b b ga gb = Some b.
Proof. pose proof (obundle_merge_same b (ob_bsk b) ga gb) as H. destruct b. apply H. cbn. congruence. Qed.

(** Merging Orchard or Ironwood bundles keeps the data of both: every action and
    optional field, the anchor and the proof; the flags and the note version must
    agree and are kept, as must the number of actions and the value sum once the IO
    Finalizer has run; a bundle merged with itself is unchanged. *)
Theorem obundle_merge_preserves_data a b ga gb :
  obundle_merge a a ga gb = Some a
  /\ forall c, obundle_merge a b ga gb = Some c ->
       below (join_lists merge_action) (ob_actions a) (ob_actions c)
       /\ below (join_lists merge_action) (ob_actions b) (ob_actions c)
       /\ below merge_optional (ob_anchor a) (ob_anchor c)
       /\ below merge_optional (ob_anchor b) (ob_anchor c)
       /\ below merge_optional (ob_zkproof a) (ob_zkproof c)
       /\ below merge_optional (ob_zkproof b) (ob_zkproof c)
       /\ ob_flags c = ob_flags a /\ ob_flags c = ob_flags b
       /\ ob_note_version c = ob_note_version a /\ ob_note_version c = ob_note_version b
       /\ (o_finalized a b -> length (ob_actions c) = length (ob_actions b)
             /\ ob_value_sum c = ob_value_sum a /\ ob_value_sum c = ob_value_sum b).
Proof.
  split.
  - apply obundle_merge_self.
  - intros c (Hs & Ha & Hz & Hf1 & Hf2 & Hn1 & Hn2 & _ & Hf)%obundle_merge_inv.
    destruct (merge_upper_bound _ _ _ _ Hs), (merge_upper_bound _ _ _ _ Ha), (merge_upper_bound _ _ _ _ Hz).
    split_and!; try done; try congruence. intros (L1 & V1 & V2)%Hf.
    apply join_lists_length in Hs. split_and!; [lia|congruence..].
Qed.

(** As for Sapling, the merge of Orchard-protocol bundles loses the binding
    signature key of [other] when [self] has none. *)
Theorem obundle_merge_drops_bsk a k ga gb :
  ob_bsk a = None ->
  obundle_merge a (set_ob_bsk (Some k) a) ga gb = Some a
  /\ obundle_merge (set_ob_bsk (Some k) a) a gb ga = Some (set_ob_bsk (Some k) a).
Proof.
  intros Ha. split.
  - apply obundle_merge_same. congruence.
  - pose proof (obundle_merge_same (set_ob_bsk (Some k) a) None gb ga) as H.
    assert (set_ob_bsk None (set_ob_bsk (Some k) a) = a) as E by (destruct a; cbn in *; by subst).
    rewrite E in H. apply H. congruence.
Qed.

Lemma obundle_merge_drops_bsk_witness :
  obundle_merge EMPTY_ORCHARD (set_ob_bsk (Some (repeat Byte.x01 32)) EMPTY_ORCHARD)
    (sample_global 0 ∅) (sample_global 0 ∅) = Some EMPTY_ORCHARD.
Proof.
  apply (obundle_merge_drops_bsk EMPTY_ORCHARD (repeat Byte.x01 32) (sample_global 0 ∅) (sample_global 0 ∅)).
  reflexivity.
Defined.

Definition sample_action (cv_net : option (list byte)) (enc : EncCiphertext) : OAction :=
  MkOAction cv_net
    (MkOSpend [Byte.x01] [Byte.x02] None None (Some 5) None None None None None None None ∅)
    (MkOOutput (Some [Byte.x03]) [Byte.x04] enc [Byte.x05] (Some [Byte.x06]) (Some 4) None None None None ∅)
    None.
Definition sample_obundle (cv_net anchor : option (list byte)) (enc : EncCiphertext) : OBundle :=
  MkOBundle [sample_action cv_net enc] ORCHARD_SPENDS_AND_OUTPUTS_ENABLED (1, false) anchor NoteV2 None None.

Lemma obundle_merge_preserves_data_witness :
  obundle_merge (sample_obundle None (Some [Byte.x07]) (Encrypted [])) (sample_obundle (Some [Byte.x08]) None (Encrypted []))
    (sample_global 0 ∅) (sample_global 0 ∅)
    = Some (sample_obundle (Some [Byte.x08]) (Some [Byte.x07]) (Encrypted []))
  /\ below (join_lists merge_action) [sample_action None (Encrypted [])] [sample_action (Some [Byte.x08]) (Encrypted [])].
Proof.
  split; [reflexivity|].
  destruct (obundle_merge_preserves_data (sample_obundle None (Some [Byte.x07]) (Encrypted []))
    (sample_obundle (Some [Byte.x08]) None (Encrypted [])) (sample_global 0 ∅) (sample_global 0 ∅)) as [_ H].
  exact (proj1 (H (sample_obundle (Some [Byte.x08]) (Some [Byte.x07]) (Encrypted [])) eq_refl)).
Defined.

(** ** Stripping and expanding memos *)

Lemma stripped_len_le l : (stripped_len l <= length l)%nat.
Proof. induction l as [|b l IH]; cbn; [lia|]. destruct (stripped_len l); [case_decide|]; lia. Qed.

(** What is stripped is zero, and the stripped memo does not end in zero. *)
Lemma stripped_len_split l :
  l = take (stripped_len l) l ++ repeat Byte.x00 (length l - stripped_len l)
  /\ last (take (stripped_len l) l) <> Some Byte.x00.
Proof.
  induction l as [|b l [IH1 IH2]]; cbn; [done|].
  destruct (stripped_len l) as [|n] eqn:E; cbn in *.
  - rewrite take_0, Nat.sub_0_r in IH1. cbn in IH1.
    case_decide; subst; rewrite ?firstn_cons, ?take_0; cbn; split; try congruence;
      rewrite ?Nat.sub_0_r; by rewrite <- IH1.
  - split; [congruence|]. destruct l as [|c l]; [done|]. exact IH2.
Qed.

Lemma stripped_len_app m n :
  last m <> Some Byte.x00 -> stripped_len (m ++ repeat Byte.x00 n) = length m.
Proof.
  induction m as [|b m IH]; intros Hl.
  - induction n as [|n IHn]; cbn in *; [done|]. by rewrite IHn.
  - cbn. destruct m as [|c m].
    + rewrite IH by done. cbn in *. case_decide; congruence.
    + rewrite IH by done. done.
Qed.

(** Stripped memo plaintexts.  A full memo survives stripping and expansion, and
    its stripped form is accepted from the wire; conversely the wire accepts exactly the
    stripped forms of full memos, rejecting anything longer than a memo as [TooLong] and
    anything else that ends in a zero byte as [NotStripped]; and expansion of accepted
    bytes never panics. *)
Theorem memo_plaintext_roundtrip memo bytes :
  length memo = MEMO_SIZE ->
  to_memo (from_memo memo) = Ok memo
  /\ from_stripped_bytes (from_memo memo) = Ok (from_memo memo)
  /\ (forall m, from_stripped_bytes bytes = Ok m ->
        m = bytes /\ exists full, to_memo m = Ok full /\ length full = MEMO_SIZE /\ from_memo full = m)
  /\ (forall e, from_stripped_bytes bytes = Err e <->
        (e = TooLong /\ (MEMO_SIZE < length bytes)%nat)
        \/ (e = NotStripped /\ (length bytes <= MEMO_SIZE)%nat /\ last bytes = Some Byte.x00)).
Proof.
  intros Hlen. pose proof (stripped_len_le memo) as Hle.
  destruct (stripped_len_split memo) as [Hsplit Hlast].
  assert (length (from_memo memo) = stripped_len memo) as El
    by (unfold from_memo; rewrite length_take; lia).
  split_and!.
  - unfold to_memo. rewrite El, (proj2 (Nat.leb_le _ _)) by lia. f_equal. rewrite <- Hlen. done.
  - unfold from_stripped_bytes. rewrite El, (proj2 (Nat.ltb_ge _ _)) by lia. by case_decide.
  - unfold from_stripped_bytes. intros m. destruct (Nat.ltb_spec MEMO_SIZE (length bytes)); [done|].
    case_decide as Hl; [done|]. intros [= <-]. split; [done|].
    exists (bytes ++ repeat Byte.x00 (MEMO_SIZE - length bytes)). unfold to_memo.
    rewrite (proj2 (Nat.leb_le _ _)) by lia. split_and!; [done| |].
    + rewrite length_app, repeat_length. lia.
    + unfold from_memo. rewrite stripped_len_app by done. by rewrite take_app_length.
  - intros e. unfold from_stripped_bytes. destruct (Nat.ltb_spec MEMO_SIZE (length bytes)).
    + split; [intros [= <-]; by left|]. intros [[-> _]|(_ & ? & _)]; [done|lia].
    + case_decide; split; try done.
      * intros [= <-]. by right.
      * intros [[_ ?]|(-> & _)]; [lia|done].
      * intros [[_ ?]|(_ & _ & ?)]; [lia|done].
Qed.

Definition sample_memo : list byte := Byte.x68 :: Byte.x00 :: Byte.x69 :: repeat Byte.x00 509.

Lemma memo_plaintext_roundtrip_witness :
  from_memo sample_memo = [Byte.x68; Byte.x00; Byte.x69]
  /\ to_memo (from_memo sample_memo) = Ok sample_memo.
Proof.
  split; [vm_compute; reflexivity|].
  apply (memo_plaintext_roundtrip sample_memo []). vm_compute. reflexivity.
Defined.

(** ** Outputs that pay one address *)

Definition pays (recipient : list byte) (a : OAction) : Prop :=
  exists v, oo_value (oa_output a) = Some v
    /\ (v <> 0 -> oo_recipient (oa_output a) = Some recipient).

Definition pays_other (recipient : list byte) (a : OAction) : Prop :=
  exists v r, oo_value (oa_output a) = Some v /\ v <> 0
    /\ oo_recipient (oa_output a) = Some r /\ r <> recipient.

Lemma actions_all_pay_true recipient l :
  actions_all_pay recipient l = Some true <-> Forall (pays recipient) l.
Proof.
  unfold pays. induction l as [|a l IH]; cbn; [done|]. rewrite Forall_cons, <- IH.
  destruct (oo_value (oa_output a)) as [v|]; cbn; [|naive_solver].
  destruct (Z.eqb_spec v 0); [naive_solver|].
  destruct (oo_recipient (oa_output a)) as [r|]; cbn; [|naive_solver].
  case_bool_decide; cbn; naive_solver.
Qed.

Lemma actions_all_pay_false recipient l :
  actions_all_pay recipient l = Some false <->
  exists l1 a l2, l = l1 ++ a :: l2 /\ Forall (pays recipient) l1 /\ pays_other recipient a.
Proof.
  unfold pays_other. induction l as [|a l IH]; cbn.
  - split; [done|]. intros ([|] & ? & ? & ? & _); done.
  - transitivity (pays_other recipient a \/ (pays recipient a /\ actions_all_pay recipient l = Some false)).
    + unfold pays, pays_other. destruct (oo_value (oa_output a)) as [v|]; cbn; [|naive_solver].
      destruct (Z.eqb_spec v 0); [naive_solver|].
      destruct (oo_recipient (oa_output a)) as [r|]; cbn; [|naive_solver].
      case_bool_decide; cbn; naive_solver.
    + rewrite IH. split.
      * intros [H|(Ha & l1 & b & l2 & -> & Hl & Hb)]; [by exists [], a, l|].
        exists (a :: l1), b, l2. split_and!; [done|by constructor|done].
      * intros ([|c l1] & b & l2 & [= -> ->] & Hl & Hb); [by left|].
        apply Forall_cons in Hl as [? ?]. right. eauto 10.
Qed.

(** [value_carrying_outputs_all_pay] answers [Some(true)] only if it knows the value
    of every output and every output with a value pays the recipient; [Some(false)] only
    if it found one that pays somebody else; and [None] when a redacted field decides. *)
Theorem value_carrying_outputs_all_pay_spec b recipient :
  (value_carrying_outputs_all_pay b recipient = Some true <-> Forall (pays recipient) (ob_actions b))
  /\ (value_carrying_outputs_all_pay b recipient = Some false <->
       exists l1 a l2, ob_actions b = l1 ++ a :: l2 /\ Forall (pays recipient) l1 /\ pays_other recipient a).
Proof. split; [apply actions_all_pay_true|apply actions_all_pay_false]. Qed.
