(* ===== verification/PcztOrchardCodec.v ===== *)
(** * PCZT: the v1 and v2 encodings of Orchard and Ironwood bundles

    [librustzcash/pczt/src/orchard.rs]: the serialized types of the modules [v1] and
    [v2] and their conversions to and from the logical bundle of [PcztOrchard]. *)

From S2P Require Import Prelude PcztCommon PcztTransparent PcztSapling PcztOrchard.

(** ** The v1 types *)

Record OSpendV1 : Type := MkOSpendV1 {
  os1_nullifier : list byte;
  os1_rk : list byte;
  os1_spend_auth_sig : option (list byte);
  os1_recipient : option (list byte);
  os1_value : option Z;
  os1_rho : option (list byte);
  os1_rseed : option (list byte);
  os1_fvk : option (list byte);
  os1_witness : option (Z * list (list byte));
  os1_alpha : option (list byte);
  os1_zip32_derivation : option Zip32Derivation;
  os1_dummy_sk : option (list byte);
  os1_proprietary : gmap string (list byte)
}.

Record OOutputV1 : Type := MkOOutputV1 {
  oo1_cmx : list byte;
  oo1_ephemeral_key : list byte;
  oo1_enc_ciphertext : list byte;
  oo1_out_ciphertext : list byte;
  oo1_recipient : option (list byte);
  oo1_value : option Z;
  oo1_rseed : option (list byte);
  oo1_ock : option (list byte);
  oo1_zip32_derivation : option Zip32Derivation;
  oo1_user_address : option string;
  oo1_proprietary : gmap string (list byte)
}.

Record OActionV1 : Type := MkOActionV1 {
  oa1_cv_net : list byte;
  oa1_spend : OSpendV1;
  oa1_output : OOutputV1;
  oa1_rcv : option (list byte)
}.

Record OBundleV1 : Type := MkOBundleV1 {
  ob1_actions : list OActionV1;
  ob1_flags : Z;
  ob1_value_sum : Z * bool;
  ob1_anchor : list byte;
  ob1_zkproof : option (list byte);
  ob1_bsk : option (list byte)
}.

(** ** Conversions to and from v1 *)

(** [From<super::Spend> for v1::Spend] *)
Definition spend_to_v1 (s : OSpend) : OSpendV1 :=
  MkOSpendV1 (os_nullifier s) (os_rk s) (os_spend_auth_sig s) (os_recipient s) (os_value s) (os_rho s)
    (os_rseed s) (os_fvk s) (os_witness s) (os_alpha s) (os_zip32_derivation s) (os_dummy_sk s)
    (os_proprietary s).

(** [From<v1::Spend> for super::Spend] *)
Definition spend_of_v1 (s : OSpendV1) : OSpend :=
  MkOSpend (os1_nullifier s) (os1_rk s) (os1_spend_auth_sig s) (os1_recipient s) (os1_value s) (os1_rho s)
    (os1_rseed s) (os1_fvk s) (os1_witness s) (os1_alpha s) (os1_zip32_derivation s) (os1_dummy_sk s)
    (os1_proprietary s).

(** [TryFrom<super::Output> for v1::Output] *)
Definition output_to_v1 (o : OOutput) : res EncodingError OOutputV1 :=
  enc_ciphertext ← ok_or (into_encrypted (oo_enc_ciphertext o)) RequiresV2;
  cmx ← ok_or (oo_cmx o) RequiresV2;
  Ok (MkOOutputV1 cmx (oo_ephemeral_key o) enc_ciphertext (oo_out_ciphertext o) (oo_recipient o)
        (oo_value o) (oo_rseed o) (oo_ock o) (oo_zip32_derivation o) (oo_user_address o)
        (oo_proprietary o)).

(** [From<v1::Output> for super::Output] *)
Definition output_of_v1 (o : OOutputV1) : OOutput :=
  MkOOutput (Some (oo1_cmx o)) (oo1_ephemeral_key o) (Encrypted (oo1_enc_ciphertext o))
    (oo1_out_ciphertext o) (oo1_recipient o) (oo1_value o) (oo1_rseed o) (oo1_ock o)
    (oo1_zip32_derivation o) (oo1_user_address o) (oo1_proprietary o).

(** [TryFrom<super::Action> for v1::Action] *)
Definition action_to_v1 (a : OAction) : res EncodingError OActionV1 :=
  cv_net ← ok_or (oa_cv_net a) RequiresV2;
  output ← output_to_v1 (oa_output a);
  Ok (MkOActionV1 cv_net (spend_to_v1 (oa_spend a)) output (oa_rcv a)).

(** [From<v1::Action> for super::Action] *)
Definition action_of_v1 (a : OActionV1) : OAction :=
  MkOAction (Some (oa1_cv_net a)) (spend_of_v1 (oa1_spend a)) (output_of_v1 (oa1_output a)) (oa1_rcv a).

(** [TryFrom<super::Bundle> for v1::Bundle] *)
Definition orchard_v1_try_from (bundle : OBundle) : res EncodingError OBundleV1 :=
  if negb (bool_decide (ob_note_version bundle = NoteV2)) then Err UnsupportedOrchardNoteVersion
  else
    anchor ← match ob_anchor bundle with
             | Some anchor => Ok anchor
             | None => match ob_actions bundle with
                       | [] => Ok ORCHARD_DEFAULT_ANCHOR
                       | _ :: _ => Err RequiresV2
                       end
             end;
    actions ← mapM_res action_to_v1 (ob_actions bundle);
    Ok (MkOBundleV1 actions (ob_flags bundle) (ob_value_sum bundle) anchor (ob_zkproof bundle)
          (ob_bsk bundle)).

(** [From<v1::Bundle> for super::Bundle] *)
Definition orchard_v1_into (bundle : OBundleV1) : OBundle :=
  let anchor :=
    match ob1_actions bundle with
    | [] => if decide (ob1_anchor bundle = ORCHARD_DEFAULT_ANCHOR) then None else Some (ob1_anchor bundle)
    | _ :: _ => Some (ob1_anchor bundle)
    end in
  MkOBundle (map action_of_v1 (ob1_actions bundle)) (ob1_flags bundle) (ob1_value_sum bundle) anchor
    NoteV2 (ob1_zkproof bundle) (ob1_bsk bundle).

(** ** The v2 types *)

Inductive SerializedNoteVersion : Type := SerializedV2 | SerializedV3.

(** [From<NoteVersion> for SerializedNoteVersion] and back *)
Definition note_version_to_v2 (v : NoteVersion) : SerializedNoteVersion :=
  match v with NoteV2 => SerializedV2 | NoteV3 => SerializedV3 end.
Definition note_version_of_v2 (v : SerializedNoteVersion) : NoteVersion :=
  match v with SerializedV2 => NoteV2 | SerializedV3 => NoteV3 end.

Record OSpendV2 : Type := MkOSpendV2 {
  os2_nullifier : option (list byte);
  os2_rk : option (list byte);
  os2_spend_auth_sig : option (list byte);
  os2_recipient : option (list byte);
  os2_value : option Z;
  os2_rho : option (list byte);
  os2_rseed : option (list byte);
  os2_fvk : option (list byte);
  os2_witness : option (Z * list (list byte));
  os2_alpha : option (list byte);
  os2_zip32_derivation : option Zip32Derivation;
  os2_dummy_sk : option (list byte);
  os2_proprietary : gmap string (list byte)
}.

Record OOutputV2 : Type := MkOOutputV2 {
  oo2_cmx : option (list byte);
  oo2_ephemeral_key : list byte;
  oo2_enc_ciphertext : EncCiphertext;
  oo2_out_ciphertext : list byte;
  oo2_recipient : option (list byte);
  oo2_value : option Z;
  oo2_rseed : option (list byte);
  oo2_ock : option (list byte);
  oo2_zip32_derivation : option Zip32Derivation;
  oo2_user_address : option string;
  oo2_proprietary : gmap string (list byte)
}.

Record OActionV2 : Type := MkOActionV2 {
  oa2_cv_net : option (list byte);
  oa2_spend : OSpendV2;
  oa2_output : OOutputV2;
  oa2_rcv : option (list byte)
}.

Record OBundleV2 : Type := MkOBundleV2 {
  ob2_actions : list OActionV2;
  ob2_flags : Z;
  ob2_value_sum : Z * bool;
  ob2_anchor : option (list byte);
  ob2_note_version : SerializedNoteVersion;
  ob2_zkproof : option (list byte);
  ob2_bsk : option (list byte)
}.

(** ** Conversions to and from v2 *)

(** [From<super::Spend> for v2::Spend] *)
Definition spend_to_v2 (s : OSpend) : OSpendV2 :=
  MkOSpendV2 (Some (os_nullifier s)) (Some (os_rk s)) (os_spend_auth_sig s) (os_recipient s) (os_value s)
    (os_rho s) (os_rseed s) (os_fvk s) (os_witness s) (os_alpha s) (os_zip32_derivation s)
    (os_dummy_sk s) (os_proprietary s).

(** [MissingRequiredField] carries the path of the field. *)
Definition MissingField : Type := string.

(** [v2::Spend::into_logical] *)
Definition spend_into_logical (s : OSpendV2) : res MissingField OSpend :=
  nullifier ← ok_or (os2_nullifier s) "orchard.actions[].spend.nullifier"%string;
  rk ← ok_or (os2_rk s) "orchard.actions[].spend.rk"%string;
  Ok (MkOSpend nullifier rk (os2_spend_auth_sig s) (os2_recipient s) (os2_value s) (os2_rho s)
        (os2_rseed s) (os2_fvk s) (os2_witness s) (os2_alpha s) (os2_zip32_derivation s)
        (os2_dummy_sk s) (os2_proprietary s)).

(** [From<super::Output> for v2::Output] *)
Definition output_to_v2 (o : OOutput) : OOutputV2 :=
  MkOOutputV2 (oo_cmx o) (oo_ephemeral_key o) (oo_enc_ciphertext o) (oo_out_ciphertext o) (oo_recipient o)
    (oo_value o) (oo_rseed o) (oo_ock o) (oo_zip32_derivation o) (oo_user_address o) (oo_proprietary o).

(** [From<v2::Output> for super::Output] *)
Definition output_of_v2 (o : OOutputV2) : OOutput :=
  MkOOutput (oo2_cmx o) (oo2_ephemeral_key o) (oo2_enc_ciphertext o) (oo2_out_ciphertext o)
    (oo2_recipient o) (oo2_value o) (oo2_rseed o) (oo2_ock o) (oo2_zip32_derivation o)
    (oo2_user_address o) (oo2_proprietary o).

(** [From<super::Action> for v2::Action] *)
Definition action_to_v2 (a : OAction) : OActionV2 :=
  MkOActionV2 (oa_cv_net a) (spend_to_v2 (oa_spend a)) (output_to_v2 (oa_output a)) (oa_rcv a).

(** [v2::Action::into_logical] *)
Definition action_into_logical (a : OActionV2) : res MissingField OAction :=
  spend ← spend_into_logical (oa2_spend a);
  Ok (MkOAction (oa2_cv_net a) spend (output_of_v2 (oa2_output a)) (oa2_rcv a)).

(** [TryFrom<super::Bundle> for v2::Bundle] *)
Definition orchard_v2_try_from (bundle : OBundle) : res EncodingError OBundleV2 :=
  Ok (MkOBundleV2 (map action_to_v2 (ob_actions bundle)) (ob_flags bundle) (ob_value_sum bundle)
        (ob_anchor bundle) (note_version_to_v2 (ob_note_version bundle)) (ob_zkproof bundle)
        (ob_bsk bundle)).

(** [v2::Bundle::into_logical] *)
Definition orchard_v2_into_logical (b : OBundleV2) : res MissingField OBundle :=
  actions ← mapM_res action_into_logical (ob2_actions b);
  Ok (MkOBundle actions (ob2_flags b) (ob2_value_sum b) (ob2_anchor b)
        (note_version_of_v2 (ob2_note_version b)) (ob2_zkproof b) (ob2_bsk b)).

(** [v2::is_default_empty] *)
Definition orchard_is_default_empty (bundle empty : OBundle) : bool :=
  let anchor := if decide (ob_anchor bundle = Some ORCHARD_DEFAULT_ANCHOR) then None
                else ob_anchor bundle in
  bool_decide (MkOBundle (ob_actions bundle) (ob_flags bundle) (ob_value_sum bundle) anchor
                 (ob_note_version bundle) (ob_zkproof bundle) (ob_bsk bundle) = empty).

(** [v2::encode] *)
Definition orchard_v2_encode (bundle empty : OBundle) : res EncodingError (option OBundleV2) :=
  if negb (orchard_is_default_empty bundle empty) then Some <$> orchard_v2_try_from bundle
  else Ok None.

(** ** The v1 round trip *)

(** The anchor that a v1 encoding gives back: an empty bundle with the default anchor
    cannot be told from one without an anchor. *)
Definition forget_default_anchor (bundle : OBundle) : OBundle :=
  let anchor :=
    match ob_actions bundle with
    | [] => if decide (ob_anchor bundle = Some ORCHARD_DEFAULT_ANCHOR) then None else ob_anchor bundle
    | _ :: _ => ob_anchor bundle
    end in
  MkOBundle (ob_actions bundle) (ob_flags bundle) (ob_value_sum bundle) anchor
    (ob_note_version bundle) (ob_zkproof bundle) (ob_bsk bundle).

(** An action with nothing redacted. *)
Definition action_complete (a : OAction) : Prop :=
  is_Some (oa_cv_net a) /\ is_Some (oo_cmx (oa_output a))
  /\ is_Some (into_encrypted (oo_enc_ciphertext (oa_output a))).

Lemma action_to_v1_Ok a v :
  action_to_v1 a = Ok v <-> action_of_v1 v = a.
Proof.
  destruct a as [cv [] [cmx epk enc ? ? ? ? ? ? ? ?] rcv]. destruct v as [? [] [] ?].
  unfold action_to_v1, action_of_v1, output_to_v1; cbn.
  destruct cv, enc, cmx; cbn; split; try done; intros H; simplify_eq/=; done.
Qed.

Lemma action_to_v1_complete a : action_complete a <-> exists v, action_to_v1 a = Ok v.
Proof.
  split.
  - intros (H1 & H2 & H3). unfold action_to_v1, output_to_v1.
    destruct H1 as [? ->], H2 as [? ->], H3 as [? ->]. cbn. eauto.
  - intros [v <-%action_to_v1_Ok]. unfold action_complete; cbn. eauto.
Qed.

Lemma action_to_v1_Err a e : action_to_v1 a = Err e -> e = RequiresV2.
Proof.
  unfold action_to_v1, output_to_v1.
  destruct (oa_cv_net a), (into_encrypted _), (oo_cmx _); cbn; congruence.
Qed.

Lemma actions_to_v1_Ok l k : mapM_res action_to_v1 l = Ok k <-> map action_of_v1 k = l.
Proof.
  rewrite mapM_res_Ok. split.
  - induction 1 as [|a v l k E%action_to_v1_Ok _ IH]; cbn; [done|congruence].
  - intros <-. induction k; cbn; constructor; [by apply action_to_v1_Ok|done].
Qed.

Lemma orchard_v1_try_from_Ok b v :
  orchard_v1_try_from b = Ok v -> orchard_v1_into v = forget_default_anchor b.
Proof.
  unfold orchard_v1_try_from, orchard_v1_into, forget_default_anchor.
  case_bool_decide as Hn; [|done]. cbn [negb].
  intros (anc & Ha & (acts & Hacts & [= <-])%res_bind_Ok)%res_bind_Ok. cbn.
  apply actions_to_v1_Ok in Hacts. rewrite Hn, <- Hacts. f_equal.
  destruct acts; cbn in *; destruct (ob_anchor b) as [x|]; rewrite <- ?Hacts in Ha; simplify_eq;
    repeat case_decide; congruence.
Qed.

(** When the v1 encoding can represent a bundle. *)
Definition v1_representable (b : OBundle) : Prop :=
  ob_note_version b = NoteV2
  /\ (is_Some (ob_anchor b) \/ ob_actions b = [])
  /\ Forall action_complete (ob_actions b).

Lemma orchard_v1_try_from_total b :
  v1_representable b <-> exists v, orchard_v1_try_from b = Ok v.
Proof.
  unfold v1_representable, orchard_v1_try_from. case_bool_decide as Hn; cbn [negb].
  2: { split; [intros [? _]; done|intros [? ?]; done]. }
  split.
  - intros (_ & Ha & Hc).
    destruct (mapM_res_total action_to_v1 (ob_actions b)) as [k Hk].
    { eapply Forall_impl; [exact Hc|]. intros a. by apply action_to_v1_complete. }
    destruct Ha as [[anc ->]|E]; [cbn; rewrite Hk; cbn; eauto|].
    rewrite E in *. destruct (ob_anchor b); cbn; eauto.
  - intros (v & (anc & Ha & (acts & Hacts & _)%res_bind_Ok)%res_bind_Ok). split_and!; [done| |].
    + destruct (ob_anchor b); [by left; eauto|]. destruct (ob_actions b); [by right|done].
    + apply Forall_forall. intros a Ha'. apply mapM_res_Ok in Hacts.
      apply list_elem_of_lookup_1 in Ha' as [i Hi].
      destruct (Forall2_lookup_l _ _ _ _ _ Hacts Hi) as (y & _ & Hy). apply action_to_v1_complete. eauto.
Qed.

(** The v1 encoding of an Orchard bundle.  It exists exactly for bundles of version
    2 notes with an anchor (or no actions) and no redacted fields, otherwise the error
    is [UnsupportedOrchardNoteVersion] for other notes and [RequiresV2] for the rest;
    decoding gives the bundle back, up to the default anchor of an empty bundle; and
    every v1 bundle survives decoding and encoding unchanged. *)
Theorem orchard_v1_roundtrip b v :
  ((exists w, orchard_v1_try_from b = Ok w) <-> v1_representable b)
  /\ (forall w, orchard_v1_try_from b = Ok w -> orchard_v1_into w = forget_default_anchor b)
  /\ (forall e, orchard_v1_try_from b = Err e ->
        e = if decide (ob_note_version b = NoteV2) then RequiresV2 else UnsupportedOrchardNoteVersion)
  /\ orchard_v1_try_from (orchard_v1_into v) = Ok v.
Proof.
  split_and!.
  - symmetry. apply orchard_v1_try_from_total.
  - apply orchard_v1_try_from_Ok.
  - intros e. unfold orchard_v1_try_from. case_bool_decide; case_decide; try done; cbn [negb]; [|by intros [= <-]].
    intros [Ha|(anc & _ & [Hm|(? & _ & ?)]%res_bind_Err)]%res_bind_Err; [| |done].
    + destruct (ob_anchor b), (ob_actions b); congruence.
    + apply mapM_res_Err in Hm as (? & a & ? & ? & _ & _ & Hm). by apply action_to_v1_Err in Hm.
  - destruct v as [acts flags vs anc zk bsk]. unfold orchard_v1_try_from, orchard_v1_into. cbn.
    rewrite bool_decide_true by done. cbn [negb].
    rewrite (proj2 (actions_to_v1_Ok _ acts)) by done.
    destruct acts; cbn; [case_decide; by subst|done].
Qed.

Lemma action_v2_roundtrip a : action_into_logical (action_to_v2 a) = Ok a.
Proof. by destruct a as [? [] [] ?]. Qed.

Lemma action_into_logical_Ok a2 a : action_into_logical a2 = Ok a -> action_to_v2 a = a2.
Proof.
  destruct a2 as [? [[nf|] [rk|] ? ? ? ? ? ? ? ? ? ? ?] [] ?]; cbn; try done. by intros [= <-].
Qed.

Lemma actions_v2_roundtrip l : mapM_res action_into_logical (map action_to_v2 l) = Ok l.
Proof. induction l as [|a l IH]; cbn -[action_into_logical]; [done|]. rewrite action_v2_roundtrip. cbn. by rewrite IH. Qed.

Lemma orchard_v2_logical b : exists v, orchard_v2_try_from b = Ok v /\ orchard_v2_into_logical v = Ok b.
Proof.
  eexists. split; [reflexivity|]. unfold orchard_v2_into_logical; cbn.
  rewrite actions_v2_roundtrip; cbn. by destruct b as [? ? ? ? [] ? ?].
Qed.

(** The first field of a spend that the logical bundle requires and that is missing. *)
Definition missing_field (s : OSpendV2) : option string :=
  match os2_nullifier s, os2_rk s with
  | None, _ => Some "orchard.actions[].spend.nullifier"%string
  | Some _, None => Some "orchard.actions[].spend.rk"%string
  | Some _, Some _ => None
  end.

Lemma action_into_logical_Err a e :
  action_into_logical a = Err e <-> missing_field (oa2_spend a) = Some e.
Proof.
  unfold action_into_logical, spend_into_logical, missing_field.
  destruct (os2_nullifier _), (os2_rk _); cbn; split; try done; by intros [= <-].
Qed.

(** What [encode] and [into_logical] with the canonical empty bundle for an omitted
    one give back. *)
Definition v2_decode (empty : OBundle) (o : option OBundleV2) : res MissingField OBundle :=
  match o with Some v => orchard_v2_into_logical v | None => Ok empty end.

Lemma orchard_v2_encode_decode b empty :
  exists o, orchard_v2_encode b empty = Ok o
    /\ v2_decode empty o = Ok (if orchard_is_default_empty b empty then empty else b)
    /\ (o = None <-> orchard_is_default_empty b empty = true).
Proof.
  unfold orchard_v2_encode. destruct (orchard_is_default_empty b empty); cbn [negb].
  - exists None. done.
  - destruct (orchard_v2_logical b) as (v & -> & Hv). exists (Some v). done.
Qed.

(** The v2 encoding of an Orchard or Ironwood bundle always exists; decoding it
    gives the bundle back, except that one which differs from the canonical empty
    bundle of its slot only by the default anchor is omitted and read back as that
    empty bundle; and what is decoded from v2 bytes encodes to the same v2 bundle,
    decoding failing exactly when an action lacks its nullifier or [rk], with the path
    of the first such field. *)
Theorem orchard_v2_roundtrip b empty v :
  (exists o, orchard_v2_encode b empty = Ok o
     /\ v2_decode empty o = Ok (if orchard_is_default_empty b empty then empty else b)
     /\ (o = None <-> orchard_is_default_empty b empty = true))
  /\ (forall c, orchard_v2_into_logical v = Ok c -> orchard_v2_try_from c = Ok v)
  /\ (forall e, orchard_v2_into_logical v = Err e <->
        exists l1 a l2, ob2_actions v = l1 ++ a :: l2
          /\ Forall (fun x => missing_field (oa2_spend x) = None) l1
          /\ missing_field (oa2_spend a) = Some e).
Proof.
  split_and!; [apply orchard_v2_encode_decode|..].
  - intros c (acts & Hacts & [= <-])%res_bind_Ok. unfold orchard_v2_try_from; cbn.
    assert (map action_to_v2 acts = ob2_actions v) as ->.
    { apply mapM_res_Ok in Hacts. induction Hacts as [|? ? ? ? H%action_into_logical_Ok]; cbn; congruence. }
    by destruct v as [? ? ? ? [] ? ?].
  - intros e. unfold orchard_v2_into_logical. rewrite res_bind_Err, mapM_res_Err. split.
    + intros [(l1 & a & l2 & k & E & Hk & Ha%action_into_logical_Err)|(? & _ & ?)]; [|done].
      exists l1, a, l2. split_and!; [done| |done]. apply mapM_res_Ok in Hk.
      clear E. induction Hk as [|x y l k' Hx _ IH]; [constructor|]. constructor; [|done].
      destruct (missing_field (oa2_spend x)) eqn:Em; [|done].
      apply action_into_logical_Err in Em. congruence.
    + intros (l1 & a & l2 & E & Hl & Ha%action_into_logical_Err). left.
      destruct (mapM_res_total action_into_logical l1) as [k Hk]; [|eauto 10].
      eapply Forall_impl; [exact Hl|]. intros x Hx.
      destruct (action_into_logical x) eqn:Ex; [eauto|]. apply action_into_logical_Err in Ex. congruence.
Qed.

(** ** Evaluation *)

Lemma orchard_v1_roundtrip_witness :
  (exists w, orchard_v1_try_from (sample_obundle (Some [Byte.x08]) (Some [Byte.x07]) (Encrypted [])) = Ok w
     /\ orchard_v1_into w = sample_obundle (Some [Byte.x08]) (Some [Byte.x07]) (Encrypted []))
  /\ orchard_v1_try_from (sample_obundle None (Some [Byte.x07]) (Encrypted [])) = Err RequiresV2.
Proof.
  split; [|reflexivity]. eexists. split; [reflexivity|].
  rewrite (proj1 (proj2 (orchard_v1_roundtrip
    (sample_obundle (Some [Byte.x08]) (Some [Byte.x07]) (Encrypted [])) (MkOBundleV1 [] 0 (0, false) [] None None)))
    _ eq_refl). reflexivity.
Defined.

Definition sample_action_v2 : OActionV2 :=
  MkOActionV2 None
    (MkOSpendV2 (Some [Byte.x01]) None None None None None None None None None None None ∅)
    (MkOOutputV2 None [Byte.x04] (MemoPlaintext []) [Byte.x05] None None None None None None ∅) None.

Lemma orchard_v2_roundtrip_witness :
  orchard_v2_into_logical (MkOBundleV2 [sample_action_v2] 3 (0, false) None SerializedV2 None None)
  = Err "orchard.actions[].spend.rk"%string.
Proof.
  apply (orchard_v2_roundtrip EMPTY_ORCHARD EMPTY_ORCHARD
    (MkOBundleV2 [sample_action_v2] 3 (0, false) None SerializedV2 None None)).
  exists [], sample_action_v2, []. split; [reflexivity|]. split; [constructor|reflexivity].
Defined.
