(* ===== verification/Pczt.v ===== *)
(** * PCZT: the format and the Combiner

    [librustzcash/pczt/src/lib.rs] (header, v1 and v2 containers, [Pczt::parse],
    [Pczt::serialize], [Pczt::has_data_in_pool]) and
    [librustzcash/pczt/src/roles/combiner/mod.rs] ([Combiner::combine], [merge]).

    The body of a PCZT is written and read by the crate [postcard], and the number of
    the v6 transaction version is a constant of the crate [zcash_protocol]; both are
    parameters here. *)

From S2P Require Import Prelude PcztCommon PcztTransparent PcztSapling PcztOrchard PcztOrchardCodec.

(** ** The header *)

Definition MAGIC_BYTES : list byte := [Byte.x50; Byte.x43; Byte.x5a; Byte.x54].
Definition PCZT_VERSION_1 : Z := 1.
Definition PCZT_VERSION_2 : Z := 2.
Definition VERSIONED_HEADER_LEN : nat := 8.

Inductive HeaderParseError : Type := HeaderInvalidMagic | HeaderTooShort.

(** [parse_header] *)
Definition parse_header (bytes magic : list byte) : res HeaderParseError (Z * list byte) :=
  if (length bytes <? VERSIONED_HEADER_LEN)%nat then Err HeaderTooShort
  else if negb (bool_decide (take 4 bytes = magic)) then Err HeaderInvalidMagic
  else Ok (le_combine (take 4 (drop 4 bytes)), drop VERSIONED_HEADER_LEN bytes).

(** [serialize_header] *)
Definition serialize_header (magic : list byte) (version : Z) : list byte :=
  magic ++ le_split 4 version.

(** ** The logical PCZT and its serialized forms *)

Record Pczt : Type := MkPczt {
  global : Global;
  transparent : TBundle;
  sapling : SBundle;
  orchard : OBundle;
  ironwood : OBundle
}.

(** [v1::Pczt] *)
Record PcztV1 : Type := MkPcztV1 {
  p1_global : Global;
  p1_transparent : TBundle;
  p1_sapling : SBundleV1;
  p1_orchard : OBundleV1
}.

(** [v2::Pczt] *)
Record PcztV2 : Type := MkPcztV2 {
  p2_global : Global;
  p2_transparent : option TBundle;
  p2_sapling : option SBundle;
  p2_orchard : option OBundleV2;
  p2_ironwood : option OBundleV2
}.

(** [postcard] for the two containers; [E] is its error type. *)
Class Postcard (E : Type) : Type := {
  to_postcard_v1 : PcztV1 -> list byte;
  from_postcard_v1 : list byte -> res E PcztV1;
  to_postcard_v2 : PcztV2 -> list byte;
  from_postcard_v2 : list byte -> res E PcztV2
}.

(** [PoolType] *)
Inductive PoolType : Type := TRANSPARENT | SAPLING | ORCHARD | IRONWOOD.

(** [Pczt::has_data_in_pool] *)
Definition has_data_in_pool (p : Pczt) (pool : PoolType) : bool :=
  let is_empty {A} (l : list A) := match l with [] => true | _ :: _ => false end in
  match pool with
  | TRANSPARENT => negb (is_empty (tb_inputs (transparent p))) || negb (is_empty (tb_outputs (transparent p)))
  | SAPLING => negb (is_empty (sb_spends (sapling p))) || negb (is_empty (sb_outputs (sapling p)))
  | ORCHARD => negb (is_empty (ob_actions (orchard p)))
  | IRONWOOD => negb (is_empty (ob_actions (ironwood p)))
  end.

Section Format.
Context {E : Type} {PC : Postcard E} (v6_tx_version : Z).

(** [TryFrom<Pczt> for v1::Pczt] *)
Definition v1_try_from (p : Pczt) : res EncodingError PcztV1 :=
  if tx_version (global p) =? v6_tx_version then Err UnsupportedTxVersion
  else if negb (bool_decide (ironwood p = EMPTY_IRONWOOD)) then Err UnsupportedTxVersion
  else
    sapling ← sapling_v1_try_from (sapling p);
    orchard ← orchard_v1_try_from (orchard p);
    Ok (MkPcztV1 (global p) (transparent p) sapling orchard).

(** [From<v1::Pczt> for Pczt] *)
Definition v1_into (p : PcztV1) : Pczt :=
  MkPczt (p1_global p) (p1_transparent p) (sapling_v1_into (p1_sapling p))
    (orchard_v1_into (p1_orchard p)) EMPTY_IRONWOOD.

(** [v1::Pczt::serialize] *)
Definition v1_serialize (p : PcztV1) : list byte :=
  serialize_header MAGIC_BYTES PCZT_VERSION_1 ++ to_postcard_v1 p.

(** [TryFrom<Pczt> for v2::Pczt] *)
Definition v2_try_from (p : Pczt) : res EncodingError PcztV2 :=
  let transparent := if negb (bool_decide (transparent p = EMPTY_TBUNDLE)) then Some (transparent p)
                     else None in
  let sapling := sapling_v2_encode (sapling p) in
  orchard ← orchard_v2_encode (orchard p) EMPTY_ORCHARD;
  ironwood ← orchard_v2_encode (ironwood p) EMPTY_IRONWOOD;
  Ok (MkPcztV2 (global p) transparent sapling orchard ironwood).

(** [ParseError] *)
Inductive ParseError : Type :=
| NotPczt
| Invalid (e : E)
| MissingRequiredField (field : string)
| TooShort
| UnknownVersion (version : Z).

(** [v2::Bundle::into_logical] as an operation with [ParseError]s *)
Definition map_missing {A} (r : res MissingField A) : res ParseError A :=
  match r with Ok a => Ok a | Err f => Err (MissingRequiredField f) end.

(** [opt.map(orchard::v2::Bundle::into_logical).transpose()?.unwrap_or(empty)] *)
Definition orchard_or_empty (o : option OBundleV2) (empty : OBundle) : res ParseError OBundle :=
  match o with
  | Some b => map_missing (orchard_v2_into_logical b)
  | None => Ok empty
  end.

(** [v2::Pczt::into_logical] *)
Definition v2_into_logical (p : PcztV2) : res ParseError Pczt :=
  orchard ← orchard_or_empty (p2_orchard p) EMPTY_ORCHARD;
  ironwood ← orchard_or_empty (p2_ironwood p) EMPTY_IRONWOOD;
  Ok (MkPczt (p2_global p) (default EMPTY_TBUNDLE (p2_transparent p))
        (default EMPTY_SBUNDLE (p2_sapling p)) orchard ironwood).

(** [v2::Pczt::serialize] *)
Definition v2_serialize (p : PcztV2) : list byte :=
  serialize_header MAGIC_BYTES PCZT_VERSION_2 ++ to_postcard_v2 p.

(** [Pczt::parse] *)
Definition parse (bytes : list byte) : res ParseError Pczt :=
  match parse_header bytes MAGIC_BYTES with
  | Err HeaderInvalidMagic => Err NotPczt
  | Err HeaderTooShort => Err TooShort
  | Ok (version, body) =>
      if version =? PCZT_VERSION_1 then
        match from_postcard_v1 body with Ok p => Ok (v1_into p) | Err e => Err (Invalid e) end
      else if version =? PCZT_VERSION_2 then
        match from_postcard_v2 body with Ok p => v2_into_logical p | Err e => Err (Invalid e) end
      else Err (UnknownVersion version)
  end.

(** [Pczt::serialize] *)
Definition serialize (p : Pczt) : res EncodingError (list byte) :=
  let v2 := (v2 ← v2_try_from p; Ok (v2_serialize v2)) in
  if negb (tx_version (global p) =? v6_tx_version) && bool_decide (ironwood p = EMPTY_IRONWOOD) then
    match v1_try_from p with
    | Ok v1 => Ok (v1_serialize v1)
    | Err _ => v2
    end
  else v2.
End Format.

Arguments Invalid {E} e.
Arguments NotPczt {E}.
Arguments TooShort {E}.
Arguments UnknownVersion {E} version.
Arguments MissingRequiredField {E} field.

(** ** The Combiner *)

Inductive CombinerError : Type := NoPczts | DataMismatch.

(** [merge] of the Combiner *)
Definition pczt_merge (lhs rhs : Pczt) : res CombinerError Pczt :=
  transparent ← ok_or (tbundle_merge (transparent lhs) (transparent rhs) (global lhs) (global rhs)) DataMismatch;
  sapling ← ok_or (sbundle_merge (sapling lhs) (sapling rhs) (global lhs) (global rhs)) DataMismatch;
  orchard ← ok_or (obundle_merge (orchard lhs) (orchard rhs) (global lhs) (global rhs)) DataMismatch;
  ironwood ← ok_or (obundle_merge (ironwood lhs) (ironwood rhs) (global lhs) (global rhs)) DataMismatch;
  global ← ok_or (global_merge (global lhs) (global rhs)) DataMismatch;
  Ok (MkPczt global transparent sapling orchard ironwood).

(** The closure of [try_fold] in [Combiner::combine] *)
Definition combine_step (acc : option Pczt) (p : Pczt) : res CombinerError (option Pczt) :=
  match acc with
  | None => Ok (Some p)
  | Some acc => Some <$> pczt_merge acc p
  end.

(** [Combiner::combine] *)
Definition combine (pczts : list Pczt) : res CombinerError Pczt :=
  match foldM combine_step None pczts with
  | Ok (Some p) => Ok p
  | Ok None => Err NoPczts
  | Err e => Err e
  end.

(** ** Round trips *)

(** What the format relies on: [postcard] reads back the containers it wrote for PCZTs
    that are values of the Rust types ([rust_value]: the lengths of arrays, the ranges
    of integers, strings in UTF-8, stripped memos). *)
Class PostcardLaws {E} {PC : Postcard E} (v6_tx_version : Z) (rust_value : Pczt -> Prop) : Prop := {
  postcard_v1 : forall p v, rust_value p -> v1_try_from v6_tx_version p = Ok v ->
    from_postcard_v1 (to_postcard_v1 v) = Ok v;
  postcard_v2 : forall p v, rust_value p -> v2_try_from p = Ok v ->
    from_postcard_v2 (to_postcard_v2 v) = Ok v
}.

Lemma parse_serialize_header magic version body :
  length magic = 4%nat -> 0 <= version < 2 ^ 32 ->
  parse_header (serialize_header magic version ++ body) magic = Ok (version, body).
Proof.
  intros Hm Hv. unfold parse_header, serialize_header, VERSIONED_HEADER_LEN.
  assert (length (le_split 4 version) = 4%nat) as Hl by apply length_le_split.
  rewrite (proj2 (Nat.ltb_ge _ _)) by (rewrite !length_app; lia).
  rewrite <- app_assoc, take_app_length' by done. rewrite bool_decide_true by done. cbn [negb].
  rewrite drop_app_length' by done. rewrite take_app_length' by done.
  rewrite le_combine_split, Z.mod_small by done.
  replace 8%nat with (length (magic ++ le_split 4 version)) by (rewrite length_app; lia).
  by rewrite app_assoc, drop_app_length.
Qed.

(** The v1 encoding can represent the PCZT. *)
Definition v1_encodable (v6_tx_version : Z) (p : Pczt) : Prop :=
  tx_version (global p) <> v6_tx_version /\ ironwood p = EMPTY_IRONWOOD
  /\ (is_Some (sb_anchor (sapling p)) \/ sb_spends (sapling p) = [])
  /\ v1_representable (orchard p).

Definition with_anchor (anchor : option (list byte)) (b : SBundle) : SBundle :=
  MkSBundle (sb_spends b) (sb_outputs b) (sb_value_sum b) anchor (sb_bsk b).
Definition with_oanchor (anchor : option (list byte)) (b : OBundle) : OBundle :=
  MkOBundle (ob_actions b) (ob_flags b) (ob_value_sum b) anchor (ob_note_version b) (ob_zkproof b) (ob_bsk b).

(** What is read back from the v1 and from the v2 encoding. *)
Definition after_v1 (p : Pczt) : Pczt :=
  MkPczt (global p) (transparent p)
    (with_anchor (Some (default SAPLING_DEFAULT_ANCHOR (sb_anchor (sapling p)))) (sapling p))
    (forget_default_anchor (orchard p)) (ironwood p).
Definition after_v2 (p : Pczt) : Pczt :=
  MkPczt (global p) (transparent p)
    (if sapling_is_default_empty (sapling p) then EMPTY_SBUNDLE else sapling p)
    (if orchard_is_default_empty (orchard p) EMPTY_ORCHARD then EMPTY_ORCHARD else orchard p)
    (if orchard_is_default_empty (ironwood p) EMPTY_IRONWOOD then EMPTY_IRONWOOD else ironwood p).

(** [q] has the data of [p], up to the anchors of bundles with nothing to spend. *)
Definition same_data (p q : Pczt) : Prop :=
  global q = global p /\ transparent q = transparent p
  /\ (exists a, sapling q = with_anchor a (sapling p) /\ (a = sb_anchor (sapling p) \/ sb_spends (sapling p) = []))
  /\ (exists a, orchard q = with_oanchor a (orchard p) /\ (a = ob_anchor (orchard p) \/ ob_actions (orchard p) = []))
  /\ (exists a, ironwood q = with_oanchor a (ironwood p)
        /\ (a = ob_anchor (ironwood p) \/ ob_actions (ironwood p) = [])).

Lemma sapling_v1_Ok b :
  (is_Some (sb_anchor b) \/ sb_spends b = []) <-> exists v, sapling_v1_try_from b = Ok v.
Proof.
  unfold sapling_v1_try_from. destruct (sb_anchor b) as [a|]; cbn; [split; eauto|].
  case_bool_decide as Hs; cbn; split; eauto; [intros [[? ?]|?]; done|intros [? ?]; done].
Qed.

Lemma sapling_v1_back b v :
  sapling_v1_try_from b = Ok v ->
  sapling_v1_into v = with_anchor (Some (default SAPLING_DEFAULT_ANCHOR (sb_anchor b))) b.
Proof.
  unfold sapling_v1_try_from, sapling_v1_into. destruct (sb_anchor b); cbn; [by intros [= <-]|].
  case_bool_decide; cbn; [by intros [= <-]|done].
Qed.

Lemma v1_try_from_Ok v6 p :
  v1_encodable v6 p <-> exists v, v1_try_from v6 p = Ok v.
Proof.
  unfold v1_encodable, v1_try_from. rewrite sapling_v1_Ok, orchard_v1_try_from_total.
  destruct (Z.eqb_spec (tx_version (global p)) v6); [split; [intros (? & _); done|intros [? ?]; done]|].
  case_bool_decide; cbn [negb]; [|split; [intros (_ & ? & _); done|intros [? ?]; done]]. split.
  - intros (_ & _ & [s ->] & [o ->]). cbn. eauto.
  - intros (v & (s & Hs & (o & Ho & _)%res_bind_Ok)%res_bind_Ok). eauto 10.
Qed.

Lemma v1_into_after v6 p v : v1_try_from v6 p = Ok v -> v1_into v = after_v1 p.
Proof.
  unfold v1_try_from, v1_into, after_v1. destruct (_ =? _); [done|]. case_bool_decide as Hi; [|done]. cbn [negb].
  intros (s & Hs%sapling_v1_back & (o & Ho%orchard_v1_try_from_Ok & [= <-])%res_bind_Ok)%res_bind_Ok. cbn.
  by rewrite Hs, Ho, Hi.
Qed.

Lemma serialize_v1 {E} {PC : Postcard E} v6 p v :
  v1_try_from v6 p = Ok v -> serialize v6 p = Ok (v1_serialize v).
Proof.
  intros Hv. unfold serialize. rewrite Hv. unfold v1_try_from in Hv.
  destruct (_ =? _); [done|]. by destruct (bool_decide _).
Qed.

Lemma serialize_v2 {E} {PC : Postcard E} v6 p :
  ~ v1_encodable v6 p -> serialize v6 p = (v ← v2_try_from p; Ok (v2_serialize v)).
Proof.
  rewrite v1_try_from_Ok. intros Hn. unfold serialize.
  destruct (v1_try_from v6 p) as [v|]; [by destruct Hn; eauto|]. by destruct (negb _ && _).
Qed.

Lemma v2_try_from_Ok {E} p :
  exists v, v2_try_from p = Ok v /\ @v2_into_logical E v = Ok (after_v2 p).
Proof.
  unfold v2_try_from.
  destruct (orchard_v2_encode_decode (orchard p) EMPTY_ORCHARD) as (o & -> & Ho & _).
  destruct (orchard_v2_encode_decode (ironwood p) EMPTY_IRONWOOD) as (i & -> & Hi & _).
  eexists. split; [reflexivity|]. unfold v2_into_logical. cbn [p2_global p2_transparent p2_sapling p2_orchard p2_ironwood].
  assert (forall o e b, v2_decode e o = Ok b -> @orchard_or_empty E o e = Ok b) as Hd.
  { intros [x|] e b; cbn; [|by intros [= ->]]. by destruct (orchard_v2_into_logical x); intros [= ->]. }
  rewrite (Hd _ _ _ Ho). cbn [mbind res_bind]. rewrite (Hd _ _ _ Hi). cbn [mbind res_bind].
  unfold after_v2, sapling_v2_encode. f_equal. f_equal.
  - by case_bool_decide.
  - by destruct (sapling_is_default_empty (sapling p)).
Qed.

Lemma after_v1_same p :
  (is_Some (sb_anchor (sapling p)) \/ sb_spends (sapling p) = []) -> same_data p (after_v1 p).
Proof.
  intros Hs. unfold same_data, after_v1; cbn. split_and!; [done|done|..].
  - eexists. split; [reflexivity|]. destruct Hs as [[a ->]|Hs]; [by left|by right].
  - unfold forget_default_anchor. eexists. split; [reflexivity|].
    destruct (ob_actions (orchard p)); [by right|by left].
  - exists (ob_anchor (ironwood p)). split; [by destruct p as [? ? ? ? []]|by left].
Qed.

Lemma orchard_default_empty_same b empty :
  ob_actions empty = [] -> ob_anchor empty = None ->
  exists a, (if orchard_is_default_empty b empty then empty else b) = with_oanchor a b
    /\ (a = ob_anchor b \/ ob_actions b = []).
Proof.
  intros He Ha. unfold orchard_is_default_empty. case_bool_decide as Hb.
  - exists None. subst empty. cbn in *. rewrite Ha. split; [done|by right].
  - exists (ob_anchor b). split; [by destruct b|by left].
Qed.

Lemma after_v2_same p : same_data p (after_v2 p).
Proof.
  unfold same_data, after_v2; cbn. split_and!; [done|done|..].
  - unfold sapling_is_default_empty. case_bool_decide as Hb.
    + exists None. revert Hb. unfold with_anchor, EMPTY_SBUNDLE. intros [= -> -> -> _ ->]. by split; [|right].
    + exists (sb_anchor (sapling p)). split; [by destruct (sapling p)|by left].
  - by apply orchard_default_empty_same.
  - by apply orchard_default_empty_same.
Qed.

Section RoundTrip.
Context {E : Type} {PC : Postcard E} (v6 : Z) (rust_value : Pczt -> Prop).
Context {PL : PostcardLaws v6 rust_value}.

Lemma parse_v1_serialize p v :
  rust_value p -> v1_try_from v6 p = Ok v -> parse (v1_serialize v) = Ok (after_v1 p).
Proof using PL.
  intros Hp Hv. unfold parse, v1_serialize. rewrite parse_serialize_header; [|done|unfold PCZT_VERSION_1; lia].
  rewrite Z.eqb_refl, (postcard_v1 p v Hp Hv). by rewrite (v1_into_after v6 p v Hv).
Qed.

Lemma parse_v2_serialize p v :
  rust_value p -> v2_try_from p = Ok v -> parse (v2_serialize v) = Ok (after_v2 p).
Proof using PL.
  intros Hp Hv. unfold parse, v2_serialize. rewrite parse_serialize_header; [|done|unfold PCZT_VERSION_2; lia].
  cbn [Z.eqb PCZT_VERSION_1 PCZT_VERSION_2 Pos.eqb].
  rewrite (postcard_v2 p v Hp Hv). destruct (v2_try_from_Ok (E := E) p) as (v' & Hv' & Hl). congruence.
Qed.

(** C32: Serializing a PCZT never fails, and parsing the bytes gives a PCZT with all of
    its data: the result differs at most in the anchors of bundles without spends or
    actions. *)
Theorem parse_serialize p :
  rust_value p ->
  exists bytes q, serialize v6 p = Ok bytes /\ parse bytes = Ok q /\ same_data p q
    /\ (v1_encodable v6 p -> q = after_v1 p) /\ (~ v1_encodable v6 p -> q = after_v2 p).
Proof using PL.
  intros Hp. destruct (v1_try_from v6 p) as [v|e] eqn:Hv.
  - assert (v1_encodable v6 p) as Hen by (apply v1_try_from_Ok; eauto).
    exists (v1_serialize v), (after_v1 p). split_and!; [by apply serialize_v1|by apply parse_v1_serialize|..]; try done.
    apply after_v1_same, Hen.
  - assert (~ v1_encodable v6 p) as Hen by (rewrite v1_try_from_Ok; intros [? ?]; congruence).
    destruct (v2_try_from_Ok (E := E) p) as (v & Hv2 & _).
    exists (v2_serialize v), (after_v2 p). split_and!; [|by apply parse_v2_serialize|apply after_v2_same|done..].
    by rewrite serialize_v2, Hv2.
Qed.

(** [serialize] writes the magic bytes and the least version that can represent the
    PCZT: 1 unless it is for a v6 transaction, has Ironwood data, lacks the anchor of a
    bundle that needs one, has version 3 Orchard notes or redacted fields of an Orchard
    action; and 2 otherwise. *)
Theorem serialize_minimal_version p bytes :
  serialize v6 p = Ok bytes ->
  (v1_encodable v6 p /\ take 8 bytes = serialize_header MAGIC_BYTES PCZT_VERSION_1)
  \/ (~ v1_encodable v6 p /\ take 8 bytes = serialize_header MAGIC_BYTES PCZT_VERSION_2).
Proof using Type.
  destruct (v1_try_from v6 p) as [v|e] eqn:Hv.
  - rewrite (serialize_v1 v6 p v Hv). intros [= <-]. left. split; [apply v1_try_from_Ok; eauto|done].
  - assert (~ v1_encodable v6 p) as Hen by (rewrite v1_try_from_Ok; intros [? ?]; congruence).
    rewrite serialize_v2 by done. destruct (v2_try_from_Ok (E := E) p) as (v & -> & _).
    intros [= <-]. by right.
Qed.
End RoundTrip.

Definition header_version (bytes : list byte) : Z := le_combine (take 4 (drop 4 bytes)).

(** A parse of bytes with a good header. *)
Definition has_header (bytes : list byte) : Prop :=
  (8 <= length bytes)%nat /\ take 4 bytes = MAGIC_BYTES.

Lemma parse_header_spec bytes :
  parse_header bytes MAGIC_BYTES =
  if decide (length bytes < 8)%nat then Err HeaderTooShort
  else if decide (take 4 bytes = MAGIC_BYTES) then Ok (header_version bytes, drop 8 bytes)
  else Err HeaderInvalidMagic.
Proof.
  unfold parse_header, VERSIONED_HEADER_LEN. destruct (Nat.ltb_spec (length bytes) 8); case_decide; try lia; [done|].
  case_bool_decide; by case_decide.
Qed.

Lemma v2_into_logical_missing {E} v f :
  @v2_into_logical E v = Err f ->
  f = MissingRequiredField "orchard.actions[].spend.nullifier"
  \/ f = MissingRequiredField "orchard.actions[].spend.rk".
Proof.
  assert (forall o e, @orchard_or_empty E o e = Err f ->
    f = MissingRequiredField "orchard.actions[].spend.nullifier"
    \/ f = MissingRequiredField "orchard.actions[].spend.rk") as Ho.
  { intros [b|] e; cbn; [|done]. destruct (orchard_v2_into_logical b) as [|m] eqn:Em; [done|].
    intros [= <-]. apply res_bind_Err in Em as [Em|(? & _ & ?)]; [|done].
    apply mapM_res_Err in Em as (? & a & ? & ? & _ & _ & Ha%action_into_logical_Err).
    unfold missing_field in Ha. repeat case_match; simplify_eq; auto. }
  unfold v2_into_logical.
  intros [H|(o & _ & [H|(? & _ & ?)]%res_bind_Err)]%res_bind_Err; [by eapply Ho..|done].
Qed.

(** The errors of [parse]: [TooShort] for less than a header, [NotPczt] for other
    magic bytes, [UnknownVersion] for a version that is neither 1 nor 2, [Invalid] when
    [postcard] rejects the body, and [MissingRequiredField] only for a v2 body in which
    an action lacks its nullifier or [rk]. *)
Theorem parse_errors {E} {PC : Postcard E} bytes :
  (parse bytes = Err TooShort <-> (length bytes < 8)%nat)
  /\ (parse bytes = Err NotPczt <-> (8 <= length bytes)%nat /\ take 4 bytes <> MAGIC_BYTES)
  /\ (forall v, parse bytes = Err (UnknownVersion v) <->
        has_header bytes /\ header_version bytes = v /\ v <> 1 /\ v <> 2)
  /\ (forall e, parse bytes = Err (Invalid e) <->
        has_header bytes
        /\ (header_version bytes = 1 /\ from_postcard_v1 (drop 8 bytes) = Err e
            \/ header_version bytes = 2 /\ from_postcard_v2 (drop 8 bytes) = Err e))
  /\ (forall f, parse bytes = Err (MissingRequiredField f) ->
        has_header bytes /\ header_version bytes = 2
        /\ (f = "orchard.actions[].spend.nullifier" \/ f = "orchard.actions[].spend.rk")%string).
Proof.
  unfold parse, has_header, PCZT_VERSION_1, PCZT_VERSION_2. rewrite parse_header_spec.
  case_decide as Hlen; [naive_solver lia|].
  case_decide as Hm; [|naive_solver lia].
  destruct (Z.eqb_spec (header_version bytes) 1) as [E1|].
  { rewrite E1. destruct (from_postcard_v1 _); naive_solver lia. }
  destruct (Z.eqb_spec (header_version bytes) 2) as [E2|]; [|naive_solver lia].
  rewrite E2. destruct (from_postcard_v2 _) as [v|e]; [|naive_solver lia].
  destruct (v2_into_logical v) as [q|f] eqn:Ev; [naive_solver lia|].
  apply v2_into_logical_missing in Ev as [->| ->]; naive_solver lia.
Qed.

(** ** Combining *)

(** Everything in the global fields of [a] is in those of [b]: the same transaction,
    the proprietary fields, and no permission to modify that [a] does not give. *)
Definition global_below (a b : Global) : Prop :=
  tx_version a = tx_version b /\ version_group_id a = version_group_id b
  /\ consensus_branch_id a = consensus_branch_id b /\ fallback_lock_time a = fallback_lock_time b
  /\ expiry_height a = expiry_height b /\ coin_type a = coin_type b
  /\ proprietary a ⊆ proprietary b
  /\ (inputs_modifiable b = true -> inputs_modifiable a = true)
  /\ (outputs_modifiable b = true -> outputs_modifiable a = true)
  /\ (has_sighash_single a = true -> has_sighash_single b = true)
  /\ (shielded_modifiable b = true -> shielded_modifiable a = true).

(** [b] has the data of [a]: everything in its bundles except their value sums, which
    follow the longer bundle, and their [bsk]. *)
Definition oaction_below (a b : OBundle) : Prop :=
  below (join_lists merge_action) (ob_actions a) (ob_actions b)
  /\ below merge_optional (ob_anchor a) (ob_anchor b)
  /\ below merge_optional (ob_zkproof a) (ob_zkproof b)
  /\ ob_flags a = ob_flags b /\ ob_note_version a = ob_note_version b.

Definition pczt_below (a b : Pczt) : Prop :=
  global_below (global a) (global b)
  /\ below (join_lists merge_input) (tb_inputs (transparent a)) (tb_inputs (transparent b))
  /\ below (join_lists merge_output) (tb_outputs (transparent a)) (tb_outputs (transparent b))
  /\ below (join_lists merge_sspend) (sb_spends (sapling a)) (sb_spends (sapling b))
  /\ below (join_lists merge_soutput) (sb_outputs (sapling a)) (sb_outputs (sapling b))
  /\ below merge_optional (sb_anchor (sapling a)) (sb_anchor (sapling b))
  /\ oaction_below (orchard a) (orchard b) /\ oaction_below (ironwood a) (ironwood b).

Lemma below_refl {A} (mg : A -> A -> option A) `{!MergeLaws mg} a : below mg a a.
Proof. apply mg_idem. Qed.

Lemma below_trans {A} (mg : A -> A -> option A) `{!MergeLaws mg} a b c :
  below mg a b -> below mg b c -> below mg a c.
Proof.
  unfold below. intros Hab Hbc. pose proof (mg_assoc a b c) as H. rewrite Hab, Hbc in H. cbn in H. congruence.
Qed.

Ltac solve_below :=
  match goal with H : below ?mg ?a ?b, H' : below ?mg ?b ?c |- below ?mg ?a ?c =>
    exact (below_trans mg a b c H H') end.

Lemma global_below_trans a b c : global_below a b -> global_below b c -> global_below a c.
Proof.
  unfold global_below. intros H1 H2. destruct_and?. split_and!; try congruence; auto. by etrans.
Qed.

Lemma oaction_below_trans a b c : oaction_below a b -> oaction_below b c -> oaction_below a c.
Proof.
  unfold oaction_below. intros (?&?&?&?&?) (?&?&?&?&?).
  split_and!; [solve_below..|congruence|congruence].
Qed.

#[export] Instance pczt_below_refl : Reflexive pczt_below.
Proof.
  intros p. unfold pczt_below, oaction_below. split_and!; try done; try apply below_refl; apply _.
Qed.

#[export] Instance pczt_below_trans : Transitive pczt_below.
Proof.
  intros a b c. unfold pczt_below. intros (?&?&?&?&?&?&?&?) (?&?&?&?&?&?&?&?).
  split_and!; [eapply global_below_trans; eassumption|solve_below..|eapply oaction_below_trans; eassumption|eapply oaction_below_trans; eassumption].
Qed.

Lemma global_merge_below a b c :
  global_ok a -> global_ok b -> global_merge a b = Some c ->
  global_below a c /\ global_below b c /\ global_ok c /\ reserved_zero (tx_modifiable c).
Proof.
  intros Ha Hb Hm. destruct (global_merge_ok a b c Ha Hb Hm) as [Hc1 Hc2].
  destruct (global_merge_flags a b c Ha Hb Hm) as (F1 & F2 & F3 & F4).
  apply global_merge_Some in Hm as ((E1 & E2 & E3 & E4 & E5 & E6) & _ & _ & Hcomp & ->); [|done..].
  unfold global_below; cbn [tx_version version_group_id consensus_branch_id fallback_lock_time
    expiry_height coin_type proprietary] in *.
  rewrite F1, F2, F3, F4. split_and!; try done; try congruence.
  all: try (intros [H1 H2]%andb_prop; done).
  all: try (intros ->; by rewrite ?orb_true_r).
  - apply map_union_subseteq_l.
  - rewrite compatible_union_comm by done. apply map_union_subseteq_l.
Qed.

Lemma obundle_merge_below a b ga gb c :
  obundle_merge a b ga gb = Some c -> oaction_below a c /\ oaction_below b c.
Proof.
  intros (Hs & Ha & Hz & Hf1 & Hf2 & Hn1 & Hn2 & _ & _)%obundle_merge_inv.
  destruct (merge_upper_bound _ _ _ _ Hs), (merge_upper_bound _ _ _ _ Ha), (merge_upper_bound _ _ _ _ Hz).
  unfold oaction_below. split_and!; congruence.
Qed.

Lemma pczt_merge_below a b c :
  global_ok (global a) -> global_ok (global b) -> pczt_merge a b = Ok c ->
  pczt_below a c /\ pczt_below b c /\ global_ok (global c).
Proof.
  intros Hga Hgb (t & Ht%ok_or_Ok & H)%res_bind_Ok. apply res_bind_Ok in H as (s & Hs%ok_or_Ok & H).
  apply res_bind_Ok in H as (o & Ho%ok_or_Ok & H). apply res_bind_Ok in H as (i & Hi%ok_or_Ok & H).
  apply res_bind_Ok in H as (g & Hg%ok_or_Ok & [= <-]).
  apply tbundle_merge_below in Ht as ((T1 & T2) & (T3 & T4)).
  apply sbundle_merge_inv in Hs as (S1 & S2 & S3 & _).
  destruct (merge_upper_bound _ _ _ _ S1), (merge_upper_bound _ _ _ _ S2), (merge_upper_bound _ _ _ _ S3).
  apply obundle_merge_below in Ho as [O1 O2], Hi as [I1 I2].
  apply global_merge_below in Hg as (G1 & G2 & G3 & _); [|done..].
  unfold pczt_below; cbn. by split_and!.
Qed.

Lemma pczt_merge_self p :
  global_ok (global p) -> reserved_zero (tx_modifiable (global p)) -> pczt_merge p p = Ok p.
Proof.
  intros Hg Hr. unfold pczt_merge.
  rewrite tbundle_merge_self, sbundle_merge_self, !obundle_merge_self, global_merge_self by done. by destruct p.
Qed.

(** The accumulator of [try_fold] has the data of all PCZTs so far. *)
Lemma combine_fold acc l r :
  from_option (fun a => global_ok (global a)) True acc -> Forall (fun p => global_ok (global p)) l ->
  foldM combine_step acc l = Ok r ->
  (forall a, acc = Some a -> exists q, r = Some q /\ pczt_below a q)
  /\ (forall p, p ∈ l -> exists q, r = Some q /\ pczt_below p q).
Proof.
  revert acc. induction l as [|p l IH]; intros acc Hacc Hl; cbn.
  - intros [= <-]. split; [intros a ->; by exists a|]. intros p []%not_elem_of_nil.
  - apply Forall_cons in Hl as [Hp Hl]. intros (acc' & Hs & Hf)%res_bind_Ok.
    assert (exists c, acc' = Some c /\ global_ok (global c) /\ pczt_below p c
      /\ forall a, acc = Some a -> pczt_below a c) as (c & -> & Hc & Hpc & Hac).
    { destruct acc as [a|]; cbn in Hs.
      - destruct (pczt_merge a p) as [c|] eqn:Em; simplify_eq/=.
        destruct (pczt_merge_below a p c) as (H1 & H2 & H3); [done..|]. exists c. split_and!; try done.
        by intros a' [= <-].
      - injection Hs as <-. exists p. split_and!; done. }
    destruct (IH (Some c) Hc Hl Hf) as [H1 H2]. destruct (H1 c eq_refl) as (q & -> & Hq). split.
    + intros a Ha. exists q. split; [done|]. etrans; [by apply Hac|done].
    + intros x [->|Hx]%elem_of_cons; [|by apply H2]. exists q. split; [done|]. by etrans.
Qed.

Lemma combine_fold_copies p n :
  global_ok (global p) -> reserved_zero (tx_modifiable (global p)) ->
  foldM combine_step (Some p) (repeat p n) = Ok (Some p).
Proof.
  intros Hg Hr. induction n as [|n IH]; cbn; [done|]. by rewrite pczt_merge_self.
Qed.

Lemma combine_fold_Err acc l e : foldM combine_step acc l = Err e -> e = DataMismatch.
Proof.
  revert acc. induction l as [|p l IH]; intros acc; cbn; [done|].
  intros [H|(acc' & _ & H)]%res_bind_Err; [|by eapply IH].
  destruct acc as [a|]; cbn in H; [|done]. destruct (pczt_merge a p) eqn:Em; simplify_eq/=.
  unfold pczt_merge in Em. repeat (apply res_bind_Err in Em as [Em|(? & _ & Em)];
    [match type of Em with ok_or ?o _ = _ => destruct o; cbn in Em; congruence end|]). done.
Qed.

(** C33: The Combiner fails with [NoPczts] exactly when it is given nothing, and otherwise
    only with [DataMismatch]; what it returns has the inputs, spends, outputs and actions
    of each PCZT it was given with all their optional fields, its anchors, Orchard proof
    and proprietary fields, and no permission that one of them withholds; and combining
    any number of copies of a PCZT gives that PCZT.  (The binding signature keys are the
    exception, see [PcztSapling] and [PcztOrchard].) *)
Theorem combine_preserves_data l p n :
  Forall (fun p => global_ok (global p)) l -> global_ok (global p) ->
  reserved_zero (tx_modifiable (global p)) ->
  (combine l = Err NoPczts <-> l = [])
  /\ (forall q, combine l = Ok q -> Forall (fun x => pczt_below x q) l)
  /\ combine (repeat p (S n)) = Ok p.
Proof.
  intros Hl Hg Hr. unfold combine. split_and!.
  - destruct l as [|x l]; [done|]. split; [|done].
    destruct (foldM combine_step None (x :: l)) as [[q|]|e] eqn:Hf; [done| |].
    + destruct (combine_fold None (x :: l) None I Hl Hf) as [_ H].
      destruct (H x) as (q & ? & _); [by left|done].
    + apply combine_fold_Err in Hf as ->. done.
  - intros q. destruct (foldM combine_step None l) as [[q'|]|e] eqn:Hf; [|done..]. intros [= ->].
    destruct (combine_fold None l (Some q) I Hl Hf) as [_ H]. apply Forall_forall.
    intros x Hx. by destruct (H x Hx) as (? & [= <-] & ?).
  - cbn. by rewrite combine_fold_copies.
Qed.
