(* ===== verification/PcztSample.v ===== *)
(** * PCZT: a codec for the containers, and evaluation of the format's theorems

    A concrete instance of [Postcard] that satisfies [PostcardLaws], showing that what
    [Pczt] assumes of the crate [postcard] can hold, and the theorems of [Pczt] applied
    to concrete PCZTs. *)

From S2P Require Import Prelude PcztCommon PcztTransparent PcztSapling PcztOrchard PcztOrchardCodec Pczt.

(** ** The containers are countable *)

#[export] Instance Zip32Derivation_countable : Countable Zip32Derivation.
Proof.
  apply (inj_countable' (fun d => (seed_fingerprint d, derivation_path d)) (fun t => MkZip32Derivation t.1 t.2)).
  by intros [].
Defined.

#[export] Instance Global_eq_dec : EqDecision Global.
Proof. solve_decision. Defined.
#[export] Instance Global_countable : Countable Global.
Proof.
  apply (inj_countable'
    (fun g => (tx_version g, version_group_id g, consensus_branch_id g, fallback_lock_time g, expiry_height g,
               coin_type g, tx_modifiable g, proprietary g))
    (fun '(a, b, c, d, e, f, g, h) => MkGlobal a b c d e f g h)).
  by intros [].
Defined.

#[export] Instance TInput_countable : Countable TInput.
Proof. apply (inj_countable' input_tuple input_of_tuple). by intros []. Defined.
#[export] Instance TOutput_countable : Countable TOutput.
Proof. apply (inj_countable' output_tuple output_of_tuple). by intros []. Defined.
#[export] Instance TBundle_countable : Countable TBundle.
Proof.
  apply (inj_countable' (fun b => (tb_inputs b, tb_outputs b)) (fun t => MkTBundle t.1 t.2)). by intros [].
Defined.

#[export] Instance SSpend_countable : Countable SSpend.
Proof. apply (inj_countable' sspend_tuple sspend_of_tuple). by intros []. Defined.
#[export] Instance SOutput_countable : Countable SOutput.
Proof. apply (inj_countable' soutput_tuple soutput_of_tuple). by intros []. Defined.
#[export] Instance SBundle_countable : Countable SBundle.
Proof.
  apply (inj_countable' (fun b => (sb_spends b, sb_outputs b, sb_value_sum b, sb_anchor b, sb_bsk b))
    (fun '(a, b, c, d, e) => MkSBundle a b c d e)). by intros [].
Defined.

#[export] Instance EncCiphertext_countable : Countable EncCiphertext.
Proof.
  apply (inj_countable' (fun e => match e with Encrypted c => inl c | MemoPlaintext m => inr m end)
    (fun s => match s with inl c => Encrypted c | inr m => MemoPlaintext m end)). by intros [].
Defined.

#[export] Instance OAction_countable : Countable OAction.
Proof. apply (inj_countable' action_tuple action_of_tuple). by intros [? [] [] ?]. Defined.

(** A v1 action is a logical action with nothing redacted. *)
#[export] Instance OSpendV1_eq_dec : EqDecision OSpendV1.
Proof. solve_decision. Defined.
#[export] Instance OOutputV1_eq_dec : EqDecision OOutputV1.
Proof. solve_decision. Defined.
#[export] Instance OActionV1_eq_dec : EqDecision OActionV1.
Proof. solve_decision. Defined.
#[export] Instance OActionV1_countable : Countable OActionV1.
Proof.
  apply (inj_countable action_of_v1 (fun a => match action_to_v1 a with Ok v => Some v | Err _ => None end)).
  by intros [? [] [] ?].
Defined.

(** A v2 action is a logical action, apart from its two optional fields. *)
#[export] Instance OSpendV2_eq_dec : EqDecision OSpendV2.
Proof. solve_decision. Defined.
#[export] Instance OOutputV2_eq_dec : EqDecision OOutputV2.
Proof. solve_decision. Defined.
#[export] Instance OActionV2_eq_dec : EqDecision OActionV2.
Proof. solve_decision. Defined.
Definition drop_required (a : OActionV2) : OAction :=
  let s := oa2_spend a in
  MkOAction (oa2_cv_net a)
    (MkOSpend [] [] (os2_spend_auth_sig s) (os2_recipient s) (os2_value s) (os2_rho s) (os2_rseed s) (os2_fvk s)
       (os2_witness s) (os2_alpha s) (os2_zip32_derivation s) (os2_dummy_sk s) (os2_proprietary s))
    (output_of_v2 (oa2_output a)) (oa2_rcv a).
Definition restore_required (nf rk : option (list byte)) (a : OAction) : OActionV2 :=
  let s := oa_spend a in
  MkOActionV2 (oa_cv_net a)
    (MkOSpendV2 nf rk (os_spend_auth_sig s) (os_recipient s) (os_value s) (os_rho s) (os_rseed s) (os_fvk s)
       (os_witness s) (os_alpha s) (os_zip32_derivation s) (os_dummy_sk s) (os_proprietary s))
    (output_to_v2 (oa_output a)) (oa_rcv a).
#[export] Instance OActionV2_countable : Countable OActionV2.
Proof.
  apply (inj_countable' (fun a => (os2_nullifier (oa2_spend a), os2_rk (oa2_spend a), drop_required a))
    (fun '(nf, rk, a) => restore_required nf rk a)). by intros [? [] [] ?].
Defined.

#[export] Instance SerializedNoteVersion_eq_dec : EqDecision SerializedNoteVersion.
Proof. solve_decision. Defined.
#[export] Instance OBundleV2_eq_dec : EqDecision OBundleV2.
Proof. solve_decision. Defined.
#[export] Instance OBundleV2_countable : Countable OBundleV2.
Proof.
  apply (inj_countable'
    (fun b => (ob2_actions b, ob2_flags b, ob2_value_sum b, ob2_anchor b,
               match ob2_note_version b with SerializedV2 => true | SerializedV3 => false end,
               ob2_zkproof b, ob2_bsk b))
    (fun '(a, b, c, d, e, f, g) => MkOBundleV2 a b c d (if (e : bool) then SerializedV2 else SerializedV3) f g)).
  by intros [? ? ? ? [] ? ?].
Defined.

#[export] Instance SBundleV1_eq_dec : EqDecision SBundleV1.
Proof. solve_decision. Defined.
#[export] Instance OBundleV1_eq_dec : EqDecision OBundleV1.
Proof. solve_decision. Defined.
#[export] Instance PcztV1_eq_dec : EqDecision PcztV1.
Proof. solve_decision. Defined.
#[export] Instance PcztV1_countable : Countable PcztV1.
Proof.
  apply (inj_countable'
    (fun p => let s := p1_sapling p in let o := p1_orchard p in
       (p1_global p, p1_transparent p,
        (sv1_spends s, sv1_outputs s, sv1_value_sum s, sv1_anchor s, sv1_bsk s),
        (ob1_actions o, ob1_flags o, ob1_value_sum o, ob1_anchor o, ob1_zkproof o, ob1_bsk o)))
    (fun '(g, t, (a, b, c, d, e), (h, i, j, k, l, m)) =>
       MkPcztV1 g t (MkSBundleV1 a b c d e) (MkOBundleV1 h i j k l m))).
  by intros [? ? [] []].
Defined.

#[export] Instance PcztV2_eq_dec : EqDecision PcztV2.
Proof. solve_decision. Defined.
#[export] Instance PcztV2_countable : Countable PcztV2.
Proof.
  apply (inj_countable'
    (fun p => (p2_global p, p2_transparent p, p2_sapling p, p2_orchard p, p2_ironwood p))
    (fun '(a, b, c, d, e) => MkPcztV2 a b c d e)).
  by intros [].
Defined.

(** ** A codec *)

(** A positive number as its bits, one in each byte. *)
Fixpoint pos_bytes (p : positive) : list byte :=
  match p with
  | xH => []
  | xO p => Byte.x00 :: pos_bytes p
  | xI p => Byte.x01 :: pos_bytes p
  end.
Fixpoint bytes_pos (l : list byte) : positive :=
  match l with
  | [] => 1%positive
  | b :: l => if decide (b = Byte.x00) then xO (bytes_pos l) else xI (bytes_pos l)
  end.

Lemma bytes_pos_bytes p : bytes_pos (pos_bytes p) = p.
Proof. induction p as [p IH|p IH|]; cbn; [by rewrite IH|by rewrite IH|done]. Qed.

Definition from_bytes {A} `{Countable A} (l : list byte) : res unit A := ok_or (decode (bytes_pos l)) ().

#[export] Instance sample_postcard : Postcard unit := {|
  to_postcard_v1 v := pos_bytes (encode v);
  from_postcard_v1 := from_bytes;
  to_postcard_v2 v := pos_bytes (encode v);
  from_postcard_v2 := from_bytes
|}.

Lemma from_bytes_encode {A} `{Countable A} (a : A) : from_bytes (pos_bytes (encode a)) = Ok a.
Proof. unfold from_bytes. by rewrite bytes_pos_bytes, decode_encode. Qed.

#[export] Instance sample_postcard_laws : PostcardLaws 6 (fun _ => True).
Proof. split; intros; apply from_bytes_encode. Qed.

(** ** Evaluation *)

Definition sample_pczt : Pczt :=
  MkPczt (sample_global 0x81 ∅) sample_t1 (sample_sbundle (Some [Byte.x07]) None)
    (sample_obundle (Some [Byte.x08]) (Some [Byte.x07]) (Encrypted [])) EMPTY_IRONWOOD.

Lemma sample_v1_encodable : v1_encodable 6 sample_pczt.
Proof. apply v1_try_from_Ok. eexists. reflexivity. Qed.

Lemma parse_serialize_witness :
  exists bytes, serialize 6 sample_pczt = Ok bytes /\ parse bytes = Ok sample_pczt.
Proof.
  destruct (parse_serialize 6 (fun _ => True) sample_pczt I) as (bytes & q & Hs & Hp & _ & Hq & _).
  exists bytes. split; [exact Hs|]. rewrite Hp, (Hq sample_v1_encodable). reflexivity.
Defined.

(** A PCZT whose v5 transaction has a redacted [cv_net] is written in version 2. *)
Definition sample_redacted : Pczt :=
  MkPczt (sample_global 0x81 ∅) sample_t2 (sample_sbundle None None)
    (sample_obundle None None (MemoPlaintext [Byte.x68])) EMPTY_IRONWOOD.

Lemma serialize_minimal_version_witness :
  exists bytes, serialize 6 sample_redacted = Ok bytes
    /\ take 8 bytes = serialize_header MAGIC_BYTES PCZT_VERSION_2.
Proof.
  eexists. split; [reflexivity|].
  destruct (serialize_minimal_version 6 sample_redacted _ eq_refl) as [[H _]|[_ H]]; [|exact H].
  exfalso. apply v1_try_from_Ok in H as [v H]. cbv in H. discriminate H.
Defined.

Lemma parse_errors_witness :
  parse [Byte.x50; Byte.x43; Byte.x5a; Byte.x54; Byte.x03; Byte.x00; Byte.x00; Byte.x00] = Err (UnknownVersion 3)
  /\ parse MAGIC_BYTES = Err TooShort.
Proof.
  split.
  - apply (parse_errors [Byte.x50; Byte.x43; Byte.x5a; Byte.x54; Byte.x03; Byte.x00; Byte.x00; Byte.x00]).
    unfold has_header. cbn. split_and!; [lia|reflexivity|reflexivity|lia|lia].
  - apply (parse_errors MAGIC_BYTES). cbn. lia.
Defined.

(** A signature in one PCZT and an anchor in another. *)
Definition sample_signed : Pczt :=
  MkPczt (sample_global 0x81 ∅) sample_t1 (sample_sbundle None None) EMPTY_ORCHARD EMPTY_IRONWOOD.
Definition sample_anchored : Pczt :=
  MkPczt (sample_global 0x80 ∅) sample_t2 (sample_sbundle (Some [Byte.x07]) None) EMPTY_ORCHARD EMPTY_IRONWOOD.
Definition sample_combined : Pczt :=
  MkPczt (sample_global 0x80 ∅) sample_t1 (sample_sbundle (Some [Byte.x07]) None) EMPTY_ORCHARD EMPTY_IRONWOOD.

Lemma combine_preserves_data_witness :
  combine [sample_signed; sample_anchored] = Ok sample_combined
  /\ Forall (fun x => pczt_below x sample_combined) [sample_signed; sample_anchored]
  /\ combine [sample_signed; sample_signed] = Ok sample_signed.
Proof.
  split; [reflexivity|].
  destruct (combine_preserves_data [sample_signed; sample_anchored] sample_signed 1) as (_ & H & Hc).
  - repeat constructor; unfold global_ok, u8_ok; cbn; lia.
  - unfold global_ok, u8_ok; cbn; lia.
  - reflexivity.
  - split; [apply H; reflexivity|exact Hc].
Defined.
