(* ===== verification/BitStream.v ===== *)
(** * Bit streams

    [zakura/filters/src/bits.rs] and the reading helper of [lib.rs]: the bitwise reader
    and writer of Golomb-coded sets.  The reader reads from a slice and the writer
    appends to a [Vec<u8>], as all their callers do; appending cannot fail. *)

From S2P Require Import Prelude.

(** ** Bits *)

(** The low [n] bits of [x], most significant first. *)
Fixpoint bits (n : nat) (x : Z) : list bool :=
  match n with O => [] | S n => Z.testbit x (Z.of_nat n) :: bits n x end.

Definition bits_val (l : list bool) : Z := fold_left (fun a b => 2 * a + Z.b2z b) l 0.

Definition byte_bits (b : byte) : list bool := bits 8 (byte.unsigned b).
Definition stream (l : list byte) : list bool := flat_map byte_bits l.

(** The kinds of [std::io::Error] in this crate. *)
Inductive IoError : Type := UnexpectedEof | Other | InvalidInput | InvalidData.

(** ** Reading *)

(** [lib.rs], [read_exact] from a slice: [reader.read] copies what fits and advances the
    slice; at its end it returns 0.  One round per byte is enough, since every round
    reads at least one. *)
Fixpoint read_exact_loop (fuel : nat) (reader : list byte) (n : nat) (acc : list byte)
  : res IoError (list byte) * list byte :=
  match n, fuel with
  | O, _ | _, O => (Ok acc, reader)
  | n, S fuel =>
      match take n reader with
      | [] => (Err UnexpectedEof, reader)
      | got => read_exact_loop fuel (drop n reader) (n - length got) (acc ++ got)
      end
  end.
Definition read_exact (reader : list byte) (n : nat) : res IoError (list byte) * list byte :=
  read_exact_loop n reader n [].

(** [BitStreamReader]; the buffer is one byte. *)
Record BitStreamReader : Type := MkBitStreamReader {
  br_buffer : Z;
  br_offset : nat;
  br_reader : list byte
}.

Definition bit_reader_new (reader : list byte) : BitStreamReader := MkBitStreamReader 0 8 reader.

(** The refill at the start of each round of [BitStreamReader::read] *)
Definition refill (r : BitStreamReader) : res IoError unit * BitStreamReader :=
  if (br_offset r =? 8)%nat then
    match read_exact (br_reader r) 1 with
    | (Ok bs, rest) => (Ok (), MkBitStreamReader (le_combine bs) 0 rest)
    | (Err e, rest) => (Err e, MkBitStreamReader (br_buffer r) 8 rest)
    end
  else (Ok (), r).

(** The loop of [BitStreamReader::read]: every round takes at least one bit. *)
Fixpoint bit_read_loop (fuel : nat) (r : BitStreamReader) (data : Z) (nbits : nat)
  : res IoError Z * BitStreamReader :=
  match nbits, fuel with
  | O, _ | _, O => (Ok data, r)
  | nbits, S fuel =>
      match refill r with
      | (Err e, r) => (Err e, r)
      | (Ok _, r) =>
          let taken := Nat.min (8 - br_offset r) nbits in
          let data := Z.shiftl data (Z.of_nat taken) mod 2 ^ 64 in
          let data := Z.lor data (Z.shiftr (Z.shiftl (br_buffer r) (Z.of_nat (br_offset r)) mod 2 ^ 8)
                                    (Z.of_nat (8 - taken))) in
          bit_read_loop fuel (MkBitStreamReader (br_buffer r) (br_offset r + taken) (br_reader r))
            data (nbits - taken)
      end
  end.

(** [BitStreamReader::read] *)
Definition bit_read (r : BitStreamReader) (nbits : nat) : res IoError Z * BitStreamReader :=
  if (64 <? nbits)%nat then (Err Other, r) else bit_read_loop nbits r 0 nbits.

(** ** Writing *)

(** [BitStreamWriter] *)
Record BitStreamWriter : Type := MkBitStreamWriter {
  bw_buffer : Z;
  bw_offset : nat;
  bw_writer : list byte
}.

Definition bit_writer_new (writer : list byte) : BitStreamWriter := MkBitStreamWriter 0 0 writer.

(** [BitStreamWriter::flush] *)
Definition bit_flush (w : BitStreamWriter) : nat * BitStreamWriter :=
  if (0 <? bw_offset w)%nat
  then (1%nat, MkBitStreamWriter 0 0 (bw_writer w ++ [byte.of_Z (bw_buffer w)]))
  else (0%nat, w).

(** The loop of [BitStreamWriter::write] *)
Fixpoint bit_write_loop (fuel : nat) (w : BitStreamWriter) (data : Z) (nbits wrote : nat)
  : nat * BitStreamWriter :=
  match nbits, fuel with
  | O, _ | _, O => (wrote, w)
  | nbits, S fuel =>
      let taken := Nat.min (8 - bw_offset w) nbits in
      let top := Z.shiftr (Z.shiftl data (Z.of_nat (64 - nbits)) mod 2 ^ 64)
                   (Z.of_nat (64 - 8 + bw_offset w)) mod 2 ^ 8 in
      let w := MkBitStreamWriter (Z.lor (bw_buffer w) top) (bw_offset w + taken) (bw_writer w) in
      if (bw_offset w =? 8)%nat
      then let '(n, w) := bit_flush w in bit_write_loop fuel w data (nbits - taken) (wrote + n)
      else bit_write_loop fuel w data (nbits - taken) wrote
  end.

(** [BitStreamWriter::write] *)
Definition bit_write (w : BitStreamWriter) (data : Z) (nbits : nat) : res IoError nat * BitStreamWriter :=
  if (64 <? nbits)%nat then (Err Other, w)
  else let '(n, w) := bit_write_loop nbits w data nbits 0 in (Ok n, w).

(** ** Lemmas on bits *)

Lemma bits_length n x : length (bits n x) = n.
Proof. induction n; cbn; auto. Qed.

Lemma byte_bits_length b : length (byte_bits b) = 8%nat.
Proof. apply bits_length. Qed.

Lemma bits_drop k n x : drop k (bits n x) = bits (n - k) x.
Proof.
  revert n. induction k as [|k IH]; intros n; [by rewrite Nat.sub_0_r|].
  destruct n as [|n]; [done|]. cbn. apply IH.
Qed.

Lemma pow2_pos n : 0 < 2 ^ Z.of_nat n.
Proof. apply Z.pow_pos_nonneg; lia. Qed.

Lemma bits_val_app l1 l2 : bits_val (l1 ++ l2) = bits_val l1 * 2 ^ Z.of_nat (length l2) + bits_val l2.
Proof.
  unfold bits_val. rewrite fold_left_app. generalize (fold_left (fun a b => 2 * a + Z.b2z b) l1 0). clear l1.
  induction l2 as [|b l IH] using rev_ind; intros a; cbn; [lia|].
  rewrite !fold_left_app, length_app, IH. cbn [fold_left length]. rewrite Nat2Z.inj_add, Z.pow_add_r by lia. lia.
Qed.

Lemma bits_val_cons b l : bits_val (b :: l) = Z.b2z b * 2 ^ Z.of_nat (length l) + bits_val l.
Proof. apply (bits_val_app [b]). Qed.

Lemma bits_val_range l : 0 <= bits_val l < 2 ^ Z.of_nat (length l).
Proof.
  induction l as [|b l IH]; [cbn; lia|]. rewrite bits_val_cons.
  cbn [length]. rewrite Nat2Z.inj_succ, Z.pow_succ_r by lia. destruct b; cbn [Z.b2z]; lia.
Qed.

Lemma bits_val_bits n x : bits_val (bits n x) = x mod 2 ^ Z.of_nat n.
Proof.
  induction n as [|n IH]; [cbn; by rewrite Z.mod_1_r|]. cbn [bits]. pose proof (pow2_pos n).
  rewrite bits_val_cons, bits_length, IH, Nat2Z.inj_succ, Z.pow_succ_r by lia.
  rewrite Z.testbit_spec' by lia. rewrite (Z.mul_comm 2 (2 ^ Z.of_nat n)).
  rewrite Z.rem_mul_r by lia. ring.
Qed.

Lemma bits_bits_val l : bits (length l) (bits_val l) = l.
Proof.
  assert (forall n x y, x mod 2 ^ Z.of_nat n = y mod 2 ^ Z.of_nat n -> bits n x = bits n y) as Hmod.
  { induction n as [|n IH]; intros x y E; [done|]. cbn [bits]. pose proof (pow2_pos n). f_equal.
    - rewrite <- (Z.mod_pow2_bits_low x (Z.of_nat (S n))), E, Z.mod_pow2_bits_low by lia. done.
    - apply IH. assert (2 ^ Z.of_nat n | 2 ^ Z.of_nat (S n)) as Hd
        by (exists 2; rewrite Nat2Z.inj_succ, Z.pow_succ_r; lia).
      by rewrite <- (Z.mod_mod_divide x _ _ Hd), E, Z.mod_mod_divide. }
  induction l as [|b l IH]; [done|]. cbn [bits length]. rewrite bits_val_cons. pose proof (bits_val_range l).
  pose proof (pow2_pos (length l)). f_equal.
  - rewrite Z.testbit_eqb by lia. rewrite Z.div_add_l, Z.div_small, Z.add_0_r by lia. by destruct b.
  - etransitivity; [|exact IH]. apply Hmod. rewrite Z.add_comm, Z.mod_add by lia. done.
Qed.

Lemma bits_val_take k l :
  (k <= length l)%nat -> bits_val (take k l) = bits_val l / 2 ^ Z.of_nat (length l - k).
Proof.
  intros Hk. rewrite <- (take_drop k l) at 2. rewrite bits_val_app, length_drop.
  pose proof (bits_val_range (drop k l)) as Hr. rewrite length_drop in Hr.
  pose proof (pow2_pos (length l - k)). rewrite Z.div_add_l, Z.div_small by lia. lia.
Qed.

Lemma bits_val_inj l k : length l = length k -> bits_val l = bits_val k -> l = k.
Proof. intros Hl Hv. rewrite <- (bits_bits_val l), <- (bits_bits_val k). by rewrite Hl, Hv. Qed.

Lemma bits_val_zeros n : bits_val (repeat false n) = 0.
Proof. induction n as [|n IH]; [done|]. cbn [repeat]. rewrite bits_val_cons, IH. done. Qed.

(** Joining disjoint bits. *)
Lemma lor_disjoint a b k : 0 <= k -> 0 <= b < 2 ^ k -> Z.lor (a * 2 ^ k) b = a * 2 ^ k + b.
Proof.
  intros Hk Hb. assert (Z.land (a * 2 ^ k) b = 0) as Hl.
  { apply Z.bits_inj'. intros i Hi. rewrite Z.land_spec, Z.bits_0. destruct (Z.lt_ge_cases i k).
    - rewrite Z.mul_pow2_bits_low by lia. done.
    - rewrite <- (Z.mod_small b (2 ^ k)) by lia. rewrite Z.mod_pow2_bits_high by lia. apply andb_false_r. }
  rewrite Z.add_nocarry_lxor, Z.lxor_lor by done. done.
Qed.

Lemma byte_bits_of_Z l : length l = 8%nat -> byte_bits (byte.of_Z (bits_val l)) = l.
Proof.
  intros Hl. unfold byte_bits. rewrite byte.unsigned_of_Z. unfold byte.wrap.
  pose proof (bits_val_range l) as Hr. rewrite Hl in Hr. rewrite Z.mod_small by exact Hr.
  rewrite <- Hl. apply bits_bits_val.
Qed.

Lemma byte_bits_val b : bits_val (byte_bits b) = byte.unsigned b.
Proof. unfold byte_bits. rewrite bits_val_bits. apply byte.wrap_unsigned. Qed.

Lemma stream_app l1 l2 : stream (l1 ++ l2) = stream l1 ++ stream l2.
Proof. unfold stream. by rewrite flat_map_app. Qed.

Lemma stream_one b : stream [b] = byte_bits b.
Proof. unfold stream. cbn [flat_map]. apply app_nil_r. Qed.

Lemma stream_length l : length (stream l) = (8 * length l)%nat.
Proof.
  induction l as [|b l IH]; [done|]. cbn [stream flat_map]. rewrite length_app, byte_bits_length.
  change (flat_map byte_bits l) with (stream l). cbn [length]. lia.
Qed.

Lemma stream_inj l k : stream l = stream k -> l = k.
Proof.
  revert k. induction l as [|b l IH]; intros [|c k] H; try done.
  apply app_inj_1 in H as [Hb Hl]; [|by rewrite !byte_bits_length]. f_equal; [|by apply IH].
  apply byte.unsigned_inj. rewrite <- !byte_bits_val. by rewrite Hb.
Qed.

(** ** What the reader reads *)

(** The bits that have not been read. *)
Definition unread (r : BitStreamReader) : list bool :=
  drop (br_offset r) (bits 8 (br_buffer r)) ++ stream (br_reader r).

Definition reader_inv (r : BitStreamReader) : Prop :=
  (br_offset r <= 8)%nat /\ 0 <= br_buffer r < 2 ^ 8.

Lemma reader_new_inv l : reader_inv (bit_reader_new l) /\ unread (bit_reader_new l) = stream l.
Proof. unfold reader_inv; cbn. by split; [lia|]. Qed.

Lemma read_exact_spec l n :
  read_exact l n = if decide (length l < n)%nat then (Err UnexpectedEof, []) else (Ok (take n l), drop n l).
Proof.
  unfold read_exact. destruct n as [|n]; [by rewrite decide_False by lia|].
  cbn [read_exact_loop]. destruct l as [|b l]; [done|].
  change (take (S n) (b :: l)) with (b :: take n l). cbn [app drop].
  assert (length (b :: take n l) = S (Nat.min n (length l))) as -> by (cbn; by rewrite length_take).
  replace (S n - S (Nat.min n (length l)))%nat with (n - length l)%nat by lia.
  case_decide as Hlt; cbn [length] in Hlt.
  - rewrite drop_ge by lia. destruct (n - length l)%nat as [|k] eqn:E; [lia|].
    destruct n as [|n]; [lia|]. done.
  - replace (n - length l)%nat with 0%nat by lia. by destruct n.
Qed.

Lemma refill_spec r :
  reader_inv r ->
  match refill r with
  | (Ok _, r') => reader_inv r' /\ (br_offset r' < 8)%nat /\ unread r' = unread r
  | (Err e, r') => e = UnexpectedEof /\ unread r = []
  end.
Proof.
  intros [Ho Hb]. unfold refill, unread, reader_inv. destruct (Nat.eqb_spec (br_offset r) 8) as [E|E].
  - rewrite E. rewrite drop_ge by (rewrite bits_length; lia).
    rewrite read_exact_spec. destruct (br_reader r) as [|b rest]; [done|].
    rewrite decide_False by (cbn; lia). change (take 1 (b :: rest)) with [b]. change (drop 1 (b :: rest)) with rest.
    cbn -[bits le_combine].
    assert (le_combine [b] = byte.unsigned b) as -> by apply Z.lor_0_r.
    pose proof (byte.unsigned_range b). split_and!; [lia|lia..|by rewrite drop_0].
  - cbn. split_and!; [lia|lia..|done].
Qed.

(** The bits of the buffer that one round takes. *)
Lemma chunk_spec buf off t :
  0 <= buf < 2 ^ 8 -> (off + t <= 8)%nat -> (0 < t)%nat ->
  Z.shiftr (Z.shiftl buf (Z.of_nat off) mod 2 ^ 8) (Z.of_nat (8 - t))
  = bits_val (take t (drop off (bits 8 buf))).
Proof.
  intros Hb Ht H0.
  rewrite Z.shiftr_div_pow2, Z.shiftl_mul_pow2 by lia. rewrite bits_drop.
  rewrite bits_val_take, bits_length, bits_val_bits by (rewrite bits_length; lia).
  rewrite <- (Z.div_mul_cancel_r _ (2 ^ Z.of_nat (8 - off - t)) (2 ^ Z.of_nat off))
    by (apply Z.pow_nonzero; lia).
  rewrite <- Z.pow_add_r, <- Nat2Z.inj_add by lia.
  replace (8 - off - t + off)%nat with (8 - t)%nat by lia. f_equal.
  rewrite <- Z.mul_mod_distr_r by (apply Z.pow_nonzero; lia). f_equal.
  rewrite <- Z.pow_add_r by lia. f_equal. lia.
Qed.

Lemma bits_val_take_0 x l : x * 2 ^ Z.of_nat 0 + bits_val (take 0 l) = x.
Proof. rewrite take_0. cbn. lia. Qed.

Lemma bit_read_loop_spec fuel r data n :
  reader_inv r -> (n <= fuel)%nat -> (n <= 64)%nat -> 0 <= data < 2 ^ Z.of_nat (64 - n) ->
  if decide (n <= length (unread r))%nat
  then exists r', bit_read_loop fuel r data n
         = (Ok (data * 2 ^ Z.of_nat n + bits_val (take n (unread r))), r')
       /\ reader_inv r' /\ unread r' = drop n (unread r)
  else exists r', bit_read_loop fuel r data n = (Err UnexpectedEof, r').
Proof.
  revert r data n. induction fuel as [|fuel IH]; intros r data n Hr Hf Hn Hd.
  { assert (n = 0%nat) as -> by lia. rewrite decide_True by lia. exists r. by rewrite bits_val_take_0, drop_0. }
  destruct n as [|n].
  { rewrite decide_True by lia. exists r. by rewrite bits_val_take_0, drop_0. }
  cbn -[Nat.min Nat.sub Nat.add Z.of_nat Z.pow take drop].
  pose proof (refill_spec r Hr) as Href. destruct (refill r) as [[[]|e] r1].
  2: { destruct Href as [-> ->]. rewrite decide_False by (cbn; lia). by exists r1. }
  destruct Href as (Hr1 & Ho & <-). remember (Nat.min (8 - br_offset r1) (S n)) as t eqn:Et.
  assert (0 < t)%nat as Ht by lia. assert (br_offset r1 + t <= 8)%nat as Ht8 by lia. assert (t <= S n)%nat by lia.
  destruct Hr1 as [_ Hbuf]. rewrite (chunk_spec _ _ _ Hbuf Ht8 Ht).
  set (bs := take t (drop (br_offset r1) (bits 8 (br_buffer r1)))).
  assert (length (drop (br_offset r1) (bits 8 (br_buffer r1))) = 8 - br_offset r1)%nat as Hdl
    by (rewrite length_drop, bits_length; lia).
  assert (length bs = t) as Hbs by (unfold bs; rewrite length_take; lia).
  assert (bs = take t (unread r1)) as Hbs' by (unfold bs, unread; rewrite take_app_le by lia; done).
  set (r2 := MkBitStreamReader (br_buffer r1) (br_offset r1 + t) (br_reader r1)).
  assert (unread r2 = drop t (unread r1)) as Hu2.
  { unfold r2, unread; cbn -[bits]. rewrite drop_app_le by lia. by rewrite drop_drop. }
  assert (t <= length (unread r1))%nat as Htl by (unfold unread; rewrite length_app; lia).
  pose proof (bits_val_range bs) as Hv. rewrite Hbs in Hv.
  assert (2 ^ Z.of_nat (64 - (S n - t)) = 2 ^ Z.of_nat (64 - S n) * 2 ^ Z.of_nat t) as Hpow.
  { rewrite <- Z.pow_add_r by lia. f_equal. lia. }
  assert (2 ^ Z.of_nat (64 - (S n - t)) <= 2 ^ 64) as Hle by (apply Z.pow_le_mono_r; lia).
  rewrite Z.shiftl_mul_pow2, Z.mod_small by nia. rewrite lor_disjoint by lia.
  assert (reader_inv r2) as Hr2 by (split; cbn; [lia|exact Hbuf]).
  specialize (IH r2 (data * 2 ^ Z.of_nat t + bits_val bs) (S n - t)%nat Hr2 ltac:(lia) ltac:(lia) ltac:(nia)).
  rewrite Hu2, length_drop in IH. repeat case_decide; try lia; [|exact IH].
  destruct IH as (r' & -> & Hr' & Hu'). exists r'. split_and!; [|apply Hr'..|].
  - f_equal. f_equal. replace (take (S n) (unread r1)) with (bs ++ take (S n - t) (drop t (unread r1))).
    + rewrite bits_val_app, length_take, length_drop.
      replace (Nat.min (S n - t) (length (unread r1) - t)) with (S n - t)%nat by lia.
      replace (Z.of_nat (S n)) with (Z.of_nat t + Z.of_nat (S n - t)) by lia.
      rewrite Z.pow_add_r by lia. ring.
    + rewrite Hbs'. rewrite <- (take_drop t (take (S n) (unread r1))), take_take, skipn_firstn_comm. f_equal.
      f_equal. lia.
  - rewrite Hu', drop_drop. f_equal. lia.
Qed.

Lemma bit_read_spec r n :
  reader_inv r -> (n <= 64)%nat ->
  if decide (n <= length (unread r))%nat
  then exists r', bit_read r n = (Ok (bits_val (take n (unread r))), r')
       /\ reader_inv r' /\ unread r' = drop n (unread r)
  else exists r', bit_read r n = (Err UnexpectedEof, r').
Proof.
  intros Hr Hn. unfold bit_read. rewrite (proj2 (Nat.ltb_ge _ _)) by lia.
  pose proof (bit_read_loop_spec n r 0 n Hr ltac:(lia) Hn ltac:(split; [lia|apply pow2_pos])) as H.
  case_decide; exact H.
Qed.

(** ** What the writer writes *)

(** The bits written so far. *)
Definition emitted (w : BitStreamWriter) : list bool :=
  stream (bw_writer w) ++ take (bw_offset w) (bits 8 (bw_buffer w)).

Definition writer_inv (w : BitStreamWriter) : Prop :=
  exists pending, length pending = bw_offset w /\ (bw_offset w < 8)%nat
    /\ bw_buffer w = bits_val (pending ++ repeat false (8 - bw_offset w)).

Lemma writer_new_inv l : writer_inv (bit_writer_new l) /\ emitted (bit_writer_new l) = stream l.
Proof. split; [by exists []; cbn; split_and!; [|lia|]|]. unfold emitted; cbn -[bits]. by rewrite take_0, app_nil_r. Qed.

Lemma buffer_bits l : length l = 8%nat -> bits 8 (bits_val l) = l.
Proof. intros <-. apply bits_bits_val. Qed.

Lemma writer_emitted w pending :
  length pending = bw_offset w -> (bw_offset w <= 8)%nat ->
  bw_buffer w = bits_val (pending ++ repeat false (8 - bw_offset w)) ->
  emitted w = stream (bw_writer w) ++ pending.
Proof.
  intros Hl Ho Hb. unfold emitted. rewrite Hb, buffer_bits by (rewrite length_app, repeat_length; lia).
  by rewrite <- Hl, take_app_length.
Qed.

(** The bits that one round adds to the buffer. *)
Lemma top_spec data n off :
  (off < 8)%nat -> (n <= 64)%nat ->
  Z.shiftr (Z.shiftl data (Z.of_nat (64 - n)) mod 2 ^ 64) (Z.of_nat (64 - 8 + off)) mod 2 ^ 8
  = bits_val (take (8 - off) (bits n data ++ repeat false 8)).
Proof.
  intros Ho Hn.
  assert (Z.shiftr (Z.shiftl data (Z.of_nat (64 - n)) mod 2 ^ 64) (Z.of_nat (64 - 8 + off))
    = bits_val (take (8 - off) (bits n data ++ repeat false 8))) as ->.
  - rewrite bits_val_take by (rewrite length_app, bits_length, repeat_length; lia).
    rewrite bits_val_app, bits_val_zeros, bits_val_bits, length_app, bits_length, repeat_length, Z.add_0_r.
    rewrite Z.shiftr_div_pow2, Z.shiftl_mul_pow2 by lia.
    replace (2 ^ 64) with (2 ^ Z.of_nat n * 2 ^ Z.of_nat (64 - n)) by (rewrite <- Z.pow_add_r by lia; f_equal; lia).
    rewrite Z.mul_mod_distr_r by (apply Z.pow_nonzero; lia). set (d := data mod _).
    rewrite <- (Z.div_mul_cancel_r _ _ (2 ^ Z.of_nat n)) by (apply Z.pow_nonzero; lia).
    rewrite <- (Z.div_mul_cancel_r (d * 2 ^ Z.of_nat 8) _ (2 ^ 56)) by lia.
    rewrite <- !Z.mul_assoc, <- !Z.pow_add_r by lia.
    f_equal; [f_equal; f_equal; lia|f_equal; lia].
  - pose proof (bits_val_range (take (8 - off) (bits n data ++ repeat false 8))) as Hr.
    apply Z.mod_small. split; [lia|]. eapply Z.lt_le_trans; [apply Hr|]. apply Z.pow_le_mono_r; [lia|].
    rewrite length_take. lia.
Qed.

Lemma buffer_join pending l :
  (length pending + length l = 8)%nat ->
  Z.lor (bits_val (pending ++ repeat false (length l))) (bits_val l) = bits_val (pending ++ l).
Proof.
  intros Hl. rewrite !bits_val_app, bits_val_zeros, repeat_length, Z.add_0_r.
  apply lor_disjoint; [lia|]. apply bits_val_range.
Qed.

Lemma bit_write_loop_spec fuel w data n wrote :
  writer_inv w -> (n <= fuel)%nat -> (n <= 64)%nat ->
  exists k w', bit_write_loop fuel w data n wrote = (k, w') /\ writer_inv w'
    /\ emitted w' = emitted w ++ bits n data
    /\ (k + length (bw_writer w) = wrote + length (bw_writer w'))%nat.
Proof.
  revert w n wrote. induction fuel as [|fuel IH]; intros w n wrote Hw Hf Hn.
  { assert (n = 0%nat) as -> by lia. exists wrote, w. cbn. by rewrite app_nil_r. }
  destruct n as [|n]; [exists wrote, w; cbn; by rewrite app_nil_r|].
  cbn -[Nat.min Nat.sub Nat.add Z.of_nat Z.pow take drop bits bit_flush].
  destruct Hw as (pend & Hp & Ho & Hb). rewrite top_spec by lia.
  remember (Nat.min (8 - bw_offset w) (S n)) as t eqn:Et.
  set (q := take (8 - bw_offset w) (bits (S n) data ++ repeat false 8)).
  assert (length q = 8 - bw_offset w)%nat as Hq
    by (unfold q; rewrite length_take, length_app, bits_length, repeat_length; lia).
  rewrite Hb, <- Hq, buffer_join by lia.
  assert (emitted w = stream (bw_writer w) ++ pend) as He by (apply writer_emitted; [done|lia|done]).
  assert (bits (S n) data = take t (bits (S n) data) ++ bits (S n - t) data) as Hsplit
    by (rewrite <- bits_drop; symmetry; apply take_drop).
  assert (length (take t (bits (S n) data)) = t) as Htl by (rewrite length_take, bits_length; lia).
  assert (q = take t (bits (S n) data) ++ repeat false (8 - (bw_offset w + t))) as Hqt.
  { unfold q. destruct (Nat.le_gt_cases (8 - bw_offset w) (S n)).
    - assert (t = 8 - bw_offset w)%nat as -> by lia. rewrite take_app_le by (rewrite bits_length; lia).
      replace (8 - (bw_offset w + (8 - bw_offset w)))%nat with 0%nat by lia. by rewrite app_nil_r.
    - assert (t = S n) as -> by lia. rewrite take_app, bits_length, (take_ge (bits (S n) data)) by (rewrite bits_length; lia).
      rewrite (take_ge (bits (S n) data) (S n)) by (rewrite bits_length; lia). f_equal.
      replace 8%nat with ((8 - bw_offset w - S n) + (8 - (8 - bw_offset w - S n)))%nat at 2 by lia.
      rewrite repeat_app, take_app_length' by (rewrite repeat_length; lia). f_equal. lia. }
  destruct (Nat.eqb_spec (bw_offset w + t) 8) as [E|E].
  - unfold bit_flush. cbn [bw_offset bw_writer bw_buffer]. rewrite E. cbn [Nat.ltb Nat.leb].
    destruct (IH (MkBitStreamWriter 0 0 (bw_writer w ++ [byte.of_Z (bits_val (pend ++ q))])) (S n - t)%nat (wrote + 1)%nat)
      as (k & w' & -> & Hw' & He' & Hk); [apply (writer_new_inv (bw_writer w ++ _))|lia|lia|].
    exists k, w'. split_and!; [done|done| |].
    + rewrite He'. change (emitted (MkBitStreamWriter 0 0 ?l)) with (emitted (bit_writer_new l)).
      rewrite (proj2 (writer_new_inv _)), stream_app, He, Hsplit, !app_assoc. f_equal. rewrite <- app_assoc. f_equal.
      rewrite stream_one, byte_bits_of_Z by (rewrite length_app; lia). f_equal.
      rewrite Hqt, E. by rewrite app_nil_r.
    + cbn in Hk. rewrite length_app in Hk. cbn in Hk. lia.
  - set (w1 := MkBitStreamWriter (bits_val (pend ++ q)) (bw_offset w + t) (bw_writer w)).
    assert (bits_val (pend ++ q) = bits_val ((pend ++ take t (bits (S n) data)) ++ repeat false (8 - (bw_offset w + t))))
      as Hb1 by (by rewrite Hqt, app_assoc).
    assert (writer_inv w1) as Hw1 by (exists (pend ++ take t (bits (S n) data)); unfold w1; cbn [bw_offset bw_buffer];
           rewrite length_app; split_and!; [lia|lia|done]).
    destruct (IH w1 (S n - t)%nat wrote Hw1 ltac:(lia) ltac:(lia)) as (k & w' & -> & Hw' & He' & Hk).
    exists k, w'. split_and!; [done|done| |done].
    rewrite He', (writer_emitted w1 (pend ++ take t (bits (S n) data))), He; unfold w1; cbn [bw_offset bw_buffer bw_writer];
      [|rewrite length_app; lia|lia|done].
    rewrite <- !app_assoc. do 2 f_equal. by symmetry.
Qed.

Lemma bit_write_spec w data n :
  writer_inv w -> (n <= 64)%nat ->
  exists k w', bit_write w data n = (Ok k, w') /\ writer_inv w'
    /\ emitted w' = emitted w ++ bits n data
    /\ (k + length (bw_writer w) = length (bw_writer w'))%nat.
Proof.
  intros Hw Hn. unfold bit_write. rewrite (proj2 (Nat.ltb_ge _ _)) by lia.
  destruct (bit_write_loop_spec n w data n 0 Hw) as (k & w' & -> & ? & ? & ?); [lia|lia|]. eauto 10.
Qed.

(** The final flush pads the last byte with zeros. *)
Definition padding (n : nat) : list bool := repeat false ((8 - n mod 8) mod 8).

Lemma bit_flush_spec w :
  writer_inv w ->
  exists k w', bit_flush w = (k, w') /\ stream (bw_writer w') = emitted w ++ padding (length (emitted w))
    /\ (k + length (bw_writer w) = length (bw_writer w'))%nat.
Proof.
  intros (pend & Hp & Ho & Hb). rewrite (writer_emitted w pend) by (done || lia). unfold bit_flush, padding.
  assert ((8 * length (bw_writer w) + bw_offset w) mod 8 = bw_offset w)%nat as Hm
    by (rewrite Nat.add_comm, Nat.mul_comm, Nat.Div0.mod_add; apply Nat.mod_small; lia).
  rewrite length_app, stream_length, Hp, Hm.
  destruct (Nat.ltb_spec 0 (bw_offset w)).
  - eexists _, _. split; [done|]. cbn [bw_writer]. rewrite stream_app, stream_one, length_app. split; [|cbn; lia].
    rewrite Hb, byte_bits_of_Z by (rewrite length_app, repeat_length; lia).
    rewrite <- app_assoc. do 3 f_equal. symmetry. apply Nat.mod_small. lia.
  - eexists _, _. split; [done|]. assert (bw_offset w = 0%nat) as E by lia. rewrite E in *.
    destruct pend; [|done]. cbn. by rewrite !app_nil_r.
Qed.

(** Writing a list of values and flushing. *)
Fixpoint write_fields (w : BitStreamWriter) (fields : list (Z * nat)) : res IoError BitStreamWriter :=
  match fields with
  | [] => Ok w
  | (data, nbits) :: fields =>
      match bit_write w data nbits with (Ok _, w) => write_fields w fields | (Err e, _) => Err e end
  end.
Fixpoint read_fields (r : BitStreamReader) (widths : list nat) : res IoError (list Z) :=
  match widths with
  | [] => Ok []
  | n :: widths =>
      match bit_read r n with (Ok v, r) => vs ← read_fields r widths; Ok (v :: vs) | (Err e, _) => Err e end
  end.

Definition field_bits (f : Z * nat) : list bool := bits f.2 f.1.

Lemma write_fields_spec w fields :
  writer_inv w -> Forall (fun f => f.2 <= 64)%nat fields ->
  exists w', write_fields w fields = Ok w' /\ writer_inv w'
    /\ emitted w' = emitted w ++ flat_map field_bits fields.
Proof.
  intros Hw Hf. revert w Hw. induction Hf as [|[d n] fields Hn _ IH]; intros w Hw; cbn.
  - exists w. by rewrite app_nil_r.
  - destruct (bit_write_spec w d n Hw Hn) as (k & w1 & -> & Hw1 & He & _).
    destruct (IH w1 Hw1) as (w' & -> & Hw' & He'). exists w'. split_and!; [done..|]. by rewrite He', He, <- app_assoc.
Qed.

Lemma read_fields_spec r fields rest :
  reader_inv r -> unread r = flat_map field_bits fields ++ rest -> Forall (fun f => f.2 <= 64)%nat fields ->
  read_fields r (map snd fields) = Ok (map (fun f => f.1 mod 2 ^ Z.of_nat f.2) fields).
Proof.
  intros Hr Hu Hf. revert r Hr Hu. induction Hf as [|[d n] fields Hn _ IH]; intros r Hr Hu; [done|].
  cbn -[bits Z.pow] in *. pose proof (bit_read_spec r n Hr Hn) as H.
  assert (take n (unread r) = bits n d /\ drop n (unread r) = flat_map field_bits fields ++ rest) as [Ht Hd].
  { rewrite Hu, <- app_assoc. unfold field_bits at 1 3; cbn [fst snd].
    by rewrite take_app_length', drop_app_length' by (by rewrite bits_length). }
  rewrite decide_True in H by (rewrite Hu, !length_app; unfold field_bits; cbn [fst snd]; rewrite bits_length; lia).
  destruct H as (r' & -> & Hr' & Hu'). rewrite Ht, bits_val_bits, (IH r' Hr'); [done|]. by rewrite Hu'.
Qed.

(** Bit streams round-trip: writing any values with widths of at most 64 bits and
    flushing gives bytes from which reading the same widths gives the values back,
    truncated to their widths; and reading more than is there fails with
    [UnexpectedEof]. *)
Theorem bit_stream_roundtrip fields r n :
  Forall (fun f => f.2 <= 64)%nat fields -> reader_inv r -> (length (unread r) < n <= 64)%nat ->
  (exists w, write_fields (bit_writer_new []) fields = Ok w
     /\ read_fields (bit_reader_new (bw_writer (bit_flush w).2)) (map snd fields)
        = Ok (map (fun f => f.1 mod 2 ^ Z.of_nat f.2) fields))
  /\ exists r', bit_read r n = (Err UnexpectedEof, r').
Proof.
  intros Hf Hr Hn. split.
  - destruct (writer_new_inv []) as [Hw He].
    destruct (write_fields_spec _ fields Hw Hf) as (w & -> & Hw' & Hem). exists w. split; [done|].
    destruct (bit_flush_spec w Hw') as (k & w' & -> & Hs & _). cbn [snd].
    destruct (reader_new_inv (bw_writer w')) as [Hri Hru].
    eapply read_fields_spec; [done| |done]. by rewrite Hru, Hs, Hem, He.
  - pose proof (bit_read_spec r n Hr ltac:(lia)) as H. by rewrite decide_False in H by lia.
Qed.

Lemma bit_stream_roundtrip_witness :
  exists w, write_fields (bit_writer_new []) [(5, 3%nat); (1000, 10%nat); (-1, 64%nat)] = Ok w
    /\ read_fields (bit_reader_new (bw_writer (bit_flush w).2)) [3%nat; 10%nat; 64%nat]
       = Ok [5; 1000; 2 ^ 64 - 1].
Proof.
  apply (bit_stream_roundtrip [(5, 3%nat); (1000, 10%nat); (-1, 64%nat)] (bit_reader_new []) 1).
  - repeat constructor; cbn; lia.
  - unfold reader_inv; cbn; lia.
  - cbn; lia.
Defined.
