(* ===== verification/GcsFilter.v ===== *)
(** * Golomb-coded sets

    [zakura/filters/src/lib.rs] ([hash_to_range]), [compact_size.rs] and [filter.rs]: the
    writer of BIP 158 filters.  SipHash-2-4 comes from the crate [siphasher] and is a
    parameter.  A [BTreeSet] of elements is a [gset]; the writer sorts the hashed
    elements, so the order of iteration does not matter. *)

From stdpp Require Import sorting.
From S2P Require Import Prelude BitStream.

(** ** CompactSize *)

(** [write_compact_size] *)
Definition write_compact (writer : list byte) (value : Z) : nat * list byte :=
  if value <=? 0xfc then (1%nat, writer ++ le_split 1 value)
  else if value <=? 0xffff then (3%nat, writer ++ [Byte.xfd] ++ le_split 2 value)
  else if value <=? 0xffffffff then (5%nat, writer ++ [Byte.xfe] ++ le_split 4 value)
  else (9%nat, writer ++ [Byte.xff] ++ le_split 8 value).

(** [read_compact_size] *)
Definition read_compact (reader : list byte) : res IoError Z * list byte :=
  match read_exact reader 1 with
  | (Err e, reader) => (Err e, reader)
  | (Ok prefix, reader) =>
      let wide (n : nat) (minimum : Z) :=
        match read_exact reader n with
        | (Err e, reader) => (Err e, reader)
        | (Ok bs, reader) =>
            let value := le_combine bs in
            (if value <? minimum then Err InvalidData else Ok value, reader)
        end in
      let prefix := le_combine prefix in
      if prefix =? 0xfd then wide 2%nat 0xfd
      else if prefix =? 0xfe then wide 4%nat 0x10000
      else if prefix =? 0xff then wide 8%nat 0x100000000
      else (Ok prefix, reader)
  end.

(** ** The writer *)

Record GcsFilterWriter : Type := MkGcsFilterWriter {
  gw_k0 : Z; gw_k1 : Z; gw_p : nat;
  gw_writer : list byte;
  gw_elements : gset (list byte);
  gw_m : Z
}.

(** [GcsFilterWriter::new] *)
Definition gcs_new (writer : list byte) (k0 k1 m : Z) (p : nat) : GcsFilterWriter :=
  MkGcsFilterWriter k0 k1 p writer ∅ m.

(** [GcsFilterWriter::add_element] *)
Definition add_element (w : GcsFilterWriter) (element : list byte) : GcsFilterWriter :=
  match element with
  | [] => w
  | _ => MkGcsFilterWriter (gw_k0 w) (gw_k1 w) (gw_p w) (gw_writer w) ({[ element ]} ∪ gw_elements w) (gw_m w)
  end.

(** The loop of [golomb_rice_encode] over the quotient: every round takes 64 ones, or
    what is left. *)
Fixpoint write_ones (fuel : nat) (w : BitStreamWriter) (q : Z) (wrote : nat) : res IoError nat * BitStreamWriter :=
  match fuel with
  | O => (Ok wrote, w)
  | S fuel =>
      if 0 <? q then
        let nbits := Z.min q 64 in
        match bit_write w (2 ^ 64 - 1) (Z.to_nat nbits) with
        | (Ok n, w) => write_ones fuel w (q - nbits) (wrote + n)
        | (Err e, w) => (Err e, w)
        end
      else (Ok wrote, w)
  end.

(** [GcsFilter::golomb_rice_encode] *)
Definition golomb_rice_encode (p : nat) (w : BitStreamWriter) (n : Z) : res IoError nat * BitStreamWriter :=
  let q := Z.shiftr n (Z.of_nat p) in
  match write_ones (Z.to_nat (q / 64 + 1)) w q 0 with
  | (Err e, w) => (Err e, w)
  | (Ok wrote, w) =>
      match bit_write w 0 1 with
      | (Err e, w) => (Err e, w)
      | (Ok n1, w) =>
          match bit_write w n p with
          | (Err e, w) => (Err e, w)
          | (Ok n2, w) => (Ok (wrote + n1 + n2)%nat, w)
          end
      end
  end.

(** The loop of [finish] over the sorted values; [data - last] panics on underflow. *)
Fixpoint encode_deltas (p : nat) (w : BitStreamWriter) (last : Z) (mapped : list Z) (wrote : nat)
  : res (panic + IoError) (nat * BitStreamWriter) :=
  match mapped with
  | [] => Ok (wrote, w)
  | data :: mapped =>
      if data <? last then Err (inl AssertFailed)
      else match golomb_rice_encode p w (data - last) with
           | (Err e, _) => Err (inr e)
           | (Ok n, w) => encode_deltas p w data mapped (wrote + n)
           end
  end.

Section Siphash.
(** [SipHasher24::new_with_keys(k0, k1).hash(element)] *)
Context (siphash : Z -> Z -> list byte -> Z).

(** [hash_to_range] *)
Definition hash_to_range (k0 k1 range : Z) (element : list byte) : Z :=
  Z.shiftr (siphash k0 k1 element * range) 64 mod 2 ^ 64.

(** [GcsFilterWriter::finish]: the number of bytes written and the destination. *)
Definition finish (w : GcsFilterWriter) : res (panic + IoError) (nat * list byte) :=
  if (gw_m w =? 0) || (63 <? gw_p w)%nat then Err (inr InvalidInput)
  else
    let nm := Z.of_nat (size (gw_elements w)) * gw_m w in
    if 2 ^ 64 <=? nm then Err (inr InvalidInput)
    else
      let mapped := merge_sort Z.le (hash_to_range (gw_k0 w) (gw_k1 w) nm <$> elements (gw_elements w)) in
      let '(wrote, writer) := write_compact (gw_writer w) (Z.of_nat (length mapped)) in
      '(wrote, bw) ← encode_deltas (gw_p w) (bit_writer_new writer) 0 mapped wrote;
      let '(n, bw) := bit_flush bw in
      Ok ((wrote + n)%nat, bw_writer bw).
End Siphash.

(** ** The encoding *)

(** The code of one delta. *)
Definition golomb_bits (p : nat) (n : Z) : list bool :=
  repeat true (Z.to_nat (n / 2 ^ Z.of_nat p)) ++ false :: bits p n.

Fixpoint deltas (last : Z) (l : list Z) : list Z :=
  match l with [] => [] | x :: l => (x - last) :: deltas x l end.

Definition set_bits (p : nat) (values : list Z) : list bool := flat_map (golomb_bits p) (deltas 0 values).

(** [bytes] is the encoding of the set with the values [values]. *)
Definition encodes (p : nat) (values : list Z) (bytes : list byte) : Prop :=
  exists body, bytes = (write_compact [] (Z.of_nat (length values))).2 ++ body
    /\ stream body = set_bits p values ++ padding (length (set_bits p values)).

(** ** Lemmas *)

Lemma bits_ones n : (n <= 64)%nat -> bits n (2 ^ 64 - 1) = repeat true n.
Proof.
  induction n as [|n IH]; intros Hn; [done|]. cbn [bits repeat]. rewrite IH by lia. f_equal.
  change (2 ^ 64 - 1) with (Z.ones 64). apply Z.ones_spec_low. lia.
Qed.

Lemma write_ones_spec fuel w q wrote :
  writer_inv w -> 0 <= q -> q <= 64 * Z.of_nat fuel ->
  exists k w', write_ones fuel w q wrote = (Ok k, w') /\ writer_inv w'
    /\ emitted w' = emitted w ++ repeat true (Z.to_nat q)
    /\ (k + length (bw_writer w) = wrote + length (bw_writer w'))%nat.
Proof.
  revert w q wrote. induction fuel as [|fuel IH]; intros w q wrote Hw Hq Hf.
  { assert (q = 0) as -> by lia. exists wrote, w. cbn. by rewrite app_nil_r. }
  cbn [write_ones]. destruct (Z.ltb_spec 0 q).
  2: { assert (q = 0) as -> by lia. exists wrote, w. cbn. by rewrite app_nil_r. }
  destruct (bit_write_spec w (2 ^ 64 - 1) (Z.to_nat (Z.min q 64)) Hw) as (k & w1 & -> & Hw1 & He & Hk); [lia|].
  destruct (IH w1 (q - Z.min q 64) (wrote + k)%nat Hw1) as (k' & w' & -> & Hw' & He' & Hk'); [lia|lia|].
  exists k', w'. split_and!; [done|done| |lia].
  rewrite He', He, bits_ones, <- app_assoc by lia. f_equal. rewrite <- repeat_app. f_equal. lia.
Qed.

Lemma golomb_rice_encode_spec p w n :
  writer_inv w -> (p <= 63)%nat -> 0 <= n ->
  exists k w', golomb_rice_encode p w n = (Ok k, w') /\ writer_inv w'
    /\ emitted w' = emitted w ++ golomb_bits p n
    /\ (k + length (bw_writer w) = length (bw_writer w'))%nat.
Proof.
  intros Hw Hp Hn. unfold golomb_rice_encode, golomb_bits. rewrite Z.shiftr_div_pow2 by lia.
  set (q := n / 2 ^ Z.of_nat p). assert (0 <= q) as Hq by (apply Z.div_pos; [lia|apply pow2_pos]).
  destruct (write_ones_spec (Z.to_nat (q / 64 + 1)) w q 0 Hw Hq) as (k & w1 & -> & Hw1 & He1 & Hk1).
  { pose proof (Z.div_pos q 64). rewrite Z2Nat.id by lia. pose proof (Z.mod_pos_bound q 64).
    pose proof (Z.div_mod q 64). lia. }
  destruct (bit_write_spec w1 0 1 Hw1) as (k2 & w2 & -> & Hw2 & He2 & Hk2); [lia|].
  destruct (bit_write_spec w2 n p Hw2) as (k3 & w3 & -> & Hw3 & He3 & Hk3); [lia|].
  eexists _, w3. split_and!; [done|done| |lia]. rewrite He3, He2, He1, <- !app_assoc. done.
Qed.

Lemma encode_deltas_spec p w last mapped wrote :
  writer_inv w -> (p <= 63)%nat -> StronglySorted Z.le (last :: mapped) ->
  exists k w', encode_deltas p w last mapped wrote = Ok (k, w') /\ writer_inv w'
    /\ emitted w' = emitted w ++ flat_map (golomb_bits p) (deltas last mapped)
    /\ (k + length (bw_writer w) = wrote + length (bw_writer w'))%nat.
Proof.
  revert w last wrote. induction mapped as [|x l IH]; intros w last wrote Hw Hp Hs.
  { exists wrote, w. cbn. by rewrite app_nil_r. }
  inversion_clear Hs as [|? ? Hs' Hf]. apply Forall_cons in Hf as [Hx _].
  cbn [encode_deltas deltas flat_map]. rewrite (proj2 (Z.ltb_ge _ _)) by lia.
  destruct (golomb_rice_encode_spec p w (x - last) Hw Hp) as (k & w1 & -> & Hw1 & He1 & Hk1); [lia|].
  destruct (IH w1 x (wrote + k)%nat Hw1 Hp Hs') as (k' & w' & -> & Hw' & He' & Hk').
  exists k', w'. split_and!; [done|done| |lia]. by rewrite He', He1, <- app_assoc.
Qed.

Lemma write_compact_app writer v : write_compact writer v = ((write_compact [] v).1, writer ++ (write_compact [] v).2).
Proof. unfold write_compact. repeat case_match; done. Qed.

Lemma write_compact_length v : (write_compact [] v).1 = length (write_compact [] v).2.
Proof. unfold write_compact. repeat case_match; cbn; rewrite ?length_le_split; done. Qed.

(** A stream that starts with that of some bytes. *)
Lemma stream_prefix l a x : stream l = stream a ++ x -> exists b, l = a ++ b /\ stream b = x.
Proof.
  intros H. exists (drop (length a) l).
  assert (length a <= length l)%nat as Hl.
  { apply (f_equal length) in H. rewrite length_app, !stream_length in H. lia. }
  rewrite <- (take_drop (length a) l) in H. rewrite stream_app in H.
  apply app_inj_1 in H as [H1%stream_inj H2]; [|rewrite !stream_length, length_take; lia].
  split; [|done]. rewrite <- H1 at 1. symmetry. apply take_drop.
Qed.


Lemma padding_add h n : padding (8 * h + n) = padding n.
Proof. unfold padding. rewrite Nat.add_comm, Nat.mul_comm, Nat.Div0.mod_add. done. Qed.

Section Finish.
Context (siphash : Z -> Z -> list byte -> Z).

(** The values of the set of elements [s]. *)
Definition set_values (k0 k1 m : Z) (s : gset (list byte)) : list Z :=
  merge_sort Z.le (hash_to_range siphash k0 k1 (Z.of_nat (size s) * m) <$> elements s).

Lemma set_values_sorted k0 k1 m s : StronglySorted Z.le (set_values k0 k1 m s).
Proof using Type. apply StronglySorted_merge_sort; [intros ? ? ?; lia|intros ? ?; lia]. Qed.

Lemma set_values_elem k0 k1 m s v :
  v ∈ set_values k0 k1 m s <-> exists e, e ∈ s /\ v = hash_to_range siphash k0 k1 (Z.of_nat (size s) * m) e.
Proof using Type.
  unfold set_values. rewrite merge_sort_Permutation, list_elem_of_fmap. setoid_rewrite elem_of_elements. naive_solver.
Qed.

Lemma set_values_length k0 k1 m s : length (set_values k0 k1 m s) = size s.
Proof using Type. unfold set_values. by rewrite merge_sort_Permutation, length_fmap. Qed.

Context (siphash_u64 : forall k0 k1 e, 0 <= siphash k0 k1 e < 2 ^ 64).

Lemma hash_to_range_bound k0 k1 range e : 0 < range < 2 ^ 64 -> 0 <= hash_to_range siphash k0 k1 range e < range.
Proof using siphash_u64.
  intros Hr. unfold hash_to_range. pose proof (siphash_u64 k0 k1 e). rewrite Z.shiftr_div_pow2 by lia.
  assert (0 <= siphash k0 k1 e * range / 2 ^ 64 < range) as H1.
  { split; [apply Z.div_pos; nia|]. apply Z.div_lt_upper_bound; nia. }
  rewrite Z.mod_small; lia.
Qed.

Lemma set_values_bound k0 k1 m s :
  0 < m -> Z.of_nat (size s) * m < 2 ^ 64 ->
  Forall (fun v => 0 <= v < Z.of_nat (size s) * m) (set_values k0 k1 m s).
Proof using siphash_u64.
  intros Hm Hn. apply Forall_forall. intros v (e & He & ->)%set_values_elem. apply hash_to_range_bound.
  assert (size s <> 0)%nat by (intros Hz%size_empty_inv; set_solver). nia.
Qed.

Lemma finish_spec w :
  0 < gw_m w -> (gw_p w <= 63)%nat -> Z.of_nat (size (gw_elements w)) * gw_m w < 2 ^ 64 ->
  exists bytes, finish siphash w = Ok (length bytes, gw_writer w ++ bytes)
    /\ encodes (gw_p w) (set_values (gw_k0 w) (gw_k1 w) (gw_m w) (gw_elements w)) bytes.
Proof using siphash_u64.
  intros Hm Hp Hn. unfold finish. rewrite (proj2 (Z.eqb_neq _ _)), (proj2 (Nat.ltb_ge _ _)) by lia. cbn [orb].
  rewrite (proj2 (Z.leb_gt _ _)) by lia.
  change (merge_sort Z.le (hash_to_range siphash (gw_k0 w) (gw_k1 w) (Z.of_nat (size (gw_elements w)) * gw_m w)
    <$> elements (gw_elements w))) with (set_values (gw_k0 w) (gw_k1 w) (gw_m w) (gw_elements w)).
  set (values := set_values _ _ _ _). set (header := write_compact [] (Z.of_nat (length values))).
  rewrite write_compact_app. fold header. destruct (writer_new_inv (gw_writer w ++ header.2)) as [Hw0 He0].
  assert (StronglySorted Z.le (0 :: values)) as Hs.
  { constructor; [apply set_values_sorted|].
    eapply Forall_impl; [by apply set_values_bound|]. cbn. lia. }
  destruct (encode_deltas_spec (gw_p w) _ 0 values header.1 Hw0 Hp Hs) as (k & w1 & -> & Hw1 & He1 & Hk1).
  cbn [mbind res_bind]. destruct (bit_flush_spec w1 Hw1) as (k2 & w2 & -> & Hst & Hk2).
  rewrite He1, He0, <- app_assoc in Hst. apply stream_prefix in Hst as (body & Hbody & Hst).
  exists (header.2 ++ body). rewrite Hbody, <- app_assoc. split.
  - do 2 f_equal. rewrite Hbody in Hk2. cbn [bit_writer_new bw_writer] in Hk1.
    rewrite !length_app in *. unfold header in *. rewrite write_compact_length in Hk1. lia.
  - exists body. split; [done|]. rewrite Hst. unfold set_bits. f_equal.
    by rewrite length_app, stream_length, padding_add.
Qed.
End Finish.
