(* ===== verification/FilterValidate.v ===== *)
(** * Validating and matching filters

    [zakura/pir-protocol/src/transparent/filter/validate.rs] and [matching.rs]: the strict
    decoder of downloaded filters and the matching of wallet scripts against them.

    The texts of errors are left out.  A result is [vres]: an error of the enum, or a
    panic. *)

From stdpp Require Import sorting.
From S2P Require Import Prelude BitStream GcsFilter.

(** [FilterError] *)
Inductive FilterError : Type :=
| BlockHash | Encoding | Truncated | NotCanonical | LimitExceeded | TrailingBytes (n : nat)
| NonZeroPadding | MissingPreviousOutput | Envelope | Response.

Abbreviation vres := (res (panic + FilterError)).

Record FilterLimits : Type := MkFilterLimits { max_bytes : Z; max_elements : Z }.

Definition ZCASH_MAINNET : FilterLimits := MkFilterLimits (2 * 1024 * 1024) 1000000.

Record ValidatedFilter : Type := MkValidatedFilter {
  vf_bytes : list byte;
  vf_values : list Z;
  vf_range : Z
}.

(** ** The bit reader *)

Record BitReader : Type := MkBitReader { rb_bytes : list byte; rb_bit : nat }.

Definition v_reader_new (bytes : list byte) : BitReader := MkBitReader bytes 0.

(** [BitReader::read_bit] *)
Definition read_bit (r : BitReader) : vres (Z * BitReader) :=
  match rb_bytes r !! (rb_bit r / 8)%nat with
  | None => Err (inr Truncated)
  | Some b => Ok (Z.land (Z.shiftr (byte.unsigned b) (Z.of_nat (7 - rb_bit r mod 8))) 1,
                  MkBitReader (rb_bytes r) (rb_bit r + 1))
  end.

(** [BitReader::read_bits] *)
Fixpoint read_bits_loop (count : nat) (r : BitReader) (value : Z) : vres (Z * BitReader) :=
  match count with
  | O => Ok (value, r)
  | S count =>
      '(bit, r) ← read_bit r;
      read_bits_loop count r (Z.lor (Z.shiftl value 1 mod 2 ^ 64) bit)
  end.
Definition read_bits (r : BitReader) (count : nat) : vres (Z * BitReader) := read_bits_loop count r 0.

(** [BitReader::consumed_bytes]: [div_ceil] *)
Definition consumed_bytes (r : BitReader) : nat :=
  if (rb_bit r mod 8 =? 0)%nat then (rb_bit r / 8)%nat else (rb_bit r / 8 + 1)%nat.

(** [BitReader::padding_is_zero]; the index panics out of range. *)
Definition padding_is_zero (r : BitReader) : vres unit :=
  let remainder := (rb_bit r mod 8)%nat in
  if (remainder =? 0)%nat then Ok ()
  else match rb_bytes r !! (rb_bit r / 8)%nat with
       | None => Err (inl AssertFailed)
       | Some b =>
           let mask := Z.shiftr 0xff (Z.of_nat remainder) in
           if negb (Z.land (byte.unsigned b) mask =? 0) then Err (inr NonZeroPadding) else Ok ()
       end.

(** ** The decoder *)

(** [bytes.get(1..1 + width)] *)
Definition compact_body (bytes : list byte) (width : nat) : vres Z :=
  if (length bytes <? 1 + width)%nat then Err (inr Truncated)
  else Ok (le_combine (take width (drop 1 bytes))).

(** [read_compact_size] *)
Definition v_read_compact_size (bytes : list byte) : vres (Z * nat) :=
  match bytes with
  | [] => Err (inr Truncated)
  | first :: _ =>
      if decide (first = Byte.xfd) then
        value ← compact_body bytes 2;
        if value <? 0xfd then Err (inr NotCanonical) else Ok (value, 3%nat)
      else if decide (first = Byte.xfe) then
        value ← compact_body bytes 4;
        if value <=? 0xffff then Err (inr NotCanonical) else Ok (value, 5%nat)
      else if decide (first = Byte.xff) then
        value ← compact_body bytes 8;
        if value <=? 0xffffffff then Err (inr NotCanonical) else Ok (value, 9%nat)
      else Ok (byte.unsigned first, 1%nat)
  end.

(** [while reader.read_bit()? == 1 { .. }]: every round reads a bit. *)
Fixpoint read_quotient (fuel : nat) (max_quotient : Z) (r : BitReader) (quotient : Z) : vres (Z * BitReader) :=
  match fuel with
  | O => Err (inl OutOfFuel)
  | S fuel =>
      '(bit, r) ← read_bit r;
      if bit =? 1 then
        let quotient := quotient + 1 in
        if max_quotient <? quotient then Err (inr LimitExceeded)
        else read_quotient fuel max_quotient r quotient
      else Ok (quotient, r)
  end.

(** [a.checked_add(b)] on [u64] *)
Definition checked_add (a b : Z) : option Z := if a + b <? 2 ^ 64 then Some (a + b) else None.

(** The loop over the elements *)
Fixpoint decode_values (count : nat) (p : nat) (range max_quotient : Z) (r : BitReader) (last : Z)
  : vres (list Z * BitReader) :=
  match count with
  | O => Ok ([], r)
  | S count =>
      '(quotient, r) ← read_quotient (S (8 * length (rb_bytes r))) max_quotient r 0;
      '(remainder, r) ← read_bits r p;
      delta ← ok_or (checked_add (Z.shiftl quotient (Z.of_nat p) mod 2 ^ 64) remainder) (inr Encoding);
      last ← ok_or (checked_add last delta) (inr Encoding);
      if range <=? last then Err (inr Encoding)
      else
        '(values, r) ← decode_values count p range max_quotient r last;
        Ok (last :: values, r)
  end.

(** [validate_parameters] *)
Definition validate_parameters (bytes : list byte) (limits : FilterLimits) (m : Z) (p : nat)
  : vres ValidatedFilter :=
  if (m =? 0) || (2 ^ 32 <=? m) || (31 <? p)%nat then Err (inr Encoding)
  else if max_bytes limits <? Z.of_nat (length bytes) then Err (inr LimitExceeded)
  else
    '(count, header_len) ← v_read_compact_size bytes;
    if max_elements limits <? count then Err (inr LimitExceeded)
    else
      let body := drop header_len bytes in
      let minimum_bits := count * (Z.of_nat p + 1) in
      if 2 ^ 64 <=? minimum_bits then Err (inr LimitExceeded)
      else if Z.min (Z.of_nat (length body) * 8) (2 ^ 64 - 1) <? minimum_bits then Err (inr Truncated)
      else if count =? 0 then
        match body with
        | [] => Ok (MkValidatedFilter bytes [] 0)
        | _ => Err (inr (TrailingBytes (length body)))
        end
      else
        let range := count * m in
        if 2 ^ 64 <=? range then Err (inr LimitExceeded)
        else
          let max_quotient := Z.shiftr range (Z.of_nat p) in
          '(values, reader) ← decode_values (Z.to_nat count) p range max_quotient (v_reader_new body) 0;
          _ ← padding_is_zero reader;
          let consumed := consumed_bytes reader in
          if (consumed <? length body)%nat then Err (inr (TrailingBytes (length body - consumed)))
          else Ok (MkValidatedFilter bytes values range).

(** ** Matching *)

(** The derived order of [(u64, usize)] *)
Definition pair_le (a b : Z * nat) : Prop := a.1 < b.1 \/ (a.1 = b.1 /\ (a.2 <= b.2)%nat).
#[global] Instance pair_le_dec : RelDecision pair_le.
Proof. intros a b. unfold pair_le. apply _. Defined.
#[global] Instance pair_le_total : Total pair_le.
Proof. intros [a i] [b j]. unfold pair_le; cbn. lia. Qed.
#[global] Instance pair_le_trans : Transitive pair_le.
Proof. intros [a i] [b j] [c k]. unfold pair_le; cbn. lia. Qed.

(** The [while] loop of [match_mapped]; the cursor is the part of the values from it on. *)
Fixpoint skip_below (value : Z) (cursor : list Z) : list Z :=
  match cursor with
  | v :: rest => if v <? value then skip_below value rest else cursor
  | [] => []
  end.

Fixpoint match_loop (cursor : list Z) (mapped : list (Z * nat)) (matches : list nat) : list nat :=
  match mapped with
  | [] => matches
  | (value, index) :: mapped =>
      let cursor := skip_below value cursor in
      let matches := match cursor with
                     | v :: _ => if v =? value then matches ++ [index] else matches
                     | [] => matches
                     end in
      match_loop cursor mapped matches
  end.

(** [match_mapped] *)
Definition match_mapped (filter : ValidatedFilter) (mapped : list (Z * nat)) : vres (list nat) :=
  Ok (merge_sort Nat.le (match_loop (vf_values filter) mapped [])).

Section Matching.
Context (siphash : Z -> Z -> list byte -> Z).

(** [map_wallet_scripts_keyed] *)
Definition map_wallet_scripts_keyed (filter : ValidatedFilter) (k0 k1 : Z) (wallet_scripts : list (list byte))
  : list (Z * nat) :=
  merge_sort pair_le
    ((fun '(index, script) => (hash_to_range siphash k0 k1 (vf_range filter) script, index))
     <$> base.filter (fun '(_, script) => script <> []) (imap (fun i s => (i, s)) wallet_scripts)).

(** [match_keyed] *)
Definition match_keyed (filter : ValidatedFilter) (k0 k1 : Z) (wallet_scripts : list (list byte)) : vres (list nat) :=
  match_mapped filter (map_wallet_scripts_keyed filter k0 k1 wallet_scripts).
End Matching.

(** ** What the bit reader reads *)

Definition v_unread (r : BitReader) : list bool := drop (rb_bit r) (stream (rb_bytes r)).

Lemma bits_lookup n x j : (j < n)%nat -> bits n x !! j = Some (Z.testbit x (Z.of_nat (n - 1 - j))).
Proof.
  revert j. induction n as [|n IH]; intros j Hj; [lia|]. destruct j as [|j]; cbn [bits].
  - cbn. do 3 f_equal. lia.
  - cbn. rewrite IH by lia. do 3 f_equal. lia.
Qed.

Lemma stream_lookup l i b :
  l !! (i / 8)%nat = Some b ->
  stream l !! i = Some (Z.testbit (byte.unsigned b) (Z.of_nat (7 - i mod 8))).
Proof.
  revert i. induction l as [|x l IH]; intros i Hi; [done|].
  change (stream (x :: l)) with (byte_bits x ++ stream l).
  destruct (Nat.lt_ge_cases i 8) as [Hlt|Hge].
  - rewrite Nat.div_small in Hi by lia. injection Hi as ->.
    rewrite lookup_app_l by (rewrite byte_bits_length; lia). rewrite Nat.mod_small by lia.
    unfold byte_bits. rewrite bits_lookup by lia. do 3 f_equal.
  - rewrite lookup_app_r by (rewrite byte_bits_length; lia). rewrite byte_bits_length.
    replace i with (i - 8 + 1 * 8)%nat in Hi |- * at 2 by lia.
    rewrite Nat.div_add, Nat.add_1_r in Hi by lia. rewrite Nat.Div0.mod_add. by apply IH.
Qed.

Lemma read_bit_spec r :
  read_bit r = match v_unread r with
               | [] => Err (inr Truncated)
               | b :: _ => Ok (Z.b2z b, MkBitReader (rb_bytes r) (rb_bit r + 1))
               end
  /\ v_unread (MkBitReader (rb_bytes r) (rb_bit r + 1)) = tail (v_unread r).
Proof.
  unfold read_bit, v_unread. cbn [rb_bytes rb_bit]. split.
  - destruct (rb_bytes r !! (rb_bit r / 8)%nat) as [b|] eqn:E.
    + apply stream_lookup in E. rewrite (drop_S _ _ _ E). do 2 f_equal.
      change 1 with (Z.ones 1). rewrite Z.land_ones by lia. rewrite Z.shiftr_div_pow2 by lia.
      rewrite <- Z.testbit_spec' by lia. done.
    + apply lookup_ge_None in E. rewrite drop_ge; [done|]. rewrite stream_length.
      pose proof (Nat.div_mod_eq (rb_bit r) 8). lia.
  - rewrite Nat.add_1_r. clear. generalize (stream (rb_bytes r)). induction (rb_bit r) as [|n IH]; intros [|b l]; try done.
    cbn. apply IH.
Qed.

(** Reading [n] bits: what is read, and that reading stops at the end. *)
Lemma read_bits_loop_spec n r value :
  0 <= value < 2 ^ Z.of_nat (64 - n) -> (n <= 64)%nat ->
  read_bits_loop n r value =
  if decide (n <= length (v_unread r))%nat
  then Ok (value * 2 ^ Z.of_nat n + bits_val (take n (v_unread r)), MkBitReader (rb_bytes r) (rb_bit r + n))
  else Err (inr Truncated).
Proof.
  revert r value. induction n as [|n IH]; intros r value Hv Hn.
  { rewrite decide_True by lia. rewrite bits_val_take_0, Nat.add_0_r. by destruct r. }
  cbn [read_bits_loop]. destruct (read_bit_spec r) as [-> Hu].
  destruct (v_unread r) as [|b l] eqn:El; [done|]. cbn [mbind res_bind tail] in *.
  assert (2 ^ Z.of_nat (64 - n) = 2 ^ Z.of_nat (64 - S n) * 2) as Hp.
  { replace (64 - n)%nat with (S (64 - S n)) by lia. rewrite Nat2Z.inj_succ, Z.pow_succ_r; lia. }
  assert (2 ^ Z.of_nat (64 - n) <= 2 ^ 64) by (apply Z.pow_le_mono_r; lia).
  rewrite Z.shiftl_mul_pow2, Z.mod_small by lia. rewrite lor_disjoint by (destruct b; cbn; lia).
  rewrite IH by (destruct b; cbn [Z.b2z]; lia). rewrite Hu. cbn [length rb_bytes rb_bit].
  repeat case_decide; try lia; [|done]. do 2 f_equal; [|f_equal; lia].
  change (take (S n) (b :: l)) with (b :: take n l). rewrite bits_val_cons, length_take.
  replace (Nat.min n (length l)) with n by lia. rewrite Nat2Z.inj_succ, Z.pow_succ_r by lia. lia.
Qed.

Lemma v_unread_add r n : v_unread (MkBitReader (rb_bytes r) (rb_bit r + n)) = drop n (v_unread r).
Proof. unfold v_unread; cbn. by rewrite drop_drop. Qed.

(** Reading a unary run. *)
Lemma read_quotient_Ok fuel mq r q q' r' :
  read_quotient fuel mq r q = Ok (q', r') ->
  q <= q' /\ (q < q' -> q' <= mq)
  /\ v_unread r = repeat true (Z.to_nat (q' - q)) ++ false :: v_unread r'
  /\ rb_bytes r' = rb_bytes r /\ rb_bit r' = (rb_bit r + Z.to_nat (q' - q) + 1)%nat.
Proof.
  revert r q. induction fuel as [|fuel IH]; intros r q; [done|]. cbn [read_quotient].
  destruct (read_bit_spec r) as [-> Hu]. destruct (v_unread r) as [|b l] eqn:El; [done|]. cbn [mbind res_bind tail] in *.
  destruct b; cbn [Z.b2z Z.eqb Pos.eqb].
  - destruct (Z.ltb_spec mq (q + 1)); [done|]. intros (H1 & H2 & H3 & H4 & H5)%IH. cbn [rb_bytes rb_bit] in *.
    rewrite Hu in H3. replace (Z.to_nat (q' - q)) with (S (Z.to_nat (q' - (q + 1)))) by lia.
    cbn [repeat app]. split_and!; [lia|lia|by rewrite H3|done|lia].
  - intros [= -> <-]. rewrite Z.sub_diag. cbn. rewrite <- Hu. split_and!; [lia|lia|done|done|lia].
Qed.

Lemma read_quotient_run fuel mq r q k rest :
  v_unread r = repeat true k ++ false :: rest -> q + Z.of_nat k <= mq -> (k < fuel)%nat ->
  read_quotient fuel mq r q = Ok (q + Z.of_nat k, MkBitReader (rb_bytes r) (rb_bit r + k + 1)).
Proof.
  revert r q k. induction fuel as [|fuel IH]; intros r q k Hr Hq Hk; [lia|]. cbn [read_quotient].
  destruct (read_bit_spec r) as [-> Hu]. rewrite Hr in *. destruct k as [|k]; cbn [repeat app] in *.
  - cbn [mbind res_bind Z.b2z Z.eqb]. do 2 f_equal; [lia|f_equal; lia].
  - cbn [mbind res_bind Z.b2z Z.eqb Pos.eqb tail] in *. rewrite (proj2 (Z.ltb_ge _ _)) by lia.
    rewrite (IH _ _ k) by (done || lia). cbn [rb_bytes rb_bit]. do 2 f_equal; [lia|f_equal; lia].
Qed.

(** ** The header *)

Lemma le_split_one b : le_split 1 (byte.unsigned b) = [b].
Proof. change (le_split 1 (byte.unsigned b)) with [byte.of_Z (byte.unsigned b)]. by rewrite byte.of_Z_unsigned. Qed.

Lemma compact_body_Ok bytes width v :
  compact_body bytes width = Ok v ->
  (1 + width <= length bytes)%nat /\ 0 <= v < 2 ^ (8 * Z.of_nat width)
  /\ drop 1 bytes = le_split width v ++ drop (1 + width) bytes.
Proof.
  unfold compact_body. destruct (Nat.ltb_spec (length bytes) (1 + width)); [done|]. intros [= <-].
  assert (length (take width (drop 1 bytes)) = width) as Hl by (rewrite length_take, length_drop; lia).
  split; [lia|]. split; [by apply le_combine_range|].
  rewrite split_le_combine' by exact Hl. rewrite <- drop_drop. symmetry. apply take_drop.
Qed.

Lemma compact_body_run first width v body :
  0 <= v < 2 ^ (8 * Z.of_nat width) -> compact_body (first :: le_split width v ++ body) width = Ok v.
Proof.
  intros Hv. unfold compact_body. change (drop 1 (first :: le_split width v ++ body)) with (le_split width v ++ body).
  cbn [length]. rewrite length_app, length_le_split, (proj2 (Nat.ltb_ge _ _)) by lia.
  rewrite take_app_length' by (by rewrite length_le_split).
  by rewrite le_combine_split_small.
Qed.

Lemma v_read_compact_size_Ok bytes c h :
  v_read_compact_size bytes = Ok (c, h) ->
  0 <= c < 2 ^ 64 /\ bytes = (write_compact [] c).2 ++ drop h bytes.
Proof.
  unfold v_read_compact_size, write_compact. destruct bytes as [|b bytes]; [done|].
  assert (forall width lo v, compact_body (b :: bytes) width = Ok v -> lo <= v ->
    0 <= v < 2 ^ (8 * Z.of_nat width) /\ lo <= v /\ b :: bytes = b :: le_split width v ++ drop (1 + width) (b :: bytes)) as Hwide.
  { intros width lo v (_ & Hr & E)%compact_body_Ok Hlo. split_and!; [lia|lia|lia|]. f_equal.
    change (drop 1 (b :: bytes)) with (drop 0 bytes) in E. by rewrite drop_0 in E. }
  case_decide as H1; [|case_decide as H2; [|case_decide as H3]]; subst.
  - intros (v & Hv & Hc)%res_bind_Ok. destruct (Z.ltb_spec v 0xfd); [done|]. injection Hc as -> <-.
    destruct (Hwide 2%nat 0xfd _ Hv ltac:(lia)) as (Hr & _ & E).
    rewrite (proj2 (Z.leb_gt _ _)), (proj2 (Z.leb_le c _)) by lia. cbn [snd app]. split; [lia|exact E].
  - intros (v & Hv & Hc)%res_bind_Ok. destruct (Z.leb_spec v 0xffff); [done|]. injection Hc as -> <-.
    destruct (Hwide 4%nat 0x10000 _ Hv ltac:(lia)) as (Hr & _ & E).
    rewrite !(proj2 (Z.leb_gt _ _)), (proj2 (Z.leb_le c _)) by lia. cbn [snd app]. split; [lia|exact E].
  - intros (v & Hv & Hc)%res_bind_Ok. destruct (Z.leb_spec v 0xffffffff); [done|]. injection Hc as -> <-.
    destruct (Hwide 8%nat 0x100000000 _ Hv ltac:(lia)) as (Hr & _ & E).
    rewrite !(proj2 (Z.leb_gt _ _)) by lia. cbn [snd app]. split; [lia|exact E].
  - intros [= <- <-]. pose proof (byte.unsigned_range b).
    assert (byte.unsigned b <= 0xfc).
    { assert (byte.unsigned b <> 0xfd /\ byte.unsigned b <> 0xfe /\ byte.unsigned b <> 0xff) by
        (split_and!; intros E; [apply H1|apply H2|apply H3]; by apply byte.unsigned_inj). lia. }
    rewrite (proj2 (Z.leb_le _ _)) by lia. cbn [snd app]. rewrite le_split_one. split; [lia|done].
Qed.

Lemma v_read_compact_size_run c body :
  0 <= c < 2 ^ 64 ->
  v_read_compact_size ((write_compact [] c).2 ++ body) = Ok (c, length (write_compact [] c).2).
Proof.
  intros Hc. unfold write_compact. destruct (Z.leb_spec c 0xfc).
  - cbn [snd app]. change (le_split 1 c) with [byte.of_Z c]. cbn [app v_read_compact_size length].
    assert (byte.unsigned (byte.of_Z c) = c) as E by (rewrite byte.unsigned_of_Z; apply Z.mod_small; lia).
    repeat case_decide;
      try (exfalso; match goal with H : byte.of_Z _ = _ |- _ => rewrite H in E; cbn in E; lia end).
    by rewrite E.
  - destruct (Z.leb_spec c 0xffff); [|destruct (Z.leb_spec c 0xffffffff)]; cbn [snd app v_read_compact_size length];
      repeat case_decide; try done; rewrite compact_body_run, length_le_split by lia; cbn [mbind res_bind];
      first [rewrite (proj2 (Z.ltb_ge _ _)) by lia|rewrite (proj2 (Z.leb_gt _ _)) by lia]; done.
Qed.

(** ** The values *)

Lemma golomb_bits_eq p q l :
  0 <= q -> length l = p ->
  golomb_bits p (q * 2 ^ Z.of_nat p + bits_val l) = repeat true (Z.to_nat q) ++ false :: l.
Proof.
  intros Hq <-. unfold golomb_bits. pose proof (bits_val_range l) as Hr. pose proof (pow2_pos (length l)).
  rewrite Z.div_add_l, Z.div_small, Z.add_0_r by lia. do 2 f_equal.
  apply bits_val_inj; [apply bits_length|]. rewrite bits_val_bits, Z.add_comm, Z.mod_add by lia. by apply Z.mod_small.
Qed.

Lemma golomb_bits_split p n : 0 <= n ->
  exists q l, 0 <= q /\ length l = p /\ n = q * 2 ^ Z.of_nat p + bits_val l.
Proof.
  intros Hn. pose proof (pow2_pos p). exists (n / 2 ^ Z.of_nat p), (bits p n). split_and!.
  - by apply Z.div_pos.
  - apply bits_length.
  - rewrite bits_val_bits. pose proof (Z.div_mod n (2 ^ Z.of_nat p)). lia.
Qed.

Lemma drop_unary k (l : list bool) : drop (k + 1) (repeat true k ++ false :: l) = l.
Proof. induction k as [|k IH]; [done|exact IH]. Qed.

Section Decode.
Context (p : nat) (range : Z) (Hp : (p <= 31)%nat) (Hrange : 0 <= range < 2 ^ 64).

Abbreviation max_q := (Z.shiftr range (Z.of_nat p)).

Lemma quotient_bound q : 0 <= q <= max_q -> q * 2 ^ Z.of_nat p <= range.
Proof using Hp Hrange.
  rewrite Z.shiftr_div_pow2 by lia. intros Hq. pose proof (pow2_pos p).
  pose proof (Z.mul_div_le range (2 ^ Z.of_nat p)). nia.
Qed.

Lemma decode_values_Ok n r last vs r' :
  0 <= last -> decode_values n p range max_q r last = Ok (vs, r') ->
  v_unread r = flat_map (golomb_bits p) (deltas last vs) ++ v_unread r'
  /\ length vs = n /\ StronglySorted Z.le (last :: vs) /\ Forall (fun v => v < range) vs
  /\ rb_bytes r' = rb_bytes r
  /\ rb_bit r' = (rb_bit r + length (flat_map (golomb_bits p) (deltas last vs)))%nat.
Proof using Hp Hrange.
  revert r last vs. induction n as [|n IH]; intros r last vs Hl; cbn [decode_values].
  { intros [= <- <-]. cbn. split_and!; try done; try lia; repeat constructor. }
  intros ([q r1] & (Hq0 & Hqm & Hu1 & Hb1 & Ho1)%read_quotient_Ok & H)%res_bind_Ok. rewrite Z.sub_0_r in *.
  apply res_bind_Ok in H as ([rem r2] & Hrem & H). unfold read_bits in Hrem.
  rewrite read_bits_loop_spec in Hrem by (try split; try apply pow2_pos; lia).
  case_decide as Hlen; [|done]. injection Hrem as <- <-. rewrite Z.mul_0_l, Z.add_0_l in H.
  set (l := take p (v_unread r1)) in *. assert (length l = p) as Hll by (unfold l; rewrite length_take; lia).
  apply res_bind_Ok in H as (delta & Hdelta%ok_or_Ok & H). apply res_bind_Ok in H as (last' & Hlast%ok_or_Ok & H).
  assert (q * 2 ^ Z.of_nat p <= range) as Hqr.
  { destruct (Z.eq_dec q 0) as [->|]; [lia|]. apply quotient_bound. lia. }
  assert (0 <= q * 2 ^ Z.of_nat p) by (pose proof (pow2_pos p); nia).
  rewrite Z.shiftl_mul_pow2, Z.mod_small in Hdelta by lia. unfold checked_add in Hdelta, Hlast.
  destruct (Z.ltb_spec (q * 2 ^ Z.of_nat p + bits_val l) (2 ^ 64)); [|done]. injection Hdelta as <-.
  destruct (Z.ltb_spec (last + (q * 2 ^ Z.of_nat p + bits_val l)) (2 ^ 64)); [|done]. injection Hlast as <-.
  destruct (Z.leb_spec range (last + (q * 2 ^ Z.of_nat p + bits_val l))); [done|].
  apply res_bind_Ok in H as ([vs' r3] & Hd & [= <- <-]). pose proof (bits_val_range l) as Hlr.
  apply IH in Hd as (Hu & Hn & Hs & Hf & Hb & Ho); [|lia]. cbn [rb_bytes rb_bit] in *.
  rewrite v_unread_add in Hu. cbn [deltas flat_map]. set (last' := last + _) in *.
  replace (last' - last) with (q * 2 ^ Z.of_nat p + bits_val l) by (unfold last'; lia).
  rewrite golomb_bits_eq by (done || lia).
  assert (v_unread r1 = l ++ drop p (v_unread r1)) as Hsplit by (symmetry; apply take_drop).
  split_and!; [|cbn; lia| | |congruence|].
  - rewrite Hu1, <- !app_assoc. f_equal. cbn [app]. f_equal. rewrite Hsplit at 1. by rewrite Hu.
  - constructor; [exact Hs|]. constructor; [lia|]. apply StronglySorted_inv in Hs as [_ Hs].
    eapply Forall_impl; [exact Hs|]. cbn. intros x Hx. unfold last' in *. lia.
  - constructor; [lia|done].
  - rewrite Ho, Ho1, !length_app, repeat_length. cbn [length]. rewrite Hll. lia.
Qed.

Lemma decode_values_run vs r last rest :
  0 <= last -> v_unread r = flat_map (golomb_bits p) (deltas last vs) ++ rest ->
  StronglySorted Z.le (last :: vs) -> Forall (fun v => v < range) vs ->
  decode_values (length vs) p range max_q r last
  = Ok (vs, MkBitReader (rb_bytes r) (rb_bit r + length (flat_map (golomb_bits p) (deltas last vs)))).
Proof using Hp Hrange.
  revert r last. induction vs as [|v vs IH]; intros r last Hl Hu Hs Hf.
  { cbn. rewrite Nat.add_0_r. by destruct r. }
  apply Forall_cons in Hf as [Hv Hf]. apply StronglySorted_inv in Hs as [Hs Hle]. apply Forall_cons in Hle as [Hlv _].
  destruct (golomb_bits_split p (v - last)) as (q & l & Hq & Hll & E); [lia|].
  cbn [deltas flat_map] in *. rewrite E, golomb_bits_eq in * by done.
  pose proof (bits_val_range l) as Hlr. pose proof (pow2_pos p).
  assert (q <= max_q) as Hqm.
  { rewrite Z.shiftr_div_pow2 by lia. apply Z.div_le_lower_bound; nia. }
  cbn [length decode_values].
  rewrite (read_quotient_run _ _ _ 0 (Z.to_nat q) (l ++ flat_map (golomb_bits p) (deltas v vs) ++ rest)).
  - cbn [mbind res_bind]. rewrite Z.add_0_l, Z2Nat.id by lia. set (r1 := MkBitReader _ _).
    assert (v_unread r1 = l ++ flat_map (golomb_bits p) (deltas v vs) ++ rest) as Hu1.
    { unfold r1. rewrite <- Nat.add_assoc, v_unread_add, Hu, <- !app_assoc. cbn [app]. apply drop_unary. }
    unfold read_bits. rewrite read_bits_loop_spec by (try split; try apply pow2_pos; lia).
    rewrite Hu1, decide_True by (rewrite length_app; lia). rewrite take_app_length' by done. cbn [mbind res_bind].
    rewrite Z.mul_0_l, Z.add_0_l, Z.shiftl_mul_pow2, Z.mod_small by nia. unfold checked_add.
    rewrite (proj2 (Z.ltb_lt (q * _ + _) _)) by nia. cbn [ok_or mbind res_bind].
    replace (last + (q * 2 ^ Z.of_nat p + bits_val l)) with v by lia.
    rewrite (proj2 (Z.ltb_lt v _)) by lia. cbn [ok_or mbind res_bind]. rewrite (proj2 (Z.leb_gt _ _)) by lia.
    rewrite IH; [|lia|rewrite v_unread_add, Hu1, drop_app_length' by done; done|exact Hs|done].
    cbn [mbind res_bind rb_bytes rb_bit r1]. do 3 f_equal. rewrite !length_app, repeat_length. cbn [length]. lia.
  - rewrite Hu, <- !app_assoc. done.
  - rewrite Z2Nat.id by lia. lia.
  - apply (f_equal length) in Hu. unfold v_unread in Hu. rewrite length_drop, stream_length, !length_app, repeat_length in Hu.
    cbn [length] in Hu. lia.
Qed.
End Decode.

(** ** The end of the stream *)

Lemma stream_drop l d b :
  l !! d = Some b -> forall rem, (rem <= 8)%nat ->
  drop (8 * d + rem) (stream l) = drop rem (byte_bits b) ++ stream (drop (S d) l).
Proof.
  revert d. induction l as [|x l IH]; intros d Hd rem Hr; [done|].
  change (stream (x :: l)) with (byte_bits x ++ stream l). destruct d as [|d].
  - injection Hd as ->. cbn [drop]. rewrite drop_0, Nat.mul_0_r. cbn [Nat.add].
    by rewrite drop_app_le by (rewrite byte_bits_length; lia).
  - replace (8 * S d + rem)%nat with (8 + (8 * d + rem))%nat by lia.
    rewrite <- drop_drop, drop_app_length' by (by rewrite byte_bits_length). by apply IH.
Qed.

(** The low bits of the last byte are zero. *)
Lemma mask_spec b rem :
  (rem <= 8)%nat ->
  Z.land (byte.unsigned b) (Z.shiftr 0xff (Z.of_nat rem)) = 0 <-> drop rem (byte_bits b) = repeat false (8 - rem).
Proof.
  intros Hr. unfold byte_bits. rewrite bits_drop.
  assert (Z.shiftr 0xff (Z.of_nat rem) = Z.ones (Z.of_nat (8 - rem))) as ->.
  { do 9 (destruct rem as [|rem]; [reflexivity|]). lia. }
  rewrite Z.land_ones, <- bits_val_bits by lia. split; intros H.
  - apply bits_val_inj; [by rewrite bits_length, repeat_length|]. by rewrite H, bits_val_zeros.
  - rewrite H. apply bits_val_zeros.
Qed.

Lemma final_padding r :
  (rb_bit r <= 8 * length (rb_bytes r))%nat ->
  (padding_is_zero r = Ok () /\ (length (rb_bytes r) <= consumed_bytes r)%nat)
  <-> v_unread r = padding (rb_bit r).
Proof.
  intros Hb. unfold padding_is_zero, consumed_bytes, padding, v_unread.
  set (d := (rb_bit r / 8)%nat). set (rem := (rb_bit r mod 8)%nat).
  assert (rb_bit r = 8 * d + rem)%nat as E by (apply Nat.div_mod_eq). assert (rem < 8)%nat as Hrem by (apply Nat.mod_upper_bound; lia).
  destruct (Nat.eqb_spec rem 0) as [E0|E0].
  - rewrite E0 in *. cbn [Nat.sub Nat.modulo]. replace ((8 - 0) mod 8)%nat with 0%nat by done. cbn [repeat]. split.
    + intros [_ Hd]. apply drop_ge. rewrite stream_length. lia.
    + intros Hl%(f_equal length). rewrite length_drop, stream_length in Hl. cbn in Hl. split; [done|]. lia.
  - destruct (lookup_lt_is_Some_2 (rb_bytes r) d) as [b Hlk]; [lia|]. rewrite Hlk.
    rewrite E, (stream_drop _ _ _ Hlk) by lia. rewrite (Nat.mod_small (8 - rem)) by lia.
    pose proof (mask_spec b rem ltac:(lia)) as Hmask. split.
    + destruct (Z.eqb_spec (Z.land (byte.unsigned b) (Z.shiftr 0xff (Z.of_nat rem))) 0) as [Ez|]; [|by intros [? _]].
      intros [_ Hlen]. rewrite (proj1 Hmask Ez), drop_ge by lia. apply app_nil_r.
    + intros H. apply (f_equal length) in H as Hl.
      rewrite length_app, length_drop, byte_bits_length, stream_length, length_drop, repeat_length in Hl.
      assert (length (rb_bytes r) <= S d)%nat by lia.
      rewrite (drop_ge (rb_bytes r)) in H by lia. cbn [stream flat_map] in H. rewrite app_nil_r in H.
      rewrite (proj2 Hmask H). split; [done|lia].
Qed.

(** ** Exactness *)

(** The values of a set of [count] elements for the parameter [m]. *)
Definition values_ok (m : Z) (values : list Z) : Prop :=
  StronglySorted Z.le (0 :: values) /\ Forall (fun v => v < Z.of_nat (length values) * m) values
  /\ Z.of_nat (length values) * m < 2 ^ 64.

Lemma golomb_bits_length p n : (p + 1 <= length (golomb_bits p n))%nat.
Proof. unfold golomb_bits. rewrite length_app. cbn [length]. rewrite bits_length. lia. Qed.

Lemma set_bits_length p l last : (length l * (p + 1) <= length (flat_map (golomb_bits p) (deltas last l)))%nat.
Proof.
  revert last. induction l as [|v l IH]; intros last; cbn [deltas flat_map length]; [lia|].
  rewrite length_app. pose proof (golomb_bits_length p (v - last)). specialize (IH v). lia.
Qed.

Lemma validate_sound bytes limits m p f :
  0 <= m -> validate_parameters bytes limits m p = Ok f ->
  0 < m < 2 ^ 32 /\ (p <= 31)%nat /\ Z.of_nat (length bytes) <= max_bytes limits
  /\ exists values, encodes p values bytes /\ values_ok m values
       /\ Z.of_nat (length values) <= max_elements limits
       /\ f = MkValidatedFilter bytes values (Z.of_nat (length values) * m).
Proof.
  intros Hm0. unfold validate_parameters.
  destruct (Z.eqb_spec m 0); [done|]. destruct (Z.leb_spec (2 ^ 32) m); [done|].
  destruct (Nat.ltb_spec 31 p); [done|]. cbn [orb].
  destruct (Z.ltb_spec (max_bytes limits) (Z.of_nat (length bytes))); [done|].
  intros ([c h] & (Hc & Hbytes)%v_read_compact_size_Ok & Hv)%res_bind_Ok.
  destruct (Z.ltb_spec (max_elements limits) c); [done|].
  destruct (Z.leb_spec (2 ^ 64) (c * (Z.of_nat p + 1))); [done|].
  destruct (Z.ltb_spec (Z.min (Z.of_nat (length (drop h bytes)) * 8) (2 ^ 64 - 1)) (c * (Z.of_nat p + 1))); [done|].
  split; [lia|]. split; [lia|]. split; [lia|].
  destruct (Z.eqb_spec c 0) as [->|Hc0].
  { destruct (drop h bytes) eqn:Ed; [|done]. injection Hv as <-. exists []. split; [by exists []; split|].
    split; [|by split]. split; [by repeat constructor|]. split; [constructor|cbn; lia]. }
  destruct (Z.leb_spec (2 ^ 64) (c * m)); [done|].
  apply res_bind_Ok in Hv as ([values r] & Hd & Hv). apply res_bind_Ok in Hv as ([] & Hpad & Hv).
  destruct (Nat.ltb_spec (consumed_bytes r) (length (drop h bytes))) as [|Hcons]; [done|]. injection Hv as <-.
  apply decode_values_Ok in Hd as (Hu & Hn & Hs & Hf & Hb & Ho); [|lia|nia|lia].
  cbn [v_reader_new rb_bytes rb_bit] in *. rewrite <- Hb in Hcons.
  assert (Z.of_nat (length values) = c) as Elen by lia.
  exists values. unfold values_ok. rewrite Elen. split_and!; try done.
  exists (drop h bytes). rewrite Elen. split; [exact Hbytes|].
  change (drop 0 (stream (drop h bytes))) with (stream (drop h bytes)) in Hu. unfold set_bits.
  change (v_unread (v_reader_new (drop h bytes))) with (drop 0 (stream (drop h bytes))) in Hu. rewrite drop_0 in Hu.
  assert (rb_bit r <= 8 * length (rb_bytes r))%nat as Hbit.
  { rewrite Hb, Ho. apply (f_equal length) in Hu. rewrite stream_length, length_app in Hu. lia. }
  rewrite Hu. f_equal. rewrite (proj1 (final_padding r Hbit) (conj Hpad Hcons)), Ho. done.
Qed.

Lemma validate_complete bytes limits m p values :
  Z.of_nat (length bytes) < 2 ^ 58 -> 0 < m < 2 ^ 32 -> (p <= 31)%nat ->
  Z.of_nat (length bytes) <= max_bytes limits -> encodes p values bytes -> values_ok m values ->
  Z.of_nat (length values) <= max_elements limits ->
  validate_parameters bytes limits m p
  = Ok (MkValidatedFilter bytes values (Z.of_nat (length values) * m)).
Proof.
  intros Hlen Hm Hp Hmax (body & Hbytes & Hst) (Hs & Hf & Hr) Hel. unfold validate_parameters.
  set (n := length values) in *.
  assert (n * (p + 1) <= 8 * length body)%nat as Hbits.
  { pose proof (set_bits_length p values 0). apply (f_equal length) in Hst.
    rewrite length_app, stream_length in Hst. unfold set_bits in Hst. lia. }
  assert (length body <= length bytes)%nat by (rewrite Hbytes, length_app; lia).
  assert (Z.of_nat n * (Z.of_nat p + 1) <= 8 * Z.of_nat (length body)) as Hbits' by nia.
  assert (Z.of_nat n < 2 ^ 61) by nia.
  rewrite (proj2 (Z.eqb_neq m 0)), (proj2 (Z.leb_gt _ m)), (proj2 (Nat.ltb_ge _ _)) by lia. cbn [orb].
  rewrite (proj2 (Z.ltb_ge _ _)) by lia.
  rewrite Hbytes at 1. rewrite v_read_compact_size_run by lia. cbn [mbind res_bind].
  rewrite (proj2 (Z.ltb_ge _ _)) by lia. rewrite (proj2 (Z.leb_gt _ _)) by lia.
  assert (drop (length (write_compact [] (Z.of_nat n)).2) bytes = body) as -> by (rewrite Hbytes; apply drop_app_length).
  rewrite (proj2 (Z.ltb_ge _ _)) by lia.
  destruct (Z.eqb_spec (Z.of_nat n) 0) as [E0|E0].
  { destruct values; [|cbn in E0; lia]. apply (f_equal length) in Hst. rewrite stream_length in Hst. cbn in Hst.
    destruct body; [done|cbn in Hst; lia]. }
  rewrite (proj2 (Z.leb_gt _ _)) by lia. rewrite Nat2Z.id.
  assert (v_unread (v_reader_new body) = set_bits p values ++ padding (length (set_bits p values))) as Hu.
  { unfold v_unread; cbn [v_reader_new rb_bit rb_bytes]. by rewrite drop_0. }
  pose proof (decode_values_run p (Z.of_nat n * m) Hp ltac:(nia) values _ 0 _ ltac:(lia) Hu Hs Hf) as Hd.
  fold n in Hd. rewrite Hd. cbn [mbind res_bind].
  cbn [v_reader_new rb_bytes rb_bit Nat.add]. fold (set_bits p values).
  set (r := MkBitReader body (length (set_bits p values))).
  destruct (proj2 (final_padding r ltac:(
    cbn; apply (f_equal length) in Hst; rewrite stream_length, length_app in Hst; lia))) as [Hpad Hcons].
  { unfold v_unread, r; cbn [rb_bytes rb_bit]. rewrite Hst. apply drop_app_length. }
  rewrite Hpad. cbn [mbind res_bind]. rewrite (proj2 (Nat.ltb_ge _ _)) by exact Hcons. done.
Qed.

(** The header fixes the number of values. *)
Lemma encodes_length p vs ws bytes :
  encodes p vs bytes -> encodes p ws bytes ->
  Z.of_nat (length vs) < 2 ^ 64 -> Z.of_nat (length ws) < 2 ^ 64 -> length vs = length ws.
Proof.
  intros (b1 & E1 & _) (b2 & E2 & _) H1 H2.
  pose proof (v_read_compact_size_run (Z.of_nat (length vs)) b1 ltac:(lia)) as R1.
  pose proof (v_read_compact_size_run (Z.of_nat (length ws)) b2 ltac:(lia)) as R2.
  rewrite <- E1 in R1. rewrite <- E2, R1 in R2. injection R2 as R2 _. lia.
Qed.

(** C34: [validate_parameters] accepts exactly the canonical encodings of sets within the
    limits of the caller: a minimal CompactSize count, the Golomb-Rice codes of the
    differences of ascending values below the range, and zero padding up to the end of
    the input.  It returns those values and their range.  (The input is shorter than
    [2 ^ 58] bytes, so that its length in bits is a [u64].) *)
Theorem validate_parameters_exact bytes limits m p f :
  0 <= m -> Z.of_nat (length bytes) < 2 ^ 58 ->
  validate_parameters bytes limits m p = Ok f <->
  0 < m < 2 ^ 32 /\ (p <= 31)%nat /\ Z.of_nat (length bytes) <= max_bytes limits
  /\ exists values, encodes p values bytes /\ values_ok m values
       /\ Z.of_nat (length values) <= max_elements limits
       /\ f = MkValidatedFilter bytes values (Z.of_nat (length values) * m).
Proof.
  intros Hm Hlen. split; [by apply validate_sound|].
  intros (Hm' & Hp & Hmax & values & He & Hv & Hel & ->). by apply validate_complete.
Qed.

(** ** Matching *)

Lemma skip_below_elem v x l :
  StronglySorted Z.le l -> v <= x -> x ∈ skip_below v l <-> x ∈ l.
Proof.
  induction 1 as [|y l Hs IH Hf]; intros Hx; [done|]. cbn. destruct (Z.ltb_spec y v); [|done].
  rewrite elem_of_cons, IH by done. split; [by right|]. intros [->|?]; [lia|done].
Qed.

Lemma skip_below_sorted v l : StronglySorted Z.le l -> StronglySorted Z.le (skip_below v l).
Proof. induction 1 as [|y l Hs IH Hf]; cbn; [constructor|]. case_match; [done|by constructor]. Qed.

Lemma skip_below_head v l :
  StronglySorted Z.le l -> match skip_below v l with x :: _ => v <= x | [] => True end.
Proof. induction 1 as [|y l Hs IH Hf]; cbn; [done|]. destruct (Z.ltb_spec y v); [done|]. lia. Qed.

Lemma match_loop_elem cursor mapped matches i :
  StronglySorted Z.le cursor -> StronglySorted pair_le mapped ->
  i ∈ match_loop cursor mapped matches <-> i ∈ matches \/ exists v, (v, i) ∈ mapped /\ v ∈ cursor.
Proof.
  intros Hc Hm. revert cursor matches Hc. induction Hm as [|[v j] mapped Hs IH Hf]; intros cursor matches Hc.
  { cbn. split; [by left|]. intros [?|(? & []%not_elem_of_nil & _)]; done. }
  cbn [match_loop]. rewrite IH by (by apply skip_below_sorted).
  assert (forall x k, (x, k) ∈ mapped -> x ∈ skip_below v cursor <-> x ∈ cursor) as Hrest.
  { intros x k Hx. rewrite Forall_forall in Hf. specialize (Hf _ Hx). unfold pair_le in Hf; cbn in Hf.
    apply skip_below_elem; [done|lia]. }
  assert (match skip_below v cursor with x :: _ => if x =? v then matches ++ [j] else matches | [] => matches end
    = if decide (v ∈ cursor) then matches ++ [j] else matches) as ->.
  { pose proof (skip_below_elem v v cursor Hc ltac:(lia)) as He. pose proof (skip_below_head v cursor Hc) as Hh.
    pose proof (skip_below_sorted v cursor Hc) as Hss. destruct (skip_below v cursor) as [|x l].
    - rewrite decide_False; [done|]. rewrite <- He. apply not_elem_of_nil.
    - destruct (Z.eqb_spec x v) as [->|Hne].
      + rewrite decide_True; [done|]. apply He. by left.
      + rewrite decide_False; [done|]. rewrite <- He. intros [->|Hin]%elem_of_cons; [done|].
        apply StronglySorted_inv in Hss as [_ Hl]. rewrite Forall_forall in Hl. specialize (Hl _ Hin). lia. }
  setoid_rewrite elem_of_cons. case_decide as Hv.
  - rewrite elem_of_app, list_elem_of_singleton. naive_solver.
  - naive_solver.
Qed.

Section MatchSpec.
Context (siphash : Z -> Z -> list byte -> Z).

Lemma map_wallet_scripts_elem f k0 k1 scripts v i :
  (v, i) ∈ map_wallet_scripts_keyed siphash f k0 k1 scripts <->
  exists s, scripts !! i = Some s /\ s <> [] /\ v = hash_to_range siphash k0 k1 (vf_range f) s.
Proof.
  unfold map_wallet_scripts_keyed. rewrite merge_sort_Permutation, list_elem_of_fmap. split.
  - intros ([j s] & [= -> ->] & Hin). apply list_elem_of_filter in Hin as [Hne Hin].
    apply elem_of_lookup_imap in Hin as (j' & s' & [= <- <-] & Hl). eauto.
  - intros (s & Hl & Hne & ->). exists (i, s). split; [done|]. apply list_elem_of_filter. split; [done|].
    apply elem_of_lookup_imap. eauto.
Qed.

(** What [match_keyed] returns for any validated filter: the ascending indices of the
    non-empty scripts whose hash is one of the values. *)
Lemma match_keyed_elem f k0 k1 scripts :
  StronglySorted Z.le (vf_values f) ->
  exists matches, match_keyed siphash f k0 k1 scripts = Ok matches /\ StronglySorted Nat.le matches
    /\ forall i, i ∈ matches <-> exists s, scripts !! i = Some s /\ s <> []
         /\ hash_to_range siphash k0 k1 (vf_range f) s ∈ vf_values f.
Proof.
  intros Hs. eexists. split; [reflexivity|]. split.
  { apply StronglySorted_merge_sort; [intros ? ? ?; lia|intros ? ?; lia]. }
  intros i. rewrite merge_sort_Permutation, match_loop_elem; [|done|apply StronglySorted_merge_sort; apply _].
  split.
  - intros [[]%not_elem_of_nil|(v & (s & Hl & Hne & ->)%map_wallet_scripts_elem & Hv)]. eauto.
  - intros (s & Hl & Hne & Hv). right. eexists. split; [|exact Hv]. apply map_wallet_scripts_elem. eauto.
Qed.
End MatchSpec.

(** ** Evaluation *)

Lemma validate_parameters_exact_witness :
  exists values, encodes 6 values [Byte.x02; Byte.x67; Byte.x4c] /\ values_ok 100 values.
Proof.
  destruct (validate_parameters_exact [Byte.x02; Byte.x67; Byte.x4c] ZCASH_MAINNET 100 6
    (MkValidatedFilter [Byte.x02; Byte.x67; Byte.x4c] [51; 153] 200)) as [H _].
  - lia.
  - vm_compute. reflexivity.
  - destruct H as (_ & _ & _ & values & He & Hv & _); [vm_compute; reflexivity|]. exists values. split; [exact He|exact Hv].
Defined.

(** Two values of a validated filter may be equal: the decoder accepts a zero difference
    after the first value. *)
Lemma validate_accepts_equal_values :
  validate_parameters [Byte.x02; Byte.x00; Byte.x00] ZCASH_MAINNET 100 6
  = Ok (MkValidatedFilter [Byte.x02; Byte.x00; Byte.x00] [0; 0] 200).
Proof. vm_compute. reflexivity. Qed.
