(* ===== verification/FilterBuild.v ===== *)
(** * Building filters, and the way of a script from publisher to wallet

    [zakura/pir-publisher/src/transparent/filter/build_filter.rs] and
    [zakura/pir-protocol/src/transparent/filter/script.rs]: the publisher's encoder, and
    the theorem that a wallet finds every script of the published set. *)

From stdpp Require Import sorting.
From S2P Require Import Prelude BitStream GcsFilter FilterValidate.

(** [profile.rs] *)
Definition FILTER_P : nat := 19.
Definition FILTER_M : Z := 784931.

Definition OP_RETURN : byte := Byte.x6a.

(** [ScriptBytes::is_op_return], [is_filter_element] *)
Definition is_op_return (script : list byte) : bool := bool_decide (head script = Some OP_RETURN).
Definition is_filter_element (script : list byte) : bool :=
  negb (bool_decide (script = [])) && negb (is_op_return script).

Section Build.
Context (siphash : Z -> Z -> list byte -> Z).

(** [encode_with]: the elements are collected in a [BTreeSet], then added one by one. *)
Definition encode_with (k0 k1 : Z) (scripts : list (list byte)) (m : Z) (p : nat) : vres (list byte) :=
  let deduplicated : gset (list byte) := list_to_set (filter (fun s => is_filter_element s = true) scripts) in
  let writer := foldl add_element (gcs_new [] k0 k1 m p) (elements deduplicated) in
  match finish siphash writer with
  | Ok (_, bytes) => Ok bytes
  | Err (inl e) => Err (inl e)
  | Err (inr _) => Err (inr Encoding)
  end.

(** [element_count] *)
Definition element_count (scripts : list (list byte)) : nat :=
  size (list_to_set (filter (fun s => is_filter_element s = true) scripts) : gset (list byte)).

(** [encode], [validate_filter]: the basic profile *)
Definition encode_basic (k0 k1 : Z) (scripts : list (list byte)) : vres (list byte) :=
  encode_with k0 k1 scripts FILTER_M FILTER_P.
Definition validate_filter (bytes : list byte) (limits : FilterLimits) : vres ValidatedFilter :=
  validate_parameters bytes limits FILTER_M FILTER_P.

(** ** Lemmas *)

(** The published set. *)
Definition published (scripts : list (list byte)) : gset (list byte) :=
  list_to_set (filter (fun s => is_filter_element s = true) scripts).

Lemma published_elem scripts s : s ∈ published scripts <-> s ∈ scripts /\ is_filter_element s = true.
Proof using Type. unfold published. rewrite elem_of_list_to_set, list_elem_of_filter. tauto. Qed.

Lemma add_elements l w :
  Forall (fun s => s <> []) l ->
  foldl add_element w l
  = MkGcsFilterWriter (gw_k0 w) (gw_k1 w) (gw_p w) (gw_writer w) (list_to_set l ∪ gw_elements w) (gw_m w).
Proof using Type.
  revert w. induction l as [|s l IH]; intros w Hl; cbn [foldl list_to_set].
  - rewrite (left_id_L ∅ (∪)). by destruct w.
  - apply Forall_cons in Hl as [Hs Hl]. rewrite IH by done. destruct s as [|b s]; [done|]. cbn. f_equal. set_solver.
Qed.

Lemma writer_elements k0 k1 m p scripts :
  foldl add_element (gcs_new [] k0 k1 m p) (elements (published scripts))
  = MkGcsFilterWriter k0 k1 p [] (published scripts) m.
Proof using Type.
  rewrite add_elements.
  - cbn. rewrite list_to_set_elements_L, (right_id_L ∅ (∪)). done.
  - apply Forall_forall. intros s (_ & Hs)%elem_of_elements%published_elem ->. done.
Qed.

Context (siphash_u64 : forall k0 k1 e, 0 <= siphash k0 k1 e < 2 ^ 64).

Lemma encode_with_spec k0 k1 scripts m p :
  0 < m -> (p <= 63)%nat -> Z.of_nat (element_count scripts) * m < 2 ^ 64 ->
  exists bytes, encode_with k0 k1 scripts m p = Ok bytes
    /\ encodes p (set_values siphash k0 k1 m (published scripts)) bytes.
Proof using siphash_u64.
  intros Hm Hp Hn. unfold encode_with. fold (published scripts). rewrite writer_elements.
  destruct (finish_spec siphash siphash_u64 (MkGcsFilterWriter k0 k1 p [] (published scripts) m))
    as (bytes & -> & He); cbn; [done|done|exact Hn|]. eauto.
Qed.

Lemma set_values_ok k0 k1 m s :
  0 < m -> Z.of_nat (size s) * m < 2 ^ 64 -> values_ok m (set_values siphash k0 k1 m s).
Proof using siphash_u64.
  intros Hm Hn. unfold values_ok. rewrite set_values_length.
  pose proof (set_values_bound siphash siphash_u64 k0 k1 m s Hm Hn) as Hb. split; [|split; [|done]].
  - constructor; [apply set_values_sorted|]. eapply Forall_impl; [exact Hb|]. cbn. lia.
  - eapply Forall_impl; [exact Hb|]. cbn. lia.
Qed.

(** What the publisher encodes, the wallet validates: for the parameters of a
    profile, encoding a set of scripts succeeds, and validating the bytes, if they are
    within the limits, gives the hashes of the published scripts in order. *)
Theorem encode_validate_roundtrip k0 k1 scripts limits m p :
  0 < m < 2 ^ 32 -> (p <= 31)%nat -> Z.of_nat (element_count scripts) < 2 ^ 32 ->
  exists bytes, encode_with k0 k1 scripts m p = Ok bytes
    /\ (Z.of_nat (length bytes) <= max_bytes limits -> Z.of_nat (length bytes) < 2 ^ 58 ->
        Z.of_nat (element_count scripts) <= max_elements limits ->
        validate_parameters bytes limits m p
        = Ok (MkValidatedFilter bytes (set_values siphash k0 k1 m (published scripts))
                (Z.of_nat (element_count scripts) * m))).
Proof using siphash_u64.
  intros Hm Hp Hn. assert (Z.of_nat (element_count scripts) * m < 2 ^ 64) as Hnm by nia.
  destruct (encode_with_spec k0 k1 scripts m p) as (bytes & Hb & He); [lia|lia|done|].
  exists bytes. split; [done|]. intros Hmax Hlen Hel.
  assert (length (set_values siphash k0 k1 m (published scripts)) = element_count scripts) as El
    by apply set_values_length.
  rewrite <- El. apply validate_complete; try done; [|by rewrite El].
  apply set_values_ok; [lia|exact Hnm].
Qed.

(** C35: No false negatives.  A wallet that validates a published filter and matches its
    scripts against it finds every one of its scripts that the publisher put into the
    filter; and a script it reports is in the set or has the hash of one that is. *)
Theorem match_no_false_negatives k0 k1 scripts wallet_scripts limits m p bytes f :
  0 < m < 2 ^ 32 -> (p <= 31)%nat -> Z.of_nat (element_count scripts) < 2 ^ 32 ->
  encode_with k0 k1 scripts m p = Ok bytes -> Z.of_nat (length bytes) < 2 ^ 58 ->
  validate_parameters bytes limits m p = Ok f ->
  exists matches, match_keyed siphash f k0 k1 wallet_scripts = Ok matches
    /\ (forall i s, wallet_scripts !! i = Some s -> s ∈ scripts -> is_filter_element s = true -> i ∈ matches)
    /\ (forall i, i ∈ matches -> exists s t, wallet_scripts !! i = Some s /\ t ∈ scripts
          /\ is_filter_element t = true
          /\ hash_to_range siphash k0 k1 (vf_range f) s = hash_to_range siphash k0 k1 (vf_range f) t).
Proof using siphash_u64.
  intros Hm Hp Hn Hb Hlen Hv. assert (Z.of_nat (element_count scripts) * m < 2 ^ 64) as Hnm by nia.
  destruct (encode_with_spec k0 k1 scripts m p) as (bytes' & Hb' & He); [lia|lia|done|].
  assert (bytes' = bytes) as -> by congruence.
  set (values := set_values siphash k0 k1 m (published scripts)) in *.
  assert (length values = element_count scripts) as El by apply set_values_length.
  assert (values_ok m values) as Hvok by (apply set_values_ok; [lia|exact Hnm]).
  destruct (validate_sound bytes limits m p f ltac:(lia) Hv) as (_ & _ & Hmax & vs & He' & Hok & Hel & _).
  rewrite (encodes_length p vs values bytes) in Hel by (done || (destruct Hok as (_ & _ & ?); nia) || lia).
  rewrite (validate_complete bytes limits m p values) in Hv by done. injection Hv as <-.
  cbn [vf_range]. rewrite El.
  destruct (match_keyed_elem siphash (MkValidatedFilter bytes values (Z.of_nat (element_count scripts) * m)) k0 k1 wallet_scripts)
    as (matches & -> & _ & Hmatch); [apply set_values_sorted|].
  exists matches. split; [done|]. cbn [vf_range vf_values] in Hmatch. split.
  - intros i s Hl Hin Hf. apply Hmatch. exists s. split; [done|]. split; [by intros ->|].
    apply set_values_elem. exists s. split; [by apply published_elem|done].
  - intros i (s & Hl & Hne & (t & (Ht & Hf)%published_elem & E)%set_values_elem)%Hmatch. eauto 10.
Qed.
End Build.

(** ** Evaluation *)

(** A hash into [u64] in the place of SipHash. *)
Definition toy_siphash (k0 k1 : Z) (e : list byte) : Z :=
  (k0 + 0x9E3779B97F4A7C15 * (k1 + le_combine e + 1)) mod 2 ^ 64.

Lemma toy_siphash_u64 k0 k1 e : 0 <= toy_siphash k0 k1 e < 2 ^ 64.
Proof. apply Z.mod_pos_bound. lia. Qed.

Definition sample_scripts : list (list byte) :=
  [[Byte.x76; Byte.xa9]; [Byte.x51]; [Byte.x6a]; [Byte.x76; Byte.xa9]].
Definition sample_filter : list byte := [Byte.x02; Byte.x67; Byte.x4c].

Lemma encode_validate_roundtrip_witness :
  exists bytes, encode_with toy_siphash 3 5 sample_scripts 100 6 = Ok bytes /\ bytes = sample_filter
    /\ validate_parameters bytes ZCASH_MAINNET 100 6 = Ok (MkValidatedFilter sample_filter [51; 153] 200).
Proof.
  destruct (encode_validate_roundtrip toy_siphash toy_siphash_u64 3 5 sample_scripts ZCASH_MAINNET 100 6)
    as (bytes & Hb & Hv); [lia|lia|vm_compute; reflexivity|].
  exists bytes. assert (bytes = sample_filter) as -> by (vm_compute in Hb; by injection Hb as <-).
  split; [exact Hb|]. split; [reflexivity|].
  refine (eq_trans (Hv _ _ _) _); [vm_compute; discriminate|vm_compute; reflexivity|vm_compute; discriminate|].
  vm_compute. reflexivity.
Defined.

Lemma match_no_false_negatives_witness :
  exists matches, match_keyed toy_siphash (MkValidatedFilter sample_filter [51; 153] 200) 3 5
      [[Byte.x00]; [Byte.x51]; []; [Byte.x02]; [Byte.x76; Byte.xa9]] = Ok matches
    /\ 1%nat ∈ matches /\ 4%nat ∈ matches.
Proof.
  destruct (match_no_false_negatives toy_siphash toy_siphash_u64 3 5 sample_scripts
    [[Byte.x00]; [Byte.x51]; []; [Byte.x02]; [Byte.x76; Byte.xa9]] ZCASH_MAINNET 100 6 sample_filter
    (MkValidatedFilter sample_filter [51; 153] 200)) as (matches & Hm & Hin & _).
  - lia.
  - lia.
  - vm_compute. reflexivity.
  - vm_compute. reflexivity.
  - vm_compute. reflexivity.
  - vm_compute. reflexivity.
  - exists matches. split; [exact Hm|]. split.
    + apply (Hin 1%nat [Byte.x51]); [reflexivity|right; left|reflexivity].
    + apply (Hin 4%nat [Byte.x76; Byte.xa9]); [reflexivity|left|reflexivity].
Defined.
