(* ===== verification/Zatoshi.v ===== *)
(** * Amounts of money

    The interface to [zcash_protocol::value::Zatoshis] and [zcash_protocol::PoolType] that
    the fee and proposal code uses.  An amount is the [Z] of its [u64]; arithmetic is
    checked and returns [None] outside of [0..=MAX_MONEY]. *)

From S2P Require Import Prelude WireReader.

(** [zcash_protocol::ShieldedPool] and [zcash_protocol::PoolType] *)
Inductive ShieldedPool : Type := SaplingPool | OrchardPool | IronwoodPool.
Inductive PoolType : Type := TransparentPool | Shielded (p : ShieldedPool).

#[global] Instance ShieldedPool_eq_dec : EqDecision ShieldedPool.
Proof. solve_decision. Defined.
#[global] Instance PoolType_eq_dec : EqDecision PoolType.
Proof. solve_decision. Defined.
#[global] Instance PoolType_countable : Countable PoolType.
Proof.
  refine (inj_countable'
    (fun p => match p with
              | TransparentPool => 0%nat | Shielded SaplingPool => 1%nat
              | Shielded OrchardPool => 2%nat | Shielded IronwoodPool => 3%nat end)
    (fun n => match n with
              | 0%nat => TransparentPool | 1%nat => Shielded SaplingPool
              | 2%nat => Shielded OrchardPool | _ => Shielded IronwoodPool end) _).
  by intros [|[]].
Defined.

(** [zcash_protocol::value::BalanceError] *)
Inductive BalanceError : Type := Overflow | Underflow.

(** The operators of [Zatoshis]: [a + b], [a - b], [a * b], [o + b] on an [Option],
    [sum::<Option<Zatoshis>>], and the quotient and remainder of [div_with_remainder]. *)
Class ZatoshisOps : Type := {
  zat_add : Z -> Z -> option Z;
  zat_sub : Z -> Z -> option Z;
  zat_mul : Z -> Z -> option Z;
  zat_add_opt : option Z -> Z -> option Z;
  zat_sum : list Z -> option Z;
  zat_div_with_remainder : Z -> Z -> Z * Z
}.

Section Amounts.
Context {ZP : ZcashProtocol}.

(** The values that the type can hold. *)
Definition is_zat (v : Z) : Prop := 0 <= v <= MAX_MONEY.

(** A value that is an amount, or none. *)
Definition zat_checked (v : Z) : option Z :=
  if (0 <=? v) && (v <=? MAX_MONEY) then Some v else None.

(** The sum of a list of values. *)
Definition zsum (l : list Z) : Z := foldr Z.add 0 l.

(** What the crate documents of these operators. *)
Class ZatoshisLaws {ZO : ZatoshisOps} : Prop := {
  max_money_pos : 0 < MAX_MONEY < 2 ^ 63;
  usize_max_u64 : 2 ^ 32 <= usize_max < 2 ^ 64;
  zat_add_spec : forall a b, is_zat a -> is_zat b -> zat_add a b = zat_checked (a + b);
  zat_sub_spec : forall a b, is_zat a -> is_zat b -> zat_sub a b = zat_checked (a - b);
  zat_mul_spec : forall a n, is_zat a -> 0 <= n -> zat_mul a n = zat_checked (a * n);
  zat_add_opt_spec : forall o b, zat_add_opt o b = a ← o; zat_add a b;
  zat_sum_spec : forall l, Forall is_zat l -> zat_sum l = zat_checked (zsum l);
  zat_div_spec : forall a n, is_zat a -> 0 < n ->
    zat_div_with_remainder a n = (a / n, a mod n)
}.

Lemma zat_checked_Some v w : zat_checked v = Some w <-> w = v /\ is_zat v.
Proof. unfold zat_checked, is_zat. zcases; cbn; naive_solver lia. Qed.

Lemma zat_checked_None v : zat_checked v = None <-> ~ is_zat v.
Proof. unfold zat_checked, is_zat. zcases; cbn; naive_solver lia. Qed.

Lemma zsum_app l k : zsum (l ++ k) = zsum l + zsum k.
Proof. unfold zsum. induction l as [|a l IH]; cbn in *; lia. Qed.

Lemma zsum_nonneg l : Forall is_zat l -> 0 <= zsum l.
Proof. unfold zsum, is_zat. induction 1; cbn in *; lia. Qed.

Lemma zsum_repeat n v : zsum (replicate n v) = Z.of_nat n * v.
Proof. unfold zsum. induction n as [|n IH]; cbn -[Z.mul Z.of_nat] in *; lia. Qed.

#[global] Instance zsum_Permutation : Proper ((≡ₚ) ==> eq) zsum.
Proof. unfold zsum. induction 1; cbn in *; lia. Qed.

Context {ZO : ZatoshisOps} {ZL : ZatoshisLaws}.

Lemma is_zat_0 : is_zat 0.
Proof using ZL. pose proof max_money_pos. unfold is_zat. lia. Qed.

Lemma zat_add_Some a b c : is_zat a -> is_zat b -> zat_add a b = Some c <-> c = a + b /\ is_zat c.
Proof using ZL. intros. rewrite zat_add_spec, zat_checked_Some by done. naive_solver. Qed.

Lemma zat_sub_Some a b c : is_zat a -> is_zat b -> zat_sub a b = Some c <-> c = a - b /\ is_zat c.
Proof using ZL. intros. rewrite zat_sub_spec, zat_checked_Some by done. naive_solver. Qed.

Lemma zat_sum_Some l c : Forall is_zat l -> zat_sum l = Some c <-> c = zsum l /\ is_zat c.
Proof using ZL. intros. rewrite zat_sum_spec, zat_checked_Some by done. naive_solver. Qed.

Lemma zat_sub_None a b : is_zat a -> is_zat b -> zat_sub a b = None <-> a < b.
Proof using ZL. intros. rewrite zat_sub_spec, zat_checked_None by done. unfold is_zat in *. lia. Qed.

(** The sum of three optional additions, as the code chains them. *)
Lemma zat_add3_Some a b c d v :
  is_zat a -> is_zat b -> is_zat c -> is_zat d ->
  zat_add_opt (zat_add_opt (zat_add a b) c) d = Some v <-> v = a + b + c + d /\ is_zat v.
Proof using ZL.
  intros Ha Hb Hc Hd. rewrite !zat_add_opt_spec, bind_Some. setoid_rewrite bind_Some. split.
  - intros (y & (x & Hx & Hy) & Hv).
    apply zat_add_Some in Hx as [-> Hx]; [|done..].
    apply zat_add_Some in Hy as [-> Hy]; [|done..].
    by apply zat_add_Some in Hv.
  - intros [-> Hv]. assert (is_zat (a + b) /\ is_zat (a + b + c)) as [H1 H2].
    { unfold is_zat in *. lia. }
    exists (a + b + c). rewrite zat_add_Some by done. split; [|done].
    exists (a + b). by rewrite !zat_add_Some.
Qed.
End Amounts.

(** ** An instance *)

Definition sample_zat_checked (v : Z) : option Z := in_range 0 sample_max_money v.

Definition sample_zatoshis : ZatoshisOps := {|
  zat_add a b := sample_zat_checked (a + b);
  zat_sub a b := sample_zat_checked (a - b);
  zat_mul a n := sample_zat_checked (a * n);
  zat_add_opt o b := a ← o; sample_zat_checked (a + b);
  zat_sum l := sample_zat_checked (zsum l);
  zat_div_with_remainder a n := (a / n, a mod n)
|}.

Lemma sample_zatoshis_laws : @ZatoshisLaws sample_protocol sample_zatoshis.
Proof. split; try done; cbn; unfold sample_max_money; lia. Qed.
