(* ===== verification/Fees.v ===== *)
(** * Change values, balances and policies ([zcash_client_backend/src/fees.rs])

    The types in which change is proposed, the policies that govern dust and the splitting
    of change, and the metadata of an account ([data_api.rs]) that the splitting reads. *)

From S2P Require Import Prelude WireReader Zatoshi.

(** [std]'s checked and saturating subtraction of unsigned integers. *)
Definition checked_sub (a b : Z) : option Z := if b <=? a then Some (a - b) else None.
Definition saturating_sub (a b : Z) : Z := Z.max 0 (a - b).

(** The length of a slice. *)
Definition zlen {A} (l : list A) : Z := Z.of_nat (length l).

(** [iter.reduce(f)] for a function that can panic. *)
Definition reduce {A} (f : A -> A -> exec A) (l : list A) : exec (option A) :=
  match l with
  | [] => Ok None
  | a :: l => Some <$> foldM f a l
  end.

(** ** Change values *)

(** [ChangeValueInner]; [M] is the type of memos. *)
Inductive ChangeValue (M : Type) : Type :=
| CVShielded (protocol : ShieldedPool) (value : Z) (memo : option M)
| CVEphemeralTransparent (value : Z)
| CVTransparent (value : Z).
Arguments CVShielded {M} protocol value memo.
Arguments CVEphemeralTransparent {M} value.
Arguments CVTransparent {M} value.

Section ChangeValues.
Context {M : Type}.

Definition ephemeral_transparent (value : Z) : ChangeValue M := CVEphemeralTransparent value.
Definition cv_transparent (value : Z) : ChangeValue M := CVTransparent value.
Definition cv_shielded (protocol : ShieldedPool) (value : Z) (memo : option M) : ChangeValue M :=
  CVShielded protocol value memo.
Definition cv_sapling (value : Z) (memo : option M) : ChangeValue M :=
  cv_shielded SaplingPool value memo.
Definition cv_orchard (value : Z) (memo : option M) : ChangeValue M :=
  cv_shielded OrchardPool value memo.
Definition cv_ironwood (value : Z) (memo : option M) : ChangeValue M :=
  cv_shielded IronwoodPool value memo.

Definition output_pool (c : ChangeValue M) : PoolType :=
  match c with
  | CVShielded protocol _ _ => Shielded protocol
  | CVEphemeralTransparent _ => TransparentPool
  | CVTransparent _ => TransparentPool
  end.

Definition cv_value (c : ChangeValue M) : Z :=
  match c with
  | CVShielded _ value _ => value
  | CVEphemeralTransparent value => value
  | CVTransparent value => value
  end.

Definition cv_memo (c : ChangeValue M) : option M :=
  match c with
  | CVShielded _ _ memo => memo
  | CVEphemeralTransparent _ => None
  | CVTransparent _ => None
  end.

Definition is_ephemeral (c : ChangeValue M) : bool :=
  match c with
  | CVShielded _ _ _ => false
  | CVEphemeralTransparent _ => true
  | CVTransparent _ => false
  end.
End ChangeValues.

(** ** Balances *)

Record DummyOutputCounts : Type := MkDummyOutputCounts {
  dummy_sapling : Z; dummy_orchard : Z; dummy_ironwood : Z }.

Record TransactionBalance (M : Type) : Type := MkTransactionBalance {
  proposed_change : list (ChangeValue M);
  fee_required_of : Z;
  total : Z;
  dummy_outputs : option DummyOutputCounts }.
Arguments MkTransactionBalance {M} _ _ _ _.
Arguments proposed_change {M} _.
Arguments fee_required_of {M} _.
Arguments total {M} _.
Arguments dummy_outputs {M} _.

Inductive TransparentChangePolicy : Type := ShieldChange | TransparentChangeAllowed.

Inductive DustAction : Type := Reject | AllowDustChange | AddDustToFee.

Record DustOutputPolicy : Type := MkDustOutputPolicy {
  dust_action : DustAction; dust_threshold : option Z }.

Definition dust_output_policy_default : DustOutputPolicy := MkDustOutputPolicy Reject None.

(** [EphemeralBalance] *)
Inductive EphemeralBalance : Type := EphemeralInput (v : Z) | EphemeralOutput (v : Z).

Definition is_input (b : EphemeralBalance) : bool :=
  match b with EphemeralInput _ => true | EphemeralOutput _ => false end.
Definition is_output (b : EphemeralBalance) : bool :=
  match b with EphemeralInput _ => false | EphemeralOutput _ => true end.
Definition ephemeral_input_amount (b : EphemeralBalance) : option Z :=
  match b with EphemeralInput v => Some v | EphemeralOutput _ => None end.
Definition ephemeral_output_amount (b : EphemeralBalance) : option Z :=
  match b with EphemeralInput _ => None | EphemeralOutput v => Some v end.

#[global] Instance TransparentChangePolicy_eq_dec : EqDecision TransparentChangePolicy.
Proof. solve_decision. Defined.
#[global] Instance DustAction_eq_dec : EqDecision DustAction.
Proof. solve_decision. Defined.
#[global] Instance ChangeValue_eq_dec {M} `{!EqDecision M} : EqDecision (ChangeValue M).
Proof. solve_decision. Defined.

Section Balance.
Context {ZP : ZcashProtocol} {ZO : ZatoshisOps} {M : Type}.

(** [TransactionBalance::new] *)
Definition balance_new (change : list (ChangeValue M)) (fee : Z)
    : res BalanceError (TransactionBalance M) :=
  total ← ok_or (zat_sum (map cv_value change ++ [fee])) Overflow;
  Ok (MkTransactionBalance change fee total None).

(** [TransactionBalance::with_dummy_outputs] *)
Definition with_dummy_outputs (b : TransactionBalance M) (d : DummyOutputCounts)
    : TransactionBalance M :=
  MkTransactionBalance (proposed_change b) (fee_required_of b) (total b) (Some d).
End Balance.

(** ** The metadata of an account ([data_api.rs]) *)

Record PoolMeta : Type := MkPoolMeta { note_count : Z; pool_value : Z }.

Record AccountMeta : Type := MkAccountMeta {
  meta_sapling : option PoolMeta; meta_orchard : option PoolMeta;
  meta_ironwood : option PoolMeta }.

Section Meta.
Context {ZP : ZcashProtocol} {ZO : ZatoshisOps}.

(** [a + b] on [usize], in a build that checks for overflow. *)
Definition usize_add (a b : Z) : exec Z :=
  if a + b <=? usize_max then Ok (a + b) else Err AssertFailed.

(** The pools for which there is metadata. *)
Definition known_pools (m : AccountMeta) : list PoolMeta :=
  omap id [meta_sapling m; meta_orchard m; meta_ironwood m].

Definition total_note_count (m : AccountMeta) : exec (option Z) :=
  reduce usize_add (map note_count (known_pools m)).

Definition total_value (m : AccountMeta) : exec (option Z) :=
  reduce (fun a b => expect (zat_add a b)) (map pool_value (known_pools m)).

(** [AccountMeta::note_count] *)
Definition meta_note_count (m : AccountMeta) (protocol : ShieldedPool) : option Z :=
  match protocol with
  | SaplingPool => note_count <$> meta_sapling m
  | OrchardPool => note_count <$> meta_orchard m
  | IronwoodPool => note_count <$> meta_ironwood m
  end.

(** ** Splitting change *)

(** [SplitPolicy]; the target is a [NonZeroUsize]. *)
Record SplitPolicy : Type := MkSplitPolicy {
  target_output_count : Z; min_split_output_value : option Z }.

Definition MIN_NOTE_VALUE : Z := 500000.

Definition with_min_output_value (target min_value : Z) : SplitPolicy :=
  MkSplitPolicy target (Some min_value).
Definition single_output : SplitPolicy := MkSplitPolicy 1 None.

(** [to_nonzero_u64] *)
Definition to_nonzero_u64 (value : Z) : exec Z :=
  v ← expect (if value <? 2 ^ 64 then Some value else None);
  expect (if v =? 0 then None else Some v).

Definition saturating_mul (a b : Z) : Z := Z.min usize_max (a * b).

(** The [loop] of [split_count], at the count [n + 1]. *)
Fixpoint split_loop (n : nat) (min_value total_change : Z) : exec Z :=
  d ← to_nonzero_u64 (Z.of_nat (S n));
  if min_value <=? fst (zat_div_with_remainder total_change d) then Ok (Z.of_nat (S n))
  else match n with
       | S m => split_loop m min_value total_change
       | O => Ok 1
       end.

(** [SplitPolicy::split_count] *)
Definition split_count (p : SplitPolicy) (existing_notes existing_notes_total : option Z)
    (total_change : Z) : exec Z :=
  let start := Z.max 1 (saturating_sub (target_output_count p) (default usize_max existing_notes)) in
  min_value ← match min_split_output_value p with
    | Some v => Ok (Some v)
    | None =>
        match zat_add_opt existing_notes_total total_change with
        | Some t =>
            d ← to_nonzero_u64 (saturating_mul (target_output_count p) 4);
            Ok (Some (fst (zat_div_with_remainder t d)))
        | None => Ok None
        end
    end;
  match min_value with
  | Some v => split_loop (Z.to_nat (start - 1)) v total_change
  | None => Ok 1
  end.
End Meta.

(** ** The split count is the largest admissible one *)

(** The count from which the search starts. *)
Definition split_start {ZP : ZcashProtocol} (p : SplitPolicy) (existing_notes : option Z) : Z :=
  Z.max 1 (target_output_count p - default usize_max existing_notes).

(** The smallest value an output may have: the configured one, or a quarter of the average
    note after the transaction when the value of the existing notes is known. *)
Definition split_floor {ZP : ZcashProtocol} (p : SplitPolicy) (existing_total : option Z)
    (total_change : Z) : option Z :=
  match min_split_output_value p with
  | Some v => Some v
  | None =>
      t ← existing_total; s ← zat_checked (t + total_change);
      Some (s / Z.min usize_max (target_output_count p * 4))
  end.

(** The policies that the type allows. *)
Definition split_policy_ok {ZP : ZcashProtocol} (p : SplitPolicy) : Prop :=
  1 <= target_output_count p <= usize_max /\
  match min_split_output_value p with Some v => is_zat v | None => True end.

(** [n] is the largest count up to [start] at which every output reaches [floor]; one
    output is made when there is no such count. *)
Definition largest_split (start floor change n : Z) : Prop :=
  (n = 1 \/ floor <= change / n) /\ forall k, n < k <= start -> change / k < floor.

Section SplitProofs.
Context {ZP : ZcashProtocol} {ZO : ZatoshisOps} {ZL : ZatoshisLaws}.

Lemma to_nonzero_u64_Ok v : 0 < v < 2 ^ 64 -> to_nonzero_u64 v = Ok v.
Proof. intros. unfold to_nonzero_u64. zcases; cbn; zcases; done. Qed.

Lemma split_loop_spec n floor change :
  is_zat change -> Z.of_nat (S n) < 2 ^ 64 ->
  exists c, split_loop n floor change = Ok c /\ 1 <= c <= Z.of_nat (S n) /\
    largest_split (Z.of_nat (S n)) floor change c.
Proof using ZL.
  intros Hc. induction n as [|n IH]; intros Hn; cbn -[Z.of_nat Z.div];
    rewrite to_nonzero_u64_Ok by lia; cbn -[Z.of_nat Z.div];
    rewrite zat_div_spec by (done || lia); cbn -[Z.of_nat Z.div].
  - destruct (Z.leb_spec floor (change / Z.of_nat 1)); exists 1;
      (split; [done|]); split; [lia| |lia|]; (split; [auto | lia]).
  - destruct (Z.leb_spec floor (change / Z.of_nat (S (S n)))).
    + eexists; split; [done|]. split; [lia|]. split; [by right | lia].
    + destruct IH as (c & -> & Hb & H1 & H2); [lia|]. exists c. split; [done|].
      split; [lia|]. split; [done|]. intros k Hk.
      destruct (decide (k = Z.of_nat (S (S n)))) as [->|]; [done|]. apply H2. lia.
Qed.

Lemma saturating_mul_4 t : 1 <= t <= usize_max ->
  0 < saturating_mul t 4 < 2 ^ 64 /\ saturating_mul t 4 = Z.min usize_max (t * 4).
Proof using ZL. pose proof usize_max_u64. unfold saturating_mul. lia. Qed.

Lemma zat_add_opt_checked o b :
  is_zat b -> (forall a, o = Some a -> is_zat a) ->
  zat_add_opt o b = (a ← o; zat_checked (a + b)).
Proof using ZL.
  intros Hb Ho. rewrite zat_add_opt_spec. destruct o as [a|]; [|done]. cbn.
  by rewrite zat_add_spec by auto.
Qed.

Lemma split_count_ok p en et change :
  split_policy_ok p -> is_zat change ->
  (forall n, en = Some n -> 0 <= n) -> (forall v, et = Some v -> is_zat v) ->
  exists c, split_count p en et change = Ok c /\ 1 <= c <= split_start p en /\
    match split_floor p et change with
    | Some floor => largest_split (split_start p en) floor change c
    | None => c = 1
    end.
Proof using ZL.
  intros [Ht Hm] Hc Hen Het. pose proof usize_max_u64.
  assert (0 <= default usize_max en) by (destruct en; cbn; [auto | lia]).
  assert (1 <= split_start p en <= usize_max) as Hs by (unfold split_start; lia).
  assert (Z.max 1 (saturating_sub (target_output_count p) (default usize_max en))
            = split_start p en) as Hst by (unfold saturating_sub, split_start; lia).
  assert (exists m, m = split_floor p et change /\
    split_count p en et change =
      match m with
      | Some v => split_loop (Z.to_nat (split_start p en - 1)) v change
      | None => Ok 1
      end) as (m & <- & ->).
  { eexists; split; [done|]. unfold split_count. rewrite Hst. unfold split_floor.
    destruct (min_split_output_value p) as [v|]; [done|].
    rewrite zat_add_opt_checked by done. destruct et as [t|]; [|done]. cbn -[Z.mul].
    destruct (zat_checked (t + change)) as [s|] eqn:Es; [|done]. cbn -[Z.mul].
    destruct (saturating_mul_4 (target_output_count p)) as [Hq Hq']; [lia|].
    rewrite to_nonzero_u64_Ok by done. cbn -[Z.mul].
    apply zat_checked_Some in Es as [-> Hz].
    rewrite zat_div_spec by (done || lia). cbn -[Z.mul]. by rewrite Hq'. }
  destruct m as [v|]; [|exists 1; split; [done|]; split; [lia|done]].
  destruct (split_loop_spec (Z.to_nat (split_start p en - 1)) v change) as (c & Hl & Hb & Hx);
    [done|lia|]. exists c. split; [done|].
  replace (Z.of_nat (S (Z.to_nat (split_start p en - 1)))) with (split_start p en) in * by lia.
  done.
Qed.

(** [SplitPolicy::split_count] terminates without panicking, with the largest number of
    outputs, up to what the wallet is short of, at which every output reaches the minimum
    value of the policy (a quarter of the average note by default); it is at least one. *)
Theorem split_count_largest p en et change :
  split_policy_ok p -> is_zat change ->
  (forall n, en = Some n -> 0 <= n) -> (forall v, et = Some v -> is_zat v) ->
  exists c, split_count p en et change = Ok c /\ 1 <= c <= split_start p en /\
    match split_floor p et change with
    | Some floor => largest_split (split_start p en) floor change c
    | None => c = 1
    end.
Proof using ZL. apply split_count_ok. Qed.
End SplitProofs.
