(* ===== verification/ChangeBalance.v ===== *)
(** * Computing change and fees ([zcash_client_backend/src/fees/common.rs])

    [single_pool_output_balance] decides the change outputs and the fee of a transaction,
    and [check_for_uneconomic_inputs] rejects inputs that cost more than they are worth.
    The definitions follow the build with the features [orchard] and [transparent-inputs].  A sum
    of counts that does not fit [usize] is a panic ([usize_add]), as in a build that checks for
    overflow. *)

From S2P Require Import Prelude WireReader Zatoshi Fees.

(** [zcash_primitives::transaction::builder::BundlePadding] *)
Record BundlePadding : Type := MkBundlePadding {
  bundle_required : bool; pad_to_minimum : option Z }.

(** The items of other crates that the code uses: the types of identifiers, the fee rule,
    the bundle types of sapling-crypto and orchard, and the constants of ZIP 317 and
    ZIP 318. *)
Class FeeEnv : Type := {
  OutPoint : Type; NoteRefT : Type; MemoBytes : Type;
  InputSize : Type;
  STANDARD_P2PKH : InputSize;
  P2PKH_STANDARD_OUTPUT_SIZE : Z;
  MINIMUM_FEE : Z;
  SaplingBundleType : Type;
  num_spends : SaplingBundleType -> Z -> res string Z;
  num_outputs : SaplingBundleType -> Z -> Z -> res string Z;
  OrchardBundleType : Type; OrchardFlags : Type; BundleVersion : Type;
  default_flags : BundleVersion -> OrchardFlags;
  num_actions : OrchardBundleType -> OrchardFlags -> Z -> Z -> res string Z;
  padding_bundle_type : BundlePadding -> OrchardBundleType;
  PADDING_DEFAULT : BundlePadding;
  PADDING_UNPADDED : BundlePadding;
  Params : Type;
  is_nu6_3_active : Params -> Z -> bool;
  FeeRuleT : Type; FeeError : Type; StrategyErr : Type;
  fee_required : FeeRuleT -> Params -> Z -> list InputSize -> list Z -> Z -> Z -> Z -> Z ->
    res FeeError Z;
  from_fee_error : FeeError -> StrategyErr;
  from_balance_error : BalanceError -> StrategyErr;
  (* zip318::PoolMigrationConstants of the parameters in force for the wallet *)
  PoolMigrationParams : Type;
  is_canonical_denomination : PoolMigrationParams -> Z -> bool;
  anchor_is_boundary : PoolMigrationParams -> Z -> bool
}.

Section Change.
Context {ZP : ZcashProtocol} {ZO : ZatoshisOps} {FE : FeeEnv}.

(** [ChangeError] *)
Inductive ChangeError : Type :=
| InsufficientFunds (available required : Z)
| DustInputs (transparent : list OutPoint) (sapling orchard ironwood : list NoteRefT)
| StrategyError (e : StrategyErr)
| BundleError (e : string).

(** ** Views of a transaction under construction *)

(** [transparent::InputView] and [transparent::OutputView] *)
Record TInputView : Type := MkTInputView {
  ti_outpoint : OutPoint; ti_value : Z; ti_size : InputSize }.
Record TOutputView : Type := MkTOutputView { to_value : Z; to_size : Z }.

(** [sapling_fees::InputView] and [sapling_fees::BundleView] *)
Record SInputView : Type := MkSInputView { si_note_id : NoteRefT; si_value : Z }.
Record SBundleView : Type := MkSBundleView {
  sv_bundle_type : SaplingBundleType; sv_inputs : list SInputView; sv_outputs : list Z }.

(** [orchard_fees::InputView] and [orchard_fees::BundleView] *)
Record OInputView : Type := MkOInputView {
  oi_note_id : NoteRefT; oi_value : Z; is_one_time : bool }.
Record OBundleView : Type := MkOBundleView {
  ov_version : BundleVersion; ov_inputs : list OInputView; ov_outputs : list Z }.

(** The arguments of [single_pool_output_balance] that describe the transaction. *)
Record ChangeRequest : Type := MkChangeRequest {
  target_height : Z;
  transparent_inputs : list TInputView;
  transparent_outputs : list TOutputView;
  sapling : SBundleView;
  orchard : OBundleView;
  ironwood : OBundleView;
  orchard_padding : BundlePadding;
  anchor_height : Z;
  zip318 : PoolMigrationParams;
  change_memo : option MemoBytes;
  ephemeral_balance : option EphemeralBalance }.

(** [orchard_fees::transactional_action_count] *)
Definition transactional_action_count (bt : OrchardBundleType) (v : BundleVersion)
    (spends outputs : Z) : res string Z :=
  num_actions bt (default_flags v) spends outputs.

(** ** Net flows *)

Record NetFlows : Type := MkNetFlows {
  t_in : Z; t_out : Z; sapling_in : Z; sapling_out : Z;
  orchard_in : Z; orchard_out : Z; ironwood_in : Z; ironwood_out : Z }.

Definition total_in (f : NetFlows) : res BalanceError Z :=
  ok_or (zat_add_opt (zat_add_opt (zat_add (t_in f) (sapling_in f)) (orchard_in f))
           (ironwood_in f)) Overflow.

Definition total_out (f : NetFlows) : res BalanceError Z :=
  ok_or (zat_add_opt (zat_add_opt (zat_add (t_out f) (sapling_out f)) (orchard_out f))
           (ironwood_out f)) Overflow.

Definition is_positive (v : Z) : bool := 0 <? v.

Definition is_transparent (f : NetFlows) : bool :=
  negb (is_positive (sapling_in f) || is_positive (sapling_out f)
        || is_positive (orchard_in f) || is_positive (orchard_out f)
        || is_positive (ironwood_in f) || is_positive (ironwood_out f)).

Definition balance_failed (e : BalanceError) : ChangeError := StrategyError (from_balance_error e).
Definition overflow : ChangeError := balance_failed Overflow.
Definition underflow : ChangeError := balance_failed Underflow.

(** [sum::<Option<_>>().ok_or_else(overflow)] *)
Definition sum_or_overflow (l : list Z) : res ChangeError Z := ok_or (zat_sum l) overflow.

Definition calculate_net_flows (r : ChangeRequest) : res ChangeError NetFlows :=
  t_in ← sum_or_overflow (map ti_value (transparent_inputs r)
            ++ option_list (ephemeral_balance r ≫= ephemeral_input_amount));
  t_out ← sum_or_overflow (map to_value (transparent_outputs r)
            ++ option_list (ephemeral_balance r ≫= ephemeral_output_amount));
  sapling_in ← sum_or_overflow (map si_value (sv_inputs (sapling r)));
  sapling_out ← sum_or_overflow (sv_outputs (sapling r));
  orchard_in ← sum_or_overflow (map oi_value (ov_inputs (orchard r)));
  orchard_out ← sum_or_overflow (ov_outputs (orchard r));
  ironwood_in ← sum_or_overflow (map oi_value (ov_inputs (ironwood r)));
  ironwood_out ← sum_or_overflow (ov_outputs (ironwood r));
  Ok (MkNetFlows t_in t_out sapling_in sapling_out orchard_in orchard_out
        ironwood_in ironwood_out).

Definition select_change_pool (f : NetFlows) (fallback : ShieldedPool) (ironwood_active : bool)
    (max_change_value : Z) : ShieldedPool :=
  let preferred :=
    if is_positive (orchard_in f) || is_positive (orchard_out f) then OrchardPool
    else if is_positive (ironwood_in f) || is_positive (ironwood_out f) then IronwoodPool
    else if is_positive (sapling_in f) || is_positive (sapling_out f) then SaplingPool
    else fallback in
  if ironwood_active && bool_decide (preferred = OrchardPool)
     && (negb (is_positive (orchard_in f)) || (orchard_in f <=? max_change_value))
  then IronwoodPool else preferred.

(** ** Counts of outputs by pool

    [check_for_uneconomic_inputs] also counts inputs with this type. *)

Record OutputManifest : Type := MkManifest {
  m_transparent : Z; m_sapling : Z; m_orchard : Z; m_ironwood : Z }.

Definition manifest_zero : OutputManifest := MkManifest 0 0 0 0.

Definition total_shielded (m : OutputManifest) : exec Z :=
  so ← usize_add (m_sapling m) (m_orchard m); usize_add so (m_ironwood m).

Definition for_pool (pool : ShieldedPool) (count : Z) : OutputManifest :=
  MkManifest 0
    (if bool_decide (pool = SaplingPool) then count else 0)
    (if bool_decide (pool = OrchardPool) then count else 0)
    (if bool_decide (pool = IronwoodPool) then count else 0).

(** ** Uneconomic inputs *)

(** The identifiers of the inputs worth at most the marginal fee. *)
Definition dust_of {A I} (value : A -> Z) (id : A -> I) (marginal_fee : Z) (l : list A) : list I :=
  omap (fun i => if value i <=? marginal_fee then Some (id i) else None) l.

(** [sole.is_canonical_denomination()] for a slice with one output. *)
Definition sole_output_canonical (z : PoolMigrationParams) (outputs : list Z) : bool :=
  match outputs with [output] => is_canonical_denomination z output | _ => false end.

(** [hypothetical_actions]: the logical actions when the inputs [req] and [extra] are spent. *)
Definition hypothetical_actions (r : ChangeRequest) (t_outputs_len : Z) (change : OutputManifest)
    (req extra : OutputManifest) : run ChangeError Z :=
  s_inputs ← panics (usize_add (m_sapling req) (m_sapling extra));
  s_spend_count ← fails (map_err BundleError (num_spends (sv_bundle_type (sapling r)) s_inputs));
  s_outputs ← panics (usize_add (zlen (sv_outputs (sapling r))) (m_sapling change));
  s_output_count ← fails (map_err BundleError
    (num_outputs (sv_bundle_type (sapling r)) s_inputs s_outputs));
  o_inputs ← panics (usize_add (m_orchard req) (m_orchard extra));
  o_outputs ← panics (usize_add (zlen (ov_outputs (orchard r))) (m_orchard change));
  o_action_count ← fails (map_err BundleError
    (transactional_action_count (padding_bundle_type (orchard_padding r)) (ov_version (orchard r))
       o_inputs o_outputs));
  i_inputs ← panics (usize_add (m_ironwood req) (m_ironwood extra));
  let canonical :=
    (o_inputs =? 1) && (i_inputs =? 0) && (m_ironwood change =? 0)
    && sole_output_canonical (zip318 r) (ov_outputs (ironwood r))
    && anchor_is_boundary (zip318 r) (anchor_height r) in
  i_outputs ← panics (usize_add (zlen (ov_outputs (ironwood r))) (m_ironwood change));
  i_action_count ← fails (map_err BundleError
    (transactional_action_count
       (padding_bundle_type (if canonical then PADDING_UNPADDED else PADDING_DEFAULT))
       (ov_version (ironwood r)) i_inputs i_outputs));
  t_inputs ← panics (usize_add (m_transparent req) (m_transparent extra));
  t_outputs ← panics (usize_add t_outputs_len (m_transparent change));
  ts ← panics (usize_add (Z.max t_inputs t_outputs) (Z.max s_spend_count s_output_count));
  tso ← panics (usize_add ts o_action_count);
  panics (usize_add tso i_action_count).

(** The sum of two manifests, by which the code adds counts pool by pool. *)
Definition add_manifests (a b : OutputManifest) : exec OutputManifest :=
  t ← usize_add (m_transparent a) (m_transparent b);
  s ← usize_add (m_sapling a) (m_sapling b);
  o ← usize_add (m_orchard a) (m_orchard b);
  i ← usize_add (m_ironwood a) (m_ironwood b);
  Ok (MkManifest t s o i).

(** The dust inputs of a pool that are allowed regardless of padding or grace. *)
Definition pool_allowed (dust outputs change non_dust : Z) : exec Z :=
  n ← usize_add outputs change; Ok (Z.min dust (saturating_sub n non_dust)).

(** The definitely allowed dust of every pool. *)
Definition base_allowed (r : ChangeRequest) (t_outputs_len : Z) (dust non_dust : OutputManifest)
    (change : OutputManifest) : exec OutputManifest :=
  t ← pool_allowed (m_transparent dust) t_outputs_len (m_transparent change) (m_transparent non_dust);
  s ← pool_allowed (m_sapling dust) (zlen (sv_outputs (sapling r))) (m_sapling change)
        (m_sapling non_dust);
  o ← pool_allowed (m_orchard dust) (zlen (ov_outputs (orchard r))) (m_orchard change)
        (m_orchard non_dust);
  i ← pool_allowed (m_ironwood dust) (zlen (ov_outputs (ironwood r))) (m_ironwood change)
        (m_ironwood non_dust);
  Ok (MkManifest t s o i).

(** The pools in the order in which a grace input is tried. *)
Definition grace_candidates : list ((OutputManifest -> Z) * OutputManifest) :=
  [(m_transparent, MkManifest 1 0 0 0); (m_sapling, MkManifest 0 1 0 0);
   (m_orchard, MkManifest 0 0 1 0); (m_ironwood, MkManifest 0 0 0 1)].

(** The [else if] chain that looks for one input that is free. *)
Fixpoint try_grace (actions : OutputManifest -> run ChangeError Z) (dust allowed : OutputManifest)
    (baseline : Z) (l : list ((OutputManifest -> Z) * OutputManifest)) : run ChangeError OutputManifest :=
  match l with
  | [] => Ok (MkManifest 0 0 0 0)
  | (pool, one) :: l =>
      if pool allowed <? pool dust then
        n ← actions one;
        if n <=? baseline then Ok one else try_grace actions dust allowed baseline l
      else try_grace actions dust allowed baseline l
  end.

(** [allowed_dust] *)
Definition allowed_dust (r : ChangeRequest) (grace_actions t_outputs_len : Z)
    (dust non_dust : OutputManifest) (change : OutputManifest) : run ChangeError OutputManifest :=
  allowed ← panics (base_allowed r t_outputs_len dust non_dust change);
  req ← panics (add_manifests non_dust allowed);
  let actions extra := hypothetical_actions r t_outputs_len change req extra in
  baseline ← actions (MkManifest 0 0 0 0);
  extra ← (if grace_actions <=? baseline then Ok (MkManifest 0 0 0 0)
           else try_grace actions dust allowed baseline grace_candidates);
  panics (add_manifests allowed extra).

(** The pointwise minimum, by which the manifests are reduced. *)
Definition min_counts (l r : OutputManifest) : OutputManifest :=
  MkManifest (Z.min (m_transparent l) (m_transparent r)) (Z.min (m_sapling l) (m_sapling r))
    (Z.min (m_orchard l) (m_orchard r)) (Z.min (m_ironwood l) (m_ironwood r)).

(** [vec.split_off(at)]: the tail of the vector *)
Definition split_off {A} (l : list A) (at_ : Z) : exec (list A) :=
  if at_ <=? zlen l then Ok (drop (Z.to_nat at_) l) else Err AssertFailed.

(** [is_some_and(|b| b.is_input())] as a [usize] *)
Definition ephemeral_inputs (r : ChangeRequest) : Z :=
  match ephemeral_balance r with Some b => Z.b2z (is_input b) | None => 0 end.
Definition ephemeral_outputs (r : ChangeRequest) : Z :=
  match ephemeral_balance r with Some b => Z.b2z (is_output b) | None => 0 end.

Definition nil_list {A} (l : list A) : bool := match l with [] => true | _ => false end.

(** [check_for_uneconomic_inputs] *)
Definition check_for_uneconomic_inputs (r : ChangeRequest) (marginal_fee grace_actions : Z)
    (possible_change : list OutputManifest) : run ChangeError unit :=
  let t_dust := dust_of ti_value ti_outpoint marginal_fee (transparent_inputs r) in
  let s_dust := dust_of si_value si_note_id marginal_fee (sv_inputs (sapling r)) in
  let o_dust := dust_of oi_value oi_note_id marginal_fee (ov_inputs (orchard r)) in
  let i_dust := dust_of oi_value oi_note_id marginal_fee (ov_inputs (ironwood r)) in
  if nil_list t_dust && nil_list s_dust && nil_list o_dust && nil_list i_dust then Ok () else
  t_inputs_len ← panics (usize_add (zlen (transparent_inputs r)) (ephemeral_inputs r));
  t_outputs_len ← panics (usize_add (zlen (transparent_outputs r)) (ephemeral_outputs r));
  t_non_dust ← panics (expect (checked_sub t_inputs_len (zlen t_dust)));
  s_non_dust ← panics (expect (checked_sub (zlen (sv_inputs (sapling r))) (zlen s_dust)));
  o_non_dust ← panics (expect (checked_sub (zlen (ov_inputs (orchard r))) (zlen o_dust)));
  i_non_dust ← panics (expect (checked_sub (zlen (ov_inputs (ironwood r))) (zlen i_dust)));
  let dust := MkManifest (zlen t_dust) (zlen s_dust) (zlen o_dust) (zlen i_dust) in
  let non_dust := MkManifest t_non_dust s_non_dust o_non_dust i_non_dust in
  manifests ← mapM_res (allowed_dust r grace_actions t_outputs_len dust non_dust) possible_change;
  reduced ← panics (reduce (fun a b => Ok (min_counts a b)) manifests);
  allowed ← panics (expect reduced);
  t_dust ← panics (split_off t_dust (m_transparent allowed));
  s_dust ← panics (split_off s_dust (m_sapling allowed));
  o_dust ← panics (split_off o_dust (m_orchard allowed));
  i_dust ← panics (split_off i_dust (m_ironwood allowed));
  if nil_list t_dust && nil_list s_dust && nil_list o_dust && nil_list i_dust then Ok ()
  else Err (Failed (DustInputs t_dust s_dust o_dust i_dust)).

(** ** The balance of a transaction *)

(** [SinglePoolBalanceConfig] *)
Record SinglePoolBalanceConfig : Type := MkConfig {
  params : Params;
  fee_rule : FeeRuleT;
  dust_output_policy : DustOutputPolicy;
  default_dust_threshold : Z;
  split_policy : SplitPolicy;
  fallback_change_pool : ShieldedPool;
  transparent_change_policy : TransparentChangePolicy;
  marginal_fee : Z;
  grace_actions : Z }.

(** The memo is dropped in the step that spends an ephemeral output. *)
Definition kept_memo (r : ChangeRequest) : option MemoBytes :=
  if match ephemeral_balance r with Some b => negb (is_input b) | None => true end
  then change_memo r else None.

Definition is_some {A} (o : option A) : bool := match o with Some _ => true | None => false end.

Definition fully_transparent (r : ChangeRequest) (f : NetFlows) : bool :=
  is_transparent f && negb (is_some (kept_memo r)).

Definition one_time_marker (r : ChangeRequest) : bool :=
  existsb is_one_time (ov_inputs (ironwood r)).

Definition wants_transparent_change (cfg : SinglePoolBalanceConfig) (r : ChangeRequest)
    (f : NetFlows) : bool :=
  fully_transparent r f
  && bool_decide (transparent_change_policy cfg = TransparentChangeAllowed).

Definition sapling_output_count (r : ChangeRequest) (change_count : Z) : run ChangeError Z :=
  outputs ← panics (usize_add (zlen (sv_outputs (sapling r))) change_count);
  fails (map_err BundleError
    (num_outputs (sv_bundle_type (sapling r)) (zlen (sv_inputs (sapling r))) outputs)).

Definition orchard_action_count (r : ChangeRequest) (change_count : Z) : run ChangeError Z :=
  outputs ← panics (usize_add (zlen (ov_outputs (orchard r))) change_count);
  fails (map_err BundleError
    (transactional_action_count (padding_bundle_type (orchard_padding r)) (ov_version (orchard r))
       (zlen (ov_inputs (orchard r))) outputs)).

Definition ironwood_is_canonical_crossing (r : ChangeRequest) (change : OutputManifest) : bool :=
  (zlen (ov_inputs (orchard r)) =? 1) && nil_list (ov_inputs (ironwood r))
  && (m_ironwood change =? 0) && (m_orchard change <=? 1) && (m_sapling change =? 0)
  && (m_transparent change =? 0)
  && sole_output_canonical (zip318 r) (ov_outputs (ironwood r))
  && anchor_is_boundary (zip318 r) (anchor_height r).

Definition ironwood_action_count (r : ChangeRequest) (change : OutputManifest)
    : run ChangeError Z :=
  let padding := if ironwood_is_canonical_crossing r change then PADDING_UNPADDED
                 else PADDING_DEFAULT in
  outputs ← panics (usize_add (zlen (ov_outputs (ironwood r))) (m_ironwood change));
  fails (map_err BundleError
    (transactional_action_count (padding_bundle_type padding) (ov_version (ironwood r))
       (zlen (ov_inputs (ironwood r))) outputs)).

Definition transparent_input_sizes (r : ChangeRequest) : list InputSize :=
  map ti_size (transparent_inputs r)
  ++ option_list ((fun _ => STANDARD_P2PKH) <$> (ephemeral_balance r ≫= ephemeral_input_amount)).

Definition transparent_output_sizes (r : ChangeRequest) : list Z :=
  map to_size (transparent_outputs r)
  ++ option_list ((fun _ => P2PKH_STANDARD_OUTPUT_SIZE) <$>
       (ephemeral_balance r ≫= ephemeral_output_amount)).

(** A call of [fee_required] for the inputs and outputs of the request with the given
    sizes of transparent outputs and change outputs. *)
Definition fee_for (cfg : SinglePoolBalanceConfig) (r : ChangeRequest) (sapling_input_count : Z)
    (output_sizes : list Z) (change : OutputManifest) : run ChangeError Z :=
  s ← sapling_output_count r (m_sapling change);
  o ← orchard_action_count r (m_orchard change);
  i ← ironwood_action_count r change;
  fails (map_err (fun e => StrategyError (from_fee_error e))
    (fee_required (fee_rule cfg) (params cfg) (target_height r) (transparent_input_sizes r)
       output_sizes sapling_input_count s o i)).

(** [target_change_count] and [target_change_counts] *)
Definition change_target (cfg : SinglePoolBalanceConfig) (wallet_meta : option AccountMeta)
    (transparent : bool) (change_pool : ShieldedPool) : exec (Z * OutputManifest) :=
  if transparent then Ok (1, MkManifest 1 0 0 0) else
  count ← match wallet_meta with
    | None => Ok 1
    | Some m =>
        notes ← total_note_count m;
        Ok (Z.max (saturating_sub (target_output_count (split_policy cfg))
                     (default usize_max notes)) 1)
    end;
  let counts := for_pool change_pool count in
  shielded ← total_shielded counts;
  _ ← assert_that (shielded =? count);
  Ok (count, counts).

Definition possible_change (cfg : SinglePoolBalanceConfig) (r : ChangeRequest) (f : NetFlows)
    (target : OutputManifest) : list OutputManifest :=
  if fully_transparent r f
     || (bool_decide (dust_action (dust_output_policy cfg) = AddDustToFee)
         && negb (is_some (kept_memo r)) && negb (one_time_marker r))
  then [manifest_zero; target] else [target].

(** [simple_case]: the change is split evenly, the first output taking the remainder. *)
Definition simple_case (cfg : SinglePoolBalanceConfig) (r : ChangeRequest) (f : NetFlows)
    (change_pool : ShieldedPool) (split total_change : Z) (per_output_change : Z * Z)
    (total_fee : Z) : exec (list (ChangeValue MemoBytes) * Z) :=
  if wants_transparent_change cfg r f then
    Ok (if total_change =? 0 then [] else [cv_transparent total_change], total_fee)
  else
    let (quotient, remainder) := per_output_change in
    change ← mapM_res (fun i : nat =>
        v ← match i with
            | O => expect (zat_add quotient remainder)
            | S _ => Ok quotient
            end;
        Ok (cv_shielded change_pool v (kept_memo r)))
      (seq 0 (Z.to_nat split));
    Ok (change, total_fee).

(** The treatment of change below the dust threshold. *)
Definition dust_case (cfg : SinglePoolBalanceConfig) (r : ChangeRequest) (f : NetFlows)
    (change_pool : ShieldedPool) (split total_in total_change : Z) (per_output_change : Z * Z)
    (total_fee : Z) : run ChangeError (list (ChangeValue MemoBytes) * Z) :=
  let simple :=
    panics (simple_case cfg r f change_pool split total_change per_output_change total_fee) in
  let threshold := default (default_dust_threshold cfg) (dust_threshold (dust_output_policy cfg)) in
  if total_change <? threshold then
    match dust_action (dust_output_policy cfg) with
    | Reject =>
        if total_change =? 0 then simple
        else
          shortfall ← fails (ok_or (zat_sub threshold total_change) underflow);
          required ← fails (ok_or (zat_add total_in shortfall) overflow);
          Err (Failed (InsufficientFunds total_in required))
    | AllowDustChange => simple
    | AddDustToFee =>
        fee_with_dust ← fails (ok_or (zat_add total_change total_fee) overflow);
        ten ← panics (expect (zat_mul MINIMUM_FEE 10));
        reasonable_fee ← fails (ok_or (zat_add total_fee ten) overflow);
        if reasonable_fee <? fee_with_dust then simple
        else if is_some (kept_memo r) || one_time_marker r then
          Ok ([cv_shielded change_pool 0 (kept_memo r)], fee_with_dust)
        else Ok ([], fee_with_dust)
    end
  else simple.

(** The last case of the comparison: there is change, or a zero-valued output for it. *)
Definition change_case (cfg : SinglePoolBalanceConfig) (wallet_meta : option AccountMeta)
    (r : ChangeRequest) (f : NetFlows) (change_pool : ShieldedPool) (sapling_input_count : Z)
    (target_count : Z) (target_counts : OutputManifest) (total_in subtotal_out min_fee : Z)
    : run ChangeError (list (ChangeValue MemoBytes) * Z) :=
  let transparent := wants_transparent_change cfg r f in
  target_fee ← fee_for cfg r sapling_input_count
    (transparent_output_sizes r
       ++ (if transparent then [P2PKH_STANDARD_OUTPUT_SIZE] else [])) target_counts;
  let max_fee := Z.max min_fee target_fee in
  total_out_with_max_fee ← fails (ok_or (zat_add subtotal_out max_fee) overflow);
  split ← panics
    (if transparent then Ok 1 else
     match wallet_meta with
     | None => Ok 1
     | Some m =>
         notes ← total_note_count m;
         value ← total_value m;
         split_count (split_policy cfg) notes value
           (default 0 (zat_sub total_in total_out_with_max_fee))
     end);
  total_fee ← (if split <? target_count then
                 fee_for cfg r sapling_input_count (transparent_output_sizes r)
                   (for_pool change_pool split)
               else Ok max_fee);
  total_out ← fails (ok_or (zat_add subtotal_out total_fee) overflow);
  total_change ← fails (ok_or (zat_sub total_in total_out) (InsufficientFunds total_in total_out));
  d ← panics (to_nonzero_u64 split);
  dust_case cfg r f change_pool split total_in total_change
    (zat_div_with_remainder total_change d) total_fee.

(** The number of change values that go to a pool. *)
Definition count_pool (p : PoolType) (change : list (ChangeValue MemoBytes)) : Z :=
  zlen (filter (fun c => output_pool c = p) change).

Definition final_manifest (change : list (ChangeValue MemoBytes)) : OutputManifest :=
  MkManifest (count_pool TransparentPool change) (count_pool (Shielded SaplingPool) change)
    (count_pool (Shielded OrchardPool) change) (count_pool (Shielded IronwoodPool) change).

(** The recording of the dummy outputs and the construction of the balance. *)
Definition finish_balance (r : ChangeRequest) (change : list (ChangeValue MemoBytes)) (fee : Z)
    : run ChangeError (TransactionBalance MemoBytes) :=
  let m := final_manifest change in
  sapling_real ← panics (usize_add (zlen (sv_outputs (sapling r))) (m_sapling m));
  s ← sapling_output_count r (m_sapling m);
  sapling_dummy ← panics (expect (checked_sub s sapling_real));
  o ← orchard_action_count r (m_orchard m);
  orchard_real ← panics (usize_add (zlen (ov_outputs (orchard r))) (m_orchard m));
  orchard_dummy ← panics (expect (checked_sub o orchard_real));
  i ← ironwood_action_count r m;
  ironwood_real ← panics (usize_add (zlen (ov_outputs (ironwood r))) (m_ironwood m));
  ironwood_dummy ← panics (expect (checked_sub i ironwood_real));
  b ← fails (map_err (fun _ => overflow) (balance_new change fee));
  Ok (with_dummy_outputs b (MkDummyOutputCounts sapling_dummy orchard_dummy ironwood_dummy)).

(** [single_pool_output_balance] *)
Definition single_pool_output_balance (cfg : SinglePoolBalanceConfig)
    (wallet_meta : option AccountMeta) (r : ChangeRequest)
    : run ChangeError (TransactionBalance MemoBytes) :=
  f ← fails (calculate_net_flows r);
  total_in ← fails (map_err balance_failed (total_in f));
  subtotal_out ← fails (map_err balance_failed (total_out f));
  sapling_input_count ← fails (map_err BundleError
    (num_spends (sv_bundle_type (sapling r)) (zlen (sv_inputs (sapling r)))));
  min_fee ← fee_for cfg r sapling_input_count (transparent_output_sizes r) manifest_zero;
  total_out_with_min_fee ← fails (ok_or (zat_add subtotal_out min_fee) overflow);
  let change_pool :=
    if one_time_marker r then IronwoodPool
    else select_change_pool f (fallback_change_pool cfg)
           (is_nu6_3_active (params cfg) (target_height r))
           (default 0 (zat_sub total_in total_out_with_min_fee)) in
  target ← panics (change_target cfg wallet_meta (wants_transparent_change cfg r f) change_pool);
  let (target_count, target_counts) := target : Z * OutputManifest in
  _ ← (if is_positive (marginal_fee cfg) then
         check_for_uneconomic_inputs r (marginal_fee cfg) (grace_actions cfg)
           (possible_change cfg r f target_counts)
       else Ok ());
  result ← match total_in ?= total_out_with_min_fee with
    | Lt => Err (Failed (InsufficientFunds total_in total_out_with_min_fee))
    | Eq =>
        if fully_transparent r f then Ok ([], min_fee)
        else change_case cfg wallet_meta r f change_pool sapling_input_count
               target_count target_counts total_in subtotal_out min_fee
    | Gt => change_case cfg wallet_meta r f change_pool sapling_input_count
              target_count target_counts total_in subtotal_out min_fee
    end;
  let (change, fee) := result : list (ChangeValue MemoBytes) * Z in
  finish_balance r
    (change ++ option_list (ephemeral_transparent <$> (ephemeral_balance r ≫= ephemeral_output_amount)))
    fee.
End Change.
