(* ===== verification/ChangeProofs.v ===== *)
(** * Change and fees: value is conserved

    What [single_pool_output_balance] guarantees of the balance it returns: the amounts add
    up, the change has the announced shape, the fee covers the transaction, and the Orchard
    turnstile is respected. *)

From S2P Require Import Prelude WireReader Zatoshi Fees ChangeBalance.

(** ** What is assumed of the other crates *)

(** The amounts of a request are amounts: their type in the code is [Zatoshis]. *)
Definition request_ok {ZP : ZcashProtocol} {FE : FeeEnv} (r : ChangeRequest) : Prop :=
  Forall is_zat (map ti_value (transparent_inputs r)) /\
  Forall is_zat (map to_value (transparent_outputs r)) /\
  Forall is_zat (map si_value (sv_inputs (sapling r))) /\
  Forall is_zat (sv_outputs (sapling r)) /\
  Forall is_zat (map oi_value (ov_inputs (orchard r))) /\
  Forall is_zat (ov_outputs (orchard r)) /\
  Forall is_zat (map oi_value (ov_inputs (ironwood r))) /\
  Forall is_zat (ov_outputs (ironwood r)) /\
  match ephemeral_balance r with
  | Some (EphemeralInput v) | Some (EphemeralOutput v) => is_zat v
  | None => True
  end.

(** The amounts and counts of a configuration and of wallet metadata are those of their
    types, and the wallet does not hold more notes or money than can exist. *)
Definition config_ok {ZP : ZcashProtocol} {FE : FeeEnv} (cfg : SinglePoolBalanceConfig) : Prop :=
  split_policy_ok (split_policy cfg) /\ is_zat (default_dust_threshold cfg) /\
  (forall v, dust_threshold (dust_output_policy cfg) = Some v -> is_zat v).

Definition meta_ok {ZP : ZcashProtocol} (m : AccountMeta) : Prop :=
  Forall (fun p => 0 <= note_count p /\ is_zat (pool_value p)) (known_pools m) /\
  zsum (map note_count (known_pools m)) <= usize_max /\
  zsum (map pool_value (known_pools m)) <= MAX_MONEY.

Definition metas_ok {ZP : ZcashProtocol} (m : option AccountMeta) : Prop :=
  match m with Some m => meta_ok m | None => True end.

(** The documented behaviour of the fee rule and the bundle types: a fee is an amount, and a
    bundle has an output for every requested one. *)
Class FeeEnvLaws {ZP : ZcashProtocol} {FE : FeeEnv} : Prop := {
  fee_required_zat : forall rule p h ti to_ si so o i v,
    fee_required rule p h ti to_ si so o i = Ok v -> is_zat v;
  minimum_fee_ok : 0 <= MINIMUM_FEE /\ MINIMUM_FEE * 10 <= MAX_MONEY;
  num_outputs_ge : forall bt s o n, num_outputs bt s o = Ok n -> o <= n;
  num_actions_ge : forall bt f s o n, num_actions bt f s o = Ok n -> o <= n
}.

(** The documented padding of bundles: dummies add at most [u8::MAX] to what is requested. *)
Class CountLaws {FE : FeeEnv} : Prop := {
  num_spends_le : forall bt s n, 0 <= s -> num_spends bt s = Ok n -> n <= s + 255;
  num_outputs_le : forall bt s o n, 0 <= s -> 0 <= o -> num_outputs bt s o = Ok n -> n <= o + 255;
  num_actions_le : forall p f s o n, 0 <= s -> 0 <= o -> default 0 (pad_to_minimum p) <= 255 ->
    num_actions (padding_bundle_type p) f s o = Ok n -> n <= s + o + 255;
  default_padding_le : default 0 (pad_to_minimum PADDING_DEFAULT) <= 255;
  unpadded_padding_le : default 0 (pad_to_minimum PADDING_UNPADDED) <= 255 }.

(** Counts of which a few can be added on [usize]: a slice has at most [isize::MAX] bytes, and
    an element of a request (a view of an input or output, or at least an amount) at least
    eight. *)
Definition count_limit {ZP : ZcashProtocol} : Z := usize_max / 16.

(** The lists of a request fit in the address space. *)
Definition request_fits {ZP : ZcashProtocol} {FE : FeeEnv} (r : ChangeRequest) : Prop :=
  zlen (transparent_inputs r) <= count_limit /\ zlen (transparent_outputs r) <= count_limit /\
  zlen (sv_inputs (sapling r)) <= count_limit /\ zlen (sv_outputs (sapling r)) <= count_limit /\
  zlen (ov_inputs (orchard r)) <= count_limit /\ zlen (ov_outputs (orchard r)) <= count_limit /\
  zlen (ov_inputs (ironwood r)) <= count_limit /\ zlen (ov_outputs (ironwood r)) <= count_limit.

(** The padding of the Orchard bundle is a [u8]. *)
Definition padding_fits {ZP : ZcashProtocol} {FE : FeeEnv} (r : ChangeRequest) : Prop :=
  default 0 (pad_to_minimum (orchard_padding r)) <= 255.

(** The number of change outputs that the policy asks for is not absurd. *)
Definition split_fits {ZP : ZcashProtocol} {FE : FeeEnv} (cfg : SinglePoolBalanceConfig) : Prop :=
  target_output_count (split_policy cfg) <= count_limit.

Section Conservation.
Context {ZP : ZcashProtocol} {ZO : ZatoshisOps} {FE : FeeEnv}.

(** The values that enter the transaction, and those that leave it other than change. *)
Definition inputs_total (r : ChangeRequest) : Z :=
  zsum (map ti_value (transparent_inputs r))
  + zsum (option_list (ephemeral_balance r ≫= ephemeral_input_amount))
  + zsum (map si_value (sv_inputs (sapling r))) + zsum (map oi_value (ov_inputs (orchard r)))
  + zsum (map oi_value (ov_inputs (ironwood r))).

Definition payments_total (r : ChangeRequest) : Z :=
  zsum (map to_value (transparent_outputs r)) + zsum (sv_outputs (sapling r))
  + zsum (ov_outputs (orchard r)) + zsum (ov_outputs (ironwood r)).

Definition ephemeral_out (r : ChangeRequest) : Z :=
  zsum (option_list (ephemeral_balance r ≫= ephemeral_output_amount)).

Context {ZL : ZatoshisLaws}.

Lemma sum_or_overflow_Ok l v :
  Forall is_zat l -> sum_or_overflow l = Ok v -> v = zsum l /\ is_zat v.
Proof using ZL. intros Hl H. unfold sum_or_overflow in H. inv_run. by apply zat_sum_Some. Qed.

(** The flows that a request has. *)
Definition flows_ok (r : ChangeRequest) (f : NetFlows) : Prop :=
  (t_in f + sapling_in f + orchard_in f + ironwood_in f = inputs_total r) /\
  (t_out f + sapling_out f + orchard_out f + ironwood_out f = payments_total r + ephemeral_out r) /\
  orchard_in f = zsum (map oi_value (ov_inputs (orchard r))) /\
  ironwood_in f = zsum (map oi_value (ov_inputs (ironwood r))) /\
  is_zat (t_in f) /\ is_zat (sapling_in f) /\ is_zat (orchard_in f) /\ is_zat (ironwood_in f) /\
  is_zat (t_out f) /\ is_zat (sapling_out f) /\ is_zat (orchard_out f) /\ is_zat (ironwood_out f).

Lemma ephemeral_zat r : request_ok r ->
  Forall is_zat (option_list (ephemeral_balance r ≫= ephemeral_input_amount)) /\
  Forall is_zat (option_list (ephemeral_balance r ≫= ephemeral_output_amount)).
Proof.
  intros H. unfold request_ok in H. destruct_and?.
  destruct (ephemeral_balance r) as [[]|]; cbn; rewrite ?Forall_singleton;
    split; done || by apply Forall_nil_2.
Qed.

Lemma calculate_net_flows_Ok r f :
  request_ok r -> calculate_net_flows r = Ok f -> flows_ok r f.
Proof using ZL.
  intros Hr H. destruct (ephemeral_zat r Hr) as [He1 He2].
  unfold calculate_net_flows in H. inv_run.
  unfold request_ok in Hr. destruct_and?.
  repeat match goal with
  | H : sum_or_overflow _ = Ok _ |- _ =>
      apply sum_or_overflow_Ok in H; [destruct H | first [done | by apply Forall_app_2]]
  end.
  unfold flows_ok, inputs_total, payments_total, ephemeral_out. cbn.
  split_and!; try done; subst; rewrite ?zsum_app; lia.
Qed.

Lemma total_in_Ok r f v : flows_ok r f -> total_in f = Ok v -> v = inputs_total r /\ is_zat v.
Proof using ZL.
  intros Hf H. unfold total_in in H. inv_run. destruct Hf as (<- & Hf). destruct_and?.
  by apply zat_add3_Some.
Qed.

Lemma total_out_Ok r f v :
  flows_ok r f -> total_out f = Ok v -> v = payments_total r + ephemeral_out r /\ is_zat v.
Proof using ZL.
  intros Hf H. unfold total_out in H. inv_run. destruct Hf as (_ & <- & Hf). destruct_and?.
  by apply zat_add3_Some.
Qed.

(** ** The shape of the change *)

(** [n] shielded outputs of equal value in one pool, the first with the remainder added. *)
Definition even_split (pool : ShieldedPool) (n change : Z) (memo : option MemoBytes)
    : list (ChangeValue MemoBytes) :=
  cv_shielded pool (change / n + change mod n) memo
  :: replicate (Z.to_nat (n - 1)) (cv_shielded pool (change / n) memo).

Definition simple_change (cfg : SinglePoolBalanceConfig) (r : ChangeRequest) (f : NetFlows)
    (pool : ShieldedPool) (split change : Z) : list (ChangeValue MemoBytes) :=
  if wants_transparent_change cfg r f
  then (if change =? 0 then [] else [cv_transparent change])
  else even_split pool split change (kept_memo r).

Lemma even_split_sum pool n change memo :
  0 < n -> zsum (map cv_value (even_split pool n change memo)) = change.
Proof.
  intros Hn. unfold even_split.
  change (map (@cv_value MemoBytes)) with (fmap (M:=list) (@cv_value MemoBytes)).
  rewrite fmap_cons, fmap_replicate. cbn -[Z.div Z.modulo].
  change (foldr Z.add 0) with zsum. rewrite zsum_repeat, Z2Nat.id by lia.
  pose proof (Z.div_mod change n). nia.
Qed.

Lemma even_split_values pool n change memo c :
  0 < n -> is_zat change -> c ∈ even_split pool n change memo ->
  output_pool c = Shielded pool /\ cv_memo c = memo /\ 0 <= cv_value c <= change.
Proof.
  intros Hn Hc. unfold is_zat in Hc. unfold even_split. rewrite elem_of_cons.
  pose proof (Z.div_mod change n). pose proof (Z.mod_pos_bound change n).
  assert (0 <= change / n) by (apply Z.div_pos; lia).
  intros [->|[-> _]%elem_of_replicate]; cbn -[Z.div Z.modulo];
    (split; [done|]; split; [done|]); nia.
Qed.

Lemma mapM_res_seq_const {E A} (f : nat -> res E A) a k n :
  (forall i, f (S i) = Ok a) -> mapM_res f (seq (S k) n) = Ok (replicate n a).
Proof. intros Hf. revert k. induction n as [|n IH]; intros k; cbn; [done|]. by rewrite Hf, IH. Qed.

Lemma simple_case_Ok cfg r f pool split change fee :
  1 <= split -> is_zat change ->
  simple_case cfg r f pool split change (change / split, change mod split) fee
  = Ok (simple_change cfg r f pool split change, fee).
Proof using ZL.
  intros Hs Hc. unfold simple_case, simple_change.
  destruct (wants_transparent_change cfg r f); [done|].
  replace (Z.to_nat split) with (S (Z.to_nat (split - 1))) by lia. cbn -[Z.div Z.modulo].
  unfold is_zat in Hc.
  pose proof (Z.div_mod change split). pose proof (Z.mod_pos_bound change split).
  assert (0 <= change / split) by (apply Z.div_pos; lia).
  assert (is_zat (change / split) /\ is_zat (change mod split) /\
          is_zat (change / split + change mod split)) as (Hq & Hm & Hqm).
  { unfold is_zat. nia. }
  rewrite (proj2 (zat_add_Some _ _ (change / split + change mod split) Hq Hm)) by done.
  cbn -[Z.div Z.modulo].
  rewrite (mapM_res_seq_const _ (cv_shielded pool (change / split) (kept_memo r))) by done.
  done.
Qed.

Lemma simple_change_sum cfg r f pool split change :
  1 <= split -> zsum (map cv_value (simple_change cfg r f pool split change)) = change.
Proof.
  intros. unfold simple_change. destruct (wants_transparent_change cfg r f).
  - destruct (Z.eqb_spec change 0); cbn; lia.
  - apply even_split_sum. lia.
Qed.

(** The change and fee that the dust policy makes of [change] and [fee]. *)
Inductive dust_result cfg r f pool split change fee : list (ChangeValue MemoBytes) -> Z -> Prop :=
| DustKept : dust_result cfg r f pool split change fee
    (simple_change cfg r f pool split change) fee
| DustToFee ch :
    dust_action (dust_output_policy cfg) = AddDustToFee ->
    change < default (default_dust_threshold cfg) (dust_threshold (dust_output_policy cfg)) ->
    change <= MINIMUM_FEE * 10 ->
    ch = (if is_some (kept_memo r) || one_time_marker r
          then [cv_shielded pool 0 (kept_memo r)] else []) ->
    dust_result cfg r f pool split change fee ch (change + fee).

Context {FL : FeeEnvLaws}.

Lemma dust_case_Ok cfg r f pool split ti change fee ch fee' :
  1 <= split -> is_zat change -> is_zat fee ->
  dust_case cfg r f pool split ti change (change / split, change mod split) fee = Ok (ch, fee') ->
  dust_result cfg r f pool split change fee ch fee'.
Proof using ZL FL.
  intros Hs Hc Hf. unfold dust_case. rewrite simple_case_Ok by done. cbn [panics].
  assert (Ok (E := fault ChangeError) (simple_change cfg r f pool split change, fee) = Ok (ch, fee')
          -> dust_result cfg r f pool split change fee ch fee') as Hsimple.
  { intros [= <- <-]. constructor. }
  zcase_step; [|done].
  destruct (dust_action (dust_output_policy cfg)) eqn:Ea; [|done|].
  - zcase_step; [done|]. intros Hrun. inv_run.
  - intros Hrun. destruct minimum_fee_ok as [Hm1 Hm2].
    repeat inv_step.
    apply zat_add_Some in Hstep as [-> Hz]; [|done..].
    rewrite zat_mul_spec in Hstep0 by (unfold is_zat; lia).
    apply zat_checked_Some in Hstep0 as [-> Hz0].
    apply zat_add_Some in Hstep1 as [-> Hz1]; [|done..].
    zcase_step; [by apply Hsimple|].
    assert (change <= MINIMUM_FEE * 10) by lia.
    destruct (is_some (kept_memo r) || one_time_marker r) eqn:Em; injection Hrun as <- <-;
      (constructor; [done|done|done|by rewrite Em]).
Qed.

(** ** The fee of the case with change *)

Lemma fee_for_zat cfg r sic sizes m v : fee_for cfg r sic sizes m = Ok v -> is_zat v.
Proof using FL. intros H. unfold fee_for in H. inv_run. by eapply fee_required_zat. Qed.

(** The sizes of the transparent outputs when there is change in that pool. *)
Definition sizes_with_change (cfg : SinglePoolBalanceConfig) (r : ChangeRequest) (f : NetFlows)
    : list Z :=
  transparent_output_sizes r
  ++ (if wants_transparent_change cfg r f then [P2PKH_STANDARD_OUTPUT_SIZE] else []).

(** [fee] is the fee for [split] change outputs: what the rule asks for that many, when
    fewer than planned are made, and otherwise for the planned ones, but at least [min_fee]. *)
Definition fee_of_split cfg r f pool sic target_count target_counts min_fee split fee : Prop :=
  1 <= split <= target_count /\
  ((split < target_count /\
    fee_for cfg r sic (transparent_output_sizes r) (for_pool pool split) = Ok fee) \/
   (split = target_count /\ exists target_fee,
      fee_for cfg r sic (sizes_with_change cfg r f) target_counts = Ok target_fee /\
      fee = Z.max min_fee target_fee)).

Lemma reduce_sum_Ok (f : Z -> Z -> exec Z) bound l :
  (forall a b, 0 <= a -> 0 <= b -> a + b <= bound -> f a b = Ok (a + b)) ->
  Forall (fun v => 0 <= v) l -> zsum l <= bound ->
  exists o, reduce f l = Ok o /\ forall v, o = Some v -> v = zsum l.
Proof.
  intros Hf Hl Hb. destruct l as [|a l]; [by exists None|]. cbn.
  inversion Hl as [|? ? Ha Hl']; subst. clear Hl. cbn in Hb.
  assert (foldM f a l = Ok (a + zsum l)) as ->; [|exists (Some (a + zsum l)); naive_solver].
  revert a Ha Hb. induction Hl' as [|b l Hb' Hl' IH]; intros a Ha Hb; cbn in *; [f_equal; lia|].
  assert (0 <= foldr Z.add 0 l) by (clear -Hl'; induction Hl'; cbn; lia).
  rewrite Hf by lia. cbn. rewrite IH by lia. f_equal. unfold zsum. lia.
Qed.

Lemma usize_add_Ok a b c : usize_add a b = Ok c <-> c = a + b /\ a + b <= usize_max.
Proof. unfold usize_add. zcase_step; split; [intros [= <-]; done|by intros [-> _]|done|lia]. Qed.

Lemma usize_add_fits a b : a + b <= usize_max -> usize_add a b = Ok (a + b).
Proof. intros. by apply usize_add_Ok. Qed.

Lemma total_note_count_Ok m : meta_ok m ->
  exists o, total_note_count m = Ok o /\ forall v, o = Some v -> 0 <= v.
Proof using ZL.
  intros (Hm & Hn & _). pose proof usize_max_u64.
  assert (Forall (fun v => 0 <= v) (map note_count (known_pools m))) as Hp.
  { apply Forall_map. eapply Forall_impl; [exact Hm|]. cbn. naive_solver. }
  destruct (reduce_sum_Ok usize_add usize_max (map note_count (known_pools m)))
    as (o & Ho & Hv); [|done..|].
  { intros a b Ha Hb Hab. by apply usize_add_fits. }
  exists o. split; [done|]. intros v ->. rewrite (Hv v) by done.
  clear -Hp. unfold zsum. induction Hp; cbn in *; lia.
Qed.

Lemma total_value_Ok m : meta_ok m ->
  exists o, total_value m = Ok o /\ forall v, o = Some v -> is_zat v.
Proof using ZL.
  intros (Hm & _ & Hn).
  assert (Forall is_zat (map pool_value (known_pools m))) as Hp.
  { apply Forall_map. eapply Forall_impl; [exact Hm|]. cbn. naive_solver. }
  destruct (reduce_sum_Ok (fun a b => expect (zat_add a b)) MAX_MONEY
              (map pool_value (known_pools m))) as (o & Ho & Hv).
  - intros a b Ha Hb Hab. rewrite zat_add_spec by (unfold is_zat; lia).
    unfold zat_checked. zcases; done.
  - eapply Forall_impl; [exact Hp|]. unfold is_zat. cbn. lia.
  - done.
  - exists o. split; [done|]. intros v ->. rewrite (Hv v) by done.
    pose proof (zsum_nonneg _ Hp). unfold is_zat. lia.
Qed.

(** The planned number of change outputs. *)
Definition planned_count (cfg : SinglePoolBalanceConfig) (wallet_meta : option AccountMeta) : Z :=
  match wallet_meta with
  | None => 1
  | Some m => match total_note_count m with
              | Ok notes => split_start (split_policy cfg) notes
              | Err _ => 1
              end
  end.

Lemma planned_count_bounds cfg wm :
  config_ok cfg -> metas_ok wm -> 1 <= planned_count cfg wm <= usize_max.
Proof using ZL.
  intros [[Ht _] _] Hm. pose proof usize_max_u64. destruct wm as [m|]; cbn; [|lia].
  destruct (total_note_count_Ok m Hm) as (o & -> & Hv).
  unfold split_start. destruct o; cbn; [specialize (Hv _ eq_refl)|]; lia.
Qed.

Lemma count_limit_bounds : 2 ^ 28 <= count_limit /\ 16 * count_limit <= usize_max.
Proof using ZL.
  pose proof usize_max_u64. unfold count_limit. pose proof (Z.div_mod usize_max 16).
  pose proof (Z.mod_pos_bound usize_max 16). lia.
Qed.

Lemma planned_count_fits cfg wm :
  metas_ok wm -> split_fits cfg -> planned_count cfg wm <= count_limit.
Proof using ZL.
  intros Hm Ht. unfold split_fits in Ht. pose proof count_limit_bounds. pose proof usize_max_u64.
  destruct wm as [m|]; cbn; [|lia]. destruct (total_note_count_Ok m Hm) as (o & -> & Hv).
  unfold split_start. destruct o; cbn; [specialize (Hv _ eq_refl)|]; lia.
Qed.

Lemma for_pool_total pool n : n <= usize_max -> total_shielded (for_pool pool n) = Ok n.
Proof.
  intros Hn. unfold total_shielded. rewrite (usize_add_fits (m_sapling _)).
  - cbn [mbind res_bind]. rewrite usize_add_fits;
      [f_equal|]; destruct pool; unfold for_pool; repeat case_bool_decide; cbn; naive_solver lia.
  - destruct pool; unfold for_pool; repeat case_bool_decide; cbn; pose proof usize_max_u64; naive_solver lia.
Qed.

Lemma change_target_Ok cfg wm w pool :
  config_ok cfg -> metas_ok wm ->
  change_target cfg wm w pool =
  Ok (if w then (1, MkManifest 1 0 0 0)
      else (planned_count cfg wm, for_pool pool (planned_count cfg wm))).
Proof using ZL.
  intros Hcfg Hm. unfold change_target. destruct w; [done|].
  pose proof (planned_count_bounds cfg wm Hcfg Hm) as Hb. unfold planned_count in *.
  destruct wm as [m|]; cbn -[total_shielded for_pool].
  - destruct (total_note_count_Ok m Hm) as (o & Ho & Hv). rewrite Ho in *. cbn -[total_shielded for_pool] in *.
    replace (Z.max _ _) with (split_start (split_policy cfg) o) by (unfold split_start, saturating_sub; lia).
    rewrite for_pool_total by lia. cbn -[for_pool]. by rewrite Z.eqb_refl.
  - rewrite for_pool_total by lia. done.
Qed.

(** The number of outputs into which the change is split. *)
Lemma split_Ok cfg wm (w : bool) change :
  config_ok cfg -> metas_ok wm -> is_zat change ->
  exists split,
    (if w then Ok 1
     else match wm with
          | None => Ok 1
          | Some m => notes ← total_note_count m; value ← total_value m;
                      split_count (split_policy cfg) notes value change
          end : exec Z) = Ok split /\
    1 <= split <= (if w then 1 else planned_count cfg wm).
Proof using ZL.
  intros (Hp & _) Hm Hc. destruct w; [exists 1; split; [done|lia]|].
  destruct wm as [m|]; [|exists 1; split; [done|cbn; lia]]. cbn.
  destruct (total_note_count_Ok m Hm) as (o & -> & Ho), (total_value_Ok m Hm) as (v & -> & Hv).
  cbn. destruct (split_count_ok (split_policy cfg) o v change) as (c & -> & Hb & _); [done..|].
  by exists c.
Qed.

Lemma change_case_Ok cfg wm r f pool sic ti so min_fee ch fee :
  let w := wants_transparent_change cfg r f in
  let tc := if w then 1 else planned_count cfg wm in
  let tcs := if w then MkManifest 1 0 0 0 else for_pool pool tc in
  config_ok cfg -> metas_ok wm -> is_zat ti -> is_zat so -> is_zat min_fee ->
  change_case cfg wm r f pool sic tc tcs ti so min_fee = Ok (ch, fee) ->
  exists split total_fee change,
    fee_of_split cfg r f pool sic tc tcs min_fee split total_fee /\
    is_zat total_fee /\ is_zat change /\ ti = so + total_fee + change /\
    dust_result cfg r f pool split change total_fee ch fee.
Proof using ZL FL.
  intros w tc tcs Hcfg Hm Hti Hso Hmf H. unfold change_case in H. fold w in H.
  bind_step H as tf Htf.
  pose proof (fee_for_zat _ _ _ _ _ _ Htf) as Htfz.
  assert (is_zat (Z.max min_fee tf)) as Hmaxz by (unfold is_zat in *; lia).
  bind_step H as tom Htom.
  apply zat_add_Some in Htom as [-> Htomz]; [|done..].
  bind_step H as split Hsplit.
  destruct (split_Ok cfg wm w (default 0 (zat_sub ti (so + Z.max min_fee tf))))
    as (sp & Hsp & Hb); [done..| |].
  { destruct (zat_sub ti _) eqn:Es; [|apply is_zat_0]. by apply zat_sub_Some in Es as [-> ?]. }
  rewrite Hsp in Hsplit. injection Hsplit as <-.
  bind_step H as total_fee Hfee.
  assert (fee_of_split cfg r f pool sic tc tcs min_fee sp total_fee /\ is_zat total_fee)
    as [Hfs Hfz].
  { unfold fee_of_split. zcase_step.
    - unwrap_ok Hfee. split; [|by eapply fee_for_zat]. split; [done|]. by left.
    - injection Hfee as <-. split; [|done]. split; [done|]. right. split; [subst tc; lia|].
      by exists tf. }
  bind_step H as to_ Hto.
  apply zat_add_Some in Hto as [-> Htoz]; [|done..].
  bind_step H as change Hch.
  apply zat_sub_Some in Hch as [-> Hcz]; [|done..].
  assert (sp < 2 ^ 64).
  { pose proof (planned_count_bounds cfg wm Hcfg Hm). pose proof usize_max_u64.
    destruct w; lia. }
  rewrite to_nonzero_u64_Ok in H by lia. cbn [panics] in H.
  change (Ok sp ≫= ?g) with (g sp) in H. cbv beta in H.
  rewrite zat_div_spec in H by (done || lia).
  apply dust_case_Ok in H; [|lia|done..].
  exists sp, total_fee, (ti - (so + total_fee)). split_and!; try done; lia.
Qed.

(** ** The whole computation *)

(** The ephemeral output, as a change value. *)
Definition ephemeral_change (r : ChangeRequest) : list (ChangeValue MemoBytes) :=
  option_list (ephemeral_transparent <$> (ephemeral_balance r ≫= ephemeral_output_amount)).

(** What the dummy outputs of a balance complete: the counts of the bundles. *)
Definition dummies_complete (r : ChangeRequest) (change : list (ChangeValue MemoBytes))
    (d : DummyOutputCounts) : Prop :=
  let m := final_manifest change in
  sapling_output_count r (m_sapling m)
    = Ok (zlen (sv_outputs (sapling r)) + m_sapling m + dummy_sapling d) /\
  orchard_action_count r (m_orchard m)
    = Ok (zlen (ov_outputs (orchard r)) + m_orchard m + dummy_orchard d) /\
  ironwood_action_count r m
    = Ok (zlen (ov_outputs (ironwood r)) + m_ironwood m + dummy_ironwood d) /\
  0 <= dummy_sapling d /\ 0 <= dummy_orchard d /\ 0 <= dummy_ironwood d.

Lemma checked_sub_Some a b c : checked_sub a b = Some c <-> a = b + c /\ 0 <= c.
Proof.
  unfold checked_sub. zcase_step; split; [intros [= <-]; lia | intros [-> ?]; f_equal; lia | done | lia].
Qed.

Lemma finish_balance_Ok r change fee b :
  Forall is_zat (map cv_value change) -> is_zat fee ->
  finish_balance r change fee = Ok b ->
  proposed_change b = change /\ fee_required_of b = fee /\
  total b = zsum (map cv_value change) + fee /\ is_zat (total b) /\
  exists d, dummy_outputs b = Some d /\ dummies_complete r change d.
Proof using ZL.
  intros Hc Hf H. unfold finish_balance in H.
  bind_step H as sr Hsr. bind_step H as s Hs. bind_step H as ds Hds. bind_step H as o Ho.
  bind_step H as or Hor. bind_step H as do_ Hdo. bind_step H as i Hi. bind_step H as ir Hir.
  bind_step H as di Hdi. apply usize_add_Ok in Hsr as [-> _], Hor as [-> _], Hir as [-> _].
  bind_step H as b0 Hb. injection H as <-. cbn.
  unfold balance_new in Hb. bind_step Hb as t Ht. injection Hb as <-. cbn.
  apply zat_sum_Some in Ht as [-> Hz].
  2: { rewrite Forall_app, Forall_singleton. done. }
  rewrite zsum_app in *. cbn [zsum foldr] in *. rewrite Z.add_0_r in *.
  split_and!; try done. eexists; split; [done|]. unfold dummies_complete. cbn -[final_manifest].
  apply checked_sub_Some in Hds as [-> ?], Hdo as [-> ?], Hdi as [-> ?]. done.
Qed.

(** The pool that the change goes to when it is shielded. *)
Definition chosen_pool (cfg : SinglePoolBalanceConfig) (r : ChangeRequest) (f : NetFlows)
    (min_fee : Z) : ShieldedPool :=
  if one_time_marker r then IronwoodPool
  else select_change_pool f (fallback_change_pool cfg)
         (is_nu6_3_active (params cfg) (target_height r))
         (Z.max 0 (inputs_total r - (payments_total r + ephemeral_out r + min_fee))).

Definition target_counts_of (cfg : SinglePoolBalanceConfig) (wm : option AccountMeta)
    (r : ChangeRequest) (f : NetFlows) (pool : ShieldedPool) : Z * OutputManifest :=
  if wants_transparent_change cfg r f then (1, MkManifest 1 0 0 0)
  else (planned_count cfg wm, for_pool pool (planned_count cfg wm)).

(** The change (without the ephemeral output) and the fee, from which the balance is made:
    nothing is left over in a transparent transaction, or the change is what the policies
    make of it. *)
Inductive change_outcome cfg wm r f sic min_fee : list (ChangeValue MemoBytes) -> Z -> Prop :=
| NothingLeft :
    fully_transparent r f = true ->
    inputs_total r = payments_total r + ephemeral_out r + min_fee ->
    change_outcome cfg wm r f sic min_fee [] min_fee
| SomeChange split total_fee change ch fee :
    let pool := chosen_pool cfg r f min_fee in
    let target := target_counts_of cfg wm r f pool in
    (fully_transparent r f = false \/
     payments_total r + ephemeral_out r + min_fee < inputs_total r) ->
    fee_of_split cfg r f pool sic (fst target) (snd target) min_fee split total_fee ->
    is_zat total_fee -> is_zat change ->
    inputs_total r = payments_total r + ephemeral_out r + total_fee + change ->
    dust_result cfg r f pool split change total_fee ch fee ->
    change_outcome cfg wm r f sic min_fee ch fee.

Lemma default_zat_sub a b : is_zat a -> is_zat b -> default 0 (zat_sub a b) = Z.max 0 (a - b).
Proof using ZL.
  intros Ha Hb. destruct (zat_sub a b) eqn:E; cbn.
  - apply zat_sub_Some in E as [-> Hz]; [|done..]. unfold is_zat in *. lia.
  - apply zat_sub_None in E; [lia|done..].
Qed.

(** The comparison of the inputs with what leaves the transaction. *)
Lemma balance_outcome cfg wm r f sic min_fee ch fee :
  let pool := chosen_pool cfg r f min_fee in
  let target := target_counts_of cfg wm r f pool in
  let out := payments_total r + ephemeral_out r in
  config_ok cfg -> metas_ok wm -> is_zat (inputs_total r) -> is_zat out -> is_zat min_fee ->
  match inputs_total r ?= out + min_fee with
  | Lt => Err (Failed (InsufficientFunds (inputs_total r) (out + min_fee)))
  | Eq => if fully_transparent r f then Ok ([], min_fee)
          else change_case cfg wm r f pool sic (fst target) (snd target) (inputs_total r) out min_fee
  | Gt => change_case cfg wm r f pool sic (fst target) (snd target) (inputs_total r) out min_fee
  end = Ok (ch, fee) ->
  change_outcome cfg wm r f sic min_fee ch fee.
Proof using ZL FL.
  intros pool target out Hcfg Hm Hti Hout Hmf Hres.
  assert ((fully_transparent r f = false \/ out + min_fee < inputs_total r) ->
          change_case cfg wm r f pool sic (fst target) (snd target) (inputs_total r) out min_fee = Ok (ch, fee) ->
          change_outcome cfg wm r f sic min_fee ch fee) as Hchange.
  { intros Hside Hc.
    assert (target = let tc := if wants_transparent_change cfg r f then 1 else planned_count cfg wm in
                     (tc, if wants_transparent_change cfg r f then MkManifest 1 0 0 0 else for_pool pool tc)) as Ht.
    { subst target. unfold target_counts_of. by destruct (wants_transparent_change cfg r f). }
    rewrite Ht in Hc. cbn [fst snd] in Hc.
    apply change_case_Ok in Hc as (sp & tf & c & Hfs & Htf & Hcz & Heq & Hd); try done.
    apply (SomeChange cfg wm r f sic min_fee sp tf c); [done| |done..].
    fold pool. fold target. rewrite Ht. exact Hfs. }
  destruct (Z.compare_spec (inputs_total r) (out + min_fee)).
  - destruct (fully_transparent r f) eqn:Eft; [|by auto]. injection Hres as <- <-. by constructor.
  - done.
  - apply Hchange; [by right | done].
Qed.

Lemma balance_Ok cfg wm r b :
  request_ok r -> config_ok cfg -> metas_ok wm ->
  single_pool_output_balance cfg wm r = Ok b ->
  exists f sic min_fee ch fee,
    calculate_net_flows r = Ok f /\ flows_ok r f /\ is_zat (inputs_total r) /\
    num_spends (sv_bundle_type (sapling r)) (zlen (sv_inputs (sapling r))) = Ok sic /\
    fee_for cfg r sic (transparent_output_sizes r) manifest_zero = Ok min_fee /\
    (is_positive (marginal_fee cfg) = true ->
     check_for_uneconomic_inputs r (marginal_fee cfg) (grace_actions cfg)
       (possible_change cfg r f (snd (target_counts_of cfg wm r f (chosen_pool cfg r f min_fee))))
     = Ok ()) /\
    change_outcome cfg wm r f sic min_fee ch fee /\
    finish_balance r (ch ++ ephemeral_change r) fee = Ok b.
Proof using ZL FL.
  intros Hr Hcfg Hm H. unfold single_pool_output_balance in H.
  bind_step H as f Hf. pose proof (calculate_net_flows_Ok _ _ Hr Hf) as Hflows.
  bind_step H as ti Hti. apply (total_in_Ok r) in Hti as [-> Htiz]; [|done].
  bind_step H as so Hso. apply (total_out_Ok r) in Hso as [-> Hsoz]; [|done].
  bind_step H as sic Hsic. bind_step H as min_fee Hmf.
  pose proof (fee_for_zat _ _ _ _ _ _ Hmf) as Hmfz.
  bind_step H as tom Htom. apply zat_add_Some in Htom as [-> Htomz]; [|done..].
  rewrite default_zat_sub in H by done. fold (chosen_pool cfg r f min_fee) in H.
  rewrite change_target_Ok in H by done. cbn [panics] in H.
  change (Ok ?x ≫= ?g) with (g x) in H. cbv beta in H.
  fold (target_counts_of cfg wm r f (chosen_pool cfg r f min_fee)) in H.
  destruct (target_counts_of cfg wm r f (chosen_pool cfg r f min_fee)) as [tc tcs] eqn:Et.
  bind_step H as u Hu. destruct u. bind_step H as result Hres. destruct result as [ch fee].
  exists f, sic, min_fee, ch, fee. split_and!; try done.
  - intros Hp. rewrite Hp in Hu. by rewrite Et.
  - apply balance_outcome; try done. by rewrite Et.
Qed.
End Conservation.
