(* ===== verification/ChangeTheorems.v ===== *)
(** * Change and fees: the guarantees

    Theorems about every balance that [single_pool_output_balance] returns. *)

From S2P Require Import Prelude WireReader Zatoshi Fees ChangeBalance ChangeProofs.

(** A fee rule that never asks for less when a transaction grows, and bundle types that never
    make a bundle smaller by an output or by padding; this is what the code relies on where
    it takes the changeless fee for a lower bound. *)
Class FeeMonotone {ZP : ZcashProtocol} {FE : FeeEnv} : Prop := {
  num_outputs_mono : forall bt s o o' n', o <= o' -> num_outputs bt s o' = Ok n' ->
    exists n, num_outputs bt s o = Ok n /\ n <= n';
  num_actions_mono : forall bt f s o o' n', o <= o' -> num_actions bt f s o' = Ok n' ->
    exists n, num_actions bt f s o = Ok n /\ n <= n';
  unpadded_le : forall f s o n', num_actions (padding_bundle_type PADDING_DEFAULT) f s o = Ok n' ->
    exists n, num_actions (padding_bundle_type PADDING_UNPADDED) f s o = Ok n /\ n <= n';
  fee_required_mono : forall rule p h ti to_ si so so' o o' i i' v',
    so <= so' -> o <= o' -> i <= i' -> fee_required rule p h ti to_ si so' o' i' = Ok v' ->
    exists v, fee_required rule p h ti to_ si so o i = Ok v /\ v <= v'
}.

Section Theorems.
Context {ZP : ZcashProtocol} {ZO : ZatoshisOps} {FE : FeeEnv}.

(** ** Monotonicity *)

Definition manifest_le (m m' : OutputManifest) : Prop :=
  m_transparent m <= m_transparent m' /\ m_sapling m <= m_sapling m' /\
  m_orchard m <= m_orchard m' /\ m_ironwood m <= m_ironwood m'.

Definition manifest_nonneg (m : OutputManifest) : Prop := manifest_le manifest_zero m.

(** The sum of two manifests, pool by pool. *)
Definition add_counts (a b : OutputManifest) : OutputManifest :=
  MkManifest (m_transparent a + m_transparent b) (m_sapling a + m_sapling b)
    (m_orchard a + m_orchard b) (m_ironwood a + m_ironwood b).

Lemma canonical_anti r m m' :
  manifest_nonneg m -> manifest_le m m' ->
  ironwood_is_canonical_crossing r m' = true -> ironwood_is_canonical_crossing r m = true.
Proof.
  unfold manifest_nonneg, manifest_le, ironwood_is_canonical_crossing. cbn.
  rewrite !andb_true_iff, !Z.eqb_eq, !Z.leb_le. intros Hn Hm Hc. destruct_and?.
  split_and!; try done; lia.
Qed.

Context {FM : FeeMonotone}.

Lemma ironwood_action_count_mono r m m' n' :
  manifest_nonneg m -> manifest_le m m' -> ironwood_action_count r m' = Ok n' ->
  exists n, ironwood_action_count r m = Ok n /\ n <= n'.
Proof using FM.
  intros Hn Hm H. unfold ironwood_action_count, transactional_action_count in *.
  bind_step H as k Hk. unwrap_ok H. apply usize_add_Ok in Hk as [-> Hk].
  pose proof (canonical_anti r m m' Hn Hm) as Hc.
  rewrite usize_add_fits by (unfold manifest_le in Hm; lia). run_ok.
  apply (num_actions_mono _ _ _ (zlen (ov_outputs (ironwood r)) + m_ironwood m)) in H
    as (n & Hna & Hle); [|unfold manifest_le in Hm; lia].
  destruct (ironwood_is_canonical_crossing r m') eqn:E'.
  - rewrite Hc by done. rewrite Hna. by exists n.
  - destruct (ironwood_is_canonical_crossing r m).
    + apply unpadded_le in Hna as (k' & -> & ?). exists k'. split; [done|lia].
    + rewrite Hna. by exists n.
Qed.

Lemma fee_for_mono cfg r sic sizes m m' v' :
  manifest_nonneg m -> manifest_le m m' -> fee_for cfg r sic sizes m' = Ok v' ->
  exists v, fee_for cfg r sic sizes m = Ok v /\ v <= v'.
Proof using FM.
  intros Hn Hm H. unfold fee_for in H.
  bind_step H as s Hs. bind_step H as o Ho. bind_step H as i Hi. unwrap_ok H.
  unfold sapling_output_count in Hs. bind_step Hs as so Hso. unwrap_ok Hs. apply usize_add_Ok in Hso as [-> ?].
  unfold orchard_action_count in Ho. bind_step Ho as oo Hoo. unwrap_ok Ho. apply usize_add_Ok in Hoo as [-> ?].
  apply (num_outputs_mono _ _ (zlen (sv_outputs (sapling r)) + m_sapling m)) in Hs
    as (s0 & Hs0 & ?); [|unfold manifest_le in Hm; lia].
  apply (num_actions_mono _ _ _ (zlen (ov_outputs (orchard r)) + m_orchard m)) in Ho
    as (o0 & Ho0 & ?); [|unfold manifest_le in Hm; lia].
  destruct (ironwood_action_count_mono r m m' i) as (i0 & Hi0 & ?); [done..|].
  destruct (fee_required_mono (fee_rule cfg) (params cfg) (target_height r)
    (transparent_input_sizes r) sizes sic s0 s o0 o i0 i v') as (v & Hv & Hle); [done..|].
  exists v. split; [|done]. unfold fee_for, sapling_output_count, orchard_action_count,
    transactional_action_count. rewrite !usize_add_fits by (unfold manifest_le in Hm; lia). run_ok.
  rewrite Hs0. cbn. rewrite Ho0. cbn. rewrite Hi0. cbn. by rewrite Hv.
Qed.

Lemma for_pool_le pool n n' : 0 <= n <= n' -> manifest_le (for_pool pool n) (for_pool pool n').
Proof.
  intros. destruct pool; unfold manifest_le, for_pool; repeat case_bool_decide; cbn; naive_solver lia.
Qed.

Lemma for_pool_nonneg pool n : 0 <= n -> manifest_nonneg (for_pool pool n).
Proof.
  intros. destruct pool; unfold manifest_nonneg, manifest_le, for_pool;
    repeat case_bool_decide; cbn; naive_solver lia.
Qed.

(** The fee never falls below the changeless fee. *)
Lemma fee_of_split_ge cfg r f pool sic tc tcs min_fee split fee :
  fee_for cfg r sic (transparent_output_sizes r) manifest_zero = Ok min_fee ->
  fee_of_split cfg r f pool sic tc tcs min_fee split fee -> min_fee <= fee.
Proof using FM.
  intros Hmin [Hb [[Hs Hf] | [_ (tf & _ & ->)]]]; [|lia].
  eapply fee_for_mono in Hf as (v & Hv & ?);
    [|apply (for_pool_nonneg pool 0); lia | apply for_pool_le; split; [lia|]; lia].
  assert (for_pool pool 0 = manifest_zero) as Hz.
  { unfold for_pool, manifest_zero. by repeat case_bool_decide. }
  rewrite Hz, Hmin in Hv. injection Hv as <-. done.
Qed.

(** ** Amounts *)

Context {ZL : ZatoshisLaws} {FL : FeeEnvLaws}.

Lemma outcome_amounts cfg wm r f sic min_fee ch fee :
  is_zat (inputs_total r) -> request_ok r -> is_zat min_fee ->
  change_outcome cfg wm r f sic min_fee ch fee ->
  Forall is_zat (map cv_value ch) /\ is_zat fee /\
  inputs_total r = payments_total r + ephemeral_out r + zsum (map cv_value ch) + fee.
Proof.
  intros Hti Hr Hmf [Hft Heq | split total_fee change ch' fee' pool target _ Hfs Htf Hc Heq Hd].
  - split_and!; [constructor | done | cbn; lia].
  - assert (1 <= split) as Hs by (destruct Hfs; lia).
    assert (0 <= payments_total r + ephemeral_out r) as Hpos.
    { destruct (ephemeral_zat r Hr) as [_ He]. unfold request_ok in Hr. destruct_and?.
      unfold payments_total, ephemeral_out. 
      repeat match goal with H : Forall is_zat _ |- _ => apply zsum_nonneg in H end. lia. }
    destruct Hd as [|ch'' Ha Hlt Hten Hch].
    + rewrite simple_change_sum by done. split_and!; [|done|lia].
      unfold simple_change. destruct (wants_transparent_change cfg r f).
      * destruct (change =? 0); [constructor|]. by apply Forall_singleton.
      * apply Forall_map, Forall_forall. intros c Hin.
        apply even_split_values in Hin as (_ & _ & Hv); [|lia|done].
        unfold is_zat in *. lia.
    + assert (zsum (map cv_value ch'') = 0 /\ Forall is_zat (map cv_value ch'')) as [Hz Hf].
      { subst ch''. destruct (is_some (kept_memo r) || one_time_marker r); cbn;
          rewrite ?Forall_singleton; (split; [done|]); [|constructor].
        unfold is_zat in *. lia. }
      rewrite Hz. split_and!; [done| |lia]. unfold is_zat in *. lia.
Qed.

Lemma ephemeral_change_sum r : zsum (map cv_value (ephemeral_change r)) = ephemeral_out r.
Proof. unfold ephemeral_change, ephemeral_out. by destruct (ephemeral_balance r) as [[]|]. Qed.

Lemma ephemeral_change_zat r : request_ok r -> Forall is_zat (map cv_value (ephemeral_change r)).
Proof.
  intros Hr. destruct (ephemeral_zat r Hr) as [_ He]. unfold ephemeral_change.
  by destruct (ephemeral_balance r) as [[]|].
Qed.

(** Everything that is known of a balance that was computed. *)
Lemma balance_facts cfg wm r b :
  request_ok r -> config_ok cfg -> metas_ok wm ->
  single_pool_output_balance cfg wm r = Ok b ->
  exists f sic min_fee ch,
    calculate_net_flows r = Ok f /\ flows_ok r f /\
    num_spends (sv_bundle_type (sapling r)) (zlen (sv_inputs (sapling r))) = Ok sic /\
    fee_for cfg r sic (transparent_output_sizes r) manifest_zero = Ok min_fee /\
    change_outcome cfg wm r f sic min_fee ch (fee_required_of b) /\
    proposed_change b = ch ++ ephemeral_change r /\
    Forall is_zat (map cv_value (proposed_change b)) /\
    total b = zsum (map cv_value (proposed_change b)) + fee_required_of b /\ is_zat (total b) /\
    inputs_total r = payments_total r + total b /\
    exists d, dummy_outputs b = Some d /\ dummies_complete r (proposed_change b) d.
Proof using ZL FL.
  intros Hr Hcfg Hm H.
  destruct (balance_Ok cfg wm r b) as (f & sic & mf & ch & fee & Hf & Hfl & Hti & Hsic & Hmf & _ & Ho & Hfin);
    [done..|].
  pose proof (fee_for_zat _ _ _ _ _ _ Hmf) as Hmfz.
  destruct (outcome_amounts _ _ _ _ _ _ _ _ Hti Hr Hmfz Ho) as (Hchz & Hfz & Heq).
  assert (Forall is_zat (map cv_value (ch ++ ephemeral_change r))) as Hall.
  { rewrite map_app. apply Forall_app_2; [done|by apply ephemeral_change_zat]. }
  apply finish_balance_Ok in Hfin as (Hpc & Hfee & Htot & Htz & Hd); [|done..].
  exists f, sic, mf, ch. rewrite Hpc, Hfee in *. split_and!; try done.
  rewrite Htot, map_app, zsum_app, ephemeral_change_sum. lia.
Qed.

Lemma balance_well_formed cfg wm r b :
  request_ok r -> config_ok cfg -> metas_ok wm ->
  single_pool_output_balance cfg wm r = Ok b ->
  is_zat (inputs_total r) /\ is_zat (fee_required_of b).
Proof using ZL FL.
  intros Hr Hcfg Hm H.
  destruct (balance_Ok cfg wm r b)
    as (f & sic & mf & ch & fee & Hf & Hfl & Hti & Hsic & Hmf & _ & Ho & Hfin); [done..|].
  split; [done|]. apply fee_for_zat in Hmf as Hmfz.
  destruct (outcome_amounts _ _ _ _ _ _ _ _ Hti Hr Hmfz Ho) as (Hchz & Hfz & _).
  apply finish_balance_Ok in Hfin as (_ & -> & _); [done| |done].
  rewrite map_app. apply Forall_app_2; [done|by apply ephemeral_change_zat].
Qed.

(** ** The change outputs *)

(** The change of a transaction whose change pool is [pool]: no output (only when nothing
    shielded moves, or when dust goes to the fee and no output is needed for a memo or a
    one-time note), one transparent output (only when nothing shielded moves), or an even
    split into the outputs of one pool. *)
Inductive change_list (cfg : SinglePoolBalanceConfig) (wm : option AccountMeta)
    (r : ChangeRequest) (f : NetFlows) (pool : ShieldedPool) : list (ChangeValue MemoBytes) -> Prop :=
| NoChange :
    fully_transparent r f = true \/
    (dust_action (dust_output_policy cfg) = AddDustToFee /\ kept_memo r = None /\
     one_time_marker r = false) ->
    change_list cfg wm r f pool []
| TransparentChange v :
    fully_transparent r f = true -> transparent_change_policy cfg = TransparentChangeAllowed ->
    0 < v -> change_list cfg wm r f pool [cv_transparent v]
| ShieldedChange n v :
    1 <= n <= planned_count cfg wm -> is_zat v ->
    change_list cfg wm r f pool (even_split pool n v (kept_memo r)).

Lemma is_some_None {A} (o : option A) : is_some o = false -> o = None.
Proof. by destruct o. Qed.

Lemma outcome_change_list cfg wm r f sic min_fee ch fee :
  config_ok cfg -> metas_ok wm ->
  change_outcome cfg wm r f sic min_fee ch fee ->
  change_list cfg wm r f (chosen_pool cfg r f min_fee) ch.
Proof using ZL.
  intros Hcfg Hm [Hft Heq | split total_fee change ch' fee' pool target Hside Hfs Htf Hc Heq Hd].
  { constructor. by left. }
  pose proof (planned_count_bounds cfg wm Hcfg Hm) as Hpl.
  assert (wants_transparent_change cfg r f = true -> fully_transparent r f = true /\
          transparent_change_policy cfg = TransparentChangeAllowed) as Hw.
  { unfold wants_transparent_change. rewrite andb_true_iff, bool_decide_eq_true. done. }
  assert (wants_transparent_change cfg r f = false -> 1 <= split <= planned_count cfg wm) as Hs.
  { intros Hf. destruct Hfs as [Hb _]. subst target. unfold target_counts_of in Hb.
    rewrite Hf in Hb. exact Hb. }
  unfold is_zat in Hc. destruct Hd as [|ch'' Ha Hlt Hten ->].
  - unfold simple_change. destruct (wants_transparent_change cfg r f).
    + destruct Hw as [Hf Hp]; [done|]. destruct (Z.eqb_spec change 0).
      * apply NoChange. by left.
      * apply TransparentChange; [done..|lia].
    + apply ShieldedChange; [by apply Hs|done].
  - destruct (is_some (kept_memo r) || one_time_marker r) eqn:Em.
    + change [cv_shielded pool 0 (kept_memo r)] with (even_split pool 1 0 (kept_memo r)).
      apply ShieldedChange; [lia|unfold is_zat; lia].
    + apply orb_false_iff in Em as [Em1 Em2]. apply NoChange. right.
      split_and!; [done|by apply is_some_None|done].
Qed.

(** The total of the change in a shielded pool. *)
Definition pool_change (p : ShieldedPool) (change : list (ChangeValue MemoBytes)) : Z :=
  zsum (map cv_value (filter (fun c => output_pool c = Shielded p) change)).

Lemma pool_change_app p l k : pool_change p (l ++ k) = pool_change p l + pool_change p k.
Proof. unfold pool_change. by rewrite filter_app, map_app, zsum_app. Qed.

Lemma pool_change_le p l : Forall is_zat (map cv_value l) -> 0 <= pool_change p l <= zsum (map cv_value l).
Proof.
  unfold pool_change, is_zat. induction l as [|c l IH]; [cbn; lia|].
  rewrite filter_cons. cbn [map]. rewrite Forall_cons. intros [Hc Hl]. specialize (IH Hl). unfold zsum in *.
  case_decide; cbn; lia.
Qed.

Lemma pool_change_other p l :
  (forall c, c ∈ l -> output_pool c <> Shielded p) -> pool_change p l = 0.
Proof.
  unfold pool_change. induction l as [|c l IH]; [done|]. intros Hl.
  rewrite filter_cons, decide_False by (apply Hl; left). apply IH.
  intros c' Hc'. apply Hl. by right.
Qed.

Lemma ephemeral_change_pool r p : pool_change p (ephemeral_change r) = 0.
Proof. unfold ephemeral_change. by destruct (ephemeral_balance r) as [[]|]. Qed.

(** After activation, the Orchard pool is only chosen when the bound on the change is below
    the Orchard inputs. *)
Lemma select_change_pool_turnstile f fallback bound :
  select_change_pool f fallback true bound = OrchardPool ->
  0 < orchard_in f /\ bound < orchard_in f.
Proof.
  unfold select_change_pool, is_positive. cbn [andb].
  set (preferred := if (_ || _)%bool then OrchardPool else _).
  case_bool_decide as Hp; cbn [andb]; [|done].
  destruct (Z.ltb_spec 0 (orchard_in f)), (Z.leb_spec (orchard_in f) bound); cbn; try done; lia.
Qed.

Lemma chosen_pool_orchard cfg r f min_fee :
  is_nu6_3_active (params cfg) (target_height r) = true ->
  chosen_pool cfg r f min_fee = OrchardPool ->
  inputs_total r - (payments_total r + ephemeral_out r + min_fee) < orchard_in f.
Proof.
  intros Hact. unfold chosen_pool. destruct (one_time_marker r); [done|]. rewrite Hact.
  intros [_ ?]%select_change_pool_turnstile. lia.
Qed.

(** C5: Value is conserved.  A balance that [single_pool_output_balance] returns accounts
    for every zatoshi: the inputs (with an ephemeral input) are the payments plus the total
    of the balance, this total is the sum of the proposed change (with an ephemeral output)
    and the fee, and all these amounts are in range. *)
Theorem balance_conserves_value cfg wm r b :
  request_ok r -> config_ok cfg -> metas_ok wm ->
  single_pool_output_balance cfg wm r = Ok b ->
  inputs_total r = payments_total r + total b /\
  total b = zsum (map cv_value (proposed_change b)) + fee_required_of b /\
  Forall is_zat (map cv_value (proposed_change b)) /\ is_zat (total b).
Proof using ZL FL.
  intros Hr Hc Hm H.
  destruct (balance_facts cfg wm r b) as (f & sic & mf & ch & Hall); [done..|].
  destruct_and?. by split_and!.
Qed.

(** The change goes to one pool.  Apart from the ephemeral output, which comes last, the
    proposed change is empty, a single transparent output, or an even split into at most the
    planned number of outputs of one shielded pool, each with the change memo; it is empty
    or transparent only in the cases that [change_list] lists.  If a one-time note of
    positive value is spent, there is an Ironwood output. *)
Theorem change_shape cfg wm r b :
  request_ok r -> config_ok cfg -> metas_ok wm ->
  single_pool_output_balance cfg wm r = Ok b ->
  exists f pool ch,
    calculate_net_flows r = Ok f /\ proposed_change b = ch ++ ephemeral_change r /\
    change_list cfg wm r f pool ch /\
    (one_time_marker r = true -> 0 < ironwood_in f ->
     exists c, c ∈ ch /\ output_pool c = Shielded IronwoodPool).
Proof using ZL FL.
  intros Hr Hc Hm H.
  destruct (balance_facts cfg wm r b) as (f & sic & mf & ch & Hf & _ & _ & _ & Ho & Hpc & _);
    [done..|].
  exists f, (chosen_pool cfg r f mf), ch.
  pose proof (outcome_change_list _ _ _ _ _ _ _ _ Hc Hm Ho) as Hl.
  split_and!; [done..|]. intros Hot Hiw.
  assert (fully_transparent r f = false) as Hft.
  { unfold fully_transparent, is_transparent, is_positive.
    rewrite (proj2 (Z.ltb_lt 0 (ironwood_in f))) by done. by rewrite !orb_true_r. }
  unfold chosen_pool in Hl. rewrite Hot in Hl.
  destruct Hl as [[Hx|(_ & _ & Hx)] | v Hx | n v Hn Hv]; [congruence..|].
  eexists. split; [left|done].
Qed.

Lemma turnstile_holds cfg wm r b c :
  request_ok r -> config_ok cfg -> metas_ok wm ->
  is_nu6_3_active (params cfg) (target_height r) = true ->
  single_pool_output_balance cfg wm r = Ok b ->
  c ∈ proposed_change b -> output_pool c = Shielded OrchardPool ->
  pool_change OrchardPool (proposed_change b) < zsum (map oi_value (ov_inputs (orchard r))).
Proof using ZL FL FM.
  intros Hr Hcfg Hm Hact H Hc Hpool.
  destruct (balance_facts cfg wm r b)
    as (f & sic & mf & ch & Hf & Hfl & _ & Hmf & Ho & Hpc & Hz & Htot & _ & Heq & _); [done..|].
  destruct Hfl as (_ & _ & <- & _).
  pose proof (outcome_change_list _ _ _ _ _ _ _ _ Hcfg Hm Ho) as Hl.
  rewrite Hpc in *. rewrite pool_change_app, ephemeral_change_pool, Z.add_0_r.
  rewrite map_app, zsum_app, ephemeral_change_sum in Htot.
  rewrite map_app, Forall_app in Hz. destruct Hz as [Hz _].
  pose proof (pool_change_le OrchardPool ch Hz) as Hle.
  assert (chosen_pool cfg r f mf = OrchardPool) as Hch.
  { apply elem_of_app in Hc as [Hc|Hc].
    - destruct Hl as [|v|n v Hn Hv]; [by apply elem_of_nil in Hc| |].
      + apply list_elem_of_singleton in Hc as ->. done.
      + apply even_split_values in Hc as [Hp _]; [|lia|done]. congruence.
    - unfold ephemeral_change in Hc. destruct (ephemeral_balance r) as [[]|]; cbn in Hc;
        [by apply elem_of_nil in Hc| |by apply elem_of_nil in Hc].
      apply list_elem_of_singleton in Hc as ->. done. }
  apply chosen_pool_orchard in Hch; [|done].
  assert (mf <= fee_required_of b) as Hfee; [|lia].
  destruct Ho as [|sp tf cg ch' fee' pool target _ Hfs _ Hcz _ Hd]; [lia|].
  apply fee_of_split_ge in Hfs; [|done]. unfold is_zat in Hcz. destruct Hd; lia.
Qed.

(** C16: The Orchard turnstile.  When NU6.3 is active at the target height, a transaction with
    a change output in the Orchard pool returns strictly less to that pool than its Orchard
    inputs take from it. *)
Theorem orchard_turnstile cfg wm r b c :
  request_ok r -> config_ok cfg -> metas_ok wm ->
  is_nu6_3_active (params cfg) (target_height r) = true ->
  single_pool_output_balance cfg wm r = Ok b ->
  c ∈ proposed_change b -> output_pool c = Shielded OrchardPool ->
  pool_change OrchardPool (proposed_change b) < zsum (map oi_value (ov_inputs (orchard r))).
Proof using ZL FL FM. apply turnstile_holds. Qed.
End Theorems.
