(* ===== verification/FeeCoverage.v ===== *)
(** * The fee covers the transaction that is recorded

    The fee of a balance is computed before the change is known; these theorems relate it to
    the finished transaction: its change outputs and the dummy outputs recorded with it. *)

From S2P Require Import Prelude WireReader Zatoshi Fees ChangeBalance ChangeProofs.
From S2P Require Import ChangeTheorems.

Section Coverage.
Context {ZP : ZcashProtocol} {ZO : ZatoshisOps} {FE : FeeEnv}.

(** The sizes of the transparent outputs of the finished transaction: the payments, the
    ephemeral output, and transparent change. *)
Definition final_output_sizes (r : ChangeRequest) (change : list (ChangeValue MemoBytes)) : list Z :=
  transparent_output_sizes r
  ++ map (fun _ => P2PKH_STANDARD_OUTPUT_SIZE)
       (filter (fun c => output_pool c = TransparentPool /\ is_ephemeral c = false) change).

(** What the fee rule asks for the finished transaction with the dummy outputs [d]. *)
Definition fee_of_shape (cfg : SinglePoolBalanceConfig) (r : ChangeRequest)
    (change : list (ChangeValue MemoBytes)) (d : DummyOutputCounts) (sic : Z) : res FeeError Z :=
  let m := final_manifest change in
  fee_required (fee_rule cfg) (params cfg) (target_height r) (transparent_input_sizes r)
    (final_output_sizes r change) sic
    (zlen (sv_outputs (sapling r)) + m_sapling m + dummy_sapling d)
    (zlen (ov_outputs (orchard r)) + m_orchard m + dummy_orchard d)
    (zlen (ov_outputs (ironwood r)) + m_ironwood m + dummy_ironwood d).

Lemma fee_for_shape cfg r change d sic v :
  dummies_complete r change d ->
  fee_for cfg r sic (final_output_sizes r change) (final_manifest change) = Ok v ->
  fee_of_shape cfg r change d sic = Ok v.
Proof.
  intros (Hs & Ho & Hi & _) H. unfold fee_for in H. rewrite Hs in H. cbn -[final_manifest] in H.
  rewrite Ho in H. cbn -[final_manifest] in H. rewrite Hi in H. cbn -[final_manifest] in H.
  by unwrap_ok H.
Qed.

(** ** Counting the change outputs *)

Lemma count_pool_app p l k : count_pool p (l ++ k) = count_pool p l + count_pool p k.
Proof. unfold count_pool, zlen. rewrite filter_app, length_app. lia. Qed.

Lemma count_pool_replicate p n c :
  count_pool p (replicate n c) = if decide (output_pool c = p) then Z.of_nat n else 0.
Proof.
  unfold count_pool, zlen. induction n as [|n IH]; [by case_decide|]. cbn [replicate].
  rewrite filter_cons. case_decide; cbn [length]; lia.
Qed.

Lemma count_pool_even_split p pool n v memo :
  1 <= n -> count_pool p (even_split pool n v memo) = if decide (Shielded pool = p) then n else 0.
Proof.
  intros Hn. unfold even_split. change (?a :: ?l) with ([a] ++ l).
  rewrite count_pool_app, count_pool_replicate. unfold count_pool, zlen.
  rewrite filter_cons, filter_nil. cbn [output_pool cv_shielded].
  case_decide; cbn [length]; lia.
Qed.

Lemma final_manifest_even_split pool n v memo :
  1 <= n -> final_manifest (even_split pool n v memo) = for_pool pool n.
Proof.
  intros Hn. unfold final_manifest, for_pool. rewrite !count_pool_even_split by done.
  destruct pool; repeat case_decide; repeat case_bool_decide; try congruence; done.
Qed.

Lemma final_manifest_app l k :
  final_manifest (l ++ k) = add_counts (final_manifest l) (final_manifest k).
Proof. unfold final_manifest, add_counts. cbn. by rewrite !count_pool_app. Qed.

Lemma final_manifest_ephemeral r :
  final_manifest (ephemeral_change r) = MkManifest (ephemeral_outputs r) 0 0 0.
Proof.
  unfold ephemeral_change, ephemeral_outputs. by destruct (ephemeral_balance r) as [[]|].
Qed.

Lemma final_output_sizes_app r l k :
  final_output_sizes r (l ++ k) =
  final_output_sizes r l
  ++ map (fun _ => P2PKH_STANDARD_OUTPUT_SIZE)
       (filter (fun c => output_pool c = TransparentPool /\ is_ephemeral c = false) k).
Proof. unfold final_output_sizes. by rewrite filter_app, map_app, app_assoc. Qed.

Lemma final_output_sizes_ephemeral r l :
  final_output_sizes r (l ++ ephemeral_change r) = final_output_sizes r l.
Proof.
  rewrite final_output_sizes_app. unfold ephemeral_change.
  destruct (ephemeral_balance r) as [[]|]; cbn; by rewrite app_nil_r.
Qed.

Lemma final_output_sizes_shielded r pool n v memo :
  final_output_sizes r (even_split pool n v memo) = transparent_output_sizes r.
Proof.
  unfold final_output_sizes.
  assert (filter (fun c => output_pool c = TransparentPool /\ is_ephemeral c = false)
            (even_split pool n v memo) = []) as ->; [|by rewrite app_nil_r].
  unfold even_split. rewrite filter_cons, decide_False by (cbn; naive_solver).
  induction (Z.to_nat (n - 1)) as [|k IH]; [done|]. cbn [replicate].
  rewrite filter_cons, decide_False by (cbn; naive_solver). done.
Qed.

(** ** The ephemeral output does not count as change for the fee *)

(** Either there is no ephemeral output, or the Ironwood bundle is padded in any case. *)
Definition padding_settled (r : ChangeRequest) : Prop :=
  ephemeral_outputs r = 0 \/ ironwood_is_canonical_crossing r manifest_zero = false.

Lemma fee_for_ephemeral cfg r sic sizes m :
  padding_settled r -> manifest_nonneg m ->
  fee_for cfg r sic sizes (add_counts m (MkManifest (ephemeral_outputs r) 0 0 0))
  = fee_for cfg r sic sizes m.
Proof.
  intros [He|Hc] Hm.
  - f_equal. rewrite He. destruct m. unfold add_counts. cbn. by rewrite !Z.add_0_r.
  - assert (forall m', manifest_nonneg m' -> ironwood_is_canonical_crossing r m' = false) as Hf.
    { intros m' Hm'. destruct (ironwood_is_canonical_crossing r m') eqn:E; [|done].
      assert (manifest_nonneg manifest_zero) as Hz by (unfold manifest_nonneg, manifest_le; lia).
      rewrite (canonical_anti r manifest_zero m' Hz Hm' E) in Hc. done. }
    assert (0 <= ephemeral_outputs r).
    { unfold ephemeral_outputs. destruct (ephemeral_balance r) as [[]|]; cbn; lia. }
    unfold fee_for, ironwood_action_count. rewrite (Hf m) by done.
    rewrite (Hf (add_counts _ _)).
    2: { unfold manifest_nonneg, manifest_le, add_counts in *. cbn in *. lia. }
    unfold add_counts. cbn. by rewrite !Z.add_0_r.
Qed.

Context {FM : FeeMonotone} {ZL : ZatoshisLaws} {FL : FeeEnvLaws}.

(** A shielded split into at most the decided number of outputs is covered. *)
Lemma split_fee_shielded cfg wm r f sic pool min_fee split total_fee n v :
  let target := target_counts_of cfg wm r f pool in
  fee_of_split cfg r f pool sic (fst target) (snd target) min_fee split total_fee ->
  wants_transparent_change cfg r f = false -> 1 <= n <= split ->
  manifest_nonneg (final_manifest (even_split pool n v (kept_memo r))) /\
  exists w, fee_for cfg r sic (final_output_sizes r (even_split pool n v (kept_memo r)))
    (final_manifest (even_split pool n v (kept_memo r))) = Ok w /\ w <= total_fee.
Proof using FM.
  intros target Hfs Hw Hn. rewrite final_manifest_even_split, final_output_sizes_shielded by lia.
  split; [apply for_pool_nonneg; lia|].
  assert (exists w, fee_for cfg r sic (transparent_output_sizes r) (for_pool pool split) = Ok w /\
            w <= total_fee) as (w & Hfw & Hwle).
  { destruct Hfs as [_ [[_ Hfs] | [-> (tf & Htf' & ->)]]]; [by exists total_fee|].
    subst target. unfold target_counts_of, sizes_with_change in *. rewrite Hw in *.
    cbn [fst snd] in *. rewrite app_nil_r in Htf'. exists tf. split; [done|lia]. }
  apply (fee_for_mono _ _ _ _ (for_pool pool n)) in Hfw as (w' & -> & ?).
  - exists w'. split; [done|lia].
  - apply for_pool_nonneg. lia.
  - apply for_pool_le. lia.
Qed.

(** A single transparent change output is covered. *)
Lemma split_fee_transparent cfg wm r f sic pool min_fee split total_fee change :
  let target := target_counts_of cfg wm r f pool in
  fee_of_split cfg r f pool sic (fst target) (snd target) min_fee split total_fee ->
  wants_transparent_change cfg r f = true ->
  manifest_nonneg (final_manifest [cv_transparent change]) /\
  exists v, fee_for cfg r sic (final_output_sizes r [cv_transparent change])
    (final_manifest [cv_transparent change]) = Ok v /\ v <= total_fee.
Proof.
  intros target [Hsp Hfs] Hw. subst target. unfold target_counts_of, sizes_with_change in *.
  rewrite Hw in *. cbn [fst snd] in *. destruct Hfs as [[Hx _] | [_ (tf & Htf' & ->)]]; [lia|].
  assert (final_manifest [cv_transparent change] = MkManifest 1 0 0 0) as -> by done.
  split; [unfold manifest_nonneg, manifest_le; cbn; lia|]. exists tf. split; [exact Htf'|lia].
Qed.

(** The fee is at least what the rule asks for the change that was decided on. *)
Lemma outcome_fee cfg wm r f sic min_fee ch fee :
  (one_time_marker r = true -> wants_transparent_change cfg r f = false) ->
  fee_for cfg r sic (transparent_output_sizes r) manifest_zero = Ok min_fee ->
  change_outcome cfg wm r f sic min_fee ch fee ->
  manifest_nonneg (final_manifest ch) /\
  exists v, fee_for cfg r sic (final_output_sizes r ch) (final_manifest ch) = Ok v /\ v <= fee.
Proof using FM.
  intros Hot Hmf Ho.
  assert (forall fee, min_fee <= fee -> manifest_nonneg (final_manifest []) /\
    exists v, fee_for cfg r sic (final_output_sizes r []) (final_manifest []) = Ok v /\ v <= fee)
    as Hnone.
  { intros fee' Hle. assert (final_manifest [] = manifest_zero) as -> by done.
    split; [unfold manifest_nonneg, manifest_le; lia|]. exists min_fee.
    split; [|done]. unfold final_output_sizes. cbn [map filter]. rewrite app_nil_r. exact Hmf. }
  destruct Ho as [|split total_fee change ch' fee' pool target _ Hfs Htf Hc Heq Hd];
    [apply Hnone; lia|].
  pose proof (fee_of_split_ge _ _ _ _ _ _ _ _ _ _ Hmf Hfs) as Hge. unfold is_zat in Hc.
  assert (1 <= split) as Hs1 by (destruct Hfs; lia).
  destruct Hd as [|ch'' Ha Hlt Hten ->].
  - unfold simple_change. destruct (wants_transparent_change cfg r f) eqn:Hw.
    + destruct (Z.eqb_spec change 0); [by apply Hnone|]. by eapply split_fee_transparent.
    + eapply split_fee_shielded; [done|done|lia].
  - destruct (is_some (kept_memo r) || one_time_marker r) eqn:Em; [|apply Hnone; lia].
    assert (wants_transparent_change cfg r f = false) as Hw.
    { apply orb_true_iff in Em as [Em|Em]; [|auto].
      unfold wants_transparent_change, fully_transparent. rewrite Em. by rewrite andb_false_r. }
    destruct (split_fee_shielded cfg wm r f sic pool min_fee split total_fee 1 0 Hfs Hw)
      as (Hn & w & Hfw & ?); [lia|].
    split; [exact Hn|]. exists w. split; [exact Hfw|lia].
Qed.

(** C17: The fee covers the transaction.  The fee of a balance is at least what the fee rule
    asks for the finished transaction: its payments, its change outputs and the dummy outputs
    that the balance records.  The hypotheses are these.  The request, the configuration and the
    metadata are valid, and the fee rule is monotone ([FeeMonotone]).  If a one-time note is
    spent, the Ironwood inputs have a positive total value.  A transaction with an ephemeral
    output is not otherwise a canonical crossing ([padding_settled]); without this the fee can
    be too low, as [ephemeral_crossing_underpays] of the samples shows. *)
Theorem fee_covers_shape cfg wm r b :
  request_ok r -> config_ok cfg -> metas_ok wm ->
  (one_time_marker r = true -> 0 < zsum (map oi_value (ov_inputs (ironwood r)))) ->
  padding_settled r ->
  single_pool_output_balance cfg wm r = Ok b ->
  exists d sic v,
    dummy_outputs b = Some d /\
    num_spends (sv_bundle_type (sapling r)) (zlen (sv_inputs (sapling r))) = Ok sic /\
    fee_of_shape cfg r (proposed_change b) d sic = Ok v /\ v <= fee_required_of b.
Proof using ZL FL FM.
  intros Hr Hcfg Hm Hot Hps H.
  destruct (balance_facts cfg wm r b)
    as (f & sic & mf & ch & Hf & Hfl & Hsic & Hmf & Ho & Hpc & _ & _ & _ & _ & d & Hd & Hdc);
    [done..|].
  destruct (outcome_fee cfg wm r f sic mf ch (fee_required_of b)) as (Hn & v & Hv & Hle); try done.
  { intros Ho1. specialize (Hot Ho1). destruct Hfl as (_ & _ & _ & Hiw & _).
    rewrite <- Hiw in Hot. unfold wants_transparent_change, fully_transparent, is_transparent, is_positive.
    rewrite (proj2 (Z.ltb_lt 0 (ironwood_in f))) by done. by rewrite !orb_true_r. }
  exists d, sic, v. split_and!; try done. apply fee_for_shape; [done|].
  rewrite Hpc, final_output_sizes_ephemeral, final_manifest_app, final_manifest_ephemeral.
  by rewrite fee_for_ephemeral.
Qed.
End Coverage.
