(* ===== verification/UneconomicInputs.v ===== *)
(** * Uneconomic inputs

    [check_for_uneconomic_inputs] never panics, names only inputs that are worth at most the
    marginal fee, and accepts a transaction only if its dust inputs are free. *)

From S2P Require Import Prelude WireReader Zatoshi Fees ChangeBalance ChangeProofs.
From S2P Require Import ChangeTheorems FeeCoverage.

Section Dust.
Context {ZP : ZcashProtocol} {ZO : ZatoshisOps} {FE : FeeEnv}.

Lemma dust_of_elem {A I} (value : A -> Z) (id : A -> I) mf l x :
  x ∈ dust_of value id mf l <-> exists i, i ∈ l /\ value i <= mf /\ id i = x.
Proof.
  unfold dust_of. rewrite list_elem_of_omap. split.
  - intros (i & Hi & Hx). exists i. destruct (Z.leb_spec (value i) mf); naive_solver.
  - intros (i & Hi & Hv & <-). exists i. split; [done|]. by rewrite (proj2 (Z.leb_le _ _) Hv).
Qed.

Lemma dust_of_length {A I} (value : A -> Z) (id : A -> I) mf l :
  zlen (dust_of value id mf l) <= zlen l.
Proof.
  unfold zlen, dust_of. induction l as [|a l IH]; [done|]. cbn [omap list_omap].
  destruct (value a <=? mf); cbn [length]; lia.
Qed.

(** [a] is between zero and [b], pool by pool. *)
Definition counts_within (a b : OutputManifest) : Prop := manifest_nonneg a /\ manifest_le a b.

(** The values of [pool_allowed], [base_allowed] and [add_manifests] where nothing overflows. *)
Definition allowed_of (d o c n : Z) : Z := Z.min d (saturating_sub (o + c) n).

Definition base_of (r : ChangeRequest) (tl : Z) (dust non_dust change : OutputManifest) : OutputManifest :=
  MkManifest
    (allowed_of (m_transparent dust) tl (m_transparent change) (m_transparent non_dust))
    (allowed_of (m_sapling dust) (zlen (sv_outputs (sapling r))) (m_sapling change) (m_sapling non_dust))
    (allowed_of (m_orchard dust) (zlen (ov_outputs (orchard r))) (m_orchard change) (m_orchard non_dust))
    (allowed_of (m_ironwood dust) (zlen (ov_outputs (ironwood r))) (m_ironwood change) (m_ironwood non_dust)).

Lemma base_allowed_Ok r tl dust non_dust change a :
  base_allowed r tl dust non_dust change = Ok a -> a = base_of r tl dust non_dust change.
Proof.
  unfold base_allowed, pool_allowed. intros H.
  inv_run. repeat match goal with Hu : usize_add _ _ = Ok _ |- _ => apply usize_add_Ok in Hu as [-> _] end.
  done.
Qed.

Lemma add_manifests_Ok a b c : add_manifests a b = Ok c -> c = add_counts a b.
Proof.
  unfold add_manifests. intros H.
  inv_run. repeat match goal with Hu : usize_add _ _ = Ok _ |- _ => apply usize_add_Ok in Hu as [-> _] end.
  done.
Qed.

(** Only the sums of the required and the extra inputs matter. *)
Lemma hypothetical_sum r tl change req extra :
  hypothetical_actions r tl change req extra
  = hypothetical_actions r tl change (add_counts req extra) manifest_zero.
Proof.
  assert (forall a b, usize_add a b = usize_add (a + b) 0) as Hu.
  { intros a b. unfold usize_add. by rewrite Z.add_0_r. }
  unfold hypothetical_actions. rewrite (Hu (m_sapling req)), (Hu (m_orchard req)), (Hu (m_ironwood req)),
    (Hu (m_transparent req)). done.
Qed.

(** The logical actions when exactly the inputs [m] are spent. *)
Abbreviation actions_of r tl change m := (hypothetical_actions r tl change m manifest_zero).

Lemma allowed_of_bounds d o c n : 0 <= d -> 0 <= allowed_of d o c n <= d.
Proof. unfold allowed_of, saturating_sub. lia. Qed.

Lemma base_of_within r tl dust non_dust change :
  manifest_nonneg dust -> counts_within (base_of r tl dust non_dust change) dust.
Proof.
  intros (H1 & H2 & H3 & H4). cbn in *. unfold counts_within, manifest_nonneg, manifest_le, base_of. cbn.
  pose proof (allowed_of_bounds (m_transparent dust)). pose proof (allowed_of_bounds (m_sapling dust)).
  pose proof (allowed_of_bounds (m_orchard dust)). pose proof (allowed_of_bounds (m_ironwood dust)).
  split_and!; naive_solver.
Qed.

(** The grace input comes from a pool with dust left over and costs nothing. *)
Lemma try_grace_Ok actions dust allowed baseline l extra :
  l ⊆ grace_candidates -> counts_within allowed dust ->
  actions (MkManifest 0 0 0 0) = Ok baseline ->
  try_grace actions dust allowed baseline l = Ok extra ->
  counts_within (add_counts allowed extra) dust /\ manifest_nonneg extra /\
  exists n, actions extra = Ok n /\ n <= baseline.
Proof.
  intros Hl Hw Hbase. assert (counts_within (add_counts allowed (MkManifest 0 0 0 0)) dust) as Hw0.
  { unfold counts_within, manifest_nonneg, manifest_le, add_counts in *. cbn in *. lia. }
  induction l as [|[pool one] l IH]; cbn.
  - intros [= <-]. split; [done|]. split; [done|]. by exists baseline.
  - assert (l ⊆ grace_candidates) as Hl' by set_solver.
    destruct (Z.ltb_spec (pool allowed) (pool dust)); [|by apply IH].
    intros Hg. bind_step Hg as n Hn. destruct (Z.leb_spec n baseline); [|by apply IH].
    injection Hg as <-.
    assert ((pool, one) ∈ grace_candidates) as Hin by set_solver.
    unfold counts_within, manifest_nonneg, manifest_le, add_counts in *. cbn in *.
    unfold grace_candidates in Hin. rewrite !elem_of_cons in Hin.
    destruct Hin as [[= -> ->]|[[= -> ->]|[[= -> ->]|[[= -> ->]|Hin]]]];
      [..|by apply elem_of_nil in Hin]; cbn in *; (split; [lia|]; split; [lia|]; by exists n).
Qed.

Lemma add_counts_zero a : add_counts a (MkManifest 0 0 0 0) = a.
Proof. destruct a. unfold add_counts. cbn. by rewrite !Z.add_0_r. Qed.

Lemma add_counts_assoc a b c : add_counts (add_counts a b) c = add_counts a (add_counts b c).
Proof. unfold add_counts. cbn. by rewrite !Z.add_assoc. Qed.

Lemma allowed_dust_Ok r ga tl dust non_dust change al :
  manifest_nonneg dust ->
  allowed_dust r ga tl dust non_dust change = Ok al ->
  counts_within al dust /\
  exists base n baseline, base = base_of r tl dust non_dust change /\
    manifest_le base al /\
    actions_of r tl change (add_counts non_dust base) = Ok baseline /\
    actions_of r tl change (add_counts non_dust al) = Ok n /\ n <= baseline.
Proof.
  intros Hd H. unfold allowed_dust in H.
  bind_step H as base Hb. apply base_allowed_Ok in Hb. bind_step H as req Hq. apply add_manifests_Ok in Hq as ->.
  bind_step H as baseline Hbase. bind_step H as extra Hex. unwrap_ok H. apply add_manifests_Ok in H as ->.
  pose proof (base_of_within r tl dust non_dust change Hd) as Hw. rewrite <- Hb in Hw.
  assert (counts_within (add_counts base extra) dust /\ manifest_nonneg extra /\
          exists n, hypothetical_actions r tl change (add_counts non_dust base) extra = Ok n /\ n <= baseline)
    as (Hw' & Hn & n & Hact & Hle).
  { destruct (ga <=? baseline).
    - injection Hex as <-. rewrite add_counts_zero. split; [done|]. split; [done|by exists baseline].
    - eapply try_grace_Ok; try done. }
  split; [done|]. exists base, n, baseline. rewrite hypothetical_sum, add_counts_assoc in Hact.
  split_and!; try done; unfold manifest_nonneg, manifest_le, add_counts in *; cbn in *; lia.
Qed.

Definition is_bundle_error (e : ChangeError) : Prop := exists msg, e = BundleError msg.

Abbreviation bundle_only m := (errs_only is_bundle_error m).

Lemma bundle_errs {A} (x : res string A) : bundle_only (fails (map_err BundleError x)).
Proof. destruct x; cbn; [done|by eexists]. Qed.

(** *** Nothing overflows *)

Section Fits.
Context {ZL : ZatoshisLaws} {FC : CountLaws}.
Context (r : ChangeRequest) (Hr : request_fits r) (Hpad : padding_fits r).

Definition manifest_within (n : Z) (m : OutputManifest) : Prop :=
  manifest_nonneg m /\ manifest_le m (MkManifest n n n n).

Lemma usize_sum_errs {B} (a b : Z) (f : Z -> run ChangeError B) :
  a + b <= usize_max -> bundle_only (f (a + b)) -> bundle_only (panics (usize_add a b) ≫= f).
Proof. intros Hab Hf. by rewrite usize_add_fits. Qed.

Lemma bundle_bind {A B} (x : res string A) (f : A -> run ChangeError B) :
  (forall a, x = Ok a -> bundle_only (f a)) -> bundle_only (fails (map_err BundleError x) ≫= f).
Proof. intros Hf. apply errs_only_bind; [apply bundle_errs|]. intros a Ha. unwrap_ok Ha. auto. Qed.

Lemma zlen_pos {A} (l : list A) : 0 <= zlen l.
Proof. unfold zlen. lia. Qed.

Lemma hypothetical_errs tl change req extra :
  0 <= tl <= count_limit + 1 -> manifest_within count_limit change ->
  manifest_within (count_limit + 1) req -> manifest_within 1 extra ->
  bundle_only (hypothetical_actions r tl change req extra).
Proof using ZL FC Hr Hpad.
  intros Ht [(Hc1 & Hc2 & Hc3 & Hc4) (Hc5 & Hc6 & Hc7 & Hc8)] [(Hq1 & Hq2 & Hq3 & Hq4) (Hq5 & Hq6 & Hq7 & Hq8)]
    [(He1 & He2 & He3 & He4) (He5 & He6 & He7 & He8)]. cbn in *.
  destruct Hr as (_ & _ & _ & Hso & _ & Hoo & _ & Hio). unfold padding_fits in Hpad. destruct count_limit_bounds as [Hl Hu].
  pose proof (zlen_pos (sv_outputs (sapling r))). pose proof (zlen_pos (ov_outputs (orchard r))).
  pose proof (zlen_pos (ov_outputs (ironwood r))).
  unfold hypothetical_actions, transactional_action_count.
  apply usize_sum_errs; [lia|]. apply bundle_bind. intros ns Hns. apply num_spends_le in Hns; [|lia].
  apply usize_sum_errs; [lia|]. apply bundle_bind. intros no Hno. apply num_outputs_le in Hno; [|lia..].
  do 2 (apply usize_sum_errs; [lia|]). apply bundle_bind. intros oa Hoa. apply num_actions_le in Hoa; [|lia..].
  do 2 (apply usize_sum_errs; [lia|]). apply bundle_bind. intros ia Hia.
  assert (ia <= m_ironwood req + m_ironwood extra + (zlen (ov_outputs (ironwood r)) + m_ironwood change) + 255).
  { pose proof default_padding_le. pose proof unpadded_padding_le.
    destruct (_ && _); (apply num_actions_le in Hia; [done|lia..]). }
  do 4 (apply usize_sum_errs; [lia|]). rewrite usize_add_fits by lia. done.
Qed.

Lemma try_grace_errs tl change req dust allowed baseline l :
  0 <= tl <= count_limit + 1 -> manifest_within count_limit change ->
  manifest_within (count_limit + 1) req -> l ⊆ grace_candidates ->
  bundle_only (try_grace (hypothetical_actions r tl change req) dust allowed baseline l).
Proof using ZL FC Hr Hpad.
  intros Ht Hc Hq. induction l as [|[pool one] l IH]; intros Hl; cbn; [done|].
  assert (l ⊆ grace_candidates) as Hl' by set_solver.
  destruct (pool allowed <? pool dust); [|by apply IH].
  apply errs_only_bind; [|intros n _; destruct (n <=? baseline); [done|by apply IH]].
  apply hypothetical_errs; [done..|]. assert ((pool, one) ∈ grace_candidates) as Hin by set_solver.
  unfold grace_candidates in Hin. rewrite !elem_of_cons in Hin.
  destruct Hin as [[= -> ->]|[[= -> ->]|[[= -> ->]|[[= -> ->]|Hin]]]]; [..|by apply elem_of_nil in Hin];
    unfold manifest_within, manifest_nonneg, manifest_le; cbn; lia.
Qed.

Lemma base_allowed_fits tl dust non_dust change :
  0 <= tl <= count_limit + 1 -> manifest_within count_limit change ->
  base_allowed r tl dust non_dust change = Ok (base_of r tl dust non_dust change).
Proof using ZL Hr.
  intros Ht [(Hc1 & Hc2 & Hc3 & Hc4) (Hc5 & Hc6 & Hc7 & Hc8)]. cbn in *.
  destruct Hr as (_ & _ & _ & Hso & _ & Hoo & _ & Hio). destruct count_limit_bounds as [Hl Hu].
  unfold base_allowed, pool_allowed. rewrite !usize_add_fits by lia. done.
Qed.

Lemma add_manifests_fits n a b :
  n <= usize_max -> manifest_le (add_counts a b) (MkManifest n n n n) ->
  add_manifests a b = Ok (add_counts a b).
Proof.
  intros Hn (H1 & H2 & H3 & H4). cbn in *. unfold add_manifests. by rewrite !usize_add_fits by lia.
Qed.

Lemma allowed_dust_errs ga tl dust non_dust change :
  0 <= tl <= count_limit + 1 -> manifest_within count_limit change ->
  manifest_nonneg dust -> manifest_nonneg non_dust ->
  manifest_le (add_counts non_dust dust)
    (MkManifest (count_limit + 1) (count_limit + 1) (count_limit + 1) (count_limit + 1)) ->
  bundle_only (allowed_dust r ga tl dust non_dust change).
Proof using ZL FC Hr Hpad.
  intros Ht Hc Hd Hn Hs. destruct count_limit_bounds as [Hl Hu]. unfold allowed_dust.
  rewrite base_allowed_fits by done. run_ok. set (base := base_of _ _ _ _ _).
  pose proof (base_of_within r tl dust non_dust change Hd) as [Hb0 Hb1]. fold base in Hb0, Hb1.
  pose proof Hd as Hd'. pose proof Hn as Hn'. pose proof Hb0 as Hb0'. pose proof Hb1 as Hb1'.
  unfold manifest_nonneg, manifest_le, add_counts in Hd', Hn', Hb0', Hb1', Hs. cbn in Hd', Hn', Hb0', Hb1', Hs.
  rewrite (add_manifests_fits (count_limit + 1)) by (unfold manifest_le; cbn; lia). run_ok.
  assert (manifest_within (count_limit + 1) (add_counts non_dust base)) as Hq.
  { unfold manifest_within, manifest_nonneg, manifest_le. cbn. lia. }
  apply errs_only_bind.
  { apply hypothetical_errs; [done..|]. unfold manifest_within, manifest_nonneg, manifest_le. cbn. lia. }
  intros baseline Hbl. apply errs_only_bind.
  { destruct (ga <=? baseline); [done|]. by apply try_grace_errs. }
  intros extra Hex. assert (counts_within (add_counts base extra) dust) as [Hw0 Hw1].
  { destruct (ga <=? baseline).
    - injection Hex as <-. rewrite add_counts_zero. split; [done|]. exact Hb1.
    - eapply try_grace_Ok; [done| |exact Hbl|exact Hex]. split; [exact Hb0|exact Hb1]. }
  unfold manifest_nonneg, manifest_le, add_counts in Hw0, Hw1. cbn in Hw0, Hw1.
  rewrite (add_manifests_fits (count_limit + 1)) by (unfold manifest_le; cbn; lia). done.
Qed.
End Fits.

Lemma mapM_errs_only {E A B} (Q : E -> Prop) (f : A -> run E B) l :
  (forall a, a ∈ l -> errs_only Q (f a)) -> errs_only Q (mapM_res f l).
Proof.
  induction l as [|a l IH]; intros Hf; [done|]. cbn. apply errs_only_bind; [apply Hf; left|]. intros b _.
  apply errs_only_bind; [apply IH; intros; apply Hf; by right|done].
Qed.

Lemma reduce_min_Ok ms : ms <> [] ->
  exists m, reduce (fun a b => Ok (min_counts a b)) ms = Ok (Some m) /\
    (forall x, x ∈ ms -> manifest_le m x) /\
    (forall b, (forall x, x ∈ ms -> manifest_le b x) -> manifest_le b m).
Proof.
  destruct ms as [|a ms]; [done|]. intros _. cbn.
  assert (exists m, foldM (fun a b => Ok (min_counts a b)) a ms = (Ok m : exec _) /\
    (forall x, x ∈ a :: ms -> manifest_le m x) /\
    (forall b, (forall x, x ∈ a :: ms -> manifest_le b x) -> manifest_le b m)) as (m & -> & Hm);
    [|by exists m].
  revert a. induction ms as [|c ms IH]; intros a; cbn [foldM].
  - exists a. split; [done|]. split.
    + intros x ->%list_elem_of_singleton. unfold manifest_le. lia.
    + intros b Hb. apply Hb. left.
  - destruct (IH (min_counts a c)) as (m & Hm & Hle & Hg). exists m. split; [exact Hm|].
    pose proof (Hle (min_counts a c) ltac:(left)) as Hmin.
    split.
    + intros x. rewrite !elem_of_cons. intros [->|[->|Hx]].
      * unfold manifest_le, min_counts in *. cbn in *. lia.
      * unfold manifest_le, min_counts in *. cbn in *. lia.
      * apply Hle. by right.
    + intros b Hb. apply Hg. intros x [->|Hx]%elem_of_cons.
      * pose proof (Hb a ltac:(left)). pose proof (Hb c ltac:(right; left)).
        unfold manifest_le, min_counts in *. cbn. lia.
      * apply Hb. right. by right.
Qed.

Lemma split_off_Ok {A} (l : list A) n :
  0 <= n <= zlen l -> split_off l n = Ok (drop (Z.to_nat n) l).
Proof. intros. unfold split_off. zcases; done. Qed.

Lemma nil_list_true {A} (l : list A) : nil_list l = true <-> l = [].
Proof. by destruct l. Qed.

Lemma drop_nil_length {A} (l : list A) n : 0 <= n -> drop (Z.to_nat n) l = [] <-> zlen l <= n.
Proof.
  intros Hn. unfold zlen. split.
  - intros H. apply (f_equal length) in H. rewrite length_drop in H. cbn in H. lia.
  - intros H. apply nil_length_inv. rewrite length_drop. lia.
Qed.

(** ** The outcome of the check *)

(** The dust of each pool, in the order of the inputs. *)
Definition t_dust (r : ChangeRequest) (mf : Z) : list OutPoint :=
  dust_of ti_value ti_outpoint mf (transparent_inputs r).
Definition s_dust (r : ChangeRequest) (mf : Z) : list NoteRefT :=
  dust_of si_value si_note_id mf (sv_inputs (sapling r)).
Definition o_dust (r : ChangeRequest) (mf : Z) : list NoteRefT :=
  dust_of oi_value oi_note_id mf (ov_inputs (orchard r)).
Definition i_dust (r : ChangeRequest) (mf : Z) : list NoteRefT :=
  dust_of oi_value oi_note_id mf (ov_inputs (ironwood r)).

Definition dust_counts (r : ChangeRequest) (mf : Z) : OutputManifest :=
  MkManifest (zlen (t_dust r mf)) (zlen (s_dust r mf)) (zlen (o_dust r mf)) (zlen (i_dust r mf)).

(** All inputs, and those above the marginal fee. *)
Definition input_counts (r : ChangeRequest) : OutputManifest :=
  MkManifest (zlen (transparent_inputs r) + ephemeral_inputs r) (zlen (sv_inputs (sapling r)))
    (zlen (ov_inputs (orchard r))) (zlen (ov_inputs (ironwood r))).
Definition non_dust_counts (r : ChangeRequest) (mf : Z) : OutputManifest :=
  let a := input_counts r in let d := dust_counts r mf in
  MkManifest (m_transparent a - m_transparent d) (m_sapling a - m_sapling d)
    (m_orchard a - m_orchard d) (m_ironwood a - m_ironwood d).

Definition t_output_count (r : ChangeRequest) : Z :=
  zlen (transparent_outputs r) + ephemeral_outputs r.

Definition no_dust (t : list OutPoint) (s o i : list NoteRefT) : bool :=
  nil_list t && nil_list s && nil_list o && nil_list i.

Lemma dust_counts_nonneg r mf : manifest_nonneg (dust_counts r mf).
Proof. unfold manifest_nonneg, manifest_le, dust_counts, zlen. cbn. lia. Qed.

Lemma non_dust_add r mf : add_counts (non_dust_counts r mf) (dust_counts r mf) = input_counts r.
Proof. unfold add_counts, non_dust_counts. destruct (input_counts r). cbn. f_equal; lia. Qed.

Lemma ephemeral_small r : 0 <= ephemeral_inputs r <= 1 /\ 0 <= ephemeral_outputs r <= 1.
Proof. unfold ephemeral_inputs, ephemeral_outputs. destruct (ephemeral_balance r) as [[]|]; cbn; lia. Qed.

Lemma non_dust_nonneg r mf : manifest_nonneg (non_dust_counts r mf).
Proof.
  pose proof (dust_of_length ti_value ti_outpoint mf (transparent_inputs r)).
  pose proof (dust_of_length si_value si_note_id mf (sv_inputs (sapling r))).
  pose proof (dust_of_length oi_value oi_note_id mf (ov_inputs (orchard r))).
  pose proof (dust_of_length oi_value oi_note_id mf (ov_inputs (ironwood r))).
  pose proof (ephemeral_small r). unfold manifest_nonneg, manifest_le, non_dust_counts, dust_counts,
    t_dust, s_dust, o_dust, i_dust. cbn. lia.
Qed.

Context {ZL : ZatoshisLaws}.

Lemma check_eq r mf ga pc :
  request_fits r ->
  check_for_uneconomic_inputs r mf ga pc =
  (if no_dust (t_dust r mf) (s_dust r mf) (o_dust r mf) (i_dust r mf) then Ok () else
   manifests ← mapM_res (allowed_dust r ga (t_output_count r) (dust_counts r mf)
                           (non_dust_counts r mf)) pc;
   reduced ← panics (reduce (fun a b => Ok (min_counts a b)) manifests);
   allowed ← panics (expect reduced);
   t ← panics (split_off (t_dust r mf) (m_transparent allowed));
   s ← panics (split_off (s_dust r mf) (m_sapling allowed));
   o ← panics (split_off (o_dust r mf) (m_orchard allowed));
   i ← panics (split_off (i_dust r mf) (m_ironwood allowed));
   if no_dust t s o i then Ok () else Err (Failed (DustInputs t s o i))).
Proof using ZL.
  intros (Hti & Hto & _). pose proof count_limit_bounds as [Hl Hu]. pose proof (ephemeral_small r) as [He1 He2].
  unfold check_for_uneconomic_inputs. rewrite !usize_add_fits by lia. run_ok. fold (t_output_count r).
  unfold t_dust, s_dust, o_dust, i_dust, dust_counts,
    non_dust_counts, input_counts, no_dust, t_dust, s_dust, o_dust, i_dust. cbn [m_transparent
    m_sapling m_orchard m_ironwood].
  pose proof (dust_of_length ti_value ti_outpoint mf (transparent_inputs r)).
  pose proof (dust_of_length si_value si_note_id mf (sv_inputs (sapling r))).
  pose proof (dust_of_length oi_value oi_note_id mf (ov_inputs (orchard r))).
  pose proof (dust_of_length oi_value oi_note_id mf (ov_inputs (ironwood r))).
  assert (forall a b, b <= a -> expect (checked_sub a b) = Ok (a - b)) as Hcs.
  { intros a b Hab. unfold checked_sub. zcases; done. }
  rewrite !Hcs by lia. done.
Qed.

Context {FC : CountLaws}.

Lemma allowed_all_errs r mf ga pc :
  request_fits r -> padding_fits r -> Forall (manifest_within count_limit) pc ->
  bundle_only (mapM_res (allowed_dust r ga (t_output_count r) (dust_counts r mf) (non_dust_counts r mf)) pc).
Proof using ZL FC.
  intros Hr Hpad Hpc. rewrite Forall_forall in Hpc. apply mapM_errs_only. intros change Hc.
  pose proof (ephemeral_small r) as [He1 He2]. pose proof Hr as (Hti & Hto & Hsi & _ & Hoi & _ & Hii & _).
  pose proof (zlen_pos (transparent_outputs r)).
  apply allowed_dust_errs; [done|done|unfold t_output_count; lia|auto|apply dust_counts_nonneg|apply non_dust_nonneg|].
  rewrite non_dust_add. unfold manifest_le, input_counts. cbn. lia.
Qed.

Lemma check_cases r mf ga pc :
  pc <> [] -> request_fits r -> padding_fits r -> Forall (manifest_within count_limit) pc ->
  (check_for_uneconomic_inputs r mf ga pc = Ok () /\
   (no_dust (t_dust r mf) (s_dust r mf) (o_dust r mf) (i_dust r mf) = true \/
    forall change, change ∈ pc ->
      allowed_dust r ga (t_output_count r) (dust_counts r mf) (non_dust_counts r mf) change
      = Ok (dust_counts r mf))) \/
  (exists e, check_for_uneconomic_inputs r mf ga pc = Err (Failed e) /\ is_bundle_error e) \/
  (exists t s o i,
     check_for_uneconomic_inputs r mf ga pc = Err (Failed (DustInputs t s o i)) /\
     t `suffix_of` t_dust r mf /\ s `suffix_of` s_dust r mf /\
     o `suffix_of` o_dust r mf /\ i `suffix_of` i_dust r mf /\ no_dust t s o i = false).
Proof using ZL FC.
  intros Hpc Hr Hpad Hfits. rewrite check_eq by done.
  destruct (no_dust (t_dust r mf) _ _ _) eqn:E0; [by left; auto|].
  pose proof (allowed_all_errs r mf ga pc Hr Hpad Hfits) as Hsafe.
  destruct (mapM_res _ pc) as [ms|[e|pn]] eqn:Ems; [|by right; left; exists e|done].
  run_ok. apply mapM_res_Ok in Ems.
  assert (ms <> []) as Hms by (by intros ->; inversion Ems).
  pose proof (dust_counts_nonneg r mf) as Hd.
  assert (forall x, x ∈ ms -> counts_within x (dust_counts r mf)) as Hwithin.
  { intros x Hx. apply list_elem_of_lookup_1 in Hx as [k Hk].
    destruct (Forall2_lookup_r _ _ _ _ _ Ems Hk) as (c & _ & Hc).
    by apply allowed_dust_Ok in Hc as [? _]. }
  destruct (reduce_min_Ok ms Hms) as (m & -> & Hle & Hglb). run_ok.
  assert (counts_within m (dust_counts r mf)) as [Hm0 Hm1].
  { split.
    - apply Hglb. intros x Hx. by apply Hwithin.
    - destruct ms as [|x ms]; [done|]. destruct (Hwithin x ltac:(left)) as [_ H1].
      pose proof (Hle x ltac:(left)). unfold manifest_le in *. lia. }
  pose proof Hm0 as Hm0'. pose proof Hm1 as Hm1'.
  unfold manifest_nonneg, manifest_le, dust_counts in Hm0', Hm1'. cbn in Hm0', Hm1'.
  rewrite !split_off_Ok by lia. run_ok.
  destruct (no_dust (drop _ _) _ _ _) eqn:E1.
  - left. split; [done|]. right. intros c Hc.
    apply list_elem_of_lookup_1 in Hc as [k Hk].
    destruct (Forall2_lookup_l _ _ _ _ _ Ems Hk) as (x & Hx & Hax).
    apply list_elem_of_lookup_2 in Hx. rewrite Hax. f_equal.
    destruct (Hwithin x Hx) as [_ Hxd]. pose proof (Hle x Hx) as Hmx.
    unfold no_dust in E1. rewrite !andb_true_iff, !nil_list_true, !drop_nil_length in E1 by lia.
    unfold manifest_le, dust_counts in *. destruct x. cbn in *. f_equal; lia.
  - right. right. do 4 eexists. split; [done|]. split_and!; try apply suffix_drop. done.
Qed.

(** ** Accepted dust is free *)

(** The assumption under which the check works: in a bundle with more outputs than spends, a
    further spend does not add an action.  The last conjunct excludes the shape whose padding
    depends on the number of Orchard spends. *)
Definition paired_pools (r : ChangeRequest) : Prop :=
  (forall s s' o a b a' b', s <= s' <= o ->
     num_spends (sv_bundle_type (sapling r)) s = Ok a ->
     num_outputs (sv_bundle_type (sapling r)) s o = Ok b ->
     num_spends (sv_bundle_type (sapling r)) s' = Ok a' ->
     num_outputs (sv_bundle_type (sapling r)) s' o = Ok b' -> Z.max a' b' <= Z.max a b) /\
  (forall v bt s s' o a a', v = ov_version (orchard r) \/ v = ov_version (ironwood r) ->
     s <= s' <= o ->
     transactional_action_count bt v s o = Ok a ->
     transactional_action_count bt v s' o = Ok a' -> a' <= a) /\
  sole_output_canonical (zip318 r) (ov_outputs (ironwood r))
    && anchor_is_boundary (zip318 r) (anchor_height r) = false.

Lemma allowed_of_paired d o c n :
  n + allowed_of d o c n = n \/ n <= n + allowed_of d o c n <= o + c \/ allowed_of d o c n < 0.
Proof. unfold allowed_of, saturating_sub. lia. Qed.

(** The parts of the count, in a transaction that cannot be a canonical crossing. *)
Lemma actions_of_Ok r tl change m n :
  sole_output_canonical (zip318 r) (ov_outputs (ironwood r))
    && anchor_is_boundary (zip318 r) (anchor_height r) = false ->
  actions_of r tl change m = Ok n ->
  exists s so o i,
    num_spends (sv_bundle_type (sapling r)) (m_sapling m) = Ok s /\
    num_outputs (sv_bundle_type (sapling r)) (m_sapling m)
      (zlen (sv_outputs (sapling r)) + m_sapling change) = Ok so /\
    transactional_action_count (padding_bundle_type (orchard_padding r)) (ov_version (orchard r))
      (m_orchard m) (zlen (ov_outputs (orchard r)) + m_orchard change) = Ok o /\
    transactional_action_count (padding_bundle_type PADDING_DEFAULT) (ov_version (ironwood r))
      (m_ironwood m) (zlen (ov_outputs (ironwood r)) + m_ironwood change) = Ok i /\
    n = Z.max (m_transparent m) (tl + m_transparent change) + Z.max s so + o + i.
Proof.
  intros Hc H. unfold hypothetical_actions in H.
  bind_step H as si Hsi. bind_step H as s Hs. bind_step H as sp Hsp. bind_step H as so Hso.
  bind_step H as oi Hoi. bind_step H as oo Hoo. bind_step H as o Ho. bind_step H as ii Hii. bind_step H as io Hio.
  rewrite <- (andb_assoc _ (sole_output_canonical _ _)), Hc, andb_false_r in H.
  bind_step H as i Hi. bind_step H as ti Hti. bind_step H as to_ Hto. bind_step H as a Ha. bind_step H as b Hb.
  unwrap_ok H. repeat match goal with Hu : usize_add _ _ = Ok _ |- _ => apply usize_add_Ok in Hu as [-> _] end.
  cbn in *. rewrite !Z.add_0_r in *. by exists s, so, o, i.
Qed.

Lemma base_of_free r tl dust non_dust change n n0 :
  paired_pools r -> manifest_nonneg dust ->
  actions_of r tl change non_dust = Ok n0 ->
  actions_of r tl change
    (add_counts non_dust (base_of r tl dust non_dust change)) = Ok n ->
  n <= n0.
Proof.
  intros (Hs & Ho & Hc) Hd H0 H1.
  apply actions_of_Ok in H0 as (s0 & so0 & o0 & i0 & Hs0 & Hso0 & Ho0 & Hi0 & ->); [|done].
  apply actions_of_Ok in H1 as (s1 & so1 & o1 & i1 & Hs1 & Hso1 & Ho1 & Hi1 & ->); [|done].
  unfold manifest_nonneg, manifest_le in Hd. cbn in *.
  assert (Z.max s1 so1 <= Z.max s0 so0).
  { destruct (allowed_of_paired (m_sapling dust) (zlen (sv_outputs (sapling r)))
      (m_sapling change) (m_sapling non_dust)) as [E|[E|E]].
    - rewrite E in Hs1, Hso1. assert (s1 = s0 /\ so1 = so0) as [-> ->] by (split; congruence). done.
    - exact (Hs _ _ _ _ _ _ _ E Hs0 Hso0 Hs1 Hso1).
    - pose proof (allowed_of_bounds (m_sapling dust) (zlen (sv_outputs (sapling r)))
        (m_sapling change) (m_sapling non_dust)). lia. }
  assert (o1 <= o0).
  { destruct (allowed_of_paired (m_orchard dust) (zlen (ov_outputs (orchard r)))
      (m_orchard change) (m_orchard non_dust)) as [E|[E|E]].
    - rewrite E in Ho1. assert (o1 = o0) as -> by congruence. done.
    - exact (Ho _ _ _ _ _ _ _ (or_introl eq_refl) E Ho0 Ho1).
    - pose proof (allowed_of_bounds (m_orchard dust) (zlen (ov_outputs (orchard r)))
        (m_orchard change) (m_orchard non_dust)). lia. }
  assert (i1 <= i0).
  { destruct (allowed_of_paired (m_ironwood dust) (zlen (ov_outputs (ironwood r)))
      (m_ironwood change) (m_ironwood non_dust)) as [E|[E|E]].
    - rewrite E in Hi1. assert (i1 = i0) as -> by congruence. done.
    - exact (Ho _ _ _ _ _ _ _ (or_intror eq_refl) E Hi0 Hi1).
    - pose proof (allowed_of_bounds (m_ironwood dust) (zlen (ov_outputs (ironwood r)))
        (m_ironwood change) (m_ironwood non_dust)). lia. }
  unfold allowed_of, saturating_sub in *. lia.
Qed.

Lemma no_dust_counts r mf :
  no_dust (t_dust r mf) (s_dust r mf) (o_dust r mf) (i_dust r mf) = true ->
  non_dust_counts r mf = input_counts r.
Proof.
  unfold no_dust. rewrite !andb_true_iff, !nil_list_true. intros [[[H1 H2] H3] H4].
  unfold non_dust_counts, dust_counts. rewrite H1, H2, H3, H4. destruct (input_counts r).
  unfold zlen. cbn.
  f_equal; lia.
Qed.

(** The check for uneconomic inputs does not panic, where the counts fit.  When it reports dust,
    it reports the tails of the lists of inputs worth at most the marginal fee, and at least one
    input; when it accepts, then under the pairing assumption spending the dust adds no logical
    action, for any of the possible change outputs. *)
Theorem uneconomic_check_spec r mf ga pc :
  pc <> [] -> request_fits r -> padding_fits r -> Forall (manifest_within count_limit) pc ->
  (forall p, check_for_uneconomic_inputs r mf ga pc <> Err (Panicked p)) /\
  (forall t s o i, check_for_uneconomic_inputs r mf ga pc = Err (Failed (DustInputs t s o i)) ->
     t `suffix_of` t_dust r mf /\ s `suffix_of` s_dust r mf /\
     o `suffix_of` o_dust r mf /\ i `suffix_of` i_dust r mf /\ no_dust t s o i = false) /\
  (check_for_uneconomic_inputs r mf ga pc = Ok () -> paired_pools r ->
   forall change n0, change ∈ pc ->
     actions_of r (t_output_count r) change (non_dust_counts r mf) = Ok n0 ->
     exists n, actions_of r (t_output_count r) change (input_counts r) = Ok n /\ n <= n0).
Proof using ZL FC.
  intros Hpc Hr Hpad Hf. split; [|split].
  - intros p H. destruct (check_cases r mf ga pc Hpc Hr Hpad Hf) as [[? _]|[(e & ? & _)|(t & s & o & i & ? & _)]];
      congruence.
  - intros t s o i H.
    destruct (check_cases r mf ga pc Hpc Hr Hpad Hf) as [[? _]|[(e & ? & msg & ->)|(? & ? & ? & ? & He & Hx)]];
      [congruence..|]. rewrite H in He. injection He as <- <- <- <-. done.
  - intros H Hp change n0 Hc Hn0.
    destruct (check_cases r mf ga pc Hpc Hr Hpad Hf) as [[_ [Hd|Hd]]|[(e & ? & _)|(t & s & o & i & ? & _)]];
      [| |congruence..].
    + exists n0. by rewrite <- (no_dust_counts r mf Hd).
    + apply Hd in Hc. apply allowed_dust_Ok in Hc as (_ & b & n & bl & -> & _ & Hb & Hn & Hle);
        [|apply dust_counts_nonneg].
      rewrite non_dust_add in Hn. exists n. split; [done|].
      pose proof (base_of_free r (t_output_count r) (dust_counts r mf) (non_dust_counts r mf)
        change bl n0 Hp (dust_counts_nonneg r mf) Hn0 Hb). lia.
Qed.
End Dust.
