(* ===== verification/ChangeStrategies.v ===== *)
(** * The computation of change does not panic

    [single_pool_output_balance] contains assertions, [expect]s and [unwrap]s; none of them
    fails, and the amounts of its [InsufficientFunds] errors are right. *)

From S2P Require Import Prelude WireReader Zatoshi Fees ChangeBalance ChangeProofs.
From S2P Require Import ChangeTheorems FeeCoverage UneconomicInputs.

Section Totality.
Context {ZP : ZcashProtocol} {ZO : ZatoshisOps} {FE : FeeEnv}.

(** An [InsufficientFunds] error states the available funds and a larger requirement that is an
    amount; a [DustInputs] error names inputs of the request, at least one. *)
Definition funds_error_ok (r : ChangeRequest) (e : ChangeError) : Prop :=
  match e with
  | InsufficientFunds available required =>
      available = inputs_total r /\ available < required /\ is_zat required
  | DustInputs t s o i =>
      t ⊆ map ti_outpoint (transparent_inputs r) /\ s ⊆ map si_note_id (sv_inputs (sapling r)) /\
      o ⊆ map oi_note_id (ov_inputs (orchard r)) /\ i ⊆ map oi_note_id (ov_inputs (ironwood r)) /\
      no_dust t s o i = false
  | _ => True
  end.

(** The errors of the parts that do not look for dust. *)
Definition no_dust_error (r : ChangeRequest) (e : ChangeError) : Prop :=
  match e with DustInputs _ _ _ _ => False | _ => funds_error_ok r e end.

(** The errors of the whole computation: dust is the tail of the inputs of a pool that are worth
    at most the marginal fee. *)
Definition balance_error_ok (cfg : SinglePoolBalanceConfig) (r : ChangeRequest) (e : ChangeError) : Prop :=
  let mf := marginal_fee cfg in
  match e with
  | DustInputs t s o i =>
      t `suffix_of` t_dust r mf /\ s `suffix_of` s_dust r mf /\
      o `suffix_of` o_dust r mf /\ i `suffix_of` i_dust r mf /\ no_dust t s o i = false
  | _ => funds_error_ok r e
  end.

Abbreviation safe r m := (errs_only (no_dust_error r) m).

Lemma safe_error_ok {A} cfg r (m : run ChangeError A) : safe r m -> errs_only (balance_error_ok cfg r) m.
Proof. apply errs_only_mono. by intros []. Qed.

Lemma sum_or_overflow_safe r l : safe r (fails (sum_or_overflow l)).
Proof. unfold sum_or_overflow. by destruct (zat_sum l). Qed.

Lemma fails_no_funds {A} r (x : res ChangeError A) :
  (forall e, x = Err e -> no_dust_error r e) -> safe r (fails x).
Proof. apply errs_only_fails. Qed.

Lemma map_err_safe {A E'} r (f : E' -> ChangeError) (x : res E' A) :
  (forall e, no_dust_error r (f e)) -> safe r (fails (map_err f x)).
Proof. intros Hf. destruct x; cbn; auto. Qed.

(** The errors of the parts that do not concern funds or dust. *)
Section OtherErrors.
Context {ZL : ZatoshisLaws} {FL : FeeEnvLaws} {FC : CountLaws}.
Context (Q : ChangeError -> Prop) (HS : forall e, Q (StrategyError e)) (HB : forall e, Q (BundleError e)).

Lemma calculate_net_flows_errs r : errs_only Q (fails (calculate_net_flows r)).
Proof using HS.
  apply errs_only_fails. intros e H. unfold calculate_net_flows in H.
  repeat (apply res_bind_Err in H as [H|(? & _ & H)];
    [unfold sum_or_overflow in H; destruct (zat_sum _); [done|]; injection H as <-; apply HS|]).
  done.
Qed.

Lemma map_err_errs {A E'} (f : E' -> ChangeError) (x : res E' A) :
  (forall e, Q (f e)) -> errs_only Q (fails (map_err f x)).
Proof. intros Hf. destruct x; cbn; auto. Qed.

Lemma checked_sub_ge a b : b <= a -> expect (checked_sub a b) = Ok (a - b).
Proof. intros. unfold checked_sub. zcases; done. Qed.

(** An addition of counts that fit, before the rest of a computation. *)
Lemma usize_add_errs {B} (a b : Z) (f : Z -> run ChangeError B) :
  a + b <= usize_max -> errs_only Q (f (a + b)) -> errs_only Q (panics (usize_add a b) ≫= f).
Proof. intros Hab Hf. by rewrite usize_add_fits. Qed.

(** The counts of outputs with change, in a request that fits. *)
Lemma outputs_fit r m : request_fits r -> manifest_within count_limit m ->
  zlen (sv_outputs (sapling r)) + m_sapling m <= usize_max /\
  zlen (ov_outputs (orchard r)) + m_orchard m <= usize_max /\
  zlen (ov_outputs (ironwood r)) + m_ironwood m <= usize_max.
Proof using ZL.
  intros (_ & _ & _ & H1 & _ & H2 & _ & H3) [_ (_ & H4 & H5 & H6)]. cbn in *.
  destruct count_limit_bounds. lia.
Qed.

Lemma fee_for_errs cfg r sic sizes m :
  request_fits r -> manifest_within count_limit m -> errs_only Q (fee_for cfg r sic sizes m).
Proof using HS HB ZL.
  intros Hr Hm. destruct (outputs_fit r m Hr Hm) as (Hs & Ho & Hi).
  unfold fee_for, sapling_output_count, orchard_action_count, ironwood_action_count.
  rewrite !usize_add_fits by done. run_ok.
  do 3 (apply errs_only_bind; [by apply map_err_errs|intros ? _]). apply map_err_errs. intros e. apply HS.
Qed.

Lemma finish_balance_errs r change fee :
  request_fits r -> manifest_within count_limit (final_manifest change) ->
  errs_only Q (finish_balance r change fee).
Proof using HS HB ZL FL.
  intros Hr Hm. destruct (outputs_fit r _ Hr Hm) as (Hs & Ho & Hi).
  unfold finish_balance, sapling_output_count, orchard_action_count, ironwood_action_count.
  rewrite !usize_add_fits by done. run_ok.
  apply errs_only_bind; [by apply map_err_errs|]. intros s Hsn. unwrap_ok Hsn. apply num_outputs_ge in Hsn.
  rewrite checked_sub_ge by done. run_ok.
  apply errs_only_bind; [by apply map_err_errs|]. intros o Hon. unwrap_ok Hon. apply num_actions_ge in Hon.
  rewrite checked_sub_ge by done. run_ok.
  apply errs_only_bind; [by apply map_err_errs|]. intros i Hin. unwrap_ok Hin. apply num_actions_ge in Hin.
  rewrite checked_sub_ge by done. run_ok.
  apply errs_only_bind; [apply map_err_errs; intros e; apply HS|done].
Qed.
End OtherErrors.

Lemma calculate_net_flows_safe r r' : safe r (fails (calculate_net_flows r')).
Proof. by apply calculate_net_flows_errs. Qed.

Context {ZL : ZatoshisLaws} {FL : FeeEnvLaws} {FC : CountLaws}.

Lemma fee_for_safe r cfg r' sic sizes m :
  request_fits r' -> manifest_within count_limit m -> safe r (fee_for cfg r' sic sizes m).
Proof using ZL. intros. by apply fee_for_errs. Qed.

Lemma zlen_nonneg {A} (l : list A) : 0 <= zlen l.
Proof. unfold zlen. lia. Qed.

(** The planned change is within the limit. *)
Lemma for_pool_fits pool n : 0 <= n <= count_limit -> manifest_within count_limit (for_pool pool n).
Proof using ZL.
  intros Hn. split; [apply for_pool_nonneg; lia|]. destruct count_limit_bounds.
  destruct pool; unfold manifest_le, for_pool; repeat case_bool_decide; cbn; naive_solver lia.
Qed.

Lemma manifest_small n t : 0 <= t <= n -> manifest_within n (MkManifest t 0 0 0).
Proof. unfold manifest_within, manifest_nonneg, manifest_le. cbn. lia. Qed.

Lemma targets_fit cfg wm r f pool :
  config_ok cfg -> metas_ok wm -> split_fits cfg ->
  manifest_within count_limit (snd (target_counts_of cfg wm r f pool)).
Proof using ZL.
  intros Hcfg Hm Hs. unfold target_counts_of. destruct count_limit_bounds.
  destruct (wants_transparent_change cfg r f); cbn [snd]; [apply manifest_small; lia|].
  apply for_pool_fits. pose proof (planned_count_bounds cfg wm Hcfg Hm).
  pose proof (planned_count_fits cfg wm Hm Hs). lia.
Qed.

(** The change of a balance is within the limit, with an ephemeral output added. *)
Lemma outcome_fits cfg wm r f sic min_fee ch fee :
  config_ok cfg -> metas_ok wm -> split_fits cfg -> change_outcome cfg wm r f sic min_fee ch fee ->
  manifest_within count_limit (final_manifest (ch ++ ephemeral_change r)).
Proof using ZL.
  intros Hcfg Hm Hs Ho. rewrite final_manifest_app, final_manifest_ephemeral.
  pose proof (ephemeral_small r) as [_ He]. destruct count_limit_bounds.
  assert (manifest_within count_limit (final_manifest ch) /\ m_transparent (final_manifest ch) <= 1) as [[Hn Hle] Ht].
  { apply outcome_change_list in Ho; [|done..]. destruct Ho as [|v|n v Hn Hv].
    - split; [apply (manifest_small _ 0); lia|]. done.
    - split; [apply (manifest_small _ 1); lia|]. done.
    - rewrite final_manifest_even_split by lia. pose proof (planned_count_fits cfg wm Hm Hs).
      split; [apply for_pool_fits; lia|]. cbn. lia. }
  unfold manifest_within, manifest_nonneg, manifest_le, add_counts in *. cbn in *. lia.
Qed.

Lemma possible_change_fits cfg wm r f pool :
  config_ok cfg -> metas_ok wm -> split_fits cfg ->
  Forall (manifest_within count_limit) (possible_change cfg r f (snd (target_counts_of cfg wm r f pool))).
Proof using ZL.
  intros Hcfg Hm Hs. pose proof (targets_fit cfg wm r f pool Hcfg Hm Hs) as Ht.
  assert (manifest_within count_limit manifest_zero) as Hz.
  { destruct count_limit_bounds. apply (manifest_small _ 0). lia. }
  unfold possible_change. destruct (_ || _); auto.
Qed.

Lemma dust_case_safe cfg r f pool split change fee :
  config_ok cfg -> 1 <= split -> is_zat change -> is_zat fee -> is_zat (inputs_total r) ->
  safe r (dust_case cfg r f pool split (inputs_total r) change
            (change / split, change mod split) fee).
Proof using ZL FL.
  intros (_ & Hdt & Hpt) Hs Hc Hf Hti. unfold dust_case. rewrite simple_case_Ok by done.
  assert (is_zat (default (default_dust_threshold cfg) (dust_threshold (dust_output_policy cfg))))
    as Hth by (destruct (dust_threshold _) eqn:E; cbn; auto).
  destruct (Z.ltb_spec change (default (default_dust_threshold cfg)
    (dust_threshold (dust_output_policy cfg)))); [|done].
  destruct (dust_action (dust_output_policy cfg)); [|done|].
  - destruct (Z.eqb_spec change 0); [done|].
    apply errs_only_bind; [by apply errs_only_ok_or|]. intros sf Hsf. unwrap_ok Hsf.
    apply zat_sub_Some in Hsf as [-> _]; [|done..].
    apply errs_only_bind; [by apply errs_only_ok_or|]. intros rq Hrq. unwrap_ok Hrq.
    assert (is_zat (default (default_dust_threshold cfg)
      (dust_threshold (dust_output_policy cfg)) - change)) by (unfold is_zat in *; lia).
    apply zat_add_Some in Hrq as [-> Hrqz]; [|done..]. cbn. split_and!; [done|lia|done].
  - apply errs_only_bind; [by apply errs_only_ok_or|]. intros fd _.
    destruct minimum_fee_ok as [Hm1 Hm2].
    apply errs_only_bind.
    { rewrite zat_mul_spec by (unfold is_zat; lia). unfold zat_checked. zcases; done. }
    intros ten _. apply errs_only_bind; [by apply errs_only_ok_or|]. intros rf _.
    destruct (rf <? fd); [done|]. by destruct (is_some _ || _).
Qed.

Lemma change_case_safe cfg wm r f pool sic so min_fee :
  let target := target_counts_of cfg wm r f pool in
  request_fits r -> config_ok cfg -> metas_ok wm -> split_fits cfg -> is_zat (inputs_total r) -> is_zat so -> is_zat min_fee ->
  safe r (change_case cfg wm r f pool sic (fst target) (snd target) (inputs_total r) so min_fee).
Proof using ZL FL.
  intros target Hr Hcfg Hm Hsf Hti Hso Hmf. unfold change_case.
  apply errs_only_bind; [by apply fee_for_safe, targets_fit|]. intros tf Htf. unwrap_ok Htf.
  apply fee_for_zat in Htf.
  assert (is_zat (Z.max min_fee tf)) as Hmaxz by (unfold is_zat in *; lia).
  apply errs_only_bind; [by apply errs_only_ok_or|]. intros tom Htom. unwrap_ok Htom.
  apply zat_add_Some in Htom as [-> Htomz]; [|done..].
  destruct (split_Ok cfg wm (wants_transparent_change cfg r f)
    (default 0 (zat_sub (inputs_total r) (so + Z.max min_fee tf)))) as (sp & Hsp & Hb); [done..| |].
  { rewrite default_zat_sub by done. unfold is_zat in *. lia. }
  apply errs_only_bind; [by eapply errs_only_panics|]. intros split Hs. unwrap_ok Hs.
  rewrite Hsp in Hs. injection Hs as <-.
  assert (sp < 2 ^ 64).
  { pose proof (planned_count_bounds cfg wm Hcfg Hm). pose proof usize_max_u64.
    destruct (wants_transparent_change cfg r f); lia. }
  apply errs_only_bind.
  { destruct (sp <? _); [|done]. apply fee_for_safe; [done|]. apply for_pool_fits.
    pose proof (planned_count_fits cfg wm Hm Hsf). destruct count_limit_bounds.
    destruct (wants_transparent_change cfg r f); lia. }
  intros fee Hfee.
  assert (is_zat fee) as Hfz.
  { destruct (sp <? _); unwrap_ok Hfee; [by eapply fee_for_zat | by injection Hfee as <-]. }
  apply errs_only_bind; [by apply errs_only_ok_or|]. intros to_ Hto. unwrap_ok Hto.
  apply zat_add_Some in Hto as [-> Htoz]; [|done..].
  apply errs_only_bind.
  { apply errs_only_ok_or. intros Hn. apply zat_sub_None in Hn; [|done..]. cbn. by split_and!. }
  intros change Hch. unwrap_ok Hch. apply zat_sub_Some in Hch as [-> Hcz]; [|done..].
  rewrite to_nonzero_u64_Ok by lia. run_ok.
  rewrite zat_div_spec by (done || lia). apply dust_case_safe; (done || lia).
Qed.

Lemma possible_change_nonempty cfg r f t : possible_change cfg r f t <> [].
Proof. unfold possible_change. by destruct (fully_transparent r f || _). Qed.

Lemma suffix_dust {A I} (value : A -> Z) (id : A -> I) mf l k :
  k `suffix_of` dust_of value id mf l -> k ⊆ map id l.
Proof.
  intros [pre Hk] x Hx. assert (x ∈ dust_of value id mf l) as Hin by (rewrite Hk; set_solver).
  unfold dust_of in Hin. apply list_elem_of_omap in Hin as (a & Ha & Hv).
  destruct (value a <=? mf); [|done]. injection Hv as <-. by apply list_elem_of_fmap_2.
Qed.

Lemma check_safe r cfg f t :
  request_fits r -> padding_fits r -> Forall (manifest_within count_limit) (possible_change cfg r f t) ->
  errs_only (balance_error_ok cfg r) (check_for_uneconomic_inputs r (marginal_fee cfg) (grace_actions cfg)
            (possible_change cfg r f t)).
Proof using ZL FL FC.
  intros Hr Hpad Hf. destruct (check_cases r (marginal_fee cfg) (grace_actions cfg) (possible_change cfg r f t))
    as [[-> _]|[(e & -> & msg & ->)|(t' & s & o & i & -> & Ht & Hs & Ho & Hi & Hn)]]; [|done..| | | |].
  - apply possible_change_nonempty.
  - done.
  - done.
  - done.
  - done.
Qed.

Lemma balance_error_funds cfg r e : balance_error_ok cfg r e -> funds_error_ok r e.
Proof.
  destruct e; cbn; try done. intros (? & ? & ? & ? & ?). split_and!; [by eapply suffix_dust..|done].
Qed.

Lemma balance_errs_only cfg wm r :
  request_ok r -> config_ok cfg -> metas_ok wm -> request_fits r -> padding_fits r -> split_fits cfg ->
  errs_only (balance_error_ok cfg r) (single_pool_output_balance cfg wm r).
Proof using ZL FL FC.
  intros Hr Hcfg Hm Hfit Hpad Hsf. unfold single_pool_output_balance.
  apply errs_only_bind; [apply safe_error_ok, calculate_net_flows_safe|]. intros f Hf. unwrap_ok Hf.
  apply calculate_net_flows_Ok in Hf as Hfl; [|done].
  apply errs_only_bind; [by apply safe_error_ok, map_err_safe|]. intros ti Hti. unwrap_ok Hti.
  apply (total_in_Ok r) in Hti as [-> Htiz]; [|done].
  apply errs_only_bind; [by apply safe_error_ok, map_err_safe|]. intros so Hso. unwrap_ok Hso.
  apply (total_out_Ok r) in Hso as [-> Hsoz]; [|done].
  apply errs_only_bind; [by apply safe_error_ok, map_err_safe|]. intros sic _.
  apply errs_only_bind.
  { apply safe_error_ok, fee_for_safe; [done|]. destruct count_limit_bounds. apply (manifest_small _ 0). lia. }
  intros mf Hmf. apply fee_for_zat in Hmf.
  apply errs_only_bind; [by apply errs_only_ok_or|]. intros tom Htom. unwrap_ok Htom.
  apply zat_add_Some in Htom as [-> Htomz]; [|done..].
  rewrite default_zat_sub by done. fold (chosen_pool cfg r f mf). set (pool := chosen_pool cfg r f mf).
  rewrite change_target_Ok by done. run_ok. fold (target_counts_of cfg wm r f pool).
  pose proof (change_case_safe cfg wm r f pool sic _ mf Hfit Hcfg Hm Hsf Htiz Hsoz Hmf) as Hcase.
  pose proof (balance_outcome cfg wm r f sic mf) as Hout. fold pool in Hout. cbv zeta in Hout.
  pose proof (possible_change_fits cfg wm r f pool Hcfg Hm Hsf) as Hpc.
  destruct (target_counts_of cfg wm r f pool) as [tc tcs]. cbn [fst snd] in Hcase, Hout, Hpc.
  apply errs_only_bind; [destruct (is_positive _); [by apply check_safe|done]|]. intros _ _.
  apply errs_only_bind; [apply safe_error_ok|].
  { destruct (Z.compare_spec (inputs_total r) (payments_total r + ephemeral_out r + mf));
      [by destruct (fully_transparent r f)| |done]. cbn. by split_and!. }
  intros [ch fee] Hres. apply finish_balance_errs; [done..|]. fold (ephemeral_change r).
  eapply (outcome_fits cfg wm r f sic mf ch fee); eauto.
Qed.

End Totality.

(** * Change strategies ([fees/zip317.rs], [fees/fixed.rs], [fees/standard.rs])

    The implementations of [ChangeStrategy], each of which calls
    [single_pool_output_balance] with its own configuration. *)

(** [Zip317FeeRule] and [FixedFeeRule]: what the strategies read of their fee rule. *)
Class Zip317FeeRule {FE : FeeEnv} : Type := {
  rule_marginal_fee : FeeRuleT -> Z;
  rule_grace_actions : FeeRuleT -> Z }.
Class FixedFeeRule {FE : FeeEnv} : Type := { fixed_fee : FeeRuleT -> Z }.

(** [zcash_client_backend::data_api::NoteFilter], as far as the strategies use it. *)
Inductive NoteFilter : Type := ExceedsMinValue (v : Z).

Section Strategies.
Context {ZP : ZcashProtocol} {ZO : ZatoshisOps} {FE : FeeEnv}.

(** The arguments of [compute_balance], which do not contain the padding and the memo. *)
Definition request_of (r : ChangeRequest) (memo : option MemoBytes) : ChangeRequest :=
  MkChangeRequest (target_height r) (transparent_inputs r) (transparent_outputs r)
    (sapling r) (orchard r) (ironwood r) PADDING_DEFAULT (anchor_height r) (zip318 r)
    memo (ephemeral_balance r).

(** [zip317::SingleOutputChangeStrategy] *)
Record SingleOutputChangeStrategy : Type := MkSingleOutput {
  so_fee_rule : FeeRuleT; so_change_memo : option MemoBytes;
  so_fallback_change_pool : ShieldedPool; so_dust_output_policy : DustOutputPolicy;
  so_transparent_change_policy : TransparentChangePolicy }.

Definition single_output_new (rule : FeeRuleT) (memo : option MemoBytes) (fallback : ShieldedPool)
    (dust : DustOutputPolicy) : SingleOutputChangeStrategy :=
  MkSingleOutput rule memo fallback dust ShieldChange.

Definition single_output_with_transparent (s : SingleOutputChangeStrategy)
    (p : TransparentChangePolicy) : SingleOutputChangeStrategy :=
  MkSingleOutput (so_fee_rule s) (so_change_memo s) (so_fallback_change_pool s)
    (so_dust_output_policy s) p.

Definition single_output_compute_balance {ZR : Zip317FeeRule} (s : SingleOutputChangeStrategy)
    (p : Params) (r : ChangeRequest) : run ChangeError (TransactionBalance MemoBytes) :=
  single_pool_output_balance
    (MkConfig p (so_fee_rule s) (so_dust_output_policy s) (rule_marginal_fee (so_fee_rule s))
       single_output (so_fallback_change_pool s) (so_transparent_change_policy s)
       (rule_marginal_fee (so_fee_rule s)) (rule_grace_actions (so_fee_rule s)))
    None (request_of r (so_change_memo s)).

(** [zip317::MultiOutputChangeStrategy] *)
Record MultiOutputChangeStrategy : Type := MkMultiOutput {
  mo_fee_rule : FeeRuleT; mo_change_memo : option MemoBytes;
  mo_fallback_change_pool : ShieldedPool; mo_dust_output_policy : DustOutputPolicy;
  mo_split_policy : SplitPolicy; mo_transparent_change_policy : TransparentChangePolicy }.

Definition multi_output_new (rule : FeeRuleT) (memo : option MemoBytes) (fallback : ShieldedPool)
    (dust : DustOutputPolicy) (split : SplitPolicy) : MultiOutputChangeStrategy :=
  MkMultiOutput rule memo fallback dust split ShieldChange.

Definition multi_output_with_transparent (s : MultiOutputChangeStrategy)
    (p : TransparentChangePolicy) : MultiOutputChangeStrategy :=
  MkMultiOutput (mo_fee_rule s) (mo_change_memo s) (mo_fallback_change_pool s)
    (mo_dust_output_policy s) (mo_split_policy s) p.

(** The filter with which [fetch_wallet_meta] asks for the metadata of the account. *)
Definition multi_output_note_selector (s : MultiOutputChangeStrategy) : NoteFilter :=
  ExceedsMinValue (default MIN_NOTE_VALUE (min_split_output_value (mo_split_policy s))).

Definition multi_output_compute_balance {ZR : Zip317FeeRule} (s : MultiOutputChangeStrategy)
    (p : Params) (r : ChangeRequest) (wallet_meta : AccountMeta)
    : run ChangeError (TransactionBalance MemoBytes) :=
  single_pool_output_balance
    (MkConfig p (mo_fee_rule s) (mo_dust_output_policy s) (rule_marginal_fee (mo_fee_rule s))
       (mo_split_policy s) (mo_fallback_change_pool s) (mo_transparent_change_policy s)
       (rule_marginal_fee (mo_fee_rule s)) (rule_grace_actions (mo_fee_rule s)))
    (Some wallet_meta) (request_of r (mo_change_memo s)).

(** [fixed::SingleOutputChangeStrategy]: no marginal fee, hence no check for dust inputs. *)
Definition fixed_compute_balance {FR : FixedFeeRule} (s : SingleOutputChangeStrategy)
    (p : Params) (r : ChangeRequest) : run ChangeError (TransactionBalance MemoBytes) :=
  single_pool_output_balance
    (MkConfig p (so_fee_rule s) (so_dust_output_policy s) (fixed_fee (so_fee_rule s))
       single_output (so_fallback_change_pool s) (so_transparent_change_policy s) 0 0)
    None (request_of r (so_change_memo s)).

(** ** The fee of a canonical crossing ([fees.rs]) *)

Definition CANONICAL_CROSSING_ORCHARD_ACTIONS : Z := 2.
Definition CANONICAL_CROSSING_IRONWOOD_ACTIONS : Z := 1.

(** [standard] is [prim_zip317::FeeRule::standard()]. *)
Definition canonical_crossing_fee (standard : FeeRuleT) (p : Params) (target : Z)
    : res FeeError Z :=
  fee_required standard p target [] [] 0 0
    CANONICAL_CROSSING_ORCHARD_ACTIONS CANONICAL_CROSSING_IRONWOOD_ACTIONS.

(** ** A single output *)

Context {ZL : ZatoshisLaws} {FL : FeeEnvLaws}.

Lemma single_output_ok : split_policy_ok single_output.
Proof using ZL. pose proof usize_max_u64. unfold split_policy_ok, single_output. cbn. lia. Qed.

Lemma request_of_fits r memo : request_fits r -> request_fits (request_of r memo).
Proof. exact id. Qed.

Lemma request_of_padding {FC : CountLaws} r memo : padding_fits (request_of r memo).
Proof. exact default_padding_le. Qed.

Lemma request_of_ok r memo : request_ok r -> request_ok (request_of r memo).
Proof. done. Qed.

Lemma even_split_1 pool v memo : even_split pool 1 v memo = [cv_shielded pool v memo].
Proof. unfold even_split. rewrite Z.div_1_r, Z.mod_1_r, Z.add_0_r. done. Qed.

(** A strategy with a single output proposes at most one output apart from the ephemeral
    one, whatever the fee rule and the amounts. *)
Theorem single_output_strategy_single {ZR : Zip317FeeRule} s p r b :
  request_ok r -> is_zat (rule_marginal_fee (so_fee_rule s)) ->
  (forall v, dust_threshold (so_dust_output_policy s) = Some v -> is_zat v) ->
  single_output_compute_balance s p r = Ok b ->
  (length (filter (fun c => is_ephemeral c = false) (proposed_change b)) <= 1)%nat /\
  inputs_total r = payments_total r + total b.
Proof using ZL FL.
  intros Hr Hz Hd H. unfold single_output_compute_balance in H.
  match type of H with single_pool_output_balance ?c _ _ = _ => set (cfg := c) in H end.
  assert (config_ok cfg) as Hcfg by (split; [apply single_output_ok|done]).
  pose proof (request_of_ok r (so_change_memo s) Hr) as Hr'.
  destruct (balance_facts cfg None _ b Hr' Hcfg I H)
    as (f & sic & mf & ch & _ & _ & _ & _ & Ho & Hpc & _ & _ & _ & Heq & _).
  split; [|exact Heq]. apply outcome_change_list in Ho; [|done..].
  rewrite Hpc, filter_app, length_app.
  assert (filter (fun c => is_ephemeral c = false)
            (ephemeral_change (request_of r (so_change_memo s))) = []) as ->.
  { unfold ephemeral_change. cbn. by destruct (ephemeral_balance r) as [[]|]. }
  destruct Ho as [|v|n v Hn Hv]; [cbn; lia | rewrite filter_cons, filter_nil; by case_decide |].
  cbn in Hn. assert (n = 1) as -> by lia. rewrite even_split_1, filter_cons, filter_nil.
  by case_decide.
Qed.
End Strategies.
