(* ===== verification/FeeSample.v ===== *)
(** * A sample fee environment

    An instance of the interfaces of [ChangeBalance], with a fee of 5000 zatoshis for each
    logical action and bundles padded to two actions, on which the theorems are evaluated. *)

From S2P Require Import Prelude WireReader Zatoshi Fees ChangeBalance ChangeProofs.
From S2P Require Import ChangeTheorems FeeCoverage UneconomicInputs ChangeStrategies.

Definition ceil_div (a b : Z) : Z := (a + b - 1) / b.

(** The flag says whether a spend and an output can share an action. *)
Definition sample_num_actions (p : BundlePadding) (paired : bool) (s o : Z) : res string Z :=
  let n := if paired then Z.max 0 (Z.max s o) else Z.max 0 s + Z.max 0 o in
  Ok (if bundle_required p || (0 <? n) then Z.max n (default 0 (pad_to_minimum p)) else 0).

Definition sample_fee (tin tout si so o i : Z) : res string Z :=
  let v := 5000 * Z.max 2 (Z.max tin tout + Z.max si so + o + i) in
  if v <=? sample_max_money then Ok v else Err "fee out of range"%string.

#[global] Instance sample_fee_env : FeeEnv := {|
  OutPoint := Z; NoteRefT := Z; MemoBytes := Z; InputSize := Z;
  STANDARD_P2PKH := 150; P2PKH_STANDARD_OUTPUT_SIZE := 34; MINIMUM_FEE := 10000;
  SaplingBundleType := unit;
  num_spends _ s := Ok s;
  num_outputs _ s o := Ok (if 0 <? Z.max s o then Z.max o 2 else 0);
  OrchardBundleType := BundlePadding; OrchardFlags := bool; BundleVersion := bool;
  default_flags v := v;
  num_actions := sample_num_actions;
  padding_bundle_type p := p;
  PADDING_DEFAULT := MkBundlePadding false (Some 2);
  PADDING_UNPADDED := MkBundlePadding false None;
  Params := unit;
  is_nu6_3_active _ h := 1000 <=? h;
  FeeRuleT := unit; FeeError := string; StrategyErr := string;
  fee_required _ _ _ ti to_ si so o i :=
    sample_fee (ceil_div (zsum ti) 150) (ceil_div (zsum to_) 34) si so o i;
  from_fee_error e := e;
  from_balance_error e :=
    match e with Overflow => "overflow"%string | Underflow => "underflow"%string end;
  PoolMigrationParams := unit;
  is_canonical_denomination _ v := v =? 100000000;
  anchor_is_boundary _ h := h mod 16 =? 0
|}.

#[global] Existing Instances sample_protocol sample_zatoshis sample_zatoshis_laws.

Lemma sample_num_actions_mono p f s o o' n' :
  o <= o' -> sample_num_actions p f s o' = Ok n' ->
  exists n, sample_num_actions p f s o = Ok n /\ n <= n'.
Proof.
  intros Ho [= <-]. eexists; split; [done|].
  destruct (bundle_required p), f; cbn [orb]; repeat zcase_step; lia.
Qed.

#[global] Instance sample_fee_laws : FeeEnvLaws.
Proof.
  split.
  - cbn. unfold sample_fee, is_zat. intros. zcases; simplify_eq. cbn. lia.
  - cbn. unfold sample_max_money. lia.
  - cbn. intros bt s o n [= <-]. zcases; lia.
  - cbn. unfold sample_num_actions. intros p f s o n [= <-].
    destruct (bundle_required p), f; cbn [orb]; repeat zcase_step; lia.
Qed.

#[global] Instance sample_fee_monotone : FeeMonotone.
Proof.
  split.
  - cbn. intros bt s o o' n' Ho [= <-]. eexists; split; [done|]. zcases; lia.
  - intros. by eapply sample_num_actions_mono.
  - cbn. unfold sample_num_actions. cbn. intros f s o n [= <-]. eexists; split; [done|].
    destruct f; repeat zcase_step; lia.
  - cbn. unfold sample_fee. intros rule p h ti to_ si so so' o o' i i' v' Hs Ho Hi Hv.
    remember (Z.max (ceil_div (zsum ti) 150) (ceil_div (zsum to_) 34)) as t eqn:Et. clear Et.
    destruct (Z.leb_spec (5000 * Z.max 2 (t + Z.max si so' + o' + i')) sample_max_money);
      simplify_eq.
    destruct (Z.leb_spec (5000 * Z.max 2 (t + Z.max si so + o + i)) sample_max_money); [|lia].
    eexists; split; [done|]. lia.
Qed.

(** ** Requests *)

(** A wallet with two notes that aims at four, and its configuration. *)
Definition sample_cfg : SinglePoolBalanceConfig := {|
  params := (); fee_rule := (); dust_output_policy := dust_output_policy_default;
  default_dust_threshold := 5000; split_policy := MkSplitPolicy 4 None;
  fallback_change_pool := OrchardPool; transparent_change_policy := ShieldChange;
  marginal_fee := 5000; grace_actions := 2 |}.

Definition sample_meta : AccountMeta :=
  MkAccountMeta (Some (MkPoolMeta 1 1000000)) (Some (MkPoolMeta 1 2000000)) None.

(** The payment of one canonical denomination from an Orchard note into Ironwood after
    activation, from an anchor on the grid; possibly with an ephemeral output. *)
Definition crossing (ephemeral : option EphemeralBalance) : ChangeRequest := {|
  target_height := 2000; transparent_inputs := []; transparent_outputs := [];
  sapling := MkSBundleView () [] [];
  orchard := MkOBundleView false [MkOInputView 7 300000000 false] [];
  ironwood := MkOBundleView true [] [100000000];
  orchard_padding := PADDING_DEFAULT; anchor_height := 1600; zip318 := ();
  change_memo := None; ephemeral_balance := ephemeral |}.

#[global] Instance sample_count_laws : CountLaws.
Proof.
  split; cbn; [| | |lia..].
  - intros _ s n Hs [= <-]. lia.
  - intros _ s o n Hs Ho [= <-]. zcases; lia.
  - intros p f s o n Hs Ho Hp [= <-]. destruct (_ || _), f; lia.
Qed.

(** Evaluates the bounds of a concrete request or configuration. *)
Ltac fits := repeat split; vm_compute; discriminate.

Ltac zat_list := repeat constructor; unfold is_zat; cbn; unfold sample_max_money; lia.

Lemma crossing_ok e : (forall v, e = Some (EphemeralInput v) \/ e = Some (EphemeralOutput v) -> is_zat v) ->
  request_ok (crossing e).
Proof.
  intros He. unfold request_ok, crossing. cbn. split_and!; try zat_list.
  destruct e as [[v|v]|]; [apply He; by left|apply He; by right|done].
Qed.

Lemma sample_cfg_ok : config_ok sample_cfg.
Proof.
  unfold config_ok, sample_cfg, split_policy_ok, is_zat. cbn. unfold sample_max_money.
  split_and!; try lia; done.
Qed.

Lemma sample_meta_ok : meta_ok sample_meta.
Proof. unfold meta_ok, is_zat. cbn. unfold sample_max_money. split_and!; try lia. repeat constructor; cbn; lia. Qed.

(** The balance of the crossing: two Orchard change outputs. *)
Definition crossing_balance : TransactionBalance Z :=
  MkTransactionBalance
    [CVShielded OrchardPool 99987500 None; CVShielded OrchardPool 99987500 None] 25000 200000000
    (Some (MkDummyOutputCounts 0 1 1)).

Lemma crossing_run :
  single_pool_output_balance sample_cfg (Some sample_meta) (crossing None) = Ok crossing_balance.
Proof. reflexivity. Qed.

Lemma balance_conserves_value_witness :
  inputs_total (crossing None) = payments_total (crossing None) + total crossing_balance /\
  payments_total (crossing None) = 100000000 /\ total crossing_balance = 200000000.
Proof.
  split; [|done].
  refine (proj1 (balance_conserves_value sample_cfg (Some sample_meta) (crossing None)
    crossing_balance _ sample_cfg_ok sample_meta_ok crossing_run)).
  apply crossing_ok. intros v [H|H]; discriminate H.
Defined.

Lemma crossing_None_ok : request_ok (crossing None).
Proof. apply crossing_ok. intros v [H|H]; discriminate H. Qed.

Lemma split_count_largest_witness :
  exists c, split_count (MkSplitPolicy 4 None) (Some 1) (Some 2000000) 1000000 = Ok c /\
    1 <= c <= 3 /\ c = 3.
Proof.
  destruct (split_count_largest (MkSplitPolicy 4 None) (Some 1) (Some 2000000) 1000000)
    as (c & Hc & Hb & _).
  - unfold split_policy_ok. cbn. lia.
  - unfold is_zat. cbn. unfold sample_max_money. lia.
  - intros n [= <-]. lia.
  - intros v [= <-]. unfold is_zat. cbn. unfold sample_max_money. lia.
  - exists c. split; [exact Hc|]. split; [exact Hb|]. vm_compute in Hc. congruence.
Defined.

Lemma change_shape_witness :
  exists f pool ch, calculate_net_flows (crossing None) = Ok f /\
    proposed_change crossing_balance = ch ++ ephemeral_change (crossing None) /\
    change_list sample_cfg (Some sample_meta) (crossing None) f pool ch.
Proof.
  destruct (change_shape sample_cfg (Some sample_meta) (crossing None) crossing_balance
    crossing_None_ok sample_cfg_ok sample_meta_ok crossing_run) as (f & pool & ch & H1 & H2 & H3 & _).
  exists f, pool, ch. done.
Defined.

Lemma orchard_turnstile_witness :
  pool_change OrchardPool (proposed_change crossing_balance) < 300000000.
Proof.
  apply (orchard_turnstile sample_cfg (Some sample_meta) (crossing None) crossing_balance
    (CVShielded OrchardPool 99987500 None) crossing_None_ok sample_cfg_ok sample_meta_ok);
    [reflexivity | exact crossing_run | left | reflexivity].
Defined.

Lemma fee_covers_shape_witness :
  exists d sic v, dummy_outputs crossing_balance = Some d /\ num_spends () 0 = Ok sic /\
    fee_of_shape sample_cfg (crossing None) (proposed_change crossing_balance) d sic = Ok v /\
    v <= 25000.
Proof.
  apply (fee_covers_shape sample_cfg (Some sample_meta) (crossing None) crossing_balance
    crossing_None_ok sample_cfg_ok sample_meta_ok);
    [discriminate | by left | exact crossing_run].
Defined.


(** ** Dust inputs *)

(** A transaction that spends one large and [k] small notes of the Orchard pool; [paired]
    says whether a spend and an output share an action in that pool. *)
Definition dusty (paired : bool) (k : nat) : ChangeRequest := {|
  target_height := 2000; transparent_inputs := []; transparent_outputs := [];
  sapling := MkSBundleView () [] [];
  orchard := MkOBundleView paired
    (MkOInputView 7 300000000 false :: replicate k (MkOInputView 8 4000 false)) [];
  ironwood := MkOBundleView true [] [200000000];
  orchard_padding := PADDING_DEFAULT; anchor_height := 1600; zip318 := ();
  change_memo := None; ephemeral_balance := None |}.

Lemma dusty_paired k : paired_pools (dusty true k).
Proof.
  split; [|split]; [| |done].
  - cbn. intros s s' o a b a' b' Hs [= <-] [= <-] [= <-] [= <-]. zcases; lia.
  - intros v bt s s' o a a' [-> | ->] Hs; cbn; intros [= <-] [= <-];
      destruct (bundle_required bt); cbn [orb]; repeat zcase_step; lia.
Qed.

Lemma uneconomic_check_spec_witness :
  exists n, hypothetical_actions (dusty true 1) 0 (MkManifest 0 0 2 0) (input_counts (dusty true 1)) manifest_zero = Ok n /\
    n <= 4.
Proof.
  refine (proj2 (proj2 (uneconomic_check_spec (dusty true 1) 5000 2 [MkManifest 0 0 2 0] _ _ _ _))
    _ (dusty_paired 1) (MkManifest 0 0 2 0) 4 _ _);
    [discriminate | fits | fits | repeat constructor; vm_compute; discriminate | reflexivity | left | reflexivity].
Defined.

(** ** Where the assumptions matter *)

(** A split policy that asks for [usize::MAX] change outputs, and a payment of three Sapling
    outputs: the number of outputs overflows, before the change is known to be too small. *)
Definition huge_split : SinglePoolBalanceConfig := {|
  params := (); fee_rule := (); dust_output_policy := dust_output_policy_default;
  default_dust_threshold := 5000; split_policy := MkSplitPolicy usize_max None;
  fallback_change_pool := OrchardPool; transparent_change_policy := ShieldChange;
  marginal_fee := 5000; grace_actions := 2 |}.
Definition three_sapling_outputs : ChangeRequest := {|
  target_height := 2000; transparent_inputs := []; transparent_outputs := [];
  sapling := MkSBundleView () [MkSInputView 7 300000000] [1000; 1000; 1000];
  orchard := MkOBundleView false [] []; ironwood := MkOBundleView true [] [];
  orchard_padding := PADDING_DEFAULT; anchor_height := 1600; zip318 := ();
  change_memo := None; ephemeral_balance := None |}.

Lemma split_target_overflows :
  request_fits three_sapling_outputs /\
  single_pool_output_balance huge_split (Some sample_meta) three_sapling_outputs = Err (Panicked AssertFailed).
Proof. split; [fits | reflexivity]. Qed.

(** With an ephemeral output, a payment that is otherwise a canonical crossing pays the fee
    of the unpadded Ironwood bundle, but records a padded one: the fee rule asks for more than
    the balance pays for the shape that it records. *)
Definition underpaid : TransactionBalance Z :=
  MkTransactionBalance [CVShielded OrchardPool 199930000 None; CVEphemeralTransparent 50000]
    20000 200000000 (Some (MkDummyOutputCounts 0 1 1)).

Lemma ephemeral_crossing_underpays :
  single_pool_output_balance sample_cfg None (crossing (Some (EphemeralOutput 50000)))
    = Ok underpaid /\
  fee_of_shape sample_cfg (crossing (Some (EphemeralOutput 50000))) (proposed_change underpaid)
    (MkDummyOutputCounts 0 1 1) 0 = Ok 25000.
Proof. split; reflexivity. Qed.

(** Where spends and outputs do not share actions, a dust input is accepted that raises the
    number of logical actions, and so costs more than it is worth. *)
Lemma accepted_dust_can_cost :
  check_for_uneconomic_inputs (dusty false 1) 5000 2 [MkManifest 0 0 2 0] = Ok () /\
  hypothetical_actions (dusty false 1) 0 (MkManifest 0 0 2 0)
    (non_dust_counts (dusty false 1) 5000) manifest_zero = Ok 5 /\
  hypothetical_actions (dusty false 1) 0 (MkManifest 0 0 2 0) (input_counts (dusty false 1)) manifest_zero = Ok 6.
Proof. split; [reflexivity|]. split; reflexivity. Qed.

(** A one-time note of value zero in an otherwise transparent transaction, under a strategy
    without a marginal fee: the fee is matched exactly, and there is no Ironwood change. *)
Definition fixed_cfg : SinglePoolBalanceConfig := {|
  params := (); fee_rule := (); dust_output_policy := dust_output_policy_default;
  default_dust_threshold := 5000; split_policy := single_output;
  fallback_change_pool := OrchardPool; transparent_change_policy := ShieldChange;
  marginal_fee := 0; grace_actions := 0 |}.

Definition zero_one_time : ChangeRequest := {|
  target_height := 2000; transparent_inputs := [MkTInputView 1 115000 150];
  transparent_outputs := [MkTOutputView 100000 34];
  sapling := MkSBundleView () [] [];
  orchard := MkOBundleView false [] [];
  ironwood := MkOBundleView true [MkOInputView 9 0 true] [];
  orchard_padding := PADDING_DEFAULT; anchor_height := 1600; zip318 := ();
  change_memo := None; ephemeral_balance := None |}.

Lemma zero_one_time_no_marker :
  one_time_marker zero_one_time = true /\
  single_pool_output_balance fixed_cfg None zero_one_time
    = Ok (MkTransactionBalance [] 15000 15000 (Some (MkDummyOutputCounts 0 0 2))).
Proof. split; reflexivity. Qed.
