(* ===== verification/Proposal.v ===== *)
(** * Proposals ([zcash_client_backend/src/proposal.rs])

    A proposal is a series of steps, each of which is to become a transaction.  [Step::from_parts]
    and [Proposal::multi_step] validate what they are given; the other functions answer
    questions about a step that the transaction builder asks. *)

From Stdlib Require Import Sorting.Sorted.
From S2P Require Import Prelude WireReader Zatoshi Fees ChangeBalance.

Definition TxId : Type := list byte.

(** [wallet::OutputRef] *)
Record OutputRef : Type := MkOutputRef { or_txid : TxId; or_pool : PoolType; or_index : Z }.

#[global] Instance OutputRef_eq_dec : EqDecision OutputRef.
Proof. solve_decision. Defined.
#[global] Instance OutputRef_countable : Countable OutputRef.
Proof.
  refine (inj_countable' (fun r => (or_txid r, or_pool r, or_index r))
    (fun p => MkOutputRef p.1.1 p.1.2 p.2) _). by intros [].
Defined.

(** A [BTreeMap<usize, A>] is the list of its entries in the order of their keys. *)
Definition btree (A : Type) : Type := list (Z * A).

Definition bt_get {A} (k : Z) (m : btree A) : option A :=
  snd <$> List.find (fun e => fst e =? k) m.

(** The keys of a [BTreeMap] are strictly ascending. *)
Definition bt_ok {A} (m : btree A) : Prop := StronglySorted Z.lt (map fst m).

(** [StepOutputIndex] and [StepOutput] *)
Inductive StepOutputIndex : Type := PaymentOutput (i : Z) | ChangeOutput (i : Z).
Record StepOutput : Type := MkStepOutput { step_index : Z; output_index : StepOutputIndex }.

#[global] Instance StepOutputIndex_eq_dec : EqDecision StepOutputIndex.
Proof. solve_decision. Defined.
#[global] Instance StepOutput_eq_dec : EqDecision StepOutput.
Proof. solve_decision. Defined.
#[global] Instance StepOutput_countable : Countable StepOutput.
Proof.
  refine (inj_countable'
    (fun r => (step_index r, match output_index r with
                             | PaymentOutput i => inl i | ChangeOutput i => inr i end))
    (fun p => MkStepOutput p.1 (match p.2 with inl i => PaymentOutput i | inr i => ChangeOutput i end)) _).
  by intros [? []].
Defined.

(** The items of other crates: addresses and the total of a ZIP 321 request, and the checks
    of a target height. *)
Class ProposalEnv {FE : FeeEnv} : Type := {
  Address : Type;
  Zip321Error : Type;
  can_receive_as : Address -> PoolType -> bool;
  (* TransactionRequest::total, of the amounts of its payments *)
  amounts_total : list (option Z) -> option (option Z);
  branch_for_height : Params -> Z -> BranchId;
  is_nu7_active : Params -> Z -> bool;
  SAPLING_DEFAULT : SaplingBundleType;
  orchard_v3 : BundleVersion;
  ironwood_v3 : BundleVersion;
  check_shielded_budget : Params -> Z -> Z -> Z -> Z -> Z -> option string
}.

Section Proposals.
Context {ZP : ZcashProtocol} {ZO : ZatoshisOps} {FE : FeeEnv} {PE : ProposalEnv}.

(** [ProposalError] *)
Inductive ProposalError : Type :=
| ShieldedBudget (reason : string)
| ObsoleteConsensusBranch (proposed current : BranchId)
| RequestTotalInvalid
| PropOverflow
| PropBalanceError (input_total output_total : Z)
| ShieldingInvalid
| AnchorNotFound (h : Z)
| MissingShieldedAnchor
| ReferenceError (r : StepOutput)
| StepDoubleSpend (r : StepOutput)
| ChainDoubleSpend (r : OutputRef)
| InputsLocked (r : OutputRef)
| PaymentPoolsMismatch
| SpendsChange (r : StepOutput)
| Zip321 (e : Zip321Error)
| PaymentAmountMissing (idx : Z)
| EphemeralOutputLeftUnspent (r : StepOutput)
| PaysTexFromShielded
| EphemeralOutputsInvalid
| EphemeralAddressLinkability
| ShieldingRequiresShieldedRecipient
| IncompatibleTxVersion (b : BranchId)
| OrchardReceiverRequiresIronwood (version : Z)
| OrchardPoolValueCreation (input_total output_total : Z)
| OrchardPoolPayment (idx : Z).

(** [zip321::Payment] and [TransactionRequest], by the parts that are read. *)
Record Payment : Type := MkPayment { recipient_address : Address; amount : option Z }.
Record TransactionRequest : Type := MkTransactionRequest { payments : btree Payment }.

(** [WalletTransparentOutput] and [ReceivedNote], by the parts that are read; [t_input_size] is
    what [serialized_size] reports. *)
Record WalletTransparentOutput : Type := MkWalletTransparentOutput {
  outpoint_hash : TxId; outpoint_n : Z; txout_value : Z; t_input_size : InputSize }.
Record ReceivedNote : Type := MkReceivedNote {
  note_txid : TxId; note_output_index : Z; note_pool : ShieldedPool; note_value : Z }.

(** [Step] *)
Record Step : Type := MkStep {
  transaction_request : TransactionRequest;
  payment_pools : btree PoolType;
  step_transparent_inputs : list WalletTransparentOutput;
  shielded_inputs : option (list ReceivedNote);
  step_anchor_height : option Z;
  prior_step_inputs : list StepOutput;
  balance : TransactionBalance MemoBytes;
  is_shielding : bool }.

Definition is_shielded (p : PoolType) : bool :=
  match p with Shielded _ => true | TransparentPool => false end.

Definition produces_shielded_bundle (has_shielded_inputs : bool) (pools : btree PoolType)
    (b : TransactionBalance MemoBytes) : bool :=
  has_shielded_inputs || existsb (fun e => is_shielded (snd e)) pools
  || existsb (fun c => is_shielded (output_pool c)) (proposed_change b).

(** The notes of the shielded inputs, if any. *)
Definition notes_of (s : option (list ReceivedNote)) : list ReceivedNote := default [] s.

(** [try_fold(Zatoshis::ZERO, |acc, a| acc + a)] *)
Definition checked_total (l : list Z) : option Z :=
  foldl (fun acc a => acc ≫= fun acc => zat_add acc a) (Some 0) l.

Definition total_or_overflow (l : list Z) : res ProposalError Z := ok_or (checked_total l) PropOverflow.

(** One iteration of the check of the payment pools. *)
Definition check_payment_pool (req : TransactionRequest) (e : Z * PoolType) : res ProposalError unit :=
  let (idx, pool) := e in
  match bt_get idx (payments req) with
  | Some payment =>
      let deliverable :=
        can_receive_as (recipient_address payment) pool
        || (bool_decide (pool = Shielded IronwoodPool)
            && can_receive_as (recipient_address payment) (Shielded OrchardPool)) in
      if negb deliverable then Err PaymentPoolsMismatch
      else if negb (is_some (amount payment)) then Err (PaymentAmountMissing idx)
      else Ok ()
  | None => Err PaymentPoolsMismatch
  end.

(** The value of an output of a prior step. *)
Definition prior_output_value (prior_steps : list Step) (r : StepOutput) : res ProposalError Z :=
  step ← ok_or (prior_steps !! Z.to_nat (step_index r)) (ReferenceError r);
  match output_index r with
  | PaymentOutput i =>
      payment ← ok_or (bt_get i (payments (transaction_request step))) (ReferenceError r);
      ok_or (amount payment) (PaymentAmountMissing i)
  | ChangeOutput i =>
      c ← ok_or (proposed_change (balance step) !! Z.to_nat i) (ReferenceError r);
      Ok (cv_value c)
  end.

(** The check of the Orchard turnstile. *)
Definition check_turnstile (pools : btree PoolType) (inputs : option (list ReceivedNote))
    (b : TransactionBalance MemoBytes) : res ProposalError unit :=
  match List.find (fun e => bool_decide (snd e = Shielded OrchardPool)) pools with
  | Some (index, _) => Err (OrchardPoolPayment index)
  | None =>
      orchard_input_total ← total_or_overflow
        (map note_value (filter (fun n => note_pool n = OrchardPool) (notes_of inputs)));
      orchard_change_total ← total_or_overflow
        (map cv_value (filter (fun c => output_pool c = Shielded OrchardPool) (proposed_change b)));
      if is_positive orchard_change_total && (orchard_input_total <=? orchard_change_total)
      then Err (OrchardPoolValueCreation orchard_input_total orchard_change_total)
      else Ok ()
  end.

(** [Step::from_parts] *)
Definition from_parts (prior_steps : list Step) (req : TransactionRequest)
    (pools : btree PoolType) (t_inputs : list WalletTransparentOutput)
    (s_inputs : option (list ReceivedNote)) (anchor : option Z) (prior_inputs : list StepOutput)
    (b : TransactionBalance MemoBytes) (shielding ironwood_active : bool)
    : run ProposalError Step :=
  _ ← fails (if negb (zlen (payments req) =? zlen pools) then Err PaymentPoolsMismatch else Ok ());
  _ ← fails (foldM (fun _ e => check_payment_pool req e) () pools);
  transparent_input_total ← fails (foldM (fun acc a => ok_or (zat_add acc a) PropOverflow) 0
                                     (map txout_value t_inputs));
  shielded_input_total ← fails (total_or_overflow (map note_value (notes_of s_inputs)));
  prior_values ← fails (mapM_res (prior_output_value prior_steps) prior_inputs);
  prior_step_input_total ← fails (total_or_overflow prior_values);
  input_total ← fails (ok_or (zat_add_opt (zat_add transparent_input_total shielded_input_total)
                                prior_step_input_total) PropOverflow);
  request_total ← fails (ok_or (amounts_total (map (fun e => amount (snd e)) (payments req)))
                           RequestTotalInvalid);
  request_total ← panics (expect request_total);
  output_total ← fails (ok_or (zat_add request_total (total b)) PropOverflow);
  _ ← fails (if shielding && ((transparent_input_total =? 0) || (0 <? shielded_input_total)
                              || (0 <? request_total))
             then Err ShieldingInvalid else Ok ());
  _ ← fails (if ironwood_active then check_turnstile pools s_inputs b else Ok ());
  _ ← fails (if negb (is_some anchor) && produces_shielded_bundle (is_some s_inputs) pools b
             then Err MissingShieldedAnchor else Ok ());
  if input_total =? output_total
  then Ok (MkStep req pools t_inputs s_inputs anchor prior_inputs b shielding)
  else Err (Failed (PropBalanceError input_total output_total)).

(** ** Proposals *)

(** [Proposal]; the confirmations policy is carried along and not read here. *)
Record Proposal : Type := MkProposal {
  prop_fee_rule : FeeRuleT; min_target_height : Z; steps : list Step;
  proposed_version : option Z }.

(** The references to the outputs on chain that a step consumes, in the order of the code. *)
Definition transparent_ref (t : WalletTransparentOutput) : OutputRef :=
  MkOutputRef (outpoint_hash t) TransparentPool (outpoint_n t).
Definition note_ref (n : ReceivedNote) : OutputRef :=
  MkOutputRef (note_txid n) (Shielded (note_pool n)) (note_output_index n).

(** The state of the loop of [multi_step]: the inputs consumed so far. *)
Record Consumed : Type := MkConsumed { chain_inputs : gset OutputRef; prior_inputs : gset StepOutput }.

Definition consume_chain (c : gset OutputRef) (r : OutputRef) : res ProposalError (gset OutputRef) :=
  if decide (r ∈ c) then Err (ChainDoubleSpend r) else Ok ({[ r ]} ∪ c).

(** The checks of one reference to a prior step. *)
Definition check_prior_ref (all : list Step) (i : Z) (c : gset StepOutput) (r : StepOutput)
    : run ProposalError (gset StepOutput) :=
  if i <=? step_index r then Err (Failed (ReferenceError r)) else
  prior_step ← panics (expect (all !! Z.to_nat (step_index r)));
  _ ← fails (match output_index r with
    | PaymentOutput idx =>
        if zlen (payments (transaction_request prior_step)) <=? idx
        then Err (ReferenceError r) else Ok ()
    | ChangeOutput idx =>
        if zlen (proposed_change (balance prior_step)) <=? idx
        then Err (ReferenceError r) else Ok ()
    end);
  if decide (r ∈ c) then Err (Failed (StepDoubleSpend r)) else Ok ({[ r ]} ∪ c).

(** One iteration of the outer loop of [multi_step], at the index [i]. *)
Definition check_step (all : list Step) (c : Consumed) (istep : Z * Step) : run ProposalError Consumed :=
  let (i, step) := istep in
  prior ← foldM (check_prior_ref all i) (prior_inputs c) (prior_step_inputs step);
  chain ← fails (foldM consume_chain (chain_inputs c)
                   (map transparent_ref (step_transparent_inputs step)));
  chain ← fails (foldM consume_chain chain (map note_ref (notes_of (shielded_inputs step))));
  Ok (MkConsumed chain prior).

(** [Proposal::multi_step] *)
Definition multi_step (rule : FeeRuleT) (target : Z) (all : list Step) : run ProposalError Proposal :=
  _ ← foldM (check_step all) (MkConsumed ∅ ∅) (zip (map Z.of_nat (seq 0 (length all))) all);
  Ok (MkProposal rule target all None).

(** [Proposal::single_step] *)
Definition single_step (req : TransactionRequest) (pools : btree PoolType)
    (t_inputs : list WalletTransparentOutput) (s_inputs : option (list ReceivedNote)) (anchor : Z)
    (b : TransactionBalance MemoBytes) (rule : FeeRuleT) (target : Z)
    (shielding ironwood_active : bool) : run ProposalError Proposal :=
  step ← from_parts [] req pools t_inputs s_inputs (Some anchor) [] b shielding ironwood_active;
  Ok (MkProposal rule target [step] None).

(** [Proposal::with_proposed_version] *)
Definition with_proposed_version (p : Proposal) (v : option Z) : Proposal :=
  MkProposal (prop_fee_rule p) (min_target_height p) (steps p) v.

(** ** Questions about a step *)

(** [Step::input_count_in_pool] *)
Definition input_count_in_pool (s : Step) (p : PoolType) : Z :=
  match p with
  | TransparentPool => zlen (step_transparent_inputs s)
  | Shielded pool => zlen (filter (fun n => note_pool n = pool) (notes_of (shielded_inputs s)))
  end.

(** [Step::output_count_in_pool] and [Step::change_count_in_pool] *)
Definition output_count_in_pool (s : Step) (p : PoolType) : Z :=
  zlen (filter (fun e => snd e = p) (payment_pools s)).
Definition change_count_in_pool (s : Step) (p : PoolType) : Z :=
  zlen (filter (fun c => output_pool c = p) (proposed_change (balance s))).

(** [Step::input_in_pool], [output_in_pool], [change_in_pool] and [involves] *)
Definition input_in_pool (s : Step) (p : PoolType) : bool :=
  match p with
  | TransparentPool => is_shielding s || negb (nil_list (step_transparent_inputs s))
  | Shielded pool =>
      existsb (fun n => bool_decide (note_pool n = pool)) (notes_of (shielded_inputs s))
  end.
Definition output_in_pool (s : Step) (p : PoolType) : bool :=
  existsb (fun e => bool_decide (snd e = p)) (payment_pools s).
Definition change_in_pool (s : Step) (p : PoolType) : bool :=
  existsb (fun c => bool_decide (output_pool c = p)) (proposed_change (balance s)).
Definition involves (s : Step) (p : PoolType) : bool :=
  input_in_pool s p || output_in_pool s p || change_in_pool s p.

(** [Proposal::input_count_in_pool] *)
Definition proposal_input_count_in_pool (p : Proposal) (pool : PoolType) : Z :=
  foldr Z.add 0 (map (fun s => input_count_in_pool s pool) (steps p)).

(** [Step::sole_ironwood_payment_value] *)
Definition sole_ironwood_payment_value (s : Step) : option Z :=
  match map (fun e => bt_get (fst e) (payments (transaction_request s)) ≫= amount)
          (filter (fun e => snd e = Shielded IronwoodPool) (payment_pools s)) with
  | [value] => value
  | _ => None
  end.

(** The bounds on the shape that both crossing predicates share. *)
Definition crossing_counts (s : Step) : bool :=
  (input_count_in_pool s (Shielded OrchardPool) =? 1)
  && (input_count_in_pool s (Shielded IronwoodPool) =? 0)
  && (change_count_in_pool s (Shielded IronwoodPool) =? 0)
  && (change_count_in_pool s (Shielded OrchardPool) <=? 1)
  && (change_count_in_pool s (Shielded SaplingPool) =? 0)
  && (change_count_in_pool s TransparentPool =? 0).

(** [Step::is_canonical_crossing] *)
Definition is_canonical_crossing (s : Step) (z : PoolMigrationParams) (canonical_fee : Z) : bool :=
  crossing_counts s
  && match sole_ironwood_payment_value s with
     | Some value => is_canonical_denomination z value
     | None => false
     end
  && match step_anchor_height s with Some anchor => anchor_is_boundary z anchor | None => false end
  && (fee_required_of (balance s) =? canonical_fee).

(** [Step::is_built_as_canonical_crossing] *)
Definition is_built_as_canonical_crossing (s : Step) (canonical_fee : Z) : bool :=
  crossing_counts s && is_some (sole_ironwood_payment_value s)
  && match dummy_outputs (balance s) with Some d => dummy_ironwood d =? 0 | None => false end
  && (fee_required_of (balance s) =? canonical_fee).

(** [Step::ironwood_bundle_padding] *)
Definition ironwood_bundle_padding (s : Step) : BundlePadding :=
  match dummy_outputs (balance s) with
  | None => PADDING_DEFAULT
  | Some d =>
      let real_outputs := output_count_in_pool s (Shielded IronwoodPool)
                          + change_count_in_pool s (Shielded IronwoodPool) in
      let target_actions := real_outputs + dummy_ironwood d in
      if target_actions <? 256 then
        MkBundlePadding
          ((0 <? target_actions) && (input_count_in_pool s (Shielded IronwoodPool) =? 0)
           && (real_outputs =? 0))
          (Some (Z.max target_actions 1))
      else PADDING_UNPADDED
  end.

(** [Step::orchard_style_action_count], [orchard_action_count], [ironwood_action_count] *)
Definition orchard_style_action_count (s : Step) (pool : PoolType) (padding : BundlePadding)
    (v : BundleVersion) : res string Z :=
  transactional_action_count (padding_bundle_type padding) v (input_count_in_pool s pool)
    (output_count_in_pool s pool + change_count_in_pool s pool).
Definition step_orchard_action_count (s : Step) (padding : BundlePadding) (v : BundleVersion)
    : res string Z := orchard_style_action_count s (Shielded OrchardPool) padding v.
Definition step_ironwood_action_count (s : Step) (padding : BundlePadding) (v : BundleVersion)
    : res string Z := orchard_style_action_count s (Shielded IronwoodPool) padding v.

(** One iteration of [validate_shielded_budget]. *)
Definition check_budget (p : Params) (target : Z) (s : Step) : res ProposalError unit :=
  let spends := input_count_in_pool s (Shielded SaplingPool) in
  let outputs := output_count_in_pool s (Shielded SaplingPool)
                 + change_count_in_pool s (Shielded SaplingPool) in
  sapling_spends ← map_err ShieldedBudget (num_spends SAPLING_DEFAULT spends);
  sapling_outputs ← map_err ShieldedBudget (num_outputs SAPLING_DEFAULT spends outputs);
  orchard ← map_err ShieldedBudget (step_orchard_action_count s PADDING_DEFAULT orchard_v3);
  ironwood ← map_err ShieldedBudget
    (step_ironwood_action_count s (ironwood_bundle_padding s) ironwood_v3);
  match check_shielded_budget p target sapling_spends sapling_outputs orchard ironwood with
  | Some reason => Err (ShieldedBudget reason)
  | None => Ok ()
  end.

(** [Proposal::validate_shielded_budget] *)
Definition validate_shielded_budget (prop : Proposal) (p : Params) : res ProposalError unit :=
  if negb (is_nu7_active p (min_target_height prop)) then Ok ()
  else foldM (fun _ s => check_budget p (min_target_height prop) s) () (steps prop).

(** [Proposal::validate_for_current_target] *)
Definition validate_for_current_target (prop : Proposal) (p : Params) (current_target : Z)
    : res ProposalError unit :=
  let proposed := branch_for_height p (min_target_height prop) in
  let current := branch_for_height p current_target in
  if decide (proposed = current) then validate_shielded_budget prop p
  else Err (ObsoleteConsensusBranch proposed current).
End Proposals.
