(* ===== verification/ProposalProofs.v ===== *)
(** * Proposals: what validation accepts

    [Step::from_parts] accepts exactly the balanced steps that respect the turnstile, and
    [Proposal::multi_step] exactly the series of steps without double spends. *)

From Stdlib Require Import Sorting.Sorted.
From S2P Require Import Prelude WireReader Zatoshi Fees ChangeBalance ChangeProofs.
From S2P Require Import Proposal.

(** ** Ordered maps *)

Section BTree.
Context {A : Type}.

Lemma bt_ok_NoDup (m : btree A) : bt_ok m -> NoDup (map fst m).
Proof.
  unfold bt_ok. induction 1 as [|k l Hs IH Hf]; [constructor|]. constructor; [|done].
  intros Hin. rewrite Forall_forall in Hf. specialize (Hf k Hin). lia.
Qed.

Lemma bt_get_Some (m : btree A) k a : bt_ok m -> bt_get k m = Some a <-> (k, a) ∈ m.
Proof.
  intros Hm%bt_ok_NoDup. unfold bt_get. rewrite fmap_Some. split.
  - intros ([k' a'] & Hf & ->). apply find_some in Hf as [Hin Hk]. apply Z.eqb_eq in Hk. cbn in *.
    subst. by apply list_elem_of_In.
  - intros Hin. destruct (List.find (fun e => fst e =? k) m) as [[k' a']|] eqn:E.
    + exists (k', a'). split; [done|]. apply find_some in E as [Hin' Hk]. apply Z.eqb_eq in Hk.
      apply list_elem_of_In in Hin'. cbn in *. subst k'.
      clear -Hm Hin Hin'. induction m as [|[k0 a0] m IH]; [by apply elem_of_nil in Hin|].
      cbn in Hm. apply NoDup_cons in Hm as [Hk Hm].
      assert (forall x, (k, x) ∈ m -> k ∈ map fst m) as Hkey.
      { intros x Hx. change k with (fst (k, x)). by apply (list_elem_of_fmap_2 fst). }
      apply elem_of_cons in Hin as [[= -> ->]|Hin], Hin' as [[= ->]|Hin']; cbn; try done.
      * by apply Hkey in Hin'.
      * subst. by apply Hkey in Hin.
      * auto.
    + apply list_elem_of_In in Hin. apply (find_none _ _ E) in Hin. cbn in Hin.
      by rewrite Z.eqb_refl in Hin.
Qed.
End BTree.

(** If every key of [m] is a key of [k] and there are as many, then the keys are the same. *)
Lemma bt_same_keys {A B} (m : btree A) (k : btree B) :
  bt_ok m -> bt_ok k -> length k = length m ->
  (forall e, e ∈ m -> is_Some (bt_get (fst e) k)) ->
  forall e, e ∈ k -> exists a, (fst e, a) ∈ m.
Proof.
  intros Hm Hk Hlen Hsub e He.
  assert (map fst m ≡ₚ map fst k) as Hp.
  { apply submseteq_length_Permutation.
    - apply NoDup_submseteq; [by apply bt_ok_NoDup|]. intros x Hx.
      apply (list_elem_of_fmap_1 fst) in Hx as (e' & -> & He').
      destruct (Hsub e' He') as [b Hb]. apply bt_get_Some in Hb; [|done].
      change (fst e') with (fst (fst e', b)). by apply (list_elem_of_fmap_2 fst).
    - rewrite !length_map. lia. }
  assert (fst e ∈ map fst m) as Hin.
  { rewrite Hp. by apply (list_elem_of_fmap_2 fst). }
  apply (list_elem_of_fmap_1 fst) in Hin as ([k0 a] & Hk0 & Ha). cbn in Hk0. subst. by exists a.
Qed.

(** ** Totals *)

Section Totals.
Context {ZP : ZcashProtocol} {ZO : ZatoshisOps} {ZL : ZatoshisLaws}.

Lemma foldM_total_Ok {E} (e : E) l acc v :
  Forall is_zat l -> is_zat acc ->
  foldM (fun acc a => ok_or (zat_add acc a) e) acc l = Ok v <-> v = acc + zsum l /\ is_zat v.
Proof using ZL.
  intros Hl. revert acc. induction Hl as [|a l Ha Hl IH]; intros acc Hacc; cbn [foldM].
  - cbn [zsum foldr]. rewrite Z.add_0_r. split; [by intros [= <-]|by intros [-> _]].
  - rewrite res_bind_Ok. cbn [zsum foldr]. fold (zsum l). split.
    + intros (x & Hx & H). unwrap_ok Hx. apply zat_add_Some in Hx as [-> Hz]; [|done..].
      apply IH in H as [-> ?]; [|done]. split; [lia|done].
    + intros [-> Hz]. pose proof (zsum_nonneg l Hl).
      assert (is_zat (acc + a)) as Hz' by (unfold is_zat in *; lia).
      exists (acc + a). rewrite (proj2 (zat_add_Some acc a _ Hacc Ha)) by done. split; [done|].
      apply IH; [done|]. split; [lia|done].
Qed.

Lemma checked_total_Some l v :
  Forall is_zat l -> checked_total l = Some v <-> v = zsum l /\ is_zat v.
Proof using ZL.
  intros Hl. pose proof (foldM_total_Ok () l 0 v Hl is_zat_0) as H. rewrite Z.add_0_l in H.
  rewrite <- H. clear H. unfold checked_total.
  assert (forall k, foldl (fun acc a => acc ≫= fun acc => zat_add acc a) None k = None) as HN.
  { induction k; cbn; auto. }
  generalize 0 as acc. clear Hl. induction l as [|a l IH]; intros acc; cbn [foldl foldM].
  - naive_solver.
  - rewrite res_bind_Ok. change (Some acc ≫= ?g) with (g acc). cbv beta.
    destruct (zat_add acc a) as [x|]; cbn [ok_or].
    + rewrite IH. naive_solver.
    + rewrite HN. naive_solver.
Qed.
End Totals.

(** The documented behaviour of [TransactionRequest::total]: the checked sum of the amounts,
    when there is an amount for every payment. *)
Class ProposalEnvLaws {ZP : ZcashProtocol} {FE : FeeEnv} {PE : ProposalEnv} : Prop := {
  amounts_total_spec : forall vs, Forall is_zat vs ->
    amounts_total (map Some vs) = Some <$> zat_checked (zsum vs) }.

Section Steps.
Context {ZP : ZcashProtocol} {ZO : ZatoshisOps} {FE : FeeEnv} {PE : ProposalEnv}.

(** The arguments of [Step::from_parts]. *)
Record StepParts : Type := MkParts {
  p_request : TransactionRequest; p_pools : btree PoolType;
  p_transparent : list WalletTransparentOutput; p_shielded : option (list ReceivedNote);
  p_anchor : option Z; p_prior : list StepOutput; p_balance : TransactionBalance MemoBytes;
  p_shielding : bool }.

Definition step_from_parts (prior : list Step) (a : StepParts) (active : bool)
    : run ProposalError Step :=
  from_parts prior (p_request a) (p_pools a) (p_transparent a) (p_shielded a) (p_anchor a)
    (p_prior a) (p_balance a) (p_shielding a) active.

Definition step_of (a : StepParts) : Step :=
  MkStep (p_request a) (p_pools a) (p_transparent a) (p_shielded a) (p_anchor a)
    (p_prior a) (p_balance a) (p_shielding a).

(** The amounts are amounts, and the maps are maps: what the types of the code say. *)
Definition request_amounts_ok (req : TransactionRequest) : Prop :=
  bt_ok (payments req) /\
  forall i p v, (i, p) ∈ payments req -> amount p = Some v -> is_zat v.

Definition balance_ok (b : TransactionBalance MemoBytes) : Prop :=
  Forall is_zat (map cv_value (proposed_change b)) /\ is_zat (total b) /\
  is_zat (fee_required_of b) /\
  total b = zsum (map cv_value (proposed_change b)) + fee_required_of b.

Definition prior_ok (prior : list Step) : Prop :=
  Forall (fun s => request_amounts_ok (transaction_request s) /\ balance_ok (balance s)) prior.

Definition parts_ok (a : StepParts) : Prop :=
  request_amounts_ok (p_request a) /\ bt_ok (p_pools a) /\
  Forall is_zat (map txout_value (p_transparent a)) /\
  Forall is_zat (map note_value (notes_of (p_shielded a))) /\ balance_ok (p_balance a).

(** ** What a valid step is *)

(** The recipient of a payment can receive it in the chosen pool, and its amount is known. *)
Definition payment_ok (req : TransactionRequest) (e : Z * PoolType) : Prop :=
  exists p, bt_get (fst e) (payments req) = Some p /\ is_Some (amount p) /\
    (can_receive_as (recipient_address p) (snd e) = true \/
     (snd e = Shielded IronwoodPool /\
      can_receive_as (recipient_address p) (Shielded OrchardPool) = true)).

Definition request_sum (req : TransactionRequest) : Z :=
  zsum (map (fun e => default 0 (amount (snd e))) (payments req)).

(** After activation, nothing is paid into the Orchard pool, and less change goes there than
    the inputs take from it. *)
Definition turnstile_ok (a : StepParts) : Prop :=
  (forall e, e ∈ p_pools a -> snd e <> Shielded OrchardPool) /\
  let change := zsum (map cv_value
        (filter (fun c => output_pool c = Shielded OrchardPool) (proposed_change (p_balance a)))) in
  change = 0 \/
  change < zsum (map note_value
                   (filter (fun n => note_pool n = OrchardPool) (notes_of (p_shielded a)))).

(** The step is balanced and follows the rules that [Step::from_parts] documents. *)
Record step_valid (prior : list Step) (a : StepParts) (active : bool) : Prop := {
  sv_pools : length (p_pools a) = length (payments (p_request a));
  sv_payments : Forall (payment_ok (p_request a)) (p_pools a);
  sv_balanced : exists values,
    Forall2 (fun r v => prior_output_value prior r = Ok v) (p_prior a) values /\
    zsum (map txout_value (p_transparent a)) + zsum (map note_value (notes_of (p_shielded a)))
      + zsum values
    = request_sum (p_request a) + total (p_balance a);
  sv_range : is_zat (request_sum (p_request a) + total (p_balance a));
  sv_shielding : p_shielding a = true ->
    0 < zsum (map txout_value (p_transparent a)) /\
    zsum (map note_value (notes_of (p_shielded a))) = 0 /\ request_sum (p_request a) = 0;
  sv_turnstile : active = true -> turnstile_ok a;
  sv_anchor : produces_shielded_bundle (is_some (p_shielded a)) (p_pools a) (p_balance a) = true ->
    is_Some (p_anchor a) }.

(** ** Payments *)

Lemma check_payment_pool_Ok req e : check_payment_pool req e = Ok () <-> payment_ok req e.
Proof.
  destruct e as [idx pool]. unfold check_payment_pool, payment_ok. cbn [fst snd].
  destruct (bt_get idx (payments req)) as [p|]; [|naive_solver].
  transitivity (is_Some (amount p) /\
    (can_receive_as (recipient_address p) pool = true \/
     (pool = Shielded IronwoodPool /\
      can_receive_as (recipient_address p) (Shielded OrchardPool) = true))).
  - destruct (can_receive_as (recipient_address p) pool),
      (can_receive_as (recipient_address p) (Shielded OrchardPool)), (amount p) as [v|];
      case_bool_decide as Hb; cbn; split; intros Hx; try discriminate Hx; try done; eauto;
      destruct Hx as [[? ?] [?|[? ?]]]; congruence.
  - split; [by exists p|]. intros (p' & [= <-] & Hx). done.
Qed.

Lemma foldM_unit_Ok {E A} (f : A -> res E unit) l :
  foldM (fun _ e => f e) () l = Ok () <-> Forall (fun e => f e = Ok ()) l.
Proof.
  induction l as [|a l IH]; cbn [foldM]; [by split|].
  rewrite res_bind_Ok, Forall_cons, <- IH. split.
  - intros ([] & Ha & Hl). done.
  - intros [Ha Hl]. by exists ().
Qed.

(** With a pool for every payment, every payment has an amount. *)
Lemma all_amounts req pools :
  bt_ok (payments req) -> bt_ok pools -> length pools = length (payments req) ->
  Forall (payment_ok req) pools ->
  map (fun e => amount (snd e)) (payments req)
  = map Some (map (fun e => default 0 (amount (snd e))) (payments req)).
Proof.
  intros Hreq Hpools Hlen Hok. rewrite map_map. apply map_ext_in. intros e He%list_elem_of_In.
  destruct (bt_same_keys pools (payments req) Hpools Hreq ltac:(done)) with (e := e) as [pool Hp].
  - intros e' He'. rewrite Forall_forall in Hok. destruct (Hok e' He') as (p & Hp & _). by exists p.
  - done.
  - rewrite Forall_forall in Hok. destruct (Hok _ Hp) as (p & Hg & [v Hv] & _). cbn in Hg.
    apply bt_get_Some in Hg; [|done].
    assert (bt_get (fst e) (payments req) = Some (snd e)) as He2.
    { apply bt_get_Some; [done|]. by destruct e. }
    apply bt_get_Some in Hg; [|done]. rewrite He2 in Hg. injection Hg as ->. by rewrite Hv.
Qed.

Lemma request_amounts_zat req : request_amounts_ok req -> is_zat 0 ->
  Forall is_zat (map (fun e => default 0 (amount (snd e))) (payments req)).
Proof.
  intros [_ H] H0. apply Forall_map, Forall_forall. intros [i p] Hp. cbn.
  destruct (amount p) as [v|] eqn:E; [|done]. cbn. by eapply H.
Qed.

Context {ZL : ZatoshisLaws} {PL : ProposalEnvLaws}.

Lemma request_total_Ok req pools t :
  request_amounts_ok req -> bt_ok pools -> length pools = length (payments req) ->
  Forall (payment_ok req) pools ->
  amounts_total (map (fun e => amount (snd e)) (payments req)) = Some t <->
  t = Some (request_sum req) /\ is_zat (request_sum req).
Proof using ZL PL.
  intros Hr Hp Hlen Hok. rewrite (all_amounts req pools) by (done || apply Hr).
  rewrite amounts_total_spec by (apply request_amounts_zat; [done|apply is_zat_0]).
  fold (request_sum req). unfold zat_checked, is_zat. zcases; cbn; naive_solver lia.
Qed.

Lemma prior_output_value_zat prior r v :
  prior_ok prior -> prior_output_value prior r = Ok v -> is_zat v.
Proof.
  intros Hp H. unfold prior_output_value in H. bind_step H as s Hs.
  apply list_elem_of_lookup_2 in Hs. unfold prior_ok in Hp. rewrite Forall_forall in Hp.
  destruct (Hp s Hs) as [[Hbt Ha] (Hc & _)]. destruct (output_index r) as [i|i].
  - bind_step H as p Hpay. unwrap_ok H. apply bt_get_Some in Hpay; [|done]. by eapply Ha.
  - bind_step H as c Hcv. injection H as <-. apply list_elem_of_lookup_2 in Hcv.
    rewrite Forall_forall in Hc. apply Hc. by apply (list_elem_of_fmap_2 cv_value).
Qed.

Lemma prior_values_zat prior refs values :
  prior_ok prior -> Forall2 (fun r v => prior_output_value prior r = Ok v) refs values ->
  Forall is_zat values.
Proof.
  intros Hp H. induction H as [|r v refs values Hv _ IH]; constructor; [|done].
  by eapply prior_output_value_zat.
Qed.

Lemma total_or_overflow_Ok l v :
  Forall is_zat l -> total_or_overflow l = Ok v <-> v = zsum l /\ is_zat v.
Proof using ZL. intros Hl. unfold total_or_overflow. rewrite ok_or_Ok. by apply checked_total_Some. Qed.

Lemma Forall_is_zat_filter {A} (f : A -> Z) (P : A -> Prop) `{!forall x, Decision (P x)} l :
  Forall is_zat (map f l) -> Forall is_zat (map f (filter P l)).
Proof.
  rewrite !Forall_map, !Forall_forall. intros Hl x [_ Hx]%list_elem_of_filter. auto.
Qed.

Lemma zsum_filter_le {A} (f : A -> Z) (P : A -> Prop) `{!forall x, Decision (P x)} l :
  Forall is_zat (map f l) -> 0 <= zsum (map f (filter P l)) <= zsum (map f l).
Proof.
  unfold is_zat. induction l as [|c l IH]; [cbn; lia|]. rewrite filter_cons. cbn [map].
  rewrite Forall_cons. intros [Hc Hl]. specialize (IH Hl). unfold zsum in *.
  case_decide; cbn; lia.
Qed.

Lemma check_turnstile_Ok a :
  parts_ok a ->
  is_zat (zsum (map note_value (notes_of (p_shielded a)))) ->
  check_turnstile (p_pools a) (p_shielded a) (p_balance a) = Ok () <-> turnstile_ok a.
Proof using ZL.
  intros (_ & _ & _ & Hn & Hc & Hz2 & Hz3 & Htot) Hz1. unfold check_turnstile, turnstile_ok.
  pose proof (zsum_filter_le note_value (fun n => note_pool n = OrchardPool) _ Hn) as L1.
  pose proof (zsum_filter_le cv_value (fun c => output_pool c = Shielded OrchardPool) _ Hc) as L2.
  pose proof (Forall_is_zat_filter note_value (fun n => note_pool n = OrchardPool) _ Hn) as F1.
  pose proof (Forall_is_zat_filter cv_value (fun c => output_pool c = Shielded OrchardPool) _ Hc) as F2.
  destruct (List.find _ (p_pools a)) as [[i pl]|] eqn:Ef.
  - apply find_some in Ef as [Hin Hb]. apply bool_decide_eq_true in Hb.
    apply list_elem_of_In in Hin. split; [done|]. intros [Hno _]. by destruct (Hno _ Hin).
  - assert (forall e, e ∈ p_pools a -> snd e <> Shielded OrchardPool) as Hno.
    { intros e He. apply list_elem_of_In in He. apply (find_none _ _ Ef) in He.
      by apply bool_decide_eq_false in He. }
    rewrite res_bind_Ok. setoid_rewrite total_or_overflow_Ok; [|done].
    setoid_rewrite res_bind_Ok. setoid_rewrite total_or_overflow_Ok; [|done].
    unfold is_positive, is_zat in *. split.
    + intros (x & [-> _] & y & [-> _] & Hx). split; [done|]. zcases; [done|lia..].
    + intros [_ Hx]. eexists. split; [split; [done|lia]|]. eexists. split; [split; [done|lia]|].
      zcases; cbn; try done; lia.
Qed.

(** The steps of the successful run. *)
Lemma from_parts_sound prior a active s :
  parts_ok a -> prior_ok prior ->
  step_from_parts prior a active = Ok s -> s = step_of a /\ step_valid prior a active.
Proof using ZL PL.
  intros Ha Hprior H. pose proof Ha as (Hreq & Hpools & Ht & Hs & Hb). unfold step_from_parts, from_parts in H.
  bind_step H as u1 H1. destruct (Z.eqb_spec (zlen (payments (p_request a))) (zlen (p_pools a)))
    as [Hlen|]; [|done]. unfold zlen in Hlen.
  assert (length (p_pools a) = length (payments (p_request a))) as Hlen' by lia.
  bind_step H as u2 H2. destruct u2. apply foldM_unit_Ok in H2.
  assert (Forall (payment_ok (p_request a)) (p_pools a)) as Hpay.
  { eapply Forall_impl; [exact H2|]. intros e. apply check_payment_pool_Ok. }
  bind_step H as ti Hti. apply foldM_total_Ok in Hti as [-> Htiz]; [|done|apply is_zat_0].
  bind_step H as si Hsi. apply total_or_overflow_Ok in Hsi as [-> Hsiz]; [|done].
  bind_step H as pv Hpv. apply mapM_res_Ok in Hpv.
  pose proof (prior_values_zat _ _ _ Hprior Hpv) as Hpvz.
  bind_step H as pt Hpt. apply total_or_overflow_Ok in Hpt as [-> Hptz]; [|done].
  bind_step H as it Hit. rewrite zat_add_opt_spec, bind_Some in Hit.
  destruct Hit as (x & Hx & Hit). apply zat_add_Some in Hx as [-> Hxz]; [|done..].
  apply zat_add_Some in Hit as [-> Hitz]; [|done..].
  bind_step H as rt Hrt. apply (request_total_Ok _ (p_pools a)) in Hrt as [-> Hrtz]; [|done..].
  bind_step H as rt Hrt. injection Hrt as <-.
  bind_step H as ot Hot. apply zat_add_Some in Hot as [-> Hotz]; [|done|apply Hb].
  bind_step H as u3 H3. bind_step H as u4 H4. bind_step H as u5 H5.
  destruct (Z.eqb_spec (0 + zsum (map txout_value (p_transparent a))
    + zsum (map note_value (notes_of (p_shielded a))) + zsum pv)
    (request_sum (p_request a) + total (p_balance a))) as [Heq|]; [|done].
  injection H as <-. split; [done|]. split.
  - done.
  - done.
  - exists pv. split; [done|lia].
  - by rewrite <- Heq.
  - intros Hsh. rewrite Hsh in H3. cbn [andb] in H3. unfold is_zat in *.
    destruct (Z.eqb_spec (0 + zsum (map txout_value (p_transparent a))) 0),
      (Z.ltb_spec 0 (zsum (map note_value (notes_of (p_shielded a))))),
      (Z.ltb_spec 0 (request_sum (p_request a))); cbn in H3; try done; lia.
  - intros ->. destruct u4. by apply check_turnstile_Ok.
  - intros Hp. rewrite Hp in H5. by destruct (p_anchor a).
Qed.

Lemma from_parts_complete prior a active :
  parts_ok a -> prior_ok prior ->
  step_valid prior a active -> step_from_parts prior a active = Ok (step_of a).
Proof using ZL PL.
  intros Ha Hprior [Hlen Hpay (pv & Hpv & Heq) Hrange Hsh Hturn Hanchor].
  pose proof Ha as (Hreq & Hpools & Ht & Hs & Hb). unfold step_from_parts, from_parts.
  pose proof (prior_values_zat _ _ _ Hprior Hpv) as Hpvz.
  pose proof (zsum_nonneg _ Ht) as Ht0. pose proof (zsum_nonneg _ Hs) as Hs0.
  pose proof (zsum_nonneg _ Hpvz) as Hp0.
  assert (0 <= request_sum (p_request a)) as Hr0.
  { apply zsum_nonneg, request_amounts_zat; [done|apply is_zat_0]. }
  assert (is_zat (total (p_balance a))) as Hbz by apply Hb.
  assert (is_zat (zsum (map txout_value (p_transparent a))) /\
          is_zat (zsum (map note_value (notes_of (p_shielded a)))) /\ is_zat (zsum pv) /\
          is_zat (request_sum (p_request a)) /\
          is_zat (zsum (map txout_value (p_transparent a))
                  + zsum (map note_value (notes_of (p_shielded a))))) as (Z1 & Z2 & Z3 & Z4 & Z5).
  { unfold is_zat in *. lia. }
  pose proof Hrange as Z6. rewrite <- Heq in Z6.
  rewrite (proj2 (Z.eqb_eq (zlen (payments (p_request a))) (zlen (p_pools a))))
    by (unfold zlen; lia). run_ok.
  rewrite (proj2 (foldM_unit_Ok _ _)).
  2: { eapply Forall_impl; [exact Hpay|]. intros e. apply check_payment_pool_Ok. }
  run_ok. rewrite (proj2 (foldM_total_Ok _ _ 0 _ Ht is_zat_0)) by (split; [symmetry; apply Z.add_0_l|done]).
  run_ok. rewrite (proj2 (total_or_overflow_Ok _ _ Hs)) by done.
  run_ok. rewrite (proj2 (mapM_res_Ok _ _ _) Hpv).
  run_ok. rewrite (proj2 (total_or_overflow_Ok _ _ Hpvz)) by done.
  run_ok. rewrite (proj2 (zat_add_Some _ _ _ Z1 Z2)) by done.
  rewrite zat_add_opt_spec. change (Some ?x ≫= ?g) with (g x). cbv beta.
  rewrite (proj2 (zat_add_Some _ _ _ Z5 Z3)) by done.
  cbn [ok_or]. run_ok.
  rewrite (proj2 (request_total_Ok _ (p_pools a) _ Hreq Hpools Hlen Hpay)) by done.
  cbn [ok_or]. run_ok. rewrite (proj2 (zat_add_Some _ _ _ Z4 Hbz)) by done.
  cbn [ok_or]. run_ok.
  assert ((if p_shielding a && ((zsum (map txout_value (p_transparent a)) =? 0)
      || (0 <? zsum (map note_value (notes_of (p_shielded a)))) || (0 <? request_sum (p_request a)))
    then Err ShieldingInvalid else Ok ()) = Ok ()) as ->.
  { destruct (p_shielding a); [|done]. destruct (Hsh eq_refl) as (H1 & H2 & H3).
    zcases; cbn; done || lia. }
  run_ok. assert ((if active then check_turnstile (p_pools a) (p_shielded a) (p_balance a) else Ok ())
                  = Ok ()) as ->.
  { destruct active; [|done]. apply check_turnstile_Ok; auto. }
  run_ok. assert ((if negb (is_some (p_anchor a)) && produces_shielded_bundle
      (is_some (p_shielded a)) (p_pools a) (p_balance a) then Err MissingShieldedAnchor else Ok ())
    = Ok ()) as ->.
  { destruct (produces_shielded_bundle _ _ _); [|by rewrite andb_false_r].
    by destruct (Hanchor eq_refl) as [h ->]. }
  run_ok. by rewrite Heq, Z.eqb_refl.
Qed.

Lemma from_parts_no_panic prior a active :
  parts_ok a -> prior_ok prior -> errs_only (fun _ => True) (step_from_parts prior a active).
Proof using ZL PL.
  intros Ha Hprior. pose proof Ha as (Hreq & Hpools & _). unfold step_from_parts, from_parts.
  apply errs_only_bind; [by apply errs_only_fails|]. intros u1 H1. unwrap_ok H1.
  destruct (Z.eqb_spec (zlen (payments (p_request a))) (zlen (p_pools a))) as [Hlen|]; [|done].
  unfold zlen in Hlen.
  apply errs_only_bind; [by apply errs_only_fails|]. intros [] H2. unwrap_ok H2.
  apply foldM_unit_Ok in H2.
  apply errs_only_bind; [by apply errs_only_fails|]. intros ti _.
  apply errs_only_bind; [by apply errs_only_fails|]. intros si _.
  apply errs_only_bind; [by apply errs_only_fails|]. intros pv _.
  apply errs_only_bind; [by apply errs_only_fails|]. intros pt _.
  apply errs_only_bind; [by apply errs_only_fails|]. intros it _.
  apply errs_only_bind; [by apply errs_only_fails|]. intros rt Hrt. unwrap_ok Hrt.
  apply (request_total_Ok _ (p_pools a)) in Hrt as [-> _]; [|done|done|lia|].
  2: { eapply Forall_impl; [exact H2|]. intros e. apply check_payment_pool_Ok. }
  run_ok. apply errs_only_bind; [by apply errs_only_fails|]. intros ot _.
  apply errs_only_bind; [by apply errs_only_fails|]. intros u3 _.
  apply errs_only_bind; [by apply errs_only_fails|]. intros u4 _.
  apply errs_only_bind; [by apply errs_only_fails|]. intros u5 _.
  by destruct (_ =? _).
Qed.

(** C14: [Step::from_parts] accepts exactly the valid steps, and never panics: there is a pool
    for every payment, in which its recipient can receive it; the inputs, with the outputs of
    prior steps, are exactly the payments, the change and the fee; a shielding step has only
    transparent inputs and no payments; after activation the Orchard turnstile holds; and a
    step with a shielded bundle has an anchor. *)
Theorem from_parts_exact prior a active :
  parts_ok a -> prior_ok prior ->
  errs_only (fun _ => True) (step_from_parts prior a active) /\
  forall s, step_from_parts prior a active = Ok s <->
            s = step_of a /\ step_valid prior a active.
Proof using ZL PL.
  intros Ha Hp. split; [by apply from_parts_no_panic|]. intros s. split.
  - by apply from_parts_sound.
  - intros [-> Hv]. by apply from_parts_complete.
Qed.
End Steps.

(** ** Double spends *)

(** A loop that inserts elements into a set, failing on repeated ones. *)
Lemma foldM_insert_Ok {E A} `{Countable A} (f : gset A -> A -> res E (gset A)) (P : A -> Prop) :
  (forall c x c', f c x = Ok c' <-> P x /\ (x ∉ c) /\ c' = {[ x ]} ∪ c) ->
  forall l c c', foldM f c l = Ok c' <->
    Forall P l /\ NoDup l /\ (forall x, x ∈ l -> x ∉ c) /\ c' = list_to_set (reverse l) ∪ c.
Proof.
  intros Hf l. induction l as [|r l IH]; intros c c'; cbn [foldM].
  - rewrite reverse_nil. cbn [list_to_set]. split.
    + intros [= <-]. split_and!; [constructor | constructor | by intros x ?%elem_of_nil | set_solver].
    + intros (_ & _ & _ & ->). f_equal. set_solver.
  - rewrite res_bind_Ok, Forall_cons, NoDup_cons, reverse_cons, list_to_set_app_L.
    setoid_rewrite Hf. setoid_rewrite IH. cbn [list_to_set]. split.
    + intros (d & (HP & Hin & ->) & HPl & Hnd & Hdis & ->). split_and!; try done.
      * intros Hl. specialize (Hdis r Hl). set_solver.
      * intros x [->|Hx]%elem_of_cons; [done|]. specialize (Hdis x Hx). set_solver.
      * set_solver.
    + intros ([HP HPl] & [Hr Hnd] & Hdis & ->). exists ({[r]} ∪ c).
      split; [split_and!; [done|apply Hdis; left|done]|].
      split_and!; [done|done| |set_solver].
      intros x Hx. assert (x ∉ c) by (apply Hdis; by right).
      assert (x <> r) by (by intros ->). set_solver.
Qed.

Section MultiStep.
Context {ZP : ZcashProtocol} {ZO : ZatoshisOps} {FE : FeeEnv} {PE : ProposalEnv}.

(** The outputs on chain that a step consumes. *)
Definition step_refs (s : Step) : list OutputRef :=
  map transparent_ref (step_transparent_inputs s) ++ map note_ref (notes_of (shielded_inputs s)).

(** A reference of the step [i] to an output of an earlier step. *)
Definition ref_valid (all : list Step) (i : Z) (r : StepOutput) : Prop :=
  step_index r < i /\
  exists prior, all !! Z.to_nat (step_index r) = Some prior /\
    match output_index r with
    | PaymentOutput idx => idx < zlen (payments (transaction_request prior))
    | ChangeOutput idx => idx < zlen (proposed_change (balance prior))
    end.

Lemma consume_chain_step c r c' :
  consume_chain c r = Ok c' <-> True /\ (r ∉ c) /\ c' = {[ r ]} ∪ c.
Proof. unfold consume_chain. case_decide; naive_solver. Qed.

Lemma check_prior_ref_step all i c r c' :
  check_prior_ref all i c r = Ok c' <-> ref_valid all i r /\ (r ∉ c) /\ c' = {[ r ]} ∪ c.
Proof.
  unfold check_prior_ref, ref_valid. destruct (Z.leb_spec i (step_index r)) as [Hi|Hi].
  { split; [done|]. intros ([? _] & _). lia. }
  destruct (all !! Z.to_nat (step_index r)) as [prior|]; run_ok; [|naive_solver].
  transitivity ((match output_index r with
      | PaymentOutput idx => idx < zlen (payments (transaction_request prior))
      | ChangeOutput idx => idx < zlen (proposed_change (balance prior))
      end) /\ (r ∉ c) /\ c' = {[ r ]} ∪ c).
  - destruct (output_index r) as [idx|idx]; zcase_step; run_ok; try case_decide;
      split; try naive_solver; try (intros [? _]; lia).
  - naive_solver.
Qed.

(** All the steps of a proposal are checked against each other. *)
Lemma check_step_Ok all c i s c' :
  check_step all c (i, s) = Ok c' <->
  Forall (ref_valid all i) (prior_step_inputs s) /\
  NoDup (prior_step_inputs s) /\ (forall x, x ∈ prior_step_inputs s -> x ∉ prior_inputs c) /\
  NoDup (step_refs s) /\ (forall x, x ∈ step_refs s -> x ∉ chain_inputs c) /\
  c' = MkConsumed (list_to_set (reverse (step_refs s)) ∪ chain_inputs c)
         (list_to_set (reverse (prior_step_inputs s)) ∪ prior_inputs c).
Proof.
  unfold check_step. rewrite res_bind_Ok.
  setoid_rewrite (foldM_insert_Ok _ _ (check_prior_ref_step all i)). split.
  - intros (pr & (Hf & Hnd & Hdis & ->) & H). bind_step H as ch1 H1. bind_step H as ch2 H2.
    injection H as <-.
    assert (foldM consume_chain (chain_inputs c) (step_refs s) = Ok ch2) as H3.
    { unfold step_refs. rewrite foldM_app, H1. exact H2. }
    apply (foldM_insert_Ok _ _ consume_chain_step) in H3 as (_ & ? & ? & ->). by split_and!.
  - intros (Hf & Hnd & Hdis & Hnd' & Hdis' & ->). eexists. split; [by split_and!|].
    assert (foldM consume_chain (chain_inputs c) (step_refs s)
            = Ok (list_to_set (reverse (step_refs s)) ∪ chain_inputs c)) as H3.
    { apply (foldM_insert_Ok _ _ consume_chain_step). split_and!; try done. by apply Forall_true. }
    unfold step_refs in H3. rewrite foldM_app in H3. bind_step H3 as ch1 H1.
    rewrite H1. run_ok. rewrite H3. done.
Qed.

(** ** Whole proposals *)

(** Steps with their indices. *)
Definition indexed (all : list Step) : list (Z * Step) :=
  zip (map Z.of_nat (seq 0 (length all))) all.

(** No reference leads forward or nowhere, and nothing is spent twice. *)
Record proposal_valid (all : list Step) : Prop := {
  pv_refs : Forall (fun e => Forall (ref_valid all (fst e)) (prior_step_inputs (snd e))) (indexed all);
  pv_prior : NoDup (concat (map prior_step_inputs all));
  pv_chain : NoDup (concat (map step_refs all)) }.

Lemma check_steps_Ok all l c :
  (exists c', foldM (check_step all) c l = Ok c') <->
  Forall (fun e => Forall (ref_valid all (fst e)) (prior_step_inputs (snd e))) l /\
  NoDup (concat (map (fun e => prior_step_inputs (snd e)) l)) /\
  NoDup (concat (map (fun e => step_refs (snd e)) l)) /\
  (forall x, x ∈ concat (map (fun e => prior_step_inputs (snd e)) l) -> x ∉ prior_inputs c) /\
  (forall x, x ∈ concat (map (fun e => step_refs (snd e)) l) -> x ∉ chain_inputs c).
Proof.
  revert c. induction l as [|[i s] l IH]; intros c; cbn [foldM map concat fst snd].
  - split; [|by eexists]. intros _. split_and!; try constructor; by intros x ?%elem_of_nil.
  - rewrite Forall_cons, !NoDup_app. cbn [fst snd]. split.
    + intros (c' & (d & Hd & H)%res_bind_Ok). apply check_step_Ok in Hd as (H1 & H2 & H3 & H4 & H5 & ->).
      destruct (proj1 (IH _) (ex_intro _ c' H)) as (I1 & I2 & I3 & I4 & I5). cbn in I4, I5.
      setoid_rewrite not_elem_of_union in I4. setoid_rewrite not_elem_of_union in I5.
      setoid_rewrite elem_of_list_to_set in I4. setoid_rewrite elem_of_list_to_set in I5.
      setoid_rewrite elem_of_reverse in I4. setoid_rewrite elem_of_reverse in I5.
      split_and!; try done.
      * intros x Hx Hx'. by apply (proj1 (I4 x Hx')).
      * intros x Hx Hx'. by apply (proj1 (I5 x Hx')).
      * intros x [Hx|Hx]%elem_of_app; [by apply H3 | by apply I4].
      * intros x [Hx|Hx]%elem_of_app; [by apply H5 | by apply I5].
    + intros ([H1 I1] & (H2 & D2 & I2) & (H4 & D4 & I4) & H3 & H5).
      setoid_rewrite elem_of_app in H3. setoid_rewrite elem_of_app in H5.
      setoid_rewrite res_bind_Ok. setoid_rewrite check_step_Ok.
      edestruct (proj2 (IH (MkConsumed (list_to_set (reverse (step_refs s)) ∪ chain_inputs c)
         (list_to_set (reverse (prior_step_inputs s)) ∪ prior_inputs c)))) as [c' Hc'].
      { split_and!; try done; cbn; intros x Hx; apply not_elem_of_union;
          rewrite elem_of_list_to_set, elem_of_reverse; split; auto.
        - intros Hx'. by apply (D2 x).
        - intros Hx'. by apply (D4 x). }
      exists c', (MkConsumed (list_to_set (reverse (step_refs s)) ∪ chain_inputs c)
         (list_to_set (reverse (prior_step_inputs s)) ∪ prior_inputs c)).
      split; [|exact Hc']. split_and!; auto.
Qed.

Lemma map_snd_indexed {A} (f : Step -> A) all : map (fun e => f (snd e)) (indexed all) = map f all.
Proof.
  unfold indexed. rewrite <- (map_map snd f). f_equal. apply snd_zip.
  rewrite length_map, length_seq. done.
Qed.

Lemma check_step_no_panic all c i s :
  0 <= i < Z.of_nat (length all) -> errs_only (fun _ => True) (check_step all c (i, s)).
Proof.
  intros Hi. unfold check_step. apply errs_only_bind.
  - generalize (prior_inputs c) as d. induction (prior_step_inputs s) as [|r l IH]; intros d; [done|].
    cbn [foldM]. apply errs_only_bind; [|auto]. unfold check_prior_ref.
    destruct (Z.leb_spec i (step_index r)); [done|].
    destruct (lookup_lt_is_Some_2 all (Z.to_nat (step_index r))) as [x ->]; [lia|]. run_ok.
    apply errs_only_bind; [by apply errs_only_fails|]. intros _ _. by case_decide.
  - intros d _. apply errs_only_bind; [by apply errs_only_fails|]. intros d' _.
    apply errs_only_bind; [by apply errs_only_fails|]. done.
Qed.

Lemma multi_step_no_panic rule target all : errs_only (fun _ => True) (multi_step rule target all).
Proof.
  unfold multi_step. apply errs_only_bind; [|done]. fold (indexed all).
  assert (Forall (fun e => 0 <= fst e < Z.of_nat (length all)) (indexed all)) as Hi.
  { apply Forall_forall. intros [i s] Hin. unfold indexed in Hin.
    apply elem_of_zip_l in Hin. apply list_elem_of_fmap_1 in Hin as (k & -> & Hk).
    apply elem_of_seq in Hk. cbn. lia. }
  generalize (MkConsumed ∅ ∅) as c. induction Hi as [|[i s] l Hi _ IH]; intros c; [done|].
  cbn [foldM]. apply errs_only_bind; [by apply check_step_no_panic|auto].
Qed.

Lemma multi_step_Ok rule target all p :
  multi_step rule target all = Ok p <->
  p = MkProposal rule target all None /\ proposal_valid all.
Proof.
  unfold multi_step. rewrite res_bind_Ok. fold (indexed all).
  pose proof (check_steps_Ok all (indexed all) (MkConsumed ∅ ∅)) as Hall.
  rewrite !map_snd_indexed in Hall. cbn in Hall. split.
  - intros (c & Hc & [= <-]). split; [done|].
    destruct (proj1 Hall (ex_intro _ c Hc)) as (H1 & H2 & H3 & _). by split.
  - intros [-> [H1 H2 H3]]. destruct (proj2 Hall) as [c Hc]; [split_and!; set_solver|].
    by exists c.
Qed.

(** [Proposal::multi_step] never panics, and accepts a series of steps exactly when every
    reference leads to an output of an earlier step and no output, of the chain or of an
    earlier step, is consumed twice, within a step or across steps. *)
Theorem multi_step_exact rule target all p :
  errs_only (fun _ => True) (multi_step rule target all) /\
  (multi_step rule target all = Ok p <->
   p = MkProposal rule target all None /\ proposal_valid all).
Proof. split; [apply multi_step_no_panic|apply multi_step_Ok]. Qed.
End MultiStep.
