(* ===== verification/FeeProposal.v ===== *)
(** * From change to proposals

    The balances that the change strategies compute are accepted by [Step::from_parts], and the
    transaction builder reproduces the bundles that the fee was computed for. *)

From Stdlib Require Import Sorting.Sorted.
From S2P Require Import Prelude WireReader Zatoshi Fees ChangeBalance ChangeProofs.
From S2P Require Import ChangeTheorems FeeCoverage Proposal ProposalProofs.

Section Compose.
Context {ZP : ZcashProtocol} {ZO : ZatoshisOps} {FE : FeeEnv} {PE : ProposalEnv}.

(** The values of the notes of a pool. *)
Definition pool_values (a : StepParts) (p : ShieldedPool) : list Z :=
  map note_value (filter (fun n => note_pool n = p) (notes_of (p_shielded a))).

(** A step that is made of the inputs and payments of a request and of the balance that was
    computed for it: the same inputs pool by pool, the ephemeral input being the output of a
    prior step, and the same payments; it has an anchor, and after activation it pays nothing
    into the Orchard pool. *)
Record parts_of_request (cfg : SinglePoolBalanceConfig) (r : ChangeRequest)
    (b : TransactionBalance MemoBytes) (prior : list Step) (a : StepParts) : Prop := {
  pr_transparent : map txout_value (p_transparent a) = map ti_value (transparent_inputs r);
  pr_sapling : pool_values a SaplingPool = map si_value (sv_inputs (sapling r));
  pr_orchard : pool_values a OrchardPool = map oi_value (ov_inputs (orchard r));
  pr_ironwood : pool_values a IronwoodPool = map oi_value (ov_inputs (ironwood r));
  pr_prior : Forall2 (fun x v => prior_output_value prior x = Ok v) (p_prior a)
               (option_list (ephemeral_balance r ≫= ephemeral_input_amount));
  pr_payments : request_sum (p_request a) = payments_total r;
  pr_pools : length (p_pools a) = length (payments (p_request a));
  pr_deliverable : Forall (payment_ok (p_request a)) (p_pools a);
  pr_maps : request_amounts_ok (p_request a) /\ bt_ok (p_pools a);
  pr_no_orchard : is_nu6_3_active (params cfg) (target_height r) = true ->
    forall e, e ∈ p_pools a -> snd e <> Shielded OrchardPool;
  pr_anchor : is_Some (p_anchor a);
  pr_shielding : p_shielding a = false;
  pr_balance : p_balance a = b }.

Lemma zsum_by_pool (l : list ReceivedNote) :
  zsum (map note_value l)
  = zsum (map note_value (filter (fun n => note_pool n = SaplingPool) l))
  + zsum (map note_value (filter (fun n => note_pool n = OrchardPool) l))
  + zsum (map note_value (filter (fun n => note_pool n = IronwoodPool) l)).
Proof.
  induction l as [|n l IH]; [done|]. rewrite !filter_cons.
  repeat case_decide; try congruence; cbn [map zsum foldr]; unfold zsum in *; cbn; try lia.
  destruct (note_pool n); done.
Qed.

Lemma Forall_by_pool (l : list ReceivedNote) :
  (forall p, Forall is_zat (map note_value (filter (fun n => note_pool n = p) l))) ->
  Forall is_zat (map note_value l).
Proof.
  intros H. apply Forall_map, Forall_forall. intros n Hn.
  specialize (H (note_pool n)). rewrite Forall_map, Forall_forall in H. apply H.
  by apply list_elem_of_filter.
Qed.

Context {ZL : ZatoshisLaws} {FL : FeeEnvLaws} {FM : FeeMonotone} {PL : ProposalEnvLaws}.

End Compose.

(** ** The builder reproduces the bundle that was paid for *)

(** What orchard documents of padding: a bundle has as many actions as were requested, and at
    least the minimum when it is required or not empty. *)
Class PaddingLaws {FE : FeeEnv} (requested : OrchardFlags -> Z -> Z -> Z) : Prop := {
  requested_nonneg : forall f s o, 0 <= s -> 0 <= o -> 0 <= requested f s o;
  num_actions_padded : forall q m f s o, 0 <= s -> 0 <= o ->
    num_actions (padding_bundle_type (MkBundlePadding q (Some m))) f s o
    = Ok (if q || (0 <? requested f s o) then Z.max (requested f s o) m else 0);
  num_actions_unpadded : forall f s o, 0 <= s -> 0 <= o ->
    num_actions (padding_bundle_type PADDING_UNPADDED) f s o = Ok (requested f s o);
  default_padding : exists m, 0 <= m < 256 /\ PADDING_DEFAULT = MkBundlePadding false (Some m) }.

Section Padding.
Context {ZP : ZcashProtocol} {ZO : ZatoshisOps} {FE : FeeEnv} {PE : ProposalEnv}.
Context {requested : OrchardFlags -> Z -> Z -> Z} {PD : PaddingLaws requested}.

(** The count under either padding is zero for an empty bundle, at least what is requested,
    and exactly that when it exceeds the floors. *)
Lemma fee_model_actions (canonical : bool) f s o n :
  0 <= s -> 0 <= o ->
  num_actions (padding_bundle_type (if canonical then PADDING_UNPADDED else PADDING_DEFAULT)) f s o
    = Ok n ->
  requested f s o <= n /\ (requested f s o = 0 -> n = 0) /\ (256 <= n -> n = requested f s o).
Proof using PD.
  intros Hs Ho H. pose proof (requested_nonneg f s o Hs Ho). destruct canonical.
  - rewrite num_actions_unpadded in H by done. injection H as <-. lia.
  - destruct default_padding as (m & Hm & Hd). rewrite Hd, num_actions_padded in H by done.
    injection H as <-. cbn [orb]. zcases; lia.
Qed.

Lemma ironwood_count_eq r m n :
  ironwood_action_count r m = Ok n ->
  num_actions (padding_bundle_type (if ironwood_is_canonical_crossing r m then PADDING_UNPADDED
                                    else PADDING_DEFAULT))
    (default_flags (ov_version (ironwood r))) (zlen (ov_inputs (ironwood r)))
    (zlen (ov_outputs (ironwood r)) + m_ironwood m) = Ok n.
Proof.
  intros H. unfold ironwood_action_count in H. bind_step H as k Hk. unwrap_ok H.
  by apply usize_add_Ok in Hk as [-> _].
Qed.

Lemma count_pool_nonneg p l : 0 <= count_pool p l.
Proof. unfold count_pool, zlen. lia. Qed.

Context {ZL : ZatoshisLaws} {FL : FeeEnvLaws}.

(** The padding that a step reads from its balance makes the builder produce exactly the
    Ironwood actions that the fee was computed for: with [Step::ironwood_bundle_padding], a
    step with the Ironwood inputs and payments of the request has as many actions as its
    Ironwood payments, change and recorded dummy outputs. *)
Theorem ironwood_padding_agrees cfg wm r b s d :
  request_ok r -> config_ok cfg -> metas_ok wm ->
  single_pool_output_balance cfg wm r = Ok b -> balance s = b -> dummy_outputs b = Some d ->
  input_count_in_pool s (Shielded IronwoodPool) = zlen (ov_inputs (ironwood r)) ->
  output_count_in_pool s (Shielded IronwoodPool) = zlen (ov_outputs (ironwood r)) ->
  step_ironwood_action_count s (ironwood_bundle_padding s) (ov_version (ironwood r))
  = Ok (zlen (ov_outputs (ironwood r)) + change_count_in_pool s (Shielded IronwoodPool)
        + dummy_ironwood d).
Proof using PD ZL FL.
  intros Hr Hcfg Hm H Hb Hd Hin Hout.
  destruct (balance_facts cfg wm r b)
    as (f & sic & mf & ch & _ & _ & _ & _ & _ & _ & _ & _ & _ & _ & d' & Hd' & Hdc); [done..|].
  rewrite Hd in Hd'. injection Hd' as <-. destruct Hdc as (_ & _ & Hi & _ & _ & Hdn).
  apply ironwood_count_eq in Hi. unfold step_ironwood_action_count, orchard_style_action_count,
    ironwood_bundle_padding, transactional_action_count. rewrite Hb, Hd, Hin, Hout.
  unfold change_count_in_pool. rewrite Hb.
  fold (count_pool (Shielded IronwoodPool) (proposed_change b)).
  cbn [final_manifest m_ironwood] in Hi.
  remember (count_pool (Shielded IronwoodPool) (proposed_change b)) as cc eqn:Ecc.
  assert (0 <= cc) as Hcc by (subst cc; apply count_pool_nonneg).
  remember (zlen (ov_inputs (ironwood r))) as ni eqn:Eni.
  remember (zlen (ov_outputs (ironwood r))) as no eqn:Eno.
  assert (0 <= ni /\ 0 <= no) as [Hni Hno] by (subst; unfold zlen; lia).
  apply fee_model_actions in Hi as (H1 & H2 & H3); [|lia..].
  pose proof (requested_nonneg (default_flags (ov_version (ironwood r))) ni (no + cc)) as Hrn.
  remember (requested (default_flags (ov_version (ironwood r))) ni (no + cc)) as q eqn:Eq.
  destruct (Z.ltb_spec (no + cc + dummy_ironwood d) 256).
  - rewrite num_actions_padded, <- Eq by lia. f_equal.
    destruct (Z.ltb_spec 0 q) as [Hq|Hq]; [rewrite orb_true_r; lia|].
    assert (no + cc + dummy_ironwood d = 0) as Hz0 by (apply H2; lia). rewrite Hz0. done.
  - rewrite num_actions_unpadded, <- Eq by lia. rewrite H3 by lia. done.
Qed.
End Padding.
