(* ===== verification/Locking.v ===== *)
(** * Output locking ([data_api/locking.rs], [zcash_client_sqlite/src/wallet/locking.rs])

    Concurrent proposals reserve their inputs by locking them.  The store keeps a lock expiry
    height and an owner with each received output; the operations below are the SQL statements
    that read and write these columns, and the events of a wallet are sequences of them. *)

From S2P Require Import Prelude WireReader Zatoshi Fees ChangeBalance Proposal.

(** [LockOwner] *)
Definition LockOwner : Type := list byte.

(** The columns of a received output that matter here.  The outputs of the four tables are
    keyed by the transaction, the pool and the index, which the schema makes unique. *)
Record out_row : Type := MkOutRow {
  row_account : Z; lock_expiry_height : option Z; lock_owner : option LockOwner }.

(** The chain tip, the received outputs, and which of them are recorded as spent by which
    transaction. *)
Record LockDb : Type := MkLockDb {
  chain_tip : option Z;
  received : gmap OutputRef out_row;
  spends : list (Z * OutputRef) }.

Definition with_received (db : LockDb) (m : gmap OutputRef out_row) : LockDb :=
  MkLockDb (chain_tip db) m (spends db).

(** [LockError]; storage errors do not occur in the model. *)
Inductive LockError : Type := LockFailure (r : OutputRef).

(** ** Policies *)

(** [LockedInputPolicy]; the sets are non-empty. *)
Inductive LockedInputPolicy : Type :=
| Exclude
| PreferUnlocked (owners : gset LockOwner)
| PreferLocked (owners : gset LockOwner).

Definition overridable_owners (p : LockedInputPolicy) : gset LockOwner :=
  match p with Exclude => ∅ | PreferUnlocked o => o | PreferLocked o => o end.
Definition prefers_locked (p : LockedInputPolicy) : bool :=
  match p with PreferLocked _ => true | _ => false end.
Definition admits_locked (p : LockedInputPolicy) : bool :=
  match p with Exclude => false | _ => true end.

(** [LockFilter] *)
Inductive LockFilter : Type := Policy (p : LockedInputPolicy) | Unfiltered.

(** [is_locked_at] *)
Definition is_locked_at (expiry : option Z) (target : Z) : bool :=
  match expiry with Some h => target <=? h | None => false end.

(** [output_eligible_condition], evaluated on a row. *)
Definition output_eligible (f : LockFilter) (target : Z) (row : out_row) : bool :=
  match f with
  | Unfiltered => true
  | Policy p =>
      match lock_expiry_height row with
      | None => true
      | Some h =>
          (h <? target)
          || match lock_owner row with
             | Some o => bool_decide (o ∈ overridable_owners p)
             | None => false
             end
      end
  end.

(** [output_lockable_condition], evaluated on a row: a comparison with an unknown chain tip or
    with a missing owner is not true. *)
Definition output_lockable (tip : option Z) (owner : LockOwner) (row : out_row) : bool :=
  match lock_expiry_height row with
  | None => true
  | Some h =>
      match tip with Some t => h <=? t | None => false end
      || bool_decide (lock_owner row = Some owner)
  end.

(** [locked_tier_expr]: the tier of a row and whether the higher one is preferred. *)
Definition locked_tier (f : LockFilter) (target : Z) (row : out_row) : option (Z * bool) :=
  match f with
  | Policy p =>
      if admits_locked p
      then Some (Z.b2z (is_locked_at (lock_expiry_height row) target), prefers_locked p)
      else None
  | Unfiltered => None
  end.

(** ** The lock store *)

(** One iteration of [lock_outputs]: the [UPDATE] and the test of the number of rows. *)
Definition lock_one (tip : option Z) (owner : LockOwner) (expiry : Z)
    (st : Z * gmap OutputRef out_row) (r : OutputRef) : res LockError (Z * gmap OutputRef out_row) :=
  let (n, rows) := st in
  match rows !! r with
  | Some row =>
      if output_lockable tip owner row
      then Ok (n + 1, <[r := MkOutRow (row_account row) (Some expiry) (Some owner)]> rows)
      else Err (LockFailure r)
  | None => Err (LockFailure r)
  end.

(** [lock_outputs] *)
Definition lock_outputs (db : LockDb) (outputs : list OutputRef) (owner : LockOwner) (expiry : Z)
    : res LockError (Z * LockDb) :=
  st ← foldM (lock_one (chain_tip db) owner expiry) (0, received db) outputs;
  let (n, rows) := st : Z * gmap OutputRef out_row in
  Ok (n, with_received db rows).

(** [WalletDb::transactionally]: an error rolls the changes back. *)
Definition transactionally {E A} (db : LockDb) (f : LockDb -> res E (A * LockDb)) : res E A * LockDb :=
  match f db with Ok (a, db') => (Ok a, db') | Err e => (Err e, db) end.

(** The implementation of [OutputLockStore::lock_outputs]. *)
Definition wallet_lock_outputs (db : LockDb) (outputs : list OutputRef) (owner : LockOwner)
    (expiry : Z) : res LockError Z * LockDb :=
  transactionally db (fun db => lock_outputs db outputs owner expiry).

Definition unlocked (row : out_row) : out_row := MkOutRow (row_account row) None None.

(** [unlock_output] *)
Definition unlock_output (db : LockDb) (r : OutputRef) (owner : LockOwner) : bool * LockDb :=
  match received db !! r with
  | Some row =>
      if bool_decide (lock_owner row = Some owner)
      then (true, with_received db (<[r := unlocked row]> (received db)))
      else (false, db)
  | None => (false, db)
  end.

(** [clear_locked_outputs]: the rows of an account that carry a lock, and the new state. *)
Definition clear_locked_outputs (db : LockDb) (account : Z) : Z * LockDb :=
  let hit row := bool_decide (row_account row = account) && is_some (lock_expiry_height row) in
  (Z.of_nat (size (filter (fun kv => hit (snd kv) = true) (received db))),
   with_received db ((fun row => if hit row then unlocked row else row) <$> received db)).

(** [unlock_spent_notes] *)
Definition unlock_spent_notes (db : LockDb) (tx : Z) : LockDb :=
  with_received db
    (map_imap (fun r row => Some (if bool_decide ((tx, r) ∈ spends db) then unlocked row else row))
       (received db)).

(** [get_locked_outputs], as a set; [None] is the error for an unknown chain tip. *)
Definition locked_row (tip account : Z) (row : out_row) : bool :=
  bool_decide (row_account row = account)
  && match lock_expiry_height row with Some h => tip <? h | None => false end.
Definition get_locked_outputs (db : LockDb) (account : Z) : option (gset OutputRef) :=
  match chain_tip db with
  | Some tip =>
      Some (dom (filter (fun kv => locked_row tip account (snd kv) = true) (received db)))
  | None => None
  end.

(** ** Proposals *)

Section ProposalLocks.
Context {ZP : ZcashProtocol} {ZO : ZatoshisOps} {FE : FeeEnv} {PE : ProposalEnv}.

(** [proposal_input_refs] *)
Definition proposal_input_refs (p : Proposal) : list OutputRef :=
  concat (map (fun s => map note_ref (notes_of (shielded_inputs s))
                        ++ map transparent_ref (step_transparent_inputs s)) (steps p)).

(** [LockRequest] *)
Record LockRequest : Type := MkLockRequest { lr_owner : LockOwner; for_blocks : Z }.

(** [lock_proposal_inputs] *)
Definition lock_proposal_inputs (db : LockDb) (p : Proposal) (owner : LockOwner) (expiry : Z)
    : res ProposalError unit * LockDb :=
  match wallet_lock_outputs db (proposal_input_refs p) owner expiry with
  | (Ok _, db) => (Ok (), db)
  | (Err (LockFailure r), db) => (Err (InputsLocked r), db)
  end.

(** [unlock_proposal_inputs] *)
Definition unlock_proposal_inputs (db : LockDb) (p : Proposal) (owner : LockOwner) : LockDb :=
  foldl (fun db r => snd (unlock_output db r owner)) db (proposal_input_refs p).
End ProposalLocks.

(** ** Events *)

(** The operations on the columns, in the order in which a wallet happens to run them; a
    spend is recorded before the notes that it spends are unlocked. *)
Inductive LockEvent : Type :=
| EvLock (outputs : list OutputRef) (owner : LockOwner) (expiry : Z)
| EvUnlock (r : OutputRef) (owner : LockOwner)
| EvClear (account : Z)
| EvRecordSpend (tx : Z) (r : OutputRef)
| EvUnlockSpent (tx : Z)
| EvTip (h : option Z).

Definition apply_event (db : LockDb) (e : LockEvent) : LockDb :=
  match e with
  | EvLock outputs owner expiry => snd (wallet_lock_outputs db outputs owner expiry)
  | EvUnlock r owner => snd (unlock_output db r owner)
  | EvClear account => snd (clear_locked_outputs db account)
  | EvRecordSpend tx r => MkLockDb (chain_tip db) (received db) ((tx, r) :: spends db)
  | EvUnlockSpent tx => unlock_spent_notes db tx
  | EvTip h => MkLockDb h (received db) (spends db)
  end.

(** The states that are reachable by events. *)
Inductive reaches : LockDb -> list LockEvent -> LockDb -> Prop :=
| ReachNil db : reaches db [] db
| ReachCons db e evs db' : reaches (apply_event db e) evs db' -> reaches db (e :: evs) db'.
