(* ===== verification/LockingProofs.v ===== *)
(** * Output locking: the guarantees of the lock store

    The promises of [OutputLockStore], proved of the statements in [Locking]: locking is
    all-or-nothing, the lock of one owner survives whatever the others do, expired locks never
    block, and unlocking undoes locking. *)

From S2P Require Import Prelude WireReader Zatoshi Fees ChangeBalance Proposal.
From S2P Require Import Locking.

(** ** Rows *)

Definition locked_by (owner : LockOwner) (expiry : Z) (row : out_row) : out_row :=
  MkOutRow (row_account row) (Some expiry) (Some owner).

(** A reference to a received output whose lock the owner may take. *)
Definition lockable (db : LockDb) (owner : LockOwner) (r : OutputRef) : Prop :=
  exists row, received db !! r = Some row /\ output_lockable (chain_tip db) owner row = true.

#[global] Instance lockable_dec db owner r : Decision (lockable db owner r).
Proof.
  unfold lockable. destruct (received db !! r) as [row|].
  - destruct (output_lockable (chain_tip db) owner row) eqn:E.
    + left. eauto.
    + right. intros (row' & [= <-] & ?). congruence.
  - right. intros (? & ? & _). discriminate.
Defined.

(** The received outputs after the locks of a list of references have been taken. *)
Definition lock_all (owner : LockOwner) (expiry : Z) (outs : list OutputRef)
    (rows : gmap OutputRef out_row) : gmap OutputRef out_row :=
  map_imap (fun r row => Some (if bool_decide (r ∈ outs) then locked_by owner expiry row else row))
    rows.

Lemma lock_all_lookup owner expiry outs rows r :
  lock_all owner expiry outs rows !! r =
    (fun row => if bool_decide (r ∈ outs) then locked_by owner expiry row else row) <$> rows !! r.
Proof. unfold lock_all. rewrite map_lookup_imap. by destruct (rows !! r). Qed.

Lemma output_lockable_own tip owner expiry row :
  output_lockable tip owner (locked_by owner expiry row) = true.
Proof. unfold output_lockable. cbn. rewrite bool_decide_true by done. apply orb_true_r. Qed.

Lemma eligible_exclude target row :
  output_eligible (Policy Exclude) target row = negb (is_locked_at (lock_expiry_height row) target).
Proof.
  unfold output_eligible, is_locked_at. destruct (lock_expiry_height row) as [h|]; [|done].
  destruct (lock_owner row); [rewrite bool_decide_false by set_solver|];
  rewrite orb_false_r; zcases; lia.
Qed.

Lemma lockable_other tip owner row :
  lock_owner row <> Some owner ->
  output_lockable (Some tip) owner row = output_eligible (Policy Exclude) (tip + 1) row.
Proof.
  intros Ho. rewrite eligible_exclude. unfold output_lockable, is_locked_at.
  destruct (lock_expiry_height row) as [h|]; [|done].
  rewrite (bool_decide_false (lock_owner row = _)) by done. rewrite orb_false_r. zcases; lia.
Qed.

(** ** Locking a list *)

Lemma lock_one_all tip owner expiry rows n done_ r :
  lock_one tip owner expiry (n, lock_all owner expiry done_ rows) r =
    match rows !! r with
    | Some row =>
        if bool_decide (r ∈ done_) || output_lockable tip owner row
        then Ok (n + 1, lock_all owner expiry (done_ ++ [r]) rows)
        else Err (LockFailure r)
    | None => Err (LockFailure r)
    end.
Proof.
  unfold lock_one. rewrite lock_all_lookup. destruct (rows !! r) as [row|] eqn:Er; [|done].
  cbn [fmap option_fmap option_map].
  assert (<[r:=MkOutRow (row_account row) (Some expiry) (Some owner)]> (lock_all owner expiry done_ rows)
          = lock_all owner expiry (done_ ++ [r]) rows) as Hins.
  { apply map_eq. intros r'. rewrite lookup_insert, !lock_all_lookup. case_decide as Hr.
    - subst r'. rewrite Er. cbn. by rewrite bool_decide_true by set_solver.
    - destruct (rows !! r') as [row'|]; [|done]. cbn.
      by rewrite (bool_decide_ext (r' ∈ done_) (r' ∈ done_ ++ [r])) by set_solver. }
  case_bool_decide; cbn [orb].
  - rewrite output_lockable_own. cbn [locked_by row_account]. by rewrite Hins.
  - destruct (output_lockable tip owner row); [|done]. by rewrite Hins.
Qed.

Lemma lock_all_nil owner expiry rows : lock_all owner expiry [] rows = rows.
Proof.
  apply map_eq. intros r. rewrite lock_all_lookup.
  destruct (rows !! r); [|done]. cbn. by rewrite bool_decide_false by set_solver.
Qed.

(** The loop, from any prefix of references that are already locked. *)
Lemma lock_loop db owner expiry outs n done_ :
  Forall (lockable db owner) done_ ->
  match foldM (lock_one (chain_tip db) owner expiry) (n, lock_all owner expiry done_ (received db)) outs with
  | Ok st => Forall (lockable db owner) outs
             /\ st = (n + Z.of_nat (length outs), lock_all owner expiry (done_ ++ outs) (received db))
  | Err (LockFailure r) =>
      exists pre post, outs = pre ++ r :: post /\ Forall (lockable db owner) pre
                       /\ ~ lockable db owner r
  end.
Proof.
  revert n done_. induction outs as [|r outs IH]; intros n done_ Hd.
  { cbn. rewrite app_nil_r, Z.add_0_r. done. }
  cbn [foldM]. rewrite lock_one_all.
  destruct (decide (lockable db owner r)) as [Hl|Hl].
  - destruct Hl as (row & Hr & Hl). rewrite Hr, Hl, orb_true_r. run_ok.
    assert (lockable db owner r) as Hlr by (exists row; done).
    specialize (IH (n + 1) (done_ ++ [r])).
    destruct (foldM _ _ outs) as [st|[r']].
    + destruct IH as [? ->]; [by apply Forall_app_2, Forall_singleton|].
      split; [by constructor|]. rewrite <- app_assoc. cbn [app length]. f_equal. lia.
    + destruct IH as (pre & post & -> & Hpre & Hn); [by apply Forall_app_2, Forall_singleton|].
      exists (r :: pre), post. split_and!; [done|by constructor|done].
  - assert (forall A (x : A), match received db !! r with
              | Some row => if bool_decide (r ∈ done_) || output_lockable (chain_tip db) owner row
                            then Ok x else Err (LockFailure r)
              | None => Err (LockFailure r) end = Err (LockFailure r)) as ->.
    { intros A x. destruct (received db !! r) as [row|] eqn:Er; [|done].
      rewrite bool_decide_false.
      2:{ intros Hin. rewrite Forall_forall in Hd. by destruct Hl; apply Hd. }
      cbn. destruct (output_lockable _ _ _) eqn:E; [|done]. destruct Hl. by exists row. }
    exists [], outs. split_and!; [done|constructor|done].
Qed.

(** The two outcomes of a request to lock. *)
Lemma wallet_lock_cases db outs owner expiry :
  (Forall (lockable db owner) outs
   /\ wallet_lock_outputs db outs owner expiry =
        (Ok (Z.of_nat (length outs)), with_received db (lock_all owner expiry outs (received db))))
  \/ (exists pre r post,
        outs = pre ++ r :: post /\ Forall (lockable db owner) pre /\ ~ lockable db owner r
        /\ wallet_lock_outputs db outs owner expiry = (Err (LockFailure r), db)).
Proof.
  unfold wallet_lock_outputs, transactionally, lock_outputs.
  pose proof (lock_loop db owner expiry outs 0 [] ltac:(constructor)) as Hloop.
  rewrite lock_all_nil in Hloop. destruct (foldM _ _ outs) as [st|[r]].
  - destruct Hloop as [Hall ->]. left. split; [done|]. run_ok. by rewrite Z.add_0_l.
  - destruct Hloop as (pre & post & -> & Hpre & Hn). right. by exists pre, r, post.
Qed.

Lemma wallet_lock_all db outs owner expiry :
  Forall (lockable db owner) outs ->
  wallet_lock_outputs db outs owner expiry =
    (Ok (Z.of_nat (length outs)), with_received db (lock_all owner expiry outs (received db))).
Proof.
  intros Hall. destruct (wallet_lock_cases db outs owner expiry) as [[_ H']|Hc]; [done|].
  destruct Hc as (pre & r & post & -> & _ & Hn & _).
  apply Forall_app in Hall as [_ Hall]. inversion Hall; done.
Qed.

Lemma wallet_lock_blocked db outs owner expiry r :
  r ∈ outs -> ~ lockable db owner r -> snd (wallet_lock_outputs db outs owner expiry) = db
    /\ exists r', fst (wallet_lock_outputs db outs owner expiry) = Err (LockFailure r').
Proof.
  intros Hin Hr. destruct (wallet_lock_cases db outs owner expiry) as [[Hall _]|Hc].
  - rewrite Forall_forall in Hall. by destruct Hr; apply Hall.
  - destruct Hc as (pre & r' & post & _ & _ & _ & ->). cbn. eauto.
Qed.

(** ** The columns of one output under the events *)

Lemma unlock_output_lookup db r owner r' :
  received (snd (unlock_output db r owner)) !! r' =
    (fun row => if bool_decide (r' = r) && bool_decide (lock_owner row = Some owner)
                then unlocked row else row) <$> received db !! r'.
Proof.
  unfold unlock_output. destruct (received db !! r) as [row|] eqn:Er.
  - case_bool_decide as Ho; cbn [snd with_received received].
    + rewrite lookup_insert. case_decide as Hr.
      * subst r'. rewrite Er. cbn. by rewrite !bool_decide_true by done.
      * destruct (received db !! r'); [|done]. cbn. by rewrite (bool_decide_false (r' = r)) by done.
    + destruct (decide (r' = r)) as [->|Hr].
      * rewrite Er. cbn. by rewrite bool_decide_true, bool_decide_false by done.
      * destruct (received db !! r'); [|done]. cbn. by rewrite (bool_decide_false (r' = r)) by done.
  - cbn [snd]. destruct (received db !! r') eqn:Er'; [|done]. cbn.
    rewrite (bool_decide_false (r' = r)); [done|]. congruence.
Qed.

Lemma unlock_output_rest db r owner :
  chain_tip (snd (unlock_output db r owner)) = chain_tip db
  /\ spends (snd (unlock_output db r owner)) = spends db.
Proof.
  unfold unlock_output. destruct (received db !! r) as [row|]; [|done]. by case_bool_decide.
Qed.

(** What an event does to the row of an output. *)
Definition event_row (db : LockDb) (r : OutputRef) (e : LockEvent) (row : out_row) : out_row :=
  match e with
  | EvLock outs owner expiry =>
      if bool_decide (Forall (lockable db owner) outs) && bool_decide (r ∈ outs)
      then locked_by owner expiry row else row
  | EvUnlock r' owner =>
      if bool_decide (r = r') && bool_decide (lock_owner row = Some owner)
      then unlocked row else row
  | EvClear account =>
      if bool_decide (row_account row = account) && is_some (lock_expiry_height row)
      then unlocked row else row
  | EvUnlockSpent tx => if bool_decide ((tx, r) ∈ spends db) then unlocked row else row
  | EvRecordSpend _ _ | EvTip _ => row
  end.

Lemma apply_event_lookup db e r :
  received (apply_event db e) !! r = event_row db r e <$> received db !! r.
Proof.
  destruct e as [outs owner expiry|r' owner|account|tx r'|tx|h]; cbn [apply_event event_row].
  - destruct (wallet_lock_cases db outs owner expiry) as [[Hall ->]|Hc].
    + cbn [snd with_received received]. rewrite lock_all_lookup.
      destruct (received db !! r); [|done]. cbn [fmap option_fmap option_map event_row].
      by rewrite (bool_decide_true (Forall (lockable db owner) outs)) by done.
    + destruct Hc as (pre & r' & post & -> & _ & Hn & ->). cbn [snd].
      destruct (received db !! r); [|done]. cbn [fmap option_fmap option_map event_row].
      rewrite bool_decide_false; [done|].
      intros Hall. apply Forall_app in Hall as [_ Hall]. inversion Hall; done.
  - apply unlock_output_lookup.
  - unfold clear_locked_outputs. cbn [snd with_received received]. by rewrite lookup_fmap.
  - cbn [received]. by destruct (received db !! r).
  - unfold unlock_spent_notes. cbn [with_received received]. rewrite map_lookup_imap.
    by destruct (received db !! r).
  - cbn [received]. by destruct (received db !! r).
Qed.

Lemma apply_event_tip db e :
  chain_tip (apply_event db e) = match e with EvTip h => h | _ => chain_tip db end.
Proof.
  destruct e as [outs owner expiry|r' owner|account|tx r'|tx|h]; cbn [apply_event]; try done.
  - destruct (wallet_lock_cases db outs owner expiry) as [[_ ->]|(? & ? & ? & _ & _ & _ & ->)]; done.
  - apply unlock_output_rest.
Qed.

Lemma apply_event_spends db e :
  spends (apply_event db e) =
    match e with EvRecordSpend tx r => (tx, r) :: spends db | _ => spends db end.
Proof.
  destruct e as [outs owner expiry|r' owner|account|tx r'|tx|h]; cbn [apply_event]; try done.
  - destruct (wallet_lock_cases db outs owner expiry) as [[_ ->]|(? & ? & ? & _ & _ & _ & ->)]; done.
  - apply unlock_output_rest.
Qed.

Lemma event_row_account db r e row : row_account (event_row db r e row) = row_account row.
Proof.
  destruct e as [outs owner expiry|r' owner|account|tx r'|tx|h]; cbn [event_row]; try done;
    repeat match goal with |- context [if ?b then _ else _] => destruct b end; done.
Qed.

(** ** A lock that is held *)

(** An event that leaves the lock of [owner] on [r] until [expiry] alone: anything but the
    owner's own requests on [r], the clearing of the account, a spend of [r], and a tip at
    which the lock has expired. *)
Definition respects_lock (r : OutputRef) (account : Z) (owner : LockOwner) (expiry : Z)
    (e : LockEvent) : bool :=
  match e with
  | EvLock outs o _ => negb (bool_decide (o = owner) && bool_decide (r ∈ outs))
  | EvUnlock r' o => negb (bool_decide (o = owner) && bool_decide (r' = r))
  | EvClear a => negb (bool_decide (a = account))
  | EvRecordSpend _ r' => negb (bool_decide (r' = r))
  | EvUnlockSpent _ => true
  | EvTip h => match h with Some t => t <? expiry | None => true end
  end.

(** The lock is in force: it is in the columns, it has not expired and the output is unspent. *)
Definition holds_lock (db : LockDb) (r : OutputRef) (account : Z) (owner : LockOwner) (expiry : Z)
    : Prop :=
  received db !! r = Some (MkOutRow account (Some expiry) (Some owner))
  /\ match chain_tip db with Some t => t < expiry | None => True end
  /\ forall tx, (tx, r) ∉ spends db.

Lemma holds_lock_blocks db r account owner expiry owner' :
  holds_lock db r account owner expiry -> owner' <> owner -> ~ lockable db owner' r.
Proof.
  intros (Hr & Ht & _) Ho (row & Hr' & Hl). rewrite Hr in Hr'. injection Hr' as <-.
  unfold output_lockable in Hl. cbn in Hl. rewrite bool_decide_false in Hl by congruence.
  destruct (chain_tip db); [|done]. rewrite orb_false_r in Hl. lia.
Qed.

Lemma holds_lock_step db r account owner expiry e :
  holds_lock db r account owner expiry -> respects_lock r account owner expiry e = true ->
  holds_lock (apply_event db e) r account owner expiry.
Proof.
  intros Hh He. destruct Hh as (Hr & Ht & Hs). unfold holds_lock.
  rewrite apply_event_lookup, apply_event_tip, apply_event_spends, Hr. split_and!.
  - cbn [fmap option_fmap option_map]. f_equal.
    destruct e as [outs o x|r' o|a|tx r'|tx|h]; cbn [event_row respects_lock] in He |- *; try done.
    + destruct (decide (o = owner)) as [->|Ho].
      * rewrite (bool_decide_true (owner = owner)) in He by done. cbn in He.
        apply negb_true_iff in He. rewrite He, andb_false_r. done.
      * destruct (decide (r ∈ outs)) as [Hin|]; [|by rewrite (bool_decide_false (r ∈ outs)), andb_false_r].
        rewrite bool_decide_false; [done|]. rewrite Forall_forall. intros Hall.
        eapply holds_lock_blocks; [by split_and!|exact Ho|by apply Hall].
    + cbn. destruct (decide (o = owner)) as [->|Ho].
      * rewrite (bool_decide_true (owner = owner)) in He by done. cbn in He.
        apply negb_true_iff, bool_decide_eq_false in He.
        by rewrite (bool_decide_false (r = r')) by congruence.
      * rewrite (bool_decide_false (Some owner = Some o)) by congruence. by rewrite andb_false_r.
    + cbn. apply negb_true_iff, bool_decide_eq_false in He.
      by rewrite bool_decide_false by congruence.
    + by rewrite bool_decide_false by apply Hs.
  - destruct e as [| | | | |[t|]]; try done. cbn in He. lia.
  - destruct e; try done. cbn in He. apply negb_true_iff, bool_decide_eq_false in He.
    intros tx' Hin. apply elem_of_cons in Hin as [[= -> ->]|Hin]; [done|]. by apply (Hs tx').
Qed.

Lemma holds_lock_reaches db evs db' r account owner expiry :
  reaches db evs db' -> holds_lock db r account owner expiry ->
  Forall (fun e => respects_lock r account owner expiry e = true) evs ->
  holds_lock db' r account owner expiry.
Proof.
  induction 1 as [|db e evs db' _ IH]; [done|]. rewrite Forall_cons. intros Hh [He Hes].
  apply IH; [|done]. by apply holds_lock_step.
Qed.

(** ** Expiry *)

(** No lock in the store, and none that an event takes, lasts beyond a height. *)
Definition locks_within (t : Z) (db : LockDb) : Prop :=
  forall r row h, received db !! r = Some row -> lock_expiry_height row = Some h -> h <= t.
Definition event_within (t : Z) (e : LockEvent) : Prop :=
  match e with EvLock _ _ expiry => expiry <= t | _ => True end.

Lemma locks_within_step t db e :
  locks_within t db -> event_within t e -> locks_within t (apply_event db e).
Proof.
  intros Hdb He r row h Hr Hh. rewrite apply_event_lookup in Hr.
  destruct (received db !! r) as [row0|] eqn:Er; [|done]. injection Hr as <-.
  specialize (Hdb r row0 h Er).
  destruct e as [outs o x|r' o|a|tx r'|tx|t']; cbn [event_row event_within] in He, Hh; auto;
    match type of Hh with context [if ?b then _ else _] => destruct b end; auto; cbn in Hh;
    try discriminate. by injection Hh as <-.
Qed.

Lemma reaches_within t db evs db' :
  reaches db evs db' -> locks_within t db -> Forall (event_within t) evs -> locks_within t db'.
Proof.
  induction 1 as [|db e evs db' _ IH]; [done|]. rewrite Forall_cons. intros Hdb [He Hes].
  apply IH; [|done]. by apply locks_within_step.
Qed.

Lemma reaches_dom db evs db' : reaches db evs db' -> dom (received db') = dom (received db).
Proof.
  induction 1 as [|db e evs db' _ IH]; [done|]. rewrite IH. apply set_eq. intros r.
  rewrite !elem_of_dom, apply_event_lookup. destruct (received db !! r); split; intros [? Hx];
    eauto; done.
Qed.

Lemma expired_lockable t db owner r :
  locks_within t db -> chain_tip db = Some t -> is_Some (received db !! r) -> lockable db owner r.
Proof.
  intros Hw Ht [row Hr]. exists row. split; [done|]. unfold output_lockable. rewrite Ht.
  destruct (lock_expiry_height row) as [h|] eqn:Eh; [|done]. apply orb_true_iff. left.
  specialize (Hw r row h Hr Eh). lia.
Qed.

(** ** Unlocking a proposal *)

Lemma unlock_fold_lookup db owner outs r :
  received (foldl (fun db r => snd (unlock_output db r owner)) db outs) !! r =
    (fun row => if bool_decide (r ∈ outs) && bool_decide (lock_owner row = Some owner)
                then unlocked row else row) <$> received db !! r.
Proof.
  revert db. induction outs as [|r' outs IH]; intros db; cbn [foldl].
  { destruct (received db !! r); [|done]. cbn. by rewrite bool_decide_false by set_solver. }
  rewrite IH, unlock_output_lookup. destruct (received db !! r) as [row|]; [|done].
  cbn [fmap option_fmap option_map]. f_equal.
  rewrite (bool_decide_ext (r ∈ r' :: outs) (r = r' \/ r ∈ outs)) by set_solver.
  rewrite bool_decide_or. destruct (bool_decide (lock_owner row = Some owner)) eqn:Ho.
  - rewrite !andb_true_r. destruct (bool_decide (r = r')); cbn [orb].
    + cbn [unlocked lock_owner]. rewrite (bool_decide_false (None = Some owner)) by done.
      by rewrite andb_false_r.
    + by rewrite Ho, andb_true_r.
  - by rewrite !andb_false_r, Ho, andb_false_r.
Qed.

Lemma unlock_fold_rest db owner outs :
  chain_tip (foldl (fun db r => snd (unlock_output db r owner)) db outs) = chain_tip db
  /\ spends (foldl (fun db r => snd (unlock_output db r owner)) db outs) = spends db.
Proof.
  revert db. induction outs as [|r' outs IH]; intros db; cbn [foldl]; [done|].
  destruct (IH (snd (unlock_output db r' owner))) as [-> ->]. apply unlock_output_rest.
Qed.

Lemma LockDb_eq db db' :
  chain_tip db = chain_tip db' -> spends db = spends db' ->
  (forall r, received db !! r = received db' !! r) -> db = db'.
Proof. destruct db, db'; cbn. intros -> -> Hm. f_equal. by apply map_eq. Qed.

(** ** The guarantees *)

(** A locked output, an eligible output and a lockable output are one notion.  Selection
    under the default policy excludes exactly the outputs that balances count as locked at the
    target height; a policy with overridable owners adds exactly the outputs those owners have
    locked; another owner can take a lock exactly when the output is eligible at the height
    after the chain tip, so no lock is taken over while it still excludes the output; and
    [get_locked_outputs] lists exactly the outputs of the account that are locked at that
    height. *)
Theorem locked_eligible_complement db row target tip owner p account locked :
  chain_tip db = Some tip -> lock_owner row <> Some owner ->
  get_locked_outputs db account = Some locked ->
  (output_eligible (Policy Exclude) target row = negb (is_locked_at (lock_expiry_height row) target))
  /\ (output_eligible (Policy p) target row = true <->
        output_eligible (Policy Exclude) target row = true
        \/ exists o, lock_owner row = Some o /\ o ∈ overridable_owners p)
  /\ (output_lockable (chain_tip db) owner row = output_eligible (Policy Exclude) (tip + 1) row)
  /\ forall r, r ∈ locked <->
       exists row', received db !! r = Some row' /\ row_account row' = account
                    /\ is_locked_at (lock_expiry_height row') (tip + 1) = true.
Proof.
  intros Ht Ho Hl. split_and!.
  - apply eligible_exclude.
  - rewrite eligible_exclude. unfold output_eligible, is_locked_at.
    destruct (lock_expiry_height row) as [h|]; [|naive_solver].
    rewrite orb_true_iff, negb_true_iff. destruct (lock_owner row) as [o|].
    + rewrite bool_decide_eq_true. split; intros [?|Hx]; [left; lia|eauto|left; lia|naive_solver].
    + split; intros [?|?]; try (left; lia); naive_solver.
  - rewrite Ht. by apply lockable_other.
  - intros r. unfold get_locked_outputs in Hl. rewrite Ht in Hl. injection Hl as <-.
    rewrite elem_of_dom. unfold is_Some. setoid_rewrite map_lookup_filter_Some. cbn.
    unfold locked_row, is_locked_at.
    split; intros (row' & Hr & Hx); exists row'.
    + apply andb_true_iff in Hx as [->%bool_decide_eq_true Hx]. split_and!; [done..|].
      destruct (lock_expiry_height row'); [lia|done].
    + destruct Hx as [-> Hx]. split; [done|]. rewrite bool_decide_true by done. cbn.
      destruct (lock_expiry_height row'); [lia|done].
Qed.

(** Locking is all-or-nothing.  A request that succeeds found every reference received and
    lockable by its owner, counts the references, leaves the expiry and the owner in the
    columns of each of them and nothing else changed; a request that fails names the first
    reference that could not be locked and leaves the store as it was. *)
Theorem lock_outputs_atomic db outs owner expiry :
  match wallet_lock_outputs db outs owner expiry with
  | (Ok n, db') =>
      Forall (lockable db owner) outs /\ n = Z.of_nat (length outs)
      /\ chain_tip db' = chain_tip db /\ spends db' = spends db
      /\ forall r, received db' !! r =
           if bool_decide (r ∈ outs) then locked_by owner expiry <$> received db !! r
           else received db !! r
  | (Err (LockFailure r), db') =>
      db' = db
      /\ exists pre post, outs = pre ++ r :: post /\ Forall (lockable db owner) pre
                          /\ ~ lockable db owner r
  end.
Proof.
  destruct (wallet_lock_cases db outs owner expiry) as [[Hall ->]|Hc].
  - split_and!; [done..|]. intros r. cbn [with_received received]. rewrite lock_all_lookup.
    case_bool_decide; [done|]. by destruct (received db !! r).
  - destruct Hc as (pre & r & post & -> & Hpre & Hn & ->). split; [done|]. by exists pre, post.
Qed.

(** C13: Nobody steals a lock.  After an owner has locked outputs until a height that the chain
    tip has not reached, whatever sequence of events follows - requests and releases by others,
    the clearing of other accounts, spends of other outputs, new chain tips below the expiry
    and reorgs that lose the tip - a locked output that the owner does not touch still has its
    lock, and every request of another owner that includes it fails without changing anything. *)
Theorem no_stealing db db1 outs owner expiry n r row evs db' :
  wallet_lock_outputs db outs owner expiry = (Ok n, db1) ->
  r ∈ outs -> received db !! r = Some row ->
  match chain_tip db with Some t => t < expiry | None => True end ->
  (forall tx, (tx, r) ∉ spends db) ->
  reaches db1 evs db' ->
  Forall (fun e => respects_lock r (row_account row) owner expiry e = true) evs ->
  received db' !! r = Some (locked_by owner expiry row)
  /\ forall outs' owner' expiry', owner' <> owner -> r ∈ outs' ->
       snd (wallet_lock_outputs db' outs' owner' expiry') = db'
       /\ exists r', fst (wallet_lock_outputs db' outs' owner' expiry') = Err (LockFailure r').
Proof.
  intros Hlock Hin Hr Ht Hs Hreach Hevs.
  assert (holds_lock db' r (row_account row) owner expiry) as Hh.
  { eapply holds_lock_reaches; [exact Hreach| |exact Hevs].
    destruct (wallet_lock_cases db outs owner expiry) as [[_ Hw]|(? & ? & ? & _ & _ & _ & Hw)];
      rewrite Hw in Hlock; [|done].
    injection Hlock as _ <-. split_and!; [|done..].
    cbn [with_received received]. rewrite lock_all_lookup, Hr. cbn.
    by rewrite bool_decide_true by done. }
  split; [apply Hh|]. intros outs' owner' expiry' Ho Hin'.
  eapply wallet_lock_blocked; [exact Hin'|]. by eapply holds_lock_blocks.
Qed.

(** C38: No output stays locked for ever.  After any sequence of events, once the chain tip has
    reached every expiry height that was in the store or was requested, any owner can lock any
    list of received outputs, and locking them succeeds; and no event makes a received output
    disappear. *)
Theorem locks_expire db evs db' t outs owner expiry :
  reaches db evs db' -> locks_within t db -> Forall (event_within t) evs ->
  Forall (fun r => is_Some (received db !! r)) outs ->
  exists db'', wallet_lock_outputs (apply_event db' (EvTip (Some t))) outs owner expiry
                 = (Ok (Z.of_nat (length outs)), db'')
    /\ Forall (fun r => exists row, received db'' !! r = Some (locked_by owner expiry row)) outs.
Proof.
  intros Hreach Hdb Hevs Houts. set (dbt := apply_event db' (EvTip (Some t))).
  assert (Forall (fun r => is_Some (received dbt !! r)) outs) as Hin.
  { eapply Forall_impl; [exact Houts|]. intros r Hr. cbn. apply elem_of_dom.
    rewrite (reaches_dom _ _ _ Hreach). by apply elem_of_dom. }
  assert (locks_within t dbt) as Hw.
  { apply locks_within_step; [|done]. by eapply reaches_within. }
  rewrite wallet_lock_all.
  - eexists. split; [done|]. apply Forall_forall. intros r Hr.
    rewrite Forall_forall in Hin. destruct (Hin r Hr) as [row Hrow]. exists row.
    cbn [with_received received]. rewrite lock_all_lookup, Hrow. cbn.
    by rewrite bool_decide_true by done.
  - eapply Forall_impl; [exact Hin|]. intros r Hr. by eapply expired_lockable.
Qed.

Section ProposalLockProofs.
Context {ZP : ZcashProtocol} {ZO : ZatoshisOps} {FE : FeeEnv} {PE : ProposalEnv}.

(** Unlocking a proposal undoes locking it.  When locking the inputs of a proposal
    succeeds, unlocking them under the same owner clears the lock columns of the inputs and
    restores everything else, so the store is as before when the inputs carried no lock; and
    unlocking them under any other owner changes nothing. *)
Theorem lock_unlock_proposal db p owner expiry db' :
  lock_proposal_inputs db p owner expiry = (Ok (), db') ->
  (forall r, received (unlock_proposal_inputs db' p owner) !! r =
     if bool_decide (r ∈ proposal_input_refs p) then unlocked <$> received db !! r
     else received db !! r)
  /\ (Forall (fun r => unlocked <$> received db !! r = received db !! r) (proposal_input_refs p) ->
      unlock_proposal_inputs db' p owner = db)
  /\ forall owner', owner' <> owner -> unlock_proposal_inputs db' p owner' = db'.
Proof.
  unfold lock_proposal_inputs, unlock_proposal_inputs. intros Hlock.
  destruct (wallet_lock_cases db (proposal_input_refs p) owner expiry)
    as [[_ Hw]|(? & ? & ? & _ & _ & _ & Hw)]; rewrite Hw in Hlock; [|done].
  injection Hlock as <-. clear Hw. set (outs := proposal_input_refs p).
  assert (forall r, received (foldl (fun db r => snd (unlock_output db r owner))
                       (with_received db (lock_all owner expiry outs (received db))) outs) !! r =
                    if bool_decide (r ∈ outs) then unlocked <$> received db !! r
                    else received db !! r) as Hun.
  { intros r. rewrite unlock_fold_lookup. cbn [with_received received]. rewrite lock_all_lookup.
    destruct (received db !! r) as [row|]; [|by case_bool_decide]. cbn.
    case_bool_decide; cbn; [|done]. by rewrite bool_decide_true by done. }
  split_and!; [exact Hun| |].
  - intros Hclean. destruct (unlock_fold_rest
      (with_received db (lock_all owner expiry outs (received db))) owner outs) as [Ht Hs].
    apply LockDb_eq; [exact Ht|exact Hs|]. intros r. rewrite Hun. case_bool_decide as Hr; [|done].
    rewrite Forall_forall in Hclean. by apply Hclean.
  - intros owner' Ho. destruct (unlock_fold_rest
      (with_received db (lock_all owner expiry outs (received db))) owner' outs) as [Ht Hs].
    apply LockDb_eq; [exact Ht|exact Hs|]. intros r. rewrite unlock_fold_lookup.
    cbn [with_received received]. rewrite lock_all_lookup.
    destruct (received db !! r) as [row|]; [|done]. cbn. f_equal.
    case_bool_decide; cbn; [|done]. by rewrite bool_decide_false by congruence.
Qed.
End ProposalLockProofs.
