(* ===== verification/ProposalSample.v ===== *)
(** * A sample proposal

    An instance of the interfaces of [Proposal] and a step built from the crossing of
    [FeeSample], on which the theorems about proposals are evaluated. *)

From Stdlib Require Import Sorting.Sorted.
From S2P Require Import Prelude WireReader Zatoshi Fees ChangeBalance ChangeProofs.
From S2P Require Import ChangeTheorems FeeCoverage UneconomicInputs ChangeStrategies FeeSample Proposal.
From S2P Require Import ProposalProofs FeeProposal Locking LockingProofs.

(** An address is the list of the pools in which it can receive. *)
#[global] Instance sample_proposal_env : ProposalEnv := {|
  Address := list PoolType;
  Zip321Error := unit;
  can_receive_as a p := bool_decide (p ∈ a);
  amounts_total l :=
    match mapM id l with
    | Some vs => Some <$> sample_zat_checked (zsum vs)
    | None => Some None
    end;
  branch_for_height _ h := if 2000 <=? h then Nu6_3 else Nu6_2;
  is_nu7_active _ h := 100000 <=? h;
  SAPLING_DEFAULT := ();
  orchard_v3 := false;
  ironwood_v3 := true;
  check_shielded_budget _ _ s so o i :=
    if 1000 <? s + so + o + i then Some "too many actions"%string else None
|}.

#[global] Instance sample_proposal_laws : ProposalEnvLaws.
Proof.
  split. intros vs _. cbn -[mapM].
  assert (mapM id (map Some vs) = Some vs) as ->; [|done].
  induction vs as [|v vs IH]; [done|]. cbn. by rewrite IH.
Qed.

Definition sample_requested (f : bool) (s o : Z) : Z :=
  if f then Z.max 0 (Z.max s o) else Z.max 0 s + Z.max 0 o.

#[global] Instance sample_padding_laws : PaddingLaws (FE := sample_fee_env) sample_requested.
Proof.
  split.
  - unfold sample_requested. intros [] s o; lia.
  - intros q m f s o Hs Ho. reflexivity.
  - intros f s o Hs Ho. cbn. unfold sample_num_actions. unfold sample_requested. cbn. f_equal.
    destruct f; zcases; lia.
  - exists 2. split; [lia|done].
Qed.

(** The step of the crossing: one Orchard note, one payment into Ironwood. *)
Definition crossing_parts : StepParts := {|
  p_request := MkTransactionRequest [(0, MkPayment [Shielded OrchardPool] (Some 100000000))];
  p_pools := [(0, Shielded IronwoodPool)];
  p_transparent := [];
  p_shielded := Some [MkReceivedNote [Byte.x01] 0 OrchardPool 300000000];
  p_anchor := Some 1600; p_prior := []; p_balance := crossing_balance; p_shielding := false |}.

Lemma crossing_request_ok : request_amounts_ok (p_request crossing_parts).
Proof.
  split; [repeat constructor|]. intros i p v Hin. cbn in Hin.
  apply list_elem_of_singleton in Hin as [= -> ->]. intros [= <-].
  unfold is_zat. cbn. unfold sample_max_money. lia.
Qed.

Lemma crossing_parts_ok : parts_ok crossing_parts.
Proof.
  split_and!; [exact crossing_request_ok | repeat constructor | constructor | zat_list|].
  unfold balance_ok, is_zat. cbn. unfold sample_max_money.
  split_and!; try lia. repeat constructor; cbn; lia.
Qed.

Lemma crossing_parts_of_request :
  parts_of_request sample_cfg (crossing None) crossing_balance [] crossing_parts.
Proof.
  split; try reflexivity.
  - constructor.
  - repeat constructor. eexists. split; [reflexivity|]. split; [by eexists|]. by right.
  - split; [exact crossing_request_ok | repeat constructor].
  - intros _ e ->%list_elem_of_singleton. done.
  - by eexists.
Qed.


Lemma from_parts_exact_witness :
  step_valid [] crossing_parts true.
Proof.
  destruct (from_parts_exact [] crossing_parts true crossing_parts_ok (Forall_nil_2 _)) as [_ H].
  apply (proj1 (H (step_of crossing_parts))). reflexivity.
Defined.

Lemma multi_step_exact_witness :
  proposal_valid [step_of crossing_parts].
Proof.
  apply (proj1 (proj2 (multi_step_exact (FE := sample_fee_env) (() : FeeRuleT (FeeEnv := sample_fee_env))
    2000 [step_of crossing_parts]
    (MkProposal (() : FeeRuleT (FeeEnv := sample_fee_env)) 2000 [step_of crossing_parts] None)))).
  reflexivity.
Defined.

Lemma ironwood_padding_agrees_witness :
  step_ironwood_action_count (step_of crossing_parts) (ironwood_bundle_padding (step_of crossing_parts))
    true = Ok 2.
Proof.
  apply (ironwood_padding_agrees sample_cfg (Some sample_meta) (crossing None) crossing_balance
    (step_of crossing_parts) (MkDummyOutputCounts 0 1 1) crossing_None_ok sample_cfg_ok
    sample_meta_ok crossing_run); reflexivity.
Defined.

(** * A sample lock store

    The proposal of [ProposalSample] and the store of a wallet that holds its input, on which
    the theorems of [LockingProofs] are evaluated. *)

Definition alice : LockOwner := repeat Byte.x0a 32.
Definition bob : LockOwner := repeat Byte.x0b 32.

(** The input of the crossing, and a transparent output of another account that Bob has locked. *)
Definition crossing_input : OutputRef := MkOutputRef [Byte.x01] (Shielded OrchardPool) 0.
Definition other_output : OutputRef := MkOutputRef [Byte.x02] TransparentPool 3.

Definition sample_store : LockDb :=
  MkLockDb (Some 2000)
    (<[crossing_input := MkOutRow 1 None None]>
       (<[other_output := MkOutRow 2 (Some 2010) (Some bob)]> ∅))
    [].

Definition crossing_proposal : Proposal :=
  MkProposal (() : FeeRuleT (FeeEnv := sample_fee_env)) 2000 [step_of crossing_parts] None.

Lemma crossing_refs : proposal_input_refs crossing_proposal = [crossing_input].
Proof. reflexivity. Qed.

(** The store after Alice has locked the input. *)
Definition locked_store : LockDb :=
  MkLockDb (Some 2000)
    (<[crossing_input := MkOutRow 1 (Some 2040) (Some alice)]>
       (<[other_output := MkOutRow 2 (Some 2010) (Some bob)]> ∅))
    [].

Lemma sample_lock : wallet_lock_outputs sample_store [crossing_input] alice 2040 = (Ok 1, locked_store).
Proof. vm_compute. reflexivity. Qed.

(** What happens while Alice holds the lock: Bob asks for both outputs, tries to release the
    input, extends his own lock, the second account is cleared and the tip moves. *)
Definition busy : list LockEvent :=
  [EvLock [other_output; crossing_input] bob 3000; EvUnlock crossing_input bob;
   EvLock [other_output] bob 2050; EvClear 2; EvTip None; EvTip (Some 2039)].

Definition after_busy : LockDb := foldl apply_event locked_store busy.

Lemma reaches_foldl db evs : reaches db evs (foldl apply_event db evs).
Proof. revert db. induction evs; intros db; cbn [foldl]; by constructor. Qed.

Lemma no_stealing_witness :
  received after_busy !! crossing_input = Some (MkOutRow 1 (Some 2040) (Some alice)).
Proof.
  apply (no_stealing sample_store locked_store [crossing_input] alice 2040 1 crossing_input
    (MkOutRow 1 None None) busy after_busy sample_lock).
  - by apply list_elem_of_singleton.
  - vm_compute. reflexivity.
  - cbn. lia.
  - intros tx. apply not_elem_of_nil.
  - apply reaches_foldl.
  - repeat constructor.
Defined.

Lemma locks_expire_witness :
  exists db'', wallet_lock_outputs (apply_event after_busy (EvTip (Some 3000)))
                 [crossing_input; other_output] bob 3100 = (Ok 2, db'').
Proof.
  destruct (locks_expire locked_store busy after_busy 3000 [crossing_input; other_output] bob 3100)
    as (db'' & H & _).
  - apply reaches_foldl.
  - intros r row h Hr Hh. unfold locked_store in Hr. cbn [received] in Hr.
    repeat (rewrite lookup_insert in Hr; case_decide; [injection Hr as <-; injection Hh as <-; lia|]).
    done.
  - repeat constructor; cbn; lia.
  - repeat constructor; vm_compute; eauto.
  - by exists db''.
Defined.

Lemma lock_unlock_proposal_witness :
  unlock_proposal_inputs locked_store crossing_proposal alice = sample_store.
Proof.
  apply (proj1 (proj2 (lock_unlock_proposal sample_store crossing_proposal alice 2040 locked_store
    ltac:(unfold lock_proposal_inputs; rewrite crossing_refs, sample_lock; reflexivity)))).
  rewrite crossing_refs. repeat constructor; vm_compute; reflexivity.
Defined.
