(* ===== verification/InputSelection.v ===== *)
(** * Input selection ([data_api/wallet/input_selection.rs], [data_api.rs])

    The greedy selector alternates between asking the wallet for notes and asking the change
    strategy for the balance of the transaction, until the notes pay for the request or the
    wallet has no more to offer.  The wallet ([InputSource]) and the strategy
    ([ChangeStrategy]) are traits of the code and interfaces here; addresses, ZIP 321 requests
    and transaction versions belong to other crates.  The definitions follow the build with
    the features [orchard] and [transparent-inputs]. *)

From S2P Require Import Prelude WireReader Zatoshi Fees ChangeBalance Proposal.
From S2P Require Import Locking.

(** [TargetValue], [MaxSpendMode], [CoinbaseFilter], [CoinbasePolicy], [NoteSelection] *)
Inductive MaxSpendMode : Type := MaxSpendable | Everything.
Inductive TargetValue : Type := AtLeast (v : Z) | AllFunds (m : MaxSpendMode).
Inductive CoinbaseFilter : Type := AllTransparentOutputs | CoinbaseOnly | NonCoinbaseOnly.
Inductive CoinbasePolicy : Type := OnlyCoinbase | NonCoinbase.
Inductive NoteSelection : Type := Accumulate | PreferConsolidation.

#[global] Instance NoteSelection_eq_dec : EqDecision NoteSelection.
Proof. solve_decision. Defined.

(** [From<CoinbasePolicy> for CoinbaseFilter] *)
Definition coinbase_filter (p : CoinbasePolicy) : CoinbaseFilter :=
  match p with OnlyCoinbase => CoinbaseOnly | NonCoinbase => NonCoinbaseOnly end.

(** [BTreeMap::insert] *)
Fixpoint bt_insert {A} (k : Z) (v : A) (m : btree A) : btree A :=
  match m with
  | [] => [(k, v)]
  | (k', v') :: m =>
      if k <? k' then (k, v) :: (k', v') :: m
      else if k =? k' then (k, v) :: m
      else (k', v') :: bt_insert k v m
  end.

(** The variants of [zcash_keys::address::Address]; a TEX address is the P2PKH address it
    stands for. *)
Inductive ResolvedAddress (TAddr : Type) : Type :=
| RTransparent (a : TAddr)
| RTex (p2pkh : TAddr)
| RSapling
| RUnified (has_orchard has_sapling : bool) (transparent : option TAddr).
Arguments RTransparent {TAddr} _.
Arguments RTex {TAddr} _.
Arguments RSapling {TAddr}.
Arguments RUnified {TAddr} _ _ _.

(** The items of other crates: addresses, the checks of ZIP 321 on a payment and on a request,
    transaction versions, bundle versions, sizes and outpoints. *)
Class SelectionEnv {FE : FeeEnv} {PE : ProposalEnv} : Type := {
  TAddr : Type;
  TAddr_eq_dec :: EqDecision TAddr;
  OutPoint_eq_dec :: EqDecision OutPoint;
  MemoBytes_eq_dec :: EqDecision MemoBytes;
  ConversionError : Type;
  convert_if_network : Params -> Address -> res ConversionError (ResolvedAddress TAddr);
  (* the serialized size of a TxOut that pays to the address *)
  txout_size : TAddr -> Z;
  (* the error of Payment::new for an address, an amount and a memo, if there is one *)
  payment_check : Address -> option Z -> option MemoBytes -> option Zip321Error;
  (* the error of TransactionRequest::new and from_indexed for indexed payments *)
  request_check : list (Z * (Address * option Z)) -> option Zip321Error;
  valid_in_branch : Z -> BranchId -> bool;
  has_sapling : Z -> bool; has_orchard : Z -> bool; has_ironwood : Z -> bool;
  (* bundle_version_for_branch for the Orchard and the Ironwood value pool *)
  orchard_version_for_branch : BranchId -> option BundleVersion;
  ironwood_version_for_branch : BranchId -> option BundleVersion;
  orchard_insecure_v1 : BundleVersion;
  ORCHARD_DEFAULT : OrchardBundleType;
  MAX_BLOCK_BYTES : Z; P2PKH_STANDARD_INPUT_SIZE : Z;
  known_size : Z -> InputSize;
  outpoint_of : TxId -> Z -> OutPoint;
  outpoint_le : TxId * Z -> TxId * Z -> bool
}.

Section Notes.
Context {ZP : ZcashProtocol} {ZO : ZatoshisOps} {FE : FeeEnv} {PE : ProposalEnv}.

(** [ReceivedNote<NoteRef, sapling::Note>] and [ReceivedNote<NoteRef, orchard::Note>]. *)
Record SpendableNote : Type := MkSpendableNote {
  sn_id : NoteRefT; sn_txid : TxId; sn_index : Z; sn_value : Z; sn_one_time : bool }.

(** [ReceivedNotes] *)
Record ReceivedNotes : Type := MkReceivedNotes {
  rn_sapling : list SpendableNote; rn_orchard : list SpendableNote;
  rn_ironwood : list SpendableNote }.

Definition notes_empty : ReceivedNotes := MkReceivedNotes [] [] [].

(** [ReceivedNote::note_value]: the conversion to [Zatoshis] *)
Definition received_note_value (n : SpendableNote) : res BalanceError Z :=
  ok_or (zat_checked (sn_value n)) Overflow.

(** [sapling_value], [orchard_value] and [ironwood_value] *)
Definition notes_value (l : list SpendableNote) : res BalanceError Z :=
  foldM (fun acc n => v ← received_note_value n; ok_or (zat_add acc v) Overflow) 0 l.

(** [ReceivedNotes::total_value] *)
Definition notes_total_value (n : ReceivedNotes) : res BalanceError Z :=
  s ← notes_value (rn_sapling n);
  o ← notes_value (rn_orchard n);
  i ← notes_value (rn_ironwood n);
  ok_or (zat_add_opt (zat_add s o) i) Overflow.

(** [ReceivedNotes::append] *)
Definition notes_append (n other : ReceivedNotes) : ReceivedNotes :=
  MkReceivedNotes (rn_sapling n ++ rn_sapling other) (rn_orchard n ++ rn_orchard other)
    (rn_ironwood n ++ rn_ironwood other).

(** [SimpleNoteRetention]; the flags also say which bundles a transaction needs. *)
Record SimpleNoteRetention : Type := MkRetention {
  ret_sapling : bool; ret_orchard : bool; ret_ironwood : bool }.

Definition map_note (p : ShieldedPool) (n : SpendableNote) : ReceivedNote :=
  MkReceivedNote (sn_txid n) (sn_index n) p (sn_value n).

(** [ReceivedNotes::into_vec] *)
Definition notes_into_vec (n : ReceivedNotes) (r : SimpleNoteRetention) : list ReceivedNote :=
  (if ret_sapling r then map (map_note SaplingPool) (rn_sapling n) else [])
  ++ (if ret_orchard r then map (map_note OrchardPool) (rn_orchard n) else [])
  ++ (if ret_ironwood r then map (map_note IronwoodPool) (rn_ironwood n) else []).

(** The notes of a pool. *)
Definition notes_in (n : ReceivedNotes) (p : ShieldedPool) : list SpendableNote :=
  match p with
  | SaplingPool => rn_sapling n | OrchardPool => rn_orchard n | IronwoodPool => rn_ironwood n
  end.

(** [note_count_for_pool] *)
Definition note_count_for_pool (n : ReceivedNotes) (p : ShieldedPool) : Z := zlen (notes_in n p).

(** [note_prefix_for_pool] *)
Definition note_prefix_for_pool (n : ReceivedNotes) (p : ShieldedPool) (count : nat) : ReceivedNotes :=
  match p with
  | SaplingPool => MkReceivedNotes (take count (rn_sapling n)) [] []
  | OrchardPool => MkReceivedNotes [] (take count (rn_orchard n)) []
  | IronwoodPool => MkReceivedNotes [] [] (take count (rn_ironwood n))
  end.

(** The views of the notes that the fee computation sees. *)
Definition sapling_input (n : SpendableNote) : SInputView := MkSInputView (sn_id n) (sn_value n).
Definition orchard_input (n : SpendableNote) : OInputView := MkOInputView (sn_id n) (sn_value n) false.
(** [ironwood_input] *)
Definition ironwood_input (n : SpendableNote) : OInputView :=
  MkOInputView (sn_id n) (sn_value n) (sn_one_time n).

(** ** The shape of a balance *)

Definition dummy_of (d : DummyOutputCounts) (p : ShieldedPool) : Z :=
  match p with
  | SaplingPool => dummy_sapling d | OrchardPool => dummy_orchard d | IronwoodPool => dummy_ironwood d
  end.

(** [consolidation_action_count]: the counts are not negative, so that both checked additions
    succeed exactly when the sum is in range. *)
Definition consolidation_action_count (b : TransactionBalance MemoBytes) (p : ShieldedPool)
    (payment_output_count : Z) : option Z :=
  match dummy_outputs b with
  | Some d =>
      let n := payment_output_count + count_pool (Shielded p) (proposed_change b) + dummy_of d p in
      if n <=? usize_max then Some n else None
  | None => None
  end.

#[global] Instance DummyOutputCounts_eq_dec : EqDecision DummyOutputCounts.
Proof. solve_decision. Defined.

Context {MD : EqDecision MemoBytes}.

(** [same_change_shape] *)
Definition same_change_shape (baseline candidate : TransactionBalance MemoBytes) : bool :=
  (fee_required_of baseline =? fee_required_of candidate)
  && is_some (dummy_outputs baseline)
  && bool_decide (dummy_outputs baseline = dummy_outputs candidate)
  && (zlen (proposed_change baseline) =? zlen (proposed_change candidate))
  && forallb (fun bc => bool_decide (output_pool (fst bc) = output_pool (snd bc))
                        && bool_decide (cv_memo (fst bc) = cv_memo (snd bc))
                        && Bool.eqb (is_ephemeral (fst bc)) (is_ephemeral (snd bc)))
       (zip (proposed_change baseline) (proposed_change candidate)).
End Notes.

(** [WalletTransparentOutput<AccountId>] with the parts that shielding reads before it redacts
    the account. *)
Record WalletUtxo {FE : FeeEnv} {PE : ProposalEnv} {SE : SelectionEnv} : Type := MkWalletUtxo {
  utxo_out : WalletTransparentOutput; utxo_address : TAddr; utxo_ephemeral_scope : bool }.

(** [InputSource]: the wallet that offers notes and outputs. *)
Class InputSource {FE : FeeEnv} {PE : ProposalEnv} {SE : SelectionEnv} : Type := {
  DbError : Type; AccountId : Type; ConfirmationsPolicy : Type;
  CONFIRMATIONS_MIN : ConfirmationsPolicy;
  (* PoolMigrationParams::new of the network and anchor_retention_interval() *)
  pool_migration_params : Params -> PoolMigrationParams;
  select_spendable_notes : AccountId -> TargetValue -> list ShieldedPool -> Z ->
    ConfirmationsPolicy -> list NoteRefT -> LockFilter -> res DbError ReceivedNotes;
  select_spendable_notes_for_consolidation : AccountId -> Z -> ShieldedPool -> Z ->
    ConfirmationsPolicy -> list NoteRefT -> LockFilter -> Z ->
    res DbError (ReceivedNotes * ReceivedNotes);
  select_spendable_transparent_outputs : AccountId -> Z -> ConfirmationsPolicy -> CoinbaseFilter ->
    option (list TAddr) -> TargetValue -> Z -> LockFilter -> res DbError (list WalletTransparentOutput);
  get_spendable_transparent_outputs_for_addresses : list TAddr -> Z -> ConfirmationsPolicy ->
    CoinbaseFilter -> LockFilter -> res DbError (list WalletUtxo)
}.

(** [ChangeStrategy].  The request carries no memo: a strategy adds its own. *)
Class ChangeStrategy {ZP : ZcashProtocol} {FE : FeeEnv} {PE : ProposalEnv} {SE : SelectionEnv}
    {IS : InputSource} : Type := {
  AccountMetaT : Type;
  strategy_fee_rule : FeeRuleT;
  fetch_wallet_meta : AccountId -> Z -> list NoteRefT -> res DbError AccountMetaT;
  compute_balance : Params -> ChangeRequest -> AccountMetaT ->
    run ChangeError (TransactionBalance MemoBytes)
}.

Section Selection.
Context {ZP : ZcashProtocol} {ZO : ZatoshisOps} {FE : FeeEnv} {PE : ProposalEnv}
  {SE : SelectionEnv} {IS : InputSource}.

(** ** Policies *)

(** [TransparentSource] and [TransparentSpendPolicy]; a set of addresses is the list of its
    elements. *)
Inductive TransparentSource : Type := AnyAccountAddr | FromAddresses (addrs : list TAddr).
Record TransparentSpendPolicy : Type := MkTransparentSpendPolicy {
  ts_source : TransparentSource; ts_coinbase : CoinbasePolicy }.

Definition any_account_addr : TransparentSpendPolicy :=
  MkTransparentSpendPolicy AnyAccountAddr NonCoinbase.
Definition from_addresses (taddrs : list TAddr) : TransparentSpendPolicy :=
  MkTransparentSpendPolicy (FromAddresses taddrs) NonCoinbase.
Definition from_one_address (taddr : TAddr) : TransparentSpendPolicy :=
  MkTransparentSpendPolicy (FromAddresses [taddr]) NonCoinbase.
Definition with_coinbase (p : TransparentSpendPolicy) (c : CoinbasePolicy) : TransparentSpendPolicy :=
  MkTransparentSpendPolicy (ts_source p) c.

(** [TransparentSpendPolicy::address_allow_list] *)
Definition address_allow_list (p : TransparentSpendPolicy) : option (list TAddr) :=
  match ts_source p with FromAddresses addrs => Some addrs | AnyAccountAddr => None end.

(** [SpendPolicy] *)
Record SpendPolicy : Type := MkSpendPolicy {
  sp_shielded : list ShieldedPool; sp_transparent : option TransparentSpendPolicy;
  sp_locked : LockedInputPolicy; sp_note_selection : NoteSelection }.

Definition shielded_pools (pools : list ShieldedPool) : SpendPolicy :=
  MkSpendPolicy pools None Exclude Accumulate.
Definition spend_policy_default : SpendPolicy :=
  shielded_pools [SaplingPool; OrchardPool; IronwoodPool].
Definition permits_shielded (p : SpendPolicy) (pool : ShieldedPool) : bool :=
  bool_decide (pool ∈ sp_shielded p).
Definition with_transparent (p : SpendPolicy) (t : TransparentSpendPolicy) : SpendPolicy :=
  MkSpendPolicy (sp_shielded p) (Some t) (sp_locked p) (sp_note_selection p).
Definition with_locked_input_policy (p : SpendPolicy) (l : LockedInputPolicy) : SpendPolicy :=
  MkSpendPolicy (sp_shielded p) (sp_transparent p) l (sp_note_selection p).
Definition with_note_selection (p : SpendPolicy) (n : NoteSelection) : SpendPolicy :=
  MkSpendPolicy (sp_shielded p) (sp_transparent p) (sp_locked p) n.

(** [GreedyInputSelector] *)
Record GreedyInputSelector : Type := MkGreedy {
  shielding_block_space_percent : Z; gs_locked : LockedInputPolicy }.

Definition DEFAULT_SHIELDING_BLOCK_SPACE_PERCENT : Z := 10.
Definition CONSOLIDATION_LIMIT : Z := 5.

Definition greedy_new : GreedyInputSelector :=
  MkGreedy DEFAULT_SHIELDING_BLOCK_SPACE_PERCENT Exclude.
Definition with_shielding_block_space_percent (s : GreedyInputSelector) (percent : Z)
    : GreedyInputSelector := MkGreedy (Z.min percent 100) (gs_locked s).

(** [shielding_max_inputs] *)
Definition shielding_max_inputs (block_space_percent : Z) : Z :=
  Z.min (MAX_BLOCK_BYTES * block_space_percent) usize_max / 100 / P2PKH_STANDARD_INPUT_SIZE.

(** ** Errors *)

Inductive GreedyInputSelectorError : Type :=
| GreedyBalance (e : BalanceError)
| UnsupportedAddress (a : Address).

Inductive InputSelectorError : Type :=
| DataSource (e : DbError)
| Selection (e : GreedyInputSelectorError)
| Change (e : ChangeError)
| ProposalFailed (e : ProposalError)
| AddressFailed (e : ConversionError)
| SelInsufficientFunds (available required : Z).

Definition sel_overflow : InputSelectorError := Selection (GreedyBalance Overflow).
Definition balance_err {A} (m : res BalanceError A) : res InputSelectorError A :=
  map_err (fun e => Selection (GreedyBalance e)) m.

(** Errors of the change computation and of proposals, with their panics. *)
Definition map_fault {E E' A} (f : E -> E') (m : run E A) : run E' A :=
  match m with
  | Ok a => Ok a
  | Err (Failed e) => Err (Failed (f e))
  | Err (Panicked p) => Err (Panicked p)
  end.

(** ** Heights and bundles *)

(** [ironwood_active_at] *)
Definition ironwood_active_at (p : Params) (target : Z) : bool := is_nu6_3_active p target.

(** [orchard_bundle_version_for_height] and [ironwood_bundle_version_for_height] *)
Definition orchard_bundle_version_for_height (p : Params) (target : Z) : BundleVersion :=
  default orchard_insecure_v1 (orchard_version_for_branch (branch_for_height p target)).
Definition ironwood_bundle_version_for_height (p : Params) (target : Z) : BundleVersion :=
  default ironwood_v3 (ironwood_version_for_branch (branch_for_height p target)).

(** [selectable_pool_preference] *)
Definition selectable_pool_preference (p : Params) (target : Z)
    (sapling_supported orchard_supported prefer_orchard_family : bool) : list ShieldedPool :=
  let ironwood_selectable := orchard_supported && ironwood_active_at p target in
  let when (b : bool) (pool : ShieldedPool) := if b then [pool] else [] in
  if prefer_orchard_family
  then when ironwood_selectable IronwoodPool ++ when orchard_supported OrchardPool
       ++ when sapling_supported SaplingPool
  else when sapling_supported SaplingPool ++ when ironwood_selectable IronwoodPool
       ++ when orchard_supported OrchardPool.

(** ** Classifying the payments *)

(** The outputs and pools collected from the payments.  [tr1] is the second transaction of a
    ZIP 320 pair, which pays the TEX addresses. *)
Record Classified : Type := MkClassified {
  cl_transparent : list TOutputView; cl_sapling : list Z; cl_orchard : list Z;
  cl_pools : btree PoolType;
  cl_tr1_outputs : list TOutputView; cl_tr1_payments : list Payment;
  cl_tr1_pools : btree PoolType; cl_ephemeral : Z }.

Definition classified_empty : Classified := MkClassified [] [] [] [] [] [] [] 0.

Definition add_transparent (c : Classified) (idx v : Z) (a : TAddr) : Classified :=
  MkClassified (cl_transparent c ++ [MkTOutputView v (txout_size a)]) (cl_sapling c) (cl_orchard c)
    (bt_insert idx TransparentPool (cl_pools c)) (cl_tr1_outputs c) (cl_tr1_payments c)
    (cl_tr1_pools c) (cl_ephemeral c).
Definition add_sapling (c : Classified) (idx v : Z) : Classified :=
  MkClassified (cl_transparent c) (cl_sapling c ++ [v]) (cl_orchard c)
    (bt_insert idx (Shielded SaplingPool) (cl_pools c)) (cl_tr1_outputs c) (cl_tr1_payments c)
    (cl_tr1_pools c) (cl_ephemeral c).
Definition add_orchard (c : Classified) (idx v : Z) (pool : ShieldedPool) : Classified :=
  MkClassified (cl_transparent c) (cl_sapling c) (cl_orchard c ++ [v])
    (bt_insert idx (Shielded pool) (cl_pools c)) (cl_tr1_outputs c) (cl_tr1_payments c)
    (cl_tr1_pools c) (cl_ephemeral c).
Definition add_tex (c : Classified) (idx v : Z) (a : TAddr) (p : Payment) (ephemeral : Z)
    : Classified :=
  MkClassified (cl_transparent c) (cl_sapling c) (cl_orchard c) (cl_pools c)
    (cl_tr1_outputs c ++ [MkTOutputView v (txout_size a)]) (cl_tr1_payments c ++ [p])
    (bt_insert idx TransparentPool (cl_tr1_pools c)) ephemeral.

(** One iteration of the loop over the payments. *)
Definition classify_payment (p : Params) (target : Z) (version : option Z)
    (sapling_supported orchard_supported : bool) (c : Classified) (e : Z * Payment)
    : run InputSelectorError Classified :=
  let (idx, payment) := e in
  v ← fails (ok_or (amount payment) (ProposalFailed (PaymentAmountMissing idx)));
  recipient ← fails (map_err AddressFailed (convert_if_network p (recipient_address payment)));
  match recipient with
  | RTransparent a => Ok (add_transparent c idx v a)
  | RTex a =>
      _ ← panics (match payment_check (recipient_address payment) (amount payment) None with
                  | None => Ok () | Some _ => Err ExpectFailed end);
      total ← fails (ok_or (zat_add (cl_ephemeral c) v) sel_overflow);
      Ok (add_tex c idx v a (MkPayment (recipient_address payment) (amount payment)) total)
  | RSapling => Ok (add_sapling c idx v)
  | RUnified orchard_receiver sapling_receiver transparent_receiver =>
      if orchard_receiver && orchard_supported then
        if ironwood_active_at p target then
          match version with
          | Some ver => if negb (has_ironwood ver)
                        then Err (Failed (ProposalFailed (OrchardReceiverRequiresIronwood ver)))
                        else Ok (add_orchard c idx v IronwoodPool)
          | None => Ok (add_orchard c idx v IronwoodPool)
          end
        else Ok (add_orchard c idx v OrchardPool)
      else if sapling_receiver && sapling_supported then Ok (add_sapling c idx v)
      else match transparent_receiver with
           | Some a => Ok (add_transparent c idx v a)
           | None => Err (Failed (Selection (UnsupportedAddress (recipient_address payment))))
           end
  end.

(** The pools that the requested version supports. *)
Definition supported_pools (p : Params) (target : Z) (version : option Z)
    : res InputSelectorError (bool * bool) :=
  match version with
  | None => Ok (true, true)
  | Some v =>
      let branch := branch_for_height p target in
      if valid_in_branch v branch then Ok (has_sapling v, has_orchard v)
      else Err (ProposalFailed (IncompatibleTxVersion branch))
  end.

(** ** Gathering transparent outputs *)

(** The total of the amounts, while every payment has one; [Err] is the overflow. *)
Fixpoint amounts_so_far (total : Z) (l : list (option Z)) : res InputSelectorError (option Z) :=
  match l with
  | [] => Ok (Some total)
  | None :: _ => Ok None
  | Some v :: l =>
      match zat_add total v with
      | Some sum => amounts_so_far sum l
      | None => Err (SelInsufficientFunds 0 MAX_MONEY)
      end
  end.

(** The arguments of [propose_transaction] that do not change. *)
Record SelectionContext : Type := MkContext {
  cx_params : Params; cx_target : Z; cx_anchor : Z; cx_confirmations : ConfirmationsPolicy;
  cx_account : AccountId; cx_request : TransactionRequest; cx_policy : SpendPolicy;
  cx_selector : GreedyInputSelector }.

Definition cx_filter (cx : SelectionContext) : LockFilter := Policy (sp_locked (cx_policy cx)).

(** The query for transparent outputs that pay at least the target. *)
Definition query_transparent (cx : SelectionContext) (t : TransparentSpendPolicy)
    (target_value : TargetValue) : res InputSelectorError (list WalletTransparentOutput) :=
  map_err DataSource
    (select_spendable_transparent_outputs (cx_account cx) (cx_target cx) (cx_confirmations cx)
       (coinbase_filter (ts_coinbase t)) (address_allow_list t) target_value
       (shielding_max_inputs (shielding_block_space_percent (cx_selector cx))) (cx_filter cx)).

(** [gather_transparent]: the outputs and the amount they were gathered for. *)
Definition gather_transparent (cx : SelectionContext) (t : TransparentSpendPolicy)
    : res InputSelectorError (list WalletTransparentOutput * Z) :=
  total ← amounts_so_far 0 (map (fun e => amount (snd e)) (payments (cx_request cx)));
  let '(target_value, amount_at_gather) :=
    match total with
    | Some z => (AtLeast z, z)
    | None => (AllFunds MaxSpendable, 0)
    end in
  outs ← query_transparent cx t target_value;
  Ok (outs, amount_at_gather).

(** ** The selection loop *)

(** The variables of the loop. *)
Record SelState : Type := MkSelState {
  st_transparent : list WalletTransparentOutput; st_gathered : Z;
  st_transparent_dust : list OutPoint; st_notes : ReceivedNotes; st_prior_available : Z;
  st_amount_required : Z; st_consolidation_target : Z;
  st_consolidation_source : option ShieldedPool; st_additional : ReceivedNotes;
  st_exclude : list NoteRefT }.

(** The pools whose notes are spent: the first that covers the amount alone, or as many as are
    needed in the order of preference. *)
Fixpoint accumulate_pools (value_of : ShieldedPool -> Z) (required running : Z)
    (used : list ShieldedPool) (pref : list ShieldedPool) : res InputSelectorError (list ShieldedPool) :=
  match pref with
  | [] => Ok used
  | pool :: pref =>
      if required <=? running then Ok used
      else
        running ← ok_or (zat_add running (value_of pool)) sel_overflow;
        accumulate_pools value_of required running (used ++ [pool]) pref
  end.

Definition use_pools (value_of : ShieldedPool -> Z) (required : Z) (pref : list ShieldedPool)
    : res InputSelectorError (list ShieldedPool) :=
  match List.find (fun p => required <=? value_of p) pref with
  | Some single => Ok [single]
  | None => accumulate_pools value_of required 0 [] pref
  end.

Definition uses (pools : list ShieldedPool) (p : ShieldedPool) : bool := bool_decide (p ∈ pools).

Definition prefers_consolidation (cx : SelectionContext) : bool :=
  bool_decide (sp_note_selection (cx_policy cx) = PreferConsolidation).

(** The bundles that the notes selected so far require. *)
Definition bundles_required (cx : SelectionContext) (pref : list ShieldedPool) (st : SelState)
    : res InputSelectorError SimpleNoteRetention :=
  s ← balance_err (notes_value (rn_sapling (st_notes st)));
  o ← balance_err (notes_value (rn_orchard (st_notes st)));
  i ← balance_err (notes_value (rn_ironwood (st_notes st)));
  let value_of p :=
    match p with SaplingPool => s | OrchardPool => o | IronwoodPool => i end in
  let required := if prefers_consolidation cx then st_consolidation_target st
                  else st_amount_required st in
  pools ← use_pools value_of required pref;
  Ok (MkRetention (uses pools SaplingPool) (uses pools OrchardPool) (uses pools IronwoodPool)).

(** The notes that are spent when the bundles are these. *)
Definition retained (n : ReceivedNotes) (r : SimpleNoteRetention) : ReceivedNotes :=
  MkReceivedNotes (if ret_sapling r then rn_sapling n else [])
    (if ret_orchard r then rn_orchard n else []) (if ret_ironwood r then rn_ironwood n else []).

(** The identifiers of the selected inputs. *)
Definition note_ids (n : ReceivedNotes) : list NoteRefT :=
  map sn_id (rn_sapling n) ++ map sn_id (rn_orchard n) ++ map sn_id (rn_ironwood n).

Definition t_view (t : WalletTransparentOutput) : TInputView :=
  MkTInputView (outpoint_of (outpoint_hash t) (outpoint_n t)) (txout_value t) (t_input_size t).

(** The transaction that spends the transparent outputs and the notes: the arguments of
    [compute_balance]. *)
Definition tr0_request (cx : SelectionContext) (c : Classified) (ts : list WalletTransparentOutput)
    (n : ReceivedNotes) (ephemeral : option Z) : ChangeRequest :=
  let active := ironwood_active_at (cx_params cx) (cx_target cx) in
  {| target_height := cx_target cx;
     transparent_inputs := map t_view ts;
     transparent_outputs := cl_transparent c;
     sapling := MkSBundleView SAPLING_DEFAULT (map sapling_input (rn_sapling n)) (cl_sapling c);
     orchard := MkOBundleView (orchard_bundle_version_for_height (cx_params cx) (cx_target cx))
                  (map orchard_input (rn_orchard n)) (if active then [] else cl_orchard c);
     ironwood := MkOBundleView (ironwood_bundle_version_for_height (cx_params cx) (cx_target cx))
                   (map ironwood_input (rn_ironwood n)) (if active then cl_orchard c else []);
     orchard_padding := PADDING_DEFAULT;
     anchor_height := cx_anchor cx;
     zip318 := pool_migration_params (cx_params cx);
     change_memo := None;
     ephemeral_balance := EphemeralOutput <$> ephemeral |}.

(** The second transaction of a ZIP 320 pair, which spends an ephemeral output. *)
Definition tr1_request (cx : SelectionContext) (c : Classified) (ephemeral_input : Z) : ChangeRequest :=
  {| target_height := cx_target cx;
     transparent_inputs := []; transparent_outputs := cl_tr1_outputs c;
     sapling := MkSBundleView SAPLING_DEFAULT [] [];
     orchard := MkOBundleView (orchard_bundle_version_for_height (cx_params cx) (cx_target cx)) [] [];
     ironwood := MkOBundleView (ironwood_bundle_version_for_height (cx_params cx) (cx_target cx)) [] [];
     orchard_padding := PADDING_DEFAULT;
     anchor_height := cx_anchor cx;
     zip318 := pool_migration_params (cx_params cx);
     change_memo := None;
     ephemeral_balance := Some (EphemeralInput ephemeral_input) |}.

Context {CS : ChangeStrategy}.

(** The balance of the second transaction, and what it needs from the first. *)
Definition tr1_balance (cx : SelectionContext) (c : Classified) (meta : AccountMetaT)
    : run InputSelectorError (option (Z * TransactionBalance MemoBytes)) :=
  match cl_tr1_outputs c with
  | [] => Ok None
  | _ :: _ =>
      required ← match compute_balance (cx_params cx) (tr1_request cx c 0) meta with
        | Err (Failed (InsufficientFunds _ required)) => Ok required
        | Err (Failed (DustInputs _ _ _ _)) => Err (Panicked Unreachable)
        | Err (Failed other) => Err (Failed (Change other))
        | Err (Panicked p) => Err (Panicked p)
        | Ok _ => Ok 0
        end;
      b ← map_fault Change (compute_balance (cx_params cx) (tr1_request cx c required) meta);
      _ ← panics (assert_that (total b =? fee_required_of b));
      Ok (Some (required, b))
  end.

(** ** Building the proposal *)

(** [TransactionRequest::from_indexed] *)
Definition request_from_indexed (m : btree Payment) : res Zip321Error TransactionRequest :=
  match request_check (map (fun e => (fst e, (recipient_address (snd e), amount (snd e)))) m) with
  | None => Ok (MkTransactionRequest m)
  | Some e => Err e
  end.

(** [TransactionRequest::new]: the payments are indexed by their positions. *)
Definition request_new (l : list Payment) : res Zip321Error TransactionRequest :=
  request_from_indexed (zip (map Z.of_nat (seq 0 (length l))) l).

(** [EphemeralStepConfig] *)
Record EphemeralStepConfig : Type := MkEphemeralStep {
  es_output_value : Z; es_balance : TransactionBalance MemoBytes;
  es_payments : list Payment; es_pools : btree PoolType }.

(** The position of the only ephemeral change output, when it has the expected value. *)
Definition ephemeral_index (change : list (ChangeValue MemoBytes)) (value : Z)
    : res ProposalError Z :=
  match filter (fun ic => is_ephemeral (snd ic) = true)
          (zip (map Z.of_nat (seq 0 (length change))) change) with
  | [(i, cv)] => if cv_value cv =? value then Ok i else Err EphemeralOutputsInvalid
  | _ => Err EphemeralOutputsInvalid
  end.

(** [build_proposal] *)
Definition build_proposal (rule : FeeRuleT) (tr0_balance : TransactionBalance MemoBytes)
    (target anchor : Z) (notes : option (list ReceivedNote)) (ts : list WalletTransparentOutput)
    (req : TransactionRequest) (pools : btree PoolType) (active : bool)
    (ephemeral_step : option EphemeralStepConfig) : run ProposalError Proposal :=
  match ephemeral_step with
  | Some e =>
      i ← fails (ephemeral_index (proposed_change tr0_balance) (es_output_value e));
      tr0 ← panics (map_err (fun _ => ExpectFailed)
        (request_from_indexed
           (filter (fun x => bt_get (fst x) (es_pools e) = None) (payments req))));
      step0 ← from_parts [] tr0 pools ts notes (Some anchor) [] tr0_balance false active;
      tr1 ← panics (map_err (fun _ => ExpectFailed) (request_new (es_payments e)));
      step1 ← from_parts [step0] tr1 (es_pools e) [] None (Some anchor)
                [MkStepOutput 0 (ChangeOutput i)] (es_balance e) false active;
      multi_step rule target [step0; step1]
  | None => single_step req pools ts notes anchor tr0_balance rule target false active
  end.

(** [NonEmpty::from_vec(..).map(ShieldedInputs::from_parts)] *)
Definition shielded_of (l : list ReceivedNote) : option (list ReceivedNote) :=
  match l with [] => None | _ :: _ => Some l end.

(** [.and_then(|proposal| { proposal.validate_shielded_budget(params)?; Ok(proposal) })] *)
Definition within_budget (p : Params) (m : run ProposalError Proposal) : run InputSelectorError Proposal :=
  map_fault ProposalFailed
    (proposal ← m; _ ← fails (validate_shielded_budget proposal p); Ok proposal).

(** ** Optional consolidation *)

(** The number of outputs of the payments in a pool. *)
Definition payment_outputs_in (cx : SelectionContext) (c : Classified) (source : ShieldedPool) : Z :=
  let active := ironwood_active_at (cx_params cx) (cx_target cx) in
  match source with
  | SaplingPool => zlen (cl_sapling c)
  | OrchardPool => if active then 0 else zlen (cl_orchard c)
  | IronwoodPool => if active then zlen (cl_orchard c) else 0
  end.

(** [with_optional]: the balance with optional notes added, if it keeps the shape. *)
Definition with_optional (cx : SelectionContext) (c : Classified) (ts : list WalletTransparentOutput)
    (spent : ReceivedNotes) (ephemeral : option Z) (source : ShieldedPool)
    (baseline : TransactionBalance MemoBytes) (baseline_actions : Z) (optional : ReceivedNotes)
    : run InputSelectorError (option (TransactionBalance MemoBytes)) :=
  let candidate := notes_append spent optional in
  meta ← fails (map_err DataSource
    (fetch_wallet_meta (cx_account cx) (cx_target cx) (note_ids candidate)));
  match compute_balance (cx_params cx) (tr0_request cx c ts candidate ephemeral) meta with
  | Ok b =>
      Ok (if same_change_shape baseline b
             && bool_decide (consolidation_action_count b source (payment_outputs_in cx c source)
                             = Some baseline_actions)
          then Some b else None)
  | Err (Failed _) => Ok None
  | Err (Panicked p) => Err (Panicked p)
  end.

(** The one-time-key candidates that keep the shape, in order, up to the spare slots. *)
Fixpoint keep_one_time (fits : ReceivedNotes -> run InputSelectorError (option (TransactionBalance MemoBytes)))
    (spare : Z) (kept candidates : list SpendableNote) : run InputSelectorError (list SpendableNote) :=
  match candidates with
  | [] => Ok kept
  | note :: candidates =>
      if zlen kept =? spare then Ok kept
      else
        b ← fits (MkReceivedNotes [] [] (kept ++ [note]));
        keep_one_time fits spare (if is_some b then kept ++ [note] else kept) candidates
  end.

(** The candidates of the source pool, with the one-time-key notes that fit first. *)
Definition order_candidates (fits : ReceivedNotes -> run InputSelectorError (option (TransactionBalance MemoBytes)))
    (source : ShieldedPool) (spare : Z) (additional : ReceivedNotes) : run InputSelectorError ReceivedNotes :=
  match source with
  | IronwoodPool =>
      kept ← keep_one_time fits spare []
        (List.filter (fun n => sn_one_time n) (rn_ironwood additional));
      Ok (MkReceivedNotes [] []
            (kept ++ List.filter (fun n => negb (sn_one_time n)) (rn_ironwood additional)))
  | _ => Ok additional
  end.

(** The largest prefix of the candidates that keeps the shape, from [count] downwards. *)
Fixpoint try_prefixes (fits : ReceivedNotes -> run InputSelectorError (option (TransactionBalance MemoBytes)))
    (source : ShieldedPool) (additional : ReceivedNotes) (count : nat)
    : run InputSelectorError (option (ReceivedNotes * TransactionBalance MemoBytes)) :=
  match count with
  | O => Ok None
  | S n =>
      let candidate := note_prefix_for_pool additional source (S n) in
      b ← fits candidate;
      match b with
      | Some b => Ok (Some (candidate, b))
      | None => try_prefixes fits source additional n
      end
  end.

(** The notes that are spent and the balance, after optional consolidation. *)
Definition consolidate (cx : SelectionContext) (c : Classified) (st : SelState) (spent : ReceivedNotes)
    (ephemeral : option Z) (baseline : TransactionBalance MemoBytes)
    : run InputSelectorError (ReceivedNotes * TransactionBalance MemoBytes) :=
  let unchanged := Ok (st_notes st, baseline) in
  if negb (prefers_consolidation cx) || is_some ephemeral then unchanged else
  match st_consolidation_source st with
  | Some SaplingPool | None => unchanged
  | Some source =>
      let funding := note_count_for_pool (st_notes st) source in
      match consolidation_action_count baseline source (payment_outputs_in cx c source) with
      | Some actions =>
          if (actions <=? CONSOLIDATION_LIMIT) && (funding <? actions)
             && (funding <? CONSOLIDATION_LIMIT)
          then
            let spare := Z.min (CONSOLIDATION_LIMIT - funding) (actions - funding) in
            let fits := with_optional cx c (st_transparent st) spent ephemeral source baseline actions in
            additional ← order_candidates fits source spare (st_additional st);
            let optional_count := Z.min (note_count_for_pool additional source) spare in
            found ← try_prefixes fits source additional (Z.to_nat optional_count);
            Ok (match found with
                | Some (candidate, b) => (notes_append (st_notes st) candidate, b)
                | None => (st_notes st, baseline)
                end)
          else unchanged
      | None => unchanged
      end
  end.

(** ** One iteration *)

(** The success branch: the proposal for the selected inputs. *)
Definition finish_selection (cx : SelectionContext) (c : Classified) (st : SelState)
    (r : SimpleNoteRetention) (tr1 : option (Z * TransactionBalance MemoBytes))
    (b : TransactionBalance MemoBytes) : run InputSelectorError Proposal :=
  result ← consolidate cx c st (retained (st_notes st) r) (fst <$> tr1) b;
  let (notes, b) := result : ReceivedNotes * TransactionBalance MemoBytes in
  within_budget (cx_params cx)
    (build_proposal strategy_fee_rule b (cx_target cx) (cx_anchor cx)
       (shielded_of (notes_into_vec notes r)) (st_transparent st) (cx_request cx) (cl_pools c)
       (ironwood_active_at (cx_params cx) (cx_target cx))
       ((fun vb => MkEphemeralStep (fst vb) (snd vb) (cl_tr1_payments c) (cl_tr1_pools c)) <$> tr1)).

(** The branch for dust inputs: they are excluded from now on.  The flag says whether the
    transparent inputs changed. *)
Definition exclude_dust (st : SelState) (t : list OutPoint) (s o i : list NoteRefT) : SelState * bool :=
  let dust := st_transparent_dust st ++ t in
  let kept := filter (fun u => outpoint_of (outpoint_hash u) (outpoint_n u) ∉ dust)
                (st_transparent st) in
  (MkSelState kept (st_gathered st) dust (st_notes st) (st_prior_available st)
     (st_amount_required st) (st_consolidation_target st) (st_consolidation_source st)
     (st_additional st) (st_exclude st ++ s ++ o ++ i),
   negb (zlen kept =? zlen (st_transparent st))).

(** The branch for insufficient funds: the amount to select is raised, and the transparent
    outputs are gathered again when they were gathered for less. *)
Definition raise_target (cx : SelectionContext) (st : SelState) (required : Z)
    : res InputSelectorError (SelState * bool) :=
  gathered ← match sp_transparent (cx_policy cx) with
    | Some t =>
        if st_gathered st <? required then
          outs ← query_transparent cx t (AtLeast required);
          Ok (filter (fun u => outpoint_of (outpoint_hash u) (outpoint_n u)
                               ∉ st_transparent_dust st) outs, required, true)
        else Ok (st_transparent st, st_gathered st, false)
    | None => Ok (st_transparent st, st_gathered st, false)
    end;
  let '(ts, amount, changed) := gathered : list WalletTransparentOutput * Z * bool in
  target ← (if prefers_consolidation cx then
              v ← ok_or (checked_total (map txout_value ts)) sel_overflow;
              Ok (default 0 (zat_sub required v))
            else Ok (st_consolidation_target st));
  Ok (MkSelState ts amount (st_transparent_dust st) (st_notes st) (st_prior_available st) required
        target (st_consolidation_source st) (st_additional st) (st_exclude st), changed).

(** The first pool that can fund the target alone, with its notes. *)
Fixpoint covering_pool (cx : SelectionContext) (st : SelState) (pref : list ShieldedPool)
    : res InputSelectorError (option (ShieldedPool * ReceivedNotes * ReceivedNotes)) :=
  match pref with
  | [] => Ok None
  | source :: pref =>
      let max_additional := match source with
                            | IronwoodPool => 2 * (CONSOLIDATION_LIMIT - 1)
                            | _ => CONSOLIDATION_LIMIT - 1
                            end in
      parts ← map_err DataSource
        (select_spendable_notes_for_consolidation (cx_account cx) (st_consolidation_target st)
           source (cx_target cx) (cx_confirmations cx) (st_exclude st) (cx_filter cx) max_additional);
      let (funding, additional) := parts : ReceivedNotes * ReceivedNotes in
      value ← balance_err (notes_total_value funding);
      if st_consolidation_target st <=? value then Ok (Some (source, funding, additional))
      else covering_pool cx st pref
  end.

(** The notes for the next iteration, with the source and the candidates of consolidation. *)
Definition select_notes (cx : SelectionContext) (pref : list ShieldedPool) (st : SelState)
    : res InputSelectorError (ReceivedNotes * option ShieldedPool * ReceivedNotes) :=
  let ordinary target :=
    map_err DataSource
      (select_spendable_notes (cx_account cx) (AtLeast target) pref (cx_target cx)
         (cx_confirmations cx) (st_exclude st) (cx_filter cx)) in
  if prefers_consolidation cx then
    if st_consolidation_target st =? 0 then Ok (notes_empty, None, notes_empty)
    else
      covering ← covering_pool cx st pref;
      match covering with
      | Some (source, funding, additional) => Ok (funding, Some source, additional)
      | None => notes ← ordinary (st_consolidation_target st); Ok (notes, None, notes_empty)
      end
  else
    notes ← ordinary (st_amount_required st);
    Ok (notes, st_consolidation_source st, st_additional st).

(** The end of the loop body: more notes are selected, unless nothing has changed. *)
Definition select_more (cx : SelectionContext) (pref : list ShieldedPool) (st : SelState) (changed : bool)
    : res InputSelectorError SelState :=
  sel ← select_notes cx pref st;
  let '(notes, source, additional) := sel : ReceivedNotes * option ShieldedPool * ReceivedNotes in
  new_available ← balance_err (notes_total_value notes);
  if (new_available <=? st_prior_available st) && negb changed
  then Err (SelInsufficientFunds new_available (st_amount_required st))
  else Ok (MkSelState (st_transparent st) (st_gathered st) (st_transparent_dust st) notes new_available
             (st_amount_required st) (st_consolidation_target st) source additional (st_exclude st)).

(** The body of the loop: the next state, or the proposal. *)
Definition select_step (cx : SelectionContext) (c : Classified) (pref : list ShieldedPool) (st : SelState)
    : run InputSelectorError (SelState + Proposal) :=
  r ← fails (bundles_required cx pref st);
  let spent := retained (st_notes st) r in
  meta ← fails (map_err DataSource (fetch_wallet_meta (cx_account cx) (cx_target cx) (note_ids spent)));
  tr1 ← tr1_balance cx c meta;
  match compute_balance (cx_params cx)
          (tr0_request cx c (st_transparent st) spent (fst <$> tr1)) meta with
  | Ok b => inr <$> finish_selection cx c st r tr1 b
  | Err (Failed (DustInputs t s o i)) =>
      let (st, changed) := exclude_dust st t s o i in
      inl <$> fails (select_more cx pref st changed)
  | Err (Failed (InsufficientFunds _ required)) =>
      stc ← fails (raise_target cx st required);
      let (st, changed) := stc : SelState * bool in
      inl <$> fails (select_more cx pref st changed)
  | Err (Failed other) => Err (Failed (Change other))
  | Err (Panicked p) => Err (Panicked p)
  end.

Fixpoint select_loop (fuel : nat) (cx : SelectionContext) (c : Classified) (pref : list ShieldedPool)
    (st : SelState) : run InputSelectorError Proposal :=
  match fuel with
  | O => Err (Panicked OutOfFuel)
  | S fuel =>
      next ← select_step cx c pref st;
      match next with
      | inl st => select_loop fuel cx c pref st
      | inr p => Ok p
      end
  end.

(** The state before the loop. *)
Definition initial_state (ts : list WalletTransparentOutput) (gathered : Z) : SelState :=
  MkSelState ts gathered [] notes_empty 0 0 0 None notes_empty [].

(** [GreedyInputSelector::propose_transaction] *)
Definition propose_transaction (fuel : nat) (cx : SelectionContext) (version : option Z)
    : run InputSelectorError Proposal :=
  supported ← fails (supported_pools (cx_params cx) (cx_target cx) version);
  let (sapling_supported, orchard_supported) := supported : bool * bool in
  c ← foldM (classify_payment (cx_params cx) (cx_target cx) version sapling_supported orchard_supported)
        classified_empty (payments (cx_request cx));
  gathered ← fails (match sp_transparent (cx_policy cx) with
                    | None => Ok ([], 0)
                    | Some t => gather_transparent cx t
                    end);
  let (ts, amount) := gathered : list WalletTransparentOutput * Z in
  let pref := List.filter (permits_shielded (cx_policy cx))
    (selectable_pool_preference (cx_params cx) (cx_target cx) sapling_supported orchard_supported
       (negb (nil_list (cl_orchard c)))) in
  select_loop fuel cx c pref (initial_state ts amount).
End Selection.
