(* ===== verification/InputSelectionProofs.v ===== *)
(** * Input selection: termination and totality

    The interfaces between the selector, the wallet and the change strategy as laws, and the
    proof that the selection loop ends, without a panic, for every wallet and every strategy
    that obeys them. *)

From Stdlib Require Import Sorting.Sorted Wellfounded.
From S2P Require Import Prelude WireReader Zatoshi Fees ChangeBalance ChangeProofs.
From S2P Require Import UneconomicInputs ChangeStrategies Proposal ProposalProofs Locking InputSelection.

(** Evaluates the beginning of a monadic program whose first results are known. *)
Ltac red_run := cbn [ok_or map_err fails panics mbind res_bind].

(** ** The interfaces *)

Section Interfaces.
Context {ZP : ZcashProtocol} {ZO : ZatoshisOps} {FE : FeeEnv} {PE : ProposalEnv}
  {SE : SelectionEnv} {IS : InputSource}.

Definition values_ok (l : list SpendableNote) : Prop := Forall is_zat (map sn_value l).
Definition notes_ok (n : ReceivedNotes) : Prop :=
  values_ok (rn_sapling n) /\ values_ok (rn_orchard n) /\ values_ok (rn_ironwood n).

(** The lists that a wallet returns are vectors in memory, whose elements contain a transaction
    identifier, and so take at least thirty-two bytes each. *)
Definition offer_limit : Z := count_limit / 2.
Definition notes_fit (n : ReceivedNotes) : Prop := forall p, zlen (notes_in n p) <= offer_limit.

(** What a wallet offers has values that are amounts and fits in memory, and what it offers to
    fund a transaction from one pool is in that pool. *)
Class InputSourceLaws : Prop := {
  offered_notes_ok : forall a t s h c x f n, select_spendable_notes a t s h c x f = Ok n -> notes_ok n;
  offered_consolidation_ok : forall a t s h c x f k n n',
    select_spendable_notes_for_consolidation a t s h c x f k = Ok (n, n') -> notes_ok n /\ notes_ok n';
  offered_from_source : forall a t s h c x f k n n' p,
    select_spendable_notes_for_consolidation a t s h c x f k = Ok (n, n') -> p <> s -> notes_in n p = [];
  offered_transparent_ok : forall a h c f l t k lf ts,
    select_spendable_transparent_outputs a h c f l t k lf = Ok ts ->
    Forall is_zat (map txout_value ts);
  offered_notes_fit : forall a t s h c x f n, select_spendable_notes a t s h c x f = Ok n -> notes_fit n;
  offered_consolidation_fit : forall a t s h c x f k n n',
    select_spendable_notes_for_consolidation a t s h c x f k = Ok (n, n') -> notes_fit n /\ notes_fit n';
  offered_transparent_fit : forall a h c f l t k lf ts,
    select_spendable_transparent_outputs a h c f l t k lf = Ok ts -> zlen ts <= offer_limit }.

(** The pools of the receivers of an address. *)
Definition receivers (r : ResolvedAddress TAddr) : list PoolType :=
  match r with
  | RTransparent _ | RTex _ => [TransparentPool]
  | RSapling => [Shielded SaplingPool]
  | RUnified o s t => (if o then [Shielded OrchardPool] else [])
                      ++ (if s then [Shielded SaplingPool] else [])
                      ++ (if is_some t then [TransparentPool] else [])
  end.

(** What ZIP 321 says of the validity of requests: it does not depend on the presence of other
    payments or on the indices, and implies that of each payment without its memo; the indices
    of a request have at most four digits; and an address can receive in the pools of its
    receivers. *)
Definition indexed_payments (m : btree Payment) : list (Z * (Address * option Z)) :=
  map (fun e => (fst e, (recipient_address (snd e), amount (snd e)))) m.
Definition by_position (l : list Payment) : btree Payment := zip (map Z.of_nat (seq 0 (length l))) l.

Class SelectionEnvLaws : Prop := {
  request_check_sub : forall m m', sublist m' m ->
    request_check (indexed_payments m) = None -> request_check (indexed_payments m') = None;
  request_check_reindex : forall m m', sublist m' m ->
    request_check (indexed_payments m) = None ->
    request_check (indexed_payments (by_position (map snd m'))) = None;
  request_check_payment : forall m i p, request_check (indexed_payments m) = None -> (i, p) ∈ m ->
    payment_check (recipient_address p) (amount p) None = None;
  request_check_count : forall m, bt_ok m -> request_check (indexed_payments m) = None -> zlen m <= 10000;
  receivers_receive : forall p a r, convert_if_network p a = Ok r ->
    Forall (fun pool => can_receive_as a pool = true) (receivers r) }.

(** What a change strategy promises: it does not panic on a request that fits in memory and its
    errors are as documented, its balances account for every zatoshi, it adds exactly the ephemeral output that it was asked
    for, and a purely transparent transaction that lacks a certain amount is balanced without
    change when it is given that amount. *)
Class ChangeStrategyLaws {CS : ChangeStrategy} (meta_wf : AccountMetaT -> Prop) : Prop := {
  strategy_meta : forall a h ids m, fetch_wallet_meta a h ids = Ok m -> meta_wf m;
  strategy_errors : forall p r m, request_ok r -> request_fits r -> meta_wf m ->
    errs_only (funds_error_ok r) (compute_balance p r m);
  strategy_conserves : forall p r m b, request_ok r -> meta_wf m -> compute_balance p r m = Ok b ->
    inputs_total r = payments_total r + total b /\ is_zat (inputs_total r) /\ balance_ok b;
  strategy_ephemeral : forall p r m b, request_ok r -> meta_wf m -> compute_balance p r m = Ok b ->
    exists ch, proposed_change b = ch ++ ephemeral_change r /\
               Forall (fun c => is_ephemeral c = false) ch;
  strategy_turnstile : forall p r m b c, request_ok r -> meta_wf m ->
    is_nu6_3_active p (target_height r) = true -> compute_balance p r m = Ok b ->
    c ∈ proposed_change b -> output_pool c = Shielded OrchardPool ->
    zsum (map cv_value (filter (fun c => output_pool c = Shielded OrchardPool) (proposed_change b)))
      < zsum (map oi_value (ov_inputs (orchard r)));
  strategy_exact : forall p cx c m a v b, request_ok (tr1_request cx c v) ->
    request_fits (tr1_request cx c v) -> meta_wf m ->
    compute_balance p (tr1_request cx c 0) m = Err (Failed (InsufficientFunds a v)) ->
    compute_balance p (tr1_request cx c v) m = Ok b -> total b = fee_required_of b }.

(** A bound on what a strategy reports as dust: each outpoint that it names is that of an input
    worth at most [limit]. *)
Definition dust_at_most {CS : ChangeStrategy} (meta_wf : AccountMetaT -> Prop) (limit : Z) : Prop :=
  forall p r m t s o i, request_ok r -> request_fits r -> meta_wf m ->
  compute_balance p r m = Err (Failed (DustInputs t s o i)) ->
  forall k, k ∈ t -> exists x, x ∈ transparent_inputs r /\ ti_value x <= limit /\ ti_outpoint x = k.

(** A request that ZIP 321 accepts, with amounts that are amounts. *)
Definition request_wf (req : TransactionRequest) : Prop :=
  request_amounts_ok req /\ request_check (indexed_payments (payments req)) = None.
End Interfaces.

(** ** Ordered maps *)

Lemma bt_insert_snoc {A} (k : Z) (v : A) m :
  Forall (fun e => fst e < k) m -> bt_insert k v m = m ++ [(k, v)].
Proof.
  induction 1 as [|[k' v'] m Hk _ IH]; [done|]. cbn in *. rewrite IH. zcases; [lia..|done].
Qed.

Lemma bt_ok_snoc {A} (k : Z) (v : A) m :
  bt_ok m -> Forall (fun e => fst e < k) m -> bt_ok (m ++ [(k, v)]).
Proof.
  unfold bt_ok. rewrite map_app. cbn. intros Hm Hk. induction m as [|[k' v'] m IH].
  { repeat constructor. }
  cbn in *. inversion Hm; subst. inversion Hk; subst. constructor; [by apply IH|].
  apply Forall_app_2; [done|]. by repeat constructor.
Qed.

Lemma bt_ok_filter {A} (m : btree A) (P : Z * A -> Prop) `{!forall x, Decision (P x)} :
  bt_ok m -> bt_ok (filter P m).
Proof.
  unfold bt_ok, btree in *. induction m as [|e m IH]; [done|]. cbn [map]. intros Hm. inversion Hm as [|? ? Hs Hf]; subst.
  rewrite filter_cons. case_decide; [|auto]. cbn. constructor; [auto|].
  rewrite Forall_map in *. rewrite Forall_forall in *. intros x [_ Hx]%list_elem_of_filter. auto.
Qed.

(** ** Payments *)

Section Payments.
Context {ZP : ZcashProtocol} {ZO : ZatoshisOps} {FE : FeeEnv} {PE : ProposalEnv}
  {SE : SelectionEnv} {IS : InputSource}.

Lemma by_position_ok l : bt_ok (by_position l).
Proof.
  unfold bt_ok, by_position. rewrite fst_zip by (rewrite length_map, length_seq; done).
  generalize 0%nat. induction l as [|p l IH]; intros n; cbn; constructor; [apply IH|].
  apply Forall_forall. intros x Hx. apply list_elem_of_fmap_1 in Hx as (k & -> & Hk).
  apply elem_of_seq in Hk. lia.
Qed.

Definition is_tex (p : Params) (e : Z * Payment) : bool :=
  match convert_if_network p (recipient_address (snd e)) with Ok (RTex _) => true | _ => false end.
Definition tex_of (p : Params) (l : btree Payment) : btree Payment := filter (fun e => is_tex p e = true) l.
Definition direct_of (p : Params) (l : btree Payment) : btree Payment := filter (fun e => is_tex p e = false) l.
Definition amounts (l : btree Payment) : list Z := map (fun e => default 0 (amount (snd e))) l.

(** A payment is delivered in a pool. *)
Definition delivered (a : Address) (pool : PoolType) : Prop :=
  can_receive_as a pool = true \/
  (pool = Shielded IronwoodPool /\ can_receive_as a (Shielded OrchardPool) = true).

(** What the loop over the payments has collected from those it has seen. *)
Record classified_of (p : Params) (target : Z) (l : btree Payment) (c : Classified) : Prop := {
  co_amounts : Forall (fun e => is_Some (amount (snd e))) l;
  co_outputs : zsum (map to_value (cl_transparent c)) + zsum (cl_sapling c) + zsum (cl_orchard c)
               = zsum (amounts (direct_of p l));
  co_zat : Forall is_zat (map to_value (cl_transparent c) ++ cl_sapling c ++ cl_orchard c
                          ++ map to_value (cl_tr1_outputs c));
  co_pools : Forall2 (fun e e' => fst e = fst e' /\ delivered (recipient_address (snd e)) (snd e') /\
                        (ironwood_active_at p target = true -> snd e' <> Shielded OrchardPool))
               (direct_of p l) (cl_pools c);
  co_tr1_outputs : map to_value (cl_tr1_outputs c) = amounts (tex_of p l);
  co_tr1_payments : cl_tr1_payments c = map snd (tex_of p l);
  co_tr1_pools : cl_tr1_pools c = map (fun e => (fst e, TransparentPool)) (tex_of p l);
  co_ephemeral : is_zat (cl_ephemeral c);
  co_counts : (length (cl_transparent c) + length (cl_sapling c) + length (cl_orchard c)
               + length (cl_tr1_outputs c) <= length l)%nat }.

Context {ZL : ZatoshisLaws} {SL : SelectionEnvLaws}.

Lemma direct_snoc p l e : direct_of p (l ++ [e]) = direct_of p l ++ (if is_tex p e then [] else [e]).
Proof.
  unfold direct_of, btree. rewrite filter_app, filter_cons, filter_nil.
  destruct (is_tex p e); by case_decide.
Qed.

Lemma tex_snoc p l e : tex_of p (l ++ [e]) = tex_of p l ++ (if is_tex p e then [e] else []).
Proof.
  unfold tex_of, btree. rewrite filter_app, filter_cons, filter_nil.
  destruct (is_tex p e); by case_decide.
Qed.

Lemma bt_ok_last {A} (l : btree A) e : bt_ok (l ++ [e]) -> Forall (fun x => fst x < fst e) l.
Proof.
  unfold bt_ok, btree in *. rewrite map_app. cbn. intros H.
  enough (Forall (fun k => k < fst e) (map fst l)) as Hk by (by apply Forall_map in Hk).
  induction (map fst l) as [|k ks IH]; [constructor|]. cbn in H. inversion H as [|? ? Hs Hf]; subst.
  constructor; [|by apply IH]. rewrite Forall_app, Forall_singleton in Hf. apply Hf.
Qed.

Lemma keys_below {A B} (l : btree A) (m : btree B) k (P : Z * A -> Z * B -> Prop) :
  (forall e e', P e e' -> fst e = fst e') -> Forall2 P l m ->
  Forall (fun x => fst x < k) l -> Forall (fun x => fst x < k) m.
Proof.
  intros HP H2. induction H2 as [|e e' l m He _ IH]; [done|]. rewrite !Forall_cons.
  intros [Hk Hl]. split; [|auto]. apply HP in He. lia.
Qed.

Lemma filter_below {A} (l : btree A) k (Q : Z * A -> Prop) `{!forall x, Decision (Q x)} :
  Forall (fun x => fst x < k) l -> Forall (fun x => fst x < k) (filter Q l).
Proof.
  unfold btree in *. rewrite !Forall_forall. intros Hl x [_ Hx]%list_elem_of_filter. auto.
Qed.

Lemma zsum_snoc l v : zsum (l ++ [v]) = zsum l + v.
Proof. rewrite zsum_app. cbn. lia. Qed.

Lemma delivered_by p a r pool :
  convert_if_network p a = Ok r -> pool ∈ receivers r -> can_receive_as a pool = true.
Proof using SL.
  intros Hr Hp. apply receivers_receive in Hr. rewrite Forall_forall in Hr. by apply Hr.
Qed.

Section Step.
Context (p : Params) (target : Z) (l : btree Payment) (idx v : Z) (payment : Payment) (c : Classified).
Context (Hc : classified_of p target l c) (Hlast : Forall (fun x => fst x < idx) l)
  (Hamt : amount payment = Some v) (Hz : is_zat v).

Lemma co_amounts_snoc : Forall (fun e => is_Some (amount (snd e))) (l ++ [(idx, payment)]).
Proof using Hc Hamt. apply Forall_app_2; [apply Hc|]. repeat constructor. cbn. by rewrite Hamt. Qed.

Lemma amounts_snoc k : amounts (k ++ [(idx, payment)]) = amounts k ++ [v].
Proof using Hamt. unfold amounts, btree. rewrite map_app. cbn. by rewrite Hamt. Qed.

Lemma pools_snoc pool :
  delivered (recipient_address payment) pool ->
  (ironwood_active_at p target = true -> pool <> Shielded OrchardPool) ->
  is_tex p (idx, payment) = false ->
  Forall2 (fun e e' => fst e = fst e' /\ delivered (recipient_address (snd e)) (snd e') /\
             (ironwood_active_at p target = true -> snd e' <> Shielded OrchardPool))
    (direct_of p (l ++ [(idx, payment)])) (bt_insert idx pool (cl_pools c)).
Proof using Hc Hlast.
  intros Hd Ha Ht. rewrite direct_snoc, Ht, bt_insert_snoc.
  - apply Forall2_app; [apply Hc|]. constructor; [done|constructor].
  - eapply keys_below; [|apply Hc|by apply filter_below]. by intros e e' [? _].
Qed.

(** A payment that is not to a TEX address, by the outputs it adds. *)
Lemma classified_direct (ts ss os : list Z) pool c' :
  is_tex p (idx, payment) = false ->
  delivered (recipient_address payment) pool ->
  (ironwood_active_at p target = true -> pool <> Shielded OrchardPool) ->
  map to_value (cl_transparent c') = map to_value (cl_transparent c) ++ ts ->
  cl_sapling c' = cl_sapling c ++ ss -> cl_orchard c' = cl_orchard c ++ os ->
  ts ++ ss ++ os = [v] ->
  cl_pools c' = bt_insert idx pool (cl_pools c) ->
  cl_tr1_outputs c' = cl_tr1_outputs c -> cl_tr1_payments c' = cl_tr1_payments c ->
  cl_tr1_pools c' = cl_tr1_pools c -> cl_ephemeral c' = cl_ephemeral c ->
  classified_of p target (l ++ [(idx, payment)]) c'.
Proof using Hc Hlast Hamt Hz.
  intros Ht Hd Ha E1 E2 E3 Ev E4 E5 E6 E7 E8.
  assert (zsum ts + zsum ss + zsum os = v) as Hv.
  { replace v with (zsum [v]) by (cbn; lia). rewrite <- Ev, !zsum_app. lia. }
  assert (Forall is_zat (ts ++ ss ++ os)) as Hvz by (rewrite Ev; by constructor).
  rewrite !Forall_app in Hvz. destruct Hvz as (Z1 & Z2 & Z3).
  destruct Hc as [C1 C2 C3 C4 C5 C6 C7 C8 C9]. split.
  - apply co_amounts_snoc.
  - rewrite direct_snoc, Ht, amounts_snoc, zsum_snoc, <- C2, E1, E2, E3, !zsum_app. lia.
  - rewrite E1, E2, E3, E5. rewrite !Forall_app in C3. destruct C3 as (A1 & A2 & A3 & A4).
    by repeat apply Forall_app_2.
  - rewrite E4. by apply pools_snoc.
  - by rewrite tex_snoc, Ht, app_nil_r, E5.
  - by rewrite tex_snoc, Ht, app_nil_r, E6.
  - by rewrite tex_snoc, Ht, app_nil_r, E7.
  - by rewrite E8.
  - apply (f_equal length) in Ev, E1. rewrite !length_app, ?length_map in *. rewrite E2, E3, E5, !length_app.
    cbn in *. lia.
Qed.

Lemma classified_tex a ephemeral :
  convert_if_network p (recipient_address payment) = Ok (RTex a) -> is_zat ephemeral ->
  classified_of p target (l ++ [(idx, payment)])
    (add_tex c idx v a (MkPayment (recipient_address payment) (amount payment)) ephemeral).
Proof using Hc Hlast Hamt Hz.
  intros Hr He. assert (is_tex p (idx, payment) = true) as Ht by (unfold is_tex; cbn; by rewrite Hr).
  destruct Hc as [C1 C2 C3 C4 C5 C6 C7 C8 C9]. split; cbn.
  - apply co_amounts_snoc.
  - by rewrite direct_snoc, Ht, app_nil_r.
  - rewrite map_app. cbn. rewrite !Forall_app in C3. destruct C3 as (A1 & A2 & A3 & A4).
    repeat apply Forall_app_2; try done. by constructor.
  - by rewrite direct_snoc, Ht, app_nil_r.
  - rewrite tex_snoc, Ht, amounts_snoc, map_app, C5. done.
  - rewrite tex_snoc, Ht, C6. unfold btree. rewrite map_app. cbn. by destruct payment.
  - rewrite tex_snoc, Ht, C7. unfold btree. rewrite map_app. rewrite bt_insert_snoc; [done|].
    rewrite Forall_map. by apply filter_below.
  - done.
  - rewrite !length_app. cbn. lia.
Qed.
End Step.

(** One iteration keeps the invariant and does not panic. *)
Lemma classify_step p target version ss os l c e :
  classified_of p target l c -> Forall (fun x => fst x < fst e) l ->
  (forall v, amount (snd e) = Some v -> is_zat v) ->
  payment_check (recipient_address (snd e)) (amount (snd e)) None = None ->
  errs_only (fun _ => True) (classify_payment p target version ss os c e) /\
  forall c', classify_payment p target version ss os c e = Ok c' ->
             classified_of p target (l ++ [e]) c'.
Proof using ZL SL.
  destruct e as [idx payment]. cbn [fst snd]. intros Hc Hl Hz Hchk. unfold classify_payment.
  destruct (amount payment) as [v|] eqn:Hamt; [|split; [done|discriminate]]. red_run.
  specialize (Hz v eq_refl).
  destruct (convert_if_network p (recipient_address payment)) as [r|e] eqn:Hr;
    [|split; [done|discriminate]]. red_run.
  assert (forall pool, pool ∈ receivers r -> delivered (recipient_address payment) pool) as Hdel.
  { intros pool Hp. left. by eapply delivered_by. }
  assert (forall pool a, is_tex p (idx, payment) = false -> pool = TransparentPool ->
    delivered (recipient_address payment) pool ->
    classified_of p target (l ++ [(idx, payment)]) (add_transparent c idx v a)) as HT.
  { intros pool a Ht -> Hd. eapply (classified_direct p target l idx v payment c Hc Hl Hamt Hz [v] [] []
      TransparentPool); try done; cbn; by rewrite ?app_nil_r, ?map_app. }
  assert (is_tex p (idx, payment) = false -> delivered (recipient_address payment) (Shielded SaplingPool) ->
    classified_of p target (l ++ [(idx, payment)]) (add_sapling c idx v)) as HS.
  { intros Ht Hd. eapply (classified_direct p target l idx v payment c Hc Hl Hamt Hz [] [v] []
      (Shielded SaplingPool)); try done; cbn; by rewrite ?app_nil_r. }
  assert (forall pool, is_tex p (idx, payment) = false -> delivered (recipient_address payment) (Shielded pool) ->
    (ironwood_active_at p target = true -> pool <> OrchardPool) ->
    classified_of p target (l ++ [(idx, payment)]) (add_orchard c idx v pool)) as HO.
  { intros pool Ht Hd Hp. eapply (classified_direct p target l idx v payment c Hc Hl Hamt Hz [] [] [v]
      (Shielded pool)); try done; cbn; rewrite ?app_nil_r; try done. intros Ha [= ->]. by apply Hp. }
  assert (forall b, is_tex p (idx, payment) = b <->
    match r with RTex _ => true | _ => false end = b) as Htex by (intros b; unfold is_tex; cbn; by rewrite Hr).
  destruct r as [a|a| |o s t].
  - split; [done|]. intros c' [= <-]. eapply HT; [by apply Htex|done|]. apply Hdel. left.
  - rewrite Hchk. red_run. destruct (zat_add (cl_ephemeral c) v) as [tot|] eqn:Et;
      [|split; [done|discriminate]]. red_run.
    split; [done|]. intros c' [= <-]. rewrite <- Hamt. apply classified_tex; try done.
    apply zat_add_Some in Et; [apply Et|apply Hc|done].
  - split; [done|]. intros c' [= <-]. apply HS; [by apply Htex|]. apply Hdel. left.
  - assert (is_tex p (idx, payment) = false) as Ht by (by apply Htex).
    destruct (o && os) eqn:Eo.
    + apply andb_true_iff in Eo as [-> _].
      assert (can_receive_as (recipient_address payment) (Shielded OrchardPool) = true) as Hcan.
      { eapply delivered_by; [done|]. left. }
      destruct (ironwood_active_at p target) eqn:Ea.
      * assert (classified_of p target (l ++ [(idx, payment)]) (add_orchard c idx v IronwoodPool)) as Hi.
        { apply HO; [done| |done]. by right. }
        destruct version as [ver|]; [destruct (negb (has_ironwood ver)); [split; [done|discriminate]|]|];
          (split; [done|]); by intros c' [= <-].
      * split; [done|]. intros c' [= <-]. apply HO; [done|by left|done].
    + destruct (s && ss) eqn:Es.
      * apply andb_true_iff in Es as [-> _]. split; [done|]. intros c' [= <-]. apply HS; [done|].
        apply Hdel. cbn. set_solver.
      * destruct t as [a|]; [|split; [done|discriminate]]. split; [done|]. intros c' [= <-].
        eapply HT; [done|done|]. apply Hdel. cbn. set_solver.
Qed.

Lemma classified_empty_of p target : classified_of p target [] classified_empty.
Proof using ZL. split; try constructor; try done. cbn. pose proof max_money_pos. unfold is_zat. lia. Qed.
End Payments.

(** ** The loop *)

Section Loop.
Context {ZP : ZcashProtocol} {ZO : ZatoshisOps} {FE : FeeEnv} {PE : ProposalEnv}
  {SE : SelectionEnv} {IS : InputSource} {CS : ChangeStrategy}.
Context {ZL : ZatoshisLaws} {PL : ProposalEnvLaws} {SL : SelectionEnvLaws} {IL : InputSourceLaws}
  {meta_wf : AccountMetaT -> Prop} {CL : ChangeStrategyLaws meta_wf}.

Abbreviation total_run m := (errs_only (fun _ => True) m).

Lemma classify_all p target version ss os l done_ c :
  classified_of p target done_ c -> bt_ok (done_ ++ l) ->
  Forall (fun e => (forall v, amount (snd e) = Some v -> is_zat v) /\
                   payment_check (recipient_address (snd e)) (amount (snd e)) None = None) l ->
  total_run (foldM (classify_payment p target version ss os) c l) /\
  forall c', foldM (classify_payment p target version ss os) c l = Ok c' ->
             classified_of p target (done_ ++ l) c'.
Proof using ZL SL.
  revert done_ c. induction l as [|e l IH]; intros done_ c Hc Hbt Hl.
  { split; [done|]. intros c' [= <-]. by rewrite app_nil_r. }
  apply Forall_cons in Hl as [[He1 He2] Hl]. cbn [foldM].
  assert (bt_ok (done_ ++ [e])) as Hbt1.
  { unfold bt_ok, btree in *. rewrite map_app in *. cbn in *.
    replace (map fst done_ ++ fst e :: map fst l) with ((map fst done_ ++ [fst e]) ++ map fst l) in Hbt
      by (by rewrite <- app_assoc).
    revert Hbt. generalize (map fst l) as k2, (map fst done_ ++ [fst e]) as k1. clear.
    intros k2 k1. induction k1 as [|k k1 IH]; [constructor|]. cbn. intros H. inversion H as [|? ? Hs Hf]; subst.
    constructor; [auto|]. by apply Forall_app in Hf as [? _]. }
  destruct (classify_step p target version ss os done_ c e Hc (bt_ok_last _ _ Hbt1) He1 He2) as [Ht Hk].
  destruct (classify_payment p target version ss os c e) as [c1|err]; cbn [mbind res_bind].
  - specialize (Hk c1 eq_refl). replace (done_ ++ e :: l) with ((done_ ++ [e]) ++ l) in Hbt |- *
      by (by rewrite <- app_assoc).
    by apply IH.
  - split; [exact Ht|done].
Qed.

(** The state of the loop has amounts for amounts, and lists that fit in memory. *)
Record state_ok (st : SelState) : Prop := {
  so_transparent : Forall is_zat (map txout_value (st_transparent st));
  so_gathered : is_zat (st_gathered st);
  so_notes : notes_ok (st_notes st);
  so_prior : is_zat (st_prior_available st);
  so_required : is_zat (st_amount_required st);
  so_target : is_zat (st_consolidation_target st);
  so_additional : notes_ok (st_additional st);
  so_transparent_fit : zlen (st_transparent st) <= offer_limit;
  so_notes_fit : notes_fit (st_notes st);
  so_additional_fit : notes_fit (st_additional st) }.

(** The progress of an iteration: the transparent outputs were gathered for more, or some of
    them were dropped, or the notes are worth more. *)
Definition progress (st' st : SelState) : Prop :=
  st_gathered st < st_gathered st' \/
  (st_gathered st = st_gathered st' /\
   ((length (st_transparent st') < length (st_transparent st))%nat \/
    (length (st_transparent st') = length (st_transparent st) /\
     st_prior_available st < st_prior_available st'))).

Lemma notes_value_Ok l v : values_ok l -> notes_value l = Ok v -> v = zsum (map sn_value l) /\ is_zat v.
Proof using ZL.
  intros Hl H. unfold notes_value in H.
  assert (forall acc, foldM (fun acc n => v ← received_note_value n; ok_or (zat_add acc v) Overflow) acc l
    = foldM (fun acc a => ok_or (zat_add acc a) Overflow) acc (map sn_value l)) as Heq.
  { clear H. unfold values_ok in Hl. induction l as [|n l IH]; intros acc; [done|]. cbn in *.
    apply Forall_cons in Hl as [Hn Hl]. unfold received_note_value.
    rewrite (proj2 (zat_checked_Some _ _)) by done. red_run. destruct (zat_add acc (sn_value n)); cbn; auto. }
  rewrite Heq in H. apply foldM_total_Ok in H; [by rewrite Z.add_0_l in H|done|apply is_zat_0].
Qed.

Lemma notes_total_Ok n v : notes_ok n -> notes_total_value n = Ok v -> is_zat v.
Proof using ZL.
  intros (Hs & Ho & Hi) H. unfold notes_total_value in H.
  bind_step H as s Hsv. bind_step H as o Hov. bind_step H as i Hiv.
  apply notes_value_Ok in Hsv as [_ Hsz]; [|done]. apply notes_value_Ok in Hov as [_ Hoz]; [|done].
  apply notes_value_Ok in Hiv as [_ Hiz]; [|done].
  unwrap_ok H. rewrite zat_add_opt_spec in H. apply bind_Some in H as (x & Hx & H). apply zat_add_Some in Hx as [-> Hx]; [|done..].
  by apply zat_add_Some in H as [-> ?].
Qed.

Lemma retained_ok n r : notes_ok n -> notes_ok (retained n r).
Proof.
  intros (Hs & Ho & Hi). unfold retained, notes_ok, values_ok. cbn.
  destruct (ret_sapling r), (ret_orchard r), (ret_ironwood r); split_and!; done || constructor.
Qed.

Lemma append_ok n m : notes_ok n -> notes_ok m -> notes_ok (notes_append n m).
Proof.
  intros (? & ? & ?) (? & ? & ?). unfold notes_ok, values_ok in *. cbn.
  rewrite !map_app. split_and!; by apply Forall_app_2.
Qed.

Lemma map_view_values {A B} (f : A -> B) (g : B -> Z) (h : A -> Z) l :
  (forall a, g (f a) = h a) -> map g (map f l) = map h l.
Proof. intros H. rewrite map_map. by apply map_ext. Qed.

Lemma tr0_request_ok cx c l ts n eph :
  classified_of (cx_params cx) (cx_target cx) l c -> Forall is_zat (map txout_value ts) -> notes_ok n ->
  (forall v, eph = Some v -> is_zat v) -> request_ok (tr0_request cx c ts n eph).
Proof.
  intros Hc Hts (Hs & Ho & Hi) He. pose proof (co_zat _ _ _ _ Hc) as Hz.
  rewrite !Forall_app in Hz. destruct Hz as (Z1 & Z2 & Z3 & _).
  unfold request_ok, tr0_request, values_ok in *. cbn.
  rewrite (map_view_values t_view ti_value txout_value), (map_view_values sapling_input si_value sn_value),
    (map_view_values orchard_input oi_value sn_value), (map_view_values ironwood_input oi_value sn_value)
    by done.
  destruct (ironwood_active_at _ _); split_and!; try done; try constructor; destruct eph; cbn; auto.
Qed.

Lemma tr1_request_ok cx c l v :
  classified_of (cx_params cx) (cx_target cx) l c -> is_zat v -> request_ok (tr1_request cx c v).
Proof.
  intros Hc Hv. pose proof (co_zat _ _ _ _ Hc) as Hz. rewrite !Forall_app in Hz.
  destruct Hz as (_ & _ & _ & Z4). unfold request_ok, tr1_request. cbn. split_and!; try done; constructor.
Qed.

(** *** The lists of the requests fit *)

Lemma offer_limit_bounds : 0 <= offer_limit /\ 2 * offer_limit <= count_limit /\ 10000 <= count_limit.
Proof using ZL.
  pose proof count_limit_bounds. unfold offer_limit. pose proof (Z.div_mod count_limit 2).
  pose proof (Z.mod_pos_bound count_limit 2). lia.
Qed.

Lemma empty_fit : notes_fit notes_empty.
Proof using ZL. intros []; cbn; apply offer_limit_bounds. Qed.

Lemma retained_fit n r p : zlen (notes_in (retained n r) p) <= zlen (notes_in n p).
Proof. destruct p; cbn; destruct (_ r); cbn; unfold zlen; cbn; lia. Qed.

Lemma payments_count req : request_wf req -> zlen (payments req) <= count_limit.
Proof using ZL SL.
  intros [[Hb _] Hchk]. pose proof (request_check_count _ Hb Hchk). pose proof offer_limit_bounds. lia.
Qed.

Lemma tr0_request_fits cx c l ts n eph :
  classified_of (cx_params cx) (cx_target cx) l c -> zlen l <= count_limit -> zlen ts <= count_limit ->
  (forall p, zlen (notes_in n p) <= count_limit) -> request_fits (tr0_request cx c ts n eph).
Proof.
  intros Hc Hl Hts Hn. pose proof (co_counts _ _ _ _ Hc) as Hk.
  pose proof (Hn SaplingPool). pose proof (Hn OrchardPool). pose proof (Hn IronwoodPool).
  unfold request_fits, tr0_request, zlen in *. cbn in *. rewrite !length_map.
  destruct (ironwood_active_at _ _); cbn; lia.
Qed.

Lemma tr1_request_fits cx c l v :
  classified_of (cx_params cx) (cx_target cx) l c -> zlen l <= count_limit -> request_fits (tr1_request cx c v).
Proof.
  intros Hc Hl. pose proof (co_counts _ _ _ _ Hc) as Hk.
  unfold request_fits, tr1_request, zlen in *. cbn in *. lia.
Qed.

(** *** The second transaction *)

Lemma tr1_inputs cx c v : inputs_total (tr1_request cx c v) = v.
Proof. unfold inputs_total, tr1_request. cbn. unfold zsum. cbn. lia. Qed.

Lemma tr1_payments cx c v :
  payments_total (tr1_request cx c v) = zsum (map to_value (cl_tr1_outputs c)).
Proof. unfold payments_total, tr1_request. cbn. unfold zsum. cbn. lia. Qed.

(** What the selector knows of the second transaction. *)
Definition tr1_ok (c : Classified) (tr1 : option (Z * TransactionBalance MemoBytes)) : Prop :=
  match tr1 with
  | None => cl_tr1_outputs c = []
  | Some (v, b) => is_zat v /\ balance_ok b /\ total b = fee_required_of b /\
                   v = zsum (map to_value (cl_tr1_outputs c)) + total b /\ cl_tr1_outputs c <> []
  end.

Lemma tr1_balance_ok cx c l m :
  classified_of (cx_params cx) (cx_target cx) l c -> zlen l <= count_limit -> meta_wf m ->
  total_run (tr1_balance cx c m) /\ forall tr1, tr1_balance cx c m = Ok tr1 -> tr1_ok c tr1.
Proof using ZL CL.
  intros Hc Hl Hm. unfold tr1_balance. destruct (cl_tr1_outputs c) as [|o0 os0] eqn:Eo.
  { split; [done|]. by intros tr1 [= <-]. }
  assert (cl_tr1_outputs c <> []) as Hne by (by rewrite Eo). clear Eo o0 os0.
  pose proof (tr1_request_ok cx c l 0 Hc is_zat_0) as Hr0.
  pose proof (tr1_request_fits cx c l) as Hfit.
  pose proof (strategy_errors (cx_params cx) _ m Hr0 (Hfit 0 Hc Hl) Hm) as He0.
  set (required := match compute_balance _ (tr1_request cx c 0) m with Ok _ => _ | Err _ => _ end).
  assert (total_run required /\ forall v, required = Ok v -> is_zat v /\
    forall b, compute_balance (cx_params cx) (tr1_request cx c v) m = Ok b -> total b = fee_required_of b)
    as [Ht Hreq].
  { subst required. destruct (compute_balance _ (tr1_request cx c 0) m) as [b0|[e|pn]] eqn:E0; [| |done].
    - split; [done|]. intros v [= <-]. split; [apply is_zat_0|]. intros b Hb. rewrite E0 in Hb.
      injection Hb as <-. destruct (strategy_conserves _ _ _ _ Hr0 Hm E0) as (Heq & _ & Hch & Htz & Hfz & Htot).
      rewrite tr1_inputs, tr1_payments in Heq. pose proof (co_zat _ _ _ _ Hc) as Hz.
      rewrite !Forall_app in Hz. destruct Hz as (_ & _ & _ & Z4). apply zsum_nonneg in Z4, Hch.
      unfold is_zat in *. lia.
    - destruct e as [a v|t s o i|e|e]; cbn in He0.
      + destruct He0 as (_ & _ & Hv). split; [done|]. intros v' [= <-]. split; [done|].
        intros b Hb. eapply strategy_exact; [by eapply tr1_request_ok|by apply Hfit|done..].
      + destruct He0 as (Hti & Hsi & Hoi & Hii & Hn). cbn in *.
        assert (t = [] /\ s = [] /\ o = [] /\ i = []) as (-> & -> & -> & ->); [|done].
        split_and!; by apply list_nil_subseteq.
      + by split.
      + by split. }
  destruct required as [v|err]; cbn [mbind res_bind]; [|by split].
  destruct (Hreq v eq_refl) as [Hv Hexact].
  pose proof (tr1_request_ok cx c l v Hc Hv) as Hr.
  pose proof (strategy_errors (cx_params cx) _ m Hr (Hfit v Hc Hl) Hm) as He.
  destruct (compute_balance _ (tr1_request cx c v) m) as [b|[e|pn]] eqn:Eb; cbn [map_fault mbind res_bind];
    [|by split|done].
  rewrite (proj2 (Z.eqb_eq _ _) (Hexact b eq_refl)). cbn. split; [done|]. intros tr1 [= <-].
  destruct (strategy_conserves _ _ _ _ Hr Hm Eb) as (Heq & _ & Hbok). rewrite tr1_inputs, tr1_payments in Heq.
  split_and!; [done|done|by apply Hexact|done|done].
Qed.

(** *** Consolidation *)

Lemma with_optional_ok (Q : InputSelectorError -> Prop) cx c l ts spent eph source base acts optional :
  (forall e, Q (DataSource e)) ->
  classified_of (cx_params cx) (cx_target cx) l c -> Forall is_zat (map txout_value ts) ->
  zlen l <= count_limit -> zlen ts <= offer_limit -> notes_fit spent -> notes_fit optional ->
  notes_ok spent -> notes_ok optional -> (forall v, eph = Some v -> is_zat v) ->
  errs_only Q (with_optional cx c ts spent eph source base acts optional) /\
  forall b, with_optional cx c ts spent eph source base acts optional = Ok (Some b) ->
  exists m, meta_wf m /\
    compute_balance (cx_params cx) (tr0_request cx c ts (notes_append spent optional) eph) m = Ok b.
Proof using CL ZL.
  intros HQ Hc Hts Hl Htf Hsf Hof Hs Ho He. unfold with_optional.
  destruct (fetch_wallet_meta _ _ _) as [m|e] eqn:Em; [|split; [apply HQ|done]]. red_run.
  apply strategy_meta in Em.
  pose proof (tr0_request_ok cx c l ts (notes_append spent optional) eph Hc Hts (append_ok _ _ Hs Ho) He) as Hr.
  assert (request_fits (tr0_request cx c ts (notes_append spent optional) eph)) as Hfit.
  { pose proof offer_limit_bounds. eapply tr0_request_fits; [done|done|lia|].
    intros p. specialize (Hsf p). specialize (Hof p). unfold zlen in *.
    destruct p; cbn in *; rewrite length_app; lia. }
  pose proof (strategy_errors (cx_params cx) _ m Hr Hfit Em) as Herr.
  destruct (compute_balance _ _ m) as [b|[e|pn]] eqn:Eb; [|by split|done].
  split; [done|]. intros b' Hb'. destruct (same_change_shape _ _ && _); [|done].
  injection Hb' as <-. by exists m.
Qed.

Lemma take_ok n l : values_ok l -> values_ok (take n l).
Proof. unfold values_ok. rewrite !Forall_map. apply Forall_take. Qed.

Lemma prefix_fit n p k : notes_fit n -> notes_fit (note_prefix_for_pool n p k).
Proof using ZL.
  intros Hn q. pose proof (Hn p) as Hp. pose proof offer_limit_bounds as [H0 _]. unfold zlen in *.
  destruct p, q; cbn in *; rewrite ?length_take; lia.
Qed.

Lemma ironwood_fit l : zlen l <= offer_limit -> notes_fit (MkReceivedNotes [] [] l).
Proof using ZL. intros Hl. pose proof offer_limit_bounds as [H0 _]. by intros []. Qed.

Lemma filter_split_length {A} (f : A -> bool) l :
  (length (List.filter f l) + length (List.filter (fun x => negb (f x)) l) = length l)%nat.
Proof. induction l as [|a l IH]; [done|]. cbn. destruct (f a); cbn; lia. Qed.

Lemma prefix_ok n p k : notes_ok n -> notes_ok (note_prefix_for_pool n p k).
Proof. intros (? & ? & ?). destruct p; split_and!; cbn; by (constructor || apply take_ok). Qed.

Lemma filter_values_ok (f : SpendableNote -> bool) l : values_ok l -> values_ok (List.filter f l).
Proof.
  unfold values_ok. rewrite !Forall_map, !Forall_forall. intros H x Hx.
  apply H. apply list_elem_of_In in Hx. apply filter_In in Hx as [Hx _]. by apply list_elem_of_In.
Qed.

(** The notes of the first are among those of the second, pool by pool. *)
Definition notes_sub (n m : ReceivedNotes) : Prop := forall p, notes_in n p ⊆ notes_in m p.

Section Fits.
Context (fits : ReceivedNotes -> run InputSelectorError (option (TransactionBalance MemoBytes)))
  (good : ReceivedNotes -> TransactionBalance MemoBytes -> Prop).
Context (Q : InputSelectorError -> Prop)
  (Hfits : forall n, notes_ok n -> notes_fit n -> errs_only Q (fits n) /\ forall b, fits n = Ok (Some b) -> good n b).

Lemma keep_one_time_ok spare kept l :
  values_ok kept -> values_ok l -> zlen (kept ++ l) <= offer_limit ->
  errs_only Q (keep_one_time fits spare kept l) /\
  forall r, keep_one_time fits spare kept l = Ok r ->
  values_ok r /\ r ⊆ kept ++ l /\ zlen r <= zlen (kept ++ l).
Proof using Hfits ZL.
  unfold zlen. revert kept. induction l as [|n l IH]; intros kept Hk Hl Hlen; cbn [keep_one_time].
  { split; [done|]. intros r [= <-]. rewrite app_nil_r. by split_and!. }
  destruct (_ =? _).
  { split; [done|]. intros r [= <-]. rewrite length_app.
    split_and!; [done|intros x Hx; apply elem_of_app; by left|lia]. }
  unfold values_ok in Hl. apply Forall_cons in Hl as [Hn Hl].
  assert (values_ok (kept ++ [n])) as Hkn.
  { unfold values_ok. rewrite map_app. apply Forall_app_2; [done|by constructor]. }
  destruct (Hfits (MkReceivedNotes [] [] (kept ++ [n]))) as [Ht _].
  { split_and!; [constructor..|done]. }
  { apply ironwood_fit. unfold zlen. rewrite length_app in *. cbn in *. lia. }
  destruct (fits _) as [b|err]; cbn [mbind res_bind]; [|by split].
  destruct (IH (if is_some b then kept ++ [n] else kept)) as [Ht' Hr]; [by destruct (is_some b)|done| |].
  { destruct (is_some b); rewrite !length_app in *; cbn in *; lia. }
  split; [done|]. intros r Hr'. apply Hr in Hr' as (? & Hsub & Hle). split_and!; [done| |].
  - clear -Hsub. destruct (is_some b); set_solver.
  - destruct (is_some b); rewrite !length_app in *; cbn in *; lia.
Qed.

Lemma order_candidates_ok source spare n :
  notes_ok n -> notes_fit n -> errs_only Q (order_candidates fits source spare n) /\
  forall r, order_candidates fits source spare n = Ok r -> notes_ok r /\ notes_fit r /\ notes_sub r n.
Proof using Hfits ZL.
  intros Hn Hf. pose proof Hn as (_ & _ & Hi). destruct source; cbn [order_candidates];
    [split; [done|]; intros r [= <-]; split_and!; [done|done|by intros p]..|].
  pose proof (Hf IronwoodPool) as Hfi. cbn in Hfi.
  pose proof (filter_split_length (fun n => sn_one_time n) (rn_ironwood n)) as Hsplit.
  cbv beta in Hsplit. unfold zlen in Hfi.
  destruct (keep_one_time_ok spare [] (List.filter (fun n => sn_one_time n) (rn_ironwood n))) as [Ht Hk];
    [constructor|by apply filter_values_ok|unfold zlen; rewrite app_nil_l; lia|].
  destruct (keep_one_time fits spare [] _) as [kept|err]; cbn [mbind res_bind]; [|by split].
  destruct (Hk _ eq_refl) as (Hkept & Hsub & Hle). unfold zlen in Hle. rewrite app_nil_l in Hle.
  split; [done|]. intros r [= <-]. split; [|split].
  - split_and!; [constructor..|]. unfold values_ok. cbn.
    rewrite map_app. apply Forall_app_2; [done|by apply filter_values_ok].
  - apply ironwood_fit. unfold zlen. rewrite length_app. lia.
  - intros []; cbn; [intros x Hx; by apply elem_of_nil in Hx..|]. cbn in Hsub. intros x [Hx|Hx]%elem_of_app.
    + apply Hsub, list_elem_of_In, filter_In in Hx as [Hx _]. by apply list_elem_of_In.
    + apply list_elem_of_In, filter_In in Hx as [Hx _]. by apply list_elem_of_In.
Qed.

Lemma try_prefixes_ok source n count :
  notes_ok n -> notes_fit n -> errs_only Q (try_prefixes fits source n count) /\
  forall k b, try_prefixes fits source n count = Ok (Some (k, b)) ->
  notes_ok k /\ good k b /\ exists j, k = note_prefix_for_pool n source j.
Proof using Hfits ZL.
  intros Hn Hf. induction count as [|j IH]; cbn [try_prefixes]; [by split|].
  destruct (Hfits (note_prefix_for_pool n source (S j)) (prefix_ok _ _ _ Hn) (prefix_fit _ _ _ Hf)) as [Ht Hg].
  destruct (fits _) as [[b|]|err]; cbn [mbind res_bind]; [|done|by split].
  split; [done|]. intros k b' [= <- <-]. split_and!; [by apply prefix_ok|by apply Hg|by eexists].
Qed.
End Fits.
End Loop.
