(* ===== verification/SelectionLoop.v ===== *)
(** * Input selection: the loop ends

    One iteration of the selection loop never panics, and either it ends the loop or it makes
    progress in a well-founded order.  So the loop ends for every wallet, request and strategy
    that obey the laws of their interfaces. *)

From Stdlib Require Import Sorting.Sorted Wellfounded.
From S2P Require Import Prelude WireReader Zatoshi Fees ChangeBalance ChangeProofs.
From S2P Require Import UneconomicInputs ChangeStrategies Proposal ProposalProofs Locking InputSelection.
From S2P Require Import InputSelectionProofs.

Section Loop.
Context {ZP : ZcashProtocol} {ZO : ZatoshisOps} {FE : FeeEnv} {PE : ProposalEnv}
  {SE : SelectionEnv} {IS : InputSource} {CS : ChangeStrategy}.
Context {ZL : ZatoshisLaws} {PL : ProposalEnvLaws} {SL : SelectionEnvLaws} {IL : InputSourceLaws}
  {meta_wf : AccountMetaT -> Prop} {CL : ChangeStrategyLaws meta_wf}.

Abbreviation total_run m := (errs_only (fun _ => True) m).

Lemma total_fails {E A} (m : res E A) : total_run (fails m).
Proof. by apply errs_only_fails. Qed.

Lemma total_map_fault {E E' A} (f : E -> E') (m : run E A) : total_run m -> total_run (map_fault f m).
Proof. by destruct m as [|[]]. Qed.

Lemma map_fault_Ok {E E' A} (f : E -> E') (m : run E A) a : map_fault f m = Ok a <-> m = Ok a.
Proof. destruct m as [|[]]; naive_solver. Qed.

(** ** Consolidation *)

(** What optional consolidation may change: it adds candidates of the source pool, and the
    balance is that of the larger transaction. *)
Inductive consolidated (cx : SelectionContext) (c : Classified) (st : SelState) (spent : ReceivedNotes)
    (ephemeral : option Z) (baseline : TransactionBalance MemoBytes)
    : ReceivedNotes -> TransactionBalance MemoBytes -> Prop :=
| NotConsolidated : consolidated cx c st spent ephemeral baseline (st_notes st) baseline
| Consolidated source additional j m b :
    st_consolidation_source st = Some source -> prefers_consolidation cx = true ->
    notes_ok additional -> notes_sub additional (st_additional st) ->
    let extra := note_prefix_for_pool additional source j in
    meta_wf m ->
    compute_balance (cx_params cx) (tr0_request cx c (st_transparent st) (notes_append spent extra) ephemeral) m
      = Ok b ->
    consolidated cx c st spent ephemeral baseline (notes_append (st_notes st) extra) b.

Lemma consolidate_ok (Q : InputSelectorError -> Prop) cx c l st r eph base :
  (forall e, Q (DataSource e)) ->
  classified_of (cx_params cx) (cx_target cx) l c -> zlen l <= count_limit -> state_ok st ->
  (forall v, eph = Some v -> is_zat v) ->
  errs_only Q (consolidate cx c st (retained (st_notes st) r) eph base) /\
  forall n b, consolidate cx c st (retained (st_notes st) r) eph base = Ok (n, b) ->
              consolidated cx c st (retained (st_notes st) r) eph base n b.
Proof using CL ZL.
  intros HQ Hc Hl Hst He. unfold consolidate.
  assert (notes_fit (retained (st_notes st) r)) as Hsf.
  { intros p. etrans; [apply retained_fit|apply Hst]. }
  set (spent := retained (st_notes st) r). set (goal := consolidated cx c st spent eph base).
  assert (errs_only Q (Ok (st_notes st, base) : run InputSelectorError _) /\
    forall n b, (Ok (st_notes st, base) : run InputSelectorError _) = Ok (n, b) -> goal n b) as Hun.
  { split; [done|]. intros n b [= <- <-]. constructor. }
  destruct (prefers_consolidation cx) eqn:Epref; [|exact Hun]. cbn [negb orb].
  destruct (is_some eph); [exact Hun|].
  assert (forall source funding, st_consolidation_source st = Some source ->
    let P m := errs_only Q m /\ forall n b, m = Ok (n, b) -> goal n b in
    P (match consolidation_action_count base source (payment_outputs_in cx c source) with
       | Some actions =>
           if (actions <=? CONSOLIDATION_LIMIT) && (funding <? actions) && (funding <? CONSOLIDATION_LIMIT)
           then
             additional ← order_candidates
               (with_optional cx c (st_transparent st) spent eph source base actions) source
               (Z.min (CONSOLIDATION_LIMIT - funding) (actions - funding)) (st_additional st);
             found ← try_prefixes
               (with_optional cx c (st_transparent st) spent eph source base actions) source additional
               (Z.to_nat (Z.min (note_count_for_pool additional source)
                  (Z.min (CONSOLIDATION_LIMIT - funding) (actions - funding))));
             Ok (match found with
                 | Some (candidate, b) => (notes_append (st_notes st) candidate, b)
                 | None => (st_notes st, base)
                 end)
           else Ok (st_notes st, base)
       | None => Ok (st_notes st, base)
       end)) as Hgo.
  { intros source funding Hsrc P.
    destruct (consolidation_action_count _ _ _) as [actions|]; [|exact Hun].
    destruct (_ && _ && _); [|exact Hun].
    set (fits := with_optional _ _ _ _ _ _ _ _).
    pose proof (fun n Hn Hf => with_optional_ok Q cx c l (st_transparent st) spent eph source base actions n
      HQ Hc (so_transparent _ Hst) Hl (so_transparent_fit _ Hst) Hsf Hf (retained_ok _ r (so_notes _ Hst)) Hn He)
      as Hfits. fold fits in Hfits.
    destruct (order_candidates_ok fits _ Q Hfits source
      (Z.min (CONSOLIDATION_LIMIT - funding) (actions - funding)) _ (so_additional _ Hst)
      (so_additional_fit _ Hst)) as [Ht Hord].
    destruct (order_candidates _ _ _ _) as [additional|err]; subst P; cbn [mbind res_bind]; [|by split].
    destruct (Hord _ eq_refl) as (Hadd & Hafit & Hsub).
    destruct (try_prefixes_ok fits _ Q Hfits source additional (Z.to_nat (Z.min (note_count_for_pool additional source)
                  (Z.min (CONSOLIDATION_LIMIT - funding) (actions - funding)))) Hadd Hafit) as [Ht' Hfound].
    destruct (try_prefixes _ _ _ _) as [[[k b]|]|err]; cbn [mbind res_bind]; [| |by split].
    - destruct (Hfound k b eq_refl) as (_ & (m & Hm & Hb) & j & ->). split; [done|].
      intros n' b' [= <- <-]. by econstructor.
    - exact Hun. }
  destruct (st_consolidation_source st) as [[]|] eqn:Hsrc; [exact Hun|by apply Hgo..|exact Hun].
Qed.

(** ** The proposal *)

Lemma filter_ext_in {A} (P Q : A -> Prop) `{!forall x, Decision (P x)} `{!forall x, Decision (Q x)} (l : list A) :
  (forall x, x ∈ l -> P x <-> Q x) -> filter P l = filter Q l.
Proof.
  induction l as [|a l IH]; intros Hpq; [done|]. rewrite !filter_cons.
  rewrite IH by (intros x Hx; apply Hpq; by right).
  assert (P a <-> Q a) by (apply Hpq; left). repeat case_decide; tauto.
Qed.

Lemma tex_pools_get p l e :
  bt_ok l -> e ∈ l ->
  bt_get (fst e) (map (fun e => (fst e, TransparentPool)) (tex_of p l)) = None <-> is_tex p e = false.
Proof.
  intros Hl He. pose proof (bt_ok_NoDup _ Hl) as Hnd.
  assert (bt_ok (map (fun e => (fst e, TransparentPool)) (tex_of p l))) as Hm.
  { unfold bt_ok. rewrite map_map. by apply bt_ok_filter. }
  destruct (is_tex p e) eqn:Ht.
  - split; [|done]. intros Hn. enough (bt_get (fst e) (map (fun e => (fst e, TransparentPool)) (tex_of p l))
      = Some TransparentPool) by congruence. apply bt_get_Some; [done|].
    apply (list_elem_of_fmap_2 (fun e => (fst e, TransparentPool)) _ e). unfold tex_of, btree. by apply list_elem_of_filter.
  - split; [done|]. intros _. destruct (bt_get _ _) as [q|] eqn:Eg; [|done].
    apply bt_get_Some in Eg; [|done].
    apply (list_elem_of_fmap_1 (fun e => (fst e, TransparentPool))) in Eg as (e' & [= Hk _] & He').
    unfold tex_of, btree in He'. apply list_elem_of_filter in He' as [Ht' He'].
    assert (bt_get (fst e) l = Some (snd e)) as H1 by (apply bt_get_Some; [done|by destruct e]).
    assert (bt_get (fst e) l = Some (snd e')) as H2.
    { rewrite Hk. apply bt_get_Some; [done|by destruct e']. }
    rewrite H1 in H2. injection H2 as H2. destruct e, e'. cbn in *. congruence.
Qed.

Lemma direct_by_pools p l c :
  bt_ok l -> cl_tr1_pools c = map (fun e => (fst e, TransparentPool)) (tex_of p l) ->
  filter (fun x => bt_get (fst x) (cl_tr1_pools c) = None) l = direct_of p l.
Proof. intros Hl ->. unfold direct_of, btree. apply filter_ext_in. intros e He. by apply tex_pools_get. Qed.

(** The parts of the steps of the proposal. *)
Definition parts0 (cx : SelectionContext) (c : Classified) (notes : list ReceivedNote)
    (ts : list WalletTransparentOutput) (b : TransactionBalance MemoBytes) : StepParts :=
  MkParts (MkTransactionRequest (direct_of (cx_params cx) (payments (cx_request cx)))) (cl_pools c) ts
    (shielded_of notes) (Some (cx_anchor cx)) [] b false.
Definition parts1 (cx : SelectionContext) (c : Classified) (i : Z) (b : TransactionBalance MemoBytes) : StepParts :=
  MkParts (MkTransactionRequest (by_position (map snd (tex_of (cx_params cx) (payments (cx_request cx))))))
    (cl_tr1_pools c) [] None (Some (cx_anchor cx)) [MkStepOutput 0 (ChangeOutput i)] b false.

(** The steps of a proposal for these inputs. *)
Inductive built (cx : SelectionContext) (c : Classified) (notes : list ReceivedNote)
    (ts : list WalletTransparentOutput) (b : TransactionBalance MemoBytes)
    : option (Z * TransactionBalance MemoBytes) -> list Step -> Prop :=
| BuiltSingle :
    tex_of (cx_params cx) (payments (cx_request cx)) = [] ->
    step_valid [] (parts0 cx c notes ts b) (ironwood_active_at (cx_params cx) (cx_target cx)) ->
    built cx c notes ts b None [step_of (parts0 cx c notes ts b)]
| BuiltPair v b1 i :
    step_valid [] (parts0 cx c notes ts b) (ironwood_active_at (cx_params cx) (cx_target cx)) ->
    step_valid [step_of (parts0 cx c notes ts b)] (parts1 cx c i b1)
      (ironwood_active_at (cx_params cx) (cx_target cx)) ->
    proposal_valid [step_of (parts0 cx c notes ts b); step_of (parts1 cx c i b1)] ->
    ephemeral_index (proposed_change b) v = Ok i ->
    built cx c notes ts b (Some (v, b1)) [step_of (parts0 cx c notes ts b); step_of (parts1 cx c i b1)].

Lemma request_from_indexed_Ok m :
  request_check (indexed_payments m) = None -> request_from_indexed m = Ok (MkTransactionRequest m).
Proof. intros H. unfold request_from_indexed. unfold indexed_payments in H. by rewrite H. Qed.

Section Build.
Context (cx : SelectionContext) (c : Classified) (notes : list ReceivedNote)
  (ts : list WalletTransparentOutput) (b : TransactionBalance MemoBytes).
Context (Hreq : request_wf (cx_request cx))
  (Hc : classified_of (cx_params cx) (cx_target cx) (payments (cx_request cx)) c)
  (Hnotes : Forall is_zat (map note_value notes)) (Hts : Forall is_zat (map txout_value ts))
  (Hb : balance_ok b).

Lemma sub_amounts_ok (P : Z * Payment -> Prop) `{!forall x, Decision (P x)} :
  request_amounts_ok (MkTransactionRequest (filter P (payments (cx_request cx)))).
Proof using Hreq.
  destruct Hreq as [[Hbt Ha] _]. split; cbn.
  - by apply bt_ok_filter.
  - intros i p v. unfold btree. rewrite list_elem_of_filter. intros [_ Hi]. by eapply Ha.
Qed.

Lemma parts0_ok : parts_ok (parts0 cx c notes ts b).
Proof using Hreq Hc Hnotes Hts Hb.
  unfold parts_ok, parts0. cbn. split_and!; try done.
  - apply sub_amounts_ok.
  - pose proof (co_pools _ _ _ _ Hc) as H2. destruct Hreq as [[Hbt _] _].
    pose proof (bt_ok_filter _ (fun e => is_tex (cx_params cx) e = false) Hbt) as Hd.
    fold (direct_of (cx_params cx) (payments (cx_request cx))) in Hd. unfold bt_ok in *.
    enough (map fst (cl_pools c) = map fst (direct_of (cx_params cx) (payments (cx_request cx)))) as -> by done.
    clear -H2. induction H2 as [|e e' l m He _ IH]; [done|]. cbn. f_equal; [by destruct He|done].
  - by destruct notes.
Qed.

Lemma parts1_ok i b1 : balance_ok b1 -> parts_ok (parts1 cx c i b1).
Proof using Hreq Hc.
  intros Hb1. unfold parts_ok, parts1. cbn. destruct Hreq as [[Hbt Ha] _]. split_and!; try done; [split|..].
  - apply by_position_ok.
  - cbn. intros k p v Hp. apply elem_of_zip_r, (list_elem_of_fmap_1 snd) in Hp as ([j q] & -> & Hq).
    unfold tex_of, btree in Hq. apply list_elem_of_filter in Hq as [_ Hq]. by eapply Ha.
  - rewrite (co_tr1_pools _ _ _ _ Hc). unfold bt_ok. rewrite map_map. by apply bt_ok_filter.
Qed.

(** The proposal in terms of the parts. *)
Lemma build_single_eq rule :
  tex_of (cx_params cx) (payments (cx_request cx)) = [] ->
  build_proposal rule b (cx_target cx) (cx_anchor cx) (shielded_of notes) ts (cx_request cx)
    (cl_pools c) (ironwood_active_at (cx_params cx) (cx_target cx)) None
  = step ← step_from_parts [] (parts0 cx c notes ts b) (ironwood_active_at (cx_params cx) (cx_target cx));
    Ok (MkProposal rule (cx_target cx) [step] None).
Proof using Hreq Hc.
  intros Htex. assert (direct_of (cx_params cx) (payments (cx_request cx)) = payments (cx_request cx)) as Hd.
  { unfold direct_of, tex_of, btree in Htex |- *. rewrite (filter_ext_in _ (fun _ => True)).
    - clear. induction (payments (cx_request cx)) as [|e l IH]; [done|]. rewrite filter_cons. case_decide; [|done]. by rewrite IH.
    - intros e He. split; [done|]. intros _. destruct (is_tex _ e) eqn:E; [|done].
      assert (e ∈ ([] : list (Z * Payment))) as Hx; [|by apply elem_of_nil in Hx].
      rewrite <- Htex. by apply list_elem_of_filter. }
  unfold build_proposal, single_step, step_from_parts, parts0. cbn. rewrite Hd. by destruct (cx_request cx).
Qed.

Lemma build_pair_eq rule v b1 :
  build_proposal rule b (cx_target cx) (cx_anchor cx) (shielded_of notes) ts (cx_request cx)
    (cl_pools c) (ironwood_active_at (cx_params cx) (cx_target cx))
    (Some (MkEphemeralStep v b1 (cl_tr1_payments c) (cl_tr1_pools c)))
  = i ← fails (ephemeral_index (proposed_change b) v);
    step0 ← step_from_parts [] (parts0 cx c notes ts b) (ironwood_active_at (cx_params cx) (cx_target cx));
    step1 ← step_from_parts [step0] (parts1 cx c i b1) (ironwood_active_at (cx_params cx) (cx_target cx));
    multi_step rule (cx_target cx) [step0; step1].
Proof using Hreq Hc SL.
  unfold build_proposal. cbn [es_output_value es_balance es_payments es_pools].
  destruct Hreq as [[Hbt Ha] Hchk]. rewrite (direct_by_pools (cx_params cx)); [|done|apply Hc].
  rewrite (request_from_indexed_Ok (direct_of _ _)).
  2: { eapply request_check_sub; [apply sublist_filter|done]. }
  rewrite (co_tr1_payments _ _ _ _ Hc). unfold request_new.
  fold (by_position (map snd (tex_of (cx_params cx) (payments (cx_request cx))))).
  rewrite (request_from_indexed_Ok (by_position _)); [done|].
  eapply request_check_reindex; [apply sublist_filter|done].
Qed.

Lemma build_single rule :
  tex_of (cx_params cx) (payments (cx_request cx)) = [] ->
  let m := build_proposal rule b (cx_target cx) (cx_anchor cx) (shielded_of notes) ts (cx_request cx)
             (cl_pools c) (ironwood_active_at (cx_params cx) (cx_target cx)) None in
  total_run m /\ forall p, m = Ok p -> built cx c notes ts b None (steps p).
Proof using Hreq Hc Hnotes Hts Hb ZL PL.
  intros Htex m. subst m. rewrite build_single_eq by done. split.
  - apply errs_only_bind; [|done]. by apply from_parts_no_panic; [apply parts0_ok|constructor].
  - intros p Hp. bind_step Hp as s Hs. injection Hp as <-. cbn.
    apply from_parts_sound in Hs as [-> Hv]; [|apply parts0_ok|constructor]. by constructor.
Qed.

Lemma parts0_prior : prior_ok [step_of (parts0 cx c notes ts b)].
Proof using Hreq Hb. constructor; [|constructor]. split; [apply sub_amounts_ok|exact Hb]. Qed.

Lemma build_pair rule v b1 :
  balance_ok b1 ->
  let m := build_proposal rule b (cx_target cx) (cx_anchor cx) (shielded_of notes) ts (cx_request cx)
             (cl_pools c) (ironwood_active_at (cx_params cx) (cx_target cx))
             (Some (MkEphemeralStep v b1 (cl_tr1_payments c) (cl_tr1_pools c))) in
  total_run m /\ forall p, m = Ok p -> built cx c notes ts b (Some (v, b1)) (steps p).
Proof using Hreq Hc Hnotes Hts Hb ZL PL SL.
  intros Hb1 m. subst m. rewrite build_pair_eq. split.
  - apply errs_only_bind; [apply total_fails|]. intros i _.
    apply errs_only_bind; [apply from_parts_no_panic; [apply parts0_ok|constructor]|]. intros s0 Hs0.
    apply from_parts_sound in Hs0 as [-> _]; [|apply parts0_ok|constructor].
    apply errs_only_bind; [apply from_parts_no_panic; [by apply parts1_ok|apply parts0_prior]|].
    intros s1 _. apply multi_step_no_panic.
  - intros p Hp. bind_step Hp as i Hi. bind_step Hp as s0 Hs0. bind_step Hp as s1 Hs1.
    apply from_parts_sound in Hs0 as [-> Hv0]; [|apply parts0_ok|constructor].
    apply from_parts_sound in Hs1 as [-> Hv1]; [|by apply parts1_ok|apply parts0_prior].
    apply multi_step_Ok in Hp as [-> Hval]. by constructor.
Qed.

(** Valid parts are accepted, unless the wallet offered an output twice. *)
Lemma build_single_accepts rule :
  tex_of (cx_params cx) (payments (cx_request cx)) = [] ->
  step_valid [] (parts0 cx c notes ts b) (ironwood_active_at (cx_params cx) (cx_target cx)) ->
  exists p, build_proposal rule b (cx_target cx) (cx_anchor cx) (shielded_of notes) ts (cx_request cx)
    (cl_pools c) (ironwood_active_at (cx_params cx) (cx_target cx)) None = Ok p.
Proof using Hreq Hc Hnotes Hts Hb ZL PL.
  intros Htex Hv. rewrite build_single_eq by done.
  rewrite from_parts_complete by (done || apply parts0_ok || constructor). by eexists.
Qed.

Lemma consume_chain_errors l s (e : ProposalError) :
  foldM consume_chain s l = Err e -> exists r, e = ChainDoubleSpend r.
Proof using Type.
  revert s. induction l as [|r l IH]; intros s; [done|]. cbn [foldM].
  destruct (consume_chain s r) as [s'|e'] eqn:E; cbn [mbind res_bind]; [apply IH|]. intros [= <-].
  unfold consume_chain in E. case_decide; [|done]. injection E as <-. by eexists.
Qed.

Lemma check_step_errors all consumed i s :
  errs_only (fun e => exists r, e = ChainDoubleSpend r)
    (foldM (check_prior_ref all i) (prior_inputs consumed) (prior_step_inputs s)) ->
  errs_only (fun e => exists r, e = ChainDoubleSpend r) (check_step all consumed (i, s)).
Proof using Type.
  intros H. unfold check_step. apply errs_only_bind; [done|]. intros pr _.
  apply errs_only_bind; [apply errs_only_fails; intros e; apply consume_chain_errors|]. intros c1 _.
  apply errs_only_bind; [apply errs_only_fails; intros e; apply consume_chain_errors|done].
Qed.

Lemma multi_step_pair_errors i rule target s0 s1 :
  prior_step_inputs s0 = [] -> prior_step_inputs s1 = [MkStepOutput 0 (ChangeOutput (Z.of_nat i))] ->
  (i < length (proposed_change (balance s0)))%nat ->
  errs_only (fun e => exists r, e = ChainDoubleSpend r) (multi_step rule target [s0; s1]).
Proof using Type.
  intros H0 H1 Hi. unfold multi_step. apply errs_only_bind; [|done].
  cbn [length seq map zip zip_with foldM]. apply errs_only_bind.
  { apply check_step_errors. by rewrite H0. }
  intros c1 Hc1. apply errs_only_bind; [|done]. apply check_step_errors. rewrite H1. cbn [foldM].
  assert (prior_inputs c1 = ∅) as ->.
  { unfold check_step in Hc1. rewrite H0 in Hc1. cbn [foldM mbind res_bind] in Hc1.
    bind_step Hc1 as x Hx. bind_step Hc1 as y Hy. by injection Hc1 as <-. }
  apply errs_only_bind; [|done]. unfold check_prior_ref. cbn [step_index output_index].
  change (Z.of_nat 1 <=? 0) with false. change ([s0; s1] !! Z.to_nat 0) with (Some s0). cbn [expect panics mbind res_bind].
  rewrite (proj2 (Z.leb_gt _ _)) by (unfold zlen; lia). red_run.
  rewrite decide_False by apply not_elem_of_empty. done.
Qed.

Lemma build_pair_errors rule v b1 i :
  balance_ok b1 -> ephemeral_index (proposed_change b) v = Ok (Z.of_nat i) ->
  (i < length (proposed_change b))%nat ->
  step_valid [] (parts0 cx c notes ts b) (ironwood_active_at (cx_params cx) (cx_target cx)) ->
  step_valid [step_of (parts0 cx c notes ts b)] (parts1 cx c (Z.of_nat i) b1)
    (ironwood_active_at (cx_params cx) (cx_target cx)) ->
  errs_only (fun e => exists r, e = ChainDoubleSpend r)
    (build_proposal rule b (cx_target cx) (cx_anchor cx) (shielded_of notes) ts (cx_request cx)
       (cl_pools c) (ironwood_active_at (cx_params cx) (cx_target cx))
       (Some (MkEphemeralStep v b1 (cl_tr1_payments c) (cl_tr1_pools c)))).
Proof using Hreq Hc Hnotes Hts Hb ZL PL SL.
  intros Hb1 Hi Hlt Hv0 Hv1. rewrite build_pair_eq, Hi. red_run.
  rewrite from_parts_complete by (done || apply parts0_ok || constructor). cbn [mbind res_bind].
  rewrite from_parts_complete by (done || (by apply parts1_ok) || apply parts0_prior). cbn [mbind res_bind].
  apply (multi_step_pair_errors i); [done|done|done].
Qed.
End Build.

(** ** The end of the loop *)

Lemma notes_into_vec_ok n r : notes_ok n -> Forall is_zat (map note_value (notes_into_vec n r)).
Proof.
  intros (Hs & Ho & Hi). unfold notes_into_vec. rewrite !map_app.
  assert (forall p l, values_ok l -> Forall is_zat (map note_value (map (map_note p) l))) as Hm.
  { intros p l Hl. rewrite map_map. exact Hl. }
  repeat apply Forall_app_2; [destruct (ret_sapling r)|destruct (ret_orchard r)|destruct (ret_ironwood r)];
    by (apply Hm || constructor).
Qed.

Lemma tr1_ok_zat c tr1 : tr1_ok c tr1 -> forall v, fst <$> tr1 = Some v -> is_zat v.
Proof. destruct tr1 as [[v b]|]; [|done]. by intros (? & _) v' [= <-]. Qed.

Lemma no_tex p target l c : classified_of p target l c -> cl_tr1_outputs c = [] -> tex_of p l = [].
Proof.
  intros Hc H. pose proof (co_tr1_outputs _ _ _ _ Hc) as Ho. rewrite H in Ho.
  unfold amounts in Ho. symmetry in Ho. by apply map_eq_nil in Ho.
Qed.

Lemma consolidated_ok cx c l st r eph base n b m :
  classified_of (cx_params cx) (cx_target cx) l c -> state_ok st ->
  (forall v, eph = Some v -> is_zat v) -> meta_wf m ->
  compute_balance (cx_params cx) (tr0_request cx c (st_transparent st) (retained (st_notes st) r) eph) m
    = Ok base ->
  consolidated cx c st (retained (st_notes st) r) eph base n b -> notes_ok n /\ balance_ok b.
Proof using CL.
  intros Hc Hst He Hm Hbase [|source additional j m' b' _ _ Hadd _ extra Hm' Hb'].
  - split; [apply Hst|]. eapply strategy_conserves; [|done..].
    eapply tr0_request_ok; [done|apply Hst|apply retained_ok, Hst|done].
  - assert (notes_ok extra) as Hx by (by apply prefix_ok).
    split; [apply append_ok; [apply Hst|done]|]. eapply strategy_conserves; [|done..].
    eapply tr0_request_ok; [done|apply Hst|apply append_ok; [apply retained_ok, Hst|done]|done].
Qed.

Lemma finish_selection_ok cx c st r tr1 b m :
  request_wf (cx_request cx) ->
  classified_of (cx_params cx) (cx_target cx) (payments (cx_request cx)) c -> state_ok st ->
  tr1_ok c tr1 -> meta_wf m ->
  compute_balance (cx_params cx)
    (tr0_request cx c (st_transparent st) (retained (st_notes st) r) (fst <$> tr1)) m = Ok b ->
  total_run (finish_selection cx c st r tr1 b) /\
  forall p, finish_selection cx c st r tr1 b = Ok p ->
  exists n b', consolidated cx c st (retained (st_notes st) r) (fst <$> tr1) b n b' /\
    built cx c (notes_into_vec n r) (st_transparent st) b' tr1 (steps p) /\
    validate_shielded_budget p (cx_params cx) = Ok ().
Proof using CL PL SL ZL.
  intros Hreq Hc Hst Htr1 Hm Hb. unfold finish_selection.
  destruct (consolidate_ok (fun _ => True) cx c _ st r (fst <$> tr1) b ltac:(done) Hc (payments_count _ Hreq) Hst
    (tr1_ok_zat _ _ Htr1)) as [Ht Hk].
  destruct (consolidate _ _ _ _ _ _) as [[n b']|err]; cbn [mbind res_bind]; [|by split].
  specialize (Hk n b' eq_refl).
  destruct (consolidated_ok _ _ _ _ _ _ _ _ _ m Hc Hst (tr1_ok_zat _ _ Htr1) Hm Hb Hk) as [Hn Hb'].
  set (bp := build_proposal _ _ _ _ _ _ _ _ _ _).
  assert (total_run bp /\ forall p, bp = Ok p ->
    built cx c (notes_into_vec n r) (st_transparent st) b' tr1 (steps p)) as [Htb Hbuilt].
  { subst bp. destruct tr1 as [[v b1]|].
    - apply build_pair; try done; [by apply notes_into_vec_ok|apply Hst|apply Htr1].
    - apply build_single; try done; [by apply notes_into_vec_ok|apply Hst|]. by eapply no_tex. }
  unfold within_budget. split.
  - apply total_map_fault, errs_only_bind; [done|]. intros p _.
    apply errs_only_bind; [apply total_fails|done].
  - intros p Hp. apply map_fault_Ok in Hp. bind_step Hp as p' Hp'. bind_step Hp as u Hu.
    injection Hp as ->. destruct u. exists n, b'. auto.
Qed.

(** ** The next iteration *)

Lemma exclude_dust_ok st t s o i st' changed :
  state_ok st -> exclude_dust st t s o i = (st', changed) ->
  state_ok st' /\ st_gathered st' = st_gathered st /\
  st_prior_available st' = st_prior_available st /\
  (if changed then (length (st_transparent st') < length (st_transparent st))%nat
   else length (st_transparent st') = length (st_transparent st)).
Proof.
  intros Hst [= <- <-]. cbn. set (kept := filter _ _).
  assert (length kept <= length (st_transparent st))%nat as Hle by apply length_filter. split_and!.
  - destruct Hst. split; try done; cbn; [by apply Forall_is_zat_filter|unfold zlen in *; lia].
  - done.
  - done.
  - unfold zlen. zcases; cbn; lia.
Qed.

Lemma query_transparent_ok cx t tv ts :
  query_transparent cx t tv = Ok ts -> Forall is_zat (map txout_value ts) /\ zlen ts <= offer_limit.
Proof using IL.
  unfold query_transparent. intros H. unwrap_ok H.
  split; [by eapply offered_transparent_ok|by eapply offered_transparent_fit].
Qed.

Lemma raise_target_ok cx st required st' changed :
  state_ok st -> is_zat required -> raise_target cx st required = Ok (st', changed) ->
  state_ok st' /\ st_prior_available st' = st_prior_available st /\
  (if changed then st_gathered st < st_gathered st'
   else st_gathered st' = st_gathered st /\ st_transparent st' = st_transparent st).
Proof using IL ZL.
  intros Hst Hr H. unfold raise_target in H. bind_step H as g Hg. destruct g as [[ts amt] ch].
  assert (Forall is_zat (map txout_value ts) /\ zlen ts <= offer_limit /\ is_zat amt /\
    (if ch then st_gathered st < amt else amt = st_gathered st /\ ts = st_transparent st)) as (Hts & Htf & Hamt & Hch).
  { destruct (sp_transparent _) as [t|]; [destruct (Z.ltb_spec (st_gathered st) required)|].
    - bind_step Hg as outs Ho. injection Hg as <- <- <-. apply query_transparent_ok in Ho as [Ho Hof].
      split_and!; [by apply Forall_is_zat_filter| |done|done].
      etrans; [|exact Hof]. apply inj_le, length_filter.
    - injection Hg as <- <- <-. by destruct Hst.
    - injection Hg as <- <- <-. by destruct Hst. }
  bind_step H as tgt Htgt. injection H as <- <-.
  assert (is_zat tgt) as Htz.
  { destruct (prefers_consolidation cx).
    - bind_step Htgt as v Hv. injection Htgt as <-. apply checked_total_Some in Hv as [_ Hv]; [|done].
      destruct (zat_sub required v) as [x|] eqn:Ex; [|apply is_zat_0]. cbn.
      apply zat_sub_Some in Ex as [? ?]; [|done..]. done.
    - injection Htgt as <-. apply Hst. }
  destruct Hst. by split_and!.
Qed.

Lemma covering_pool_ok cx st pref source funding additional :
  covering_pool cx st pref = Ok (Some (source, funding, additional)) ->
  source ∈ pref /\
  (exists t k, select_spendable_notes_for_consolidation (cx_account cx) t source (cx_target cx)
     (cx_confirmations cx) (st_exclude st) (cx_filter cx) k = Ok (funding, additional)) /\
  exists v, notes_total_value funding = Ok v /\ st_consolidation_target st <= v.
Proof.
  induction pref as [|p pref IH]; [done|]. cbn [covering_pool]. intros H.
  bind_step H as parts Hp. destruct parts as [f a]. bind_step H as v Hv.
  destruct (Z.leb_spec (st_consolidation_target st) v).
  - injection H as <- <- <-. split_and!; [left|by eexists _, _|].
    exists v. split; [|done]. unfold balance_err in Hv. by unwrap_ok Hv.
  - apply IH in H as (? & ? & ?). split_and!; [by right|done|done].
Qed.

(** What the wallet is asked for, and what becomes of the answer. *)
Inductive selected (cx : SelectionContext) (pref : list ShieldedPool) (st : SelState)
    : ReceivedNotes -> option ShieldedPool -> ReceivedNotes -> Prop :=
| SelectedNothing : prefers_consolidation cx = true -> selected cx pref st notes_empty None notes_empty
| SelectedFunding source funding additional t k v :
    prefers_consolidation cx = true -> source ∈ pref ->
    select_spendable_notes_for_consolidation (cx_account cx) t source (cx_target cx)
      (cx_confirmations cx) (st_exclude st) (cx_filter cx) k = Ok (funding, additional) ->
    notes_total_value funding = Ok v -> 0 < st_consolidation_target st <= v ->
    selected cx pref st funding (Some source) additional
| SelectedOrdinary t n :
    select_spendable_notes (cx_account cx) t pref (cx_target cx) (cx_confirmations cx)
      (st_exclude st) (cx_filter cx) = Ok n ->
    selected cx pref st n (if prefers_consolidation cx then None else st_consolidation_source st)
      (if prefers_consolidation cx then notes_empty else st_additional st).

Lemma select_notes_selected cx pref st n source additional :
  state_ok st -> select_notes cx pref st = Ok (n, source, additional) -> selected cx pref st n source additional.
Proof.
  intros Hst H. unfold select_notes in H. pose proof (SelectedOrdinary cx pref st) as HO.
  destruct (prefers_consolidation cx) eqn:Ep.
  - destruct (Z.eqb_spec (st_consolidation_target st) 0).
    { injection H as <- <- <-. by constructor. }
    bind_step H as cov Hcov. destruct cov as [[[src f] a]|].
    + injection H as <- <- <-. apply covering_pool_ok in Hcov as (Hs & (t & k & Hq) & v & Hv & Hle).
      econstructor; try done. pose proof (so_target _ Hst) as Hz. unfold is_zat in Hz. lia.
    + bind_step H as ns Hns. injection H as <- <- <-. by eapply HO.
  - bind_step H as ns Hns. injection H as <- <- <-. by eapply HO.
Qed.

Lemma selected_ok cx pref st n source additional :
  state_ok st -> selected cx pref st n source additional ->
  (notes_ok n /\ notes_ok additional) /\ notes_fit n /\ notes_fit additional.
Proof using IL ZL.
  assert (notes_ok notes_empty) as He by (split_and!; constructor). pose proof empty_fit as Hf.
  intros Hst [|source' f a t k v _ _ Hq _ _|t n' Hq].
  - by split.
  - split; [by eapply offered_consolidation_ok|by eapply offered_consolidation_fit].
  - split; (split; [by eapply offered_notes_ok || by eapply offered_notes_fit|]);
      destruct (prefers_consolidation cx); done || apply Hst.
Qed.

(** The state after more notes were selected. *)
Lemma select_more_ok cx pref st changed st' :
  state_ok st -> select_more cx pref st changed = Ok st' ->
  state_ok st' /\
  selected cx pref st (st_notes st') (st_consolidation_source st') (st_additional st') /\
  st_transparent st' = st_transparent st /\ st_gathered st' = st_gathered st /\
  st_consolidation_target st' = st_consolidation_target st /\
  st_exclude st' = st_exclude st /\
  (changed = true \/ st_prior_available st < st_prior_available st').
Proof using IL ZL.
  intros Hst H. unfold select_more in H. bind_step H as sel Hsel. destruct sel as [[n source] additional].
  apply select_notes_selected in Hsel; [|done].
  destruct (selected_ok _ _ _ _ _ _ Hst Hsel) as ([Hn Ha] & Hnf & Haf). bind_step H as v Hv.
  unfold balance_err in Hv. unwrap_ok Hv. apply notes_total_Ok in Hv; [|done].
  destruct (_ && _) eqn:Eb; [done|]. injection H as <-. cbn. split_and!; try done.
  - destruct Hst. by split.
  - destruct changed; [by left|]. right. rewrite andb_true_r in Eb. by apply Z.leb_gt in Eb.
Qed.

Context (cx : SelectionContext) (c : Classified) (pref : list ShieldedPool).
Context (Hreq : request_wf (cx_request cx))
  (Hc : classified_of (cx_params cx) (cx_target cx) (payments (cx_request cx)) c).

(** What one iteration does: it finishes with a proposal for a balance of the notes selected so
    far, or continues from a state whose inputs are again what the wallet offers. *)
Inductive step_result (st : SelState) : SelState + Proposal -> Prop :=
| StepMore st1 st' changed :
    state_ok st1 -> select_more cx pref st1 changed = Ok st' -> state_ok st' -> progress st' st ->
    st_consolidation_source st1 = st_consolidation_source st ->
    st_additional st1 = st_additional st -> st_notes st1 = st_notes st ->
    (st_transparent st1 ⊆ st_transparent st \/
     exists t tv ts, sp_transparent (cx_policy cx) = Some t /\ query_transparent cx t tv = Ok ts /\
                     st_transparent st1 ⊆ ts) ->
    step_result st (inl st')
| StepDone r tr1 m b n b' p :
    bundles_required cx pref st = Ok r -> tr1_ok c tr1 -> meta_wf m ->
    compute_balance (cx_params cx)
      (tr0_request cx c (st_transparent st) (retained (st_notes st) r) (fst <$> tr1)) m = Ok b ->
    consolidated cx c st (retained (st_notes st) r) (fst <$> tr1) b n b' ->
    built cx c (notes_into_vec n r) (st_transparent st) b' tr1 (steps p) ->
    step_result st (inr p).

Lemma raised_transparent st required st' changed :
  raise_target cx st required = Ok (st', changed) ->
  st_consolidation_source st' = st_consolidation_source st /\
  st_additional st' = st_additional st /\ st_notes st' = st_notes st /\
  (st_transparent st' ⊆ st_transparent st \/
   exists t tv ts, sp_transparent (cx_policy cx) = Some t /\ query_transparent cx t tv = Ok ts /\
                   st_transparent st' ⊆ ts).
Proof.
  intros H. unfold raise_target in H. bind_step H as g Hg. destruct g as [[ts amt] ch].
  bind_step H as tgt Htgt. injection H as <- <-. cbn. split_and!; try done. clear Htgt.
  destruct (sp_transparent _) as [t|]; [destruct (st_gathered st <? required)|].
  - bind_step Hg as outs Ho. injection Hg as <- <- <-. right. eexists _, _, _. split_and!; [done..|].
    intros x Hx. by apply list_elem_of_filter in Hx as [_ Hx].
  - injection Hg as <- <- <-. by left.
  - injection Hg as <- <- <-. by left.
Qed.

Lemma dust_transparent st t s o i st' changed :
  exclude_dust st t s o i = (st', changed) ->
  st_consolidation_source st' = st_consolidation_source st /\
  st_additional st' = st_additional st /\ st_notes st' = st_notes st /\
  st_transparent st' ⊆ st_transparent st.
Proof.
  intros [= <- <-]. cbn. split_and!; try done. intros x Hx. by apply list_elem_of_filter in Hx as [_ Hx].
Qed.

Lemma select_step_ok st :
  state_ok st ->
  total_run (select_step cx c pref st) /\
  forall x, select_step cx c pref st = Ok x -> step_result st x.
Proof using CL Hc Hreq IL PL SL ZL.
  intros Hst. unfold select_step.
  destruct (bundles_required cx pref st) as [r|e] eqn:Er; [|by split]. red_run.
  destruct (fetch_wallet_meta _ _ _) as [m|e] eqn:Em; [|by split]. red_run. apply strategy_meta in Em.
  destruct (tr1_balance_ok cx c _ m Hc (payments_count _ Hreq) Em) as [Ht Htr1].
  destruct (tr1_balance cx c m) as [tr1|err]; cbn [mbind res_bind]; [|by split].
  specialize (Htr1 _ eq_refl).
  assert (request_ok (tr0_request cx c (st_transparent st) (retained (st_notes st) r) (fst <$> tr1))) as Hr.
  { eapply tr0_request_ok; [done|apply Hst|apply retained_ok, Hst|by apply (tr1_ok_zat c)]. }
  assert (request_fits (tr0_request cx c (st_transparent st) (retained (st_notes st) r) (fst <$> tr1))) as Hfit.
  { pose proof offer_limit_bounds as (H0 & Hlim & _). pose proof (so_transparent_fit _ Hst) as Htf.
    eapply tr0_request_fits; [done|by apply payments_count|lia|].
    intros p. pose proof (so_notes_fit _ Hst p). pose proof (retained_fit (st_notes st) r p). lia. }
  pose proof (strategy_errors (cx_params cx) _ m Hr Hfit Em) as Herr.
  destruct (compute_balance _ _ m) as [b|[e|pn]] eqn:Eb; [|destruct e as [av required|t s o i|e|e]|done].
  - destruct (finish_selection_ok cx c st r tr1 b m Hreq Hc Hst Htr1 Em Eb) as [Htf Hf].
    destruct (finish_selection _ _ _ _ _ _) as [p|err]; cbn; [|by split]. split; [done|].
    intros x [= <-]. destruct (Hf p eq_refl) as (n & b' & Hk & Hb & _). by econstructor.
  - destruct Herr as (_ & _ & Hz).
    destruct (raise_target cx st required) as [[st1 ch]|e] eqn:E1; [|by split]. red_run.
    destruct (select_more cx pref st1 ch) as [st'|e] eqn:E2; cbn; [|by split]. split; [done|].
    intros x [= <-]. destruct (raised_transparent _ _ _ _ E1) as (? & ? & ? & ?).
    apply raise_target_ok in E1 as (Hst1 & Hp1 & Hch); [|done..].
    pose proof E2 as (Hst' & _ & Ht' & Hg' & _ & _ & Hnew)%select_more_ok; [|done].
    apply (StepMore st st1 st' ch); try done. unfold progress. destruct ch.
    + left. lia.
    + right. destruct Hch as [Hg Hts]. destruct Hnew as [|Hnew]; [done|].
      split; [lia|]. right. rewrite Ht', Hts. split; [done|lia].
  - destruct (exclude_dust st t s o i) as [st1 ch] eqn:E1.
    destruct (select_more cx pref st1 ch) as [st'|e] eqn:E2; cbn; [|by split]. split; [done|].
    intros x [= <-]. pose proof E1 as (Hst1 & Hg1 & Hp1 & Hch)%exclude_dust_ok; [|done].
    destruct (dust_transparent _ _ _ _ _ _ _ E1) as (? & ? & ? & ?).
    pose proof E2 as (Hst' & _ & Ht' & Hg' & _ & _ & Hnew)%select_more_ok; [|done].
    apply (StepMore st st1 st' ch); try done.
    + unfold progress. right. split; [lia|]. rewrite Ht'. destruct ch; [by left|].
      destruct Hnew as [|Hnew]; [done|]. right. split; [done|lia].
    + by left.
  - by split.
  - by split.
Qed.

(** ** Termination *)

Lemma progress_wf st : state_ok st -> Acc (fun st' st => state_ok st' /\ progress st' st) st.
Proof using Type.
  enough (forall g n a st, MAX_MONEY - st_gathered st = Z.of_nat g -> length (st_transparent st) = n ->
    MAX_MONEY - st_prior_available st = Z.of_nat a -> state_ok st ->
    Acc (fun st' st => state_ok st' /\ progress st' st) st) as H.
  { intros Hst. pose proof (so_gathered _ Hst) as Hg. pose proof (so_prior _ Hst) as Hp. unfold is_zat in *.
    apply (H (Z.to_nat (MAX_MONEY - st_gathered st)) (length (st_transparent st))
             (Z.to_nat (MAX_MONEY - st_prior_available st))); [lia|done|lia|done]. }
  induction g as [g IHg] using lt_wf_ind. induction n as [n IHn] using lt_wf_ind.
  induction a as [a IHa] using lt_wf_ind. clear st. intros st Hg Hn Ha Hst. constructor.
  intros st' [Hst' Hp].
  pose proof (so_gathered _ Hst') as Hg'. pose proof (so_prior _ Hst') as Hp'. unfold is_zat in *.
  destruct Hp as [Hp|[Heq [Hp|[Hlen Hp]]]].
  - apply (IHg (Z.to_nat (MAX_MONEY - st_gathered st')) ltac:(lia) (length (st_transparent st'))
             (Z.to_nat (MAX_MONEY - st_prior_available st'))); [lia|done|lia|done].
  - apply (IHn (length (st_transparent st')) ltac:(lia) (Z.to_nat (MAX_MONEY - st_prior_available st')));
      [lia|done|lia|done].
  - apply (IHa (Z.to_nat (MAX_MONEY - st_prior_available st')) ltac:(lia)); [lia|lia|lia|done].
Qed.

Lemma select_loop_ends st :
  state_ok st ->
  exists n, total_run (select_loop n cx c pref st) /\
            forall k, (n <= k)%nat -> select_loop k cx c pref st = select_loop n cx c pref st.
Proof using CL Hc Hreq IL PL SL ZL.
  intros Hst. pose proof (progress_wf st Hst) as Hacc. induction Hacc as [st _ IH].
  destruct (select_step_ok st Hst) as [Ht Hres].
  destruct (select_step cx c pref st) as [[st'|p]|e] eqn:Es.
  - pose proof (Hres _ eq_refl) as Hr. inversion Hr; subst.
    destruct (IH st') as (n & Hn & Hk); [done|done|]. exists (S n). cbn [select_loop].
    rewrite Es. cbn [mbind res_bind]. split; [done|]. intros [|k] Hle; [lia|]. cbn [select_loop].
    rewrite Es. cbn [mbind res_bind]. apply Hk. lia.
  - exists 1%nat. cbn. rewrite Es. split; [done|]. intros [|k] Hle; [lia|]. cbn. by rewrite Es.
  - exists 1%nat. cbn. rewrite Es. split; [done|]. intros [|k] Hle; [lia|]. cbn. by rewrite Es.
Qed.

(** What is true of the first state and is kept by every iteration is true of the state in
    which the loop ends. *)
Lemma select_loop_inv (Inv : SelState -> Prop) n st :
  state_ok st -> Inv st ->
  (forall st st', state_ok st -> Inv st -> step_result st (inl st') -> Inv st') ->
  (forall p, select_loop n cx c pref st = Ok p ->
     exists st', state_ok st' /\ Inv st' /\ step_result st' (inr p)) /\
  (forall e, select_loop n cx c pref st = Err (Failed e) ->
     exists st', state_ok st' /\ Inv st' /\ select_step cx c pref st' = Err (Failed e)).
Proof using CL Hc Hreq IL PL SL ZL.
  intros Hst Hinv Hstep. revert st Hst Hinv. induction n as [|n IH]; intros st Hst Hinv; [done|].
  cbn [select_loop]. destruct (select_step_ok st Hst) as [_ Hres].
  destruct (select_step cx c pref st) as [[st'|p]|e] eqn:Es; cbn [mbind res_bind].
  - pose proof (Hres _ eq_refl) as Hr. apply IH; [by inversion Hr|by eapply Hstep].
  - split; [|done]. intros p' [= <-]. exists st. eauto.
  - split; [done|]. intros e' [= ->]. eauto.
Qed.
End Loop.
