(* ===== verification/SelectionValid.v ===== *)
(** * Input selection: what is selected makes a valid proposal

    The notes that the selector spends are those for which the change strategy computed the
    balance, optional consolidation included; so the steps that it builds are valid. *)

From Stdlib Require Import Sorting.Sorted.
From stdpp Require Import sorting.
From S2P Require Import Prelude WireReader Zatoshi Fees ChangeBalance ChangeProofs.
From S2P Require Import UneconomicInputs ChangeStrategies Proposal ProposalProofs Locking InputSelection.
From S2P Require Import InputSelectionProofs SelectionLoop.

Section Valid.
Context {ZP : ZcashProtocol} {ZO : ZatoshisOps} {FE : FeeEnv} {PE : ProposalEnv}
  {SE : SelectionEnv} {IS : InputSource} {CS : ChangeStrategy}.
Context {ZL : ZatoshisLaws} {PL : ProposalEnvLaws} {SL : SelectionEnvLaws} {IL : InputSourceLaws}
  {meta_wf : AccountMetaT -> Prop} {CL : ChangeStrategyLaws meta_wf}.
Context (cx : SelectionContext) (c : Classified) (pref : list ShieldedPool).
Context (Hreq : request_wf (cx_request cx))
  (Hc : classified_of (cx_params cx) (cx_target cx) (payments (cx_request cx)) c).

(** ** The source of consolidation *)

(** When the notes come from one pool, they are all of that pool and cover the target. *)
Definition source_inv (st : SelState) : Prop :=
  forall source, st_consolidation_source st = Some source ->
  prefers_consolidation cx = true /\ source ∈ pref /\
  (forall p, p <> source -> notes_in (st_notes st) p = []) /\
  0 < st_consolidation_target st <= zsum (map sn_value (notes_in (st_notes st) source)).

Lemma total_of_source n source v :
  notes_ok n -> (forall p, p <> source -> notes_in n p = []) -> notes_total_value n = Ok v ->
  v = zsum (map sn_value (notes_in n source)).
Proof using ZL.
  intros (Hs & Ho & Hi) Hn H. unfold notes_total_value in H.
  bind_step H as s Hsv. bind_step H as o Hov. bind_step H as i Hiv.
  apply notes_value_Ok in Hsv as [-> ?]; [|done]. apply notes_value_Ok in Hov as [-> ?]; [|done].
  apply notes_value_Ok in Hiv as [-> ?]; [|done].
  unwrap_ok H. rewrite zat_add_opt_spec in H. apply bind_Some in H as (x & Hx & H).
  apply zat_add_Some in Hx as [-> ?]; [|done..]. apply zat_add_Some in H as [-> ?]; [|done..].
  pose proof (Hn SaplingPool) as Es. pose proof (Hn OrchardPool) as Eo. pose proof (Hn IronwoodPool) as Ei.
  destruct source; cbn in *; rewrite ?Es, ?Eo, ?Ei by done; unfold zsum; cbn; lia.
Qed.

Lemma source_inv_step st st' :
  state_ok st -> source_inv st -> step_result (meta_wf := meta_wf) cx c pref st (inl st') -> source_inv st'.
Proof using IL ZL.
  intros Hst Hinv Hr. inversion Hr as [st1 ? changed Hst1 Hmore Hst' Hp Hsrc Hadd Hn Hts|]; subst.
  apply select_more_ok in Hmore as (_ & Hsel & _ & _ & Htgt & _); [|done].
  intros source Hs. rewrite Htgt. inversion Hsel as [|source' f a t k v Hpref Hin Hq Hv Hle|t n Hq]; subst.
  - congruence.
  - assert (source' = source) as -> by congruence.
    pose proof (offered_consolidation_ok _ _ _ _ _ _ _ _ _ _ Hq) as [Hok _].
    assert (forall p, p <> source -> notes_in (st_notes st') p = []) as Hno.
    { intros p Hne. by eapply offered_from_source. }
    rewrite (total_of_source _ source v Hok Hno Hv) in Hle. done.
  - destruct (prefers_consolidation cx) eqn:Ep; [congruence|].
    destruct (Hinv source) as [? _]; congruence.
Qed.

Definition ret_of (r : SimpleNoteRetention) (p : ShieldedPool) : bool :=
  match p with
  | SaplingPool => ret_sapling r | OrchardPool => ret_orchard r | IronwoodPool => ret_ironwood r
  end.

(** The pools that are retained are among the preferred ones. *)
Lemma accumulate_sub value_of required running used l pools :
  accumulate_pools value_of required running used l = Ok pools -> pools ⊆ used ++ l.
Proof.
  revert running used. induction l as [|p l IH]; intros running used; cbn [accumulate_pools].
  - intros [= <-]. by rewrite app_nil_r.
  - destruct (_ <=? _); [intros [= <-] x Hx; apply elem_of_app; by left|]. intros H.
    bind_step H as run Hrun. apply IH in H. by rewrite <- app_assoc in H.
Qed.

Lemma use_pools_sub value_of required l pools : use_pools value_of required l = Ok pools -> pools ⊆ l.
Proof.
  unfold use_pools. destruct (List.find _ l) as [p|] eqn:Ef.
  - intros [= <-] x ->%list_elem_of_singleton. apply find_some in Ef as [Hin _]. by apply list_elem_of_In.
  - intros H. by apply accumulate_sub in H.
Qed.

Lemma bundles_required_pools st r :
  bundles_required cx pref st = Ok r -> exists value_of pools,
  use_pools value_of (if prefers_consolidation cx then st_consolidation_target st
                      else st_amount_required st) pref = Ok pools /\
  (forall p, notes_value (notes_in (st_notes st) p) = Ok (value_of p)) /\
  (forall p, ret_of r p = uses pools p).
Proof.
  intros H. unfold bundles_required, balance_err in H. bind_step H as s Hs. unwrap_ok Hs.
  bind_step H as o Ho. unwrap_ok Ho. bind_step H as i Hi. unwrap_ok Hi.
  bind_step H as pools Hp. injection H as <-. eexists _, pools. split; [exact Hp|]. by split; intros [].
Qed.

Lemma retained_in_pref st r p : bundles_required cx pref st = Ok r -> ret_of r p = true -> p ∈ pref.
Proof.
  intros (value_of & pools & Hu & _ & Hr)%bundles_required_pools. rewrite Hr. unfold uses.
  intros Hp%bool_decide_eq_true. by apply use_pools_sub in Hu; apply Hu.
Qed.

Lemma source_retained st r source :
  state_ok st -> source_inv st -> bundles_required cx pref st = Ok r ->
  st_consolidation_source st = Some source -> ret_of r source = true.
Proof using ZL.
  intros Hst Hinv Hb Hs. destruct (Hinv _ Hs) as (Hp & Hin & Hno & Hlo & Hle).
  apply bundles_required_pools in Hb as (value_of & pools & Hu & Hv & Hr). rewrite Hr, Hp in *.
  assert (forall p, value_of p = zsum (map sn_value (notes_in (st_notes st) p))) as Hvalue.
  { intros p. apply (notes_value_Ok (notes_in (st_notes st) p)); [|done].
    destruct (so_notes _ Hst) as (? & ? & ?). by destruct p. }
  unfold use_pools in Hu. destruct (List.find _ pref) as [p|] eqn:Ef.
  - injection Hu as <-. apply find_some in Ef as [_ Hge%Z.leb_le]. rewrite Hvalue in Hge.
    unfold uses. apply bool_decide_eq_true, list_elem_of_singleton.
    destruct (decide (p = source)) as [|Hne]; [done|]. rewrite (Hno p Hne) in Hge.
    unfold zsum in Hge. cbn in Hge. lia.
  - apply list_elem_of_In in Hin. apply (find_none _ _ Ef), Z.leb_gt in Hin. rewrite Hvalue in Hin. lia.
Qed.

(** ** The notes that are spent *)

Lemma retained_append n r a source j :
  ret_of r source = true ->
  notes_append (retained n r) (note_prefix_for_pool a source j)
  = retained (notes_append n (note_prefix_for_pool a source j)) r.
Proof.
  intros H. unfold notes_append, retained. cbn. f_equal;
    destruct source; cbn in *; rewrite ?H; try done;
    try (destruct (ret_sapling r)); try (destruct (ret_orchard r)); try (destruct (ret_ironwood r)); cbn;
    by rewrite ?app_nil_r.
Qed.

(** Whatever is consolidated, the balance is one of the notes that the proposal spends. *)
Lemma consolidated_balance st r eph base m n b :
  state_ok st -> source_inv st -> bundles_required cx pref st = Ok r -> meta_wf m ->
  compute_balance (cx_params cx) (tr0_request cx c (st_transparent st) (retained (st_notes st) r) eph) m
    = Ok base ->
  consolidated (meta_wf := meta_wf) cx c st (retained (st_notes st) r) eph base n b ->
  exists m', meta_wf m' /\
    compute_balance (cx_params cx) (tr0_request cx c (st_transparent st) (retained n r) eph) m' = Ok b.
Proof using ZL.
  intros Hst Hinv Hb Hm Hbase [|source a j m' b' Hs _ _ _ extra Hm' Hb']; [by exists m|].
  exists m'. split; [done|]. subst extra. rewrite <- retained_append; [done|]. by eapply source_retained.
Qed.

Definition pool_value (n : ReceivedNotes) (p : ShieldedPool) : Z := zsum (map sn_value (notes_in n p)).

Lemma map_note_values q l : map note_value (map (map_note q) l) = map sn_value l.
Proof. by apply map_view_values. Qed.

Lemma into_vec_value n r :
  zsum (map note_value (notes_into_vec n r))
  = pool_value (retained n r) SaplingPool + pool_value (retained n r) OrchardPool
    + pool_value (retained n r) IronwoodPool.
Proof.
  unfold notes_into_vec, pool_value, retained. cbn. rewrite !map_app, !zsum_app.
  destruct (ret_sapling r), (ret_orchard r), (ret_ironwood r); rewrite ?map_note_values; unfold zsum; cbn; lia.
Qed.

Lemma filter_map_note p q l :
  filter (fun n => note_pool n = p) (map (map_note q) l) = if decide (q = p) then map (map_note q) l else [].
Proof.
  induction l as [|n l IH]; cbn [map]; [by destruct (decide _)|]. rewrite filter_cons, IH. cbn.
  by repeat case_decide.
Qed.

Lemma into_vec_pool n r p :
  zsum (map note_value (filter (fun x => note_pool x = p) (notes_into_vec n r))) = pool_value (retained n r) p.
Proof.
  unfold notes_into_vec, pool_value, retained. rewrite !filter_app, !map_app, !zsum_app.
  destruct (ret_sapling r), (ret_orchard r), (ret_ironwood r); rewrite ?filter_map_note, ?filter_nil;
    destruct p; repeat (case_decide; try done); rewrite ?map_note_values;
    unfold zsum; cbn; lia.
Qed.

Lemma tr0_inputs ts n eph :
  inputs_total (tr0_request cx c ts n eph)
  = zsum (map txout_value ts) + pool_value n SaplingPool + pool_value n OrchardPool + pool_value n IronwoodPool.
Proof.
  unfold inputs_total, tr0_request, pool_value. cbn.
  rewrite (map_view_values t_view ti_value txout_value), (map_view_values sapling_input si_value sn_value),
    (map_view_values orchard_input oi_value sn_value), (map_view_values ironwood_input oi_value sn_value)
    by done.
  destruct eph; unfold zsum; cbn; lia.
Qed.

Lemma tr0_payments ts n eph :
  payments_total (tr0_request cx c ts n eph)
  = zsum (amounts (direct_of (cx_params cx) (payments (cx_request cx)))).
Proof using Hc.
  rewrite <- (co_outputs _ _ _ _ Hc). unfold payments_total, tr0_request. cbn.
  destruct (ironwood_active_at _ _); unfold zsum; cbn; lia.
Qed.

(** ** The first step *)

Lemma direct_payment_ok req e pool :
  bt_ok (payments req) -> e ∈ payments req -> is_Some (amount (snd e)) ->
  delivered (recipient_address (snd e)) pool -> payment_ok req (fst e, pool).
Proof.
  intros Hbt He Ha Hd. exists (snd e). cbn. split_and!; [|done|done].
  apply bt_get_Some; [done|]. by destruct e.
Qed.

Lemma classified_payments_ok :
  Forall (payment_ok (MkTransactionRequest (direct_of (cx_params cx) (payments (cx_request cx))))) (cl_pools c).
Proof using Hc Hreq.
  pose proof (co_pools _ _ _ _ Hc) as H2. destruct Hreq as [[Hbt _] _].
  pose proof (co_amounts _ _ _ _ Hc) as Ha. rewrite Forall_forall in Ha. apply Forall_forall.
  intros e' He'. apply list_elem_of_lookup in He' as [k Hk].
  destruct (Forall2_lookup_r _ _ _ _ _ H2 Hk) as (e & He & Hf & Hd & _).
  apply list_elem_of_lookup_2 in He. destruct e' as [i pool]. cbn in Hf, Hd. subst i.
  apply direct_payment_ok; [by apply bt_ok_filter|done| |done].
  unfold direct_of, btree in He. apply list_elem_of_filter in He as [_ He]. by apply Ha.
Qed.

Lemma step0_valid ts n r eph m b :
  notes_ok n -> Forall is_zat (map txout_value ts) -> (forall v, eph = Some v -> is_zat v) -> meta_wf m ->
  compute_balance (cx_params cx) (tr0_request cx c ts (retained n r) eph) m = Ok b ->
  step_valid [] (parts0 cx c (notes_into_vec n r) ts b) (ironwood_active_at (cx_params cx) (cx_target cx)).
Proof using Hc Hreq CL.
  intros Hn Hts He Hm Hb.
  assert (request_ok (tr0_request cx c ts (retained n r) eph)) as Hr.
  { eapply tr0_request_ok; [done|done|by apply retained_ok|done]. }
  destruct (strategy_conserves _ _ _ _ Hr Hm Hb) as (Heq & Hz & Hbal).
  rewrite tr0_payments in Heq. rewrite tr0_inputs in Heq, Hz.
  assert (notes_of (shielded_of (notes_into_vec n r)) = notes_into_vec n r) as Hnotes.
  { by destruct (notes_into_vec n r). }
  split; cbn [parts0 p_request p_pools p_transparent p_shielded p_anchor p_prior p_balance p_shielding payments].
  - by rewrite (Forall2_length _ _ _ (co_pools _ _ _ _ Hc)).
  - apply classified_payments_ok.
  - exists []. split; [constructor|]. rewrite Hnotes, into_vec_value. unfold request_sum. cbn [payments].
    fold (amounts (direct_of (cx_params cx) (payments (cx_request cx)))). cbn [zsum foldr]. lia.
  - unfold request_sum. cbn [payments].
    fold (amounts (direct_of (cx_params cx) (payments (cx_request cx)))). by rewrite <- Heq.
  - done.
  - intros Hact. split.
    + cbn. intros e' He'. apply list_elem_of_lookup in He' as [k Hk].
      destruct (Forall2_lookup_r _ _ _ _ _ (co_pools _ _ _ _ Hc) Hk) as (e & _ & _ & _ & Hno). by apply Hno.
    + cbn [parts0 p_balance p_shielded]. rewrite Hnotes, into_vec_pool.
      destruct (filter (fun c => output_pool c = Shielded OrchardPool) (proposed_change b)) as [|cv l] eqn:Ef;
        [by left|]. right. rewrite <- Ef.
      assert (cv ∈ filter (fun c => output_pool c = Shielded OrchardPool) (proposed_change b)) as Hin.
      { rewrite Ef. left. }
      apply list_elem_of_filter in Hin as [Hp Hin].
      pose proof (strategy_turnstile _ _ _ _ _ Hr Hm Hact Hb Hin Hp) as Hlt. cbn in Hlt.
      by rewrite (map_view_values orchard_input oi_value sn_value) in Hlt.
  - by eexists.
Qed.

(** ** The ephemeral output *)

Lemma ephemeral_filter k (ch : list (ChangeValue MemoBytes)) cv :
  Forall (fun x => is_ephemeral x = false) ch -> is_ephemeral cv = true ->
  filter (fun ic => is_ephemeral (snd ic) = true)
    (zip (map Z.of_nat (seq k (length (ch ++ [cv])))) (ch ++ [cv])) = [(Z.of_nat (k + length ch), cv)].
Proof.
  intros Hch Hcv. revert k. induction Hch as [|x ch Hx _ IH]; intros k; cbn [length app seq map zip zip_with].
  - rewrite filter_cons, decide_True by done. cbn. by rewrite Nat.add_0_r.
  - rewrite filter_cons, decide_False by (cbn; congruence). rewrite IH. by rewrite Nat.add_succ_comm.
Qed.

Lemma ephemeral_found ts n v m b :
  notes_ok n -> Forall is_zat (map txout_value ts) -> is_zat v -> meta_wf m ->
  compute_balance (cx_params cx) (tr0_request cx c ts n (Some v)) m = Ok b ->
  exists i, ephemeral_index (proposed_change b) v = Ok (Z.of_nat i) /\
            exists cv, proposed_change b !! i = Some cv /\ cv_value cv = v.
Proof using Hc CL.
  intros Hn Hts Hv Hm Hb.
  assert (request_ok (tr0_request cx c ts n (Some v))) as Hr.
  { eapply tr0_request_ok; [done..|]. by intros ? [= <-]. }
  destruct (strategy_ephemeral _ _ _ _ Hr Hm Hb) as (ch & Hch & Hne).
  exists (length ch). rewrite Hch. cbn. unfold ephemeral_index.
  rewrite ephemeral_filter by done. cbn [cv_value ephemeral_transparent].
  split; [by rewrite Z.eqb_refl|]. eexists. by rewrite list_lookup_middle.
Qed.

(** ** The second step *)

(** The payments to TEX addresses are the first ones of the request. *)
Definition tex_first : Prop :=
  let tex := tex_of (cx_params cx) (payments (cx_request cx)) in
  map fst tex = map Z.of_nat (seq 0 (length tex)).

Lemma zip_fst_snd {A B} (l : list (A * B)) : zip (map fst l) (map snd l) = l.
Proof. induction l as [|[a b] l IH]; [done|]. cbn. by rewrite IH. Qed.

Lemma tex_first_positions : tex_first ->
  by_position (map snd (tex_of (cx_params cx) (payments (cx_request cx))))
  = tex_of (cx_params cx) (payments (cx_request cx)).
Proof. intros H. unfold by_position. rewrite length_map. unfold tex_first in H. cbn in H. rewrite <- H. apply zip_fst_snd. Qed.

Lemma tex_delivered e :
  is_tex (cx_params cx) e = true -> delivered (recipient_address (snd e)) TransparentPool.
Proof using SL.
  unfold is_tex. destruct (convert_if_network _ _) as [[]|] eqn:Er; try done. intros _. left.
  eapply delivered_by; [done|]. left.
Qed.

Lemma step1_valid s0 i cv v b1 :
  tex_first -> tr1_ok c (Some (v, b1)) ->
  proposed_change (balance s0) !! i = Some cv -> cv_value cv = v ->
  step_valid [s0] (parts1 cx c (Z.of_nat i) b1) (ironwood_active_at (cx_params cx) (cx_target cx)).
Proof using Hc Hreq SL.
  intros Hf (Hv & Hb1 & Hfee & Hsum & _) Hi Hcv. unfold parts1. rewrite (tex_first_positions Hf).
  pose proof (co_tr1_outputs _ _ _ _ Hc) as Hout. rewrite Hout in Hsum.
  destruct Hb1 as (Hchz & Htz & Hfz & Htot).
  split; cbn [p_request p_pools p_transparent p_shielded p_anchor p_prior p_balance p_shielding payments].
  - rewrite (co_tr1_pools _ _ _ _ Hc). by rewrite length_map.
  - rewrite (co_tr1_pools _ _ _ _ Hc). apply Forall_map, Forall_forall. intros e He.
    destruct Hreq as [[Hbt _] _]. apply direct_payment_ok; [by apply bt_ok_filter|done| |].
    + pose proof (co_amounts _ _ _ _ Hc) as Ha. rewrite Forall_forall in Ha. apply Ha.
      unfold tex_of, btree in He. by apply list_elem_of_filter in He as [_ He].
    + apply tex_delivered. unfold tex_of, btree in He. by apply list_elem_of_filter in He as [He _].
  - exists [v]. split.
    + constructor; [|constructor]. unfold prior_output_value. cbn [step_index output_index].
      change ([s0] !! Z.to_nat 0) with (Some s0). cbn [ok_or mbind res_bind].
      rewrite Nat2Z.id, Hi. cbn. by rewrite Hcv.
    + unfold request_sum. cbn [payments notes_of map].
      fold (amounts (tex_of (cx_params cx) (payments (cx_request cx)))). unfold zsum in *. cbn. lia.
  - unfold request_sum. cbn [payments].
    fold (amounts (tex_of (cx_params cx) (payments (cx_request cx)))). by rewrite <- Hsum.
  - done.
  - intros _. split; cbn.
    + intros e He. rewrite (co_tr1_pools _ _ _ _ Hc) in He.
      apply (list_elem_of_fmap_1 (fun e => (fst e, TransparentPool))) in He as (e' & -> & _). done.
    + left. pose proof (zsum_filter_le cv_value (fun c => output_pool c = Shielded OrchardPool) _ Hchz).
      lia.
  - by eexists.
Qed.

(** Conversely, the second step is valid only then. *)
Lemma step1_tex_first s0 i b1 active : step_valid [s0] (parts1 cx c i b1) active -> tex_first.
Proof using Hc Hreq.
  intros Hv. pose proof (sv_payments _ _ _ Hv) as Hpay. cbn in Hpay.
  rewrite (co_tr1_pools _ _ _ _ Hc), Forall_map, Forall_forall in Hpay. destruct Hreq as [[Hbt _] _].
  set (tex := tex_of (cx_params cx) (payments (cx_request cx))) in *. unfold tex_first. cbn. fold tex.
  assert (bt_ok tex) as Htex by (by apply bt_ok_filter).
  assert (bt_ok (by_position (map snd tex))) as Hpos by apply by_position_ok.
  assert (map Z.of_nat (seq 0 (length tex)) = map fst (by_position (map snd tex))) as ->.
  { unfold by_position. rewrite fst_zip; [by rewrite length_map|]. by rewrite length_map, length_seq. }
  apply (StronglySorted_unique_strong Z.lt); [intros; lia|done|done|].
  apply submseteq_length_Permutation.
  - apply NoDup_submseteq; [by apply bt_ok_NoDup|]. intros k Hk.
    apply (list_elem_of_fmap_1 fst) in Hk as (e & -> & He).
    destruct (Hpay e He) as (p & Hp & _). cbn in Hp. apply bt_get_Some in Hp; [|done].
    change (fst e) with (fst (fst e, p)). by apply (list_elem_of_fmap_2 fst).
  - rewrite !length_map. unfold by_position. rewrite length_zip, !length_map, length_seq. lia.
Qed.
End Valid.
