(* ===== verification/SelectionTheorems.v ===== *)
(** * Input selection: the theorems

    The selector ends without a panic; what it returns pays the request with valid steps, and
    spends only what the policy permits and the wallet offers under its lock filter; and the
    balance that it found is never rejected when the proposal is built. *)

From Stdlib Require Import Sorting.Sorted.
From S2P Require Import Prelude WireReader Zatoshi Fees ChangeBalance ChangeProofs.
From S2P Require Import UneconomicInputs ChangeStrategies Proposal ProposalProofs Locking InputSelection.
From S2P Require Import InputSelectionProofs SelectionLoop SelectionValid.

Section Theorems.
Context {ZP : ZcashProtocol} {ZO : ZatoshisOps} {FE : FeeEnv} {PE : ProposalEnv}
  {SE : SelectionEnv} {IS : InputSource} {CS : ChangeStrategy}.
Context {ZL : ZatoshisLaws} {PL : ProposalEnvLaws} {SL : SelectionEnvLaws} {IL : InputSourceLaws}
  {meta_wf : AccountMetaT -> Prop} {CL : ChangeStrategyLaws meta_wf}.

Abbreviation total_run m := (errs_only (fun _ => True) m).

(** ** The beginning of the selection *)

Lemma amounts_so_far_zat total l v :
  is_zat total -> Forall (fun o => forall v, o = Some v -> is_zat v) l ->
  amounts_so_far total l = Ok (Some v) -> is_zat v.
Proof using ZL.
  intros Ht Hl. revert total Ht. induction Hl as [|o l Ho Hl IH]; intros total Ht; cbn [amounts_so_far].
  - by intros [= <-].
  - destruct o as [a|]; [|done]. destruct (zat_add total a) as [s|] eqn:Es; [|done].
    apply IH. apply zat_add_Some in Es; [by destruct Es|done|by apply Ho].
Qed.

(** The errors of building a proposal that the selector may report: the request is incomplete
    or does not fit the version, the transaction is too large for a block, or the wallet
    offered an output twice. *)
Definition request_error (e : InputSelectorError) : Prop :=
  match e with
  | ProposalFailed (PaymentAmountMissing _) | ProposalFailed (IncompatibleTxVersion _)
  | ProposalFailed (OrchardReceiverRequiresIronwood _) | ProposalFailed (ShieldedBudget _)
  | ProposalFailed (ChainDoubleSpend _) => True
  | ProposalFailed _ => False
  | _ => True
  end.

Lemma classify_errors p target version ss os c e err :
  classify_payment p target version ss os c e = Err (Failed err) -> request_error err.
Proof.
  destruct e as [idx payment]. unfold classify_payment.
  destruct (amount payment) as [v|]; [|by intros [= <-]]. red_run.
  destruct (convert_if_network _ _) as [r|e]; [|by intros [= <-]]. red_run.
  destruct r as [a|a| |o s t].
  - done.
  - destruct (payment_check _ _ _); [done|]. red_run.
    destruct (zat_add _ _); [done|]. by intros [= <-].
  - done.
  - destruct (o && os).
    + destruct (ironwood_active_at p target); [|done]. destruct version as [ver|]; [|done].
      destruct (negb _); [|done]. by intros [= <-].
    + destruct (s && ss); [done|]. destruct t; [done|]. by intros [= <-].
Qed.

Lemma classify_all_errors p target version ss os c l err :
  foldM (classify_payment p target version ss os) c l = Err (Failed err) -> request_error err.
Proof.
  revert c. induction l as [|e l IH]; intros c; [done|]. cbn [foldM].
  destruct (classify_payment p target version ss os c e) as [c'|err'] eqn:E; cbn [mbind res_bind].
  - apply IH.
  - intros [= ->]. by eapply classify_errors.
Qed.

Lemma amounts_so_far_errors total l e : amounts_so_far total l = Err e -> request_error e.
Proof.
  revert total. induction l as [|[v|] l IH]; intros total; cbn; [done| |done].
  destruct (zat_add total v); [apply IH|]. by intros [= <-].
Qed.

Lemma gather_errors cx t e : gather_transparent cx t = Err e -> request_error e.
Proof.
  unfold gather_transparent. destruct (amounts_so_far _ _) as [[z|]|e'] eqn:E; cbn [mbind res_bind].
  3: { intros [= <-]. by eapply amounts_so_far_errors. }
  all: unfold query_transparent; destruct (select_spendable_transparent_outputs _ _ _ _ _ _ _ _); cbn;
    [done|by intros [= <-]].
Qed.

Section Propose.
Context (cx : SelectionContext) (version : option Z) (Hreq : request_wf (cx_request cx)).

Lemma gather_ok t ts amt :
  gather_transparent cx t = Ok (ts, amt) ->
  (Forall is_zat (map txout_value ts) /\ zlen ts <= offer_limit) /\ is_zat amt /\
  exists tv, query_transparent cx t tv = Ok ts.
Proof using Hreq IL ZL.
  intros H. unfold gather_transparent in H. bind_step H as tot Htot.
  assert (match tot with Some z => is_zat z | None => True end) as Hz.
  { destruct tot as [z|]; [|done]. eapply amounts_so_far_zat; [apply is_zat_0| |done].
    apply Forall_map, Forall_forall. intros [i p] Hp v Hv. destruct Hreq as [[_ Ha] _]. by eapply Ha. }
  destruct tot as [z|]; bind_step H as outs Ho; injection H as <- <-;
    (split; [by eapply query_transparent_ok|split; [done || apply is_zat_0|by eexists]]).
Qed.

Lemma initial_state_ok ts amt :
  Forall is_zat (map txout_value ts) /\ zlen ts <= offer_limit -> is_zat amt -> state_ok (initial_state ts amt).
Proof using ZL.
  intros [Hts Hf] Ha. split; cbn; try done; try apply is_zat_0; try apply empty_fit; split_and!; constructor.
Qed.

(** What the preparation of the loop yields: the payments are classified, and the first state
    holds what the wallet offers. *)
Lemma propose_start :
  (exists e, (forall n, propose_transaction n cx version = Err (Failed e)) /\ request_error e) \/
  exists c pref ts amt,
    classified_of (cx_params cx) (cx_target cx) (payments (cx_request cx)) c /\
    (forall p, p ∈ pref -> p ∈ sp_shielded (cx_policy cx)) /\
    state_ok (initial_state ts amt) /\
    (ts = [] \/ exists t tv, sp_transparent (cx_policy cx) = Some t /\ query_transparent cx t tv = Ok ts) /\
    forall n, propose_transaction n cx version = select_loop n cx c pref (initial_state ts amt).
Proof using Hreq IL SL ZL.
  unfold propose_transaction. unfold supported_pools.
  set (sup := match version with None => _ | Some _ => _ end).
  destruct sup as [[ss os]|e] eqn:Esup.
  2: { left. exists e. split; [done|]. subst sup. destruct version; [|done].
       destruct (valid_in_branch _ _); [done|]. by injection Esup as <-. }
  clear Esup sup. red_run.
  destruct (classify_all (cx_params cx) (cx_target cx) version ss os (payments (cx_request cx)) []
    classified_empty (classified_empty_of _ _)) as [Ht Hk].
  { apply Hreq. }
  { destruct Hreq as [[_ Ha] Hchk]. apply Forall_forall. intros [i p] Hp. cbn. split.
    - intros v Hv. by eapply Ha.
    - by eapply request_check_payment. }
  destruct (foldM _ _ _) as [c|[e|pn]] eqn:Ec; cbn [mbind res_bind]; [|left|done].
  2: { exists e. split; [done|]. by eapply classify_all_errors. }
  specialize (Hk c eq_refl). cbn [app] in Hk.
  set (pref := List.filter _ _).
  assert (forall p, p ∈ pref -> p ∈ sp_shielded (cx_policy cx)) as Hpref.
  { intros p Hp. apply list_elem_of_In, filter_In in Hp as [_ Hp]. by apply bool_decide_eq_true in Hp. }
  destruct (sp_transparent (cx_policy cx)) as [t|] eqn:Et.
  - destruct (gather_transparent cx t) as [[ts amt]|e] eqn:Eg; cbn [fails mbind res_bind]; [right|left].
    + apply gather_ok in Eg as (Hts & Ha & tv & Hq). exists c, pref, ts, amt.
      split_and!; [done|done|by apply initial_state_ok| |done]. right. by exists t, tv.
    + exists e. split; [done|]. by eapply gather_errors.
  - right. exists c, pref, [], 0.
    split_and!; [done|done| |by left|done]. apply initial_state_ok; [split; [constructor|apply offer_limit_bounds]|apply is_zat_0].
Qed.

(** C6: The greedy selector always ends, and never panics: for every wallet and every change
    strategy that obey their contracts, and every well-formed request, there is a number of
    iterations after which it has returned a proposal or an error, whatever the fuel. *)
Theorem propose_transaction_terminates :
  exists n, total_run (propose_transaction n cx version) /\
            forall k, (n <= k)%nat -> propose_transaction k cx version = propose_transaction n cx version.
Proof using CL Hreq IL PL SL ZL.
  destruct propose_start as [(e & He & _)|(c & pref & ts & amt & Hc & _ & Hst & _ & Heq)].
  - exists 0%nat. setoid_rewrite He. done.
  - destruct (select_loop_ends cx c pref Hreq Hc _ Hst) as (n & Hn & Hk).
    exists n. setoid_rewrite Heq. done.
Qed.

(** A returned proposal was built in the last state of the loop. *)
Lemma propose_built n p (Inv : list ShieldedPool -> Classified -> SelState -> Prop) :
  propose_transaction n cx version = Ok p ->
  (forall pref c ts amt, 
     (ts = [] \/ exists t tv, sp_transparent (cx_policy cx) = Some t /\ query_transparent cx t tv = Ok ts) ->
     Inv pref c (initial_state ts amt)) ->
  (forall pref c st st', (forall p, p ∈ pref -> p ∈ sp_shielded (cx_policy cx)) ->
     state_ok st -> Inv pref c st ->
     step_result (meta_wf := meta_wf) cx c pref st (inl st') -> Inv pref c st') ->
  exists pref c st,
    classified_of (cx_params cx) (cx_target cx) (payments (cx_request cx)) c /\
    (forall p, p ∈ pref -> p ∈ sp_shielded (cx_policy cx)) /\
    Inv pref c st /\ step_result (meta_wf := meta_wf) cx c pref st (inr p).
Proof using CL Hreq IL PL SL ZL.
  intros Hp H0 Hstep.
  destruct propose_start as [(e & He & _)|(c & pref & ts & amt & Hc & Hpref & Hst & Hts & Heq)];
    [by rewrite He in Hp|]. rewrite Heq in Hp.
  destruct (select_loop_inv cx c pref Hreq Hc (Inv pref c) n (initial_state ts amt) Hst (H0 _ _ _ _ Hts)
    (fun st st' => Hstep pref c st st' Hpref)) as [Hok _].
  destruct (Hok p Hp) as (st & _ & Hinv & Hres). by exists pref, c, st.
Qed.

(** *** What is paid *)

(** Every step is valid after the steps before it. *)
Fixpoint steps_valid (active : bool) (prior l : list Step) : Prop :=
  match l with
  | [] => True
  | s :: l => (exists a, s = step_of a /\ step_valid prior a active) /\ steps_valid active (prior ++ [s]) l
  end.

Lemma direct_tex l : direct_of (cx_params cx) l ++ tex_of (cx_params cx) l ≡ₚ l.
Proof.
  unfold direct_of, tex_of, btree. induction l as [|e l IH]; [done|]. rewrite !filter_cons.
  destruct (is_tex (cx_params cx) e); repeat case_decide; try done; cbn.
  - by rewrite <- Permutation_middle, IH.
  - by rewrite IH.
Qed.

(** C7: A proposal that the selector returns pays the request: its steps together have exactly
    the payments of the request, and each step is valid, so balanced and with a recipient that
    can receive each payment in its pool; there are two steps when the request pays TEX
    addresses, the second of which spends an output of the first. *)
Theorem propose_transaction_pays n p :
  propose_transaction n cx version = Ok p ->
  concat (map (fun s => map snd (payments (transaction_request s))) (steps p))
    ≡ₚ map snd (payments (cx_request cx)) /\
  steps_valid (ironwood_active_at (cx_params cx) (cx_target cx)) [] (steps p) /\
  length (steps p) = if nil_list (tex_of (cx_params cx) (payments (cx_request cx))) then 1%nat else 2%nat.
Proof using CL Hreq IL PL SL ZL.
  intros Hp. destruct (propose_built n p (fun _ _ _ => True) Hp) as (pref & c & st & Hc & _ & _ & Hr); [done..|].
  inversion Hr as [|r tr1 m b ns b' p' Hb Htr1 Hm Hcb Hk Hbuilt]; subst.
  pose proof (fmap_Permutation snd _ _ (direct_tex (payments (cx_request cx)))) as Hperm.
  rewrite fmap_app in Hperm. inversion Hbuilt as [Htex Hv|v b1 i Hv0 Hv1 Hpv Hi]; subst.
  - rewrite Htex in *. rewrite app_nil_r in *. cbn. rewrite app_nil_r. split_and!; [done|by eexists|done|done].
  - cbn. rewrite app_nil_r. split_and!.
    + unfold by_position. rewrite snd_zip; [done|]. rewrite !length_map, length_seq. done.
    + by eexists.
    + by eexists.
    + done.
    + destruct Htr1 as (_ & _ & _ & _ & Hne). destruct (tex_of _ _) eqn:Etex; [|done].
      pose proof (co_tr1_outputs _ _ _ _ Hc) as Ho. rewrite Etex in Ho. by apply map_eq_nil in Ho.
Qed.

(** When the selector returns a proposal, the payments to TEX addresses are the first ones of
    the request: a request that has a payment to a TEX address after another payment is never
    proposed. *)
Theorem propose_transaction_tex_first n p :
  propose_transaction n cx version = Ok p -> tex_first cx.
Proof using CL Hreq IL PL SL ZL.
  intros Hp. destruct (propose_built n p (fun _ _ _ => True) Hp) as (pref & c & st & Hc & _ & _ & Hr); [done..|].
  inversion Hr as [|r tr1 m b ns b' p' Hb Htr1 Hm Hcb Hk Hbuilt]; subst.
  inversion Hbuilt as [Htex Hv|v b1 i Hv0 Hv1 Hpv Hi]; subst.
  - unfold tex_first. by rewrite Htex.
  - by eapply step1_tex_first.
Qed.

(** *** What is rejected *)

Section Errors.
Context (c : Classified) (pref : list ShieldedPool)
  (Hc : classified_of (cx_params cx) (cx_target cx) (payments (cx_request cx)) c).

Abbreviation safe m := (errs_only request_error m).

Lemma safe_source {A} (m : res DbError A) : safe (fails (map_err DataSource m)).
Proof. by destruct m. Qed.

Lemma safe_balance {A} (m : res BalanceError A) : safe (fails (balance_err m)).
Proof. by destruct m. Qed.

Lemma errs_fails_bind {E A B} (Q : E -> Prop) (m : res E A) (f : A -> res E B) :
  errs_only Q (fails m) -> (forall a, m = Ok a -> errs_only Q (fails (f a))) -> errs_only Q (fails (m ≫= f)).
Proof. destruct m; cbn; auto. Qed.

Lemma accumulate_safe value_of required running used l :
  safe (fails (accumulate_pools value_of required running used l)).
Proof.
  revert running used. induction l as [|p l IH]; intros running used; cbn [accumulate_pools]; [done|].
  destruct (_ <=? _); [done|]. apply errs_fails_bind; [by apply errs_only_ok_or|auto].
Qed.

Lemma bundles_required_safe st : safe (fails (bundles_required cx pref st)).
Proof.
  unfold bundles_required. do 3 (apply errs_fails_bind; [apply safe_balance|intros ? _]).
  apply errs_fails_bind; [|done]. unfold use_pools. destruct (List.find _ _); [done|]. apply accumulate_safe.
Qed.

Lemma covering_safe st l : safe (fails (covering_pool cx st l)).
Proof.
  induction l as [|p l IH]; [done|]. cbn [covering_pool].
  apply errs_fails_bind; [apply safe_source|]. intros [f a] _.
  apply errs_fails_bind; [apply safe_balance|]. intros v _. by destruct (_ <=? _).
Qed.

Lemma select_notes_safe st : safe (fails (select_notes cx pref st)).
Proof.
  unfold select_notes. destruct (prefers_consolidation cx).
  - destruct (_ =? _); [done|]. apply errs_fails_bind; [apply covering_safe|].
    intros [[[source f] a]|] _; [done|]. apply errs_fails_bind; [apply safe_source|done].
  - apply errs_fails_bind; [apply safe_source|done].
Qed.

Lemma select_more_safe st changed : safe (fails (select_more cx pref st changed)).
Proof.
  unfold select_more. apply errs_fails_bind; [apply select_notes_safe|]. intros [[n source] a] _.
  apply errs_fails_bind; [apply safe_balance|]. intros v _. by destruct (_ && _).
Qed.

Lemma raise_target_safe st required : safe (fails (raise_target cx st required)).
Proof.
  unfold raise_target. apply errs_fails_bind.
  - destruct (sp_transparent _) as [t|]; [|done]. destruct (_ <? _); [|done].
    apply errs_fails_bind; [apply safe_source|done].
  - intros [[ts amt] ch] _. apply errs_fails_bind; [|done]. destruct (prefers_consolidation cx); [|done].
    apply errs_fails_bind; [by apply errs_only_ok_or|done].
Qed.

Lemma tr1_balance_safe m : meta_wf m -> safe (tr1_balance cx c m).
Proof using CL Hc Hreq SL ZL.
  intros Hm. destruct (tr1_balance_ok cx c _ m Hc (payments_count _ Hreq) Hm) as [Ht _]. unfold tr1_balance in *.
  destruct (cl_tr1_outputs c); [done|].
  destruct (compute_balance _ _ m) as [b0|[[]|pn]]; cbn [mbind res_bind] in *; try done;
    (destruct (compute_balance _ _ m) as [b|[e|pn]]; cbn [map_fault mbind res_bind] in *; [|done|done]);
    destruct (assert_that _); cbn in *; done.
Qed.

Lemma check_budget_errors p (prop : Proposal) e :
  validate_shielded_budget prop p = Err e -> exists r, e = ShieldedBudget r.
Proof.
  unfold validate_shielded_budget. destruct (negb _); [done|]. generalize ().
  induction (steps prop) as [|s l IH]; intros u; [done|]. cbn [foldM].
  destruct (check_budget p (min_target_height prop) s) as [u'|e'] eqn:E; cbn [mbind res_bind]; [apply IH|].
  intros [= <-]. unfold check_budget in E.
  destruct (num_spends _ _); cbn [map_err mbind res_bind] in E; [|injection E as <-; by eexists].
  destruct (num_outputs _ _ _); cbn [map_err mbind res_bind] in E; [|injection E as <-; by eexists].
  destruct (step_orchard_action_count _ _ _); cbn [map_err mbind res_bind] in E; [|injection E as <-; by eexists].
  destruct (step_ironwood_action_count _ _ _); cbn [map_err mbind res_bind] in E; [|injection E as <-; by eexists].
  destruct (check_shielded_budget _ _ _ _ _ _); [|done]. injection E as <-. by eexists.
Qed.

Lemma finish_selection_safe st r tr1 b m :
  tex_first cx -> state_ok st -> source_inv cx pref st -> bundles_required cx pref st = Ok r ->
  tr1_ok c tr1 -> meta_wf m ->
  compute_balance (cx_params cx)
    (tr0_request cx c (st_transparent st) (retained (st_notes st) r) (fst <$> tr1)) m = Ok b ->
  safe (finish_selection cx c st r tr1 b).
Proof using CL Hc Hreq PL SL ZL.
  intros Hf Hst Hinv Hr Htr1 Hm Hb. unfold finish_selection.
  destruct (consolidate_ok request_error cx c _ st r (fst <$> tr1) b ltac:(done) Hc (payments_count _ Hreq) Hst
    (tr1_ok_zat _ _ Htr1)) as [Ht Hk].
  apply errs_only_bind; [done|]. intros [n b'] Hn. apply Hk in Hn.
  destruct (consolidated_ok _ _ _ _ _ _ _ _ _ m Hc Hst (tr1_ok_zat _ _ Htr1) Hm Hb Hn) as [Hok Hb'].
  destruct (consolidated_balance cx c pref st r _ _ m n b' Hst Hinv Hr Hm Hb Hn) as (m' & Hm' & Hcb).
  pose proof (step0_valid cx c Hreq Hc _ n r _ m' b' Hok (so_transparent _ Hst) (tr1_ok_zat _ _ Htr1) Hm' Hcb) as Hv0.
  set (bp := build_proposal _ _ _ _ _ _ _ _ _ _).
  assert (errs_only (fun e => exists r, e = ChainDoubleSpend r) bp) as Hbp.
  { subst bp. destruct tr1 as [[v b1]|].
    - destruct (ephemeral_found cx c Hc (st_transparent st) (retained n r) v m' b') as (i & Hi & cv & Hcv & Hval);
        try done; [by apply retained_ok|apply Hst|apply Htr1|].
      eapply build_pair_errors; try done; [by apply notes_into_vec_ok|apply Hst|apply Htr1|by eapply lookup_lt_Some|].
      by eapply step1_valid.
    - destruct (build_single_accepts cx c (notes_into_vec n r) (st_transparent st) b') with (rule := strategy_fee_rule)
        as [p Hp]; try done; [by apply notes_into_vec_ok|apply Hst|by eapply no_tex|].
      cbn [fmap option_fmap option_map]. by rewrite Hp. }
  unfold within_budget. destruct bp as [p|[e|pn]]; cbn [map_fault mbind res_bind]; [| |done].
  - destruct (validate_shielded_budget p (cx_params cx)) as [u|e] eqn:E; [done|].
    apply check_budget_errors in E as [? ->]. done.
  - destruct Hbp as [? ->]. done.
Qed.

Lemma select_step_safe st :
  tex_first cx -> state_ok st -> source_inv cx pref st -> safe (select_step cx c pref st).
Proof using CL Hc Hreq IL PL SL ZL.
  intros Hf Hst Hinv. destruct (select_step_ok cx c pref Hreq Hc st Hst) as [Htotal _].
  unfold select_step in *.
  destruct (bundles_required cx pref st) as [r|e] eqn:Er;
    [|pose proof (bundles_required_safe st) as Hs; by rewrite Er in Hs].
  revert Htotal. red_run. destruct (fetch_wallet_meta _ _ _) as [m|e] eqn:Em; [|done]. red_run.
  apply strategy_meta in Em.
  destruct (tr1_balance_ok cx c _ m Hc (payments_count _ Hreq) Em) as [_ Htr1]. pose proof (tr1_balance_safe m Em) as Hs1.
  destruct (tr1_balance cx c m) as [tr1|err]; cbn [mbind res_bind]; [|done]. specialize (Htr1 _ eq_refl).
  destruct (compute_balance _ _ m) as [b|[e|pn]] eqn:Eb; [intros _|intros _|done].
  - pose proof (finish_selection_safe st r tr1 b m Hf Hst Hinv Er Htr1 Em Eb) as Hfs.
    by destruct (finish_selection _ _ _ _ _ _).
  - destruct e as [av required|t s o i|e|e]; [| |done|done].
    + apply errs_only_bind; [apply raise_target_safe|]. intros [st1 ch] _.
      pose proof (select_more_safe st1 ch) as Hs. by destruct (select_more _ _ _ _).
    + destruct (exclude_dust _ _ _ _ _) as [st1 ch].
      pose proof (select_more_safe st1 ch) as Hs. by destruct (select_more _ _ _ _).
Qed.
End Errors.

(** C8: The selector never finds a balance that it then cannot use: when the payments to TEX
    addresses come first (in particular when there are none), the only errors of building the
    proposal are that the request lacks an amount or does not fit the transaction version, that
    the transaction exceeds the budget of a block, and that the wallet offered an output twice;
    inputs, pools, change, turnstile and ephemeral outputs always match. *)
Theorem propose_transaction_consistent n e :
  tex_first cx -> propose_transaction n cx version = Err (Failed e) -> request_error e.
Proof using CL Hreq IL PL SL ZL.
  intros Hf Hp.
  destruct propose_start as [(e' & He & Hre)|(c & pref & ts & amt & Hc & Hpref & Hst & Hts & Heq)].
  { rewrite He in Hp. by injection Hp as ->. }
  rewrite Heq in Hp.
  destruct (select_loop_inv cx c pref Hreq Hc (source_inv cx pref) n (initial_state ts amt) Hst)
    as [_ Herr]; [done|by apply source_inv_step|].
  destruct (Herr e Hp) as (st & Hok & Hinv & Hstep).
  pose proof (select_step_safe c pref Hc st Hf Hok Hinv) as Hs. by rewrite Hstep in Hs.
Qed.

(** *** What is spent *)

(** The wallet offers only such notes and outputs, for the account, the height, the
    confirmations and the lock filter of the call, and for the transparent policy if there is
    one. *)
Record wallet_offers (note_may : ShieldedPool -> SpendableNote -> Prop)
    (output_may : WalletTransparentOutput -> Prop) : Prop := {
  wo_notes : forall t s x ns p note,
    select_spendable_notes (cx_account cx) t s (cx_target cx) (cx_confirmations cx) x (cx_filter cx) = Ok ns ->
    note ∈ notes_in ns p -> note_may p note;
  wo_consolidation : forall t s x k f a p note,
    select_spendable_notes_for_consolidation (cx_account cx) t s (cx_target cx) (cx_confirmations cx) x
      (cx_filter cx) k = Ok (f, a) ->
    note ∈ notes_in f p \/ note ∈ notes_in a p -> note_may p note;
  wo_outputs : forall t tv k ts u, sp_transparent (cx_policy cx) = Some t ->
    select_spendable_transparent_outputs (cx_account cx) (cx_target cx) (cx_confirmations cx)
      (coinbase_filter (ts_coinbase t)) (address_allow_list t) tv k (cx_filter cx) = Ok ts ->
    u ∈ ts -> output_may u }.

Section Policy.
Context (note_may : ShieldedPool -> SpendableNote -> Prop) (output_may : WalletTransparentOutput -> Prop)
  (Hoffers : wallet_offers note_may output_may).

Definition offered_notes (n : ReceivedNotes) : Prop := forall p note, note ∈ notes_in n p -> note_may p note.
Definition offered_outputs (ts : list WalletTransparentOutput) : Prop :=
  forall u, u ∈ ts -> is_Some (sp_transparent (cx_policy cx)) /\ output_may u.

Definition offered_state (st : SelState) : Prop :=
  offered_notes (st_notes st) /\ offered_notes (st_additional st) /\ offered_outputs (st_transparent st).

Lemma offered_empty : offered_notes notes_empty.
Proof. intros [] note H; by apply elem_of_nil in H. Qed.

Lemma offered_query t tv ts :
  sp_transparent (cx_policy cx) = Some t -> query_transparent cx t tv = Ok ts -> offered_outputs ts.
Proof using Hoffers.
  intros Ht Hq u Hu. unfold query_transparent in Hq. unwrap_ok Hq. split; [by eexists|].
  by eapply (wo_outputs _ _ Hoffers).
Qed.

Lemma offered_selected pref st n source a :
  offered_notes (st_additional st) -> selected cx pref st n source a -> offered_notes n /\ offered_notes a.
Proof using Hoffers.
  intros Ha [|source' f a' t k v _ _ Hq _ _|t n' Hq].
  - split; apply offered_empty.
  - split; intros p note Hn; eapply (wo_consolidation _ _ Hoffers); eauto.
  - split.
    + intros p note Hn. by eapply (wo_notes _ _ Hoffers).
    + destruct (prefers_consolidation cx); [apply offered_empty|done].
Qed.

Lemma offered_step c pref st st' :
  state_ok st -> offered_state st -> step_result (meta_wf := meta_wf) cx c pref st (inl st') ->
  offered_state st'.
Proof using Hoffers IL ZL.
  intros Hst (Hn & Ha & Hts) Hr.
  inversion Hr as [st1 ? changed Hst1 Hmore Hst' Hp Hsrc Hadd Hnotes Hsub|]; subst.
  apply select_more_ok in Hmore as (_ & Hsel & Ht' & _); [|done].
  destruct (offered_selected pref st1 _ _ _ ltac:(by rewrite Hadd) Hsel) as [Hn' Ha'].
  split_and!; [done|done|]. rewrite Ht'. intros u Hu.
  destruct Hsub as [Hsub|(t & tv & ts & Ht & Hq & Hsub)].
  - apply Hts. by apply Hsub.
  - eapply offered_query; [done..|]. by apply Hsub.
Qed.

Lemma prefix_in n source j p note :
  note ∈ notes_in (note_prefix_for_pool n source j) p -> note ∈ notes_in n p.
Proof. destruct source, p; cbn; intros H; try (by apply elem_of_nil in H); by apply elem_of_take in H as (? & ?%list_elem_of_lookup_2 & _). Qed.

Lemma append_in n m p note :
  note ∈ notes_in (notes_append n m) p -> note ∈ notes_in n p \/ note ∈ notes_in m p.
Proof. destruct p; cbn; by rewrite elem_of_app. Qed.

Lemma offered_consolidated c st spent eph base n b :
  offered_state st -> consolidated (meta_wf := meta_wf) cx c st spent eph base n b -> offered_notes n.
Proof.
  intros (Hn & Ha & _) [|source a j m b' _ _ _ Hsub extra _ _]; [done|].
  intros p note [Hx|Hx]%append_in; [by apply Hn|]. apply prefix_in in Hx. apply Ha. by apply Hsub.
Qed.

Lemma into_vec_in n r x :
  x ∈ notes_into_vec n r ->
  ret_of r (note_pool x) = true /\
  exists note, note ∈ notes_in n (note_pool x) /\ x = map_note (note_pool x) note.
Proof.
  unfold notes_into_vec. rewrite !elem_of_app.
  assert (forall p l, x ∈ map (map_note p) l -> note_pool x = p /\ exists note, note ∈ l /\ x = map_note p note)
    as Hm.
  { intros p l (note & -> & Hn)%list_elem_of_fmap_1. split; [done|]. by exists note. }
  intros [Hx|[Hx|Hx]].
  - destruct (ret_sapling r) eqn:E; [|by apply elem_of_nil in Hx]. apply Hm in Hx as (-> & Hx). done.
  - destruct (ret_orchard r) eqn:E; [|by apply elem_of_nil in Hx]. apply Hm in Hx as (-> & Hx). done.
  - destruct (ret_ironwood r) eqn:E; [|by apply elem_of_nil in Hx]. apply Hm in Hx as (-> & Hx). done.
Qed.

(** C9: A proposal spends only what the policy permits and the wallet offers: every note is of a
    shielded pool of the policy, and was offered for the account, the height, the confirmations
    and the lock filter of the call; every transparent output was offered under the transparent
    policy, without which there are none. *)
Theorem propose_transaction_respects_policy n p :
  propose_transaction n cx version = Ok p ->
  Forall (fun s =>
    (forall x, x ∈ notes_of (shielded_inputs s) ->
       note_pool x ∈ sp_shielded (cx_policy cx) /\
       exists note, x = map_note (note_pool x) note /\ note_may (note_pool x) note) /\
    (forall u, u ∈ step_transparent_inputs s -> is_Some (sp_transparent (cx_policy cx)) /\ output_may u))
  (steps p).
Proof using CL Hoffers Hreq IL PL SL ZL.
  intros Hp. destruct (propose_built n p (fun _ _ => offered_state) Hp) as (pref & c & st & Hc & Hpref & Hinv & Hr).
  { intros pref c ts amt Hts. split_and!; [apply offered_empty..|]. cbn.
    destruct Hts as [->|(t & tv & Ht & Hq)]; [intros u Hu; by apply elem_of_nil in Hu|by eapply offered_query]. }
  { intros pref c st st' _. apply offered_step. }
  inversion Hr as [|r tr1 m b ns b' p' Hb Htr1 Hm Hcb Hk Hbuilt]; subst.
  apply offered_consolidated in Hk; [|done]. destruct Hinv as (_ & _ & Hts).
  assert (forall x, x ∈ notes_of (shielded_of (notes_into_vec ns r)) ->
    note_pool x ∈ sp_shielded (cx_policy cx) /\
    exists note, x = map_note (note_pool x) note /\ note_may (note_pool x) note) as Hnotes.
  { intros x Hx. assert (x ∈ notes_into_vec ns r) as Hx' by (by destruct (notes_into_vec ns r)).
    apply into_vec_in in Hx' as (Hret & note & Hin & Heq). split.
    - apply Hpref. by eapply retained_in_pref.
    - exists note. split; [done|]. by apply Hk. }
  inversion Hbuilt; subst; (apply Forall_cons; split; [by split|]); [apply Forall_nil_2|].
  apply Forall_singleton. split; intros u Hu; by apply elem_of_nil in Hu.
Qed.
End Policy.
End Propose.
End Theorems.
