(* ===== verification/SelectionStrategies.v ===== *)
(** * The change strategies as clients of the selector

    The ZIP 317 strategies and the fixed-fee strategy implement the interface of change
    strategies that the selector relies on. *)

From S2P Require Import Prelude WireReader Zatoshi Fees ChangeBalance ChangeProofs.
From S2P Require Import ChangeTheorems FeeCoverage UneconomicInputs ChangeStrategies.
From S2P Require Import Proposal ProposalProofs Locking InputSelection InputSelectionProofs.

Section Exact.
Context {ZP : ZcashProtocol} {ZO : ZatoshisOps} {FE : FeeEnv}.
Context {ZL : ZatoshisLaws} {FL : FeeEnvLaws} {FC : CountLaws}.

(** ** A purely transparent transaction that lacks an amount *)

(** The shortfall of a transparent transaction without inputs is the payments and the fee
    without change. *)
Definition exact_shortfall (cfg : SinglePoolBalanceConfig) (r : ChangeRequest) (e : ChangeError) : Prop :=
  forall a v, e = InsufficientFunds a v ->
  exists sic min_fee,
    num_spends (sv_bundle_type (sapling r)) (zlen (sv_inputs (sapling r))) = Ok sic /\
    fee_for cfg r sic (transparent_output_sizes r) manifest_zero = Ok min_fee /\
    v = payments_total r + ephemeral_out r + min_fee.

Lemma payments_nonneg r : request_ok r -> 0 <= payments_total r + ephemeral_out r.
Proof.
  intros Hr. destruct (ephemeral_zat r Hr) as [_ He]. unfold request_ok in Hr. destruct_and?.
  unfold payments_total, ephemeral_out.
  repeat match goal with H : Forall is_zat _ |- _ => apply zsum_nonneg in H end. lia.
Qed.

Lemma exact_error cfg wm r :
  request_ok r -> config_ok cfg -> metas_ok wm -> request_fits r -> padding_fits r -> split_fits cfg ->
  inputs_total r = 0 ->
  (forall f, calculate_net_flows r = Ok f -> fully_transparent r f = true) ->
  errs_only (exact_shortfall cfg r) (single_pool_output_balance cfg wm r).
Proof using ZL FL FC.
  intros Hr Hcfg Hm Hfit Hpad Hsf Hin Hft. unfold single_pool_output_balance.
  apply errs_only_bind; [by apply calculate_net_flows_errs|]. intros f Hf. unwrap_ok Hf. specialize (Hft f Hf).
  apply calculate_net_flows_Ok in Hf as Hfl; [|done].
  apply errs_only_bind; [by apply map_err_errs|]. intros ti Hti. unwrap_ok Hti.
  apply (total_in_Ok r) in Hti as [-> Htiz]; [|done].
  apply errs_only_bind; [by apply map_err_errs|]. intros so Hso. unwrap_ok Hso.
  apply (total_out_Ok r) in Hso as [-> Hsoz]; [|done].
  apply errs_only_bind; [by apply map_err_errs|]. intros sic Hsic. unwrap_ok Hsic.
  apply errs_only_bind.
  { apply fee_for_errs; [done..|]. destruct count_limit_bounds. apply (manifest_small _ 0). lia. }
  intros mf Hmf. apply fee_for_zat in Hmf as Hmfz.
  apply errs_only_bind; [by apply errs_only_ok_or|]. intros tom Htom. unwrap_ok Htom.
  apply zat_add_Some in Htom as [-> Htomz]; [|done..].
  rewrite default_zat_sub by done. fold (chosen_pool cfg r f mf). set (pool := chosen_pool cfg r f mf).
  rewrite change_target_Ok by done. run_ok. fold (target_counts_of cfg wm r f pool).
  pose proof (balance_outcome cfg wm r f sic mf) as Hout. fold pool in Hout. cbv zeta in Hout.
  pose proof (possible_change_fits cfg wm r f pool Hcfg Hm Hsf) as Hpc.
  destruct (target_counts_of cfg wm r f pool) as [tc tcs]. cbn [fst snd] in Hout, Hpc.
  apply errs_only_bind.
  { destruct (is_positive _); [|done].
    destruct (check_cases r (marginal_fee cfg) (grace_actions cfg) (possible_change cfg r f tcs)
      (possible_change_nonempty _ _ _ _) Hfit Hpad Hpc)
      as [[-> _]|[(e & -> & msg & ->)|(t' & s & o & i & -> & _)]]; done. }
  intros _ _. apply errs_only_bind.
  2: { intros [ch fee] Hres. apply finish_balance_errs; [done..|]. fold (ephemeral_change r).
       eapply (outcome_fits cfg wm r f sic mf ch fee); eauto. }
  pose proof (payments_nonneg r Hr) as Hpos. unfold is_zat in Hmfz.
  destruct (Z.compare_spec (inputs_total r) (payments_total r + ephemeral_out r + mf)); [by rewrite Hft| |lia].
  cbn. intros a v [= <- <-]. by exists sic, mf.
Qed.

(** A transparent transaction whose inputs are the payments and the fee without change has no
    change. *)
Lemma exact_balance cfg wm r sic mf b :
  request_ok r -> config_ok cfg -> metas_ok wm ->
  (forall f, calculate_net_flows r = Ok f -> fully_transparent r f = true) ->
  num_spends (sv_bundle_type (sapling r)) (zlen (sv_inputs (sapling r))) = Ok sic ->
  fee_for cfg r sic (transparent_output_sizes r) manifest_zero = Ok mf ->
  inputs_total r = payments_total r + ephemeral_out r + mf -> ephemeral_change r = [] ->
  single_pool_output_balance cfg wm r = Ok b -> total b = fee_required_of b.
Proof using ZL FL.
  intros Hr Hcfg Hm Hft Hsic Hmf Hin He Hb.
  destruct (balance_facts cfg wm r b) as (f & sic' & mf' & ch & Hf & _ & Hsic' & Hmf' & Ho & Hpc & _ & Htot & _);
    [done..|].
  assert (sic' = sic) as -> by congruence. assert (mf' = mf) as -> by congruence.
  rewrite Htot, Hpc, He, app_nil_r. destruct Ho as [|split tf change ch fee pool target [Hx|Hx] _ _ _ _ _]; [done| |lia].
  rewrite Hft in Hx by done. done.
Qed.
End Exact.

(** ** The laws *)

Section Laws.
Context {ZP : ZcashProtocol} {ZO : ZatoshisOps} {FE : FeeEnv} {PE : ProposalEnv}
  {SE : SelectionEnv} {IS : InputSource}.
Context {ZL : ZatoshisLaws} {FL : FeeEnvLaws} {FC : CountLaws} {FM : FeeMonotone}.

(** Everything the selector asks of a strategy, for one that computes its balances with
    [single_pool_output_balance]. *)
Section SinglePool.
Context (cfg_of : Params -> SinglePoolBalanceConfig) (wm : option AccountMeta) (memo : option MemoBytes).
Context (Hcfg : forall p, config_ok (cfg_of p)) (Hsplit : forall p, split_fits (cfg_of p))
  (Hparams : forall p, params (cfg_of p) = p) (Hwm : metas_ok wm).

Abbreviation balance_of p r := (single_pool_output_balance (cfg_of p) wm (request_of r memo)).

Lemma single_pool_conserves p r b :
  request_ok r -> balance_of p r = Ok b ->
  inputs_total r = payments_total r + total b /\ is_zat (inputs_total r) /\ balance_ok b.
Proof using ZL FL Hcfg Hwm.
  intros Hr Hb. destruct (balance_facts _ _ _ _ (request_of_ok _ memo Hr) (Hcfg p) Hwm Hb)
    as (f & sic & mf & ch & _ & _ & _ & _ & _ & _ & Hz & Htot & Htz & Heq & _).
  destruct (balance_well_formed _ _ _ _ (request_of_ok _ memo Hr) (Hcfg p) Hwm Hb) as [Hin Hfz].
  split_and!; done.
Qed.

Lemma single_pool_ephemeral p r b :
  request_ok r -> balance_of p r = Ok b ->
  exists ch, proposed_change b = ch ++ ephemeral_change r /\ Forall (fun c => is_ephemeral c = false) ch.
Proof using ZL FL Hcfg Hwm.
  intros Hr Hb. destruct (balance_facts _ _ _ _ (request_of_ok _ memo Hr) (Hcfg p) Hwm Hb)
    as (f & sic & mf & ch & _ & _ & _ & _ & Ho & Hpc & _).
  exists ch. split; [done|]. apply outcome_change_list in Ho; [|done..].
  destruct Ho as [|v|n v Hn Hv]; [constructor|by repeat constructor|].
  unfold even_split. apply Forall_cons. split; [done|]. by apply Forall_replicate.
Qed.

Lemma single_pool_turnstile p r b c :
  request_ok r -> is_nu6_3_active p (target_height r) = true -> balance_of p r = Ok b ->
  c ∈ proposed_change b -> output_pool c = Shielded OrchardPool ->
  zsum (map cv_value (filter (fun c => output_pool c = Shielded OrchardPool) (proposed_change b)))
    < zsum (map oi_value (ov_inputs (orchard r))).
Proof using ZL FL FM Hcfg Hparams Hwm.
  intros Hr Hact Hb Hc Hp. eapply (turnstile_holds (cfg_of p) wm (request_of r memo) b c); try done.
  by rewrite Hparams.
Qed.

Lemma tr1_transparent cx c v f :
  calculate_net_flows (request_of (tr1_request cx c v) memo) = Ok f ->
  fully_transparent (request_of (tr1_request cx c v) memo) f = true.
Proof using ZL.
  intros H. unfold calculate_net_flows in H. cbn in H.
  bind_step H as a1 H1. bind_step H as a2 H2.
  do 6 (match type of H with context [sum_or_overflow []] => idtac end;
        let a := fresh "a" in let E := fresh "E" in bind_step H as a E;
        apply sum_or_overflow_Ok in E as [-> _]; [|constructor]).
  by injection H as <-.
Qed.

Lemma single_pool_exact p cx c a v b :
  request_ok (tr1_request cx c v) -> request_fits (tr1_request cx c v) ->
  balance_of p (tr1_request cx c 0) = Err (Failed (InsufficientFunds a v)) ->
  balance_of p (tr1_request cx c v) = Ok b -> total b = fee_required_of b.
Proof using ZL FL FC Hcfg Hsplit Hwm.
  intros Hr Hf H0 Hb.
  assert (request_ok (tr1_request cx c 0)) as Hr0.
  { unfold request_ok in *. cbn in *. destruct_and?. split_and!; try done. apply is_zat_0. }
  pose proof (exact_error (cfg_of p) wm (request_of (tr1_request cx c 0) memo)
    (request_of_ok _ memo Hr0) (Hcfg p) Hwm Hf (request_of_padding _ memo) (Hsplit p) (tr1_inputs cx c 0) (tr1_transparent cx c 0)) as He.
  rewrite H0 in He. destruct (He a v eq_refl) as (sic & mf & Hsic & Hmf & Hv).
  eapply (exact_balance (cfg_of p) wm (request_of (tr1_request cx c v) memo) sic mf); try done.
  - apply tr1_transparent.
  - exact (eq_trans (tr1_inputs cx c v) Hv).
Qed.
End SinglePool.

Lemma single_pool_laws {CS : ChangeStrategy} (meta_wf : AccountMetaT -> Prop)
    (cfg_of : Params -> SinglePoolBalanceConfig) (wm_of : AccountMetaT -> option AccountMeta)
    (memo : option MemoBytes) :
  (forall p, config_ok (cfg_of p)) -> (forall p, split_fits (cfg_of p)) -> (forall p, params (cfg_of p) = p) ->
  (forall m, meta_wf m -> metas_ok (wm_of m)) ->
  (forall a h ids m, fetch_wallet_meta a h ids = Ok m -> meta_wf m) ->
  (forall p r m, compute_balance p r m = single_pool_output_balance (cfg_of p) (wm_of m) (request_of r memo)) ->
  ChangeStrategyLaws meta_wf.
Proof using ZL FL FC FM.
  intros Hcfg Hsplit Hparams Hwm Hfetch Hcb. split; [done|..]; setoid_rewrite Hcb.
  - intros p r m Hr Hf Hm. pose proof (balance_errs_only (cfg_of p) (wm_of m) (request_of r memo)
      (request_of_ok r memo Hr) (Hcfg p) (Hwm m Hm) (request_of_fits r memo Hf) (request_of_padding r memo)
      (Hsplit p)) as He.
    apply (errs_only_mono _ (balance_error_ok (cfg_of p) (request_of r memo))); [|done].
    intros e He'. by apply balance_error_funds in He'.
  - intros p r m b Hr Hm Hb. by eapply single_pool_conserves; eauto.
  - intros p r m b Hr Hm Hb. by eapply single_pool_ephemeral; eauto.
  - intros p r m b c Hr Hm Hact Hb Hc Hp. by eapply single_pool_turnstile; eauto.
  - intros p cx c m a v b Hr Hf Hm H0 Hb. by eapply single_pool_exact; eauto.
Qed.

Lemma single_output_fits : target_output_count single_output <= count_limit.
Proof using ZL. pose proof count_limit_bounds. unfold single_output. cbn. lia. Qed.

(** The dust that such a strategy reports is worth at most the marginal fee. *)
Lemma single_pool_dust {CS : ChangeStrategy} (meta_wf : AccountMetaT -> Prop)
    (cfg_of : Params -> SinglePoolBalanceConfig) (wm_of : AccountMetaT -> option AccountMeta)
    (memo : option MemoBytes) (limit : Z) :
  (forall p, config_ok (cfg_of p)) -> (forall p, split_fits (cfg_of p)) ->
  (forall p, marginal_fee (cfg_of p) = limit) -> (forall m, meta_wf m -> metas_ok (wm_of m)) ->
  (forall p r m, compute_balance p r m = single_pool_output_balance (cfg_of p) (wm_of m) (request_of r memo)) ->
  dust_at_most meta_wf limit.
Proof using ZL FL FC.
  intros Hcfg Hsplit Hmf Hwm Hcb p r m t s o i Hr Hf Hm H k Hk. rewrite Hcb in H.
  pose proof (balance_errs_only (cfg_of p) (wm_of m) (request_of r memo) (request_of_ok r memo Hr) (Hcfg p)
    (Hwm m Hm) (request_of_fits r memo Hf) (request_of_padding r memo) (Hsplit p)) as He.
  rewrite H in He. destruct He as ([pre Ht] & _).
  assert (k ∈ t_dust (request_of r memo) (marginal_fee (cfg_of p))) as Hin by (rewrite Ht; apply elem_of_app; by right).
  apply dust_of_elem in Hin as (x & Hx & Hv & <-). rewrite Hmf in Hv. by exists x.
Qed.

(** The amounts in the parameters of a strategy are amounts. *)
Definition dust_policy_ok (d : DustOutputPolicy) : Prop :=
  forall v, dust_threshold d = Some v -> is_zat v.

(** [ChangeStrategy for zip317::SingleOutputChangeStrategy] *)
Definition zip317_single_strategy {ZR : Zip317FeeRule} (s : SingleOutputChangeStrategy) : ChangeStrategy := {|
  AccountMetaT := unit;
  strategy_fee_rule := so_fee_rule s;
  fetch_wallet_meta := fun _ _ _ => Ok ();
  compute_balance := fun p r _ => single_output_compute_balance s p r |}.

Lemma zip317_single_laws {ZR : Zip317FeeRule} s :
  is_zat (rule_marginal_fee (so_fee_rule s)) -> dust_policy_ok (so_dust_output_policy s) ->
  ChangeStrategyLaws (CS := zip317_single_strategy s) (fun _ => True).
Proof using ZL FL FC FM.
  intros Hm Hd. unshelve eapply (single_pool_laws (CS := zip317_single_strategy s) _
    (fun p => MkConfig p (so_fee_rule s) (so_dust_output_policy s) (rule_marginal_fee (so_fee_rule s))
       single_output (so_fallback_change_pool s) (so_transparent_change_policy s)
       (rule_marginal_fee (so_fee_rule s)) (rule_grace_actions (so_fee_rule s)))
    (fun _ => None) (so_change_memo s)); try done.
  - intros p. split; [apply single_output_ok|done].
  - intros p. apply single_output_fits.
Qed.

Lemma zip317_single_dust {ZR : Zip317FeeRule} s :
  is_zat (rule_marginal_fee (so_fee_rule s)) -> dust_policy_ok (so_dust_output_policy s) ->
  dust_at_most (CS := zip317_single_strategy s) (fun _ => True) (rule_marginal_fee (so_fee_rule s)).
Proof using ZL FL FC.
  intros Hm Hd. unshelve eapply (single_pool_dust (CS := zip317_single_strategy s) _
    (fun p => MkConfig p (so_fee_rule s) (so_dust_output_policy s) (rule_marginal_fee (so_fee_rule s))
       single_output (so_fallback_change_pool s) (so_transparent_change_policy s)
       (rule_marginal_fee (so_fee_rule s)) (rule_grace_actions (so_fee_rule s)))
    (fun _ => None) (so_change_memo s)); try done.
  - intros p. split; [apply single_output_ok|done].
  - intros p. apply single_output_fits.
Qed.

(** [ChangeStrategy for zip317::MultiOutputChangeStrategy]; the metadata come from
    [InputSource::get_account_metadata], with locked notes excluded. *)
Definition zip317_multi_strategy {ZR : Zip317FeeRule}
    (get_account_metadata : AccountId -> NoteFilter -> Z -> list NoteRefT -> LockFilter -> res DbError AccountMeta)
    (s : MultiOutputChangeStrategy) : ChangeStrategy := {|
  AccountMetaT := AccountMeta;
  strategy_fee_rule := mo_fee_rule s;
  fetch_wallet_meta := fun account target exclude =>
    get_account_metadata account (multi_output_note_selector s) target exclude (Policy Exclude);
  compute_balance := multi_output_compute_balance s |}.

Lemma zip317_multi_laws {ZR : Zip317FeeRule} get_account_metadata s :
  is_zat (rule_marginal_fee (mo_fee_rule s)) -> dust_policy_ok (mo_dust_output_policy s) ->
  split_policy_ok (mo_split_policy s) -> target_output_count (mo_split_policy s) <= count_limit ->
  (forall a f h x l m, get_account_metadata a f h x l = Ok m -> meta_ok m) ->
  ChangeStrategyLaws (CS := zip317_multi_strategy get_account_metadata s) meta_ok.
Proof using ZL FL FC FM.
  intros Hm Hd Hs Ht Hmeta. unshelve eapply (single_pool_laws (CS := zip317_multi_strategy get_account_metadata s) _
    (fun p => MkConfig p (mo_fee_rule s) (mo_dust_output_policy s) (rule_marginal_fee (mo_fee_rule s))
       (mo_split_policy s) (mo_fallback_change_pool s) (mo_transparent_change_policy s)
       (rule_marginal_fee (mo_fee_rule s)) (rule_grace_actions (mo_fee_rule s)))
    Some (mo_change_memo s)); try done.
  intros a h ids m H. exact (Hmeta _ _ _ _ _ _ H).
Qed.

(** [ChangeStrategy for fixed::SingleOutputChangeStrategy] *)
Definition fixed_strategy {FR : FixedFeeRule} (s : SingleOutputChangeStrategy) : ChangeStrategy := {|
  AccountMetaT := unit;
  strategy_fee_rule := so_fee_rule s;
  fetch_wallet_meta := fun _ _ _ => Ok ();
  compute_balance := fun p r _ => fixed_compute_balance s p r |}.

Lemma fixed_laws {FR : FixedFeeRule} s :
  is_zat (fixed_fee (so_fee_rule s)) -> dust_policy_ok (so_dust_output_policy s) ->
  ChangeStrategyLaws (CS := fixed_strategy s) (fun _ => True).
Proof using ZL FL FC FM.
  intros Hm Hd. unshelve eapply (single_pool_laws (CS := fixed_strategy s) _
    (fun p => MkConfig p (so_fee_rule s) (so_dust_output_policy s) (fixed_fee (so_fee_rule s))
       single_output (so_fallback_change_pool s) (so_transparent_change_policy s) 0 0)
    (fun _ => None) (so_change_memo s)); try done.
  - intros p. split; [apply single_output_ok|done].
  - intros p. apply single_output_fits.
Qed.

(** The change strategies of the wallet implement the contract on which the selector relies:
    the ZIP 317 strategies with one and with several change outputs, and the fixed-fee strategy,
    never panic, name only inputs of the request as dust, account for every zatoshi, add exactly
    the ephemeral output they are asked for, respect the Orchard turnstile, and balance a
    transparent transaction exactly when it is given what it lacked. *)
Theorem change_strategies_meet_contract {ZR : Zip317FeeRule} {FR : FixedFeeRule} :
  (forall s, is_zat (rule_marginal_fee (so_fee_rule s)) -> dust_policy_ok (so_dust_output_policy s) ->
     ChangeStrategyLaws (CS := zip317_single_strategy s) (fun _ => True)) /\
  (forall get_account_metadata s,
     is_zat (rule_marginal_fee (mo_fee_rule s)) -> dust_policy_ok (mo_dust_output_policy s) ->
     split_policy_ok (mo_split_policy s) -> target_output_count (mo_split_policy s) <= count_limit ->
     (forall a f h x l m, get_account_metadata a f h x l = Ok m -> meta_ok m) ->
     ChangeStrategyLaws (CS := zip317_multi_strategy get_account_metadata s) meta_ok) /\
  (forall s, is_zat (fixed_fee (so_fee_rule s)) -> dust_policy_ok (so_dust_output_policy s) ->
     ChangeStrategyLaws (CS := fixed_strategy s) (fun _ => True)).
Proof using ZL FL FC FM.
  split; [|split]; [apply zip317_single_laws|apply zip317_multi_laws|apply fixed_laws].
Qed.
End Laws.
