(* ===== verification/Shielding.v ===== *)
(** * Proposals without a selection loop ([data_api/wallet/input_selection.rs])

    [propose_send_max] spends everything that is spendable to one recipient;
    [propose_shielding] moves transparent funds of the wallet into its own change, and
    [propose_shielding_coinbase] moves coinbase outputs to a shielded address. *)

From stdpp Require Import sorting.
From S2P Require Import Prelude WireReader Zatoshi Fees ChangeBalance Proposal.
From S2P Require Import Locking InputSelection.

Section Shielding.
Context {ZP : ZcashProtocol} {ZO : ZatoshisOps} {FE : FeeEnv} {PE : ProposalEnv}
  {SE : SelectionEnv} {IS : InputSource}.

(** An error of the fee rule, in the place of the error of a change strategy. *)
Definition fee_failed (e : FeeError) : InputSelectorError := Change (StrategyError (from_fee_error e)).
Definition bundle_failed (s : string) : InputSelectorError := Change (BundleError s).

(** [Payment::new] for an address, an amount and a memo. *)
Definition payment_new (recipient : Address) (v : Z) (memo : option MemoBytes) : res InputSelectorError Payment :=
  match payment_check recipient (Some v) memo with
  | None => Ok (MkPayment recipient (Some v))
  | Some e => Err (ProposalFailed (Zip321 e))
  end.

(** [TransactionRequest::new] of one payment. *)
Definition single_payment_request (payment : Payment) : res InputSelectorError TransactionRequest :=
  map_err (fun e => ProposalFailed (Zip321 e)) (request_new [payment]).

(** ** Spending everything *)

(** [pays_transparent_directly] *)
Definition pays_transparent_directly (a : ResolvedAddress TAddr) : bool :=
  match a with
  | RTransparent _ => true
  | RUnified has_orchard has_sapling transparent => is_some transparent && negb (has_sapling || has_orchard)
  | _ => false
  end.

(** The fees of the transaction and, for a TEX address, of the second one. *)
Definition send_max_fees (rule : FeeRuleT) (p : Params) (target : Z) (a : ResolvedAddress TAddr)
    (sapling_spends sapling_outputs orchard_actions ironwood_actions : Z) : res FeeError (Z * option Z) :=
  let tr0 sizes := fee_required rule p target [] sizes sapling_spends sapling_outputs
                     orchard_actions ironwood_actions in
  match a with
  | RSapling => fee ← tr0 []; Ok (fee, None)
  | RTransparent _ => fee ← tr0 [P2PKH_STANDARD_OUTPUT_SIZE]; Ok (fee, None)
  | RUnified _ _ _ =>
      fee ← tr0 (if pays_transparent_directly a then [P2PKH_STANDARD_OUTPUT_SIZE] else []); Ok (fee, None)
  | RTex _ =>
      tr0_fee ← tr0 [P2PKH_STANDARD_OUTPUT_SIZE];
      tr1_fee ← fee_required rule p target [known_size P2PKH_STANDARD_INPUT_SIZE]
                  [P2PKH_STANDARD_OUTPUT_SIZE] 0 0 0 0;
      Ok (tr0_fee, Some tr1_fee)
  end.

(** The pool in which the recipient is paid; a TEX address is paid by the second transaction. *)
Definition send_max_pools (recipient : Address) (a : ResolvedAddress TAddr) (fill_ironwood : bool) : btree PoolType :=
  let orchard_receiver_payable := can_receive_as recipient (Shielded OrchardPool) in
  let pools := if can_receive_as recipient (Shielded SaplingPool) && negb orchard_receiver_payable
               then bt_insert 0 (Shielded SaplingPool) [] else [] in
  let pools := if orchard_receiver_payable
               then bt_insert 0 (Shielded (if fill_ironwood then IronwoodPool else OrchardPool)) pools
               else pools in
  if pays_transparent_directly a then bt_insert 0 TransparentPool pools else pools.

(** A unified address without a receiver that can be paid is refused. *)
Definition check_payable (recipient : Address) (a : ResolvedAddress TAddr) (pools : btree PoolType)
    : res InputSelectorError unit :=
  match pools, a with
  | [], RUnified _ _ _ => Err (Selection (UnsupportedAddress recipient))
  | _, _ => Ok ()
  end.

(** The numbers of Sapling outputs and of Orchard and Ironwood actions. *)
Definition send_max_counts (p : Params) (target : Z) (recipient : Address) (notes : ReceivedNotes)
    : res InputSelectorError (Z * Z * Z) :=
  let orchard_receiver_payable := can_receive_as recipient (Shielded OrchardPool) in
  let fill_ironwood := ironwood_active_at p target in
  let one_time_marker := existsb sn_one_time (rn_ironwood notes) in
  s ← map_err bundle_failed (num_outputs SAPLING_DEFAULT (zlen (rn_sapling notes))
        (Z.b2z (can_receive_as recipient (Shielded SaplingPool) && negb orchard_receiver_payable)));
  o ← map_err bundle_failed (transactional_action_count ORCHARD_DEFAULT
        (orchard_bundle_version_for_height p target) (zlen (rn_orchard notes))
        (Z.b2z (orchard_receiver_payable && negb fill_ironwood)));
  i ← map_err bundle_failed (transactional_action_count ORCHARD_DEFAULT
        (ironwood_bundle_version_for_height p target) (zlen (rn_ironwood notes))
        (Z.b2z (orchard_receiver_payable && fill_ironwood) + Z.b2z one_time_marker));
  Ok (s, o, i).

(** The bundles that the transaction needs. *)
Definition send_max_retention (notes : ReceivedNotes) (counts : Z * Z * Z) : SimpleNoteRetention :=
  let '(s, o, i) := counts in
  MkRetention (negb (nil_list (rn_sapling notes)) || (0 <? s)) (0 <? o) (0 <? i).

(** What the recipient receives: everything but the fees, if that is something. *)
Definition send_max_amount (input_total total_fee : Z) : res InputSelectorError Z :=
  ok_or (v ← zat_sub input_total total_fee; if 0 <? v then Some v else None)
    (SelInsufficientFunds input_total (default MAX_MONEY (zat_add total_fee 1))).

(** The change of the first transaction: the ephemeral output for a TEX address, and the marker
    for one-time-key notes. *)
Definition send_max_change (ephemeral : option Z) (one_time_marker : bool) : list (ChangeValue MemoBytes) :=
  option_list (ephemeral_transparent <$> ephemeral)
  ++ (if one_time_marker then [cv_shielded IronwoodPool 0 None] else []).

Definition expect_balance (change : list (ChangeValue MemoBytes)) (fee : Z) : exec (TransactionBalance MemoBytes) :=
  map_err (fun _ => ExpectFailed) (balance_new change fee).

(** The arguments of [propose_send_max]. *)
Record SendMax : Type := MkSendMax {
  sm_params : Params; sm_fee_rule : FeeRuleT; sm_account : AccountId; sm_pools : list ShieldedPool;
  sm_target : Z; sm_anchor : Z; sm_mode : MaxSpendMode; sm_confirmations : ConfirmationsPolicy;
  sm_recipient : Address; sm_memo : option MemoBytes; sm_locked : LockedInputPolicy }.

(** The balances, the request and the proposal, once the amount is known. *)
Definition send_max_proposal (a : SendMax) (notes : ReceivedNotes) (counts : Z * Z * Z) (pools : btree PoolType)
    (tr0_fee : Z) (tr1_fee : option Z) (amount : Z) : run InputSelectorError Proposal :=
  let p := sm_params a in
  let target := sm_target a in
  ephemeral ← panics (match tr1_fee with
                      | Some fee => v ← expect (zat_add amount fee); Ok (Some v)
                      | None => Ok None
                      end);
  tr0_balance ← panics (expect_balance
    (send_max_change ephemeral (existsb sn_one_time (rn_ironwood notes))) tr0_fee);
  payment ← fails (payment_new (sm_recipient a) amount (sm_memo a));
  request ← fails (single_payment_request payment);
  tr1 ← panics (match ephemeral, tr1_fee with
                | Some v, Some fee =>
                    b ← expect_balance [] fee;
                    Ok (Some (MkEphemeralStep v b [payment] [(0, TransparentPool)]))
                | _, _ => Ok None
                end);
  within_budget p
    (build_proposal (sm_fee_rule a) tr0_balance target (sm_anchor a)
       (shielded_of (notes_into_vec notes (send_max_retention notes counts))) [] request pools
       (ironwood_active_at p target) tr1).

(** [propose_send_max] *)
Definition propose_send_max (a : SendMax) : run InputSelectorError Proposal :=
  let p := sm_params a in
  let target := sm_target a in
  let active := ironwood_active_at p target in
  notes ← fails (map_err DataSource
    (select_spendable_notes (sm_account a) (AllFunds (sm_mode a)) (sm_pools a) target
       (sm_confirmations a) [] (Policy (sm_locked a))));
  input_total ← fails (balance_err (notes_total_value notes));
  counts ← fails (send_max_counts p target (sm_recipient a) notes);
  addr ← fails (map_err AddressFailed (convert_if_network p (sm_recipient a)));
  let pools := send_max_pools (sm_recipient a) addr active in
  _ ← fails (check_payable (sm_recipient a) addr pools);
  let '(s, o, i) := counts : Z * Z * Z in
  fees ← fails (map_err fee_failed
    (send_max_fees (sm_fee_rule a) p target addr (zlen (rn_sapling notes)) s o i));
  let (tr0_fee, tr1_fee) := fees : Z * option Z in
  total_fee ← fails (ok_or (zat_add tr0_fee (default 0 tr1_fee)) sel_overflow);
  amount ← fails (send_max_amount input_total total_fee);
  send_max_proposal a notes counts pools tr0_fee tr1_fee amount.

(** ** Shielding *)

(** The order in which the outputs are taken: by value, the highest first, then by outpoint. *)
Definition utxo_value (u : WalletUtxo) : Z := txout_value (utxo_out u).
Definition utxo_outpoint (u : WalletUtxo) : TxId * Z := (outpoint_hash (utxo_out u), outpoint_n (utxo_out u)).
Definition utxo_before (a b : WalletUtxo) : Prop :=
  utxo_value b < utxo_value a \/
  (utxo_value a = utxo_value b /\ outpoint_le (utxo_outpoint a) (utxo_outpoint b) = true).

#[global] Instance utxo_before_dec a b : Decision (utxo_before a b).
Proof. unfold utxo_before. apply _. Defined.

(** Whether spending the outputs together would link an ephemeral address to another one. *)
Definition links_ephemeral (l : list WalletUtxo) : bool :=
  existsb utxo_ephemeral_scope l && (1 <? zlen (remove_dups (map utxo_address l))).

(** [gather_shielding_inputs] *)
Definition gather_shielding_inputs (source_addrs : list TAddr) (target : Z) (conf : ConfirmationsPolicy)
    (output_filter : CoinbaseFilter) (max_inputs : Z) (locked : LockedInputPolicy)
    : res InputSelectorError (list WalletTransparentOutput) :=
  utxos ← map_err DataSource
    (get_spendable_transparent_outputs_for_addresses source_addrs target conf output_filter (Policy locked));
  let utxos := take (Z.to_nat max_inputs) (merge_sort utxo_before utxos) in
  if links_ephemeral utxos then Err (ProposalFailed EphemeralAddressLinkability)
  else Ok (map utxo_out utxos).

(** The transaction that spends the outputs into change: the arguments of [compute_balance]. *)
Definition shielding_request (p : Params) (target anchor : Z) (ts : list WalletTransparentOutput) : ChangeRequest :=
  {| target_height := target; transparent_inputs := map t_view ts; transparent_outputs := [];
     sapling := MkSBundleView SAPLING_DEFAULT [] [];
     orchard := MkOBundleView (orchard_bundle_version_for_height p target) [] [];
     ironwood := MkOBundleView (ironwood_bundle_version_for_height p target) [] [];
     orchard_padding := PADDING_DEFAULT; anchor_height := anchor; zip318 := pool_migration_params p;
     change_memo := None; ephemeral_balance := None |}.

Section Strategy.
Context {CS : ChangeStrategy}.

(** [compute_shielding_balance] *)
Definition compute_shielding_balance (p : Params) (target anchor : Z) (ts : list WalletTransparentOutput)
    (meta : AccountMetaT) : run ChangeError (TransactionBalance MemoBytes) :=
  compute_balance p (shielding_request p target anchor ts) meta.

(** [compute_shielding_balance_with_dust_retry]: the balance and the remaining inputs *)
Definition compute_shielding_balance_with_dust_retry (p : Params) (target anchor : Z)
    (ts : list WalletTransparentOutput) (meta : AccountMetaT)
    : run InputSelectorError (TransactionBalance MemoBytes * list WalletTransparentOutput) :=
  match compute_shielding_balance p target anchor ts meta with
  | Ok b => Ok (b, ts)
  | Err (Failed (DustInputs transparent _ _ _)) =>
      let ts := filter (fun u => outpoint_of (outpoint_hash u) (outpoint_n u) ∉ transparent) ts in
      b ← map_fault Change (compute_shielding_balance p target anchor ts meta);
      Ok (b, ts)
  | Err (Failed other) => Err (Failed (Change other))
  | Err (Panicked pn) => Err (Panicked pn)
  end.

(** [GreedyInputSelector::propose_shielding] *)
Definition propose_shielding (sel : GreedyInputSelector) (p : Params) (threshold : Z) (source_addrs : list TAddr)
    (to_account : AccountId) (target anchor : Z) (conf : ConfirmationsPolicy) (output_filter : CoinbaseFilter)
    : run InputSelectorError Proposal :=
  ts ← fails (gather_shielding_inputs source_addrs target conf output_filter
                (shielding_max_inputs (shielding_block_space_percent sel)) (gs_locked sel));
  meta ← fails (map_err DataSource (fetch_wallet_meta to_account target []));
  bts ← compute_shielding_balance_with_dust_retry p target anchor ts meta;
  let (b, ts) := bts : TransactionBalance MemoBytes * list WalletTransparentOutput in
  if threshold <=? total b then
    within_budget p
      (single_step (MkTransactionRequest []) [] ts None anchor b strategy_fee_rule target true
         (ironwood_active_at p target))
  else Err (Failed (SelInsufficientFunds (total b) threshold)).
End Strategy.

(** ** Shielding coinbase outputs *)

(** [resolve_shielded_destination] *)
Definition resolve_shielded_destination (addr : Address) (p : Params) (target : Z)
    : res InputSelectorError PoolType :=
  resolved ← map_err AddressFailed (convert_if_network p addr);
  match resolved with
  | RSapling => Ok (Shielded SaplingPool)
  | RUnified has_orchard has_sapling _ =>
      if has_orchard then Ok (Shielded (if ironwood_active_at p target then IronwoodPool else OrchardPool))
      else if has_sapling then Ok (Shielded SaplingPool)
      else Err (Selection (UnsupportedAddress addr))
  | RTransparent _ | RTex _ => Err (ProposalFailed ShieldingRequiresShieldedRecipient)
  end.

(** The numbers of Sapling outputs and of actions for one output in the pool. *)
Definition destination_counts (p : Params) (target : Z) (pool : PoolType) : run InputSelectorError (Z * Z * Z) :=
  let unwrap {A} (m : res string A) : run InputSelectorError A := panics (map_err (fun _ => ExpectFailed) m) in
  match pool with
  | Shielded SaplingPool => n ← unwrap (num_outputs SAPLING_DEFAULT 0 1); Ok (n, 0, 0)
  | Shielded OrchardPool =>
      n ← unwrap (transactional_action_count ORCHARD_DEFAULT (orchard_bundle_version_for_height p target) 0 1);
      Ok (0, n, 0)
  | Shielded IronwoodPool =>
      n ← unwrap (transactional_action_count ORCHARD_DEFAULT (ironwood_bundle_version_for_height p target) 0 1);
      Ok (0, 0, n)
  | TransparentPool => Err (Failed (ProposalFailed ShieldingRequiresShieldedRecipient))
  end.

(** [GreedyInputSelector::propose_shielding_coinbase] *)
Definition propose_shielding_coinbase (sel : GreedyInputSelector) (p : Params) (rule : FeeRuleT)
    (threshold : Z) (source_addrs : list TAddr) (to_address : Address) (memo : option MemoBytes)
    (limit : option Z) (target anchor : Z) : run InputSelectorError Proposal :=
  ts ← fails (gather_shielding_inputs source_addrs target CONFIRMATIONS_MIN CoinbaseOnly
                (Z.min (default usize_max limit) (shielding_max_inputs (shielding_block_space_percent sel)))
                (gs_locked sel));
  pool ← fails (resolve_shielded_destination to_address p target);
  counts ← destination_counts p target pool;
  let '(s, o, i) := counts : Z * Z * Z in
  fee ← fails (map_err fee_failed (fee_required rule p target (map t_input_size ts) [] 0 s o i));
  input_total ← fails (ok_or (checked_total (map txout_value ts)) sel_overflow);
  amount ← fails (ok_or (zat_sub input_total fee) (SelInsufficientFunds input_total fee));
  if amount <? threshold then Err (Failed (SelInsufficientFunds amount threshold)) else
  payment ← fails (payment_new to_address amount memo);
  request ← fails (single_payment_request payment);
  final_balance ← fails (map_err (fun _ => sel_overflow) (balance_new [] fee));
  within_budget p
    (single_step request [(0, pool)] ts None anchor final_balance rule target false
       (ironwood_active_at p target)).
End Shielding.
