(* ===== verification/ShieldingProofs.v ===== *)
(** * Sending everything and shielding: the theorems

    What [propose_send_max], [propose_shielding] and [propose_shielding_coinbase] return, and
    when they fail. *)

From Stdlib Require Import Sorting.Sorted.
From stdpp Require Import sorting.
From S2P Require Import Prelude WireReader Zatoshi Fees ChangeBalance ChangeProofs.
From S2P Require Import UneconomicInputs ChangeStrategies Proposal ProposalProofs Locking InputSelection.
From S2P Require Import InputSelectionProofs SelectionLoop SelectionValid SelectionTheorems Shielding.

(** The documented behaviour of addresses and of the default bundle types: an address can
    receive in no other pool than those of its receivers, a bundle has an action for every
    spend, and a default bundle may have a single output. *)
Class SendLaws {ZP : ZcashProtocol} {FE : FeeEnv} {PE : ProposalEnv} {SE : SelectionEnv} : Prop := {
  receivers_only : forall p a r pool, convert_if_network p a = Ok r -> can_receive_as a pool = true ->
    pool ∈ receivers r;
  num_actions_spends : forall bt f s o n, num_actions bt f s o = Ok n -> s <= n;
  one_sapling_output : exists n, num_outputs SAPLING_DEFAULT 0 1 = Ok n;
  one_orchard_output : forall v, exists n, transactional_action_count ORCHARD_DEFAULT v 0 1 = Ok n }.

(** What the wallet offers for shielding has values that are amounts and fits in memory, and
    outpoints are totally ordered. *)
Class ShieldingSourceLaws {ZP : ZcashProtocol} {FE : FeeEnv} {PE : ProposalEnv} {SE : SelectionEnv}
    {IS : InputSource} : Prop := {
  offered_utxos_ok : forall addrs h c f lf us,
    get_spendable_transparent_outputs_for_addresses addrs h c f lf = Ok us ->
    Forall is_zat (map utxo_value us);
  offered_utxos_fit : forall addrs h c f lf us,
    get_spendable_transparent_outputs_for_addresses addrs h c f lf = Ok us -> zlen us <= offer_limit;
  outpoint_le_total : forall a b, outpoint_le a b = true \/ outpoint_le b a = true }.

Section Proofs.
Context {ZP : ZcashProtocol} {ZO : ZatoshisOps} {FE : FeeEnv} {PE : ProposalEnv}
  {SE : SelectionEnv} {IS : InputSource}.
Context {ZL : ZatoshisLaws} {FL : FeeEnvLaws} {PL : ProposalEnvLaws} {SL : SelectionEnvLaws}
  {IL : InputSourceLaws} {ML : SendLaws}.

Abbreviation total_run m := (errs_only (fun _ => True) m).

(** ** Pools and bundles *)

(** Which addresses have which shielded receivers. *)
Lemma orchard_receiver (r : ResolvedAddress TAddr) :
  Shielded OrchardPool ∈ receivers r -> exists s t, r = RUnified true s t.
Proof.
  destruct r as [a|a| |o s t]; cbn; [intros [=]%list_elem_of_singleton..|]. destruct o; [eauto|]. cbn.
  destruct s, t; cbn; rewrite ?elem_of_cons, ?elem_of_nil; intros H; exfalso; by destruct_or?.
Qed.

Lemma sapling_receiver (r : ResolvedAddress TAddr) :
  Shielded SaplingPool ∈ receivers r -> r = RSapling \/ exists o t, r = RUnified o true t.
Proof.
  destruct r as [a|a| |o s t]; cbn; [intros [=]%list_elem_of_singleton..|by left|]. destruct s; [eauto|]. cbn.
  destruct o, t; cbn; rewrite ?elem_of_cons, ?elem_of_nil; intros H; exfalso; by destruct_or?.
Qed.

(** The recipient is paid in one pool, in which it can receive, unless it is a TEX address. *)
Lemma send_max_pools_spec p target recipient addr :
  convert_if_network p recipient = Ok addr ->
  match addr with
  | RTex _ => send_max_pools recipient addr (ironwood_active_at p target) = []
  | _ => (exists pool, send_max_pools recipient addr (ironwood_active_at p target) = [(0, pool)] /\
            delivered recipient pool /\
            (ironwood_active_at p target = true -> pool <> Shielded OrchardPool)) \/
         (send_max_pools recipient addr (ironwood_active_at p target) = [] /\
          exists o s t, addr = RUnified o s t)
  end.
Proof using SL ML.
  intros Hc. pose proof (fun pool => receivers_only p recipient addr pool Hc) as Honly.
  pose proof (receivers_receive p recipient addr Hc) as Hall. rewrite Forall_forall in Hall.
  unfold send_max_pools. set (active := ironwood_active_at p target). clearbody active.
  destruct (can_receive_as recipient (Shielded OrchardPool)) eqn:Eo.
  - destruct (orchard_receiver addr (Honly _ Eo)) as (s & t & ->). rewrite andb_false_r. cbn.
    rewrite orb_true_r, andb_false_r. left. eexists. split; [done|]. unfold delivered.
    destruct active; auto.
  - rewrite andb_true_r. destruct (can_receive_as recipient (Shielded SaplingPool)) eqn:Es.
    + destruct (sapling_receiver addr (Honly _ Es)) as [->|(o & t & ->)]; left; exists (Shielded SaplingPool);
        (split; [|split; [by left|done]]); cbn; [done|]. by rewrite andb_false_r.
    + destruct addr as [a|a| |o s t]; cbn in *.
      * left. eexists. split; [done|]. split; [left; apply Hall; left|done].
      * done.
      * exfalso. enough (can_receive_as recipient (Shielded SaplingPool) = true) by congruence. apply Hall. left.
      * destruct (is_some t && negb (s || o)) eqn:Ed; [|right; split; [done|eauto]].
        left. eexists. split; [done|]. split; [|done]. left. apply Hall.
        apply andb_true_iff in Ed as [Ht Ed]. apply negb_true_iff, orb_false_iff in Ed as [-> ->].
        rewrite Ht. left.
Qed.

(** The bundles that are needed hold all the notes. *)
Definition all_pools : SimpleNoteRetention := MkRetention true true true.

Lemma send_max_retains_all p target recipient notes counts :
  send_max_counts p target recipient notes = Ok counts ->
  notes_into_vec notes (send_max_retention notes counts) = notes_into_vec notes all_pools.
Proof using ML.
  intros H. unfold send_max_counts in H. bind_step H as s Hs. bind_step H as o Ho. bind_step H as i Hi.
  injection H as <-. unfold bundle_failed in *. unwrap_ok Ho. unwrap_ok Hi.
  apply num_actions_spends in Ho, Hi. unfold notes_into_vec, send_max_retention, all_pools, zlen in *. cbn.
  f_equal; [|f_equal].
  - destruct (rn_sapling notes); [by destruct (0 <? s)|done].
  - destruct (rn_orchard notes) as [|x l]; [by destruct (0 <? o)|]. cbn in Ho. destruct (Z.ltb_spec 0 o); [done|lia].
  - destruct (rn_ironwood notes) as [|x l]; [by destruct (0 <? i)|]. cbn in Hi. destruct (Z.ltb_spec 0 i); [done|lia].
Qed.

(** ** Amounts *)

Lemma notes_total_sum n v :
  notes_ok n -> notes_total_value n = Ok v ->
  is_zat v /\ v = zsum (map note_value (notes_into_vec n all_pools)).
Proof using ZL.
  intros Hn H. split; [by eapply notes_total_Ok|]. destruct Hn as (Hs & Ho & Hi). unfold notes_total_value in H.
  bind_step H as s Hsv. bind_step H as o Hov. bind_step H as i Hiv.
  apply notes_value_Ok in Hsv as [-> ?]; [|done]. apply notes_value_Ok in Hov as [-> ?]; [|done].
  apply notes_value_Ok in Hiv as [-> ?]; [|done].
  unwrap_ok H. rewrite zat_add_opt_spec in H. apply bind_Some in H as (x & Hx & H).
  apply zat_add_Some in Hx as [-> ?]; [|done..]. apply zat_add_Some in H as [-> _]; [|done..].
  rewrite into_vec_value. unfold pool_value, retained, all_pools. cbn. done.
Qed.

Lemma balance_new_Ok (ch : list (ChangeValue MemoBytes)) fee :
  Forall is_zat (map cv_value ch) -> is_zat fee -> is_zat (zsum (map cv_value ch) + fee) ->
  balance_new ch fee = Ok (MkTransactionBalance ch fee (zsum (map cv_value ch) + fee) None).
Proof using ZL.
  intros Hc Hf Hz. unfold balance_new.
  assert (zat_sum (map cv_value ch ++ [fee]) = Some (zsum (map cv_value ch) + fee)) as ->; [|done].
  apply zat_sum_Some; [apply Forall_app_2; [done|by constructor]|]. split; [|done].
  rewrite zsum_app. unfold zsum. cbn. lia.
Qed.

Lemma expect_balance_Ok ch fee :
  Forall is_zat (map cv_value ch) -> is_zat fee -> is_zat (zsum (map cv_value ch) + fee) ->
  expect_balance ch fee = Ok (MkTransactionBalance ch fee (zsum (map cv_value ch) + fee) None).
Proof using ZL. intros. unfold expect_balance. by rewrite balance_new_Ok. Qed.

Lemma send_max_fees_zat rule p target addr a b c d f0 f1 :
  send_max_fees rule p target addr a b c d = Ok (f0, f1) ->
  is_zat f0 /\ (forall f, f1 = Some f -> is_zat f) /\
  (is_Some f1 <-> match addr with RTex _ => True | _ => False end).
Proof using FL.
  unfold send_max_fees. intros H.
  destruct addr; [bind_step H as v Hv..]; try (injection H as <- <-);
    try (split_and!; [by eapply fee_required_zat|done|by split; [intros []|]]).
  bind_step H as w Hw. injection H as <- <-. split_and!; [by eapply fee_required_zat| |by split].
  intros f [= <-]. by eapply fee_required_zat.
Qed.

Lemma send_max_change_sum e m :
  zsum (map cv_value (send_max_change e m)) = default 0 e.
Proof. unfold send_max_change. destruct e, m; unfold zsum; cbn; lia. Qed.

Lemma send_max_change_zat e m : (forall v, e = Some v -> is_zat v) -> Forall is_zat (map cv_value (send_max_change e m)).
Proof using ZL.
  intros He. pose proof is_zat_0. unfold send_max_change. destruct e as [v|], m; cbn;
    repeat (apply Forall_cons; split); try apply Forall_nil_2; auto.
Qed.

Lemma send_max_change_pools e m :
  filter (fun c => output_pool c = Shielded OrchardPool) (send_max_change e m) = [].
Proof. unfold send_max_change. by destruct e, m. Qed.

(** *** The steps *)

(** A request with one payment. *)
Lemma one_amounts_ok recipient v :
  is_zat v -> request_amounts_ok (MkTransactionRequest [(0, MkPayment recipient (Some v))]).
Proof.
  intros Hv. split; [repeat constructor|]. intros i p w Hp. apply list_elem_of_singleton in Hp as [= -> ->].
  by intros [= <-].
Qed.

Section Steps.
Context (a : SendMax) (vec : list ReceivedNote) (v : Z) (marker : bool).
Let active := ironwood_active_at (sm_params a) (sm_target a).
Let payment := MkPayment (sm_recipient a) (Some v).
Let one := MkTransactionRequest [(0, payment)].

Context (Hv : 0 < v) (Hzv : is_zat v) (Hvec : Forall is_zat (map note_value vec))
  (Htot : is_zat (zsum (map note_value vec))).

Lemma notes_of_shielded (l : list ReceivedNote) : notes_of (shielded_of l) = l.
Proof. by destruct l. Qed.

(** The only step, when the recipient is paid directly. *)
Definition direct_parts (pool : PoolType) (b : TransactionBalance MemoBytes) : StepParts :=
  MkParts one [(0, pool)] [] (shielded_of vec) (Some (sm_anchor a)) [] b false.

Lemma direct_parts_valid pool fee :
  delivered (sm_recipient a) pool -> (active = true -> pool <> Shielded OrchardPool) -> is_zat fee ->
  zsum (map note_value vec) = v + fee ->
  let b := MkTransactionBalance (send_max_change None marker) fee (default 0 None + fee) None in
  parts_ok (direct_parts pool b) /\ step_valid [] (direct_parts pool b) active.
Proof using Htot Hv Hvec Hzv ZL.
  intros Hd Ha Hf Heq b.
  assert (Forall is_zat (map cv_value (send_max_change None marker))) as Hch by (by apply send_max_change_zat).
  split.
  - split_and!; [by apply one_amounts_ok|repeat constructor|constructor|by cbn; rewrite notes_of_shielded|].
    unfold b, balance_ok. cbn [direct_parts p_balance proposed_change total fee_required_of].
    split_and!; [done|done|done|]. by rewrite send_max_change_sum.
  - split; cbn [direct_parts p_request p_pools p_transparent p_shielded p_anchor p_prior p_balance p_shielding].
    + done.
    + repeat constructor. exists payment. split_and!; [done|by eexists|done].
    + exists []. split; [constructor|]. rewrite notes_of_shielded. unfold request_sum, zsum in *. cbn. lia.
    + unfold request_sum, zsum in *. cbn. unfold is_zat in *. lia.
    + done.
    + intros Hact. split.
      * cbn. intros e ->%list_elem_of_singleton. by apply Ha.
      * left. unfold b. cbn [direct_parts p_balance proposed_change]. by rewrite send_max_change_pools.
    + by eexists.
Qed.

(** The two steps, when the recipient is a TEX address. *)
Definition tex_parts0 (b : TransactionBalance MemoBytes) : StepParts :=
  MkParts (MkTransactionRequest []) [] [] (shielded_of vec) (Some (sm_anchor a)) [] b false.
Definition tex_parts1 (b : TransactionBalance MemoBytes) : StepParts :=
  MkParts one [(0, TransparentPool)] [] None (Some (sm_anchor a)) [MkStepOutput 0 (ChangeOutput 0)] b false.

Lemma tex_parts_valid fee0 fee1 :
  can_receive_as (sm_recipient a) TransparentPool = true -> is_zat fee0 -> is_zat fee1 ->
  zsum (map note_value vec) = v + fee0 + fee1 ->
  let b0 := MkTransactionBalance (send_max_change (Some (v + fee1)) marker) fee0 (v + fee1 + fee0) None in
  let b1 := MkTransactionBalance [] fee1 (0 + fee1) None in
  parts_ok (tex_parts0 b0) /\ step_valid [] (tex_parts0 b0) active /\
  parts_ok (tex_parts1 b1) /\ step_valid [step_of (tex_parts0 b0)] (tex_parts1 b1) active.
Proof using Htot Hv Hvec Hzv ZL.
  intros Hd Hf0 Hf1 Heq b0 b1.
  assert (is_zat (v + fee1)) as Hz by (unfold is_zat in *; lia).
  assert (Forall is_zat (map cv_value (send_max_change (Some (v + fee1)) marker))) as Hch.
  { apply send_max_change_zat. by intros w [= <-]. }
  split_and!.
  - split_and!; [split; [constructor|intros i p w H; by apply elem_of_nil in H]|constructor|constructor|
      by cbn; rewrite notes_of_shielded|].
    unfold b0, balance_ok. cbn [tex_parts0 p_balance proposed_change total fee_required_of].
    split_and!; [done|unfold is_zat in *; lia|done|]. by rewrite send_max_change_sum.
  - split; cbn [tex_parts0 p_request p_pools p_transparent p_shielded p_anchor p_prior p_balance p_shielding]; try done.
    + exists []. split; [constructor|]. rewrite notes_of_shielded. unfold request_sum, zsum in *. cbn. lia.
    + unfold request_sum, zsum in *. cbn. unfold is_zat in *. lia.
    + intros _. split; [intros e He; by apply elem_of_nil in He|]. left.
      unfold b0. cbn [tex_parts0 p_balance proposed_change]. by rewrite send_max_change_pools.
  - split_and!; [by apply one_amounts_ok|repeat constructor|constructor|constructor|].
    cbn. split_and!; [constructor|done|done|unfold zsum; cbn; lia].
  - split; cbn [tex_parts1 p_request p_pools p_transparent p_shielded p_anchor p_prior p_balance p_shielding]; try done.
    + repeat constructor. exists payment. split_and!; [done|by eexists|by left].
    + exists [v + fee1]. split; [by repeat constructor|]. unfold request_sum, zsum. cbn. lia.
    + unfold request_sum, zsum in *. cbn. unfold is_zat in *. lia.
    + intros _. split; cbn; [|by left]. intros e ->%list_elem_of_singleton. done.
Qed.
End Steps.

(** ** The whole call *)

(** The errors of building the proposal: the amount or the memo does not suit the recipient,
    the transaction is too large, or the wallet offered a note twice. *)
Definition send_error (e : InputSelectorError) : Prop :=
  match e with
  | ProposalFailed (Zip321 _) | ProposalFailed (ShieldedBudget _) | ProposalFailed (ChainDoubleSpend _) => True
  | ProposalFailed _ => False
  | _ => True
  end.

(** Whether the recipient is a TEX address, which takes no payment from a transaction with
    shielded inputs *)
Definition is_tex (a : SendMax) : Prop := exists t, convert_if_network (sm_params a) (sm_recipient a) = Ok (RTex t).

(** The marker for notes that have one-time keys *)
Definition marker_of (notes : ReceivedNotes) : list (ChangeValue MemoBytes) :=
  if existsb sn_one_time (rn_ironwood notes) then [cv_shielded IronwoodPool 0 None] else [].

(** One step: the notes pay the recipient in a pool in which it can receive, without an
    ephemeral output. *)
Definition sent_directly (a : SendMax) (notes : ReceivedNotes) (p : Proposal) : Prop := exists s pool v,
  steps p = [s] /\ prior_step_inputs s = [] /\
  shielded_inputs s = shielded_of (notes_into_vec notes all_pools) /\
  payments (transaction_request s) = [(0, MkPayment (sm_recipient a) (Some v))] /\ payment_pools s = [(0, pool)] /\
  delivered (sm_recipient a) pool /\
  (ironwood_active_at (sm_params a) (sm_target a) = true -> pool <> Shielded OrchardPool) /\
  proposed_change (balance s) = marker_of notes.

(** Two steps: the notes pay an ephemeral transparent output and nothing else, and the second
    step has this output as its only input, from which it pays the recipient and its own fee. *)
Definition sent_through (a : SendMax) (notes : ReceivedNotes) (p : Proposal) : Prop := exists s0 s1 v,
  steps p = [s0; s1] /\
  prior_step_inputs s0 = [] /\ shielded_inputs s0 = shielded_of (notes_into_vec notes all_pools) /\
  payments (transaction_request s0) = [] /\ payment_pools s0 = [] /\
  proposed_change (balance s0) = ephemeral_transparent (v + fee_required_of (balance s1)) :: marker_of notes /\
  prior_step_inputs s1 = [MkStepOutput 0 (ChangeOutput 0)] /\ shielded_inputs s1 = None /\ step_transparent_inputs s1 = [] /\
  payments (transaction_request s1) = [(0, MkPayment (sm_recipient a) (Some v))] /\
  payment_pools s1 = [(0, TransparentPool)] /\ can_receive_as (sm_recipient a) TransparentPool = true /\
  proposed_change (balance s1) = [].

(** What a proposal that spends everything is. *)
Record sends_all (a : SendMax) (notes : ReceivedNotes) (p : Proposal) : Prop := {
  sa_inputs : concat (map (fun s => notes_of (shielded_inputs s)) (steps p)) = notes_into_vec notes all_pools;
  sa_transparent : concat (map step_transparent_inputs (steps p)) = [];
  sa_paid : exists v, 0 < v /\
    concat (map (fun s => map snd (payments (transaction_request s))) (steps p))
      = [MkPayment (sm_recipient a) (Some v)] /\
    v + zsum (map (fun s => fee_required_of (balance s)) (steps p))
      = zsum (map note_value (notes_into_vec notes all_pools));
  sa_steps : (is_tex a /\ sent_through a notes p) \/ (~ is_tex a /\ sent_directly a notes p);
  sa_valid : steps_valid (ironwood_active_at (sm_params a) (sm_target a)) [] (steps p) }.

Lemma within_budget_spec prm (m : run ProposalError Proposal) :
  errs_only (fun e => exists r, e = ChainDoubleSpend r) m ->
  errs_only send_error (within_budget prm m) /\ forall p, within_budget prm m = Ok p -> m = Ok p.
Proof.
  intros Hm. unfold within_budget. destruct m as [p|[e|pn]]; cbn [map_fault mbind res_bind]; [| |done].
  - destruct (validate_shielded_budget p prm) as [[]|e] eqn:E; cbn; [split; [done|by intros p' [= <-]]|].
    split; [|done]. apply check_budget_errors in E as [r ->]. done.
  - split; [|done]. destruct Hm as [r ->]. done.
Qed.

(** The last part of the call, when the recipient is paid directly. *)
Lemma send_direct a notes pool v fee :
  let marker := existsb sn_one_time (rn_ironwood notes) in
  let vec := notes_into_vec notes all_pools in
  let active := ironwood_active_at (sm_params a) (sm_target a) in
  let m := within_budget (sm_params a)
    (build_proposal (sm_fee_rule a)
       (MkTransactionBalance (send_max_change None marker) fee (default 0 None + fee) None)
       (sm_target a) (sm_anchor a) (shielded_of vec) []
       (MkTransactionRequest [(0, MkPayment (sm_recipient a) (Some v))]) [(0, pool)] active None) in
  notes_ok notes -> delivered (sm_recipient a) pool -> (active = true -> pool <> Shielded OrchardPool) ->
  0 < v -> is_zat v -> is_zat fee -> is_zat (zsum (map note_value vec)) ->
  zsum (map note_value vec) = v + fee ->
  ~ is_tex a ->
  errs_only send_error m /\ forall p, m = Ok p -> sends_all a notes p.
Proof using ZL PL.
  intros marker vec active m Hn Hd Ha Hv Hzv Hf Ht Heq Htex.
  destruct (direct_parts_valid a vec v marker Hv Hzv (notes_into_vec_ok notes all_pools Hn) Ht pool fee Hd Ha Hf Heq)
    as [Hok Hvalid].
  set (b := MkTransactionBalance (send_max_change None marker) fee (default 0 None + fee) None) in *.
  pose proof (from_parts_complete [] (direct_parts a vec v pool b) active Hok (Forall_nil_2 _) Hvalid) as Hfp.
  unfold step_from_parts, direct_parts in Hfp.
  cbn [p_request p_pools p_transparent p_shielded p_anchor p_prior p_balance p_shielding] in Hfp.
  subst m. unfold build_proposal, single_step. rewrite Hfp. cbn [mbind res_bind].
  set (prop := Ok _). destruct (within_budget_spec (sm_params a) prop I) as [He Hp]. split; [done|].
  intros p Hp'. apply Hp in Hp'. injection Hp' as <-. split.
  - cbn [map concat steps]. rewrite app_nil_r. apply notes_of_shielded.
  - done.
  - exists v. split_and!; [done|done|]. change (v + (fee + 0) = zsum (map note_value vec)). lia.
  - right. split; [exact Htex|]. eexists _, pool, v. by split_and!.
  - split; [|done]. by eexists.
Qed.

(** The last part of the call, when the recipient is a TEX address. *)
Lemma send_tex a notes v fee0 fee1 :
  let marker := existsb sn_one_time (rn_ironwood notes) in
  let vec := notes_into_vec notes all_pools in
  let active := ironwood_active_at (sm_params a) (sm_target a) in
  let payment := MkPayment (sm_recipient a) (Some v) in
  let m := within_budget (sm_params a)
    (build_proposal (sm_fee_rule a)
       (MkTransactionBalance (send_max_change (Some (v + fee1)) marker) fee0 (v + fee1 + fee0) None)
       (sm_target a) (sm_anchor a) (shielded_of vec) [] (MkTransactionRequest [(0, payment)]) [] active
       (Some (MkEphemeralStep (v + fee1) (MkTransactionBalance [] fee1 (0 + fee1) None) [payment]
                [(0, TransparentPool)]))) in
  notes_ok notes -> can_receive_as (sm_recipient a) TransparentPool = true ->
  request_check (indexed_payments [(0, payment)]) = None ->
  0 < v -> is_zat v -> is_zat fee0 -> is_zat fee1 -> is_zat (zsum (map note_value vec)) ->
  zsum (map note_value vec) = v + fee0 + fee1 ->
  is_tex a ->
  errs_only send_error m /\ forall p, m = Ok p -> sends_all a notes p.
Proof using ZL PL SL.
  intros marker vec active payment m Hn Hd Hchk Hv Hzv Hf0 Hf1 Ht Heq Htex.
  destruct (tex_parts_valid a vec v marker Hv Hzv (notes_into_vec_ok notes all_pools Hn) Ht fee0 fee1 Hd Hf0 Hf1 Heq)
    as (Hok0 & Hv0 & Hok1 & Hv1).
  set (b0 := MkTransactionBalance (send_max_change (Some (v + fee1)) marker) fee0 (v + fee1 + fee0) None) in *.
  set (b1 := MkTransactionBalance [] fee1 (0 + fee1) None) in *.
  assert (prior_ok [step_of (tex_parts0 a vec b0)]) as Hprior.
  { constructor; [|constructor]. split; [apply Hok0|apply Hok0]. }
  pose proof (from_parts_complete [] _ active Hok0 (Forall_nil_2 _) Hv0) as H0.
  pose proof (from_parts_complete _ _ active Hok1 Hprior Hv1) as H1.
  set (s0 := step_of (tex_parts0 a vec b0)) in *. set (s1 := step_of (tex_parts1 a v b1)) in *.
  assert (build_proposal (sm_fee_rule a) b0 (sm_target a) (sm_anchor a) (shielded_of vec) []
    (MkTransactionRequest [(0, payment)]) [] active
    (Some (MkEphemeralStep (v + fee1) b1 [payment] [(0, TransparentPool)]))
    = multi_step (sm_fee_rule a) (sm_target a) [s0; s1]) as Hbp.
  { unfold build_proposal. cbn [es_output_value es_balance es_payments es_pools].
    assert (ephemeral_index (proposed_change b0) (v + fee1) = Ok 0) as ->.
    { unfold b0, ephemeral_index, send_max_change. cbn [proposed_change].
      destruct marker; cbn -[Z.eqb Z.add];
        rewrite !decide_True, ?decide_False by done; cbn -[Z.eqb Z.add]; by rewrite Z.eqb_refl. }
    red_run. cbn [payments].
    match goal with |- context [filter ?P ?l] => change (filter P l) with (@nil (Z * Payment)) end.
    rewrite (request_from_indexed_Ok []) by (eapply request_check_sub; [apply sublist_nil_l|exact Hchk]). red_run.
    unfold step_from_parts, tex_parts0 in H0.
    cbn [p_request p_pools p_transparent p_shielded p_anchor p_prior p_balance p_shielding] in H0.
    rewrite H0. cbn [mbind res_bind].
    unfold request_new. change (zip (map Z.of_nat (seq 0 (length [payment]))) [payment]) with [(0, payment)].
    rewrite request_from_indexed_Ok by done. red_run.
    unfold step_from_parts, tex_parts1 in H1.
    cbn [p_request p_pools p_transparent p_shielded p_anchor p_prior p_balance p_shielding] in H1.
    fold payment in H1. rewrite H1. done. }
  subst m. rewrite Hbp.
  destruct (within_budget_spec (sm_params a) (multi_step (sm_fee_rule a) (sm_target a) [s0; s1])) as [He Hp].
  { apply (multi_step_pair_errors 0); [done|done|]. unfold s0, b0. cbn. destruct marker; cbn; lia. }
  split; [done|]. intros p Hp'. apply Hp, multi_step_Ok in Hp' as [-> _]. split.
  - cbn [map concat steps]. rewrite !app_nil_r. apply notes_of_shielded.
  - done.
  - exists v. split_and!; [done|done|]. change (v + (fee0 + (fee1 + 0)) = zsum (map note_value vec)). lia.
  - left. split; [exact Htex|]. exists s0, s1, v. by split_and!.
  - split; [by exists (tex_parts0 a vec b0)|]. split; [by exists (tex_parts1 a v b1)|done].
Qed.

Lemma send_max_counts_errors p target recipient notes e :
  send_max_counts p target recipient notes = Err e -> send_error e.
Proof.
  intros H. unfold send_max_counts in H.
  repeat (apply res_bind_Err in H as [H|(? & _ & H)];
    [match type of H with map_err _ ?x = _ => destruct x end; [done|]; by injection H as <-|]).
  done.
Qed.

(** What is paid, from the inputs and the fees. *)
Lemma send_max_amount_Ok total fee v :
  is_zat total -> is_zat fee -> send_max_amount total fee = Ok v -> v = total - fee /\ 0 < v /\ is_zat v.
Proof using ZL.
  intros Ht Hf H. unfold send_max_amount in H. unwrap_ok H. apply bind_Some in H as (w & Hw & H).
  apply zat_sub_Some in Hw as [-> Hz]; [|done..]. destruct (Z.ltb_spec 0 (total - fee)); [|done].
  by injection H as <-.
Qed.

Lemma send_max_amount_errors total fee e :
  send_max_amount total fee = Err e -> e = SelInsufficientFunds total (default MAX_MONEY (zat_add fee 1)).
Proof.
  unfold send_max_amount, ok_or. intros H.
  match type of H with match ?x with _ => _ end = _ => destruct x end; [done|by injection H as <-].
Qed.

Lemma check_payable_errors recipient addr pools e :
  check_payable recipient addr pools = Err e -> e = Selection (UnsupportedAddress recipient).
Proof. unfold check_payable. destruct pools, addr; try done. by intros [= <-]. Qed.

(** A request with one payment is what it should be, or ZIP 321 refuses it. *)
Lemma single_payment_request_cases payment :
  (exists e, single_payment_request payment = Err (ProposalFailed (Zip321 e))) \/
  (request_check (indexed_payments [(0, payment)]) = None /\
   single_payment_request payment = Ok (MkTransactionRequest [(0, payment)])).
Proof.
  unfold single_payment_request, request_new.
  change (zip (map Z.of_nat (seq 0 (length [payment]))) [payment]) with [(0, payment)].
  destruct (request_check (indexed_payments [(0, payment)])) as [e|] eqn:Echk.
  - left. exists e. unfold request_from_indexed. fold (indexed_payments [(0, payment)]). by rewrite Echk.
  - right. split; [done|]. by rewrite request_from_indexed_Ok.
Qed.

Section Finish.
Context (a : SendMax) (notes : ReceivedNotes) (counts : Z * Z * Z) (v : Z).
Let input := zsum (map note_value (notes_into_vec notes all_pools)).
Context (Hn : notes_ok notes) 
  (Hret : notes_into_vec notes (send_max_retention notes counts) = notes_into_vec notes all_pools)
 
  (Hz : is_zat input) (Hpos : 0 < v) (Hvz : is_zat v).

Lemma send_max_proposal_tex f0 f1 :
  can_receive_as (sm_recipient a) TransparentPool = true -> is_zat f0 -> is_zat f1 -> v = input - (f0 + f1) -> is_tex a ->
  let m := send_max_proposal a notes counts [] f0 (Some f1) v in
  errs_only send_error m /\ forall p, m = Ok p -> sends_all a notes p.
Proof using Hn Hpos Hret Hvz Hz PL SL ZL.
  intros Hrec Hf0 Hf1 Hv Htex m. subst m. unfold send_max_proposal. rewrite Hret.
  assert (is_zat (v + f1)) as Hz1 by (unfold is_zat in *; lia).
  rewrite (proj2 (zat_add_Some v f1 _ Hvz Hf1)) by done. cbn [expect panics mbind res_bind].
  rewrite (expect_balance_Ok (send_max_change _ _)); [|apply send_max_change_zat; by intros ? [= <-]|done|
    rewrite send_max_change_sum; cbn; unfold is_zat in *; lia].
  rewrite send_max_change_sum. cbn [from_option id]. red_run. unfold payment_new.
  destruct (payment_check _ _ _); [by split|]. red_run.
  destruct (single_payment_request_cases (MkPayment (sm_recipient a) (Some v))) as [[e ->]|[Hchk ->]]; [by split|].
  red_run. rewrite expect_balance_Ok; [|constructor|done|cbn; unfold is_zat, zsum in *; cbn; lia]. red_run.
  change (zsum (map cv_value [])) with 0.
  apply (send_tex a notes v f0 f1); first [done | unfold input in *; lia].
Qed.

Lemma send_max_proposal_direct pool f0 :
  delivered (sm_recipient a) pool ->
  (ironwood_active_at (sm_params a) (sm_target a) = true -> pool <> Shielded OrchardPool) ->
  is_zat f0 -> v = input - f0 -> ~ is_tex a ->
  let m := send_max_proposal a notes counts [(0, pool)] f0 None v in
  errs_only send_error m /\ forall p, m = Ok p -> sends_all a notes p.
Proof using Hn Hpos Hret Hvz Hz PL ZL.
  intros Hd Ha Hf0 Hv Htex m. subst m. unfold send_max_proposal. rewrite Hret. red_run.
  rewrite expect_balance_Ok; [|by apply send_max_change_zat|done|
    rewrite send_max_change_sum; cbn; unfold is_zat in *; lia].
  rewrite send_max_change_sum. red_run. unfold payment_new.
  destruct (payment_check _ _ _); [by split|]. red_run.
  destruct (single_payment_request_cases (MkPayment (sm_recipient a) (Some v))) as [[e ->]|[Hchk ->]]; [by split|].
  red_run. apply (send_direct a notes pool v f0); first [done | unfold input in *; lia].
Qed.
End Finish.

(** The recipient is paid in one pool, or by the second transaction. *)
Lemma payable_cases p target recipient addr f1 :
  let active := ironwood_active_at p target in
  let pools := send_max_pools recipient addr active in
  convert_if_network p recipient = Ok addr -> check_payable recipient addr pools = Ok () ->
  (is_Some f1 <-> match addr with RTex _ => True | _ => False end) ->
  (exists f : Z, f1 = Some f /\ pools = [] /\ can_receive_as recipient TransparentPool = true) \/
  (f1 = None /\ exists pool, pools = [(0, pool)] /\ delivered recipient pool /\
     (active = true -> pool <> Shielded OrchardPool)).
Proof using SL ML.
  intros active pools Ea Eu Htex.
  pose proof (send_max_pools_spec _ target _ _ Ea) as Hpools. fold active pools in Hpools.
  pose proof (receivers_receive _ _ _ Ea) as Hrec. unfold check_payable in Eu.
  destruct addr as [t|t| |x y z].
  2: { left. destruct (proj2 Htex I) as [f ->]. exists f. apply Forall_cons_1 in Hrec as [Hrec _]. auto. }
  all: right; split; [destruct f1; [destruct (proj1 Htex); by eexists|done]|].
  all: destruct Hpools as [?|[Hpl (? & ? & ? & Hu)]]; [done|]; [try done..].
  by rewrite Hpl in Eu.
Qed.

(** C10: Sending everything.  [propose_send_max] never panics, and never reports that the proposal
    it built is inconsistent.  A proposal that it returns spends every note that the wallet
    offered and nothing else, in valid steps, and what they are worth is the amount that the
    recipient receives and the fees: nothing is left over.  For a TEX address there are two
    steps, of which the second spends only the ephemeral output of the first and pays the
    recipient, and the first pays nothing else; for any other address there is one step, which
    pays the recipient in a pool in which it can receive. *)
Theorem propose_send_max_spends_all a :
  errs_only send_error (propose_send_max a) /\
  forall p, propose_send_max a = Ok p ->
  exists notes,
    select_spendable_notes (sm_account a) (AllFunds (sm_mode a)) (sm_pools a) (sm_target a)
      (sm_confirmations a) [] (Policy (sm_locked a)) = Ok notes /\
    sends_all a notes p.
Proof using ZL FL PL SL IL ML.
  unfold propose_send_max.
  destruct (select_spendable_notes _ _ _ _ _ _ _) as [notes|e] eqn:En; [|by split]. red_run.
  pose proof (offered_notes_ok _ _ _ _ _ _ _ _ En) as Hn.
  destruct (notes_total_value notes) as [total|e] eqn:Et; [|by split]. unfold balance_err. red_run.
  apply notes_total_sum in Et as [Hz Htot]; [|done].
  destruct (send_max_counts _ _ _ _) as [counts|e] eqn:Ec.
  2: { split; [by eapply send_max_counts_errors|done]. }
  red_run. pose proof (send_max_retains_all _ _ _ _ _ Ec) as Hret. destruct counts as [[s o] i].
  destruct (convert_if_network (sm_params a) (sm_recipient a)) as [addr|e] eqn:Ea; [|by split]. red_run.
  destruct (check_payable _ addr _) as [[]|e] eqn:Eu.
  2: { split; [|done]. by apply check_payable_errors in Eu as ->. }
  red_run. destruct (send_max_fees _ _ _ _ _ _ _ _) as [[f0 f1]|e] eqn:Ef; [|by split]. red_run.
  apply send_max_fees_zat in Ef as (Hf0 & Hf1 & Htex).
  destruct (zat_add f0 (default 0 f1)) as [fee|] eqn:Efee; [|by split]. red_run.
  assert (is_zat (default 0 f1)) as Hf1z by (destruct f1; [by apply Hf1|apply is_zat_0]).
  apply zat_add_Some in Efee as [-> Hfz]; [|done..].
  destruct (send_max_amount total _) as [v|e] eqn:Ev.
  2: { split; [|done]. by apply send_max_amount_errors in Ev as ->. }
  red_run. apply send_max_amount_Ok in Ev as (Hv & Hpos & Hvz); [|done..].
  enough (forall m, errs_only send_error m /\ (forall p, m = Ok p -> sends_all a notes p) ->
    errs_only send_error m /\ forall p, m = Ok p -> exists n, (Ok notes : res DbError _) = Ok n /\ sends_all a n p) as Hm.
  2: { intros m [He Hp]. split; [done|]. intros p Hp'. exists notes. auto. }
  subst total. apply Hm.
  assert (is_tex a <-> is_Some f1) as Hx.
  { rewrite Htex. unfold is_tex. rewrite Ea. destruct addr; (split; [by intros [? ?]|]); try done. intros _. by eexists. }
  destruct (payable_cases _ _ _ _ f1 Ea Eu Htex) as [(f & -> & -> & Hrec)|(-> & pool & -> & Hd & Ha)].
  - apply send_max_proposal_tex; auto. apply Hx. by eexists.
  - apply send_max_proposal_direct; auto; [cbn [from_option id] in Hv; lia|]. rewrite Hx. by intros [? ?].
Qed.
End Proofs.
