(* ===== verification/ShieldingTheorems.v ===== *)
(** * Shielding transparent funds: the theorems

    What [propose_shielding] and [propose_shielding_coinbase] return: which outputs they spend,
    where the value goes, and which errors they report. *)

From Stdlib Require Import Sorting.Sorted.
From stdpp Require Import sorting.
From S2P Require Import Prelude WireReader Zatoshi Fees ChangeBalance ChangeProofs.
From S2P Require Import UneconomicInputs ChangeStrategies Proposal ProposalProofs Locking InputSelection.
From S2P Require Import InputSelectionProofs SelectionLoop SelectionValid SelectionTheorems.
From S2P Require Import Shielding ShieldingProofs.

Section Proofs.
Context {ZP : ZcashProtocol} {ZO : ZatoshisOps} {FE : FeeEnv} {PE : ProposalEnv}
  {SE : SelectionEnv} {IS : InputSource}.
Context {ZL : ZatoshisLaws} {FL : FeeEnvLaws} {PL : ProposalEnvLaws} {SL : SelectionEnvLaws}
  {ML : SendLaws} {UL : ShieldingSourceLaws}.

(** ** The outputs that are gathered *)

#[local] Instance utxo_before_total : Total utxo_before.
Proof using UL.
  intros a b. unfold utxo_before.
  destruct (Z.lt_trichotomy (utxo_value a) (utxo_value b)) as [H|[H|H]]; [by right; left| |by left; left].
  destruct (outpoint_le_total (utxo_outpoint a) (utxo_outpoint b)); [left|right]; right; auto.
Qed.

Definition worth_no_less (a b : WalletUtxo) : Prop := utxo_value b <= utxo_value a.

Lemma sorted_by_value l : StronglySorted worth_no_less (merge_sort utxo_before l).
Proof using UL.
  apply Sorted_StronglySorted; [intros a b c; unfold worth_no_less; lia|].
  eapply Sorted_ind; [constructor| |apply (Sorted_merge_sort utxo_before l)].
  intros a l' _ IH Hr. constructor; [done|]. destruct Hr as [|b l' Hr]; constructor.
  unfold worth_no_less. destruct Hr as [|[? _]]; lia.
Qed.

Lemma strongly_sorted_app (l1 l2 : list WalletUtxo) a b :
  StronglySorted worth_no_less (l1 ++ l2) -> a ∈ l1 -> b ∈ l2 -> utxo_value b <= utxo_value a.
Proof.
  induction l1 as [|x l1 IH]; cbn; intros Hs Ha Hb; [by apply elem_of_nil in Ha|].
  apply StronglySorted_inv in Hs as [Hs Hx]. rewrite Forall_forall in Hx.
  apply elem_of_cons in Ha as [->|Ha]; [|auto]. apply (Hx b). apply elem_of_app. auto.
Qed.

(** A choice of at most [n] of the outputs: the most valuable ones, and no two addresses when
    one of them is ephemeral. *)
Record best_of (n : Z) (us chosen : list WalletUtxo) : Prop := {
  bo_split : exists rest, us ≡ₚ chosen ++ rest /\
    (forall a b, a ∈ chosen -> b ∈ rest -> utxo_value b <= utxo_value a) /\
    (rest <> [] -> length chosen = Z.to_nat n);
  bo_limit : (length chosen <= Z.to_nat n)%nat;
  bo_unlinked : forall a b, a ∈ chosen -> b ∈ chosen -> utxo_ephemeral_scope a = true ->
    utxo_address a = utxo_address b }.

Lemma short_remove_dups (l : list TAddr) a b :
  (length (remove_dups l) <= 1)%nat -> a ∈ l -> b ∈ l -> a = b.
Proof.
  rewrite <- !(elem_of_remove_dups l). destruct (remove_dups l) as [|x [|y l']]; cbn; [| |lia].
  - intros _ H. by apply elem_of_nil in H.
  - by intros _ ->%list_elem_of_singleton ->%list_elem_of_singleton.
Qed.

Lemma not_linked l a b : links_ephemeral l = false -> a ∈ l -> b ∈ l ->
  utxo_ephemeral_scope a = true -> utxo_address a = utxo_address b.
Proof.
  intros [H|H]%andb_false_iff Ha Hb He.
  - rewrite (proj2 (existsb_exists _ _)) in H; [done|]. exists a. by rewrite <- list_elem_of_In.
  - apply Z.ltb_ge in H. apply (short_remove_dups (map utxo_address l));
      [unfold zlen in H; lia|by apply (list_elem_of_fmap_2 utxo_address)..].
Qed.

Lemma gather_Ok addrs h c f n lf ts :
  gather_shielding_inputs addrs h c f n lf = Ok ts ->
  exists us chosen, get_spendable_transparent_outputs_for_addresses addrs h c f (Policy lf) = Ok us /\
    ts = map utxo_out chosen /\ best_of n us chosen /\ Forall is_zat (map txout_value ts) /\
    zlen ts <= offer_limit.
Proof using UL.
  unfold gather_shielding_inputs. intros H. bind_step H as us Hus.
  destruct (get_spendable_transparent_outputs_for_addresses _ _ _ _ _) as [us'|] eqn:Eu; [|done].
  injection Hus as ->. pose proof (offered_utxos_ok _ _ _ _ _ _ Eu) as Hz.
  set (sorted := merge_sort utxo_before us) in *.
  assert (sorted ≡ₚ us) as Hp by apply merge_sort_Permutation.
  destruct (links_ephemeral _) eqn:El; [done|]. injection H as <-.
  pose proof (offered_utxos_fit _ _ _ _ _ _ Eu) as Hfit. apply Permutation_length in Hp as Hlen.
  exists us, (take (Z.to_nat n) sorted). split_and!; [done|done| | |].
  - split.
    + exists (drop (Z.to_nat n) sorted). split_and!; [by rewrite take_drop| |].
      * intros a b. apply strongly_sorted_app. rewrite take_drop. apply sorted_by_value.
      * intros Hr. rewrite length_take.
        destruct (decide (length sorted <= Z.to_nat n)%nat); [|lia]. by rewrite drop_ge in Hr by done.
    + rewrite length_take. lia.
    + intros a b. by apply not_linked.
  - rewrite map_map. change (fun x => txout_value (utxo_out x)) with utxo_value.
    rewrite Forall_map, Forall_forall in *. intros u Hu. apply Hz. rewrite <- Hp.
    rewrite <- (take_drop (Z.to_nat n) sorted). apply elem_of_app. by left.
  - unfold zlen in *. rewrite length_map, length_take. lia.
Qed.

Lemma gather_shielding_errors addrs h c f n lf e :
  gather_shielding_inputs addrs h c f n lf = Err e ->
  e = ProposalFailed EphemeralAddressLinkability \/ exists d, e = DataSource d.
Proof.
  unfold gather_shielding_inputs. intros H. apply res_bind_Err in H as [H|(us & _ & H)].
  - destruct (get_spendable_transparent_outputs_for_addresses _ _ _ _ _); [done|]. injection H as <-. eauto.
  - destruct (links_ephemeral _); [|done]. injection H as <-. by left.
Qed.

Lemma zat_sublist {A} (f : A -> Z) l' l :
  sublist l' l -> Forall is_zat (map f l) -> Forall is_zat (map f l').
Proof.
  induction 1; cbn; [done|intros [??]%Forall_cons_1..]; [constructor; auto|auto].
Qed.

(** ** Shielding into the change of the wallet *)

Section Strategy.
Context {CS : ChangeStrategy} {meta_wf : AccountMetaT -> Prop} {CL : ChangeStrategyLaws meta_wf}.

Lemma shielding_request_ok p target anchor ts :
  Forall is_zat (map txout_value ts) -> request_ok (shielding_request p target anchor ts).
Proof.
  intros H. unfold request_ok, shielding_request. cbn. rewrite map_map.
  split_and!; [exact H|constructor..|done].
Qed.

(** The only step of a shielding transaction. *)
Definition shielding_parts (anchor : Z) (ts : list WalletTransparentOutput) (b : TransactionBalance MemoBytes)
    : StepParts := MkParts (MkTransactionRequest []) [] ts None (Some anchor) [] b true.

Lemma shielding_parts_ok anchor ts b :
  Forall is_zat (map txout_value ts) -> balance_ok b -> parts_ok (shielding_parts anchor ts b).
Proof.
  intros Ht Hb. split_and!; [split; [constructor|intros i q w Hq; by apply elem_of_nil in Hq]|constructor|done|constructor|done].
Qed.

Lemma shielding_balance_spec p target anchor ts meta b :
  Forall is_zat (map txout_value ts) -> meta_wf meta ->
  compute_shielding_balance p target anchor ts meta = Ok b ->
  zsum (map txout_value ts) = total b /\ balance_ok b /\
  (0 < total b -> step_valid [] (shielding_parts anchor ts b) (ironwood_active_at p target)).
Proof using CL ZL.
  intros Ht Hm Hb. pose proof (shielding_request_ok p target anchor ts Ht) as Hr.
  destruct (strategy_conserves _ _ _ _ Hr Hm Hb) as (Heq & Hz & Hbok).
  unfold inputs_total, payments_total, shielding_request, zsum in Heq. cbn in Heq. rewrite map_map in Heq.
  change (fun x => ti_value (t_view x)) with txout_value in Heq. change (foldr Z.add 0) with zsum in Heq.
  assert (zsum (map txout_value ts) = total b) as Hsum by lia.
  split_and!; [done|done|]. intros Hpos.
  split; cbn [shielding_parts p_request p_pools p_transparent p_shielded p_anchor p_prior p_balance p_shielding].
  - done.
  - constructor.
  - exists []. split; [constructor|]. unfold request_sum, zsum at 2 3 4. cbn. lia.
  - unfold request_sum. cbn. apply Hbok.
  - intros _. unfold request_sum. cbn. lia.
  - intros Hact. split; [intros e He; by apply elem_of_nil in He|]. left. cbn [shielding_parts p_balance].
    set (oc := filter _ _). destruct oc as [|c l] eqn:Eo; [done|]. exfalso.
    assert (c ∈ oc) as [Hc Hin]%list_elem_of_filter by (rewrite Eo; left).
    pose proof (strategy_turnstile p _ meta b c Hr Hm Hact Hb Hin Hc) as Hlt.
    change (zsum (map oi_value _)) with 0 in Hlt.
    assert (0 <= zsum (map cv_value (filter (fun c => output_pool c = Shielded OrchardPool) (proposed_change b)))); [|lia].
    apply zsum_nonneg. eapply zat_sublist; [apply sublist_filter|apply Hbok].
  - by eexists.
Qed.

Lemma shielding_request_fits p target anchor ts :
  zlen ts <= offer_limit -> request_fits (shielding_request p target anchor ts).
Proof using ZL.
  intros H. pose proof offer_limit_bounds. unfold request_fits, shielding_request, zlen in *. cbn.
  rewrite length_map. lia.
Qed.

Lemma dust_retry_no_panic p target anchor ts meta :
  Forall is_zat (map txout_value ts) -> zlen ts <= offer_limit -> meta_wf meta ->
  errs_only (fun e => exists c, e = Change c) (compute_shielding_balance_with_dust_retry p target anchor ts meta).
Proof using CL ZL.
  intros Ht Hl Hm. unfold compute_shielding_balance_with_dust_retry, compute_shielding_balance.
  pose proof (strategy_errors p _ meta (shielding_request_ok p target anchor ts Ht)
    (shielding_request_fits p target anchor ts Hl) Hm) as He.
  destruct (compute_balance _ _ _) as [b|[[]|pn]]; cbn; try done; try (by eexists).
  set (ts' := filter _ ts).
  assert (Forall is_zat (map txout_value ts')) as Ht'.
  { eapply zat_sublist; [apply sublist_filter|done]. }
  assert (zlen ts' <= offer_limit) as Hl'.
  { etrans; [|exact Hl]. apply inj_le, length_filter. }
  pose proof (strategy_errors p _ meta (shielding_request_ok p target anchor ts' Ht')
    (shielding_request_fits p target anchor ts' Hl') Hm) as He'.
  destruct (compute_balance _ (shielding_request p target anchor ts') _) as [b|[e|pn]]; cbn; [done|by eexists|done].
Qed.

(** The identifier under which a strategy sees an output. *)
Definition outpoint_id (u : WalletTransparentOutput) : OutPoint := outpoint_of (outpoint_hash u) (outpoint_n u).

(** What is spent of the outputs that were gathered: all of them when the strategy can balance
    the transaction, and otherwise all but those that it names as dust. *)
Inductive shielding_inputs (p : Params) (target anchor : Z) (meta : AccountMetaT)
    (gathered : list WalletTransparentOutput)
    : list WalletTransparentOutput -> TransactionBalance MemoBytes -> Prop :=
| SpendAll b :
    compute_shielding_balance p target anchor gathered meta = Ok b ->
    shielding_inputs p target anchor meta gathered gathered b
| SpendNoDust dust s o i b :
    compute_shielding_balance p target anchor gathered meta = Err (Failed (DustInputs dust s o i)) ->
    let kept := filter (fun u => outpoint_id u ∉ dust) gathered in
    compute_shielding_balance p target anchor kept meta = Ok b ->
    shielding_inputs p target anchor meta gathered kept b.

Lemma dust_retry_Ok p target anchor ts meta b ts' :
  compute_shielding_balance_with_dust_retry p target anchor ts meta = Ok (b, ts') ->
  shielding_inputs p target anchor meta ts ts' b.
Proof.
  unfold compute_shielding_balance_with_dust_retry. intros H.
  destruct (compute_shielding_balance p target anchor ts meta) as [b'|[[]|pn]] eqn:E; try done.
  - injection H as <- <-. by constructor.
  - bind_step H as b' Hb. injection H as <- <-. eapply SpendNoDust; [exact E|].
    unfold map_fault in Hb. unfold outpoint_id. repeat case_match; by simplify_eq.
Qed.

Lemma shielding_inputs_spec p target anchor meta ts ts' b :
  shielding_inputs p target anchor meta ts ts' b ->
  sublist ts' ts /\ compute_shielding_balance p target anchor ts' meta = Ok b.
Proof. intros [|dust s o i b' _ kept Hb]; split; [done|done|apply sublist_filter|done]. Qed.

(** What is worth more than any dust is spent. *)
Lemma shielding_keeps_value limit p target anchor meta ts ts' b :
  dust_at_most meta_wf limit -> Forall is_zat (map txout_value ts) -> zlen ts <= offer_limit -> meta_wf meta ->
  shielding_inputs p target anchor meta ts ts' b ->
  forall u, u ∈ ts -> u ∈ ts' \/ exists v, v ∈ ts /\ outpoint_id v = outpoint_id u /\ txout_value v <= limit.
Proof using ZL.
  intros Hd Ht Hl Hm Hs u Hu. destruct Hs as [|dust s o i b' Hb kept _]; [by left|].
  destruct (decide (outpoint_id u ∈ dust)) as [Hin|Hin].
  - right. destruct (Hd p _ meta _ _ _ _ (shielding_request_ok p target anchor ts Ht)
      (shielding_request_fits p target anchor ts Hl) Hm Hb _ Hin) as (x & Hx & Hv & Hk).
    cbn in Hx. apply list_elem_of_fmap_1 in Hx as (v & -> & Hv'). by exists v.
  - left. by apply list_elem_of_filter.
Qed.

(** The errors of a proposal that was checked: those of the parts that are not the proposal's
    own consistency. *)
Definition shielding_error (e : InputSelectorError) : Prop :=
  match e with
  | ProposalFailed EphemeralAddressLinkability | ProposalFailed (ShieldedBudget _) => True
  | ProposalFailed _ => False
  | _ => True
  end.

(** C11: Shielding.  For a positive threshold, [propose_shielding] never panics and never reports
    that the proposal it built is inconsistent.  A proposal that it returns has one step, a valid
    shielding step.  The outputs gathered for it are the most valuable ones that the wallet
    offered, as many as fit, from one address only if one of them is ephemeral.  The step spends
    all of them when the change strategy can balance that, and otherwise exactly those that the
    strategy does not name as dust: so if the strategy names only outputs worth at most [limit],
    every gathered output is spent whose outpoint is not that of one worth at most [limit].
    Everything the inputs are worth, at least the threshold, is change of the wallet and the
    fee. *)
Theorem propose_shielding_shields sel p threshold addrs account target anchor conf output_filter :
  0 < threshold ->
  let m := propose_shielding sel p threshold addrs account target anchor conf output_filter in
  errs_only shielding_error m /\
  forall proposal, m = Ok proposal ->
  exists us chosen meta ts b,
    get_spendable_transparent_outputs_for_addresses addrs target conf output_filter (Policy (gs_locked sel)) = Ok us /\
    best_of (shielding_max_inputs (shielding_block_space_percent sel)) us chosen /\
    fetch_wallet_meta account target [] = Ok meta /\
    shielding_inputs p target anchor meta (map utxo_out chosen) ts b /\
    (forall limit, dust_at_most meta_wf limit ->
     forall u, u ∈ map utxo_out chosen -> u ∈ ts \/
     exists v, v ∈ map utxo_out chosen /\ outpoint_id v = outpoint_id u /\ txout_value v <= limit) /\
    steps proposal = [step_of (shielding_parts anchor ts b)] /\
    step_valid [] (shielding_parts anchor ts b) (ironwood_active_at p target) /\
    threshold <= zsum (map txout_value ts) /\
    zsum (map txout_value ts) = zsum (map cv_value (proposed_change b)) + fee_required_of b.
Proof using CL ZL PL UL.
  intros Hthr m. subst m. unfold propose_shielding.
  destruct (gather_shielding_inputs _ _ _ _ _ _) as [ts0|e] eqn:Eg.
  2: { split; [|done]. by apply gather_shielding_errors in Eg as [->|[d ->]]. }
  red_run. apply gather_Ok in Eg as (us & chosen & Hus & -> & Hbest & Hz0 & Hl0).
  destruct (fetch_wallet_meta _ _ _) as [meta|e] eqn:Hmeta; [|by split]. red_run.
  apply strategy_meta in Hmeta as Em.
  pose proof (dust_retry_no_panic p target anchor _ meta Hz0 Hl0 Em) as He.
  destruct (compute_shielding_balance_with_dust_retry _ _ _ _ _) as [[b ts]|[e|pn]] eqn:Ed;
    cbn [mbind res_bind]; [| |done].
  2: { split; [|done]. by destruct He as [c ->]. }
  apply dust_retry_Ok in Ed. destruct (shielding_inputs_spec _ _ _ _ _ _ _ Ed) as [Hsub Hb].
  assert (Forall is_zat (map txout_value ts)) as Hz.
  { by eapply zat_sublist. }
  destruct (shielding_balance_spec _ _ _ _ _ _ Hz Em Hb) as (Hsum & Hbok & Hvalid).
  destruct (Z.leb_spec threshold (total b)) as [Hle|]; [|by split]. specialize (Hvalid ltac:(lia)).
  pose proof (from_parts_complete [] _ _ (shielding_parts_ok anchor ts b Hz Hbok) (Forall_nil_2 _) Hvalid) as Hfp.
  unfold step_from_parts in Hfp. cbn [shielding_parts p_request p_pools p_transparent p_shielded p_anchor
    p_prior p_balance p_shielding] in Hfp.
  unfold single_step. rewrite Hfp. cbn [mbind res_bind]. set (prop := Ok _).
  unfold within_budget. subst prop. cbn [mbind res_bind].
  destruct (validate_shielded_budget _ _) as [[]|e] eqn:E; cbn.
  - split; [done|]. intros proposal [= <-]. exists us, chosen, meta, ts, b.
    split_and!; [done..| |done|done|lia|rewrite Hsum; apply Hbok].
    intros limit Hd. by eapply shielding_keeps_value.
  - split; [|done]. by apply check_budget_errors in E as [r ->].
Qed.
End Strategy.

(** ** Shielding coinbase outputs to an address *)

(** The destination receives in a shielded pool, never Orchard once Ironwood is active. *)
Lemma resolve_shielded_destination_Ok addr p target pool :
  resolve_shielded_destination addr p target = Ok pool ->
  exists sp, pool = Shielded sp /\ delivered addr pool /\
    (ironwood_active_at p target = true -> sp <> OrchardPool).
Proof using SL.
  unfold resolve_shielded_destination. intros H. bind_step H as r Hr. unwrap_ok Hr.
  apply receivers_receive in Hr. rewrite Forall_forall in Hr. unfold delivered.
  destruct r as [t|t| |o s t]; [done|done| |].
  - injection H as <-. exists SaplingPool. split_and!; [done| |done]. left. apply Hr. left.
  - destruct o.
    + assert (can_receive_as addr (Shielded OrchardPool) = true) as Ho by (apply Hr; left).
      injection H as <-. eexists. split; [done|]. destruct (ironwood_active_at p target); auto.
    + destruct s; [|done]. injection H as <-. exists SaplingPool. split_and!; [done| |done]. left. apply Hr. left.
Qed.

Definition coinbase_error (e : InputSelectorError) : Prop :=
  match e with
  | ProposalFailed (Zip321 _) | ProposalFailed ShieldingRequiresShieldedRecipient => True
  | _ => shielding_error e
  end.

Lemma resolve_errors addr p target e :
  resolve_shielded_destination addr p target = Err e -> coinbase_error e.
Proof.
  unfold resolve_shielded_destination. destruct (convert_if_network p addr) as [[]|]; cbn; intros H;
    repeat case_match; by simplify_eq.
Qed.

Lemma destination_counts_Ok p target sp :
  exists counts, destination_counts p target (Shielded sp) = Ok counts.
Proof using ML.
  destruct sp; cbn [destination_counts].
  - destruct one_sapling_output as [n ->]. by eexists.
  - destruct (one_orchard_output (orchard_bundle_version_for_height p target)) as [n ->]. by eexists.
  - destruct (one_orchard_output (ironwood_bundle_version_for_height p target)) as [n ->]. by eexists.
Qed.

(** The only step: one payment of what is left after the fee, and no change. *)
Definition coinbase_parts (to_address : Address) (pool : PoolType) (anchor : Z)
    (ts : list WalletTransparentOutput) (v fee : Z) : StepParts :=
  MkParts (MkTransactionRequest [(0, MkPayment to_address (Some v))]) [(0, pool)] ts None (Some anchor) []
    (MkTransactionBalance [] fee fee None) false.

Lemma coinbase_parts_valid to_address sp anchor ts v fee active :
  Forall is_zat (map txout_value ts) -> is_zat v -> is_zat fee -> is_zat (zsum (map txout_value ts)) ->
  zsum (map txout_value ts) = v + fee -> delivered to_address (Shielded sp) ->
  (active = true -> sp <> OrchardPool) ->
  let a := coinbase_parts to_address (Shielded sp) anchor ts v fee in
  parts_ok a /\ step_valid [] a active.
Proof using ZL.
  intros Ht Hv Hf Hz Heq Hd Ha a. split.
  - split_and!; [by apply one_amounts_ok|repeat constructor|done|constructor|].
    cbn. split_and!; [constructor|done|done|unfold zsum; cbn; lia].
  - split; cbn [a coinbase_parts p_request p_pools p_transparent p_shielded p_anchor p_prior p_balance p_shielding].
    + done.
    + repeat constructor. exists (MkPayment to_address (Some v)). split_and!; [done|by eexists|exact Hd].
    + exists []. split; [constructor|]. unfold request_sum, zsum in *. cbn. lia.
    + unfold request_sum, zsum in *. cbn. unfold is_zat in *. lia.
    + done.
    + intros Hact. split; [|by left]. cbn. intros e ->%list_elem_of_singleton. intros [= ->]. by apply Ha.
    + by eexists.
Qed.

(** Shielding coinbase outputs.  [propose_shielding_coinbase] never panics and never reports
    that the proposal it built is inconsistent.  A proposal that it returns has one valid step
    that spends the most valuable coinbase outputs offered, no more than fit and than the
    caller's limit, pays to the address, in a shielded pool in which it receives, all that
    they are worth less the fee, at least the threshold, and leaves no change. *)
Theorem propose_shielding_coinbase_pays sel p rule threshold addrs to_address memo limit target anchor :
  let m := propose_shielding_coinbase sel p rule threshold addrs to_address memo limit target anchor in
  errs_only coinbase_error m /\
  forall proposal, m = Ok proposal ->
  exists us chosen sp v fee,
    get_spendable_transparent_outputs_for_addresses addrs target CONFIRMATIONS_MIN CoinbaseOnly
      (Policy (gs_locked sel)) = Ok us /\
    best_of (Z.min (default usize_max limit) (shielding_max_inputs (shielding_block_space_percent sel))) us chosen /\
    let a := coinbase_parts to_address (Shielded sp) anchor (map utxo_out chosen) v fee in
    steps proposal = [step_of a] /\ step_valid [] a (ironwood_active_at p target) /\
    delivered to_address (Shielded sp) /\ threshold <= v /\
    v + fee = zsum (map utxo_value chosen).
Proof using FL ML PL SL UL ZL.
  intros m. subst m. unfold propose_shielding_coinbase.
  destruct (gather_shielding_inputs _ _ _ _ _ _) as [ts|e] eqn:Eg.
  2: { split; [|done]. by apply gather_shielding_errors in Eg as [->|[d ->]]. }
  red_run. apply gather_Ok in Eg as (us & chosen & Hus & -> & Hbest & Hz & _).
  set (ts := map utxo_out chosen) in *.
  destruct (resolve_shielded_destination _ _ _) as [pool|e] eqn:Er.
  2: { split; [|done]. by apply resolve_errors in Er. }
  red_run. apply resolve_shielded_destination_Ok in Er as (sp & -> & Hd & Ha).
  destruct (destination_counts_Ok p target sp) as [[[s o] i] ->]. cbn [mbind res_bind].
  destruct (fee_required _ _ _ _ _ _ _ _ _) as [fee|e] eqn:Ef; [|by split]. red_run.
  apply fee_required_zat in Ef.
  destruct (checked_total _) as [tot|] eqn:Et; [|by split]. red_run.
  apply checked_total_Some in Et as [-> Htot]; [|done].
  destruct (zat_sub _ fee) as [v|] eqn:Ev; [|by split]. red_run.
  apply zat_sub_Some in Ev as [Hv Hvz]; [|done..].
  destruct (Z.ltb_spec v threshold) as [|Hle]; [by split|].
  unfold payment_new. destruct (payment_check _ _ _); [by split|]. red_run.
  destruct (single_payment_request_cases (MkPayment to_address (Some v))) as [[e ->]|[_ ->]]; [by split|].
  red_run.
  rewrite balance_new_Ok; [|constructor|done|by rewrite Z.add_0_l].
  red_run. change (zsum (map cv_value []) + fee) with (0 + fee). rewrite Z.add_0_l.
  destruct (coinbase_parts_valid to_address sp anchor ts v fee (ironwood_active_at p target))
    as [Hok Hvalid]; [done|done|done|done|lia|done|done|].
  pose proof (from_parts_complete [] _ _ Hok (Forall_nil_2 _) Hvalid) as Hfp.
  unfold step_from_parts in Hfp. cbn [coinbase_parts p_request p_pools p_transparent p_shielded p_anchor
    p_prior p_balance p_shielding] in Hfp.
  unfold single_step. rewrite Hfp. cbn [mbind res_bind].
  unfold within_budget. cbn [mbind res_bind].
  destruct (validate_shielded_budget _ _) as [[]|e] eqn:E; cbn.
  - split; [done|]. intros proposal [= <-]. exists us, chosen, sp, v, fee.
    split_and!; [done|done|done|done|done|done|].
    subst ts. rewrite map_map in Hv. change (fun x => txout_value (utxo_out x)) with utxo_value in Hv. lia.
  - split; [|done]. by apply check_budget_errors in E as [r ->].
Qed.
End Proofs.
