(* ===== verification/SelectionSample.v ===== *)
(** * A sample wallet

    A wallet with a locked note, the ZIP 317 strategy with a single change output, and requests
    to shielded and to TEX addresses, on which the theorems about the selector are evaluated. *)

From Stdlib Require Import Sorting.Sorted.
From S2P Require Import Prelude WireReader Zatoshi Fees ChangeBalance ChangeProofs.
From S2P Require Import ChangeTheorems FeeCoverage UneconomicInputs ChangeStrategies FeeSample Proposal.
From S2P Require Import ProposalProofs FeeProposal Locking ProposalSample InputSelection.
From S2P Require Import InputSelectionProofs SelectionLoop SelectionValid SelectionTheorems.
From S2P Require Import SelectionStrategies Shielding ShieldingProofs ShieldingTheorems.

(** ** Addresses and requests *)

(** An address is the list of its receivers; a TEX address is written with two of them. There
    are no Ironwood receivers. *)
Definition sample_unified (a : list PoolType) : ResolvedAddress Z :=
  RUnified (bool_decide (Shielded OrchardPool ∈ a)) (bool_decide (Shielded SaplingPool ∈ a))
    (if bool_decide (TransparentPool ∈ a) then Some 1 else None).

Definition sample_resolve (a : list PoolType) : ResolvedAddress Z :=
  match a with
  | [TransparentPool] => RTransparent 1
  | [TransparentPool; TransparentPool] => RTex 1
  | [Shielded SaplingPool] => RSapling
  | _ => sample_unified a
  end.

#[global] Instance sample_selection_env : SelectionEnv := {|
  TAddr := Z;
  TAddr_eq_dec := _; OutPoint_eq_dec := Z.eq_dec; MemoBytes_eq_dec := Z.eq_dec;
  ConversionError := unit;
  convert_if_network _ a := if bool_decide (Shielded IronwoodPool ∈ a) then Err () else Ok (sample_resolve a);
  txout_size _ := 34;
  payment_check _ v _ := if bool_decide (v = Some 0) then Some () else None;
  request_check l :=
    if existsb (fun e => bool_decide (snd (snd e) = Some 0)) l || (10000 <? zlen l) then Some () else None;
  valid_in_branch _ _ := true;
  has_sapling _ := true; has_orchard _ := true; has_ironwood v := 5 <? v;
  orchard_version_for_branch _ := None; ironwood_version_for_branch _ := None;
  orchard_insecure_v1 := true;
  ORCHARD_DEFAULT := MkBundlePadding false (Some 2);
  MAX_BLOCK_BYTES := 2000000; P2PKH_STANDARD_INPUT_SIZE := 150;
  known_size n := n;
  outpoint_of _ n := n;
  outpoint_le a b := snd a <=? snd b |}.

Lemma zero_free l :
  request_check l = None <-> Forall (fun e => snd (snd e) <> Some 0) l /\ zlen l <= 10000.
Proof.
  rewrite Forall_forall. cbn [request_check sample_selection_env].
  match goal with |- context [existsb ?f l] => destruct (existsb f l) eqn:E end; cbn [orb].
  - split; [done|]. intros [H _]. apply existsb_exists in E as (e & He & Hz).
    apply list_elem_of_In in He. apply bool_decide_eq_true in Hz. by destruct (H e He).
  - destruct (Z.ltb_spec 10000 (zlen l)); (split; [|done || lia]); [done|]. intros _. split; [|done].
    intros e He Hz. apply not_true_iff_false in E. apply E, existsb_exists.
    exists e. split; [by apply list_elem_of_In|]. by apply bool_decide_eq_true.
Qed.

Lemma zero_free_sub l l' :
  (forall e, e ∈ l' -> exists e', e' ∈ l /\ snd (snd e) = snd (snd e')) -> zlen l' <= zlen l ->
  request_check l = None -> request_check l' = None.
Proof.
  rewrite !zero_free, !Forall_forall. intros Hsub Hle [H Hl]. split; [|lia].
  intros e He. destruct (Hsub e He) as (e' & Hin & ->). by apply H.
Qed.

Lemma in_indexed (m : btree Payment) e :
  e ∈ indexed_payments m <-> exists i p, (i, p) ∈ m /\ e = (i, (recipient_address p, amount p)).
Proof.
  unfold indexed_payments. split.
  - intros ([i p] & -> & Hp)%list_elem_of_fmap_1. by exists i, p.
  - intros (i & p & Hp & ->). by apply (list_elem_of_fmap_2 (fun e => (fst e, (recipient_address (snd e), amount (snd e)))) m (i, p)).
Qed.

#[global] Instance sample_selection_laws : SelectionEnvLaws.
Proof.
  split.
  - intros m m' Hs. apply sublist_length in Hs as Hlen. apply zero_free_sub.
    2: { unfold zlen, indexed_payments. rewrite !length_map. lia. }
    intros e He. exists e. split; [|done].
    apply in_indexed in He as (i & p & Hp & ->). apply in_indexed. exists i, p. split; [|done].
    by eapply elem_of_sublist.
  - intros m m' Hs. apply sublist_length in Hs as Hlen. apply zero_free_sub.
    2: { unfold zlen, indexed_payments, by_position. rewrite !length_map, length_zip_with, length_map, length_seq,
           length_map. lia. }
    intros e He. apply in_indexed in He as (i & p & Hp & ->). apply elem_of_zip_r, list_elem_of_fmap_1 in Hp as ([j q] & -> & Hq).
    eexists. split; [apply in_indexed; exists j, q; split; [by eapply elem_of_sublist|done]|done].
  - intros m i p H Hp. rewrite zero_free, Forall_forall in H. destruct H as [H _]. cbn.
    specialize (H (i, (recipient_address p, amount p))). cbn in H. case_bool_decide as Hz; [|done].
    destruct H; [apply in_indexed; by exists i, p|done].
  - intros m _ [_ H]%zero_free. unfold zlen, indexed_payments in *. by rewrite length_map in H.
  - intros p a r Hr. cbn in Hr. case_bool_decide as Hi; [done|]. clear Hi. injection Hr as <-. cbn.
    assert (forall pool, Forall (fun q => bool_decide (q ∈ a) = true) (if bool_decide (pool ∈ a) then [pool] else []))
      as H.
    { intros pool. case_bool_decide; [|constructor]. apply Forall_singleton. by apply bool_decide_eq_true. }
    assert (Forall (fun q => bool_decide (q ∈ a) = true) (receivers (sample_unified a))) as Hu.
    { unfold sample_unified. cbn [receivers]. apply Forall_app_2; [apply H|]. apply Forall_app_2; [apply H|].
      case_bool_decide; [|constructor]. apply Forall_cons. split; [by apply bool_decide_eq_true|constructor]. }
    unfold sample_resolve. clear H.
    destruct a as [|[|[]] [|[|] [|]]]; first [exact Hu|apply Forall_cons; split; [done|constructor]].
Qed.

(** ** The wallet *)

(** The notes of the wallet, with their rows in the lock store; the second Orchard note is
    locked until height 5000. *)
Definition open_row : out_row := MkOutRow 0 None None.
Definition held_row : out_row := MkOutRow 0 (Some 5000) None.

Definition sample_notes : list (ShieldedPool * SpendableNote * out_row) :=
  [(SaplingPool, MkSpendableNote 1 [Byte.x01] 0 60000 false, open_row);
   (OrchardPool, MkSpendableNote 2 [Byte.x02] 0 30000 false, open_row);
   (OrchardPool, MkSpendableNote 3 [Byte.x03] 0 900000 false, held_row);
   (OrchardPool, MkSpendableNote 4 [Byte.x04] 0 200000 false, open_row)].

Definition sample_eligible (sources : list ShieldedPool) (target : Z) (exclude : list Z) (f : LockFilter)
    (e : ShieldedPool * SpendableNote * out_row) : bool :=
  bool_decide (fst (fst e) ∈ sources) && negb (bool_decide (sn_id (snd (fst e)) ∈ exclude))
  && output_eligible f target (snd e).

(** The transparent outputs: two of one address, one of another, and one of an ephemeral
    address. *)
Definition sample_utxo (n v a : Z) (e : bool) : WalletUtxo :=
  {| utxo_out := {| outpoint_hash := [Byte.x07]; outpoint_n := n; txout_value := v; t_input_size := 150 |};
     utxo_address := a; utxo_ephemeral_scope := e |}.

Definition sample_utxos : list WalletUtxo :=
  [sample_utxo 0 40000 1 false; sample_utxo 1 70000 1 false; sample_utxo 2 90000 2 false;
   sample_utxo 3 80000 3 true; sample_utxo 4 90000 4 false; sample_utxo 5 4000 4 false].

Definition sample_offered (addrs : list Z) : list WalletUtxo :=
  List.filter (fun u => bool_decide (utxo_address u ∈ addrs)) sample_utxos.

(** As many of the eligible notes as are needed for the amount. *)
Fixpoint sample_cover (v : Z) (l : list (ShieldedPool * SpendableNote * out_row)) :=
  match l with
  | [] => []
  | e :: l => if v <=? 0 then [] else e :: sample_cover (v - sn_value (snd (fst e))) l
  end.

Definition in_pool (p : ShieldedPool) (l : list (ShieldedPool * SpendableNote * out_row)) : list SpendableNote :=
  map (fun e => snd (fst e)) (List.filter (fun e => bool_decide (fst (fst e) = p)) l).

Definition sample_select (v : TargetValue) (sources : list ShieldedPool) (target : Z) (exclude : list Z)
    (f : LockFilter) : ReceivedNotes :=
  let l := List.filter (sample_eligible sources target exclude f) sample_notes in
  let l := match v with AtLeast v => sample_cover v l | AllFunds _ => l end in
  MkReceivedNotes (in_pool SaplingPool l) (in_pool OrchardPool l) (in_pool IronwoodPool l).

#[global] Instance sample_input_source : InputSource := {|
  DbError := unit; AccountId := unit; ConfirmationsPolicy := Z; CONFIRMATIONS_MIN := 1;
  pool_migration_params _ := ();
  select_spendable_notes _ v sources target _ exclude f := Ok (sample_select v sources target exclude f);
  select_spendable_notes_for_consolidation _ v source target _ exclude f _ :=
    Ok (sample_select (AtLeast v) [source] target exclude f, notes_empty);
  select_spendable_transparent_outputs _ _ _ _ _ _ _ _ := Ok [];
  get_spendable_transparent_outputs_for_addresses addrs _ _ _ _ := Ok (sample_offered addrs) |}.

Lemma sample_cover_sub v l : sample_cover v l ⊆ l.
Proof.
  revert v. induction l as [|e l IH]; intros v; cbn; [done|].
  destruct (v <=? 0); [intros x Hx; by apply elem_of_nil in Hx|]. intros x Hx.
  apply elem_of_cons in Hx as [->|Hx]; [left|right; by apply IH in Hx].
Qed.

(** What the query returns. *)
Lemma sample_select_in v sources target exclude f p note :
  note ∈ notes_in (sample_select v sources target exclude f) p ->
  exists row, (p, note, row) ∈ sample_notes /\ p ∈ sources /\ output_eligible f target row = true.
Proof.
  set (l := List.filter (sample_eligible sources target exclude f) sample_notes).
  set (k := match v with AtLeast v => sample_cover v l | AllFunds _ => l end).
  assert (k ⊆ l) as Hk by (subst k; destruct v; [apply sample_cover_sub|done]).
  intros Hn. assert (note ∈ in_pool p k) as Hin by (by destruct p).
  apply list_elem_of_fmap_1 in Hin as ([[q n] row] & -> & Hin).
  apply list_elem_of_In, filter_In in Hin as [Hin Hq]. apply list_elem_of_In, Hk in Hin.
  apply bool_decide_eq_true in Hq. cbn in Hq. subst q. unfold l in Hin.
  apply list_elem_of_In, filter_In in Hin as [Hin He]. apply list_elem_of_In in Hin.
  exists row. unfold sample_eligible in He. apply andb_true_iff in He as [He Hrow].
  apply andb_true_iff in He as [Hs _]. apply bool_decide_eq_true in Hs. done.
Qed.

Lemma sample_select_ok v sources target exclude f : notes_ok (sample_select v sources target exclude f).
Proof.
  assert (forall p, values_ok (notes_in (sample_select v sources target exclude f) p)) as H.
  { intros p. apply Forall_map, Forall_forall. intros note (row & Hin & _)%sample_select_in.
    unfold sample_notes in Hin.
    repeat (apply elem_of_cons in Hin as [[= -> -> ->]|Hin]; [unfold is_zat; cbn; unfold sample_max_money; lia|]).
    by apply elem_of_nil in Hin. }
  split_and!; [apply (H SaplingPool)|apply (H OrchardPool)|apply (H IronwoodPool)].
Qed.

Lemma sample_cover_length v l : (length (sample_cover v l) <= length l)%nat.
Proof. revert v. induction l as [|e l IH]; intros v; cbn; [done|]. destruct (v <=? 0); cbn; [|specialize (IH (v - sn_value (snd (fst e))))]; lia. Qed.

Lemma sample_select_fit v sources target exclude f : notes_fit (sample_select v sources target exclude f).
Proof.
  assert (forall p k, (length (in_pool p k) <= length k)%nat) as Hp.
  { intros p k. unfold in_pool. rewrite length_map. apply filter_length_le. }
  assert (4 <= offer_limit) by (vm_compute; discriminate).
  assert (forall g : ShieldedPool * SpendableNote * out_row -> bool, (length (List.filter g sample_notes) <= 4)%nat) as H4.
  { intros g. change 4%nat with (length sample_notes). apply filter_length_le. }
  intros p. unfold sample_select, zlen. set (k := match v with AtLeast v => _ | AllFunds _ => _ end).
  assert (length k <= 4)%nat as Hk.
  { subst k. destruct v; [etrans; [apply sample_cover_length|]|]; apply H4. }
  destruct p; cbn [notes_in rn_sapling rn_orchard rn_ironwood].
  - pose proof (Hp SaplingPool k). lia.
  - pose proof (Hp OrchardPool k). lia.
  - pose proof (Hp IronwoodPool k). lia.
Qed.

#[global] Instance sample_source_laws : InputSourceLaws.
Proof.
  split.
  - intros a t s h c x f n [= <-]. apply sample_select_ok.
  - intros a t s h c x f k n n' [= <- <-]. split; [apply sample_select_ok|]. split_and!; constructor.
  - intros a t s h c x f k n n' p [= <- <-] Hne.
    destruct (notes_in (sample_select (AtLeast t) [s] h x f) p) as [|note l] eqn:E; [done|].
    destruct (sample_select_in (AtLeast t) [s] h x f p note) as (row & _ & Hs & _); [rewrite E; left|].
    by apply list_elem_of_singleton in Hs.
  - intros a h c f l t k lf ts [= <-]. constructor.
  - intros a t s h c x f n [= <-]. apply sample_select_fit.
  - intros a t s h c x f k n n' [= <- <-]. split; [apply sample_select_fit|apply empty_fit].
  - intros a h c f l t k lf ts [= <-]. vm_compute. discriminate.
Qed.

#[global] Instance sample_zip317_rule : Zip317FeeRule (FE := sample_fee_env) := {|
  rule_marginal_fee _ := 5000; rule_grace_actions _ := 2 |}.

Definition sample_single : SingleOutputChangeStrategy (FE := sample_fee_env) :=
  single_output_new (() : FeeRuleT (FeeEnv := sample_fee_env)) None OrchardPool dust_output_policy_default.

#[global] Instance sample_strategy : ChangeStrategy := zip317_single_strategy sample_single.

#[global] Instance sample_strategy_laws : ChangeStrategyLaws (CS := sample_strategy) (fun _ => True).
Proof.
  apply zip317_single_laws; [|done]. unfold is_zat. cbn. unfold sample_max_money. lia.
Qed.

(** ** The calls *)

Definition pay (a : list PoolType) (v : Z) : Payment (FE := sample_fee_env) (PE := sample_proposal_env) :=
  MkPayment a (Some v).

Definition sample_cx (req : list (Payment (FE := sample_fee_env))) : SelectionContext := {|
  cx_params := (); cx_target := 500; cx_anchor := 480; cx_confirmations := 3; cx_account := ();
  cx_request := MkTransactionRequest (by_position req); cx_policy := spend_policy_default;
  cx_selector := greedy_new |}.

(** One shielded payment. *)
Definition simple_request := [pay [Shielded OrchardPool] 150000].
(** A payment to a TEX address before a Sapling payment, and after it. *)
Definition tex_then_sapling := [pay [TransparentPool; TransparentPool] 40000; pay [Shielded SaplingPool] 20000].
Definition sapling_then_tex := [pay [Shielded SaplingPool] 20000; pay [TransparentPool; TransparentPool] 40000].

Definition no_amount_request := [MkPayment (FE := sample_fee_env) (PE := sample_proposal_env) [Shielded OrchardPool] None].

Lemma sample_request_wf req :
  Forall (fun p => amount p <> Some 0 /\ forall v, amount p = Some v -> is_zat v) req -> zlen req <= 10000 ->
  request_wf (cx_request (sample_cx req)).
Proof.
  intros H Hl. rewrite Forall_forall in H. split; [split|].
  - apply by_position_ok.
  - intros i p v Hp. apply elem_of_zip_r in Hp. by apply H.
  - apply zero_free. split.
    + apply Forall_forall. intros e (i & p & Hp & ->)%in_indexed. apply elem_of_zip_r in Hp. by apply H.
    + unfold zlen, indexed_payments in *. cbn [payments cx_request sample_cx].
      unfold by_position. rewrite length_map, length_zip_with, length_map, length_seq. lia.
Qed.

Ltac wf_request :=
  apply sample_request_wf; [|vm_compute; discriminate];
  repeat (apply Forall_cons; split;
    [split; [discriminate|intros ? [=]; subst; unfold is_zat; cbn; unfold sample_max_money; lia]|]);
  apply Forall_nil_2.

Lemma simple_wf : request_wf (cx_request (sample_cx simple_request)).
Proof. wf_request. Qed.
Lemma tex_wf : request_wf (cx_request (sample_cx tex_then_sapling)).
Proof. wf_request. Qed.
Lemma no_amount_wf : request_wf (cx_request (sample_cx no_amount_request)).
Proof. wf_request. Qed.

(** The inputs, the change and the fee of each step, or a code for the failure. *)
Definition outline (m : run InputSelectorError Proposal) : list (list Z * list Z * Z) :=
  match m with
  | Ok p => map (fun s => (map note_value (notes_of (shielded_inputs s)),
                           map cv_value (proposed_change (balance s)), fee_required_of (balance s))) (steps p)
  | Err (Failed (ProposalFailed PaymentPoolsMismatch)) => [([], [], -1)]
  | Err _ => [([], [], -2)]
  end.

(** The locked note is not spent, although it would be enough alone. *)
Example simple_outline :
  outline (propose_transaction 5 (sample_cx simple_request) None) = [([30000; 200000], [70000], 10000)].
Proof. vm_compute. reflexivity. Qed.

(** The first step pays 20000 and an ephemeral output of 50000, with which the second pays
    40000 and its fee. *)
Example tex_outline :
  outline (propose_transaction 5 (sample_cx tex_then_sapling) None)
  = [([30000; 200000], [135000; 50000], 25000); ([], [], 10000)].
Proof. vm_compute. reflexivity. Qed.

Lemma outline_Ok m : negb (bool_decide (map snd (outline m) = [-1] \/ map snd (outline m) = [-2])) = true ->
  exists p, m = Ok p.
Proof. destruct m as [p|[[]|]]; eauto. all: cbn; try done. by destruct e. Qed.

Lemma simple_Ok : exists p, propose_transaction 5 (sample_cx simple_request) None = Ok p.
Proof. apply outline_Ok. rewrite simple_outline. reflexivity. Qed.

Lemma tex_Ok : exists p, propose_transaction 5 (sample_cx tex_then_sapling) None = Ok p.
Proof. apply outline_Ok. rewrite tex_outline. reflexivity. Qed.

(** ** Witnesses *)

Lemma propose_transaction_terminates_witness :
  exists n, errs_only (fun _ => True) (propose_transaction n (sample_cx simple_request) None).
Proof.
  destruct (propose_transaction_terminates (sample_cx simple_request) None simple_wf) as (n & Hn & _).
  exists n. exact Hn.
Defined.

Lemma propose_transaction_pays_witness :
  exists p, propose_transaction 5 (sample_cx tex_then_sapling) None = Ok p /\ length (steps p) = 2%nat /\
  concat (map (fun s => map snd (payments (transaction_request s))) (steps p)) ≡ₚ tex_then_sapling.
Proof.
  destruct tex_Ok as [p Hp]. exists p. split; [exact Hp|].
  destruct (propose_transaction_pays (sample_cx tex_then_sapling) None tex_wf 5 p Hp) as (H1 & _ & H3).
  split; [exact H3|exact H1].
Defined.

Lemma propose_transaction_tex_first_witness : tex_first (sample_cx tex_then_sapling).
Proof.
  destruct tex_Ok as [p Hp].
  exact (propose_transaction_tex_first (sample_cx tex_then_sapling) None tex_wf 5 p Hp).
Defined.

Lemma propose_transaction_consistent_witness :
  request_error (ProposalFailed (PaymentAmountMissing 0)).
Proof.
  apply (propose_transaction_consistent (sample_cx no_amount_request) None no_amount_wf 5).
  - reflexivity.
  - reflexivity.
Defined.

Definition sample_may (p : ShieldedPool) (note : SpendableNote) : Prop :=
  exists row, (p, note, row) ∈ sample_notes /\ output_eligible (Policy Exclude) 500 row = true.

Lemma sample_offers : wallet_offers (sample_cx simple_request) sample_may (fun _ => False).
Proof.
  split.
  - intros t s x ns p note [= <-] Hn. apply sample_select_in in Hn as (row & Hin & _ & He). by exists row.
  - intros t s x k f a p note [= <- <-] [Hn|Hn].
    + apply sample_select_in in Hn as (row & Hin & _ & He). by exists row.
    + destruct p; by apply elem_of_nil in Hn.
  - done.
Qed.

Lemma propose_transaction_respects_policy_witness :
  exists p, propose_transaction 5 (sample_cx simple_request) None = Ok p /\
  Forall (fun s => forall x, x ∈ notes_of (shielded_inputs s) -> exists note, sample_may (note_pool x) note) (steps p).
Proof.
  destruct simple_Ok as [p Hp]. exists p. split; [exact Hp|].
  eapply Forall_impl; [exact (propose_transaction_respects_policy (sample_cx simple_request) None simple_wf
    sample_may (fun _ => False) sample_offers 5 p Hp)|].
  cbv beta. intros s [H _] x Hx. destruct (H x Hx) as (_ & note & _ & Hm). exists note. exact Hm.
Defined.

#[global] Instance sample_fixed_rule : FixedFeeRule (FE := sample_fee_env) := {| fixed_fee _ := 10000 |}.

(** Four notes are aimed at, and the metadata are those of the sample wallet. *)
Definition sample_multi : MultiOutputChangeStrategy (FE := sample_fee_env) :=
  multi_output_new (() : FeeRuleT (FeeEnv := sample_fee_env)) None OrchardPool dust_output_policy_default
    (MkSplitPolicy 4 None).

Lemma change_strategies_meet_contract_witness :
  ChangeStrategyLaws (CS := zip317_single_strategy sample_single) (fun _ => True) /\
  ChangeStrategyLaws (CS := zip317_multi_strategy (fun _ _ _ _ _ => Ok sample_meta) sample_multi) meta_ok /\
  ChangeStrategyLaws (CS := fixed_strategy sample_single) (fun _ => True).
Proof.
  destruct change_strategies_meet_contract as (H1 & H2 & H3).
  assert (is_zat 5000 /\ is_zat 10000) as [Hz1 Hz2] by (unfold is_zat; cbn; unfold sample_max_money; lia).
  split; [|split].
  - apply H1; [exact Hz1|intros v H; discriminate H].
  - apply H2; [exact Hz1|intros v H; discriminate H|exact (proj1 sample_cfg_ok)|vm_compute; discriminate|].
    intros a f h x l m [= <-]. exact sample_meta_ok.
  - apply H3; [exact Hz2|intros v H; discriminate H].
Defined.

(** A request that pays a Sapling address first and a TEX address second is refused with
    [PaymentPoolsMismatch], although the wallet can pay it; the same payments in the other
    order are proposed. *)
Theorem mixed_tex_request_refused :
  outline (propose_transaction 5 (sample_cx sapling_then_tex) None) = [([], [], -1)] /\
  sapling_then_tex ≡ₚ tex_then_sapling /\
  exists p, propose_transaction 5 (sample_cx tex_then_sapling) None = Ok p.
Proof. split; [vm_compute; reflexivity|]. split; [apply Permutation_swap|apply tex_Ok]. Qed.

(** * Shielding and sending everything on the sample wallet *)

#[global] Instance sample_send_laws : SendLaws.
Proof.
  split.
  - intros p a r pool Hr Hc. cbn in Hr, Hc. apply bool_decide_eq_true in Hc.
    case_bool_decide as Hi; [done|]. injection Hr as <-.
    assert (pool ∈ receivers (sample_unified a)) as Hu.
    { unfold sample_unified. cbn [receivers]. rewrite !elem_of_app. destruct pool as [|[]]; [| | |done].
      - right; right. rewrite bool_decide_eq_true_2 by done. left.
      - right; left. rewrite bool_decide_eq_true_2 by done. left.
      - left. rewrite bool_decide_eq_true_2 by done. left. }
    unfold sample_resolve. clear Hi.
    destruct a as [|[|[]] [|[|] [|]]]; try exact Hu; cbn; set_solver.
  - cbn. unfold sample_num_actions. intros p f s o n [= <-]. destruct f, (bundle_required p); cbn; zcases; lia.
  - by eexists.
  - intros v. by eexists.
Qed.

#[global] Instance sample_shielding_source : ShieldingSourceLaws.
Proof.
  split.
  - intros addrs h c f lf us [= <-]. apply Forall_map, Forall_forall. intros u Hu.
    apply list_elem_of_In, filter_In in Hu as [Hu _]. apply list_elem_of_In in Hu.
    unfold sample_utxos in Hu.
    repeat (apply elem_of_cons in Hu as [->|Hu]; [unfold is_zat; cbn; unfold sample_max_money; lia|]).
    by apply elem_of_nil in Hu.
  - intros addrs h c f lf us [= <-]. unfold sample_offered. etrans; [apply inj_le, filter_length_le|].
    vm_compute. discriminate.
  - intros a b. cbn. rewrite !Z.leb_le. lia.
Qed.

(** ** The calls *)

Definition sample_send (recipient : list PoolType) : SendMax := {|
  sm_params := (); sm_fee_rule := () : FeeRuleT (FeeEnv := sample_fee_env); sm_account := ();
  sm_pools := [SaplingPool; OrchardPool]; sm_target := 500; sm_anchor := 480; sm_mode := MaxSpendable;
  sm_confirmations := 3; sm_recipient := recipient; sm_memo := None; sm_locked := Exclude |}.

(** The transparent inputs, the payments, the change and the fee of each step. *)
Definition spends (m : run InputSelectorError Proposal) : list (list Z * list Z * list Z * Z) :=
  match m with
  | Ok p => map (fun s => (map txout_value (step_transparent_inputs s),
                           map (fun e => default 0 (amount (snd e))) (payments (transaction_request s)),
                           map cv_value (proposed_change (balance s)), fee_required_of (balance s))) (steps p)
  | Err _ => []
  end.

Lemma spends_Ok m x l : spends m = x :: l -> exists p, m = Ok p.
Proof. destruct m; [eauto|done]. Qed.

(** 290000 zatoshi can be spent: the locked note is left alone. *)
Example send_sapling : spends (propose_send_max (sample_send [Shielded SaplingPool])) = [([], [270000], [], 20000)].
Proof. vm_compute. reflexivity. Qed.

Example send_tex_recipient :
  spends (propose_send_max (sample_send [TransparentPool; TransparentPool]))
  = [([], [], [265000], 25000); ([], [255000], [], 10000)].
Proof. vm_compute. reflexivity. Qed.

(** The outputs of the first address, the more valuable one first. *)
Definition sample_shield (addrs : list Z) : run InputSelectorError Proposal :=
  propose_shielding greedy_new () 60000 addrs () 500 480 3 AllTransparentOutputs.

Example shield_two : spends (sample_shield [1]) = [([70000; 40000], [], [90000], 20000)].
Proof. vm_compute. reflexivity. Qed.

(** An output that is not worth its fee is left out. *)
Example shield_dust : spends (sample_shield [4]) = [([90000], [], [75000], 15000)].
Proof. vm_compute. reflexivity. Qed.

(** With an ephemeral address, outputs of another address are not spent in the transaction. *)
Definition is_linked (m : run InputSelectorError Proposal) : bool :=
  match m with Err (Failed (ProposalFailed EphemeralAddressLinkability)) => true | _ => false end.

Example shield_linked : map (fun l => is_linked (sample_shield l)) [[1; 3]; [3]; [1; 2]] = [true; false; false].
Proof. vm_compute. reflexivity. Qed.

Definition sample_coinbase (limit : option Z) : run InputSelectorError Proposal :=
  propose_shielding_coinbase greedy_new () (() : FeeRuleT (FeeEnv := sample_fee_env)) 60000 [1; 2]
    [Shielded SaplingPool] None limit 500 480.

Example coinbase_limited : spends (sample_coinbase (Some 2)) = [([90000; 70000], [140000], [], 20000)].
Proof. vm_compute. reflexivity. Qed.

(** ** Witnesses *)

Lemma propose_send_max_spends_all_witness :
  exists p, propose_send_max (sample_send [TransparentPool; TransparentPool]) = Ok p /\
  exists notes, sends_all (sample_send [TransparentPool; TransparentPool]) notes p.
Proof.
  destruct (spends_Ok _ _ _ send_tex_recipient) as [p Hp]. exists p. split; [exact Hp|].
  destruct (proj2 (propose_send_max_spends_all (sample_send [TransparentPool; TransparentPool])) p Hp)
    as (notes & _ & H).
  exists notes. exact H.
Defined.

Lemma propose_shielding_shields_witness :
  exists p, sample_shield [4] = Ok p /\
  exists chosen ts b, best_of 1333 (sample_offered [4]) chosen /\
    shielding_inputs () 500 480 () (map utxo_out chosen) ts b /\
    forall u, u ∈ map utxo_out chosen -> u ∈ ts \/
      exists v, v ∈ map utxo_out chosen /\ outpoint_id v = outpoint_id u /\ txout_value v <= 5000.
Proof.
  destruct (spends_Ok _ _ _ shield_dust) as [p Hp]. exists p. split; [exact Hp|].
  apply (proj2 (propose_shielding_shields _ _ 60000 _ _ _ _ _ _ eq_refl)) in Hp
    as (us & chosen & [] & ts & b & Hus & Hbest & _ & Hin & Hdust & _).
  injection Hus as <-. exists chosen, ts, b. split; [exact Hbest|]. split; [exact Hin|].
  apply (Hdust 5000), (zip317_single_dust (ZR := sample_zip317_rule) sample_single); [|done].
  unfold is_zat. cbn. unfold sample_max_money. lia.
Defined.

Lemma propose_shielding_coinbase_pays_witness :
  exists p, sample_coinbase (Some 2) = Ok p /\
  exists chosen, best_of 2 (sample_offered [1; 2]) chosen.
Proof.
  destruct (spends_Ok _ _ _ coinbase_limited) as [p Hp]. exists p. split; [exact Hp|].
  apply (proj2 (propose_shielding_coinbase_pays _ _ _ 60000 _ _ _ _ _ _)) in Hp
    as (us & chosen & sp & v & fee & Hus & Hbest & _).
  injection Hus as <-. exists chosen. exact Hbest.
Defined.
