(* ===== verification/ShardEvents.v ===== *)
(** * Transparent events ([zakura/pir-protocol/src/transparent/events/mod.rs])

    The record of an output that was received or spent, its metadata, and the two encodings
    of a whole event: the fixed one of 87 bytes and the one with metadata appended. *)

From S2P Require Import Prelude.

(** ** Slices *)

Definition blen {A} (l : list A) : Z := Z.of_nat (length l).
(** [&bytes[from..to]], and [&bytes[from..]], inside the bounds. *)
Definition slice {A} (from to : Z) (l : list A) : list A := take (Z.to_nat (to - from)) (drop (Z.to_nat from) l).
Definition bdrop {A} (n : Z) (l : list A) : list A := drop (Z.to_nat n) l.
(** [&bytes[from..]], which panics out of bounds. *)
Definition slice_from {A} (from : Z) (l : list A) : exec (list A) :=
  if from <=? blen l then Ok (bdrop from l) else Err AssertFailed.
(** [bytes.get(..n)] *)
Definition get_prefix {A} (n : Z) (l : list A) : option (list A) :=
  if n <=? blen l then Some (take (Z.to_nat n) l) else None.

Definition zeros (n : Z) : list byte := replicate (Z.to_nat n) Byte.x00.
Definition all_zero (l : list byte) : bool := forallb (fun b => byte.unsigned b =? 0) l.

(** ** Errors and data *)

Definition EVENT_BYTES : Z := 87.
Definition MAX_EVENT_BYTES : Z := EVENT_BYTES + 1 + 5 + 10.
Definition MAX_MONEY_ZAT : Z := 21000000 * 100000000.

Inductive EventError : Type :=
| Metadata (what : string)
| Length (got : Z)
| Flags (flags : Z)
| Empty
| UnusedField (kind field : string).

Inductive FeeState : Type := Exact (fee : Z) | Unknown | NotApplicable.

Record TransactionMetadata : Type := MkMetadata {
  fee : FeeState; transparent_input_count : Z; has_shielded_components : bool }.

Abbreviation Txid := (list byte).

Record ReceiveEvent : Type := MkReceive {
  r_metadata : option TransactionMetadata; r_height : Z; r_txid : Txid; r_transaction_index : Z;
  output_index : Z; r_value : Z; coinbase : bool }.
Record SpendEvent : Type := MkSpend {
  s_metadata : option TransactionMetadata; s_height : Z; spending_txid : Txid; s_transaction_index : Z;
  input_index : Z; spent_txid : Txid; spent_output_index : Z }.
Inductive TransparentEvent : Type := Receive (e : ReceiveEvent) | Spend (e : SpendEvent).

#[global] Instance fee_state_eq_dec : EqDecision FeeState.
Proof. solve_decision. Defined.
#[global] Instance metadata_eq_dec : EqDecision TransactionMetadata.
Proof. solve_decision. Defined.
#[global] Instance receive_eq_dec : EqDecision ReceiveEvent.
Proof. solve_decision. Defined.
#[global] Instance spend_eq_dec : EqDecision SpendEvent.
Proof. solve_decision. Defined.
#[global] Instance event_eq_dec : EqDecision TransparentEvent.
Proof. solve_decision. Defined.

(** ** Variable-length integers *)

(** [varint_len], for a [u64]: at most ten bytes *)
Fixpoint varint_len_go (fuel : nat) (value : Z) : Z :=
  match fuel with
  | O => 1
  | S fuel => if 128 <=? value then 1 + varint_len_go fuel (Z.shiftr value 7) else 1
  end.
Definition varint_len (value : Z) : Z := varint_len_go 10 value.

(** [encode_varint] *)
Fixpoint encode_varint_go (fuel : nat) (value : Z) : list byte :=
  match fuel with
  | O => []
  | S fuel =>
      let b := Z.land value 127 in
      let value := Z.shiftr value 7 in
      byte.of_Z (Z.lor b (if value =? 0 then 0 else 128))
      :: (if value =? 0 then [] else encode_varint_go fuel value)
  end.
Definition encode_varint (value : Z) : list byte := encode_varint_go 10 value.

(** [decode_varint]: the value and the number of bytes read; [turns] counts the iterations of
    [for i in 0..10] that are left *)
Fixpoint decode_varint_go (turns : nat) (i value : Z) (bytes : list byte) (maximum : Z) : res EventError (Z * Z) :=
  match turns with
  | O => Err (Metadata "overflowing varint")
  | S turns =>
      match bytes with
      | [] => Err (Metadata "truncated varint")
      | b :: bytes =>
          let b := byte.unsigned b in
          if (i =? 9) && (1 <? b) then Err (Metadata "overflowing varint") else
          let value := Z.lor value (Z.shiftl (Z.land b 127) (7 * i)) in
          if Z.land b 128 =? 0 then
            if negb (i =? 0) && (b =? 0) then Err (Metadata "noncanonical varint")
            else if maximum <? value then Err (Metadata "varint exceeds bound")
            else Ok (value, i + 1)
          else decode_varint_go turns (i + 1) value bytes maximum
      end
  end.
Definition decode_varint (bytes : list byte) (maximum : Z) : res EventError (Z * Z) :=
  decode_varint_go 10 0 0 bytes maximum.

(** ** Metadata *)

Definition is_exact (f : FeeState) : bool := match f with Exact _ => true | _ => false end.
Definition not_applicable (f : FeeState) : bool := match f with NotApplicable => true | _ => false end.

(** [TransactionMetadata::validate] *)
Definition metadata_validate (m : TransactionMetadata) (coinbase : bool) : res EventError unit :=
  if match fee m with Exact fee => MAX_MONEY_ZAT <? fee | _ => false end
     || negb (Bool.eqb coinbase (not_applicable (fee m)))
     || (coinbase && negb (transparent_input_count m =? 0))
  then Err (Metadata "invalid fee or coinbase input count") else Ok ().

(** [TransactionMetadata::flags] *)
Definition metadata_flags (m : TransactionMetadata) : Z :=
  Z.lor (Z.lor 32 (if is_exact (fee m) then 8 else 0)) (if has_shielded_components m then 16 else 0).

(** [TransactionMetadata::encoded_len], [encode] and [decode] *)
Definition metadata_encoded_len (m : TransactionMetadata) : Z :=
  varint_len (transparent_input_count m) + match fee m with Exact fee => varint_len fee | _ => 0 end.

Definition metadata_encode (m : TransactionMetadata) : list byte :=
  encode_varint (transparent_input_count m) ++ match fee m with Exact fee => encode_varint fee | _ => [] end.

Definition u32_max : Z := 2 ^ 32 - 1.

Definition metadata_decode (bytes : list byte) (flags : Z) (coinbase : bool)
    : run EventError (option TransactionMetadata * Z) :=
  if negb (Z.land flags (Z.lnot 56) =? 0) || ((Z.land flags 32 =? 0) && negb (flags =? 0))
  then Err (Failed (Flags flags)) else
  if flags =? 0 then Ok (None, 0) else
  cu ← fails (decode_varint bytes u32_max);
  let (count, used) := cu : Z * Z in
  fu ← (if negb (Z.land flags 8 =? 0) then
          rest ← panics (slice_from used bytes);
          fn ← fails (decode_varint rest MAX_MONEY_ZAT);
          let (f, n) := fn : Z * Z in Ok (Exact f, used + n)
        else Ok (if coinbase then NotApplicable else Unknown, used));
  let (f, used) := fu : FeeState * Z in
  let metadata := MkMetadata f count (negb (Z.land flags 16 =? 0)) in
  _ ← fails (metadata_validate metadata coinbase);
  Ok (Some metadata, used).

(** ** Events *)

Definition event_metadata (e : TransparentEvent) : option TransactionMetadata :=
  match e with Receive e => r_metadata e | Spend e => s_metadata e end.
Definition with_metadata (e : TransparentEvent) (m : option TransactionMetadata) : TransparentEvent :=
  match e with
  | Receive e => Receive (MkReceive m (r_height e) (r_txid e) (r_transaction_index e) (output_index e)
                            (r_value e) (coinbase e))
  | Spend e => Spend (MkSpend m (s_height e) (spending_txid e) (s_transaction_index e) (input_index e)
                        (spent_txid e) (spent_output_index e))
  end.
Definition event_coinbase (e : TransparentEvent) : bool :=
  match e with Receive e => coinbase e | Spend _ => false end.

(** [TransparentEvent::validate_metadata] *)
Definition validate_metadata (e : TransparentEvent) : res EventError unit :=
  match event_metadata e with
  | None => Ok ()
  | Some m =>
      if match e with Receive e => MAX_MONEY_ZAT <? r_value e | Spend _ => false end
      then Err (Metadata "output value exceeds monetary bound") else
      _ ← metadata_validate m (event_coinbase e);
      if match e with Spend e => transparent_input_count m <=? input_index e | Receive _ => false end
      then Err (Metadata "input index exceeds complete input count") else Ok ()
  end.

Definition event_height (e : TransparentEvent) : Z :=
  match e with Receive e => r_height e | Spend e => s_height e end.
Definition event_transaction_index (e : TransparentEvent) : Z :=
  match e with Receive e => r_transaction_index e | Spend e => s_transaction_index e end.
Definition event_txid (e : TransparentEvent) : Txid :=
  match e with Receive e => r_txid e | Spend e => spending_txid e end.

(** [TransparentEvent::sort_key]: the components, with the bytes of identifiers in place; the
    keys are compared lexicographically *)
Definition sort_key (e : TransparentEvent) : list Z :=
  match e with
  | Receive e => [r_height e; r_transaction_index e; 0] ++ map byte.unsigned (r_txid e)
                 ++ [output_index e] ++ map byte.unsigned (zeros 32) ++ [0]
  | Spend e => [s_height e; s_transaction_index e; 1] ++ map byte.unsigned (spending_txid e)
               ++ [input_index e] ++ map byte.unsigned (spent_txid e) ++ [spent_output_index e]
  end.
Fixpoint key_gt (k k' : list Z) : bool :=
  match k, k' with
  | [], _ => false
  | _, [] => true
  | a :: k, b :: k' => if a =? b then key_gt k k' else b <? a
  end.

(** [events.windows(2).any(|w| w[0].sort_key() > w[1].sort_key())] *)
Fixpoint out_of_order (l : list TransparentEvent) : bool :=
  match l with
  | a :: ((b :: _) as l') => key_gt (sort_key a) (sort_key b) || out_of_order l'
  | _ => false
  end.

(** [legacy_bytes]; the fields of the record lie at the offsets 0, 1, 3, 7, 15, 47, 51, 83 *)
Definition legacy_bytes (e : TransparentEvent) : list byte :=
  match e with
  | Receive e =>
      [byte.of_Z (if coinbase e then 2 else 0)] ++ le_split 2 (r_transaction_index e) ++ le_split 4 (r_height e)
      ++ le_split 8 (r_value e) ++ r_txid e ++ le_split 4 (output_index e) ++ zeros 32 ++ zeros 4
  | Spend e =>
      [byte.of_Z 1] ++ le_split 2 (s_transaction_index e) ++ le_split 4 (s_height e)
      ++ zeros 8 ++ spending_txid e ++ le_split 4 (input_index e) ++ spent_txid e
      ++ le_split 4 (spent_output_index e)
  end.

(** [to_legacy_bytes], with its debug assertion *)
Definition to_legacy_bytes (e : TransparentEvent) : exec (list byte) :=
  _ ← assert_that (negb (all_zero (legacy_bytes e)));
  Ok (legacy_bytes e).

(** [from_legacy_bytes] *)
Definition from_legacy_bytes (bytes : list byte) : res EventError TransparentEvent :=
  if negb (blen bytes =? EVENT_BYTES) then Err (Length (blen bytes)) else
  if all_zero bytes then Err Empty else
  let flags := le_combine (slice 0 1 bytes) in
  if negb (Z.land flags (Z.lnot 3) =? 0) then Err (Flags flags) else
  let transaction_index := le_combine (slice 1 3 bytes) in
  let height := le_combine (slice 3 7 bytes) in
  let value := le_combine (slice 7 15 bytes) in
  let txid := slice 15 47 bytes in
  let index := le_combine (slice 47 51 bytes) in
  let spent := slice 51 83 bytes in
  let spent_index := le_combine (slice 83 87 bytes) in
  if Z.land flags 1 =? 0 then
    if negb (bool_decide (spent = zeros 32)) || negb (spent_index =? 0)
    then Err (UnusedField "receive" "the consumed outpoint")
    else Ok (Receive (MkReceive None height txid transaction_index index value (negb (Z.land flags 2 =? 0))))
  else
    if negb (value =? 0) then Err (UnusedField "spend" "a value") else
    if negb (Z.land flags 2 =? 0) then Err (UnusedField "spend" "the coinbase flag") else
    Ok (Spend (MkSpend None height txid transaction_index index spent spent_index)).

(** [to_bytes] and [from_bytes] *)
Definition to_bytes (e : TransparentEvent) : res EventError (list byte) :=
  _ ← validate_metadata e;
  if all_zero (legacy_bytes e) then Err Empty else
  Ok (legacy_bytes e ++ match event_metadata e with
                        | Some m => byte.of_Z (metadata_flags m) :: metadata_encode m
                        | None => []
                        end).

Definition from_bytes (bytes : list byte) : run EventError TransparentEvent :=
  if (blen bytes <? EVENT_BYTES) || (MAX_EVENT_BYTES <? blen bytes) then Err (Failed (Length (blen bytes))) else
  e ← fails (from_legacy_bytes (slice 0 EVENT_BYTES bytes));
  e ← (if EVENT_BYTES <? blen bytes then
         mu ← metadata_decode (bdrop (EVENT_BYTES + 1) bytes)
                (le_combine (slice EVENT_BYTES (EVENT_BYTES + 1) bytes)) (event_coinbase e);
         let (m, used) := mu : option TransactionMetadata * Z in
         if negb (bool_decide (is_Some m)) || negb (EVENT_BYTES + 1 + used =? blen bytes)
         then Err (Failed (Metadata "invalid metadata framing"))
         else Ok (with_metadata e m)
       else Ok e);
  _ ← fails (validate_metadata e);
  Ok e.

(** ** Consistency of the events of a transaction *)

Definition event_facts (e : TransparentEvent) : Z * Z * option TransactionMetadata * bool :=
  (event_height e, event_transaction_index e, event_metadata e, event_coinbase e).

(** A map to which entries are added, and that refuses a second value for a key. *)
Definition insert_same {K V} `{Countable K, EqDecision V} (k : K) (v : V) (m : gmap K V) (what : string)
    : res EventError (gmap K V) :=
  match m !! k with
  | Some v' => if decide (v' = v) then Ok (<[k:=v]> m) else Err (Metadata what)
  | None => Ok (<[k:=v]> m)
  end.

(** [check_transaction_consistency] *)
Definition check_event
    (st : gmap Txid (Z * Z * option TransactionMetadata * bool) * gmap (Txid * Z) (Txid * Z))
    (e : TransparentEvent) : res EventError _ :=
  _ ← validate_metadata e;
  transactions ← insert_same (event_txid e) (event_facts e) (fst st)
                   "conflicting transaction metadata or placement";
  inputs ← match e with
           | Spend s => insert_same (spending_txid s, input_index s) (spent_txid s, spent_output_index s)
                          (snd st) "conflicting transaction input identity"
           | Receive _ => Ok (snd st)
           end;
  Ok (transactions, inputs).
Definition check_transaction_consistency (events : list TransparentEvent) : res EventError unit :=
  _ ← foldM check_event (∅, ∅) events; Ok ().
