(* ===== verification/ShardEventProofs.v ===== *)
(** * Transparent events: the encodings are canonical

    The decoders accept exactly what the encoders write, and never panic. *)

From S2P Require Import Prelude BitStream ShardEvents.

(** ** Variable-length integers: the encoding is canonical *)

Lemma land_127 x : 0 <= x -> Z.land x 127 = x mod 128.
Proof. intros H. change 127 with (Z.ones 7). by rewrite Z.land_ones by lia. Qed.

Lemma shiftr_7 x : Z.shiftr x 7 = x / 128.
Proof. rewrite Z.shiftr_div_pow2 by lia. done. Qed.

Lemma byte_range b : 0 <= byte.unsigned b < 256.
Proof. pose proof (byte.unsigned_range b). lia. Qed.

Lemma byte_septet b :
  byte.unsigned b = Z.land (byte.unsigned b) 127 + (if Z.land (byte.unsigned b) 128 =? 0 then 0 else 128) /\
  0 <= Z.land (byte.unsigned b) 127 < 128.
Proof.
  pose proof (byte_range b) as H. rewrite land_127 by lia.
  split; [|apply Z.mod_pos_bound; lia].
  assert (forallb (fun n => let x := Z.of_nat n in
    x =? x mod 128 + (if Z.land x 128 =? 0 then 0 else 128)) (seq 0 256) = true) as Hall by (vm_compute; reflexivity).
  rewrite forallb_forall in Hall. specialize (Hall (Z.to_nat (byte.unsigned b))).
  rewrite Z2Nat.id in Hall by lia. apply Z.eqb_eq, Hall, in_seq. lia.
Qed.

Lemma lor_128 x : 0 <= x < 128 -> Z.lor x 128 = x + 128.
Proof.
  intros H. rewrite Z.lor_comm. change 128 with (1 * 2 ^ 7). rewrite lor_disjoint by lia. lia.
Qed.

(** One step of the encoder. *)
Lemma encode_varint_step fuel w : 0 <= w ->
  encode_varint_go (S fuel) w =
  byte.of_Z (w mod 128 + (if w / 128 =? 0 then 0 else 128))
  :: (if w / 128 =? 0 then [] else encode_varint_go fuel (w / 128)).
Proof.
  intros Hw. cbn [encode_varint_go]. rewrite shiftr_7, land_127 by done.
  pose proof (Z.mod_pos_bound w 128 ltac:(lia)). destruct (w / 128 =? 0).
  - by rewrite Z.lor_0_r, Z.add_0_r.
  - by rewrite lor_128.
Qed.

Lemma septet_step acc w i : 0 <= i -> 0 <= acc < 2 ^ (7 * i) -> 0 <= w ->
  acc + w * 2 ^ (7 * i) = (acc + w mod 128 * 2 ^ (7 * i)) + w / 128 * 2 ^ (7 * (i + 1)).
Proof.
  intros Hi Ha Hw. rewrite (Z.div_mod w 128) at 1 by lia.
  replace (7 * (i + 1)) with (7 * i + 7) by lia. rewrite Z.pow_add_r by lia. change (2 ^ 7) with 128. ring.
Qed.

Lemma septet_acc acc y i : 0 <= i -> 0 <= acc < 2 ^ (7 * i) -> 0 <= y < 128 ->
  Z.lor acc (Z.shiftl y (7 * i)) = acc + y * 2 ^ (7 * i) /\
  0 <= acc + y * 2 ^ (7 * i) < 2 ^ (7 * (i + 1)).
Proof.
  intros Hi Ha Hy. rewrite Z.shiftl_mul_pow2, Z.lor_comm, lor_disjoint by lia.
  replace (7 * (i + 1)) with (7 * i + 7) by lia. rewrite Z.pow_add_r by lia. change (2 ^ 7) with 128. nia.
Qed.

(** What the decoder reads from position [i] on is the canonical encoding of the remaining
    bits, which are not zero unless they are all there is. *)
Lemma decode_varint_go_iff turns i acc bytes maximum v n :
  0 <= i -> Z.of_nat turns + i = 10 -> 0 <= acc < 2 ^ (7 * i) ->
  decode_varint_go turns i acc bytes maximum = Ok (v, n) <->
  exists w rest, bytes = encode_varint_go turns w ++ rest /\ v = acc + w * 2 ^ (7 * i) /\
    n = i + blen (encode_varint_go turns w) /\ v <= maximum /\ v < 2 ^ 64 /\ 0 <= w /\ (i = 0 \/ w <> 0).
Proof.
  revert i acc bytes. induction turns as [|turns IH]; intros i acc bytes Hi Ht Ha.
  { split; [done|]. intros (w & rest & _ & Hv & _ & _ & H64 & Hw & Hnz). exfalso.
    replace (7 * i) with 70 in * by lia.
    assert (w = 0 \/ 1 <= w) as [->|Hw1] by lia; [lia|].
    change (2 ^ 70) with 1180591620717411303424 in *. change (2 ^ 64) with 18446744073709551616 in *. nia. }
  assert (forall w, 0 <= w -> acc + w * 2 ^ (7 * i) < 2 ^ 64 -> i = 9 -> w <= 1) as Hlast.
  { intros w Hw H64 ->. change (2 ^ (7 * 9)) with 9223372036854775808 in *. change (2 ^ 64) with 18446744073709551616 in *. nia. }
  destruct bytes as [|b bytes].
  { cbn [decode_varint_go]. split; [done|]. intros (w & rest & Hb & _ & _ & _ & _ & Hw & _).
    by rewrite encode_varint_step in Hb by done. }
  cbn [decode_varint_go]. destruct (byte_septet b) as [Hb Hy]. pose proof (byte_range b) as Hbr.
  set (x := byte.unsigned b) in *. set (y := Z.land x 127) in *.
  destruct (septet_acc acc y i Hi Ha Hy) as [Hlor Hacc]. rewrite Hlor.
  assert (forall w rest, 0 <= w -> b :: bytes = encode_varint_go (S turns) w ++ rest ->
    y = w mod 128 /\ (Z.land x 128 =? 0) = (w / 128 =? 0) /\
    bytes = (if w / 128 =? 0 then [] else encode_varint_go turns (w / 128)) ++ rest) as Hinv.
  { intros w rest Hw E. rewrite encode_varint_step in E by done. injection E as Eb E.
    pose proof (Z.mod_pos_bound w 128 ltac:(lia)) as Hm.
    assert (x = w mod 128 + (if w / 128 =? 0 then 0 else 128)) as Hx.
    { unfold x. rewrite Eb, byte.unsigned_of_Z. apply Z.mod_small. destruct (w / 128 =? 0); lia. }
    clear Eb. destruct (Z.land x 128 =? 0), (w / 128 =? 0); split_and!; try done; lia. }
  destruct ((i =? 9) && (1 <? x)) eqn:E9.
  { apply andb_true_iff in E9 as [->%Z.eqb_eq H1%Z.ltb_lt]. split; [done|].
    intros (w & rest & E & Hv & _ & _ & H64 & Hw & _). exfalso.
    destruct (Hinv w rest Hw E) as (Hyw & Hc & _). subst v. specialize (Hlast w Hw H64 eq_refl).
    assert (w / 128 = 0) as Hd by (apply Z.div_small; lia). rewrite Hd in Hc.
    assert (w mod 128 = w) by (apply Z.mod_small; lia). destruct (Z.land x 128 =? 0); [lia|done]. }
  destruct (Z.land x 128 =? 0) eqn:Ec.
  - assert (x = y) as Hxy by lia. split.
    + destruct (negb (i =? 0) && (x =? 0)) eqn:En; [done|].
      destruct (Z.ltb_spec maximum (acc + y * 2 ^ (7 * i))); [done|]. intros [= <- <-].
      exists y, bytes. rewrite encode_varint_step by lia.
      rewrite Z.mod_small, Z.div_small by lia. cbn [Z.eqb app].
      split_and!; [|done|done|done| |lia|].
      * f_equal. rewrite Z.add_0_r, <- Hxy. unfold x. by rewrite byte.of_Z_unsigned.
      * apply andb_false_iff in E9. destruct (Z.eqb_spec i 9) as [->|].
        { destruct E9 as [|E9]; [done|]. apply Z.ltb_ge in E9.
          change (7 * 9) with 63 in *. change (2 ^ 63) with 9223372036854775808 in *.
          change (2 ^ 64) with 18446744073709551616. nia. }
        eapply Z.lt_le_trans; [apply Hacc|]. apply Z.pow_le_mono_r; lia.
      * apply andb_false_iff in En. zcases; destruct En as [En|En]; try done; lia || (right; lia) || by left.
    + intros (w & rest & E & Hv & Hn & Hm & H64 & Hw & Hnz). destruct (Hinv w rest Hw E) as (Hyw & Hc & _).
      symmetry in Hc. apply Z.eqb_eq in Hc.
      assert (w = y) as -> by (pose proof (Z.div_mod w 128 ltac:(lia)); lia).
      assert (negb (i =? 0) && (x =? 0) = false) as ->.
      { destruct Hnz as [->|]; [done|]. apply andb_false_iff. right. zcases; lia || done. }
      rewrite (proj2 (Z.ltb_ge _ _)) by lia. rewrite Hn, Hv, encode_varint_step, Hc by done. by f_equal.
  - rewrite (IH (i + 1) _ bytes) by lia. split.
    + intros (w & rest & E & Hv & Hn & Hm & H64 & Hw & Hnz).
      exists (y + 128 * w), rest. assert (0 < w) by lia.
      rewrite encode_varint_step by lia.
      replace ((y + 128 * w) mod 128) with y by (apply (Z.mod_unique _ _ w); lia).
      replace ((y + 128 * w) / 128) with w by (apply (Z.div_unique _ _ _ y); lia).
      rewrite (proj2 (Z.eqb_neq w 0)) by lia. split_and!; [|rewrite Hv|rewrite Hn; unfold blen; cbn [length]; lia|done|done|lia|right; lia].
      * cbn [app]. rewrite E. f_equal. rewrite <- Hb. unfold x. by rewrite byte.of_Z_unsigned.
      * replace (7 * (i + 1)) with (7 * i + 7) by lia. rewrite Z.pow_add_r by lia. change (2 ^ 7) with 128. ring.
    + intros (w & rest & E & Hv & Hn & Hm & H64 & Hw & Hnz). destruct (Hinv w rest Hw E) as (Hyw & Hc & Hbs).
      rewrite encode_varint_step in Hn by done. rewrite <- Hc in Hbs, Hn. symmetry in Hc. apply Z.eqb_neq in Hc.
      exists (w / 128), rest. assert (0 <= w / 128) by (apply Z.div_pos; lia).
      split_and!; [done|rewrite Hv, Hyw; by apply septet_step|rewrite Hn; unfold blen; cbn [length]; lia|done|done|done|by right].
Qed.

(** The decoder accepts exactly the encodings of the values up to the maximum. *)
Lemma decode_varint_iff bytes maximum v n :
  maximum < 2 ^ 64 ->
  decode_varint bytes maximum = Ok (v, n) <->
  exists rest, bytes = encode_varint v ++ rest /\ n = blen (encode_varint v) /\ 0 <= v <= maximum.
Proof.
  intros Hmax. unfold decode_varint. rewrite decode_varint_go_iff by (cbn; lia). unfold encode_varint. split.
  - intros (w & rest & E & Hv & Hn & Hm & _ & Hw & _). exists rest.
    assert (v = w) as -> by (rewrite Hv; cbn; lia). split_and!; [done|lia|done|done].
  - intros (rest & E & Hn & Hv). exists v, rest. split_and!; try done; [cbn; lia|lia|lia|lia|by left].
Qed.

Lemma varint_len_go_spec fuel w : 0 <= w < 2 ^ (7 * Z.of_nat fuel) ->
  blen (encode_varint_go fuel w) = varint_len_go fuel w \/ fuel = O.
Proof.
  revert w. induction fuel as [|fuel IH]; intros w Hw; [by right|]. left.
  rewrite encode_varint_step by lia. cbn [varint_len_go]. rewrite shiftr_7.
  destruct (Z.leb_spec 128 w) as [H|H].
  - assert (1 <= w / 128) by (apply Z.div_le_lower_bound; lia).
    rewrite (proj2 (Z.eqb_neq _ 0)) by lia. unfold blen. cbn [length].
    destruct (IH (w / 128)) as [IH'| ->].
    + split; [lia|]. apply Z.div_lt_upper_bound; [lia|].
      replace (7 * Z.of_nat (S fuel)) with (7 + 7 * Z.of_nat fuel) in Hw by lia. rewrite Z.pow_add_r in Hw by lia.
      change (2 ^ 7) with 128 in Hw. lia.
    + unfold blen in IH'. lia.
    + cbn in Hw. lia.
  - rewrite Z.div_small by lia. done.
Qed.

Lemma varint_len_spec v : 0 <= v < 2 ^ 64 -> blen (encode_varint v) = varint_len v.
Proof. intros H. destruct (varint_len_go_spec 10 v); [cbn; lia|done|done]. Qed.

Lemma varint_len_go_le k fuel v : 0 <= v < 2 ^ (7 * Z.of_nat k) -> (1 <= k)%nat -> varint_len_go fuel v <= Z.of_nat k.
Proof.
  revert fuel v. induction k as [|k IH]; intros fuel v Hv Hk; [lia|].
  destruct fuel as [|fuel]; cbn [varint_len_go]; [lia|]. destruct (Z.leb_spec 128 v); [|lia].
  rewrite shiftr_7. destruct k as [|k]; [cbn in Hv; lia|].
  enough (varint_len_go fuel (v / 128) <= Z.of_nat (S k)) by lia. apply IH; [|lia].
  split; [apply Z.div_pos; lia|]. apply Z.div_lt_upper_bound; [lia|].
  replace (7 * Z.of_nat (S (S k))) with (7 + 7 * Z.of_nat (S k)) in Hv by lia. rewrite Z.pow_add_r in Hv by lia.
  change (2 ^ 7) with 128 in Hv. lia.
Qed.

Lemma varint_len_bounds k v : 0 <= v < 2 ^ (7 * Z.of_nat k) -> (1 <= k)%nat -> 1 <= varint_len v <= Z.of_nat k.
Proof.
  intros Hv Hk. split; [|by apply varint_len_go_le].
  unfold varint_len. cbn [varint_len_go]. case_match; [|lia].
  enough (forall n w, 0 <= varint_len_go n w) as H0; [by pose proof (H0 9%nat (Z.shiftr v 7)); cbn in *; lia|].
  induction n as [|n IH]; intros w; cbn [varint_len_go]; [lia|]. case_match; [|lia]. specialize (IH (Z.shiftr w 7)). lia.
Qed.

(** ** Metadata *)

Lemma blen_app {A} (l k : list A) : blen (l ++ k) = blen l + blen k.
Proof. unfold blen. rewrite length_app. lia. Qed.

Lemma blen_nonneg {A} (l : list A) : 0 <= blen l.
Proof. unfold blen. lia. Qed.

Lemma bdrop_app {A} (l k : list A) n : n = blen l -> bdrop n (l ++ k) = k.
Proof. intros ->. unfold bdrop, blen. by rewrite Nat2Z.id, drop_app_length. Qed.

Lemma slice_from_app {A} (l k : list A) n : n = blen l -> slice_from n (l ++ k) = Ok k.
Proof.
  intros Hn. unfold slice_from. rewrite blen_app, bdrop_app by done.
  pose proof (blen_nonneg k). by rewrite (proj2 (Z.leb_le _ _)) by lia.
Qed.

(** The values of the fields are those of their types. *)
Definition fee_wf (f : FeeState) : Prop := match f with Exact fee => 0 <= fee < 2 ^ 64 | _ => True end.
Definition metadata_wf (m : TransactionMetadata) : Prop :=
  0 <= transparent_input_count m <= u32_max /\ fee_wf (fee m).

Lemma metadata_validate_Ok m c :
  metadata_validate m c = Ok () <->
  match fee m with Exact f => f <= MAX_MONEY_ZAT | _ => True end /\
  c = not_applicable (fee m) /\ (c = true -> transparent_input_count m = 0).
Proof.
  unfold metadata_validate. destruct (fee m) as [f| |], c; cbn; zcases; split; intros; destruct_and?; try done;
    split_and?; try done; try lia; exfalso; auto.
Qed.

Lemma metadata_flags_cases m :
  metadata_flags m ∈ [32; 40; 48; 56] /\
  (Z.land (metadata_flags m) 8 =? 0) = negb (is_exact (fee m)) /\
  (Z.land (metadata_flags m) 16 =? 0) = negb (has_shielded_components m).
Proof. unfold metadata_flags. destruct (is_exact (fee m)), (has_shielded_components m); cbn; set_solver. Qed.

Lemma valid_flags_cases f :
  0 <= f < 256 -> negb (Z.land f (Z.lnot 56) =? 0) || ((Z.land f 32 =? 0) && negb (f =? 0)) = false ->
  f = 0 \/ f ∈ [32; 40; 48; 56].
Proof.
  intros Hf H.
  assert (forallb (fun n => let f := Z.of_nat n in
    negb (Z.land f (Z.lnot 56) =? 0) || ((Z.land f 32 =? 0) && negb (f =? 0))
    || (f =? 0) || (f =? 32) || (f =? 40) || (f =? 48) || (f =? 56)) (seq 0 256) = true) as Hall by (vm_compute; reflexivity).
  rewrite forallb_forall in Hall. specialize (Hall (Z.to_nat f)).
  cbv zeta in Hall. rewrite Z2Nat.id in Hall by lia. rewrite H in Hall. cbn [orb] in Hall.
  assert (In (Z.to_nat f) (seq 0 256)) as Hin by (apply in_seq; lia). specialize (Hall Hin). clear Hin.
  repeat (apply orb_true_iff in Hall as [Hall|Hall%Z.eqb_eq]); [apply Z.eqb_eq in Hall; by left|right; rewrite Hall, !elem_of_cons; tauto..].
Qed.

(** The flags and the bytes determine the metadata. *)
Lemma metadata_decode_iff bytes flags c m used :
  0 <= flags < 256 ->
  metadata_decode bytes flags c = Ok (m, used) <->
  (flags = 0 /\ m = None /\ used = 0) \/
  (exists md rest, m = Some md /\ flags = metadata_flags md /\ bytes = metadata_encode md ++ rest /\
     used = blen (metadata_encode md) /\ metadata_wf md /\ metadata_validate md c = Ok ()).
Proof.
  intros Hf. unfold metadata_decode.
  destruct (negb (Z.land flags (Z.lnot 56) =? 0) || ((Z.land flags 32 =? 0) && negb (flags =? 0))) eqn:Ef.
  { split; [done|]. intros [(-> & _ & _)|(md & rest & _ & -> & _)]; [done|]. exfalso.
    destruct (metadata_flags_cases md) as [Hin _].
    repeat (apply elem_of_cons in Hin as [Hin|Hin]; [by rewrite Hin in Ef|]). by apply elem_of_nil in Hin. }
  apply valid_flags_cases in Ef as Hcases; [|done]. clear Ef.
  destruct (Z.eqb_spec flags 0) as [->|Hnz].
  { split; [intros [= <- <-]; by left|]. intros [(_ & -> & ->)|(md & rest & _ & H0 & _)]; [done|].
    exfalso. destruct (metadata_flags_cases md) as [Hin _]. rewrite <- H0 in Hin. set_solver. }
  destruct Hcases as [->|Hin]; [done|]. rewrite res_bind_Ok. split.
  - intros ([count u1] & Hc & H). unwrap_ok Hc. apply decode_varint_iff in Hc as (r1 & -> & -> & Hcount); [|done].
    bind_step H as fu Hfu. destruct fu as [f u2]. bind_step H as u Hv. destruct u. injection H as <- <-.
    right. set (md := MkMetadata f count (negb (Z.land flags 16 =? 0))) in *.
    assert (exists r2, encode_varint count ++ r1 = metadata_encode md ++ r2 /\ u2 = blen (metadata_encode md) /\
      is_exact f = negb (Z.land flags 8 =? 0) /\ fee_wf f) as (r2 & E & -> & Hex & Hwf).
    { unfold metadata_encode, md. cbn [fee transparent_input_count].
      destruct (Z.land flags 8 =? 0); cbn [negb] in *.
      - injection Hfu as <- <-. exists r1. destruct c; cbn; by rewrite app_nil_r.
      - rewrite slice_from_app in Hfu by done. cbn [panics mbind res_bind] in Hfu.
        bind_step Hfu as fn Hd. destruct fn as [g n]. injection Hfu as <- <-.
        apply decode_varint_iff in Hd as (r2 & -> & -> & Hg); [|done]. exists r2.
        rewrite <- app_assoc, blen_app. split; [done|]. split; [done|]. split; [done|].
        unfold MAX_MONEY_ZAT in Hg. unfold fee_wf. lia. }
    exists md, r2. split_and!; [done| |done|done|by split|done].
    unfold metadata_flags, md. cbn [fee has_shielded_components]. rewrite Hex. clear -Hin.
    repeat (apply elem_of_cons in Hin as [->|Hin]; [done|]). by apply elem_of_nil in Hin.
  - intros [(? & _ & _)|(md & rest & -> & -> & -> & -> & Hwf & Hv)]; [done|].
    destruct (metadata_flags_cases md) as (_ & H8 & H16). rewrite H8, H16, !negb_involutive.
    destruct Hwf as [Hcount Hfee]. pose proof (proj1 (metadata_validate_Ok _ _) Hv) as (Hmax & Hc & _).
    exists (transparent_input_count md, blen (encode_varint (transparent_input_count md))). split.
    { apply fails_Ok, decode_varint_iff; [done|]. unfold metadata_encode. rewrite <- app_assoc. eauto. }
    destruct md as [f count sh]. unfold metadata_encode. cbn [fee transparent_input_count has_shielded_components] in *.
    destruct f as [f| |]; cbn [is_exact not_applicable fee_wf] in *; subst c.
    + rewrite <- app_assoc, slice_from_app by done. cbn [panics mbind res_bind].
      rewrite (proj2 (decode_varint_iff (encode_varint f ++ rest) MAX_MONEY_ZAT f (blen (encode_varint f)) eq_refl))
        by (exists rest; split_and!; [done|done|lia|lia]).
      cbn [fails mbind res_bind]. rewrite Hv. cbn [fails mbind res_bind]. by rewrite blen_app.
    + cbn [mbind res_bind]. rewrite Hv. cbn [fails mbind res_bind]. by rewrite app_nil_r.
    + cbn [mbind res_bind]. rewrite Hv. cbn [fails mbind res_bind]. by rewrite app_nil_r.
Qed.

Lemma decode_varint_used bytes maximum v n : maximum < 2 ^ 64 -> decode_varint bytes maximum = Ok (v, n) -> n <= blen bytes.
Proof.
  intros Hm H. apply decode_varint_iff in H as (rest & -> & -> & _); [|done]. rewrite blen_app.
  pose proof (blen_nonneg rest). lia.
Qed.

Lemma metadata_decode_total bytes flags c : errs_only (fun _ => True) (metadata_decode bytes flags c).
Proof.
  unfold metadata_decode. case_match; [done|]. case_match; [done|].
  apply errs_only_bind; [by apply errs_only_fails|]. intros [count used] Hc. unwrap_ok Hc.
  apply errs_only_bind.
  - case_match; [|done]. unfold slice_from.
    rewrite (proj2 (Z.leb_le _ _)) by (by eapply decode_varint_used in Hc).
    cbn [panics mbind res_bind]. apply errs_only_bind; [by apply errs_only_fails|]. by intros [].
  - intros [f u] _. apply errs_only_bind; [by apply errs_only_fails|done].
Qed.

Lemma metadata_encoded_len_spec m : metadata_wf m -> blen (metadata_encode m) = metadata_encoded_len m.
Proof.
  intros [Hc Hf]. unfold metadata_encode, metadata_encoded_len, u32_max in *. rewrite blen_app.
  rewrite varint_len_spec by lia. destruct (fee m); [|done..]. by rewrite varint_len_spec.
Qed.

(** Metadata take one to fifteen bytes. *)
Lemma metadata_encoded_len_bounds m : metadata_wf m -> 1 <= metadata_encoded_len m <= 15.
Proof.
  intros [Hc Hf]. unfold metadata_encoded_len, u32_max in *.
  pose proof (varint_len_bounds 5 (transparent_input_count m)) as H1.
  pose proof (fun f => varint_len_bounds 10 f) as H2.
  cbn -[varint_len] in H1, H2. specialize (H1 ltac:(lia) ltac:(lia)).
  destruct (fee m) as [f| |]; [|lia..]. cbn in Hf. specialize (H2 f ltac:(lia) ltac:(lia)). lia.
Qed.

(** ** Records of fixed width *)

Lemma slice_skip {A} (a b : list A) f t n :
  blen a = n -> n <= f -> slice f t (a ++ b) = slice (f - n) (t - n) b.
Proof.
  intros <- Hf. unfold slice, blen in *. replace (t - Z.of_nat (length a) - (f - Z.of_nat (length a))) with (t - f) by lia.
  rewrite drop_app_ge by lia. do 2 f_equal. lia.
Qed.

Lemma slice_head {A} (a b : list A) t : blen a = t -> slice 0 t (a ++ b) = a.
Proof. intros <-. unfold slice, blen. rewrite Z.sub_0_r, Nat2Z.id. cbn [Z.to_nat drop]. apply take_app_length. Qed.

Lemma slice_all {A} (a : list A) t : blen a = t -> slice 0 t a = a.
Proof. intros <-. unfold slice, blen. rewrite Z.sub_0_r, Nat2Z.id. cbn [Z.to_nat drop]. by apply take_ge. Qed.

Lemma blen_slice {A} f t (l : list A) : 0 <= f <= t -> t <= blen l -> blen (slice f t l) = t - f.
Proof. intros H1 H2. unfold slice, blen in *. rewrite length_take, length_drop. lia. Qed.

(** A slice is cut into two at a point inside it. *)
Lemma slice_split {A} f m t (l : list A) : 0 <= f <= m -> m <= t -> slice f t l = slice f m l ++ slice m t l.
Proof.
  intros H1 H2. unfold slice. replace (Z.to_nat (t - f)) with (Z.to_nat (m - f) + Z.to_nat (t - m))%nat by lia.
  rewrite <- take_take_drop, drop_drop. do 3 f_equal. lia.
Qed.

Lemma slice_self {A} (l : list A) t : t = blen l -> slice 0 t l = l.
Proof. intros ->. by apply slice_all. Qed.

Lemma blen_le_split n v : blen (le_split n v) = Z.of_nat n.
Proof. unfold blen. by rewrite length_le_split. Qed.

Lemma blen_zeros n : 0 <= n -> blen (zeros n) = n.
Proof. intros H. unfold blen, zeros. rewrite length_replicate. lia. Qed.

(** The fields of a record of 87 bytes. *)
Definition record (f a h v t i s k : list byte) : list byte := f ++ a ++ h ++ v ++ t ++ i ++ s ++ k.
Definition record_wf (f a h v t i s k : list byte) : Prop :=
  blen f = 1 /\ blen a = 2 /\ blen h = 4 /\ blen v = 8 /\ blen t = 32 /\ blen i = 4 /\ blen s = 32 /\ blen k = 4.

Lemma record_fields f a h v t i s k :
  record_wf f a h v t i s k ->
  let r := record f a h v t i s k in
  blen r = 87 /\ slice 0 1 r = f /\ slice 1 3 r = a /\ slice 3 7 r = h /\ slice 7 15 r = v /\
  slice 15 47 r = t /\ slice 47 51 r = i /\ slice 51 83 r = s /\ slice 83 87 r = k.
Proof.
  intros (Hf & Ha & Hh & Hv & Ht & Hi & Hs & Hk) r. unfold r, record.
  split_and!; [rewrite !blen_app; lia|..];
    repeat match goal with
    | |- slice ?from _ (?l ++ _) = _ =>
        lazymatch from with 0 => fail | _ => erewrite slice_skip by (first [eassumption|lia]) end
    end; cbn [Z.sub Z.add Z.opp Z.pos_sub Pos.pred_double Pos.pred];
    first [by apply slice_head|by apply slice_all].
Qed.

Lemma record_of_slices r : blen r = 87 ->
  r = record (slice 0 1 r) (slice 1 3 r) (slice 3 7 r) (slice 7 15 r) (slice 15 47 r) (slice 47 51 r)
        (slice 51 83 r) (slice 83 87 r) /\
  record_wf (slice 0 1 r) (slice 1 3 r) (slice 3 7 r) (slice 7 15 r) (slice 15 47 r) (slice 47 51 r)
        (slice 51 83 r) (slice 83 87 r).
Proof.
  intros Hr. split.
  - unfold record. rewrite <- !slice_split by lia. by rewrite slice_self.
  - repeat split; rewrite blen_slice; lia.
Qed.

(** ** Events of fixed width *)

Definition width (n : Z) (v : Z) : Prop := 0 <= v < 2 ^ (8 * n).

(** The values of the fields are those of their types. *)
Definition event_wf (e : TransparentEvent) : Prop :=
  match e with
  | Receive e => width 4 (r_height e) /\ width 2 (r_transaction_index e) /\ width 4 (output_index e) /\
                 width 8 (r_value e) /\ blen (r_txid e) = 32 /\
                 match r_metadata e with Some m => metadata_wf m | None => True end
  | Spend e => width 4 (s_height e) /\ width 2 (s_transaction_index e) /\ width 4 (input_index e) /\
               width 4 (spent_output_index e) /\ blen (spending_txid e) = 32 /\ blen (spent_txid e) = 32 /\
               match s_metadata e with Some m => metadata_wf m | None => True end
  end.

Lemma le_round n v : width (Z.of_nat n) v -> le_combine (le_split n v) = v.
Proof. apply le_combine_split_small. Qed.

Lemma le_round' n l : blen l = Z.of_nat n -> le_split n (le_combine l) = l /\ width (Z.of_nat n) (le_combine l).
Proof.
  unfold blen. intros H. apply Nat2Z.inj in H. split; [by rewrite <- H, split_le_combine|].
  by apply le_combine_range.
Qed.

Lemma le_combine_one b : le_combine [b] = byte.unsigned b.
Proof. apply Z.lor_0_r. Qed.

Lemma known_flags_cases f : 0 <= f < 256 -> Z.land f (Z.lnot 3) = 0 -> f = 0 \/ f = 1 \/ f = 2 \/ f = 3.
Proof.
  intros Hf H.
  assert (forallb (fun n => let f := Z.of_nat n in
    negb (Z.land f (Z.lnot 3) =? 0) || (f =? 0) || (f =? 1) || (f =? 2) || (f =? 3)) (seq 0 256) = true)
    as Hall by (vm_compute; reflexivity).
  rewrite forallb_forall in Hall. specialize (Hall (Z.to_nat f)).
  cbv zeta in Hall. rewrite Z2Nat.id in Hall by lia. rewrite H in Hall. cbn [Z.eqb negb orb] in Hall.
  assert (In (Z.to_nat f) (seq 0 256)) as Hin by (apply in_seq; lia). specialize (Hall Hin). clear Hin.
  repeat (apply orb_true_iff in Hall as [Hall|Hall%Z.eqb_eq]); [apply Z.eqb_eq in Hall|..]; auto.
Qed.

(** The parts of an encoded event. *)
Definition legacy_fields (P : list byte -> list byte -> list byte -> list byte -> list byte -> list byte ->
    list byte -> list byte -> Prop) (e : TransparentEvent) : Prop :=
  match e with
  | Receive e => P [byte.of_Z (if coinbase e then 2 else 0)] (le_split 2 (r_transaction_index e))
      (le_split 4 (r_height e)) (le_split 8 (r_value e)) (r_txid e) (le_split 4 (output_index e)) (zeros 32) (zeros 4)
  | Spend e => P [byte.of_Z 1] (le_split 2 (s_transaction_index e)) (le_split 4 (s_height e)) (zeros 8)
      (spending_txid e) (le_split 4 (input_index e)) (spent_txid e) (le_split 4 (spent_output_index e))
  end.

Lemma legacy_record e : event_wf e ->
  legacy_fields (fun f a h v t i s k => legacy_bytes e = record f a h v t i s k /\ record_wf f a h v t i s k) e.
Proof.
  destruct e as [e|e]; intros H; cbn in H; destruct_and?; cbn [legacy_fields]; (split; [reflexivity|]);
    unfold record_wf; rewrite ?blen_le_split, ?blen_zeros by lia; done.
Qed.

Lemma blen_legacy e : event_wf e -> blen (legacy_bytes e) = EVENT_BYTES.
Proof. intros H%legacy_record. destruct e; destruct H as [-> H]; by apply record_fields in H as [? _]. Qed.

Lemma from_legacy_of e : event_wf e -> all_zero (legacy_bytes e) = false ->
  from_legacy_bytes (legacy_bytes e) = Ok (with_metadata e None).
Proof.
  intros Hwf Hz. unfold from_legacy_bytes. rewrite blen_legacy, Hz by done. cbn [Z.eqb negb EVENT_BYTES Pos.eqb].
  pose proof (legacy_record e Hwf) as Hr.
  destruct e as [e|e]; cbn in Hwf; destruct_and?; destruct Hr as [-> (_ & E0 & E1 & E2 & E3 & E4 & E5 & E6 & E7)%record_fields];
    rewrite E0, E1, E2, E3, E4, E5, E6, E7, !le_round by done.
  - rewrite bool_decide_eq_true_2 by done. destruct e as [m h t a o v []]; reflexivity.
  - reflexivity.
Qed.

Lemma from_legacy_Ok bytes e :
  from_legacy_bytes bytes = Ok e ->
  event_wf e /\ event_metadata e = None /\ bytes = legacy_bytes e /\ all_zero bytes = false.
Proof.
  unfold from_legacy_bytes. destruct (Z.eqb_spec (blen bytes) EVENT_BYTES) as [Hl|]; [|done]. cbn [negb].
  destruct (all_zero bytes) eqn:Hz; [done|]. apply record_of_slices in Hl as [Hr Hw].
  set (s0 := slice 0 1 bytes) in *. set (s1 := slice 1 3 bytes) in *. set (s2 := slice 3 7 bytes) in *.
  set (s3 := slice 7 15 bytes) in *. set (s4 := slice 15 47 bytes) in *. set (s5 := slice 47 51 bytes) in *.
  set (s6 := slice 51 83 bytes) in *. set (s7 := slice 83 87 bytes) in *.
  clearbody s0 s1 s2 s3 s4 s5 s6 s7. destruct Hw as (H0 & H1 & H2 & H3 & H4 & H5 & H6 & H7).
  apply (le_round' 2) in H1 as [R1 W1]. apply (le_round' 4) in H2 as [R2 W2]. apply (le_round' 8) in H3 as [R3 W3].
  apply (le_round' 4) in H5 as [R5 W5]. apply (le_round' 4) in H7 as [R7 W7].
  destruct s0 as [|b [|? ?]]; [done| |by unfold blen in H0; cbn in H0; lia]. rewrite le_combine_one.
  destruct (Z.eqb_spec (Z.land (byte.unsigned b) (Z.lnot 3)) 0) as [Hk|]; [|done]. cbn [negb].
  apply known_flags_cases in Hk; [|apply byte_range]. pose proof (byte.of_Z_unsigned b) as Hb.
  destruct Hk as [Hk|[Hk|[Hk|Hk]]]; rewrite Hk in *; cbn [Z.land Pos.land Z.eqb negb].
  2,4: destruct (Z.eqb_spec (le_combine s3) 0) as [E3|]; [|done]; cbn [negb]; try done.
  1,3: case_bool_decide as E6; [|done]; destruct (Z.eqb_spec (le_combine s7) 0) as [E7|]; [|done]; cbn [negb orb].
  all: intros [= <-]; (split; [by cbn; auto 10|]); split_and!; try done;
    rewrite Hr; unfold record, legacy_bytes; cbn [r_height r_value r_txid r_transaction_index output_index coinbase
      s_height spending_txid s_transaction_index input_index spent_txid spent_output_index];
    rewrite ?R1, ?R2, ?R3, ?R5, ?R7, <- Hb.
  - rewrite E6. rewrite E7 in R7. by rewrite <- R7.
  - rewrite E6. rewrite E7 in R7. by rewrite <- R7.
  - rewrite E3 in R3. by rewrite <- R3.
Qed.

(** ** Whole events *)

Lemma with_metadata_same e : with_metadata (with_metadata e None) (event_metadata e) = e.
Proof. by destruct e as [[]|[]]. Qed.

Lemma event_metadata_wf e m : event_wf e -> event_metadata e = Some m -> metadata_wf m.
Proof. destruct e as [[]|[]]; cbn; intros Hwf ->; apply Hwf. Qed.

Lemma legacy_with_metadata e m : legacy_bytes (with_metadata e m) = legacy_bytes e.
Proof. by destruct e. Qed.
Lemma event_metadata_with e m : event_metadata (with_metadata e m) = m.
Proof. by destruct e. Qed.
Lemma event_coinbase_with e m : event_coinbase (with_metadata e m) = event_coinbase e.
Proof. by destruct e. Qed.
Lemma event_wf_with e m : event_wf e -> match m with Some m => metadata_wf m | None => True end ->
  event_wf (with_metadata e m).
Proof. destruct e; cbn; intros; destruct_and?; done. Qed.

Lemma metadata_flags_range m : 0 <= metadata_flags m < 256 /\ metadata_flags m <> 0.
Proof. unfold metadata_flags. by destruct (is_exact (fee m)), (has_shielded_components m). Qed.

Lemma validate_metadata_inner e m :
  event_metadata e = Some m -> validate_metadata e = Ok () -> metadata_validate m (event_coinbase e) = Ok ().
Proof.
  intros Hm H. unfold validate_metadata in H. rewrite Hm in H. case_match; [done|].
  bind_step H as u Hu. by destruct u.
Qed.

Lemma from_bytes_total bytes : errs_only (fun _ => True) (from_bytes bytes).
Proof.
  unfold from_bytes. case_match; [done|]. apply errs_only_bind; [by apply errs_only_fails|]. intros e _.
  apply errs_only_bind; [|intros; apply errs_only_bind; [by apply errs_only_fails|done]].
  case_match; [|done]. apply errs_only_bind; [apply metadata_decode_total|]. intros [m u] _. by case_match.
Qed.

Lemma from_bytes_Ok bytes e : from_bytes bytes = Ok e -> event_wf e /\ to_bytes e = Ok bytes.
Proof.
  unfold from_bytes, to_bytes.
  destruct (Z.ltb_spec (blen bytes) EVENT_BYTES) as [|Hge]; [done|].
  destruct (Z.ltb_spec MAX_EVENT_BYTES (blen bytes)) as [|Hmax]; [done|]. cbn [orb]. intros H.
  bind_step H as e0 H0. bind_step H as e1 H1. bind_step H as u Hv. destruct u. injection H as <-.
  apply from_legacy_Ok in H0 as (Hwf & Hm0 & Hb & Hz). rewrite Hv. cbn [mbind res_bind].
  destruct (Z.ltb_spec EVENT_BYTES (blen bytes)) as [Hlt|Hle].
  + bind_step H1 as mu Hd. destruct mu as [m used]. case_match eqn:Eq; [done|]. injection H1 as <-.
    apply orb_false_iff in Eq as [Em Eu]. apply negb_false_iff in Em, Eu. apply bool_decide_eq_true in Em.
    apply Z.eqb_eq in Eu.
    pose proof (le_round' 1 (slice EVENT_BYTES (EVENT_BYTES + 1) bytes)) as [R W];
      [rewrite blen_slice; unfold EVENT_BYTES in *; lia|].
    apply metadata_decode_iff in Hd as [(_ & -> & _)|(md & rest & -> & Hfl & Hrest & -> & Hmd & _)];
      [by destruct Em|..|exact W].
    split; [by apply event_wf_with|]. rewrite legacy_with_metadata, event_metadata_with, <- Hb, Hz. f_equal.
    rewrite <- (slice_self bytes (blen bytes)) at 2 by done.
    rewrite (slice_split 0 EVENT_BYTES (blen bytes)), (slice_split EVENT_BYTES (EVENT_BYTES + 1) (blen bytes)) by (unfold EVENT_BYTES in *; lia).
    f_equal. rewrite <- R, Hfl. cbn [le_split app]. f_equal.
    assert (rest = []) as ->.
    { apply (f_equal blen) in Hrest. rewrite blen_app in Hrest. unfold bdrop, blen in *. rewrite length_drop in Hrest.
      destruct rest; [done|]. cbn [length] in Hrest. unfold EVENT_BYTES in *. lia. }
    rewrite app_nil_r in Hrest. rewrite <- Hrest. unfold bdrop, slice. rewrite take_ge; [done|].
    unfold blen. rewrite length_drop. lia.
  + injection H1 as <-. split; [done|]. rewrite Hm0, app_nil_r, <- Hb, Hz. f_equal.
    apply slice_self. lia.
Qed.

Lemma from_bytes_of bytes e : event_wf e /\ to_bytes e = Ok bytes -> from_bytes bytes = Ok e.
Proof.
  unfold from_bytes, to_bytes.
  intros [Hwf H]. bind_step H as u Hv. destruct u. destruct (all_zero (legacy_bytes e)) eqn:Hz; [done|].
  injection H as <-. pose proof (blen_legacy e Hwf) as Hl.
  set (tail := match event_metadata e with Some m => _ | None => [] end).
  assert (blen tail <= 16 /\ (tail = [] <-> event_metadata e = None)) as [Ht Hnil].
  { subst tail. destruct (event_metadata e) as [m|] eqn:Em; [|by split].
    pose proof (event_metadata_wf _ _ Hwf Em) as Hm. split; [|by split].
    pose proof (metadata_encoded_len_spec m Hm) as E. pose proof (metadata_encoded_len_bounds m Hm).
    unfold blen in *. cbn [length]. lia. }
  pose proof (blen_nonneg tail) as Htn. rewrite blen_app, Hl. unfold MAX_EVENT_BYTES, EVENT_BYTES in *.
  rewrite (proj2 (Z.ltb_ge _ _)), (proj2 (Z.ltb_ge _ _)) by lia. cbn [orb].
  rewrite slice_head, from_legacy_of by done. cbn [fails mbind res_bind].
  destruct (event_metadata e) as [m|] eqn:Em.
  + subst tail. pose proof (event_metadata_wf _ _ Hwf Em) as Hm.
    rewrite (proj2 (Z.ltb_lt _ _)) by (unfold blen in *; cbn [length] in *; lia).
    pose proof (metadata_flags_range m) as [Hfr _].
    change (byte.of_Z (metadata_flags m) :: metadata_encode m) with ([byte.of_Z (metadata_flags m)] ++ metadata_encode m).
    rewrite slice_skip with (n := 87) by (done || lia). rewrite slice_head by done. rewrite le_combine_one.
    rewrite byte.unsigned_of_Z. replace (byte.wrap (metadata_flags m)) with (metadata_flags m) by (symmetry; apply Z.mod_small; lia).
    rewrite app_assoc, bdrop_app by (rewrite blen_app, Hl; done).
    rewrite (proj2 (metadata_decode_iff (metadata_encode m) (metadata_flags m) (event_coinbase (with_metadata e None))
      (Some m) (blen (metadata_encode m)) Hfr)).
    2: { right. exists m, []. rewrite app_nil_r, event_coinbase_with.
      split_and!; [done..|by apply validate_metadata_inner]. }
    cbn [mbind res_bind]. rewrite bool_decide_eq_true_2 by done. rewrite !blen_app. cbn [negb orb].
    rewrite (proj2 (Z.eqb_eq _ _)) by (change (blen [byte.of_Z (metadata_flags m)]) with 1; lia).
    cbn [negb mbind res_bind].
    rewrite <- Em, with_metadata_same, Hv. done.
  + rewrite (proj2 Hnil) by done. change (blen (@nil byte)) with 0.
    rewrite (proj2 (Z.ltb_ge _ _)) by lia. cbn [mbind res_bind].
    replace (with_metadata e None) with e by (destruct e as [[]|[]]; cbn in Em; by subst).
    by rewrite Hv.
Qed.

(** A transparent event and its bytes determine each other: [from_bytes] accepts exactly
    what [to_bytes] writes for some event whose fields have the widths of their types, and
    returns that event; on other bytes it returns an error and does not panic. *)
Theorem event_bytes_exact bytes :
  errs_only (fun _ => True) (from_bytes bytes) /\
  forall e, from_bytes bytes = Ok e <-> event_wf e /\ to_bytes e = Ok bytes.
Proof.
  split; [apply from_bytes_total|]. intros e. split; [apply from_bytes_Ok|apply from_bytes_of].
Qed.

(** ** Consistency *)

Lemma insert_same_Ok {K V} `{Countable K, EqDecision V} (k : K) (v : V) m what m' :
  insert_same k v m what = Ok m' <-> m' = <[k:=v]> m /\ (forall v', m !! k = Some v' -> v' = v).
Proof. unfold insert_same. destruct (m !! k) as [v'|]; [case_decide|]; naive_solver. Qed.

(** The entries of the maps are those of the events seen so far. *)
Definition input_of (e : TransparentEvent) : option (Txid * Z * (Txid * Z)) :=
  match e with
  | Spend s => Some ((spending_txid s, input_index s), (spent_txid s, spent_output_index s))
  | Receive _ => None
  end.
Definition consistent (e e' : TransparentEvent) : Prop :=
  (event_txid e = event_txid e' -> event_facts e = event_facts e') /\
  (forall k v v', input_of e = Some (k, v) -> input_of e' = Some (k, v') -> v = v').

Definition seen_ok (seen : list TransparentEvent)
    (st : gmap Txid (Z * Z * option TransactionMetadata * bool) * gmap (Txid * Z) (Txid * Z)) : Prop :=
  (forall t f, fst st !! t = Some f <-> exists e, e ∈ seen /\ event_txid e = t /\ event_facts e = f) /\
  (forall k v, snd st !! k = Some v <-> exists e, e ∈ seen /\ input_of e = Some (k, v)).

Lemma check_event_step seen st e st' :
  seen_ok seen st ->
  check_event st e = Ok st' <->
  validate_metadata e = Ok () /\ Forall (fun e' => consistent e' e) seen /\
  st' = (<[event_txid e := event_facts e]> (fst st),
         match input_of e with Some (k, v) => <[k := v]> (snd st) | None => snd st end).
Proof.
  intros [Ht Hi]. unfold check_event. rewrite Forall_forall. split.
  - intros H. bind_step H as u Hv. destruct u. bind_step H as ts Hts. bind_step H as inp His. injection H as <-.
    apply insert_same_Ok in Hts as [-> Hts]. split; [done|].
    assert (inp = match input_of e with Some (k, v) => <[k := v]> (snd st) | None => snd st end /\
      forall k v v', snd st !! k = Some v' -> input_of e = Some (k, v) -> v' = v) as [-> Hin].
    { destruct e as [r|s]; cbn in *; [by injection His as <-|]. apply insert_same_Ok in His as [-> His].
      split; [done|]. intros k v v' Hk [= <- <-]. by apply His. }
    split; [|done]. intros e' He'. split.
    + intros Heq. apply Hts, Ht. by exists e'.
    + intros k v v' H1 H2. eapply Hin; [|done]. apply Hi. by exists e'.
  - intros (Hv & Hc & ->). rewrite Hv. cbn [mbind res_bind].
    rewrite (proj2 (insert_same_Ok (event_txid e) (event_facts e) (fst st) _ (<[event_txid e := event_facts e]> (fst st)))).
    2: { split; [done|]. intros f (e' & He' & E1 & <-)%Ht. by apply Hc. }
    cbn [mbind res_bind]. destruct e as [r|s]; [done|]. cbn [input_of].
    rewrite (proj2 (insert_same_Ok (spending_txid s, input_index s) (spent_txid s, spent_output_index s) (snd st) _
      (<[(spending_txid s, input_index s) := (spent_txid s, spent_output_index s)]> (snd st)))); [done|].
    split; [done|].
    intros v (e' & He' & E)%Hi. by eapply Hc.
Qed.

Lemma seen_ok_snoc seen st e :
  seen_ok seen st -> Forall (fun e' => consistent e' e) seen ->
  seen_ok (seen ++ [e]) (<[event_txid e := event_facts e]> (fst st),
         match input_of e with Some (k, v) => <[k := v]> (snd st) | None => snd st end).
Proof.
  intros [Ht Hi] Hc. rewrite Forall_forall in Hc. split; cbn [fst snd].
  - intros t f. setoid_rewrite elem_of_app. setoid_rewrite list_elem_of_singleton.
    destruct (decide (event_txid e = t)) as [<-|Hne].
    + rewrite lookup_insert_eq. split; [intros [= <-]; eauto|]. intros (e' & [He'| ->] & E1 & <-); [|done].
      f_equal. symmetry. by apply Hc.
    + rewrite lookup_insert_ne, Ht by done. naive_solver.
  - intros k v. setoid_rewrite elem_of_app. setoid_rewrite list_elem_of_singleton.
    destruct (input_of e) as [[k' v']|] eqn:Ee; [|rewrite Hi; naive_solver].
    destruct (decide (k' = k)) as [->|Hne].
    + rewrite lookup_insert_eq. split; [intros [= <-]; eauto|]. intros (e' & [He'| ->] & E1); [|congruence].
      f_equal. symmetry. by eapply Hc.
    + rewrite lookup_insert_ne, Hi by done. naive_solver.
Qed.

(** The events of a set of transactions are consistent exactly when they are valid one by one
    and agree two by two. *)
Lemma check_transaction_consistency_iff events :
  check_transaction_consistency events = Ok () <->
  Forall (fun e => validate_metadata e = Ok ()) events /\ pairwise consistent events.
Proof.
  unfold check_transaction_consistency.
  enough (forall seen st, seen_ok seen st -> (exists st', foldM check_event st events = Ok st') <->
    Forall (fun e => validate_metadata e = Ok ()) events /\ pairwise consistent events /\
    Forall (fun e => Forall (fun e' => consistent e' e) seen) events) as H.
  { assert (seen_ok [] (∅, ∅)) as H0.
    { split; intros ? ?; cbn; rewrite lookup_empty; split; try done; intros (e & He & _); by apply elem_of_nil in He. }
    specialize (H [] _ H0). split.
    - intros Hr. bind_step Hr as st' Hst. destruct (proj1 H) as (? & ? & _); eauto.
    - intros [Hv Hp]. destruct (proj2 H) as [st' ->]; [|done]. split_and!; [done|done|]. by apply Forall_true. }
  induction events as [|e events IH]; intros seen st Hst; cbn [foldM pairwise].
  { split; [intros _; split_and!; constructor|intros _; by eexists]. }
  rewrite !Forall_cons. split.
  - intros [st' H]. bind_step H as st1 H1. apply (check_event_step seen) in H1 as (Hv & Hc & ->); [|done].
    destruct (proj1 (IH _ _ (seen_ok_snoc _ _ _ Hst Hc))) as (Hv' & Hp & Hs); [eauto|].
    rewrite Forall_forall in Hs. split_and!; [done|done| |done|done|].
    + apply Forall_forall. intros e' He'. specialize (Hs e' He'). apply Forall_app in Hs as [_ Hs].
      by apply Forall_cons_1 in Hs as [? _].
    + apply Forall_forall. intros e' He'. specialize (Hs e' He'). by apply Forall_app in Hs as [Hs _].
  - intros ([Hv Hvs] & [Hp Hps] & [Hc Hs]).
    rewrite (proj2 (check_event_step seen st e _ Hst)) by done. cbn [mbind res_bind].
    apply (IH _ _ (seen_ok_snoc _ _ _ Hst Hc)). split_and!; [done|done|].
    rewrite Forall_forall in *. intros e' He'. apply Forall_app. split; [by apply Hs|]. constructor; [by apply Hp|done].
Qed.
