(* ===== verification/ShardCompact.v ===== *)
(** * Compact events ([zakura/pir-protocol/src/transparent/shard/compact.rs], [layout.rs])

    Events as they lie in the rows of the private tables: without the fields that their kind
    does not use, and without the outpoint of a spend that directly follows the receive it
    consumes.  The decoder accepts exactly what the encoder writes. *)

From S2P Require Import Prelude BitStream ShardEvents ShardEventProofs.

Definition RECEIVE_BYTES : Z := 51.
Definition SPEND_BYTES : Z := 79.
Definition LOCAL_SPEND_BYTES : Z := 43.
Definition LOCAL_OUTPOINT : Z := 4.
Definition EVENTS_PER_PAGE : Z := 86.

(** [RecordError]; messages are given without the numbers in them. *)
Inductive RecordError : Type :=
| RecordLength (got want : Z)
| ScriptTooLong (n : Z)
| Reserved
| Malformed (what : string)
| EventFailed (e : EventError)
| TooManyEntries (n : Z)
| TooManyEvents (n : Z).

(** [local]: the spend consumes the output of the event before it *)
Definition local (e : TransparentEvent) (previous : option TransparentEvent) : bool :=
  match previous, e with
  | Some (Receive r), Spend s =>
      bool_decide (r_txid r = spent_txid s /\ output_index r = spent_output_index s)
  | _, _ => false
  end.

(** [event_len] and [encoded_len] *)
Definition event_len (e : TransparentEvent) (previous : option TransparentEvent) : Z :=
  match e with
  | Receive _ => RECEIVE_BYTES
  | Spend _ => if local e previous then LOCAL_SPEND_BYTES else SPEND_BYTES
  end + match event_metadata e with Some m => metadata_encoded_len m | None => 0 end.

Fixpoint encoded_len_from (previous : option TransparentEvent) (l : list TransparentEvent) : Z :=
  match l with
  | [] => 0
  | e :: l => event_len e previous + encoded_len_from (Some e) l
  end.
Definition encoded_len (l : list TransparentEvent) : Z := encoded_len_from None l.

(** The record that the fixed encoding reserves. *)
Definition is_sentinel (e : TransparentEvent) : bool :=
  match e with
  | Receive r => (r_height r =? 0) && (r_transaction_index r =? 0) && (r_value r =? 0)
                 && bool_decide (r_txid r = zeros 32) && (output_index r =? 0) && negb (coinbase r)
  | Spend _ => false
  end.

Definition flags_of (m : option TransactionMetadata) : Z :=
  match m with Some m => metadata_flags m | None => 0 end.
Definition metadata_bytes (m : option TransactionMetadata) : list byte :=
  match m with Some m => metadata_encode m | None => [] end.

(** [encode]: one iteration of the loop, and the loop *)
Definition encode_event (previous : option TransparentEvent) (e : TransparentEvent) : run RecordError (list byte) :=
  _ ← fails (map_err EventFailed (validate_metadata e));
  if is_sentinel e then Err (Failed (EventFailed Empty)) else
  raw ← panics (to_legacy_bytes e);
  let raw0 := Z.lor (le_combine (slice 0 1 raw)) (flags_of (event_metadata e)) in
  Ok (match e with
      | Receive _ => byte.of_Z raw0 :: slice 1 RECEIVE_BYTES raw
      | Spend _ =>
          let reference := local e previous in
          byte.of_Z (Z.lor raw0 (if reference then LOCAL_OUTPOINT else 0))
          :: slice 1 7 raw ++ slice 15 51 raw ++ (if reference then [] else slice 51 EVENT_BYTES raw)
      end ++ metadata_bytes (event_metadata e)).

Fixpoint encode_from (previous : option TransparentEvent) (l : list TransparentEvent) : run RecordError (list byte) :=
  match l with
  | [] => Ok []
  | e :: l =>
      b ← encode_event previous e;
      bs ← encode_from (Some e) l;
      Ok (b ++ bs)
  end.
Definition encode (events : list TransparentEvent) : run RecordError (list byte) := encode_from None events.

(** [decode]: one iteration of the loop on [&bytes[at..]], with the event that was decoded
    last, and the loop *)
Definition decode_event (last : option TransparentEvent) (bytes : list byte)
    : run RecordError (TransparentEvent * Z) :=
  flags ← fails (ok_or (byte.unsigned <$> head bytes) (Malformed "truncated compact event"));
  if negb (Z.land flags (Z.lnot 63) =? 0)
     || ((Z.land flags 1 =? 0) && negb (Z.land flags LOCAL_OUTPOINT =? 0)) || (Z.land flags 3 =? 3)
  then Err (Failed (EventFailed (Flags flags))) else
  let len := if Z.land flags 1 =? 0 then RECEIVE_BYTES
             else if negb (Z.land flags LOCAL_OUTPOINT =? 0) then LOCAL_SPEND_BYTES else SPEND_BYTES in
  body ← fails (ok_or (get_prefix len bytes) (Malformed "truncated compact event"));
  raw ← (if Z.land flags 1 =? 0 then
           Ok (byte.of_Z (Z.land flags 3) :: slice 1 RECEIVE_BYTES body ++ zeros 36)
         else
           outpoint ← (if negb (Z.land flags LOCAL_OUTPOINT =? 0) then
                         match last with
                         | Some (Receive r) => Ok (r_txid r ++ le_split 4 (output_index r))
                         | _ => Err (Failed (Malformed "local outpoint without preceding receive"))
                         end
                       else Ok (slice 43 SPEND_BYTES body));
           Ok (byte.of_Z 1 :: slice 1 7 body ++ zeros 8 ++ slice 7 43 body ++ outpoint));
  rest ← panics (slice_from len bytes);
  mu ← match metadata_decode rest (Z.land flags 56) (negb (Z.land flags 2 =? 0)) with
       | Ok mu => Ok mu
       | Err (Failed e) => Err (Failed (EventFailed e))
       | Err (Panicked p) => Err (Panicked p)
       end;
  let (metadata, metadata_len) := mu : option TransactionMetadata * Z in
  e ← fails (map_err EventFailed (from_legacy_bytes raw));
  let e := with_metadata e metadata in
  _ ← fails (map_err EventFailed (validate_metadata e));
  if negb (event_len e last =? len + metadata_len)
  then Err (Failed (Malformed "noncanonical full outpoint after its receive"))
  else Ok (e, len + metadata_len).

Fixpoint decode_from (count : nat) (last : option TransparentEvent) (bytes : list byte)
    : run RecordError (list TransparentEvent * Z) :=
  match count with
  | O => Ok ([], 0)
  | S count =>
      eu ← decode_event last bytes;
      let (e, used) := eu : TransparentEvent * Z in
      rest ← panics (slice_from used bytes);
      lu ← decode_from count (Some e) rest;
      let (l, used') := lu : list TransparentEvent * Z in
      Ok (e :: l, used + used')
  end.
Definition decode (bytes : list byte) (count : Z) : run RecordError (list TransparentEvent * Z) :=
  if EVENTS_PER_PAGE <? count then Err (Failed (TooManyEvents count))
  else decode_from (Z.to_nat count) None bytes.

(** ** One event *)

(** The bytes of the five fields that both kinds share, and of the outpoint. *)
Definition receive_body (r : ReceiveEvent) : list byte :=
  le_split 2 (r_transaction_index r) ++ le_split 4 (r_height r) ++ le_split 8 (r_value r) ++ r_txid r
  ++ le_split 4 (output_index r).
Definition spend_place (s : SpendEvent) : list byte := le_split 2 (s_transaction_index s) ++ le_split 4 (s_height s).
Definition spend_input (s : SpendEvent) : list byte := spending_txid s ++ le_split 4 (input_index s).
Definition spend_outpoint (s : SpendEvent) : list byte := spent_txid s ++ le_split 4 (spent_output_index s).

(** The flags of an event in a row, and its bytes. *)
Definition compact_flags (previous : option TransparentEvent) (e : TransparentEvent) : Z :=
  match e with
  | Receive r => Z.lor (if coinbase r then 2 else 0) (flags_of (event_metadata e))
  | Spend s => Z.lor (Z.lor 1 (flags_of (event_metadata e))) (if local e previous then 4 else 0)
  end.
Definition compact_bytes (previous : option TransparentEvent) (e : TransparentEvent) : list byte :=
  byte.of_Z (compact_flags previous e)
  :: match e with
     | Receive r => receive_body r
     | Spend s => spend_place s ++ spend_input s ++ (if local e previous then [] else spend_outpoint s)
     end ++ metadata_bytes (event_metadata e).

Lemma slices_of_receive r : event_wf (Receive r) ->
  slice 0 1 (legacy_bytes (Receive r)) = [byte.of_Z (if coinbase r then 2 else 0)] /\
  slice 1 51 (legacy_bytes (Receive r)) = receive_body r.
Proof.
  intros H. apply legacy_record in H as [-> (_ & E0 & E1 & E2 & E3 & E4 & E5 & _ & _)%record_fields].
  split; [done|]. rewrite (slice_split 1 3), (slice_split 3 7), (slice_split 7 15), (slice_split 15 47) by lia.
  by rewrite E1, E2, E3, E4, E5.
Qed.

Lemma slices_of_spend s : event_wf (Spend s) ->
  slice 0 1 (legacy_bytes (Spend s)) = [byte.of_Z 1] /\
  slice 1 7 (legacy_bytes (Spend s)) = spend_place s /\ slice 15 51 (legacy_bytes (Spend s)) = spend_input s /\
  slice 51 87 (legacy_bytes (Spend s)) = spend_outpoint s.
Proof.
  intros H. apply legacy_record in H as [-> (_ & E0 & E1 & E2 & E3 & E4 & E5 & E6 & E7)%record_fields].
  split; [done|]. rewrite (slice_split 1 3 7), (slice_split 15 47 51), (slice_split 51 83 87) by lia.
  by rewrite E1, E2, E4, E5, E6, E7.
Qed.

Lemma all_zero_app l k : all_zero (l ++ k) = all_zero l && all_zero k.
Proof. apply forallb_app. Qed.

Lemma all_zero_zeros l : all_zero l = true <-> l = zeros (blen l).
Proof.
  unfold zeros, blen. rewrite Nat2Z.id. induction l as [|b l IH]; [done|]. cbn [all_zero forallb length replicate].
  rewrite andb_true_iff, Z.eqb_eq. fold (all_zero l). rewrite IH. split.
  - intros [Hb Hl]. f_equal; [|done]. rewrite <- (byte.of_Z_unsigned b), Hb. done.
  - by intros [= -> Hl].
Qed.

Lemma all_zero_le n v : width (Z.of_nat n) v -> all_zero (le_split n v) = (v =? 0).
Proof.
  intros Hv. apply Bool.eq_iff_eq_true. rewrite all_zero_zeros, blen_le_split, Z.eqb_eq. unfold zeros. rewrite Nat2Z.id.
  assert (le_split n 0 = replicate n Byte.x00) as Hn.
  { clear. induction n as [|n IH]; [done|]. change (le_split (S n) 0) with (byte.of_Z 0 :: le_split n (Z.shiftr 0 8)).
    rewrite Z.shiftr_0_l, IH. done. }
  rewrite <- Hn. split; [|by intros ->]. intros E. apply (f_equal le_combine) in E.
  rewrite (le_round n v Hv), le_round in E; [done|]. split; [done|]. apply Z.pow_pos_nonneg; lia.
Qed.

(** The sentinel is the event whose record is all zero. *)
Lemma sentinel_all_zero e : event_wf e -> is_sentinel e = all_zero (legacy_bytes e).
Proof.
  destruct e as [r|s]; intros H; cbn in H; destruct_and?; [|done].
  unfold legacy_bytes. rewrite !all_zero_app, !all_zero_le by done.
  assert (all_zero (r_txid r) = bool_decide (r_txid r = zeros 32)) as ->.
  { apply Bool.eq_iff_eq_true. rewrite all_zero_zeros, bool_decide_eq_true. match goal with H : blen _ = _ |- _ => by rewrite H end. }
  cbn [is_sentinel]. change (all_zero (zeros 32)) with true. change (all_zero (zeros 4)) with true.
  destruct (coinbase r); cbn [all_zero forallb negb]; rewrite ?andb_true_r, ?andb_false_r; [done|].
  cbn. destruct (r_height r =? 0), (r_transaction_index r =? 0), (r_value r =? 0), (output_index r =? 0),
    (bool_decide (r_txid r = zeros 32)); done.
Qed.

(** What one iteration of the encoder writes. *)
Lemma encode_event_Ok previous e b : event_wf e ->
  encode_event previous e = Ok b <->
  validate_metadata e = Ok () /\ is_sentinel e = false /\ b = compact_bytes previous e.
Proof.
  intros Hwf. unfold encode_event, to_legacy_bytes. rewrite <- (sentinel_all_zero e Hwf).
  destruct (validate_metadata e) as [[]|err]; cbn [fails map_err mbind res_bind]; [|naive_solver].
  destruct (is_sentinel e) eqn:Hs; cbn [negb assert_that panics mbind res_bind]; [naive_solver|].
  unfold compact_bytes, compact_flags. destruct e as [r|s].
  - destruct (slices_of_receive r Hwf) as [E0 E1]. unfold RECEIVE_BYTES. rewrite E0, E1, le_combine_one.
    replace (byte.unsigned (byte.of_Z (if coinbase r then 2 else 0))) with (if coinbase r then 2 else 0) by (by destruct (coinbase r)).
    naive_solver.
  - destruct (slices_of_spend s Hwf) as (E0 & E1 & E2 & E3). unfold EVENT_BYTES, LOCAL_OUTPOINT.
    rewrite E0, E1, E2, E3, le_combine_one. change (byte.unsigned (byte.of_Z 1)) with 1.
    rewrite <- !app_assoc. cbn [app]. rewrite <- !app_assoc. naive_solver.
Qed.

Lemma encode_event_total previous e : event_wf e -> errs_only (fun _ => True) (encode_event previous e).
Proof.
  intros Hwf. unfold encode_event, to_legacy_bytes. rewrite <- (sentinel_all_zero e Hwf).
  destruct (validate_metadata e) as [[]|err]; [|done]. cbn [fails map_err mbind res_bind].
  by destruct (is_sentinel e).
Qed.

Lemma blen_compact previous e : event_wf e -> blen (compact_bytes previous e) = event_len e previous.
Proof.
  intros Hwf.
  assert (blen (metadata_bytes (event_metadata e)) = match event_metadata e with Some m => metadata_encoded_len m | None => 0 end) as Hm.
  { destruct (event_metadata e) as [m|] eqn:Em; [|done]. apply metadata_encoded_len_spec. by eapply event_metadata_wf. }
  unfold compact_bytes, event_len. destruct e as [r|s]; cbn in Hwf; destruct_and?.
  - change (blen (?x :: ?l)) with (blen ([x] ++ l)). rewrite !blen_app, Hm. unfold receive_body. rewrite !blen_app, !blen_le_split.
    change (blen [_]) with 1. unfold RECEIVE_BYTES. lia.
  - match goal with |- blen (?x :: ?l) = _ => change (blen (x :: l)) with (blen ([x] ++ l)) end.
    rewrite !blen_app, Hm. unfold spend_place, spend_input. rewrite !blen_app, !blen_le_split.
    change (blen [_]) with 1. unfold SPEND_BYTES, LOCAL_SPEND_BYTES.
    destruct (local _ _); unfold spend_outpoint; rewrite ?blen_app, ?blen_le_split; change (blen (@nil byte)) with 0; lia.
Qed.

(** ** Flags *)

Lemma flags_of_cases m : flags_of m ∈ [0; 32; 40; 48; 56].
Proof. destruct m as [m|]; [|by left]. right. apply metadata_flags_cases. Qed.

Lemma flags_of_range m : 0 <= flags_of m < 256.
Proof. destruct m as [m|]; [apply metadata_flags_range|cbn; lia]. Qed.

Lemma compact_flags_facts previous e :
  let F := compact_flags previous e in
  0 <= F < 256 /\ Z.land F (Z.lnot 63) = 0 /\
  (Z.land F 1 =? 0) = match e with Receive _ => true | Spend _ => false end /\
  (Z.land F 4 =? 0) = negb (local e previous) /\ (Z.land F 3 =? 3) = false /\
  Z.land F 56 = flags_of (event_metadata e) /\ (Z.land F 2 =? 0) = negb (event_coinbase e) /\
  match e with Receive r => Z.land F 3 = if coinbase r then 2 else 0 | Spend _ => True end.
Proof.
  pose proof (flags_of_cases (event_metadata e)) as H. unfold compact_flags. cbv zeta. revert H.
  destruct e as [r|s]; cbn [event_metadata event_coinbase].
  - assert (local (Receive r) previous = false) as -> by (by destruct previous as [[]|]).
    intros H. destruct (coinbase r);
      repeat (apply elem_of_cons in H as [H|H]; [rewrite H; vm_compute; intuition discriminate|]); by apply elem_of_nil in H.
  - intros H. destruct (local _ _);
      repeat (apply elem_of_cons in H as [H|H]; [rewrite H; vm_compute; intuition discriminate|]); by apply elem_of_nil in H.
Qed.

(** Flags that pass the checks of the decoder are put together from their parts. *)
Definition flags_accepted (F : Z) : bool :=
  negb (negb (Z.land F (Z.lnot 63) =? 0) || ((Z.land F 1 =? 0) && negb (Z.land F 4 =? 0)) || (Z.land F 3 =? 3)).

Lemma accepted_parts F :
  0 <= F < 256 -> flags_accepted F = true ->
  if Z.land F 1 =? 0 then
    F = Z.lor (Z.land F 3) (Z.land F 56) /\ Z.land F 3 = (if Z.land F 2 =? 0 then 0 else 2)
  else F = Z.lor (Z.lor 1 (Z.land F 56)) (if Z.land F 4 =? 0 then 0 else 4) /\ (Z.land F 2 =? 0) = true.
Proof.
  intros HF Ha.
  assert (forallb (fun n => let F := Z.of_nat n in negb (flags_accepted F) ||
    (if Z.land F 1 =? 0 then
      (F =? Z.lor (Z.land F 3) (Z.land F 56)) && (Z.land F 3 =? (if Z.land F 2 =? 0 then 0 else 2))
     else (F =? Z.lor (Z.lor 1 (Z.land F 56)) (if Z.land F 4 =? 0 then 0 else 4)) && (Z.land F 2 =? 0)))
    (seq 0 256) = true) as Hall by (vm_compute; reflexivity).
  rewrite forallb_forall in Hall. specialize (Hall (Z.to_nat F)). cbv zeta in Hall.
  rewrite Z2Nat.id, Ha in Hall by lia. cbn [negb orb] in Hall.
  specialize (Hall ltac:(apply in_seq; lia)).
  destruct (Z.land F 1 =? 0); apply andb_true_iff in Hall as [H1 H2]; apply Z.eqb_eq in H1; split; [done| |done|done].
  by apply Z.eqb_eq.
Qed.

(** ** The metadata of an event, if any *)

Lemma metadata_decode_option bytes f c m used :
  0 <= f < 256 ->
  metadata_decode bytes f c = Ok (m, used) <->
  exists rest, f = flags_of m /\ bytes = metadata_bytes m ++ rest /\ used = blen (metadata_bytes m) /\
    match m with Some md => metadata_wf md /\ metadata_validate md c = Ok () | None => True end.
Proof.
  intros Hf. rewrite metadata_decode_iff by done. split.
  - intros [(-> & -> & ->)|(md & rest & -> & -> & -> & -> & Hm & Hv)]; [by exists bytes|by exists rest].
  - intros (rest & -> & -> & -> & Hm). destruct m as [md|]; [right|by left]. by exists md, rest.
Qed.

Lemma get_prefix_Some {A} n (l k : list A) : 0 <= n ->
  get_prefix n l = Some k <-> exists rest, l = k ++ rest /\ blen k = n.
Proof.
  intros Hn. unfold get_prefix. destruct (Z.leb_spec n (blen l)) as [H|H]; split; try done.
  - intros [= <-]. exists (drop (Z.to_nat n) l). rewrite take_drop. split; [done|].
    unfold blen in *. rewrite length_take. lia.
  - intros (rest & -> & <-). f_equal. unfold blen. rewrite Nat2Z.id. apply take_app_length.
  - intros (rest & -> & <-). rewrite blen_app in H. pose proof (blen_nonneg rest). lia.
Qed.

(** The event that was decoded last, if any, has the widths of its types. *)
Definition last_wf (last : option TransparentEvent) : Prop := match last with Some e => event_wf e | None => True end.

Lemma slice_cons {A} f t (x : A) l : 1 <= f -> slice f t (x :: l) = slice (f - 1) (t - 1) l.
Proof. intros H. change (x :: l) with ([x] ++ l). by rewrite slice_skip with (n := 1). Qed.

Lemma blen_receive_body r : event_wf (Receive r) -> blen (receive_body r) = 50.
Proof. intros H. cbn in H. destruct_and?. unfold receive_body. rewrite !blen_app, !blen_le_split. lia. Qed.

Lemma blen_spend_parts s : event_wf (Spend s) ->
  blen (spend_place s) = 6 /\ blen (spend_input s) = 36 /\ blen (spend_outpoint s) = 36.
Proof.
  intros H. cbn in H. destruct_and?. unfold spend_place, spend_input, spend_outpoint.
  rewrite !blen_app, !blen_le_split. lia.
Qed.

Lemma legacy_receive r :
  legacy_bytes (Receive r) = byte.of_Z (if coinbase r then 2 else 0) :: receive_body r ++ zeros 36.
Proof. unfold receive_body. by rewrite <- !app_assoc. Qed.

Lemma legacy_spend s :
  legacy_bytes (Spend s) = byte.of_Z 1 :: spend_place s ++ zeros 8 ++ spend_input s ++ spend_outpoint s.
Proof. unfold spend_place, spend_input. by rewrite <- !app_assoc. Qed.

Lemma blen_cons {A} (x : A) l : blen (x :: l) = 1 + blen l.
Proof. unfold blen. cbn [length]. lia. Qed.

(** The checks on the metadata of an event are those of the metadata alone, and more. *)
Lemma validated_metadata e : event_wf e -> validate_metadata e = Ok () ->
  match event_metadata e with
  | Some md => metadata_wf md /\ metadata_validate md (event_coinbase e) = Ok ()
  | None => True
  end.
Proof.
  intros Hwf Hv. destruct (event_metadata e) as [m|] eqn:Em; [|done].
  split; [by eapply event_metadata_wf|by apply validate_metadata_inner].
Qed.

(** The part of the decoder that follows the fixed fields. *)
Lemma decode_tail last e rest len :
  event_wf e -> validate_metadata e = Ok () -> is_sentinel e = false ->
  event_len e last = len + blen (metadata_bytes (event_metadata e)) ->
  (mu ← match metadata_decode (metadata_bytes (event_metadata e) ++ rest) (flags_of (event_metadata e))
                (event_coinbase e) with
        | Ok mu => Ok mu
        | Err (Failed e) => Err (Failed (EventFailed e))
        | Err (Panicked p) => Err (Panicked p)
        end;
   let (metadata, metadata_len) := mu : option TransactionMetadata * Z in
   e ← fails (map_err EventFailed (from_legacy_bytes (legacy_bytes e)));
   let e := with_metadata e metadata in
   _ ← fails (map_err EventFailed (validate_metadata e));
   if negb (event_len e last =? len + metadata_len)
   then Err (Failed (Malformed "noncanonical full outpoint after its receive"))
   else Ok (e, len + metadata_len)) = Ok (e, len + blen (metadata_bytes (event_metadata e))).
Proof.
  intros Hwf Hv Hs Hlen.
  rewrite (proj2 (metadata_decode_option _ _ _ (event_metadata e) (blen (metadata_bytes (event_metadata e)))
    (flags_of_range (event_metadata e)))).
  2: { exists rest. split_and!; try done. by apply validated_metadata. }
  cbn [mbind res_bind]. rewrite from_legacy_of by (try done; by rewrite <- sentinel_all_zero).
  cbn [fails map_err mbind res_bind]. rewrite with_metadata_same, Hv. cbn [fails map_err mbind res_bind].
  by rewrite Hlen, Z.eqb_refl.
Qed.

Lemma decode_event_of last e b rest :
  event_wf e -> last_wf last -> encode_event last e = Ok b -> decode_event last (b ++ rest) = Ok (e, blen b).
Proof.
  intros Hwf Hlast He. apply encode_event_Ok in He as (Hv & Hs & ->); [|done].
  pose proof (blen_compact last e Hwf) as Hlen. rewrite Hlen.
  destruct (compact_flags_facts last e) as (HF & H63 & H1 & H4 & H3 & H56 & H2 & Hc). unfold compact_bytes in *.
  set (F := compact_flags last e) in *. unfold decode_event. cbn [app head fmap option_fmap option_map ok_or fails mbind res_bind].
  assert (byte.unsigned (byte.of_Z F) = F) as -> by (rewrite byte.unsigned_of_Z; apply Z.mod_small; lia).
  rewrite H63, H1, H3. unfold LOCAL_OUTPOINT. rewrite H4, H2, H56, !negb_involutive. destruct e as [r|s].
  - assert (local (Receive r) last = false) as -> by (by destruct last as [[]|]). cbn [Z.eqb negb andb orb].
    pose proof (blen_receive_body r Hwf) as Hb. rewrite <- app_assoc, app_comm_cons.
    rewrite (proj2 (get_prefix_Some RECEIVE_BYTES _ (byte.of_Z F :: receive_body r) ltac:(done)))
      by (eexists; split; [reflexivity|rewrite blen_cons, Hb; done]).
    cbn [ok_or fails mbind res_bind]. rewrite slice_cons, slice_all by (done || unfold RECEIVE_BYTES; lia).
    rewrite Hc, <- legacy_receive, slice_from_app by (rewrite blen_cons, Hb; done).
    cbn [panics mbind res_bind]. rewrite blen_cons, blen_app, Hb in Hlen.
    rewrite decode_tail by (done || unfold RECEIVE_BYTES; lia). do 2 f_equal. rewrite <- Hlen. unfold RECEIVE_BYTES. lia.
  - cbn [Z.eqb negb andb orb]. destruct (blen_spend_parts s Hwf) as (Hp & Hi & Ho).
    rewrite blen_cons, !blen_app, Hp, Hi in Hlen.
    destruct (local (Spend s) last) eqn:El; rewrite <- !app_assoc.
    + unfold LOCAL_SPEND_BYTES. cbn [app].
      rewrite (proj2 (get_prefix_Some 43 _ (byte.of_Z F :: spend_place s ++ spend_input s) ltac:(done)))
        by (eexists; split; [cbn [app]; by rewrite <- app_assoc|rewrite blen_cons, blen_app; lia]).
      cbn [ok_or fails mbind res_bind]. rewrite !slice_cons by lia. cbn [Z.sub Z.add Z.opp Z.pos_sub Pos.pred_double Pos.pred].
      destruct last as [[r|]|]; try done. cbn [local] in El. apply bool_decide_eq_true in El as [Et Ei]. rewrite Et, Ei.
      rewrite slice_head, (slice_skip _ _ 6 42 6), slice_all by (done || lia).
      cbn [mbind res_bind]. fold (spend_outpoint s). rewrite <- legacy_spend.
      rewrite app_assoc, app_comm_cons, slice_from_app by (rewrite blen_cons, blen_app; lia).
      cbn [panics mbind res_bind]. change (blen (@nil byte)) with 0 in Hlen.
      change (negb true) with false. change false with (event_coinbase (Spend s)).
      rewrite decode_tail by (done || lia). do 2 f_equal. lia.
    + unfold SPEND_BYTES.
      rewrite (proj2 (get_prefix_Some 79 _ (byte.of_Z F :: spend_place s ++ spend_input s ++ spend_outpoint s) ltac:(done)))
        by (eexists; split; [cbn [app]; by rewrite <- !app_assoc|rewrite blen_cons, !blen_app; lia]).
      cbn [ok_or fails mbind res_bind]. rewrite !slice_cons by lia. cbn [Z.sub Z.add Z.opp Z.pos_sub Pos.pred_double Pos.pred].
      rewrite slice_head, (slice_skip _ _ 6 42 6), slice_head, !(slice_skip _ _ 42 78 6), (slice_skip _ _ 36 72 36), slice_all
        by (done || lia).
      cbn [mbind res_bind]. rewrite <- legacy_spend.
      rewrite (app_assoc (spend_input s)), app_assoc, app_comm_cons, slice_from_app by (rewrite blen_cons, !blen_app; lia).
      cbn [panics mbind res_bind]. change (negb true) with (event_coinbase (Spend s)).
      rewrite decode_tail by (done || lia). do 2 f_equal. lia.
Qed.

(** ** The decoder accepts nothing else *)

(** What the last part of the decoder establishes. *)
Lemma decode_tail_Ok last raw rest f c len e used :
  0 <= f < 256 ->
  (mu ← match metadata_decode rest f c with
        | Ok mu => Ok mu
        | Err (Failed e) => Err (Failed (EventFailed e))
        | Err (Panicked p) => Err (Panicked p)
        end;
   let (metadata, metadata_len) := mu : option TransactionMetadata * Z in
   e ← fails (map_err EventFailed (from_legacy_bytes raw));
   let e := with_metadata e metadata in
   _ ← fails (map_err EventFailed (validate_metadata e));
   if negb (event_len e last =? len + metadata_len)
   then Err (Failed (Malformed "noncanonical full outpoint after its receive"))
   else Ok (e, len + metadata_len)) = Ok (e, used) ->
  exists rest', event_wf e /\ validate_metadata e = Ok () /\ is_sentinel e = false /\ raw = legacy_bytes e /\
    f = flags_of (event_metadata e) /\ rest = metadata_bytes (event_metadata e) ++ rest' /\
    used = event_len e last /\ used = len + blen (metadata_bytes (event_metadata e)).
Proof.
  intros Hf H. bind_step H as mu Hmu. destruct mu as [m mlen].
  assert (metadata_decode rest f c = Ok (m, mlen)) as Hd by (repeat case_match; by simplify_eq). clear Hmu.
  apply metadata_decode_option in Hd as (rest' & Hfl & -> & -> & Hm); [|done].
  bind_step H as e0 H0. bind_step H as u Hv. destruct u.
  apply from_legacy_Ok in H0 as (Hwf & Hm0 & -> & Hz).
  destruct (Z.eqb_spec (event_len (with_metadata e0 m) last) (len + blen (metadata_bytes m))) as [Hlen|]; [|done].
  injection H as <- <-. exists rest'. rewrite event_metadata_with, legacy_with_metadata.
  assert (event_wf (with_metadata e0 m)) as Hwf' by (apply event_wf_with; [done|]; by destruct m; [apply Hm|]).
  split_and!; try done. rewrite sentinel_all_zero, legacy_with_metadata by done. done.
Qed.

Lemma legacy_kind e x l : legacy_bytes e = byte.of_Z x :: l -> 0 <= x < 256 ->
  match e with Receive r => x = if coinbase r then 2 else 0 | Spend _ => x = 1 end.
Proof.
  intros H Hx.
  assert (forall y, 0 <= y < 256 -> byte.of_Z y = byte.of_Z x -> x = y) as Hinj.
  { intros y Hy E. apply (f_equal byte.unsigned) in E. rewrite !byte.unsigned_of_Z in E. unfold byte.wrap in E.
    rewrite !Z.mod_small in E by lia. done. }
  destruct e as [r|s]; injection H as H _; (apply Hinj; [|done]); [destruct (coinbase r)|]; lia.
Qed.

Lemma cons_tail {A} (x y : A) l k : x :: l = y :: k -> l = k.
Proof. by intros [= _ ->]. Qed.

(** The first byte of a list and the rest of its prefix. *)
Lemma prefix_cons {A} (b : A) bytes n body :
  1 <= n -> head bytes = Some b -> get_prefix n bytes = Some body ->
  exists tl rest, body = b :: tl /\ bytes = b :: tl ++ rest /\ blen tl = n - 1.
Proof.
  intros Hn Hb Hp. apply get_prefix_Some in Hp as (rest & -> & Hl); [|lia].
  destruct body as [|b' tl]; [unfold blen in Hl; cbn in Hl; lia|]. injection Hb as ->.
  exists tl, rest. rewrite blen_cons in Hl. split_and!; [done|done|lia].
Qed.

Lemma decode_event_Ok last bytes e used :
  last_wf last -> decode_event last bytes = Ok (e, used) ->
  event_wf e /\ encode_event last e = Ok (compact_bytes last e) /\
  used = blen (compact_bytes last e) /\ exists rest, bytes = compact_bytes last e ++ rest.
Proof.
  intros Hlast H. unfold decode_event in H. bind_step H as F HF.
  destruct (head bytes) as [b|] eqn:Eb; [|done]. injection HF as <-. pose proof (byte_range b) as Hbr.
  set (F := byte.unsigned b) in *. unfold LOCAL_OUTPOINT in H.
  destruct (flags_accepted F) eqn:Ha; unfold flags_accepted in Ha;
    [apply negb_true_iff in Ha|apply negb_false_iff in Ha]; rewrite Ha in H; [|done].
  pose proof (accepted_parts F Hbr ltac:(unfold flags_accepted; by rewrite Ha)) as Hparts.
  assert (byte.of_Z F = b) as HbF by apply byte.of_Z_unsigned.
  bind_step H as body Hbody. bind_step H as raw Hraw. bind_step H as rest Hrest.
  assert (0 <= Z.land F 56 < 256) as H56.
  { split; [apply Z.land_nonneg; lia|].
    apply (Z.le_lt_trans _ F); [|lia]. apply Z.ldiff_le; [lia|]. apply Z.bits_inj'. intros n Hn.
    rewrite Z.ldiff_spec, Z.land_spec, Z.bits_0. by destruct (Z.testbit F n), (Z.testbit 56 n). }
  enough (exists e', e' = e /\ event_wf e /\ validate_metadata e = Ok () /\ is_sentinel e = false /\
    used = event_len e last /\ exists rest', bytes = compact_bytes last e ++ rest') as (_ & _ & Hwf & Hv & Hs & Hu & Hex).
  { split; [done|]. split; [by apply encode_event_Ok|]. split; [|done]. by rewrite blen_compact. }
  exists e. split; [done|]. destruct (Z.land F 1 =? 0).
  - injection Hraw as <-.
    destruct (prefix_cons b bytes RECEIVE_BYTES body) as (tl & r0 & -> & -> & Htl); [done|done|done|].
    rewrite slice_cons, slice_all in H by (unfold RECEIVE_BYTES in *; lia).
    rewrite app_comm_cons, slice_from_app in Hrest by (rewrite blen_cons, Htl; done). injection Hrest as ->.
    apply decode_tail_Ok in H as (rest' & Hwf & Hv & Hs & Hraw & Hfl & -> & Hu & Hlen); [|done].
    destruct Hparts as [Hparts H3]. split_and!; try done. exists rest'.
    symmetry in Hraw. pose proof (legacy_kind _ _ _ Hraw ltac:(rewrite H3; case_match; lia)) as Hk.
    destruct e as [r|s]; [|rewrite Hk in H3; by destruct (Z.land F 2 =? 0)].
    rewrite legacy_receive in Hraw. apply cons_tail in Hraw.
    apply app_inj_1 in Hraw as [<- _]; [|pose proof (blen_receive_body r Hwf); unfold blen, RECEIVE_BYTES in *; lia].
    unfold compact_bytes, compact_flags. cbn [app]. rewrite <- app_assoc. f_equal.
    rewrite <- HbF, Hparts, Hk. by rewrite <- Hfl.
  - bind_step Hraw as op Hop. injection Hraw as <-.
    assert (exists tl r0, body = b :: tl /\ bytes = b :: tl ++ r0 /\
      blen tl = (if Z.land F 4 =? 0 then 78 else 42)) as (tl & r0 & -> & -> & Htl).
    { destruct (Z.land F 4 =? 0); cbn [negb] in Hbody; by eapply prefix_cons in Hbody as (tl & r0 & ? & ? & ?); eauto. }
    rewrite !slice_cons in H by lia. change (1 - 1) with 0 in H. change (7 - 1) with 6 in H. change (43 - 1) with 42 in H.
    rewrite app_comm_cons, slice_from_app in Hrest
      by (rewrite blen_cons, Htl; by destruct (Z.land F 4 =? 0)). injection Hrest as ->.
    apply decode_tail_Ok in H as (rest' & Hwf & Hv & Hs & Hraw & Hfl & -> & Hu & Hlen); [|done].
    destruct Hparts as [Hparts H2]. split_and!; try done. exists rest'.
    symmetry in Hraw. pose proof (legacy_kind _ _ _ Hraw ltac:(lia)) as Hk.
    destruct e as [r|s]; [by destruct (coinbase r)|].
    rewrite legacy_spend in Hraw. apply cons_tail in Hraw. destruct (blen_spend_parts s Hwf) as (Hp & Hi & Ho).
    apply app_inj_1 in Hraw as [H06 Hraw];
      [|pose proof (blen_slice 0 6 tl ltac:(lia) ltac:(rewrite Htl; case_match; lia)); unfold blen in *; lia].
    change (zeros 8 ++ spend_input s ++ spend_outpoint s = zeros 8 ++ slice 6 42 tl ++ op) in Hraw.
    apply app_inv_head in Hraw.
    apply app_inj_1 in Hraw as [H642 Hraw];
      [|pose proof (blen_slice 6 42 tl ltac:(lia) ltac:(rewrite Htl; case_match; lia)); unfold blen in *; lia].
    assert (slice 0 42 tl = spend_place s ++ spend_input s) as H042 by (by rewrite (slice_split 0 6 42), <- H06, <- H642 by lia).
    assert (local (Spend s) last = negb (Z.land F 4 =? 0)) as Hloc.
    { unfold event_len in Hu, Hlen. rewrite Hu in Hlen. unfold LOCAL_SPEND_BYTES, SPEND_BYTES in *.
      assert (blen (metadata_bytes (event_metadata (Spend s))) =
        match event_metadata (Spend s) with Some m => metadata_encoded_len m | None => 0 end) as Hmb.
      { destruct (event_metadata (Spend s)) as [m|] eqn:Em; [|done].
        apply metadata_encoded_len_spec. by eapply event_metadata_wf. }
      destruct (local (Spend s) last), (Z.land F 4 =? 0); cbn [negb] in *; lia || done. }
    unfold compact_bytes, compact_flags. rewrite Hloc, <- Hfl. cbn [app]. rewrite <- HbF, Hparts at 1.
    destruct (Z.land F 4 =? 0); cbn [negb] in *.
    + injection Hop as <-. f_equal. rewrite slice_cons in Hraw by lia.
      change (43 - 1) with 42 in Hraw. change (SPEND_BYTES - 1) with 78 in Hraw.
      rewrite !app_assoc. do 2 f_equal. rewrite <- (slice_self tl 78) by done.
      rewrite (slice_split 0 42 78) by lia. by rewrite H042, <- Hraw, <- app_assoc.
    + f_equal. rewrite app_nil_r, !app_assoc. do 2 f_equal. rewrite <- H042. symmetry. by apply slice_self.
Qed.

Lemma decode_event_total last bytes : errs_only (fun _ => True) (decode_event last bytes).
Proof.
  unfold decode_event. apply errs_only_bind; [by apply errs_only_fails|]. intros F HF. case_match; [done|].
  apply errs_only_bind; [by apply errs_only_fails|]. intros body Hb. unwrap_ok Hb.
  apply errs_only_bind.
  { case_match; [done|]. apply errs_only_bind; [|done]. case_match; [|done]. by destruct last as [[]|]. }
  intros raw _. apply errs_only_bind.
  { unfold slice_from. unfold get_prefix in Hb. by destruct (_ <=? blen bytes). }
  intros rest _. apply errs_only_bind.
  { pose proof (metadata_decode_total rest (Z.land F 56) (negb (Z.land F 2 =? 0))) as Hd. by repeat case_match. }
  intros [m mlen] _. apply errs_only_bind; [by apply errs_only_fails|]. intros e _.
  apply errs_only_bind; [by apply errs_only_fails|]. intros u _. by destruct (negb (event_len _ _ =? _)).
Qed.

(** ** Sequences of events *)

Lemma encode_from_total previous l : Forall event_wf l -> errs_only (fun _ => True) (encode_from previous l).
Proof.
  intros H. revert previous. induction H as [|e l He _ IH]; intros previous; cbn [encode_from]; [done|].
  apply errs_only_bind; [by apply encode_event_total|]. intros b _. by apply errs_only_bind.
Qed.

Lemma decode_from_iff count last bytes l used :
  last_wf last ->
  decode_from count last bytes = Ok (l, used) <->
  length l = count /\ Forall event_wf l /\
  exists b rest, encode_from last l = Ok b /\ bytes = b ++ rest /\ used = blen b.
Proof.
  revert last bytes l used. induction count as [|count IH]; intros last bytes l used Hlast; cbn [decode_from].
  { split.
    - intros [= <- <-]. split_and!; [done|constructor|]. by exists [], bytes.
    - intros (Hl & _ & b & rest & He & -> & ->). destruct l; [|done]. by injection He as <-. }
  split.
  - intros H. bind_step H as eu Heu. destruct eu as [e u]. bind_step H as rest Hrest. bind_step H as lu Hlu.
    destruct lu as [l' u']. injection H as <- <-.
    apply decode_event_Ok in Heu as (Hwf & He & -> & r & ->); [|done].
    rewrite slice_from_app in Hrest by done. injection Hrest as ->.
    apply IH in Hlu as (Hl & Hwfs & b & rest' & Hb & -> & ->); [|done].
    cbn [length encode_from]. split_and!; [lia|by constructor|]. rewrite He. cbn [mbind res_bind]. rewrite Hb.
    exists (compact_bytes last e ++ b), rest'. rewrite <- app_assoc, blen_app. done.
  - intros (Hl & Hwf & b & rest & Hb & -> & ->). destruct l as [|e l]; [done|]. apply Forall_cons in Hwf as [He Hwf].
    cbn [encode_from] in Hb. bind_step Hb as b1 H1. bind_step Hb as b2 H2. injection Hb as <-. rewrite <- app_assoc.
    rewrite (decode_event_of last e b1 _ He Hlast H1). cbn [mbind res_bind]. rewrite slice_from_app by done.
    cbn [panics mbind res_bind]. rewrite (proj2 (IH (Some e) (b2 ++ rest) l (blen b2) He)).
    + cbn [mbind res_bind]. by rewrite blen_app.
    + split_and!; [by injection Hl|done|]. by exists b2, rest.
Qed.

Lemma decode_from_total count last bytes : last_wf last -> errs_only (fun _ => True) (decode_from count last bytes).
Proof.
  revert last bytes. induction count as [|count IH]; intros last bytes Hlast; cbn [decode_from]; [done|].
  apply errs_only_bind; [apply decode_event_total|]. intros [e u] He.
  apply decode_event_Ok in He as (Hwf & _ & -> & r & ->); [|done]. rewrite slice_from_app by done.
  cbn [panics mbind res_bind]. apply errs_only_bind; [by apply IH|]. by intros [].
Qed.

Lemma encode_from_len previous l b :
  Forall event_wf l -> encode_from previous l = Ok b -> blen b = encoded_len_from previous l.
Proof.
  intros H. revert previous b. induction H as [|e l He _ IH]; intros previous b Hb; cbn [encode_from encoded_len_from] in *.
  { by injection Hb as <-. }
  bind_step Hb as b1 H1. bind_step Hb as b2 H2. injection Hb as <-.
  apply encode_event_Ok in H1 as (_ & _ & ->); [|done]. rewrite blen_app, blen_compact by done. f_equal. by apply IH.
Qed.

Lemma compact_decode_total bytes count : errs_only (fun _ => True) (decode bytes count).
Proof. unfold decode. case_match; [done|]. by apply decode_from_total. Qed.

Lemma compact_decode_iff bytes count events used :
  decode bytes count = Ok (events, used) <->
  Z.max 0 count = blen events /\ count <= EVENTS_PER_PAGE /\ Forall event_wf events /\
  exists b rest, encode events = Ok b /\ bytes = b ++ rest /\ used = blen b.
Proof.
  unfold decode. destruct (Z.ltb_spec EVENTS_PER_PAGE count) as [Hc|Hc].
  { split; [done|]. intros (_ & ? & _). lia. }
  rewrite decode_from_iff by done. unfold encode, blen. split.
  - intros (Hl & Hwf & Hex). split_and!; [lia|done|done|done].
  - intros (Hl & _ & Hwf & Hex). split_and!; [lia|done|done].
Qed.

(** C30: The compact encoding is canonical.  [compact::decode] accepts, for a count that fits a
    page, exactly the bytes that start with what [compact::encode] writes for that many
    events, and returns these events and the number of bytes; it never panics, and neither
    does the encoder, which writes as many bytes as [encoded_len] says. *)
Theorem compact_decode_exact bytes count :
  errs_only (fun _ => True) (decode bytes count) /\
  (forall events, Forall event_wf events -> errs_only (fun _ => True) (encode events)) /\
  forall events used, decode bytes count = Ok (events, used) <->
    Z.max 0 count = blen events /\ count <= EVENTS_PER_PAGE /\ Forall event_wf events /\
    exists b rest, encode events = Ok b /\ bytes = b ++ rest /\ used = blen b /\ used = encoded_len events.
Proof.
  split_and!; [apply compact_decode_total|intros; by apply encode_from_total|].
  intros events used. rewrite compact_decode_iff. split; intros (Hl & Hc & Hwf & b & rest & Hb & Hex); split_and!; try done.
  - exists b, rest. destruct Hex as [-> ->]. split_and!; try done. by apply encode_from_len.
  - exists b, rest. by destruct Hex as (-> & -> & _).
Qed.

(** ** Lengths *)

Lemma varint_len_pos v : 1 <= varint_len v.
Proof.
  unfold varint_len. generalize 10%nat. intros n. revert v. induction n as [|n IH]; intros v; cbn [varint_len_go]; [lia|].
  case_match; [|lia]. specialize (IH (Z.shiftr v 7)). lia.
Qed.

Lemma metadata_encoded_len_nonneg m : 0 <= metadata_encoded_len m.
Proof.
  unfold metadata_encoded_len. pose proof (varint_len_pos (transparent_input_count m)).
  destruct (fee m) as [f| |]; [pose proof (varint_len_pos f)|..]; lia.
Qed.

(** An event takes at least the bytes of a local spend, and no more behind its receive than elsewhere. *)
Lemma event_len_bounds e p : LOCAL_SPEND_BYTES <= event_len e p <= event_len e None.
Proof.
  assert (0 <= match event_metadata e with Some m => metadata_encoded_len m | None => 0 end).
  { destruct (event_metadata e) as [m|]; [|lia]. apply metadata_encoded_len_nonneg. }
  unfold event_len, RECEIVE_BYTES, SPEND_BYTES, LOCAL_SPEND_BYTES. destruct e as [r|s]; [lia|].
  change (local (Spend s) None) with false. cbn [event_metadata] in *. destruct (local _ _); lia.
Qed.

Lemma event_len_max e p : event_wf e -> event_len e p <= SPEND_BYTES + 15.
Proof.
  intros Hwf. etrans; [apply event_len_bounds|].
  assert (match event_metadata e with Some m => metadata_encoded_len m | None => 0 end <= 15).
  { destruct (event_metadata e) as [m|] eqn:Em; [|lia]. apply metadata_encoded_len_bounds. by eapply event_metadata_wf. }
  unfold event_len, RECEIVE_BYTES, SPEND_BYTES. destruct e as [r|s]; [lia|]. change (local (Spend s) None) with false.
  cbn [event_metadata] in *. lia.
Qed.

Lemma encoded_len_from_nonneg p l : 0 <= encoded_len_from p l.
Proof.
  revert p. induction l as [|e l IH]; intros p; cbn [encoded_len_from]; [lia|]. specialize (IH (Some e)).
  pose proof (event_len_bounds e p). unfold LOCAL_SPEND_BYTES in *. lia.
Qed.
