(* ===== verification/ShardRecords.v ===== *)
(** * Rows of tagged entries

    The rows of the directory and of the pages are built alike: a count, so many entries with
    distinct tags, and zeros up to the width of the row.  This file holds the loops over the
    entries and what they establish, for any entry whose decoder inverts its encoder. *)

From S2P Require Import Prelude BitStream ShardEvents ShardEventProofs ShardCompact.

Definition SCRIPT_TAG_BYTES : Z := 14.

(** [row.resize(n, 0)] of a row that is not longer *)
Definition pad_to (n : Z) (l : list byte) : list byte := l ++ zeros (n - blen l).

Section Entries.
Context {E : Type} (tag : E -> list byte) (duplicate : RecordError).

(** Whether an entry has the tag. *)
Definition tag_taken (t : list byte) (l : list E) : bool := existsb (fun o => bool_decide (tag o = t)) l.

(** The loop of a decoder over [&row[at..]]; [seen] are the entries decoded before. *)
Fixpoint decode_entries (dec : list byte -> run RecordError (E * Z)) (count : nat) (seen : list E) (bytes : list byte)
    : run RecordError (list E * list byte) :=
  match count with
  | O => Ok ([], bytes)
  | S count =>
      eu ← dec bytes;
      let (e, used) := eu : E * Z in
      if tag_taken (tag e) seen then Err (Failed duplicate) else
      rest ← panics (slice_from used bytes);
      lr ← decode_entries dec count (seen ++ [e]) rest;
      let (l, r) := lr : list E * list byte in
      Ok (e :: l, r)
  end.

(** The loop of an encoder that compares each tag with those before it. *)
Fixpoint encode_entries (enc : E -> run RecordError (list byte)) (seen l : list E) : run RecordError (list byte) :=
  match l with
  | [] => Ok []
  | e :: l =>
      if tag_taken (tag e) seen then Err (Failed duplicate) else
      b ← enc e;
      bs ← encode_entries enc (seen ++ [e]) l;
      Ok (b ++ bs)
  end.

(** The tags of [l] are distinct and do not occur in [seen]. *)
Definition fresh_tags (seen l : list E) : Prop :=
  NoDup (map tag l) /\ Forall (fun e => tag e ∉ map tag seen) l.

Lemma tag_taken_false t l : tag_taken t l = false <-> t ∉ map tag l.
Proof.
  unfold tag_taken. rewrite <- not_true_iff_false, existsb_exists. apply not_iff_compat. split.
  - intros (o & Ho & Ht). apply bool_decide_eq_true in Ht as <-. apply list_elem_of_fmap_2. by apply list_elem_of_In.
  - intros (o & -> & Ho)%list_elem_of_fmap_1. exists o. split; [by apply list_elem_of_In|by apply bool_decide_eq_true].
Qed.

Lemma fresh_tags_cons seen e l :
  fresh_tags seen (e :: l) <-> (tag e ∉ map tag seen) /\ fresh_tags (seen ++ [e]) l.
Proof.
  unfold fresh_tags. cbn [map]. rewrite NoDup_cons, Forall_cons.
  assert (Forall (fun x => tag x ∉ map tag (seen ++ [e])) l <->
    Forall (fun x => tag x ∉ map tag seen) l /\ (tag e ∉ map tag l)) as ->; [|naive_solver].
  rewrite !Forall_forall. setoid_rewrite map_app. setoid_rewrite elem_of_app. cbn [map]. setoid_rewrite list_elem_of_singleton.
  split.
  - intros H. split; [intros x Hx Hn; apply (H x); auto|]. intros (x & Hx & Hin)%list_elem_of_fmap_1. apply (H x); auto.
  - intros [H1 H2] x Hx [Hn|Hn]; [by apply (H1 x)|]. apply H2. rewrite <- Hn. by apply (list_elem_of_fmap_2 tag).
Qed.

Context (enc : E -> run RecordError (list byte)).

Lemma encode_entries_Ok seen l out :
  encode_entries enc seen l = Ok out <->
  fresh_tags seen l /\ exists bs, Forall2 (fun e b => enc e = Ok b) l bs /\ out = concat bs.
Proof.
  revert seen out. induction l as [|e l IH]; intros seen out; cbn [encode_entries].
  { split; [intros [= <-]; split; [split; constructor|by exists []]|]. intros [_ (bs & Hb & ->)]. by inversion Hb. }
  rewrite fresh_tags_cons, <- tag_taken_false. destruct (tag_taken (tag e) seen); [naive_solver|]. split.
  - intros H. bind_step H as b Hb. bind_step H as bs Hbs. injection H as <-.
    apply IH in Hbs as [Hf (bs' & HF & ->)]. split; [done|]. exists (b :: bs'). by split; [constructor|].
  - intros [[_ Hf] (bs & HF & ->)]. inversion HF as [|? b ? bs' Hb HF']; subst. rewrite Hb. cbn [mbind res_bind].
    rewrite (proj2 (IH _ (concat bs'))); [done|]. eauto.
Qed.

(** A decoder that inverts the encoder on the entries that satisfy [P]. *)
Context (dec : list byte -> run RecordError (E * Z)) (P : E -> Prop).
Context (Hdec : forall bytes e used, dec bytes = Ok (e, used) <->
  P e /\ exists b rest, enc e = Ok b /\ bytes = b ++ rest /\ used = blen b).
Context (Htotal : forall bytes, errs_only (fun _ => True) (dec bytes)).

Lemma decode_entries_iff count seen bytes l rest :
  decode_entries dec count seen bytes = Ok (l, rest) <->
  length l = count /\ Forall P l /\ fresh_tags seen l /\
  exists bs, Forall2 (fun e b => enc e = Ok b) l bs /\ bytes = concat bs ++ rest.
Proof using Hdec.
  revert seen bytes l. induction count as [|count IH]; intros seen bytes l; cbn [decode_entries].
  { split.
    - intros [= <- <-]. split_and!; [done|constructor|split; constructor|]. by exists [].
    - intros (Hl & _ & _ & bs & HF & ->). destruct l; [|done]. by inversion HF. }
  split.
  - intros H. bind_step H as eu Heu. destruct eu as [e u]. apply Hdec in Heu as (He & b & r & Hb & -> & ->).
    destruct (tag_taken (tag e) seen) eqn:Et; [done|]. rewrite slice_from_app in H by done. cbn [panics mbind res_bind] in H.
    bind_step H as lr Hlr. destruct lr as [l' r']. injection H as <- <-.
    apply IH in Hlr as (Hl & HP & Hf & bs & HF & ->). split_and!; [cbn; lia|by constructor| |].
    + apply fresh_tags_cons. by rewrite <- tag_taken_false.
    + exists (b :: bs). split; [by constructor|]. cbn [concat]. by rewrite app_assoc.
  - intros (Hl & HP & Hf & bs & HF & ->). destruct l as [|e l]; [done|]. inversion HF as [|? b ? bs' Hb HF']; subst.
    apply Forall_cons in HP as [He HP]. apply fresh_tags_cons in Hf as [Ht Hf]. cbn [concat]. rewrite <- app_assoc.
    rewrite (proj2 (Hdec (b ++ concat bs' ++ rest) e (blen b))) by eauto 10. cbn [mbind res_bind].
    rewrite (proj2 (tag_taken_false _ _)), slice_from_app by done. cbn [panics mbind res_bind].
    rewrite (proj2 (IH (seen ++ [e]) (concat bs' ++ rest) l)); [done|]. split_and!; [by injection Hl|done|done|eauto].
Qed.

Lemma decode_entries_total count seen bytes : errs_only (fun _ => True) (decode_entries dec count seen bytes).
Proof using Hdec Htotal.
  revert seen bytes. induction count as [|count IH]; intros seen bytes; cbn [decode_entries]; [done|].
  apply errs_only_bind; [apply Htotal|]. intros [e u] He. apply Hdec in He as (_ & b & r & _ & -> & ->).
  case_match; [done|]. rewrite slice_from_app by done. cbn [panics mbind res_bind].
  apply errs_only_bind; [apply IH|]. by intros [].
Qed.
End Entries.

(** ** Padding *)

Lemma blen_pad n l : blen l <= n -> blen (pad_to n l) = n.
Proof. intros H. unfold pad_to. rewrite blen_app, blen_zeros by lia. lia. Qed.

Lemma pad_to_app n l rest : all_zero rest = true -> n = blen (l ++ rest) -> pad_to n l = l ++ rest.
Proof.
  intros Hz ->. unfold pad_to. f_equal. rewrite blen_app. replace (blen l + blen rest - blen l) with (blen rest) by lia.
  symmetry. by apply all_zero_zeros.
Qed.

Lemma all_zero_pad n : all_zero (zeros n) = true.
Proof. unfold all_zero, zeros. induction (Z.to_nat n) as [|k IH]; [done|]. by cbn. Qed.

(** The count in front of a row. *)
Lemma row_split (row : list byte) n : blen row = n -> 4 <= n ->
  row = le_split 4 (le_combine (slice 0 4 row)) ++ bdrop 4 row /\ width 4 (le_combine (slice 0 4 row)).
Proof.
  intros Hl Hn. destruct (le_round' 4 (slice 0 4 row)) as [R W]; [rewrite blen_slice; lia|]. split; [|done].
  rewrite R. unfold slice, bdrop. cbn [drop]. symmetry. apply take_drop.
Qed.

Lemma row_join n body : width 4 n ->
  le_combine (slice 0 4 (le_split 4 n ++ body)) = n /\ bdrop 4 (le_split 4 n ++ body) = body.
Proof. intros H. rewrite slice_head, bdrop_app by (by rewrite blen_le_split). by rewrite le_round. Qed.

(** * Directory rows ([zakura/pir-protocol/src/transparent/shard/records.rs], [layout.rs])

    A directory row holds an entry for each script that was placed in it: the tag of the
    script, its most recent events and the place of the older ones. *)

Definition DIRECTORY_ROW_BYTES : Z := 4096.
Definition INLINE_EVENTS : Z := 2.
Definition MAX_PAGE_CHILDREN : Z := 32.
Definition MAX_SCRIPT_BYTES : Z := 40.
Definition DIRECTORY_ENTRY_HEADER_BYTES : Z := SCRIPT_TAG_BYTES + 1 + 4.
Definition DIRECTORY_ROW_HEADER_BYTES : Z := 4.
Definition MAX_DIRECTORY_ENTRY_BYTES : Z := DIRECTORY_ENTRY_HEADER_BYTES + INLINE_EVENTS * (SPEND_BYTES + 15).
Definition DIRECTORY_SLOTS : Z :=
  (DIRECTORY_ROW_BYTES - DIRECTORY_ROW_HEADER_BYTES) / (DIRECTORY_ENTRY_HEADER_BYTES + RECEIVE_BYTES).
Definition FLAG_ONE_INLINE : Z := 0x80.
Definition CHILD_MASK : Z := 0x1f.
Definition RESERVED_FLAGS : Z := 0x60.

Record DirectoryEntry : Type := MkDirectoryEntry {
  de_script : list byte; de_tag : list byte; event_count : Z; inline : list TransparentEvent;
  head_child : Z; head_row : Z }.

(** [DirectoryEntry::head], [encoded_len], [flags_child] *)
Definition directory_head (e : DirectoryEntry) : option (Z * Z) :=
  if head_row e =? 0 then None else Some (head_child e, head_row e - 1).
Definition directory_entry_len (e : DirectoryEntry) : Z := DIRECTORY_ENTRY_HEADER_BYTES + encoded_len (inline e).
Definition flags_child (e : DirectoryEntry) : Z :=
  Z.lor (head_child e) (if blen (inline e) =? 1 then FLAG_ONE_INLINE else 0).

(** [DirectoryEntry::encode] *)
Definition directory_entry_encode (e : DirectoryEntry) : run RecordError (list byte) :=
  if MAX_SCRIPT_BYTES <? blen (de_script e) then Err (Failed (ScriptTooLong (blen (de_script e)))) else
  if (blen (inline e) =? 0) || (INLINE_EVENTS <? blen (inline e))
     || (negb (head_row e =? 0) && negb (blen (inline e) =? INLINE_EVENTS))
  then Err (Failed (Malformed "invalid inline count")) else
  if (MAX_PAGE_CHILDREN <=? head_child e) || ((head_row e =? 0) && negb (head_child e =? 0))
  then Err (Failed (Malformed "invalid page shard number")) else
  if out_of_order (inline e) then Err (Failed (Malformed "inline events out of order")) else
  events ← encode (inline e);
  Ok (de_tag e ++ [byte.of_Z (flags_child e)] ++ le_split 4 (head_row e) ++ events).

(** [DirectoryEntry::decode] *)
Definition directory_entry_decode (children : Z) (bytes : list byte) : run RecordError (DirectoryEntry * Z) :=
  if blen bytes <? DIRECTORY_ENTRY_HEADER_BYTES then Err (Failed (Malformed "truncated directory entry")) else
  let tag := slice 0 14 bytes in
  let flags := le_combine (slice 14 15 bytes) in
  let head_row := le_combine (slice 15 19 bytes) in
  if negb (Z.land flags RESERVED_FLAGS =? 0)
  then Err (Failed (Malformed "reserved directory flag bits are set")) else
  let one := negb (Z.land flags FLAG_ONE_INLINE =? 0) in
  let head_child := Z.land flags CHILD_MASK in
  if (head_row =? 0) && negb (head_child =? 0)
  then Err (Failed (Malformed "an entry without pages names a page shard")) else
  if negb (head_row =? 0) && one
  then Err (Failed (Malformed "an entry with pages carries one inline event")) else
  if negb (head_row =? 0) && (children <=? head_child)
  then Err (Failed (Malformed "an entry names a page shard out of range")) else
  let count := if one then 1 else INLINE_EVENTS in
  iu ← decode (bdrop 19 bytes) count;
  let (inline, used) := iu : list TransparentEvent * Z in
  if out_of_order inline then Err (Failed (Malformed "inline events out of order")) else
  Ok (MkDirectoryEntry [] tag count inline head_child head_row, 19 + used).

Definition duplicate_tag : RecordError := Malformed "duplicate directory tag".

(** [encode_directory_row] *)
Definition encode_directory_row (entries : list DirectoryEntry) : run RecordError (list byte) :=
  if DIRECTORY_SLOTS <? blen entries then Err (Failed (TooManyEntries (blen entries))) else
  bs ← encode_entries de_tag duplicate_tag directory_entry_encode [] entries;
  let row := le_split 4 (blen entries) ++ bs in
  if DIRECTORY_ROW_BYTES <? blen row
  then Err (Failed (Malformed "directory row byte capacity exceeded"))
  else Ok (pad_to DIRECTORY_ROW_BYTES row).

(** [decode_directory_row] *)
Definition decode_directory_row (row : list byte) (children : Z) : run RecordError (list DirectoryEntry) :=
  if negb (blen row =? DIRECTORY_ROW_BYTES) then Err (Failed (RecordLength (blen row) DIRECTORY_ROW_BYTES)) else
  let count := le_combine (slice 0 4 row) in
  if DIRECTORY_SLOTS <? count then Err (Failed (TooManyEntries count)) else
  lr ← decode_entries de_tag duplicate_tag (directory_entry_decode children) (Z.to_nat count) [] (bdrop 4 row);
  let (entries, rest) := lr : list DirectoryEntry * list byte in
  if negb (all_zero rest) then Err (Failed Reserved) else Ok entries.

(** ** One entry *)

(** The fields have the widths of their types, and what the decoder cannot know is left out. *)
Definition directory_entry_wf (e : DirectoryEntry) : Prop :=
  blen (de_tag e) = 14 /\ width 4 (head_row e) /\ 0 <= head_child e < 256 /\ Forall event_wf (inline e).
Definition decoded_entry (children : Z) (e : DirectoryEntry) : Prop :=
  directory_entry_wf e /\ de_script e = [] /\ event_count e = blen (inline e) /\
  (head_row e <> 0 -> head_child e < children).

Lemma child_flags c (one : bool) : 0 <= c < 32 ->
  let F := Z.lor c (if one then 128 else 0) in
  0 <= F < 256 /\ Z.land F 0x60 = 0 /\ (Z.land F 128 =? 0) = negb one /\ Z.land F 31 = c.
Proof.
  intros Hc.
  assert (forallb (fun n => let c := Z.of_nat n in forallb (fun one : bool =>
    let F := Z.lor c (if one then 128 else 0) in
    (0 <=? F) && (F <? 256) && (Z.land F 0x60 =? 0) && Bool.eqb (Z.land F 128 =? 0) (negb one) && (Z.land F 31 =? c))
    [true; false]) (seq 0 32) = true) as Hall by (vm_compute; reflexivity).
  rewrite forallb_forall in Hall. specialize (Hall (Z.to_nat c) ltac:(apply in_seq; lia)). cbv zeta in Hall.
  rewrite Z2Nat.id in Hall by lia. rewrite forallb_forall in Hall.
  specialize (Hall one ltac:(destruct one; cbn; auto)). cbv zeta.
  repeat (apply andb_true_iff in Hall as [Hall ?]).
  split_and!; [lia|lia|by apply Z.eqb_eq|by apply Bool.eqb_prop|by apply Z.eqb_eq].
Qed.

Lemma child_flags_inv F : 0 <= F < 256 -> Z.land F 0x60 = 0 ->
  F = Z.lor (Z.land F 31) (if Z.land F 128 =? 0 then 0 else 128) /\ 0 <= Z.land F 31 < 32.
Proof.
  intros HF H.
  assert (forallb (fun n => let F := Z.of_nat n in negb (Z.land F 0x60 =? 0) ||
    ((F =? Z.lor (Z.land F 31) (if Z.land F 128 =? 0 then 0 else 128)) && (0 <=? Z.land F 31) && (Z.land F 31 <? 32)))
    (seq 0 256) = true) as Hall by (vm_compute; reflexivity).
  rewrite forallb_forall in Hall. specialize (Hall (Z.to_nat F) ltac:(apply in_seq; lia)). cbv zeta in Hall.
  rewrite Z2Nat.id, H in Hall by lia. cbn [Z.eqb negb orb] in Hall.
  repeat (apply andb_true_iff in Hall as [Hall ?]). apply Z.eqb_eq in Hall. lia.
Qed.

(** What the encoder of an entry requires and writes. *)
Lemma directory_entry_encode_Ok e b :
  directory_entry_encode e = Ok b <->
  blen (de_script e) <= 40 /\ (blen (inline e) = 1 \/ blen (inline e) = 2) /\
  (head_row e <> 0 -> blen (inline e) = 2) /\ head_child e < 32 /\ (head_row e = 0 -> head_child e = 0) /\
  out_of_order (inline e) = false /\
  exists events, encode (inline e) = Ok events /\
    b = de_tag e ++ [byte.of_Z (flags_child e)] ++ le_split 4 (head_row e) ++ events.
Proof.
  unfold directory_entry_encode, MAX_SCRIPT_BYTES, INLINE_EVENTS, MAX_PAGE_CHILDREN.
  pose proof (blen_nonneg (inline e)) as H0.
  destruct (out_of_order (inline e)), (encode (inline e)) as [evs|err]; cbn [mbind res_bind];
    zcases; cbn [orb andb negb]; split; intros Hx;
    solve [done | destruct_and?; naive_solver lia | injection Hx as <-; split_and!; eauto; lia].
Qed.

(** A header of tag, flags and row, and what follows it. *)
Lemma entry_header_slices (t f r rest : list byte) :
  blen t = 14 -> blen f = 1 -> blen r = 4 ->
  let bytes := t ++ f ++ r ++ rest in
  slice 0 14 bytes = t /\ slice 14 15 bytes = f /\ slice 15 19 bytes = r /\ bdrop 19 bytes = rest.
Proof.
  intros Ht Hf Hr bytes. subst bytes.
  split_and!.
  - by apply slice_head.
  - rewrite slice_skip with (n := 14) by (done || lia). by apply slice_head.
  - rewrite slice_skip with (n := 14), slice_skip with (n := 1) by (done || lia). by apply slice_head.
  - rewrite !app_assoc. apply bdrop_app. rewrite !blen_app. lia.
Qed.

Lemma entry_header_split (bytes : list byte) : 19 <= blen bytes ->
  exists t f r rest, bytes = t ++ f ++ r ++ rest /\ blen t = 14 /\ blen f = 1 /\ blen r = 4.
Proof.
  intros H. exists (slice 0 14 bytes), (slice 14 15 bytes), (slice 15 19 bytes), (bdrop 19 bytes).
  rewrite !blen_slice by lia. split_and!; [|done..].
  rewrite !app_assoc, <- !slice_split by lia. unfold slice, bdrop. cbn [drop]. symmetry. apply take_drop.
Qed.

Lemma directory_entry_decode_of children e b rest :
  decoded_entry children e -> directory_entry_encode e = Ok b ->
  directory_entry_decode children (b ++ rest) = Ok (e, blen b).
Proof.
  intros ((Ht & Hr & Hc & Hi) & Hs & Hn & Hch) He.
  apply directory_entry_encode_Ok in He as (_ & Hcount & Hpaged & Hc32 & Hnone & Hord & events & Hev & ->).
  destruct (child_flags (head_child e) (blen (inline e) =? 1) ltac:(lia)) as (HF & H60 & H128 & H31).
  assert (exists F, F = flags_child e) as [F EF] by eauto. rewrite <- EF.
  unfold flags_child, FLAG_ONE_INLINE in EF. rewrite <- EF in *.
  unfold directory_entry_decode. rewrite <- !app_assoc.
  destruct (entry_header_slices (de_tag e) [byte.of_Z F] (le_split 4 (head_row e)) (events ++ rest) Ht eq_refl
    (blen_le_split 4 _)) as (E1 & E2 & E3 & E4).
  rewrite (proj2 (Z.ltb_ge _ _)).
  2: { rewrite !blen_app, Ht, blen_le_split. change (blen [byte.of_Z F]) with 1.
    pose proof (blen_nonneg events). pose proof (blen_nonneg rest). unfold DIRECTORY_ENTRY_HEADER_BYTES, SCRIPT_TAG_BYTES. lia. }
  rewrite E1, E2, E3, E4, le_combine_one, le_round by done.
  assert (byte.unsigned (byte.of_Z F) = F) as -> by (rewrite byte.unsigned_of_Z; apply Z.mod_small; lia).
  unfold RESERVED_FLAGS, FLAG_ONE_INLINE, CHILD_MASK, INLINE_EVENTS. rewrite H60, H128, H31, negb_involutive. cbn [Z.eqb negb].
  assert ((head_row e =? 0) && negb (head_child e =? 0) = false) as -> by (zcases; cbn; naive_solver lia).
  assert (negb (head_row e =? 0) && (blen (inline e) =? 1) = false) as -> by (zcases; cbn; naive_solver lia).
  assert (negb (head_row e =? 0) && (children <=? head_child e) = false) as ->.
  { destruct (Z.eqb_spec (head_row e) 0); [done|]. cbn. apply Z.leb_gt. auto. }
  replace (if blen (inline e) =? 1 then 1 else 2) with (blen (inline e)) by (zcases; lia).
  rewrite (proj2 (compact_decode_iff (events ++ rest) (blen (inline e)) (inline e) (blen events))).
  2: { pose proof (blen_nonneg (inline e)). unfold EVENTS_PER_PAGE. split_and!; [lia|lia|done|]. by exists events, rest. }
  cbn [mbind res_bind]. rewrite Hord. rewrite !blen_app, Ht, blen_le_split. change (blen [byte.of_Z F]) with 1.
  rewrite <- Hn. destruct e. cbn in *. subst. do 2 f_equal. lia.
Qed.

Lemma directory_entry_decode_Ok children bytes e used :
  directory_entry_decode children bytes = Ok (e, used) ->
  decoded_entry children e /\ exists b rest, directory_entry_encode e = Ok b /\ bytes = b ++ rest /\ used = blen b.
Proof.
  unfold directory_entry_decode. destruct (Z.ltb_spec (blen bytes) DIRECTORY_ENTRY_HEADER_BYTES) as [|Hl]; [done|].
  destruct (entry_header_split bytes Hl) as (t & f & r & tl & -> & Ht & Hf & Hr).
  destruct (entry_header_slices t f r tl Ht Hf Hr) as (E1 & E2 & E3 & E4). rewrite E1, E2, E3, E4.
  destruct f as [|b [|? f']]; [done| |by rewrite !blen_cons in Hf; pose proof (blen_nonneg f'); lia].
  rewrite le_combine_one. pose proof (byte_range b) as Hb. pose proof (byte.of_Z_unsigned b) as HbF.
  set (F := byte.unsigned b) in *. apply (le_round' 4) in Hr as [Rr Wr]. set (row := le_combine r) in *.
  unfold RESERVED_FLAGS, FLAG_ONE_INLINE, CHILD_MASK, INLINE_EVENTS.
  destruct (Z.eqb_spec (Z.land F 0x60) 0) as [H60|]; [|done]. cbn [negb].
  destruct (child_flags_inv F Hb H60) as [HF H31].
  destruct ((row =? 0) && negb (Z.land F 31 =? 0)) eqn:C1; [done|].
  destruct (negb (row =? 0) && negb (Z.land F 128 =? 0)) eqn:C2; [done|].
  destruct (negb (row =? 0) && (children <=? Z.land F 31)) eqn:C3; [done|]. intros H.
  bind_step H as iu Hd. destruct iu as [evs u]. destruct (out_of_order evs) eqn:Ho; [done|]. injection H as <- <-.
  apply compact_decode_iff in Hd as (Hcount & _ & Hwf & b' & rest & He & -> & ->).
  assert (blen evs = if negb (Z.land F 128 =? 0) then 1 else 2) as Hlen by (rewrite <- Hcount; case_match; lia).
  split.
  - unfold decoded_entry, directory_entry_wf. cbn [de_tag head_row head_child inline de_script event_count].
    split_and!; [done|done|lia|lia|done|done|by rewrite Hlen|]. intros Hne. apply andb_false_iff in C3 as [C3|C3%Z.leb_gt]; [|done].
    apply negb_false_iff, Z.eqb_eq in C3. done.
  - exists (t ++ [b] ++ r ++ b'), rest. split_and!.
    + apply directory_entry_encode_Ok. cbn [de_script inline head_row head_child de_tag flags_child].
      change (blen []) with 0. split_and!; [lia| | |lia| |done|].
      * rewrite Hlen. case_match; auto.
      * intros Hne. rewrite Hlen. apply andb_false_iff in C2 as [C2%negb_false_iff%Z.eqb_eq|C2]; [done|].
        by rewrite C2.
      * intros Hz. apply andb_false_iff in C1 as [C1%Z.eqb_neq|C1%negb_false_iff%Z.eqb_eq]; done.
      * exists b'. split; [done|]. rewrite Rr. unfold flags_child. cbn [inline head_child]. rewrite Hlen.
        do 2 f_equal. f_equal. rewrite <- HbF, HF at 1. f_equal. by destruct (Z.land F 128 =? 0).
    + by rewrite <- !app_assoc.
    + rewrite !blen_app, Ht. change (blen [b]) with 1. rewrite <- Rr, blen_le_split. lia.
Qed.

Lemma directory_entry_decode_total children bytes :
  errs_only (fun _ => True) (directory_entry_decode children bytes).
Proof.
  unfold directory_entry_decode. repeat (case_match; [done|]).
  apply errs_only_bind; [apply compact_decode_total|]. intros [evs u] _. by case_match.
Qed.

Lemma directory_entry_decode_iff children bytes e used :
  directory_entry_decode children bytes = Ok (e, used) <->
  decoded_entry children e /\ exists b rest, directory_entry_encode e = Ok b /\ bytes = b ++ rest /\ used = blen b.
Proof.
  split; [apply directory_entry_decode_Ok|]. intros (Hd & b & rest & He & -> & ->).
  by apply directory_entry_decode_of.
Qed.

(** ** Rows *)

Lemma directory_row_canonical row children :
  errs_only (fun _ => True) (decode_directory_row row children) /\
  forall entries, decode_directory_row row children = Ok entries <->
    Forall (decoded_entry children) entries /\ encode_directory_row entries = Ok row.
Proof.
  pose proof (directory_entry_decode_iff children) as Hdec.
  pose proof (directory_entry_decode_total children) as Htot. unfold decode_directory_row, encode_directory_row. split.
  { case_match; [done|]. case_match; [done|].
    apply errs_only_bind; [by eapply decode_entries_total|]. intros [l r] _. by case_match. }
  intros entries. split.
  - destruct (Z.eqb_spec (blen row) DIRECTORY_ROW_BYTES) as [Hl|]; [|done]. cbn [negb].
    destruct (row_split row _ Hl ltac:(done)) as [Hrow Hw]. set (n := le_combine (slice 0 4 row)) in *.
    destruct (Z.ltb_spec DIRECTORY_SLOTS n) as [|Hn]; [done|]. intros H. bind_step H as lr Hlr. destruct lr as [l rest].
    destruct (all_zero rest) eqn:Hz; [|done]. injection H as ->.
    apply (decode_entries_iff _ _ _ _ _ Hdec) in Hlr as (Hlen & HP & Hf & bs & HF & Hb). split; [done|].
    assert (blen entries = n) as Hn' by (unfold blen; destruct Hw; lia).
    rewrite Hn', (proj2 (Z.ltb_ge _ _)) by lia.
    rewrite (proj2 (encode_entries_Ok _ _ _ [] entries (concat bs))) by eauto. cbn [mbind res_bind].
    rewrite Hb, app_assoc in Hrow. pose proof Hl as Hl'. rewrite Hrow, blen_app in Hl'. pose proof (blen_nonneg rest).
    rewrite (proj2 (Z.ltb_ge _ _)) by lia. f_equal. rewrite Hrow. clearbody n. apply pad_to_app; [done|]. by rewrite <- Hrow.
  - intros [HP H]. destruct (Z.ltb_spec DIRECTORY_SLOTS (blen entries)) as [|Hn]; [done|]. bind_step H as bs Hbs.
    destruct (Z.ltb_spec DIRECTORY_ROW_BYTES (blen (le_split 4 (blen entries) ++ bs))) as [|Hl]; [done|].
    assert (row = pad_to DIRECTORY_ROW_BYTES (le_split 4 (blen entries) ++ bs)) as -> by congruence.
    rewrite blen_pad by done. cbn [Z.eqb Pos.eqb negb DIRECTORY_ROW_BYTES].
    assert (width 4 (blen entries)) as Hw.
    { pose proof (blen_nonneg entries). unfold width. change DIRECTORY_SLOTS with 58 in Hn. lia. }
    unfold pad_to. rewrite <- app_assoc. destruct (row_join (blen entries) (bs ++ zeros (DIRECTORY_ROW_BYTES - blen (le_split 4 (blen entries) ++ bs))) Hw) as [E1 E2].
    rewrite E1, E2, (proj2 (Z.ltb_ge _ _)) by done. apply encode_entries_Ok in Hbs as [Hf (bs' & HF & ->)].
    rewrite (proj2 (decode_entries_iff _ _ _ _ _ Hdec _ [] _ entries (zeros (DIRECTORY_ROW_BYTES - blen (le_split 4 (blen entries) ++ concat bs')))))
      by (split_and!; [unfold blen; lia|done|done|eauto]).
    cbn [mbind res_bind]. by rewrite all_zero_pad.
Qed.

(** C29: Directory rows are canonical.  [decode_directory_row] accepts exactly the rows that
    [encode_directory_row] writes for entries as they are decoded (without the script, and
    with pages only in the page shards that the directory declares), returns these entries,
    and never panics. *)
Theorem directory_row_exact row children :
  errs_only (fun _ => True) (decode_directory_row row children) /\
  forall entries, decode_directory_row row children = Ok entries <->
    Forall (decoded_entry children) entries /\ encode_directory_row entries = Ok row.
Proof. apply directory_row_canonical. Qed.
