(* ===== verification/ShardPageRow.v ===== *)
(** * Page rows ([zakura/pir-protocol/src/transparent/shard/page_row.rs], [layout.rs])

    A page row holds fragments of the histories of several scripts: each with the tag of its
    script, its place in the run, the bounds of its heights, the link to the run before it and
    its events.  The bytes come from an untrusted server; the decoder accepts exactly what the
    encoder writes. *)

From S2P Require Import Prelude BitStream ShardEvents ShardEventProofs ShardCompact ShardRecords.

Definition PAGE_ROW_BYTES : Z := 4096.
Definition PAGE_ROW_HEADER_BYTES : Z := 4.
Definition PAGE_ENTRY_HEADER_BYTES : Z := 40.
Definition MAX_ENTRIES_PER_ROW : Z :=
  (PAGE_ROW_BYTES - PAGE_ROW_HEADER_BYTES) / (PAGE_ENTRY_HEADER_BYTES + RECEIVE_BYTES).
(** Of [packing.rs]: the bytes of a row behind its header, and the bytes of events in a fragment. *)
Definition ROW_PAYLOAD : Z := PAGE_ROW_BYTES - PAGE_ROW_HEADER_BYTES.
Definition FRAGMENT_PAYLOAD : Z := ROW_PAYLOAD - PAGE_ENTRY_HEADER_BYTES.

Definition PE_ORDINAL : Z := SCRIPT_TAG_BYTES.
Definition PE_FRAGMENT_COUNT : Z := PE_ORDINAL + 4.
Definition PE_EVENT_COUNT : Z := PE_FRAGMENT_COUNT + 4.
Definition PE_MIN_HEIGHT : Z := PE_EVENT_COUNT + 4.
Definition PE_MAX_HEIGHT : Z := PE_MIN_HEIGHT + 4.
Definition PE_PREV_CHILD : Z := PE_MAX_HEIGHT + 4.
Definition PE_PREV_ROW : Z := PE_PREV_CHILD + 1.
Definition PE_OLDER_RUNS : Z := PE_PREV_ROW + 4.

Record RunLink : Type := MkRunLink { prev_child : Z; prev_row : Z; older_runs : Z }.
Definition no_link : RunLink := MkRunLink 0 0 0.

#[global] Instance run_link_eq_dec : EqDecision RunLink.
Proof. solve_decision. Defined.

(** [RunLink::previous] and [RunLink::is_well_formed] *)
Definition previous_run (l : RunLink) : option (Z * Z) :=
  if prev_row l =? 0 then None else Some (prev_child l, prev_row l - 1).
Definition link_well_formed (l : RunLink) : bool :=
  if prev_row l =? 0 then (prev_child l =? 0) && (older_runs l =? 0)
  else negb (older_runs l =? 0) && (prev_child l <? MAX_PAGE_CHILDREN).

Record PageEntry : Type := MkPageEntry {
  pe_tag : list byte; ordinal : Z; fragment_count : Z; pe_events : list TransparentEvent;
  min_height : Z; max_height : Z; link : RunLink }.

(** [events.iter().map(|e| e.height()).min()] and [max()] *)
Definition heights_min (l : list TransparentEvent) : option Z :=
  match l with [] => None | e :: l => Some (foldl Z.min (event_height e) (map event_height l)) end.
Definition heights_max (l : list TransparentEvent) : option Z :=
  match l with [] => None | e :: l => Some (foldl Z.max (event_height e) (map event_height l)) end.

(** [PageEntry::new], [PageEntry::with_link], [PageEntry::encoded_len] *)
Definition page_entry_new (tag : list byte) (ordinal fragment_count : Z) (events : list TransparentEvent)
    : run RecordError PageEntry :=
  if blen events =? 0 then Err (Failed (Malformed "an entry holds no events")) else
  if (EVENTS_PER_PAGE <? blen events) || (FRAGMENT_PAYLOAD <? encoded_len events)
  then Err (Failed (TooManyEvents (blen events))) else
  if (fragment_count =? 0) || (fragment_count <=? ordinal)
  then Err (Failed (Malformed "fragment of a shorter history")) else
  min ← panics (ok_or (heights_min events) AssertFailed);
  max ← panics (ok_or (heights_max events) AssertFailed);
  Ok (MkPageEntry tag ordinal fragment_count events min max no_link).

Definition link_refused (ordinal : Z) (l : RunLink) : bool :=
  negb (link_well_formed l) || (negb (ordinal =? 0) && negb (bool_decide (l = no_link))).

Definition with_link (e : PageEntry) (l : RunLink) : run RecordError PageEntry :=
  if link_refused (ordinal e) l then Err (Failed (Malformed "fragment cannot carry link"))
  else Ok (MkPageEntry (pe_tag e) (ordinal e) (fragment_count e) (pe_events e) (min_height e) (max_height e) l).

Definition page_entry_len (e : PageEntry) : Z := PAGE_ENTRY_HEADER_BYTES + encoded_len (pe_events e).

(** ** Encoding *)

(** The first loop of [encode_page_row]: the checks and the sum of the lengths. *)
Fixpoint check_entries (used : Z) (l : list PageEntry) : run RecordError Z :=
  match l with
  | [] => Ok used
  | e :: l =>
      if (blen (pe_events e) =? 0) || (EVENTS_PER_PAGE <? blen (pe_events e))
      then Err (Failed (TooManyEvents (blen (pe_events e)))) else
      if link_refused (ordinal e) (link e)
      then Err (Failed (Malformed "a fragment carries a malformed run link")) else
      check_entries (used + page_entry_len e) l
  end.

Definition duplicate_page_tag : RecordError := Malformed "a page row holds a script tag twice".

(** The second loop: [seen] is [entries[..index]]. *)
Fixpoint check_tags (seen l : list PageEntry) : run RecordError unit :=
  match l with
  | [] => Ok ()
  | e :: l => if tag_taken pe_tag (pe_tag e) seen then Err (Failed duplicate_page_tag) else check_tags (seen ++ [e]) l
  end.

Definition page_entry_header (e : PageEntry) : list byte :=
  pe_tag e ++ le_split 4 (ordinal e) ++ le_split 4 (fragment_count e) ++ le_split 4 (blen (pe_events e))
  ++ le_split 4 (min_height e) ++ le_split 4 (max_height e)
  ++ [byte.of_Z (prev_child (link e))] ++ le_split 4 (prev_row (link e)) ++ [byte.of_Z (older_runs (link e))].

(** The third loop, from the offset [at_]: the bytes written.  Slices past the row panic. *)
Fixpoint write_entries (at_ : Z) (l : list PageEntry) : run RecordError (list byte) :=
  match l with
  | [] => Ok []
  | e :: l =>
      _ ← panics (assert_that (at_ + PAGE_ENTRY_HEADER_BYTES <=? PAGE_ROW_BYTES));
      let at_ := at_ + PAGE_ENTRY_HEADER_BYTES in
      encoded ← encode (pe_events e);
      _ ← panics (assert_that (at_ + blen encoded <=? PAGE_ROW_BYTES));
      rest ← write_entries (at_ + blen encoded) l;
      Ok (page_entry_header e ++ encoded ++ rest)
  end.

(** [encode_page_row] *)
Definition encode_page_row (entries : list PageEntry) : run RecordError (list byte) :=
  if MAX_ENTRIES_PER_ROW <? blen entries then Err (Failed (TooManyEntries (blen entries))) else
  used ← check_entries PAGE_ROW_HEADER_BYTES entries;
  if PAGE_ROW_BYTES <? used then Err (Failed (Malformed "entries need more bytes than a row holds")) else
  _ ← check_tags [] entries;
  bs ← write_entries PAGE_ROW_HEADER_BYTES entries;
  Ok (pad_to PAGE_ROW_BYTES (le_split 4 (blen entries) ++ bs)).

(** ** Decoding *)

(** [take(row, at + offset, len)] and [u32_at(row, at + offset)] for [bytes = &row[at..]] *)
Definition take_at (bytes : list byte) (offset len : Z) : run RecordError (list byte) :=
  if offset + len <=? blen bytes then Ok (slice offset (offset + len) bytes)
  else Err (Failed (Malformed "entry runs past the row")).
Definition u32_at (bytes : list byte) (offset : Z) : run RecordError Z :=
  b ← take_at bytes offset 4;
  Ok (le_combine b).
Definition u8_at (bytes : list byte) (offset : Z) : run RecordError Z :=
  b ← take_at bytes offset 1;
  Ok (le_combine b).

(** One iteration of the loop of [decode_page_row], on [&row[at..]], without the comparison
    of tags: the entry and the bytes it takes. *)
Definition page_entry_decode (bytes : list byte) : run RecordError (PageEntry * Z) :=
  tag ← take_at bytes 0 SCRIPT_TAG_BYTES;
  ordinal ← u32_at bytes PE_ORDINAL;
  fragment_count ← u32_at bytes PE_FRAGMENT_COUNT;
  event_count ← u32_at bytes PE_EVENT_COUNT;
  min_height ← u32_at bytes PE_MIN_HEIGHT;
  max_height ← u32_at bytes PE_MAX_HEIGHT;
  prev_child ← u8_at bytes PE_PREV_CHILD;
  prev_row ← u32_at bytes PE_PREV_ROW;
  older_runs ← u8_at bytes PE_OLDER_RUNS;
  let link := MkRunLink prev_child prev_row older_runs in
  if (event_count =? 0) || (EVENTS_PER_PAGE <? event_count)
  then Err (Failed (Malformed "an entry claims no or too many events")) else
  if (fragment_count =? 0) || (fragment_count <=? ordinal)
  then Err (Failed (Malformed "fragment of a shorter history")) else
  if (negb (ordinal =? 0) && negb (bool_decide (link = no_link))) || negb (link_well_formed link)
  then Err (Failed (Malformed "fragment carries run link")) else
  body ← (if PAGE_ENTRY_HEADER_BYTES <=? blen bytes then Ok (bdrop PAGE_ENTRY_HEADER_BYTES bytes)
          else Err (Failed (Malformed "entry runs past row")));
  eu ← decode body event_count;
  let (events, event_bytes) := eu : list TransparentEvent * Z in
  if out_of_order events then Err (Failed (Malformed "an entry's events are not in canonical order")) else
  actual_min ← panics (ok_or (heights_min events) AssertFailed);
  actual_max ← panics (ok_or (heights_max events) AssertFailed);
  if negb (actual_min =? min_height) || negb (actual_max =? max_height)
  then Err (Failed (Malformed "an entry claims heights it does not hold")) else
  Ok (MkPageEntry tag ordinal fragment_count events min_height max_height link,
      PAGE_ENTRY_HEADER_BYTES + event_bytes).

(** [decode_page_row] *)
Definition decode_page_row (row : list byte) : run RecordError (list PageEntry) :=
  if negb (blen row =? PAGE_ROW_BYTES) then Err (Failed (RecordLength (blen row) PAGE_ROW_BYTES)) else
  let count := le_combine (slice 0 PAGE_ROW_HEADER_BYTES row) in
  if count =? 0 then
    if negb (all_zero row) then Err (Failed (Malformed "an unused page row is not all zero")) else Ok []
  else
  if MAX_ENTRIES_PER_ROW <? count then Err (Failed (TooManyEntries count)) else
  lr ← decode_entries pe_tag duplicate_page_tag page_entry_decode (Z.to_nat count) [] (bdrop PAGE_ROW_HEADER_BYTES row);
  let (entries, rest) := lr : list PageEntry * list byte in
  if negb (all_zero rest) then Err (Failed (Malformed "a page row has content past its entries")) else Ok entries.

(** ** One entry *)

(** The fields have the widths of their types. *)
Definition link_wf (l : RunLink) : Prop := width 1 (prev_child l) /\ width 4 (prev_row l) /\ width 1 (older_runs l).
Definition page_entry_wf (e : PageEntry) : Prop :=
  blen (pe_tag e) = 14 /\ width 4 (ordinal e) /\ width 4 (fragment_count e) /\ width 4 (min_height e) /\
  width 4 (max_height e) /\ link_wf (link e) /\ Forall event_wf (pe_events e).

(** What the decoder checks of an entry beyond what the encoder does. *)
Definition page_entry_canonical (e : PageEntry) : Prop :=
  ordinal e < fragment_count e /\ out_of_order (pe_events e) = false /\
  heights_min (pe_events e) = Some (min_height e) /\ heights_max (pe_events e) = Some (max_height e).

(** What the encoder checks of an entry. *)
Definition entry_checked (e : PageEntry) : Prop :=
  1 <= blen (pe_events e) <= EVENTS_PER_PAGE /\ link_refused (ordinal e) (link e) = false.

(** The bytes of one entry, with its checks. *)
Definition page_entry_bytes (e : PageEntry) : run RecordError (list byte) :=
  if (blen (pe_events e) =? 0) || (EVENTS_PER_PAGE <? blen (pe_events e)) || link_refused (ordinal e) (link e)
  then Err (Failed Reserved) else
  encoded ← encode (pe_events e);
  Ok (page_entry_header e ++ encoded).

Lemma page_entry_bytes_Ok e b :
  page_entry_bytes e = Ok b <->
  entry_checked e /\ exists encoded, encode (pe_events e) = Ok encoded /\ b = page_entry_header e ++ encoded.
Proof.
  unfold page_entry_bytes, entry_checked. pose proof (blen_nonneg (pe_events e)).
  destruct (link_refused _ _); [rewrite orb_true_r; naive_solver|]. rewrite orb_false_r.
  destruct (Z.eqb_spec (blen (pe_events e)) 0), (Z.ltb_spec EVENTS_PER_PAGE (blen (pe_events e))); cbn [orb];
    try (split; [done|]; intros [[? _] _]; lia).
  split.
  - intros Hb. bind_step Hb as enc He. injection Hb as <-. split; [split; [lia|done]|eauto].
  - intros [_ (enc & -> & ->)]. done.
Qed.

(** The nine fields of a header, and what follows it. *)
Lemma header_slices (t o f n mn mx c r k rest : list byte) :
  blen t = 14 -> blen o = 4 -> blen f = 4 -> blen n = 4 -> blen mn = 4 -> blen mx = 4 -> blen c = 1 -> blen r = 4 ->
  blen k = 1 ->
  let bytes := t ++ o ++ f ++ n ++ mn ++ mx ++ c ++ r ++ k ++ rest in
  (slice 0 14 bytes = t /\ slice 14 18 bytes = o /\ slice 18 22 bytes = f /\ slice 22 26 bytes = n /\
   slice 26 30 bytes = mn /\ slice 30 34 bytes = mx /\ slice 34 35 bytes = c /\ slice 35 39 bytes = r /\
   slice 39 40 bytes = k) /\ bdrop 40 bytes = rest /\ blen bytes = 40 + blen rest.
Proof.
  intros Ht Ho Hf Hn Hmn Hmx Hc Hr Hk. cbv zeta. split.
  - split_and!.
    all: repeat first [by apply slice_head | rewrite slice_skip with (n := 14) by (done || lia)
      | rewrite slice_skip with (n := 4) by (done || lia) | rewrite slice_skip with (n := 1) by (done || lia)].
  - split; [|rewrite !blen_app; lia]. rewrite !app_assoc. apply bdrop_app. rewrite !blen_app. lia.
Qed.

Lemma header_split (bytes : list byte) : 40 <= blen bytes ->
  bytes = slice 0 14 bytes ++ slice 14 18 bytes ++ slice 18 22 bytes ++ slice 22 26 bytes ++ slice 26 30 bytes ++
    slice 30 34 bytes ++ slice 34 35 bytes ++ slice 35 39 bytes ++ slice 39 40 bytes ++ bdrop 40 bytes.
Proof.
  intros H. rewrite !app_assoc, <- !slice_split by lia. unfold slice, bdrop. cbn [drop]. symmetry. apply take_drop.
Qed.

Lemma take_at_Ok bytes offset len : offset + len <= blen bytes ->
  take_at bytes offset len = Ok (slice offset (offset + len) bytes).
Proof. intros H. unfold take_at. by rewrite (proj2 (Z.leb_le _ _)). Qed.

Lemma take_at_total bytes offset len : errs_only (fun _ => True) (take_at bytes offset len).
Proof. unfold take_at. by case_match. Qed.

(** An entry whose header ends inside the row: its fields, and the checks on them. *)
Lemma page_entry_decode_long bytes : 40 <= blen bytes ->
  page_entry_decode bytes =
  let ordinal := le_combine (slice 14 18 bytes) in
  let fragment_count := le_combine (slice 18 22 bytes) in
  let event_count := le_combine (slice 22 26 bytes) in
  let min_height := le_combine (slice 26 30 bytes) in
  let max_height := le_combine (slice 30 34 bytes) in
  let link := MkRunLink (le_combine (slice 34 35 bytes)) (le_combine (slice 35 39 bytes)) (le_combine (slice 39 40 bytes)) in
  if (event_count =? 0) || (EVENTS_PER_PAGE <? event_count)
  then Err (Failed (Malformed "an entry claims no or too many events")) else
  if (fragment_count =? 0) || (fragment_count <=? ordinal)
  then Err (Failed (Malformed "fragment of a shorter history")) else
  if (negb (ordinal =? 0) && negb (bool_decide (link = no_link))) || negb (link_well_formed link)
  then Err (Failed (Malformed "fragment carries run link")) else
  eu ← decode (bdrop 40 bytes) event_count;
  let (events, event_bytes) := eu : list TransparentEvent * Z in
  if out_of_order events then Err (Failed (Malformed "an entry's events are not in canonical order")) else
  actual_min ← panics (ok_or (heights_min events) AssertFailed);
  actual_max ← panics (ok_or (heights_max events) AssertFailed);
  if negb (actual_min =? min_height) || negb (actual_max =? max_height)
  then Err (Failed (Malformed "an entry claims heights it does not hold")) else
  Ok (MkPageEntry (slice 0 14 bytes) ordinal fragment_count events min_height max_height link, 40 + event_bytes).
Proof.
  intros H. unfold page_entry_decode, u32_at, u8_at.
  unfold PE_OLDER_RUNS, PE_PREV_ROW, PE_PREV_CHILD, PE_MAX_HEIGHT, PE_MIN_HEIGHT, PE_EVENT_COUNT, PE_FRAGMENT_COUNT,
    PE_ORDINAL, SCRIPT_TAG_BYTES.
  rewrite !take_at_Ok by lia. unfold PAGE_ENTRY_HEADER_BYTES. by rewrite (proj2 (Z.leb_le _ _)).
Qed.

Lemma page_entry_decode_short bytes : blen bytes < 40 -> exists e, page_entry_decode bytes = Err (Failed e).
Proof.
  intros H.
  assert (forall A (m : run RecordError A), errs_only (fun _ => True) m -> (forall a, m = Ok a -> False) ->
    exists e, m = Err (Failed e)) as Hex.
  { intros A [a|[e|p]]; [intros _ Hn; by destruct (Hn a)|eauto|done]. }
  unfold page_entry_decode, u8_at, u32_at. apply Hex.
  - repeat (apply errs_only_bind; [first [apply take_at_total | apply errs_only_bind; [apply take_at_total|done]]|];
      intros ? ?).
    match goal with H : context [take_at bytes PE_OLDER_RUNS 1] |- _ => bind_step H as b Hb end.
    unfold take_at in Hb. destruct (Z.leb_spec (PE_OLDER_RUNS + 1) (blen bytes)); [|done].
    change (PE_OLDER_RUNS + 1) with 40 in *. lia.
  - intros a Ha. do 8 (apply res_bind_Ok in Ha as (? & _ & Ha)). bind_step Ha as y Hy.
    bind_step Hy as b Hb. unfold take_at in Hb. destruct (Z.leb_spec (PE_OLDER_RUNS + 1) (blen bytes)); [|done].
    change (PE_OLDER_RUNS + 1) with 40 in *. lia.
Qed.

Lemma heights_some events : 1 <= blen events ->
  exists mn mx, heights_min events = Some mn /\ heights_max events = Some mx.
Proof. destruct events as [|e l]; [by intros|]. intros _. cbn. eauto. Qed.

Lemma page_entry_decode_total bytes : errs_only (fun _ => True) (page_entry_decode bytes).
Proof.
  destruct (Z.le_gt_cases 40 (blen bytes)) as [Hl|Hl].
  - rewrite page_entry_decode_long by done. cbv zeta. destruct (_ || _) eqn:Hc; [done|]. do 2 (case_match; [done|]).
    apply errs_only_bind; [apply compact_decode_total|]. intros [evs u] Hd. case_match; [done|].
    apply compact_decode_iff in Hd as (Hn & _). apply orb_false_iff in Hc as [Hc%Z.eqb_neq _].
    destruct (le_round' 4 (slice 22 26 bytes)) as [_ Hw]; [rewrite blen_slice; lia|].
    destruct (heights_some evs) as (mn & mx & -> & ->); [destruct Hw; lia|]. cbn. by case_match.
  - destruct (page_entry_decode_short bytes) as [e ->]; [lia|done].
Qed.

Lemma link_refused_comm o l :
  (negb (o =? 0) && negb (bool_decide (l = no_link))) || negb (link_well_formed l) = link_refused o l.
Proof. apply orb_comm. Qed.

(** A header read back. *)
Lemma le_combine_byte v : width 1 v -> le_combine [byte.of_Z v] = v.
Proof. intros H. rewrite le_combine_one, byte.unsigned_of_Z. apply Z.mod_small. apply H. Qed.

Lemma page_header_slices e rest : page_entry_wf e -> width 4 (blen (pe_events e)) ->
  let bytes := page_entry_header e ++ rest in
  (slice 0 14 bytes = pe_tag e /\ le_combine (slice 14 18 bytes) = ordinal e /\
   le_combine (slice 18 22 bytes) = fragment_count e /\ le_combine (slice 22 26 bytes) = blen (pe_events e) /\
   le_combine (slice 26 30 bytes) = min_height e /\ le_combine (slice 30 34 bytes) = max_height e /\
   MkRunLink (le_combine (slice 34 35 bytes)) (le_combine (slice 35 39 bytes)) (le_combine (slice 39 40 bytes)) = link e) /\
  bdrop 40 bytes = rest /\ blen bytes = 40 + blen rest.
Proof.
  intros (Ht & Ho & Hf & Hmn & Hmx & (Hc & Hr & Hk) & _) Hn. cbv zeta. unfold page_entry_header. rewrite <- !app_assoc.
  destruct (header_slices (pe_tag e) (le_split 4 (ordinal e)) (le_split 4 (fragment_count e))
    (le_split 4 (blen (pe_events e))) (le_split 4 (min_height e)) (le_split 4 (max_height e))
    [byte.of_Z (prev_child (link e))] (le_split 4 (prev_row (link e))) [byte.of_Z (older_runs (link e))] rest
    Ht (blen_le_split 4 _) (blen_le_split 4 _) (blen_le_split 4 _) (blen_le_split 4 _) (blen_le_split 4 _) eq_refl
    (blen_le_split 4 _) eq_refl) as ((-> & -> & -> & -> & -> & -> & -> & -> & ->) & -> & ->).
  rewrite !le_combine_byte, !le_round by done. by destruct (link e).
Qed.

Lemma page_entry_decode_of e b rest :
  page_entry_wf e -> page_entry_canonical e -> page_entry_bytes e = Ok b ->
  page_entry_decode (b ++ rest) = Ok (e, blen b).
Proof.
  intros Hwf (Ho & Hord & Hmin & Hmax) He. apply page_entry_bytes_Ok in He as ([Hn Hlink] & enc & He & ->).
  assert (width 4 (blen (pe_events e))) as Hw by (unfold width, EVENTS_PER_PAGE in *; lia).
  rewrite <- app_assoc. destruct (page_header_slices e (enc ++ rest) Hwf Hw) as (Hs & Hd & Hl).
  destruct (page_header_slices e enc Hwf Hw) as (_ & _ & ->).
  rewrite page_entry_decode_long by (rewrite Hl; pose proof (blen_nonneg (enc ++ rest)); lia). cbv zeta.
  rewrite Hd. clear Hl. destruct Hs as (-> & -> & -> & -> & -> & -> & ->). rewrite link_refused_comm, Hlink.
  assert ((blen (pe_events e) =? 0) || (EVENTS_PER_PAGE <? blen (pe_events e)) = false) as ->
    by (apply orb_false_iff; split; [apply Z.eqb_neq|apply Z.ltb_ge]; lia).
  assert ((fragment_count e =? 0) || (fragment_count e <=? ordinal e) = false) as ->.
  { destruct Hwf as (_ & [] & _). apply orb_false_iff. split; [apply Z.eqb_neq|apply Z.leb_gt]; lia. }
  rewrite (proj2 (compact_decode_iff (enc ++ rest) (blen (pe_events e)) (pe_events e) (blen enc))).
  2: { destruct Hwf as (_ & _ & _ & _ & _ & _ & Hwf). split_and!; [lia|lia|done|]. by exists enc, rest. }
  cbn [mbind res_bind]. rewrite Hord, Hmin, Hmax. cbn [panics ok_or mbind res_bind]. rewrite !Z.eqb_refl. cbn [negb orb].
  by destruct e.
Qed.

Lemma page_header_of bytes events :
  40 <= blen bytes -> le_combine (slice 22 26 bytes) = blen events ->
  let e := MkPageEntry (slice 0 14 bytes) (le_combine (slice 14 18 bytes)) (le_combine (slice 18 22 bytes)) events
    (le_combine (slice 26 30 bytes)) (le_combine (slice 30 34 bytes))
    (MkRunLink (le_combine (slice 34 35 bytes)) (le_combine (slice 35 39 bytes)) (le_combine (slice 39 40 bytes))) in
  (Forall event_wf events -> page_entry_wf e) /\ bytes = page_entry_header e ++ bdrop 40 bytes.
Proof.
  intros Hl Hn. cbv zeta.
  assert (forall f t, t = f + 4 -> 0 <= f -> t <= 40 -> le_split 4 (le_combine (slice f t bytes)) = slice f t bytes /\
    width 4 (le_combine (slice f t bytes))) as H4 by (intros f t -> H0 Hf; apply (le_round' 4); rewrite blen_slice; lia).
  assert (forall f t, t = f + 1 -> 0 <= f -> t <= 40 -> [byte.of_Z (le_combine (slice f t bytes))] = slice f t bytes /\
    width 1 (le_combine (slice f t bytes))) as H1.
  { intros f t -> H0 Hf. destruct (slice f (f + 1) bytes) as [|b [|b' l]] eqn:E.
    1, 3: apply (f_equal blen) in E; rewrite blen_slice in E by lia; unfold blen in E; cbn in E; lia.
    rewrite le_combine_one, byte.of_Z_unsigned. split; [done|]. apply byte_range. }
  destruct (H4 14 18 eq_refl ltac:(lia) ltac:(lia)) as [E14 W14], (H4 18 22 eq_refl ltac:(lia) ltac:(lia)) as [E18 W18],
    (H4 22 26 eq_refl ltac:(lia) ltac:(lia)) as [E22 _], (H4 26 30 eq_refl ltac:(lia) ltac:(lia)) as [E26 W26],
    (H4 30 34 eq_refl ltac:(lia) ltac:(lia)) as [E30 W30], (H4 35 39 eq_refl ltac:(lia) ltac:(lia)) as [E35 W35],
    (H1 34 35 eq_refl ltac:(lia) ltac:(lia)) as [E34 W34], (H1 39 40 eq_refl ltac:(lia) ltac:(lia)) as [E39 W39]. split.
  - intros Hev. unfold page_entry_wf, link_wf. cbn [pe_tag ordinal fragment_count pe_events min_height max_height link
      prev_child prev_row older_runs]. split_and!; try done. rewrite blen_slice; lia.
  - unfold page_entry_header. cbn [pe_tag ordinal fragment_count pe_events min_height max_height link
      prev_child prev_row older_runs]. rewrite <- Hn, E14, E18, E22, E26, E30, E34, E35, E39, <- !app_assoc.
    by apply header_split.
Qed.

Lemma page_entry_decode_Ok bytes e used :
  page_entry_decode bytes = Ok (e, used) ->
  (page_entry_wf e /\ page_entry_canonical e) /\
  exists b rest, page_entry_bytes e = Ok b /\ bytes = b ++ rest /\ used = blen b.
Proof.
  intros H. destruct (Z.le_gt_cases 40 (blen bytes)) as [Hl|Hl].
  2: { destruct (page_entry_decode_short bytes) as [err E]; [lia|]. by rewrite E in H. }
  rewrite page_entry_decode_long in H by done. cbv zeta in H. rewrite link_refused_comm in H.
  destruct (_ || _) eqn:Hc in H; [done|]. destruct (_ || _) eqn:Hf in H; [done|]. destruct (link_refused _ _) eqn:Hk; [done|].
  bind_step H as eu Hd. destruct eu as [evs u]. destruct (out_of_order evs) eqn:Hord; [done|].
  bind_step H as mn Hmn. bind_step H as mx Hmx. destruct (_ || _) eqn:Hm in H; [done|]. injection H as <- <-.
  apply orb_false_iff in Hc as [Hc%Z.eqb_neq Hc'%Z.ltb_ge], Hf as [_ Hf%Z.leb_gt], Hm as [Hm1 Hm2].
  apply negb_false_iff, Z.eqb_eq in Hm1 as ->, Hm2 as ->.
  apply compact_decode_iff in Hd as (Hn & _ & Hwf & b & rest & He & Hb & ->).
  destruct (le_round' 4 (slice 22 26 bytes)) as [_ [Hw _]]; [rewrite blen_slice; lia|].
  destruct (page_header_of bytes evs Hl ltac:(lia)) as [Hpw Hbytes]. set (e := MkPageEntry _ _ _ _ _ _ _) in *.
  split; [split; [auto|done]|]. exists (page_entry_header e ++ b), rest. split_and!.
  - apply page_entry_bytes_Ok. split; [split; [cbn; lia|done]|]. by exists b.
  - by rewrite Hbytes, Hb, app_assoc.
  - destruct (page_header_slices e b (Hpw Hwf)) as (_ & _ & ->); [|done]. cbn. unfold width, EVENTS_PER_PAGE in *. lia.
Qed.

Lemma page_entry_decode_iff bytes e used :
  page_entry_decode bytes = Ok (e, used) <->
  (page_entry_wf e /\ page_entry_canonical e) /\
  exists b rest, page_entry_bytes e = Ok b /\ bytes = b ++ rest /\ used = blen b.
Proof.
  split; [apply page_entry_decode_Ok|]. intros ([Hw Hc] & b & rest & He & -> & ->). by apply page_entry_decode_of.
Qed.

(** ** Rows *)

Definition entries_len (l : list PageEntry) : Z := foldr (fun e n => page_entry_len e + n) 0 l.

Lemma check_entries_Ok used l u :
  check_entries used l = Ok u <-> Forall entry_checked l /\ u = used + entries_len l.
Proof.
  revert used. induction l as [|e l IH]; intros used; cbn [check_entries entries_len foldr].
  { split; [intros [= <-]; split; [constructor|lia]|]. intros [_ ->]. f_equal. lia. }
  rewrite Forall_cons. unfold entry_checked at 1. pose proof (blen_nonneg (pe_events e)).
  destruct (_ || _) eqn:Hn.
  { split; [done|]. intros ([[[? ?] _] _] & _). apply orb_true_iff in Hn as [?%Z.eqb_eq|?%Z.ltb_lt]; lia. }
  apply orb_false_iff in Hn as [?%Z.eqb_neq ?%Z.ltb_ge]. destruct (link_refused _ _); [naive_solver|].
  rewrite IH. fold (entries_len l). split; [intros [? ->]|intros [[_ ?] ->]]; (split; [|lia]); [|done].
  split; [split; [lia|done]|done].
Qed.

Lemma check_tags_Ok seen l u : check_tags seen l = Ok u <-> fresh_tags pe_tag seen l.
Proof.
  destruct u. revert seen. induction l as [|e l IH]; intros seen; cbn [check_tags].
  { split; [|done]. intros _. split; constructor. }
  rewrite fresh_tags_cons, <- tag_taken_false, <- IH. destruct (tag_taken _ _ _); naive_solver.
Qed.

Lemma check_entries_total used l : errs_only (fun _ => True) (check_entries used l).
Proof. revert used. induction l as [|e l IH]; intros used; cbn [check_entries]; [done|]. by repeat case_match. Qed.
Lemma check_tags_total seen l : errs_only (fun _ => True) (check_tags seen l).
Proof. revert seen. induction l as [|e l IH]; intros seen; cbn [check_tags]; [done|]. by case_match. Qed.

Lemma entries_len_nonneg l : 0 <= entries_len l.
Proof.
  induction l as [|e l IH]; cbn; [done|]. fold (entries_len l). unfold page_entry_len, PAGE_ENTRY_HEADER_BYTES.
  pose proof (encoded_len_from_nonneg None (pe_events e)). unfold encoded_len. lia.
Qed.

Lemma page_header_len e : page_entry_wf e -> blen (page_entry_header e) = 40.
Proof.
  intros (Ht & _). unfold page_entry_header. rewrite !blen_app, !blen_le_split. change (blen [?x]) with 1. lia.
Qed.

Lemma page_entry_bytes_len e b : page_entry_wf e -> page_entry_bytes e = Ok b -> blen b = page_entry_len e.
Proof.
  intros Hwf (_ & enc & He & ->)%page_entry_bytes_Ok. rewrite blen_app, page_header_len by done.
  destruct Hwf as (_ & _ & _ & _ & _ & _ & Hev). by rewrite (encode_from_len None (pe_events e) enc).
Qed.

(** Inside the row nothing panics, and the bytes written are those of the entries. *)
Lemma write_entries_total at_ l :
  Forall page_entry_wf l -> at_ + entries_len l <= PAGE_ROW_BYTES -> errs_only (fun _ => True) (write_entries at_ l).
Proof.
  intros Hwf. revert at_. induction Hwf as [|e l He _ IH]; intros at_ Hfit; cbn [write_entries]; [done|].
  cbn [entries_len foldr] in Hfit. fold (entries_len l) in Hfit. unfold page_entry_len in Hfit.
  pose proof (entries_len_nonneg l). pose proof (encoded_len_from_nonneg None (pe_events e)). fold (encoded_len (pe_events e)) in *.
  rewrite assert_that_true by (apply Z.leb_le; lia). cbn [panics mbind res_bind].
  destruct He as (_ & _ & _ & _ & _ & _ & He). apply errs_only_bind; [by apply encode_from_total|].
  intros enc Henc. apply encode_from_len in Henc as Hlen; [|done]. fold (encoded_len (pe_events e)) in Hlen. rewrite Hlen.
  rewrite assert_that_true by (apply Z.leb_le; lia). cbn [panics mbind res_bind]. apply errs_only_bind; [|done].
  apply IH. lia.
Qed.

Lemma write_entries_Ok at_ l bs :
  Forall page_entry_wf l -> Forall entry_checked l -> at_ + entries_len l <= PAGE_ROW_BYTES ->
  write_entries at_ l = Ok bs <-> exists bss, Forall2 (fun e b => page_entry_bytes e = Ok b) l bss /\ bs = concat bss.
Proof.
  intros Hwf. revert at_ bs. induction Hwf as [|e l He _ IH]; intros at_ bs Hc Hfit; cbn [write_entries].
  { split; [intros [= <-]; by exists []|]. intros (bss & HF & ->). by inversion HF. }
  cbn [entries_len foldr] in Hfit. fold (entries_len l) in Hfit. unfold page_entry_len in Hfit.
  pose proof (entries_len_nonneg l). pose proof (encoded_len_from_nonneg None (pe_events e)). fold (encoded_len (pe_events e)) in *.
  apply Forall_cons in Hc as [Hce Hc]. destruct He as (_ & _ & _ & _ & _ & _ & He).
  rewrite assert_that_true by (apply Z.leb_le; lia). cbn [panics mbind res_bind].
  assert (forall enc, encode (pe_events e) = Ok enc -> blen enc = encoded_len (pe_events e)) as Hlen
    by (intros enc; by apply encode_from_len).
  split.
  - intros H1. bind_step H1 as enc Henc. rewrite (Hlen enc Henc) in H1. rewrite assert_that_true in H1 by (apply Z.leb_le; lia).
    cbn [panics mbind res_bind] in H1. bind_step H1 as rest Hr. injection H1 as <-.
    apply IH in Hr as (bss & HF & ->); [|done|lia]. exists ((page_entry_header e ++ enc) :: bss).
    split; [constructor; [|done]|cbn [concat]; by rewrite app_assoc]. apply page_entry_bytes_Ok. eauto.
  - intros (bss & HF & ->). inversion HF as [|? b ? bss' Hb HF']; subst. apply page_entry_bytes_Ok in Hb as (_ & enc & Henc & ->).
    rewrite Henc. cbn [mbind res_bind]. rewrite (Hlen enc Henc). rewrite assert_that_true by (apply Z.leb_le; lia).
    cbn [panics mbind res_bind]. rewrite (proj2 (IH (at_ + PAGE_ENTRY_HEADER_BYTES + encoded_len (pe_events e)) (concat bss') Hc ltac:(lia))) by eauto. cbn [mbind res_bind concat].
    by rewrite app_assoc.
Qed.

Lemma entries_len_bytes l bss :
  Forall page_entry_wf l -> Forall2 (fun e b => page_entry_bytes e = Ok b) l bss -> blen (concat bss) = entries_len l.
Proof.
  intros Hwf HF. induction HF as [|e b l bss Hb HF IH]; [done|]. apply Forall_cons in Hwf as [He Hwf]. cbn [concat].
  rewrite blen_app, (page_entry_bytes_len e b), IH by done. done.
Qed.

Lemma entries_checked l bss : Forall2 (fun e b => page_entry_bytes e = Ok b) l bss -> Forall entry_checked l.
Proof. induction 1 as [|e b l bss (Hc & _)%page_entry_bytes_Ok]; by constructor. Qed.

(** What the encoder of a row requires and writes. *)
Lemma encode_page_row_Ok entries row : Forall page_entry_wf entries ->
  encode_page_row entries = Ok row <->
  blen entries <= MAX_ENTRIES_PER_ROW /\ fresh_tags pe_tag [] entries /\
  exists bss, Forall2 (fun e b => page_entry_bytes e = Ok b) entries bss /\ 4 + blen (concat bss) <= PAGE_ROW_BYTES /\
    row = pad_to PAGE_ROW_BYTES (le_split 4 (blen entries) ++ concat bss).
Proof.
  intros Hwf. unfold encode_page_row. destruct (Z.ltb_spec MAX_ENTRIES_PER_ROW (blen entries)) as [|Hn].
  { split; [done|]. intros [? _]. lia. }
  split.
  - intros H. bind_step H as used Hu. apply check_entries_Ok in Hu as [Hc ->].
    destruct (Z.ltb_spec PAGE_ROW_BYTES (PAGE_ROW_HEADER_BYTES + entries_len entries)) as [|Hfit]; [done|].
    bind_step H as u Ht. apply check_tags_Ok in Ht. bind_step H as bs Hbs.
    apply write_entries_Ok in Hbs as (bss & HF & ->); [|done..]. split_and!; [done|done|]. exists bss.
    rewrite (entries_len_bytes _ _ Hwf HF). split_and!; [done|done|congruence].
  - intros (_ & Ht & bss & HF & Hfit & ->). pose proof (entries_checked _ _ HF) as Hc.
    rewrite (entries_len_bytes _ _ Hwf HF) in Hfit.
    rewrite (proj2 (check_entries_Ok PAGE_ROW_HEADER_BYTES entries (PAGE_ROW_HEADER_BYTES + entries_len entries))) by done.
    cbn [mbind res_bind]. rewrite (proj2 (Z.ltb_ge _ _)) by done. rewrite (proj2 (check_tags_Ok [] entries ())) by done.
    cbn [mbind res_bind]. rewrite (proj2 (write_entries_Ok PAGE_ROW_HEADER_BYTES entries (concat bss) Hwf Hc Hfit)) by eauto.
    done.
Qed.

Lemma encode_page_row_total entries :
  Forall page_entry_wf entries -> errs_only (fun _ => True) (encode_page_row entries).
Proof.
  intros Hwf. unfold encode_page_row. case_match; [done|]. apply errs_only_bind; [apply check_entries_total|].
  intros used [_ ->]%check_entries_Ok. case_match eqn:Hfit; [done|]. apply Z.ltb_ge in Hfit.
  apply errs_only_bind; [apply check_tags_total|]. intros _ _. apply errs_only_bind; [by apply write_entries_total|done].
Qed.

Lemma decode_page_row_total row : errs_only (fun _ => True) (decode_page_row row).
Proof.
  unfold decode_page_row. case_match; [done|]. case_match; [by case_match|]. case_match; [done|].
  apply errs_only_bind; [|intros [l r] _; by case_match].
  eapply decode_entries_total; [apply page_entry_decode_iff|apply page_entry_decode_total].
Qed.

Lemma empty_row_Ok row : encode_page_row [] = Ok row <-> row = zeros PAGE_ROW_BYTES.
Proof.
  rewrite encode_page_row_Ok by constructor. split.
  - intros (_ & _ & bss & HF & _ & ->). inversion HF. vm_compute. done.
  - intros ->. split_and!; [done|split; constructor|]. exists []. split_and!; [constructor|done|vm_compute; done].
Qed.

Lemma le_zeros_row row : blen row = PAGE_ROW_BYTES -> all_zero row = true -> le_combine (slice 0 4 row) = 0.
Proof. intros Hl ->%all_zero_zeros. rewrite Hl. vm_compute. done. Qed.

Lemma decode_page_row_Ok row entries :
  decode_page_row row = Ok entries ->
  Forall (fun e => page_entry_wf e /\ page_entry_canonical e) entries /\ encode_page_row entries = Ok row.
Proof.
  unfold decode_page_row. destruct (Z.eqb_spec (blen row) PAGE_ROW_BYTES) as [Hl|]; [|done]. cbn [negb].
  change PAGE_ROW_HEADER_BYTES with 4.
  destruct (row_split row _ Hl ltac:(done)) as [Hrow Hw]. set (n := le_combine (slice 0 4 row)) in *.
  destruct (Z.eqb_spec n 0) as [H0|H0].
  { destruct (all_zero row) eqn:Hz; [|done]. intros [= <-]. split; [constructor|]. apply empty_row_Ok.
    rewrite <- Hl. by apply all_zero_zeros. }
  destruct (Z.ltb_spec MAX_ENTRIES_PER_ROW n) as [|Hn]; [done|]. intros H. bind_step H as lr Hlr. destruct lr as [l rest].
  destruct (all_zero rest) eqn:Hz; [|done]. injection H as ->.
  apply (decode_entries_iff _ _ _ _ _ page_entry_decode_iff) in Hlr as (Hlen & HP & Hf & bss & HF & Hb). split; [done|].
  assert (blen entries = n) as Hn' by (unfold blen; destruct Hw; lia).
  apply encode_page_row_Ok; [by eapply Forall_impl; [exact HP|]; intros e []|]. split_and!; [by rewrite Hn'|done|].
  exists bss. rewrite Hb, app_assoc in Hrow. pose proof Hl as Hl'. rewrite Hrow, !blen_app, blen_le_split in Hl'.
  pose proof (blen_nonneg rest). split_and!; [done|lia|]. rewrite Hn', Hrow. clearbody n. symmetry.
  apply pad_to_app; [done|]. by rewrite <- Hrow.
Qed.

Lemma decode_page_row_of row entries :
  Forall (fun e => page_entry_wf e /\ page_entry_canonical e) entries -> encode_page_row entries = Ok row ->
  decode_page_row row = Ok entries.
Proof.
  intros HP H. apply encode_page_row_Ok in H as (Hn & Hf & bss & HF & Hfit & ->).
  2: { by eapply Forall_impl; [exact HP|]; intros e []. }
  unfold decode_page_row. rewrite blen_pad by (rewrite blen_app, blen_le_split; lia).
  cbn [Z.eqb Pos.eqb negb PAGE_ROW_BYTES].
  assert (width 4 (blen entries)) as Hw.
  { pose proof (blen_nonneg entries). unfold width. change MAX_ENTRIES_PER_ROW with 44 in Hn. lia. }
  unfold pad_to at 1. set (z := zeros _). change PAGE_ROW_HEADER_BYTES with 4.
  destruct (row_join (blen entries) (concat bss ++ z) Hw) as [E1 E2]. unfold pad_to. fold z.
  rewrite <- app_assoc, E1, E2, (proj2 (Z.ltb_ge _ _)) by done. destruct (Z.eqb_spec (blen entries) 0) as [H0|H0].
  { destruct entries as [|e l]; [|rewrite blen_cons in H0; pose proof (blen_nonneg l); lia]. inversion HF. subst. done. }
  rewrite (proj2 (decode_entries_iff _ _ _ _ _ page_entry_decode_iff _ [] _ entries z))
    by (split_and!; [unfold blen; lia|done|done|eauto]).
  cbn [mbind res_bind]. unfold z. by rewrite all_zero_pad.
Qed.

(** C28: Page rows are canonical.  [decode_page_row] accepts exactly the rows that
    [encode_page_row] writes for entries in their canonical form (events in order, the bounds
    of their own heights, a fragment number below the count), returns these entries, and never
    panics on the bytes of a server; nor does [encode_page_row] on any entries. *)
Theorem page_row_exact row :
  errs_only (fun _ => True) (decode_page_row row) /\
  (forall entries, Forall page_entry_wf entries -> errs_only (fun _ => True) (encode_page_row entries)) /\
  forall entries, decode_page_row row = Ok entries <->
    Forall (fun e => page_entry_wf e /\ page_entry_canonical e) entries /\ encode_page_row entries = Ok row.
Proof.
  split_and!; [apply decode_page_row_total|apply encode_page_row_total|].
  intros entries. split; [apply decode_page_row_Ok|]. intros []. by apply decode_page_row_of.
Qed.
