(* ===== verification/ShardPacking.v ===== *)
(** * Fragments of histories ([zakura/pir-protocol/src/transparent/shard/packing.rs])

    The history of a script is cut into fragments, the longest prefixes that fit an entry of a
    page.  [fragments] cuts a whole history, [HistoryLayout] keeps what a later event can
    change as events arrive.  Additions are those of builds with overflow checks. *)

From S2P Require Import Prelude BitStream ShardEvents ShardEventProofs ShardCompact ShardRecords ShardPageRow.

Definition u32_limit : Z := 2 ^ 32.
Definition u64_limit : Z := 2 ^ 64.
(** [a + b] of a type with [limit] values *)
Definition checked_plus (limit a b : Z) : exec Z := if a + b <? limit then Ok (a + b) else Err AssertFailed.
(** [a - b] of an unsigned type *)
Definition checked_minus (a b : Z) : exec Z := if b <=? a then Ok (a - b) else Err AssertFailed.

Record HistoryLayout : Type := MkHistoryLayout {
  hl_events : Z; hl_inline : list TransparentEvent; hl_fragments : Z; tail_bytes : Z; paged_bytes : Z;
  last_paged : option TransparentEvent }.
Definition history_default : HistoryLayout := MkHistoryLayout 0 [] 0 0 0 None.

(** [HistoryLayout::push_with_payload] *)
Definition push_with_payload (h : HistoryLayout) (event : TransparentEvent) (inline payload : Z) : exec HistoryLayout :=
  events ← (if hl_events h + 1 <? u32_limit then Ok (hl_events h + 1) else Err ExpectFailed);
  match hl_inline h ++ [event] with
  | [] => Err Unreachable
  | older :: rest =>
      if blen (older :: rest) <=? inline
      then Ok (MkHistoryLayout events (older :: rest) (hl_fragments h) (tail_bytes h) (paged_bytes h) (last_paged h))
      else
        let len := event_len older (last_paged h) in
        flt ← (if (hl_fragments h =? 0) || (payload <? tail_bytes h + len) then
                 f ← checked_plus u32_limit (hl_fragments h) 1;
                 Ok (f, event_len older None, 0)
               else Ok (hl_fragments h, len, tail_bytes h));
        let '(fragments, len, tail) := flt : Z * Z * Z in
        tail_bytes ← checked_plus u64_limit tail len;
        paged_bytes ← checked_plus u64_limit (paged_bytes h) len;
        Ok (MkHistoryLayout events rest fragments tail_bytes paged_bytes (Some older))
  end.

(** [HistoryLayout::push] and [directory_bytes] *)
Definition push (h : HistoryLayout) (event : TransparentEvent) (inline : Z) : exec HistoryLayout :=
  push_with_payload h event inline FRAGMENT_PAYLOAD.
Definition directory_bytes (h : HistoryLayout) : Z := DIRECTORY_ENTRY_HEADER_BYTES + encoded_len (hl_inline h).

(** [for event in run { summary.push(event, inline) }] *)
Fixpoint push_all (h : HistoryLayout) (l : list TransparentEvent) (inline : Z) : exec HistoryLayout :=
  match l with
  | [] => Ok h
  | e :: l => h ← push h e inline; push_all h l inline
  end.

(** [fragments]: [cur] is [events[start..i]] *)
Fixpoint fragments_from (cur : list TransparentEvent) (bytes : Z) (l : list TransparentEvent)
    : list (list TransparentEvent) :=
  match l with
  | [] => if blen cur =? 0 then [] else [cur]
  | e :: l =>
      let len := event_len e (last cur) in
      if FRAGMENT_PAYLOAD <? bytes + len then cur :: fragments_from [e] (0 + event_len e None) l
      else fragments_from (cur ++ [e]) (bytes + len) l
  end.
Definition fragments (events : list TransparentEvent) : list (list TransparentEvent) := fragments_from [] 0 events.

(** ** Lengths of slices *)

Lemma encoded_len_from_app p l k :
  encoded_len_from p (l ++ k) = encoded_len_from p l + encoded_len_from (match last l with Some e => Some e | None => p end) k.
Proof.
  revert p. induction l as [|e l IH]; intros p; cbn [app encoded_len_from]; [done|]. rewrite IH, last_cons.
  destruct (last l); lia.
Qed.

Lemma encoded_len_snoc l e : encoded_len (l ++ [e]) = encoded_len l + event_len e (last l).
Proof. unfold encoded_len. rewrite encoded_len_from_app. cbn [encoded_len_from]. destruct (last l); lia. Qed.

Lemma encoded_len_prefix l k : encoded_len l <= encoded_len (l ++ k).
Proof.
  unfold encoded_len. rewrite encoded_len_from_app.
  pose proof (encoded_len_from_nonneg (match last l with Some e => Some e | None => None end) k). lia.
Qed.

(** Without the events before it a slice is not longer: a receive outweighs the outpoint
    that its spend then has to name. *)
Lemma event_len_context e p : event_len e None <= event_len e p + 36.
Proof.
  unfold event_len. destruct e as [r|s]; [lia|]. change (local (Spend s) None) with false.
  unfold SPEND_BYTES, LOCAL_SPEND_BYTES. destruct (local _ _); lia.
Qed.

Lemma encoded_len_suffix l k : encoded_len k <= encoded_len (l ++ k).
Proof.
  destruct (decide (l = [])) as [->|Hl]; [done|]. unfold encoded_len. rewrite encoded_len_from_app.
  assert (36 <= encoded_len_from None l).
  { destruct l as [|e l]; [done|]. cbn [encoded_len_from]. pose proof (event_len_bounds e None).
    pose proof (encoded_len_from_nonneg (Some e) l). unfold LOCAL_SPEND_BYTES in *. lia. }
  destruct k as [|e k]; cbn [encoded_len_from]; [lia|].
  pose proof (event_len_context e (match last l with Some e => Some e | None => None end)). lia.
Qed.

(** Two events take at least 94 bytes: a local spend has its receive before it. *)
Lemma encoded_len_events l p :
  47 * blen l <= encoded_len_from p l + match p with Some (Receive _) => 4 | _ => 0 end.
Proof.
  revert p. induction l as [|e l IH]; intros p; cbn [encoded_len_from].
  { change (blen []) with 0. destruct p as [[]|]; lia. }
  rewrite blen_cons. specialize (IH (Some e)).
  assert (0 <= match event_metadata e with Some m => metadata_encoded_len m | None => 0 end).
  { destruct (event_metadata e) as [m|]; [|lia]. apply metadata_encoded_len_nonneg. }
  unfold event_len, RECEIVE_BYTES, SPEND_BYTES, LOCAL_SPEND_BYTES in *. destruct e as [r|s]; [destruct p as [[]|]; lia|].
  destruct (local (Spend s) p) eqn:Hl; [|destruct p as [[]|]; lia]. destruct p as [[]|]; try done. lia.
Qed.

Lemma fragment_events l : encoded_len l <= FRAGMENT_PAYLOAD -> blen l <= EVENTS_PER_PAGE.
Proof.
  pose proof (encoded_len_events l None). unfold encoded_len, EVENTS_PER_PAGE, FRAGMENT_PAYLOAD, ROW_PAYLOAD,
    PAGE_ROW_BYTES, PAGE_ROW_HEADER_BYTES, PAGE_ENTRY_HEADER_BYTES in *. lia.
Qed.

(** ** Fragments of a whole history *)

(** No event is longer than a fragment. *)
Definition event_fits (e : TransparentEvent) : Prop := event_len e None <= FRAGMENT_PAYLOAD.

Lemma event_wf_fits e : event_wf e -> event_fits e.
Proof. intros H. unfold event_fits. pose proof (event_len_max e None H). unfold SPEND_BYTES in *. etrans; [done|]. done. Qed.

Definition fragment_ok (f : list TransparentEvent) : Prop := f <> [] /\ encoded_len f <= FRAGMENT_PAYLOAD.

(** Each fragment but the last is full: the next event does not fit. *)
Fixpoint greedy (fs : list (list TransparentEvent)) : Prop :=
  match fs with
  | f :: ((g :: _) as fs') => (forall e, head g = Some e -> FRAGMENT_PAYLOAD < encoded_len (f ++ [e])) /\ greedy fs'
  | _ => True
  end.

Lemma fragments_from_nil_inv cur bytes l : cur <> [] -> fragments_from cur bytes l <> [].
Proof.
  revert cur bytes. induction l as [|e l IH]; intros cur bytes Hc; cbn [fragments_from].
  - destruct (Z.eqb_spec (blen cur) 0) as [H|]; [|done]. destruct cur as [|x cur]; [done|]. rewrite blen_cons in H.
    pose proof (blen_nonneg cur). lia.
  - case_match; [done|]. apply IH. intros [_ ?]%app_nil. done.
Qed.

Lemma fragments_from_head cur bytes l : exists k fs, fragments_from cur bytes l = k :: fs /\ take (length cur) k = cur \/ fragments_from cur bytes l = [] /\ cur = [].
Proof.
  revert cur bytes. induction l as [|e l IH]; intros cur bytes; cbn [fragments_from].
  - destruct cur as [|x cur]; [by exists [], []; right|]. exists (x :: cur), []. left. rewrite firstn_all.
    by destruct (Z.eqb_spec (blen (x :: cur)) 0) as [H|]; [rewrite blen_cons in H; pose proof (blen_nonneg cur); lia|].
  - case_match; [eexists cur, _; left; rewrite firstn_all; done|].
    destruct (IH (cur ++ [e]) (bytes + event_len e (last cur))) as (k & fs & [[-> Hk]|[_ Hn]]); [|by apply app_nil in Hn as [_ ?]].
    exists k, fs. left. split; [done|]. rewrite length_app in Hk. apply (f_equal (take (length cur))) in Hk.
    rewrite take_take, take_app_length in Hk. cbn in Hk. by rewrite Nat.min_l in Hk by lia.
Qed.

Lemma fragments_from_spec cur l :
  encoded_len cur <= FRAGMENT_PAYLOAD -> Forall event_fits l ->
  let fs := fragments_from cur (encoded_len cur) l in
  concat fs = cur ++ l /\ Forall fragment_ok fs /\ greedy fs.
Proof.
  intros Hc Hl. cbv zeta. revert cur Hc. induction Hl as [|e l He Hl IH]; intros cur Hc; cbn [fragments_from].
  - destruct cur as [|x cur]; [done|].
    destruct (Z.eqb_spec (blen (x :: cur)) 0) as [H|]; [rewrite blen_cons in H; pose proof (blen_nonneg cur); lia|].
    cbn [concat]. rewrite app_nil_r. split_and!; [done|by repeat constructor|done].
  - rewrite <- encoded_len_snoc. destruct (Z.ltb_spec FRAGMENT_PAYLOAD (encoded_len (cur ++ [e]))) as [Hx|Hx].
    + assert (0 + event_len e None = encoded_len [e]) as -> by (unfold encoded_len; cbn; lia).
      destruct (IH [e]) as (Hcc & HF & HG); [unfold encoded_len; cbn; unfold event_fits in He; lia|].
      destruct (fragments_from_head [e] (encoded_len [e]) l) as (k & fs & [[E Hk]|[_ ?]]); [|done]. rewrite E in *.
      split_and!; [cbn [concat] in *; by rewrite Hcc| |split; [|done]].
      * constructor; [|done]. split; [|done]. intros ->. cbn [app] in Hx. unfold encoded_len in Hx. cbn in Hx.
        unfold event_fits in He. lia.
      * destruct k as [|x k]; [done|]. cbn in Hk. injection Hk as ->. intros e' [= <-]. done.
    + destruct (IH (cur ++ [e]) Hx) as (Hcc & HF & HG). rewrite <- app_assoc in Hcc. done.
Qed.

Lemma fragments_spec events : Forall event_fits events ->
  concat (fragments events) = events /\ Forall fragment_ok (fragments events) /\ greedy (fragments events).
Proof. intros H. apply (fragments_from_spec [] events); done. Qed.

(** Greedy cuts come last: whatever has been cut off so far ends no later. *)
Lemma greedy_minimal fs gs k :
  Forall fragment_ok fs -> greedy fs -> Forall (fun g => encoded_len g <= FRAGMENT_PAYLOAD) gs ->
  concat gs = k ++ concat fs -> (length fs <= length gs)%nat.
Proof.
  revert gs k. induction fs as [|f fs IH]; intros gs k HF HG Hgs E; [cbn; lia|].
  apply Forall_cons in HF as [[Hf _] HF]. destruct gs as [|g gs].
  { cbn in E. symmetry in E. apply app_nil in E as [_ E]. cbn in E. by apply app_nil in E as [? _]. }
  apply Forall_cons in Hgs as [Hg Hgs]. cbn [length]. destruct fs as [|f' fs]; [cbn; lia|].
  destruct HG as [Hfull HG]. apply Forall_cons in HF as [Hf' HF]. cbn [concat] in E. rewrite app_assoc in E.
  enough (exists k', k ++ f = g ++ k') as [k' Hk'].
  { apply le_n_S. apply (IH gs k'); [by constructor|done|done|]. rewrite Hk', <- app_assoc in E. by apply app_inv_head in E. }
  apply app_eq_inv in E as [(k' & -> & E)|(k' & Hk' & _)]; [|by exists k'].
  destruct k' as [|e k']; [exists []; by rewrite !app_nil_r|]. exfalso.
  destruct f' as [|e' f']; [by destruct Hf'|]. injection E as -> E. specialize (Hfull e eq_refl).
  pose proof (encoded_len_prefix (k ++ f ++ [e]) k') as H1. pose proof (encoded_len_suffix k (f ++ [e])) as H2.
  rewrite <- !app_assoc in *. cbn [app] in *. lia.
Qed.

(** ** Histories that grow *)

(** The fragments after one more event. *)
Definition append_fragment (fs : list (list TransparentEvent)) (e : TransparentEvent) : list (list TransparentEvent) :=
  match last fs with
  | None => [[e]]
  | Some f =>
      if FRAGMENT_PAYLOAD <? encoded_len f + event_len e (last f) then fs ++ [[e]]
      else take (length fs - 1) fs ++ [f ++ [e]]
  end.

Lemma append_fragment_cons f fs e : fs <> [] -> append_fragment (f :: fs) e = f :: append_fragment fs e.
Proof.
  intros Hfs. unfold append_fragment. rewrite last_cons. destruct (last fs) as [g|] eqn:E.
  - case_match; [done|]. destruct fs as [|h fs]; [done|]. cbn [length]. by rewrite !Nat.sub_succ, !Nat.sub_0_r.
  - by apply last_None in E.
Qed.

Lemma fragments_from_snoc cur l e : event_fits e ->
  fragments_from cur (encoded_len cur) (l ++ [e]) = append_fragment (fragments_from cur (encoded_len cur) l) e.
Proof.
  intros He. revert cur. induction l as [|x l IH]; intros cur; cbn [app fragments_from].
  - destruct cur as [|y cur].
    + change (encoded_len []) with 0. cbn [last]. rewrite (proj2 (Z.ltb_ge _ _)) by (unfold event_fits in He; lia). done.
    + set (c := y :: cur). assert ((blen c =? 0) = false) as ->.
      { apply Z.eqb_neq. unfold c. rewrite blen_cons. pose proof (blen_nonneg cur). lia. }
      unfold append_fragment. cbn [last length Nat.sub take app]. case_match; [done|]. cbn [fragments_from].
      rewrite (proj2 (Z.eqb_neq _ _)); [done|]. rewrite blen_app. change (blen [e]) with 1. pose proof (blen_nonneg c). lia.
  - rewrite <- encoded_len_snoc. assert (0 + event_len x None = encoded_len [x]) as -> by (unfold encoded_len; cbn; lia).
    case_match; [|apply IH]. rewrite IH, append_fragment_cons; [done|]. by apply fragments_from_nil_inv.
Qed.

Lemma fragments_snoc l e : event_fits e -> fragments (l ++ [e]) = append_fragment (fragments l) e.
Proof. intros He. by apply (fragments_from_snoc []). Qed.

Definition total_len (fs : list (list TransparentEvent)) : Z := foldr (fun f n => encoded_len f + n) 0 fs.

Lemma total_len_app fs gs : total_len (fs ++ gs) = total_len fs + total_len gs.
Proof. induction fs as [|f fs IH]; cbn; [done|]. fold (total_len (fs ++ gs)) (total_len fs). lia. Qed.

Lemma fragments_count events : Forall event_fits events ->
  (length (fragments events) <= length events)%nat /\
  total_len (fragments events) <= FRAGMENT_PAYLOAD * Z.of_nat (length (fragments events)).
Proof.
  intros H. destruct (fragments_spec events H) as (Hc & HF & _). rewrite <- Hc at 2. clear Hc H.
  induction HF as [|f fs [Hf Hl] _ [IH1 IH2]]; [cbn; lia|]. cbn [concat length total_len foldr]. fold (total_len fs).
  rewrite length_app. destruct f; [done|]. cbn [length]. lia.
Qed.

(** What the summary of the history [l] holds. *)
Definition layout_of (inline : Z) (l : list TransparentEvent) (h : HistoryLayout) : Prop :=
  let paged := take (length l - Z.to_nat inline) l in
  hl_events h = blen l /\ hl_inline h = drop (length l - Z.to_nat inline) l /\
  hl_fragments h = blen (fragments paged) /\ tail_bytes h = encoded_len (default [] (last (fragments paged))) /\
  paged_bytes h = total_len (fragments paged) /\ last_paged h = last paged.

(** The step of the summary is the step of the fragments. *)
Lemma append_fragment_summary l e :
  Forall event_fits l -> event_fits e ->
  let fs := fragments l in
  let new := (blen fs =? 0) || (FRAGMENT_PAYLOAD <? encoded_len (default [] (last fs)) + event_len e (last l)) in
  let len := if new then event_len e None else event_len e (last l) in
  blen (append_fragment fs e) = blen fs + (if new then 1 else 0) /\
  encoded_len (default [] (last (append_fragment fs e))) = (if new then 0 else encoded_len (default [] (last fs))) + len /\
  total_len (append_fragment fs e) = total_len fs + len.
Proof.
  intros Hl He. cbv zeta. destruct (fragments_spec l Hl) as (Hc & HF & _). unfold append_fragment.
  destruct (fragments l) as [|f0 fs0] eqn:Efs.
  { change (blen []) with 0. cbn [last Z.eqb orb]. change (default [] (Some ?x)) with x. change (blen [[e]]) with 1. unfold encoded_len, total_len. cbn. lia. }
  rewrite <- Efs in *. clear f0 fs0 Efs. destruct (last (fragments l)) as [f|] eqn:Ef.
  2: { apply last_None in Ef. rewrite Ef in *. change (blen []) with 0. change (blen [[e]]) with 1. cbn [last Z.eqb orb]. change (default [] (Some ?x)) with x.
    unfold encoded_len, total_len. cbn. lia. }
  apply last_Some in Ef as [fs Efs]. rewrite Efs in *. clear Efs. apply Forall_app in HF as [_ [[Hf _] _]%Forall_cons].
  assert (last l = last f) as ->.
  { rewrite <- Hc, concat_app, last_app. cbn [concat]. rewrite app_nil_r. by destruct (last f) eqn:E; [|apply last_None in E]. }
  assert ((blen (fs ++ [f]) =? 0) = false) as ->.
  { apply Z.eqb_neq. rewrite blen_app. change (blen [f]) with 1. pose proof (blen_nonneg fs). lia. }
  cbn [orb]. change (default [] (Some f)) with f. rewrite length_app, Nat.add_sub, take_app_length.
  destruct (FRAGMENT_PAYLOAD <? _).
  - rewrite last_snoc, !blen_app, !total_len_app. change (blen [[e]]) with 1. change (default [] (Some ?x)) with x.
    unfold total_len, encoded_len. cbn [foldr encoded_len_from]. split_and!; [lia|lia|]. cbn. lia.
  - rewrite last_snoc, !blen_app, !total_len_app. change (default [] (Some ?x)) with x. change (blen [?x]) with 1. split_and!; [lia| |].
    + by rewrite encoded_len_snoc.
    + unfold total_len. cbn [foldr]. rewrite encoded_len_snoc. lia.
Qed.

Lemma checked_minus_Ok a b : b <= a -> checked_minus a b = Ok (a - b).
Proof. intros H. unfold checked_minus. by rewrite (proj2 (Z.leb_le _ _)). Qed.

Lemma push_short inline l h e :
  blen l + 1 < u32_limit -> layout_of inline l h -> blen l + 1 <= inline ->
  exists h', push h e inline = Ok h' /\ layout_of inline (l ++ [e]) h'.
Proof.
  intros Hlim (He & Hi & Hrest) Hin. unfold push, push_with_payload. rewrite He, (proj2 (Z.ltb_lt _ _)) by done.
  cbn [mbind res_bind]. assert (length l - Z.to_nat inline = 0)%nat as E by (unfold blen in Hin; lia). rewrite E in *.
  rewrite drop_0 in Hi. rewrite Hi. destruct (l ++ [e]) as [|x k] eqn:Ek; [by apply app_nil in Ek as [_ ?]|]. rewrite <- Ek.
  rewrite (proj2 (Z.leb_le _ _)) by (rewrite blen_app; done). eexists. split; [done|].
  assert (length (l ++ [e]) - Z.to_nat inline = 0)%nat as E' by (rewrite length_app; unfold blen in Hin; cbn; lia).
  unfold layout_of. rewrite E'. cbn in Hrest |- *. rewrite blen_app. done.
Qed.

Lemma checked_plus_Ok limit a b : a + b < limit -> checked_plus limit a b = Ok (a + b).
Proof. intros H. unfold checked_plus. by rewrite (proj2 (Z.ltb_lt _ _)). Qed.

Lemma tail_le_total fs : encoded_len (default [] (last fs)) <= total_len fs.
Proof.
  assert (forall fs, 0 <= total_len fs) as Hnn.
  { intros gs. induction gs as [|g gs IH]; cbn; [done|]. fold (total_len gs).
    pose proof (encoded_len_from_nonneg None g). unfold encoded_len. lia. }
  destruct (last fs) as [f|] eqn:E; [|apply last_None in E; by subst]. apply last_Some in E as [gs ->].
  rewrite total_len_app. specialize (Hnn gs). unfold total_len at 2. cbn [foldr]. change (default [] (Some f)) with f. lia.
Qed.

(** The event that leaves the inline suffix of [drop n l] when [e] enters it. *)
Lemma suffix_shift n l (e : TransparentEvent) : (n <= length l)%nat ->
  exists older rest, drop n l ++ [e] = older :: rest /\
    take (S n) (l ++ [e]) = take n l ++ [older] /\ drop (S n) (l ++ [e]) = rest.
Proof.
  intros Hn. destruct (drop n l ++ [e]) as [|older rest] eqn:Ed; [by apply app_nil in Ed as [_ ?]|]. exists older, rest.
  assert (l ++ [e] = (take n l ++ [older]) ++ rest) as ->.
  { rewrite <- app_assoc. cbn [app]. by rewrite <- Ed, app_assoc, take_drop. }
  assert (length (take n l ++ [older]) = S n) as Hl by (rewrite length_app, length_take; cbn; lia).
  split_and!; [done|by apply take_app_length'|by apply drop_app_length'].
Qed.

Lemma push_long inline l h e :
  0 <= inline -> Forall event_fits (l ++ [e]) -> blen l + 1 < u32_limit -> layout_of inline l h -> inline < blen l + 1 ->
  exists h', push h e inline = Ok h' /\ layout_of inline (l ++ [e]) h'.
Proof.
  intros H0 Hfit Hlim (He & Hi & Hf & Ht & Hp & Hlast) Hin. unfold push, push_with_payload.
  rewrite He, (proj2 (Z.ltb_lt _ _)) by done. cbn [mbind res_bind]. set (n := (length l - Z.to_nat inline)%nat) in *.
  destruct (suffix_shift n l e ltac:(lia)) as (older & rest & Hd & Htake & Hdrop). rewrite Hi, Hd.
  rewrite (proj2 (Z.leb_gt _ _)).
  2: { rewrite <- Hd. unfold blen in *. rewrite length_app, length_drop. cbn. lia. }
  assert (length (l ++ [e]) - Z.to_nat inline = S n)%nat as En by (rewrite length_app; cbn; unfold blen in *; lia).
  assert (Forall event_fits (take n l) /\ event_fits older) as [Hfl Hfo].
  { apply (Forall_take _ (S n)) in Hfit. rewrite Htake in Hfit. apply Forall_app in Hfit as [? Hx]. by apply Forall_cons in Hx as [? _]. }
  destruct (append_fragment_summary (take n l) older Hfl Hfo) as (S1 & S2 & S3).
  destruct (fragments_count (take n l ++ [older])) as [C1 C2]; [by apply Forall_app; split; [|constructor]|].
  rewrite fragments_snoc in C1, C2 by done. unfold layout_of. rewrite En, Htake, Hdrop, fragments_snoc, last_snoc by done.
  assert (blen (append_fragment (fragments (take n l)) older) < u32_limit) as Hf32.
  { unfold blen in *. rewrite length_app, length_take in C1. cbn in C1. lia. }
  assert (total_len (append_fragment (fragments (take n l)) older) < u64_limit) as Hp64.
  { unfold blen in Hf32. change FRAGMENT_PAYLOAD with 4052 in C2. unfold u64_limit, u32_limit in *. lia. }
  assert (encoded_len (default [] (last (append_fragment (fragments (take n l)) older))) < u64_limit) as Ht64.
  { eapply Z.le_lt_trans; [apply tail_le_total|done]. }
  rewrite Hf, Ht, Hlast, Hp. set (fs := fragments (take n l)) in *.
  destruct ((blen fs =? 0) || _) eqn:Hnew.
  - rewrite checked_plus_Ok by lia. cbn [mbind res_bind]. rewrite !checked_plus_Ok by lia. cbn [mbind res_bind].
    eexists. split; [done|]. cbn. rewrite blen_app. change (blen [e]) with 1. split_and!; try done; lia.
  - cbn [mbind res_bind]. rewrite !checked_plus_Ok by lia. cbn [mbind res_bind].
    eexists. split; [done|]. cbn. rewrite blen_app. change (blen [e]) with 1. split_and!; try done; lia.
Qed.

Lemma push_all_layout inline l1 l2 h :
  0 <= inline -> Forall event_fits (l1 ++ l2) -> blen l1 < u32_limit -> layout_of inline l1 h ->
  match push_all h l2 inline with
  | Ok h' => blen (l1 ++ l2) < u32_limit /\ layout_of inline (l1 ++ l2) h'
  | Err p => p = ExpectFailed /\ u32_limit <= blen (l1 ++ l2)
  end.
Proof.
  intros H0. revert l1 h. induction l2 as [|e l2 IH]; intros l1 h Hfit Hlim Hlay; cbn [push_all].
  { by rewrite app_nil_r. }
  replace (l1 ++ e :: l2) with ((l1 ++ [e]) ++ l2) in * by (by rewrite <- app_assoc).
  assert (blen (l1 ++ [e]) = blen l1 + 1) as Hlen by (rewrite blen_app; done).
  destruct (Z.lt_ge_cases (blen l1 + 1) u32_limit) as [Hl|Hl].
  - assert (exists h', push h e inline = Ok h' /\ layout_of inline (l1 ++ [e]) h') as (h' & -> & Hlay').
    { destruct (Z.le_gt_cases (blen l1 + 1) inline); [by apply push_short|]. apply push_long; try done.
      by apply Forall_app in Hfit as [? _]. }
    cbn [mbind res_bind]. apply IH; [done|lia|done].
  - destruct Hlay as (He & _). unfold push, push_with_payload. rewrite He, (proj2 (Z.ltb_ge _ _)) by done.
    cbn [mbind res_bind]. split; [done|]. rewrite blen_app. pose proof (blen_nonneg l2). lia.
Qed.

Lemma history_layout inline l : 0 <= inline -> Forall event_fits l ->
  match push_all history_default l inline with
  | Ok h => blen l < u32_limit /\ layout_of inline l h
  | Err p => p = ExpectFailed /\ u32_limit <= blen l
  end.
Proof. intros H0 Hl. by apply (push_all_layout inline [] l history_default). Qed.

Lemma heights_fragment tag i n f :
  fragment_ok f -> 0 <= i < n -> exists e, page_entry_new tag i n f = Ok e /\ pe_tag e = tag /\ ordinal e = i /\
    fragment_count e = n /\ pe_events e = f /\ link e = no_link /\
    heights_min f = Some (min_height e) /\ heights_max f = Some (max_height e).
Proof.
  intros [Hf Hl] Hi. unfold page_entry_new. pose proof (fragment_events f Hl) as Hn.
  assert (1 <= blen f) as H1 by (destruct f; [done|]; rewrite blen_cons; pose proof (blen_nonneg f); lia).
  rewrite (proj2 (Z.eqb_neq (blen f) 0)), (proj2 (Z.ltb_ge _ (blen f))), (proj2 (Z.ltb_ge _ (encoded_len f))),
    (proj2 (Z.eqb_neq n 0)), (proj2 (Z.leb_gt n i)) by lia. cbn [orb].
  destruct (heights_some f H1) as (mn & mx & -> & ->). cbn. eauto 10.
Qed.

(** C31: The fragments of a history.  [fragments] cuts the events into non-empty slices that
    together are the history, each of them accepted by [PageEntry::new] (at most 86 events,
    though only their bytes are counted), each but the last so full that the next event does
    not fit, and no other way to cut the history into entries takes fewer of them. *)
Theorem fragments_correct events :
  Forall event_wf events ->
  let fs := fragments events in
  concat fs = events /\ greedy fs /\
  (forall tag i f, fs !! i = Some f -> exists e, page_entry_new tag (Z.of_nat i) (blen fs) f = Ok e /\ pe_events e = f) /\
  (forall gs, concat gs = events -> Forall (fun g => encoded_len g <= FRAGMENT_PAYLOAD) gs -> (length fs <= length gs)%nat).
Proof.
  intros Hwf. destruct (fragments_spec events) as (Hc & HF & HG).
  { eapply Forall_impl; [done|]. apply event_wf_fits. }
  cbv zeta. split_and!; [done|done| |].
  - intros tag i f Hi. assert (fragment_ok f) as Hf by (by eapply Forall_lookup in HF).
    apply lookup_lt_Some in Hi. destruct (heights_fragment tag (Z.of_nat i) (blen (fragments events)) f Hf) as (e & E & ?).
    { unfold blen. lia. }
    exists e. naive_solver.
  - intros gs Egs Hgs. apply (greedy_minimal _ gs []); try done. by rewrite Egs, Hc.
Qed.

(** Summaries of growing histories.  Pushing the events of a history one by one leaves
    the last [inline] of them inline and, of those before, the number of fragments, the bytes
    of the last fragment and the bytes of all that [fragments] would cut; the counters do not
    overflow, and the only failure is a history of 2^32 events. *)
Theorem history_layout_incremental inline l :
  0 <= inline -> Forall event_wf l ->
  match push_all history_default l inline with
  | Ok h => blen l < u32_limit /\ layout_of inline l h
  | Err p => p = ExpectFailed /\ u32_limit <= blen l
  end.
Proof. intros H0 Hl. apply history_layout; [done|]. eapply Forall_impl; [done|]. apply event_wf_fits. Qed.
