(* ===== verification/ShardDemand.v ===== *)
(** * Demand for page rows ([zakura/pir-protocol/src/transparent/shard/packing.rs])

    How many rows the fragments of a page shard need when the short histories are packed by
    descending best fit into the spare space of rows, or grouped by size.  The count is kept
    for all histories at once, as multiplicities of sizes and of spaces, in two versions: over
    a map of spaces and over an array with a bitmap.  Counters of entries and rows are taken
    as unbounded. *)

From stdpp Require Import sorting.
From S2P Require Import Prelude ShardEvents ShardCompact ShardPageRow ShardPacking.

(** ** Ordered maps *)

Section OrderedMap.
Context {A : Type}.

(** [map.range(from..).next()] *)
Definition closer (x : Z * A) (acc : option (Z * A)) : option (Z * A) :=
  match acc with
  | None => Some x
  | Some y => if x.1 <? y.1 then Some x else acc
  end.
Definition first_from (m : gmap Z A) (from : Z) : option (Z * A) :=
  foldr (fun x acc => if from <=? x.1 then closer x acc else acc) None (map_to_list m).

(** [map.iter().rev()] *)
Definition desc (x y : Z * A) : Prop := y.1 <= x.1.
#[global] Instance desc_dec : RelDecision desc.
Proof. intros x y. apply Z_le_dec. Defined.
Definition iter_rev (m : gmap Z A) : list (Z * A) := merge_sort desc (map_to_list m).
End OrderedMap.

(** [*map.entry(key).or_default() += n] *)
Definition entry_add (m : gmap Z Z) (key n : Z) : gmap Z Z := <[key := default 0 (m !! key) + n]> m.

(** ** Division, which panics for a divisor of zero *)

Definition checked_div (a b : Z) : exec Z := if b =? 0 then Err AssertFailed else Ok (a / b).
Definition div_ceil (a b : Z) : exec Z :=
  if b =? 0 then Err AssertFailed else Ok (a / b + if a mod b =? 0 then 0 else 1).

(** ** The best-fit loop

    The loop of [calculate_mixed_rows] and that of [calculate_mixed_rows_sparse] differ in how
    they keep the bins by their free space. *)

Class FreeStore (S : Type) : Type := {
  (** removes and returns the bins with the smallest space of at least a size *)
  store_take : S -> Z -> exec (option (Z * Z) * S);
  (** adds so many bins with a space *)
  store_add : S -> Z -> Z -> exec S }.

Section BestFit.
Context {S : Type} `{FreeStore S}.

(** One turn of [while remaining != 0]: the entries that go into [bins] bins of a space, and
    the choice of the bins *)
Definition put_bins (size remaining space bins : Z) (free : S) : exec (Z * S) :=
  per ← checked_div space size;
  times ← checked_div remaining per;
  let full := Z.min bins times in
  free ← (if negb (full =? 0) then store_add free (space mod size) full else Ok free);
  let remaining := remaining - full * per in
  let unused := bins - full in
  rfu ← (if negb (unused =? 0) && negb (remaining =? 0) then
           left ← checked_minus space (remaining * size);
           free ← store_add free left 1;
           Ok (0, free, unused - 1)
         else Ok (remaining, free, unused));
  let '(remaining, free, unused) := rfu : Z * S * Z in
  free ← (if negb (unused =? 0) then store_add free space unused else Ok free);
  Ok (remaining, free).

Definition fill_turn (size remaining : Z) (free : S) (rows : Z) : exec (Z * S * Z) :=
  tf ← store_take free size;
  let (found, free) := tf : option (Z * Z) * S in
  sbr ← match found with
        | Some (space, bins) => Ok (space, bins, rows)
        | None =>
            per ← checked_div ROW_PAYLOAD size;
            bins ← div_ceil remaining per;
            Ok (ROW_PAYLOAD, bins, rows + bins)
        end;
  let '(space, bins, rows) := sbr : Z * Z * Z in
  rf ← put_bins size remaining space bins free;
  let (remaining, free) := rf : Z * S in
  Ok (remaining, free, rows).

Fixpoint fill (fuel : nat) (size remaining : Z) (free : S) (rows : Z) : exec (S * Z) :=
  if remaining =? 0 then Ok (free, rows) else
  match fuel with
  | O => Err OutOfFuel
  | Datatypes.S fuel =>
      rfr ← fill_turn size remaining free rows;
      let '(remaining, free, rows) := rfr : Z * S * Z in
      fill fuel size remaining free rows
  end.

(** [for (&size, &count) in self.short.iter().rev()] *)
Fixpoint fill_all (classes : list (Z * Z)) (free : S) (rows : Z) : exec Z :=
  match classes with
  | [] => Ok rows
  | (size, count) :: classes =>
      fr ← fill (Z.to_nat count) size count free rows;
      let (free, rows) := fr : S * Z in
      fill_all classes free rows
  end.
End BestFit.

(** The map of spaces *)
#[global] Instance sparse_store : FreeStore (gmap Z Z) := {|
  store_take free size :=
    Ok (match first_from free size with
        | Some (space, bins) => (Some (space, bins), delete space free)
        | None => (None, free)
        end);
  store_add free space bins := Ok (entry_add free space bins) |}.

(** ** [FreeSpace] *)

Record FreeSpace : Type := MkFreeSpace { bins : list Z; occupied : list Z }.

Definition free_space_default : FreeSpace :=
  MkFreeSpace (replicate (Z.to_nat (ROW_PAYLOAD + 1)) 0) (replicate (Z.to_nat (ROW_PAYLOAD / 64 + 1)) 0).

Definition u64_MAX : Z := 2 ^ 64 - 1.

(** [FreeSpace::add] *)
Definition free_space_add (f : FreeSpace) (space n : Z) : exec FreeSpace :=
  b ← expect (bins f !! Z.to_nat space);
  w ← expect (occupied f !! Z.to_nat (space / 64));
  Ok (MkFreeSpace (<[Z.to_nat space := b + n]> (bins f))
        (<[Z.to_nat (space / 64) := Z.lor w (Z.shiftl 1 (space mod 64))]> (occupied f))).

(** [bits.trailing_zeros()], of at most [n] bits *)
Fixpoint trailing_zeros_go (n : nat) (bits : Z) : Z :=
  match n with
  | O => 0
  | S n => if Z.odd bits then 0 else 1 + trailing_zeros_go n (Z.shiftr bits 1)
  end.
Definition trailing_zeros (bits : Z) : Z := trailing_zeros_go 64 bits.

(** The loop of [take_at_least] over [occupied[word..]] *)
Fixpoint scan_words (word : Z) (words : list Z) : option (Z * Z) :=
  match words with
  | [] => None
  | bits :: words => if bits =? 0 then scan_words (word + 1) words else Some (word, bits)
  end.

(** [FreeSpace::take_at_least] *)
Definition take_at_least (f : FreeSpace) (size : Z) : exec (option (Z * Z) * FreeSpace) :=
  let word := size / 64 in
  let found :=
    match drop (Z.to_nat word) (occupied f) with
    | [] => None
    | bits :: words =>
        let bits := Z.land bits (Z.land u64_MAX (Z.shiftl u64_MAX (size mod 64))) in
        if bits =? 0 then scan_words (word + 1) words else Some (word, bits)
    end in
  match found with
  | None => Ok (None, f)
  | Some (word, bits) =>
      let space := word * 64 + trailing_zeros bits in
      w ← expect (occupied f !! Z.to_nat word);
      b ← expect (bins f !! Z.to_nat space);
      Ok (Some (space, b),
          MkFreeSpace (<[Z.to_nat space := 0]> (bins f))
            (<[Z.to_nat word := Z.land w (Z.lxor u64_MAX (Z.shiftl 1 (space mod 64)))]> (occupied f)))
  end.

#[global] Instance dense_store : FreeStore FreeSpace := {|
  store_take := take_at_least; store_add := free_space_add |}.

(** ** [PackedDemand] *)

Record PackedDemand : Type := MkPackedDemand {
  short : gmap Z Z; tails : gmap Z Z; long_rows : Z; long_scripts : Z; event_bytes : Z; entry_header : Z;
  cached_rows : option (Z * Z) }.

(** [PackedDemand::with_entry_header] and [default] *)
Definition with_entry_header (header : Z) : exec PackedDemand :=
  _ ← assert_that (header <? ROW_PAYLOAD);
  Ok (MkPackedDemand ∅ ∅ 0 0 0 header None).
Definition demand_default : exec PackedDemand := with_entry_header PAGE_ENTRY_HEADER_BYTES.

Definition fragment_payload (d : PackedDemand) : exec Z := checked_minus ROW_PAYLOAD (entry_header d).

(** [change] *)
Definition change (m : gmap Z Z) (key : Z) (add : bool) : exec (gmap Z Z) :=
  if add then Ok (entry_add m key 1) else
  count ← expect (m !! key);
  count ← checked_minus count 1;
  Ok (if count =? 0 then delete key m else <[key := count]> m).

(** [self.x += n] or [self.x -= n] *)
Definition plus_minus (add : bool) (a n : Z) : exec Z := if add then Ok (a + n) else checked_minus a n.

(** [PackedDemand::update] *)
Definition update (d : PackedDemand) (h : HistoryLayout) (add : bool) : exec PackedDemand :=
  if hl_fragments h =? 0 then Ok d else
  bytes ← plus_minus add (event_bytes d) (paged_bytes h);
  if hl_fragments h =? 1 then
    short ← change (short d) (entry_header d + tail_bytes h) add;
    Ok (MkPackedDemand short (tails d) (long_rows d) (long_scripts d) bytes (entry_header d) (cached_rows d))
  else
    payload ← fragment_payload d;
    space ← checked_minus payload (tail_bytes h);
    tails ← change (tails d) space add;
    rows ← plus_minus add (long_rows d) (hl_fragments h);
    scripts ← plus_minus add (long_scripts d) 1;
    Ok (MkPackedDemand (short d) tails rows scripts bytes (entry_header d) (cached_rows d)).

(** [PackedDemand::shift] *)
Definition clear_cache (d : PackedDemand) : PackedDemand :=
  MkPackedDemand (short d) (tails d) (long_rows d) (long_scripts d) (event_bytes d) (entry_header d) None.
Definition shift (d : PackedDemand) (old new : HistoryLayout) : exec PackedDemand :=
  d ← update (clear_cache d) old false;
  update d new true.

(** [self.short.values().sum()], [paged_scripts], [fragments] *)
Definition short_scripts (d : PackedDemand) : Z := foldr Z.add 0 (map snd (map_to_list (short d))).
Definition paged_scripts (d : PackedDemand) : Z := short_scripts d + long_scripts d.
Definition demand_fragments (d : PackedDemand) : Z := short_scripts d + long_rows d.

(** [calculate_grouped_rows] *)
Fixpoint sum_groups (classes : list (Z * Z)) : exec Z :=
  match classes with
  | [] => Ok 0
  | (size, count) :: classes =>
      per ← checked_div ROW_PAYLOAD size;
      rows ← div_ceil count per;
      rest ← sum_groups classes;
      Ok (rows + rest)
  end.
Definition calculate_grouped_rows (d : PackedDemand) : exec Z :=
  groups ← sum_groups (rev (iter_rev (short d)));
  Ok (long_rows d + groups).

(** [calculate_mixed_rows_sparse] *)
Definition calculate_mixed_rows_sparse (d : PackedDemand) : exec Z :=
  fill_all (iter_rev (short d)) (tails d) (long_rows d).

(** [map.keys().next_back().is_none_or(|k| *k <= ROW_PAYLOAD)] *)
Definition bounded (m : gmap Z Z) : bool :=
  match iter_rev m with [] => true | (k, _) :: _ => k <=? ROW_PAYLOAD end.

(** The loop that adds the tails, in the order of their spaces. *)
Fixpoint add_tails (l : list (Z * Z)) (free : FreeSpace) : exec FreeSpace :=
  match l with
  | [] => Ok free
  | (space, bins) :: l => free ← free_space_add free space bins; add_tails l free
  end.

(** [calculate_mixed_rows] *)
Definition calculate_mixed_rows (d : PackedDemand) : exec Z :=
  if negb (bounded (tails d)) || negb (bounded (short d)) || bool_decide (is_Some (short d !! 0))
  then calculate_mixed_rows_sparse d else
  free ← add_tails (rev (iter_rev (tails d))) free_space_default;
  fill_all (iter_rev (short d)) free (long_rows d).

(** [row_counts], which fills the cache *)
Definition row_counts (d : PackedDemand) : exec ((Z * Z) * PackedDemand) :=
  match cached_rows d with
  | Some counts => Ok (counts, d)
  | None =>
      mixed ← calculate_mixed_rows d;
      grouped ← calculate_grouped_rows d;
      Ok ((mixed, grouped),
          MkPackedDemand (short d) (tails d) (long_rows d) (long_scripts d) (event_bytes d) (entry_header d)
            (Some (mixed, grouped)))
  end.

(** [use_mixed], [rows] and [ordinary_rows] *)
Definition use_mixed (d : PackedDemand) : exec (bool * PackedDemand) :=
  cd ← row_counts d;
  let (c, d) := cd : (Z * Z) * PackedDemand in
  Ok (c.1 <=? c.2, d).
Definition rows (d : PackedDemand) : exec (Z * PackedDemand) :=
  cd ← row_counts d;
  let (c, d) := cd : (Z * Z) * PackedDemand in
  Ok (Z.min c.1 c.2, d).
Definition ordinary_rows (d : PackedDemand) : exec Z :=
  rd ← rows (MkPackedDemand (short d) ∅ 0 (long_scripts d) (event_bytes d) (entry_header d) None);
  Ok rd.1.
