(* ===== verification/ShardBestFit.v ===== *)
(** * The best-fit loop places entries one at a time

    What [PackedDemand] counts by multiplicities is the number of rows of the reference that
    places the entries one by one, each into the least space that holds it. *)

From stdpp Require Import sorting.
From S2P Require Import Prelude ShardEvents ShardCompact ShardPageRow ShardPacking ShardDemand.

(** ** The first entry from a key on *)

Section FirstFrom.
Context {A : Type}.
Implicit Types (m : gmap Z A) (l : list (Z * A)).

Lemma first_from_list from l :
  match foldr (fun x acc => if from <=? x.1 then closer x acc else acc) None l with
  | Some x => x ∈ l /\ from <= x.1 /\ forall y, y ∈ l -> from <= y.1 -> x.1 <= y.1
  | None => forall y, y ∈ l -> y.1 < from
  end.
Proof.
  induction l as [|a l IH]; cbn [foldr]; [by intros y ?%not_elem_of_nil|]. destruct (Z.leb_spec from a.1) as [Ha|Ha].
  - destruct (foldr _ None l) as [x|]; cbn [closer].
    + destruct IH as (Hin & Hx & Hmin). destruct (Z.ltb_spec a.1 x.1).
      * split_and!; [by left|done|]. intros y [->|Hy]%elem_of_cons Hf; [done|]. specialize (Hmin y Hy Hf). lia.
      * split_and!; [by right|done|]. intros y [->|Hy]%elem_of_cons Hf; [done|auto].
    + split_and!; [by left|done|]. intros y [->|Hy]%elem_of_cons Hf; [done|]. specialize (IH y Hy). lia.
  - destruct (foldr _ None l) as [x|].
    + destruct IH as (Hin & Hx & Hmin). split_and!; [by right|done|]. intros y [->|Hy]%elem_of_cons Hf; [lia|auto].
    + intros y [->|Hy]%elem_of_cons; [done|auto].
Qed.

Lemma first_from_spec m from :
  match first_from m from with
  | Some (k, v) => m !! k = Some v /\ from <= k /\ forall k', is_Some (m !! k') -> from <= k' -> k <= k'
  | None => forall k, is_Some (m !! k) -> k < from
  end.
Proof.
  pose proof (first_from_list from (map_to_list m)) as H. unfold first_from. destruct (foldr _ None _) as [[k v]|].
  - destruct H as (Hin & Hk & Hmin). split_and!; [by apply elem_of_map_to_list|done|].
    intros k' [v' Hv'] Hf. by apply (Hmin (k', v')), Hf; apply elem_of_map_to_list.
  - intros k [v Hv]. by apply (H (k, v)), elem_of_map_to_list.
Qed.

Lemma first_from_Some m from k v :
  m !! k = Some v -> from <= k -> (forall k', is_Some (m !! k') -> from <= k' -> k <= k') -> first_from m from = Some (k, v).
Proof.
  intros Hk Hf Hmin. pose proof (first_from_spec m from) as H. destruct (first_from m from) as [[k' v']|].
  - destruct H as (Hk' & Hf' & Hmin'). assert (k = k') as <- by (apply Z.le_antisymm; eauto). congruence.
  - specialize (H k ltac:(eauto)). lia.
Qed.

Lemma first_from_None m from : (forall k, is_Some (m !! k) -> k < from) -> first_from m from = None.
Proof.
  intros Hn. pose proof (first_from_spec m from) as H. destruct (first_from m from) as [[k' v']|]; [|done].
  destruct H as (Hk' & Hf' & _). specialize (Hn k' ltac:(eauto)). lia.
Qed.
End FirstFrom.

(** ** Best fit, one entry at a time

    The reference: an entry goes into a row with the least space that holds it, and into a
    new row when there is none. *)

Definition remove_one (m : gmap Z Z) (key : Z) : gmap Z Z :=
  match m !! key with
  | Some n => if n =? 1 then delete key m else <[key := n - 1]> m
  | None => m
  end.

Definition place (size : Z) (st : gmap Z Z * Z) : gmap Z Z * Z :=
  match first_from st.1 size with
  | Some (space, _) => (entry_add (remove_one st.1 space) (space - size) 1, st.2)
  | None => (entry_add st.1 (ROW_PAYLOAD - size) 1, st.2 + 1)
  end.

(** Every count of the map is positive. *)
Definition positive (m : gmap Z Z) : Prop := map_Forall (fun _ n => 1 <= n) m.

(** [n] more bins of a space, if any *)
Definition bag (m : gmap Z Z) (key n : Z) : gmap Z Z := if n =? 0 then m else entry_add m key n.

Lemma lookup_entry_add m k n k' :
  entry_add m k n !! k' = if decide (k' = k) then Some (default 0 (m !! k) + n) else m !! k'.
Proof. unfold entry_add. case_decide; subst; [by rewrite lookup_insert_eq|by rewrite lookup_insert_ne]. Qed.

Lemma entry_add_positive m k n : positive m -> 1 <= n -> positive (entry_add m k n).
Proof.
  intros Hm Hn k' v. rewrite lookup_entry_add. case_decide; [|apply Hm]. intros [= <-].
  destruct (m !! k) as [c|] eqn:E; cbn; [apply Hm in E|]; lia.
Qed.

Lemma bag_positive m k n : positive m -> 0 <= n -> positive (bag m k n).
Proof. intros Hm Hn. unfold bag. destruct (Z.eqb_spec n 0); [done|]. apply entry_add_positive; [done|lia]. Qed.

Lemma remove_one_add m k : positive m -> remove_one (entry_add m k 1) k = m.
Proof.
  intros Hm. unfold remove_one. rewrite lookup_entry_add, decide_True by done.
  apply map_eq. intros k'. destruct (m !! k) as [c|] eqn:E; cbn [default].
  - assert (1 <= c) by exact (Hm k c E). cbn. destruct (Z.eqb_spec (c + 1) 1); [lia|]. unfold entry_add. rewrite insert_insert_eq.
    destruct (decide (k' = k)) as [->|]; [rewrite lookup_insert_eq, E; f_equal; lia|by rewrite lookup_insert_ne].
  - change (0 + 1 =? 1) with true. cbv iota. unfold entry_add. destruct (decide (k' = k)) as [->|]; [by rewrite lookup_delete_eq|].
    by rewrite lookup_delete_ne, lookup_insert_ne.
Qed.

Lemma entry_add_comm m a b n k : entry_add (entry_add m a n) b k = entry_add (entry_add m b k) a n.
Proof.
  apply map_eq. intros x. rewrite !lookup_entry_add. repeat case_decide; subst; try done. cbn. f_equal. lia.
Qed.
Lemma entry_add_add m a n k : entry_add (entry_add m a n) a k = entry_add m a (n + k).
Proof. apply map_eq. intros x. rewrite !lookup_entry_add. repeat case_decide; subst; try done. cbn. f_equal. lia. Qed.

Lemma bag_add m k n : 0 <= n -> entry_add (bag m k n) k 1 = bag m k (n + 1).
Proof.
  intros Hn. unfold bag. rewrite (proj2 (Z.eqb_neq (n + 1) 0)) by lia. destruct (Z.eqb_spec n 0) as [->|]; [done|].
  apply entry_add_add.
Qed.

Lemma bag_add_comm m a b n k : entry_add (bag m a n) b k = bag (entry_add m b k) a n.
Proof. unfold bag. case_match; [done|]. apply entry_add_comm. Qed.
Lemma bag_comm m a b n k : bag (bag m a n) b k = bag (bag m b k) a n.
Proof. unfold bag at 1 4. case_match; [done|]. apply bag_add_comm. Qed.

Lemma bag_lookup_ne m k n k' : k' <> k -> bag m k n !! k' = m !! k'.
Proof. intros H. unfold bag. case_match; [done|]. rewrite lookup_entry_add. by rewrite decide_False. Qed.

Lemma delete_bag m k n : m !! k = Some n -> n <> 0 -> bag (delete k m) k n = m.
Proof.
  intros Hk Hn. unfold bag. rewrite (proj2 (Z.eqb_neq n 0)) by done. apply map_eq. intros x.
  rewrite lookup_entry_add. case_decide; subst; [rewrite lookup_delete_eq, Hk; cbn; f_equal; lia|by rewrite lookup_delete_ne].
Qed.

Lemma delete_positive m k : positive m -> positive (delete k m).
Proof. intros H. by apply map_Forall_delete. Qed.

(** The counts of a map that was changed stay positive. *)
Ltac counts := repeat first [assumption | apply bag_positive | apply entry_add_positive | apply delete_positive | lia].

(** ** The loop places entries one at a time *)

(** No space of the map lies in [lo, hi). *)
Definition gap (lo hi : Z) (m : gmap Z Z) : Prop := forall k, is_Some (m !! k) -> lo <= k -> hi <= k.

Lemma gap_add lo hi m k n : gap lo hi m -> k < lo \/ hi <= k -> gap lo hi (entry_add m k n).
Proof.
  intros Hm Hk k' Hk' Hlo. rewrite lookup_entry_add in Hk'. destruct (decide (k' = k)); [lia|]. by apply Hm.
Qed.
Lemma gap_bag lo hi m k n : gap lo hi m -> k < lo \/ hi <= k -> gap lo hi (bag m k n).
Proof. intros Hm Hk. unfold bag. case_match; [done|]. by apply gap_add. Qed.
Lemma gap_delete lo hi m k : gap lo hi m -> gap lo hi (delete k m).
Proof. intros Hm k' [v Hv] Hlo. apply lookup_delete_Some in Hv as [_ Hv]. by apply Hm. Qed.

Section Place.
Context (size : Z) (Hsize : 0 < size).

Lemma place_tightest m k rows :
  positive m -> gap size k m -> size <= k -> place size (entry_add m k 1, rows) = (entry_add m (k - size) 1, rows).
Proof using Hsize.
  intros Hm Hgap Hk. unfold place. cbn [fst snd].
  rewrite (first_from_Some (entry_add m k 1) size k (default 0 (m !! k) + 1)); [by rewrite remove_one_add| |done|].
  - rewrite lookup_entry_add. by rewrite decide_True.
  - intros k' Hk' Hs. rewrite lookup_entry_add in Hk'. destruct (decide (k' = k)); [lia|]. by apply Hgap.
Qed.

(** Entries of one size go into the same row as long as they fit. *)
Lemma fill_one m sp rows i :
  positive m -> gap size sp m -> Z.of_nat i * size <= sp ->
  Nat.iter i (place size) (entry_add m sp 1, rows) = (entry_add m (sp - Z.of_nat i * size) 1, rows).
Proof using Hsize.
  intros Hm Hgap. induction i as [|i IH]; intros Hi.
  { cbn [Nat.iter nat_rect]. by rewrite Z.mul_0_l, Z.sub_0_r. }
  rewrite Nat.iter_succ, IH by lia. rewrite place_tightest; [do 2 f_equal; lia|done| |lia].
  intros k Hk Hs. specialize (Hgap k Hk Hs). nia.
Qed.

Lemma rest_of_space sp : sp - sp / size * size = sp mod size.
Proof using Hsize. pose proof (Z.div_mod sp size ltac:(lia)). lia. Qed.

(** Then into the next row with that space. *)
Lemma fill_bins m sp rows b f :
  positive m -> gap size sp m -> size <= sp -> Z.of_nat f <= b ->
  Nat.iter (f * Z.to_nat (sp / size)) (place size) (bag m sp b, rows) =
  (bag (bag m sp (b - Z.of_nat f)) (sp mod size) (Z.of_nat f), rows).
Proof using Hsize.
  intros Hm Hgap Hsp. pose proof (Z.mod_pos_bound sp size Hsize) as Hmod. pose proof (Z.div_pos sp size ltac:(lia) Hsize).
  induction f as [|f IH]; intros Hf; [by rewrite Z.sub_0_r|].
  replace (S f * Z.to_nat (sp / size))%nat with (Z.to_nat (sp / size) + f * Z.to_nat (sp / size))%nat by lia.
  rewrite Nat.iter_add, IH by lia. replace (b - Z.of_nat f) with (b - Z.of_nat (S f) + 1) by lia.
  rewrite <- bag_add, <- bag_add_comm by lia. rewrite fill_one.
  - rewrite Z2Nat.id, rest_of_space, bag_add by lia. do 2 f_equal. lia.
  - counts.
  - apply gap_bag; [|lia]. apply gap_bag; [done|lia].
  - rewrite Z2Nat.id by lia. pose proof (rest_of_space sp). lia.
Qed.

Context (Hfits : size <= ROW_PAYLOAD).

(** Without a row that fits, an entry opens a row. *)
Lemma place_new m rows : positive m -> (forall k, is_Some (m !! k) -> k < size) ->
  place size (m, rows) = place size (entry_add m ROW_PAYLOAD 1, rows + 1).
Proof using Hfits Hsize.
  intros Hm Hn. rewrite place_tightest; [|done| |done].
  - unfold place. cbn [fst snd]. by rewrite first_from_None.
  - intros k Hk Hs. specialize (Hn k Hk). lia.
Qed.

Lemma fill_new m rows i :
  positive m -> (forall k, is_Some (m !! k) -> k < size) -> (1 <= i)%nat -> Z.of_nat i * size <= ROW_PAYLOAD ->
  Nat.iter i (place size) (m, rows) = (entry_add m (ROW_PAYLOAD - Z.of_nat i * size) 1, rows + 1).
Proof using Hfits Hsize.
  intros Hm Hn Hi Hfit. destruct i as [|i]; [lia|]. rewrite Nat.iter_succ_r, place_new by done.
  rewrite <- Nat.iter_succ_r. apply fill_one; [done| |done]. intros k Hk Hs. specialize (Hn k Hk). lia.
Qed.

Lemma fill_rows m rows f :
  positive m -> (forall k, is_Some (m !! k) -> k < size) ->
  Nat.iter (f * Z.to_nat (ROW_PAYLOAD / size)) (place size) (m, rows) =
  (bag m (ROW_PAYLOAD mod size) (Z.of_nat f), rows + Z.of_nat f).
Proof using Hfits Hsize.
  intros Hm Hn. pose proof (Z.mod_pos_bound ROW_PAYLOAD size Hsize) as Hmod.
  pose proof (Z.div_le_lower_bound ROW_PAYLOAD size 1 Hsize ltac:(lia)) as Hper.
  induction f as [|f IH]; [by rewrite Z.add_0_r|].
  replace (S f * Z.to_nat (ROW_PAYLOAD / size))%nat
    with (Z.to_nat (ROW_PAYLOAD / size) + f * Z.to_nat (ROW_PAYLOAD / size))%nat by lia.
  rewrite Nat.iter_add, IH. rewrite fill_new.
  - rewrite Z2Nat.id, rest_of_space, bag_add by lia. f_equal; [f_equal|]; lia.
  - counts.
  - intros k Hk. destruct (decide (k = ROW_PAYLOAD mod size)); [lia|]. rewrite bag_lookup_ne in Hk by done. auto.
  - lia.
  - rewrite Z2Nat.id by lia. pose proof (rest_of_space ROW_PAYLOAD). lia.
Qed.
End Place.

Lemma put_bins_all size rem sp b (free : gmap Z Z) :
  0 < size <= sp -> 1 <= b -> b * (sp / size) <= rem ->
  put_bins size rem sp b free = Ok (rem - b * (sp / size), bag free (sp mod size) b).
Proof.
  intros [Hs Hsp] Hb Hrem. pose proof (Z.div_le_lower_bound sp size 1 Hs ltac:(lia)) as Hper. unfold put_bins, checked_div.
  rewrite (proj2 (Z.eqb_neq size 0)) by lia. cbn [mbind res_bind]. rewrite (proj2 (Z.eqb_neq (sp / size) 0)) by lia.
  cbn [mbind res_bind]. pose proof (Z.div_le_lower_bound rem (sp / size) b ltac:(lia) ltac:(lia)).
  rewrite Z.min_l, (proj2 (Z.eqb_neq b 0)) by lia. cbn [negb store_add sparse_store mbind res_bind].
  rewrite Z.sub_diag. cbn [Z.eqb negb andb mbind res_bind]. unfold bag. by rewrite (proj2 (Z.eqb_neq b 0)) by lia.
Qed.

Lemma put_bins_some size rem sp b (free : gmap Z Z) :
  0 < size <= sp -> 1 <= rem < b * (sp / size) ->
  let f := rem / (sp / size) in
  let i := rem mod (sp / size) in
  put_bins size rem sp b free =
  Ok (0, bag (if i =? 0 then bag free (sp mod size) f else entry_add (bag free (sp mod size) f) (sp - i * size) 1)
           sp (b - f - if i =? 0 then 0 else 1)).
Proof.
  intros [Hs Hsp] [Hr Hrem]. cbv zeta. pose proof (Z.div_le_lower_bound sp size 1 Hs ltac:(lia)) as Hper.
  pose proof (Z.mod_pos_bound rem (sp / size) ltac:(lia)) as Hi. pose proof (Z.div_mod rem (sp / size) ltac:(lia)) as Hdm.
  pose proof (Z.div_pos rem (sp / size) ltac:(lia) ltac:(lia)).
  assert (rem / (sp / size) < b) as Hf by (apply Z.div_lt_upper_bound; lia).
  unfold put_bins, checked_div. rewrite (proj2 (Z.eqb_neq size 0)) by lia. cbn [mbind res_bind].
  rewrite (proj2 (Z.eqb_neq (sp / size) 0)) by lia. cbn [mbind res_bind]. rewrite Z.min_r by lia.
  replace (rem - rem / (sp / size) * (sp / size)) with (rem mod (sp / size)) by lia.
  set (f := rem / (sp / size)) in *. set (i := rem mod (sp / size)) in *.
  assert ((if negb (f =? 0) then store_add free (sp mod size) f else Ok free) = Ok (bag free (sp mod size) f)) as ->.
  { unfold bag. by destruct (f =? 0). }
  cbn [mbind res_bind]. rewrite (proj2 (Z.eqb_neq (b - f) 0)) by lia. cbn [negb andb].
  destruct (Z.eqb_spec i 0) as [Ei|Ei]; cbn [negb mbind res_bind].
  - rewrite (proj2 (Z.eqb_neq (b - f) 0)), Z.sub_0_r by lia. cbn [negb store_add sparse_store mbind res_bind]. rewrite Ei.
    unfold bag at 2. by rewrite (proj2 (Z.eqb_neq (b - f) 0)) by lia.
  - unfold checked_minus. rewrite (proj2 (Z.leb_le _ _)).
    2: { pose proof (rest_of_space size Hs sp). pose proof (Z.mod_pos_bound sp size Hs). nia. }
    cbn [mbind res_bind store_add sparse_store]. unfold bag. by destruct (b - f - 1 =? 0).
Qed.

(** Where a turn that puts entries into the bins of a space ends. *)
Lemma put_bins_place size rem sp b m rows :
  positive m -> gap size sp m -> 0 < size <= sp -> 1 <= b -> 1 <= rem ->
  exists n m', put_bins size rem sp b m = Ok (rem - Z.of_nat n, m') /\ (1 <= n)%nat /\ Z.of_nat n <= rem /\ positive m' /\
    Nat.iter n (place size) (bag m sp b, rows) = (m', rows).
Proof.
  intros Hm Hgap [Hs Hsp] Hb Hrem. pose proof (Z.div_le_lower_bound sp size 1 Hs ltac:(lia)) as Hper.
  pose proof (Z.mod_pos_bound sp size Hs) as Hmod. destruct (Z.le_gt_cases (b * (sp / size)) rem) as [Hall|Hsome].
  - exists (Z.to_nat b * Z.to_nat (sp / size))%nat, (bag m (sp mod size) b). rewrite put_bins_all by lia.
    rewrite Nat2Z.inj_mul, !Z2Nat.id by lia. split_and!; [done|lia|lia|by apply bag_positive; [|lia]|].
    rewrite fill_bins by (done || lia). by rewrite Z2Nat.id, Z.sub_diag by lia.
  - set (i := rem mod (sp / size)). set (f := rem / (sp / size)). pose proof (Z.div_mod rem (sp / size) ltac:(lia)) as Hdm.
    pose proof (Z.mod_pos_bound rem (sp / size) ltac:(lia)) as Hi. pose proof (Z.div_pos rem (sp / size) ltac:(lia) ltac:(lia)).
    assert (f < b) as Hf by (apply Z.div_lt_upper_bound; lia). fold i f in Hdm, Hi.
    eexists (Z.to_nat rem), _. rewrite put_bins_some by lia. cbv zeta. fold i f. rewrite Z2Nat.id, Z.sub_diag by lia.
    split_and!; [reflexivity|lia|lia| |].
    { apply bag_positive; [|case_match; lia]. destruct (Z.eqb_spec i 0); counts. }
    replace (Z.to_nat rem) with (Z.to_nat i + Z.to_nat f * Z.to_nat (sp / size))%nat by nia.
    rewrite Nat.iter_add, fill_bins by (done || lia). rewrite Z2Nat.id by lia. destruct (Z.eqb_spec i 0) as [->|Hi0].
    { by rewrite Z.sub_0_r, bag_comm. }
    replace (b - f) with (b - f - 1 + 1) by lia. rewrite <- bag_add, <- bag_add_comm by lia. rewrite fill_one.
    + rewrite Z2Nat.id, Z.add_simpl_r by lia. by rewrite <- bag_add_comm, bag_comm.
    + done.
    + counts.
    + apply gap_bag; [|lia]. apply gap_bag; [done|lia].
    + rewrite Z2Nat.id by lia. pose proof (rest_of_space size Hs sp). nia.
Qed.

(** With new rows all entries are placed. *)
Lemma put_bins_new size rem (m : gmap Z Z) rows :
  positive m -> 0 < size <= ROW_PAYLOAD -> 1 <= rem -> (forall k, is_Some (m !! k) -> k < size) ->
  let per := ROW_PAYLOAD / size in
  let b := rem / per + if rem mod per =? 0 then 0 else 1 in
  exists m', put_bins size rem ROW_PAYLOAD b m = Ok (0, m') /\ positive m' /\
    Nat.iter (Z.to_nat rem) (place size) (m, rows) = (m', rows + b).
Proof.
  intros Hm [Hs Hfits] Hrem Hn. cbv zeta. pose proof (Z.div_le_lower_bound ROW_PAYLOAD size 1 Hs ltac:(lia)) as Hper.
  pose proof (fill_rows size Hs Hfits m rows (Z.to_nat (rem / (ROW_PAYLOAD / size))) Hm Hn) as Hrows.
  pose proof (put_bins_all size rem ROW_PAYLOAD) as Hall. pose proof (put_bins_some size rem ROW_PAYLOAD) as Hsome.
  pose proof (rest_of_space size Hs ROW_PAYLOAD) as Hrest. pose proof (Z.mod_pos_bound ROW_PAYLOAD size Hs) as Hmod.
  set (per := ROW_PAYLOAD / size) in *. set (r := ROW_PAYLOAD mod size) in *.
  pose proof (Z.div_mod rem per ltac:(lia)) as Hdm. pose proof (Z.mod_pos_bound rem per ltac:(lia)) as Hi.
  pose proof (Z.div_pos rem per ltac:(lia) ltac:(lia)) as Hf.
  set (i := rem mod per) in *. set (f := rem / per) in *.
  assert (Z.to_nat rem = Z.to_nat i + Z.to_nat f * Z.to_nat per)%nat as En by nia.
  rewrite Z2Nat.id in Hrows by lia. rewrite En, Nat.iter_add, Hrows.
  destruct (Z.eqb_spec i 0) as [Ei|Ei].
  - exists (bag m r f). rewrite Z.add_0_r, Hall, Ei by nia. split_and!; [f_equal; f_equal; lia|counts|done].
  - eexists. rewrite Hsome by nia. split; [reflexivity|]. rewrite (proj2 (Z.eqb_neq i 0)) by done.
    replace (f + 1 - f - 1) with 0 by lia. split; [counts|]. change (bag ?x ?y 0) with x.
    rewrite fill_new; [|done|done|counts| |lia|rewrite Z2Nat.id by lia; nia].
    + rewrite Z2Nat.id by lia. f_equal. lia.
    + intros k Hk. destruct (decide (k = r)); [lia|]. rewrite bag_lookup_ne in Hk by done. auto.
Qed.

(** One turn places at least one entry. *)
Lemma fill_turn_place size rem (m : gmap Z Z) rows :
  positive m -> 0 < size <= ROW_PAYLOAD -> 1 <= rem ->
  exists n m' rows', fill_turn size rem m rows = Ok (rem - Z.of_nat n, m', rows') /\
    (1 <= n)%nat /\ Z.of_nat n <= rem /\ positive m' /\ Nat.iter n (place size) (m, rows) = (m', rows').
Proof.
  intros Hm [Hs Hfits] Hrem. unfold fill_turn. cbn [store_take sparse_store mbind res_bind].
  pose proof (first_from_spec m size) as Hff. destruct (first_from m size) as [[sp b]|].
  - destruct Hff as (Hsp & Hle & Hmin). assert (1 <= b) as Hb by exact (Hm sp b Hsp).
    destruct (put_bins_place size rem sp b (delete sp m) rows) as (n & m' & E & Hn & Hnr & Hm' & Hit);
      [counts| |lia|done|done|].
    { intros k [v [_ Hv]%lookup_delete_Some] Hk. apply Hmin; eauto. }
    exists n, m', rows. cbn [mbind res_bind]. rewrite E. cbn [mbind res_bind]. rewrite delete_bag in Hit by (done || lia). done.
  - pose proof (Z.div_le_lower_bound ROW_PAYLOAD size 1 Hs ltac:(lia)) as Hper.
    destruct (put_bins_new size rem m rows Hm ltac:(lia) Hrem Hff) as (m' & E & Hm' & Hit).
    unfold checked_div, div_ceil. rewrite (proj2 (Z.eqb_neq size 0)) by lia. cbn [mbind res_bind].
    rewrite (proj2 (Z.eqb_neq (ROW_PAYLOAD / size) 0)) by lia. cbn [mbind res_bind]. rewrite E. cbn [mbind res_bind].
    exists (Z.to_nat rem), m'. eexists. rewrite Z2Nat.id, Z.sub_diag by lia. split_and!; [done|lia|lia|done|done].
Qed.

Lemma fill_place size fuel rem (m : gmap Z Z) rows :
  positive m -> 0 < size <= ROW_PAYLOAD -> 0 <= rem -> (Z.to_nat rem <= fuel)%nat ->
  let st := Nat.iter (Z.to_nat rem) (place size) (m, rows) in
  fill fuel size rem m rows = Ok st /\ positive st.1.
Proof.
  cbv zeta. intros Hm Hs. revert rem m rows Hm. induction fuel as [|fuel IH]; intros rem m rows Hm Hrem Hfuel; cbn [fill].
  { assert (rem = 0) as -> by lia. done. }
  destruct (Z.eqb_spec rem 0) as [->|H0]; [done|].
  destruct (fill_turn_place size rem m rows Hm Hs ltac:(lia)) as (n & m' & rows' & E & Hn & Hnr & Hm' & Hit). rewrite E.
  cbn [mbind res_bind]. destruct (IH (rem - Z.of_nat n) m' rows' Hm' ltac:(lia) ltac:(lia)) as [-> Hp].
  replace (Z.to_nat rem) with (Z.to_nat (rem - Z.of_nat n) + n)%nat by lia. by rewrite Nat.iter_add, Hit.
Qed.

(** The sizes of the entries, one for each. *)
Definition expand (classes : list (Z * Z)) : list Z := concat (map (fun sc => replicate (Z.to_nat sc.2) sc.1) classes).
Definition place_all (sizes : list Z) (st : gmap Z Z * Z) : gmap Z Z * Z := foldl (fun st size => place size st) st sizes.

Lemma place_all_replicate n size st : place_all (replicate n size) st = Nat.iter n (place size) st.
Proof.
  unfold place_all. revert st. induction n as [|n IH]; intros st; [done|]. cbn [replicate foldl].
  by rewrite IH, Nat.iter_succ_r.
Qed.

Lemma fill_all_place classes (m : gmap Z Z) rows :
  positive m -> Forall (fun sc => 0 < sc.1 <= ROW_PAYLOAD /\ 0 <= sc.2) classes ->
  fill_all classes m rows = Ok (place_all (expand classes) (m, rows)).2.
Proof.
  intros Hm Hc. revert m rows Hm. induction Hc as [|[size count] classes [Hs Hn] _ IH]; intros m rows Hm; cbn [fill_all]; [done|].
  destruct (fill_place size (Z.to_nat count) count m rows Hm Hs Hn ltac:(lia)) as [-> Hp]. cbn [mbind res_bind].
  unfold expand. cbn [map concat snd fst]. unfold place_all at 1. rewrite foldl_app. fold (place_all (replicate (Z.to_nat count) size) (m, rows)).
  rewrite place_all_replicate. destruct (Nat.iter _ _ _) as [m' rows']. by apply IH.
Qed.
