(* ===== verification/ShardFreeSpace.v ===== *)
(** * The bitmap of free spaces

    [FreeSpace] answers as the map of spaces does, so [calculate_mixed_rows] counts what
    [calculate_mixed_rows_sparse] counts. *)

From stdpp Require Import sorting.
From S2P Require Import Prelude ShardEvents ShardCompact ShardPageRow ShardPacking ShardDemand ShardBestFit.

(** ** Bits *)

Lemma odd_testbit b : Z.odd b = Z.testbit b 0.
Proof. by rewrite Z.bit0_odd. Qed.

Lemma trailing_zeros_go_spec n b : 0 < b < 2 ^ Z.of_nat n ->
  let t := trailing_zeros_go n b in
  0 <= t < Z.of_nat n /\ Z.testbit b t = true /\ forall j, 0 <= j < t -> Z.testbit b j = false.
Proof.
  revert b. induction n as [|n IH]; intros b Hb; [cbn in Hb; lia|]. cbv zeta. cbn [trailing_zeros_go].
  destruct (Z.odd b) eqn:Ho.
  - rewrite odd_testbit in Ho. split_and!; [lia|lia|done|]. intros j Hj. lia.
  - assert (b mod 2 = 0) as Hm by (rewrite Zmod_odd, Ho; done). pose proof (Z.div_mod b 2 ltac:(lia)).
    rewrite Nat2Z.inj_succ, Z.pow_succ_r in Hb by lia. assert (Z.shiftr b 1 = b / 2) as Es by (by rewrite Z.shiftr_div_pow2).
    destruct (IH (Z.shiftr b 1)) as (Ht & Hb1 & Hlow); [rewrite Es; lia|]. rewrite Z.shiftr_spec in Hb1 by lia.
    split_and!; [lia|lia|by rewrite Z.add_comm|]. intros j Hj. destruct (decide (j = 0)) as [->|]; [by rewrite <- odd_testbit|].
    specialize (Hlow (j - 1) ltac:(lia)). rewrite Z.shiftr_spec in Hlow by lia. by rewrite Z.sub_add in Hlow.
Qed.

Definition word (x : Z) : Prop := 0 <= x < 2 ^ 64.

Lemma trailing_zeros_spec b : word b -> b <> 0 ->
  0 <= trailing_zeros b < 64 /\ Z.testbit b (trailing_zeros b) = true /\
  forall j, 0 <= j < trailing_zeros b -> Z.testbit b j = false.
Proof. intros Hb H0. apply (trailing_zeros_go_spec 64). unfold word in Hb. lia. Qed.

Lemma max_bit j : 0 <= j -> Z.testbit u64_MAX j = (j <? 64).
Proof.
  intros Hj. change u64_MAX with (Z.ones 64). destruct (Z.ltb_spec j 64); [by apply Z.ones_spec_low|by apply Z.ones_spec_high].
Qed.

(** Words keep their width. *)
Lemma word_bits x : 0 <= x -> (forall j, 64 <= j -> Z.testbit x j = false) -> word x.
Proof.
  intros Hx Hj. split; [done|]. destruct (decide (x = 0)) as [->|]; [done|]. apply Z.log2_lt_pow2; [lia|].
  destruct (Z.lt_ge_cases (Z.log2 x) 64) as [|Hl]; [done|]. specialize (Hj _ Hl). rewrite Z.bit_log2 in Hj by lia. done.
Qed.

Lemma bits_above x j : word x -> 64 <= j -> Z.testbit x j = false.
Proof.
  intros [H0 Hx] Hj. destruct (decide (x = 0)) as [->|]; [apply Z.bits_0|]. apply Z.bits_above_log2; [done|].
  apply Z.log2_lt_pow2 in Hx; [|lia]. lia.
Qed.

Lemma masked_bit w s j : word w -> 0 <= s < 64 -> 0 <= j ->
  Z.testbit (Z.land w (Z.land u64_MAX (Z.shiftl u64_MAX s))) j = Z.testbit w j && (s <=? j).
Proof.
  intros Hw Hs Hj. rewrite !Z.land_spec, max_bit by done. destruct (Z.ltb_spec j 64) as [Hl|Hl].
  - cbn [andb]. rewrite Z.shiftl_spec by done. destruct (Z.leb_spec s j).
    + rewrite max_bit by lia. by rewrite (proj2 (Z.ltb_lt _ _)) by lia.
    + by rewrite (Z.testbit_neg_r _ (j - s)) by lia.
  - by rewrite bits_above.
Qed.

Lemma land_word a b : word a -> word (Z.land a b).
Proof.
  intros Ha. apply word_bits; [apply Z.land_nonneg; left; apply Ha|]. intros j Hj. rewrite Z.land_spec, bits_above by done. done.
Qed.

Lemma single_bit s j : 0 <= s -> 0 <= j -> Z.testbit (Z.shiftl 1 s) j = bool_decide (j = s).
Proof.
  intros Hs Hj. rewrite Z.shiftl_1_l. destruct (decide (j = s)) as [->|Hn].
  - rewrite Z.pow2_bits_true by done. by rewrite bool_decide_eq_true_2.
  - rewrite Z.pow2_bits_false by done. by rewrite bool_decide_eq_false_2.
Qed.

Lemma set_bit w s : word w -> 0 <= s < 64 -> word (Z.lor w (Z.shiftl 1 s)) /\
  forall j, 0 <= j -> Z.testbit (Z.lor w (Z.shiftl 1 s)) j = Z.testbit w j || bool_decide (j = s).
Proof.
  intros Hw Hs. assert (forall j, 0 <= j -> Z.testbit (Z.lor w (Z.shiftl 1 s)) j = Z.testbit w j || bool_decide (j = s)) as H.
  { intros j Hj. rewrite Z.lor_spec, single_bit by lia. done. }
  split; [|done]. apply word_bits.
  - apply Z.lor_nonneg. split; [apply Hw|]. apply Z.shiftl_nonneg. lia.
  - intros j Hj. rewrite H, bits_above by (done || lia). apply bool_decide_eq_false_2. lia.
Qed.

Lemma clear_bit w s : word w -> 0 <= s < 64 -> word (Z.land w (Z.lxor u64_MAX (Z.shiftl 1 s))) /\
  forall j, 0 <= j -> Z.testbit (Z.land w (Z.lxor u64_MAX (Z.shiftl 1 s))) j = Z.testbit w j && negb (bool_decide (j = s)).
Proof.
  intros Hw Hs. split; [by apply land_word|]. intros j Hj. rewrite Z.land_spec, Z.lxor_spec, max_bit, single_bit by lia.
  destruct (Z.ltb_spec j 64); [done|]. by rewrite bits_above.
Qed.

(** ** The bitmap and the map *)

(** Whether the bit of a space is set. *)
Definition occ_bit (words : list Z) (k : Z) : bool :=
  match words !! Z.to_nat (k / 64) with Some w => Z.testbit w (k mod 64) | None => false end.

Record dense_rel (f : FreeSpace) (m : gmap Z Z) : Prop := {
  dense_words : length (occupied f) = 64%nat;
  dense_width : Forall word (occupied f);
  dense_keys : forall k, is_Some (m !! k) -> 0 <= k <= ROW_PAYLOAD;
  dense_bins : forall k, 0 <= k <= ROW_PAYLOAD -> bins f !! Z.to_nat k = Some (default 0 (m !! k));
  dense_bits : forall k, 0 <= k -> occ_bit (occupied f) k = bool_decide (is_Some (m !! k)) }.

Lemma scan_words_spec ws w0 :
  match scan_words w0 ws with
  | Some (w, bits) => exists i, ws !! i = Some bits /\ w = w0 + Z.of_nat i /\ bits <> 0 /\
      forall j, (j < i)%nat -> ws !! j = Some 0
  | None => Forall (fun x => x = 0) ws
  end.
Proof.
  revert w0. induction ws as [|b ws IH]; intros w0; cbn [scan_words]; [constructor|].
  destruct (Z.eqb_spec b 0) as [->|Hb].
  - specialize (IH (w0 + 1)). destruct (scan_words (w0 + 1) ws) as [[w bits]|]; [|by constructor].
    destruct IH as (i & Hi & -> & Hn & Hz). exists (S i). split_and!; [done|lia|done|].
    intros [|j] Hj; [done|]. apply Hz. lia.
  - exists 0%nat. split_and!; [done|lia|done|]. intros j Hj. lia.
Qed.

(** The word and the bits in which [take_at_least] finds a space. *)
Definition find_word (words : list Z) (size : Z) : option (Z * Z) :=
  match drop (Z.to_nat (size / 64)) words with
  | [] => None
  | bits :: words =>
      let bits := Z.land bits (Z.land u64_MAX (Z.shiftl u64_MAX (size mod 64))) in
      if bits =? 0 then scan_words (size / 64 + 1) words else Some (size / 64, bits)
  end.

(** The bits from a size on, of one word: the first word is masked, the others are whole. *)
Lemma find_word_Some words size w bits : 0 <= size -> Forall word words -> find_word words size = Some (w, bits) ->
  size / 64 <= w /\ word bits /\ bits <> 0 /\
  (forall j, 0 <= j < 64 -> Z.testbit bits j = occ_bit words (w * 64 + j) && (size <=? w * 64 + j)) /\
  (forall k, size <= k < w * 64 -> occ_bit words k = false).
Proof.
  intros Hsize Hw. pose proof (Z.div_mod size 64 ltac:(lia)) as Hdm. pose proof (Z.mod_pos_bound size 64 ltac:(lia)) as Hm.
  pose proof (Z.div_pos size 64 Hsize ltac:(lia)) as Hd.
  assert (forall w j, 0 <= j < 64 -> (w * 64 + j) / 64 = w /\ (w * 64 + j) mod 64 = j) as Hwj.
  { intros w' j Hj. split; [rewrite Z.div_add_l, Z.div_small by lia; lia|]. rewrite Z.add_comm, Z.mod_add by lia. by apply Z.mod_small. }
  unfold find_word. destruct (drop (Z.to_nat (size / 64)) words) as [|b ws] eqn:Ed; [done|].
  assert (words !! Z.to_nat (size / 64) = Some b) as Hb by (rewrite <- (Nat.add_0_r (Z.to_nat _)), <- lookup_drop, Ed; done).
  assert (word b) as Hbw by (by eapply Forall_lookup in Hw). cbv zeta.
  assert (forall j, ws !! j = words !! (Z.to_nat (size / 64) + S j)%nat) as Hws.
  { intros j. rewrite <- lookup_drop, Ed. done. }
  set (mb := Z.land b _). destruct (Z.eqb_spec mb 0) as [Hz|Hz].
  - intros E. pose proof (scan_words_spec ws (size / 64 + 1)) as Hs. rewrite E in Hs. destruct Hs as (i & Hi & -> & Hn & Hj).
    rewrite Hws in Hi. split_and!; [lia|by eapply Forall_lookup in Hw|done| |].
    + intros j Hj'. unfold occ_bit. destruct (Hwj (size / 64 + 1 + Z.of_nat i) j Hj') as [-> ->].
      replace (Z.to_nat (size / 64 + 1 + Z.of_nat i)) with (Z.to_nat (size / 64) + S i)%nat by lia. rewrite Hi.
      rewrite (proj2 (Z.leb_le _ _)) by lia. by rewrite andb_true_r.
    + intros k Hk. unfold occ_bit. pose proof (Z.div_mod k 64 ltac:(lia)). pose proof (Z.mod_pos_bound k 64 ltac:(lia)).
      destruct (Z.lt_trichotomy (k / 64) (size / 64)) as [Hlt|[Heq|Hgt]]; [lia| |].
      * rewrite Heq, Hb. pose proof (masked_bit b (size mod 64) (k mod 64) Hbw Hm ltac:(lia)) as Hmb. fold mb in Hmb.
        rewrite Hz, Z.bits_0, (proj2 (Z.leb_le _ _)), andb_true_r in Hmb by lia. done.
      * replace (Z.to_nat (k / 64)) with (Z.to_nat (size / 64) + S (Z.to_nat (k / 64 - size / 64 - 1)))%nat by lia.
        rewrite <- Hws, Hj by lia. apply Z.bits_0.
  - intros [= <- <-]. split_and!; [lia|by apply land_word|done| |intros k Hk; lia].
    intros j Hj. unfold mb. rewrite masked_bit by (done || lia). unfold occ_bit. destruct (Hwj (size / 64) j Hj) as [-> ->].
    rewrite Hb. f_equal. zcases; lia.
Qed.

Lemma find_word_None words size k : 0 <= size -> Forall word words -> find_word words size = None ->
  size <= k -> occ_bit words k = false.
Proof.
  intros Hsize Hw. pose proof (Z.div_mod size 64 ltac:(lia)) as Hdm. pose proof (Z.mod_pos_bound size 64 ltac:(lia)) as Hm.
  pose proof (Z.div_pos size 64 Hsize ltac:(lia)) as Hd. unfold find_word.
  destruct (drop (Z.to_nat (size / 64)) words) as [|b ws] eqn:Ed; intros E Hk; unfold occ_bit;
    pose proof (Z.div_le_mono size k 64 ltac:(lia) Hk) as Hle.
  { apply (f_equal length) in Ed. rewrite length_drop in Ed. cbn in Ed. rewrite lookup_ge_None_2; [done|lia]. }
  assert (forall j, drop (Z.to_nat (size / 64)) words !! j = words !! (Z.to_nat (size / 64) + j)%nat) as Hws by (intros j; apply lookup_drop).
  rewrite Ed in Hws. cbv zeta in E. set (mb := Z.land b _) in E. destruct (Z.eqb_spec mb 0) as [Hz|Hz]; [|done].
  pose proof (scan_words_spec ws (size / 64 + 1)) as Hs. rewrite E in Hs.
  assert (word b) as Hbw by (eapply Forall_lookup in Hw; [done|]; rewrite <- (Hws 0%nat); done).
  destruct (decide (k / 64 = size / 64)) as [Heq|Hne].
  - rewrite Heq. specialize (Hws 0%nat). rewrite Nat.add_0_r in Hws. rewrite <- Hws. cbn.
    pose proof (Z.div_mod k 64 ltac:(lia)). pose proof (Z.mod_pos_bound k 64 ltac:(lia)).
    pose proof (masked_bit b (size mod 64) (k mod 64) Hbw Hm ltac:(lia)) as Hmb. fold mb in Hmb.
    rewrite Hz, Z.bits_0, (proj2 (Z.leb_le _ _)), andb_true_r in Hmb by lia. done.
  - specialize (Hws (S (Z.to_nat (k / 64 - size / 64 - 1)))). cbn [lookup list_lookup] in Hws.
    replace (Z.to_nat (k / 64)) with (Z.to_nat (size / 64) + S (Z.to_nat (k / 64 - size / 64 - 1)))%nat by lia.
    rewrite <- Hws. destruct (ws !! Z.to_nat _) as [w|] eqn:Ew; [|done].
    assert (w = 0) as -> by (eapply Forall_lookup in Hs; done). apply Z.bits_0.
Qed.

Lemma take_at_least_eq f size :
  take_at_least f size =
  match find_word (occupied f) size with
  | None => Ok (None, f)
  | Some (word, bits) =>
      let space := word * 64 + trailing_zeros bits in
      w ← expect (occupied f !! Z.to_nat word);
      b ← expect (bins f !! Z.to_nat space);
      Ok (Some (space, b),
          MkFreeSpace (<[Z.to_nat space := 0]> (bins f))
            (<[Z.to_nat word := Z.land w (Z.lxor u64_MAX (Z.shiftl 1 (space mod 64)))]> (occupied f)))
  end.
Proof. done. Qed.

(** A changed word changes the bits of its spaces. *)
Lemma occ_bit_insert words i w w' k : 0 <= k -> words !! i = Some w ->
  occ_bit (<[i := w']> words) k = if decide (Z.to_nat (k / 64) = i) then Z.testbit w' (k mod 64) else occ_bit words k.
Proof.
  intros Hk Hi. unfold occ_bit. case_decide as Hd.
  - rewrite Hd, list_lookup_insert_eq; [done|]. by eapply lookup_lt_Some.
  - by rewrite list_lookup_insert_ne.
Qed.

Lemma dense_delete f m k0 v x :
  dense_rel f m -> m !! k0 = Some v -> occupied f !! Z.to_nat (k0 / 64) = Some x ->
  dense_rel (MkFreeSpace (<[Z.to_nat k0 := 0]> (bins f))
    (<[Z.to_nat (k0 / 64) := Z.land x (Z.lxor u64_MAX (Z.shiftl 1 (k0 mod 64)))]> (occupied f))) (delete k0 m).
Proof.
  intros [Hl Hw Hk Hb Ho] Hv Hx. assert (0 <= k0 <= ROW_PAYLOAD) as Hin by (apply Hk; eauto).
  pose proof (Z.mod_pos_bound k0 64 ltac:(lia)) as Hm. pose proof (Z.div_mod k0 64 ltac:(lia)). pose proof (Z.div_pos k0 64).
  assert (word x) as Hxw by (by eapply Forall_lookup in Hw). destruct (clear_bit x _ Hxw Hm) as [Hcw Hcb].
  split; cbn [bins occupied].
  - by rewrite length_insert.
  - by apply Forall_insert.
  - intros k [v' [_ Hv']%lookup_delete_Some]. apply Hk. eauto.
  - intros k Hk'. destruct (decide (k = k0)) as [->|Hne].
    + rewrite list_lookup_insert_eq, lookup_delete_eq; [done|]. eapply lookup_lt_Some, Hb, Hin.
    + rewrite list_lookup_insert_ne, lookup_delete_ne by lia. auto.
  - intros k Hk0. rewrite (occ_bit_insert _ _ x) by done. pose proof (Z.div_pos k 64 Hk0 ltac:(lia)).
    pose proof (Z.div_mod k 64 ltac:(lia)). pose proof (Z.mod_pos_bound k 64 ltac:(lia)). case_decide as Hd.
    + rewrite Hcb by lia. specialize (Ho k Hk0). unfold occ_bit in Ho. rewrite Hd, Hx in Ho. rewrite Ho.
      destruct (decide (k = k0)) as [->|Hne].
      * rewrite lookup_delete_eq, (bool_decide_eq_true_2 (k0 mod 64 = _)) by done. by rewrite andb_false_r.
      * rewrite lookup_delete_ne by done. rewrite (bool_decide_eq_false_2 (k mod 64 = _)) by lia. by rewrite andb_true_r.
    + rewrite lookup_delete_ne; [by apply Ho|]. intros <-. done.
Qed.

Lemma dense_take f m size : dense_rel f m -> 0 <= size ->
  exists f', store_take f size = Ok (match first_from m size with Some (k, v) => Some (k, v) | None => None end, f') /\
    dense_rel f' (match first_from m size with Some (k, _) => delete k m | None => m end).
Proof.
  intros Hd Hsize. pose proof Hd as [Hl Hw Hk Hb Ho]. cbn [store_take dense_store]. rewrite take_at_least_eq.
  destruct (find_word (occupied f) size) as [[w bits]|] eqn:Ef.
  2: { exists f. rewrite first_from_None; [by split|]. intros k Hs. destruct (Z.lt_ge_cases k size) as [|Hge]; [done|].
    pose proof (find_word_None _ _ k Hsize Hw Ef Hge) as E. rewrite Ho in E by (apply Hk in Hs; lia).
    by apply bool_decide_eq_false in E. }
  apply find_word_Some in Ef as (Hwl & Hbw & Hb0 & Hbit & Hlow); [|done..].
  destruct (trailing_zeros_spec bits Hbw Hb0) as (Ht & Ht1 & Htl). set (t := trailing_zeros bits) in *. cbv zeta.
  pose proof (Z.div_pos size 64 Hsize ltac:(lia)). rewrite Hbit in Ht1 by lia. apply andb_true_iff in Ht1 as [Hset Hge%Z.leb_le].
  rewrite Ho in Hset by lia. apply bool_decide_eq_true in Hset as [v Hv].
  assert (first_from m size = Some (w * 64 + t, v)) as ->.
  { apply first_from_Some; [done|done|]. intros k Hs Hge'. destruct (Z.le_gt_cases (w * 64 + t) k) as [|Hlt]; [done|exfalso].
    assert (occ_bit (occupied f) k = true) as Hok by (rewrite Ho; [by apply bool_decide_eq_true|apply Hk in Hs; lia]).
    destruct (Z.lt_ge_cases k (w * 64)) as [Hx|Hx]; [by rewrite Hlow in Hok|].
    specialize (Htl (k - w * 64) ltac:(lia)). rewrite Hbit in Htl by lia. replace (w * 64 + (k - w * 64)) with k in Htl by lia.
    rewrite Hok, (proj2 (Z.leb_le _ _)) in Htl by done. done. }
  assert (0 <= w * 64 + t <= ROW_PAYLOAD) as Hin by (apply Hk; eauto).
  assert (ROW_PAYLOAD = 4092) as HP by done.
  destruct (lookup_lt_is_Some_2 (occupied f) (Z.to_nat w)) as [x Hx]; [rewrite Hl; lia|].
  rewrite Hx, Hb by done. cbn [expect mbind res_bind]. rewrite Hv. eexists. split; [done|].
  assert ((w * 64 + t) / 64 = w) as Ediv by (rewrite Z.div_add_l, Z.div_small by lia; lia).
  pose proof (dense_delete f m (w * 64 + t) v x) as D. rewrite Ediv in D. by apply D.
Qed.

Lemma dense_add f m k n : dense_rel f m -> 0 <= k <= ROW_PAYLOAD ->
  exists f', store_add f k n = Ok f' /\ dense_rel f' (entry_add m k n).
Proof.
  intros [Hl Hw Hk Hb Ho] Hin. assert (ROW_PAYLOAD = 4092) as HP by done. cbn [store_add dense_store]. unfold free_space_add.
  rewrite Hb by done. cbn [expect mbind res_bind]. pose proof (Z.mod_pos_bound k 64 ltac:(lia)) as Hm.
  pose proof (Z.div_mod k 64 ltac:(lia)). pose proof (Z.div_pos k 64 ltac:(lia) ltac:(lia)).
  destruct (lookup_lt_is_Some_2 (occupied f) (Z.to_nat (k / 64))) as [x Hx]; [rewrite Hl; lia|].
  rewrite Hx. cbn [expect mbind res_bind]. eexists. split; [done|].
  assert (word x) as Hxw by (by eapply Forall_lookup in Hw). destruct (set_bit x _ Hxw Hm) as [Hsw Hsb].
  split; cbn [bins occupied].
  - by rewrite length_insert.
  - by apply Forall_insert.
  - intros k'. rewrite lookup_entry_add. case_decide; [by subst|apply Hk].
  - intros k' Hk'. rewrite lookup_entry_add. case_decide; subst.
    + rewrite list_lookup_insert_eq; [done|]. eapply lookup_lt_Some, Hb, Hin.
    + rewrite list_lookup_insert_ne by lia. auto.
  - intros k' Hk0. rewrite (occ_bit_insert _ _ x), lookup_entry_add by done. pose proof (Z.div_pos k' 64 Hk0 ltac:(lia)).
    pose proof (Z.div_mod k' 64 ltac:(lia)). pose proof (Z.mod_pos_bound k' 64 ltac:(lia)).
    destruct (decide (k' = k)) as [->|Hne].
    + rewrite decide_True, Hsb, (bool_decide_eq_true_2 (_ = _)), orb_true_r by (done || lia). done.
    + rewrite <- Ho by done. case_decide as Hd; [|done]. rewrite Hsb by lia. unfold occ_bit. rewrite Hd, Hx.
      rewrite (bool_decide_eq_false_2 (_ = _)) by lia. apply orb_false_r.
Qed.

Lemma dense_default : dense_rel free_space_default ∅.
Proof.
  split; cbn [bins occupied free_space_default].
  - by rewrite length_replicate.
  - apply Forall_replicate. split; done.
  - intros k [v Hv]. by rewrite lookup_empty in Hv.
  - intros k Hk. rewrite lookup_empty, lookup_replicate_2; [done|]. lia.
  - intros k Hk. rewrite lookup_empty. rewrite (bool_decide_eq_false_2 (is_Some None)) by by intros [].
    unfold occ_bit. destruct (replicate _ _ !! _) as [w|] eqn:E; [|done]. apply lookup_replicate in E as [-> _].
    apply Z.bits_0.
Qed.

(** ** The loops run alike over related stores *)

Definition res_rel {A B} (R : A -> B -> Prop) (x : exec A) (y : exec B) : Prop :=
  match x, y with Ok a, Ok b => R a b | Err p, Err q => p = q | _, _ => False end.

Lemma res_rel_bind {A B A' B'} (R : A -> B -> Prop) (Q : A' -> B' -> Prop) x y f g :
  res_rel R x y -> (forall a b, R a b -> res_rel Q (f a) (g b)) -> res_rel Q (x ≫= f) (y ≫= g).
Proof. destruct x, y; cbn; naive_solver. Qed.

(** The same computation on both sides. *)
Lemma res_rel_same {A A' B'} (Q : A' -> B' -> Prop) (x : exec A) f g :
  (forall a, x = Ok a -> res_rel Q (f a) (g a)) -> res_rel Q (x ≫= f) (x ≫= g).
Proof. destruct x; cbn; auto. Qed.

Section Simulation.
Context {S1 S2 : Type} `{F1 : FreeStore S1, F2 : FreeStore S2} (R : S1 -> S2 -> Prop).
Context (Htake : forall f m size, R f m -> 0 <= size ->
  res_rel (fun a b => a.1 = b.1 /\ R a.2 b.2 /\ match a.1 with Some (k, _) => size <= k <= ROW_PAYLOAD | None => True end)
    (store_take f size) (store_take m size)).
Context (Hadd : forall f m k n, R f m -> 0 <= k <= ROW_PAYLOAD -> res_rel R (store_add f k n) (store_add m k n)).

Lemma add_if_rel (c : bool) f m k n : R f m -> 0 <= k <= ROW_PAYLOAD ->
  res_rel R (if c then store_add f k n else Ok f) (if c then store_add m k n else Ok m).
Proof using Hadd. intros Hr Hk. destruct c; [by apply Hadd|done]. Qed.

Lemma put_bins_rel size rem space b f m :
  R f m -> 0 <= size <= space -> space <= ROW_PAYLOAD -> 0 <= rem ->
  res_rel (fun x y => x.1 = y.1 /\ R x.2 y.2 /\ 0 <= x.1) (put_bins size rem space b f) (put_bins size rem space b m).
Proof using Hadd.
  intros Hr Hs Hsp Hrem. unfold put_bins. apply res_rel_same. intros per Hper. unfold checked_div in Hper.
  destruct (Z.eqb_spec size 0) as [|H0]; [done|]. injection Hper as <-. apply res_rel_same. intros times Ht.
  pose proof (Z.div_le_lower_bound space size 1 ltac:(lia) ltac:(lia)) as Hper.
  pose proof (Z.mod_pos_bound space size ltac:(lia)). pose proof (Z.div_pos space size ltac:(lia) ltac:(lia)).
  unfold checked_div in Ht. rewrite (proj2 (Z.eqb_neq _ 0)) in Ht by lia. injection Ht as <-.
  assert (0 <= rem - Z.min b (rem / (space / size)) * (space / size)) as Hrem'.
  { pose proof (Z.mul_div_le rem (space / size) ltac:(lia)). nia. }
  set (rem' := rem - _) in *. apply (res_rel_bind R); [apply add_if_rel; [done|lia]|]. intros f1 m1 Hr1.
  apply (res_rel_bind (fun x y => x.1.1 = y.1.1 /\ R x.1.2 y.1.2 /\ x.2 = y.2 /\ 0 <= x.1.1)).
  - case_match; [|by cbn]. apply res_rel_same. intros left Hleft. unfold checked_minus in Hleft.
    destruct (Z.leb_spec (rem' * size) space) as [Hle|]; [|done]. injection Hleft as <-.
    apply (res_rel_bind R); [apply Hadd; [done|nia]|]. intros f2 m2 Hr2. by cbn.
  - intros [[r1 f2] u1] [[r2 m2] u2] (E & Hr2 & E' & Hp). cbn in E, E', Hr2, Hp. subst r2 u2.
    apply (res_rel_bind R); [apply add_if_rel; [done|lia]|]. intros f3 m3 Hr3. by cbn.
Qed.

Lemma fill_turn_rel size rem f m rows : R f m -> 0 <= size <= ROW_PAYLOAD -> 0 <= rem ->
  res_rel (fun x y => x.1.1 = y.1.1 /\ R x.1.2 y.1.2 /\ x.2 = y.2 /\ 0 <= x.1.1)
    (fill_turn size rem f rows) (fill_turn size rem m rows).
Proof using Hadd Htake.
  intros Hr Hs Hrem. unfold fill_turn. eapply res_rel_bind; [apply Htake; [done|lia]|].
  intros [t1 f1] [t2 m1] (E & Hr1 & Hb). cbn in E, Hr1, Hb. subst t2. destruct t1 as [[space b]|].
  - cbn [mbind res_bind]. eapply res_rel_bind; [apply put_bins_rel; [done|lia..]|].
    intros [r1 f2] [r2 m2] (E & Hr2 & Hp). cbn in *. by subst.
  - apply res_rel_same. intros [[space b] rows'] E. apply res_bind_Ok in E as (per & _ & E).
    apply res_bind_Ok in E as (b' & _ & E). injection E as <- <- <-.
    eapply res_rel_bind; [apply put_bins_rel; [done|lia..]|].
    intros [r1 f2] [r2 m2] (E & Hr2 & Hp). cbn in *. by subst.
Qed.

Lemma fill_rel fuel size rem f m rows : R f m -> 0 <= size <= ROW_PAYLOAD -> 0 <= rem ->
  res_rel (fun x y => R x.1 y.1 /\ x.2 = y.2) (fill fuel size rem f rows) (fill fuel size rem m rows).
Proof using Hadd Htake.
  intros Hr Hs. revert rem f m rows Hr. induction fuel as [|fuel IH]; intros rem f m rows Hr Hrem; cbn [fill]; case_match; try by cbn.
  eapply res_rel_bind; [by apply fill_turn_rel|]. intros [[r1 f1] rows1] [[r2 m1] rows2] (E & Hr1 & E' & Hp). cbn in *.
  subst. by apply IH.
Qed.

Lemma fill_all_rel classes f m rows : R f m -> Forall (fun sc => 0 <= sc.1 <= ROW_PAYLOAD /\ 0 <= sc.2) classes ->
  fill_all classes f rows = fill_all classes m rows.
Proof using Hadd Htake.
  intros Hr Hc. revert f m rows Hr. induction Hc as [|[size count] classes [Hs Hn] _ IH]; intros f m rows Hr; cbn [fill_all]; [done|].
  pose proof (fill_rel (Z.to_nat count) size count f m rows Hr Hs Hn) as Hf. unfold res_rel in Hf.
  destruct (fill _ size count f rows) as [[f1 r1]|], (fill _ size count m rows) as [[m1 r2]|]; cbn in *; try by subst.
  destruct Hf as [Hr1 ->]. by apply IH.
Qed.
End Simulation.

Lemma dense_fill_all classes f (m : gmap Z Z) rows :
  dense_rel f m -> Forall (fun sc => 0 <= sc.1 <= ROW_PAYLOAD /\ 0 <= sc.2) classes ->
  fill_all classes f rows = fill_all classes m rows.
Proof.
  apply fill_all_rel.
  - intros f' m' size Hd Hs. destruct (dense_take f' m' size Hd Hs) as (f1 & -> & Hd1). cbn [store_take sparse_store].
    pose proof (first_from_spec m' size) as Hff. destruct (first_from m' size) as [[k v]|]; cbn; [|done].
    destruct Hff as (Hv & Hle & _). split_and!; [done|done|done|]. apply (dense_keys _ _ Hd). eauto.
  - intros f' m' k n Hd Hk. destruct (dense_add f' m' k n Hd Hk) as (f1 & -> & Hd1). by cbn.
Qed.

(** ** Iteration in order *)

Section IterRev.
Context {A : Type}.
#[local] Instance desc_total : Total (desc (A := A)).
Proof. intros x y. unfold desc. lia. Qed.
#[local] Instance desc_trans : Transitive (desc (A := A)).
Proof. intros x y z. unfold desc. lia. Qed.

Lemma iter_rev_perm (m : gmap Z A) : iter_rev m ≡ₚ map_to_list m.
Proof. apply merge_sort_Permutation. Qed.

Lemma elem_of_iter_rev (m : gmap Z A) k v : (k, v) ∈ iter_rev m <-> m !! k = Some v.
Proof. by rewrite iter_rev_perm, elem_of_map_to_list. Qed.

Lemma iter_rev_sorted (m : gmap Z A) : StronglySorted desc (iter_rev m).
Proof. apply StronglySorted_merge_sort; apply _. Qed.

Lemma iter_rev_NoDup (m : gmap Z A) : NoDup (iter_rev m).*1.
Proof. rewrite iter_rev_perm. apply NoDup_fst_map_to_list. Qed.
End IterRev.

Lemma bounded_spec m : bounded m = true <-> forall k, is_Some (m !! k) -> k <= ROW_PAYLOAD.
Proof.
  unfold bounded. pose proof (iter_rev_sorted m) as Hs. pose proof (elem_of_iter_rev m) as He.
  destruct (iter_rev m) as [|[k v] l] eqn:E.
  - split; [|done]. intros _ k [v Hv]. apply He in Hv. by apply not_elem_of_nil in Hv.
  - apply StronglySorted_inv in Hs as [_ Hs]. rewrite Forall_forall in Hs. rewrite Z.leb_le. split.
    + intros Hk k' [v' [[= -> ->]|Hin]%He%elem_of_cons]; [done|]. specialize (Hs _ Hin). unfold desc in Hs. cbn in Hs. lia.
    + intros H. apply H. exists v. apply He. by left.
Qed.

(** Adding the entries of a map one by one gives the map. *)
Lemma add_entries l (m : gmap Z Z) :
  NoDup l.*1 -> (forall k, k ∈ l.*1 -> m !! k = None) ->
  foldl (fun m kv => entry_add m kv.1 kv.2) m l = list_to_map l ∪ m.
Proof.
  revert m. induction l as [|[k v] l IH]; intros m Hnd Hm; cbn [foldl].
  { by rewrite list_to_map_nil, (left_id_L ∅ (∪)). }
  cbn in Hnd. apply NoDup_cons in Hnd as [Hk Hnd]. rewrite IH; [|done|].
  - rewrite list_to_map_cons. cbn [fst snd]. unfold entry_add. rewrite Hm by (cbn; left). cbn [default].
    change (0 + v) with v. rewrite <- insert_union_l, insert_union_r; [done|]. by apply not_elem_of_list_to_map_1.
  - intros k' Hk'. rewrite lookup_entry_add, decide_False by (intros ->; done). apply Hm. by right.
Qed.

Lemma add_tails_rel l f m : dense_rel f m -> Forall (fun kv => 0 <= kv.1 <= ROW_PAYLOAD) l ->
  exists f', add_tails l f = Ok f' /\ dense_rel f' (foldl (fun m kv => entry_add m kv.1 kv.2) m l).
Proof.
  revert f m. induction l as [|[k v] l IH]; intros f m Hd Hl; cbn [add_tails foldl]; [eauto|].
  apply Forall_cons in Hl as [Hk Hl]. destruct (dense_add f m k v Hd Hk) as (f1 & E & Hd1).
  cbn [store_add dense_store] in E. rewrite E. cbn [mbind res_bind]. by apply IH.
Qed.

Lemma add_all_tails (m : gmap Z Z) : (forall k, is_Some (m !! k) -> 0 <= k <= ROW_PAYLOAD) ->
  exists f, add_tails (rev (iter_rev m)) free_space_default = Ok f /\ dense_rel f m.
Proof.
  intros Hm. assert (rev (iter_rev m) ≡ₚ map_to_list m) as Hp by (rewrite <- iter_rev_perm; symmetry; apply Permutation_rev).
  destruct (add_tails_rel (rev (iter_rev m)) free_space_default ∅ dense_default) as (f & E & Hd).
  { rewrite Hp. apply Forall_forall. intros [k v] Hkv%elem_of_map_to_list. apply Hm. eauto. }
  exists f. split; [done|]. rewrite add_entries in Hd.
  - rewrite (right_id_L ∅ (∪)) in Hd. rewrite (list_to_map_proper _ (map_to_list m)) in Hd; [by rewrite list_to_map_to_list in Hd| |done].
    rewrite Hp. apply NoDup_fst_map_to_list.
  - rewrite Hp. apply NoDup_fst_map_to_list.
  - intros k _. apply lookup_empty.
Qed.

(** The keys and counts are unsigned. *)
Definition unsigned_demand (d : PackedDemand) : Prop :=
  map_Forall (fun k n => 0 <= k /\ 0 <= n) (short d) /\ map_Forall (fun k n => 0 <= k /\ 0 <= n) (tails d).

Lemma mixed_rows_sparse d : unsigned_demand d -> calculate_mixed_rows d = calculate_mixed_rows_sparse d.
Proof.
  intros [Hs Ht]. unfold calculate_mixed_rows. destruct (_ || _) eqn:Hb; [done|].
  apply orb_false_iff in Hb as [[Hbt%negb_false_iff Hbs%negb_false_iff]%orb_false_iff _].
  rewrite bounded_spec in Hbt, Hbs. destruct (add_all_tails (tails d)) as (f & -> & Hd).
  { intros k Hk. split; [|by apply Hbt]. destruct Hk as [v Hv]. by apply (Ht k v). }
  cbn [mbind res_bind]. apply dense_fill_all; [done|]. apply Forall_forall. intros [k v] Hkv%elem_of_iter_rev.
  pose proof (Hs k v Hkv) as [? ?]. specialize (Hbs k ltac:(eauto)). cbn. lia.
Qed.

(** C27: The array of free spaces is the map.  For every demand [calculate_mixed_rows], which
    keeps the spaces in an array with a bitmap and looks for the first set bit word by word,
    returns what [calculate_mixed_rows_sparse] returns over an ordered map, and panics when
    that does. *)
Theorem dense_best_fit_is_sparse d :
  unsigned_demand d -> calculate_mixed_rows d = calculate_mixed_rows_sparse d.
Proof. apply mixed_rows_sparse. Qed.
