(* ===== verification/ShardPrediction.v ===== *)
(** * What the demand counts

    [PackedDemand] stands for the histories that were shifted into it: its counters are those
    of the histories that are left, in any order of arrivals and removals, and the rows it
    predicts are those of the reference that places their entries one at a time. *)

From stdpp Require Import sorting.
From S2P Require Import Prelude ShardEvents ShardEventProofs ShardCompact ShardPageRow ShardPacking ShardDemand ShardBestFit ShardFreeSpace.

Implicit Types (hs : list HistoryLayout) (h : HistoryLayout) (d : PackedDemand).

Section Represents.
Context (header : Z) (Hheader : 0 < header < ROW_PAYLOAD).

Definition is_short h : bool := hl_fragments h =? 1.
Definition is_long h : bool := 1 <? hl_fragments h.

(** The counters of a list of histories. *)
Definition count_by (sel : HistoryLayout -> bool) (key : HistoryLayout -> Z) hs : gmap Z Z :=
  foldr (fun h m => if sel h then entry_add m (key h) 1 else m) ∅ hs.
Definition sum_by (sel : HistoryLayout -> bool) (f : HistoryLayout -> Z) hs : Z :=
  foldr (fun h n => (if sel h then f h else 0) + n) 0 hs.

Definition short_size h : Z := header + tail_bytes h.
Definition tail_space h : Z := ROW_PAYLOAD - header - tail_bytes h.

Record represents d hs : Prop := {
  rep_header : entry_header d = header;
  rep_short : short d = count_by is_short short_size hs;
  rep_tails : tails d = count_by is_long tail_space hs;
  rep_rows : long_rows d = sum_by is_long hl_fragments hs;
  rep_scripts : long_scripts d = sum_by is_long (fun _ => 1) hs;
  rep_bytes : event_bytes d = sum_by (fun h => negb (hl_fragments h =? 0)) paged_bytes hs }.

(** A summary of some history: its last fragment fits. *)
Definition history_ok h : Prop :=
  0 <= hl_fragments h /\ 0 <= tail_bytes h <= ROW_PAYLOAD - header /\ 0 <= paged_bytes h.

Lemma count_by_positive sel key hs : positive (count_by sel key hs).
Proof.
  induction hs as [|h hs IH]; cbn; [done|]. fold (count_by sel key hs). case_match; [|done]. by apply entry_add_positive.
Qed.

Lemma sum_by_nonneg sel f hs : Forall (fun h => 0 <= f h) hs -> 0 <= sum_by sel f hs.
Proof. induction 1 as [|h hs Hh _ IH]; cbn; [done|]. fold (sum_by sel f hs). case_match; lia. Qed.

Lemma change_add m k : change m k true = Ok (entry_add m k 1).
Proof. done. Qed.

Lemma change_remove m k : positive m -> change (entry_add m k 1) k false = Ok m.
Proof.
  intros Hm. unfold change. rewrite lookup_entry_add, decide_True by done. cbn [expect mbind res_bind].
  assert (0 <= default 0 (m !! k)) as Hd by (destruct (m !! k) as [c|] eqn:E; cbn; [specialize (Hm k c E); cbn in Hm|]; lia).
  unfold checked_minus. rewrite (proj2 (Z.leb_le _ _)) by lia. cbn [mbind res_bind]. f_equal.
  transitivity (remove_one (entry_add m k 1) k); [|by apply remove_one_add]. unfold remove_one. rewrite lookup_entry_add, decide_True by done.
  destruct (Z.eqb_spec (default 0 (m !! k) + 1 - 1) 0), (Z.eqb_spec (default 0 (m !! k) + 1) 1); done || lia.
Qed.

Lemma update_add d hs h : represents d hs -> history_ok h ->
  exists d', update d h true = Ok d' /\ represents d' (h :: hs) /\ cached_rows d' = cached_rows d.
Proof using Hheader.
  intros [Hh Hs Ht Hr Hn Hb] (Hf & Htl & Hp). unfold update, plus_minus, fragment_payload, checked_minus. rewrite Hh.
  destruct (Z.eqb_spec (hl_fragments h) 0) as [E0|E0].
  { exists d. split; [done|]. split; [|done].
    split; unfold count_by, sum_by in *; cbn [foldr]; unfold is_short, is_long; rewrite ?E0; cbn; try done. }
  cbn [mbind res_bind]. destruct (Z.eqb_spec (hl_fragments h) 1) as [E1|E1].
  - rewrite change_add. cbn [mbind res_bind]. eexists. split; [done|]. split; [|done].
    split; cbn [entry_header short tails long_rows long_scripts event_bytes]; unfold count_by, sum_by in *; cbn [foldr];
      unfold is_short, is_long; rewrite ?E1; cbn; rewrite ?Hs, ?Ht, ?Hr, ?Hn, ?Hb; try done. unfold sum_by. lia.
  - rewrite (proj2 (Z.leb_le header _)) by lia. cbn [mbind res_bind]. rewrite (proj2 (Z.leb_le _ _)) by lia.
    cbn [mbind res_bind]. rewrite change_add. cbn [mbind res_bind]. eexists. split; [done|]. split; [|done].
    assert (is_short h = false /\ is_long h = true) as [Es El] by (unfold is_short, is_long; split; [by apply Z.eqb_neq|apply Z.ltb_lt; lia]).
    split; cbn [entry_header short tails long_rows long_scripts event_bytes]; unfold count_by, sum_by in *; cbn [foldr];
      rewrite ?Es, ?El, ?Hs, ?Ht, ?Hr, ?Hn, ?Hb, ?(proj2 (Z.eqb_neq (hl_fragments h) 0) E0); cbn; try done; lia.
Qed.

Lemma update_remove d hs h : represents d (h :: hs) -> history_ok h -> Forall history_ok hs ->
  exists d', update d h false = Ok d' /\ represents d' hs /\ cached_rows d' = cached_rows d.
Proof using Hheader.
  intros [Hh Hs Ht Hr Hn Hb] (Hf & Htl & Hp) Hhs. unfold update, plus_minus, fragment_payload. cbv match. rewrite Hh.
  pose proof (count_by_positive is_short short_size hs) as Ps. pose proof (count_by_positive is_long tail_space hs) as Pt.
  assert (0 <= sum_by (fun h => negb (hl_fragments h =? 0)) paged_bytes hs /\ 0 <= sum_by is_long hl_fragments hs /\
    0 <= sum_by is_long (fun _ => 1) hs) as (B1 & B2 & B3).
  { split_and!; apply sum_by_nonneg; eapply Forall_impl; try exact Hhs; unfold history_ok; intros; lia. }
  unfold count_by, sum_by in Hs, Ht, Hr, Hn, Hb. cbn [foldr] in Hs, Ht, Hr, Hn, Hb.
  fold (count_by is_short short_size hs) in Hs. fold (count_by is_long tail_space hs) in Ht.
  fold (sum_by is_long hl_fragments hs) in Hr. fold (sum_by is_long (fun _ => 1) hs) in Hn.
  fold (sum_by (fun h => negb (hl_fragments h =? 0)) paged_bytes hs) in Hb.
  destruct (Z.eqb_spec (hl_fragments h) 0) as [E0|E0].
  { exists d. unfold is_short, is_long in *. rewrite E0 in *. cbn in *. split_and!; [done|by split|done]. }
  cbn [negb] in Hb. rewrite (checked_minus_Ok (event_bytes d)) by lia. cbn [mbind res_bind].
  destruct (Z.eqb_spec (hl_fragments h) 1) as [E1|E1].
  - unfold is_short in Hs at 1. unfold is_long in Ht at 1, Hr at 1, Hn at 1. rewrite E1 in *. cbn in Hs, Ht, Hr, Hn.
    rewrite Hs. fold (short_size h). rewrite change_remove by done. cbn [mbind res_bind]. eexists. split; [done|].
    split; [|done]. split; cbn [entry_header short tails long_rows long_scripts event_bytes]; try done; lia.
  - assert (is_short h = false /\ is_long h = true) as [Es El] by (unfold is_short, is_long; split; [by apply Z.eqb_neq|apply Z.ltb_lt; lia]).
    rewrite Es in Hs. rewrite El in Ht, Hr, Hn. rewrite (checked_minus_Ok ROW_PAYLOAD) by lia. cbn [mbind res_bind].
    rewrite (checked_minus_Ok _ (tail_bytes h)) by lia. cbn [mbind res_bind]. rewrite Ht. fold (tail_space h).
    rewrite change_remove by done. cbn [mbind res_bind]. rewrite (checked_minus_Ok (long_rows d)) by lia. cbn [mbind res_bind].
    rewrite checked_minus_Ok by lia. cbn [mbind res_bind]. eexists. split; [done|].
    split; [|done]. split; cbn [entry_header short tails long_rows long_scripts event_bytes]; try done; lia.
Qed.

Lemma foldr_comm_perm {A B} (f : A -> B -> B) b l k :
  (forall x y z, f x (f y z) = f y (f x z)) -> l ≡ₚ k -> foldr f b l = foldr f b k.
Proof. intros Hf. induction 1; cbn; congruence. Qed.

Lemma represents_perm d hs hs' : hs ≡ₚ hs' -> represents d hs -> represents d hs'.
Proof.
  intros Hp [Hh Hs Ht Hr Hn Hb].
  assert (forall sel key, count_by sel key hs = count_by sel key hs') as Hc.
  { intros sel key. unfold count_by. apply foldr_comm_perm; [|done].
    intros h1 h2 m. repeat case_match; try done. apply entry_add_comm. }
  assert (forall sel f, sum_by sel f hs = sum_by sel f hs') as Hf.
  { intros sel f. unfold sum_by. apply foldr_comm_perm; [|done].
    intros h1 h2 n. repeat case_match; lia. }
  split; rewrite <- ?Hc, <- ?Hf; done.
Qed.

Lemma shift_represents d hs old new :
  represents d (old :: hs) -> history_ok old -> history_ok new -> Forall history_ok hs ->
  exists d', shift d old new = Ok d' /\ represents d' (new :: hs) /\ cached_rows d' = None.
Proof using Hheader.
  intros Hd Ho Hn Hhs. unfold shift. destruct (update_remove (clear_cache d) hs old) as (d1 & -> & H1 & C1); [|done..|].
  { destruct Hd. by split. }
  cbn [mbind res_bind]. destruct (update_add d1 hs new H1 Hn) as (d2 & -> & H2 & C2). exists d2. split_and!; [done|done|].
  by rewrite C2, C1.
Qed.

Lemma history_default_ok : history_ok history_default.
Proof using Hheader. unfold history_ok, history_default. cbn. lia. Qed.

Lemma represents_default d hs : represents d hs <-> represents d (history_default :: hs).
Proof. split; intros []; by split. Qed.
End Represents.

(** ** The rows of the reference *)

Definition ge (x y : Z) : Prop := y <= x.
#[local] Instance ge_trans : Transitive ge.
Proof. intros x y z. unfold ge. lia. Qed.
#[local] Instance ge_antisymm : AntiSymm (=) ge.
Proof. intros x y. unfold ge. lia. Qed.

(** By groups: an entry does not join a row of entries of another size. *)
Fixpoint place_grouped (last : option Z) (sizes : list Z) (st : gmap Z Z * Z) : gmap Z Z * Z :=
  match sizes with
  | [] => st
  | size :: sizes =>
      place_grouped (Some size) sizes (place size (if bool_decide (last = Some size) then st.1 else ∅, st.2))
  end.

(** Descending sizes that are those of the short histories. *)
Definition sizes_of (header : Z) hs (sizes : list Z) : Prop :=
  StronglySorted ge sizes /\ sizes ≡ₚ map (short_size header) (filter (fun h => is_short h = true) hs).

Lemma expand_cons k n l : expand ((k, n) :: l) = replicate (Z.to_nat n) k ++ expand l.
Proof. done. Qed.

Lemma expand_perm l l' : l ≡ₚ l' -> expand l ≡ₚ expand l'.
Proof.
  induction 1 as [|[k n] l l' _ IH|[k n] [k' n'] l|l l' l'' _ IH1 _ IH2]; rewrite ?expand_cons; [done|by rewrite IH| |by rewrite IH1].
  rewrite !app_assoc. apply Permutation_app; [apply Permutation_app_comm|done].
Qed.

Lemma expand_add (m : gmap Z Z) k : positive m ->
  expand (map_to_list (entry_add m k 1)) ≡ₚ k :: expand (map_to_list m).
Proof.
  intros Hm. unfold entry_add. destruct (m !! k) as [c|] eqn:E; cbn [default].
  - assert (1 <= c) by exact (Hm k c E). rewrite <- (insert_delete_id m k c E) at 2. rewrite <- insert_delete_eq.
    rewrite (expand_perm _ _ (map_to_list_insert (delete k m) k (c + 1) (lookup_delete_eq _ _))).
    rewrite (expand_perm _ _ (map_to_list_insert (delete k m) k c (lookup_delete_eq _ _))). rewrite !expand_cons.
    replace (Z.to_nat (c + 1)) with (S (Z.to_nat c)) by lia. done.
  - rewrite (expand_perm _ _ (map_to_list_insert m k (0 + 1) E)). rewrite expand_cons. done.
Qed.

Lemma expand_count header hs :
  expand (map_to_list (count_by is_short (short_size header) hs)) ≡ₚ map (short_size header) (filter (fun h => is_short h = true) hs).
Proof.
  induction hs as [|h hs IH]; [done|]. unfold count_by. cbn [foldr]. fold (count_by is_short (short_size header) hs).
  rewrite filter_cons. destruct (is_short h) eqn:E; [|by rewrite decide_False].
  rewrite decide_True by done. cbn [map]. rewrite expand_add by apply count_by_positive. by rewrite IH.
Qed.

Lemma expand_Forall (P : Z -> Prop) l : Forall (fun kn => P kn.1) l -> Forall P (expand l).
Proof.
  induction 1 as [|[k n] l Hk _ IH]; [constructor|]. rewrite expand_cons. apply Forall_app. split; [|done].
  by apply Forall_replicate.
Qed.

Lemma expand_sorted l : StronglySorted desc l -> StronglySorted ge (expand l).
Proof.
  induction 1 as [|[k n] l Hl IH Hd]; [constructor|]. rewrite expand_cons. apply StronglySorted_app.
  assert (Forall (fun x => x <= k) (expand l)) as Hle.
  { by apply expand_Forall. }
  split_and!; [|induction (Z.to_nat n) as [|c IHc]; [apply SSorted_nil|apply SSorted_cons; [done|apply Forall_replicate; unfold ge; lia]]|done].
  intros x y ->%elem_of_replicate_inv Hy. rewrite Forall_forall in Hle. by apply Hle.
Qed.

Lemma sizes_of_expand header hs sizes : sizes_of header hs sizes ->
  sizes = expand (iter_rev (count_by is_short (short_size header) hs)).
Proof.
  intros [Hs Hp]. apply (StronglySorted_unique ge); [done|apply expand_sorted, iter_rev_sorted|].
  rewrite Hp, <- expand_count. apply expand_perm. symmetry. apply iter_rev_perm.
Qed.

(** ** By groups *)

(** The rows of a group. *)
Definition group_rows (sc : Z * Z) : Z :=
  let per := ROW_PAYLOAD / sc.1 in sc.2 / per + if sc.2 mod per =? 0 then 0 else 1.
Definition sum_rows (classes : list (Z * Z)) : Z := foldr (fun sc n => group_rows sc + n) 0 classes.

Definition class_ok (sc : Z * Z) : Prop := 0 < sc.1 <= ROW_PAYLOAD /\ 1 <= sc.2.

Lemma sum_groups_Ok classes : Forall class_ok classes -> sum_groups classes = Ok (sum_rows classes).
Proof.
  induction 1 as [|[size count] classes [[H0 Hs] Hc] _ IH]; [done|]. cbn [sum_groups sum_rows foldr fst snd] in *.
  fold (sum_rows classes). pose proof (Z.div_le_lower_bound ROW_PAYLOAD size 1 H0 ltac:(lia)) as Hper.
  unfold checked_div, div_ceil. rewrite (proj2 (Z.eqb_neq size 0)) by lia. cbn [mbind res_bind].
  rewrite (proj2 (Z.eqb_neq (ROW_PAYLOAD / size) 0)) by lia. cbn [mbind res_bind]. by rewrite IH.
Qed.

Lemma place_grouped_same s n rest st :
  place_grouped (Some s) (replicate n s ++ rest) st = place_grouped (Some s) rest (Nat.iter n (place s) st).
Proof.
  revert st. induction n as [|n IH]; intros [m rows]; [done|]. cbn [replicate app place_grouped fst snd].
  rewrite bool_decide_eq_true_2, IH by done. by rewrite Nat.iter_succ_r.
Qed.

Lemma place_grouped_classes classes last m rows :
  Forall class_ok classes -> NoDup classes.*1 -> Forall (fun sc => last <> Some sc.1) classes ->
  (place_grouped last (expand classes) (m, rows)).2 = rows + sum_rows classes.
Proof.
  intros Hc. revert last m rows. induction Hc as [|[s c] classes [Hs Hn] _ IH]; intros last m rows Hnd Hlast; [cbn; lia|].
  apply Forall_cons in Hlast as [Hl _]. cbn in Hl, Hnd. apply NoDup_cons in Hnd as [Hin Hnd]. rewrite expand_cons. cbn in Hs, Hn.
  destruct (Z.to_nat c) as [|n] eqn:En; [lia|]. cbn [replicate app place_grouped fst snd]. rewrite bool_decide_eq_false_2 by done.
  rewrite place_grouped_same, <- Nat.iter_succ_r, <- En.
  destruct (put_bins_new s c ∅ rows) as (m' & _ & _ & ->); [done|done|done| |].
  { intros k [v Hv]. by rewrite lookup_empty in Hv. }
  rewrite IH; [change (sum_rows ((s, c) :: classes)) with (group_rows (s, c) + sum_rows classes); unfold group_rows; cbn [fst snd]; lia|done|].
  apply Forall_forall. intros [s' c'] Hin' [= ->]. apply Hin. apply list_elem_of_fmap. by exists (s', c').
Qed.

Lemma sum_rows_rev l : sum_rows (rev l) = sum_rows l.
Proof.
  apply foldr_comm_perm; [intros; lia|]. symmetry. apply Permutation_rev.
Qed.

(** ** The prediction *)

Section Prediction.
Context (header : Z) (Hheader : 0 < header < ROW_PAYLOAD).

Lemma count_by_keys (P : Z -> Prop) sel key hs :
  Forall (fun h => sel h = true -> P (key h)) hs -> map_Forall (fun k n => P k /\ 1 <= n) (count_by sel key hs).
Proof.
  intros H k n Hk. split; [|exact (count_by_positive sel key hs k n Hk)]. revert n Hk.
  induction H as [|h hs Hh _ IH]; intros n Hk; [by cbn in Hk; rewrite lookup_empty in Hk|].
  unfold count_by in Hk. cbn [foldr] in Hk. fold (count_by sel key hs) in Hk.
  destruct (sel h); [|by eapply IH]. rewrite lookup_entry_add in Hk. case_decide; [subst; auto|by eapply IH].
Qed.

Lemma short_classes hs : Forall (history_ok header) hs ->
  Forall class_ok (iter_rev (count_by is_short (short_size header) hs)).
Proof using Hheader.
  intros Hhs. apply Forall_forall. intros [k n] Hkn%elem_of_iter_rev.
  apply (count_by_keys (fun k => 0 < k <= ROW_PAYLOAD)) in Hkn; [done|]. eapply Forall_impl; [done|].
  intros h (_ & Ht & _) _. unfold short_size. lia.
Qed.

(** The rows that the two rules need for the histories. *)
Definition mixed_reference hs (sizes : list Z) : Z :=
  (place_all sizes (count_by is_long (tail_space header) hs, sum_by is_long hl_fragments hs)).2.
Definition grouped_reference hs (sizes : list Z) : Z :=
  (place_grouped None sizes (∅, sum_by is_long hl_fragments hs)).2.

Lemma row_counts_reference d hs sizes :
  represents header d hs -> Forall (history_ok header) hs -> sizes_of header hs sizes ->
  calculate_mixed_rows d = Ok (mixed_reference hs sizes) /\ calculate_grouped_rows d = Ok (grouped_reference hs sizes).
Proof using Hheader.
  intros [Hh Hs Ht Hr Hn Hb] Hhs ->%sizes_of_expand. pose proof (short_classes hs Hhs) as Hc. split.
  - rewrite mixed_rows_sparse.
    + unfold calculate_mixed_rows_sparse, mixed_reference. rewrite Hs, Ht, Hr. apply fill_all_place; [apply count_by_positive|].
      eapply Forall_impl; [done|]. intros [k n] [? ?]. cbn in *. lia.
    + split; rewrite ?Hs, ?Ht; eapply map_Forall_impl; try apply (count_by_keys (fun k => 0 <= k)); cbn; try lia;
        (eapply Forall_impl; [done|]; intros h (_ & Htl & _) _; unfold short_size, tail_space; lia).
  - unfold calculate_grouped_rows, grouped_reference. rewrite Hs, Hr, sum_groups_Ok by (by apply Forall_rev).
    cbn [mbind res_bind]. rewrite sum_rows_rev, place_grouped_classes; [done|done|apply iter_rev_NoDup|].
    by apply Forall_forall.
Qed.
End Prediction.

(** The cached counts are those that would be computed. *)
Definition cache_ok d : Prop := forall c, cached_rows d = Some c ->
  calculate_mixed_rows d = Ok c.1 /\ calculate_grouped_rows d = Ok c.2.

Lemma rows_spec d m g : cache_ok d -> calculate_mixed_rows d = Ok m -> calculate_grouped_rows d = Ok g ->
  exists d', use_mixed d = Ok (m <=? g, d') /\ rows d = Ok (Z.min m g, d') /\ cache_ok d' /\
    short d' = short d /\ tails d' = tails d /\ long_rows d' = long_rows d /\ long_scripts d' = long_scripts d /\
    event_bytes d' = event_bytes d /\ entry_header d' = entry_header d.
Proof.
  intros Hc Hm Hg. unfold use_mixed, rows, row_counts. destruct (cached_rows d) as [[m' g']|] eqn:E.
  - destruct (Hc _ E) as [Hm' Hg']. cbn in Hm', Hg'. assert (m' = m) as -> by congruence. assert (g' = g) as -> by congruence.
    exists d. cbn. split_and!; done.
  - rewrite Hm, Hg. cbn [mbind res_bind]. eexists. split_and!; [done|done| |done..]. intros c [= <-]. cbn. done.
Qed.

Lemma represents_rows header d d' hs : represents header d hs ->
  short d' = short d -> tails d' = tails d -> long_rows d' = long_rows d -> long_scripts d' = long_scripts d ->
  event_bytes d' = event_bytes d -> entry_header d' = entry_header d -> represents header d' hs.
Proof. intros [] ? ? ? ? ? ?. split; congruence. Qed.

Lemma place_rows size st : st.2 <= (place size st).2 <= st.2 + 1.
Proof. unfold place. destruct (first_from st.1 size) as [[]|]; cbn; lia. Qed.

Lemma place_all_rows sizes st : st.2 <= (place_all sizes st).2 <= st.2 + blen sizes.
Proof.
  revert st. induction sizes as [|s sizes IH]; intros st; [unfold place_all, blen; cbn; lia|]. unfold place_all. cbn [foldl]. fold (place_all sizes (place s st)).
  specialize (IH (place s st)). pose proof (place_rows s st). unfold blen in *. cbn [length]. lia.
Qed.

Lemma short_scripts_sizes header d hs sizes : represents header d hs -> sizes_of header hs sizes -> short_scripts d = blen sizes.
Proof.
  intros [_ Hs _ _ _ _] Hz. unfold short_scripts. destruct Hz as [_ Hz]. rewrite <- expand_count, <- Hs in Hz.
  unfold blen. rewrite (Permutation_length Hz). pose proof (count_by_positive is_short (short_size header) hs) as Hp.
  rewrite <- Hs in Hp. assert (Forall (fun kn => 1 <= kn.2) (map_to_list (short d))) as HF.
  { apply Forall_forall. intros [k n] Hkn%elem_of_map_to_list. exact (Hp k n Hkn). }
  clear Hz Hp. induction HF as [|[k n] l Hn _ IH]; [done|]. rewrite expand_cons, length_app, length_replicate. cbn in *. lia.
Qed.

(** Shifting histories.  A demand that stands for some histories, after one of them has
    been replaced, stands for the others and the new one: no subtraction underflows, no count
    is missing, and the cached numbers of rows are dropped. *)
Theorem demand_tracks_histories header d hs old new :
  0 < header < ROW_PAYLOAD -> represents header d (old :: hs) -> Forall (history_ok header) (old :: new :: hs) ->
  exists d', shift d old new = Ok d' /\ represents header d' (new :: hs) /\ cached_rows d' = None.
Proof.
  intros Hh Hd Hok. apply Forall_cons in Hok as [Ho Hok]. apply Forall_cons in Hok as [Hn Hok].
  by apply shift_represents.
Qed.

(** C26: Predicted rows.  The number of rows of a demand, counted by multiplicities of sizes,
    is that of packing the entries one at a time in descending order of size: by best fit into
    the spare space of rows, or by groups of equal size if that takes fewer; it terminates
    without a panic, is at most the number of fragments, and is the same when asked again. *)
Theorem predicted_rows_exact header d hs sizes :
  0 < header < ROW_PAYLOAD -> represents header d hs -> Forall (history_ok header) hs -> sizes_of header hs sizes ->
  cache_ok d ->
  let m := mixed_reference header hs sizes in
  let g := grouped_reference hs sizes in
  exists d', use_mixed d = Ok (m <=? g, d') /\ rows d = Ok (Z.min m g, d') /\ represents header d' hs /\ cache_ok d' /\
    Z.min m g <= demand_fragments d.
Proof.
  intros Hh Hd Hok Hz Hc. cbv zeta. destruct (row_counts_reference header Hh d hs sizes Hd Hok Hz) as [Hm Hg].
  destruct (rows_spec d _ _ Hc Hm Hg) as (d' & Hu & Hr & Hc' & E1 & E2 & E3 & E4 & E5 & E6). exists d'.
  split_and!; [done|done|by eapply represents_rows|done|].
  unfold demand_fragments. rewrite (short_scripts_sizes header d hs sizes), (rep_rows _ _ _ Hd) by done.
  unfold mixed_reference. pose proof (place_all_rows sizes (count_by is_long (tail_space header) hs, sum_by is_long hl_fragments hs)) as Hb.
  cbn in Hb. lia.
Qed.
