(* ===== verification/ShardLayout.v ===== *)
(** * Table geometries ([zakura/pir-protocol/src/transparent/shard/layout.rs])

    The registry of table shapes, the checks on a shape, and the segments of a table. *)

From stdpp Require Import sorting.
From S2P Require Import FilterValidate.
From S2P Require Import Prelude ShardEvents ShardEventProofs ShardCompact ShardRecords.
From S2P Require Import ShardPageRow ShardPacking ShardDemand ShardBestFit ShardFreeSpace.

Definition POLY_LEN : Z := 2048.
Definition INSTANCE_BYTES : Z := 4096.

Record Geometry : Type := MkGeometry {
  g_name : string; directory_rows : Z; directory_row_bytes : Z; page_rows : Z; page_row_bytes : Z; inline_events : Z }.

Definition DECOUPLED_2K_8K : Geometry := MkGeometry "decoupled-2k-8k" 2048 INSTANCE_BYTES 8192 INSTANCE_BYTES 2.
Definition DECOUPLED_32K_32K : Geometry :=
  MkGeometry "decoupled-32k-32k" 32768 (directory_row_bytes DECOUPLED_2K_8K) 32768 (page_row_bytes DECOUPLED_2K_8K)
    (inline_events DECOUPLED_2K_8K).
Definition PROFILES : list Geometry := [DECOUPLED_2K_8K; DECOUPLED_32K_32K].

(** [by_name] *)
Definition by_name (name : string) : option Geometry := List.find (fun g => String.eqb (g_name g) name) PROFILES.

(** [directory_entry_bytes], [directory_slots], [directory_capacity], [directory_row_slack] *)
Definition geometry_entry_bytes (g : Geometry) : Z := DIRECTORY_ENTRY_HEADER_BYTES + inline_events g * SPEND_BYTES.
Definition smallest_entry (g : Geometry) : Z :=
  DIRECTORY_ENTRY_HEADER_BYTES + if inline_events g =? 0 then 0 else RECEIVE_BYTES.
Definition geometry_slots (g : Geometry) : exec Z :=
  room ← checked_minus (directory_row_bytes g) DIRECTORY_ROW_HEADER_BYTES;
  checked_div room (smallest_entry g).
Definition directory_capacity (g : Geometry) : exec Z :=
  slots ← geometry_slots g;
  Ok (directory_rows g * slots).
Definition directory_row_slack (g : Geometry) : exec Z :=
  room ← checked_minus (directory_row_bytes g) DIRECTORY_ROW_HEADER_BYTES;
  slots ← geometry_slots g;
  checked_minus room (slots * smallest_entry g).
Definition directory_bytes_per_segment (g : Geometry) : Z := directory_rows g * directory_row_bytes g.
Definition page_bytes_per_segment (g : Geometry) : Z := page_rows g * page_row_bytes g.

(** [Geometry::validate] and [validate_publishable]; messages without the numbers *)
Definition too_small (n quantum : Z) : bool := (n <? quantum) || negb (n mod quantum =? 0).
Definition geometry_validate (g : Geometry) : run string unit :=
  if too_small (directory_rows g) POLY_LEN then Err (Failed "directory rows"%string) else
  if too_small (page_rows g) POLY_LEN then Err (Failed "page rows"%string) else
  if too_small (directory_row_bytes g) INSTANCE_BYTES then Err (Failed "directory row bytes"%string) else
  if too_small (page_row_bytes g) INSTANCE_BYTES then Err (Failed "page row bytes"%string) else
  slots ← panics (geometry_slots g);
  room ← panics (checked_minus (directory_row_bytes g) DIRECTORY_ROW_HEADER_BYTES);
  if (slots =? 0) || (room <? geometry_entry_bytes g) then Err (Failed "an entry does not fit a row"%string) else Ok ().
Definition validate_publishable (g : Geometry) : run string unit :=
  _ ← geometry_validate g;
  if negb (directory_row_bytes g =? DIRECTORY_ROW_BYTES) then Err (Failed "encodes 4096-byte rows"%string) else
  if negb (page_row_bytes g =? PAGE_ROW_BYTES) then Err (Failed "encodes 4096-byte rows"%string) else
  if negb (inline_events g =? INLINE_EVENTS) then Err (Failed "encodes 2 inline events"%string) else Ok ().

(** [segments_for] and [split_row]; [as u32] keeps the low bits, [div_ceil] panics for zero *)
Definition segments_for (rows per_segment : Z) : exec Z :=
  needed ← div_ceil rows per_segment;
  Ok (if needed =? 0 then 1 else needed mod u32_limit).
Definition split_row (row per_segment : Z) : exec (Z * Z) :=
  segment ← checked_div row per_segment;
  Ok (segment mod u32_limit, row mod per_segment).

(** The checks of a shape do not panic, and a shape that passes them holds the codec's rows. *)
Lemma geometry_validate_total g : 0 <= inline_events g -> errs_only (fun _ => True) (geometry_validate g).
Proof.
  intros Hi. unfold geometry_validate, too_small, geometry_slots. repeat (case_match; [done|]).
  destruct (Z.ltb_spec (directory_row_bytes g) INSTANCE_BYTES) as [|Hb]; [done|].
  change DIRECTORY_ROW_HEADER_BYTES with 4 in *. unfold INSTANCE_BYTES in Hb. rewrite !checked_minus_Ok by lia. cbn [mbind res_bind].
  unfold checked_div, smallest_entry. change DIRECTORY_ENTRY_HEADER_BYTES with 19. unfold RECEIVE_BYTES.
  rewrite (proj2 (Z.eqb_neq _ 0)) by (case_match; lia). cbn [panics mbind res_bind]. by case_match.
Qed.

Lemma profiles_publishable : Forall (fun g => validate_publishable g = Ok () /\ by_name (g_name g) = Some g) PROFILES.
Proof. repeat constructor. Qed.

Lemma segment_fields row per : 0 < per -> 0 <= row < per * u32_limit ->
  split_row row per = Ok (row / per, row mod per) /\ row = row / per * per + row mod per /\ 0 <= row mod per < per.
Proof.
  intros Hp Hr. pose proof (Z.div_mod row per ltac:(lia)). pose proof (Z.mod_pos_bound row per Hp).
  assert (0 <= row / per < u32_limit) as Hs by (split; [apply Z.div_pos; lia|apply Z.div_lt_upper_bound; lia]).
  unfold split_row, checked_div. rewrite (proj2 (Z.eqb_neq per 0)) by lia. cbn [mbind res_bind].
  rewrite (Z.mod_small (row / per)) by done. split_and!; [done|lia..].
Qed.

Lemma segments_cover rows per :
  0 < per -> 0 <= rows < per * (u32_limit - 1) ->
  exists n, segments_for rows per = Ok n /\ 1 <= n /\ rows <= n * per /\ (rows = 0 \/ (n - 1) * per < rows) /\
    forall row, 0 <= row < rows -> exists segment within, split_row row per = Ok (segment, within) /\
      0 <= segment < n /\ 0 <= within < per /\ row = segment * per + within.
Proof.
  intros Hp Hr. unfold segments_for, div_ceil. rewrite (proj2 (Z.eqb_neq per 0)) by lia. cbn [mbind res_bind].
  pose proof (Z.div_mod rows per ltac:(lia)) as Hdm. pose proof (Z.mod_pos_bound rows per Hp) as Hm.
  pose proof (Z.div_pos rows per ltac:(lia) Hp) as Hd.
  assert (rows / per < u32_limit - 1) as Hlt by (apply Z.div_lt_upper_bound; lia).
  set (n := rows / per + if rows mod per =? 0 then 0 else 1).
  assert (rows <= n * per /\ (rows = 0 \/ (n - 1) * per < rows) /\ 0 <= n < u32_limit) as (H1 & H2 & H3).
  { unfold n. destruct (Z.eqb_spec (rows mod per) 0); split_and!; nia. }
  exists (if n =? 0 then 1 else n mod u32_limit). split; [done|].
  assert ((if n =? 0 then 1 else n mod u32_limit) = Z.max 1 n) as ->.
  { destruct (Z.eqb_spec n 0) as [->|]; [done|]. rewrite Z.mod_small by done. lia. }
  split_and!; [lia|nia|destruct (Z.eq_dec rows 0); [by left|right; destruct H2; nia]|].
  intros row Hrow. destruct (segment_fields row per Hp) as (E & Hsum & Hw); [unfold u32_limit in *; nia|].
  exists (row / per), (row mod per). split_and!; [done|apply Z.div_pos; lia|apply Z.div_lt_upper_bound; [lia|nia]|lia|lia|done].
Qed.

(** Segments of a table.  As long as the number of segments fits its type, the segments of
    a table hold all of its rows and none is superfluous: each row lies in one of the
    [segments_for] segments at the place that [split_row] names, places are distinct, and a
    table has at least one segment. *)
Theorem segments_hold_rows rows per :
  0 < per -> 0 <= rows < per * (u32_limit - 1) ->
  exists n, segments_for rows per = Ok n /\ 1 <= n /\ rows <= n * per /\ (rows = 0 \/ (n - 1) * per < rows) /\
    forall row, 0 <= row < rows -> exists segment within, split_row row per = Ok (segment, within) /\
      0 <= segment < n /\ 0 <= within < per /\ row = segment * per + within.
Proof. apply segments_cover. Qed.

(** * The rows of a page shard ([zakura/pir-publisher/src/transparent/build.rs], [lay_out_runs])

    Long runs take rows of their own, runs of one fragment share rows by the rule that
    [PackedDemand] counts.  A map by script is the list of its entries in the order of the
    scripts. *)

Abbreviation script := (list byte).

(** The errors of the sealer do not occur in what is modelled here; a script is kept as its
    bytes, not in hexadecimal. *)
Inductive BuildError : Type :=
| BuildRecord (e : RecordError)
| BuildFilter (e : FilterError)
| DirectoryFull (s : script)
| Invalid (what : string).

Record LaidOut : Type := MkLaidOut {
  laid_rows : list (list PageEntry); first_rows : gmap script Z; laid_fragments : Z }.

(** The order of scripts, and that of [short.sort_by]. *)
Fixpoint script_leb (a b : script) : bool :=
  match a, b with
  | [], _ => true
  | _ :: _, [] => false
  | x :: a, y :: b =>
      (byte.unsigned x <? byte.unsigned y) || ((byte.unsigned x =? byte.unsigned y) && script_leb a b)
  end.
Definition short_before (a b : script * PageEntry) : Prop :=
  (page_entry_len b.2 <? page_entry_len a.2)
  || ((page_entry_len b.2 =? page_entry_len a.2) && script_leb a.1 b.1) = true.
#[global] Instance short_before_dec : RelDecision short_before.
Proof. intros a b. unfold short_before. apply bool_eq_dec. Defined.

Definition lift_record {A} (r : run RecordError A) : run BuildError A :=
  match r with
  | Ok a => Ok a
  | Err (Failed e) => Err (Failed (BuildRecord e))
  | Err (Panicked p) => Err (Panicked p)
  end.

(** The first loop: the summary of each run, and the demand *)
Fixpoint summarize (runs : list (script * list TransparentEvent)) (demand : PackedDemand)
    (summaries : gmap script HistoryLayout) : exec (PackedDemand * gmap script HistoryLayout) :=
  match runs with
  | [] => Ok (demand, summaries)
  | (s, r) :: runs =>
      summary ← push_all history_default r 0;
      demand ← shift demand history_default summary;
      summarize runs demand (<[s := summary]> summaries)
  end.

(** [locator] *)
Definition locator (row : Z) : run BuildError Z :=
  if row + 1 <? u32_limit then Ok (row + 1) else Err (Failed (Invalid "page locator overflow")).

(** The state of the second and third loop *)
Record LayState : Type := MkLayState {
  st_rows : list (list PageEntry); st_first : gmap script Z; st_free : gmap Z (gset Z) }.

(** [free.entry(space).or_default().insert(row)] *)
Definition free_insert (free : gmap Z (gset Z)) (space row : Z) : gmap Z (gset Z) :=
  <[space := {[row]} ∪ default ∅ (free !! space)]> free.

(** The fragments of a long run from [ordinal] on, each in a row of its own *)
Fixpoint long_entries (tag : list byte) (l : RunLink) (count ordinal : Z) (fs : list (list TransparentEvent))
    : run BuildError (list (list PageEntry)) :=
  match fs with
  | [] => Ok []
  | events :: fs =>
      entry ← lift_record (page_entry_new tag ordinal count events);
      entry ← (if ordinal =? 0 then lift_record (with_link entry l) else Ok entry);
      rest ← long_entries tag l count (ordinal + 1) fs;
      Ok ([entry] :: rest)
  end.

(** The second loop: long runs take their rows, the others are collected *)
Definition lay_run (mixed : bool) (summaries : gmap script HistoryLayout) (tag_of : script -> list byte)
    (link_of : script -> RunLink) (s : script) (r : list TransparentEvent) (st : LayState * list (script * PageEntry))
    : run BuildError (LayState * list (script * PageEntry)) :=
  let (st, short) := st : LayState * list (script * PageEntry) in
  let fs := fragments r in
  summary ← panics (expect (summaries !! s));
  let count := hl_fragments summary in
  let l := link_of s in
  if blen fs =? 1 then
    entry ← lift_record (page_entry_new (tag_of s) 0 1 r);
    entry ← lift_record (with_link entry l);
    Ok (st, short ++ [(s, entry)])
  else
    first ← locator (blen (st_rows st));
    new ← long_entries (tag_of s) l count 0 fs;
    let rows := st_rows st ++ new in
    free ← (if mixed then
              row ← panics (checked_minus (blen rows) 1);
              last_row ← panics (expect (rows !! Z.to_nat row));
              entry ← panics (expect (head last_row));
              space ← panics (checked_minus ROW_PAYLOAD (page_entry_len entry));
              Ok (free_insert (st_free st) space row)
            else Ok (st_free st));
    Ok (MkLayState rows (<[s := first]> (st_first st)) free, short).

Fixpoint lay_runs (mixed : bool) (summaries : gmap script HistoryLayout) (tag_of : script -> list byte)
    (link_of : script -> RunLink) (runs : list (script * list TransparentEvent))
    (st : LayState * list (script * PageEntry)) : run BuildError (LayState * list (script * PageEntry)) :=
  match runs with
  | [] => Ok st
  | (s, r) :: runs =>
      st ← lay_run mixed summaries tag_of link_of s r st;
      lay_runs mixed summaries tag_of link_of runs st
  end.

(** [indices.first()] *)
Definition first_index (s : gset Z) : option Z :=
  match merge_sort Z.le (elements s) with [] => None | i :: _ => Some i end.

(** The third loop: one short run *)
Definition place_entry (st : LayState) (s : script) (entry : PageEntry) : run BuildError LayState :=
  let size := page_entry_len entry in
  srf ← match first_from (st_free st) size with
        | Some (space, indices) =>
            row ← panics (expect (first_index indices));
            let indices := indices ∖ {[row]} in
            Ok (space, row,
                MkLayState (st_rows st) (st_first st)
                  (if bool_decide (indices = ∅) then delete space (st_free st)
                   else <[space := indices]> (st_free st)))
        | None => Ok (ROW_PAYLOAD, blen (st_rows st), MkLayState (st_rows st ++ [[]]) (st_first st) (st_free st))
        end;
  let '(space, row, st) := srf : Z * Z * LayState in
  first ← locator row;
  old ← panics (expect (st_rows st !! Z.to_nat row));
  left ← panics (checked_minus space size);
  Ok (MkLayState (<[Z.to_nat row := old ++ [entry]]> (st_rows st)) (<[s := first]> (st_first st))
        (free_insert (st_free st) left row)).

Fixpoint place_short (mixed : bool) (last_size : option Z) (short : list (script * PageEntry)) (st : LayState)
    : run BuildError LayState :=
  match short with
  | [] => Ok st
  | (s, entry) :: short =>
      let size := page_entry_len entry in
      let st := if negb mixed && negb (bool_decide (last_size = Some size))
                then MkLayState (st_rows st) (st_first st) ∅ else st in
      st ← place_entry st s entry;
      place_short mixed (Some size) short st
  end.

(** [lay_out_runs] *)
Definition lay_out_runs (runs : list (script * list TransparentEvent)) (tag_of : script -> list byte)
    (link_of : script -> RunLink) : run BuildError LaidOut :=
  demand ← panics demand_default;
  ds ← panics (summarize runs demand ∅);
  let (demand, summaries) := ds : PackedDemand * gmap script HistoryLayout in
  md ← panics (use_mixed demand);
  let (mixed, demand) := md : bool * PackedDemand in
  sst ← lay_runs mixed summaries tag_of link_of runs (MkLayState [] ∅ ∅, []);
  let (st, short) := sst : LayState * list (script * PageEntry) in
  st ← place_short mixed None (merge_sort short_before short) st;
  rd ← panics (rows demand);
  let (predicted, demand) := rd : Z * PackedDemand in
  if negb (blen (st_rows st) =? predicted) then Err (Failed (Invalid "emitted rows differ from those predicted"))
  else Ok (MkLaidOut (st_rows st) (st_first st) (demand_fragments demand)).
