(* ===== verification/ShardLayoutProofs.v ===== *)
(** * The rows of a page shard hold its runs

    [lay_out_runs] emits the number of rows that was predicted, so its own check never fails;
    every fragment lies where a reader looks for it, and every row can be encoded. *)

From stdpp Require Import sorting.
From S2P Require Import Prelude ShardEvents ShardEventProofs ShardCompact ShardRecords ShardPageRow.
From S2P Require Import ShardPacking ShardDemand ShardBestFit ShardFreeSpace ShardPrediction ShardLayout.

(** ** Sets of rows and their numbers *)

Definition counts (free : gmap Z (gset Z)) : gmap Z Z := (fun s => Z.of_nat (size s)) <$> free.

Lemma lookup_counts free k : counts free !! k = (fun s => Z.of_nat (size s)) <$> free !! k.
Proof. apply lookup_fmap. Qed.

Lemma first_from_counts free from :
  first_from (counts free) from = (fun kv => (kv.1, Z.of_nat (size kv.2))) <$> first_from free from.
Proof.
  pose proof (first_from_spec free from) as H.
  assert (forall k, is_Some (counts free !! k) <-> is_Some (free !! k)) as Hs.
  { intros k. by rewrite lookup_counts, fmap_is_Some. }
  destruct (first_from free from) as [[k s]|]; cbn.
  - destruct H as (Hk & Hf & Hmin). apply first_from_Some; [by rewrite lookup_counts, Hk|done|]. intros k' Hk'. apply Hmin. by apply Hs.
  - apply first_from_None. intros k Hk. by apply H, Hs.
Qed.

Lemma first_index_spec (s : gset Z) : s <> ∅ -> exists i, first_index s = Some i /\ i ∈ s.
Proof.
  intros Hs. unfold first_index. pose proof (merge_sort_Permutation Z.le (elements s)) as Hp.
  destruct (merge_sort Z.le (elements s)) as [|i l] eqn:E.
  - apply Permutation_nil_l in Hp. symmetry in Hp. apply elements_empty_inv in Hp. by apply leibniz_equiv in Hp.
  - exists i. split; [done|]. apply elem_of_elements. rewrite <- Hp. by left.
Qed.

Lemma counts_remove free k s i : free !! k = Some s -> i ∈ s ->
  counts (if bool_decide (s ∖ {[i]} = ∅) then delete k free else <[k := s ∖ {[i]}]> free) = remove_one (counts free) k.
Proof.
  intros Hk Hi. unfold remove_one. rewrite lookup_counts, Hk. cbn [fmap option_fmap option_map].
  assert (size s = S (size (s ∖ {[i]}))) as Hsz.
  { rewrite size_difference by set_solver. rewrite size_singleton. assert (size s <> 0)%nat; [|lia].
    intros H0. apply size_empty_inv in H0. set_solver. }
  destruct (bool_decide_reflect (s ∖ {[i]} = ∅)) as [He|He].
  - rewrite He, size_empty in Hsz. rewrite Hsz. cbn. unfold counts. by rewrite fmap_delete.
  - assert (size (s ∖ {[i]}) <> 0)%nat by (intros H0; apply He, leibniz_equiv; by apply size_empty_iff).
    rewrite (proj2 (Z.eqb_neq _ _)) by lia. unfold counts. rewrite fmap_insert. f_equal. lia.
Qed.

Lemma counts_insert free k i : i ∉ default ∅ (free !! k) -> counts (free_insert free k i) = entry_add (counts free) k 1.
Proof.
  intros Hi. unfold counts, free_insert, entry_add. rewrite fmap_insert, lookup_fmap. f_equal.
  rewrite size_union by set_solver. rewrite size_singleton. destruct (free !! k) as [s|]; cbn; [lia|]. by rewrite size_empty.
Qed.

(** ** The invariant of the loops *)

Definition row_space (row : list PageEntry) : Z := ROW_PAYLOAD - entries_len row.

Lemma entries_len_app l k : entries_len (l ++ k) = entries_len l + entries_len k.
Proof. induction l as [|e l IH]; cbn; [done|]. fold (entries_len (l ++ k)) (entries_len l). lia. Qed.

Lemma entries_len_one e : entries_len [e] = page_entry_len e.
Proof. unfold entries_len. cbn. lia. Qed.

(** Rows only gain rows and entries. *)
Definition rows_grow (rows rows' : list (list PageEntry)) : Prop :=
  forall i row, rows !! i = Some row -> exists row', rows' !! i = Some row' /\ row ⊆ row'.

Lemma rows_grow_app rows new : rows_grow rows (rows ++ new).
Proof. intros i row Hi. exists row. split; [by apply lookup_app_l_Some|done]. Qed.

Lemma rows_grow_push rows i row e : rows !! i = Some row -> rows_grow rows (<[i := row ++ [e]]> rows).
Proof.
  intros Hi j row' Hj. destruct (decide (j = i)) as [->|Hn].
  - exists (row ++ [e]). rewrite list_lookup_insert_eq by (by eapply lookup_lt_Some). split; [done|].
    assert (row' = row) as -> by congruence. set_solver.
  - exists row'. by rewrite list_lookup_insert_ne.
Qed.

Lemma rows_grow_trans a b c : rows_grow a b -> rows_grow b c -> rows_grow a c.
Proof.
  intros Hab Hbc i row Hi. destruct (Hab i row Hi) as (row' & Hi' & Hs). destruct (Hbc i row' Hi') as (row'' & Hi'' & Hs').
  exists row''. split; [done|]. set_solver.
Qed.

Section Layout.
Context (runs : list (script * list TransparentEvent)) (tag_of : script -> list byte) (link_of : script -> RunLink).

(** The entry of a fragment of a run. *)
Record frag_entry (s : script) (r : list TransparentEvent) (i : nat) (f : list TransparentEvent) (e : PageEntry) : Prop := {
  fe_tag : pe_tag e = tag_of s;
  fe_ordinal : ordinal e = Z.of_nat i;
  fe_count : fragment_count e = blen (fragments r);
  fe_events : pe_events e = f;
  fe_link : link e = if decide (i = 0%nat) then link_of s else no_link;
  fe_min : heights_min f = Some (min_height e);
  fe_max : heights_max f = Some (max_height e) }.

(** The fragments of a run are found from its first row on. *)
Definition located (rows : list (list PageEntry)) (first : gmap script Z) (s : script) (r : list TransparentEvent) : Prop :=
  exists p, first !! s = Some (Z.of_nat p + 1) /\
    forall i f, fragments r !! i = Some f -> exists row e, rows !! (p + i)%nat = Some row /\ e ∈ row /\ frag_entry s r i f e.

Definition entry_of_run (done : list script) (e : PageEntry) : Prop :=
  exists s r i f, (s, r) ∈ runs /\ s ∈ done /\ fragments r !! i = Some f /\ frag_entry s r i f e.

Record rows_ok (done : list script) (rows : list (list PageEntry)) : Prop := {
  ro_fits : Forall (fun row => entries_len row <= ROW_PAYLOAD) rows;
  ro_entries : Forall (Forall (entry_of_run done)) rows;
  ro_tags : Forall (fun row => NoDup (map pe_tag row)) rows }.

Definition free_ok (rows : list (list PageEntry)) (free : gmap Z (gset Z)) : Prop :=
  forall space s, free !! space = Some s -> s <> ∅ /\
    forall i, i ∈ s -> 0 <= i /\ exists row, rows !! Z.to_nat i = Some row /\ row_space row = space.

Record lay_inv (done : list script) (st : LayState) : Prop := {
  li_rows : rows_ok done (st_rows st);
  li_located : forall s r, (s, r) ∈ runs -> s ∈ done -> located (st_rows st) (st_first st) s r;
  li_free : free_ok (st_rows st) (st_free st) }.

Lemma located_grow rows rows' first first' s r :
  located rows first s r -> rows_grow rows rows' -> first' !! s = first !! s -> located rows' first' s r.
Proof.
  intros (p & Hp & Hl) Hg Hf. exists p. split; [by rewrite Hf|]. intros i f Hi. destruct (Hl i f Hi) as (row & e & Hr & He & Hfe).
  destruct (Hg _ _ Hr) as (row' & Hr' & Hs). exists row', e. split_and!; [done|by apply Hs|done].
Qed.

Lemma entry_of_run_mono done done' e : done ⊆ done' -> entry_of_run done e -> entry_of_run done' e.
Proof. intros Hs (s & r & i & f & Hin & Hd & Hf & He). exists s, r, i, f. split_and!; auto. Qed.

Lemma rows_ok_mono done done' rows : done ⊆ done' -> rows_ok done rows -> rows_ok done' rows.
Proof.
  intros Hs [Hf He Ht]. split; [done| |done]. eapply Forall_impl; [exact He|]. intros row Hrow. eapply Forall_impl; [exact Hrow|].
  intros e. by apply entry_of_run_mono.
Qed.

Context (Htags : forall s s', s ∈ runs.*1 -> s' ∈ runs.*1 -> tag_of s = tag_of s' -> s = s').

(** A script that was not placed yet has no entry in a row. *)
Lemma fresh_tag done row s : s ∈ runs.*1 -> s ∉ done -> Forall (entry_of_run done) row -> tag_of s ∉ map pe_tag row.
Proof using Htags.
  intros Hs Hd Hrow (e & Ht & He)%list_elem_of_fmap_1. rewrite Forall_forall in Hrow.
  destruct (Hrow e He) as (s' & r & i & f & Hin & Hd' & _ & Hfe). rewrite (fe_tag _ _ _ _ _ Hfe) in Ht.
  apply Htags in Ht; [congruence|done|]. apply list_elem_of_fmap. by exists (s', r).
Qed.

(** One more entry in a row that has room for it. *)
Lemma rows_ok_push done rows i row s e :
  rows_ok done rows -> rows !! i = Some row -> s ∈ runs.*1 -> s ∉ done -> entry_of_run [s] e -> pe_tag e = tag_of s ->
  page_entry_len e <= row_space row -> rows_ok (s :: done) (<[i := row ++ [e]]> rows).
Proof using Htags.
  intros [Hf He Ht] Hi Hs Hd Hent Htag Hroom.
  assert (entries_len row <= ROW_PAYLOAD) as Hrow by (by eapply Forall_lookup in Hf).
  assert (Forall (entry_of_run done) row) as Hre by (by eapply Forall_lookup in He).
  assert (NoDup (map pe_tag row)) as Hrt by (by eapply Forall_lookup in Ht). split.
  - apply Forall_insert; [done|]. rewrite entries_len_app, entries_len_one. unfold row_space in Hroom. lia.
  - apply Forall_insert.
    + eapply Forall_impl; [exact He|]. intros x Hx. eapply Forall_impl; [exact Hx|]. intros y. apply entry_of_run_mono. set_solver.
    + apply Forall_app. split; [eapply Forall_impl; [exact Hre|]; intros y; apply entry_of_run_mono; set_solver|].
      constructor; [|done]. eapply entry_of_run_mono; [|done]. set_solver.
  - apply Forall_insert; [done|]. rewrite map_app. apply NoDup_app. split_and!; [done| |by apply NoDup_singleton].
    intros t Hin [= ->]%list_elem_of_singleton. rewrite Htag in Hin. by eapply fresh_tag.
Qed.

Context (Hnodup : NoDup runs.*1).

Lemma run_unique s r r' : (s, r) ∈ runs -> (s, r') ∈ runs -> r = r'.
Proof using Hnodup.
  intros [i Hi]%list_elem_of_lookup [j Hj]%list_elem_of_lookup. assert (i = j) as ->; [|congruence].
  apply (NoDup_lookup runs.*1 i j s Hnodup); by rewrite list_lookup_fmap, ?Hi, ?Hj.
Qed.

Lemma lay_inv_push done rows first free row old s r f e :
  lay_inv done (MkLayState rows first free) -> rows !! row = Some old ->
  (forall space x, free !! space = Some x -> Z.of_nat row ∉ x) ->
  (s, r) ∈ runs -> s ∉ done -> fragments r = [f] -> frag_entry s r 0 f e -> page_entry_len e <= row_space old ->
  lay_inv (s :: done) (MkLayState (<[row := old ++ [e]]> rows) (<[s := Z.of_nat row + 1]> first)
    (free_insert free (row_space old - page_entry_len e) (Z.of_nat row))).
Proof using Htags Hnodup.
  intros [Hok Hloc Hfree] Hrow Hnew Hin Hd Hfr Hfe Hroom. cbn [st_rows st_first st_free] in *.
  assert (s ∈ runs.*1) as Hs by (apply list_elem_of_fmap; by exists (s, r)).
  pose proof (lookup_lt_Some _ _ _ Hrow) as Hlt. split; cbn [st_rows st_first st_free].
  - apply rows_ok_push; try done; [|by apply Hfe]. exists s, r, 0%nat, f. split_and!; [done|set_solver|by rewrite Hfr|done].
  - intros s' r' Hin' [->|Hs']%elem_of_cons.
    + exists row. rewrite lookup_insert_eq. split; [done|].
      assert (r' = r) as -> by (by eapply run_unique).
      rewrite Hfr. intros [|i] f' Hi; [|done]. injection Hi as <-. exists (old ++ [e]), e.
      rewrite Nat.add_0_r, list_lookup_insert_eq by done. split_and!; [done|set_solver|done].
    + eapply located_grow; [by apply Hloc|by apply rows_grow_push|]. rewrite lookup_insert_ne; [done|]. intros ->. done.
  - intros space x. unfold free_insert. destruct (decide (space = row_space old - page_entry_len e)) as [->|Hne].
    + rewrite lookup_insert_eq. intros [= <-]. split; [set_solver|]. intros i [->%elem_of_singleton|Hi]%elem_of_union.
      * split; [lia|]. exists (old ++ [e]). rewrite Nat2Z.id, list_lookup_insert_eq by done. split; [done|].
        unfold row_space. rewrite entries_len_app, entries_len_one. lia.
      * destruct (free !! _) as [x|] eqn:E; cbn in Hi; [|set_solver]. destruct (Hfree _ _ E) as [_ Hx].
        destruct (Hx i Hi) as (H0 & row' & Hr' & Hsp). split; [done|]. exists row'. rewrite list_lookup_insert_ne; [done|].
        intros ->. apply (Hnew _ _ E). by rewrite Z2Nat.id.
    + rewrite lookup_insert_ne by done. intros E. destruct (Hfree _ _ E) as [Hn Hx]. split; [done|]. intros i Hi.
      destruct (Hx i Hi) as (H0 & row' & Hr' & Hsp). split; [done|]. exists row'. rewrite list_lookup_insert_ne; [done|].
      intros ->. apply (Hnew _ _ E). by rewrite Z2Nat.id.
Qed.

(** The row that is taken is in no set any more. *)
Lemma free_remove rows free space x i :
  free_ok rows free -> free !! space = Some x -> i ∈ x ->
  let free' := if bool_decide (x ∖ {[i]} = ∅) then delete space free else <[space := x ∖ {[i]}]> free in
  free_ok rows free' /\ forall sp y, free' !! sp = Some y -> i ∉ y.
Proof.
  intros Hfree Hx Hi free'. destruct (Hfree _ _ Hx) as [_ Hidx]. destruct (Hidx i Hi) as (_ & old & Hold & Hsp).
  assert (forall sp y, free' !! sp = Some y -> y <> ∅ /\ (i ∉ y) /\ exists z, free !! sp = Some z /\ y ⊆ z) as Hf1.
  { assert (forall sp y, sp <> space -> free !! sp = Some y -> y <> ∅ /\ (i ∉ y)) as Hother.
    { intros sp y Hn Hy. destruct (Hfree _ _ Hy) as [Hy0 Hyi]. split; [done|]. intros Hiy.
      destruct (Hyi i Hiy) as (_ & row' & Hr' & Hs'). congruence. }
    intros sp y. unfold free'. destruct (bool_decide_reflect (x ∖ {[i]} = ∅)) as [He|He]; intros Hy.
    - apply lookup_delete_Some in Hy as [Hn Hy]. destruct (Hother sp y) as [? ?]; [done|done|]. split_and!; [done|done|eauto].
    - destruct (decide (sp = space)) as [->|Hn]; [rewrite lookup_insert_eq in Hy|rewrite lookup_insert_ne in Hy by done].
      + injection Hy as <-. split_and!; [done|set_solver|]. exists x. split; [done|set_solver].
      + destruct (Hother sp y) as [? ?]; [done|done|]. split_and!; [done|done|eauto]. }
  split; [|intros sp y Hy; by apply (Hf1 sp y Hy)]. intros sp y Hy. destruct (Hf1 sp y Hy) as (Hy0 & _ & z & Hz & Hyz).
  split; [done|]. intros j Hj. apply (Hfree _ _ Hz). set_solver.
Qed.

Lemma rows_ok_new done rows : rows_ok done rows -> rows_ok done (rows ++ [[]]).
Proof. intros [Hf He Ht]. split; apply Forall_app; (split; [done|]); repeat constructor. done. Qed.

Lemma free_ok_app rows new free : free_ok rows free -> free_ok (rows ++ new) free.
Proof.
  intros H sp x Hx. destruct (H sp x Hx) as [Hn Hi]. split; [done|]. intros i Hix. destruct (Hi i Hix) as (H0 & row & Hr & Hs).
  split; [done|]. exists row. split; [by apply lookup_app_l_Some|done].
Qed.

Lemma free_ok_bound rows free sp x i : free_ok rows free -> free !! sp = Some x -> i ∈ x -> 0 <= i < blen rows.
Proof.
  intros H Hx Hi. destruct (H sp x Hx) as [_ Hb]. destruct (Hb i Hi) as (H0 & row & Hr & _). apply lookup_lt_Some in Hr.
  unfold blen. lia.
Qed.

(** Where an entry goes, with the state in which its row is no longer free. *)
Lemma choose_row done s r f e first0 rows free row old :
  (s, r) ∈ runs -> s ∉ done -> fragments r = [f] -> frag_entry s r 0 f e ->
  rows !! row = Some old -> Z.of_nat row < u32_limit - 1 -> lay_inv done (MkLayState rows first0 free) ->
  (forall sp y, free !! sp = Some y -> Z.of_nat row ∉ y) -> page_entry_len e <= row_space old ->
  exists st', (first ← locator (Z.of_nat row);
    old ← panics (expect (rows !! Z.to_nat (Z.of_nat row)));
    left ← panics (checked_minus (row_space old) (page_entry_len e));
    Ok (MkLayState (<[Z.to_nat (Z.of_nat row) := old ++ [e]]> rows) (<[s := first]> first0)
        (free_insert free left (Z.of_nat row)))) = Ok st' /\ lay_inv (s :: done) st' /\
    (counts (st_free st'), blen (st_rows st')) =
    (entry_add (counts free) (row_space old - page_entry_len e) 1, blen rows).
Proof using Htags Hnodup.
  intros Hin Hd Hfr Hfe Hrow Hbound Hinv' Hnew Hroom.
  unfold locator. rewrite (proj2 (Z.ltb_lt _ _)) by lia. cbn [mbind res_bind]. rewrite Nat2Z.id, Hrow.
  cbn [expect panics mbind res_bind]. rewrite checked_minus_Ok by lia. cbn [panics mbind res_bind]. eexists.
  split; [done|]. split; [by eapply lay_inv_push|]. cbn [st_rows st_free]. unfold blen. rewrite length_insert. f_equal.
  apply counts_insert. destruct (free !! _) as [y|] eqn:E; cbn; [by eapply Hnew|set_solver].
Qed.

(** The third loop places one entry as the reference does. *)
Lemma place_entry_spec done st s r f e :
  lay_inv done st -> (s, r) ∈ runs -> s ∉ done -> fragments r = [f] -> frag_entry s r 0 f e ->
  0 < page_entry_len e <= ROW_PAYLOAD -> blen (st_rows st) + 1 < u32_limit ->
  exists st', place_entry st s e = Ok st' /\ lay_inv (s :: done) st' /\
    (counts (st_free st'), blen (st_rows st')) = place (page_entry_len e) (counts (st_free st), blen (st_rows st)).
Proof using Htags Hnodup.
  intros Hinv Hin Hd Hfr Hfe Hsz Hlim. destruct st as [rows first free].
  pose proof (fun rows' free' row old => choose_row done s r f e first rows' free' row old Hin Hd Hfr Hfe) as Hchoose. destruct Hinv as [Hok Hloc Hfree].
  cbn [st_rows st_first st_free] in *. unfold place_entry, place. cbn [st_rows st_first st_free fst snd].
  rewrite first_from_counts. pose proof (first_from_spec free (page_entry_len e)) as Hff.
  destruct (first_from free (page_entry_len e)) as [[space x]|]; cbn [fmap option_fmap option_map].
  - destruct Hff as (Hx & Hle & _). destruct (Hfree _ _ Hx) as [Hne Hidx]. destruct (first_index_spec x Hne) as (i & -> & Hi).
    destruct (Hidx i Hi) as (H0 & old & Hold & Hsp). destruct (free_remove rows free space x i Hfree Hx Hi) as [Hf' Hi'].
    pose proof (free_ok_bound _ _ _ _ _ Hfree Hx Hi) as Hb. pose proof (counts_remove free space x i Hx Hi) as Hc.
    cbn [expect panics mbind res_bind st_rows st_first st_free]. set (free1 := if bool_decide _ then _ else _) in *.
    destruct (Hchoose rows free1 (Z.to_nat i) old) as (st' & Hst & Hinv' & Hcnt); [done|lia|by split|by rewrite Z2Nat.id|lia|].
    exists st'. rewrite Z2Nat.id in Hst by done. rewrite Hold in Hst |- *. cbn [expect panics mbind res_bind] in Hst |- *.
    rewrite Hsp in Hst, Hcnt. by rewrite Hcnt, Hc.
  - destruct (Hchoose (rows ++ [[]]) free (length rows) []) as (st' & Hst & Hinv' & Hcnt).
    + by rewrite lookup_app_r, Nat.sub_diag.
    + unfold blen in Hlim. lia.
    + split; cbn [st_rows st_first st_free]; [by apply rows_ok_new| |by apply free_ok_app].
      intros s' r' Hin' Hs'. eapply located_grow; [by apply Hloc|apply rows_grow_app|done].
    + intros sp y Hy Hiy. pose proof (free_ok_bound _ _ _ _ _ Hfree Hy Hiy). unfold blen in *. lia.
    + unfold row_space, entries_len. cbn [foldr]. lia.
    + exists st'. cbn [mbind res_bind st_rows st_first st_free]. change (row_space []) with ROW_PAYLOAD in Hcnt.
      assert ((rows ++ [[]]) !! Z.to_nat (blen rows) = Some []) as Hlk by (unfold blen; by rewrite Nat2Z.id, lookup_app_r, Nat.sub_diag).
      unfold blen in Hlk, Hst. rewrite Hlk in Hst. unfold blen. rewrite Hlk. cbn [expect panics mbind res_bind] in Hst |- *.
      split_and!; [done|done|]. unfold blen in Hcnt. rewrite Hcnt. f_equal. rewrite length_app. cbn. lia.
Qed.

Context (Hevents : Forall (fun sr => sr.2 <> [] /\ Forall event_wf sr.2 /\ blen sr.2 < u32_limit) runs).

Lemma run_events s r : (s, r) ∈ runs -> r <> [] /\ Forall event_wf r /\ blen r < u32_limit.
Proof using Hevents. rewrite Forall_forall in Hevents. intros H. apply (Hevents _ H). Qed.

Lemma run_fragments s r : (s, r) ∈ runs ->
  concat (fragments r) = r /\ Forall fragment_ok (fragments r) /\ fragments r <> [].
Proof using Hevents.
  intros H. destruct (run_events s r H) as (Hr & Hwf & _). destruct (fragments_spec r) as (Hc & HF & _).
  { eapply Forall_impl; [exact Hwf|]. apply event_wf_fits. }
  split_and!; [done|done|]. intros E. by rewrite E in Hc; cbn in Hc.
Qed.

Lemma frag_entry_len s r i f e : (s, r) ∈ runs -> fragments r !! i = Some f -> frag_entry s r i f e ->
  0 < page_entry_len e <= ROW_PAYLOAD.
Proof using Hevents.
  intros Hin Hf He. destruct (run_fragments s r Hin) as (_ & HF & _). assert (fragment_ok f) as [_ Hl] by (by eapply Forall_lookup in HF).
  unfold page_entry_len. rewrite (fe_events _ _ _ _ _ He). pose proof (encoded_len_from_nonneg None f).
  unfold encoded_len, FRAGMENT_PAYLOAD, PAGE_ENTRY_HEADER_BYTES in *. lia.
Qed.

(** ** The third loop *)

Definition reference (mixed : bool) (last : option Z) (sizes : list Z) (st : gmap Z Z * Z) : gmap Z Z * Z :=
  if mixed then place_all sizes st else place_grouped last sizes st.

Definition short_entry (done : list script) (se : script * PageEntry) : Prop :=
  exists r f, (se.1, r) ∈ runs /\ (se.1 ∉ done) /\ fragments r = [f] /\ frag_entry se.1 r 0 f se.2.

Definition sizes (short : list (script * PageEntry)) : list Z := map (fun se => page_entry_len se.2) short.

Lemma place_short_spec mixed last short done st :
  lay_inv done st -> Forall (short_entry done) short -> NoDup short.*1 -> blen (st_rows st) + blen short < u32_limit ->
  exists st', place_short mixed last short st = Ok st' /\ lay_inv (reverse short.*1 ++ done) st' /\
    (counts (st_free st'), blen (st_rows st')) = reference mixed last (sizes short) (counts (st_free st), blen (st_rows st)).
Proof using Htags Hnodup Hevents.
  revert last done st. induction short as [|[s e] short IH]; intros last done st Hinv Hsh Hnd Hlim; cbn [place_short].
  { exists st. split_and!; [done|done|]. by destruct mixed. }
  apply Forall_cons in Hsh as [(r & f & Hin & Hd & Hfr & Hfe) Hsh]. cbn in Hin, Hd, Hfe. cbn in Hnd. apply NoDup_cons in Hnd as [Hs Hnd].
  set (st1 := if negb mixed && _ then _ else _).
  assert (lay_inv done st1 /\ blen (st_rows st1) = blen (st_rows st) /\
    counts (st_free st1) = if mixed || bool_decide (last = Some (page_entry_len e)) then counts (st_free st) else ∅) as (Hinv1 & Hb1 & Hc1).
  { unfold st1. destruct mixed, (bool_decide (last = _)); cbn [negb andb orb]; try done. destruct Hinv. split_and!; [|done|done].
    split; cbn; [done|done|]. intros sp x Hx. by rewrite lookup_empty in Hx. }
  clearbody st1. rewrite blen_cons in Hlim. pose proof (blen_nonneg short).
  destruct (place_entry_spec done st1 s r f e) as (st2 & -> & Hinv2 & Hc2); [done|done|done|done|done| |lia|].
  { eapply frag_entry_len; [done| |done]. by rewrite Hfr. }
  cbn [mbind res_bind]. pose proof (place_rows (page_entry_len e) (counts (st_free st1), blen (st_rows st1))) as Hrows.
  rewrite <- Hc2 in Hrows. cbn [snd] in Hrows.
  destruct (IH (Some (page_entry_len e)) (s :: done) st2) as (st' & Hp & Hinv' & Hc'); [done| |done|lia|].
  { apply Forall_forall. intros [s' e'] Hin'. rewrite Forall_forall in Hsh. destruct (Hsh _ Hin') as (r' & f' & H1 & H2 & H3 & H4).
    exists r', f'. split_and!; [done| |done|done]. intros [E|?]%elem_of_cons; [|done]. cbn in E. apply Hs. rewrite <- E.
    apply list_elem_of_fmap. by exists (s', e'). }
  exists st'. split_and!; [done| |].
  - change (((s, e) :: short).*1) with (s :: short.*1). rewrite reverse_cons, <- app_assoc. done.
  - rewrite Hc', Hc2, Hb1, Hc1. unfold reference, sizes. cbn [map snd]. destruct mixed; [done|].
    cbn [place_grouped fst snd orb]. done.
Qed.

(** ** The second loop *)

Context (Hlinks : forall s, s ∈ runs.*1 -> link_well_formed (link_of s) = true).

Lemma with_link_Ok e l : ordinal e = 0 -> link_well_formed l = true ->
  with_link e l = Ok (MkPageEntry (pe_tag e) (ordinal e) (fragment_count e) (pe_events e) (min_height e) (max_height e) l).
Proof. intros Ho Hl. unfold with_link, link_refused. by rewrite Ho, Hl. Qed.

(** The first fragment carries the link, the others do not. *)
Lemma new_entry_Ok s r i f : (s, r) ∈ runs -> fragments r !! i = Some f ->
  exists e, (entry ← lift_record (page_entry_new (tag_of s) (Z.of_nat i) (blen (fragments r)) f);
    (if Z.of_nat i =? 0 then lift_record (with_link entry (link_of s)) else Ok entry)) = Ok e /\ frag_entry s r i f e.
Proof using Hevents Hlinks.
  intros Hin Hi. destruct (run_fragments s r Hin) as (_ & HF & _). assert (fragment_ok f) as Hf by (by eapply Forall_lookup in HF).
  pose proof (lookup_lt_Some _ _ _ Hi) as Hlt.
  destruct (heights_fragment (tag_of s) (Z.of_nat i) (blen (fragments r)) f Hf) as (e & -> & E1 & E2 & E3 & E4 & E5 & E6 & E7);
    [unfold blen; lia|].
  cbn [lift_record mbind res_bind]. destruct (Z.eqb_spec (Z.of_nat i) 0) as [H0|H0].
  - rewrite with_link_Ok by (rewrite ?E2; auto; apply Hlinks, list_elem_of_fmap; by exists (s, r)). cbn [lift_record].
    eexists. split; [done|]. split; cbn; try done. by rewrite decide_True by lia.
  - exists e. split; [done|]. split; try done. by rewrite decide_False by lia.
Qed.

Lemma long_entries_Ok s r k : (s, r) ∈ runs -> (k <= length (fragments r))%nat ->
  exists new, long_entries (tag_of s) (link_of s) (blen (fragments r)) (Z.of_nat k) (drop k (fragments r)) = Ok new /\
    length new = (length (fragments r) - k)%nat /\
    forall i f, fragments r !! (k + i)%nat = Some f -> exists e, new !! i = Some [e] /\ frag_entry s r (k + i) f e.
Proof using Hevents Hlinks.
  intros Hin Hk. remember (length (fragments r) - k)%nat as n eqn:En. revert k Hk En. induction n as [|n IH]; intros k Hk En.
  { rewrite drop_ge by lia. exists []. split_and!; [done|done|]. intros i f Hi%lookup_lt_Some. lia. }
  destruct (lookup_lt_is_Some_2 (fragments r) k) as [f Hf]; [lia|]. rewrite (drop_S _ f) by done. cbn [long_entries].
  destruct (new_entry_Ok s r k f Hin Hf) as (e & He & Hfe). apply res_bind_Ok in He as (e0 & -> & He). cbn [mbind res_bind].
  rewrite He. cbn [mbind res_bind]. destruct (IH (S k)) as (new & Hnew & Hlen & Hall); [lia|lia|].
  replace (Z.of_nat k + 1) with (Z.of_nat (S k)) by lia. rewrite Hnew. cbn [mbind res_bind]. exists ([e] :: new).
  split_and!; [done|cbn; lia|]. intros [|i] f' Hi.
  - rewrite Nat.add_0_r in Hi |- *. assert (f' = f) as -> by congruence. by exists e.
  - replace (k + S i)%nat with (S k + i)%nat in Hi |- * by lia. apply Hall, Hi.
Qed.

(** The rows of a long run. *)
Definition run_rows (s : script) (r : list TransparentEvent) (new : list (list PageEntry)) : Prop :=
  length new = length (fragments r) /\
  forall i f, fragments r !! i = Some f -> exists e, new !! i = Some [e] /\ frag_entry s r i f e.

Lemma run_rows_entry s r new row : run_rows s r new -> row ∈ new ->
  exists i f e, fragments r !! i = Some f /\ row = [e] /\ frag_entry s r i f e.
Proof.
  intros [Hl Hr] [i Hi]%list_elem_of_lookup. pose proof (lookup_lt_Some _ _ _ Hi) as Hlt.
  destruct (lookup_lt_is_Some_2 (fragments r) i) as [f Hf]; [lia|]. destruct (Hr i f Hf) as (e & He & Hfe).
  exists i, f, e. split_and!; [done|congruence|done].
Qed.

Lemma lay_inv_long done st s r new :
  lay_inv done st -> (s, r) ∈ runs -> s ∉ done -> run_rows s r new ->
  lay_inv (s :: done) (MkLayState (st_rows st ++ new) (<[s := blen (st_rows st) + 1]> (st_first st)) (st_free st)).
Proof using Htags Hnodup Hevents Hlinks.
  intros [Hok Hloc Hfree] Hin Hd Hnew. split; cbn [st_rows st_first st_free].
  - apply (rows_ok_mono _ (s :: done)) in Hok as [Hf He Ht]; [|set_solver].
    assert (forall (P : list PageEntry -> Prop), (forall i f e, fragments r !! i = Some f -> frag_entry s r i f e -> P [e]) -> Forall P new) as Hall.
    { intros P HP. apply Forall_forall. intros row Hrow. destruct (run_rows_entry s r new row Hnew Hrow) as (i & f & e & Hi & -> & Hfe).
      by eapply HP. }
    split; apply Forall_app; (split; [done|]); apply Hall; intros i f e Hi Hfe.
    + rewrite entries_len_one. by eapply frag_entry_len.
    + constructor; [|done]. exists s, r, i, f. split_and!; [done|set_solver|done|done].
    + apply NoDup_singleton.
  - intros s' r' Hin' [->|Hs']%elem_of_cons.
    + assert (r' = r) as -> by (by eapply run_unique). exists (length (st_rows st)). rewrite lookup_insert_eq. split; [done|].
      intros i f Hi. destruct Hnew as [_ Hr]. destruct (Hr i f Hi) as (e & He & Hfe). exists [e], e.
      rewrite lookup_app_r by lia. replace (length (st_rows st) + i - length (st_rows st))%nat with i by lia.
      split_and!; [done|set_solver|done].
    + eapply located_grow; [by apply Hloc|apply rows_grow_app|]. rewrite lookup_insert_ne; [done|]. intros ->. done.
  - by apply free_ok_app.
Qed.

(** The space that a long run leaves in its last row. *)
Lemma last_row_space s r new rows : (s, r) ∈ runs -> run_rows s r new ->
  let row := blen (rows ++ new) - 1 in
  exists e, 0 <= row /\ (rows ++ new) !! Z.to_nat row = Some [e] /\
    page_entry_len e = PAGE_ENTRY_HEADER_BYTES + encoded_len (default [] (last (fragments r))) /\
    page_entry_len e <= ROW_PAYLOAD.
Proof using Htags Hnodup Hevents Hlinks.
  intros Hin [Hl Hr] row. destruct (run_fragments s r Hin) as (_ & _ & Hne).
  destruct (last (fragments r)) as [f|] eqn:El; [|by apply last_None in El]. rewrite last_lookup in El.
  destruct (Hr _ _ El) as (e & He & Hfe). pose proof (lookup_lt_Some _ _ _ El) as Hlt.
  exists e. unfold row, blen. rewrite length_app. split; [lia|].
  rewrite lookup_app_r by lia. replace (Z.to_nat _ - length rows)%nat with (pred (length (fragments r))) by lia.
  split_and!; [done| |by eapply frag_entry_len]. unfold page_entry_len. by rewrite (fe_events _ _ _ _ _ Hfe).
Qed.

Lemma free_ok_insert rows free sp i row : free_ok rows free -> rows !! Z.to_nat i = Some row -> 0 <= i -> row_space row = sp ->
  free_ok rows (free_insert free sp i).
Proof using Type.
  intros H Hi H0 Hsp space x. unfold free_insert. destruct (decide (space = sp)) as [->|Hn].
  - rewrite lookup_insert_eq. intros [= <-]. split.
    { intros E. assert (i ∈ ({[i]} ∪ default ∅ (free !! sp) : gset Z)) as Hx by (apply elem_of_union; left; by apply elem_of_singleton).
      rewrite E in Hx. by apply not_elem_of_empty in Hx. }
    intros j [->%elem_of_singleton|Hj]%elem_of_union; [eauto|].
    destruct (free !! sp) as [y|] eqn:E; cbn in Hj; [|by apply not_elem_of_empty in Hj]. by apply (H _ _ E).
  - rewrite lookup_insert_ne by done. apply H.
Qed.

Lemma lay_run_long mixed sm s r h done st short :
  lay_inv done st -> (s, r) ∈ runs -> s ∉ done -> blen (fragments r) <> 1 ->
  sm !! s = Some h -> layout_of 0 r h -> blen (st_rows st) + 1 < u32_limit ->
  exists st', lay_run mixed sm tag_of link_of s r (st, short) = Ok (st', short) /\ lay_inv (s :: done) st' /\
    blen (st_rows st') = blen (st_rows st) + hl_fragments h /\
    counts (st_free st') = if mixed then entry_add (counts (st_free st)) (tail_space PAGE_ENTRY_HEADER_BYTES h) 1 else counts (st_free st).
Proof using Htags Hnodup Hevents Hlinks.
  intros Hinv Hin Hd Hn Hsm (_ & _ & Hf & Ht & _) Hlim.
  replace (take (length r - Z.to_nat 0) r) with r in Hf, Ht by (rewrite Nat.sub_0_r; by rewrite firstn_all).
  unfold lay_run. rewrite Hsm. cbn [expect panics mbind res_bind]. rewrite (proj2 (Z.eqb_neq _ _)) by done.
  unfold locator. rewrite (proj2 (Z.ltb_lt _ _)) by done. cbn [mbind res_bind]. rewrite Hf.
  destruct (long_entries_Ok s r 0 Hin ltac:(lia)) as (new & Hnew & Hlen & Hall). rewrite drop_0 in Hnew.
  change (Z.of_nat 0) with 0 in Hnew. rewrite Hnew. cbn [mbind res_bind].
  assert (run_rows s r new) as Hrr by (split; [by rewrite Hlen, Nat.sub_0_r|done]).
  pose proof (lay_inv_long done st s r new Hinv Hin Hd Hrr) as Hinv'.
  assert (blen (st_rows st ++ new) = blen (st_rows st) + blen (fragments r)) as Hb by (unfold blen; rewrite length_app; lia).
  destruct mixed; [|cbn [mbind res_bind]; eexists; split_and!; [done|done|done|done]].
  destruct (last_row_space s r new (st_rows st) Hin Hrr) as (e & H0 & He & Hel & Hfit). set (row := blen _ - 1) in *.
  rewrite checked_minus_Ok by lia. fold row. cbn [panics mbind res_bind]. rewrite He. cbn [expect head panics mbind res_bind].
  rewrite checked_minus_Ok by done. cbn [panics mbind res_bind]. eexists. split; [done|]. destruct Hinv' as [I1 I2 I3].
  cbn [st_rows st_first st_free] in I1, I2, I3. split_and!; [|done|].
  - split; cbn [st_rows st_first st_free]; [done|done|]. eapply free_ok_insert; [done|done|done|]. unfold row_space. by rewrite entries_len_one.
  - cbn [st_free]. unfold tail_space. rewrite Hel, Ht, Z.sub_add_distr. apply counts_insert.
    destruct (st_free st !! _) as [x|] eqn:E; cbn; [|by apply not_elem_of_empty]. intros Hi.
    pose proof (free_ok_bound _ _ _ _ _ (li_free _ _ Hinv) E Hi). unfold row, blen in *. rewrite length_app in *.
    destruct (run_fragments s r Hin) as (_ & _ & Hne). destruct (fragments r); [done|]. cbn [length] in *. lia.
Qed.

Lemma lay_run_short mixed sm s r h st short :
  (s, r) ∈ runs -> blen (fragments r) = 1 -> sm !! s = Some h -> layout_of 0 r h ->
  exists e, lay_run mixed sm tag_of link_of s r (st, short) = Ok (st, short ++ [(s, e)]) /\
    (exists f, fragments r = [f] /\ frag_entry s r 0 f e) /\ page_entry_len e = short_size PAGE_ENTRY_HEADER_BYTES h.
Proof using Htags Hnodup Hevents Hlinks.
  intros Hin Hn Hsm (_ & _ & Hf & Ht & _).
  replace (take (length r - Z.to_nat 0) r) with r in Hf, Ht by (rewrite Nat.sub_0_r; by rewrite firstn_all).
  unfold lay_run. rewrite Hsm. cbn [expect panics mbind res_bind]. rewrite Hn, Z.eqb_refl.
  destruct (run_fragments s r Hin) as (Hc & _ & _). destruct (fragments r) as [|f [|g fs]] eqn:Efs; [done| |].
  2: { rewrite !blen_cons in Hn. pose proof (blen_nonneg fs). lia. }
  cbn in Hc. rewrite app_nil_r in Hc. subst f. destruct (new_entry_Ok s r 0 r Hin) as (e & He & Hfe); [by rewrite Efs|].
  apply res_bind_Ok in He as (e0 & He0 & He). rewrite Efs in He0. change (blen [r]) with 1 in He0. change (Z.of_nat 0) with 0 in *.
  rewrite He0. cbn [mbind res_bind Z.eqb] in *. rewrite He. cbn [mbind res_bind]. exists e. split_and!; [done|by exists r|].
  unfold page_entry_len, short_size. rewrite Ht, (fe_events _ _ _ _ _ Hfe). done.
Qed.

Definition summary_of (sm : gmap script HistoryLayout) (sr : script * list TransparentEvent) (h : HistoryLayout) : Prop :=
  layout_of 0 sr.2 h /\ sm !! sr.1 = Some h.

Definition add_tail (h : HistoryLayout) (m : gmap Z Z) : gmap Z Z :=
  if is_long h then entry_add m (tail_space PAGE_ENTRY_HEADER_BYTES h) 1 else m.

Lemma foldr_add_tail h m hs : foldr add_tail (add_tail h m) hs = add_tail h (foldr add_tail m hs).
Proof.
  induction hs as [|h' hs IH]; [done|]. cbn [foldr]. rewrite IH. unfold add_tail. repeat case_match; try done. apply entry_add_comm.
Qed.

Lemma layout_fragments r h : layout_of 0 r h -> hl_fragments h = blen (fragments r).
Proof. intros (_ & _ & Hf & _). rewrite Hf. by rewrite Nat.sub_0_r, firstn_all. Qed.

(** What the second loop has done with the runs [rs], from [st] to [st']: the long ones lie in
    rows, the short ones are in [sh]. *)
Record runs_laid (mixed : bool) (rs : list (script * list TransparentEvent)) (hs : list HistoryLayout) (done : list script)
    (st : LayState) (done' : list script) (st' : LayState) (sh : list (script * PageEntry)) : Prop := {
  rl_inv : lay_inv done' st';
  rl_from : forall s, s ∈ done' -> s ∈ done \/ s ∈ rs.*1;
  rl_all : forall s, s ∈ done \/ s ∈ rs.*1 -> s ∈ done' \/ s ∈ sh.*1;
  rl_short : Forall (fun se => (se.1 ∈ rs.*1) /\ exists r f, (se.1, r) ∈ runs /\ (se.1 ∉ done') /\ fragments r = [f] /\ frag_entry se.1 r 0 f se.2) sh;
  rl_nodup : NoDup sh.*1;
  rl_rows : blen (st_rows st') = blen (st_rows st) + sum_by is_long hl_fragments hs;
  rl_counts : counts (st_free st') = if mixed then foldr add_tail (counts (st_free st)) hs else counts (st_free st);
  rl_sizes : sizes sh = map (short_size PAGE_ENTRY_HEADER_BYTES) (filter (fun h => is_short h = true) hs) }.

Lemma runs_laid_nil mixed done st : lay_inv done st -> runs_laid mixed [] [] done st done st [].
Proof.
  intros Hinv. split; [done|auto|naive_solver|constructor|constructor|unfold sum_by; cbn; lia|by destruct mixed|done].
Qed.

Lemma runs_laid_short mixed s r h rs hs done st done' st' sh e f :
  runs_laid mixed rs hs done st done' st' sh -> (s, r) ∈ runs -> s ∉ done -> s ∉ rs.*1 -> is_short h = true ->
  fragments r = [f] -> frag_entry s r 0 f e -> page_entry_len e = short_size PAGE_ENTRY_HEADER_BYTES h ->
  runs_laid mixed ((s, r) :: rs) (h :: hs) done st done' st' ((s, e) :: sh).
Proof.
  intros [Hinv D1 D2 Hsh Hnd Hb Hc Hz] Hin Hd Hs Es Hf Hfe Hsz.
  assert (is_long h = false) as El by (unfold is_long, is_short in *; apply Z.eqb_eq in Es; apply Z.ltb_ge; lia).
  assert (s ∉ done') as Hd' by (intros [?|?]%D1; done). change (((s, r) :: rs).*1) with (s :: rs.*1).
  split; change (((s, e) :: sh).*1) with (s :: sh.*1); try done.
  - intros s' [?|?]%D1; [by left|right; by right].
  - intros s' [Hs'|[->|Hs']%elem_of_cons].
    + destruct (D2 s' (or_introl Hs')); [by left|right; by right].
    + right; by left.
    + destruct (D2 s' (or_intror Hs')); [by left|right; by right].
  - constructor; [split; [by left|]; exists r, f; done|]. eapply Forall_impl; [exact Hsh|]. intros se [? ?]. split; [by right|done].
  - apply NoDup_cons. split; [|done]. intros Hx. apply list_elem_of_fmap in Hx as ([s' e'] & -> & Hx).
    rewrite Forall_forall in Hsh. apply Hs. apply (Hsh _ Hx).
  - change (sum_by is_long hl_fragments (h :: hs)) with ((if is_long h then hl_fragments h else 0) + sum_by is_long hl_fragments hs).
    rewrite El. lia.
  - cbn [foldr]. unfold add_tail at 1. by rewrite El.
  - rewrite filter_cons, decide_True by done. unfold sizes in *. cbn [map snd]. by rewrite Hsz, Hz.
Qed.

Lemma runs_laid_long mixed s r h rs hs done st st1 done' st' sh :
  runs_laid mixed rs hs (s :: done) st1 done' st' sh -> is_long h = true ->
  blen (st_rows st1) = blen (st_rows st) + hl_fragments h ->
  counts (st_free st1) = (if mixed then add_tail h (counts (st_free st)) else counts (st_free st)) ->
  runs_laid mixed ((s, r) :: rs) (h :: hs) done st done' st' sh.
Proof.
  intros [Hinv D1 D2 Hsh Hnd Hb Hc Hz] El Hb1 Hc1.
  assert (is_short h = false) as Es by (unfold is_long, is_short in *; apply Z.ltb_lt in El; apply Z.eqb_neq; lia).
  change (((s, r) :: rs).*1) with (s :: rs.*1). split; try done.
  - intros s' [[->|?]%elem_of_cons|?]%D1; [right; by left|by left|right; by right].
  - intros s' [Hs'|[->|Hs']%elem_of_cons].
    + apply D2. left. by right.
    + apply D2. left. by left.
    + apply D2. by right.
  - eapply Forall_impl; [exact Hsh|]. intros se [? ?]. split; [by right|done].
  - change (sum_by is_long hl_fragments (h :: hs)) with ((if is_long h then hl_fragments h else 0) + sum_by is_long hl_fragments hs).
    rewrite El. lia.
  - rewrite Hc, Hc1. destruct mixed; [|done]. cbn [foldr]. apply foldr_add_tail.
  - rewrite filter_cons, decide_False by (by rewrite Es). done.
Qed.

Lemma lay_runs_spec mixed sm rs hs done st short :
  Forall2 (summary_of sm) rs hs -> Forall (fun sr => sr ∈ runs /\ (sr.1 ∉ done)) rs -> NoDup rs.*1 -> lay_inv done st ->
  blen (st_rows st) + sum_by is_long hl_fragments hs < u32_limit ->
  exists done' st' sh, lay_runs mixed sm tag_of link_of rs (st, short) = Ok (st', short ++ sh) /\
    runs_laid mixed rs hs done st done' st' sh.
Proof using Htags Hnodup Hevents Hlinks.
  intros HF. revert done st short. induction HF as [|[s r] h rs hs [Hlay Hsm] HF IH]; intros done st short Hin Hnd Hinv Hlim.
  { exists done, st, []. cbn [lay_runs]. rewrite app_nil_r. split; [done|]. by apply runs_laid_nil. }
  apply Forall_cons in Hin as [[Hin Hd] Hrest]. cbn in Hin, Hd, Hlay, Hsm. cbn in Hnd. apply NoDup_cons in Hnd as [Hs Hnd].
  pose proof (layout_fragments r h Hlay) as Hfr. cbn [lay_runs].
  change (sum_by is_long hl_fragments (h :: hs)) with ((if is_long h then hl_fragments h else 0) + sum_by is_long hl_fragments hs) in *.
  assert (0 <= sum_by is_long hl_fragments hs) as Hnn.
  { apply sum_by_nonneg. clear -HF. induction HF as [|[s r] h rs hs [Hl _] _ IH]; constructor; [|done].
    rewrite (layout_fragments _ _ Hl). apply blen_nonneg. }
  destruct (run_fragments s r Hin) as (_ & _ & Hne).
  assert (1 <= blen (fragments r)) as H1 by (destruct (fragments r) as [|x k]; [done|]; rewrite blen_cons; pose proof (blen_nonneg k); lia).
  destruct (Z.eq_dec (blen (fragments r)) 1) as [E1|E1].
  - destruct (lay_run_short mixed sm s r h st short Hin E1 Hsm Hlay) as (e & -> & (f & Hf & Hfe) & Hsz). cbn [mbind res_bind].
    assert (is_long h = false /\ is_short h = true) as [El Es] by (unfold is_long, is_short; rewrite Hfr, E1; done).
    rewrite El in Hlim. destruct (IH done st (short ++ [(s, e)])) as (done' & st' & sh & -> & Hrl); try done.
    exists done', st', ((s, e) :: sh). rewrite <- app_assoc. split; [done|]. by eapply runs_laid_short.
  - assert (is_long h = true) as El by (unfold is_long; rewrite Hfr; apply Z.ltb_lt; lia). rewrite El in Hlim.
    destruct (lay_run_long mixed sm s r h done st short) as (st1 & -> & Hinv1 & Hb1 & Hc1); try done; [lia|]. cbn [mbind res_bind].
    destruct (IH (s :: done) st1 short) as (done' & st' & sh & -> & Hrl); [|done|done|lia|].
    { apply Forall_forall. intros [s' r'] Hx. rewrite Forall_forall in Hrest. destruct (Hrest _ Hx) as [? ?]. split; [done|].
      cbn. intros [->|?]%elem_of_cons; [|done]. apply Hs. apply list_elem_of_fmap. by exists (s, r'). }
    exists done', st', sh. split; [done|]. eapply runs_laid_long; [done|done|done|]. unfold add_tail. by rewrite El.
Qed.

(** ** The first loop *)

Lemma layout_history_ok r h : Forall event_wf r -> layout_of 0 r h -> history_ok PAGE_ENTRY_HEADER_BYTES h.
Proof.
  intros Hwf (_ & _ & Hf & Ht & Hp & _). rewrite Nat.sub_0_r, firstn_all in Hf, Ht, Hp. unfold history_ok. rewrite Hf, Ht, Hp.
  pose proof (tail_le_total (fragments r)). pose proof (blen_nonneg (fragments r)).
  destruct (fragments_spec r) as (_ & HF & _); [by eapply Forall_impl; [exact Hwf|]; apply event_wf_fits|].
  pose proof (encoded_len_from_nonneg None (default [] (last (fragments r)))). unfold encoded_len in *.
  split_and!; [done|done| |lia]. destruct (last (fragments r)) as [f|] eqn:El; [|done].
  rewrite last_lookup in El. by eapply Forall_lookup in HF as [_ Hl].
Qed.

Lemma header_bounds : 0 < PAGE_ENTRY_HEADER_BYTES < ROW_PAYLOAD.
Proof. done. Qed.

Lemma summarize_spec rs d sm hs0 :
  represents PAGE_ENTRY_HEADER_BYTES d hs0 -> Forall (history_ok PAGE_ENTRY_HEADER_BYTES) hs0 -> cached_rows d = None ->
  Forall (fun sr => sr ∈ runs) rs -> NoDup rs.*1 ->
  exists d' sm' hs, summarize rs d sm = Ok (d', sm') /\ represents PAGE_ENTRY_HEADER_BYTES d' (hs ++ hs0) /\
    Forall2 (summary_of sm') rs hs /\ cached_rows d' = None /\ Forall (history_ok PAGE_ENTRY_HEADER_BYTES) hs /\
    forall s, s ∉ rs.*1 -> sm' !! s = sm !! s.
Proof using Hevents.
  revert d sm hs0. induction rs as [|[s r] rs IH]; intros d sm hs0 Hd Hok Hcache Hin Hnd; cbn [summarize].
  { exists d, sm, []. by split_and!. }
  apply Forall_cons in Hin as [Hin Hrs]. cbn in Hnd. apply NoDup_cons in Hnd as [Hs Hnd].
  destruct (run_events s r Hin) as (_ & Hwf & Hlen).
  pose proof (history_layout 0 r ltac:(lia)) as Hlay. destruct (push_all history_default r 0) as [h|p].
  2: { destruct Hlay as [_ ?]; [|lia]. eapply Forall_impl; [exact Hwf|]. apply event_wf_fits. }
  destruct Hlay as [_ Hlay]; [eapply Forall_impl; [exact Hwf|]; apply event_wf_fits|]. cbn [mbind res_bind].
  pose proof (layout_history_ok r h Hwf Hlay) as Hh.
  destruct (shift_represents _ header_bounds d hs0 history_default h) as (d1 & -> & Hd1 & Hc1); [by apply (proj1 (represents_default _ _ _))|apply (history_default_ok _ header_bounds)|done|done|].
  cbn [mbind res_bind]. destruct (IH d1 (<[s := h]> sm) (h :: hs0)) as (d' & sm' & hs & -> & Hd' & HF & Hc' & Hhs & Hother); [done|by constructor|done|done|done|].
  exists d', sm', (h :: hs). split_and!; [done| |constructor; [|done]|done|by constructor|].
  - eapply represents_perm; [|exact Hd']. symmetry. apply Permutation_middle.
  - split; [done|]. cbn. rewrite Hother by done. apply lookup_insert_eq.
  - intros s' Hs'. change (((s, r) :: rs).*1) with (s :: rs.*1) in Hs'. apply not_elem_of_cons in Hs' as [Hne Hs'].
    rewrite Hother by done. by rewrite lookup_insert_ne.
Qed.

(** ** The order of the short runs *)

Lemma script_leb_total a b : script_leb a b = true \/ script_leb b a = true.
Proof.
  revert b. induction a as [|x a IH]; intros [|y b]; cbn; auto.
  destruct (Z.lt_trichotomy (byte.unsigned x) (byte.unsigned y)) as [H|[H|H]].
  - left. apply orb_true_iff. left. by apply Z.ltb_lt.
  - rewrite H, Z.eqb_refl, Z.ltb_irrefl. cbn. apply IH.
  - right. apply orb_true_iff. left. by apply Z.ltb_lt.
Qed.

Lemma script_leb_trans a b c : script_leb a b = true -> script_leb b c = true -> script_leb a c = true.
Proof.
  revert b c. induction a as [|x a IH]; intros [|y b] [|z c]; cbn; try done.
  rewrite !orb_true_iff, !andb_true_iff, !Z.ltb_lt, !Z.eqb_eq. intros [H1|[H1 H1']] [H2|[H2 H2']]; [left; lia..|].
  right. split; [lia|]. by eapply IH.
Qed.

#[local] Instance short_before_total : Total short_before.
Proof.
  intros [s e] [s' e']. unfold short_before. cbn. rewrite !orb_true_iff, !andb_true_iff, !Z.ltb_lt, !Z.eqb_eq.
  destruct (Z.lt_trichotomy (page_entry_len e) (page_entry_len e')) as [?|[?|?]]; [right; by left| |left; by left].
  destruct (script_leb_total s s'); [left|right]; right; (split; [lia|done]).
Qed.
#[local] Instance short_before_trans : Transitive short_before.
Proof.
  intros [s e] [s' e'] [s'' e'']. unfold short_before. cbn. rewrite !orb_true_iff, !andb_true_iff, !Z.ltb_lt, !Z.eqb_eq.
  intros [H1|[H1 H1']] [H2|[H2 H2']]; [left; lia..|]. right. split; [lia|]. by eapply script_leb_trans.
Qed.

Lemma sorted_sizes sh : StronglySorted ge (sizes (merge_sort short_before sh)) /\ sizes (merge_sort short_before sh) ≡ₚ sizes sh.
Proof.
  split.
  - assert (StronglySorted short_before (merge_sort short_before sh)) as Hs by (apply StronglySorted_merge_sort; apply _).
    induction Hs as [|[s e] l _ IH Hd]; [constructor|]. cbn [sizes map]. constructor; [done|].
    apply Forall_map. eapply Forall_impl; [exact Hd|]. intros [s' e']. unfold short_before, ge. cbn.
    rewrite orb_true_iff, andb_true_iff, Z.ltb_lt, Z.eqb_eq. lia.
  - apply Permutation_map, merge_sort_Permutation.
Qed.

(** ** The whole function *)

Definition total_fragments (rs : list (script * list TransparentEvent)) : Z :=
  foldr (fun sr n => blen (fragments sr.2) + n) 0 rs.

Lemma total_fragments_split rs hs sm : Forall2 (summary_of sm) rs hs -> Forall (fun sr => sr ∈ runs) rs ->
  total_fragments rs = sum_by is_long hl_fragments hs + blen (filter (fun h => is_short h = true) hs).
Proof using Hevents.
  induction 1 as [|[s r] h rs hs [Hlay _] _ IH]; intros Hin; [done|]. apply Forall_cons in Hin as [Hin Hrs].
  cbn [total_fragments foldr snd]. fold (total_fragments rs). rewrite (IH Hrs). cbn in Hlay. rewrite <- (layout_fragments r h Hlay).
  change (sum_by is_long hl_fragments (h :: hs)) with ((if is_long h then hl_fragments h else 0) + sum_by is_long hl_fragments hs).
  pose proof (layout_fragments r h Hlay) as Hfr. destruct (run_fragments s r Hin) as (_ & _ & Hne).
  assert (1 <= hl_fragments h) as H1 by (rewrite Hfr; destruct (fragments r) as [|x k]; [done|]; rewrite blen_cons; pose proof (blen_nonneg k); lia).
  rewrite filter_cons. unfold is_short, is_long. destruct (Z.eqb_spec (hl_fragments h) 1) as [E|E].
  - rewrite decide_True, blen_cons by done. rewrite (proj2 (Z.ltb_ge _ _)) by lia. lia.
  - rewrite decide_False by done. rewrite (proj2 (Z.ltb_lt _ _)) by lia. lia.
Qed.

Context (Hlimit : total_fragments runs < u32_limit).

(** The emitted rows are as many as predicted. *)
Lemma reference_predicted (mixed : bool) hs zs : mixed = (mixed_reference PAGE_ENTRY_HEADER_BYTES hs zs <=? grouped_reference hs zs) ->
  (reference mixed None zs (if mixed then foldr add_tail ∅ hs else ∅, sum_by is_long hl_fragments hs)).2 =
  Z.min (mixed_reference PAGE_ENTRY_HEADER_BYTES hs zs) (grouped_reference hs zs).
Proof.
  intros Hm. unfold reference. destruct mixed; symmetry in Hm.
  - apply Z.leb_le in Hm. by rewrite Z.min_l.
  - apply Z.leb_gt in Hm. rewrite Z.min_r by lia. done.
Qed.

Lemma lay_inv_empty : lay_inv [] (MkLayState [] ∅ ∅).
Proof.
  split; cbn; [split; constructor|by intros s r _ ?%not_elem_of_nil|]. intros sp x Hx. by rewrite lookup_empty in Hx.
Qed.

Lemma all_runs : Forall (fun sr => sr ∈ runs) runs.
Proof. by apply Forall_forall. Qed.

(** The second and the third loop, for either rule. *)
Lemma lay_all (mixed : bool) hs sm : Forall2 (summary_of sm) runs hs ->
  exists st sh st' zs, lay_runs mixed sm tag_of link_of runs (MkLayState [] ∅ ∅, []) = Ok (st, sh) /\
    place_short mixed None (merge_sort short_before sh) st = Ok st' /\ sizes_of PAGE_ENTRY_HEADER_BYTES hs zs /\
    blen (st_rows st') =
      (reference mixed None zs (if mixed then foldr add_tail ∅ hs else ∅, sum_by is_long hl_fragments hs)).2 /\
    exists done, lay_inv done st' /\ (forall s, s ∈ done <-> s ∈ runs.*1).
Proof using Htags Hnodup Hevents Hlinks Hlimit.
  intros HF. pose proof (total_fragments_split runs hs sm HF all_runs) as Htot.
  destruct (lay_runs_spec mixed sm runs hs [] (MkLayState [] ∅ ∅) [] HF) as (placed & st & sh & Hlay & Hrl);
    [|done|apply lay_inv_empty| |].
  { eapply Forall_impl; [apply all_runs|]. intros sr Hsr. split; [done|]. by apply not_elem_of_nil. }
  { cbn [st_rows]. change (blen []) with 0. pose proof (blen_nonneg (filter (fun h => is_short h = true) hs)). lia. }
  destruct Hrl as [Hinv D1 D2 Hsh Hnd Hb Hcnt Hsz]. destruct (sorted_sizes sh) as [Hs Hp].
  assert (merge_sort short_before sh ≡ₚ sh) as Hperm by apply merge_sort_Permutation.
  destruct (place_short_spec mixed None (merge_sort short_before sh) placed st) as (st' & Hplace & Hinv' & Href); [done| | | |].
  { rewrite Hperm. eapply Forall_impl; [exact Hsh|]. by intros se [_ ?]. }
  { by rewrite Hperm. }
  { apply (f_equal length) in Hsz. unfold sizes in Hsz. rewrite !length_map in Hsz. rewrite Hb. cbn [st_rows].
    change (blen []) with 0. unfold blen at 1. rewrite (Permutation_length Hperm), Hsz. unfold blen in Htot. lia. }
  exists st, sh, st', (sizes (merge_sort short_before sh)). split_and!; [done|done|split; [done|by rewrite Hp, Hsz]| |].
  - rewrite Hcnt, Hb in Href. cbn [st_rows st_free] in Href. change (blen [] + ?x) with (0 + x) in Href. rewrite Z.add_0_l in Href.
    change (counts ∅) with (∅ : gmap Z Z) in Href. by rewrite <- Href.
  - eexists. split; [exact Hinv'|]. intros s. rewrite elem_of_app, elem_of_reverse, Hperm. split.
    + intros [Hx|Hx]; [|destruct (D1 s Hx) as [?|?]; [by apply not_elem_of_nil in H|done]].
      apply list_elem_of_fmap in Hx as (se & -> & Hx). rewrite Forall_forall in Hsh. apply (Hsh _ Hx).
    + intros Hx. destruct (D2 s (or_intror Hx)); auto.
Qed.

Lemma sizes_of_unique hs zs zs' : sizes_of PAGE_ENTRY_HEADER_BYTES hs zs -> sizes_of PAGE_ENTRY_HEADER_BYTES hs zs' -> zs = zs'.
Proof. intros ->%sizes_of_expand ->%sizes_of_expand. done. Qed.

Lemma lay_out_runs_spec :
  exists out, lay_out_runs runs tag_of link_of = Ok out /\ laid_fragments out = total_fragments runs /\
    rows_ok runs.*1 (laid_rows out) /\
    forall s r, (s, r) ∈ runs -> located (laid_rows out) (first_rows out) s r.
Proof using Htags Hnodup Hevents Hlinks Hlimit.
  unfold lay_out_runs. assert (demand_default = Ok (MkPackedDemand ∅ ∅ 0 0 0 PAGE_ENTRY_HEADER_BYTES None)) as -> by done.
  cbn [panics mbind res_bind].
  destruct (summarize_spec runs (MkPackedDemand ∅ ∅ 0 0 0 PAGE_ENTRY_HEADER_BYTES None) ∅ []) as (d & sm & hs & -> & Hd & HF & Hc & Hhs & _);
    [by split|constructor|done|apply all_runs|done|].
  rewrite app_nil_r in Hd. cbn [panics mbind res_bind]. destruct (lay_all true hs sm HF) as (_ & _ & _ & zs & _ & _ & Hzs & _).
  destruct (row_counts_reference _ header_bounds d hs zs Hd Hhs Hzs) as [Hm Hg].
  destruct (rows_spec d _ _ ltac:(by intros c; rewrite Hc) Hm Hg) as (d' & -> & _ & Hc' & E1 & E2 & E3 & E4 & E5 & E6).
  cbn [panics mbind res_bind]. assert (represents PAGE_ENTRY_HEADER_BYTES d' hs) as Hd' by (by eapply represents_rows).
  destruct (row_counts_reference _ header_bounds d' hs zs Hd' Hhs Hzs) as [Hm' Hg'].
  set (mixed := mixed_reference _ hs zs <=? grouped_reference hs zs).
  destruct (lay_all mixed hs sm HF) as (st & sh & st' & zs' & -> & Hp & Hzs' & Hb & placed & Hinv & Hdone). cbn [mbind res_bind].
  rewrite Hp. cbn [mbind res_bind]. destruct (rows_spec d' _ _ Hc' Hm' Hg') as (d2 & _ & -> & _ & F1 & _ & F3 & _). cbn [panics mbind res_bind].
  assert (zs' = zs) as -> by (by eapply sizes_of_unique). rewrite Hb, reference_predicted, Z.eqb_refl by done. cbn [negb].
  eexists. split; [done|]. cbn [laid_rows first_rows laid_fragments]. destruct Hinv as [I1 I2 _]. split_and!.
  - unfold demand_fragments. assert (short_scripts d2 = short_scripts d') as -> by (unfold short_scripts; by rewrite F1).
    rewrite (short_scripts_sizes _ d' hs zs), F3, (rep_rows _ _ _ Hd') by done.
    rewrite (total_fragments_split runs hs sm HF all_runs). destruct Hzs as [_ Hz]. unfold blen at 1.
    rewrite (Permutation_length Hz), length_map. unfold blen. lia.
  - eapply rows_ok_mono; [|exact I1]. intros s. apply Hdone.
  - intros s r Hin. apply I2; [done|]. apply Hdone, list_elem_of_fmap. by exists (s, r).
Qed.

(** ** Rows that a reader decodes *)

Context (Htaglen : forall s, s ∈ runs.*1 -> blen (tag_of s) = SCRIPT_TAG_BYTES).
Context (Hlinkwf : forall s, s ∈ runs.*1 -> link_wf (link_of s)).
Context (Hvalid : Forall (fun sr => Forall (fun e => validate_metadata e = Ok () /\ is_sentinel e = false) sr.2 /\
  out_of_order sr.2 = false) runs).

Lemma fragment_of_run s r i f : (s, r) ∈ runs -> fragments r !! i = Some f ->
  exists a b, r = a ++ f ++ b /\ fragment_ok f.
Proof using Hevents.
  intros Hin Hi. destruct (run_fragments s r Hin) as (Hc & HF & _). assert (fragment_ok f) as Hf by (by eapply Forall_lookup in HF).
  exists (concat (take i (fragments r))), (concat (drop (S i) (fragments r))). split; [|done].
  rewrite <- Hc at 1. rewrite <- (take_drop_middle _ _ _ Hi) at 1. by rewrite concat_app.
Qed.

Lemma out_of_order_middle a f b : out_of_order (a ++ f ++ b) = false -> out_of_order f = false.
Proof.
  intros H. assert (out_of_order (f ++ b) = false) as Hfb.
  { induction a as [|x a IH]; [done|]. apply IH. cbn [app] in H. destruct (a ++ f ++ b) as [|y k]; [done|].
    cbn [out_of_order] in H. by apply orb_false_iff in H as [_ H]. }
  clear H. induction f as [|x f IH]; [done|]. cbn [app] in Hfb. destruct f as [|y f]; [done|]. cbn [app out_of_order] in *.
  apply orb_false_iff in Hfb as [-> Hfb]. by apply IH.
Qed.

Lemma foldl_min_width x l : width 4 x -> Forall (width 4) l -> width 4 (foldl Z.min x l) /\ width 4 (foldl Z.max x l).
Proof.
  intros Hx Hl. unfold width in *. split.
  - revert x Hx. induction Hl as [|y l Hy _ IH]; intros x Hx; cbn [foldl]; [done|]. apply IH. lia.
  - revert x Hx. induction Hl as [|y l Hy _ IH]; intros x Hx; cbn [foldl]; [done|]. apply IH. lia.
Qed.

Lemma event_height_width e : event_wf e -> width 4 (event_height e).
Proof. destruct e as [r|s]; cbn; intros; by destruct_and?. Qed.

Lemma heights_width l mn mx : Forall event_wf l -> heights_min l = Some mn -> heights_max l = Some mx -> width 4 mn /\ width 4 mx.
Proof.
  intros Hl. destruct l as [|e l]; [done|]. cbn. intros [= <-] [= <-]. apply Forall_cons in Hl as [He Hl].
  apply foldl_min_width; [by apply event_height_width|]. apply Forall_map. eapply Forall_impl; [exact Hl|]. apply event_height_width.
Qed.

Lemma encode_from_Ok p l : Forall event_wf l -> Forall (fun e => validate_metadata e = Ok () /\ is_sentinel e = false) l ->
  exists b, encode_from p l = Ok b.
Proof.
  intros Hwf Hv. revert p. induction Hwf as [|e l He _ IH]; intros p; cbn [encode_from]; [eauto|].
  apply Forall_cons in Hv as [[Hv Hs] Hvl]. rewrite (proj2 (encode_event_Ok p e _ He)) by done. cbn [mbind res_bind].
  destruct (IH Hvl (Some e)) as [b ->]. cbn [mbind res_bind]. eauto.
Qed.

(** An entry of a run can be encoded, and is what its bytes decode to. *)
Lemma entry_of_run_ok e : entry_of_run runs.*1 e ->
  page_entry_wf e /\ page_entry_canonical e /\ (exists b, page_entry_bytes e = Ok b) /\ 91 <= page_entry_len e.
Proof using Hevents Hlinks Htaglen Hlinkwf Hvalid.
  intros (s & r & i & f & Hin & Hs & Hi & [E1 E2 E3 E4 E5 E6 E7]). destruct (run_events s r Hin) as (_ & Hwf & Hlen).
  destruct (fragment_of_run s r i f Hin Hi) as (a & b & Hr & [Hne Hfit]). pose proof (fragment_events f Hfit) as H86.
  assert (Forall event_wf f) as Hwff by (rewrite Hr, !Forall_app in Hwf; tauto).
  rewrite Forall_forall in Hvalid. destruct (Hvalid _ Hin) as [Hv Ho]. cbn in Hv, Ho.
  assert (Forall (fun e => validate_metadata e = Ok () /\ is_sentinel e = false) f) as Hvf by (rewrite Hr, !Forall_app in Hv; tauto).
  rewrite Hr in Ho. apply out_of_order_middle in Ho. pose proof (lookup_lt_Some _ _ _ Hi) as Hlt.
  assert (blen (fragments r) <= blen r) as Hle.
  { destruct (fragments_count r) as [? _]; [eapply Forall_impl; [exact Hwf|]; apply event_wf_fits|]. unfold blen. lia. }
  destruct (heights_width f _ _ Hwff E6 E7) as [W1 W2].
  assert (width 4 (Z.of_nat i) /\ width 4 (blen (fragments r))) as [W3 W4] by (unfold width, blen, u32_limit in *; lia).
  assert (link_well_formed (link e) = true /\ link_wf (link e)) as [L1 L2].
  { rewrite E5. case_decide; [auto|]. split; [done|]. unfold link_wf, width. cbn. lia. }
  split_and!.
  - unfold page_entry_wf. rewrite E1, E2, E3, E4. split_and!; auto.
  - unfold page_entry_canonical. rewrite E2, E3, E4. split_and!; [unfold blen; lia|done..].
  - destruct (encode_from_Ok None f Hwff Hvf) as [bs Hbs]. exists (page_entry_header e ++ bs). apply page_entry_bytes_Ok.
    split; [|exists bs; by rewrite E4]. rewrite <- E4 in H86, Hne. split.
    + destruct (pe_events e) as [|x k]; [done|]. rewrite blen_cons in *. pose proof (blen_nonneg k). lia.
    + unfold link_refused. rewrite L1, E2, E5. cbn [negb orb]. case_decide as Hi0; [by subst|].
      rewrite (bool_decide_eq_true_2 (no_link = no_link)) by done. apply andb_false_r.
  - unfold page_entry_len, PAGE_ENTRY_HEADER_BYTES. rewrite E4. unfold encoded_len. destruct f as [|x f]; [done|]. cbn [encoded_len_from].
    pose proof (encoded_len_from_nonneg (Some x) f). pose proof (event_len_context x None).
    enough (51 <= event_len x None) by lia. assert (0 <= match event_metadata x with Some m => metadata_encoded_len m | None => 0 end).
    { destruct (event_metadata x) as [m|]; [|lia]. apply metadata_encoded_len_nonneg. }
    unfold event_len, RECEIVE_BYTES, SPEND_BYTES. destruct x; [lia|]. change (local (Spend e0) None) with false. cbn [event_metadata] in *. lia.
Qed.

Lemma row_ok_encodes row : Forall (entry_of_run runs.*1) row -> entries_len row <= ROW_PAYLOAD -> NoDup (map pe_tag row) ->
  exists bytes, encode_page_row row = Ok bytes /\ decode_page_row bytes = Ok row.
Proof using Hevents Hlinks Htaglen Hlinkwf Hvalid.
  intros He Hl Ht. assert (Forall (fun e => page_entry_wf e /\ page_entry_canonical e) row) as Hwf.
  { eapply Forall_impl; [exact He|]. intros e (? & ? & _)%entry_of_run_ok. done. }
  assert (exists bss, Forall2 (fun e b => page_entry_bytes e = Ok b) row bss) as [bss HF].
  { clear -He Hevents Hlinks Htaglen Hlinkwf Hvalid. induction He as [|e row (_ & _ & [b Hb] & _)%entry_of_run_ok _ [bss IH]]; [by exists []|].
    exists (b :: bss). by constructor. }
  assert (91 * blen row <= entries_len row) as Hmany.
  { clear -He Hevents Hlinks Htaglen Hlinkwf Hvalid. induction He as [|e row (_ & _ & _ & H91)%entry_of_run_ok _ IH]; [done|].
    rewrite blen_cons. cbn [entries_len foldr]. fold (entries_len row). lia. }
  assert (encode_page_row row = Ok (pad_to PAGE_ROW_BYTES (le_split 4 (blen row) ++ concat bss))) as E.
  { apply encode_page_row_Ok; [by eapply Forall_impl; [exact Hwf|]; intros e []|].
    change MAX_ENTRIES_PER_ROW with 44. change ROW_PAYLOAD with 4092 in *. change PAGE_ROW_BYTES with 4096. split_and!; [lia|split; [done|]|].
    - apply Forall_forall. intros e _. by apply not_elem_of_nil.
    - exists bss. rewrite (entries_len_bytes row bss); [split_and!; [done|lia|done]| |done].
      by eapply Forall_impl; [exact Hwf|]; intros e []. }
  eexists. split; [exact E|]. by apply decode_page_row_of.
Qed.

Lemma select_own row s r i f e : NoDup (map pe_tag row) -> e ∈ row -> frag_entry s r i f e ->
  filter (fun e => pe_tag e = tag_of s) row = [e].
Proof.
  intros Hnd He Hfe. induction row as [|x row IH]; [by apply not_elem_of_nil in He|].
  cbn in Hnd. apply NoDup_cons in Hnd as [Hx Hnd]. rewrite filter_cons. apply elem_of_cons in He as [->|He].
  - rewrite decide_True by apply Hfe. f_equal. destruct (filter _ row) as [|y k] eqn:E; [done|]. exfalso.
    assert (y ∈ filter (fun e => pe_tag e = tag_of s) row) as Hy by (rewrite E; by left). apply list_elem_of_filter in Hy as [Ht Hy].
    apply Hx. rewrite (fe_tag _ _ _ _ _ Hfe), <- Ht. by apply list_elem_of_fmap_2.
  - rewrite decide_False; [by apply IH|]. intros Ht. apply Hx. rewrite Ht, <- (fe_tag _ _ _ _ _ Hfe). by apply list_elem_of_fmap_2.
Qed.
End Layout.

(** ** What a page shard promises *)

(** ** What is required of the runs of a page shard *)

(** Scripts are distinct and have distinct tags, no run is empty, the events have the widths
    of their types, and the fragments can be numbered. *)
Record shard_input (runs : list (script * list TransparentEvent)) (tag_of : script -> list byte)
    (link_of : script -> RunLink) : Prop := {
  si_scripts : NoDup runs.*1;
  si_tags : forall s s', s ∈ runs.*1 -> s' ∈ runs.*1 -> tag_of s = tag_of s' -> s = s';
  si_events : Forall (fun sr => sr.2 <> [] /\ Forall event_wf sr.2 /\ blen sr.2 < u32_limit) runs;
  si_links : forall s, s ∈ runs.*1 -> link_well_formed (link_of s) = true;
  si_limit : total_fragments runs < u32_limit }.

(** The events can be encoded and are in order; tags and links have their widths. *)
Record shard_valid (runs : list (script * list TransparentEvent)) (tag_of : script -> list byte)
    (link_of : script -> RunLink) : Prop := {
  sv_tags : forall s, s ∈ runs.*1 -> blen (tag_of s) = SCRIPT_TAG_BYTES;
  sv_links : forall s, s ∈ runs.*1 -> link_wf (link_of s);
  sv_events : Forall (fun sr => Forall (fun e => validate_metadata e = Ok () /\ is_sentinel e = false) sr.2 /\
    out_of_order sr.2 = false) runs }.

(** [for row in &laid.rows { pages.extend_from_slice(&encode_page_row(row)?) }] of [close_child] *)
Fixpoint encode_rows (rows : list (list PageEntry)) : run RecordError (list (list byte)) :=
  match rows with
  | [] => Ok []
  | row :: rows =>
      b ← encode_page_row row;
      bs ← encode_rows rows;
      Ok (b :: bs)
  end.

(** What a reader does that knows the tag and the first row of a run: it decodes so many rows
    and takes the events of the entry with the tag. *)
Fixpoint read_run (table : list (list byte)) (tag : list byte) (row : nat) (count : nat) : option (list TransparentEvent) :=
  match count with
  | O => Some []
  | S count =>
      bytes ← table !! row;
      match decode_page_row bytes with
      | Ok entries =>
          match filter (fun e => pe_tag e = tag) entries with
          | [e] => rest ← read_run table tag (S row) count; Some (pe_events e ++ rest)
          | _ => None
          end
      | Err _ => None
      end
  end.

Lemma encode_rows_Ok rows : Forall (fun row => exists b, encode_page_row row = Ok b /\ decode_page_row b = Ok row) rows ->
  exists table, encode_rows rows = Ok table /\
    forall i row, rows !! i = Some row -> exists b, table !! i = Some b /\ decode_page_row b = Ok row.
Proof.
  induction 1 as [|row rows (b & Hb & Hd) _ (table & IH & Hall)]; cbn [encode_rows]; [by exists []|].
  rewrite Hb. cbn [mbind res_bind]. rewrite IH. cbn [mbind res_bind]. eexists. split; [done|]. intros [|i] row' Hi; [|by apply Hall].
  injection Hi as <-. by exists b.
Qed.

Lemma read_run_located tag_of link_of table rows first s r :
  located tag_of link_of rows first s r -> Forall (fun row => NoDup (map pe_tag row)) rows ->
  (forall i row, rows !! i = Some row -> exists b, table !! i = Some b /\ decode_page_row b = Ok row) ->
  exists p, first !! s = Some (Z.of_nat p + 1) /\ read_run table (tag_of s) p (length (fragments r)) = Some (concat (fragments r)).
Proof.
  intros (p & Hp & Hl) Hnd Ht. exists p. split; [done|].
  enough (forall n k, (k + n = length (fragments r))%nat ->
    read_run table (tag_of s) (p + k) n = Some (concat (drop k (fragments r)))) as Hread.
  { specialize (Hread (length (fragments r)) 0%nat eq_refl). by rewrite Nat.add_0_r, drop_0 in Hread. }
  induction n as [|n IH]; intros k Hk; cbn [read_run]; [by rewrite drop_ge by lia|].
  destruct (lookup_lt_is_Some_2 (fragments r) k) as [f Hf]; [lia|]. destruct (Hl k f Hf) as (row & e & Hrow & He & Hfe).
  destruct (Ht _ _ Hrow) as (b & -> & Hd). cbn [mbind option_bind]. rewrite Hd.
  rewrite (select_own tag_of link_of row s r k f e) by (try done; by eapply Forall_lookup in Hnd).
  replace (S (p + k)) with (p + S k)%nat by lia. rewrite (IH (S k)) by lia. cbn [mbind option_bind].
  rewrite (drop_S (fragments r) f k) by done. cbn [concat]. by rewrite (fe_events _ _ _ _ _ _ _ Hfe).
Qed.

(** C25: Laying out a page shard.  [lay_out_runs] succeeds, so the number of rows it emits is
    the one that [PackedDemand] predicts from multiplicities alone; no row is overfull or has
    a tag twice; and the fragments of each run, in order, with the count and the link on the
    first, lie in consecutive rows from the first row that is reported for its script. *)
Theorem lay_out_runs_as_predicted runs tag_of link_of :
  shard_input runs tag_of link_of ->
  exists out, lay_out_runs runs tag_of link_of = Ok out /\ laid_fragments out = total_fragments runs /\
    rows_ok runs tag_of link_of runs.*1 (laid_rows out) /\
    forall s r, (s, r) ∈ runs -> located tag_of link_of (laid_rows out) (first_rows out) s r.
Proof. intros []. by apply lay_out_runs_spec. Qed.

(** C24: A published page shard can be read.  For runs of valid events in order, every row that
    [lay_out_runs] emits is encoded without an error, and a reader that has the tag and the
    first row of a script decodes the rows from there on, takes the one entry with its tag of
    each, and obtains the events of the run. *)
Theorem page_shard_readable runs tag_of link_of :
  shard_input runs tag_of link_of -> shard_valid runs tag_of link_of ->
  exists out table, lay_out_runs runs tag_of link_of = Ok out /\ encode_rows (laid_rows out) = Ok table /\
    forall s r, (s, r) ∈ runs -> exists p, first_rows out !! s = Some (Z.of_nat p + 1) /\
      read_run table (tag_of s) p (length (fragments r)) = Some r.
Proof.
  intros [S1 S2 S3 S4 S5] [V1 V2 V3].
  destruct (lay_out_runs_spec runs tag_of link_of S2 S1 S3 S4 S5) as (out & Hout & _ & [Hf He Ht] & Hloc).
  destruct (encode_rows_Ok (laid_rows out)) as (table & Htable & Hrows).
  { apply Forall_lookup. intros i row Hi. rewrite Forall_lookup in Hf, He, Ht.
    apply (row_ok_encodes runs tag_of link_of S3 S4 V1 V2 V3 row (He i row Hi) (Hf i row Hi) (Ht i row Hi)). }
  exists out, table. split_and!; [done|done|]. intros s r Hin.
  destruct (read_run_located tag_of link_of table (laid_rows out) (first_rows out) s r (Hloc s r Hin) Ht Hrows) as (p & Hp & Hr).
  exists p. split; [done|]. destruct (run_fragments runs S3 s r Hin) as (Hc & _). by rewrite Hr, Hc.
Qed.
