(* ===== verification/DirectoryPlacement.v ===== *)
(** * Directories: salts, tags and candidate rows

    The files [directory/tag.rs] and [directory/bucket.rs] of [zakura/pir-protocol], with their
    uses in [transparent/shard/tag.rs] and [transparent/shard/choice.rs].  SHA-256 is the crate
    sha2: a function from bytes to 32 bytes. *)

From S2P Require Import Prelude BitStream ShardEvents ShardEventProofs ShardCompact ShardRecords.
From S2P Require Import ShardPacking.

(** [Sha256::digest] of the concatenated updates *)
Class Sha256 : Type := { sha256 : list byte -> list byte }.
Class Sha256Laws `{!Sha256} : Prop := { sha256_length : forall b, blen (sha256 b) = 32 }.

(** [x as u32], for an index *)
Definition as_u32 (x : Z) : Z := x mod u32_limit.
Definition u32_index (x : nat) : nat := Z.to_nat (as_u32 (Z.of_nat x)).

(** [v[i]] *)
Definition at_index {A} (l : list A) (i : nat) : exec A := expect (l !! i).

(** ** Candidate rows: [directory/bucket.rs] *)

Section Hashing.
Context `{!Sha256}.

(** [bucket_salts]: the two salts of [std::array::from_fn] *)
Definition bucket_salts (domain context : list byte) : list byte * list byte :=
  let salt choice := sha256 (domain ++ context ++ le_split 4 choice) in (salt 0, salt 1).

(** [bucket_for]; the remainder panics for a table without rows *)
Definition bucket_for (salt key : list byte) (rows : Z) : exec Z :=
  let digest := sha256 (salt ++ le_split 4 (as_u32 (blen key)) ++ key) in
  if rows =? 0 then Err AssertFailed else Ok (le_combine (slice 0 8 digest) mod rows).

(** [candidates] *)
Definition candidates (salts : list byte * list byte) (key : list byte) (rows : Z) : exec (Z * Z) :=
  a ← bucket_for (fst salts) key rows;
  b ← bucket_for (snd salts) key rows;
  Ok (a, b).

(** ** Tags: [directory/tag.rs] *)

Definition TAG_BYTES : Z := 14.

(** [salt] and [tag] *)
Definition tag_salt_of (domain : list byte) (parts : list (list byte)) : list byte := sha256 (domain ++ concat parts).
Definition tag_of_key (domain salt : list byte) (key : list (list byte)) : list byte :=
  slice 0 TAG_BYTES (sha256 (domain ++ salt ++ concat key)).

(** [keys.iter().all(|key| seen.insert(tag_of(&salt, key)))] *)
Fixpoint all_fresh (tags : list (list byte)) (seen : gset (list byte)) : bool :=
  match tags with
  | [] => true
  | t :: tags => if decide (t ∈ seen) then false else all_fresh tags ({[t]} ∪ seen)
  end.

(** [resolve_salt] *)
Fixpoint resolve_salt (counters : list Z) (salt_at : Z -> list byte) (keys : list (list byte))
    (tag_of : list byte -> list byte -> list byte) : option (Z * list byte) :=
  match counters with
  | [] => None
  | counter :: counters =>
      let salt := salt_at counter in
      if all_fresh (map (tag_of salt) keys) ∅ then Some (counter, salt)
      else resolve_salt counters salt_at keys tag_of
  end.
End Hashing.

(** ** Lemmas *)

Lemma all_fresh_true tags seen :
  all_fresh tags seen = true <-> NoDup tags /\ Forall (fun t => t ∉ seen) tags.
Proof.
  revert seen. induction tags as [|t tags IH]; intros seen; cbn [all_fresh]; [split; auto using NoDup_nil_2|].
  rewrite NoDup_cons, Forall_cons. case_decide as Ht; [naive_solver|]. rewrite IH, !Forall_forall.
  split.
  - intros [Hn Hf]. split_and!; [|done|done|]; [intros Hin; specialize (Hf t Hin)|intros x Hx; specialize (Hf x Hx)]; set_solver.
  - intros ((Hnt & Hn) & _ & Hf). split; [done|]. intros x Hx. specialize (Hf x Hx). set_solver.
Qed.

(** The salt that is found gives distinct tags, and is that of its counter; every counter
    before it gave two keys the same tag. *)
Lemma resolve_salt_Some counters salt_at keys tag_of counter salt :
  resolve_salt counters salt_at keys tag_of = Some (counter, salt) ->
  salt = salt_at counter /\ counter ∈ counters /\ NoDup (map (tag_of salt) keys).
Proof.
  induction counters as [|c counters IH]; cbn [resolve_salt]; [done|].
  destruct (all_fresh _ _) eqn:E; [|intros H; destruct (IH H); set_solver].
  intros [= <- <-]. apply all_fresh_true in E as [E _]. split_and!; [done|set_solver|done].
Qed.

Lemma resolve_salt_None counters salt_at keys tag_of :
  resolve_salt counters salt_at keys tag_of = None <->
  Forall (fun c => ~ NoDup (map (tag_of (salt_at c)) keys)) counters.
Proof.
  induction counters as [|c counters IH]; cbn [resolve_salt]; [done|]. rewrite Forall_cons, <- IH.
  destruct (all_fresh _ _) eqn:E.
  - apply all_fresh_true in E as [E _]. naive_solver.
  - split; [|naive_solver]. intros H. split; [|done]. intros Hn.
    enough (all_fresh (map (tag_of (salt_at c)) keys) ∅ = true) by congruence.
    apply all_fresh_true. split; [done|]. apply Forall_forall. set_solver.
Qed.

Lemma filter_ext_elem {A} (P Q : A -> Prop) `{!forall x, Decision (P x), !forall x, Decision (Q x)} (l : list A) :
  (forall x, x ∈ l -> P x <-> Q x) -> filter P l = filter Q l.
Proof.
  induction l as [|x l IH]; intros Hpq; [done|]. rewrite !filter_cons, IH by (intros y Hy; apply Hpq; by right).
  pose proof (Hpq x ltac:(left)). repeat case_decide; tauto.
Qed.

Lemma as_u32_small x : 0 <= x < u32_limit -> as_u32 x = x.
Proof. intros H. unfold as_u32. by rewrite Z.mod_small. Qed.

Lemma u32_index_small n : Z.of_nat n < u32_limit -> u32_index n = n.
Proof. intros H. unfold u32_index. rewrite as_u32_small by lia. lia. Qed.

Section HashingLemmas.
Context `{!Sha256}.

Lemma bucket_for_range salt key rows : 0 < rows -> exists r, bucket_for salt key rows = Ok r /\ 0 <= r < rows.
Proof.
  intros Hr. unfold bucket_for. destruct (Z.eqb_spec rows 0); [lia|]. eexists. split; [done|]. by apply Z.mod_pos_bound.
Qed.

Lemma candidates_range salts key rows :
  0 < rows -> exists a b, candidates salts key rows = Ok (a, b) /\ 0 <= a < rows /\ 0 <= b < rows.
Proof.
  intros Hr. unfold candidates. destruct (bucket_for_range (fst salts) key rows Hr) as (a & -> & Ha).
  destruct (bucket_for_range (snd salts) key rows Hr) as (b & -> & Hb). by exists a, b.
Qed.
End HashingLemmas.

(** * Two-choice placement of directory entries

    [FixedRows] of [zakura/pir-publisher/src/directory.rs]: rows of so many bytes, in which
    each key lies in one of its two candidate rows.  A key that fits in neither is placed
    after residents were moved to their other candidate along the shortest path that a
    breadth-first search finds; a batch that fails is undone.

    Indices ([u32], [usize]) are natural numbers, with [as u32] written out; sizes are [Z].
    Sums of sizes stay below twice the capacity and are exact. *)

Record Entry : Type := MkEntry { e_candidates : nat * nat; e_size : Z; e_row : nat }.

Record FixedRows : Type := MkFixedRows {
  fr_salts : list byte * list byte; capacity : Z; occupants : list (list nat); used : list Z;
  fr_entries : list Entry }.

Record Move : Type := MkMove { placed : nat; moved_entry : nat; from : nat; position : nat }.

Record Placement : Type := MkPlacement { pl_segments : Z; max_row_load : Z; max_row_bytes : Z }.

(** [struct Node] of the search: the row, the bytes it must take, and the node that it frees
    with the resident that would move *)
Record Node : Type := MkNode { n_row : nat; need : Z; parent : option (nat * nat) }.

Definition MAX_RELOCATION_VISITS : nat := 512.

(** [FixedRows::new] *)
Definition fixed_rows_new (salts : list byte * list byte) (rows cap : Z) : FixedRows :=
  MkFixedRows salts cap (replicate (Z.to_nat rows) []) (replicate (Z.to_nat rows) 0) [].

(** ** The search *)

(** [v.iter().position(|e| *e == x)] *)
Fixpoint position_of (x : nat) (l : list nat) : option nat :=
  match l with
  | [] => None
  | y :: l => if (y =? x)%nat then Some O else S <$> position_of x l
  end.

(** One turn of the loop that applies a path: the resident moves from the row of the parent to
    the row of the node *)
Definition apply_move (fr : FixedRows) (from to moved : nat) : exec (FixedRows * Move) :=
  source ← at_index (occupants fr) from;
  pos ← expect (position_of moved source);
  let occ := <[from := delete pos source]> (occupants fr) in
  target ← at_index occ to;
  let occ := <[to := target ++ [moved]]> occ in
  entry ← at_index (fr_entries fr) moved;
  u ← at_index (used fr) from;
  u ← checked_minus u (e_size entry);
  let used := <[from := u]> (used fr) in
  w ← at_index used to;
  let used := <[to := w + e_size entry]> used in
  let entries := <[moved := MkEntry (e_candidates entry) (e_size entry) (u32_index to)]> (fr_entries fr) in
  Ok (MkFixedRows (fr_salts fr) (capacity fr) occ used entries,
      MkMove (u32_index (length (fr_entries fr))) moved (u32_index from) pos).

(** [while let Some((parent, moved)) = nodes[at].parent]: the fuel bounds the length of a path *)
Fixpoint apply_path (fuel : nat) (nodes : list Node) (at_ : nat) (fr : FixedRows) (moves : list Move)
    : exec (FixedRows * list Move * nat) :=
  n ← at_index nodes at_;
  match parent n with
  | None => Ok (fr, moves, n_row n)
  | Some (p, moved) =>
      match fuel with
      | O => Err OutOfFuel
      | S fuel =>
          np ← at_index nodes p;
          fm ← apply_move fr (n_row np) (n_row n) moved;
          let (fr, mv) := fm : FixedRows * Move in
          apply_path fuel nodes p fr (moves ++ [mv])
      end
  end.

(** [while let Some(at) = ancestor]: whether the row is on the path to the root *)
Fixpoint cyclic (fuel : nat) (nodes : list Node) (at_ : nat) (alternate : nat) : exec bool :=
  n ← at_index nodes at_;
  if (n_row n =? alternate)%nat then Ok true else
  match parent n with
  | None => Ok false
  | Some (p, _) =>
      match fuel with
      | O => Err OutOfFuel
      | S fuel => cyclic fuel nodes p alternate
      end
  end.

(** [entry.candidates.into_iter().find(|r| *r != row)] *)
Definition alternate_row (e : Entry) (row : nat) : option nat :=
  let (a, b) := e_candidates e in
  if negb (a =? row)%nat then Some a else if negb (b =? row)%nat then Some b else None.

(** [for &resident in &self.occupants[row]] *)
Fixpoint expand (fr : FixedRows) (cursor row : nat) (need : Z) (residents : list nat) (nodes : list Node)
    (seen : gset (nat * Z)) : exec (list Node * gset (nat * Z)) :=
  match residents with
  | [] => Ok (nodes, seen)
  | resident :: residents =>
      entry ← at_index (fr_entries fr) resident;
      u ← at_index (used fr) row;
      left ← checked_minus u (e_size entry);
      if capacity fr <? left + need then expand fr cursor row need residents nodes seen else
      match alternate_row entry row with
      | None => expand fr cursor row need residents nodes seen
      | Some alternate =>
          c ← cyclic cursor nodes cursor alternate;
          if (c : bool) then expand fr cursor row need residents nodes seen else
          if decide ((alternate, e_size entry) ∈ seen) then expand fr cursor row need residents nodes seen else
          let seen := {[(alternate, e_size entry)]} ∪ seen in
          let nodes := if (length nodes <? MAX_RELOCATION_VISITS)%nat
                       then nodes ++ [MkNode alternate (e_size entry) (Some (cursor, resident))] else nodes in
          expand fr cursor row need residents nodes seen
      end
  end.

(** [while cursor < nodes.len() && cursor < MAX_RELOCATION_VISITS]: [visits] is what is left of
    the bound *)
Fixpoint search (visits : nat) (fr : FixedRows) (cursor : nat) (nodes : list Node) (seen : gset (nat * Z))
    (moves : list Move) : exec (FixedRows * list Move * option nat) :=
  match visits with
  | O => Ok (fr, moves, None)
  | S visits =>
      match nodes !! cursor with
      | None => Ok (fr, moves, None)
      | Some n =>
          u ← at_index (used fr) (n_row n);
          if u + need n <=? capacity fr then
            fmr ← apply_path cursor nodes cursor fr moves;
            let '(fr, moves, r) := fmr : FixedRows * list Move * nat in
            Ok (fr, moves, Some r)
          else
            residents ← at_index (occupants fr) (n_row n);
            ns ← expand fr cursor (n_row n) (need n) residents nodes seen;
            let (nodes, seen) := ns : list Node * gset (nat * Z) in
            search visits fr (S cursor) nodes seen moves
      end
  end.

(** [for row in roots] *)
Definition root_nodes (roots : nat * nat) (incoming : Z) : list Node * gset (nat * Z) :=
  let (a, b) := roots in
  let seen := {[(a, incoming)]} in
  if decide ((b, incoming) ∈ (seen : gset (nat * Z))) then ([MkNode a incoming None], seen)
  else ([MkNode a incoming None; MkNode b incoming None], {[(b, incoming)]} ∪ seen).

(** [FixedRows::relocate] *)
Definition relocate (fr : FixedRows) (roots : nat * nat) (incoming : Z) (moves : list Move)
    : exec (FixedRows * list Move * option nat) :=
  let (nodes, seen) := root_nodes roots incoming in
  search MAX_RELOCATION_VISITS fr 0 nodes seen moves.

(** ** Undoing a batch *)

(** [v.pop()] without its result *)
Definition pop {A} (l : list A) : list A := take (pred (length l)) l.
(** [v.insert(at, x)]: panics beyond the end *)
Definition insert_at {A} (i : nat) (x : A) (l : list A) : exec (list A) :=
  if (i <=? length l)%nat then Ok (take i l ++ x :: drop i l) else Err AssertFailed.

(** One turn of [FixedRows::truncate] *)
Definition remove_newest (fr : FixedRows) : exec FixedRows :=
  entry ← expect (last (fr_entries fr));
  occ ← at_index (occupants fr) (e_row entry);
  u ← at_index (used fr) (e_row entry);
  u ← checked_minus u (e_size entry);
  Ok (MkFixedRows (fr_salts fr) (capacity fr) (<[e_row entry := pop occ]> (occupants fr))
        (<[e_row entry := u]> (used fr)) (pop (fr_entries fr))).

(** [FixedRows::truncate]: [excess] is [self.entries.len() - len] *)
Fixpoint remove_excess (excess : nat) (fr : FixedRows) : exec FixedRows :=
  match excess with
  | O => Ok fr
  | S excess => fr ← remove_newest fr; remove_excess excess fr
  end.
Definition fr_truncate (fr : FixedRows) (len : nat) : exec FixedRows := remove_excess (length (fr_entries fr) - len) fr.

(** One turn of [FixedRows::undo] *)
Definition undo_move (fr : FixedRows) (m : Move) : exec FixedRows :=
  fr ← fr_truncate fr (placed m);
  moved ← at_index (fr_entries fr) (moved_entry m);
  let to := e_row moved in
  occ ← at_index (occupants fr) to;
  let occs := <[to := pop occ]> (occupants fr) in
  source ← at_index occs (from m);
  source ← insert_at (position m) (moved_entry m) source;
  let occs := <[from m := source]> occs in
  u ← at_index (used fr) to;
  u ← checked_minus u (e_size moved);
  let used := <[to := u]> (used fr) in
  w ← at_index used (from m);
  let used := <[from m := w + e_size moved]> used in
  Ok (MkFixedRows (fr_salts fr) (capacity fr) occs used
        (<[moved_entry m := MkEntry (e_candidates moved) (e_size moved) (from m)]> (fr_entries fr))).

(** [moves.into_iter().rev()], and [FixedRows::undo] *)
Fixpoint undo_moves (fr : FixedRows) (newest_first : list Move) : exec FixedRows :=
  match newest_first with
  | [] => Ok fr
  | m :: older => fr ← undo_move fr m; undo_moves fr older
  end.
Definition undo (fr : FixedRows) (first : nat) (moves : list Move) : exec FixedRows :=
  fr ← undo_moves fr (rev moves); fr_truncate fr first.

(** ** Placing a batch *)

Section Placing.
Context `{!Sha256}.

(** The row of a key: the emptier candidate with room, or one that relocation frees *)
Definition choose_row (fr : FixedRows) (ab : nat * nat) (size : Z) (moves : list Move)
    : exec (FixedRows * list Move * option nat) :=
  let (a, b) := ab in
  ua ← at_index (used fr) a;
  ub ← at_index (used fr) b;
  let '(x, ux, y, uy) := if ua <=? ub then (a, ua, b, ub) else (b, ub, a, ua) in
  if ux + size <=? capacity fr then Ok (fr, moves, Some x) else
  if uy + size <=? capacity fr then Ok (fr, moves, Some y) else
  relocate fr (a, b) size moves.

(** The end of a turn: the entry joins its row *)
Definition put_entry (fr : FixedRows) (cand : nat * nat) (size : Z) (row : nat) : exec FixedRows :=
  occ ← at_index (occupants fr) row;
  u ← at_index (used fr) row;
  Ok (MkFixedRows (fr_salts fr) (capacity fr)
        (<[row := occ ++ [u32_index (length (fr_entries fr))]]> (occupants fr))
        (<[row := u + size]> (used fr))
        (fr_entries fr ++ [MkEntry cand size (u32_index row)])).

(** [for (index, (key, &size)) in keys.iter().zip(sizes).enumerate()]; the result is the state
    with the index of a key that fits nowhere *)
Fixpoint insert_loop (first index : nat) (batch : list (list byte * Z)) (fr : FixedRows) (moves : list Move)
    : exec (FixedRows * res nat unit) :=
  match batch with
  | [] => Ok (fr, Ok ())
  | (key, size) :: batch =>
      c ← candidates (fr_salts fr) key (blen (used fr));
      let ab := (Z.to_nat (as_u32 (fst c)), Z.to_nat (as_u32 (snd c))) in
      fmr ← choose_row fr ab size moves;
      let '(fr, moves, row) := fmr : FixedRows * list Move * option nat in
      match row with
      | None => fr ← undo fr first moves; Ok (fr, Err index)
      | Some row => fr ← put_entry fr ab size row; insert_loop first (S index) batch fr moves
      end
  end.

(** [sizes.iter().position(|size| *size == 0 || *size > self.capacity)] *)
Fixpoint bad_size (cap : Z) (index : nat) (sizes : list Z) : option nat :=
  match sizes with
  | [] => None
  | s :: sizes => if (s =? 0) || (cap <? s) then Some index else bad_size cap (S index) sizes
  end.

(** [FixedRows::insert] and [assignment] *)
Definition insert_batch (fr : FixedRows) (keys : list (list byte)) (sizes : list Z) : exec (FixedRows * res nat unit) :=
  _ ← assert_that (blen keys =? blen sizes);
  match bad_size (capacity fr) 0 sizes with
  | Some i => Ok (fr, Err i)
  | None => insert_loop (length (fr_entries fr)) 0 (zip keys sizes) fr []
  end.
Definition assignment (fr : FixedRows) : list nat := map e_row (fr_entries fr).

(** The greatest element, or zero *)
Definition max_or_zero (l : list Z) : Z := foldr Z.max 0 l.

(** [place]: [more] is the number of segments that may still be added *)
Fixpoint place_from (more : nat) (segments : Z) (salts : list byte * list byte) (keys : list (list byte))
    (sizes : list Z) (rows_per_segment cap : Z) : exec (res nat (Placement * list nat)) :=
  fi ← insert_batch (fixed_rows_new salts (rows_per_segment * segments) cap) keys sizes;
  let (fr, r) := fi : FixedRows * res nat unit in
  match r with
  | Ok _ =>
      Ok (Ok (MkPlacement segments (max_or_zero (map blen (occupants fr))) (max_or_zero (used fr)), assignment fr))
  | Err index =>
      match more with
      | S more =>
          size ← at_index sizes index;
          if (1 <=? size) && (size <=? cap)
          then place_from more (segments + 1) salts keys sizes rows_per_segment cap
          else Ok (Err index)
      | O => Ok (Err index)
      end
  end.
Definition place (salts : list byte * list byte) (keys : list (list byte)) (sizes : list Z)
    (rows_per_segment cap max_segments : Z) : exec (res nat (Placement * list nat)) :=
  place_from (Z.to_nat (max_segments - 1)) 1 salts keys sizes rows_per_segment cap.

(** [choice_bits] *)
Fixpoint choice_bits (salts : list byte * list byte) (keys : list (list byte)) (rows_of : list nat) (rows : Z)
    : exec (list (list byte * Z)) :=
  match keys, rows_of with
  | key :: keys, row :: rows_of =>
      c ← candidates salts key rows;
      rest ← choice_bits salts keys rows_of rows;
      Ok ((key, if Z.of_nat row =? fst c then 0 else 1) :: rest)
  | _, _ => Ok []
  end.
End Placing.
