(* ===== verification/DirectoryRelocation.v ===== *)
(** * The invariant of placement

    Every entry lies in one of its candidate rows, the rows list their entries, and no row is
    used beyond the capacity.  Moves and placements keep this, and can be undone exactly. *)

From S2P Require Import Prelude ShardEvents ShardPacking DirectoryPlacement.

(** The bytes of the entries with these numbers *)
Definition load (sizes : list Z) (l : list nat) : Z := foldr (fun i n => default 0 (sizes !! i) + n) 0 l.
Definition sizes_of_entries (fr : FixedRows) : list Z := map e_size (fr_entries fr).

Definition entry_ok (cap : Z) (rows : nat) (e : Entry) : Prop :=
  1 <= e_size e <= cap /\ (e_row e = fst (e_candidates e) \/ e_row e = snd (e_candidates e)) /\
  (fst (e_candidates e) < rows)%nat /\ (snd (e_candidates e) < rows)%nat.

(** The entries that a row lists *)
Definition lists_row (fr : FixedRows) (r : nat) (l : list nat) : Prop :=
  NoDup l /\ forall i, i ∈ l <-> exists e, fr_entries fr !! i = Some e /\ e_row e = r.

Record rows_ok_for (fr : FixedRows) : Prop := {
  ok_lengths : length (used fr) = length (occupants fr);
  ok_rows : Z.of_nat (length (used fr)) < u32_limit;
  ok_count : Z.of_nat (length (fr_entries fr)) < u32_limit;
  ok_entries : Forall (entry_ok (capacity fr) (length (used fr))) (fr_entries fr);
  ok_lists : forall r l, occupants fr !! r = Some l -> lists_row fr r l;
  ok_used : forall r l, occupants fr !! r = Some l ->
    used fr !! r = Some (load (sizes_of_entries fr) l) /\ load (sizes_of_entries fr) l <= capacity fr }.

(** ** Lists *)

Lemma position_of_Some x l p : position_of x l = Some p -> l !! p = Some x.
Proof.
  revert p. induction l as [|y l IH]; intros p; cbn [position_of]; [done|].
  destruct (Nat.eqb_spec y x) as [->|]; [by intros [= <-]|]. intros (p' & Hp & ->)%fmap_Some. cbn. by apply IH.
Qed.

Lemma position_of_elem x l : x ∈ l -> exists p, position_of x l = Some p.
Proof.
  induction l as [|y l IH]; [by intros ?%not_elem_of_nil|]. intros [->|Hx]%elem_of_cons; cbn [position_of].
  - rewrite Nat.eqb_refl. by exists O.
  - destruct (y =? x)%nat; [by exists O|]. destruct (IH Hx) as (p & ->). by exists (S p).
Qed.

Lemma pop_snoc {A} (l : list A) x : pop (l ++ [x]) = l.
Proof. unfold pop. rewrite length_app, Nat.add_1_r. cbn [pred]. by rewrite take_app_length. Qed.

Lemma insert_at_delete {A} (l : list A) p x : l !! p = Some x -> insert_at p x (delete p l) = Ok l.
Proof.
  intros H. pose proof (lookup_lt_Some _ _ _ H) as Hp.
  unfold insert_at. rewrite delete_take_drop, length_app, length_take, length_drop.
  replace (_ <=? _)%nat with true by (symmetry; apply Nat.leb_le; lia).
  assert (length (take p l) = p) as Ht by (rewrite length_take; lia).
  rewrite take_app_length', drop_app_length' by done. by rewrite take_drop_middle.
Qed.

Lemma load_app sizes l k : load sizes (l ++ k) = load sizes l + load sizes k.
Proof. unfold load. induction l as [|i l IH]; cbn; [done|]. rewrite IH. lia. Qed.

Lemma load_delete sizes l p i s :
  l !! p = Some i -> sizes !! i = Some s -> load sizes (delete p l) = load sizes l - s.
Proof.
  intros Hl Hs. rewrite <- (take_drop_middle l p i Hl) at 2. rewrite delete_take_drop, !load_app.
  cbn. rewrite Hs. cbn. unfold load. lia.
Qed.

Lemma load_nonneg sizes l : Forall (fun s => 0 <= s) sizes -> 0 <= load sizes l.
Proof.
  intros H. induction l as [|i l IH]; cbn; [done|]. unfold load in IH.
  destruct (sizes !! i) as [s|] eqn:E; cbn; [|lia]. apply (Forall_lookup_1 _ _ _ _ H) in E. lia.
Qed.

Lemma load_member sizes l i s :
  Forall (fun s => 0 <= s) sizes -> i ∈ l -> sizes !! i = Some s -> s <= load sizes l.
Proof.
  intros Hf (p & Hp)%list_elem_of_lookup Hs. pose proof (load_delete _ _ _ _ _ Hp Hs).
  pose proof (load_nonneg sizes (delete p l) Hf). lia.
Qed.

Lemma load_extend sizes l s : Forall (fun i => (i < length sizes)%nat) l -> load (sizes ++ [s]) l = load sizes l.
Proof.
  induction 1 as [|i l Hi _ IH]; cbn; [done|]. unfold load in IH. rewrite IH. by rewrite lookup_app_l.
Qed.

Lemma load_last sizes s n : length sizes = n -> load (sizes ++ [s]) [n] = s.
Proof. intros <-. unfold load. cbn [foldr]. rewrite lookup_app_r, Nat.sub_diag by done. cbn. lia. Qed.

Lemma elem_of_delete (l : list nat) p x i : NoDup l -> l !! p = Some x -> i ∈ delete p l <-> i ∈ l /\ i <> x.
Proof.
  intros Hn Hl. pose proof (take_drop_middle l p x Hl) as Hm. rewrite delete_take_drop.
  rewrite <- Hm in Hn. apply NoDup_app in Hn as (_ & Hd & [Hx _]%NoDup_cons).
  rewrite <- Hm at 3. rewrite !elem_of_app, elem_of_cons. split; [|naive_solver].
  intros [H|H]; (split; [tauto|intros ->]); [|done]. apply (Hd x); [done|left].
Qed.

Lemma NoDup_delete (l : list nat) p : NoDup l -> NoDup (delete p l).
Proof. intros H. eapply sublist_NoDup; [done|]. apply sublist_delete. Qed.

(** An entry that keeps its size changes no load. *)
Lemma sizes_insert (es : list Entry) i e e' :
  es !! i = Some e -> e_size e' = e_size e -> map e_size (<[i := e']> es) = map e_size es.
Proof.
  intros H He. rewrite list_fmap_insert, He. apply list_insert_id. by rewrite list_lookup_fmap, H.
Qed.

Section Rows.
Context (fr : FixedRows) (Hok : rows_ok_for fr).

Lemma sizes_nonneg : Forall (fun s => 0 <= s) (sizes_of_entries fr).
Proof.
  apply Forall_fmap. eapply Forall_impl; [apply (ok_entries _ Hok)|]. intros e (H & _). cbn. lia.
Qed.

Lemma entry_at i e : fr_entries fr !! i = Some e -> entry_ok (capacity fr) (length (used fr)) e.
Proof. apply (Forall_lookup_1 _ _ _ _ (ok_entries _ Hok)). Qed.

Lemma entry_row i e : fr_entries fr !! i = Some e -> (e_row e < length (used fr))%nat.
Proof. intros (_ & [-> | ->] & ?)%entry_at; tauto. Qed.

Lemma row_exists r : (r < length (used fr))%nat -> exists l, occupants fr !! r = Some l.
Proof. rewrite (ok_lengths _ Hok). apply lookup_lt_is_Some_2. Qed.

Lemma resident_listed i e : fr_entries fr !! i = Some e -> exists l, occupants fr !! e_row e = Some l /\ i ∈ l.
Proof.
  intros He. destruct (row_exists _ (entry_row _ _ He)) as (l & Hl). exists l. split; [done|].
  apply (proj2 (ok_lists _ Hok _ _ Hl)). eauto.
Qed.

Lemma listed_bound r l : occupants fr !! r = Some l -> Forall (fun i => (i < length (fr_entries fr))%nat) l.
Proof.
  intros Hl. apply Forall_forall. intros i Hi. apply (proj2 (ok_lists _ Hok _ _ Hl)) in Hi as (e & He & _).
  by eapply lookup_lt_Some.
Qed.
End Rows.

(** ** Moving a resident *)

(** The rows after an entry has moved *)
Definition moved_rows (fr : FixedRows) (from to i p : nat) (source target : list nat) (u w : Z) (e : Entry) : FixedRows :=
  MkFixedRows (fr_salts fr) (capacity fr) (<[to := target ++ [i]]> (<[from := delete p source]> (occupants fr)))
    (<[to := w + e_size e]> (<[from := u - e_size e]> (used fr)))
    (<[i := MkEntry (e_candidates e) (e_size e) to]> (fr_entries fr)).

Section Moving.
Context (fr : FixedRows) (Hok : rows_ok_for fr) (from to i p : nat) (source target : list nat) (u w : Z) (e : Entry).
Context (Hne : from <> to) (Hs : occupants fr !! from = Some source) (Ht : occupants fr !! to = Some target).
Context (Hp : position_of i source = Some p) (He : fr_entries fr !! i = Some e).
Context (Hu : used fr !! from = Some u) (Hw : used fr !! to = Some w).
Abbreviation fr' := (moved_rows fr from to i p source target u w e).

Lemma moved_size : sizes_of_entries fr !! i = Some (e_size e).
Proof using All. unfold sizes_of_entries. by rewrite list_lookup_fmap, He. Qed.

Lemma moved_fits : e_size e <= u.
Proof using All.
  destruct (ok_used _ Hok _ _ Hs) as [Hl _]. rewrite Hu in Hl. injection Hl as Hl. rewrite Hl.
  eapply load_member; [by apply sizes_nonneg| |apply moved_size]. by eapply list_elem_of_lookup_2, position_of_Some.
Qed.

Lemma rows_bound r l : occupants fr !! r = Some l -> (r < length (used fr))%nat.
Proof using All. intros H. rewrite (ok_lengths _ Hok). by eapply lookup_lt_Some. Qed.

Lemma apply_move_run :
  apply_move fr from to i = Ok (fr', MkMove (length (fr_entries fr)) i from p).
Proof using All.
  pose proof moved_fits as Hf. pose proof (rows_bound _ _ Hs). pose proof (rows_bound _ _ Ht).
  pose proof (ok_rows _ Hok). pose proof (ok_count _ Hok).
  unfold apply_move, at_index. rewrite Hs. run_ok. rewrite Hp. run_ok.
  rewrite list_lookup_insert_ne, Ht by done. run_ok. rewrite He. run_ok. rewrite Hu. run_ok.
  unfold checked_minus. destruct (Z.leb_spec (e_size e) u); [|lia]. run_ok.
  rewrite list_lookup_insert_ne, Hw by done. run_ok. rewrite !u32_index_small by lia. done.
Qed.

Lemma moved_entry_was : e_row e = from.
Proof using All.
  apply position_of_Some in Hp. apply list_elem_of_lookup_2 in Hp.
  apply (proj2 (ok_lists _ Hok _ _ Hs)) in Hp as (e0 & He0 & Hr). congruence.
Qed.

(** What the rows hold after the move *)
Lemma moved_lists r l : occupants fr' !! r = Some l -> lists_row fr' r l.
Proof using All.
  unfold moved_rows. cbn [occupants]. pose proof moved_entry_was as Hwas.
  pose proof (position_of_Some _ _ _ Hp) as Hi. pose proof (lookup_lt_Some _ _ _ He) as Hlt.
  pose proof (lookup_lt_Some _ _ _ Hs). pose proof (lookup_lt_Some _ _ _ Ht).
  assert (forall j e', <[i := MkEntry (e_candidates e) (e_size e) to]> (fr_entries fr) !! j = Some e' /\ e_row e' = r <->
    (j = i /\ r = to /\ e' = MkEntry (e_candidates e) (e_size e) to) \/ (j <> i /\ fr_entries fr !! j = Some e' /\ e_row e' = r)) as Hin.
  { intros j e'. destruct (decide (j = i)) as [->|]; [rewrite list_lookup_insert_eq by done|rewrite list_lookup_insert_ne by done]; naive_solver. }
  intros Hl. unfold lists_row. cbn [fr_entries].
  destruct (decide (r = to)) as [->|Hrt]; [|destruct (decide (r = from)) as [->|Hrf]].
  - rewrite list_lookup_insert_eq in Hl by (by rewrite length_insert). injection Hl as <-.
    destruct (ok_lists _ Hok _ _ Ht) as [Hn Hin'].
    assert (i ∉ target) as Hit by (intros (e0 & He0 & Hr0)%Hin'; congruence). split.
    + apply NoDup_app. split_and!; [done|set_solver|apply NoDup_singleton].
    + intros j. rewrite elem_of_app, list_elem_of_singleton, Hin'. setoid_rewrite Hin.
      destruct (decide (j = i)); naive_solver.
  - rewrite list_lookup_insert_ne, list_lookup_insert_eq in Hl by done. injection Hl as <-.
    destruct (ok_lists _ Hok _ _ Hs) as [Hn Hin']. split; [by apply NoDup_delete|].
    intros j. rewrite (elem_of_delete _ _ _ _ Hn Hi), Hin'. setoid_rewrite Hin. naive_solver.
  - rewrite !list_lookup_insert_ne in Hl by done. destruct (ok_lists _ Hok _ _ Hl) as [Hn Hin'].
    split; [done|]. intros j. rewrite Hin'. setoid_rewrite Hin. split; [|naive_solver].
    intros (e0 & He0 & Hr0). exists e0. right. split_and!; [|done|done]. intros ->. congruence.
Qed.

Lemma moved_sizes : sizes_of_entries fr' = sizes_of_entries fr.
Proof using All. by apply (sizes_insert _ _ e). Qed.

Lemma moved_ok : w + e_size e <= capacity fr -> (to = fst (e_candidates e) \/ to = snd (e_candidates e)) -> rows_ok_for fr'.
Proof using All.
  intros Hcap Hc. pose proof (position_of_Some _ _ _ Hp) as Hi.
  pose proof (lookup_lt_Some _ _ _ Hs). pose proof (lookup_lt_Some _ _ _ Ht).
  constructor; [cbn; rewrite !length_insert; apply Hok..| |apply moved_lists|].
  - unfold moved_rows. cbn [capacity used fr_entries]. rewrite !length_insert. apply Forall_insert; [apply (ok_entries _ Hok)|].
    destruct (entry_at _ Hok _ _ He) as (Hsz & _ & Hb). done.
  - intros r l Hl. rewrite moved_sizes. unfold moved_rows in Hl |- *. cbn [occupants used capacity] in Hl |- *.
    pose proof (ok_lengths _ Hok). destruct (ok_used _ Hok _ _ Ht) as [Ht1 Ht2], (ok_used _ Hok _ _ Hs) as [Hs1 Hs2].
    rewrite Hw in Ht1. rewrite Hu in Hs1. injection Ht1 as Ht1. injection Hs1 as Hs1.
    destruct (entry_at _ Hok _ _ He) as (Hsz & _).
    destruct (decide (r = to)) as [->|Hrt]; [|destruct (decide (r = from)) as [->|Hrf]].
    + rewrite list_lookup_insert_eq in Hl by (by rewrite length_insert). injection Hl as <-.
      rewrite list_lookup_insert_eq by (rewrite length_insert; lia). rewrite load_app. cbn. rewrite moved_size. cbn.
      split; [f_equal|]; lia.
    + rewrite list_lookup_insert_ne, list_lookup_insert_eq in Hl by done. injection Hl as <-.
      rewrite list_lookup_insert_ne, list_lookup_insert_eq by (done || lia).
      rewrite (load_delete _ _ _ _ _ Hi moved_size). split; [f_equal|]; lia.
    + rewrite !list_lookup_insert_ne in Hl by done. rewrite !list_lookup_insert_ne by done. by apply (ok_used _ Hok).
Qed.

(** The move can be undone. *)
Lemma moved_undone : undo_move fr' (MkMove (length (fr_entries fr)) i from p) = Ok fr.
Proof using All.
  pose proof (lookup_lt_Some _ _ _ He). pose proof (lookup_lt_Some _ _ _ Hs). pose proof (lookup_lt_Some _ _ _ Ht).
  pose proof (lookup_lt_Some _ _ _ Hu). pose proof (lookup_lt_Some _ _ _ Hw). pose proof moved_entry_was as Hwas.
  destruct (entry_at _ Hok _ _ He) as (Hsz & _). destruct (ok_used _ Hok _ _ Ht) as [Hwl _].
  assert (0 <= w) by (rewrite Hw in Hwl; injection Hwl as ->; apply load_nonneg, sizes_nonneg, Hok).
  unfold undo_move, fr_truncate, moved_rows, at_index. cbn [placed moved_entry DirectoryPlacement.from position fr_entries used occupants fr_salts capacity].
  rewrite length_insert, Nat.sub_diag. cbn [remove_excess]. run_ok. cbn [fr_entries used occupants fr_salts capacity].
  rewrite list_lookup_insert_eq by done. run_ok. cbn [e_row e_size e_candidates].
  rewrite (list_lookup_insert_eq _ to (target ++ [i])) by (by rewrite length_insert). run_ok. rewrite pop_snoc.
  rewrite list_insert_insert_eq, (list_insert_id (<[from:=_]> _) to target) by (by rewrite list_lookup_insert_ne).
  rewrite (list_lookup_insert_eq _ from (delete p source)) by done. run_ok. rewrite (insert_at_delete _ _ _ (position_of_Some _ _ _ Hp)). run_ok.
  rewrite list_insert_insert_eq, (list_insert_id _ from source) by done.
  rewrite list_lookup_insert_eq by (by rewrite length_insert). run_ok.
  unfold checked_minus. destruct (Z.leb_spec (e_size e) (w + e_size e)); [|lia]. run_ok.
  replace (w + e_size e - e_size e) with w by lia.
  rewrite list_insert_insert_eq, (list_insert_id (<[from:=_]> _) to w) by (by rewrite list_lookup_insert_ne).
  rewrite list_lookup_insert_eq by done. run_ok. replace (u - e_size e + e_size e) with u by lia.
  rewrite list_insert_insert_eq, (list_insert_id _ from u) by done.
  rewrite list_insert_insert_eq, (list_insert_id _ i) by (rewrite He; f_equal; rewrite <- Hwas; by destruct e).
  by destruct fr.
Qed.
End Moving.

(** ** Placing an entry *)

Definition put_rows (fr : FixedRows) (cand : nat * nat) (size : Z) (row : nat) (occ : list nat) (u : Z) : FixedRows :=
  MkFixedRows (fr_salts fr) (capacity fr) (<[row := occ ++ [length (fr_entries fr)]]> (occupants fr))
    (<[row := u + size]> (used fr)) (fr_entries fr ++ [MkEntry cand size row]).

Section Putting.
Context (fr : FixedRows) (Hok : rows_ok_for fr) (cand : nat * nat) (size : Z) (row : nat) (occ : list nat) (u : Z).
Context (Ho : occupants fr !! row = Some occ) (Hu : used fr !! row = Some u).
Abbreviation fr' := (put_rows fr cand size row occ u).

Lemma put_entry_run : put_entry fr cand size row = Ok fr'.
Proof using All.
  pose proof (lookup_lt_Some _ _ _ Hu). pose proof (ok_rows _ Hok). pose proof (ok_count _ Hok).
  unfold put_entry, at_index. rewrite Ho. run_ok. rewrite Hu. run_ok. rewrite !u32_index_small by lia. done.
Qed.

Lemma put_removed : 0 <= u -> 0 <= size -> remove_newest fr' = Ok fr.
Proof using All.
  intros Hu0 Hs0. pose proof (lookup_lt_Some _ _ _ Ho). pose proof (lookup_lt_Some _ _ _ Hu).
  unfold remove_newest, put_rows, at_index. cbn [fr_entries occupants used fr_salts capacity]. rewrite last_snoc. run_ok.
  cbn [e_row e_size]. rewrite list_lookup_insert_eq by done. run_ok. rewrite list_lookup_insert_eq by done. run_ok.
  unfold checked_minus. destruct (Z.leb_spec size (u + size)); [|lia]. run_ok.
  rewrite !pop_snoc, !list_insert_insert_eq. replace (u + size - size) with u by lia.
  rewrite (list_insert_id _ _ _ Ho), (list_insert_id _ _ _ Hu). by destruct fr.
Qed.

Lemma put_ok :
  1 <= size -> u + size <= capacity fr -> entry_ok (capacity fr) (length (used fr)) (MkEntry cand size row) ->
  Z.of_nat (length (fr_entries fr)) + 1 < u32_limit -> rows_ok_for fr'.
Proof using All.
  intros Hs Hc He Hn. pose proof (lookup_lt_Some _ _ _ Ho). pose proof (lookup_lt_Some _ _ _ Hu).
  assert (forall j e, (fr_entries fr ++ [MkEntry cand size row]) !! j = Some e <->
    fr_entries fr !! j = Some e \/ (j = length (fr_entries fr) /\ e = MkEntry cand size row)) as Hin.
  { intros j e. rewrite lookup_snoc_Some. pose proof (lookup_lt_Some (fr_entries fr) j e). naive_solver. }
  constructor; unfold put_rows; cbn [used occupants fr_entries capacity]; rewrite ?length_insert.
  - apply Hok.
  - apply Hok.
  - rewrite length_app. cbn. lia.
  - apply Forall_app. split; [apply (ok_entries _ Hok)|]. by apply Forall_singleton.
  - intros r l Hl. unfold lists_row. cbn [fr_entries]. setoid_rewrite Hin.
    destruct (decide (r = row)) as [->|Hr].
    + rewrite list_lookup_insert_eq in Hl by done. injection Hl as <-. destruct (ok_lists _ Hok _ _ Ho) as [Hd Hin'].
      assert (length (fr_entries fr) ∉ occ) as Hnew.
      { intros (e & He' & _)%Hin'. apply lookup_lt_Some in He'. lia. }
      split; [apply NoDup_app; split_and!; [done|set_solver|apply NoDup_singleton]|].
      intros j. rewrite elem_of_app, list_elem_of_singleton, Hin'. naive_solver.
    + rewrite list_lookup_insert_ne in Hl by done. destruct (ok_lists _ Hok _ _ Hl) as [Hd Hin'].
      split; [done|]. intros j. rewrite Hin'. naive_solver.
  - intros r l Hl. unfold sizes_of_entries. cbn [fr_entries]. rewrite map_app. cbn [map e_size].
    assert (forall r l, occupants fr !! r = Some l ->
      load (map e_size (fr_entries fr) ++ [size]) l = load (sizes_of_entries fr) l) as Hload.
    { intros r0 l0 Hl0. apply load_extend. unfold sizes_of_entries. rewrite length_map. by eapply listed_bound. }
    destruct (decide (r = row)) as [->|Hr].
    + rewrite list_lookup_insert_eq in Hl by done. injection Hl as <-. rewrite load_app, (Hload _ _ Ho).
      rewrite list_lookup_insert_eq by done. rewrite (load_last (sizes_of_entries fr)) by apply length_map.
      destruct (ok_used _ Hok _ _ Ho) as [Hl Hc']. rewrite Hu in Hl. injection Hl as Hl. split; [f_equal|]; lia.
    + rewrite list_lookup_insert_ne in Hl by done. rewrite list_lookup_insert_ne by done. rewrite (Hload _ _ Hl). by apply (ok_used _ Hok).
Qed.
End Putting.

(** * Relocation

    The nodes of the breadth-first search form a tree; a path to a root never passes a row
    twice, and each of its steps names a resident whose departure makes enough room.  Hence the
    moves along the path that is found succeed, leave room in a root, and can be undone. *)

(** What relocation does not change *)
Definition entry_shape (e : Entry) : (nat * nat) * Z := (e_candidates e, e_size e).
Record same_shape (fr fr' : FixedRows) : Prop := {
  shape_salts : fr_salts fr' = fr_salts fr;
  shape_capacity : capacity fr' = capacity fr;
  shape_rows : length (used fr') = length (used fr);
  shape_entries : map entry_shape (fr_entries fr') = map entry_shape (fr_entries fr) }.

Lemma same_shape_refl fr : same_shape fr fr.
Proof. by constructor. Qed.

Lemma same_shape_trans a b c : same_shape a b -> same_shape b c -> same_shape a c.
Proof. intros [] []. constructor; congruence. Qed.

Lemma same_shape_count a b : same_shape a b -> length (fr_entries b) = length (fr_entries a).
Proof. intros [_ _ _ H]. apply (f_equal length) in H. by rewrite !length_map in H. Qed.

Lemma moved_shape fr from to i p source target u w e :
  fr_entries fr !! i = Some e -> same_shape fr (moved_rows fr from to i p source target u w e).
Proof.
  intros He. constructor; cbn; [done|done|by rewrite !length_insert|].
  rewrite list_fmap_insert. apply list_insert_id. by rewrite list_lookup_fmap, He.
Qed.

(** Undoing one more move *)
Lemma undo_snoc fr fr' first moves m : undo_move fr' m = Ok fr -> undo fr' first (moves ++ [m]) = undo fr first moves.
Proof. intros H. unfold undo. rewrite rev_app_distr. cbn [rev app undo_moves]. by rewrite H. Qed.

Section Search.
Context (fr : FixedRows) (Hok : rows_ok_for fr) (incoming : Z) (roots : nat * nat).

Definition is_root (r : nat) : Prop := r = fst roots \/ r = snd roots.

(** The rows from a node to its root *)
Inductive path (nodes : list Node) : nat -> list nat -> Prop :=
| path_root i n :
    nodes !! i = Some n -> parent n = None -> need n = incoming -> is_root (n_row n) -> path nodes i [n_row n]
| path_step i n p np m e u l :
    nodes !! i = Some n -> parent n = Some (p, m) -> (p < i)%nat -> nodes !! p = Some np -> path nodes p (n_row np :: l) ->
    n_row n ∉ n_row np :: l -> fr_entries fr !! m = Some e -> e_row e = n_row np -> need n = e_size e ->
    (n_row n = fst (e_candidates e) \/ n_row n = snd (e_candidates e)) ->
    used fr !! n_row np = Some u -> u - e_size e + need np <= capacity fr ->
    path nodes i (n_row n :: n_row np :: l).

Definition tree_ok (nodes : list Node) : Prop :=
  forall i n, nodes !! i = Some n -> (n_row n < length (used fr))%nat /\ exists l, path nodes i (n_row n :: l).

Lemma path_mono nodes k i l : path nodes i l -> path (nodes ++ k) i l.
Proof using. induction 1; econstructor; eauto using lookup_app_l_Some. Qed.

Lemma tree_grow nodes n l :
  tree_ok nodes -> (n_row n < length (used fr))%nat -> path (nodes ++ [n]) (length nodes) (n_row n :: l) -> tree_ok (nodes ++ [n]).
Proof using.
  intros Ht Hr Hp i n' [H|[-> ->]]%lookup_snoc_Some; [|by eauto].
  destruct (Ht _ _ (proj2 H)) as (Hb & l' & Hp'). split; [done|]. exists l'. by apply path_mono.
Qed.

Lemma cyclic_run nodes i l fuel alternate :
  path nodes i l -> (i <= fuel)%nat -> cyclic fuel nodes i alternate = Ok (bool_decide (alternate ∈ l)).
Proof using.
  intros Hp. revert fuel. induction Hp as [i n Hn Hpar _ _|i n p np m e u l Hn Hpar Hlt Hnp Hp IH Hnot He Hr Hneed Hc Hu Hroom];
    intros fuel Hf; destruct fuel as [|fuel]; try lia; cbn [cyclic]; unfold at_index; rewrite Hn; run_ok; rewrite Hpar;
    destruct (Nat.eqb_spec (n_row n) alternate) as [E|E]; f_equal; try (symmetry; apply bool_decide_eq_true; rewrite E; left).
  1, 2: symmetry; apply bool_decide_eq_false; rewrite list_elem_of_singleton; congruence.
  rewrite IH by lia. f_equal. apply bool_decide_ext. rewrite (elem_of_cons _ _ (n_row n)). naive_solver.
Qed.

Lemma path_NoDup nodes i l : path nodes i l -> NoDup l.
Proof using. induction 1; [apply NoDup_singleton|by apply NoDup_cons]. Qed.

(** The rows are as they were when the search began. *)
Definition untouched (fr' : FixedRows) (rows : list nat) : Prop :=
  (forall r, r ∈ rows -> occupants fr' !! r = occupants fr !! r /\ used fr' !! r = used fr !! r) /\
  (forall i e, fr_entries fr !! i = Some e -> e_row e ∈ rows -> fr_entries fr' !! i = Some e).

(** What a search that found a row has done: [r] is a root with room, and the new moves can be
    undone *)
Record relocated (fr1 fr2 : FixedRows) (moves moves' : list Move) (r : nat) : Prop := {
  rel_ok : rows_ok_for fr2;
  rel_shape : same_shape fr1 fr2;
  rel_root : is_root r;
  rel_room : exists w, used fr2 !! r = Some w /\ w + incoming <= capacity fr1;
  rel_undo : forall first, undo fr2 first moves' = undo fr1 first moves;
  rel_placed : exists new, moves' = moves ++ new /\ Forall (fun m => placed m = length (fr_entries fr1)) new }.

Lemma relocated_trans fr1 fr2 fr3 moves moves' moves'' r :
  same_shape fr1 fr2 -> (forall first, undo fr2 first moves' = undo fr1 first moves) ->
  (exists new, moves' = moves ++ new /\ Forall (fun m => placed m = length (fr_entries fr1)) new) ->
  relocated fr2 fr3 moves' moves'' r -> relocated fr1 fr3 moves moves'' r.
Proof using.
  intros Hs Hu (new & -> & Hn) [Hok' Hs' Hr (w & Hw & Hc) Hu' (new' & -> & Hn')]. constructor; [done| |done| | |].
  - by eapply same_shape_trans.
  - exists w. rewrite <- (shape_capacity _ _ Hs). done.
  - intros first. by rewrite Hu', Hu.
  - exists (new ++ new'). rewrite app_assoc. split; [done|]. rewrite (same_shape_count _ _ Hs) in Hn'. by apply Forall_app.
Qed.

(** One step of the path *)
Lemma path_move n np m e u l fr' w :
  (n_row n < length (used fr))%nat ->
  NoDup (n_row n :: n_row np :: l) -> fr_entries fr !! m = Some e -> e_row e = n_row np -> need n = e_size e ->
  (n_row n = fst (e_candidates e) \/ n_row n = snd (e_candidates e)) -> used fr !! n_row np = Some u ->
  rows_ok_for fr' -> same_shape fr fr' -> untouched fr' (n_row np :: l) ->
  used fr' !! n_row n = Some w -> w + need n <= capacity fr ->
  exists fr2 mv, apply_move fr' (n_row np) (n_row n) m = Ok (fr2, mv) /\ rows_ok_for fr2 /\ same_shape fr' fr2 /\
    untouched fr2 l /\ used fr2 !! n_row np = Some (u - e_size e) /\ undo_move fr2 mv = Ok fr' /\
    placed mv = length (fr_entries fr').
Proof using Hok.
  intros Hb Hnd He Hr Hneed Hc Hu Hok' Hsh [Hun Hue] Hw Hroom.
  apply NoDup_cons in Hnd as [Hn1 [Hn2 Hnd]%NoDup_cons].
  destruct (resident_listed _ Hok _ _ He) as (source & Hsrc & Hin). rewrite Hr in Hsrc.
  destruct (position_of_elem _ _ Hin) as (pos & Hpos).
  destruct (Hun (n_row np)) as [Hocc Hused]; [left|]. rewrite Hsrc in Hocc. rewrite Hu in Hused.
  assert (fr_entries fr' !! m = Some e) as He' by (apply (Hue _ _ He); rewrite Hr; left).
  destruct (row_exists _ Hok' (n_row n)) as (target & Htgt); [by rewrite (shape_rows _ _ Hsh)|].
  assert (n_row np <> n_row n) as Hne by set_solver.
  exists (moved_rows fr' (n_row np) (n_row n) m pos source target u w e), (MkMove (length (fr_entries fr')) m (n_row np) pos).
  split_and!.
  - by apply apply_move_run.
  - apply moved_ok; try done. rewrite (shape_capacity _ _ Hsh). lia.
  - by apply moved_shape.
  - split.
    + intros r Hrl. destruct (Hun r) as [H1 H2]; [by right|]. cbn [moved_rows occupants used].
      rewrite !list_lookup_insert_ne by set_solver. done.
    + intros j e' He2 Hl. cbn [moved_rows fr_entries]. rewrite list_lookup_insert_ne; [apply Hue; [done|by right]|].
      intros <-. assert (e' = e) as -> by congruence. rewrite Hr in Hl. done.
  - cbn [moved_rows used]. rewrite list_lookup_insert_ne by done.
    apply list_lookup_insert_eq. by eapply lookup_lt_Some.
  - by apply moved_undone.
  - done.
Qed.

Lemma apply_path_run nodes i r l n fr' moves w fuel :
  tree_ok nodes -> path nodes i (r :: l) -> nodes !! i = Some n -> rows_ok_for fr' -> same_shape fr fr' ->
  untouched fr' l -> used fr' !! n_row n = Some w -> w + need n <= capacity fr -> (i <= fuel)%nat ->
  exists fr2 moves2 r2, apply_path fuel nodes i fr' moves = Ok (fr2, moves2, r2) /\ relocated fr' fr2 moves moves2 r2.
Proof using Hok.
  intros Ht Hp. remember (r :: l) as rl eqn:Erl. revert r l Erl n fr' moves w fuel.
  induction Hp as [i n0 Hn Hpar Hneed Hroot|i n0 p np m e u l0 Hn Hpar Hlt Hnp Hp IH Hnot He Hr Hneed Hc Hu Hroom];
    intros r l [= <- <-] n fr' moves w fuel Hn' Hok' Hsh Hun Hw Hcap Hf; assert (n = n0) as -> by congruence.
  - exists fr', moves, (n_row n0). split.
    + destruct fuel; cbn [apply_path]; unfold at_index; rewrite Hn; run_ok; by rewrite Hpar.
    + constructor; [done|apply same_shape_refl|done| |done|exists []; by rewrite app_nil_r].
      exists w. rewrite (shape_capacity _ _ Hsh). split; [done|lia].
  - destruct (Ht _ _ Hn) as [Hb _]. assert (NoDup (n_row n0 :: n_row np :: l0)) as Hnd by (apply NoDup_cons; eauto using path_NoDup).
    destruct (path_move n0 np m e u l0 fr' w) as (fr2 & mv & Hrun & Hok2 & Hsh2 & Hun2 & Hu2 & Hundo & Hpl); try done.
    destruct fuel as [|fuel]; [lia|]. cbn [apply_path]. unfold at_index. rewrite Hn. run_ok. rewrite Hpar, Hnp. run_ok.
    rewrite Hrun. run_ok.
    destruct (IH (n_row np) l0 eq_refl np fr2 (moves ++ [mv]) (u - e_size e) fuel Hnp Hok2) as (fr3 & moves3 & r3 & Hrun3 & Hrel);
      [by eapply same_shape_trans|done|done|lia|lia|].
    exists fr3, moves3, r3. split; [done|]. eapply relocated_trans; [done| | |done].
    + intros first. by apply undo_snoc.
    + exists [mv]. split; [done|]. by apply Forall_singleton.
Qed.

(** ** The search *)

Lemma alternate_row_Some e row r :
  alternate_row e row = Some r -> r <> row /\ (r = fst (e_candidates e) \/ r = snd (e_candidates e)).
Proof using.
  unfold alternate_row. destruct (e_candidates e) as [a b]. cbn.
  destruct (Nat.eqb_spec a row), (Nat.eqb_spec b row); cbn; naive_solver.
Qed.

Lemma expand_run cursor n u residents nodes seen :
  tree_ok nodes -> nodes !! cursor = Some n -> used fr !! n_row n = Some u ->
  Forall (fun i => exists e, fr_entries fr !! i = Some e /\ e_row e = n_row n /\ e_size e <= u) residents ->
  exists nodes' seen', expand fr cursor (n_row n) (need n) residents nodes seen = Ok (nodes', seen') /\ tree_ok nodes'.
Proof using Hok.
  intros Ht Hn Hu Hres. revert nodes seen Ht Hn.
  induction Hres as [|m residents (e & He & Hr & Hle) _ IH]; intros nodes seen Ht Hn; cbn [expand]; [eauto|].
  unfold at_index. rewrite He. run_ok. rewrite Hu. run_ok. unfold checked_minus.
  destruct (Z.leb_spec (e_size e) u); [|lia]. run_ok. destruct (Z.ltb_spec (capacity fr) (u - e_size e + need n)); [by apply IH|].
  destruct (alternate_row e (n_row n)) as [alternate|] eqn:Ha; [|by apply IH]. apply alternate_row_Some in Ha as [Hne Hc].
  destruct (Ht _ _ Hn) as (Hb & l & Hp). rewrite (cyclic_run _ _ _ _ _ Hp) by done. run_ok.
  case_bool_decide as Hcy; [by apply IH|]. case_decide; [by apply IH|].
  destruct (Nat.ltb (length nodes) MAX_RELOCATION_VISITS); [|by apply IH].
  apply IH; [|by apply lookup_app_l_Some]. pose proof (lookup_lt_Some _ _ _ Hn).
  eapply (tree_grow _ _ (n_row n :: l)); [done| |].
  - destruct (entry_at _ Hok _ _ He) as (_ & _ & Hb1 & Hb2). cbn. by destruct Hc as [-> | ->].
  - eapply path_step; try done; try (cbn; done).
    + by rewrite lookup_app_r, Nat.sub_diag by done.
    + by apply lookup_app_l_Some.
    + by apply path_mono.
Qed.

Lemma residents_known r l :
  occupants fr !! r = Some l ->
  exists u, used fr !! r = Some u /\ Forall (fun i => exists e, fr_entries fr !! i = Some e /\ e_row e = r /\ e_size e <= u) l.
Proof using Hok.
  intros Hl. destruct (ok_used _ Hok _ _ Hl) as [Hu _]. eexists. split; [done|].
  apply Forall_forall. intros i Hi. pose proof (proj1 (proj2 (ok_lists _ Hok _ _ Hl) i) Hi) as (e & He & Hr).
  exists e. split_and!; [done|done|]. eapply load_member; [by apply sizes_nonneg|done|].
  unfold sizes_of_entries. by rewrite list_lookup_fmap, He.
Qed.

Lemma search_run visits cursor nodes seen moves :
  tree_ok nodes ->
  exists fr2 moves2 r, search visits fr cursor nodes seen moves = Ok (fr2, moves2, r) /\
    match r with Some r => relocated fr fr2 moves moves2 r | None => fr2 = fr /\ moves2 = moves end.
Proof using Hok.
  revert cursor nodes seen. induction visits as [|visits IH]; intros cursor nodes seen Ht; cbn [search]; [by eexists _, _, _|].
  destruct (nodes !! cursor) as [n|] eqn:Hn; [|by eexists _, _, _].
  destruct (Ht _ _ Hn) as (Hb & l & Hp). destruct (row_exists _ Hok _ Hb) as (occ & Ho).
  destruct (residents_known _ _ Ho) as (u & Hu & Hres). unfold at_index. rewrite Hu. run_ok.
  destruct (Z.leb_spec (u + need n) (capacity fr)).
  - destruct (apply_path_run nodes cursor (n_row n) l n fr moves u cursor) as (fr2 & moves2 & r & Hrun & Hrel);
      try done. rewrite Hrun. run_ok. by exists fr2, moves2, (Some r).
  - rewrite Ho. run_ok. destruct (expand_run cursor n u occ nodes seen) as (nodes' & seen' & -> & Ht'); try done.
    run_ok. by apply IH.
Qed.

Lemma roots_tree : is_root (fst roots) -> (fst roots < length (used fr))%nat -> (snd roots < length (used fr))%nat ->
  tree_ok (fst (root_nodes roots incoming)).
Proof using.
  intros _. unfold root_nodes, tree_ok, is_root. destruct roots as [a b] eqn:E. cbn [fst snd]. intros Ha Hb.
  assert (forall nodes i n, nodes !! i = Some n -> parent n = None -> need n = incoming -> n_row n = a \/ n_row n = b ->
    (n_row n < length (used fr))%nat /\ exists l, path nodes i (n_row n :: l)) as Hroot.
  { intros nodes i n Hn Hp Hne Hr. split; [by destruct Hr as [-> | ->]|]. exists []. apply path_root; try done. unfold is_root. by rewrite E. }
  case_decide; cbn [fst]; intros i n Hn; destruct i as [|[|i]]; cbn in Hn; try done;
    injection Hn as <-; (apply Hroot; cbn; [done|done|done|tauto]).
Qed.
End Search.

(** [FixedRows::relocate] either leaves everything as it was, or frees a candidate row. *)
Lemma relocate_run fr roots incoming moves :
  rows_ok_for fr -> (fst roots < length (used fr))%nat -> (snd roots < length (used fr))%nat ->
  exists fr2 moves2 r, relocate fr roots incoming moves = Ok (fr2, moves2, r) /\
    match r with Some r => relocated incoming roots fr fr2 moves moves2 r | None => fr2 = fr /\ moves2 = moves end.
Proof.
  intros Hok Ha Hb. pose proof (roots_tree fr incoming roots (or_introl eq_refl) Ha Hb) as Ht.
  unfold relocate. destruct (root_nodes roots incoming) as [nodes seen]. by apply search_run.
Qed.
