(* ===== verification/DirectoryPlaceTheorems.v ===== *)
(** * What placement promises

    A batch is placed with every key in one of its candidate rows and no row over its
    capacity, or it is refused and the rows are exactly what they were.  [place] ends, with a
    placement in as few segments as the rule finds or with the key that does not fit. *)

From S2P Require Import Prelude ShardEvents ShardPacking DirectoryPlacement DirectoryRelocation.

(** ** Undoing placements *)

Lemma remove_excess_put fr fr' len :
  remove_newest fr' = Ok fr -> length (fr_entries fr') = S (length (fr_entries fr)) -> (len <= length (fr_entries fr))%nat ->
  fr_truncate fr' len = fr_truncate fr len.
Proof.
  intros Hr Hl Hlen. unfold fr_truncate. rewrite Hl.
  replace (S (length (fr_entries fr)) - len)%nat with (S (length (fr_entries fr) - len)) by lia.
  cbn [remove_excess]. by rewrite Hr.
Qed.

Lemma undo_put fr fr' first moves :
  remove_newest fr' = Ok fr -> length (fr_entries fr') = S (length (fr_entries fr)) -> (first <= length (fr_entries fr))%nat ->
  Forall (fun m => (placed m <= length (fr_entries fr))%nat) moves -> undo fr' first moves = undo fr first moves.
Proof.
  intros Hr Hl Hf Hm. unfold undo. destruct moves as [|m moves _] using rev_ind.
  - cbn [rev undo_moves]. run_ok. by apply remove_excess_put.
  - apply Forall_app in Hm as [_ Hm]. rewrite Forall_singleton in Hm. rewrite rev_app_distr. cbn [rev app undo_moves]. unfold undo_move.
    by rewrite (remove_excess_put _ _ _ Hr Hl Hm).
Qed.

(** ** One key *)

Lemma relocated_refl fr size roots moves r w :
  rows_ok_for fr -> is_root roots r -> used fr !! r = Some w -> w + size <= capacity fr -> relocated size roots fr fr moves moves r.
Proof.
  intros Hok Hr Hw Hc. constructor; [done|apply same_shape_refl|done|by exists w|done|exists []; by rewrite app_nil_r].
Qed.

Lemma choose_row_run fr a b size moves :
  rows_ok_for fr -> (a < length (used fr))%nat -> (b < length (used fr))%nat ->
  exists fr2 moves2 r, choose_row fr (a, b) size moves = Ok (fr2, moves2, r) /\
    match r with Some r => relocated size (a, b) fr fr2 moves moves2 r | None => fr2 = fr /\ moves2 = moves end.
Proof.
  intros Hok Ha Hb. destruct (lookup_lt_is_Some_2 _ _ Ha) as (ua & Hua), (lookup_lt_is_Some_2 _ _ Hb) as (ub & Hub).
  unfold choose_row, at_index. rewrite Hua. run_ok. rewrite Hub. run_ok.
  assert (forall x y ux uy, is_root (a, b) x -> is_root (a, b) y -> used fr !! x = Some ux -> used fr !! y = Some uy ->
    exists fr2 moves2 r, (if ux + size <=? capacity fr then Ok (fr, moves, Some x) else
      if uy + size <=? capacity fr then Ok (fr, moves, Some y) else relocate fr (a, b) size moves) = Ok (fr2, moves2, r) /\
    match r with Some r => relocated size (a, b) fr fr2 moves moves2 r | None => fr2 = fr /\ moves2 = moves end) as Hpick.
  { intros x y ux uy Hx Hy Hux Huy. destruct (Z.leb_spec (ux + size) (capacity fr)); [|destruct (Z.leb_spec (uy + size) (capacity fr))].
    - exists fr, moves, (Some x). split; [done|]. by eapply relocated_refl.
    - exists fr, moves, (Some y). split; [done|]. by eapply relocated_refl.
    - by apply relocate_run. }
  destruct (ua <=? ub); apply Hpick; try done; unfold is_root; cbn; tauto.
Qed.

(** The candidates and the size with which a key is placed *)
Definition key_shape `{!Sha256} (salts : list byte * list byte) (rows : Z) (key : list byte) (size : Z) (s : (nat * nat) * Z) : Prop :=
  exists a b, candidates salts key rows = Ok (a, b) /\ s = ((Z.to_nat a, Z.to_nat b), size).

Section Batch.
Context `{!Sha256} (salts : list byte * list byte) (cap : Z) (rows : nat) (Hrows : (0 < rows)%nat).

(** The state of a batch: what is placed so far is what these shapes say *)
Record batch_ok (shapes : list ((nat * nat) * Z)) (first : nat) (fr0 fr : FixedRows) (moves : list Move) : Prop := {
  b_ok : rows_ok_for fr;
  b_salts : fr_salts fr = salts; b_capacity : capacity fr = cap; b_rows : length (used fr) = rows;
  b_shapes : map entry_shape (fr_entries fr) = shapes;
  b_first : (first <= length (fr_entries fr))%nat;
  b_placed : Forall (fun m => (placed m <= length (fr_entries fr))%nat) moves;
  b_undo : undo fr first moves = Ok fr0 }.

Lemma batch_relocated shapes first fr0 fr moves fr2 moves2 size roots r :
  batch_ok shapes first fr0 fr moves -> relocated size roots fr fr2 moves moves2 r -> batch_ok shapes first fr0 fr2 moves2.
Proof using All.
  intros [Hok Hs Hc Hr Hsh Hf Hp Hu] [Hok2 Hshape Hroot Hroom Hundo (new & -> & Hn)].
  pose proof (same_shape_count _ _ Hshape) as Hcount. destruct Hshape as [? ? ? ?].
  constructor; try congruence.
  rewrite Hcount. apply Forall_app. split; [done|]. eapply Forall_impl; [done|]. cbn. lia.
Qed.

Lemma batch_put shapes first fr0 fr moves cand size r w :
  batch_ok shapes first fr0 fr moves -> used fr !! r = Some w -> w + size <= cap -> 1 <= size <= cap ->
  (r = fst cand \/ r = snd cand) -> (fst cand < rows)%nat -> (snd cand < rows)%nat ->
  Z.of_nat (length (fr_entries fr)) + 1 < u32_limit ->
  exists fr2, put_entry fr cand size r = Ok fr2 /\ batch_ok (shapes ++ [(cand, size)]) first fr0 fr2 moves.
Proof using All.
  intros [Hok Hs Hc Hr Hsh Hf Hp Hu] Hw Hcap Hsize Hroot Ha Hb Hcount.
  assert (r < length (used fr))%nat as Hlt by (by eapply lookup_lt_Some).
  destruct (row_exists _ Hok _ Hlt) as (occ & Ho). eexists. split; [by apply put_entry_run|].
  destruct (ok_used _ Hok _ _ Ho) as [Hw' _]. rewrite Hw in Hw'. injection Hw' as Hw'.
  pose proof (load_nonneg _ occ (sizes_nonneg _ Hok)) as Hnn.
  assert (remove_newest (put_rows fr cand size r occ w) = Ok fr) as Hrem by (apply put_removed; (done || lia)).
  assert (length (fr_entries (put_rows fr cand size r occ w)) = S (length (fr_entries fr))) as Hlen
    by (cbn; rewrite length_app; cbn; lia).
  constructor; try done.
  - apply put_ok; try (done || lia). unfold entry_ok. cbn [e_size e_row e_candidates]. rewrite Hr, Hc. tauto.
  - cbn. by rewrite length_insert.
  - cbn. by rewrite map_app, Hsh.
  - lia.
  - eapply Forall_impl; [done|]. cbn beta. lia.
  - by rewrite (undo_put _ _ _ _ Hrem Hlen).
Qed.

Lemma insert_loop_run index batch shapes first fr0 fr moves :
  batch_ok shapes first fr0 fr moves -> Z.of_nat rows < u32_limit -> Forall (fun s => 1 <= s <= cap) batch.*2 ->
  Z.of_nat (length (fr_entries fr)) + blen batch < u32_limit ->
  exists fr2 r, insert_loop first index batch fr moves = Ok (fr2, r) /\
    match r with
    | Ok _ => exists new moves2, batch_ok (shapes ++ new) first fr0 fr2 moves2 /\
        Forall2 (fun ks s => key_shape salts (Z.of_nat rows) (fst ks) (snd ks) s) batch new
    | Err i => fr2 = fr0 /\ (index <= i < index + length batch)%nat
    end.
Proof using All.
  intros Hb Hsmall Hsizes. revert index shapes fr moves Hb.
  induction batch as [|[key size] batch IH]; intros index shapes fr moves Hb Hcount; cbn [insert_loop].
  { exists fr, (Ok ()). split; [done|]. exists [], moves. rewrite app_nil_r. by split. }
  cbn [fmap list_fmap] in Hsizes. apply Forall_cons in Hsizes as [Hsize Hsizes]. cbn [snd] in Hsize. unfold blen in Hcount |- *. cbn [length] in Hcount.
  rewrite (b_salts _ _ _ _ _ Hb), (b_rows _ _ _ _ _ Hb).
  destruct (candidates_range salts key (Z.of_nat rows)) as (a & b & Hab & Ha & Hb'); [lia|]. rewrite Hab. run_ok. cbn [fst snd].
  rewrite !as_u32_small by lia.
  destruct (choose_row_run fr (Z.to_nat a) (Z.to_nat b) size moves (b_ok _ _ _ _ _ Hb)) as (fr2 & moves2 & r & Hrun & Hr);
    [rewrite (b_rows _ _ _ _ _ Hb); lia..|]. rewrite Hrun. run_ok. destruct r as [r|].
  - pose proof (batch_relocated _ _ _ _ _ _ _ _ _ _ Hb Hr) as Hb2. pose proof (same_shape_count _ _ (rel_shape _ _ _ _ _ _ _ Hr)) as Hcnt.
    destruct (rel_room _ _ _ _ _ _ _ Hr) as (w & Hw & Hroom). rewrite (b_capacity _ _ _ _ _ Hb) in Hroom.
    destruct (batch_put _ _ _ _ _ (Z.to_nat a, Z.to_nat b) size r w Hb2) as (fr3 & Hput & Hb3);
      [done|done|done|apply (rel_root _ _ _ _ _ _ _ Hr)|cbn; lia..|]. rewrite Hput. run_ok.
    destruct (IH Hsizes (S index) _ _ _ Hb3) as (fr4 & r4 & Hrun4 & Hr4).
    { pose proof (f_equal length (b_shapes _ _ _ _ _ Hb3)) as E. pose proof (f_equal length (b_shapes _ _ _ _ _ Hb2)) as E2.
      rewrite length_app, length_map in E. rewrite length_map in E2. cbn in E. unfold blen. lia. }
    exists fr4, r4. split; [done|]. destruct r4 as [[]|i]; [|destruct Hr4; split; [done|cbn; lia]].
    destruct Hr4 as (new & moves4 & Hb4 & Hnew). exists (((Z.to_nat a, Z.to_nat b), size) :: new), moves4.
    rewrite <- app_assoc in Hb4. split; [done|]. constructor; [|done]. by exists a, b.
  - destruct Hr as [-> ->]. rewrite (b_undo _ _ _ _ _ Hb). run_ok. exists fr0, (Err index). split; [done|]. split; [done|cbn; lia].
Qed.
End Batch.

(** ** A batch *)

Lemma bad_size_Some cap index sizes i :
  bad_size cap index sizes = Some i ->
  exists k size, i = (index + k)%nat /\ sizes !! k = Some size /\ (size = 0 \/ cap < size).
Proof.
  revert index. induction sizes as [|s sizes IH]; intros index; cbn [bad_size]; [done|].
  destruct (Z.eqb_spec s 0); [|destruct (Z.ltb_spec cap s)]; cbn [orb].
  1, 2: intros [= <-]; exists O, s; split_and!; [lia|done|tauto].
  intros (k & size & -> & Hk & Hs)%IH. exists (S k), size. split_and!; [lia|done|done].
Qed.

Lemma bad_size_None cap index sizes :
  bad_size cap index sizes = None -> Forall (fun s => 0 <= s) sizes -> Forall (fun s => 1 <= s <= cap) sizes.
Proof.
  revert index. induction sizes as [|s sizes IH]; intros index; cbn [bad_size]; [done|].
  destruct (Z.eqb_spec s 0), (Z.ltb_spec cap s); cbn [orb]; try done.
  intros Hb [Hs Hf]%Forall_cons. constructor; [lia|]. by eapply IH.
Qed.

(** The entries placed for a batch *)
Definition placed_as `{!Sha256} (fr0 fr : FixedRows) (keys : list (list byte)) (sizes : list Z) : Prop :=
  exists new, map entry_shape (fr_entries fr) = map entry_shape (fr_entries fr0) ++ new /\
    Forall2 (fun ks s => key_shape (fr_salts fr0) (blen (used fr0)) (fst ks) (snd ks) s) (zip keys sizes) new.

Lemma insert_batch_run `{!Sha256} fr keys sizes :
  rows_ok_for fr -> length keys = length sizes -> Forall (fun s => 0 <= s) sizes -> (0 < length (used fr))%nat ->
  Z.of_nat (length (fr_entries fr)) + blen keys < u32_limit ->
  exists fr' r, insert_batch fr keys sizes = Ok (fr', r) /\
    match r with
    | Ok _ => rows_ok_for fr' /\ fr_salts fr' = fr_salts fr /\ capacity fr' = capacity fr /\
        length (used fr') = length (used fr) /\ placed_as fr fr' keys sizes
    | Err i => fr' = fr /\ (i < length keys)%nat
    end.
Proof.
  intros Hok Hlen Hnn Hrows Hcount. unfold insert_batch. unfold blen at 1 2. rewrite Hlen, Z.eqb_refl. cbn [assert_that]. run_ok.
  destruct (bad_size (capacity fr) 0 sizes) as [i|] eqn:Hbad.
  { exists fr, (Err i). split; [done|]. split; [done|]. apply bad_size_Some in Hbad as (k & s & -> & Hk & _).
    apply lookup_lt_Some in Hk. lia. }
  pose proof (bad_size_None _ _ _ Hbad Hnn) as Hsizes.
  destruct (insert_loop_run (fr_salts fr) (capacity fr) (length (used fr)) Hrows 0 (zip keys sizes)
    (map entry_shape (fr_entries fr)) (length (fr_entries fr)) fr fr []) as (fr2 & r & Hrun & Hr).
  - constructor; try done. unfold undo, fr_truncate. cbn [rev undo_moves]. run_ok. by rewrite Nat.sub_diag.
  - apply Hok.
  - by rewrite snd_zip by lia.
  - unfold blen in *. rewrite length_zip_with. lia.
  - exists fr2, r. split; [done|]. destruct r as [[]|i].
    + destruct Hr as (new & moves & [Hok2 Hs Hc Hr2 Hsh _ _ _] & Hnew). split_and!; try done. exists new. by split.
    + destruct Hr as [-> Hi]. split; [done|]. rewrite length_zip_with in Hi. lia.
Qed.

(** C21: Batches of directory entries.  Inserting a batch never panics: either every key is
    placed in one of its candidate rows, with no row over its capacity and the earlier entries
    still in one of theirs, or the rows are exactly what they were, all relocations undone. *)
Theorem insert_batch_atomic `{!Sha256} fr keys sizes :
  rows_ok_for fr -> length keys = length sizes -> Forall (fun s => 0 <= s) sizes -> (0 < length (used fr))%nat ->
  Z.of_nat (length (fr_entries fr)) + blen keys < u32_limit ->
  exists fr' r, insert_batch fr keys sizes = Ok (fr', r) /\
    match r with
    | Ok _ => rows_ok_for fr' /\ placed_as fr fr' keys sizes
    | Err i => fr' = fr /\ (i < length keys)%nat
    end.
Proof.
  intros Hok Hlen Hnn Hrows Hcount. destruct (insert_batch_run fr keys sizes Hok Hlen Hnn Hrows Hcount) as (fr' & r & Hrun & Hr).
  exists fr', r. split; [done|]. destruct r; tauto.
Qed.

(** ** The bytes of a row *)

Definition bytes_in (row : nat) (ps : list (Z * nat)) : Z :=
  foldr (fun p n => (if (snd p =? row)%nat then fst p else 0) + n) 0 ps.

Lemma bytes_in_app row ps qs : bytes_in row (ps ++ qs) = bytes_in row ps + bytes_in row qs.
Proof. unfold bytes_in. induction ps as [|p ps IH]; cbn [app foldr]; [done|]. rewrite IH. lia. Qed.

Definition indices_in (row : nat) (ps : list (Z * nat)) : list nat :=
  filter (fun i => snd <$> ps !! i = Some row) (seq 0 (length ps)).

Lemma load_permutation sizes l k : l ≡ₚ k -> load sizes l = load sizes k.
Proof. unfold load. induction 1; cbn [foldr]; lia. Qed.

Lemma indices_snoc row ps p :
  indices_in row (ps ++ [p]) = indices_in row ps ++ (if (snd p =? row)%nat then [length ps] else []).
Proof.
  unfold indices_in. rewrite length_app, Nat.add_1_r, seq_S, filter_app. f_equal.
  - apply filter_ext_elem. intros i Hi%elem_of_seq. rewrite lookup_app_l; [done|lia].
  - rewrite filter_cons, filter_nil, lookup_app_r, Nat.add_0_l, Nat.sub_diag by lia. cbn.
    case_decide; destruct (Nat.eqb_spec (snd p) row); naive_solver.
Qed.

Lemma load_indices row ps : load (map fst ps) (indices_in row ps) = bytes_in row ps.
Proof.
  induction ps as [|p ps IH] using rev_ind; [done|]. rewrite indices_snoc, map_app, load_app, bytes_in_app.
  change (map fst [p]) with [fst p]. rewrite load_extend, IH.
  - f_equal. cbn [bytes_in foldr]. destruct (snd p =? row)%nat; [rewrite load_last by apply length_map; lia|done].
  - apply Forall_forall. intros i [_ Hi%elem_of_seq]%list_elem_of_filter. rewrite length_map. lia.
Qed.

Lemma row_bytes fr row l :
  rows_ok_for fr -> occupants fr !! row = Some l ->
  bytes_in row (zip (sizes_of_entries fr) (assignment fr)) <= capacity fr /\
  used fr !! row = Some (bytes_in row (zip (sizes_of_entries fr) (assignment fr))).
Proof.
  intros Hok Hl. destruct (ok_used _ Hok _ _ Hl) as [Hu Hc], (ok_lists _ Hok _ _ Hl) as [Hnd Hin].
  assert (length (sizes_of_entries fr) = length (assignment fr)) as Hlen by (unfold sizes_of_entries, assignment; by rewrite !length_map).
  rewrite <- load_indices. replace (map fst _) with (sizes_of_entries fr) by (symmetry; apply fst_zip; lia).
  rewrite (load_permutation _ _ l); [done|]. apply NoDup_Permutation; [apply NoDup_filter, NoDup_seq|done|].
  intros i. rewrite Hin. unfold indices_in. rewrite list_elem_of_filter, elem_of_seq, length_zip_with.
  unfold sizes_of_entries, assignment. rewrite lookup_zip_with, !list_lookup_fmap, !length_map.
  destruct (fr_entries fr !! i) as [e|] eqn:E; cbn.
  - apply lookup_lt_Some in E. split; [intros [[= <-] _]; eauto|intros (e' & [= <-] & <-); split; [done|lia]].
  - split; [by intros [? _]|by intros (e' & ? & _)].
Qed.

(** ** Placing all keys *)

Lemma new_rows_ok salts rows cap : 0 <= rows < u32_limit -> 0 <= cap -> rows_ok_for (fixed_rows_new salts rows cap).
Proof.
  intros Hr Hc. constructor; unfold fixed_rows_new; cbn [used occupants fr_entries capacity length]; rewrite ?length_replicate; [done|lia|done|by constructor| |].
  - intros r l [-> _]%lookup_replicate. split; [apply NoDup_nil_2|]. intros i. cbn. rewrite elem_of_nil. naive_solver.
  - intros r l [-> Hlt]%lookup_replicate. cbn. split; [|done]. by apply lookup_replicate.
Qed.

Lemma max_or_zero_ge l x : x ∈ l -> x <= max_or_zero l.
Proof. unfold max_or_zero. induction l as [|y l IH]; [by intros ?%not_elem_of_nil|]. cbn. intros [->|Hx%IH]%elem_of_cons; lia. Qed.

Lemma max_or_zero_nonneg l : 0 <= max_or_zero l.
Proof. unfold max_or_zero. induction l; cbn; lia. Qed.

Lemma max_or_zero_le l b : 0 <= b -> Forall (fun x => x <= b) l -> max_or_zero l <= b.
Proof. unfold max_or_zero. intros Hb. induction 1; cbn; lia. Qed.

Lemma bytes_out sizes row rows_of : (forall r, r ∈ rows_of -> r <> row) -> bytes_in row (zip sizes rows_of) = 0.
Proof.
  unfold bytes_in. revert rows_of. induction sizes as [|s l IH]; intros [|r rows_of] Hr; cbn [zip_with foldr fst snd]; [done..|].
  destruct (Nat.eqb_spec r row) as [->|]; [by destruct (Hr row); [left|]|]. rewrite IH; [done|]. intros x Hx. apply Hr. by right.
Qed.

Section Place.
Context `{!Sha256} (salts : list byte * list byte) (keys : list (list byte)) (sizes : list Z) (rows cap : Z).

(** A placement in so many segments: each key lies in one of its candidate rows, and the
    entries of a row take no more than its capacity *)
Record placement_ok (p : Placement) (rows_of : list nat) : Prop := {
  pl_length : length rows_of = length keys;
  pl_candidate : forall i key row, keys !! i = Some key -> rows_of !! i = Some row ->
    exists a b, candidates salts key (rows * pl_segments p) = Ok (a, b) /\ (Z.of_nat row = a \/ Z.of_nat row = b);
  pl_bytes : forall row, bytes_in row (zip sizes rows_of) <= max_row_bytes p <= cap }.

Context (Hlen : length keys = length sizes) (Hsizes : Forall (fun s => 0 <= s) sizes) (Hrows : 0 < rows) (Hcap : 0 <= cap).
Context (Hkeys : blen keys < u32_limit).

Lemma placed_candidate fr segments :
  rows_ok_for fr -> placed_as (fixed_rows_new salts (rows * segments) cap) fr keys sizes -> 0 < segments -> sizes_of_entries fr = sizes /\
  length (assignment fr) = length keys /\
  forall i key row, keys !! i = Some key -> assignment fr !! i = Some row ->
    exists a b, candidates salts key (rows * segments) = Ok (a, b) /\ (Z.of_nat row = a \/ Z.of_nat row = b).
Proof using All.
  intros Hok (new & Hnew & Hf) Hseg. cbn [fixed_rows_new fr_entries map app] in Hnew. subst new.
  cbn [fixed_rows_new fr_salts used] in Hf. unfold blen in Hf. rewrite length_replicate, Z2Nat.id in Hf by nia.
  apply Forall2_fmap_r in Hf. pose proof (Forall2_length _ _ _ Hf) as Hl. rewrite length_zip_with in Hl.
  unfold sizes_of_entries, assignment. rewrite length_map. split_and!; [|lia|].
  - apply list_eq. intros i. rewrite list_lookup_fmap. destruct (fr_entries fr !! i) as [e|] eqn:E; cbn.
    + destruct (Forall2_lookup_r _ _ _ _ _ Hf E) as ([key size] & Hz & (a & b & _ & Hsh)). unfold entry_shape in Hsh.
      apply lookup_zip_with_Some in Hz as (key' & size' & [= -> ->] & _ & ->). cbn in Hsh. by injection Hsh as _ ->.
    + apply lookup_ge_None in E. symmetry. apply lookup_ge_None. lia.
  - intros i key row Hk Hr. rewrite list_lookup_fmap in Hr. apply fmap_Some in Hr as (e & He & ->).
    destruct (Forall2_lookup_r _ _ _ _ _ Hf He) as ([key' size] & Hz & (a & b & Hab & Hsh)).
    apply lookup_zip_with_Some in Hz as (key2 & size2 & [= -> ->] & Hk2 & _). assert (key2 = key) as -> by congruence.
    exists a, b. split; [done|]. cbn [fst] in Hab. destruct (candidates_range salts key (rows * segments)) as (a' & b' & Hab' & Ha & Hb); [nia|].
    assert (a' = a /\ b' = b) as [-> ->] by (split; congruence). injection Hsh as Hc _.
    destruct (entry_at _ Hok _ _ He) as (_ & Hrow & _). rewrite Hc in Hrow. cbn in Hrow. lia.
Qed.

Lemma used_max fr row : rows_ok_for fr -> 0 <= capacity fr ->
  bytes_in row (zip (sizes_of_entries fr) (assignment fr)) <= max_or_zero (used fr) <= capacity fr.
Proof using.
  intros Hok Hc. split.
  - destruct (decide (row < length (used fr))%nat) as [Hlt|Hge].
    + destruct (row_exists _ Hok row Hlt) as (l & Hl). destruct (row_bytes _ _ _ Hok Hl) as [_ Hu].
      apply max_or_zero_ge. by eapply list_elem_of_lookup_2.
    + rewrite bytes_out; [by apply max_or_zero_nonneg|].
      intros r (i & Hi)%list_elem_of_lookup <-. unfold assignment in Hi. rewrite list_lookup_fmap in Hi.
      apply fmap_Some in Hi as (e & He & ->). apply Hge. by eapply entry_row.
  - apply max_or_zero_le; [done|]. apply Forall_lookup. intros k u Hk.
    destruct (row_exists _ Hok k) as (l & Hl); [by eapply lookup_lt_Some|].
    destruct (row_bytes _ _ _ Hok Hl) as [Hb Hu]. rewrite Hk in Hu. by injection Hu as ->.
Qed.

Lemma placed_ok fr segments load :
  rows_ok_for fr -> capacity fr = cap -> placed_as (fixed_rows_new salts (rows * segments) cap) fr keys sizes -> 0 < segments ->
  placement_ok (MkPlacement segments load (max_or_zero (used fr))) (assignment fr).
Proof using All.
  intros Hok Hc Hp Hseg. destruct (placed_candidate fr segments Hok Hp Hseg) as (Hsz & Hl & Hcand).
  constructor; [done|done|]. intros row. rewrite <- Hsz, <- Hc. apply used_max; [done|lia].
Qed.

Lemma place_from_run more segments :
  0 < segments -> rows * (segments + Z.of_nat more) < u32_limit ->
  exists r, place_from more segments salts keys sizes rows cap = Ok r /\
    match r with
    | Ok (p, rows_of) => segments <= pl_segments p <= segments + Z.of_nat more /\ placement_ok p rows_of
    | Err i => exists size, sizes !! i = Some size /\ (size = 0 \/ cap < size \/
        exists fr, insert_batch (fixed_rows_new salts (rows * (segments + Z.of_nat more)) cap) keys sizes = Ok (fr, Err i))
    end.
Proof using All.
  revert segments. induction more as [|more IH]; intros segments Hseg Hsmall; cbn [place_from].
  all: pose proof (new_rows_ok salts (rows * segments) cap ltac:(nia) Hcap) as Hok.
  all: destruct (insert_batch_run _ keys sizes Hok Hlen Hsizes) as (fr & r & Hrun & Hr);
    [cbn; rewrite length_replicate; nia|cbn; lia|]; rewrite Hrun; run_ok; destruct r as [[]|i].
  1, 3: destruct Hr as (Hok' & Hs & Hc & Hu & Hp); eexists; split; [done|]; split; [cbn; lia|]; by apply placed_ok.
  all: destruct (lookup_lt_is_Some_2 sizes i) as (size & Hi); [lia|].
  - exists (Err i). split; [done|]. exists size. split; [done|]. right; right. exists fr. by rewrite Z.add_0_r.
  - unfold at_index. rewrite Hi. run_ok. destruct (Z.leb_spec 1 size), (Z.leb_spec size cap); cbn [andb].
    2-4: exists (Err i); split; [done|]; exists size; split; [done|];
      pose proof (Forall_lookup_1 _ _ _ _ Hsizes Hi) as Hnn; cbn in Hnn; lia.
    destruct (IH (segments + 1)) as (r & Hr' & Hres); [lia|lia|]. exists r. split; [done|].
    replace (segments + Z.of_nat (S more)) with (segments + 1 + Z.of_nat more) by lia. destruct r as [[p rows_of]|k]; [|done].
    destruct Hres. split; [lia|done].
Qed.
End Place.

Lemma place_run `{!Sha256} salts keys sizes rows cap max_segments :
  length keys = length sizes -> Forall (fun s => 0 <= s) sizes -> 0 < rows -> 0 <= cap -> 1 <= max_segments ->
  rows * max_segments < u32_limit -> blen keys < u32_limit ->
  exists r, place salts keys sizes rows cap max_segments = Ok r /\
    match r with
    | Ok (p, rows_of) => 1 <= pl_segments p <= max_segments /\ placement_ok salts keys sizes rows cap p rows_of
    | Err i => exists size, sizes !! i = Some size /\ (size = 0 \/ cap < size \/
        exists fr, insert_batch (fixed_rows_new salts (rows * max_segments) cap) keys sizes = Ok (fr, Err i))
    end.
Proof.
  intros Hlen Hsizes Hrows Hcap Hmax Hsmall Hkeys.
  destruct (place_from_run salts keys sizes rows cap Hlen Hsizes Hrows Hcap Hkeys (Z.to_nat (max_segments - 1)) 1) as (r & Hr & Hres);
    [lia|rewrite Z2Nat.id by lia; by replace (1 + (max_segments - 1)) with max_segments by lia|].
  rewrite Z2Nat.id in Hres by lia. replace (1 + (max_segments - 1)) with max_segments in Hres by lia. by exists r.
Qed.

(** C22: Placement of a directory.  [place] ends without a panic.  It returns a number of
    segments within the bound and a row for each key that is one of the two candidates of the
    key over these segments, such that no row takes more bytes than its capacity; or it names
    a key whose size is outside the capacity, or that did not fit with the greatest number of
    segments. *)
Theorem place_correct `{!Sha256} salts keys sizes rows cap max_segments :
  length keys = length sizes -> Forall (fun s => 0 <= s) sizes -> 0 < rows -> 0 <= cap -> 1 <= max_segments ->
  rows * max_segments < u32_limit -> blen keys < u32_limit ->
  exists r, place salts keys sizes rows cap max_segments = Ok r /\
    match r with
    | Ok (p, rows_of) => 1 <= pl_segments p <= max_segments /\ placement_ok salts keys sizes rows cap p rows_of
    | Err i => exists size, sizes !! i = Some size /\ (size = 0 \/ cap < size \/
        exists fr, insert_batch (fixed_rows_new salts (rows * max_segments) cap) keys sizes = Ok (fr, Err i))
    end.
Proof. apply place_run. Qed.

(** ** Batches one after the other *)

(** The moves made before do not influence where entries go. *)
Lemma apply_path_moves fuel nodes i fr moves fr2 moves2 r moves' :
  apply_path fuel nodes i fr moves = Ok (fr2, moves2, r) -> exists moves2', apply_path fuel nodes i fr moves' = Ok (fr2, moves2', r).
Proof.
  revert i fr moves moves'. induction fuel as [|fuel IH]; intros i fr moves moves'; cbn [apply_path]; unfold at_index;
    destruct (nodes !! i) as [n|]; try done; run_ok; (destruct (parent n) as [[p m]|]; [|intros [= <- <- <-]; eauto]); [done|].
  destruct (nodes !! p) as [np|]; [|done]. run_ok. destruct (apply_move _ _ _ _) as [[fr' mv]|]; [|done]. run_ok. apply IH.
Qed.

Lemma search_moves visits fr cursor nodes seen moves fr2 moves2 r moves' :
  search visits fr cursor nodes seen moves = Ok (fr2, moves2, r) ->
  exists moves2', search visits fr cursor nodes seen moves' = Ok (fr2, moves2', r).
Proof.
  revert cursor nodes seen. induction visits as [|visits IH]; intros cursor nodes seen; cbn [search]; [intros [= <- <- <-]; eauto|].
  destruct (nodes !! cursor) as [n|]; [|intros [= <- <- <-]; eauto]. destruct (at_index (used fr) _) as [u|]; [|done]. run_ok.
  destruct (_ <=? _).
  - intros (fmr & Hp & H)%res_bind_Ok. destruct fmr as [[fr' moves''] r']. injection H as <- <- <-.
    destruct (apply_path_moves _ _ _ _ _ _ _ _ moves' Hp) as (m & ->). run_ok. eauto.
  - destruct (at_index (occupants fr) _) as [residents|]; [|done]. run_ok. destruct (expand _ _ _ _ _ _ _) as [[nodes' seen']|]; [|done]. run_ok. apply IH.
Qed.

Lemma choose_row_moves fr ab size moves fr2 moves2 r moves' :
  choose_row fr ab size moves = Ok (fr2, moves2, r) -> exists moves2', choose_row fr ab size moves' = Ok (fr2, moves2', r).
Proof.
  unfold choose_row. destruct ab as [a b]. destruct (at_index _ a) as [ua|]; [|done]. run_ok.
  destruct (at_index _ b) as [ub|]; [|done]. run_ok.
  destruct (if ua <=? ub then (a, ua, b, ub) else (b, ub, a, ua)) as [[[x ux] y] uy].
  destruct (ux + size <=? _); [intros [= <- <- <-]; eauto|]. destruct (uy + size <=? _); [intros [= <- <- <-]; eauto|].
  unfold relocate. destruct (root_nodes _ _) as [nodes seen]. apply search_moves.
Qed.

Section Batches.
Context `{!Sha256}.

Lemma insert_loop_moves batch first index fr moves fr2 first' index' moves' :
  insert_loop first index batch fr moves = Ok (fr2, Ok ()) -> insert_loop first' index' batch fr moves' = Ok (fr2, Ok ()).
Proof.
  revert index index' fr moves moves'. induction batch as [|[key size] batch IH]; intros index index' fr moves moves'; cbn [insert_loop]; [done|].
  destruct (candidates _ _ _) as [[a b]|]; [|done]. run_ok.
  intros (fmr & Hc & Hrun)%res_bind_Ok. destruct fmr as [[fr' moves''] r].
  destruct (choose_row_moves _ _ _ _ _ _ _ moves' Hc) as (m & ->). run_ok. destruct r as [r|].
  - destruct (put_entry _ _ _ _) as [fr3|]; [|done]. cbn in Hrun |- *. by eapply IH.
  - by destruct (undo _ _ _); cbn in *; simplify_eq.
Qed.

Lemma insert_loop_app b1 b2 first index fr moves fr1 fr2 :
  insert_loop first index b1 fr moves = Ok (fr1, Ok ()) -> insert_loop (length (fr_entries fr1)) 0 b2 fr1 [] = Ok (fr2, Ok ()) ->
  insert_loop first index (b1 ++ b2) fr moves = Ok (fr2, Ok ()).
Proof.
  revert index fr moves. induction b1 as [|[key size] b1 IH]; intros index fr moves; cbn [insert_loop app].
  { intros [= <-] H2. by eapply insert_loop_moves. }
  destruct (candidates _ _ _) as [[a b]|]; [|done]. run_ok. destruct (choose_row _ _ _ _) as [[[fr' moves'] [r|]]|]; [| |done]; run_ok.
  - destruct (put_entry _ _ _ _) as [fr3|]; [|done]. cbn. apply IH.
  - by destruct (undo _ _ _); cbn in *; simplify_eq.
Qed.

Lemma bad_size_app cap i s1 s2 :
  bad_size cap i s1 = None -> bad_size cap 0 s2 = None -> bad_size cap i (s1 ++ s2) = None.
Proof.
  revert i. induction s1 as [|s s1 IH]; intros i; cbn [bad_size app].
  - intros _. generalize O. revert i. induction s2 as [|s s2 IH]; intros i k; cbn [bad_size]; [done|]. destruct (_ || _); [done|]. apply IH.
  - destruct (_ || _); [done|]. apply IH.
Qed.

(** No step changes the capacity. *)
Lemma apply_path_capacity fuel nodes i fr moves fr2 moves2 r :
  apply_path fuel nodes i fr moves = Ok (fr2, moves2, r) -> capacity fr2 = capacity fr.
Proof.
  revert i fr moves. induction fuel as [|fuel IH]; intros i fr moves; cbn [apply_path]; unfold at_index;
    destruct (nodes !! i) as [n|]; try done; run_ok; (destruct (parent n) as [[p m]|]; [|by intros [= <- _ _]]); [done|].
  destruct (nodes !! p) as [np|]; [|done]. run_ok. destruct (apply_move _ _ _ _) as [[fr' mv]|] eqn:Hmove; [|done]. run_ok.
  intros ->%IH. unfold apply_move in Hmove. by repeat apply res_bind_Ok in Hmove as (? & _ & Hmove); injection Hmove as <- _.
Qed.

Lemma search_capacity visits fr cursor nodes seen moves fr2 moves2 r :
  search visits fr cursor nodes seen moves = Ok (fr2, moves2, r) -> capacity fr2 = capacity fr.
Proof.
  revert cursor nodes seen. induction visits as [|visits IH]; intros cursor nodes seen; cbn [search]; [by intros [= <- _ _]|].
  destruct (nodes !! cursor) as [n|]; [|by intros [= <- _ _]]. destruct (at_index (used fr) _) as [u|]; [|done]. run_ok.
  destruct (_ <=? _).
  - intros (fmr & Hp & Hr)%res_bind_Ok. destruct fmr as [[fr' moves''] r']. injection Hr as <- _ _. by eapply apply_path_capacity.
  - destruct (at_index (occupants fr) _) as [residents|]; [|done]. run_ok. destruct (expand _ _ _ _ _ _ _) as [[nodes' seen']|]; [|done]. run_ok. apply IH.
Qed.

Lemma choose_row_capacity fr ab size moves fr2 moves2 r :
  choose_row fr ab size moves = Ok (fr2, moves2, r) -> capacity fr2 = capacity fr.
Proof.
  unfold choose_row. destruct ab as [a b]. destruct (at_index _ a) as [ua|]; [|done]. run_ok. destruct (at_index _ b) as [ub|]; [|done]. run_ok.
  destruct (if ua <=? ub then (a, ua, b, ub) else (b, ub, a, ua)) as [[[x ux] y] uy].
  destruct (ux + size <=? _); [by intros [= <- _ _]|]. destruct (uy + size <=? _); [by intros [= <- _ _]|].
  unfold relocate. destruct (root_nodes _ _) as [nodes seen]. apply search_capacity.
Qed.

Lemma insert_loop_capacity batch first index fr moves fr2 :
  insert_loop first index batch fr moves = Ok (fr2, Ok ()) -> capacity fr2 = capacity fr.
Proof.
  revert index fr moves. induction batch as [|[key size] batch IH]; intros index fr moves; cbn [insert_loop]; [by intros [= <-]|].
  destruct (candidates _ _ _) as [[a b]|]; [|done]. run_ok.
  intros (fmr & Hc & Hrun)%res_bind_Ok. destruct fmr as [[fr' moves''] [r|]].
  - destruct (put_entry _ _ _ _) as [fr3|] eqn:Hput; [|done]. cbn in Hrun. apply IH in Hrun. apply choose_row_capacity in Hc.
    unfold put_entry in Hput. repeat apply res_bind_Ok in Hput as (? & _ & Hput). injection Hput as <-. cbn in Hrun. congruence.
  - by destruct (undo _ _ _); cbn in *; simplify_eq.
Qed.

(** Adding batch by batch.  Two batches that are inserted one after the other leave the
    rows as inserting them at once does. *)
Theorem batches_compose fr fr1 fr2 k1 k2 s1 s2 :
  insert_batch fr k1 s1 = Ok (fr1, Ok ()) -> insert_batch fr1 k2 s2 = Ok (fr2, Ok ()) ->
  insert_batch fr (k1 ++ k2) (s1 ++ s2) = Ok (fr2, Ok ()).
Proof.
  unfold insert_batch, blen. intros H1 H2.
  destruct (Z.eqb_spec (Z.of_nat (length k1)) (Z.of_nat (length s1))) as [E1|]; [|done].
  destruct (Z.eqb_spec (Z.of_nat (length k2)) (Z.of_nat (length s2))) as [E2|]; [|done]. cbn in H1, H2.
  destruct (bad_size _ _ s1) eqn:B1; [done|]. rewrite (insert_loop_capacity _ _ _ _ _ _ H1) in H2. destruct (bad_size _ _ s2) eqn:B2; [done|].
  rewrite !length_app. destruct (Z.eqb_spec (Z.of_nat (length k1 + length k2)) (Z.of_nat (length s1 + length s2))); [|lia].
  cbn. rewrite (bad_size_app _ _ _ _ B1 B2), zip_with_app by lia. by eapply insert_loop_app.
Qed.

(** ** Choice bits *)

Lemma choice_bits_run salts keys sizes rows cap p rows_of :
  placement_ok salts keys sizes rows cap p rows_of ->
  exists bits, choice_bits salts keys rows_of (rows * pl_segments p) = Ok bits /\ bits.*1 = keys /\
    forall i key bit row, bits !! i = Some (key, bit) -> rows_of !! i = Some row ->
      exists a b, candidates salts key (rows * pl_segments p) = Ok (a, b) /\ (bit = 0 /\ Z.of_nat row = a \/ bit = 1 /\ Z.of_nat row = b).
Proof.
  intros [Hlen Hcand _]. revert rows_of Hlen Hcand. induction keys as [|key keys IH]; intros [|row rows_of] Hlen Hcand; try done.
  { by exists []. }
  destruct (Hcand 0%nat key row eq_refl eq_refl) as (a & b & Hab & Hr). cbn [choice_bits]. rewrite Hab. run_ok.
  destruct (IH rows_of) as (bits & -> & Hk & Hb); [by injection Hlen|intros i; apply (Hcand (S i))|]. run_ok. cbn [fst].
  eexists. split; [done|]. split; [cbn; by rewrite Hk|]. intros [|i] key' bit row'; cbn [lookup list_lookup]; [|apply Hb].
  intros [= <- <-] [= <-]. exists a, b. split; [done|]. destruct (Z.eqb_spec (Z.of_nat row) a); lia.
Qed.
End Batches.
