(* ===== verification/DirectoryChoice.v ===== *)
(** * Choice tables

    [ChoiceTable] of [zakura/pir-protocol/src/directory/choice.rs]: a static function from keys
    to bits, stored as an array of bits such that the three positions of a key, one in each
    third, xor to its bit.  It is built by peeling: a key with a position of its own is set
    aside, and the positions are assigned in the reverse order.

    Positions and key numbers ([usize]) are natural numbers.  The stack of [peel] is the list
    of its elements from the top down. *)

From stdpp Require Import sorting.
From S2P Require Import Prelude ShardEvents ShardPacking ShardLayout DirectoryPlacement.

Definition CHOICE_VERSION : Z := 1.
Definition CHOICE_HEADER_BYTES : Z := 1 + 4 + 4 + 4.
Definition MAX_KEYS : Z := 2 ^ 24.

(** The strings of the messages are left out; a duplicate is reported by the key itself. *)
Inductive ChoiceError : Type :=
| Duplicate (key : list byte)
| TooManyKeys (keys : Z)
| Unpeelable (keys : Z)
| MalformedTable (why : string).

Inductive SeedPolicy : Type := Below (bound : Z) | AnySeed.

Record ChoiceTable : Type := MkChoiceTable { seed : Z; ct_keys : Z; segment : Z; ct_bits : list byte }.

(** [u64::div_ceil] with a divisor other than zero *)
Definition ceil_div (a b : Z) : Z := (a + b - 1) / b.

(** [segment_length] and [bit_bytes] *)
Definition segment_length (keys : Z) : Z := as_u32 (Z.max (ceil_div (ceil_div (keys * 123) 100 + 32) 3) 1).
Definition bit_bytes (segment : Z) : Z := ceil_div (3 * segment) 8.

(** ** Peeling *)

(** [count[at] += 1; xor[at] ^= key] for the positions of a key *)
Fixpoint count_key (key : nat) (positions : list nat) (count xor : list Z) : exec (list Z * list Z) :=
  match positions with
  | [] => Ok (count, xor)
  | at_ :: positions =>
      c ← at_index count at_;
      x ← at_index xor at_;
      count_key key positions (<[at_ := c + 1]> count) (<[at_ := Z.lxor x (Z.of_nat key)]> xor)
  end.

Fixpoint count_keys (key : nat) (hashed : list (list nat)) (count xor : list Z) : exec (list Z * list Z) :=
  match hashed with
  | [] => Ok (count, xor)
  | positions :: hashed =>
      cx ← count_key key positions count xor;
      let (count, xor) := cx : list Z * list Z in
      count_keys (S key) hashed count xor
  end.

(** [for &other in &hashed[key]] *)
Fixpoint remove_key (key : nat) (positions : list nat) (count xor : list Z) (stack : list nat)
    : exec (list Z * list Z * list nat) :=
  match positions with
  | [] => Ok (count, xor, stack)
  | other :: positions =>
      c ← at_index count other;
      c ← checked_minus c 1;
      x ← at_index xor other;
      remove_key key positions (<[other := c]> count) (<[other := Z.lxor x (Z.of_nat key)]> xor)
        (if c =? 1 then other :: stack else stack)
  end.

(** [while let Some(at) = stack.pop()] *)
Fixpoint peel_loop (fuel : nat) (hashed : list (list nat)) (count xor : list Z) (stack : list nat)
    (order : list (nat * nat)) : exec (list (nat * nat)) :=
  match stack with
  | [] => Ok order
  | at_ :: stack =>
      match fuel with
      | O => Err OutOfFuel
      | S fuel =>
          c ← at_index count at_;
          if negb (c =? 1) then peel_loop fuel hashed count xor stack order else
          x ← at_index xor at_;
          let key := Z.to_nat x in
          positions ← at_index hashed key;
          cxs ← remove_key key positions count xor stack;
          let '(count, xor, stack) := cxs : list Z * list Z * list nat in
          peel_loop fuel hashed count xor stack (order ++ [(key, at_)])
      end
  end.

(** [(0..slots).filter(|&at| count[at] == 1)] *)
Definition lone_slots (slots : nat) (count : list Z) : list nat :=
  filter (fun i => count !! i = Some 1) (seq 0 slots).

(** [peel] *)
Definition peel (hashed : list (list nat)) (slots : nat) : exec (option (list (nat * nat))) :=
  cx ← count_keys 0 hashed (replicate slots 0) (replicate slots 0);
  let (count, xor) := cx : list Z * list Z in
  order ← peel_loop (slots + 3 * length hashed) hashed count xor (rev (lone_slots slots count)) [];
  Ok (if (length order =? length hashed)%nat then Some order else None).

(** ** Building *)

(** [array[free] = 0; array[free] = bit ^ array[a] ^ array[b] ^ array[c]] *)
Definition assign_one (positions : list nat) (free : nat) (bit : Z) (array : list Z) : exec (list Z) :=
  _ ← at_index array free;
  let array := <[free := 0]> array in
  match positions with
  | [a; b; c] =>
      x ← at_index array a;
      y ← at_index array b;
      z ← at_index array c;
      Ok (<[free := Z.lxor (Z.lxor (Z.lxor bit x) y) z]> array)
  | _ => Err Unreachable
  end.

(** [for &(key, free) in order.iter().rev()] *)
Fixpoint assign_all (hashed : list (list nat)) (bits : list Z) (order : list (nat * nat)) (array : list Z)
    : exec (list Z) :=
  match order with
  | [] => Ok array
  | (key, free) :: order =>
      array ← assign_all hashed bits order array;
      positions ← at_index hashed key;
      bit ← at_index bits key;
      assign_one positions free bit array
  end.

(** [for (i, bit) in array.iter().enumerate()]: [bits[i / 8] |= bit << (i % 8)] *)
Fixpoint pack_bits (i : nat) (array : list Z) (bits : list byte) : exec (list byte) :=
  match array with
  | [] => Ok bits
  | bit :: array =>
      b ← at_index bits (i / 8);
      pack_bits (S i) array
        (<[(i / 8)%nat := byte.of_Z (Z.lor (byte.unsigned b) (Z.shiftl bit (Z.of_nat (i mod 8))))]> bits)
  end.

(** [sorted.insert(key, bit & 1)] for the entries *)
Fixpoint insert_keys (entries : list (list byte * Z)) (sorted : gmap (list byte) Z) : res ChoiceError (gmap (list byte) Z) :=
  match entries with
  | [] => Ok sorted
  | (key, bit) :: entries =>
      match sorted !! key with
      | Some _ => Err (Duplicate key)
      | None => insert_keys entries (<[key := Z.land bit 1]> sorted)
      end
  end.

(** The entries of a [BTreeMap] in the order of its keys *)
Definition key_le (a b : list byte * Z) : Prop := script_leb (fst a) (fst b) = true.
#[global] Instance key_le_dec : RelDecision key_le.
Proof. intros a b. unfold key_le. apply _. Defined.
Definition sorted_entries (m : gmap (list byte) Z) : list (list byte * Z) := merge_sort key_le (map_to_list m).

Section Choice.
Context `{!Sha256}.

(** [positions] *)
Definition positions (domain context : list byte) (seed segment : Z) (key : list byte) : exec (list nat) :=
  let digest := sha256 (domain ++ context ++ le_split 4 seed ++ le_split 4 (as_u32 (blen key)) ++ key) in
  let position i :=
    if segment =? 0 then Err AssertFailed
    else Ok (Z.to_nat (i * segment + le_combine (slice (i * 8) (i * 8 + 8) digest) mod segment)) in
  a ← position 0; b ← position 1; c ← position 2; Ok [a; b; c].

Fixpoint all_positions (domain context : list byte) (seed segment : Z) (keys : list (list byte)) : exec (list (list nat)) :=
  match keys with
  | [] => Ok []
  | key :: keys =>
      p ← positions domain context seed segment key;
      rest ← all_positions domain context seed segment keys;
      Ok (p :: rest)
  end.

(** [for seed in seeds] *)
Fixpoint try_seeds (domain context : list byte) (seeds : list Z) (sorted : list (list byte * Z)) (keys segment : Z)
    : run ChoiceError ChoiceTable :=
  match seeds with
  | [] => Err (Failed (Unpeelable keys))
  | seed :: seeds =>
      let slots := Z.to_nat (3 * segment) in
      hashed ← panics (all_positions domain context seed segment sorted.*1);
      peeled ← panics (peel hashed slots);
      match peeled with
      | None => try_seeds domain context seeds sorted keys segment
      | Some order =>
          array ← panics (assign_all hashed sorted.*2 order (replicate slots 0));
          bits ← panics (pack_bits 0 array (zeros (bit_bytes segment)));
          Ok (MkChoiceTable seed keys segment bits)
      end
  end.

(** [ChoiceTable::build] *)
Definition choice_build (domain context : list byte) (seeds : list Z) (entries : list (list byte * Z))
    : run ChoiceError ChoiceTable :=
  if MAX_KEYS <? blen entries then Err (Failed (TooManyKeys (blen entries))) else
  sorted ← fails (insert_keys entries ∅);
  let keys := Z.of_nat (size sorted) in
  try_seeds domain context seeds (sorted_entries sorted) keys (segment_length keys).

(** [self.bits[at / 8] >> (at % 8) & 1] *)
Definition bit_at (bits : list byte) (at_ : nat) : exec Z :=
  b ← at_index bits (at_ / 8);
  Ok (Z.land (Z.shiftr (byte.unsigned b) (Z.of_nat (at_ mod 8))) 1).

Fixpoint xor_bits (bits : list byte) (acc : Z) (positions : list nat) : exec Z :=
  match positions with
  | [] => Ok acc
  | at_ :: positions => b ← bit_at bits at_; xor_bits bits (Z.lxor acc b) positions
  end.

(** [ChoiceTable::choice] *)
Definition choice (t : ChoiceTable) (domain context key : list byte) : exec Z :=
  ps ← positions domain context (seed t) (segment t) key;
  xor_bits (ct_bits t) 0 ps.
End Choice.

(** [ChoiceTable::encode] *)
Definition choice_encode (t : ChoiceTable) : list byte :=
  byte.of_Z CHOICE_VERSION :: le_split 4 (seed t) ++ le_split 4 (ct_keys t) ++ le_split 4 (segment t) ++ ct_bits t.

(** [matches!(seeds, SeedPolicy::Below(bound) if seed >= bound)] *)
Definition seed_refused (policy : SeedPolicy) (seed : Z) : bool :=
  match policy with Below bound => bound <=? seed | AnySeed => false end.

(** Whether a bit beyond the positions is set in the last byte *)
Definition padding_set (segment : Z) (bits : list byte) : exec bool :=
  let used := 3 * segment in
  if used mod 8 =? 0 then Ok false else
  b ← expect (last bits);
  Ok (negb (Z.shiftr (byte.unsigned b) (used mod 8) =? 0)).

(** [ChoiceTable::decode] *)
Definition choice_decode (bytes : list byte) (policy : SeedPolicy) : run ChoiceError ChoiceTable :=
  if blen bytes <? CHOICE_HEADER_BYTES then Err (Failed (MalformedTable "shorter than a header")) else
  if negb (le_combine (slice 0 1 bytes) =? CHOICE_VERSION) then Err (Failed (MalformedTable "version")) else
  let word at_ := le_combine (slice at_ (at_ + 4) bytes) in
  let '(seed, keys, segment) := (word 1, word 5, word 9) in
  if seed_refused policy seed then Err (Failed (MalformedTable "seed")) else
  if MAX_KEYS <? keys then Err (Failed (MalformedTable "keys")) else
  if negb (segment =? segment_length keys) then Err (Failed (MalformedTable "segment")) else
  if negb (blen bytes =? CHOICE_HEADER_BYTES + bit_bytes segment) then Err (Failed (MalformedTable "length")) else
  let bits := bdrop CHOICE_HEADER_BYTES bytes in
  padding ← panics (padding_set segment bits);
  if (padding : bool) then Err (Failed (MalformedTable "nonzero padding bits")) else
  Ok (MkChoiceTable seed keys segment bits).
