(* ===== verification/DirectoryPeel.v ===== *)
(** * Peeling

    The counters of [peel] describe the keys that are left: how many touch a slot, and the
    exclusive or of their numbers.  The loop therefore ends with an order in which each key has
    a slot that no later key touches, and what is left over is a core, in which no slot belongs
    to a single key. *)

From S2P Require Import Prelude ShardEvents ShardPacking DirectoryPlacement DirectoryChoice.

(** ** Exclusive or *)

Ltac xor_bits_equal := apply Z.bits_inj'; intros ? _; rewrite ?Z.lxor_spec, ?Z.bits_0; repeat destruct (Z.testbit _ _); reflexivity.

Definition xsum (l : list nat) : Z := foldr (fun k n => Z.lxor (Z.of_nat k) n) 0 l.

Lemma xsum_permutation l k : l ≡ₚ k -> xsum l = xsum k.
Proof.
  unfold xsum. induction 1 as [|x l k _ IH|x y l|l k m _ IH1 _ IH2]; cbn [foldr]; [done|by rewrite IH| |congruence]. xor_bits_equal.
Qed.

Lemma xsum_snoc l x : xsum (l ++ [x]) = Z.lxor (xsum l) (Z.of_nat x).
Proof. rewrite (xsum_permutation _ (x :: l)) by (by rewrite Permutation_app_comm). cbn. apply Z.lxor_comm. Qed.

Lemma extract_elem (k : nat) l : NoDup l -> k ∈ l -> l ≡ₚ k :: filter (fun x => x <> k) l.
Proof.
  intros Hn Hk. apply NoDup_Permutation; [done| |].
  - apply NoDup_cons. split; [|by apply NoDup_filter]. rewrite list_elem_of_filter. naive_solver.
  - intros x. rewrite elem_of_cons, list_elem_of_filter. destruct (decide (x = k)); naive_solver.
Qed.

Lemma xsum_remove (k : nat) l : NoDup l -> k ∈ l -> xsum (filter (fun x => x <> k) l) = Z.lxor (xsum l) (Z.of_nat k).
Proof.
  intros Hn Hk. rewrite (xsum_permutation l _ (extract_elem k l Hn Hk)). unfold xsum. cbn [foldr]. xor_bits_equal.
Qed.

Lemma length_remove (k : nat) l : NoDup l -> k ∈ l -> length l = S (length (filter (fun x => x <> k) l)).
Proof. intros Hn Hk. by rewrite (Permutation_length (extract_elem k l Hn Hk)) at 1. Qed.

(** ** The loops over the positions of a key *)

Lemma count_key_run key ps count xor :
  NoDup ps -> Forall (fun i => (i < length count)%nat) ps -> length xor = length count ->
  exists count' xor', count_key key ps count xor = Ok (count', xor') /\ length count' = length count /\ length xor' = length count /\
    forall i c x, count !! i = Some c -> xor !! i = Some x ->
      count' !! i = Some (if decide (i ∈ ps) then c + 1 else c) /\
      xor' !! i = Some (if decide (i ∈ ps) then Z.lxor x (Z.of_nat key) else x).
Proof.
  revert count xor. induction ps as [|p ps IH]; intros count xor Hn Hb Hl; cbn [count_key].
  { exists count, xor. split_and!; [done..|]. intros i c x Hc Hx. destruct (decide (i ∈ [])) as [[]%not_elem_of_nil|]; done. }
  apply NoDup_cons in Hn as [Hp Hn]. apply Forall_cons in Hb as [Hpb Hb].
  destruct (lookup_lt_is_Some_2 _ _ Hpb) as (c0 & Hc0). destruct (lookup_lt_is_Some_2 xor p) as (x0 & Hx0); [lia|].
  unfold at_index. rewrite Hc0. run_ok. rewrite Hx0. run_ok.
  destruct (IH (<[p:=c0 + 1]> count) (<[p:=Z.lxor x0 (Z.of_nat key)]> xor)) as (count' & xor' & Hrun & Hl1 & Hl2 & Hi);
    [done|by rewrite length_insert|by rewrite !length_insert|].
  rewrite length_insert in Hl1, Hl2. exists count', xor'. split_and!; [done..|]. intros i c x Hc Hx.
  destruct (decide (i = p)) as [->|Hne].
  - destruct (Hi p (c0 + 1) (Z.lxor x0 (Z.of_nat key))) as [H1 H2]; [apply list_lookup_insert_eq; lia..|].
    rewrite decide_False in H1, H2 by done. rewrite !decide_True by left. split; congruence.
  - destruct (Hi i c x) as [H1 H2]; [by rewrite list_lookup_insert_ne..|]. rewrite H1, H2.
    destruct (decide (i ∈ ps)) as [Hin|Hni]; [rewrite !decide_True by (by right)|rewrite !decide_False by set_solver]; done.
Qed.

Lemma remove_key_run key ps count xor stack :
  NoDup ps -> length xor = length count -> Forall (fun i => exists c, count !! i = Some c /\ 1 <= c) ps ->
  exists count' xor' new, remove_key key ps count xor stack = Ok (count', xor', new ++ stack) /\
    length count' = length count /\ length xor' = length count /\ (length new <= length ps)%nat /\
    (forall i, i ∈ new -> i ∈ ps) /\ (forall i, i ∈ ps -> count' !! i = Some 1 -> i ∈ new) /\
    forall i c x, count !! i = Some c -> xor !! i = Some x ->
      count' !! i = Some (if decide (i ∈ ps) then c - 1 else c) /\
      xor' !! i = Some (if decide (i ∈ ps) then Z.lxor x (Z.of_nat key) else x).
Proof.
  revert count xor stack. induction ps as [|p ps IH]; intros count xor stack Hn Hl Hb; cbn [remove_key].
  { exists count, xor, []. by split_and!. }
  apply NoDup_cons in Hn as [Hp Hn]. apply Forall_cons in Hb as [(c0 & Hc0 & Hpos) Hb].
  pose proof (lookup_lt_Some _ _ _ Hc0) as Hpb. destruct (lookup_lt_is_Some_2 xor p) as (x0 & Hx0); [lia|].
  unfold at_index. rewrite Hc0. run_ok. unfold checked_minus. destruct (Z.leb_spec 1 c0); [|lia]. run_ok. rewrite Hx0. run_ok.
  destruct (IH (<[p:=c0 - 1]> count) (<[p:=Z.lxor x0 (Z.of_nat key)]> xor) (if c0 - 1 =? 1 then p :: stack else stack))
    as (count' & xor' & new & Hrun & Hl1 & Hl2 & Hln & Hnew & Hone & Hi); [done|by rewrite !length_insert| |].
  { apply Forall_forall. intros i Hi. rewrite list_lookup_insert_ne by set_solver. rewrite Forall_forall in Hb. auto. }
  rewrite length_insert in Hl1, Hl2.
  destruct (Hi p (c0 - 1) (Z.lxor x0 (Z.of_nat key))) as [H1 H2]; [apply list_lookup_insert_eq; lia..|].
  rewrite decide_False in H1, H2 by done.
  exists count', xor', (new ++ if c0 - 1 =? 1 then [p] else []). rewrite <- app_assoc. split_and!; [| | | | | |].
  - rewrite Hrun. do 3 f_equal. by destruct (c0 - 1 =? 1).
  - done.
  - done.
  - rewrite length_app. cbn [length]. destruct (c0 - 1 =? 1); cbn [length]; lia.
  - intros i [Hin|Hin]%elem_of_app; [right; auto|]. destruct (c0 - 1 =? 1); [|by apply not_elem_of_nil in Hin].
    apply list_elem_of_singleton in Hin as ->. left.
  - intros i [->|Hin]%elem_of_cons Hone'; apply elem_of_app; [right|left; auto].
    rewrite H1 in Hone'. injection Hone' as ->. rewrite Z.eqb_refl. left.
  - intros i c x Hc Hx. destruct (decide (i = p)) as [->|Hne].
    + rewrite !decide_True by left. split; congruence.
    + destruct (Hi i c x) as [H3 H4]; [by rewrite list_lookup_insert_ne..|]. rewrite H3, H4.
      destruct (decide (i ∈ ps)) as [Hin|Hni]; [rewrite !decide_True by (by right)|rewrite !decide_False by set_solver]; done.
Qed.

(** ** The loop *)

Section Peeling.
Context (hashed : list (list nat)) (slots : nat).

Definition pos (k : nat) : list nat := default [] (hashed !! k).

(** The keys of a list that touch a slot *)
Definition touching (R : list nat) (i : nat) : list nat := filter (fun k => i ∈ pos k) R.

(** Without a key *)
Definition without (k : nat) (R : list nat) : list nat := filter (fun x => x <> k) R.

(** [peels R order R']: the keys are set aside in this order, each with a slot that no other of
    the keys still there touches *)
Inductive peels : list nat -> list (nat * nat) -> list nat -> Prop :=
| peels_nil R : peels R [] R
| peels_cons R k i order R' :
    k ∈ R -> i ∈ pos k -> (forall k', k' ∈ R -> i ∈ pos k' -> k' = k) -> peels (without k R) order R' ->
    peels R ((k, i) :: order) R'.

(** No slot belongs to a single key. *)
Definition is_core (R : list nat) : Prop := forall i, length (touching R i) <> 1%nat.

Record counters (R : list nat) (count xor : list Z) : Prop := {
  c_count : length count = slots; c_xor : length xor = slots;
  c_at : forall i, (i < slots)%nat ->
    count !! i = Some (Z.of_nat (length (touching R i))) /\ xor !! i = Some (xsum (touching R i)) }.

Definition positions_ok (ps : list nat) : Prop :=
  NoDup ps /\ Forall (fun i => (i < slots)%nat) ps /\ (length ps <= 3)%nat.
Context (Hwf : Forall positions_ok hashed).

Lemma pos_ok k : positions_ok (pos k).
Proof using Hwf.
  unfold pos. destruct (hashed !! k) as [ps|] eqn:E; cbn; [by eapply (Forall_lookup_1 _ _ _ _ Hwf)|].
  split_and!; [apply NoDup_nil_2|done|cbn; lia].
Qed.

Lemma touching_snoc R k i : touching (R ++ [k]) i = touching R i ++ if decide (i ∈ pos k) then [k] else [].
Proof using. unfold touching. by rewrite filter_app, filter_cons, filter_nil. Qed.

Lemma touching_without R k i : touching (without k R) i = filter (fun x => x <> k) (touching R i).
Proof using.
  unfold touching, without. rewrite !list_filter_filter. apply list_filter_iff. intros x. tauto.
Qed.

Lemma without_absent (l : list nat) k : k ∉ l -> filter (fun x => x <> k) l = l.
Proof using.
  induction l as [|x l IH]; intros Hk; [done|]. apply not_elem_of_cons in Hk as [Hx Hk].
  rewrite filter_cons_True by congruence. by rewrite IH.
Qed.

Lemma count_keys_run rest key count xor :
  hashed = take key hashed ++ rest -> length (take key hashed) = key -> counters (seq 0 key) count xor ->
  exists count' xor', count_keys key rest count xor = Ok (count', xor') /\ counters (seq 0 (length hashed)) count' xor'.
Proof using Hwf.
  revert key count xor. induction rest as [|ps rest IH]; intros key count xor Hh Hk Hc; cbn [count_keys].
  { exists count, xor. split; [done|]. rewrite Hh, app_nil_r, Hk. done. }
  assert (hashed !! key = Some ps) as Hps by (rewrite Hh; rewrite lookup_app_r, Hk, Nat.sub_diag by lia; done).
  assert (pos key = ps) as Hpos by (unfold pos; by rewrite Hps).
  destruct (pos_ok key) as (Hn & Hb & _). rewrite Hpos in Hn, Hb.
  destruct (count_key_run key ps count xor) as (count' & xor' & -> & Hl1 & Hl2 & Hi);
    [done|by rewrite (c_count _ _ _ Hc)|by rewrite (c_count _ _ _ Hc), (c_xor _ _ _ Hc)|]. run_ok.
  apply IH.
  - rewrite (take_S_r _ _ _ Hps), <- app_assoc. done.
  - rewrite length_take. apply lookup_lt_Some in Hps. lia.
  - rewrite (c_count _ _ _ Hc) in Hl1, Hl2. constructor; [done|done|]. intros i Hlt.
    destruct (c_at _ _ _ Hc i Hlt) as [H1 H2]. destruct (Hi i _ _ H1 H2) as [-> ->].
    rewrite seq_S, touching_snoc, Nat.add_0_l, Hpos, length_app. case_decide; cbn [length].
    + rewrite xsum_snoc. split; do 2 f_equal; lia.
    + rewrite app_nil_r, Nat.add_0_r. done.
Qed.

(** The counters after a key was set aside *)
Lemma counters_without R k count xor count' xor' :
  NoDup R -> k ∈ R -> counters R count xor -> length count' = slots -> length xor' = slots ->
  (forall i c x, count !! i = Some c -> xor !! i = Some x ->
    count' !! i = Some (if decide (i ∈ pos k) then c - 1 else c) /\
    xor' !! i = Some (if decide (i ∈ pos k) then Z.lxor x (Z.of_nat k) else x)) ->
  counters (without k R) count' xor'.
Proof using.
  intros Hn Hk Hc Hl1 Hl2 Hi. constructor; [done|done|]. intros i Hlt. destruct (c_at _ _ _ Hc i Hlt) as [H1 H2].
  destruct (Hi i _ _ H1 H2) as [-> ->]. rewrite touching_without. case_decide as Hin.
  - assert (k ∈ touching R i) as Ht by (by apply list_elem_of_filter). assert (NoDup (touching R i)) as Hnt by (by apply NoDup_filter).
    rewrite (xsum_remove _ _ Hnt Ht), (length_remove _ _ Hnt Ht). split; [f_equal; lia|done].
  - rewrite without_absent; [done|]. unfold touching. rewrite list_elem_of_filter. tauto.
Qed.

Lemma lone_key R count xor i :
  NoDup R -> counters R count xor -> count !! i = Some 1 ->
  exists k, xor !! i = Some (Z.of_nat k) /\ k ∈ R /\ i ∈ pos k /\ forall k', k' ∈ R -> i ∈ pos k' -> k' = k.
Proof using.
  intros Hn Hc Hone. assert (i < slots)%nat as Hlt by (rewrite <- (c_count _ _ _ Hc); by eapply lookup_lt_Some).
  destruct (c_at _ _ _ Hc i Hlt) as [H1 H2]. rewrite Hone in H1. injection H1 as H1.
  destruct (touching R i) as [|k [|k' l]] eqn:E; cbn in H1; try lia.
  exists k. rewrite H2. cbn. rewrite Z.lxor_0_r.
  assert (forall x, x ∈ touching R i <-> x = k) as Hx by (intros x; rewrite E; apply list_elem_of_singleton).
  unfold touching in Hx. setoid_rewrite list_elem_of_filter in Hx.
  split_and!; [done|by apply Hx|by apply Hx|]. intros k' H3 H4. by apply Hx.
Qed.

Lemma counters_core R count xor : counters R count xor -> (forall i, count !! i <> Some 1) -> is_core R.
Proof using Hwf.
  intros Hc Hno i Hi. destruct (touching R i) as [|k l] eqn:E; [done|].
  assert (k ∈ touching R i) as [Hin _]%list_elem_of_filter by (rewrite E; left).
  destruct (pos_ok k) as (_ & Hb & _). rewrite Forall_forall in Hb. apply Hb in Hin.
  destruct (c_at _ _ _ Hc i Hin) as [H1 _]. apply (Hno i). rewrite H1, E, Hi. done.
Qed.

Lemma peel_loop_run fuel R count xor stack order :
  NoDup R -> Forall (fun k => (k < length hashed)%nat) R -> counters R count xor -> Forall (fun i => (i < slots)%nat) stack ->
  (forall i, count !! i = Some 1 -> i ∈ stack) -> (length stack + 3 * length R <= fuel)%nat ->
  exists new R', peel_loop fuel hashed count xor stack order = Ok (order ++ new) /\ peels R new R' /\ is_core R'.
Proof using Hwf.
  revert R count xor stack order. induction fuel as [|fuel IH]; intros R count xor stack order Hn Hd Hc Hs Hcomp Hf;
    (destruct stack as [|i stack]; cbn [peel_loop length] in *; [|try lia]).
  1, 2: exists [], R; rewrite app_nil_r; split_and!; [done|constructor|]; eapply counters_core; [done|]; intros i Hi; by apply Hcomp, not_elem_of_nil in Hi.
  apply Forall_cons in Hs as [Hi Hs]. destruct (c_at _ _ _ Hc i Hi) as [Hci Hxi].
  unfold at_index. rewrite Hci. run_ok. destruct (Z.eqb_spec (Z.of_nat (length (touching R i))) 1) as [Hone|Hnone]; cbn [negb].
  2: { apply (IH R); try done; [|lia]. intros j Hj. pose proof (Hcomp j Hj) as [->|?]%elem_of_cons; [|done]. congruence. }
  rewrite Hone in Hci. destruct (lone_key _ _ _ _ Hn Hc Hci) as (k & Hk & HkR & Hik & Huniq). rewrite Hk. run_ok. rewrite Nat2Z.id.
  assert (hashed !! k = Some (pos k)) as Hpk.
  { rewrite Forall_forall in Hd. destruct (lookup_lt_is_Some_2 _ _ (Hd _ HkR)) as (ps & E). unfold pos. by rewrite E. }
  rewrite Hpk. run_ok. destruct (pos_ok k) as (Hnp & Hbp & Hlp).
  destruct (remove_key_run k (pos k) count xor stack) as (count' & xor' & new & -> & Hl1 & Hl2 & Hln & Hnew & Hones & Heff); [done| | |].
  { by rewrite (c_count _ _ _ Hc), (c_xor _ _ _ Hc). }
  { apply Forall_forall. intros j Hj. rewrite Forall_forall in Hbp. destruct (c_at _ _ _ Hc j (Hbp _ Hj)) as [Hcj _].
    eexists. split; [done|]. assert (k ∈ touching R j) as Ht by (by apply list_elem_of_filter).
    destruct (touching R j); [by apply not_elem_of_nil in Ht|cbn [length]; lia]. }
  run_ok. rewrite (c_count _ _ _ Hc) in Hl1, Hl2.
  pose proof (counters_without R k count xor count' xor' Hn HkR Hc Hl1 Hl2 Heff) as Hc'.
  destruct (IH (without k R) count' xor' (new ++ stack) (order ++ [(k, i)])) as (new' & R' & Hrun & Hpeel & Hcore).
  - by apply NoDup_filter.
  - rewrite Forall_forall in Hd |- *. intros x [_ Hx]%list_elem_of_filter. auto.
  - done.
  - apply Forall_app. split; [|done]. rewrite Forall_forall in Hbp |- *. auto.
  - intros j Hj. apply elem_of_app. destruct (decide (j ∈ pos k)) as [Hin|Hni]; [left; auto|right].
    assert (j < slots)%nat as Hlt by (rewrite <- Hl1; by eapply lookup_lt_Some). destruct (c_at _ _ _ Hc j Hlt) as [Hcj Hxj].
    destruct (Heff j _ _ Hcj Hxj) as [E _]. rewrite decide_False in E by done. rewrite E in Hj.
    pose proof (Hcomp j ltac:(congruence)) as [->|?]%elem_of_cons; [congruence|done].
  - rewrite length_app. pose proof (length_remove k R Hn HkR) as E. unfold without. lia.
  - exists ((k, i) :: new'), R'. rewrite <- app_assoc in Hrun. split_and!; [done|by constructor|done].
Qed.
End Peeling.

(** ** The whole of [peel] *)

Lemma peels_length hashed R order R' : NoDup R -> peels hashed R order R' -> length R = (length order + length R')%nat.
Proof.
  intros Hn Hp. induction Hp as [|R k i order R' Hk Hi Hu Hp IH]; [done|]. cbn [length].
  rewrite (length_remove k R Hn Hk). unfold without in IH. rewrite IH by (by apply NoDup_filter). done.
Qed.

(** [peel] returns an order that sets all keys aside, or there is a core. *)
Lemma peel_run hashed slots :
  Forall (positions_ok slots) hashed ->
  exists r, peel hashed slots = Ok r /\
    match r with
    | Some order => peels hashed (seq 0 (length hashed)) order []
    | None => exists order R, R <> [] /\ peels hashed (seq 0 (length hashed)) order R /\ is_core hashed R
    end.
Proof.
  intros Hwf. unfold peel.
  destruct (count_keys_run hashed slots Hwf hashed 0 (replicate slots 0) (replicate slots 0)) as (count & xor & -> & Hc); [done|done| |].
  { constructor; [apply length_replicate..|]. intros i Hi. cbn. by rewrite !lookup_replicate_2. }
  run_ok. assert (Forall (fun i => (i < slots)%nat) (lone_slots slots count)) as Hlone.
  { apply Forall_forall. intros i [_ Hi%elem_of_seq]%list_elem_of_filter. lia. }
  destruct (peel_loop_run hashed slots Hwf (slots + 3 * length hashed) (seq 0 (length hashed)) count xor (rev (lone_slots slots count)) [])
    as (order & R & -> & Hp & Hcore).
  - apply NoDup_seq.
  - apply Forall_forall. intros k Hk%elem_of_seq. lia.
  - done.
  - by apply Forall_rev.
  - intros i Hi. apply list_elem_of_In, in_rev. rewrite rev_involutive. apply list_elem_of_In, list_elem_of_filter. split; [done|].
    apply elem_of_seq. apply lookup_lt_Some in Hi. rewrite (c_count _ _ _ _ _ Hc) in Hi. lia.
  - rewrite length_rev, length_seq. unfold lone_slots.
    pose proof (length_filter (fun i => count !! i = Some 1) (seq 0 slots)) as Hl. rewrite length_seq in Hl. lia.
  - run_ok. cbn [app]. eexists. split; [done|].
    pose proof (peels_length hashed _ _ _ (NoDup_seq _ _) Hp) as Hlen. rewrite length_seq in Hlen.
    destruct (Nat.eqb_spec (length order) (length hashed)).
    + destruct R; [done|cbn in Hlen; lia].
    + exists order, R. split_and!; [|done|done]. intros ->. cbn in Hlen. lia.
Qed.

(** ** Assigning the positions *)

Definition is_bit (b : Z) : Prop := b = 0 \/ b = 1.

(** The exclusive or of the positions of an array *)
Definition parity (array : list Z) (ps : list nat) : Z := foldr (fun i n => Z.lxor (default 0 (array !! i)) n) 0 ps.

Lemma parity_unaffected array i v ps : i ∉ ps -> parity (<[i := v]> array) ps = parity array ps.
Proof.
  unfold parity. induction ps as [|p ps IH]; intros Hi; cbn [foldr]; [done|]. apply not_elem_of_cons in Hi as [Hp Hi].
  rewrite list_lookup_insert_ne by done. by rewrite IH.
Qed.

Lemma lookup_set (array : list Z) i j v :
  (i < length array)%nat -> default 0 (<[i := v]> array !! j) = if decide (j = i) then v else default 0 (array !! j).
Proof.
  intros Hi. case_decide as E; [subst; by rewrite list_lookup_insert_eq|by rewrite list_lookup_insert_ne].
Qed.

Lemma lxor_bit a b : is_bit a -> is_bit b -> is_bit (Z.lxor a b).
Proof. by intros [-> | ->] [-> | ->]; cbn; (left + right). Qed.

Lemma bit_lookup array i : Forall is_bit array -> is_bit (default 0 (array !! i)).
Proof. intros H. destruct (array !! i) eqn:E; [by apply (Forall_lookup_1 _ _ _ _ H E)|by left]. Qed.

Definition three_positions (slots : nat) (ps : list nat) : Prop :=
  exists a b c, ps = [a; b; c] /\ NoDup ps /\ Forall (fun i => (i < slots)%nat) ps.

Lemma assign_one_run slots ps free bit array :
  three_positions slots ps -> length array = slots -> free ∈ ps -> is_bit bit -> Forall is_bit array ->
  exists v, assign_one ps free bit array = Ok (<[free := v]> array) /\ is_bit v /\ parity (<[free := v]> array) ps = bit.
Proof.
  intros (a & b & c & -> & Hn & Hb) Hl Hf Hbit Harr.
  assert (free < slots)%nat as Hfree by (rewrite Forall_forall in Hb; auto).
  destruct (lookup_lt_is_Some_2 array free) as (old & Hold); [lia|].
  unfold assign_one, at_index. rewrite Hold. run_ok.
  assert (forall i, i ∈ [a; b; c] -> expect (<[free := 0]> array !! i) = Ok (default 0 (<[free := 0]> array !! i))) as Hget.
  { intros i Hi. rewrite Forall_forall in Hb. destruct (lookup_lt_is_Some_2 (<[free := 0]> array) i) as (x & ->); [|done].
    rewrite length_insert. specialize (Hb i Hi). lia. }
  rewrite (Hget a) by set_solver. run_ok. rewrite (Hget b) by set_solver. run_ok. rewrite (Hget c) by set_solver. run_ok.
  rewrite list_insert_insert_eq. eexists. split; [done|].
  assert (Forall is_bit (<[free := 0]> array)) as Harr0 by (apply Forall_insert; [done|by left]).
  split; [by repeat apply lxor_bit; try apply bit_lookup|].
  apply NoDup_cons in Hn as [Ha [Hb' _]%NoDup_cons]. rewrite !elem_of_cons, elem_of_nil in Hf. unfold parity. cbn [foldr].
  destruct Hf as [-> | [-> | [-> | []]]];
    rewrite !lookup_set by lia; repeat first [rewrite decide_True by done | rewrite decide_False by set_solver]; xor_bits_equal.
Qed.

(** All keys that were set aside get their bits. *)
Lemma assign_all_run hashed slots bits R order R' :
  Forall (three_positions slots) hashed -> length bits = length hashed -> Forall is_bit bits ->
  NoDup R -> Forall (fun k => (k < length hashed)%nat) R -> peels hashed R order R' ->
  exists array, assign_all hashed bits order (replicate slots 0) = Ok array /\ length array = slots /\ Forall is_bit array /\
    forall k, k ∈ order.*1 -> k ∈ R /\ Some (parity array (pos hashed k)) = bits !! k.
Proof.
  intros Hwf Hlb Hbits Hn Hd Hp. induction Hp as [R|R k i order R' Hk Hi Hu Hp IH]; cbn [assign_all].
  { exists (replicate slots 0). split_and!; [done|apply length_replicate|apply Forall_replicate; by left|].
    by intros k ?%elem_of_nil. }
  destruct IH as (array & -> & Hl & Ha & Hpar); [by apply NoDup_filter|rewrite Forall_forall in Hd |- *; intros x [_ Hx]%list_elem_of_filter; auto|].
  run_ok. rewrite Forall_forall in Hd. destruct (lookup_lt_is_Some_2 _ _ (Hd _ Hk)) as (ps & Hps).
  assert (pos hashed k = ps) as Hpos by (unfold pos; by rewrite Hps). rewrite Hpos in Hi.
  destruct (lookup_lt_is_Some_2 bits k) as (bit & Hbit); [rewrite Hlb; auto|].
  unfold at_index. rewrite Hps. run_ok. rewrite Hbit. run_ok.
  destruct (assign_one_run slots ps i bit array) as (v & Hrun & Hv & Hparity); try done;
    [by eapply (Forall_lookup_1 _ _ _ _ Hwf)|by eapply (Forall_lookup_1 _ _ _ _ Hbits)|].
  exists (<[i := v]> array). split_and!; [done|by rewrite length_insert|by apply Forall_insert|].
  intros k' [->|Hk']%elem_of_cons; [cbn [fst]; by rewrite Hpos, Hparity, Hbit|].
  destruct (Hpar k' Hk') as [[Hne HR]%list_elem_of_filter Hpk]. split; [done|]. rewrite parity_unaffected; [done|].
  intros Hin. apply Hne, Hu; done.
Qed.

Lemma peels_all hashed R order k : peels hashed R order [] -> k ∈ R -> k ∈ order.*1.
Proof.
  intros Hp. remember [] as R' eqn:E. induction Hp as [R|R k' i order R' Hk Hi Hu Hp IH]; subst; [done|].
  intros HkR. cbn. destruct (decide (k = k')) as [->|]; [left|right]. apply IH; [done|]. apply list_elem_of_filter. done.
Qed.
