(* ===== verification/DirectoryChoiceTheorems.v ===== *)
(** * What choice tables promise

    A table that was built names the bit of every key; the bytes of a table and the table
    determine each other. *)

From stdpp Require Import sorting.
From S2P Require Import Prelude BitStream ShardEvents ShardEventProofs ShardCompact ShardPacking ShardLayout.
From S2P Require Import DirectoryPlacement DirectoryChoice DirectoryPeel.

(** ** Packed bits *)

Definition bit_value (bits : list byte) (i : nat) : bool :=
  Z.testbit (byte.unsigned (default Byte.x00 (bits !! (i / 8)%nat))) (Z.of_nat (i mod 8)).

Lemma unsigned_small x : 0 <= x < 256 -> byte.unsigned (byte.of_Z x) = x.
Proof. intros H. rewrite byte.unsigned_of_Z. unfold byte.wrap. by apply Z.mod_small. Qed.

Lemma lor_byte a k : 0 <= a < 256 -> (k < 8)%nat -> 0 <= Z.lor a (Z.shiftl 1 (Z.of_nat k)) < 256.
Proof.
  intros Ha Hk. split; [apply Z.lor_nonneg; split; [lia|apply Z.shiftl_nonneg; lia]|].
  change 256 with (2 ^ 8). destruct (Z.eq_dec (Z.lor a (Z.shiftl 1 (Z.of_nat k))) 0) as [->|Hne]; [done|].
  apply Z.log2_lt_pow2; [apply Z.le_neq; split; [apply Z.lor_nonneg; split; [lia|apply Z.shiftl_nonneg; lia]|done]|].
  rewrite Z.log2_lor by (try apply Z.shiftl_nonneg; lia). rewrite Z.shiftl_1_l, Z.log2_pow2 by lia.
  apply Z.max_lub_lt; [|lia]. destruct (Z.eq_dec a 0) as [->|]; [done|]. apply Z.log2_lt_pow2; lia.
Qed.

(** Setting a bit sets this bit. *)
Lemma set_bit_value bits i b bit :
  bits !! (i / 8)%nat = Some b -> is_bit bit ->
  forall j, bit_value (<[(i / 8)%nat := byte.of_Z (Z.lor (byte.unsigned b) (Z.shiftl bit (Z.of_nat (i mod 8))))]> bits) j
    = bit_value bits j || ((bit =? 1) && (i =? j)%nat).
Proof.
  intros Hb Hbit j. pose proof (byte.unsigned_range b) as Hr. pose proof (Nat.mod_upper_bound i 8 ltac:(lia)) as Hi.
  assert (byte.unsigned (byte.of_Z (Z.lor (byte.unsigned b) (Z.shiftl bit (Z.of_nat (i mod 8))))) =
    Z.lor (byte.unsigned b) (Z.shiftl bit (Z.of_nat (i mod 8)))) as Hu.
  { apply unsigned_small. destruct Hbit as [-> | ->]; [rewrite Z.shiftl_0_l, Z.lor_0_r; lia|by apply lor_byte]. }
  unfold bit_value. destruct (decide ((j / 8)%nat = (i / 8)%nat)) as [E|Hne].
  - rewrite E, list_lookup_insert_eq, Hb by (by eapply lookup_lt_Some). cbn [default from_option id]. rewrite Hu, Z.lor_spec. f_equal.
    rewrite Z.shiftl_spec by lia. pose proof (Nat.div_mod i 8 ltac:(lia)). pose proof (Nat.div_mod j 8 ltac:(lia)).
    destruct (Nat.eqb_spec i j) as [->|Hij]; [rewrite Z.sub_diag; by destruct Hbit as [-> | ->]|].
    rewrite andb_false_r. destruct Hbit as [-> | ->]; [apply Z.testbit_0_l|].
    destruct (Z.lt_trichotomy (Z.of_nat (j mod 8) - Z.of_nat (i mod 8)) 0) as [Hc|[Hc|Hc]];
      [by apply Z.testbit_neg_r|exfalso; apply Hij; lia|]. apply Z.bits_above_log2; [lia|change (Z.log2 1) with 0; lia].
  - rewrite list_lookup_insert_ne by done. destruct (Nat.eqb_spec i j) as [->|]; [done|]. by rewrite andb_false_r, orb_false_r.
Qed.

Lemma pack_bits_run array : forall i bits,
  Forall is_bit array -> (i + length array <= 8 * length bits)%nat ->
  exists bits', pack_bits i array bits = Ok bits' /\ length bits' = length bits /\
    forall j, bit_value bits' j = bit_value bits j || bool_decide ((i <= j)%nat /\ array !! (j - i)%nat = Some 1).
Proof.
  induction array as [|bit array IH]; intros i bits Hbits Hlen; cbn [pack_bits].
  { exists bits. split_and!; [done..|]. intros j. rewrite bool_decide_eq_false_2 by (by intros [_ ?]). by rewrite orb_false_r. }
  apply Forall_cons in Hbits as [Hbit Hbits]. cbn [length] in Hlen.
  destruct (lookup_lt_is_Some_2 bits (i / 8)) as (b & Hb); [apply Nat.Div0.div_lt_upper_bound; lia|].
  unfold at_index. rewrite Hb. run_ok.
  destruct (IH (S i) (<[(i / 8)%nat := byte.of_Z (Z.lor (byte.unsigned b) (Z.shiftl bit (Z.of_nat (i mod 8))))]> bits))
    as (bits' & Hrun & Hl & Hv); [done|rewrite length_insert; lia|].
  exists bits'. rewrite length_insert in Hl. split_and!; [done..|]. intros j. rewrite Hv, set_bit_value by done.
  rewrite <- orb_assoc. f_equal. destruct (Nat.eqb_spec i j) as [->|Hij].
  - rewrite (bool_decide_eq_false_2 (S j <= j ∧ _)%nat) by lia. rewrite orb_false_r, andb_true_r, Nat.sub_diag. cbn [lookup list_lookup].
    destruct (Z.eqb_spec bit 1) as [->|Hne]; symmetry; [apply bool_decide_eq_true; split; [lia|done]|].
    apply bool_decide_eq_false. intros [_ [= E]]. done.
  - rewrite andb_false_r, orb_false_l. apply bool_decide_ext. split; intros [H1 H2]; (split; [lia|]).
    + replace (j - i)%nat with (S (j - S i)) by lia. done.
    + replace (j - i)%nat with (S (j - S i)) in H2 by lia. done.
Qed.

Lemma zeros_value n j : bit_value (zeros n) j = false.
Proof.
  unfold bit_value, zeros. destruct (_ !! _) as [b|] eqn:E; [apply lookup_replicate in E as [-> _]|]; apply Z.testbit_0_l.
Qed.

Lemma bit_at_run bits i : (i < 8 * length bits)%nat -> bit_at bits i = Ok (Z.b2z (bit_value bits i)).
Proof.
  intros H. unfold bit_at, at_index, bit_value. destruct (lookup_lt_is_Some_2 bits (i / 8)) as (b & Hb);
    [apply Nat.Div0.div_lt_upper_bound; lia|]. rewrite Hb. run_ok. f_equal.
  change 1 with (Z.ones 1). rewrite Z.land_ones by lia. change (2 ^ 1) with 2.
  by rewrite <- Z.bit0_mod, Z.shiftr_spec, Z.add_0_l by lia.
Qed.

(** ** The entries *)

Lemma insert_keys_Ok entries : forall m m', insert_keys entries m = Ok m' ->
  NoDup entries.*1 /\ (forall key, key ∈ entries.*1 -> m !! key = None) /\ size m' = (size m + length entries)%nat /\
  forall key bit, m' !! key = Some bit <-> m !! key = Some bit \/ exists b, (key, b) ∈ entries /\ bit = Z.land b 1.
Proof.
  induction entries as [|[key b] entries IH]; intros m m'; cbn [insert_keys fmap list_fmap].
  { intros [= ->]. split_and!; [apply NoDup_nil_2|set_solver|cbn; lia|]. intros k bit. setoid_rewrite elem_of_nil. naive_solver. }
  destruct (m !! key) eqn:E; [done|]. intros (Hn & Hf & Hs & Hl)%IH. cbn [fst length].
  assert (key ∉ entries.*1) as Hk by (intros Hin; specialize (Hf key Hin); by rewrite lookup_insert_eq in Hf). split_and!.
  - by apply NoDup_cons.
  - intros k [->|Hin]%elem_of_cons; [done|]. specialize (Hf k Hin). by apply lookup_insert_None in Hf as [? _].
  - rewrite Hs, map_size_insert_None by done. lia.
  - intros k bit. rewrite Hl, lookup_insert_Some. setoid_rewrite elem_of_cons.
    destruct (decide (k = key)) as [->|Hne]; [|naive_solver]. split.
    + intros [[[_ <-]|[? _]]|(b' & Hin & _)]; [right; exists b; auto|done|].
      exfalso. apply Hk, list_elem_of_fmap. by exists (key, b').
    + intros [?|(b' & [[= ->]|Hin] & ->)]; [congruence|auto|]. exfalso. apply Hk, list_elem_of_fmap. by exists (key, b').
Qed.

Lemma insert_keys_Err entries m e : insert_keys entries m = Err e -> exists key, e = Duplicate key /\ key ∈ entries.*1 /\
  (m !! key = None -> ~ NoDup entries.*1).
Proof.
  revert m. induction entries as [|[key b] entries IH]; intros m; cbn [insert_keys fmap list_fmap]; [done|].
  destruct (m !! key) eqn:E.
  - intros [= <-]. exists key. split_and!; [done|left|congruence].
  - intros (k & -> & Hin & Hd)%IH. exists k. split_and!; [done|by right|]. intros Hm [Hk Hn]%NoDup_cons. cbn [fst] in Hk.
    apply Hd; [|done]. apply lookup_insert_None. split; [done|]. intros ->. done.
Qed.

Lemma insert_keys_total entries m :
  NoDup entries.*1 -> (forall key, key ∈ entries.*1 -> m !! key = None) -> exists m', insert_keys entries m = Ok m'.
Proof.
  intros Hn Hm. destruct (insert_keys entries m) as [m'|e] eqn:E; [eauto|]. exfalso.
  apply insert_keys_Err in E as (key & _ & Hin & Hd). apply Hd; auto.
Qed.

Lemma sorted_entries_elem m key bit : (key, bit) ∈ sorted_entries m <-> m !! key = Some bit.
Proof. unfold sorted_entries. rewrite merge_sort_Permutation. apply elem_of_map_to_list. Qed.

Lemma sorted_entries_length m : length (sorted_entries m) = size m.
Proof. unfold sorted_entries. rewrite merge_sort_Permutation. apply length_map_to_list. Qed.

Lemma sorted_entries_NoDup m : NoDup (sorted_entries m).*1.
Proof. unfold sorted_entries. rewrite merge_sort_Permutation. apply NoDup_fst_map_to_list. Qed.

(** ** Positions *)

Lemma segment_length_range keys : 0 <= keys <= MAX_KEYS -> 1 <= segment_length keys /\ 3 * segment_length keys < u32_limit.
Proof.
  intros Hk. unfold segment_length, ceil_div. set (a := (keys * 123 + 100 - 1) / 100).
  assert (0 <= a <= 2 ^ 26) as Ha by (unfold a, MAX_KEYS in *; split; [apply Z.div_pos; lia|apply Z.div_le_upper_bound; lia]).
  set (b := (a + 32 + 3 - 1) / 3). assert (0 <= b <= 2 ^ 26) as Hb by (unfold b; split; [apply Z.div_pos; lia|apply Z.div_le_upper_bound; lia]).
  rewrite as_u32_small by (unfold u32_limit; lia). unfold u32_limit. lia.
Qed.

Section Choice.
Context `{!Sha256} (domain context : list byte).

Lemma positions_run seed segment key :
  0 < segment -> exists ps, positions domain context seed segment key = Ok ps /\ three_positions (Z.to_nat (3 * segment)) ps.
Proof.
  intros Hs. unfold positions. destruct (Z.eqb_spec segment 0); [lia|]. run_ok. eexists. split; [done|].
  eexists _, _, _. split; [done|].
  assert (forall x, 0 <= x mod segment < segment) as Hw by (intros x; by apply Z.mod_pos_bound).
  repeat match goal with |- context [le_combine ?x mod segment] =>
    pose proof (Hw (le_combine x)); generalize dependent (le_combine x mod segment); intros end.
  split.
  - apply NoDup_cons. rewrite !elem_of_cons, elem_of_nil. split; [intros [?|[?|[]]]; lia|].
    apply NoDup_cons. rewrite list_elem_of_singleton. split; [lia|apply NoDup_singleton].
  - rewrite !Forall_cons. split_and!; [lia..|by apply Forall_nil].
Qed.

Lemma all_positions_run seed segment keys :
  0 < segment -> exists hashed, all_positions domain context seed segment keys = Ok hashed /\
    Forall2 (fun key ps => positions domain context seed segment key = Ok ps) keys hashed /\
    Forall (three_positions (Z.to_nat (3 * segment))) hashed.
Proof.
  intros Hs. induction keys as [|key keys IH]; cbn [all_positions]; [by exists []|].
  destruct (positions_run seed segment key Hs) as (ps & Hp & H3), IH as (hashed & -> & Hf & Hh). rewrite Hp. run_ok.
  exists (ps :: hashed). split_and!; [done|by constructor|by constructor].
Qed.

(** Keys none of which has a position of its own *)
Definition has_core (seed segment : Z) (keys : list (list byte)) : Prop :=
  exists stuck, stuck <> [] /\ (forall key, key ∈ stuck -> key ∈ keys) /\
    forall key ps i, key ∈ stuck -> positions domain context seed segment key = Ok ps -> i ∈ ps ->
      exists key' ps', key' ∈ stuck /\ key' <> key /\ positions domain context seed segment key' = Ok ps' /\ i ∈ ps'.

Lemma core_of_keys seed segment keys hashed R :
  NoDup keys -> Forall2 (fun key ps => positions domain context seed segment key = Ok ps) keys hashed ->
  R <> [] -> NoDup R -> Forall (fun k => (k < length hashed)%nat) R -> is_core hashed R -> has_core seed segment keys.
Proof.
  intros Hnk Hf HR Hn Hd Hcore. exists (omap (fun k => keys !! k) R). rewrite Forall_forall in Hd.
  pose proof (Forall2_length _ _ _ Hf) as Hlen.
  assert (forall k, k ∈ R -> exists key ps, keys !! k = Some key /\ pos hashed k = ps /\ positions domain context seed segment key = Ok ps) as Hkey.
  { intros k Hk. destruct (lookup_lt_is_Some_2 hashed k (Hd _ Hk)) as (ps & Hps).
    destruct (Forall2_lookup_r _ _ _ _ _ Hf Hps) as (key & Hkey & Hp). exists key, ps. unfold pos. by rewrite Hps. }
  split_and!.
  - destruct R as [|k R]; [done|]. destruct (Hkey k) as (key & ps & E & _); [left|]. cbn. by rewrite E.
  - intros key (k & _ & Hk)%list_elem_of_omap. by eapply list_elem_of_lookup_2.
  - intros key ps i (k & Hk & Hkk)%list_elem_of_omap Hps Hi. destruct (Hkey k Hk) as (key0 & ps0 & E & Hpos & Hp0).
    assert (key0 = key) as -> by congruence. assert (ps0 = ps) as -> by congruence.
    assert (k ∈ touching hashed R i) as Ht by (apply list_elem_of_filter; by rewrite Hpos).
    specialize (Hcore i). assert (NoDup (touching hashed R i)) as Hnt by (by apply NoDup_filter).
    destruct (touching hashed R i) as [|k1 [|k2 l]] eqn:Et; [by apply not_elem_of_nil in Ht|done|].
    assert (exists k', k' <> k /\ k' ∈ touching hashed R i) as (k' & Hne & [Hik HkR]%list_elem_of_filter).
    { rewrite Et. apply NoDup_cons in Hnt as [H12 _]. destruct (decide (k1 = k)) as [->|]; [exists k2|exists k1]; set_solver. }
    destruct (Hkey k' HkR) as (key' & ps' & E' & Hpos' & Hp'). exists key', ps'. split_and!; [|intros ->|done|by rewrite <- Hpos'].
    + apply list_elem_of_omap. by exists k'.
    + apply Hne. by eapply (NoDup_lookup keys).
Qed.

Lemma xor_bits_run bits array : forall ps acc,
  Forall is_bit array -> (length array <= 8 * length bits)%nat -> Forall (fun i => (i < length array)%nat) ps ->
  (forall j, (j < length array)%nat -> bit_value bits j = bool_decide (array !! j = Some 1)) ->
  xor_bits bits acc ps = Ok (Z.lxor acc (parity array ps)).
Proof.
  induction ps as [|i ps IH]; intros acc Ha Hl Hps Hv; cbn [xor_bits]; [unfold parity; cbn; by rewrite Z.lxor_0_r|].
  apply Forall_cons in Hps as [Hi Hps]. rewrite bit_at_run by lia. run_ok. rewrite IH by done. f_equal.
  rewrite Hv by done. destruct (lookup_lt_is_Some_2 _ _ Hi) as (b & Hb). unfold parity. cbn [foldr]. rewrite Hb. cbn [default from_option id].
  replace (Z.b2z (bool_decide (Some b = Some 1))) with b; [by rewrite Z.lxor_assoc|].
  pose proof (Forall_lookup_1 _ _ _ _ Ha Hb) as [-> | ->]; [by rewrite bool_decide_eq_false_2|by rewrite bool_decide_eq_true_2].
Qed.

(** What a table is for the entries it was built from *)
Record table_for (sorted : list (list byte * Z)) (keys segment : Z) (t : ChoiceTable) : Prop := {
  t_keys : ct_keys t = keys; t_segment : DirectoryChoice.segment t = segment;
  t_bits : blen (ct_bits t) = bit_bytes segment;
  t_padding : forall j, 3 * segment <= Z.of_nat j -> bit_value (ct_bits t) j = false;
  t_routes : forall key bit, (key, bit) ∈ sorted -> choice t domain context key = Ok bit }.

Lemma bit_bytes_enough segment : 0 <= segment -> 3 * segment <= 8 * bit_bytes segment /\ 0 <= bit_bytes segment.
Proof.
  intros H0. unfold bit_bytes, ceil_div. split; [|apply Z.div_pos; lia].
  pose proof (Z.div_mod (3 * segment + 8 - 1) 8 ltac:(lia)). pose proof (Z.mod_pos_bound (3 * segment + 8 - 1) 8 ltac:(lia)). lia.
Qed.

Lemma three_ok slots : forall ps, three_positions slots ps -> positions_ok slots ps.
Proof. intros ps (a & b & c & -> & Hn & Hf). split_and!; [done|done|cbn; lia]. Qed.

(** An order of peeling gives a table. *)
Lemma built_table seed segment sorted keys hashed order :
  0 < segment -> Forall is_bit sorted.*2 -> Forall2 (fun key ps => positions domain context seed segment key = Ok ps) sorted.*1 hashed ->
  Forall (three_positions (Z.to_nat (3 * segment))) hashed -> peels hashed (seq 0 (length hashed)) order [] ->
  exists array bits, assign_all hashed sorted.*2 order (replicate (Z.to_nat (3 * segment)) 0) = Ok array /\
    pack_bits 0 array (zeros (bit_bytes segment)) = Ok bits /\ table_for sorted keys segment (MkChoiceTable seed keys segment bits).
Proof.
  intros Hs Hbits Hf Hwf Hp. pose proof (Forall2_length _ _ _ Hf) as Hlen. rewrite length_fmap in Hlen.
  destruct (assign_all_run hashed (Z.to_nat (3 * segment)) sorted.*2 (seq 0 (length hashed)) order []) as (array & Hrun & Hl & Ha & Hpar);
    [done|by rewrite length_fmap|done|apply NoDup_seq|apply Forall_forall; intros k Hk%elem_of_seq; lia|done|].
  destruct (bit_bytes_enough segment) as [Henough Hnn]; [lia|].
  destruct (pack_bits_run array 0 (zeros (bit_bytes segment)) Ha) as (bits & Hpack & Hlb & Hv);
    [unfold zeros; rewrite length_replicate; lia|].
  assert (length bits = Z.to_nat (bit_bytes segment)) as Hlb' by (rewrite Hlb; apply length_replicate).
  assert (forall j, bit_value bits j = bool_decide (array !! j = Some 1)) as Hval.
  { intros j. rewrite Hv, zeros_value, Nat.sub_0_r. cbn [orb]. apply bool_decide_ext. split; [tauto|intros; split; [lia|done]]. }
  exists array, bits. split_and!; [done|done|]. constructor; cbn [ct_keys DirectoryChoice.segment ct_bits]; [done|done| | |].
  - unfold blen. lia.
  - intros j Hj. rewrite Hval. apply bool_decide_eq_false. intros E%lookup_lt_Some. lia.
  - intros key bit (k & Hk)%list_elem_of_lookup. unfold choice. cbn [DirectoryChoice.seed DirectoryChoice.segment ct_bits].
    assert (sorted.*1 !! k = Some key) as Hk1 by (by rewrite list_lookup_fmap, Hk).
    destruct (Forall2_lookup_l _ _ _ _ _ Hf Hk1) as (ps & Hps & ->). run_ok.
    destruct (Hpar k) as [_ Hparity].
    { eapply peels_all; [done|]. apply elem_of_seq. apply lookup_lt_Some in Hps. lia. }
    rewrite list_lookup_fmap, Hk in Hparity. cbn in Hparity. unfold pos in Hparity. rewrite Hps in Hparity. cbn [default from_option id] in Hparity.
    destruct (Forall_lookup_1 _ _ _ _ Hwf Hps) as (a & b & c & -> & _ & Hb).
    rewrite (xor_bits_run bits array); [rewrite Z.lxor_0_l; congruence|done|lia|by rewrite Hl|auto].
Qed.

Lemma peels_sub hashed R order R' : NoDup R -> peels hashed R order R' -> NoDup R' /\ forall k, k ∈ R' -> k ∈ R.
Proof.
  intros Hn Hp. induction Hp as [|R k i order R' Hk Hi Hu Hp IH]; [done|].
  destruct IH as [Hn' Hs]; [by apply NoDup_filter|]. split; [done|]. intros x [_ Hx]%Hs%list_elem_of_filter. done.
Qed.

Lemma try_seeds_run seeds sorted keys segment :
  0 < segment -> NoDup sorted.*1 -> Forall is_bit sorted.*2 ->
  match try_seeds domain context seeds sorted keys segment with
  | Ok t => seed t ∈ seeds /\ table_for sorted keys segment t
  | Err (Failed (Unpeelable n)) => n = keys /\ forall seed, seed ∈ seeds -> has_core seed segment sorted.*1
  | Err _ => False
  end.
Proof.
  intros Hs Hn Hb. induction seeds as [|sd seeds IH]; cbn [try_seeds]; [split; [done|set_solver]|].
  destruct (all_positions_run sd segment sorted.*1 Hs) as (hashed & -> & Hf & Hwf). run_ok.
  destruct (peel_run hashed (Z.to_nat (3 * segment))) as (r & -> & Hr); [eapply Forall_impl; [done|apply three_ok]|]. run_ok.
  destruct r as [order|].
  - destruct (built_table sd segment sorted keys hashed order) as (array & bits & -> & Hpack & Ht); try done. run_ok. rewrite Hpack. run_ok.
    split; [left|done].
  - destruct Hr as (order & R & HR & Hp & Hcore). destruct (peels_sub _ _ _ _ (NoDup_seq _ _) Hp) as [HnR Hsub].
    assert (has_core sd segment sorted.*1) as Hc.
    { eapply core_of_keys; try done. apply Forall_forall. intros k Hk%Hsub%elem_of_seq. lia. }
    destruct (try_seeds _ _ _ _ _ _) as [t|[[]|]]; set_solver.
Qed.
End Choice.

Lemma sorted_bits entries m : insert_keys entries ∅ = Ok m -> Forall is_bit (sorted_entries m).*2.
Proof.
  intros (_ & _ & _ & Hm)%insert_keys_Ok. apply Forall_forall. intros b ([key bit] & -> & Hin)%list_elem_of_fmap.
  apply sorted_entries_elem, Hm in Hin as [Hin|(x & _ & ->)]; [by rewrite lookup_empty in Hin|]. cbn.
  change 1 with (Z.ones 1). rewrite Z.land_ones by lia. pose proof (Z.mod_pos_bound x (2 ^ 1) ltac:(lia)). unfold is_bit. lia.
Qed.


(** ** The bytes of a table *)

Definition table_wf (t : ChoiceTable) : Prop :=
  width 4 (seed t) /\ 0 <= ct_keys t <= MAX_KEYS /\ segment t = segment_length (ct_keys t) /\
  blen (ct_bits t) = bit_bytes (segment t) /\ padding_set (segment t) (ct_bits t) = Ok false.

Lemma padding_set_run segment bits : 0 < segment -> blen bits = bit_bytes segment -> exists b, padding_set segment bits = Ok b.
Proof.
  intros Hs Hl. unfold padding_set. destruct (_ =? _); [eauto|]. destruct bits as [|b bits] using rev_ind; [|rewrite last_snoc; run_ok; eauto].
  destruct (bit_bytes_enough segment) as [He _]; [lia|]. unfold blen in Hl. cbn in Hl. lia.
Qed.

Lemma table_header_split (bytes : list byte) : CHOICE_HEADER_BYTES <= blen bytes ->
  bytes = slice 0 1 bytes ++ slice 1 5 bytes ++ slice 5 9 bytes ++ slice 9 13 bytes ++ bdrop 13 bytes.
Proof.
  intros H. change CHOICE_HEADER_BYTES with 13 in H. rewrite !app_assoc, <- !slice_split by lia.
  unfold slice, bdrop. rewrite drop_0. symmetry. apply take_drop.
Qed.

Lemma encode_slices t : width 4 (seed t) -> width 4 (ct_keys t) -> width 4 (segment t) ->
  let b := choice_encode t in
  slice 0 1 b = [byte.of_Z CHOICE_VERSION] /\ slice 1 5 b = le_split 4 (seed t) /\ slice 5 9 b = le_split 4 (ct_keys t) /\
  slice 9 13 b = le_split 4 (segment t) /\ bdrop 13 b = ct_bits t /\ blen b = 13 + blen (ct_bits t).
Proof.
  intros H1 H2 H3. cbv zeta.
  change (choice_encode t) with ([byte.of_Z CHOICE_VERSION] ++ le_split 4 (seed t) ++ le_split 4 (ct_keys t) ++ le_split 4 (segment t) ++ ct_bits t).
  assert (forall v, blen (le_split 4 v) = 4) as Hl by (intros v; unfold blen; by rewrite length_le_split).
  assert (blen [byte.of_Z CHOICE_VERSION] = 1) as H0 by done.
  split_and!.
  - by apply slice_head.
  - rewrite (slice_skip _ _ _ _ 1) by (done || lia). by apply slice_head.
  - rewrite (slice_skip _ _ _ _ 1), (slice_skip _ _ _ _ 4) by (rewrite ?Hl; done || lia). by apply slice_head.
  - rewrite (slice_skip _ _ _ _ 1), (slice_skip _ _ _ _ 4), (slice_skip _ _ _ _ 4) by (rewrite ?Hl; done || lia). by apply slice_head.
  - rewrite !app_assoc. apply bdrop_app. rewrite !blen_app, !Hl. done.
  - rewrite !blen_app, !Hl. lia.
Qed.

Lemma word_width a (bytes : list byte) : 0 <= a -> a + 4 <= blen bytes -> width 4 (le_combine (slice a (a + 4) bytes)).
Proof. intros Ha Hl. apply (le_round' 4). rewrite blen_slice by lia. lia. Qed.

Lemma decode_no_panic bytes policy : errs_only (fun _ => True) (choice_decode bytes policy).
Proof.
  unfold choice_decode. destruct (Z.ltb_spec (blen bytes) CHOICE_HEADER_BYTES) as [|Hl]; [done|]. change CHOICE_HEADER_BYTES with 13 in *.
  destruct (negb _); [done|]. destruct (seed_refused _ _); [done|]. destruct (Z.ltb_spec MAX_KEYS (le_combine (slice 5 (5 + 4) bytes))); [done|].
  destruct (Z.eqb_spec (le_combine (slice 9 (9 + 4) bytes)) (segment_length (le_combine (slice 5 (5 + 4) bytes)))) as [->|]; cbn [negb]; [|done].
  set (segment := segment_length _). destruct (Z.eqb_spec (blen bytes) (13 + bit_bytes segment)) as [E|]; cbn [negb]; [|done].
  destruct (word_width 5 bytes) as [Hk _]; [lia|lia|]. destruct (segment_length_range (le_combine (slice 5 (5 + 4) bytes))) as [Hs _]; [lia|].
  destruct (padding_set_run segment (bdrop 13 bytes)) as (b & ->); [unfold segment; lia| |run_ok; by destruct b].
  unfold bdrop, blen in *. rewrite length_drop. lia.
Qed.

Lemma decode_accepted bytes policy t :
  choice_decode bytes policy = Ok t -> table_wf t /\ seed_refused policy (seed t) = false /\ bytes = choice_encode t.
Proof.
  unfold choice_decode. destruct (Z.ltb_spec (blen bytes) CHOICE_HEADER_BYTES) as [|Hl]; [done|].
  destruct (Z.eqb_spec (le_combine (slice 0 1 bytes)) CHOICE_VERSION) as [Hv|]; cbn [negb]; [|done].
  pose proof (table_header_split bytes Hl) as Hb. change CHOICE_HEADER_BYTES with 13 in *.
  change (1 + 4) with 5. change (5 + 4) with 9. change (9 + 4) with 13.
  destruct (le_round' 4 (slice 1 5 bytes)) as [Hs1 Hw1]; [rewrite blen_slice; lia|].
  destruct (le_round' 4 (slice 5 9 bytes)) as [Hs2 Hw2]; [rewrite blen_slice; lia|].
  destruct (le_round' 4 (slice 9 13 bytes)) as [Hs3 Hw3]; [rewrite blen_slice; lia|].
  destruct (seed_refused _ _) eqn:Hr; [done|]. destruct (Z.ltb_spec MAX_KEYS (le_combine (slice 5 9 bytes))); [done|].
  destruct (Z.eqb_spec (le_combine (slice 9 13 bytes)) (segment_length (le_combine (slice 5 9 bytes)))) as [Hseg|]; cbn [negb]; [|done].
  destruct (Z.eqb_spec (blen bytes) (13 + bit_bytes (le_combine (slice 9 13 bytes)))) as [E|]; cbn [negb]; [|done].
  intros (pad & Hpad & Hok)%res_bind_Ok. apply panics_Ok in Hpad. destruct pad; [done|]. injection Hok as <-.
  split; [|split; [done|]].
  - unfold table_wf. cbn [seed ct_keys segment ct_bits]. split_and!; try done; [apply Hw2|]. unfold bdrop, blen in *. rewrite length_drop. lia.
  - unfold choice_encode. cbn [seed ct_keys segment ct_bits]. rewrite Hs1, Hs2, Hs3. rewrite Hb at 1.
    change (byte.of_Z CHOICE_VERSION :: ?l) with ([byte.of_Z CHOICE_VERSION] ++ l). f_equal.
    destruct (le_round' 1 (slice 0 1 bytes)) as [H1 _]; [rewrite blen_slice; lia|]. rewrite <- H1, Hv. done.
Qed.

Lemma decode_encode t policy : table_wf t -> seed_refused policy (seed t) = false -> choice_decode (choice_encode t) policy = Ok t.
Proof.
  intros (Hw & Hk & Hs & Hb & Hpad) Hr. destruct (segment_length_range (ct_keys t) Hk) as [Hseg1 Hseg2].
  assert (width 4 (ct_keys t)) as Hw2 by (unfold width, MAX_KEYS in *; lia).
  assert (width 4 (segment t)) as Hw3 by (rewrite Hs; unfold width, u32_limit in *; lia).
  destruct (encode_slices t Hw Hw2 Hw3) as (H0 & H1 & H2 & H3 & H4 & H5).
  destruct (bit_bytes_enough (segment t)) as [_ Hnn]; [lia|].
  unfold choice_decode. change CHOICE_HEADER_BYTES with 13. change (1 + 4) with 5. change (5 + 4) with 9. change (9 + 4) with 13.
  destruct (Z.ltb_spec (blen (choice_encode t)) 13); [lia|]. rewrite H0, H1, H2, H3, H4, H5, !(le_round 4) by done.
  change (negb (le_combine [byte.of_Z CHOICE_VERSION] =? CHOICE_VERSION)) with false. cbv iota beta.
  rewrite Hr. destruct (Z.ltb_spec MAX_KEYS (ct_keys t)); [lia|]. rewrite <- Hs, Z.eqb_refl, <- Hb, Z.eqb_refl. cbn [negb].
  rewrite Hpad. run_ok. by destruct t.
Qed.

(** C40: The bytes of choice tables.  [decode] accepts exactly what [encode] writes for a table
    with a permitted seed, the segment length that its number of keys implies and no padding
    bits set; it never panics, whatever the bytes. *)
Theorem choice_decode_exact bytes policy :
  errs_only (fun _ => True) (choice_decode bytes policy) /\
  forall t, choice_decode bytes policy = Ok t <-> table_wf t /\ seed_refused policy (seed t) = false /\ bytes = choice_encode t.
Proof.
  split; [by apply decode_no_panic|]. intros t. split; [apply decode_accepted|]. intros (Hwf & Hr & ->). by apply decode_encode.
Qed.

(** ** Building *)

Lemma padding_clear segment bits :
  0 < segment -> blen bits = bit_bytes segment -> (forall j, 3 * segment <= Z.of_nat j -> bit_value bits j = false) ->
  padding_set segment bits = Ok false.
Proof.
  intros Hs Hl Hv. unfold padding_set. destruct (Z.eqb_spec ((3 * segment) mod 8) 0) as [|Hne]; [done|].
  destruct bits as [|b bits _] using rev_ind.
  { destruct (bit_bytes_enough segment) as [He _]; [lia|]. unfold blen in Hl. cbn in Hl. lia. }
  rewrite last_snoc. run_ok. f_equal. apply negb_false_iff, Z.eqb_eq. apply Z.bits_inj'. intros n Hn. rewrite Z.shiftr_spec, Z.bits_0 by lia.
  pose proof (Z.mod_pos_bound (3 * segment) 8 ltac:(lia)) as Hm. pose proof (Z.div_mod (3 * segment) 8 ltac:(lia)) as Hd.
  destruct (Z.le_gt_cases 8 (n + (3 * segment) mod 8)) as [Hge|Hlt].
  { pose proof (byte.unsigned_range b). apply Z.testbit_false; [lia|].
    assert (2 ^ 8 <= 2 ^ (n + (3 * segment) mod 8)) by (apply Z.pow_le_mono_r; lia). rewrite Z.div_small by lia. done. }
  assert (Z.of_nat (length bits) = 3 * segment / 8) as Hlen.
  { unfold blen, bit_bytes, ceil_div in Hl. rewrite length_app in Hl. cbn in Hl.
    assert ((3 * segment + 8 - 1) / 8 = 3 * segment / 8 + 1); [|lia]. symmetry. apply (Z.div_unique _ 8 _ ((3 * segment) mod 8 - 1)); lia. }
  set (j := (8 * length bits + Z.to_nat (n + (3 * segment) mod 8))%nat).
  specialize (Hv j). unfold bit_value in Hv.
  replace (j / 8)%nat with (length bits) in Hv by (unfold j; apply (Nat.div_unique _ 8 _ (Z.to_nat (n + (3 * segment) mod 8))); lia).
  replace (j mod 8)%nat with (Z.to_nat (n + (3 * segment) mod 8)) in Hv by (unfold j; apply (Nat.mod_unique _ 8 (length bits)); lia).
  rewrite lookup_app_r, Nat.sub_diag in Hv by done. cbn [lookup list_lookup default from_option id] in Hv.
  rewrite Z2Nat.id in Hv by lia. apply Hv. unfold j. lia.
Qed.

Lemma table_for_wf `{!Sha256} domain context sorted keys t :
  0 <= keys <= MAX_KEYS -> table_for domain context sorted keys (segment_length keys) t -> width 4 (seed t) -> table_wf t.
Proof.
  intros Hk [H1 H2 H3 H4 _] Hw. destruct (segment_length_range keys Hk). unfold table_wf. rewrite H1, H2. split_and!; try done; try lia.
  apply padding_clear; [lia|done|done].
Qed.

Lemma choice_build_run `{!Sha256} domain context seeds entries :
  match choice_build domain context seeds entries with
  | Ok t => seed t ∈ seeds /\ ct_keys t = blen entries /\ NoDup entries.*1 /\ (width 4 (seed t) -> table_wf t) /\
      forall key bit, (key, bit) ∈ entries -> choice t domain context key = Ok (Z.land bit 1)
  | Err (Failed (TooManyKeys n)) => n = blen entries /\ MAX_KEYS < n
  | Err (Failed (Duplicate key)) => key ∈ entries.*1 /\ ~ NoDup entries.*1
  | Err (Failed (Unpeelable n)) => n = blen entries /\
      forall seed, seed ∈ seeds -> has_core domain context seed (segment_length n) entries.*1
  | Err _ => False
  end.
Proof.
  unfold choice_build. destruct (Z.ltb_spec MAX_KEYS (blen entries)) as [Hmax|Hmax]; [done|].
  destruct (insert_keys entries ∅) as [m|e] eqn:E; cbn [fails].
  2: { apply insert_keys_Err in E as (key & -> & Hin & Hd). cbn. split; [done|]. by apply Hd. }
  run_ok. pose proof (sorted_bits _ _ E) as Hbits. apply insert_keys_Ok in E as (Hn & _ & Hsize & Hm).
  assert (Z.of_nat (size m) = blen entries) as Hs by (rewrite Hsize, map_size_empty; unfold blen; lia). rewrite Hs.
  destruct (segment_length_range (blen entries)) as [Hseg _]; [unfold blen in *; lia|].
  pose proof (try_seeds_run domain context seeds (sorted_entries m) (blen entries) (segment_length (blen entries))
    ltac:(lia) (sorted_entries_NoDup m) Hbits) as Ht.
  destruct (try_seeds _ _ _ _ _ _) as [t|[[]|]]; try done.
  - destruct Ht as [Hsd Ht]. pose proof Ht as [Hk _ _ _ Hr]. split_and!; [done|done|done| |].
    { intros Hw. refine (table_for_wf domain context _ _ _ _ Ht Hw). unfold blen in *. lia. }
    intros key bit Hin. apply Hr, sorted_entries_elem, Hm. eauto.
  - destruct Ht as [-> Hc]. split; [done|]. intros sd Hsd. destruct (Hc sd Hsd) as (stuck & Hne & Hsub & Hrest).
    exists stuck. split_and!; [done| |done]. intros key (k & b & Hin)%Hsub%list_elem_of_fmap.
    destruct k as [key' bit]. cbn in b. subst. apply sorted_entries_elem, Hm in Hin as [Hin|(x & Hin & _)]; [by rewrite lookup_empty in Hin|].
    apply list_elem_of_fmap. by exists (key', x).
Qed.

(** C23: Choice tables.  Building a table never panics.  A table that is built has one of the
    seeds, can be encoded, and names the bit of every key it was built from; otherwise there are too many keys,
    a key is there twice, or for each of the seeds there are keys none of which has a position
    of its own. *)
Theorem choice_build_routes `{!Sha256} domain context seeds entries :
  match choice_build domain context seeds entries with
  | Ok t => seed t ∈ seeds /\ ct_keys t = blen entries /\ NoDup entries.*1 /\ (width 4 (seed t) -> table_wf t) /\
      forall key bit, (key, bit) ∈ entries -> choice t domain context key = Ok (Z.land bit 1)
  | Err (Failed (TooManyKeys n)) => n = blen entries /\ MAX_KEYS < n
  | Err (Failed (Duplicate key)) => key ∈ entries.*1 /\ ~ NoDup entries.*1
  | Err (Failed (Unpeelable n)) => n = blen entries /\
      forall seed, seed ∈ seeds -> has_core domain context seed (segment_length n) entries.*1
  | Err _ => False
  end.
Proof. apply choice_build_run. Qed.

(** The order of the entries is irrelevant: the same set of keys and bits gives the same
    table. *)
Theorem choice_build_order `{!Sha256} domain context seeds entries entries' :
  NoDup entries.*1 -> entries ≡ₚ entries' -> choice_build domain context seeds entries' = choice_build domain context seeds entries.
Proof.
  intros Hn Hp. unfold choice_build. assert (blen entries' = blen entries) as Hl by (unfold blen; by rewrite Hp). rewrite Hl.
  destruct (MAX_KEYS <? blen entries); [done|].
  destruct (insert_keys_total entries ∅ Hn) as (m & Hm); [by intros; apply lookup_empty|].
  destruct (insert_keys_total entries' ∅) as (m' & Hm'); [by rewrite <- Hp|by intros; apply lookup_empty|].
  rewrite Hm, Hm'. apply insert_keys_Ok in Hm as (_ & _ & _ & Hm). apply insert_keys_Ok in Hm' as (_ & _ & _ & Hm').
  replace m' with m; [done|]. apply map_eq. intros key. apply option_eq. intros bit. rewrite Hm, Hm'. by setoid_rewrite Hp.
Qed.
