(* ===== verification/DirectoryTable.v ===== *)
(** * The directory of a shard

    [place_directory] of [zakura/pir-publisher/src/transparent/build.rs]: the entries are placed
    by two choices, the rows encoded, and the result is checked against the entries before it is
    published, with the choice table of [transparent/shard/choice.rs] that tells a wallet which
    of the two rows to ask for. *)

From stdpp Require Import sorting.
From S2P Require Import Prelude BitStream ShardEvents ShardEventProofs ShardCompact ShardRecords ShardPacking.
From S2P Require Import ShardLayout DirectoryPlacement DirectoryChoice.

Definition MAX_DIRECTORY_SEGMENTS : Z := 1024.
Definition MAX_SEEDS : Z := 64.

(** The bytes of a string, as in [b"..."] *)
Definition ascii_bytes (s : string) : list byte := map Stdlib.Strings.Ascii.byte_of_ascii (Stdlib.Strings.String.list_ascii_of_string s).
Definition with_nul (s : string) : list byte := ascii_bytes s ++ [Byte.x00].

Definition CHOICE_DOMAIN : list byte := with_nul "zcash-transparent-range-v1/directory-choice".
Definition BUCKET_DOMAIN : list byte := with_nul "zcash-transparent-range-v1/directory-bucket".

(** [chunks_exact(n)] *)
Fixpoint chunks_exact {A} (fuel : nat) (n : nat) (l : list A) : list (list A) :=
  match fuel with
  | O => []
  | S fuel => if (length l <? n)%nat then [] else take n l :: chunks_exact fuel n (drop n l)
  end.

Section Directory.
Context `{!Sha256}.

(** [choice::bucket_salts], [candidate_rows], [ChoiceTable::build] and [choice] of a shard *)
Definition shard_salts (shard_id : Z) : list byte * list byte := bucket_salts BUCKET_DOMAIN (le_split 8 shard_id).
Definition candidate_rows (shard_id : Z) (s : script) (rows : Z) : exec (Z * Z) := candidates (shard_salts shard_id) s rows.
Definition seeds_tried : list Z := map Z.of_nat (seq 0 (Z.to_nat MAX_SEEDS)).
Definition shard_choice_build (shard_id : Z) (entries : list (script * Z)) : run ChoiceError ChoiceTable :=
  choice_build CHOICE_DOMAIN (le_split 8 shard_id) seeds_tried entries.
Definition shard_choice (t : ChoiceTable) (shard_id : Z) (s : script) : exec Z := choice t CHOICE_DOMAIN (le_split 8 shard_id) s.

(** [place_scripts] *)
Definition place_scripts (shard_id : Z) (scripts : list script) (sizes : list Z) (rows_per_segment capacity : Z)
    : run script (Placement * list nat) :=
  r ← panics (place (shard_salts shard_id) scripts sizes rows_per_segment capacity MAX_DIRECTORY_SEGMENTS);
  match r with
  | Ok p => Ok p
  | Err index => s ← panics (at_index scripts index); Err (Failed s)
  end.

(** [choice_table] *)
Definition choice_table (shard_id : Z) (scripts : list script) (rows_of : list nat) (rows : Z) : run ChoiceError ChoiceTable :=
  entries ← panics (choice_bits (shard_salts shard_id) scripts rows_of rows);
  shard_choice_build shard_id entries.

(** [verify_choice]: the number of the first script that the table sends to another row *)
Fixpoint verify_choice (shard_id : Z) (t : ChoiceTable) (scripts : list script) (rows : Z) (rows_of : list nat) (index : nat)
    : exec (option nat) :=
  match scripts with
  | [] => Ok None
  | s :: scripts =>
      c ← candidates (shard_salts shard_id) s rows;
      bit ← shard_choice t shard_id s;
      row ← at_index rows_of index;
      chosen ← at_index [fst c; snd c] (Z.to_nat bit);
      if negb (chosen =? Z.of_nat row) then Ok (Some index) else verify_choice shard_id t scripts rows rows_of (S index)
  end.

(** ** The check of the encoded rows *)

(** [row.iter().all(|entry| held.insert(entry.tag))] *)
Fixpoint hold_tags (row : list DirectoryEntry) (held : gset (list byte)) : bool * gset (list byte) :=
  match row with
  | [] => (true, held)
  | e :: row => if decide (de_tag e ∈ held) then (false, held) else hold_tags row ({[de_tag e]} ∪ held)
  end.

(** The loop over the rows of the tables *)
Fixpoint decode_rows (raws : list (list byte)) (children : Z) (held : gset (list byte)) (decoded : list (list DirectoryEntry))
    : run BuildError (gset (list byte) * list (list DirectoryEntry)) :=
  match raws with
  | [] => Ok (held, decoded)
  | raw :: raws =>
      row ← lift_record (decode_directory_row raw children);
      let (fresh, held) := hold_tags row held in
      if negb fresh then Err (Failed (Invalid "a script tag appears twice in the directory")) else
      decode_rows raws children held (decoded ++ [row])
  end.

(** [for (entry, row) in entries.iter().zip(assignment)] *)
Fixpoint check_assigned (decoded : list (list DirectoryEntry)) (entries : list DirectoryEntry) (rows_of : list nat) : run BuildError unit :=
  match entries, rows_of with
  | e :: entries, row :: rows_of =>
      let there := match decoded !! row with
                   | Some held => existsb (fun o => bool_decide (de_tag o = de_tag e)) held
                   | None => false
                   end in
      if negb there then Err (Failed (Invalid "a script is not in its assigned row")) else check_assigned decoded entries rows_of
  | _, _ => Ok ()
  end.

(** [verify_encoded_rows] *)
Definition verify_encoded_rows (tables : list (list byte)) (entries : list DirectoryEntry) (rows_of : list nat) (g : Geometry)
    (children : Z) : run BuildError unit :=
  let raws := concat (map (fun t => chunks_exact (length t) (Z.to_nat (directory_row_bytes g)) t) tables) in
  hd ← decode_rows raws children ∅ [];
  let (held, decoded) := hd : gset (list byte) * list (list DirectoryEntry) in
  if negb (Z.of_nat (size held) =? blen entries)
  then Err (Failed (Invalid "the directory holds another number of entries than were placed")) else
  check_assigned decoded entries rows_of.

(** ** Placing *)

(** [buckets[*row as usize].push(entry)] *)
Fixpoint fill_buckets (entries : list DirectoryEntry) (rows_of : list nat) (buckets : list (list DirectoryEntry))
    : exec (list (list DirectoryEntry)) :=
  match entries, rows_of with
  | e :: entries, row :: rows_of =>
      bucket ← at_index buckets row;
      fill_buckets entries rows_of (<[row := bucket ++ [e]]> buckets)
  | _, _ => Ok buckets
  end.

(** [bucket.sort_by(|a, b| a.script.cmp(&b.script))] *)
Definition script_le (a b : DirectoryEntry) : Prop := script_leb (de_script a) (de_script b) = true.
#[global] Instance script_le_dec : RelDecision script_le.
Proof. intros a b. unfold script_le. apply _. Defined.

Fixpoint encode_buckets (buckets : list (list DirectoryEntry)) (scripts : Z) (table : list byte) : run BuildError (Z * list byte) :=
  match buckets with
  | [] => Ok (scripts, table)
  | bucket :: buckets =>
      let bucket := merge_sort script_le bucket in
      row ← lift_record (encode_directory_row bucket);
      encode_buckets buckets (scripts + blen bucket) (table ++ row)
  end.

(** [for segment in buckets.chunks_mut(..)] *)
Fixpoint encode_segments (segments : list (list (list DirectoryEntry))) (scripts : Z) (tables : list (list byte))
    : run BuildError (Z * list (list byte)) :=
  match segments with
  | [] => Ok (scripts, tables)
  | segment :: segments =>
      st ← encode_buckets segment scripts [];
      let (scripts, table) := st : Z * list byte in
      encode_segments segments scripts (tables ++ [table])
  end.

(** [place_directory].  The rows are a multiple of those of a segment, so that [chunks_mut] has
    no shorter chunk. *)
Definition place_directory (shard_id : Z) (entries : list DirectoryEntry) (g : Geometry) (children : Z)
    : run BuildError (list (list byte) * Z * option ChoiceTable) :=
  let scripts_only := map de_script entries in
  capacity ← panics (checked_minus (directory_row_bytes g) DIRECTORY_ROW_HEADER_BYTES);
  pa ← match place_scripts shard_id scripts_only (map directory_entry_len entries) (directory_rows g) capacity with
       | Ok pa => Ok pa
       | Err (Failed s) => Err (Failed (DirectoryFull s))
       | Err (Panicked p) => Err (Panicked p)
       end;
  let (placed, rows_of) := pa : Placement * list nat in
  let rows := directory_rows g * pl_segments placed in
  buckets ← panics (fill_buckets entries rows_of (replicate (Z.to_nat rows) []));
  st ← encode_segments (chunks_exact (length buckets) (Z.to_nat (directory_rows g)) buckets) 0 [];
  let (scripts, tables) := st : Z * list (list byte) in
  _ ← verify_encoded_rows tables entries rows_of g children;
  choice ← match choice_table shard_id scripts_only rows_of rows with
           | Ok t => Ok (Some t)
           | Err (Failed _) => Ok None
           | Err (Panicked p) => Err (Panicked p)
           end;
  match choice with
  | Some t =>
      bad ← panics (verify_choice shard_id t scripts_only rows rows_of 0);
      match bad with
      | Some _ => Err (Failed (Invalid "the choice table sends a script to the wrong row"))
      | None => Ok (tables, scripts, Some t)
      end
  | None => Ok (tables, scripts, None)
  end.
(** [BuiltDirectory::directory_row]: a row of the logical directory, [&table[at..at + width]] *)
Definition built_directory_row (directory : list (list byte)) (g : Geometry) (row : Z) : exec (list byte) :=
  place ← split_row row (directory_rows g);
  let (segment, within) := place : Z * Z in
  let width := directory_row_bytes g in
  let at_ := within * width in
  table ← at_index directory (Z.to_nat segment);
  if blen table <? at_ + width then Err AssertFailed else Ok (slice at_ (at_ + width) table).
End Directory.
