(* ===== verification/DirectoryTableTheorems.v ===== *)
(** * What a published directory promises

    The rows of the directory hold every entry once, in the row it was assigned; the checks
    before publication pass, and a wallet that asks for a candidate row of its script, the one
    that the choice table names if there is one, finds its entry there. *)

From stdpp Require Import sorting.
From S2P Require Import Prelude BitStream ShardEvents ShardEventProofs ShardCompact ShardRecords.
From S2P Require Import ShardPacking ShardLayout DirectoryPlacement.
From S2P Require Import DirectoryRelocation DirectoryPlaceTheorems DirectoryChoice.
From S2P Require Import DirectoryPeel DirectoryChoiceTheorems DirectoryTable.

(** ** Chunks *)

Lemma chunks_exact_concat {A} n : forall fuel (ls : list (list A)), (0 < n)%nat -> Forall (fun l => length l = n) ls ->
  (length ls <= fuel)%nat -> chunks_exact fuel n (concat ls) = ls.
Proof.
  induction fuel as [|fuel IH]; intros ls Hn Hf Hl; [destruct ls; [done|cbn in Hl; lia]|]. cbn [chunks_exact].
  destruct ls as [|l ls]; cbn [concat].
  { destruct (Nat.ltb_spec (length (@nil A)) n); [done|cbn in *; lia]. }
  apply Forall_cons in Hf as [Hln Hf]. rewrite length_app. destruct (Nat.ltb_spec (length l + length (concat ls)) n); [lia|].
  rewrite take_app_length', drop_app_length' by done. f_equal. apply IH; [done|done|cbn in Hl; lia].
Qed.

(** A list whose length is a multiple is cut into so many chunks. *)
Lemma chunks_exact_multiple {A} n k : forall fuel (l : list A), (0 < n)%nat -> length l = (k * n)%nat -> (k <= fuel)%nat ->
  concat (chunks_exact fuel n l) = l /\ length (chunks_exact fuel n l) = k /\ Forall (fun c => length c = n) (chunks_exact fuel n l).
Proof.
  induction k as [|k IH]; intros fuel l Hn Hl Hf.
  { destruct l; [|done]. destruct fuel; cbn [chunks_exact length]; [done|]. by destruct (Nat.ltb_spec 0 n); [|lia]. }
  destruct fuel as [|fuel]; [lia|]. cbn [chunks_exact]. destruct (Nat.ltb_spec (length l) n); [nia|].
  destruct (IH fuel (drop n l)) as (H1 & H2 & H3); [done|rewrite length_drop; nia|lia|]. cbn [concat length].
  rewrite H1, H2, take_drop. split_and!; [done|done|]. constructor; [rewrite length_take; lia|done].
Qed.

Lemma length_concat_const {A} n (ls : list (list A)) : Forall (fun l => length l = n) ls -> length (concat ls) = (length ls * n)%nat.
Proof. induction 1 as [|l ls Hl _ IH]; cbn; [done|]. rewrite length_app. lia. Qed.

(** ** Entries that can be placed *)

(** The entry as a wallet decodes it *)
Definition published (e : DirectoryEntry) : DirectoryEntry :=
  MkDirectoryEntry [] (de_tag e) (blen (inline e)) (inline e) (head_child e) (head_row e).

Record placeable (children : Z) (e : DirectoryEntry) : Prop := {
  p_wf : directory_entry_wf e;
  p_encoded : exists b, directory_entry_encode e = Ok b;
  p_child : head_row e <> 0 -> head_child e < children }.

Definition entries_bytes (l : list DirectoryEntry) : Z := foldr (fun e n => directory_entry_len e + n) 0 l.

Lemma entry_len_min children e : placeable children e -> 70 <= directory_entry_len e.
Proof.
  intros [_ (b & Hb) _]. apply directory_entry_encode_Ok in Hb as (_ & Hcount & _). unfold directory_entry_len, encoded_len.
  destruct (inline e) as [|x l]; [unfold blen in Hcount; cbn in Hcount; lia|]. cbn [encoded_len_from].
  pose proof (encoded_len_from_nonneg (Some x) l). change DIRECTORY_ENTRY_HEADER_BYTES with 19.
  enough (51 <= event_len x None) by lia. assert (0 <= match event_metadata x with Some m => metadata_encoded_len m | None => 0 end).
  { destruct (event_metadata x) as [m|]; [|lia]. apply metadata_encoded_len_nonneg. }
  unfold event_len, RECEIVE_BYTES, SPEND_BYTES. destruct x as [r|s]; [lia|]. change (local (Spend s) None) with false. cbn [event_metadata] in *. lia.
Qed.

Lemma placeable_published children e : placeable children e ->
  decoded_entry children (published e) /\ directory_entry_encode (published e) = directory_entry_encode e /\
  exists b, directory_entry_encode e = Ok b /\ blen b = directory_entry_len e.
Proof.
  intros [Hwf (b & Hb) Hc]. split_and!.
  - split_and!; [exact Hwf|done|done|done].
  - rewrite Hb. apply directory_entry_encode_Ok in Hb as (_ & H2). apply directory_entry_encode_Ok. split; [done|exact H2].
  - exists b. split; [done|]. apply directory_entry_encode_Ok in Hb as (_ & _ & _ & _ & _ & _ & evs & Hevs & ->).
    destruct Hwf as (Ht & _ & _ & Hi). rewrite !blen_app, Ht, blen_le_split, (encode_from_len None (inline e) evs Hi Hevs).
    unfold directory_entry_len. change (blen [byte.of_Z (flags_child e)]) with 1. change DIRECTORY_ENTRY_HEADER_BYTES with 19. unfold encoded_len. lia.
Qed.

(** A row of entries that fit is encoded, and decodes to the published entries. *)
Lemma row_published children l :
  Forall (placeable children) l -> NoDup (map de_tag l) -> entries_bytes l <= 4092 ->
  exists row, encode_directory_row l = Ok row /\ blen row = 4096 /\ decode_directory_row row children = Ok (map published l).
Proof.
  intros Hp Hn Hb.
  assert (70 * blen l <= entries_bytes l) as Hmany.
  { clear -Hp. induction Hp as [|e l He _ IH]; [done|]. rewrite blen_cons. apply entry_len_min in He. cbn [entries_bytes foldr]. fold (entries_bytes l). lia. }
  assert (exists bss, Forall2 (fun e b => directory_entry_encode e = Ok b) l bss /\
    Forall2 (fun e b => directory_entry_encode e = Ok b) (map published l) bss /\ blen (concat bss) = entries_bytes l) as (bss & HF & HF' & Hlen).
  { clear -Hp. induction Hp as [|e l He _ (bss & H1 & H2 & H3)]; [by exists []|].
    destruct (placeable_published _ _ He) as (_ & Hpe & b & Hb & Hl). exists (b :: bss). split_and!; [by constructor| |].
    - cbn. constructor; [congruence|done].
    - cbn [concat entries_bytes foldr]. fold (entries_bytes l). rewrite blen_app. lia. }
  assert (fresh_tags de_tag [] l) as Hfresh by (split; [done|]; apply Forall_forall; intros; apply not_elem_of_nil).
  assert (fresh_tags de_tag [] (map published l)) as Hfresh' by (split; [by rewrite map_map|]; apply Forall_forall; intros; apply not_elem_of_nil).
  pose proof (blen_nonneg l) as H0. assert (blen (map published l) = blen l) as Hbl by (unfold blen; by rewrite length_map).
  assert (forall k, blen k = blen l -> encode_entries de_tag duplicate_tag directory_entry_encode [] k = Ok (concat bss) ->
    encode_directory_row k = Ok (pad_to DIRECTORY_ROW_BYTES (le_split 4 (blen l) ++ concat bss))) as Henc.
  { intros k Hk He. unfold encode_directory_row. rewrite Hk. change DIRECTORY_SLOTS with 58. change DIRECTORY_ROW_BYTES with 4096.
    destruct (Z.ltb_spec 58 (blen l)); [lia|]. rewrite He. run_ok. rewrite blen_app, blen_le_split.
    destruct (Z.ltb_spec 4096 (Z.of_nat 4 + blen (concat bss))); [lia|done]. }
  exists (pad_to DIRECTORY_ROW_BYTES (le_split 4 (blen l) ++ concat bss)). split_and!.
  - apply Henc; [done|]. apply encode_entries_Ok. eauto.
  - apply blen_pad. rewrite blen_app, blen_le_split. change DIRECTORY_ROW_BYTES with 4096. lia.
  - apply directory_row_canonical. split.
    + clear -Hp. apply Forall_fmap. eapply Forall_impl; [exact Hp|]. intros e He. by apply placeable_published.
    + apply Henc; [done|]. apply encode_entries_Ok. eauto.
Qed.

(** ** Buckets *)

(** The entries that are assigned to a row *)
Definition assigned (entries : list DirectoryEntry) (rows_of : list nat) (r : nat) : list DirectoryEntry :=
  (filter (fun p => p.2 = r) (zip entries rows_of)).*1.

Lemma fill_buckets_run entries : forall rows_of buckets,
  Forall (fun r => (r < length buckets)%nat) rows_of ->
  exists buckets', fill_buckets entries rows_of buckets = Ok buckets' /\ length buckets' = length buckets /\
    forall r b, buckets !! r = Some b -> buckets' !! r = Some (b ++ assigned entries rows_of r).
Proof.
  induction entries as [|e entries IH]; intros [|row rows_of] buckets Hf; cbn [fill_buckets].
  1-3: exists buckets; split_and!; [done..|]; intros r b Hb; unfold assigned; cbn; by rewrite app_nil_r.
  apply Forall_cons in Hf as [Hr Hf]. destruct (lookup_lt_is_Some_2 _ _ Hr) as (bucket & Hb). unfold at_index. rewrite Hb. run_ok.
  destruct (IH rows_of (<[row := bucket ++ [e]]> buckets)) as (buckets' & -> & Hl & Hget); [by rewrite length_insert|].
  rewrite length_insert in Hl. exists buckets'. split_and!; [done..|]. intros r b Hrb. unfold assigned. cbn [zip_with]. rewrite filter_cons. cbn [snd].
  case_decide as E; [subst r|].
  - rewrite (Hget row (bucket ++ [e])) by (by apply list_lookup_insert_eq). rewrite Hb in Hrb. injection Hrb as ->. cbn. by rewrite <- app_assoc.
  - rewrite (Hget r b); [done|]. by rewrite list_lookup_insert_ne.
Qed.

Lemma assigned_elem entries rows_of r e :
  e ∈ assigned entries rows_of r <-> exists i, entries !! i = Some e /\ rows_of !! i = Some r.
Proof.
  unfold assigned. rewrite list_elem_of_fmap. split.
  - intros ([e' r'] & -> & [Hr (i & Hi)%list_elem_of_lookup]%list_elem_of_filter). cbn in Hr. subst r'.
    apply lookup_zip_with_Some in Hi as (x & y & [= -> ->] & Hx & Hy). eauto.
  - intros (i & He & Hr). exists (e, r). split; [done|]. apply list_elem_of_filter. split; [done|].
    apply (list_elem_of_lookup_2 _ i). apply lookup_zip_with_Some. eauto.
Qed.

Lemma assigned_bytes entries rows_of r :
  entries_bytes (assigned entries rows_of r) = bytes_in r (zip (map directory_entry_len entries) rows_of).
Proof.
  revert rows_of. induction entries as [|e entries IH]; intros [|row rows_of]; try done. unfold assigned. cbn [zip_with map]. rewrite filter_cons. cbn [snd].
  cbn [bytes_in foldr fst snd]. fold (bytes_in r (zip (map directory_entry_len entries) rows_of)). rewrite <- IH.
  destruct (Nat.eqb_spec row r) as [->|Hne]; [rewrite decide_True by done|rewrite decide_False by done]; cbn [fmap list_fmap entries_bytes foldr fst]; done.
Qed.

(** Every entry is in one bucket. *)
Lemma concat_map_add {A} (f : nat -> list A) row x l : NoDup l -> row ∈ l ->
  concat (map (fun r => (if decide (row = r) then [x] else []) ++ f r) l) ≡ₚ x :: concat (map f l).
Proof.
  induction l as [|r l IH]; [by intros _ ?%not_elem_of_nil|]. intros [Hr Hn]%NoDup_cons Hin. cbn [map concat].
  case_decide as E; [subst r|].
  - cbn. apply perm_skip, Permutation_app_head. replace (map _ l) with (map f l); [done|]. apply map_ext_in.
    intros r Hrl. rewrite decide_False; [done|]. intros ->. by apply Hr, list_elem_of_In.
  - apply elem_of_cons in Hin as [->|Hin]; [done|]. cbn [app]. rewrite IH by done. by rewrite Permutation_middle.
Qed.

Lemma buckets_permutation entries : forall rows_of n, length entries = length rows_of -> Forall (fun r => (r < n)%nat) rows_of ->
  concat (map (assigned entries rows_of) (seq 0 n)) ≡ₚ entries.
Proof.
  induction entries as [|e entries IH]; intros [|row rows_of] n Hl Hf; try done.
  - clear. induction (seq 0 n) as [|r l IH]; [done|]. done.
  - apply Forall_cons in Hf as [Hr Hf]. rewrite <- (IH rows_of n) at 2 by (done || by injection Hl).
    rewrite <- (concat_map_add _ row) by (apply NoDup_seq || (apply elem_of_seq; lia)).
    replace (map (assigned (e :: entries) (row :: rows_of)) (seq 0 n)) with
      (map (fun r => (if decide (row = r) then [e] else []) ++ assigned entries rows_of r) (seq 0 n)); [done|].
    apply map_ext. intros r. unfold assigned. cbn [zip_with]. rewrite filter_cons. cbn [snd]. by case_decide.
Qed.

(** ** Encoding *)

Definition row_for (b : list DirectoryEntry) (row : list byte) : Prop :=
  encode_directory_row (merge_sort script_le b) = Ok row.

Lemma encode_buckets_run bs rows : Forall2 row_for bs rows -> forall n table,
  encode_buckets bs n table = Ok (n + blen (concat bs), table ++ concat rows).
Proof.
  induction 1 as [|b row bs rows Hb _ IH]; intros n table; cbn [encode_buckets concat]; [rewrite app_nil_r; do 2 f_equal; unfold blen; cbn; lia|].
  rewrite Hb. cbn [lift_record mbind res_bind]. run_ok. rewrite IH, <- app_assoc. do 2 f_equal. unfold blen. rewrite merge_sort_Permutation, length_app. lia.
Qed.

Lemma encode_segments_run segs rss : Forall2 (Forall2 row_for) segs rss -> forall n tables,
  encode_segments segs n tables = Ok (n + blen (concat (concat segs)), tables ++ map (@concat byte) rss).
Proof.
  induction 1 as [|s rs segs rss Hs _ IH]; intros n tables; cbn [encode_segments concat map]; [rewrite app_nil_r; do 2 f_equal; unfold blen; cbn; lia|].
  rewrite (encode_buckets_run _ _ Hs). run_ok. rewrite IH, <- app_assoc, concat_app. do 2 f_equal. unfold blen. rewrite length_app. lia.
Qed.

(** ** The check of the rows *)

Lemma hold_tags_run row held : NoDup (map de_tag row) -> Forall (fun e => de_tag e ∉ held) row ->
  hold_tags row held = (true, list_to_set (map de_tag row) ∪ held).
Proof.
  revert held. induction row as [|e row IH]; intros held Hn Hf; cbn [hold_tags map list_to_set]; [by rewrite union_empty_l_L|].
  apply NoDup_cons in Hn as [He Hn]. apply Forall_cons in Hf as [Hh Hf]. rewrite decide_False by done. rewrite IH; [f_equal; set_solver|done|].
  rewrite Forall_forall in Hf |- *. intros x Hx. specialize (Hf x Hx). intros [E|]%elem_of_union; [|done].
  apply elem_of_singleton in E. apply He. rewrite <- E. by apply list_elem_of_fmap_2.
Qed.

Lemma decode_rows_run children raws ds : Forall2 (fun raw d => decode_directory_row raw children = Ok d) raws ds ->
  forall held decoded, NoDup (map de_tag (concat ds)) -> Forall (fun e => de_tag e ∉ held) (concat ds) ->
  decode_rows raws children held decoded = Ok (list_to_set (map de_tag (concat ds)) ∪ held, decoded ++ ds).
Proof.
  induction 1 as [|raw d raws ds Hd _ IH]; intros held decoded Hn Hf; cbn [decode_rows concat map list_to_set].
  { by rewrite union_empty_l_L, app_nil_r. }
  cbn [concat] in Hn, Hf. rewrite map_app in Hn. apply NoDup_app in Hn as (Hn1 & Hdis & Hn2). apply Forall_app in Hf as [Hf1 Hf2].
  rewrite Hd. cbn [lift_record mbind res_bind]. run_ok. rewrite (hold_tags_run d held) by done. cbn [negb]. rewrite IH; [|done|].
  - rewrite <- app_assoc, map_app, list_to_set_app_L. cbn [app]. do 2 f_equal. set_solver.
  - rewrite Forall_forall in Hf2 |- *. intros x Hx. specialize (Hf2 x Hx). intros [E|]%elem_of_union; [|done].
    apply elem_of_list_to_set in E. apply (Hdis _ E). by apply list_elem_of_fmap_2.
Qed.

Lemma check_assigned_run decoded entries : forall rows_of,
  (forall i e r, entries !! i = Some e -> rows_of !! i = Some r -> exists held, decoded !! r = Some held /\ published e ∈ held) ->
  check_assigned decoded entries rows_of = Ok ().
Proof.
  induction entries as [|e entries IH]; intros [|row rows_of] H; cbn [check_assigned]; try done.
  destruct (H 0%nat e row eq_refl eq_refl) as (held & -> & Hin).
  assert (existsb (fun o => bool_decide (de_tag o = de_tag e)) held = true) as ->.
  { apply existsb_exists. exists (published e). split; [by apply list_elem_of_In|by apply bool_decide_eq_true]. }
  cbn [negb]. apply IH. intros i. apply (H (S i)).
Qed.

(** ** The choice table *)

Section Choice.
Context `{!Sha256} (shard_id rows : Z).

Lemma verify_choice_run t scripts rows_of : forall index,
  (forall i s, scripts !! i = Some s -> exists a b bit row, candidates (shard_salts shard_id) s rows = Ok (a, b) /\
    shard_choice t shard_id s = Ok bit /\ rows_of !! (index + i)%nat = Some row /\ (bit = 0 /\ Z.of_nat row = a \/ bit = 1 /\ Z.of_nat row = b)) ->
  verify_choice shard_id t scripts rows rows_of index = Ok None.
Proof.
  induction scripts as [|s scripts IH]; intros index Hok; cbn [verify_choice]; [done|].
  destruct (Hok 0%nat s eq_refl) as (a & b & bit & row & -> & Hbit & Hrow & Hcase). rewrite Nat.add_0_r in Hrow.
  run_ok. rewrite Hbit. run_ok. unfold at_index. rewrite Hrow. run_ok. cbn [fst snd].
  assert ([a; b] !! Z.to_nat bit = Some (Z.of_nat row)) as -> by (destruct Hcase as [[-> ->]|[-> ->]]; done).
  run_ok. rewrite Z.eqb_refl. cbn [negb]. apply IH. intros i s' Hs'. destruct (Hok (S i) s' Hs') as (a' & b' & bit' & row' & Hx).
  exists a', b', bit', row'. by rewrite Nat.add_succ_comm.
Qed.

(** The table is not built, or it sends every script to its row. *)
Lemma choice_table_run scripts sizes N cap p rows_of :
  rows = N * pl_segments p -> placement_ok (shard_salts shard_id) scripts sizes N cap p rows_of -> NoDup scripts ->
  match choice_table shard_id scripts rows_of rows with
  | Ok t => forall i s, scripts !! i = Some s -> exists a b bit row, candidates (shard_salts shard_id) s rows = Ok (a, b) /\
      shard_choice t shard_id s = Ok bit /\ rows_of !! i = Some row /\ (bit = 0 /\ Z.of_nat row = a \/ bit = 1 /\ Z.of_nat row = b)
  | Err (Failed _) => True
  | Err (Panicked _) => False
  end.
Proof.
  intros -> Hp Hn. unfold choice_table. destruct (choice_bits_run _ _ _ _ _ _ _ Hp) as (bits & -> & Hkeys & Hbits). run_ok.
  unfold shard_choice_build. pose proof (choice_build_run CHOICE_DOMAIN (le_split 8 shard_id) seeds_tried bits) as Hb.
  destruct (choice_build _ _ _ _) as [t|[[]|]]; try done. destruct Hb as (_ & _ & _ & _ & Hroute). intros i s Hs.
  rewrite <- Hkeys, list_lookup_fmap in Hs. apply fmap_Some in Hs as ([key bit] & Hbi & ->). cbn [fst].
  assert (i < length rows_of)%nat as Hlt.
  { rewrite (pl_length _ _ _ _ _ _ _ Hp), <- Hkeys, length_fmap. by eapply lookup_lt_Some. }
  destruct (lookup_lt_is_Some_2 _ _ Hlt) as (row & Hrow). destruct (Hbits i key bit row Hbi Hrow) as (a & b & Hab & Hcase).
  exists a, b, bit, row. split_and!; [done| |done|done]. unfold shard_choice. rewrite (Hroute key bit) by (by eapply list_elem_of_lookup_2).
  by destruct Hcase as [[-> _]|[-> _]].
Qed.
End Choice.

(** ** Rows of tables *)

Lemma take_drop_concat {A} n (ls : list (list A)) : forall i l, Forall (fun l => length l = n) ls -> ls !! i = Some l ->
  take n (drop (i * n) (concat ls)) = l.
Proof.
  induction ls as [|l0 ls IH]; intros i l Hf Hl; [done|]. apply Forall_cons in Hf as [H0 Hf]. cbn [concat].
  destruct i as [|i]; [injection Hl as ->; cbn [Nat.mul drop]; by apply take_app_length'|].
  rewrite drop_app_ge by nia. replace (S i * n - length l0)%nat with (i * n)%nat by nia. by apply IH.
Qed.

Lemma lookup_concat_const {A} n (ls : list (list A)) i j l : Forall (fun l => length l = n) ls -> ls !! i = Some l -> (j < n)%nat ->
  concat ls !! (i * n + j)%nat = l !! j.
Proof. intros Hf Hl Hj. rewrite <- (take_drop_concat n ls i l) at 1 by done. by rewrite lookup_take, lookup_drop, decide_True by done. Qed.

(** A list that corresponds to a concatenation is cut in the same places. *)
Lemma Forall2_concat_l {A B} (P : A -> B -> Prop) lss ms : Forall2 P (concat lss) ms ->
  exists mss, ms = concat mss /\ Forall2 (Forall2 P) lss mss.
Proof.
  revert ms. induction lss as [|ls lss IH]; intros ms Hf; cbn [concat] in Hf.
  - exists []. split; [by apply Forall2_nil_inv_l in Hf|done].
  - apply Forall2_app_inv_l in Hf as (ms1 & ms2 & H1 & H2 & ->). destruct (IH ms2 H2) as (mss & -> & H3). exists (ms1 :: mss). by split; [|constructor].
Qed.

Lemma Forall_choice {A B} (P : A -> B -> Prop) l : Forall (fun x => exists y, P x y) l -> exists ys, Forall2 P l ys.
Proof. induction 1 as [|x l (y & Hy) _ (ys & IH)]; [by exists []|]. exists (y :: ys). by constructor. Qed.

Lemma publishable_fields g : validate_publishable g = Ok () ->
  directory_row_bytes g = 4096 /\ 0 < directory_rows g.
Proof.
  unfold validate_publishable. intros Hv. destruct (geometry_validate g) as [[]|] eqn:Hg; [|done]. cbn [mbind res_bind] in Hv. split.
  - by destruct (Z.eqb_spec (directory_row_bytes g) DIRECTORY_ROW_BYTES) as [E|E]; [exact E|].
  - unfold geometry_validate in Hg. destruct (too_small (directory_rows g) POLY_LEN) eqn:Hs; [done|]. apply orb_false_iff in Hs as [Hs _].
    apply Z.ltb_ge in Hs. change POLY_LEN with 2048 in Hs. lia.
Qed.

Lemma entry_len_nonneg children entries : Forall (placeable children) entries -> Forall (fun s => 0 <= s) (map directory_entry_len entries).
Proof. intros Hp. apply Forall_fmap. eapply Forall_impl; [exact Hp|]. intros e He. cbn. apply entry_len_min in He. lia. Qed.

(** A row of a built directory is the row of the tables. *)
Lemma built_row_run g N rss r row :
  directory_row_bytes g = 4096 -> directory_rows g = Z.of_nat N -> (0 < N)%nat -> Z.of_nat (length rss) < u32_limit ->
  Forall (fun rs => length rs = N) rss -> Forall (Forall (fun row : list byte => blen row = 4096)) rss ->
  concat rss !! r = Some row -> built_directory_row (map (@concat byte) rss) g (Z.of_nat r) = Ok row.
Proof.
  intros Hb HN Hpos Hsmall Hlen Hrow Hr. pose proof (lookup_lt_Some _ _ _ Hr) as Hlt. rewrite (length_concat_const N) in Hlt by done.
  pose proof (Nat.div_mod_eq r N) as Hdm. pose proof (Nat.mod_upper_bound r N ltac:(lia)) as Hm.
  assert (r / N < length rss)%nat as Hq by (apply Nat.Div0.div_lt_upper_bound; lia).
  destruct (lookup_lt_is_Some_2 _ _ Hq) as (rs & Hrs). rewrite Hdm, (Nat.mul_comm N), (lookup_concat_const N rss _ _ rs) in Hr by done.
  unfold built_directory_row, split_row, ShardDemand.checked_div. rewrite HN, Hb, (proj2 (Z.eqb_neq (Z.of_nat N) 0)) by lia. run_ok.
  rewrite <- Nat2Z.inj_div, <- Nat2Z.inj_mod, Z.mod_small by lia. rewrite Nat2Z.id. unfold at_index.
  rewrite list_lookup_fmap, Hrs. cbn [fmap option_fmap option_map]. run_ok.
  assert (Forall (fun row : list byte => length row = 4096%nat) rs) as Hrows.
  { eapply Forall_impl; [by apply (Forall_lookup_1 _ _ _ _ Hrow Hrs)|]. unfold blen. intros x. cbn beta. lia. }
  pose proof (lookup_lt_Some _ _ _ Hr) as Hin. unfold blen. rewrite (length_concat_const 4096) by done.
  destruct (Z.ltb_spec (Z.of_nat (length rs * 4096)) (Z.of_nat (r mod N) * 4096 + 4096)); [lia|]. unfold slice.
  replace (Z.to_nat (Z.of_nat (r mod N) * 4096 + 4096 - Z.of_nat (r mod N) * 4096)) with 4096%nat by lia.
  replace (Z.to_nat (Z.of_nat (r mod N) * 4096)) with (r mod N * 4096)%nat by lia. by rewrite (take_drop_concat 4096 _ _ row).
Qed.

(** ** The published directory *)

#[global] Instance entries_bytes_perm : Proper ((≡ₚ) ==> (=)) entries_bytes.
Proof. intros l k Hperm. unfold entries_bytes. induction Hperm; cbn [foldr]; lia. Qed.

Section Published.
Context `{!Sha256} (shard_id : Z) (entries : list DirectoryEntry) (g : Geometry) (children : Z).
Context (Hg : validate_publishable g = Ok ()) (Hsmall : directory_rows g * MAX_DIRECTORY_SEGMENTS < u32_limit).
Context (Hentries : Forall (placeable children) entries) (Hscripts : NoDup (map de_script entries)) (Htags : NoDup (map de_tag entries)).
Context (Hcount : blen entries < u32_limit).

Abbreviation scripts := (map de_script entries).
Abbreviation sizes := (map directory_entry_len entries).
Abbreviation per := (Z.to_nat (directory_rows g)).

(** What a wallet reads in a row *)
Definition read_row (rows_of : list nat) (r : nat) : list DirectoryEntry := map published (merge_sort script_le (assigned entries rows_of r)).

Lemma assigned_sublist rows_of r : sublist (map de_tag (assigned entries rows_of r)) (map de_tag entries).
Proof using.
  clear. unfold assigned. revert rows_of. induction entries as [|e l IH]; intros [|row rows_of]; try (apply sublist_nil_l).
  cbn [zip_with]. rewrite filter_cons. case_decide; cbn [fmap list_fmap map]; [apply sublist_skip|apply sublist_cons]; apply IH.
Qed.

Lemma bucket_row p rows_of r :
  placement_ok (shard_salts shard_id) scripts sizes (directory_rows g) 4092 p rows_of ->
  exists row, row_for (assigned entries rows_of r) row /\ blen row = 4096 /\ decode_directory_row row children = Ok (read_row rows_of r).
Proof using Hentries Htags.
  intros Hp. pose proof (merge_sort_Permutation script_le (assigned entries rows_of r)) as Hperm.
  assert (Forall (placeable children) (assigned entries rows_of r)) as Hpl.
  { apply Forall_forall. intros e (i & He & _)%assigned_elem. by eapply Forall_lookup_1. }
  destruct (row_published children (merge_sort script_le (assigned entries rows_of r))) as (row & H1 & H2 & H3).
  - by rewrite Hperm.
  - rewrite Hperm. eapply sublist_NoDup; [exact Htags|apply assigned_sublist].
  - assert (entries_bytes (merge_sort script_le (assigned entries rows_of r)) = entries_bytes (assigned entries rows_of r)) as -> by (by rewrite Hperm).
    rewrite assigned_bytes. pose proof (pl_bytes _ _ _ _ _ _ _ Hp r). lia.
  - by exists row.
Qed.

(** The tables of a placement *)
Lemma directory_encoded p rows_of :
  placement_ok (shard_salts shard_id) scripts sizes (directory_rows g) 4092 p rows_of -> 1 <= pl_segments p ->
  Forall (fun r => (r < Z.to_nat (directory_rows g * pl_segments p))%nat) rows_of ->
  exists buckets rss,
    fill_buckets entries rows_of (replicate (Z.to_nat (directory_rows g * pl_segments p)) []) = Ok buckets /\
    encode_segments (chunks_exact (length buckets) per buckets) 0 [] = Ok (blen entries, map (@concat byte) rss) /\
    Z.of_nat (length rss) = pl_segments p /\ Forall (fun rs => length rs = per) rss /\
    Forall (Forall (fun row : list byte => blen row = 4096)) rss /\
    Forall2 (fun row r => decode_directory_row row children = Ok (read_row rows_of r)) (concat rss) (seq 0 (Z.to_nat (directory_rows g * pl_segments p))).
Proof using All.
  intros Hp Hseg Hrange. apply publishable_fields in Hg as [_ Hrows]. set (n := Z.to_nat (directory_rows g * pl_segments p)) in *.
  assert (n = Z.to_nat (pl_segments p) * per)%nat as Hn by (unfold n; nia).
  destruct (fill_buckets_run entries rows_of (replicate n [])) as (buckets & Hfill & Hbl & Hget); [by rewrite length_replicate|].
  rewrite length_replicate in Hbl.
  assert (buckets = map (assigned entries rows_of) (seq 0 n)) as Eb.
  { apply list_eq. intros r. destruct (decide (r < n)%nat) as [Hr|Hr].
    - rewrite (Hget r []) by (by apply lookup_replicate_2). symmetry. apply list_lookup_fmap_Some. exists r. by rewrite lookup_seq_lt.
    - rewrite !lookup_ge_None_2; [done|rewrite length_map, length_seq; lia|lia]. }
  destruct (chunks_exact_multiple per (Z.to_nat (pl_segments p)) (length buckets) buckets) as (Hcat & Hclen & Hconst); [lia|lia|nia|].
  assert (Forall (fun r => exists row, row_for (assigned entries rows_of r) row /\ blen row = 4096 /\
    decode_directory_row row children = Ok (read_row rows_of r)) (seq 0 n)) as (rows & Hall)%Forall_choice.
  { apply Forall_forall. intros r _. by eapply bucket_row. }
  assert (Forall2 (fun b row => row_for b row /\ blen row = 4096) buckets rows) as Hb.
  { subst buckets. apply Forall2_fmap_l. eapply Forall2_impl; [exact Hall|]. cbn. tauto. }
  rewrite <- Hcat in Hb. apply Forall2_concat_l in Hb as (rss & -> & Hrss).
  exists buckets, rss. split_and!; [done| | | | |].
  - rewrite (encode_segments_run _ rss), Hcat.
    + assert (blen (concat buckets) = blen entries) as ->; [|done]. unfold blen. rewrite Eb, (buckets_permutation entries rows_of n); [done| |done].
      by rewrite (pl_length _ _ _ _ _ _ _ Hp), length_map.
    + eapply Forall2_impl; [exact Hrss|]. intros x y Hxy. eapply Forall2_impl; [exact Hxy|]. by intros ? ? [].
  - apply Forall2_length in Hrss. lia.
  - clear -Hrss Hconst. induction Hrss as [|x y lx ly Hxy _ IH]; [done|]. apply Forall_cons in Hconst as [Hx Hc]. constructor; [|auto].
    by rewrite <- (Forall2_length _ _ _ Hxy).
  - clear -Hrss. induction Hrss as [|x y lx ly Hxy _ IH]; constructor; [|done]. clear -Hxy. induction Hxy as [|? ? ? ? [_ ?] _ IH]; by constructor.
  - apply Forall2_flip. eapply Forall2_impl; [exact Hall|]. cbn. tauto.
Qed.

Lemma read_rows_permutation rows_of n : length entries = length rows_of -> Forall (fun r => (r < n)%nat) rows_of ->
  concat (map (read_row rows_of) (seq 0 n)) ≡ₚ map published entries.
Proof using.
  clear. intros Hl Hr. rewrite <- (buckets_permutation entries rows_of n) by done. rewrite concat_map, map_map.
  induction (seq 0 n) as [|r l IH]; [done|]. cbn [map concat]. apply Permutation_app; [|done].
  unfold read_row. by rewrite merge_sort_Permutation.
Qed.

Lemma read_row_elem rows_of i e r : entries !! i = Some e -> rows_of !! i = Some r -> published e ∈ read_row rows_of r.
Proof using.
  clear. intros He Hr. unfold read_row. apply list_elem_of_fmap_2. rewrite merge_sort_Permutation. apply assigned_elem. eauto.
Qed.

(** An entry is the only one with its tag in its row. *)
Lemma read_row_unique rows_of i e r : entries !! i = Some e -> rows_of !! i = Some r ->
  filter (fun o => de_tag o = de_tag e) (read_row rows_of r) = [published e].
Proof using Htags.
  intros He Hr. pose proof (read_row_elem _ _ _ _ He Hr) as Hin.
  assert (NoDup (map de_tag (read_row rows_of r))) as Hn.
  { unfold read_row. rewrite map_map. change (fun x => de_tag (published x)) with de_tag. rewrite merge_sort_Permutation.
    eapply sublist_NoDup; [exact Htags|apply assigned_sublist]. }
  clear -Hn Hin. induction (read_row rows_of r) as [|o l IH]; [by apply not_elem_of_nil in Hin|].
  cbn [map] in Hn. apply NoDup_cons in Hn as [Ho Hn]. rewrite filter_cons. apply elem_of_cons in Hin as [<-|Hin].
  - rewrite decide_True by done. f_equal. apply elem_of_nil_inv. intros x [Hx Hxl]%list_elem_of_filter. apply Ho. cbn [published de_tag].
    rewrite <- Hx. by apply list_elem_of_fmap_2.
  - rewrite decide_False; [by apply IH|]. intros Eo. apply Ho. rewrite Eo. change (de_tag e) with (de_tag (published e)). by apply list_elem_of_fmap_2.
Qed.

(** The check of the rows passes. *)
Lemma verify_encoded_rows_run rows_of rss n : directory_row_bytes g = 4096 ->
  length entries = length rows_of -> Forall (fun r => (r < n)%nat) rows_of ->
  Forall (Forall (fun row : list byte => blen row = 4096)) rss ->
  Forall2 (fun row r => decode_directory_row row children = Ok (read_row rows_of r)) (concat rss) (seq 0 n) ->
  verify_encoded_rows (map (@concat byte) rss) entries rows_of g children = Ok ().
Proof using Htags.
  intros Hb Hl Hr Hw Hd. unfold verify_encoded_rows. rewrite Hb, map_map.
  assert (map (fun rs => chunks_exact (length (concat rs)) (Z.to_nat 4096) (concat rs)) rss = rss) as ->.
  { clear -Hw. induction Hw as [|rs rss Hrs _ IH]; [done|]. cbn [map]. f_equal; [|done].
    assert (Forall (fun l : list byte => length l = Z.to_nat 4096) rs) as Hf.
    { eapply Forall_impl; [exact Hrs|]. unfold blen. intros x. cbn beta. lia. }
    apply chunks_exact_concat; [lia|done|]. rewrite (length_concat_const (Z.to_nat 4096)) by done. nia. }
  pose proof (read_rows_permutation rows_of n Hl Hr) as Hperm.
  assert (map de_tag (concat (map (read_row rows_of) (seq 0 n))) ≡ₚ map de_tag entries) as Htp by (by rewrite Hperm, map_map).
  rewrite (decode_rows_run children (concat rss) (map (read_row rows_of) (seq 0 n))).
  - run_ok. rewrite union_empty_r_L, size_list_to_set by (by rewrite Htp). rewrite Htp, length_map. unfold blen. rewrite Z.eqb_refl. cbn [negb app].
    apply check_assigned_run. intros i e r He Hri. exists (read_row rows_of r). split; [|by eapply read_row_elem].
    pose proof (Forall_lookup_1 _ _ _ _ Hr Hri). apply list_lookup_fmap_Some. exists r. by rewrite lookup_seq_lt.
  - by apply Forall2_fmap_r.
  - by rewrite Htp.
  - apply Forall_forall. intros ? _. apply not_elem_of_empty.
Qed.
End Published.

(** * The theorem on the directory of a shard

    What [place_directory] publishes: every entry, in a row that a wallet asks for. *)

(** A wallet that asks for a candidate row of the script of an entry, the one that the choice
    table names if there is one, reads the entry and no other with its tag. *)
Definition found `{!Sha256} (shard_id : Z) (g : Geometry) (children : Z) (tables : list (list byte)) (table : option ChoiceTable)
    (e : DirectoryEntry) : Prop :=
  exists a b row bytes held,
    candidate_rows shard_id (de_script e) (directory_rows g * blen tables) = Ok (a, b) /\ (row = a \/ row = b) /\
    (forall t, table = Some t -> exists bit, shard_choice t shard_id (de_script e) = Ok bit /\ (bit = 0 /\ row = a \/ bit = 1 /\ row = b)) /\
    built_directory_row tables g row = Ok bytes /\ decode_directory_row bytes children = Ok held /\
    filter (fun o => de_tag o = de_tag e) held = [published e].

Lemma place_scripts_run `{!Sha256} shard_id scripts sizes R cap :
  length scripts = length sizes -> Forall (fun s => 0 <= s) sizes -> 0 < R -> 0 <= cap -> R * MAX_DIRECTORY_SEGMENTS < u32_limit ->
  blen scripts < u32_limit ->
  match place_scripts shard_id scripts sizes R cap with
  | Ok (p, rows_of) => 1 <= pl_segments p <= MAX_DIRECTORY_SEGMENTS /\ placement_ok (shard_salts shard_id) scripts sizes R cap p rows_of
  | Err (Failed s) => s ∈ scripts
  | Err (Panicked _) => False
  end.
Proof.
  intros Hl Hs HR Hc Hsm Hcount. unfold place_scripts.
  destruct (place_run (shard_salts shard_id) scripts sizes R cap MAX_DIRECTORY_SEGMENTS) as (r & -> & Hr); [done..|].
  destruct r as [[p rows_of]|i]; run_ok; [done|]. destruct Hr as (size & Hi & _). unfold at_index. apply lookup_lt_Some in Hi. rewrite <- Hl in Hi.
  destruct (lookup_lt_is_Some_2 _ _ Hi) as (s & Hsi). rewrite Hsi. run_ok. by eapply list_elem_of_lookup_2.
Qed.

(** A row of a placement is in range. *)
Lemma placement_range `{!Sha256} salts keys sizes R cap p rows_of :
  placement_ok salts keys sizes R cap p rows_of -> 0 < R * pl_segments p < u32_limit ->
  Forall (fun r => (r < Z.to_nat (R * pl_segments p))%nat) rows_of.
Proof.
  intros Hp Hrows. apply Forall_lookup_2. intros i r Hr. pose proof (lookup_lt_Some _ _ _ Hr) as Hlt. rewrite (pl_length _ _ _ _ _ _ _ Hp) in Hlt.
  destruct (lookup_lt_is_Some_2 _ _ Hlt) as (key & Hk). destruct (pl_candidate _ _ _ _ _ _ _ Hp i key r Hk Hr) as (a & b & Hab & Hcase).
  destruct (candidates_range salts key (R * pl_segments p)) as (a' & b' & Hab' & Ha & Hb); [lia|]. rewrite Hab in Hab'. injection Hab' as -> ->. lia.
Qed.

(** The tables of a placement, as a wallet reads them *)
Lemma tables_read `{!Sha256} shard_id entries g children p rows_of rss table :
  directory_row_bytes g = 4096 -> 0 < directory_rows g -> NoDup (map de_tag entries) -> pl_segments p < u32_limit ->
  placement_ok (shard_salts shard_id) (map de_script entries) (map directory_entry_len entries) (directory_rows g) 4092 p rows_of ->
  Forall (fun r => (r < Z.to_nat (directory_rows g * pl_segments p))%nat) rows_of ->
  Z.of_nat (length rss) = pl_segments p -> Forall (fun rs => length rs = Z.to_nat (directory_rows g)) rss ->
  Forall (Forall (fun row : list byte => blen row = 4096)) rss ->
  Forall2 (fun row r => decode_directory_row row children = Ok (read_row entries rows_of r)) (concat rss)
    (seq 0 (Z.to_nat (directory_rows g * pl_segments p))) ->
  (forall t, table = Some t -> forall i s, map de_script entries !! i = Some s -> exists a b bit row,
    candidates (shard_salts shard_id) s (directory_rows g * pl_segments p) = Ok (a, b) /\
    shard_choice t shard_id s = Ok bit /\ rows_of !! i = Some row /\ (bit = 0 /\ Z.of_nat row = a \/ bit = 1 /\ Z.of_nat row = b)) ->
  let tables := map (@concat byte) rss in
  Forall (found shard_id g children tables table) entries /\
  exists held, Forall2 (fun r l => exists bytes, built_directory_row tables g (Z.of_nat r) = Ok bytes /\ decode_directory_row bytes children = Ok l)
    (seq 0 (Z.to_nat (directory_rows g * blen tables))) held /\ concat held ≡ₚ map published entries.
Proof.
  intros Hb Hrows Htag Hseg Hp Hrange Hlen Hper Hw Hdec Hchoice tables.
  assert (blen tables = pl_segments p) as -> by (unfold blen, tables; by rewrite length_map).
  assert (length entries = length rows_of) as Hlr by (by rewrite (pl_length _ _ _ _ _ _ _ Hp), length_map).
  set (n := Z.to_nat (directory_rows g * pl_segments p)) in *.
  assert (forall r, (r < n)%nat -> exists bytes, built_directory_row tables g (Z.of_nat r) = Ok bytes /\
    decode_directory_row bytes children = Ok (read_row entries rows_of r)) as Hread.
  { intros r Hr. destruct (Forall2_lookup_r _ _ _ r r Hdec) as (bytes & Hby & Hde); [by rewrite lookup_seq_lt|]. exists bytes. split; [|done].
    apply (built_row_run g (Z.to_nat (directory_rows g))); [done|by rewrite Z2Nat.id by lia|lia|lia|done..]. }
  split.
  - apply Forall_lookup_2. intros i e He. destruct (lookup_lt_is_Some_2 rows_of i) as (r & Hr); [rewrite <- Hlr; by eapply lookup_lt_Some|].
    assert (map de_script entries !! i = Some (de_script e)) as Hs by (by rewrite list_lookup_fmap, He).
    destruct (pl_candidate _ _ _ _ _ _ _ Hp i _ r Hs Hr) as (a & b & Hab & Hcase).
    destruct (Hread r (Forall_lookup_1 _ _ _ _ Hrange Hr)) as (bytes & Hby & Hde).
    exists a, b, (Z.of_nat r), bytes, (read_row entries rows_of r). unfold blen, tables. rewrite length_map, Hlen. fold tables.
    split_and!; [done..| |done|done|by eapply read_row_unique].
    intros t Et. destruct (Hchoice t Et i _ Hs) as (a' & b' & bit & row & Hab' & Hbit & Hrow & Hc). rewrite Hab in Hab'. simplify_eq. by exists bit.
  - exists (map (read_row entries rows_of) (seq 0 n)). split; [|by apply read_rows_permutation].
    apply Forall2_fmap_r, Forall_Forall2_diag, Forall_forall. intros r Hr%elem_of_seq. apply Hread. lia.
Qed.

Lemma place_directory_run `{!Sha256} shard_id entries g children :
  validate_publishable g = Ok () -> directory_rows g * MAX_DIRECTORY_SEGMENTS < u32_limit ->
  Forall (placeable children) entries -> NoDup (map de_script entries) -> NoDup (map de_tag entries) -> blen entries < u32_limit ->
  match place_directory shard_id entries g children with
  | Ok (tables, scripts, table) =>
      scripts = blen entries /\ 1 <= blen tables <= MAX_DIRECTORY_SEGMENTS /\
      Forall (found shard_id g children tables table) entries /\
      exists held, Forall2 (fun r l => exists bytes, built_directory_row tables g (Z.of_nat r) = Ok bytes /\ decode_directory_row bytes children = Ok l)
        (seq 0 (Z.to_nat (directory_rows g * blen tables))) held /\ concat held ≡ₚ map published entries
  | Err (Failed (DirectoryFull s)) => s ∈ map de_script entries
  | Err _ => False
  end.
Proof.
  intros Hg Hsmall Hent Hscr Htag Hcount. pose proof (publishable_fields g Hg) as [Hb Hrows]. unfold place_directory.
  assert (checked_minus (directory_row_bytes g) DIRECTORY_ROW_HEADER_BYTES = Ok 4092) as -> by (by rewrite Hb). run_ok.
  pose proof (place_scripts_run shard_id (map de_script entries) (map directory_entry_len entries) (directory_rows g) 4092) as Hplace.
  destruct (place_scripts _ _ _ _ _) as [[p rows_of]|[s|]]; run_ok.
  2, 3: apply Hplace; [by rewrite !length_map|by eapply entry_len_nonneg|done..|unfold blen in *; by rewrite length_map].
  destruct Hplace as [Hseg Hp]; [by rewrite !length_map|by eapply entry_len_nonneg|done..|unfold blen in *; by rewrite length_map|].
  assert (0 < directory_rows g * pl_segments p < u32_limit) as Hn by nia.
  pose proof (placement_range _ _ _ _ _ _ _ Hp Hn) as Hrange.
  destruct (directory_encoded shard_id entries g children Hg Hsmall Hent Hscr Htag Hcount p rows_of Hp ltac:(lia) Hrange)
    as (buckets & rss & -> & Henc & Hlen & Hper & Hw & Hdec). run_ok. rewrite Henc. run_ok.
  assert (length entries = length rows_of) as Hlr by (by rewrite (pl_length _ _ _ _ _ _ _ Hp), length_map).
  rewrite (verify_encoded_rows_run entries g children Htag rows_of rss _ Hb Hlr Hrange Hw Hdec). run_ok.
  pose proof (choice_table_run shard_id _ _ _ _ _ p rows_of eq_refl Hp Hscr) as Hch.
  assert (forall table, (forall t, table = Some t -> choice_table shard_id (map de_script entries) rows_of (directory_rows g * pl_segments p) = Ok t) ->
    blen entries = blen entries /\ 1 <= blen (map (@concat byte) rss) <= MAX_DIRECTORY_SEGMENTS /\
    Forall (found shard_id g children (map (@concat byte) rss) table) entries /\
    exists held, Forall2 (fun r l => exists bytes, built_directory_row (map (@concat byte) rss) g (Z.of_nat r) = Ok bytes /\
      decode_directory_row bytes children = Ok l) (seq 0 (Z.to_nat (directory_rows g * blen (map (@concat byte) rss)))) held /\
      concat held ≡ₚ map published entries) as Hdone.
  { intros table Ht. split; [done|]. split; [unfold blen; rewrite length_map, Hlen; lia|].
    assert (pl_segments p < u32_limit) as Hpu by (unfold MAX_DIRECTORY_SEGMENTS, u32_limit in *; lia).
    apply (tables_read shard_id entries g children p rows_of); try done.
    intros t Et. rewrite (Ht t Et) in Hch. exact Hch. }
  destruct (choice_table _ _ _ _) as [t|[]]; run_ok; [|by apply Hdone|done].
  rewrite verify_choice_run by exact Hch. run_ok. apply Hdone. congruence.
Qed.

(** C20: The directory of a shard.  For a publishable shape and entries that fit the encoding,
    with distinct scripts and tags, [place_directory] never panics and its own checks never
    fail: it names a script that does not fit the greatest directory, or it returns tables
    that hold every entry.  The row that the choice table names for the script of an entry, or
    one of its two candidate rows if there is no table, decodes to a list whose only entry
    with the tag of the script is the entry; the rows of the tables together hold the
    published entries and nothing else. *)
Theorem place_directory_correct `{!Sha256} shard_id entries g children :
  validate_publishable g = Ok () -> directory_rows g * MAX_DIRECTORY_SEGMENTS < u32_limit ->
  Forall (placeable children) entries -> NoDup (map de_script entries) -> NoDup (map de_tag entries) -> blen entries < u32_limit ->
  match place_directory shard_id entries g children with
  | Ok (tables, scripts, table) =>
      scripts = blen entries /\ 1 <= blen tables <= MAX_DIRECTORY_SEGMENTS /\
      Forall (found shard_id g children tables table) entries /\
      exists held, Forall2 (fun r l => exists bytes, built_directory_row tables g (Z.of_nat r) = Ok bytes /\ decode_directory_row bytes children = Ok l)
        (seq 0 (Z.to_nat (directory_rows g * blen tables))) held /\ concat held ≡ₚ map published entries
  | Err (Failed (DirectoryFull s)) => s ∈ map de_script entries
  | Err _ => False
  end.
Proof. apply place_directory_run. Qed.
