(* ===== verification/ShardBuilder.v ===== *)
(** * The builder of a directory shard

    [DirectoryBuilder] of [zakura/pir-publisher/src/transparent/build.rs], with the tags of
    [zakura/pir-protocol/src/transparent/shard/tag.rs] and the keys of
    [transparent/filter/hash.rs] and [profile.rs].  Blocks are taken one after the other; when a
    page shard closes, the events that left the two newest places of their script are laid out
    in its table, and at the end the directory and the filter are built.

    A [BTreeMap] is a finite map whose entries are visited in the order of the keys.  The
    counters of 64 bits are not bounded here, those of 32 and 8 bits are.  After an error the
    builder is not used again, so that its state is not kept. *)

From stdpp Require Import sorting.
From S2P Require Import GcsFilter FilterValidate FilterBuild.
From S2P Require Import Prelude BitStream ShardEvents ShardEventProofs ShardCompact ShardRecords ShardPageRow ShardPacking ShardDemand.
From S2P Require Import ShardLayout ShardLayoutProofs DirectoryPlacement DirectoryChoice DirectoryTable.

(** The entries of a map in the order of the scripts *)
Definition entry_le {A} (a b : script * A) : Prop := script_leb (fst a) (fst b) = true.
#[global] Instance entry_le_dec {A} : RelDecision (@entry_le A).
Proof. intros a b. unfold entry_le. apply _. Defined.
Definition in_order {A} (m : gmap script A) : list (script * A) := merge_sort entry_le (map_to_list m).

(** ** Tags: [shard/tag.rs] *)

Definition TAG_SALT_DOMAIN : list byte := with_nul "transparent-shard-tag-salt-v1".
Definition PAGE_TAG_SALT_DOMAIN : list byte := with_nul "transparent-shard-page-tag-salt-v1".
Definition SCRIPT_TAG_DOMAIN : list byte := with_nul "transparent-shard-script-tag-v2".
Definition MAX_TAG_SALT_COUNTER : Z := 8.
Definition salt_counters : list Z := map Z.of_nat (seq 0 (Z.to_nat (MAX_TAG_SALT_COUNTER + 1))).

Section Tags.
Context `{!Sha256}.

Definition tag_salt (shard_id : Z) (terminal : list byte) (counter : Z) : list byte :=
  tag_salt_of TAG_SALT_DOMAIN [le_split 8 shard_id; terminal; le_split 4 counter].
Definition page_tag_salt (shard_id child end_height : Z) (terminal : list byte) (counter : Z) : list byte :=
  tag_salt_of PAGE_TAG_SALT_DOMAIN [le_split 8 shard_id; le_split 4 child; le_split 8 end_height; terminal; le_split 4 counter].

(** [script_tag]: the [expect] on the length of the script is [taggable], which is asserted
    where scripts are tagged *)
Definition taggable (s : script) : bool := blen s <? 2 ^ 16.
Definition script_tag (salt : list byte) (s : script) : list byte :=
  tag_of_key SCRIPT_TAG_DOMAIN salt [le_split 2 (blen s); s].

Definition counter_exceeded : BuildError := Invalid "tag salt counter exceeded".

(** [resolve_tag_salt] and [resolve_page_tag_salt], with [script_tag] *)
Definition resolve_tag_salt (shard_id : Z) (terminal : list byte) (scripts : list script) : run BuildError (Z * list byte) :=
  _ ← panics (assert_that (forallb taggable scripts));
  fails (ok_or (resolve_salt salt_counters (tag_salt shard_id terminal) scripts script_tag) counter_exceeded).
Definition resolve_page_tag_salt (shard_id child end_height : Z) (terminal : list byte) (scripts : list script)
    : run BuildError (Z * list byte) :=
  _ ← panics (assert_that (forallb taggable scripts));
  fails (ok_or (resolve_salt salt_counters (page_tag_salt shard_id child end_height terminal) scripts script_tag) counter_exceeded).
End Tags.

(** ** The keys and parameters of the filter: [filter/hash.rs], [filter/profile.rs] *)

Record RangeProfile : Type := MkRangeProfile { rp_name : string; rp_p : nat; rp_m : Z }.
Definition RANGE_PROFILE : string := "zcash-transparent-range-v1".
Definition RANGE_PROFILE_V1 : RangeProfile := MkRangeProfile RANGE_PROFILE FILTER_P FILTER_M.
Definition RANGE_PROFILE_V2 : RangeProfile := MkRangeProfile "zcash-transparent-range-v2" 10 1024.
Definition RANGE_PROFILES : list RangeProfile := [RANGE_PROFILE_V1; RANGE_PROFILE_V2].
Definition range_profile (name : string) : option RangeProfile := List.find (fun p => String.eqb (rp_name p) name) RANGE_PROFILES.

(** [ShardKey::derive] and [filter_keys] *)
Definition shard_key `{!Sha256} (profile : string) (genesis : list byte) (shard_id start_height end_height : Z)
    (terminal : list byte) : list byte :=
  slice 0 16 (sha256 (ascii_bytes profile ++ [Byte.x00] ++ genesis ++ le_split 8 shard_id ++ le_split 8 start_height
                       ++ le_split 8 end_height ++ terminal)).
Definition filter_keys (key : list byte) : Z * Z := (le_combine (slice 0 8 key), le_combine (slice 8 16 key)).

(** [build_range_filter_for] *)
Definition build_range_filter_for (siphash : Z -> Z -> list byte -> Z) (p : RangeProfile) (key : list byte) (elements : list script)
    : run BuildError (list byte) :=
  let (k0, k1) := filter_keys key in
  match encode_with siphash k0 k1 elements (rp_m p) (rp_p p) with
  | Ok b => Ok b
  | Err (inl p) => Err (Panicked p)
  | Err (inr e) => Err (Failed (BuildFilter e))
  end.

(** ** State *)

Abbreviation Block := (Z * list (script * TransparentEvent))%type.

Record ScriptState : Type := MkScriptState {
  ss_events : Z; ss_inline : list TransparentEvent; ss_head : option (Z * Z); ss_runs : Z }.
Definition script_state_default : ScriptState := MkScriptState 0 [] None 0.

Record DirectoryBuilder : Type := MkBuilder {
  db_shard_id : Z; db_geometry : Geometry; db_genesis : list byte; db_profile : string;
  db_start : option Z; db_last : option Z; db_pending : list Block;
  db_scripts : gmap script ScriptState; db_excluded : gset script;
  db_events : Z; db_txids : gset Z; db_children : Z }.

Record BuiltChild : Type := MkBuiltChild {
  bc_shard_id : Z; bc_index : Z; bc_start : Z; bc_end : Z; bc_terminal : list byte; bc_counter : Z; bc_sealed : bool;
  bc_pages : list byte; bc_segments : Z; bc_page_rows : Z; bc_fragments : Z; bc_runs : Z; bc_events : Z }.

Record BuiltDirectory : Type := MkBuiltDirectory {
  bd_shard_id : Z; bd_geometry : Geometry; bd_start : Z; bd_end : Z; bd_filter : list byte;
  bd_directory : list (list byte); bd_children : Z; bd_scripts : Z; bd_events : Z; bd_txids : Z;
  bd_choice : option ChoiceTable; bd_excluded : Z; bd_counter : Z; bd_sealed : bool }.

(** [BuiltChild::page_row] *)
Definition page_row (c : BuiltChild) (g : Geometry) (row : Z) : exec (list byte) :=
  _ ← assert_that (row <? bc_segments c * page_rows g);
  let width := page_row_bytes g in
  let at_ := row * width in
  if at_ + width <=? blen (bc_pages c) then Ok (slice at_ (at_ + width) (bc_pages c))
  else if width <=? PAGE_ROW_BYTES then Ok (zeros width) else Err AssertFailed.

(** [BuiltChild::segment] *)
Definition segment_bytes (c : BuiltChild) (g : Geometry) (segment : Z) : exec (list byte) :=
  _ ← assert_that (segment <? bc_segments c);
  let size := page_rows g * page_row_bytes g in
  let from := Z.min (segment * size) (blen (bc_pages c)) in
  let to := Z.min (from + size) (blen (bc_pages c)) in
  let bytes := slice from to (bc_pages c) in
  Ok (pad_to size bytes).

(** ** Blocks *)

(** [DirectoryBuilder::new] *)
Definition builder_new (shard_id : Z) (g : Geometry) (genesis : list byte) (profile : string) : run BuildError DirectoryBuilder :=
  _ ← match validate_publishable g with
      | Ok _ => Ok ()
      | Err (Failed _) => Err (Failed (Invalid "a geometry that cannot be published"))
      | Err (Panicked p) => Err (Panicked p)
      end;
  match range_profile profile with
  | None => Err (Failed (Invalid "unknown range profile"))
  | Some _ => Ok (MkBuilder shard_id g genesis profile None None [] ∅ ∅ 0 ∅ 0)
  end.

(** [push_block] *)
Definition push_block (b : DirectoryBuilder) (block : Block) : res BuildError DirectoryBuilder :=
  let (height, events) := block in
  if match db_last b with Some last => negb (height =? last + 1) | None => false end
  then Err (Invalid "a block does not follow") else
  if existsb (fun se => negb (event_height (snd se) =? height)) events
  then Err (Invalid "an event of another height") else
  Ok (MkBuilder (db_shard_id b) (db_geometry b) (db_genesis b) (db_profile b)
        (Some (default height (db_start b))) (Some height) (db_pending b ++ [block])
        (db_scripts b) (db_excluded b) (db_events b) (db_txids b) (db_children b)).

(** ** Absorbing *)

(** The first loop of [absorb]: [by_script.entry(script).or_default().push(event)] *)
Definition add_event (m : gmap script (list TransparentEvent)) (se : script * TransparentEvent)
    : gmap script (list TransparentEvent) :=
  <[fst se := default [] (m !! fst se) ++ [snd se]]> m.
Definition by_script (events : list (script * TransparentEvent)) : gmap script (list TransparentEvent) :=
  foldl add_event ∅ events.

Definition txid_prefix (e : TransparentEvent) : Z := le_combine (take 8 (event_txid e)).

(** [events.sort_by_key(TransparentEvent::sort_key)] *)
Definition event_le (a b : TransparentEvent) : Prop := key_gt (sort_key a) (sort_key b) = false.
#[global] Instance event_le_dec : RelDecision event_le.
Proof. intros a b. unfold event_le. apply _. Defined.
Definition sort_events (l : list TransparentEvent) : list TransparentEvent := merge_sort event_le l.

(** [for event in events]: the events that are pushed out are returned *)
Fixpoint take_events (st : ScriptState) (events : list TransparentEvent) : exec (ScriptState * list TransparentEvent) :=
  match events with
  | [] => Ok (st, [])
  | e :: events =>
      n ← checked_plus u32_limit (ss_events st) 1;
      let inline := ss_inline st ++ [e] in
      match inline with
      | oldest :: newer =>
          if INLINE_EVENTS <? blen inline then
            sp ← take_events (MkScriptState n newer (ss_head st) (ss_runs st)) events;
            let (st, pushed) := sp : ScriptState * list TransparentEvent in
            Ok (st, oldest :: pushed)
          else take_events (MkScriptState n inline (ss_head st) (ss_runs st)) events
      | [] => Err Unreachable
      end
  end.

(** [runs.entry(script).or_default().push(pushed)] for the events pushed out *)
Definition add_run (runs : gmap script (list TransparentEvent)) (s : script) (pushed : list TransparentEvent)
    : gmap script (list TransparentEvent) :=
  match pushed with [] => runs | _ => <[s := default [] (runs !! s) ++ pushed]> runs end.

(** What [absorb] changes: the indexed and the excluded scripts, and the runs *)
Record Absorbed : Type := MkAbsorbed {
  ab_scripts : gmap script ScriptState; ab_excluded : gset script; ab_runs : gmap script (list TransparentEvent) }.

(** [for (script, mut events) in by_script] *)
Fixpoint absorb_scripts (entries : list (script * list TransparentEvent)) (a : Absorbed) : exec Absorbed :=
  match entries with
  | [] => Ok a
  | (s, events) :: entries =>
      if MAX_SCRIPT_BYTES <? blen s
      then absorb_scripts entries (MkAbsorbed (ab_scripts a) ({[s]} ∪ ab_excluded a) (ab_runs a)) else
      let state := default script_state_default (ab_scripts a !! s) in
      sp ← take_events state (sort_events events);
      let (state, pushed) := sp : ScriptState * list TransparentEvent in
      absorb_scripts entries (MkAbsorbed (<[s := state]> (ab_scripts a)) (ab_excluded a) (add_run (ab_runs a) s pushed))
  end.

(** [absorb] *)
Definition absorb (b : DirectoryBuilder) (block : Block) (runs : gmap script (list TransparentEvent))
    : exec (DirectoryBuilder * gmap script (list TransparentEvent)) :=
  let events := snd block in
  a ← absorb_scripts (in_order (by_script events)) (MkAbsorbed (db_scripts b) (db_excluded b) runs);
  Ok (MkBuilder (db_shard_id b) (db_geometry b) (db_genesis b) (db_profile b) (db_start b) (db_last b) (db_pending b)
        (ab_scripts a) (ab_excluded a) (db_events b + blen events)
        (list_to_set (map (fun se => txid_prefix (snd se)) events) ∪ db_txids b) (db_children b), ab_runs a).

Definition with_pending (b : DirectoryBuilder) (pending : list Block) : DirectoryBuilder :=
  MkBuilder (db_shard_id b) (db_geometry b) (db_genesis b) (db_profile b) (db_start b) (db_last b) pending
    (db_scripts b) (db_excluded b) (db_events b) (db_txids b) (db_children b).

(** [while self.pending.front().is_some_and(|(height, _)| *height <= end_height)] *)
Fixpoint absorb_until (end_height : Z) (pending : list Block) (b : DirectoryBuilder) (runs : gmap script (list TransparentEvent))
    : exec (DirectoryBuilder * gmap script (list TransparentEvent)) :=
  match pending with
  | block :: pending' =>
      if fst block <=? end_height then
        br ← absorb b block runs;
        let (b, runs) := br : DirectoryBuilder * gmap script (list TransparentEvent) in
        absorb_until end_height pending' b runs
      else Ok (with_pending b pending, runs)
  | [] => Ok (with_pending b [], runs)
  end.

(** ** Closing a page shard *)

(** The link of a run to the one before *)
Definition link_for (scripts : gmap script ScriptState) (s : script) : RunLink :=
  match scripts !! s with
  | Some st => match ss_head st with
               | Some (child, row) => MkRunLink child row (ss_runs st)
               | None => no_link
               end
  | None => no_link
  end.

(** [for (script, first_row) in &laid.first_rows] *)
Fixpoint set_heads (index : Z) (first_rows : list (script * Z)) (scripts : gmap script ScriptState)
    : exec (gmap script ScriptState) :=
  match first_rows with
  | [] => Ok scripts
  | (s, first_row) :: first_rows =>
      state ← expect (scripts !! s);
      runs ← checked_plus (2 ^ 8) (ss_runs state) 1;
      set_heads index first_rows
        (<[s := MkScriptState (ss_events state) (ss_inline state) (Some (index mod 2 ^ 8, first_row)) runs]> scripts)
  end.

(** The blocks that are left belong to the next page shard. *)
Definition with_child (b : DirectoryBuilder) (scripts : gmap script ScriptState) : DirectoryBuilder :=
  MkBuilder (db_shard_id b) (db_geometry b) (db_genesis b) (db_profile b) (db_start b) (db_last b) (db_pending b)
    scripts (db_excluded b) (db_events b) (db_txids b) (db_children b + 1).

Section Builder.
Context `{!Sha256} (siphash : Z -> Z -> list byte -> Z).

(** [close_child] *)
Definition close_child (b : DirectoryBuilder) (end_height : Z) (terminal : list byte) (sealed : bool)
    : run BuildError (BuiltChild * DirectoryBuilder) :=
  let index := db_children b in
  if MAX_PAGE_CHILDREN <=? index then Err (Failed (Invalid "too many page shards")) else
  start_height ← match db_pending b with
                 | (height, _) :: _ =>
                     if height <=? end_height then Ok height else Err (Failed (Invalid "a page shard holds no block"))
                 | [] => Err (Failed (Invalid "a page shard holds no block"))
                 end;
  br ← panics (absorb_until end_height (db_pending b) b ∅);
  let (b, runs) := br : DirectoryBuilder * gmap script (list TransparentEvent) in
  if match db_last b with Some last => last <? end_height | None => false end
  then Err (Failed (Invalid "a page shard ends past the last block")) else
  let runs := in_order runs in
  cs ← resolve_page_tag_salt (db_shard_id b) index end_height terminal runs.*1;
  let (counter, salt) := cs : Z * list byte in
  laid ← lay_out_runs runs (script_tag salt) (link_for (db_scripts b));
  scripts ← panics (set_heads index (in_order (first_rows laid)) (db_scripts b));
  let page_rows_count := blen (laid_rows laid) in
  segments ← (if bool_decide (laid_rows laid = []) then Ok 0
              else panics (segments_for page_rows_count (page_rows (db_geometry b))));
  pages ← lift_record (encode_rows (laid_rows laid));
  Ok (MkBuiltChild (db_shard_id b) index start_height end_height terminal counter sealed (concat pages) segments
        page_rows_count (laid_fragments laid) (blen runs) (blen (concat runs.*2)), with_child b scripts).

(** ** The end of a directory shard *)

(** The entry of a script *)
Definition entry_of (salt : list byte) (sst : script * ScriptState) : DirectoryEntry :=
  let (s, st) := sst in
  MkDirectoryEntry s (script_tag salt s) (ss_events st) (ss_inline st)
    (match ss_head st with Some (child, _) => child | None => 0 end)
    (match ss_head st with Some (_, row) => row | None => 0 end).

(** [(Reverse(a.encoded_len()), &a.script)] *)
Definition placed_before (a b : DirectoryEntry) : Prop :=
  (directory_entry_len b <? directory_entry_len a)
  || ((directory_entry_len b =? directory_entry_len a) && script_leb (de_script a) (de_script b)) = true.
#[global] Instance placed_before_dec : RelDecision placed_before.
Proof. intros a b. unfold placed_before. apply bool_eq_dec. Defined.

(** [finish] *)
Definition builder_finish (b : DirectoryBuilder) (end_height : Z) (terminal : list byte) (sealed : bool)
    : run BuildError (BuiltDirectory * list Block) :=
  if match db_pending b with (height, _) :: _ => height <=? end_height | [] => false end
  then Err (Failed (Invalid "blocks that no page shard holds")) else
  start_height ← fails (ok_or (db_start b) (Invalid "a directory shard holds no block"));
  if db_children b =? 0 then Err (Failed (Invalid "no page shard")) else
  let filter_elements := map fst (in_order (gset_to_gmap () (dom (db_scripts b) ∪ db_excluded b))) in
  let key := shard_key (db_profile b) (db_genesis b) (db_shard_id b) start_height end_height terminal in
  range ← fails (ok_or (range_profile (db_profile b)) (Invalid "unknown range profile"));
  filter_bytes ← build_range_filter_for siphash range key filter_elements;
  let indexed := in_order (db_scripts b) in
  cs ← resolve_tag_salt (db_shard_id b) terminal indexed.*1;
  let (counter, salt) := cs : Z * list byte in
  let entries := merge_sort placed_before (map (entry_of salt) indexed) in
  placed ← place_directory (db_shard_id b) entries (db_geometry b) (db_children b);
  let '(directory, scripts, choice) := placed : list (list byte) * Z * option ChoiceTable in
  Ok (MkBuiltDirectory (db_shard_id b) (db_geometry b) start_height end_height filter_bytes directory (db_children b)
        scripts (db_events b) (Z.of_nat (size (db_txids b))) choice (Z.of_nat (size (db_excluded b))) counter sealed,
      db_pending b).

(** ** [build_directory_shard] *)

Fixpoint push_blocks (b : DirectoryBuilder) (blocks : list Block) : res BuildError DirectoryBuilder :=
  match blocks with
  | [] => Ok b
  | block :: blocks => b ← push_block b block; push_blocks b blocks
  end.

(** [child_ends.windows(2).any(|w| w[0] >= w[1])] *)
Fixpoint not_ascending (l : list Z) : bool :=
  match l with
  | x :: ((y :: _) as l') => (y <=? x) || not_ascending l'
  | _ => false
  end.

Fixpoint close_children (b : DirectoryBuilder) (ends : list Z) (terminal : Z -> list byte) (sealed : bool)
    : run BuildError (list BuiltChild * DirectoryBuilder) :=
  match ends with
  | [] => Ok ([], b)
  | child_end :: ends =>
      let is_last := bool_decide (ends = []) in
      cb ← close_child b child_end (terminal child_end) (negb is_last || sealed);
      let (child, b) := cb : BuiltChild * DirectoryBuilder in
      csb ← close_children b ends terminal sealed;
      let (children, b) := csb : list BuiltChild * DirectoryBuilder in
      Ok (child :: children, b)
  end.

Definition build_directory_shard (shard_id : Z) (g : Geometry) (genesis : list byte) (profile : string) (blocks : list Block)
    (child_ends : list Z) (terminal : Z -> list byte) (sealed : bool) : run BuildError (BuiltDirectory * list BuiltChild) :=
  end_height ← fails (ok_or (fst <$> last blocks) (Invalid "a directory shard holds no block"));
  if negb (bool_decide (last child_ends = Some end_height)) || not_ascending child_ends
  then Err (Failed (Invalid "page shards do not tile a shard")) else
  b ← builder_new shard_id g genesis profile;
  b ← fails (push_blocks b blocks);
  csb ← close_children b child_ends terminal sealed;
  let (children, b) := csb : list BuiltChild * DirectoryBuilder in
  bl ← builder_finish b end_height (terminal end_height) sealed;
  Ok (fst bl, children).
End Builder.
