(* ===== verification/ShardBuilderProofs.v ===== *)
(** * What the builder keeps of a history

    The two newest events of a script are inline; the others were pushed out, each into the
    run of the page shard that was open, in order and without loss. *)

From stdpp Require Import sorting.
From S2P Require Import GcsFilter FilterValidate FilterBuild.
From S2P Require Import Prelude BitStream ShardEvents ShardEventProofs ShardCompact ShardRecords ShardPageRow ShardPacking ShardDemand.
From S2P Require Import ShardLayout ShardLayoutProofs DirectoryPlacement DirectoryChoice DirectoryTable ShardBuilder.

(** ** Maps in order *)

Lemma in_order_perm {A} (m : gmap script A) : in_order m ≡ₚ map_to_list m.
Proof. apply merge_sort_Permutation. Qed.

Lemma in_order_elem {A} (m : gmap script A) s x : (s, x) ∈ in_order m <-> m !! s = Some x.
Proof. by rewrite in_order_perm, elem_of_map_to_list. Qed.

Lemma in_order_nodup {A} (m : gmap script A) : NoDup (in_order m).*1.
Proof. rewrite in_order_perm. apply NoDup_fst_map_to_list. Qed.

Lemma in_order_keys {A} (m : gmap script A) s : s ∈ (in_order m).*1 <-> is_Some (m !! s).
Proof.
  rewrite list_elem_of_fmap. split.
  - intros ([s' x] & -> & Hx%in_order_elem). by exists x.
  - intros [x Hx]. exists (s, x). by rewrite in_order_elem.
Qed.

(** ** The events of a block *)

(** What a block holds for a script *)
Definition block_events (s : script) (events : list (script * TransparentEvent)) : list TransparentEvent :=
  (filter (fun se => se.1 = s) events).*2.

Lemma add_event_lookup m se s :
  add_event m se !! s = if decide (se.1 = s) then Some (default [] (m !! s) ++ [se.2]) else m !! s.
Proof.
  unfold add_event. case_decide as E; [by rewrite E, lookup_insert_eq|by rewrite lookup_insert_ne].
Qed.

Lemma by_script_lookup events s :
  by_script events !! s = match block_events s events with [] => None | l => Some l end.
Proof.
  unfold by_script. enough (forall m, foldl add_event m events !! s =
    match block_events s events with [] => m !! s | l => Some (default [] (m !! s) ++ l) end) as H.
  { rewrite H, lookup_empty. done. }
  unfold block_events. induction events as [|se events IH]; intros m; [done|]. cbn [foldl]. rewrite IH, add_event_lookup, filter_cons.
  case_decide as E; cbn [fmap list_fmap]; [|done]. destruct (filter _ events).*2 as [|e l]; [done|]. cbn. by rewrite <- app_assoc.
Qed.

(** The history of a script over blocks *)
Definition history (s : script) (blocks : list Block) : list TransparentEvent :=
  concat (map (fun b => sort_events (block_events s b.2)) blocks).

Lemma history_app s b1 b2 : history s (b1 ++ b2) = history s b1 ++ history s b2.
Proof. unfold history. by rewrite map_app, concat_app. Qed.

Lemma sort_events_perm l : sort_events l ≡ₚ l.
Proof. apply merge_sort_Permutation. Qed.

Lemma sort_events_nil l : sort_events l = [] <-> l = [].
Proof.
  split; [|by intros ->]. intros E. pose proof (sort_events_perm l) as Hp. rewrite E in Hp. by apply Permutation_nil_l in Hp.
Qed.

(** ** One script *)

Definition inline_ok (st : ScriptState) : Prop := blen (ss_inline st) <= 2.

(** What taking events does: nothing is lost, the newest two stay *)
Record taken (st : ScriptState) (events : list TransparentEvent) (st' : ScriptState) (pushed : list TransparentEvent) : Prop := {
  tk_events : ss_events st' = ss_events st + blen events;
  tk_history : ss_inline st ++ events = pushed ++ ss_inline st';
  tk_inline : blen (ss_inline st') = Z.min 2 (blen (ss_inline st) + blen events);
  tk_head : ss_head st' = ss_head st;
  tk_runs : ss_runs st' = ss_runs st }.

Lemma take_events_run events : forall st, inline_ok st -> ss_events st + blen events < u32_limit ->
  exists st' pushed, take_events st events = Ok (st', pushed) /\ taken st events st' pushed.
Proof.
  unfold inline_ok. induction events as [|e events IH]; intros st Hin Hlim; cbn [take_events].
  { exists st, []. split; [done|]. constructor; try done; unfold blen in *; cbn; [lia|by rewrite app_nil_r|lia]. }
  rewrite blen_cons in Hlim. pose proof (blen_nonneg events) as H0. rewrite checked_plus_Ok by lia. run_ok.
  set (n := ss_events st + 1) in *. pose proof (blen_nonneg (ss_inline st)) as H1.
  destruct (ss_inline st ++ [e]) as [|oldest newer] eqn:Happ; [by destruct (ss_inline st)|].
  assert (blen (ss_inline st) + 1 = blen newer + 1) as Hlen.
  { assert (blen (oldest :: newer) = blen (ss_inline st) + 1) as Hc by (by rewrite <- Happ, blen_app). rewrite blen_cons in Hc. lia. }
  rewrite (blen_cons oldest newer). change INLINE_EVENTS with 2. destruct (Z.ltb_spec 2 (1 + blen newer)) as [Hfull|Hroom].
  - destruct (IH (MkScriptState n newer (ss_head st) (ss_runs st))) as (st' & pushed & -> & [T1 T2 T3 T4 T5]); [cbn; lia|cbn; lia|].
    run_ok. exists st', (oldest :: pushed). split; [done|]. cbn [ss_events ss_inline ss_head ss_runs] in *.
    constructor; [rewrite blen_cons; lia| |rewrite blen_cons; lia|done|done].
    change (e :: events) with ([e] ++ events). rewrite app_assoc, Happ. cbn [app]. by rewrite T2.
  - destruct (IH (MkScriptState n (oldest :: newer) (ss_head st) (ss_runs st))) as (st' & pushed & -> & [T1 T2 T3 T4 T5]);
      [cbn [ss_inline]; rewrite blen_cons; lia|cbn; lia|].
    exists st', pushed. split; [done|]. cbn [ss_events ss_inline ss_head ss_runs] in *. rewrite blen_cons in T3.
    constructor; [rewrite blen_cons; lia| |rewrite blen_cons; lia|done|done].
    change (e :: events) with ([e] ++ events). rewrite app_assoc, Happ. done.
Qed.

Lemma taken_none st : inline_ok st -> taken st [] st [].
Proof.
  unfold inline_ok. intros H. pose proof (blen_nonneg (ss_inline st)). constructor; try done; [unfold blen; cbn; lia|by rewrite app_nil_r|unfold blen in *; cbn; lia].
Qed.

Lemma taken_trans st e1 st1 p1 e2 st2 p2 : taken st e1 st1 p1 -> taken st1 e2 st2 p2 -> taken st (e1 ++ e2) st2 (p1 ++ p2).
Proof.
  intros [A1 A2 A3 A4 A5] [B1 B2 B3 B4 B5]. pose proof (blen_nonneg e1). pose proof (blen_nonneg e2). pose proof (blen_nonneg (ss_inline st)).
  constructor; [rewrite blen_app; lia| |rewrite blen_app; lia|congruence|congruence].
  by rewrite app_assoc, A2, <- !app_assoc, B2.
Qed.

Lemma taken_inline st e st' p : taken st e st' p -> inline_ok st'.
Proof. intros [_ _ H _ _]. unfold inline_ok. lia. Qed.

(** ** All scripts *)

Definition view (scripts : gmap script ScriptState) (s : script) : ScriptState := default script_state_default (scripts !! s).
Definition run_of (runs : gmap script (list TransparentEvent)) (s : script) : list TransparentEvent := default [] (runs !! s).
Definition indexable (s : script) : Prop := blen s <= MAX_SCRIPT_BYTES.

(** The scripts have taken the events [f] *)
Record grown (scripts : gmap script ScriptState) (runs : gmap script (list TransparentEvent)) (f : script -> list TransparentEvent)
    (scripts' : gmap script ScriptState) (runs' : gmap script (list TransparentEvent)) : Prop := {
  g_taken : forall s, indexable s -> exists pushed, taken (view scripts s) (f s) (view scripts' s) pushed /\
    run_of runs' s = run_of runs s ++ pushed;
  g_dom : forall s, is_Some (scripts' !! s) <-> is_Some (scripts !! s) \/ (indexable s /\ f s <> []) }.

Definition runs_ok (runs : gmap script (list TransparentEvent)) : Prop :=
  forall s r, runs !! s = Some r -> r <> [] /\ indexable s.

Definition states_ok (scripts : gmap script ScriptState) : Prop := forall s, inline_ok (view scripts s).

Lemma grown_none scripts runs : states_ok scripts -> grown scripts runs (fun _ => []) scripts runs.
Proof.
  intros H. split.
  - intros s _. exists []. split; [by apply taken_none|by rewrite app_nil_r].
  - intros s. split; [by left|]. intros [?|[_ []]]; done.
Qed.

Lemma grown_trans sc0 r0 f sc1 r1 g sc2 r2 : grown sc0 r0 f sc1 r1 -> grown sc1 r1 g sc2 r2 -> grown sc0 r0 (fun s => f s ++ g s) sc2 r2.
Proof.
  intros [A1 A2] [B1 B2]. split.
  - intros s Hs. destruct (A1 s Hs) as (p & Hp & E). destruct (B1 s Hs) as (q & Hq & E'). exists (p ++ q).
    split; [by eapply taken_trans|by rewrite E', E, app_assoc].
  - intros s. rewrite B2, A2. destruct (f s) as [|x l] eqn:Ef; cbn [app]; [naive_solver|]. naive_solver.
Qed.

Lemma grown_ext sc0 r0 f g sc1 r1 : (forall s, indexable s -> f s = g s) -> grown sc0 r0 f sc1 r1 -> grown sc0 r0 g sc1 r1.
Proof.
  intros E [A1 A2]. split.
  - intros s Hs. rewrite <- E by done. by apply A1.
  - intros s. rewrite A2. split; (intros [?|[Hs ?]]; [by left|right; split; [done|]]); [by rewrite <- E|by rewrite E].
Qed.

Lemma view_insert scripts s st s' : view (<[s := st]> scripts) s' = if decide (s = s') then st else view scripts s'.
Proof. unfold view. case_decide as E; [by rewrite E, lookup_insert_eq|by rewrite lookup_insert_ne]. Qed.

Lemma run_of_add runs s pushed s' : run_of (add_run runs s pushed) s' = run_of runs s' ++ (if decide (s = s') then pushed else []).
Proof.
  unfold run_of, add_run. destruct pushed as [|x p]; [case_decide; by rewrite app_nil_r|].
  case_decide as E; [by rewrite E, lookup_insert_eq|]. by rewrite lookup_insert_ne, app_nil_r by done.
Qed.

Lemma runs_ok_add runs s pushed : indexable s -> runs_ok runs -> runs_ok (add_run runs s pushed).
Proof.
  intros Hs H s' r. unfold add_run. destruct pushed as [|x p]; [apply H|]. destruct (decide (s = s')) as [->|Hne].
  - rewrite lookup_insert_eq. intros [= <-]. split; [|done]. by destruct (default [] (runs !! s')).
  - rewrite lookup_insert_ne by done. apply H.
Qed.

(** The events that the entries hold for a script *)
Definition entry_events (entries : list (script * list TransparentEvent)) (s : script) : list TransparentEvent :=
  concat (map (fun p => if decide (p.1 = s) then sort_events p.2 else []) entries).

Lemma absorb_scripts_run entries : forall a, states_ok (ab_scripts a) -> runs_ok (ab_runs a) -> Forall (fun p => p.2 <> []) entries ->
  (forall s, indexable s -> ss_events (view (ab_scripts a) s) + blen (entry_events entries s) < u32_limit) ->
  exists a', absorb_scripts entries a = Ok a' /\ grown (ab_scripts a) (ab_runs a) (entry_events entries) (ab_scripts a') (ab_runs a') /\
    states_ok (ab_scripts a') /\ runs_ok (ab_runs a') /\
    (forall s, s ∈ ab_excluded a' <-> s ∈ ab_excluded a \/ (~ indexable s /\ s ∈ entries.*1)).
Proof.
  induction entries as [|[s events] entries IH]; intros a Hst Hru Hne Hlim; cbn [absorb_scripts].
  { exists a. split; [done|]. split; [by apply grown_none|]. split_and!; [done|done|]. intros s. cbn. rewrite elem_of_nil. tauto. }
  apply Forall_cons in Hne as [Hev Hne]. cbn [snd] in Hev. cbn [fmap list_fmap fst].
  change MAX_SCRIPT_BYTES with 40. destruct (Z.ltb_spec 40 (blen s)) as [Hlong|Hshort].
  - assert (~ indexable s) as Hns by (unfold indexable; change MAX_SCRIPT_BYTES with 40; lia).
    assert (forall s', indexable s' -> entry_events ((s, events) :: entries) s' = entry_events entries s') as Hskip.
    { intros s' Hs'. unfold entry_events. cbn [map concat fst]. rewrite decide_False; [done|]. by intros ->. }
    destruct (IH (MkAbsorbed (ab_scripts a) ({[s]} ∪ ab_excluded a) (ab_runs a)) Hst Hru Hne) as (a' & Ha & Hg & H1 & H2 & H3).
    { intros s' Hs'. cbn [ab_scripts]. rewrite <- Hskip by done. by apply Hlim. }
    exists a'. split; [exact Ha|]. split_and!; [|done|done|].
    + eapply grown_ext; [|exact Hg]. intros s' Hs'. by rewrite Hskip.
    + intros s'. rewrite H3. cbn [ab_excluded]. set_solver.
  - assert (indexable s) as Hs by (unfold indexable; change MAX_SCRIPT_BYTES with 40; lia). fold (view (ab_scripts a) s).
    assert (forall s', entry_events ((s, events) :: entries) s' = (if decide (s = s') then sort_events events else []) ++ entry_events entries s') as Hsplit by done.
    pose proof (Hlim s Hs) as Hls. rewrite Hsplit, decide_True, blen_app in Hls by done. pose proof (blen_nonneg (entry_events entries s)) as H0.
    destruct (take_events_run (sort_events events) (view (ab_scripts a) s)) as (st' & pushed & -> & Ht); [apply Hst|lia|]. run_ok.
    set (a1 := MkAbsorbed (<[s := st']> (ab_scripts a)) (ab_excluded a) (add_run (ab_runs a) s pushed)).
    assert (grown (ab_scripts a) (ab_runs a) (fun s' => if decide (s = s') then sort_events events else []) (ab_scripts a1) (ab_runs a1)) as Hg1.
    { split.
      - intros s' _. cbn [a1 ab_scripts ab_runs]. exists (if decide (s = s') then pushed else []). rewrite view_insert, run_of_add. split; [|done].
        case_decide; [by subst|apply taken_none, Hst].
      - intros s'. cbn [a1 ab_scripts]. destruct (decide (s = s')) as [<-|Hd].
        + rewrite lookup_insert_eq. split; [|by eauto]. right. split; [done|]. by rewrite sort_events_nil.
        + rewrite lookup_insert_ne by done. split; [by left|]. by intros [?|[_ []]]. }
    destruct (IH a1) as (a' & Ha & Hg & H1 & H2 & H3).
    + intros s'. cbn [a1 ab_scripts]. rewrite view_insert. case_decide; [by eapply taken_inline|apply Hst].
    + cbn [a1 ab_runs]. by apply runs_ok_add.
    + done.
    + intros s' Hs'. cbn [a1 ab_scripts]. rewrite view_insert. pose proof (Hlim s' Hs') as Hl. rewrite Hsplit, blen_app in Hl.
      case_decide; [subst s'; rewrite (tk_events _ _ _ _ Ht); lia|unfold blen in Hl at 1; cbn in Hl; lia].
    + exists a'. split; [exact Ha|]. split_and!; [|done|done|].
      * eapply grown_ext; [|eapply grown_trans; [exact Hg1|exact Hg]]. intros s' _. by rewrite Hsplit.
      * intros s'. rewrite H3. cbn [a1 ab_excluded]. set_solver.
Qed.

(** ** Blocks *)

Lemma entry_events_unique entries s l : NoDup entries.*1 -> (s, l) ∈ entries -> entry_events entries s = sort_events l.
Proof.
  unfold entry_events. induction entries as [|[s' l'] entries IH]; [by intros _ ?%not_elem_of_nil|]. cbn [fmap list_fmap fst].
  intros [Hs Hn]%NoDup_cons [[= <- <-]|Hin]%elem_of_cons; cbn [map concat fst snd].
  - rewrite decide_True by done. rewrite <- app_nil_r. f_equal. clear -Hs. induction entries as [|[s'' x] entries IH]; [done|].
    cbn [map concat fst]. cbn in Hs. apply not_elem_of_cons in Hs as [Hne Hs]. rewrite decide_False by done. by apply IH.
  - rewrite decide_False; [by apply IH|]. intros ->. apply Hs. apply list_elem_of_fmap. by exists (s, l).
Qed.

Lemma entry_events_none entries s : s ∉ entries.*1 -> entry_events entries s = [].
Proof.
  unfold entry_events. induction entries as [|[s'' x] entries IH]; [done|]. cbn [map concat fst fmap list_fmap].
  intros [Hne Hs]%not_elem_of_cons. rewrite decide_False by done. by apply IH.
Qed.

Lemma block_entries events s : entry_events (in_order (by_script events)) s = sort_events (block_events s events).
Proof.
  pose proof (by_script_lookup events s) as Hl. destruct (block_events s events) as [|e l] eqn:E.
  - rewrite entry_events_none; [done|]. rewrite in_order_keys, Hl. by intros [? ?].
  - apply entry_events_unique; [apply in_order_nodup|]. by apply in_order_elem.
Qed.

Lemma block_keys events s : s ∈ (in_order (by_script events)).*1 <-> block_events s events <> [].
Proof. rewrite in_order_keys, by_script_lookup. destruct (block_events s events); split; [by intros [? ?]|done|done|by eexists]. Qed.

Lemma block_nonempty events : Forall (fun p : script * list TransparentEvent => p.2 <> []) (in_order (by_script events)).
Proof.
  apply Forall_forall. intros [s l] Hin%in_order_elem. rewrite by_script_lookup in Hin. cbn. destruct (block_events s events); [done|]. by simplify_eq.
Qed.

(** What is the same before and after *)
Record same_builder (b b' : DirectoryBuilder) : Prop := {
  sb_shard : db_shard_id b' = db_shard_id b; sb_geometry : db_geometry b' = db_geometry b;
  sb_genesis : db_genesis b' = db_genesis b; sb_profile : db_profile b' = db_profile b;
  sb_start : db_start b' = db_start b; sb_last : db_last b' = db_last b }.

Lemma same_builder_refl b : same_builder b b.
Proof. done. Qed.

(** The builder after it took blocks *)
Record absorbed (b : DirectoryBuilder) (runs : gmap script (list TransparentEvent)) (blocks : list Block)
    (b' : DirectoryBuilder) (runs' : gmap script (list TransparentEvent)) : Prop := {
  as_same : same_builder b b';
  as_children : db_children b' = db_children b;
  as_grown : grown (db_scripts b) runs (fun s => history s blocks) (db_scripts b') runs';
  as_states : states_ok (db_scripts b');
  as_runs : runs_ok runs';
  as_excluded : forall s, s ∈ db_excluded b' <-> s ∈ db_excluded b \/ (~ indexable s /\ history s blocks <> []) }.

Lemma history_single s h events : history s [(h, events)] = sort_events (block_events s events).
Proof. unfold history. cbn. apply app_nil_r. Qed.

Lemma absorb_run b block runs : states_ok (db_scripts b) -> runs_ok runs ->
  (forall s, indexable s -> ss_events (view (db_scripts b) s) + blen (history s [block]) < u32_limit) ->
  exists b' runs', absorb b block runs = Ok (b', runs') /\ absorbed b runs [block] b' runs'.
Proof.
  intros Hst Hru Hlim. destruct block as [h events]. unfold absorb. cbn [snd].
  destruct (absorb_scripts_run (in_order (by_script events)) (MkAbsorbed (db_scripts b) (db_excluded b) runs)) as (a' & -> & Hg & H1 & H2 & H3);
    [done|done|apply block_nonempty|intros s Hs; rewrite block_entries, <- (history_single s h); by apply Hlim|].
  run_ok. eexists _, _. split; [done|]. constructor; cbn [db_scripts db_excluded db_children]; [done|done| |done|done|].
  - eapply grown_ext; [|exact Hg]. intros s _. by rewrite block_entries, history_single.
  - intros s. rewrite H3. cbn [ab_excluded]. by rewrite block_keys, history_single, sort_events_nil.
Qed.

Lemma absorbed_trans b0 r0 bs1 b1 r1 bs2 b2 r2 : absorbed b0 r0 bs1 b1 r1 -> absorbed b1 r1 bs2 b2 r2 -> absorbed b0 r0 (bs1 ++ bs2) b2 r2.
Proof.
  intros [A1 A2 A3 A4 A5 A6] [B1 B2 B3 B4 B5 B6]. constructor; [destruct A1, B1; constructor; congruence|congruence| |done|done|].
  - eapply grown_ext; [|eapply grown_trans; [exact A3|exact B3]]. intros s _. by rewrite history_app.
  - intros s. rewrite B6, A6, history_app. destruct (history s bs1); cbn; naive_solver.
Qed.

Lemma absorb_until_run end_height pending : forall b runs, states_ok (db_scripts b) -> runs_ok runs ->
  (forall s, indexable s -> ss_events (view (db_scripts b) s) + blen (history s pending) < u32_limit) ->
  exists pre post b' runs', absorb_until end_height pending b runs = Ok (b', runs') /\ pending = pre ++ post /\
    Forall (fun bl => fst bl <= end_height) pre /\ (forall bl, head post = Some bl -> end_height < fst bl) /\
    absorbed b runs pre b' runs' /\ db_pending b' = post.
Proof.
  induction pending as [|block pending IH]; intros b runs Hst Hru Hlim; cbn [absorb_until].
  { exists [], []. eexists _, _. split; [done|]. split_and!; [done|constructor|done| |done].
    constructor; cbn; [done|done|by apply grown_none|done|done|]. intros s. unfold history. cbn. tauto. }
  destruct (Z.leb_spec (fst block) end_height) as [Hle|Hgt].
  - destruct (absorb_run b block runs Hst Hru) as (b1 & runs1 & -> & Ha).
    { intros s Hs. specialize (Hlim s Hs). change (block :: pending) with ([block] ++ pending) in Hlim. rewrite history_app, blen_app in Hlim.
      pose proof (blen_nonneg (history s pending)). lia. }
    run_ok. destruct (IH b1 runs1) as (pre & post & b2 & runs2 & -> & -> & Hpre & Hpost & Ha2 & Hp2); [apply Ha|apply Ha| |].
    { intros s Hs. specialize (Hlim s Hs). destruct (g_taken _ _ _ _ _ (as_grown _ _ _ _ _ Ha) s Hs) as (p & [-> _ _ _ _] & _).
      change (block :: pending) with ([block] ++ pending) in Hlim. rewrite history_app, blen_app in Hlim. lia. }
    exists (block :: pre), post, b2, runs2. split_and!; [done|done|by constructor|done| |done].
    change (block :: pre) with ([block] ++ pre). by eapply absorbed_trans.
  - exists [], (block :: pending). eexists _, _. split; [done|]. split_and!; [done|constructor|by intros ? [= <-]| |done].
    constructor; cbn; [done|done|by apply grown_none|done|done|]. intros s. unfold history. cbn. tauto.
Qed.

(** ** The table of a page shard *)

(** Only the runs have first rows. *)
Lemma lay_runs_first mixed sm tag_of link_of runs st short st' short' :
  lay_runs mixed sm tag_of link_of runs (st, short) = Ok (st', short') ->
  forall s, (is_Some (st_first st' !! s) -> is_Some (st_first st !! s) \/ s ∈ runs.*1) /\ (s ∈ short'.*1 -> s ∈ short.*1 \/ s ∈ runs.*1).
Proof.
  revert st short. induction runs as [|[s0 r] runs IH]; intros st short; cbn [lay_runs fmap list_fmap fst]; [intros [= <- <-] s; split; by left|].
  intros ([st1 short1] & Hl & Hr)%res_bind_Ok s. destruct (IH _ _ Hr s) as [H1 H2]. rewrite !elem_of_cons.
  enough ((is_Some (st_first st1 !! s) -> is_Some (st_first st !! s) \/ s = s0) /\ (s ∈ short1.*1 -> s ∈ short.*1 \/ s = s0)) by tauto.
  clear -Hl. unfold lay_run in Hl. apply res_bind_Ok in Hl as (summary & _ & Hl). destruct (blen (fragments r) =? 1).
  - apply res_bind_Ok in Hl as (e & _ & Hl). apply res_bind_Ok in Hl as (e' & _ & Hl). injection Hl as <- <-. split; [by left|].
    rewrite fmap_app, elem_of_app. cbn. rewrite list_elem_of_singleton. tauto.
  - apply res_bind_Ok in Hl as (first & _ & Hl). apply res_bind_Ok in Hl as (new & _ & Hl). apply res_bind_Ok in Hl as (free & _ & Hl).
    injection Hl as <- <-. split; [|by left]. cbn [st_first]. destruct (decide (s0 = s)) as [->|Hne]; [by right|]. rewrite lookup_insert_ne by done. by left.
Qed.

Lemma place_short_first mixed short : forall last st st', place_short mixed last short st = Ok st' ->
  forall s, is_Some (st_first st' !! s) -> is_Some (st_first st !! s) \/ s ∈ short.*1.
Proof.
  induction short as [|[s0 e] short IH]; intros last st st'; cbn [place_short fmap list_fmap fst]; [intros [= <-] s; by left|].
  intros (st1 & Hp & Hr)%res_bind_Ok s Hs. rewrite elem_of_cons. destruct (IH _ _ _ Hr s Hs) as [H1|]; [|tauto].
  enough (is_Some (st_first st !! s) \/ s = s0) by tauto. clear -Hp H1. unfold place_entry in Hp.
  apply res_bind_Ok in Hp as ([[space row] st2] & Hsrf & Hp).
  assert (st_first st2 = st_first st) as E.
  { destruct (first_from _ _) as [[sp indices]|]; [apply res_bind_Ok in Hsrf as (i & _ & Hsrf)|]; injection Hsrf as _ _ <-; cbn; by destruct (_ && _). }
  apply res_bind_Ok in Hp as (first & _ & Hp). apply res_bind_Ok in Hp as (old & _ & Hp). apply res_bind_Ok in Hp as (left & _ & Hp).
  injection Hp as <-. cbn [st_first] in H1. rewrite E in H1. destruct (decide (s0 = s)) as [->|Hne]; [by right|]. rewrite lookup_insert_ne in H1 by done. by left.
Qed.

Lemma first_rows_runs runs tag_of link_of out : lay_out_runs runs tag_of link_of = Ok out ->
  forall s, is_Some (first_rows out !! s) -> s ∈ runs.*1.
Proof.
  unfold lay_out_runs. intros H s Hs. apply res_bind_Ok in H as (d & _ & H). apply res_bind_Ok in H as ([d1 sm] & _ & H).
  apply res_bind_Ok in H as ([mixed d2] & _ & H). apply res_bind_Ok in H as ([st short] & Hl & H). apply res_bind_Ok in H as (st2 & Hp & H).
  apply res_bind_Ok in H as ([predicted d3] & _ & H). destruct (negb _); [done|]. injection H as <-. cbn [first_rows] in Hs.
  destruct (lay_runs_first _ _ _ _ _ _ _ _ _ Hl s) as [H1 H2]. destruct (place_short_first _ _ _ _ _ Hp s Hs) as [Hf|Hf].
  - destruct (H1 Hf) as [He|]; [|done]. cbn [st_first] in He. rewrite lookup_empty in He. by destruct He.
  - rewrite merge_sort_Permutation in Hf. destruct (H2 Hf) as [He|]; [|done]. by apply not_elem_of_nil in He.
Qed.

(** There are no more rows than fragments. *)
Lemma long_entries_length tag l count fs : forall ordinal rows, long_entries tag l count ordinal fs = Ok rows -> length rows = length fs.
Proof.
  induction fs as [|f fs IH]; intros ordinal rows; cbn [long_entries]; [by intros [= <-]|].
  intros (e & _ & H)%res_bind_Ok. apply res_bind_Ok in H as (e' & _ & H). apply res_bind_Ok in H as (rest & Hr & H). injection H as <-.
  cbn [length]. f_equal. by eapply IH.
Qed.

Lemma lay_runs_length mixed sm tag_of link_of runs st short st' short' :
  lay_runs mixed sm tag_of link_of runs (st, short) = Ok (st', short') ->
  blen (st_rows st') + blen short' = blen (st_rows st) + blen short + total_fragments runs.
Proof.
  revert st short. induction runs as [|[s0 r] runs IH]; intros st short; cbn [lay_runs total_fragments foldr snd]; [intros [= <- <-]; lia|].
  fold (total_fragments runs). intros ([st1 short1] & Hl & Hr)%res_bind_Ok. rewrite (IH _ _ Hr).
  unfold lay_run in Hl. apply res_bind_Ok in Hl as (summary & _ & Hl). destruct (Z.eqb_spec (blen (fragments r)) 1) as [E|_].
  - apply res_bind_Ok in Hl as (e & _ & Hl). apply res_bind_Ok in Hl as (e' & _ & Hl). injection Hl as <- <-. rewrite blen_app, E. change (blen [_]) with 1. lia.
  - apply res_bind_Ok in Hl as (first & _ & Hl). apply res_bind_Ok in Hl as (new & Hn & Hl). apply res_bind_Ok in Hl as (free & _ & Hl).
    injection Hl as <- <-. cbn [st_rows]. apply long_entries_length in Hn. rewrite blen_app. unfold blen in *. lia.
Qed.

Lemma place_short_length mixed short : forall last st st', place_short mixed last short st = Ok st' ->
  blen (st_rows st') <= blen (st_rows st) + blen short.
Proof.
  induction short as [|[s0 e] short IH]; intros last st st'; cbn [place_short]; [intros [= <-]; unfold blen; cbn; lia|].
  intros (st1 & Hp & Hr)%res_bind_Ok. apply IH in Hr. rewrite blen_cons. enough (blen (st_rows st1) <= blen (st_rows st) + 1) by lia. clear -Hp. unfold place_entry in Hp.
  apply res_bind_Ok in Hp as ([[space row] st2] & Hsrf & Hp).
  assert (blen (st_rows st2) <= blen (st_rows st) + 1) as E.
  { destruct (first_from _ _) as [[sp indices]|]; [apply res_bind_Ok in Hsrf as (i & _ & Hsrf)|]; injection Hsrf as _ _ <-; cbn [st_rows];
      [|rewrite blen_app; change (blen [_]) with 1]; (destruct (_ && _); cbn [st_rows]; lia). }
  apply res_bind_Ok in Hp as (first & _ & Hp). apply res_bind_Ok in Hp as (old & _ & Hp). apply res_bind_Ok in Hp as (left & _ & Hp).
  injection Hp as <-. cbn [st_rows]. unfold blen in *. by rewrite length_insert.
Qed.

Lemma laid_rows_count runs tag_of link_of out : lay_out_runs runs tag_of link_of = Ok out -> blen (laid_rows out) <= total_fragments runs.
Proof.
  unfold lay_out_runs. intros H. apply res_bind_Ok in H as (d & _ & H). apply res_bind_Ok in H as ([d1 sm] & _ & H).
  apply res_bind_Ok in H as ([mixed d2] & _ & H). apply res_bind_Ok in H as ([st short] & Hl & H). apply res_bind_Ok in H as (st2 & Hp & H).
  apply res_bind_Ok in H as ([predicted d3] & _ & H). destruct (negb _); [done|]. injection H as <-. cbn [laid_rows].
  apply lay_runs_length in Hl. apply place_short_length in Hp. cbn [st_rows] in Hl.
  assert (blen (merge_sort short_before short) = blen short) as E by (unfold blen; by rewrite merge_sort_Permutation). rewrite E in Hp.
  change (blen (@nil (list PageEntry))) with 0 in Hl. change (blen (@nil (script * PageEntry))) with 0 in Hl. lia.
Qed.

(** A run is found from a row of a table on: each fragment is the one entry with its tag of its
    row, the first carries the link. *)
Definition run_rows (row_at : nat -> list byte -> Prop) (tag : list byte) (l : RunLink) (p : nat) (r : list TransparentEvent) : Prop :=
  forall i f, fragments r !! i = Some f -> exists bytes entries e,
    row_at (p + i)%nat bytes /\ decode_page_row bytes = Ok entries /\ filter (fun e => pe_tag e = tag) entries = [e] /\
    ordinal e = Z.of_nat i /\ fragment_count e = blen (fragments r) /\ pe_events e = f /\
    link e = if decide (i = 0%nat) then l else no_link.

Lemma encode_rows_bytes rows table : encode_rows rows = Ok table -> Forall2 (fun row b => encode_page_row row = Ok b) rows table.
Proof.
  revert table. induction rows as [|row rows IH]; intros table; cbn [encode_rows]; [by intros [= <-]|].
  intros (b & Hb & H)%res_bind_Ok. apply res_bind_Ok in H as (bs & Hbs & H). injection H as <-. constructor; [done|by apply IH].
Qed.

(** ** Order *)

Lemma key_gt_total a b : key_gt a b = false \/ key_gt b a = false.
Proof.
  revert b. induction a as [|x a IH]; intros [|y b]; cbn [key_gt]; auto. rewrite (Z.eqb_sym y x).
  destruct (Z.eqb_spec x y); [apply IH|]. destruct (Z.ltb_spec y x), (Z.ltb_spec x y); auto; lia.
Qed.

#[global] Instance event_le_total : Total event_le.
Proof. intros a b. unfold event_le. destruct (key_gt_total (sort_key a) (sort_key b)); auto. Qed.

Lemma in_order_sorted l : out_of_order l = false <-> Sorted event_le l.
Proof.
  induction l as [|a [|b l] IH]; [split; [constructor|done]|split; [repeat constructor|done]|].
  cbn [out_of_order]. rewrite orb_false_iff, IH. split.
  - intros [H1 H2]. constructor; [done|]. by constructor.
  - intros H. apply Sorted_inv in H as [H1 H2]. apply HdRel_inv in H2. by split.
Qed.

Lemma lower_le a b : event_height a < event_height b -> event_le a b.
Proof.
  intros H. unfold event_le. destruct a as [a|a], b as [b|b]; cbn in H |- *;
    (match goal with |- context [?x =? ?y] => destruct (Z.eqb_spec x y) end; [lia|]; apply Z.ltb_ge; lia).
Qed.

Lemma sorted_app {A} (R : A -> A -> Prop) l1 l2 : Sorted R l1 -> Sorted R l2 -> (forall x y, x ∈ l1 -> y ∈ l2 -> R x y) -> Sorted R (l1 ++ l2).
Proof.
  induction 1 as [|x l1 H1 IH Hx]; intros H2 Hall; cbn [app]; [done|]. constructor.
  - apply IH; [done|]. intros. apply Hall; [by right|done].
  - destruct l1 as [|y l1]; [|by apply HdRel_inv in Hx; constructor]. destruct l2 as [|y l2]; constructor. apply Hall; left.
Qed.

Lemma sorted_app_inv {A} (R : A -> A -> Prop) l1 l2 : Sorted R (l1 ++ l2) -> Sorted R l1 /\ Sorted R l2.
Proof.
  induction l1 as [|x l1 IH]; cbn [app]; [split; [constructor|done]|]. intros [H1 H2]%Sorted_inv. apply IH in H1 as [H1 H3].
  split; [|done]. constructor; [done|]. destruct l1; [constructor|]. cbn in H2. apply HdRel_inv in H2. by constructor.
Qed.

(** ** Good blocks *)

Definition good_event (e : TransparentEvent) : Prop := event_wf e /\ validate_metadata e = Ok () /\ is_sentinel e = false.

Record blocks_ok (blocks : list Block) : Prop := {
  bk_events : Forall (fun bl => Forall (fun se => good_event se.2 /\ event_height se.2 = bl.1) bl.2) blocks;
  bk_heights : StronglySorted (fun a b : Block => a.1 < b.1) blocks }.

Lemma blocks_ok_app b1 b2 : blocks_ok (b1 ++ b2) -> blocks_ok b1 /\ blocks_ok b2.
Proof.
  intros [[H1 H2]%Forall_app H3]. split; constructor; try done.
  - clear -H3. induction b1 as [|x b1 IH]; [constructor|]. cbn in H3. apply StronglySorted_inv in H3 as [H4 H5]. apply Forall_app in H5 as [H5 _].
    constructor; auto.
  - clear -H3. induction b1 as [|x b1 IH]; [done|]. cbn in H3. apply StronglySorted_inv in H3 as [H4 _]. auto.
Qed.

Lemma history_elem s blocks e : e ∈ history s blocks -> exists bl, bl ∈ blocks /\ (s, e) ∈ bl.2.
Proof.
  unfold history. rewrite list_elem_of_In, in_concat. intros (l & Hl%list_elem_of_In & He%list_elem_of_In). apply list_elem_of_fmap in Hl as (bl & -> & Hbl). exists bl. split; [done|].
  rewrite sort_events_perm in He. unfold block_events in He. apply list_elem_of_fmap in He as ([s' e'] & -> & [Hs Hin]%list_elem_of_filter).
  cbn in Hs. by subst s'.
Qed.

Lemma history_good s blocks : blocks_ok blocks -> Forall good_event (history s blocks).
Proof.
  intros [H _]. apply Forall_forall. intros e (bl & Hbl & Hin)%history_elem. rewrite Forall_forall in H. specialize (H bl Hbl).
  rewrite Forall_forall in H. by apply (H _ Hin).
Qed.

Lemma history_height s blocks e : blocks_ok blocks -> e ∈ history s blocks -> exists bl, bl ∈ blocks /\ event_height e = bl.1.
Proof.
  intros [H _] (bl & Hbl & Hin)%history_elem. exists bl. split; [done|]. rewrite Forall_forall in H. specialize (H bl Hbl).
  rewrite Forall_forall in H. by apply (H _ Hin).
Qed.

Lemma history_sorted s blocks : blocks_ok blocks -> Sorted event_le (history s blocks).
Proof.
  induction blocks as [|bl blocks IH]; intros Hok; [constructor|]. change (bl :: blocks) with ([bl] ++ blocks) in *. rewrite history_app.
  destruct (blocks_ok_app _ _ Hok) as [H1 H2]. apply sorted_app; [|by apply IH|].
  - destruct bl as [h events]. rewrite history_single. apply Sorted_merge_sort, _.
  - intros x y Hx Hy. destruct (history_height s _ x H1 Hx) as (bx & ->%list_elem_of_singleton & Ex).
    destruct (history_height s _ y H2 Hy) as (bb & Hbb & Ey). apply lower_le. rewrite Ex, Ey.
    destruct Hok as [_ Hs]. cbn in Hs. apply StronglySorted_inv in Hs as [_ Hs]. rewrite Forall_forall in Hs. by apply Hs.
Qed.

(** ** Counting *)

Definition total_events (blocks : list Block) : Z := foldr (fun bl n => blen bl.2 + n) 0 blocks.
Definition sum_over {A} (f : A -> Z) (l : list A) : Z := foldr (fun x n => f x + n) 0 l.

Lemma sum_over_le {A} (f g : A -> Z) l : (forall x, x ∈ l -> f x <= g x) -> sum_over f l <= sum_over g l.
Proof.
  intros H. induction l as [|x l IH]; cbn [sum_over foldr]; [done|]. fold (sum_over f l) (sum_over g l).
  assert (f x <= g x) by (apply H; left). assert (sum_over f l <= sum_over g l) by (apply IH; intros; apply H; by right). lia.
Qed.

Lemma sum_over_add {A} (f g : A -> Z) l : sum_over (fun x => f x + g x) l = sum_over f l + sum_over g l.
Proof. unfold sum_over. induction l as [|x l IH]; cbn [foldr]; [done|]. rewrite IH. lia. Qed.

Lemma block_events_sum keys events : NoDup keys -> sum_over (fun s => blen (block_events s events)) keys <= blen events.
Proof.
  intros Hn. induction events as [|[s e] events IH].
  { unfold block_events. cbn. induction keys as [|k keys IH]; [done|]. cbn [sum_over foldr]. apply NoDup_cons in Hn as [_ Hn]. apply IH in Hn.
    unfold sum_over in Hn. unfold blen in *. cbn in *. lia. }
  rewrite blen_cons. transitivity (sum_over (fun k => (if decide (s = k) then 1 else 0) + blen (block_events k events)) keys).
  - apply sum_over_le. intros k _. unfold block_events. rewrite filter_cons. cbn [fst]. case_decide; cbn [fmap list_fmap]; [rewrite blen_cons|]; lia.
  - rewrite sum_over_add. enough (sum_over (fun k => if decide (s = k) then 1 else 0) keys <= 1) by lia. clear -Hn.
    induction keys as [|k keys IH]; cbn [sum_over foldr]; [lia|]. apply NoDup_cons in Hn as [Hk Hn]. specialize (IH Hn). unfold sum_over in IH.
    case_decide as E; [|lia]. subst k. enough (foldr (fun x n => (if decide (s = x) then 1 else 0) + n) 0 keys = 0) by lia.
    clear -Hk. induction keys as [|k keys IH]; [done|]. apply not_elem_of_cons in Hk as [Hne Hk]. cbn [foldr]. rewrite decide_False by done. by rewrite IH.
Qed.

Lemma history_sum keys blocks : NoDup keys -> sum_over (fun s => blen (history s blocks)) keys <= total_events blocks.
Proof.
  intros Hn. induction blocks as [|[h events] blocks IH].
  { clear. induction keys as [|k keys IH]; [done|]. cbn [sum_over foldr]. exact IH. }
  cbn [total_events foldr snd]. fold (total_events blocks).
  transitivity (sum_over (fun s => blen (block_events s events) + blen (history s blocks)) keys).
  - apply sum_over_le. intros s _. change ((h, events) :: blocks) with ([(h, events)] ++ blocks). rewrite history_app, blen_app, history_single.
    unfold blen. by rewrite sort_events_perm.
  - rewrite sum_over_add. pose proof (block_events_sum keys events Hn). lia.
Qed.

Lemma history_count s blocks : blen (history s blocks) <= total_events blocks.
Proof.
  pose proof (history_sum [s] blocks (NoDup_singleton s)) as H. cbn in H. lia.
Qed.

Lemma total_events_nonneg blocks : 0 <= total_events blocks.
Proof. unfold total_events. induction blocks as [|bl blocks IH]; cbn [foldr]; [lia|]. pose proof (blen_nonneg bl.2). lia. Qed.

Lemma total_events_app b1 b2 : total_events (b1 ++ b2) = total_events b1 + total_events b2.
Proof. unfold total_events. induction b1 as [|bl b1 IH]; cbn [app foldr]; [done|]. rewrite IH. lia. Qed.

(** ** No fragment is there twice *)

Definition entry_key (e : PageEntry) : list byte * Z := (pe_tag e, ordinal e).
Definition run_keys (tag_of : script -> list byte) (sr : script * list TransparentEvent) : list (list byte * Z) :=
  map (fun i => (tag_of sr.1, Z.of_nat i)) (seq 0 (length (fragments sr.2))).

Lemma new_entry_key tag ord count events l e e' :
  lift_record (page_entry_new tag ord count events) = Ok e -> (e' = e \/ lift_record (with_link e l) = Ok e') -> entry_key e' = (tag, ord).
Proof.
  unfold page_entry_new. intros H Hl. assert (entry_key e = (tag, ord)) as Hk.
  { destruct (heights_min events), (heights_max events); repeat case_match; try done; cbn in H; injection H as <-; done. }
  destruct Hl as [->|Hl]; [done|]. unfold with_link in Hl. repeat case_match; try done; cbn in Hl; injection Hl as <-; done.
Qed.

Lemma long_entries_keys tag l count fs : forall ord rows, long_entries tag l count ord fs = Ok rows ->
  map entry_key (concat rows) = map (fun i => (tag, ord + Z.of_nat i)) (seq 0 (length fs)).
Proof.
  induction fs as [|f fs IH]; intros ord rows; cbn [long_entries]; [by intros [= <-]|].
  intros (e & He & H)%res_bind_Ok. apply res_bind_Ok in H as (e' & He' & H). apply res_bind_Ok in H as (rest & Hr & H). injection H as <-.
  cbn [concat app map length seq]. rewrite (new_entry_key tag ord count f l e e' He).
  - rewrite Z.add_0_r. f_equal. rewrite (IH _ _ Hr), <- seq_shift, map_map. apply map_ext. intros i. f_equal. lia.
  - destruct (ord =? 0); [by right|]. injection He' as ->. by left.
Qed.

Lemma lay_runs_keys mixed sm tag_of link_of runs : forall st short st' short',
  lay_runs mixed sm tag_of link_of runs (st, short) = Ok (st', short') ->
  map entry_key (concat (st_rows st') ++ short'.*2) ≡ₚ map entry_key (concat (st_rows st) ++ short.*2) ++ concat (map (run_keys tag_of) runs).
Proof.
  induction runs as [|[s0 r] runs IH]; intros st short st' short'; cbn [lay_runs map concat]; [intros [= <- <-]; by rewrite app_nil_r|].
  intros ([st1 short1] & Hl & Hr)%res_bind_Ok. rewrite (IH _ _ _ _ Hr). rewrite (app_assoc (map entry_key _)). apply Permutation_app_tail.
  unfold lay_run in Hl. apply res_bind_Ok in Hl as (summary & _ & Hl). unfold run_keys. cbn [fst snd].
  destruct (Z.eqb_spec (blen (fragments r)) 1) as [E|_].
  - apply res_bind_Ok in Hl as (e & He & Hl). apply res_bind_Ok in Hl as (e' & He' & Hl). injection Hl as <- <-.
    replace (length (fragments r)) with 1%nat by (unfold blen in E; lia). cbn [seq map].
    change ((short ++ [(s0, e')]).*2) with (map snd (short ++ [(s0, e')])). rewrite !map_app, app_assoc. cbn [map snd].
    by rewrite (new_entry_key _ _ _ _ _ _ _ He (or_intror He')).
  - apply res_bind_Ok in Hl as (first & _ & Hl). apply res_bind_Ok in Hl as (new & Hn & Hl). apply res_bind_Ok in Hl as (free & _ & Hl).
    injection Hl as <- <-. cbn [st_rows]. rewrite concat_app, !map_app, (long_entries_keys _ _ _ _ _ _ Hn).
    rewrite <- !app_assoc. apply Permutation_app_head. by rewrite Permutation_app_comm.
Qed.

Lemma concat_insert {A} (l : list (list A)) i old x : l !! i = Some old -> concat (<[i := old ++ [x]]> l) ≡ₚ concat l ++ [x].
Proof.
  revert i. induction l as [|y l IH]; intros [|i] Hi; cbn in Hi |- *; try done.
  - injection Hi as ->. rewrite <- !app_assoc. apply Permutation_app_head. apply Permutation_app_comm.
  - rewrite (IH i Hi). by rewrite app_assoc.
Qed.

Lemma place_short_entries mixed short : forall last st st', place_short mixed last short st = Ok st' ->
  concat (st_rows st') ≡ₚ concat (st_rows st) ++ short.*2.
Proof.
  induction short as [|[s0 e] short IH]; intros last st st'; cbn [place_short fmap list_fmap snd]; [intros [= <-]; by rewrite app_nil_r|].
  intros (st1 & Hp & Hr)%res_bind_Ok. rewrite (IH _ _ _ Hr). change (e :: short.*2) with ([e] ++ short.*2). rewrite app_assoc. apply Permutation_app_tail.
  clear -Hp. unfold place_entry in Hp. apply res_bind_Ok in Hp as ([[space row] st2] & Hsrf & Hp).
  assert (concat (st_rows st2) = concat (st_rows st)) as E.
  { destruct (first_from _ _) as [[sp indices]|]; [apply res_bind_Ok in Hsrf as (i & _ & Hsrf)|]; injection Hsrf as _ _ <-; cbn [st_rows];
      [|rewrite concat_app; cbn [concat app]; rewrite app_nil_r]; by destruct (_ && _). }
  apply res_bind_Ok in Hp as (first & _ & Hp). apply res_bind_Ok in Hp as (old & Hold & Hp). apply res_bind_Ok in Hp as (left & _ & Hp).
  injection Hp as <-. cbn [st_rows]. rewrite <- E. destruct (st_rows st2 !! Z.to_nat row) as [o|] eqn:Ho; [|done]. injection Hold as <-. by apply concat_insert.
Qed.

Lemma laid_keys runs tag_of link_of out : lay_out_runs runs tag_of link_of = Ok out ->
  map entry_key (concat (laid_rows out)) ≡ₚ concat (map (run_keys tag_of) runs).
Proof.
  unfold lay_out_runs. intros H. apply res_bind_Ok in H as (d & _ & H). apply res_bind_Ok in H as ([d1 sm] & _ & H).
  apply res_bind_Ok in H as ([mixed d2] & _ & H). apply res_bind_Ok in H as ([st short] & Hl & H). apply res_bind_Ok in H as (st2 & Hp & H).
  apply res_bind_Ok in H as ([predicted d3] & _ & H). destruct (negb _); [done|]. injection H as <-. cbn [laid_rows].
  apply lay_runs_keys in Hl. apply place_short_entries in Hp. rewrite Hp, merge_sort_Permutation. exact Hl.
Qed.

Lemma run_keys_nodup tag_of runs : NoDup (map tag_of runs.*1) -> NoDup (concat (map (run_keys tag_of) runs)).
Proof.
  induction runs as [|[s r] runs IH]; cbn [map fmap list_fmap fst concat]; [constructor|]. intros [Hs Hn]%NoDup_cons. apply NoDup_app. split_and!.
  - unfold run_keys. cbn [fst snd]. apply NoDup_fmap_2; [|apply NoDup_seq]. intros i j [= E]. lia.
  - intros [t o] (i & [= -> ->] & _)%list_elem_of_fmap Hin. rewrite list_elem_of_In, in_concat in Hin. destruct Hin as (l & Hl%list_elem_of_In & Hin%list_elem_of_In).
    apply list_elem_of_fmap in Hl as ([s' r'] & -> & Hl). unfold run_keys in Hin. cbn [fst] in Hin. apply list_elem_of_fmap in Hin as (j & [= Et _] & _).
    apply Hs. rewrite Et. apply list_elem_of_fmap. exists s'. split; [done|]. apply list_elem_of_fmap. by exists (s', r').
  - by apply IH.
Qed.

(** The one row that holds a fragment *)
Lemma key_row (rows : list (list PageEntry)) : NoDup (map entry_key (concat rows)) -> forall i j ri rj e e',
  rows !! i = Some ri -> rows !! j = Some rj -> e ∈ ri -> e' ∈ rj -> entry_key e = entry_key e' -> i = j.
Proof.
  induction rows as [|row rows IH]; intros Hn i j ri rj e e' Hi Hj He He' Ek; [done|]. cbn [concat] in Hn. rewrite map_app in Hn.
  apply NoDup_app in Hn as (_ & Hdis & Hn).
  assert (forall k rk x, rows !! k = Some rk -> x ∈ rk -> entry_key x ∈ map entry_key (concat rows)) as Hin.
  { intros k rk x Hk Hx. apply list_elem_of_fmap_2. rewrite list_elem_of_In, in_concat. exists rk. split; apply list_elem_of_In; [by eapply list_elem_of_lookup_2|done]. }
  destruct i as [|i], j as [|j]; cbn in Hi, Hj; [done| | |f_equal; by eapply IH].
  - injection Hi as ->. destruct (Hdis (entry_key e)); [by apply list_elem_of_fmap_2|]. rewrite Ek. by eapply Hin.
  - injection Hj as ->. destruct (Hdis (entry_key e')); [by apply list_elem_of_fmap_2|]. rewrite <- Ek. by eapply Hin.
Qed.

(** ** Tables *)

(** [page_shard_readable] with the rows in detail *)
Lemma page_table_run runs tag_of link_of : shard_input runs tag_of link_of -> shard_valid runs tag_of link_of ->
  exists out table, lay_out_runs runs tag_of link_of = Ok out /\ encode_rows (laid_rows out) = Ok table /\
    length table = length (laid_rows out) /\ Forall (fun b => length b = 4096%nat) table /\
    Z.of_nat (length table) <= total_fragments runs /\
    (forall s, is_Some (first_rows out !! s) <-> s ∈ runs.*1) /\
    Forall (fun b => exists entries, decode_page_row b = Ok entries) table /\
    (forall i j bi bj ei ej e e', table !! i = Some bi -> table !! j = Some bj -> decode_page_row bi = Ok ei -> decode_page_row bj = Ok ej ->
      e ∈ ei -> e' ∈ ej -> entry_key e = entry_key e' -> i = j) /\
    forall s r, (s, r) ∈ runs -> exists p, first_rows out !! s = Some (Z.of_nat p + 1) /\
      run_rows (fun i b => table !! i = Some b) (tag_of s) (link_of s) p r.
Proof.
  intros [S1 S2 S3 S4 S5] [V1 V2 V3].
  destruct (lay_out_runs_spec runs tag_of link_of S2 S1 S3 S4 S5) as (out & Hout & Hfr & [Hf He Ht] & Hloc).
  assert (Forall (fun row => exists b, encode_page_row row = Ok b /\ decode_page_row b = Ok row) (laid_rows out)) as Henc.
  { apply Forall_lookup. intros i row Hi. rewrite Forall_lookup in Hf, He, Ht.
    apply (row_ok_encodes runs tag_of link_of S3 S4 V1 V2 V3 row (He i row Hi) (Hf i row Hi) (Ht i row Hi)). }
  destruct (encode_rows_Ok (laid_rows out) Henc) as (table & Htable & Hrows). exists out, table.
  pose proof (encode_rows_bytes _ _ Htable) as H2. pose proof (Forall2_length _ _ _ H2) as Hlen.
  assert (forall i b, table !! i = Some b -> exists row, laid_rows out !! i = Some row /\ decode_page_row b = Ok row) as Hdec.
  { intros i b Hb. destruct (lookup_lt_is_Some_2 (laid_rows out) i) as (row & Hr); [rewrite Hlen; by eapply lookup_lt_Some|].
    exists row. split; [done|]. destruct (Hrows i row Hr) as (b' & Hb' & Hd). rewrite Hb in Hb'. by injection Hb' as <-. }
  split_and!; [done|done|done| | | | | |].
  - apply Forall_lookup. intros i b Hb. destruct (Hdec i b Hb) as (row & _ & Hd).
    unfold decode_page_row in Hd. destruct (Z.eqb_spec (blen b) PAGE_ROW_BYTES) as [E|]; [|done]. unfold blen in E. change PAGE_ROW_BYTES with 4096 in E. lia.
  - unfold blen in *. rewrite <- Hlen. by apply laid_rows_count in Hout.
  - intros s. split; [by eapply first_rows_runs|]. intros ([s' r] & -> & Hin)%list_elem_of_fmap. destruct (Hloc _ _ Hin) as (p & Hp & _). by eexists.
  - apply Forall_lookup. intros i b Hb. destruct (Hdec i b Hb) as (row & _ & Hd). by exists row.
  - intros i j bi bj ei ej e e' Hi Hj Hdi Hdj Hei Hej Ek. destruct (Hdec i bi Hi) as (ri & Hri & Hdi'). destruct (Hdec j bj Hj) as (rj & Hrj & Hdj').
    rewrite Hdi in Hdi'. rewrite Hdj in Hdj'. injection Hdi' as ->. injection Hdj' as ->. eapply (key_row (laid_rows out)); try done.
    rewrite (laid_keys _ _ _ _ Hout). apply run_keys_nodup. apply NoDup_fmap_2_strong; [by intros; apply S2|done].
  - intros s r Hin. destruct (Hloc s r Hin) as (p & Hp & Hl). exists p. split; [done|]. intros i f Hi. destruct (Hl i f Hi) as (row & e & Hrow & Her & Hfe).
    destruct (Hrows _ _ Hrow) as (b & Hb & Hd). exists b, row, e. split_and!; [done|done| |apply Hfe..].
    eapply select_own; [|done|done]. by eapply (Forall_lookup_1 _ _ _ _ Ht).
Qed.
