(* ===== verification/ShardChain.v ===== *)
(** * The chain of runs of a script

    What the page shards of a directory shard hold of a history: its runs, each linked to the
    one before, each pushed out while its page shard was open. *)

From stdpp Require Import sorting.
From S2P Require Import GcsFilter FilterValidate FilterBuild.
From S2P Require Import Prelude BitStream ShardEvents ShardEventProofs ShardCompact ShardRecords ShardPageRow ShardPacking ShardDemand.
From S2P Require Import ShardLayout ShardLayoutProofs DirectoryPlacement DirectoryChoice DirectoryTable.
From S2P Require Import DirectoryTableTheorems ShardBuilder ShardBuilderProofs.

(** ** Heads *)

Definition with_head (index row : Z) (st : ScriptState) : ScriptState :=
  MkScriptState (ss_events st) (ss_inline st) (Some (index mod 2 ^ 8, row)) (ss_runs st + 1).

Lemma set_heads_run index l : forall scripts, NoDup l.*1 ->
  Forall (fun p => exists st, scripts !! p.1 = Some st /\ ss_runs st + 1 < 2 ^ 8) l ->
  exists scripts', set_heads index l scripts = Ok scripts' /\
    (forall s row, (s, row) ∈ l -> scripts' !! s = with_head index row <$> scripts !! s) /\
    (forall s, s ∉ l.*1 -> scripts' !! s = scripts !! s).
Proof.
  induction l as [|[s row] l IH]; intros scripts Hn Hf; cbn [set_heads].
  { exists scripts. split_and!; [done|by intros ? ? ?%not_elem_of_nil|done]. }
  cbn [fmap list_fmap fst] in Hn |- *. apply NoDup_cons in Hn as [Hs Hn]. apply Forall_cons in Hf as [(st & Hst & Hlt) Hf]. cbn [fst] in Hst.
  rewrite Hst. run_ok. rewrite checked_plus_Ok by lia. run_ok.
  destruct (IH (<[s := with_head index row st]> scripts) Hn) as (scripts' & Hrun & H1 & H2).
  { apply Forall_forall. intros [s' row'] Hin. cbn [fst]. rewrite lookup_insert_ne.
    - rewrite Forall_forall in Hf. by apply (Hf _ Hin).
    - intros ->. apply Hs, list_elem_of_fmap. by exists (s', row'). }
  exists scripts'. split; [exact Hrun|]. split.
  - intros s' row' [[= -> ->]|Hin]%elem_of_cons.
    + rewrite (H2 s) by done. by rewrite lookup_insert_eq, Hst.
    + rewrite (H1 s' row' Hin), lookup_insert_ne; [done|]. intros ->. apply Hs, list_elem_of_fmap. by exists (s', row').
  - intros s' [Hne Hs']%not_elem_of_cons. rewrite (H2 s' Hs'). by rewrite lookup_insert_ne.
Qed.

(** ** Chains *)

Section Chain.
Context `{!Sha256} (g : Geometry).

Definition child_salt (c : BuiltChild) : list byte :=
  page_tag_salt (bc_shard_id c) (bc_index c) (bc_end c) (bc_terminal c) (bc_counter c).

Definition link_to (prev : option (Z * Z)) (n : Z) : RunLink :=
  match prev with Some (child, row) => MkRunLink child row n | None => no_link end.

(** The run lies in the page shard, from a row on. *)
Record run_stored (c : BuiltChild) (s : script) (p : nat) (l : RunLink) (r : list TransparentEvent) : Prop := {
  rs_some : r <> [];
  rs_rows : run_rows (fun i b => page_row c g (Z.of_nat i) = Ok b) (script_tag (child_salt c) s) l p r;
  rs_within : Z.of_nat p + blen (fragments r) <= bc_page_rows c;
  rs_limit : bc_page_rows c < u32_limit;
  rs_decodes : forall j, 0 <= j < bc_segments c * page_rows g -> exists bytes entries, page_row c g j = Ok bytes /\ decode_page_row bytes = Ok entries;
  rs_unique : forall i j bytes entries e, (i < length (fragments r))%nat -> 0 <= j -> page_row c g j = Ok bytes -> decode_page_row bytes = Ok entries ->
    e ∈ entries -> pe_tag e = script_tag (child_salt c) s -> ordinal e = Z.of_nat i -> j = Z.of_nat (p + i) }.

(** Each event of the run left when the one two places after it arrived, while the page shard
    was open; [carried] are the two events after the run. *)
Definition pushed_while_open (c : BuiltChild) (r carried : list TransparentEvent) : Prop :=
  forall i e, (i < length r)%nat -> (r ++ carried) !! (i + 2)%nat = Some e -> bc_start c <= event_height e <= bc_end c.

Inductive chain (children : list BuiltChild) (s : script)
    : option (Z * Z) -> Z -> list TransparentEvent -> list TransparentEvent -> Prop :=
| chain_nil carried : chain children s None 0 [] carried
| chain_cons c child p prev n old r carried :
    children !! c = Some child -> run_stored child s p (link_to prev n) r -> length carried = 2%nat ->
    pushed_while_open child r carried -> (forall pc pr, prev = Some (pc, pr) -> pc < Z.of_nat c) ->
    chain children s prev n old (take 2 (r ++ carried)) ->
    chain children s (Some (Z.of_nat c, Z.of_nat p + 1)) (n + 1) (old ++ r) carried.

Lemma fragments_some r : r <> [] -> 0 < blen (fragments r).
Proof.
  intros Hr. enough (forall l cur bytes, cur <> [] \/ l <> [] -> fragments_from cur bytes l <> []) as Hne.
  { specialize (Hne r [] 0 (or_intror Hr)). unfold fragments. destruct (fragments_from [] 0 r) as [|x k]; [done|]. rewrite blen_cons. pose proof (blen_nonneg k). lia. }
  induction l as [|e l IH]; intros cur bytes Hc; cbn [fragments_from].
  - destruct Hc as [Hc|Hc]; [|done]. destruct cur; [done|]. rewrite blen_cons. pose proof (blen_nonneg cur). destruct (Z.eqb_spec (1 + blen cur) 0); [lia|done].
  - destruct (_ <? _); [done|]. apply IH. left. by destruct cur.
Qed.

Lemma chain_grow children child s h n old carried :
  chain children s h n old carried -> chain (children ++ [child]) s h n old carried.
Proof.
  induction 1; [constructor|]. econstructor; try done. rewrite lookup_app_l; [done|]. by eapply lookup_lt_Some.
Qed.

Lemma chain_head_bound children s h n old carried : chain children s h n old carried ->
  0 <= n /\ (n = 0 <-> h = None) /\ forall c row, h = Some (c, row) -> 0 <= c < blen children /\ n <= c + 1 /\ 0 < row < u32_limit /\ length carried = 2%nat.
Proof.
  induction 1 as [|c child p prev n old r carried Hc Hr Hl Hh Hp Hch (IH1 & IH2 & IH3)]; [split_and!; done|].
  split; [lia|]. split; [split; [lia|done]|]. intros c' row' [= <- <-]. pose proof (lookup_lt_Some _ _ _ Hc).
  split; [unfold blen; lia|]. split; [|destruct Hr as [Hs Hw Hin Hlim _ _]; apply fragments_some in Hs; lia]. destruct prev as [[pc pr]|]; [|destruct IH2 as [_ IH2]; rewrite IH2 by done; lia].
  specialize (Hp pc pr eq_refl). destruct (IH3 pc pr eq_refl) as (_ & ? & _). lia.
Qed.

Lemma chain_carried children s h n old carried carried' :
  chain children s h n old carried -> (h <> None -> carried = carried') -> chain children s h n old carried'.
Proof. intros Hc He. destruct Hc; [constructor|]. rewrite <- He by done. by econstructor. Qed.
End Chain.

(** ** Closing a page shard *)

Lemma tags_injective {A B} (f : A -> B) keys : NoDup (map f keys) -> forall x y, x ∈ keys -> y ∈ keys -> f x = f y -> x = y.
Proof.
  intros Hn x y (i & Hi)%list_elem_of_lookup (j & Hj)%list_elem_of_lookup E.
  assert (i = j) as ->; [|by simplify_eq]. eapply (NoDup_lookup _ _ _ (f x) Hn); rewrite list_lookup_fmap; [by rewrite Hi|by rewrite Hj, E].
Qed.

Lemma publishable_pages g : validate_publishable g = Ok () -> page_row_bytes g = 4096 /\ 2048 <= page_rows g.
Proof.
  unfold validate_publishable. intros Hv. destruct (geometry_validate g) as [[]|] eqn:Hg; [|done]. cbn [mbind res_bind] in Hv. split.
  - destruct (negb _); [done|]. by destruct (Z.eqb_spec (page_row_bytes g) PAGE_ROW_BYTES) as [E|E]; [exact E|].
  - unfold geometry_validate in Hg. destruct (too_small (directory_rows g) POLY_LEN); [done|].
    destruct (too_small (page_rows g) POLY_LEN) eqn:Hs; [done|]. apply orb_false_iff in Hs as [Hs _]. apply Z.ltb_ge in Hs. exact Hs.
Qed.

(** A row of a built page shard is the row that was encoded. *)
Lemma page_row_run c g table i b :
  bc_pages c = concat table -> Forall (fun b => length b = 4096%nat) table -> page_row_bytes g = 4096 ->
  Z.of_nat (length table) <= bc_segments c * page_rows g -> table !! i = Some b -> page_row c g (Z.of_nat i) = Ok b.
Proof.
  intros Hp Hw Hb Hs Hi. pose proof (lookup_lt_Some _ _ _ Hi) as Hlt. unfold page_row. rewrite (proj2 (Z.ltb_lt _ _)) by lia. cbn [assert_that]. run_ok.
  rewrite Hb, Hp. unfold blen. rewrite (length_concat_const 4096) by done. destruct (Z.leb_spec (Z.of_nat i * 4096 + 4096) (Z.of_nat (length table * 4096))); [|lia].
  unfold slice. replace (Z.to_nat (Z.of_nat i * 4096 + 4096 - Z.of_nat i * 4096)) with 4096%nat by lia.
  replace (Z.to_nat (Z.of_nat i * 4096)) with (i * 4096)%nat by lia. by rewrite (take_drop_concat 4096 _ _ b).
Qed.

Lemma page_row_cases c g table j bytes :
  bc_pages c = concat table -> Forall (fun b => length b = 4096%nat) table -> page_row_bytes g = 4096 -> 0 <= j ->
  Z.of_nat (length table) <= bc_segments c * page_rows g ->
  page_row c g j = Ok bytes -> table !! Z.to_nat j = Some bytes \/ bytes = zeros 4096.
Proof.
  intros Hp Hw Hb Hj Hs Hr. destruct (table !! Z.to_nat j) as [b|] eqn:Ht.
  - left. pose proof (page_row_run c g table (Z.to_nat j) b Hp Hw Hb Hs Ht) as E. rewrite Z2Nat.id in E by done. congruence.
  - right. apply lookup_ge_None_1 in Ht. unfold page_row in Hr. destruct (assert_that _) as [[]|]; [|done]. cbn [mbind res_bind] in Hr.
    rewrite Hb, Hp in Hr. unfold blen in Hr. rewrite (length_concat_const 4096) in Hr by done.
    destruct (Z.leb_spec (j * 4096 + 4096) (Z.of_nat (length table * 4096))); [lia|]. by injection Hr as <-.
Qed.

Lemma page_row_some c g table j :
  bc_pages c = concat table -> Forall (fun b => length b = 4096%nat) table -> page_row_bytes g = 4096 ->
  0 <= j < bc_segments c * page_rows g -> exists bytes, page_row c g j = Ok bytes.
Proof.
  intros Hp Hw Hb Hj. unfold page_row. rewrite (proj2 (Z.ltb_lt _ _)) by lia. cbn [assert_that]. run_ok. rewrite Hb. destruct (_ <=? _); eauto.
Qed.

Lemma zero_row : decode_page_row (zeros 4096) = Ok [].
Proof. by vm_compute. Qed.

Lemma fragments_at_most r : Forall event_wf r -> blen (fragments r) <= blen r.
Proof.
  intros Hwf. destruct (fragments_spec r) as (Hc & HF & _); [eapply Forall_impl; [exact Hwf|]; apply event_wf_fits|].
  unfold blen. rewrite <- Hc at 2. clear -HF. induction HF as [|f fs [Hf _] _ IH]; [done|]. cbn [concat length]. rewrite length_app.
  destruct f; [done|]. cbn [length]. lia.
Qed.

Lemma total_fragments_sum runs : total_fragments runs = sum_over (fun sr : script * list TransparentEvent => blen (fragments sr.2)) runs.
Proof. done. Qed.

Lemma link_for_view scripts s : link_for scripts s = link_to (ss_head (view scripts s)) (ss_runs (view scripts s)).
Proof. unfold link_for, link_to, view. destruct (scripts !! s) as [st|]; cbn; [|done]. by destruct (ss_head st) as [[]|]. Qed.

(** The builder after the page shards [children] took the blocks [done] *)
Record built `{!Sha256} (b : DirectoryBuilder) (children : list BuiltChild) (done : list Block) : Prop := {
  bt_count : db_children b = blen children;
  bt_states : states_ok (db_scripts b);
  bt_dom : forall s, is_Some (db_scripts b !! s) <-> indexable s /\ history s done <> [];
  bt_script : forall s, indexable s ->
    ss_events (view (db_scripts b) s) = blen (history s done) /\
    blen (ss_inline (view (db_scripts b) s)) = Z.min 2 (blen (history s done)) /\
    exists old, history s done = old ++ ss_inline (view (db_scripts b) s) /\
      chain (db_geometry b) children s (ss_head (view (db_scripts b) s)) (ss_runs (view (db_scripts b) s)) old (ss_inline (view (db_scripts b) s));
  bt_excluded : forall s, s ∈ db_excluded b <-> ~ indexable s /\ history s done <> [] }.

Section Close.
Context `{HS : !Sha256, HL : !Sha256Laws}.

(** The runs of the blocks that a page shard takes *)
Record new_runs (b : DirectoryBuilder) (children : list BuiltChild) (done pre : list Block) (b1 : DirectoryBuilder)
    (runs : gmap script (list TransparentEvent)) : Prop := {
  nr_built : built b children done;
  nr_absorbed : absorbed b ∅ pre b1 runs;
  nr_blocks : blocks_ok (done ++ pre);
  nr_total : total_events (done ++ pre) < u32_limit;
  nr_max : blen children < 32 }.

Lemma tag_length salt s : blen (script_tag salt s) = 14.
Proof using Type*.
  unfold script_tag, tag_of_key, slice. unfold blen. rewrite length_take. cbn [drop]. pose proof (sha256_length (SCRIPT_TAG_DOMAIN ++ salt ++ concat [le_split 2 (blen s); s])) as Hl.
  unfold blen in Hl. change (Z.to_nat (TAG_BYTES - 0)) with 14%nat. change (Z.to_nat 0) with 0%nat. rewrite drop_0. lia.
Qed.

Section Runs.
Context (b : DirectoryBuilder) (children : list BuiltChild) (done pre : list Block) (b1 : DirectoryBuilder).
Context (runs : gmap script (list TransparentEvent)) (Hnr : new_runs b children done pre b1 runs).

(** The history of a script is cut in order: what the page shards hold, the new run, the rest *)
Lemma run_cut s : indexable s ->
  exists old, history s (done ++ pre) = old ++ run_of runs s ++ ss_inline (view (db_scripts b1) s) /\
    history s done = old ++ ss_inline (view (db_scripts b) s) /\
    chain (db_geometry b) children s (ss_head (view (db_scripts b1) s)) (ss_runs (view (db_scripts b1) s)) old (ss_inline (view (db_scripts b) s)) /\
    ss_inline (view (db_scripts b) s) ++ history s pre = run_of runs s ++ ss_inline (view (db_scripts b1) s) /\
    ss_events (view (db_scripts b1) s) = blen (history s (done ++ pre)) /\
    blen (ss_inline (view (db_scripts b1) s)) = Z.min 2 (blen (history s (done ++ pre))).
Proof using Hnr.
  destruct Hnr as [Hb Ha _ _ _]. intros Hs. destruct (bt_script _ _ _ Hb s Hs) as (He & Hi & old & Hold & Hch).
  destruct (g_taken _ _ _ _ _ (as_grown _ _ _ _ _ Ha) s Hs) as (pushed & [T1 T2 T3 T4 T5] & Hrun). unfold run_of at 2 in Hrun. rewrite lookup_empty in Hrun. cbn in Hrun.
  exists old. rewrite history_app, T4, T5, T1, T3, He, blen_app, Hi, Hrun. pose proof (blen_nonneg (history s done)). pose proof (blen_nonneg (history s pre)).
  split_and!; [|done|done|done|lia|lia]. rewrite Hold at 1. by rewrite <- app_assoc, T2.
Qed.

Lemma run_lookup s r : (s, r) ∈ in_order runs -> r <> [] /\ indexable s /\ run_of runs s = r.
Proof using Hnr.
  intros Hin%in_order_elem. destruct Hnr as [_ Ha _ _ _]. destruct (as_runs _ _ _ _ _ Ha s r Hin). split_and!; [done|done|]. unfold run_of. by rewrite Hin.
Qed.

(** After a run there are two newer events. *)
Lemma run_inline s r : (s, r) ∈ in_order runs -> length (ss_inline (view (db_scripts b1) s)) = 2%nat.
Proof using Hnr.
  intros Hin. destruct (run_lookup s r Hin) as (Hr & Hs & E). destruct (run_cut s Hs) as (old & H1 & H2 & Hch & H3 & _ & H4).
  destruct Hnr as [Hb Ha _ _ _]. destruct (bt_script _ _ _ Hb s Hs) as (_ & Hi & _). rewrite H1, E in H4. rewrite !blen_app in H4.
  pose proof (blen_nonneg old). destruct r as [|x r]; [done|]. rewrite blen_cons in H4. pose proof (blen_nonneg r).
  destruct (decide (blen (ss_inline (view (db_scripts b1) s)) = 2)) as [E2|Hne]; [unfold blen in E2; lia|]. exfalso.
  pose proof (blen_nonneg (ss_inline (view (db_scripts b1) s))) as Hz. lia.
Qed.

Lemma runs_good : Forall (fun sr => Forall good_event sr.2 /\ out_of_order sr.2 = false /\ blen sr.2 <= blen (history sr.1 (done ++ pre))) (in_order runs).
Proof using Hnr.
  apply Forall_forall. intros [s r] Hin. cbn [fst snd]. destruct (run_lookup s r Hin) as (Hr & Hs & E). destruct (run_cut s Hs) as (old & H1 & _). rewrite E in H1.
  destruct Hnr as [_ _ Hok _ _]. pose proof (history_good s _ Hok) as Hg. pose proof (history_sorted s _ Hok) as Hso. rewrite H1 in Hg, Hso |- *.
  apply Forall_app in Hg as [_ Hg]. apply Forall_app in Hg as [Hg _]. apply sorted_app_inv in Hso as [_ Hso]. apply sorted_app_inv in Hso as [Hso _].
  split_and!; [done|by apply in_order_sorted|]. rewrite !blen_app. pose proof (blen_nonneg old). pose proof (blen_nonneg (ss_inline (view (db_scripts b1) s))). lia.
Qed.

Lemma runs_limit : total_fragments (in_order runs) < u32_limit.
Proof using Hnr.
  pose proof runs_good as Hg. destruct Hnr as [_ _ _ Hlim _].
  enough (total_fragments (in_order runs) <= total_events (done ++ pre)) by lia. rewrite total_fragments_sum.
  pose proof (history_sum (in_order runs).*1 (done ++ pre) (in_order_nodup runs)) as Hsum. etrans; [|exact Hsum].
  assert (sum_over (fun s => blen (history s (done ++ pre))) (in_order runs).*1 = sum_over (fun sr : script * list TransparentEvent => blen (history sr.1 (done ++ pre))) (in_order runs)) as ->.
  { clear. unfold sum_over. induction (in_order runs) as [|x l IH]; [done|]. cbn [fmap list_fmap foldr]. by rewrite IH. }
  apply sum_over_le. intros [s r] Hin. rewrite Forall_forall in Hg. destruct (Hg _ Hin) as (H1 & _ & H2). cbn [fst snd] in *.
  etrans; [apply fragments_at_most|exact H2]. eapply Forall_impl; [exact H1|]. by intros e [].
Qed.

Lemma links_ok s : indexable s -> link_well_formed (link_for (db_scripts b1) s) = true /\ link_wf (link_for (db_scripts b1) s).
Proof using Hnr.
  intros Hs. destruct (run_cut s Hs) as (old & _ & _ & Hch & _). rewrite link_for_view. destruct Hnr as [_ _ _ _ Hmax].
  apply chain_head_bound in Hch as (H0 & Hn & Hh). destruct (ss_head _) as [[c row]|]; cbn [link_to].
  - destruct (Hh c row eq_refl) as (Hc & Hle & Hrow & _). unfold link_well_formed, link_wf, width, MAX_PAGE_CHILDREN. cbn [prev_row older_runs prev_child].
    rewrite (proj2 (Z.eqb_neq row 0)) by lia. assert (ss_runs (view (db_scripts b1) s) <> 0) by (rewrite Hn; done).
    rewrite (proj2 (Z.eqb_neq _ 0)) by done. rewrite (proj2 (Z.ltb_lt c 32)) by lia. split; [done|]. unfold u32_limit in *. lia.
  - done.
Qed.

(** The runs meet what [lay_out_runs] requires, for tags without a collision. *)
Lemma shard_runs salt : NoDup (map (script_tag salt) (in_order runs).*1) ->
  shard_input (in_order runs) (script_tag salt) (link_for (db_scripts b1)) /\ shard_valid (in_order runs) (script_tag salt) (link_for (db_scripts b1)).
Proof using All.
  intros Hn. pose proof runs_good as Hg. destruct Hnr as [_ _ _ Hlim _].
  assert (forall s, s ∈ (in_order runs).*1 -> indexable s) as Hidx.
  { intros s ([s' r] & -> & Hin)%list_elem_of_fmap. by apply (run_lookup s' r). }
  split; constructor.
  - apply in_order_nodup.
  - by apply tags_injective.
  - apply Forall_forall. intros [s r] Hin. cbn [snd]. destruct (run_lookup s r Hin) as (Hr & _ & _). rewrite Forall_forall in Hg. destruct (Hg _ Hin) as (H1 & _ & H2).
    cbn [fst snd] in *. split_and!; [done|eapply Forall_impl; [exact H1|]; by intros e []|]. pose proof (history_count s (done ++ pre)). lia.
  - intros s Hs%Hidx. by apply links_ok.
  - apply runs_limit.
  - intros s _. apply tag_length.
  - intros s Hs%Hidx. by apply links_ok.
  - eapply Forall_impl; [exact Hg|]. intros [s r] (H1 & H2 & _). cbn [snd] in *. split; [|done]. eapply Forall_impl; [exact H1|]. by intros e (_ & ? & ?).
Qed.

Lemma run_state s r : (s, r) ∈ in_order runs -> exists st, db_scripts b1 !! s = Some st /\ ss_runs st + 1 < 2 ^ 8.
Proof using Hnr.
  intros Hin. pose proof (run_inline s r Hin) as Hi. destruct (run_lookup s r Hin) as (_ & Hs & _). destruct (run_cut s Hs) as (old & _ & _ & Hch & _).
  destruct Hnr as [_ _ _ _ Hmax]. unfold view in Hi, Hch. destruct (db_scripts b1 !! s) as [st|]; [|done]. cbn [default from_option id] in *. unfold id in *. exists st. split; [done|].
  apply chain_head_bound in Hch as (H0 & Hn & Hh). destruct (ss_head st) as [[c row]|]; [destruct (Hh c row eq_refl) as (? & ? & _); lia|]. rewrite (proj2 Hn eq_refl). lia.
Qed.

(** The state of a script that has a new run, and that of the others *)
Section NewChild.
Context (child : BuiltChild) (start : Z) (scripts' : gmap script ScriptState) (first : gmap script Z).
Context (Hstart : Forall (fun bl => start <= fst bl <= bc_end child) pre) (Hcs : bc_start child = start).
Context (Hfirst : forall s, is_Some (first !! s) <-> s ∈ (in_order runs).*1).
Context (Hset : forall s row, first !! s = Some row -> scripts' !! s = with_head (blen children) row <$> db_scripts b1 !! s).
Context (Hrest : forall s, first !! s = None -> scripts' !! s = db_scripts b1 !! s).
Context (Hstored : forall s r, (s, r) ∈ in_order runs -> exists p, first !! s = Some (Z.of_nat p + 1) /\
  run_stored (db_geometry b) child s p (link_for (db_scripts b1) s) r).

Lemma pushed_open s r : (s, r) ∈ in_order runs -> pushed_while_open child r (ss_inline (view (db_scripts b1) s)).
Proof using All.
  intros Hin i e Hi He. destruct (run_lookup s r Hin) as (Hr & Hs & E). destruct (run_cut s Hs) as (old & _ & _ & _ & Hcut & _). rewrite E in Hcut.
  rewrite <- Hcut in He. destruct Hnr as [Hb _ Hok _ _]. pose proof (bt_states _ _ _ Hb s) as Hinl. unfold inline_ok, blen in Hinl.
  rewrite lookup_app_r in He by lia. apply list_elem_of_lookup_2 in He. apply blocks_ok_app in Hok as [_ Hok].
  destruct (history_height s pre e Hok He) as (bl & Hbl & ->). rewrite Forall_forall in Hstart. specialize (Hstart bl Hbl). lia.
Qed.

Lemma chain_after s : indexable s ->
  exists old, history s (done ++ pre) = old ++ ss_inline (view scripts' s) /\
    ss_events (view scripts' s) = ss_events (view (db_scripts b1) s) /\ ss_inline (view scripts' s) = ss_inline (view (db_scripts b1) s) /\
    chain (db_geometry b) (children ++ [child]) s (ss_head (view scripts' s)) (ss_runs (view scripts' s)) old (ss_inline (view scripts' s)).
Proof using All.
  intros Hs. destruct (run_cut s Hs) as (old & H1 & H2 & Hch & Hcut & _ & Hlen).
  pose proof (chain_head_bound _ _ _ _ _ _ _ Hch) as (_ & _ & Hh). destruct (first !! s) as [row|] eqn:Hf.
  - assert (s ∈ (in_order runs).*1) as Hin by (apply Hfirst; by eexists). apply list_elem_of_fmap in Hin as ([s' r] & -> & Hin). cbn [fst] in *.
    destruct (run_lookup s' r Hin) as (Hr & _ & E). destruct (run_state s' r Hin) as (st & Hst & _).
    destruct (Hstored s' r Hin) as (p & Hp & Hsto). rewrite Hf in Hp. injection Hp as ->.
    assert (view (db_scripts b1) s' = st) as Ev by (unfold view; by rewrite Hst).
    assert (view scripts' s' = with_head (blen children) (Z.of_nat p + 1) st) as -> by (unfold view; by rewrite (Hset _ _ Hf), Hst).
    rewrite link_for_view in Hsto. rewrite Ev in *. rewrite E in *. unfold with_head. cbn [ss_events ss_inline ss_head ss_runs].
    exists (old ++ r). split_and!; [by rewrite H1, <- app_assoc|done|done|].
    rewrite Z.mod_small by (destruct Hnr as [_ _ _ _ Hmax]; pose proof (blen_nonneg children); lia).
    change (blen children) with (Z.of_nat (length children)). econstructor.
    + by rewrite lookup_app_r, Nat.sub_diag by lia.
    + exact Hsto.
    + pose proof (run_inline s' r Hin) as Hi. by rewrite Ev in Hi.
    + pose proof (pushed_open s' r Hin) as Hpo. by rewrite Ev in Hpo.
    + intros pc pr Eh. destruct (Hh pc pr Eh) as ((_ & ?) & _). unfold blen in *. lia.
    + apply chain_grow. eapply chain_carried; [exact Hch|]. intros Hne. destruct (ss_head st) as [[pc pr]|]; [|done].
      destruct (Hh pc pr eq_refl) as (_ & _ & _ & Hl2). rewrite <- Hcut. by rewrite take_app_length'.
  - assert (run_of runs s = []) as E.
    { unfold run_of. destruct (runs !! s) as [r|] eqn:Er; [|done]. exfalso. assert (is_Some (first !! s)) as [? Hx]; [|by rewrite Hf in Hx].
      apply Hfirst, in_order_keys. by eexists. }
    rewrite E in *. cbn [app] in *. assert (view scripts' s = view (db_scripts b1) s) as -> by (unfold view; by rewrite (Hrest s Hf)).
    exists old. split_and!; [done..|]. apply chain_grow. eapply chain_carried; [exact Hch|]. intros Hne. destruct (ss_head (view (db_scripts b1) s)) as [[pc pr]|]; [|done].
    destruct (Hh pc pr eq_refl) as (_ & _ & _ & Hl2). assert (blen (ss_inline (view (db_scripts b1) s)) <= 2) as Hle by lia.
    rewrite <- Hcut in Hle |- *. rewrite blen_app in Hle. destruct (history s pre) as [|x l]; [by rewrite app_nil_r|].
    rewrite blen_cons in Hle. pose proof (blen_nonneg l). unfold blen in Hle at 1. lia.
Qed.
End NewChild.
End Runs.
End Close.

(** ** [close_child] *)

Lemma resolve_page_run `{!Sha256} shard_id child end_height terminal scripts : Forall indexable scripts ->
  match resolve_page_tag_salt shard_id child end_height terminal scripts with
  | Ok (counter, salt) => counter ∈ salt_counters /\ salt = page_tag_salt shard_id child end_height terminal counter /\ NoDup (map (script_tag salt) scripts)
  | Err (Failed e) => e = counter_exceeded /\
      Forall (fun c => ~ NoDup (map (script_tag (page_tag_salt shard_id child end_height terminal c)) scripts)) salt_counters
  | Err (Panicked _) => False
  end.
Proof.
  intros Hs. unfold resolve_page_tag_salt. assert (forallb taggable scripts = true) as ->.
  { apply forallb_forall. intros s Hin%list_elem_of_In. rewrite Forall_forall in Hs. specialize (Hs s Hin). unfold indexable in Hs. change MAX_SCRIPT_BYTES with 40 in Hs.
    apply Z.ltb_lt. lia. }
  cbn [assert_that]. run_ok. destruct (resolve_salt _ _ _ _) as [[counter salt]|] eqn:E; cbn [ok_or fails].
  - apply resolve_salt_Some in E as (-> & ? & ?). done.
  - split; [done|]. by apply resolve_salt_None.
Qed.

(** What the page shard has of the builder *)
Record child_of (b : DirectoryBuilder) (index : Z) (end_height : Z) (terminal : list byte) (sealed : bool) (c : BuiltChild) : Prop := {
  co_shard : bc_shard_id c = db_shard_id b; co_index : bc_index c = index; co_end : bc_end c = end_height;
  co_terminal : bc_terminal c = terminal; co_sealed : bc_sealed c = sealed; co_counter : bc_counter c ∈ salt_counters;
  co_start : exists bl, head (db_pending b) = Some bl /\ bc_start c = fst bl;
  co_rows : 0 <= bc_page_rows c < u32_limit /\ bc_page_rows c <= bc_segments c * page_rows (db_geometry b) /\
    (bc_page_rows c = 0 <-> bc_segments c = 0) /\ 0 <= bc_segments c < u32_limit }.

Lemma first_le (pending : list Block) pre post bl : pending = pre ++ post -> head pending = Some bl -> StronglySorted (fun a b : Block => a.1 < b.1) pending ->
  Forall (fun b => fst bl <= fst b) pre.
Proof.
  intros -> Hh Hs. destruct pre as [|x pre]; [constructor|]. cbn in Hh, Hs. injection Hh as ->. apply StronglySorted_inv in Hs as [_ Hs].
  apply Forall_app in Hs as [Hs _]. constructor; [done|]. eapply Forall_impl; [exact Hs|]. cbn. intros. lia.
Qed.

(** The segments of a page shard hold its rows. *)
Lemma segments_run (rows : list (list PageEntry)) per : 2048 <= per -> blen rows < u32_limit ->
  exists segments, (if bool_decide (rows = []) then Ok 0 else panics (segments_for (blen rows) per)) = Ok (E := fault BuildError) segments /\
    blen rows <= segments * per /\ (blen rows = 0 <-> segments = 0) /\ 0 <= segments < u32_limit.
Proof.
  intros Hper Hsm. pose proof (blen_nonneg rows) as H0. case_bool_decide as El; [exists 0; rewrite El in *; split_and!; (done || lia)|].
  destruct (segments_cover (blen rows) per) as (n & -> & Hn1 & Hn2 & Hn3 & _); [lia|unfold u32_limit in *; nia|].
  assert (blen rows <> 0) as Hnz by (destruct rows as [|x rows]; [done|rewrite blen_cons; pose proof (blen_nonneg rows); lia]).
  exists n. split; [done|]. split; [done|]. split; [lia|]. destruct Hn3 as [?|Hn3]; [lia|]. unfold u32_limit in *. nia.
Qed.

(** The runs are stored in a page shard with these rows. *)
Lemma child_stored `{!Sha256} g c s r p l table : r <> [] -> bc_pages c = concat table -> Forall (fun b => length b = 4096%nat) table ->
  page_row_bytes g = 4096 -> Z.of_nat (length table) <= bc_segments c * page_rows g -> bc_page_rows c = blen table -> blen table < u32_limit ->
  Forall (fun b => exists entries, decode_page_row b = Ok entries) table ->
  (forall i j bi bj ei ej e e', table !! i = Some bi -> table !! j = Some bj -> decode_page_row bi = Ok ei -> decode_page_row bj = Ok ej ->
    e ∈ ei -> e' ∈ ej -> entry_key e = entry_key e' -> i = j) ->
  run_rows (fun i b => table !! i = Some b) (script_tag (child_salt c) s) l p r -> run_stored g c s p l r.
Proof.
  intros Hne Hp Hw Hb Hs Hpr Hlim Hdec Huni Hr. constructor; [done| | |by rewrite Hpr| |].
  - intros i f Hf. destruct (Hr i f Hf) as (bytes & es & e & Hb1 & Hr2). exists bytes, es, e. split; [|done]. by eapply page_row_run.
  - pose proof (fragments_some r Hne) as Hfs. set (k := pred (length (fragments r))).
    destruct (lookup_lt_is_Some_2 (fragments r) k) as (f & Hf); [unfold k, blen in *; lia|].
    destruct (Hr k f Hf) as (bytes & _ & _ & Ht & _). apply lookup_lt_Some in Ht. rewrite Hpr. unfold k, blen in *. lia.
  - intros j Hj. destruct (page_row_some c g table j Hp Hw Hb Hj) as (bytes & Hbytes). exists bytes.
    destruct (page_row_cases c g table j bytes Hp Hw Hb ltac:(lia) Hs Hbytes) as [Ht| ->]; [|exists []; by rewrite zero_row].
    destruct (Forall_lookup_1 _ _ _ _ Hdec Ht) as (entries & He). by exists entries.
  - intros i j bytes entries e Hi Hj Hrow Hd He Htag Hord. destruct (page_row_cases c g table j bytes Hp Hw Hb Hj Hs Hrow) as [Ht| ->].
    + destruct (lookup_lt_is_Some_2 _ _ Hi) as (f & Hf). destruct (Hr i f Hf) as (b0 & es & e0 & Hb0 & Hd0 & Hfil & Ho & _).
      assert (e0 ∈ filter (fun e => pe_tag e = script_tag (child_salt c) s) es) as He0 by (rewrite Hfil; by left). apply list_elem_of_filter in He0 as [Ht0 He0].
      assert (Z.to_nat j = (p + i)%nat); [|lia]. eapply (Huni _ _ _ _ _ _ e e0); try done. unfold entry_key. congruence.
    + rewrite zero_row in Hd. injection Hd as <-. by apply not_elem_of_nil in He.
Qed.

Lemma close_child_run `{HS : !Sha256, HL : !Sha256Laws} b children done end_height terminal sealed :
  built b children done -> blocks_ok (done ++ db_pending b) -> total_events (done ++ db_pending b) < u32_limit ->
  validate_publishable (db_geometry b) = Ok () ->
  match close_child b end_height terminal sealed with
  | Ok (child, b') => exists pre post, db_pending b = pre ++ post /\ pre <> [] /\ Forall (fun bl => fst bl <= end_height) pre /\
      (forall bl, head post = Some bl -> end_height < fst bl) /\ built b' (children ++ [child]) (done ++ pre) /\ db_pending b' = post /\
      same_builder b b' /\ blen children < 32 /\ child_of b (blen children) end_height terminal sealed child
  | Err (Failed e) => 32 <= blen children \/ (forall bl, head (db_pending b) = Some bl -> end_height < fst bl) \/
      (exists last, db_last b = Some last /\ last < end_height) \/
      (e = counter_exceeded /\ exists scripts, NoDup scripts /\ Forall indexable scripts /\
        Forall (fun c => ~ NoDup (map (script_tag (page_tag_salt (db_shard_id b) (blen children) end_height terminal c)) scripts)) salt_counters)
  | Err (Panicked _) => False
  end.
Proof.
  intros Hb Hok Hlim Hg. unfold close_child. rewrite (bt_count _ _ _ Hb). change MAX_PAGE_CHILDREN with 32.
  destruct (Z.leb_spec 32 (blen children)) as [Hmax|Hmax]; [by left|].
  destruct (db_pending b) as [|[h ev] rest] eqn:Hpend; [right; left; by intros|].
  destruct (Z.leb_spec h end_height) as [Hle|Hgt]; [|right; left; by intros bl [= <-]]. run_ok. rewrite <- Hpend in Hok, Hlim |- *.
  destruct (absorb_until_run end_height (db_pending b) b ∅) as (pre & post & b1 & runs & -> & Hsplit & Hpre & Hpost & Ha & Hp1).
  { apply Hb. } { intros s r Hr. by rewrite lookup_empty in Hr. }
  { intros s Hs. destruct (bt_script _ _ _ Hb s Hs) as (-> & _). rewrite <- blen_app, <- history_app. pose proof (history_count s (done ++ db_pending b)). lia. }
  run_ok. destruct (as_same _ _ _ _ _ Ha) as [E1 E2 E3 E4 E5 E6]. rewrite E6, E1.
  destruct (match db_last b with Some last => last <? end_height | None => false end) eqn:Hlast.
  { right; right; left. destruct (db_last b) as [last|]; [|done]. apply Z.ltb_lt in Hlast. eauto. }
  assert (new_runs b children done pre b1 runs) as Hnr.
  { rewrite Hsplit, app_assoc in Hok, Hlim. destruct (blocks_ok_app _ _ Hok) as [Hok1 _]. constructor; [done|done|done| |done].
    rewrite total_events_app in Hlim. pose proof (total_events_nonneg post). lia. }
  assert (Forall indexable (in_order runs).*1) as Hidx.
  { apply Forall_forall. intros s ([s' r] & -> & Hin)%list_elem_of_fmap. by apply (run_lookup _ _ _ _ _ _ Hnr s' r). }
  pose proof (resolve_page_run (db_shard_id b) (blen children) end_height terminal _ Hidx) as Hres.
  destruct (resolve_page_tag_salt _ _ _ _ _) as [[counter salt]|[e|]]; run_ok; [|right; right; right; destruct Hres as [-> Hres]; split; [done|]|done].
  2: { exists (in_order runs).*1. split_and!; [apply in_order_nodup|done|done]. }
  destruct Hres as (Hcounter & Hsalt & Hnodup). destruct (shard_runs _ _ _ _ _ _ Hnr salt Hnodup) as [Hin Hval].
  destruct (page_table_run _ _ _ Hin Hval) as (out & table & -> & Henc & Hlen & Hw & Hrows & Hfirst & Hdecs & Huni & Hruns). run_ok.
  destruct (set_heads_run (blen children) (in_order (first_rows out)) (db_scripts b1)) as (scripts' & -> & Hset & Hrest).
  { apply in_order_nodup. }
  { apply Forall_forall. intros [s row] Hs%in_order_elem. cbn [fst]. assert (s ∈ (in_order runs).*1) as Hk by (apply Hfirst; by eexists).
    apply list_elem_of_fmap in Hk as ([s' r] & -> & Hk). by apply (run_state _ _ _ _ _ _ Hnr s' r). }
  run_ok. rewrite E2. destruct (publishable_pages _ Hg) as [Hwidth Hper]. pose proof (runs_limit _ _ _ _ _ _ Hnr) as Htot.
  destruct (segments_run (laid_rows out) (page_rows (db_geometry b))) as (segments & Hseg & Hcover & Hzero & Hsl); [done|unfold blen in *; lia|].
  rewrite Hseg. run_ok. rewrite Henc. cbn [lift_record]. run_ok.
  set (child := MkBuiltChild _ _ _ _ _ _ _ _ _ _ _ _ _).
  assert (forall s r, (s, r) ∈ in_order runs -> exists p, first_rows out !! s = Some (Z.of_nat p + 1) /\
    run_stored (db_geometry b) child s p (link_for (db_scripts b1) s) r) as Hstored.
  { intros s r Hsr. destruct (Hruns s r Hsr) as (p & Hp & Hr). exists p. split; [done|]. destruct (run_lookup _ _ _ _ _ _ Hnr s r Hsr) as (Hne & _ & _).
    apply (child_stored _ child s r p _ table); try done; [unfold blen in *; cbn [child bc_segments]; lia|cbn [child bc_page_rows]; unfold blen; by rewrite Hlen|unfold blen in *; lia|].
    by rewrite Hsalt in Hr. }
  assert (forall s, indexable s -> exists old, history s (done ++ pre) = old ++ ss_inline (view scripts' s) /\
    ss_events (view scripts' s) = ss_events (view (db_scripts b1) s) /\ ss_inline (view scripts' s) = ss_inline (view (db_scripts b1) s) /\
    chain (db_geometry b) (children ++ [child]) s (ss_head (view scripts' s)) (ss_runs (view scripts' s)) old (ss_inline (view scripts' s))) as Hchain.
  { intros s Hs. eapply (chain_after b children done pre b1 runs Hnr child h scripts' (first_rows out)); try done.
    - assert (Forall (fun bl => fst (h, ev) <= fst bl) pre) as Hf.
      { eapply first_le; [exact Hsplit|by rewrite Hpend|]. by apply (blocks_ok_app done). }
      apply Forall_forall. intros bl Hbl. rewrite Forall_forall in Hf, Hpre. split; [by apply Hf|by apply Hpre].
    - intros s' row Hrow. apply Hset. by apply in_order_elem.
    - intros s' Hrow. apply Hrest. rewrite in_order_keys, Hrow. by intros [? ?]. }
  assert (forall s, ss_inline (view scripts' s) = ss_inline (view (db_scripts b1) s) /\ (is_Some (scripts' !! s) <-> is_Some (db_scripts b1 !! s))) as Hsame.
  { intros s. unfold view. destruct (first_rows out !! s) as [row|] eqn:Hf.
    - rewrite (Hset s row) by (by apply in_order_elem). destruct (db_scripts b1 !! s); cbn; [|done]. split; [done|]. by split; eexists.
    - rewrite Hrest; [done|]. rewrite in_order_keys, Hf. by intros [? ?]. }
  exists pre, post. split_and!; try done.
  - intros ->. rewrite Hpend in Hsplit. cbn in Hsplit. subst post. specialize (Hpost _ eq_refl). cbn in Hpost. lia.
  - destruct (as_grown _ _ _ _ _ Ha) as [_ Hdom]. constructor; cbn [with_child db_children db_scripts db_geometry db_excluded].
    + rewrite (as_children _ _ _ _ _ Ha), (bt_count _ _ _ Hb), blen_app. by change (blen [child]) with 1.
    + intros s. unfold inline_ok. rewrite (proj1 (Hsame s)). apply (as_states _ _ _ _ _ Ha).
    + intros s. rewrite (proj2 (Hsame s)), Hdom, (bt_dom _ _ _ Hb), history_app. destruct (history s done); cbn; naive_solver.
    + intros s Hs. destruct (run_cut _ _ _ _ _ _ Hnr s Hs) as (_ & _ & _ & _ & _ & R1 & R2). destruct (Hchain s Hs) as (old & C1 & C2 & C3 & C4).
      rewrite C2, C3, E2. rewrite C3 in C1, C4. split_and!; [done|done|]. exists old. by split.
    + intros s. rewrite (as_excluded _ _ _ _ _ Ha), (bt_excluded _ _ _ Hb), history_app. destruct (history s done); cbn; naive_solver.
  - constructor; cbn; try done; [rewrite Hpend; eauto|]. pose proof (blen_nonneg (laid_rows out)).
    assert (blen (laid_rows out) < u32_limit) by (unfold blen in *; lia). split_and!; (done || lia).
Qed.
