(* ===== verification/ShardPublish.v ===== *)
(** * A published directory shard

    [build_directory_shard] from the blocks to the tables: every page shard takes its blocks,
    and the directory holds an entry for every script, which points at its newest run. *)

From stdpp Require Import sorting.
From S2P Require Import GcsFilter FilterValidate FilterBuild.
From S2P Require Import Prelude BitStream ShardEvents ShardEventProofs ShardCompact ShardRecords ShardPageRow ShardPacking ShardDemand.
From S2P Require Import ShardLayout ShardLayoutProofs DirectoryPlacement DirectoryPlaceTheorems DirectoryChoice DirectoryTable.
From S2P Require Import DirectoryTableTheorems ShardBuilder ShardBuilderProofs ShardChain.

(** ** The input *)

(** Consecutive blocks of good events, and page shards that end at ascending heights, the last
    at the last block *)
Record shard_blocks (blocks : list Block) (child_ends : list Z) (start : Z) : Prop := {
  sk_some : blocks <> [];
  sk_heights : map fst blocks = seqZ start (blen blocks);
  sk_events : Forall (fun bl => Forall (fun se => good_event se.2 /\ event_height se.2 = bl.1) bl.2) blocks;
  sk_total : total_events blocks < u32_limit;
  sk_ends : StronglySorted Z.lt child_ends;
  sk_last : last child_ends = Some (start + blen blocks - 1);
  sk_first : Forall (fun e => start <= e) child_ends;
  sk_children : blen child_ends <= 32 }.

Lemma heights_sorted blocks start : map fst blocks = seqZ start (blen blocks) -> StronglySorted (fun a b : Block => a.1 < b.1) blocks.
Proof.
  revert start. induction blocks as [|bl blocks IH]; intros start Hh; [constructor|]. rewrite blen_cons in Hh. pose proof (blen_nonneg blocks) as H0.
  rewrite seqZ_cons in Hh by lia. cbn [map] in Hh. injection Hh as Hb Hh. replace (Z.pred (1 + blen blocks)) with (blen blocks) in Hh by lia.
  constructor; [by eapply IH|]. apply Forall_forall. intros b Hin.
  assert (fst b ∈ map fst blocks) as Hf by (by apply list_elem_of_fmap_2). rewrite Hh, elem_of_seqZ in Hf. lia.
Qed.

Lemma shard_blocks_ok blocks ends start : shard_blocks blocks ends start -> blocks_ok blocks.
Proof. intros [H1 H2 H3 H4 H5 H6 H7 H8]. constructor; [done|by eapply heights_sorted]. Qed.

(** ** Pushing *)

Lemma push_blocks_run blocks : forall b start,
  map fst blocks = seqZ start (blen blocks) -> Forall (fun bl => Forall (fun se : script * TransparentEvent => event_height se.2 = bl.1) bl.2) blocks ->
  (forall l, db_last b = Some l -> l + 1 = start) ->
  exists b', push_blocks b blocks = Ok b' /\ db_pending b' = db_pending b ++ blocks /\
    (blocks <> [] -> db_last b' = Some (start + blen blocks - 1)) /\ (blocks <> [] -> db_start b' = Some (default start (db_start b))) /\
    db_shard_id b' = db_shard_id b /\ db_geometry b' = db_geometry b /\ db_genesis b' = db_genesis b /\ db_profile b' = db_profile b /\
    db_scripts b' = db_scripts b /\ db_excluded b' = db_excluded b /\ db_children b' = db_children b.
Proof.
  induction blocks as [|[h events] blocks IH]; intros b start Hh Hf Hl; cbn [push_blocks].
  { exists b. rewrite app_nil_r. split_and!; done. }
  rewrite blen_cons in Hh |- *. pose proof (blen_nonneg blocks) as H0. rewrite seqZ_cons in Hh by lia. cbn [map fst] in Hh. injection Hh as -> Hh.
  replace (Z.pred (1 + blen blocks)) with (blen blocks) in Hh by lia. apply Forall_cons in Hf as [He Hf]. cbn [snd fst] in He.
  assert (push_block b (start, events) = Ok (MkBuilder (db_shard_id b) (db_geometry b) (db_genesis b) (db_profile b)
    (Some (default start (db_start b))) (Some start) (db_pending b ++ [(start, events)])
    (db_scripts b) (db_excluded b) (db_events b) (db_txids b) (db_children b))) as ->.
  { unfold push_block. assert (match db_last b with Some last => negb (start =? last + 1) | None => false end = false) as ->.
    { destruct (db_last b) as [l|]; [|done]. rewrite <- (Hl l eq_refl). by rewrite Z.eqb_refl. }
    assert (existsb (fun se : script * TransparentEvent => negb (event_height (snd se) =? start)) events = false) as ->; [|done].
    clear -He. induction He as [|x l Hx _ IH]; [done|]. cbn. by rewrite Hx, Z.eqb_refl. }
  cbn [mbind res_bind]. match goal with |- context [push_blocks ?x blocks] => set (b1 := x) end.
  destruct (IH b1 (Z.succ start) Hh Hf) as (b' & Hrun & P1 & P2 & P3 & P4 & P5 & P6 & P7 & P8 & P9 & P10); [cbn; intros l [= <-]; lia|].
  exists b'. split; [exact Hrun|]. cbn in P1, P3, P4, P5, P6, P7, P8, P9, P10. rewrite P1, <- app_assoc. split; [done|].
  destruct blocks as [|bl blocks].
  - injection Hrun as <-. cbn. split_and!; try done. intros _. f_equal. unfold blen. cbn. lia.
  - rewrite P2, P3 by done. split_and!; try done. intros _. f_equal. lia.
Qed.

(** ** Page shards *)

(** What a wallet is told of the page shards *)
Definition child_facts (shard_id : Z) (g : Geometry) (c : BuiltChild) : Prop :=
  bc_shard_id c = shard_id /\ 0 <= bc_page_rows c < u32_limit /\ bc_page_rows c <= bc_segments c * page_rows g /\
  (bc_page_rows c = 0 <-> bc_segments c = 0) /\ 0 <= bc_segments c < u32_limit.

Lemma heights_app a (l1 l2 : list Block) : map fst (l1 ++ l2) = seqZ a (blen (l1 ++ l2)) ->
  map fst l1 = seqZ a (blen l1) /\ map fst l2 = seqZ (a + blen l1) (blen l2).
Proof.
  rewrite map_app, blen_app. pose proof (blen_nonneg l1). pose proof (blen_nonneg l2). rewrite seqZ_app by lia.
  intros E. apply app_inj_1 in E; [done|]. rewrite length_map, length_seqZ. unfold blen. lia.
Qed.

(** The blocks of a page shard end at its height. *)
Lemma cut_heights a (pre post : list Block) e : pre <> [] -> map fst (pre ++ post) = seqZ a (blen (pre ++ post)) ->
  Forall (fun bl => fst bl <= e) pre -> (forall bl, head post = Some bl -> e < fst bl) -> e <= a + blen (pre ++ post) - 1 ->
  a + blen pre - 1 = e.
Proof.
  intros Hne Hh Hpre Hpost He. destruct (heights_app a pre post Hh) as [H1 H2]. rewrite blen_app in He.
  destruct pre as [|x pre _] using rev_ind; [done|]. apply Forall_app in Hpre as [_ Hx]. rewrite Forall_singleton in Hx.
  assert (fst x = a + blen pre) as Ex.
  { rewrite blen_app in H1. change (blen [x]) with 1 in H1. pose proof (blen_nonneg pre). rewrite seqZ_app in H1 by lia. rewrite map_app in H1.
    apply app_inj_2 in H1 as [_ H1]; [|done]. cbn in H1. by injection H1. }
  rewrite blen_app in *. change (blen [x]) with 1 in *. pose proof (blen_nonneg pre). destruct post as [|y post].
  - change (blen (@nil Block)) with 0 in He. lia.
  - specialize (Hpost y eq_refl). rewrite blen_cons in H2. pose proof (blen_nonneg post). rewrite seqZ_cons in H2 by lia. cbn in H2. injection H2 as H2 _. lia.
Qed.

Lemma close_children_run `{HS : !Sha256, HL : !Sha256Laws} terminal sealed ends : forall b children done a,
  built b children done -> blocks_ok (done ++ db_pending b) -> total_events (done ++ db_pending b) < u32_limit ->
  validate_publishable (db_geometry b) = Ok () -> map fst (db_pending b) = seqZ a (blen (db_pending b)) ->
  (ends <> [] -> db_last b = Some (a + blen (db_pending b) - 1)) -> StronglySorted Z.lt ends ->
  Forall (fun e => a <= e <= a + blen (db_pending b) - 1) ends -> blen children + blen ends <= 32 ->
  Forall (child_facts (db_shard_id b) (db_geometry b)) children ->
  match close_children b ends terminal sealed with
  | Ok (cs, b') => exists pre post, db_pending b = pre ++ post /\ built b' (children ++ cs) (done ++ pre) /\ db_pending b' = post /\
      same_builder b b' /\ length cs = length ends /\ (forall e, last ends = Some e -> a + blen pre - 1 = e) /\
      Forall (child_facts (db_shard_id b) (db_geometry b)) (children ++ cs)
  | Err (Failed e) => e = counter_exceeded
  | Err (Panicked _) => False
  end.
Proof.
  induction ends as [|child_end ends IH]; intros b children done a Hb Hok Hlim Hg Hh Hlast Hs Hr H32 Hcf; cbn [close_children].
  { exists [], (db_pending b). rewrite !app_nil_r. by split_and!. }
  rewrite blen_cons in H32. pose proof (blen_nonneg ends) as H0. apply StronglySorted_inv in Hs as [Hs Hlt]. apply Forall_cons in Hr as [Hce Hr].
  pose proof (close_child_run b children done child_end (terminal child_end) (negb (bool_decide (ends = [])) || sealed) Hb Hok Hlim Hg) as Hc.
  destruct (close_child b child_end _ _) as [[child b1]|[e|]]; [| |done]; run_ok.
  2: { destruct Hc as [Hc|[Hc|[(l & Hl & Hc)|[Hc _]]]]; [lia| | |exact Hc].
    - destruct (db_pending b) as [|bl pending] eqn:Ep; [unfold blen in Hce; cbn in Hce; lia|]. specialize (Hc bl eq_refl). rewrite blen_cons in Hh. pose proof (blen_nonneg pending).
      rewrite seqZ_cons in Hh by lia. cbn in Hh. injection Hh as Hh _. lia.
    - rewrite Hlast in Hl by done. injection Hl as <-. lia. }
  destruct Hc as (pre & post & Hsplit & Hne & Hpre & Hpost & Hb1 & Hp1 & Hsame & Hmax & Hco). destruct Hsame as [E1 E2 E3 E4 E5 E6].
  rewrite Hsplit in Hh, Hok, Hlim. assert (a + blen pre - 1 = child_end) as Hcut.
  { eapply cut_heights; try done. rewrite <- Hsplit. lia. }
  rewrite app_assoc in Hok, Hlim.
  specialize (IH b1 (children ++ [child]) (done ++ pre) (a + blen pre) Hb1). rewrite Hp1, E1, E2, E6 in IH.
  rewrite Hsplit, blen_app in Hlast. pose proof (blen_nonneg pre) as Hpn.
  match type of IH with ?A -> ?B -> ?C -> ?D -> ?E -> ?F -> ?G -> ?H -> ?I -> _ =>
    assert A as X1 by done; assert B as X2 by done; assert C as X3 by done; assert D as X4 by (by apply (heights_app a)) end.
  specialize (IH X1 X2 X3 X4).
  assert (Forall (fun e => a + blen pre <= e <= a + blen pre + blen post - 1) ends) as X5.
  { apply Forall_forall. intros e He. rewrite Forall_forall in Hr, Hlt. specialize (Hr e He). specialize (Hlt e He). rewrite Hsplit, blen_app in Hr. lia. }
  assert (blen (children ++ [child]) + blen ends <= 32) as X6 by (rewrite blen_app; change (blen [child]) with 1; lia).
  assert (Forall (child_facts (db_shard_id b) (db_geometry b)) (children ++ [child])) as X7.
  { apply Forall_app. split; [done|]. apply Forall_singleton. destruct Hco. split; [done|]. tauto. }
  assert (ends <> [] -> db_last b = Some (a + blen pre + blen post - 1)) as X8 by (intros _; rewrite Hlast by done; f_equal; lia).
  specialize (IH X8 Hs X5 X6 X7).
  destruct (close_children b1 ends terminal sealed) as [[cs b2]|[e|]] eqn:Hcc; run_ok; [|done..].
  destruct IH as (pre2 & post2 & I1 & I2 & I3 & I4 & I5 & I6 & I7).
  exists (pre ++ pre2), post2. rewrite <- !app_assoc in *. cbn [app] in *. split_and!; try done.
  - by rewrite Hsplit, I1.
  - destruct I4. constructor; congruence.
  - cbn. by rewrite I5.
  - intros e He. rewrite blen_app. destruct ends as [|e2 ends]; [injection He as <-|rewrite last_cons_cons in He; rewrite <- (I6 e He); lia].
    cbn in Hcc. injection Hcc as <- <-. rewrite Hp1 in I3. subst post2.
    assert (pre2 = []) as ->; [|unfold blen at 2; cbn; lia]. apply (f_equal length) in I1. rewrite length_app in I1. destruct pre2; [done|cbn in I1; lia].
Qed.

(** ** The directory *)

(** Distinct scripts with events are not more than the events. *)
Lemma scripts_count (keys : list script) blocks : NoDup keys -> (forall s, s ∈ keys -> history s blocks <> []) -> blen keys <= total_events blocks.
Proof.
  intros Hn Hne. etransitivity; [|by apply history_sum]. clear Hn. induction keys as [|s keys IH]; [done|]. rewrite blen_cons. cbn [sum_over foldr].
  assert (blen keys <= sum_over (fun s => blen (history s blocks)) keys) as Hk by (apply IH; intros; apply Hne; by right). unfold sum_over in Hk.
  assert (history s blocks <> []) as Hs by (apply Hne; left). destruct (history s blocks) as [|e l]; [done|]. rewrite blen_cons. pose proof (blen_nonneg l). lia.
Qed.

Lemma resolve_run `{!Sha256} shard_id terminal scripts : Forall indexable scripts ->
  match resolve_tag_salt shard_id terminal scripts with
  | Ok (counter, salt) => counter ∈ salt_counters /\ salt = tag_salt shard_id terminal counter /\ NoDup (map (script_tag salt) scripts)
  | Err (Failed e) => e = counter_exceeded
  | Err (Panicked _) => False
  end.
Proof.
  intros Hs. unfold resolve_tag_salt. assert (forallb taggable scripts = true) as ->.
  { apply forallb_forall. intros s Hin%list_elem_of_In. rewrite Forall_forall in Hs. specialize (Hs s Hin). unfold indexable in Hs. change MAX_SCRIPT_BYTES with 40 in Hs.
    apply Z.ltb_lt. lia. }
  cbn [assert_that]. run_ok. destruct (resolve_salt _ _ _ _) as [[counter salt]|] eqn:E; cbn [ok_or fails]; [|done].
  by apply resolve_salt_Some in E as (-> & ? & ?).
Qed.

Section Finish.
Context `{HS : !Sha256, HL : !Sha256Laws}.
Context (b : DirectoryBuilder) (children : list BuiltChild) (blocks : list Block).
Context (Hb : built b children blocks) (Hok : blocks_ok blocks) (Hlim : total_events blocks < u32_limit) (H32 : blen children <= 32).

(** The entry of a script with events can be placed. *)
Lemma entry_placeable salt s st : db_scripts b !! s = Some st -> placeable (blen children) (entry_of salt (s, st)).
Proof using All.
  intros Hst. assert (indexable s /\ history s blocks <> []) as [Hs Hne] by (apply (bt_dom _ _ _ Hb); by eexists).
  destruct (bt_script _ _ _ Hb s Hs) as (He & Hi & old & Hold & Hch). assert (view (db_scripts b) s = st) as E by (unfold view; by rewrite Hst). rewrite E in *.
  assert (Forall good_event (ss_inline st)) as Hgood.
  { pose proof (history_good s blocks Hok) as Hg. rewrite Hold in Hg. by apply Forall_app in Hg as [_ ?]. }
  assert (out_of_order (ss_inline st) = false) as Hord.
  { apply in_order_sorted. pose proof (history_sorted s blocks Hok) as Hg. rewrite Hold in Hg. by apply sorted_app_inv in Hg as [_ ?]. }
  assert (1 <= blen (history s blocks)) as H1 by (destruct (history s blocks) as [|x l]; [done|rewrite blen_cons; pose proof (blen_nonneg l); lia]).
  pose proof (chain_head_bound _ _ _ _ _ _ _ Hch) as (_ & _ & Hh).
  assert (match ss_head st with Some (c, row) => 0 <= c < blen children /\ 0 < row < u32_limit /\ blen (ss_inline st) = 2 | None => True end) as Hhead.
  { destruct (ss_head st) as [[c row]|]; [|done]. destruct (Hh c row eq_refl) as (? & _ & ? & Hl). split_and!; try lia. unfold blen. lia. }
  constructor.
  - unfold directory_entry_wf. cbn [entry_of de_tag head_row head_child inline]. split; [apply tag_length|]. unfold u32_limit, width in *.
    split_and!; [destruct (ss_head st) as [[]|]; lia..|]. eapply Forall_impl; [exact Hgood|]. by intros e (? & _).
  - destruct (encode_from_Ok None (ss_inline st)) as (ev & Hev); [eapply Forall_impl; [exact Hgood|]; by intros e (? & ? & ?)..|].
    eexists. apply directory_entry_encode_Ok. cbn [entry_of de_script head_row head_child inline]. unfold indexable in Hs. change MAX_SCRIPT_BYTES with 40 in Hs.
    split_and!; [done|lia|destruct (ss_head st) as [[]|]; lia|destruct (ss_head st) as [[]|]; lia|destruct (ss_head st) as [[]|]; lia|done|]. exists ev. by split.
  - cbn [entry_of head_row head_child]. destruct (ss_head st) as [[]|]; lia.
Qed.

Lemma entry_of_script salt l : map de_script (map (entry_of salt) l) = l.*1.
Proof using Type. rewrite map_map. apply map_ext. by intros [s st]. Qed.

Lemma entry_of_tag salt l : map de_tag (map (entry_of salt) l) = map (script_tag salt) l.*1.
Proof using Type. rewrite !map_map. apply map_ext. by intros [s st]. Qed.

Lemma filter_scripts s : s ∈ map fst (in_order (gset_to_gmap () (dom (db_scripts b) ∪ db_excluded b))) <-> history s blocks <> [].
Proof using Hb.
  change (map fst ?l) with (l.*1). rewrite in_order_keys. rewrite <- elem_of_dom, dom_gset_to_gmap, elem_of_union, elem_of_dom, (bt_dom _ _ _ Hb), (bt_excluded _ _ _ Hb).
  destruct (decide (indexable s)); naive_solver.
Qed.

Context (siphash : Z -> Z -> list byte -> Z) (siphash_u64 : forall k0 k1 e, 0 <= siphash k0 k1 e < 2 ^ 64).

Lemma range_filter_run key range : range_profile (db_profile b) = Some range ->
  exists bytes, build_range_filter_for siphash range key (map fst (in_order (gset_to_gmap () (dom (db_scripts b) ∪ db_excluded b)))) = Ok bytes /\
    encodes (rp_p range) (set_values siphash (filter_keys key).1 (filter_keys key).2 (rp_m range)
      (FilterBuild.published (map fst (in_order (gset_to_gmap () (dom (db_scripts b) ∪ db_excluded b)))))) bytes.
Proof using Hb Hlim siphash_u64.
  intros Hr. set (l := map fst _). unfold build_range_filter_for. destruct (filter_keys key) as [k0 k1]. cbn [fst snd].
  assert (0 < rp_m range <= 2 ^ 20 /\ (rp_p range <= 63)%nat) as [Hm Hp].
  { unfold range_profile in Hr. apply List.find_some in Hr as [Hin _]. destruct Hin as [<-|[<-|[]]]; vm_compute; split; [split; [done|discriminate]|lia|split; [done|discriminate]|lia]. }
  destruct (encode_with_spec siphash siphash_u64 k0 k1 l (rp_m range) (rp_p range)) as (bytes & -> & He); [lia|done| |by exists bytes].
  assert (blen l <= total_events blocks) as Hl by (apply scripts_count; [apply in_order_nodup|intros s; unfold l; by rewrite filter_scripts]).
  assert (Z.of_nat (element_count l) <= blen l) as Hc.
  { unfold element_count. rewrite size_list_to_set by apply NoDup_filter, in_order_nodup. unfold blen.
    pose proof (length_filter (fun s => is_filter_element s = true) l). lia. }
  unfold u32_limit in *. nia.
Qed.

Context (Hg : validate_publishable (db_geometry b) = Ok ()) (Hsegs : directory_rows (db_geometry b) * MAX_DIRECTORY_SEGMENTS < u32_limit).

(** The entries can be placed, in the order in which they are. *)
Lemma entries_ready salt : NoDup (map (script_tag salt) (in_order (db_scripts b)).*1) ->
  let entries := merge_sort placed_before (map (entry_of salt) (in_order (db_scripts b))) in
  Forall (placeable (blen children)) entries /\ NoDup (map de_script entries) /\ NoDup (map de_tag entries) /\ blen entries < u32_limit.
Proof using All.
  intros Hn entries. assert (entries ≡ₚ map (entry_of salt) (in_order (db_scripts b))) as Hp by (apply merge_sort_Permutation). split; [|split; [|split]].
  - rewrite Hp. apply Forall_forall. intros e ([s st] & -> & Hin%in_order_elem)%list_elem_of_fmap. by apply entry_placeable.
  - rewrite Hp, entry_of_script. apply in_order_nodup.
  - by rewrite Hp, entry_of_tag.
  - unfold blen. rewrite Hp, length_map. enough (blen (in_order (db_scripts b)).*1 <= total_events blocks) as Hle by (unfold blen in Hle; rewrite length_fmap in Hle; lia).
    apply scripts_count; [apply in_order_nodup|]. intros s Hs%in_order_keys. by apply (bt_dom _ _ _ Hb).
Qed.

(** The directory and the filter of the builder *)
Record directory_of (start end_height : Z) (terminal : list byte) (range : RangeProfile) (d : BuiltDirectory) : Prop := {
  do_shard : bd_shard_id d = db_shard_id b; do_geometry : bd_geometry d = db_geometry b; do_start : bd_start d = start; do_end : bd_end d = end_height;
  do_children : bd_children d = blen children; do_counter : bd_counter d ∈ salt_counters;
  do_segments : 1 <= blen (bd_directory d) <= MAX_DIRECTORY_SEGMENTS;
  do_found : forall s st, db_scripts b !! s = Some st ->
    found (bd_shard_id d) (bd_geometry d) (bd_children d) (bd_directory d) (bd_choice d) (entry_of (tag_salt (bd_shard_id d) terminal (bd_counter d)) (s, st));
  do_rows : exists held, Forall2 (fun r l => exists bytes, built_directory_row (bd_directory d) (bd_geometry d) (Z.of_nat r) = Ok bytes /\ decode_directory_row bytes (bd_children d) = Ok l)
      (seq 0 (Z.to_nat (directory_rows (bd_geometry d) * blen (bd_directory d)))) held /\ NoDup (map de_tag (concat held));
  do_filter : exists elements, (forall s, s ∈ elements <-> is_filter_element s = true /\ history s blocks <> []) /\
    let keys := filter_keys (shard_key (db_profile b) (db_genesis b) (bd_shard_id d) start end_height terminal) in
    encodes (rp_p range) (set_values siphash keys.1 keys.2 (rp_m range) elements) (bd_filter d) }.

Lemma builder_finish_run start end_height terminal sealed range :
  db_start b = Some start -> children <> [] -> (forall bl, head (db_pending b) = Some bl -> end_height < fst bl) -> range_profile (db_profile b) = Some range ->
  match builder_finish siphash b end_height terminal sealed with
  | Ok (d, rest) => rest = db_pending b /\ directory_of start end_height terminal range d
  | Err (Failed e) => e = counter_exceeded \/ exists s, e = DirectoryFull s /\ indexable s /\ history s blocks <> []
  | Err (Panicked _) => False
  end.
Proof using All.
  intros Hs Hc Hp Hr. unfold builder_finish. assert (match db_pending b with (height, _) :: _ => height <=? end_height | [] => false end = false) as ->.
  { destruct (db_pending b) as [|[h ev] l]; [done|]. specialize (Hp _ eq_refl). cbn in Hp. by apply Z.leb_gt. }
  rewrite Hs. cbn [ok_or fails]. run_ok. rewrite (bt_count _ _ _ Hb). destruct (Z.eqb_spec (blen children) 0) as [E|_]; [unfold blen in E; destruct children; [done|cbn in E; lia]|].
  rewrite Hr. cbn [ok_or fails]. run_ok.
  destruct (range_filter_run (shard_key (db_profile b) (db_genesis b) (db_shard_id b) start end_height terminal) range Hr) as (bytes & -> & Henc). run_ok.
  assert (Forall indexable (in_order (db_scripts b)).*1) as Hidx by (apply Forall_forall; intros s Hk%in_order_keys; by apply (bt_dom _ _ _ Hb)).
  pose proof (resolve_run (db_shard_id b) terminal _ Hidx) as Hres. destruct (resolve_tag_salt _ _ _) as [[counter salt]|[e|]]; run_ok; [|by left|done].
  destruct Hres as (Hcounter & -> & Hn). destruct (entries_ready _ Hn) as (R1 & R2 & R3 & R4). set (entries := merge_sort _ _) in *.
  assert (forall e, e ∈ entries <-> exists s st, e = entry_of (tag_salt (db_shard_id b) terminal counter) (s, st) /\ db_scripts b !! s = Some st) as Hent.
  { intros e. unfold entries. rewrite merge_sort_Permutation, list_elem_of_fmap. split; [intros ([s st] & -> & Hin%in_order_elem); eauto|].
    intros (s & st & -> & Hin%in_order_elem). by exists (s, st). }
  pose proof (place_directory_run (db_shard_id b) entries (db_geometry b) (blen children) Hg Hsegs R1 R2 R3 R4) as Hpl.
  destruct (place_directory _ _ _ _) as [[[directory scripts] choice]|[[]|]]; run_ok; try done.
  2: { right. apply list_elem_of_fmap in Hpl as (e & -> & (s' & st & -> & Hin)%Hent). cbn. exists s'. split; [done|]. apply (bt_dom _ _ _ Hb). by eexists. }
  destruct Hpl as (-> & Hseg & Hf & held & Hheld & Hperm). split; [done|]. constructor; cbn; try done.
  - intros s st Hst. rewrite Forall_forall in Hf. apply Hf, Hent. eauto.
  - exists held. split; [exact Hheld|]. rewrite Hperm, map_map. by rewrite <- (map_ext de_tag (fun e => de_tag (published e))) by done.
  - eexists. split; [|exact Henc]. intros s. rewrite published_elem, filter_scripts. tauto.
Qed.
End Finish.

(** ** [build_directory_shard] *)

Lemma ascending_strongly l : StronglySorted Z.lt l -> not_ascending l = false.
Proof.
  induction 1 as [|x l _ IH Hx]; [done|]. cbn. destruct l as [|y l]; [done|]. apply Forall_cons in Hx as [Hx _]. rewrite IH, orb_false_r. by apply Z.leb_gt.
Qed.

Lemma last_height (blocks : list Block) start : blocks <> [] -> map fst blocks = seqZ start (blen blocks) -> fst <$> last blocks = Some (start + blen blocks - 1).
Proof.
  intros Hne Hh. destruct blocks as [|x pre _] using rev_ind; [done|]. rewrite last_snoc. cbn. f_equal. destruct (heights_app start pre [x] Hh) as [_ H2].
  change (blen [x]) with 1 in H2. rewrite blen_app. change (blen [x]) with 1. cbn in H2. injection H2 as H2. lia.
Qed.

Section Shard.
Context `{HS : !Sha256, HL : !Sha256Laws} (siphash : Z -> Z -> list byte -> Z) (siphash_u64 : forall k0 k1 e, 0 <= siphash k0 k1 e < 2 ^ 64).
Context (shard_id : Z) (g : Geometry) (genesis : list byte) (profile : string) (blocks : list Block) (child_ends : list Z) (start : Z).
Context (terminal : Z -> list byte) (sealed : bool).

(** The shard holds the history of its blocks: the directory has an entry for every script, with
    the two newest events and the head of the chain of the older ones. *)
Definition script_published (d : BuiltDirectory) (children : list BuiltChild) (s : script) : Prop :=
  exists head n old recent e,
    history s blocks = old ++ recent /\ blen recent = Z.min 2 (blen (history s blocks)) /\ chain g children s head n old recent /\
    e = entry_of (tag_salt shard_id (terminal (bd_end d)) (bd_counter d)) (s, MkScriptState (blen (history s blocks)) recent head n) /\
    found shard_id g (blen children) (bd_directory d) (bd_choice d) e.

Record shard_published (range : RangeProfile) (d : BuiltDirectory) (children : list BuiltChild) : Prop := {
  sp_shard : bd_shard_id d = shard_id; sp_geometry : bd_geometry d = g; sp_start : bd_start d = start; sp_end : bd_end d = start + blen blocks - 1;
  sp_children : bd_children d = blen children; sp_count : length children = length child_ends; sp_facts : Forall (child_facts shard_id g) children;
  sp_segments : 1 <= blen (bd_directory d) <= MAX_DIRECTORY_SEGMENTS;
  sp_scripts : forall s, indexable s -> history s blocks <> [] -> script_published d children s;
  sp_rows : exists held, Forall2 (fun r l => exists bytes, built_directory_row (bd_directory d) (bd_geometry d) (Z.of_nat r) = Ok bytes /\ decode_directory_row bytes (bd_children d) = Ok l)
      (seq 0 (Z.to_nat (directory_rows (bd_geometry d) * blen (bd_directory d)))) held /\ NoDup (map de_tag (concat held));
  sp_filter : exists elements, (forall s, s ∈ elements <-> is_filter_element s = true /\ history s blocks <> []) /\
    let keys := filter_keys (shard_key profile genesis shard_id (bd_start d) (bd_end d) (terminal (bd_end d))) in
    encodes (rp_p range) (set_values siphash keys.1 keys.2 (rp_m range) elements) (bd_filter d) }.

Lemma build_directory_run range :
  shard_blocks blocks child_ends start -> validate_publishable g = Ok () -> directory_rows g * MAX_DIRECTORY_SEGMENTS < u32_limit ->
  range_profile profile = Some range ->
  match build_directory_shard siphash shard_id g genesis profile blocks child_ends terminal sealed with
  | Ok (d, children) => shard_published range d children
  | Err (Failed e) => e = counter_exceeded \/ exists s, e = DirectoryFull s /\ indexable s /\ history s blocks <> []
  | Err (Panicked _) => False
  end.
Proof using All.
  intros Hsk Hg Hsegs Hr. pose proof (shard_blocks_ok _ _ _ Hsk) as Hok. destruct Hsk as [Hne Hh Hev Htot Hasc Hlast Hfirst H32].
  unfold build_directory_shard. rewrite (last_height _ start) by done. cbn [ok_or fails]. run_ok. rewrite bool_decide_eq_true_2 by done.
  rewrite ascending_strongly by done. cbn [negb orb]. unfold builder_new. rewrite Hg. run_ok. rewrite Hr. run_ok.
  set (b0 := MkBuilder _ _ _ _ _ _ _ _ _ _ _ _). destruct (push_blocks_run blocks b0 start Hh) as (b1 & -> & P1 & P2 & P3 & P4 & P5 & P6 & P7 & P8 & P9 & P10).
  { eapply Forall_impl; [exact Hev|]. intros bl Hbl. eapply Forall_impl; [exact Hbl|]. by intros se []. } { done. }
  cbn in P1, P3, P4, P5, P6, P7, P8, P9, P10. run_ok.
  assert (built b1 [] []) as Hb1.
  { constructor; rewrite ?P8, ?P9, ?P10, ?P5; [done| | | |].
    - intros s. unfold inline_ok, view. rewrite lookup_empty. vm_compute. discriminate.
    - intros s. rewrite lookup_empty. split; [by intros [? ?]|by intros [_ []]].
    - intros s _. unfold view. rewrite lookup_empty. split_and!; [done|done|]. exists []. split; [done|constructor].
    - intros s. split; [by intros ?%elem_of_empty|by intros [_ []]]. }
  pose proof (close_children_run terminal sealed child_ends b1 [] [] start Hb1) as Hc. rewrite P1, P4, P5 in Hc. cbn [app] in Hc.
  assert (Forall (fun e => start <= e <= start + blen blocks - 1) child_ends) as Hbounds.
  { apply Forall_forall. intros e He. rewrite Forall_forall in Hfirst. split; [by apply Hfirst|].
    destruct child_ends as [|z l _] using rev_ind; [done|]. rewrite last_snoc in Hlast. injection Hlast as ->. apply elem_of_app in He as [He|He%list_elem_of_singleton]; [|lia].
    apply StronglySorted_app in Hasc as (Hasc & _). specialize (Hasc e _ He ltac:(by left)). lia. }
  specialize (Hc Hok Htot Hg Hh (fun _ => P2 Hne) Hasc Hbounds H32 ltac:(constructor)).
  destruct (close_children b1 child_ends terminal sealed) as [[children b2]|[e|]]; run_ok; [|by left|done].
  destruct Hc as (pre & post & Hsplit & Hb2 & Hp2 & Hsame & Hlen & Hcut & Hfacts). specialize (Hcut _ Hlast).
  assert (post = []) as ->.
  { destruct post as [|x post]; [done|]. rewrite Hsplit, blen_app, blen_cons in Hcut. pose proof (blen_nonneg post). lia. }
  rewrite app_nil_r in Hsplit. subst pre. destruct Hsame as [E1 E2 E3 E4 E5 E6]. rewrite P4 in E1. rewrite P5 in E2. rewrite P6 in E3. rewrite P7 in E4. rewrite P3 in E5 by done.
  assert (blen children <= 32) as Hc32 by (unfold blen in *; lia).
  pose proof (builder_finish_run b2 children blocks Hb2 Hok Htot Hc32 siphash siphash_u64) as Hf. rewrite E2, E4, E5, Hp2 in Hf.
  specialize (Hf Hg Hsegs start (start + blen blocks - 1) (terminal (start + blen blocks - 1)) sealed range eq_refl).
  assert (children <> []) as Hcne by (intros ->; cbn in Hlen; destruct child_ends; [by cbn in Hlast|done]).
  specialize (Hf Hcne ltac:(by intros ?) Hr).
  destruct (builder_finish siphash b2 _ _ _) as [[d rest]|[e|]]; run_ok; [|done..].
  destruct Hf as [_ [D1 D2 D3 D4 D5 D6 D7 D8 Drows D9]]. rewrite E1 in D1. rewrite E2 in D2. cbn [fst].
  constructor; try done.
  - intros s Hs Hsn. destruct (bt_script _ _ _ Hb2 s Hs) as (He & Hi & old & Hold & Hch). rewrite E2 in Hch.
    assert (is_Some (db_scripts b2 !! s)) as [st Hst] by (by apply (bt_dom _ _ _ Hb2)). assert (view (db_scripts b2) s = st) as E by (unfold view; by rewrite Hst).
    rewrite E in *. exists (ss_head st), (ss_runs st), old, (ss_inline st), (entry_of (tag_salt shard_id (terminal (bd_end d)) (bd_counter d)) (s, st)).
    split_and!; [done..| |].
    + destruct st as [a1 a2 a3 a4]. cbn in He. by rewrite He.
    + specialize (D8 s st Hst). rewrite D1, D2, D5 in D8. by rewrite D4.
  - rewrite D3, D4. rewrite E4, E3, D1 in D9. exact D9.
Qed.
End Shard.

(** C19: The shard of a publisher.  For consecutive blocks of well-formed events and page shards
    that end at ascending heights, the last at the last block, [build_directory_shard] never
    panics, and fails only if no salt separates the tags or a script does not fit the greatest
    directory.  What it returns holds the history of every indexed script: the directory has
    its entry, found by its candidate rows or the choice table, with its newest events, and the
    entry points at the chain of the older ones, run after run, each in the page shard that was
    open when it was pushed out; and the filter encodes exactly the scripts with events. *)
Theorem directory_shard_published `{HS : !Sha256, HL : !Sha256Laws} siphash shard_id g genesis profile blocks child_ends start terminal sealed range :
  (forall k0 k1 e, 0 <= siphash k0 k1 e < 2 ^ 64) ->
  shard_blocks blocks child_ends start -> validate_publishable g = Ok () -> directory_rows g * MAX_DIRECTORY_SEGMENTS < u32_limit ->
  range_profile profile = Some range ->
  match build_directory_shard siphash shard_id g genesis profile blocks child_ends terminal sealed with
  | Ok (d, children) => shard_published siphash shard_id g genesis profile blocks child_ends start terminal range d children
  | Err (Failed e) => e = counter_exceeded \/ exists s, e = DirectoryFull s /\ indexable s /\ history s blocks <> []
  | Err (Panicked _) => False
  end.
Proof. intros Hsip Hsk Hg Hsegs Hr. by apply build_directory_run. Qed.
