(* ===== verification/ChainWalk.v ===== *)
(** * Reading a directory shard in the wallet

    [zakura/pir-client/src/transparent/engine/sync/walk.rs] and [entry_in] of [shard.rs]: the
    directory entry of a script with the commit of what it holds, and the walk along its chain
    of runs, newest first, with every check of a reply.  The store of the wallet is the
    interface [WalletStore]; rows come from a [RowSource].  Texts of errors are shortened.

    Of a manifest there is what the walk uses: its page shards with their segments, and the
    chained identities as bytes.  The fields of [PendingPages] and [ShardCommit] that name the
    shard and its revision are those of the walker. *)

From stdpp Require Import sorting.
From S2P Require Import Prelude BitStream ShardEvents ShardEventProofs ShardCompact ShardRecords ShardPageRow ShardPacking ShardDemand.
From S2P Require Import ShardLayout DirectoryPlacement DirectoryChoice DirectoryTable ShardBuilder.

(** ** Manifests: [shard/manifest.rs] *)

Record PageChild : Type := MkPageChild {
  pc_index : Z; pc_start : Z; pc_end : Z; pc_terminal : list byte; pc_counter : Z; pc_sealed : bool;
  pc_segments : list Z;  (** the rows of each segment *)
  pc_page_rows : Z }.

Definition QUERY_ROW_QUANTUM : Z := 2048.
Definition next_multiple (n quantum : Z) : Z := if n mod quantum =? 0 then n else n + (quantum - n mod quantum).

(** [PageChild::query_rows] *)
Definition query_rows (c : PageChild) : Z :=
  let full := match pc_segments c with rows :: _ => rows | [] => 0 end in
  if negb (blen (pc_segments c) =? 1) then full else Z.min (next_multiple (Z.max (pc_page_rows c) 1) QUERY_ROW_QUANTUM) full.

(** [BuiltChild::describe], without the digests *)
Definition describe (c : BuiltChild) (g : Geometry) : PageChild :=
  MkPageChild (bc_index c) (bc_start c) (bc_end c) (bc_terminal c) (bc_counter c) (bc_sealed c)
    (replicate (Z.to_nat (bc_segments c)) (page_rows g)) (bc_page_rows c).

(** ** Errors *)

Inductive StoreError : Type := Corrupt (why : string) | Contradiction (why : string) | OtherStore (why : string).
Inductive SyncError : Type :=
| Content (why : string)
| SyncInvalid (why : string)
| SyncRecord (e : RecordError)
| SyncStore (e : StoreError).

(** [Failure], and [Failure::from] *)
Record Failure : Type := MkFailure { fl_error : SyncError; fl_child : Z; fl_dummies : Z }.
Definition failure_from (e : SyncError) : Failure := MkFailure e 0 0.

(** ** What is stored *)

Record RunCursor : Type := MkRunCursor { cu_child : Z; cu_row : Z; cu_older : option Z }.
Record PendingPages : Type := MkPending {
  pp_id : option Z; pp_script : script; pp_cursor : RunCursor; pp_carried : list TransparentEvent;
  pp_fragments : list (list byte); pp_attempts : Z }.
Record CachedRun : Type := MkCachedRun {
  cr_digest : list byte; cr_script : script; cr_events : list TransparentEvent; cr_older : option (list byte) }.
Record Anchor : Type := MkAnchor { an_height : Z; an_hash : list byte }.
Record ShardCommit : Type := MkShardCommit {
  sc_source : option Anchor; sc_start : Z; sc_end : Z; sc_terminal : list byte; sc_script : script;
  sc_events : list TransparentEvent; sc_covered : list script; sc_pending : list PendingPages; sc_complete : list Z;
  sc_cached : list CachedRun }.

Class WalletStore (S : Type) : Type := {
  cached_run : S -> list byte -> script -> res StoreError (option CachedRun);
  commit_shard : S -> ShardCommit -> res StoreError S }.

(** ** Checks of the walk *)

(** [check_head] *)
Definition check_head (head : PageEntry) (cursor : RunCursor) : res SyncError unit :=
  let l := link head in
  _ ← (if match cu_older cursor with Some expected => negb (older_runs l =? expected) | None => false end
       then Err (Content "another number of older runs than its chain promised")
       else if cu_child cursor <? older_runs l then Err (Content "more older runs than earlier page shards") else Ok ());
  match previous_run l with
  | Some (child, _) => if cu_child cursor <=? child then Err (Content "a link to a page shard that is not earlier") else Ok ()
  | None => Ok ()
  end.

(** [following.windows(2).any(|pair| pair[0].sort_key() >= pair[1].sort_key())] *)
Fixpoint not_increasing (l : list TransparentEvent) : bool :=
  match l with
  | a :: ((b :: _) as l') => negb (key_gt (sort_key b) (sort_key a)) || not_increasing l'
  | _ => false
  end.

(** [for (index, _) in run.iter().enumerate()]: the first event whose height is outside *)
Fixpoint pushed_outside (c : PageChild) (run following : list TransparentEvent) (index : nat) : exec bool :=
  match run with
  | [] => Ok false
  | _ :: run =>
      e ← at_index following (index + 2)%nat;
      if (event_height e <? pc_start c) || (pc_end c <? event_height e) then Ok true else pushed_outside c run following (S index)
  end.

(** [check_run] *)
Definition check_run (c : PageChild) (run carried : list TransparentEvent) : Prelude.run SyncError unit :=
  if (blen run =? 0) || negb (blen carried =? INLINE_EVENTS) then Err (Failed (Content "a run cannot be checked")) else
  let following := run ++ carried in
  if not_increasing following then Err (Failed (Content "a run is not older than the history after it")) else
  outside ← panics (pushed_outside c run following 0);
  if (outside : bool) then Err (Failed (Content "an event was pushed out when the page shard was not open")) else Ok ().

(** [validate_page_boundary] *)
Record PageBoundary : Type := MkBoundary { bo_bytes : Z; bo_last : TransparentEvent }.
Definition validate_page_boundary (prev : option PageBoundary) (events : list TransparentEvent) : Prelude.run SyncError PageBoundary :=
  first ← fails (ok_or (head events) (Content "empty fragment"));
  if match prev with
     | Some p => key_gt (sort_key (bo_last p)) (sort_key first)
                 || (bo_bytes p + event_len first (Some (bo_last p)) <=? FRAGMENT_PAYLOAD)
     | None => false
     end then Err (Failed (Content "noncanonical fragment boundary")) else
  last_event ← panics (expect (last events));
  Ok (MkBoundary (as_u32 (encoded_len events)) last_event).

(** A checked fragment, saved as a page row that holds only it *)
Definition encode_fragment (fragment : PageEntry) : Prelude.run SyncError (list byte) :=
  match encode_page_row [fragment] with
  | Ok b => Ok b
  | Err (Failed e) => Err (Failed (SyncRecord e))
  | Err (Panicked p) => Err (Panicked p)
  end.

(** ** The walker *)

Record Walker : Type := MkWalker {
  wk_shard : Z; wk_start : Z; wk_end : Z; wk_terminal : list byte;
  wk_children : list PageChild; wk_geometry : Geometry; wk_identities : list (list byte); wk_salts : list (list byte);
  wk_target : Anchor }.

Record RowRequest : Type := MkRowRequest { rq_child : Z; rq_row : Z }.
Abbreviation Reply := (list (list byte)).
Abbreviation CachedBelow := (Z * list TransparentEvent)%type.

Record Walk : Type := MkWalk {
  w_item : PendingPages; w_head : option PageEntry; w_walked : list (Z * list TransparentEvent); w_done : bool }.

(** The errors of a step become failures without dummies. *)
Definition as_failure {A} (r : Prelude.run SyncError A) : Prelude.run Failure A :=
  match r with
  | Ok a => Ok a
  | Err (Failed e) => Err (Failed (failure_from e))
  | Err (Panicked p) => Err (Panicked p)
  end.
(** [.map_err(failing)] *)
Definition with_dummies {A} (child dummies : Z) (r : Prelude.run SyncError A) : Prelude.run Failure A :=
  match r with
  | Ok a => Ok a
  | Err (Failed e) => Err (Failed (MkFailure e child dummies))
  | Err (Panicked p) => Err (Panicked p)
  end.

Section Walker.
Context `{!Sha256} {S : Type} `{!WalletStore S} (wk : Walker).

(** [page_child] and [locate] *)
Definition page_child (child : Z) : res SyncError PageChild :=
  ok_or (wk_children wk !! Z.to_nat child) (Content "a page shard that is not declared").
Definition locate (child row : Z) : Prelude.run SyncError RowRequest :=
  page ← fails (page_child child);
  if blen (pc_segments page) =? 0 then Err (Failed (Content "a page shard that holds no rows")) else
  let space := page_rows (wk_geometry wk) * blen (pc_segments page) in
  place ← panics (split_row row (page_rows (wk_geometry wk)));
  let (_, within) := place : Z * Z in
  if (space <=? row) || (query_rows page <=? within) then Err (Failed (Content "a row outside the table"))
  else Ok (MkRowRequest child row).

(** [cached]: the runs from one on, newest first *)
Fixpoint cached_runs (fuel : nat) (store : S) (s : script) (index : nat) (runs : list (list TransparentEvent))
    : Prelude.run SyncError (option (list (list TransparentEvent))) :=
  match fuel with
  | O => Err (Panicked OutOfFuel)
  | Datatypes.S fuel =>
      identity ← panics (at_index (wk_identities wk) index);
      match cached_run store identity s with
      | Err e => Err (Failed (SyncStore e))
      | Ok None => Ok None
      | Ok (Some cached) =>
          if bool_decide (cr_events cached = []) then Err (Failed (SyncStore (Corrupt "a cached run holds no events"))) else
          let runs := runs ++ [cr_events cached] in
          match cr_older cached with
          | None => Ok (Some runs)
          | Some older =>
              match list_find (fun i => i = older) (take index (wk_identities wk)) with
              | None => Err (Failed (SyncStore (Corrupt "a cached run names a run outside the page shards below it")))
              | Some (index, _) => cached_runs fuel store s index runs
              end
          end
      end
  end.

(** [for run in runs.into_iter().rev()] *)
Fixpoint join_runs (history : list TransparentEvent) (oldest_first : list (list TransparentEvent)) : res SyncError (list TransparentEvent) :=
  match oldest_first with
  | [] => Ok history
  | r :: rest =>
      if match last history, head r with Some l, Some f => negb (key_gt (sort_key f) (sort_key l)) | _, _ => false end
      then Err (SyncStore (Corrupt "cached runs are not in order")) else join_runs (history ++ r) rest
  end.

Definition cached (store : S) (s : script) (child : Z) : Prelude.run SyncError (option (list TransparentEvent)) :=
  page ← fails (page_child child);
  if negb (pc_sealed page) then Ok None else
  runs ← cached_runs (Datatypes.S (Z.to_nat child)) store s (Z.to_nat child) [];
  match runs with
  | None => Ok None
  | Some runs => history ← fails (join_runs [] (rev runs)); Ok (Some history)
  end.

(** [owed_link_query] *)
Definition owed_link_query (store : S) (s : script) (h : PageEntry) (cursor : RunCursor) : Prelude.run SyncError Z :=
  if bool_decide (cu_older cursor = Some 0) then Ok 0 else
  let below := if cu_child cursor =? 0 then None else Some (cu_child cursor - 1) in
  let prev := match previous_run (link h) with
              | Some (child, _) =>
                  if (child <? cu_child cursor) && match page_child child with Ok _ => true | Err _ => false end
                  then Some child else below
              | None => below
              end in
  match prev with
  | None => Ok 0
  | Some prev => c ← cached store s prev; Ok (match c with None => 1 | Some _ => 0 end)
  end.

(** [check_located] *)
Definition check_located (store : S) (s : script) (h : PageEntry) (cursor : RunCursor) (held : Z) : Prelude.run Failure unit :=
  last_row ← panics (checked_minus (cu_row cursor + Z.max (fragment_count h) 1) 1);
  _ ← as_failure (locate (cu_child cursor) last_row);
  let followed :=
    _ ← fails (check_head h cursor);
    match previous_run (link h) with
    | Some (child, row) => _ ← locate child row; Ok ()
    | None => Ok ()
    end in
  match followed with
  | Ok _ => Ok ()
  | Err (Panicked p) => Err (Panicked p)
  | Err (Failed error) =>
      query ← as_failure (owed_link_query store s h cursor);
      Err (Failed (MkFailure error (cu_child cursor) (Z.max 0 (fragment_count h - Z.max held 1) + query)))
  end.

(** [fragment]: the loops over the rows and their entries *)
Fixpoint pick_fragment (entries : list PageEntry) (wanted : list byte) (ord : Z) (count : option Z) (found : option PageEntry)
    : res SyncError (option PageEntry) :=
  match entries with
  | [] => Ok found
  | e :: entries =>
      if negb (bool_decide (pe_tag e = wanted)) || negb (ordinal e =? ord) then pick_fragment entries wanted ord count found else
      if match count with Some n => negb (fragment_count e =? n) | None => false end
      then Err (Content "a fragment disagrees with its run's fragment count") else
      match found with
      | Some _ => Err (Content "a fragment is there twice")
      | None => pick_fragment entries wanted ord count (Some e)
      end
  end.
Fixpoint search_rows (answers : Reply) (wanted : list byte) (ord : Z) (count : option Z) (found : option PageEntry)
    : Prelude.run SyncError (option PageEntry) :=
  match answers with
  | [] => Ok found
  | raw :: answers =>
      decoded ← match decode_page_row raw with
                | Ok entries => Ok entries
                | Err (Failed _) => Err (Failed (Content "a page row does not decode"))
                | Err (Panicked p) => Err (Panicked p)
                end;
      found ← fails (pick_fragment decoded wanted ord count found);
      search_rows answers wanted ord count found
  end.
Definition fragment (s : script) (child : Z) (answers : Reply) (ord : Z) (count : option Z) : Prelude.run SyncError PageEntry :=
  salt ← panics (at_index (wk_salts wk) (Z.to_nat child));
  found ← search_rows answers (script_tag salt s) ord count None;
  fails (ok_or found (Content "the row a link located does not hold the fragment")).

(** [plan]: the rows of the fragments that are missing, and the head of the run before *)
Fixpoint plan_fragments (cursor : RunCursor) (ord : Z) (missing : nat) : Prelude.run SyncError (list RowRequest) :=
  match missing with
  | O => Ok []
  | Datatypes.S missing =>
      r ← locate (cu_child cursor) (cu_row cursor + ord);
      rest ← plan_fragments cursor (ord + 1) missing;
      Ok (r :: rest)
  end.
Definition plan (store : S) (w : Walk) : Prelude.run SyncError (list RowRequest * option CachedBelow) :=
  let cursor := pp_cursor (w_item w) in
  match w_head w with
  | None => r ← locate (cu_child cursor) (cu_row cursor); Ok ([r], None)
  | Some h =>
      let held := blen (pp_fragments (w_item w)) in
      requests ← plan_fragments cursor held (Z.to_nat (fragment_count h - held));
      match previous_run (link h) with
      | None => Ok (requests, None)
      | Some (child, row) =>
          older ← cached store (pp_script (w_item w)) child;
          match older with
          | Some events => Ok (requests, Some (child, events))
          | None => r ← locate child row; Ok (requests ++ [r], None)
          end
      end
  end.

(** ** Commits *)

(** [commit_bounded] *)
Definition commit_bounded (store : S) (c : ShardCommit) : Prelude.run SyncError S :=
  let source := MkAnchor (sc_end c) (sc_terminal c) in
  let outside e := (event_height e <? sc_start c) || (an_height source <? event_height e) in
  if existsb outside (sc_events c ++ concat (map pp_carried (sc_pending c)))
  then Err (Failed (Content "event lies outside its published shard")) else
  let target := wk_target wk in
  let (end_height, terminal) := if an_height target <=? sc_end c then (an_height target, an_hash target) else (sc_end c, sc_terminal c) in
  let c := MkShardCommit (Some source) (sc_start c) end_height terminal (sc_script c)
             (filter (fun e => event_height e <= an_height target) (sc_events c))
             (sc_covered c) (sc_pending c) (sc_complete c) (sc_cached c) in
  match commit_shard store c with
  | Ok store => Ok store
  | Err (Contradiction why) => Err (Failed (Content why))
  | Err e => Err (Failed (SyncStore e))
  end.

(** [Walker::commit] *)
Definition commit (store : S) (s : script) (events : list TransparentEvent) (progressed : option PendingPages)
    (finished : option Z) (cached : list CachedRun) : Prelude.run SyncError S :=
  commit_bounded store
    (MkShardCommit None (wk_start wk) (wk_end wk) (wk_terminal wk) s events
       (match progressed with None => [s] | Some _ => [] end) (option_list progressed) (option_list finished) cached).

(** [for (child, events) in walk.walked.iter().rev()] of [finish] *)
Fixpoint cache_walked (s : script) (oldest_first : list (Z * list TransparentEvent)) (below : option (list byte))
    : Prelude.run SyncError (list CachedRun) :=
  match oldest_first with
  | [] => Ok []
  | (child, events) :: rest =>
      page ← fails (page_child child);
      if negb (pc_sealed page) then Ok [] else
      identity ← panics (at_index (wk_identities wk) (Z.to_nat child));
      cs ← cache_walked s rest (Some identity);
      Ok (MkCachedRun identity s events below :: cs)
  end.

(** [finish] *)
Definition walk_finish (store : S) (w : Walk) (r : list TransparentEvent) (older : option CachedBelow)
    : Prelude.run SyncError (S * Walk) :=
  bo ← match older with
       | Some (child, events) => identity ← panics (at_index (wk_identities wk) (Z.to_nat child)); Ok (Some identity, events)
       | None => Ok (None, [])
       end;
  let (below, older) := bo : option (list byte) * list TransparentEvent in
  let newer := match head r with Some e => Some e | None => head (pp_carried (w_item w)) end in
  if match last older, newer with Some l, Some f => negb (key_gt (sort_key f) (sort_key l)) | _, _ => false end
  then Err (Failed (Content "cached history is not older than the run that links to it")) else
  cs ← cache_walked (pp_script (w_item w)) (rev (w_walked w)) below;
  store ← commit store (pp_script (w_item w)) (older ++ r) None (pp_id (w_item w)) cs;
  Ok (store, MkWalk (w_item w) (w_head w) (w_walked w) true).

(** ** A round *)

Definition with_fragment (item : PendingPages) (raw : list byte) : PendingPages :=
  MkPending (pp_id item) (pp_script item) (pp_cursor item) (pp_carried item) (pp_fragments item ++ [raw]) (pp_attempts item).

(** The fragments that were saved are checked again *)
Fixpoint recheck (s : script) (child count : Z) (ord : Z) (raws : list (list byte)) (boundary : PageBoundary) (r : list TransparentEvent)
    : Prelude.run SyncError (PageBoundary * list TransparentEvent) :=
  match raws with
  | [] => Ok (boundary, r)
  | raw :: raws =>
      f ← fragment s child [raw] ord (Some count);
      boundary ← validate_page_boundary (Some boundary) (pe_events f);
      recheck s child count (ord + 1) raws boundary (r ++ pe_events f)
  end.

(** [for answer in answers]: an error of [encode_fragment] is without dummies *)
Fixpoint take_answers (child unsent count : Z) (answers : list Reply) (item : PendingPages) (boundary : PageBoundary)
    (r : list TransparentEvent) : Prelude.run Failure (PendingPages * list TransparentEvent) :=
  match answers with
  | [] => Ok (item, r)
  | answer :: answers =>
      f ← with_dummies child unsent (fragment (pp_script item) child answer (blen (pp_fragments item)) (Some count));
      boundary ← with_dummies child unsent (validate_page_boundary (Some boundary) (pe_events f));
      raw ← as_failure (encode_fragment f);
      take_answers child unsent count answers (with_fragment item raw) boundary (r ++ pe_events f)
  end.

(** The head of the next run, if it was asked for *)
Definition next_head (store : S) (s : script) (progressed : PendingPages) (next : list Reply)
    : Prelude.run Failure (PendingPages * option PageEntry * option Failure) :=
  match next with
  | [answer] =>
      let cursor := pp_cursor progressed in
      let checked :=
        h ← as_failure (fragment s (cu_child cursor) answer 0 None);
        _ ← check_located store s h cursor 1;
        Ok h in
      match checked with
      | Ok h => raw ← as_failure (encode_fragment h); Ok (with_fragment progressed raw, Some h, None)
      | Err (Failed failure) => Ok (progressed, None, Some failure)
      | Err (Panicked p) => Err (Panicked p)
      end
  | _ => Ok (progressed, None, None)
  end.

(** [advance]: the store and the walk after the round, with the failure that ends it *)
Definition advance (store : S) (w : Walk) (answers : list Reply) (older : option CachedBelow)
    : Prelude.run Failure (S * Walk * option Failure) :=
  let item := w_item w in
  let cursor := pp_cursor item in
  let s := pp_script item in
  match w_head w with
  | None =>
      match answers with
      | [answer] =>
          h ← as_failure (fragment s (cu_child cursor) answer 0 None);
          _ ← check_located store s h cursor 1;
          raw ← as_failure (encode_fragment h);
          let item := with_fragment item raw in
          store ← as_failure (commit store s [] (Some item) None []);
          Ok (store, MkWalk item (Some h) (w_walked w) (w_done w), None)
      | _ => Err (Failed (failure_from (SyncInvalid "a round lost an answer")))
      end
  | Some h =>
      let count := fragment_count h in
      if count <? blen (pp_fragments item) then Err (Failed (failure_from (SyncInvalid "a run has too many fragments"))) else
      let remaining := count - blen (pp_fragments item) in
      let mine := take (Z.to_nat remaining) answers in
      let next := drop (Z.to_nat remaining) answers in
      if 1 <? blen next then Err (Failed (failure_from (SyncInvalid "a round has extra answers"))) else
      let linked := match previous_run (link h) with Some _ => true | None => false end in
      let unsent := (remaining - blen mine) +
        (if (blen next =? 0) && bool_decide (older = None) && linked then 1 else 0) in
      boundary ← with_dummies (cu_child cursor) unsent (validate_page_boundary None (pe_events h));
      br ← with_dummies (cu_child cursor) unsent (recheck s (cu_child cursor) count 1 (tail (pp_fragments item)) boundary (pe_events h));
      let (boundary, r) := br : PageBoundary * list TransparentEvent in
      ir ← take_answers (cu_child cursor) unsent count mine item boundary r;
      let (item, r) := ir : PendingPages * list TransparentEvent in
      if blen (pp_fragments item) <? count then
        store ← as_failure (commit store s [] (Some item) None []);
        Ok (store, MkWalk item (Some h) (w_walked w) (w_done w), None)
      else
      page ← as_failure (fails (page_child (cu_child cursor)));
      _ ← with_dummies (cu_child cursor) unsent (check_run page r (pp_carried item));
      let walked := w_walked w ++ [(cu_child cursor, r)] in
      let w := MkWalk item (Some h) walked (w_done w) in
      match previous_run (link h), older with
      | None, _ => sw ← as_failure (walk_finish store w r None); let (store, w) := sw : S * Walk in Ok (store, w, None)
      | Some _, Some _ => sw ← as_failure (walk_finish store w r older); let (store, w) := sw : S * Walk in Ok (store, w, None)
      | Some (child, row), None =>
          older_left ← panics (checked_minus (older_runs (link h)) 1);
          let progressed := MkPending (pp_id item) s (MkRunCursor child row (Some older_left)) (take 2 (r ++ pp_carried item)) [] (pp_attempts item) in
          phf ← next_head store s progressed next;
          let '(progressed, next_h, failure) := phf : PendingPages * option PageEntry * option Failure in
          let progressed := MkPending (pp_id progressed) (pp_script progressed) (pp_cursor progressed) (pp_carried progressed)
                              (pp_fragments progressed) (pp_attempts progressed + 1) in
          store ← as_failure (commit store s r (Some progressed) None []);
          Ok (store, MkWalk progressed next_h walked (w_done w), failure)
      end
  end.

(** [complete] *)
Definition cached_below (store : S) (w : Walk) : Prelude.run Failure (option CachedBelow) :=
  match w_head w with
  | Some h =>
      match previous_run (link h) with
      | Some (child, _) =>
          c ← as_failure (cached store (pp_script (w_item w)) child);
          Ok (match c with Some events => Some (child, events) | None => None end)
      | None => Ok None
      end
  | None => Ok None
  end.
Definition complete (store : S) (w : Walk) : Prelude.run Failure (S * Walk * option Failure) :=
  older ← cached_below store w;
  advance store w [] older.

(** The rounds of [walk_chains] for one walk, over a source that answers every request.  A walk
    at a run that the store holds history for stops there. *)
Definition stop_at_cached (store : S) (w : Walk) : Prelude.run SyncError (S * Walk) :=
  match w_head w with
  | Some _ => Ok (store, w)
  | None =>
      let child := cu_child (pp_cursor (w_item w)) in
      c ← cached store (pp_script (w_item w)) child;
      match c with
      | Some older => walk_finish store w [] (Some (child, older))
      | None => Ok (store, w)
      end
  end.
Fixpoint walk_rounds (fuel : nat) (fetch : RowRequest -> Reply) (store : S) (w : Walk) : Prelude.run Failure (S * Walk) :=
  match fuel with
  | O => Err (Panicked OutOfFuel)
  | Datatypes.S fuel =>
      sw ← as_failure (stop_at_cached store w);
      let (store, w) := sw : S * Walk in
      if w_done w then Ok (store, w) else
      po ← as_failure (plan store w);
      let (requests, older) := po : list RowRequest * option CachedBelow in
      swf ← advance store w (map fetch requests) older;
      let '(store, w, failure) := swf : S * Walk * option Failure in
      match failure with
      | Some failure => Err (Failed failure)
      | None => if w_done w then Ok (store, w) else walk_rounds fuel fetch store w
      end
  end.

(** ** The directory entry: [entry_in] of [shard.rs] *)

Fixpoint pick_entry (row : Z) (entries : list DirectoryEntry) (wanted : list byte) (found : option (Z * DirectoryEntry))
    : res SyncError (option (Z * DirectoryEntry)) :=
  match entries with
  | [] => Ok found
  | e :: entries =>
      if negb (bool_decide (de_tag e = wanted)) then pick_entry row entries wanted found else
      match found with
      | Some (seen_row, _) => if seen_row =? row then pick_entry row entries wanted found else Err (Content "a script tag twice")
      | None => pick_entry row entries wanted (Some (row, e))
      end
  end.
Fixpoint search_reply (row : Z) (reply : Reply) (wanted : list byte) (children : Z) (found : option (Z * DirectoryEntry))
    : Prelude.run SyncError (option (Z * DirectoryEntry)) :=
  match reply with
  | [] => Ok found
  | raw :: reply =>
      decoded ← match decode_directory_row raw children with
                | Ok entries => Ok entries
                | Err (Failed _) => Err (Failed (Content "a directory row does not decode"))
                | Err (Panicked p) => Err (Panicked p)
                end;
      found ← fails (pick_entry row decoded wanted found);
      search_reply row reply wanted children found
  end.
Fixpoint search_replies (replies : list (Z * Reply)) (wanted : list byte) (children : Z) (found : option (Z * DirectoryEntry))
    : Prelude.run SyncError (option (Z * DirectoryEntry)) :=
  match replies with
  | [] => Ok found
  | (row, reply) :: replies =>
      found ← search_reply row reply wanted children found;
      search_replies replies wanted children found
  end.
Definition entry_in (wanted : list byte) (replies : list (Z * Reply)) : Prelude.run SyncError (option DirectoryEntry) :=
  found ← search_replies replies wanted (blen (wk_children wk)) None;
  match found with
  | None => Ok None
  | Some (_, found) =>
      if existsb (fun e => (event_height e <? wk_start wk) || (wk_end wk <? event_height e)) (inline found)
      then Err (Failed (Content "an inline event outside its range")) else
      _ ← match directory_head found with
          | Some (child, row) => _ ← locate child row; Ok ()
          | None => Ok ()
          end;
      Ok (Some found)
  end.

(** The rows that are asked for, and the work that an entry leaves *)
Definition queried_rows (table : option ChoiceTable) (s : script) (rows : Z) : exec (list Z) :=
  c ← candidate_rows (wk_shard wk) s rows;
  match table with
  | None => Ok [fst c; snd c]
  | Some t => bit ← shard_choice t (wk_shard wk) s; row ← at_index [fst c; snd c] (Z.to_nat bit); Ok [row]
  end.
Definition pending_of (s : script) (found : DirectoryEntry) : option PendingPages :=
  match directory_head found with
  | Some (child, row) => Some (MkPending None s (MkRunCursor child row None) (inline found) [] 0)
  | None => None
  end.

(** The commit of a directory group of one script whose replies [entry_in] accepted, as
    [retrieve_shard_into] makes it: the inline events of the entry, and either its pages as work
    that is left or the script as covered *)
Definition commit_entry (store : S) (s : script) (found : option DirectoryEntry) : Prelude.run SyncError S :=
  let events := match found with Some f => inline f | None => [] end in
  let pending_upsert := option_list (found ≫= pending_of s) in
  let covered := match pending_upsert with [] => [s] | _ => [] end in
  commit_bounded store
    (MkShardCommit None (wk_start wk) (wk_end wk) (wk_terminal wk) s events covered pending_upsert [] []).

(** The saved work, with the number that the store gave it *)
Definition with_id (item : PendingPages) (id : option Z) : PendingPages :=
  MkPending id (pp_script item) (pp_cursor item) (pp_carried item) (pp_fragments item) (pp_attempts item).
End Walker.
