(* ===== verification/ChainWalkProofs.v ===== *)
(** * A wallet reads the chain of a script

    The walk of a wallet over an honest service: the page shards of a directory shard as they
    were built, and replies that hold the row that was asked for of every segment.  The store is
    used through the interface [StoreLaws]. *)

From stdpp Require Import sorting.
From S2P Require Import Prelude BitStream ShardEvents ShardEventProofs ShardCompact ShardRecords ShardPageRow ShardPacking ShardDemand.
From S2P Require Import ShardLayout ShardLayoutProofs DirectoryPlacement DirectoryChoice DirectoryTable.
From S2P Require Import DirectoryTableTheorems ShardBuilder ShardBuilderProofs ShardChain ShardPublish ChainWalk.

(** ** The interfaces *)

(** A store that takes what is committed, in order, and answers for a run from what was
    committed to be cached *)
Class StoreLaws (S : Type) `{!WalletStore S} : Type := {
  store_log : S -> list ShardCommit;
  commit_law : forall st c, exists st', commit_shard st c = Ok st' /\ store_log st' = store_log st ++ [c] /\
    (sc_cached c = [] -> forall d s, cached_run st' d s = cached_run st d s) }.

Definition misses {S : Type} `{!WalletStore S} (st : S) : Prop := forall d s, cached_run st d s = Ok None.

(** The manifest describes the page shards. *)
Record walker_of `{!Sha256} (wk : Walker) (children : list BuiltChild) : Prop := {
  wo_children : wk_children wk = map (fun c => describe c (wk_geometry wk)) children;
  wo_salts : wk_salts wk = map child_salt children;
  wo_identities : length (wk_identities wk) = length children;
  wo_facts : Forall (child_facts (wk_shard wk) (wk_geometry wk)) children;
  wo_pages : 2048 <= page_rows (wk_geometry wk) }.

(** Every segment answers, with the row at the place within the segment that was asked for. *)
Definition honest (g : Geometry) (children : list BuiltChild) (fetch : RowRequest -> Reply) : Prop :=
  forall c child row, children !! c = Some child -> 0 <= row < bc_segments child * page_rows g ->
    Forall2 (fun k bytes => page_row child g (k * page_rows g + row mod page_rows g) = Ok bytes)
      (seqZ 0 (bc_segments child)) (fetch (MkRowRequest (Z.of_nat c) row)).

(** ** Fragments in replies *)

Lemma option_list_app_nil {A} (o r : option A) l : option_list o ++ l = option_list r -> o <> None -> l = [] /\ o = r.
Proof. destruct o as [x|], r as [y|]; cbn; try done. intros [= -> ->] _. done. Qed.

Section Pick.
Context (wanted : list byte) (ord : Z) (count : option Z).

Definition hit (e : PageEntry) : Prop := pe_tag e = wanted /\ ordinal e = ord.
Definition count_agrees (e : PageEntry) : Prop := forall n, count = Some n -> fragment_count e = n.

Lemma pick_fragment_run l : forall found result, option_list found ++ filter hit l = option_list result -> Forall count_agrees (filter hit l) ->
  pick_fragment l wanted ord count found = Ok result.
Proof.
  induction l as [|e l IH]; intros found result Hr Hc; cbn [pick_fragment].
  { rewrite filter_nil, app_nil_r in Hr. destruct found, result; cbn in Hr; congruence. }
  rewrite filter_cons in Hr, Hc. case_decide as Hh.
  - destruct Hh as [Ht Ho]. rewrite bool_decide_eq_true_2, (proj2 (Z.eqb_eq _ _)) by done. cbn [negb orb]. apply Forall_cons in Hc as [He Hc].
    assert (match count with Some n => negb (fragment_count e =? n) | None => false end = false) as ->.
    { unfold count_agrees in He. destruct count as [n|]; [|done]. rewrite (He n eq_refl), Z.eqb_refl. done. }
    destruct found as [x|]; [by apply option_list_app_nil in Hr as [? _]|]. by apply IH.
  - assert (negb (bool_decide (pe_tag e = wanted)) || negb (ordinal e =? ord) = true) as ->; [|by apply IH].
    case_bool_decide as Ht; [|done]. cbn. destruct (Z.eqb_spec (ordinal e) ord); [|done]. by destruct Hh.
Qed.

Lemma search_rows_run answers ess : Forall2 (fun raw es => decode_page_row raw = Ok es) answers ess -> forall found result,
  option_list found ++ filter hit (concat ess) = option_list result -> Forall count_agrees (filter hit (concat ess)) ->
  search_rows answers wanted ord count found = Ok result.
Proof.
  induction 1 as [|raw es answers ess Hd _ IH]; intros found result Hr Hc; cbn [search_rows].
  { cbn in Hr. rewrite app_nil_r in Hr. destruct found, result; cbn in Hr; congruence. }
  rewrite Hd. run_ok. cbn [concat] in Hr, Hc. rewrite filter_app in Hr, Hc. rewrite app_assoc in Hr. apply Forall_app in Hc as [Hc1 Hc2].
  assert (exists mid, option_list found ++ filter hit es = option_list mid) as [mid Hm].
  { destruct found as [x|].
    - rewrite <- app_assoc in Hr. apply option_list_app_nil in Hr as [Hr _]; [|done]. exists (Some x). by apply app_nil in Hr as [-> _].
    - cbn in Hr |- *. destruct (filter hit es) as [|y [|z k]]; [by exists None|by exists (Some y)|]. by destruct result. }
  rewrite (pick_fragment_run es found mid Hm Hc1). run_ok. apply IH; [by rewrite <- Hm|done].
Qed.
End Pick.

Lemma filter_concat_one {A} (P : A -> Prop) `{!forall x, Decision (P x)} (ess : list (list A)) k es e :
  ess !! k = Some es -> filter P es = [e] -> (forall j es', j <> k -> ess !! j = Some es' -> filter P es' = []) -> filter P (concat ess) = [e].
Proof.
  intros Hk He Ho. assert (forall l, (forall es', es' ∈ l -> filter P es' = []) -> filter P (concat l) = []) as Hnil.
  { induction l as [|x l IH]; intros Hl; [done|]. cbn [concat]. rewrite filter_app, (Hl x) by left. apply IH. intros. apply Hl. by right. }
  rewrite <- (take_drop_middle _ _ _ Hk). rewrite concat_app, filter_app. cbn [concat]. rewrite filter_app, He, !Hnil; [done| |].
  - intros es' (j & Hj)%list_elem_of_lookup. rewrite lookup_drop in Hj. apply (Ho (S k + j)%nat); [lia|done].
  - intros es' (j & Hj)%list_elem_of_lookup. apply lookup_take_Some in Hj as [Hj ?]. apply (Ho j); [lia|done].
Qed.

(** ** Rows *)

Lemma next_multiple_bound n q : 0 < q -> 0 <= n -> n <= next_multiple n q.
Proof. intros Hq Hn. unfold next_multiple. pose proof (Z.mod_pos_bound n q Hq). destruct (_ =? _); lia. Qed.

Lemma encode_fragment_run bytes entries e : decode_page_row bytes = Ok entries -> e ∈ entries -> exists raw, encode_fragment e = Ok raw.
Proof.
  intros Hd He. apply decode_page_row_Ok in Hd as [Hwf Henc]. assert (Forall page_entry_wf entries) as Hw by (eapply Forall_impl; [exact Hwf|]; by intros x []).
  apply encode_page_row_Ok in Henc as (_ & _ & bss & HF & Hfit & _); [|done]. apply list_elem_of_lookup in He as (i & Hi).
  destruct (Forall2_lookup_l _ _ _ _ _ HF Hi) as (b & Hb & Hbe). rewrite <- (take_drop_middle _ _ _ Hb) in Hfit. rewrite concat_app in Hfit. cbn [concat] in Hfit.
  rewrite !blen_app in Hfit. pose proof (blen_nonneg (concat (take i bss))). pose proof (blen_nonneg (concat (drop (S i) bss))).
  unfold encode_fragment. rewrite (proj2 (encode_page_row_Ok [e] (pad_to PAGE_ROW_BYTES (le_split 4 (blen [e]) ++ concat [b])) ltac:(constructor; [by eapply Forall_lookup_1|constructor]))); [eauto|].
  split; [done|]. split; [split; [apply NoDup_singleton|apply Forall_singleton, not_elem_of_nil]|]. exists [b]. split; [by repeat constructor|]. split; [|done].
  cbn [concat]. rewrite app_nil_r. lia.
Qed.

Section Honest.
Context `{HS : !Sha256} (wk : Walker) (children : list BuiltChild) (fetch : RowRequest -> Reply).
Context (Hwk : walker_of wk children) (Hfetch : honest (wk_geometry wk) children fetch).
Abbreviation g := (wk_geometry wk).

Lemma page_child_run c child : children !! c = Some child -> page_child wk (Z.of_nat c) = Ok (describe child g).
Proof using Hwk. intros Hc. unfold page_child. by rewrite Nat2Z.id, (wo_children _ _ Hwk), list_lookup_fmap, Hc. Qed.

(** The rows of a page shard are located. *)
Lemma locate_run c child row : children !! c = Some child -> 0 <= row < bc_page_rows child -> locate wk (Z.of_nat c) row = Ok (MkRowRequest (Z.of_nat c) row).
Proof using Hwk.
  intros Hc Hrow. unfold locate. rewrite (page_child_run c child Hc). run_ok. cbn [describe pc_segments].
  destruct (Forall_lookup_1 _ _ _ _ (wo_facts _ _ Hwk) Hc) as (_ & H1 & H2 & H3 & H4). pose proof (wo_pages _ _ Hwk) as Hp.
  assert (blen (replicate (Z.to_nat (bc_segments child)) (page_rows g)) = bc_segments child) as El by (unfold blen; rewrite length_replicate; lia). rewrite El.
  destruct (Z.eqb_spec (bc_segments child) 0); [lia|]. unfold split_row, checked_div. destruct (Z.eqb_spec (page_rows g) 0); [lia|]. run_ok.
  rewrite (proj2 (Z.leb_gt _ _)) by lia. cbn [orb]. rewrite (proj2 (Z.leb_gt _ _)); [done|].
  assert (match replicate (Z.to_nat (bc_segments child)) (page_rows g) with rows :: _ => rows | [] => 0 end = page_rows g) as Er.
  { destruct (Z.to_nat (bc_segments child)) as [|k] eqn:E; [lia|done]. }
  pose proof (Z.mod_pos_bound row (page_rows g) ltac:(lia)). unfold query_rows, describe. cbn [pc_segments pc_page_rows]. rewrite El, Er.
  destruct (Z.eqb_spec (bc_segments child) 1) as [E1|]; cbn [negb]; [|lia].
  rewrite E1 in H2. pose proof (next_multiple_bound (Z.max (bc_page_rows child) 1) QUERY_ROW_QUANTUM ltac:(done) ltac:(lia)). rewrite Z.mod_small by lia. lia.
Qed.

(** What is known of a fragment that was read *)
Record fragment_of (child : BuiltChild) (s : script) (l : RunLink) (r : list TransparentEvent) (i : nat) (f : list TransparentEvent) (e : PageEntry) : Prop := {
  fo_ordinal : ordinal e = Z.of_nat i; fo_count : fragment_count e = blen (fragments r); fo_events : pe_events e = f;
  fo_link : link e = if decide (i = 0%nat) then l else no_link; fo_encodes : exists raw, encode_fragment e = Ok raw }.

Lemma fragment_run c child s p l r i f count : children !! c = Some child -> run_stored g child s p l r -> fragments r !! i = Some f ->
  (count = None \/ count = Some (blen (fragments r))) ->
  exists e, fragment wk s (Z.of_nat c) (fetch (MkRowRequest (Z.of_nat c) (Z.of_nat (p + i)))) (Z.of_nat i) count = Ok e /\ fragment_of child s l r i f e.
Proof using All.
  intros Hc [Hne Hrows Hwithin Hlim Hdec Huni] Hf Hcount. destruct (Hrows i f Hf) as (bytes & es & e & Hb & Hd & Hfil & Ho & Hn & Hev & Hl). exists e.
  assert (e ∈ es) as He by (assert (e ∈ filter (fun e => pe_tag e = script_tag (child_salt child) s) es) as Hx by (rewrite Hfil; left); by apply list_elem_of_filter in Hx as [_ ?]).
  split; [|by constructor; try done; eapply encode_fragment_run].
  pose proof (lookup_lt_Some _ _ _ Hf) as Hlt. destruct (Forall_lookup_1 _ _ _ _ (wo_facts _ _ Hwk) Hc) as (_ & H1 & H2 & H3 & H4). pose proof (wo_pages _ _ Hwk) as Hp.
  set (row := Z.of_nat (p + i)) in *. assert (0 <= row < bc_segments child * page_rows g) as Hrow by (unfold row, blen in *; lia).
  pose proof (Hfetch c child row Hc Hrow) as Hreply. unfold fragment. rewrite Nat2Z.id, (wo_salts _ _ Hwk). unfold at_index. rewrite list_lookup_fmap, Hc. cbn [fmap option_fmap option_map]. run_ok.
  set (wanted := script_tag (child_salt child) s) in *. set (answers := fetch _) in *. pose proof (Z.mod_pos_bound row (page_rows g) ltac:(lia)) as Hm.
  assert (exists ess, Forall2 (fun raw es => decode_page_row raw = Ok es) answers ess) as [ess Hess].
  { assert (Forall (fun raw => exists es, decode_page_row raw = Ok es) answers) as HF.
    { apply Forall_forall. intros raw (k & Hk)%list_elem_of_lookup. destruct (Forall2_lookup_r _ _ _ _ _ Hreply Hk) as (z & Hz & Hpr).
      apply lookup_seqZ in Hz as [-> Hz]. destruct (Hdec ((0 + Z.of_nat k) * page_rows g + row mod page_rows g)) as (b' & es' & Hb' & He'); [nia|]. rewrite Hpr in Hb'. injection Hb' as ->. by exists es'. }
    clear -HF. induction HF as [|raw l [es He] _ [ess IH]]; [by exists []|]. exists (es :: ess). by constructor. }
  assert (filter (hit wanted (Z.of_nat i)) (concat ess) = [e]) as Hhits.
  { pose proof (Z.div_mod row (page_rows g) ltac:(lia)) as Hdm. assert (0 <= row / page_rows g < bc_segments child) as Hdiv by (split; [apply Z.div_pos; lia|apply Z.div_lt_upper_bound; lia]).
    assert (seqZ 0 (bc_segments child) !! Z.to_nat (row / page_rows g) = Some (row / page_rows g)) as Hk by (apply lookup_seqZ; lia).
    destruct (Forall2_lookup_l _ _ _ _ _ Hreply Hk) as (raw & Hraw & Hpr). replace (row / page_rows g * page_rows g + row mod page_rows g) with row in Hpr by lia.
    fold row in Hb. rewrite Hb in Hpr. injection Hpr as <-. destruct (Forall2_lookup_l _ _ _ _ _ Hess Hraw) as (es1 & Hes1 & Hd1). rewrite Hd in Hd1. injection Hd1 as <-.
    apply (filter_concat_one _ ess _ es e Hes1).
    - rewrite <- Hfil. clear -Hfil Ho. assert (forall x, x ∈ filter (fun e => pe_tag e = wanted) es -> ordinal x = Z.of_nat i) as Hx by (rewrite Hfil; by intros x ->%list_elem_of_singleton).
      clear Hfil. induction es as [|x es IH]; [done|]. rewrite !filter_cons in *. unfold hit at 1. destruct (decide (pe_tag x = wanted)) as [Et|Et].
      + rewrite decide_True by (split; [done|apply Hx; left]). f_equal. apply IH. intros y Hy. apply Hx. by right.
      + rewrite decide_False by (by intros [? _]). by apply IH.
    - intros j es' Hne' Hj. destruct (filter (hit wanted (Z.of_nat i)) es') as [|x k] eqn:Ef; [done|]. exfalso.
      assert (x ∈ filter (hit wanted (Z.of_nat i)) es') as [[Ht Hox] Hx]%list_elem_of_filter by (rewrite Ef; left).
      destruct (Forall2_lookup_r _ _ _ _ _ Hess Hj) as (raw' & Hraw' & Hd'). destruct (Forall2_lookup_r _ _ _ _ _ Hreply Hraw') as (z & Hz & Hpr').
      apply lookup_seqZ in Hz as [-> Hz]. assert (0 <= (0 + Z.of_nat j) * page_rows g + row mod page_rows g) as H0 by nia. pose proof (Huni i _ _ _ x Hlt H0 Hpr' Hd' Hx Ht Hox) as E. fold row in E. apply Hne'.
      enough (row / page_rows g = Z.of_nat j) by lia. symmetry. apply (Z.div_unique_pos _ _ _ (row mod page_rows g)); [done|lia]. }
  rewrite (search_rows_run _ _ _ answers ess Hess None (Some e)); [done|done|]. rewrite Hhits. apply Forall_singleton. intros n En. destruct Hcount as [Hx|Hx]; rewrite En in Hx; [done|]. injection Hx as ->. exact Hn.
Qed.

(** ** Boundaries *)

Definition boundary_of (f : list TransparentEvent) (b : PageBoundary) : Prop := bo_bytes b = encoded_len f /\ last f = Some (bo_last b).

Lemma boundary_run prev f : fragment_ok f ->
  (forall b, prev = Some b -> exists e, boundary_of e b /\ out_of_order (e ++ f) = false /\ greedy [e; f]) ->
  exists b, validate_page_boundary prev f = Ok b /\ boundary_of f b.
Proof using Type.
  intros [Hne Hfit] Hprev. unfold validate_page_boundary. destruct f as [|x f]; [done|]. cbn [head ok_or fails]. run_ok.
  assert (match prev with Some p => key_gt (sort_key (bo_last p)) (sort_key x) || (bo_bytes p + event_len x (Some (bo_last p)) <=? FRAGMENT_PAYLOAD) | None => false end = false) as ->.
  { destruct prev as [b|]; [|done]. destruct (Hprev b eq_refl) as (e & [Hb Hl] & Ho & Hgr & _). specialize (Hgr x eq_refl). rewrite encoded_len_snoc, Hl in Hgr.
    rewrite Hb, (proj2 (Z.leb_gt _ _)), orb_false_r by lia. destruct e as [|y e _] using rev_ind; [done|]. rewrite last_snoc in Hl. injection Hl as ->.
    rewrite <- app_assoc in Ho. apply in_order_sorted, sorted_app_inv in Ho as [_ Ho]. cbn [app] in Ho. apply in_order_sorted in Ho. cbn [out_of_order] in Ho. by apply orb_false_iff in Ho as [? _]. }
  destruct (last (x :: f)) as [y|] eqn:El; [|by apply last_None in El]. run_ok. eexists. split; [done|]. split; [|done]. cbn [bo_bytes].
  change FRAGMENT_PAYLOAD with 4052 in Hfit. apply as_u32_small. pose proof (encoded_len_from_nonneg None (x :: f)). unfold encoded_len, u32_limit in *. lia.
Qed.

(** ** The other fragments of a run *)

Definition row_requests (c : nat) (from n : nat) : list RowRequest := map (fun i => MkRowRequest (Z.of_nat c) (Z.of_nat i)) (seq from n).

Lemma plan_fragments_run c child p s l r older n i : children !! c = Some child -> run_stored g child s p l r -> (i + n = length (fragments r))%nat ->
  plan_fragments wk (MkRunCursor (Z.of_nat c) (Z.of_nat p) older) (Z.of_nat i) n = Ok (row_requests c (p + i) n).
Proof using All.
  intros Hc Hst. revert i. induction n as [|n IH]; intros i Hi; cbn [plan_fragments]; [done|]. cbn [cu_child cu_row].
  destruct Hst as [H1 H2 H3 H4 H5 H6]. rewrite (locate_run c child) by (done || (unfold blen in *; lia)). run_ok.
  replace (Z.of_nat i + 1) with (Z.of_nat (S i)) by lia. rewrite (IH (S i)) by (done || lia). run_ok. unfold row_requests. cbn [seq map].
  replace (Z.of_nat p + Z.of_nat i) with (Z.of_nat (p + i)) by lia. by replace (p + S i)%nat with (S (p + i)) by lia.
Qed.

Lemma take_answers_run c child s p l r unsent fs : children !! c = Some child -> run_stored g child s p l r ->
  forall i item boundary prev acc, drop i (fragments r) = fs -> pp_script item = s -> blen (pp_fragments item) = Z.of_nat i -> boundary_of prev boundary ->
  greedy (prev :: fs) -> Forall fragment_ok fs -> out_of_order (prev ++ concat fs) = false ->
  exists raws, take_answers wk (Z.of_nat c) unsent (blen (fragments r)) (map fetch (row_requests c (p + i) (length fs))) item boundary acc =
    Ok (MkPending (pp_id item) s (pp_cursor item) (pp_carried item) (pp_fragments item ++ raws) (pp_attempts item), acc ++ concat fs) /\ length raws = length fs.
Proof using All.
  intros Hc Hst. induction fs as [|f fs IH]; intros i item boundary prev acc Hd Hs Hi Hb Hg Hok Ho.
  { exists []. cbn. rewrite !app_nil_r. split; [|done]. subst s. by destruct item. }
  assert (fragments r !! i = Some f) as Hf by (rewrite <- (Nat.add_0_r i), <- lookup_drop, Hd; done).
  destruct (fragment_run c child s p l r i f (Some (blen (fragments r))) Hc Hst Hf (or_intror eq_refl)) as (e & He & [E1 E2 E3 E4 (raw & Hraw)]).
  unfold row_requests. cbn [length seq map take_answers]. rewrite Hs, Hi, He. cbn [with_dummies]. run_ok. apply Forall_cons in Hok as [Hfo Hok].
  destruct Hg as [Hgr Hg]. cbn [concat] in Ho.
  destruct (boundary_run (Some boundary) f Hfo) as (b & Hbr & Hb').
  { intros b [= <-]. exists prev. split_and!; [done| |done]. apply in_order_sorted. apply in_order_sorted in Ho. rewrite app_assoc in Ho. by apply sorted_app_inv in Ho as [? _]. }
  rewrite E3, Hbr. cbn [with_dummies]. run_ok. rewrite Hraw. cbn [as_failure]. run_ok.
  destruct (IH (S i) (with_fragment item raw) b f (acc ++ f)) as (raws & Hrun & Hlen); try done.
  { apply (f_equal (drop 1)) in Hd. rewrite drop_drop in Hd. cbn in Hd. by replace (i + 1)%nat with (S i) in Hd by lia. }
  { cbn [with_fragment pp_fragments]. rewrite blen_app. change (blen [raw]) with 1. lia. }
  { apply in_order_sorted. apply in_order_sorted in Ho. by apply sorted_app_inv in Ho as [_ ?]. }
  exists (raw :: raws). replace (S (p + i)) with (p + S i)%nat by lia. cbn [length]. split; [|by rewrite Hlen].
  unfold row_requests in Hrun. rewrite Hrun. cbn [with_fragment pp_id pp_cursor pp_carried pp_fragments pp_attempts]. by rewrite <- !app_assoc.
Qed.

(** ** Checks *)

Lemma not_increasing_suffix l1 l2 : not_increasing (l1 ++ l2) = false -> not_increasing l2 = false.
Proof using Type.
  induction l1 as [|x l1 IH]; [done|]. cbn [app not_increasing]. destruct (l1 ++ l2) as [|y l] eqn:E; [by apply app_nil in E as [_ ->]|].
  intros [_ H]%orb_false_iff. by apply IH.
Qed.

Lemma not_increasing_prefix l1 l2 : not_increasing (l1 ++ l2) = false -> not_increasing l1 = false.
Proof using Type.
  induction l1 as [|x l1 IH]; [done|]. cbn [app not_increasing]. destruct l1 as [|y l1]; [done|]. cbn [app]. intros [H1 H2]%orb_false_iff. apply orb_false_iff. split; [done|by apply IH].
Qed.

Lemma pushed_outside_run child r0 r carried : forall i, drop i r0 = r -> (i <= length r0)%nat -> length carried = 2%nat -> pushed_while_open child r0 carried ->
  pushed_outside (describe child g) r (r0 ++ carried) i = Ok false.
Proof using Type.
  induction r as [|x r IH]; intros i Hd Hi Hc Hp; cbn [pushed_outside]; [done|].
  assert (i < length r0)%nat as Hlt by (apply (f_equal length) in Hd; rewrite length_drop in Hd; cbn [length] in Hd; lia).
  destruct (lookup_lt_is_Some_2 (r0 ++ carried) (i + 2)%nat) as [e He]; [rewrite length_app; lia|]. unfold at_index. rewrite He. run_ok. pose proof (Hp i e Hlt He) as Hin. cbn [describe pc_start pc_end].
  rewrite (proj2 (Z.ltb_ge (event_height e) _)), (proj2 (Z.ltb_ge (bc_end child) _)) by lia. cbn [orb]. apply IH; try done; try lia.
  apply (f_equal (drop 1)) in Hd. rewrite drop_drop in Hd. cbn in Hd. by replace (i + 1)%nat with (S i) in Hd by lia.
Qed.

Lemma check_run_ok child r carried : r <> [] -> length carried = 2%nat -> not_increasing (r ++ carried) = false -> pushed_while_open child r carried ->
  check_run (describe child g) r carried = Ok ().
Proof using Type.
  intros Hr Hc Hn Hp. unfold check_run. assert (blen r <> 0) as H0 by (destruct r as [|x r]; [done|rewrite blen_cons; pose proof (blen_nonneg r); lia]).
  destruct (Z.eqb_spec (blen r) 0); [done|]. assert (blen carried = INLINE_EVENTS) as -> by (unfold blen, INLINE_EVENTS; lia). cbn [negb orb Z.eqb INLINE_EVENTS Pos.eqb].
  rewrite Hn. rewrite (pushed_outside_run child r r carried 0) by (done || lia). by run_ok.
Qed.

Lemma key_gt_asym a : forall b, key_gt b a = true -> key_gt a b = false.
Proof using Type.
  induction a as [|x a IH]; intros [|y b]; cbn [key_gt]; try done. rewrite (Z.eqb_sym x y). destruct (Z.eqb_spec y x); [apply IH|].
  destruct (Z.ltb_spec x y), (Z.ltb_spec y x); auto; lia.
Qed.

Lemma increasing_in_order l : not_increasing l = false -> out_of_order l = false.
Proof using Type.
  induction l as [|a [|b l] IH]; [done..|]. cbn [not_increasing out_of_order]. intros [H1%negb_false_iff H2]%orb_false_iff. rewrite (key_gt_asym _ _ H1). by apply IH.
Qed.

Context {S : Type} `{!WalletStore S, !StoreLaws S}.

Lemma cached_miss store s c child : misses store -> children !! c = Some child -> cached wk store s (Z.of_nat c) = Ok None.
Proof using Hwk.
  intros Hm Hc. unfold cached. rewrite (page_child_run c child Hc). run_ok. destruct (pc_sealed _); [|done]. cbn [negb]. rewrite Nat2Z.id. cbn [cached_runs].
  destruct (lookup_lt_is_Some_2 (wk_identities wk) c) as [d Hd]; [rewrite (wo_identities _ _ Hwk); by eapply lookup_lt_Some|]. unfold at_index. rewrite Hd. run_ok. by rewrite Hm.
Qed.

(** What a chain says of the run before *)
Inductive run_before (s : script) (c : nat) : option (Z * Z) -> Z -> Prop :=
| before_none : run_before s c None 0
| before_some pc child p l r n : children !! pc = Some child -> run_stored g child s p l r -> (pc < c)%nat -> 1 <= n <= Z.of_nat pc + 1 ->
    run_before s c (Some (Z.of_nat pc, Z.of_nat p + 1)) n.

Lemma chain_before s prev n old carried c : chain g children s prev n old carried -> (forall pc pr, prev = Some (pc, pr) -> pc < Z.of_nat c) ->
  run_before s c prev n.
Proof using Type.
  intros Hch Hlt. pose proof (chain_head_bound _ _ _ _ _ _ _ Hch) as (_ & _ & Hb). destruct Hch as [|pc child p prev n old r carried Hc Hr _ _ _ Hch]; [constructor|].
  destruct (Hb _ _ eq_refl) as (_ & Hn & _). apply chain_head_bound in Hch as (H0 & _). specialize (Hlt _ _ eq_refl). econstructor; try done; lia.
Qed.

Lemma check_located_run store s c child p prev n r f h older : misses store -> children !! c = Some child -> run_stored g child s p (link_to prev n) r ->
  run_before s c prev n -> fragment_of child s (link_to prev n) r 0 f h -> (older = None \/ older = Some n) ->
  check_located wk store s h (MkRunCursor (Z.of_nat c) (Z.of_nat p) older) 1 = Ok ().
Proof using Hwk.
  intros Hm Hc [H1 H2 H3 H4 H5 H6] Hprev [E1 E2 E3 E4 _] Ho. rewrite decide_True in E4 by done. unfold check_located. cbn [cu_row cu_child]. rewrite E2.
  pose proof (fragments_some r H1) as Hfs. rewrite checked_minus_Ok by lia. run_ok. rewrite (locate_run c child) by (done || lia). cbn [as_failure]. run_ok.
  assert (check_head h (MkRunCursor (Z.of_nat c) (Z.of_nat p) older) = Ok () /\
    match previous_run (link h) with Some (pc, row) => locate wk pc row = Ok (MkRowRequest pc row) | None => True end) as [-> Hl].
  { unfold check_head. cbn [cu_older cu_child]. rewrite E4. destruct Hprev as [|pc pchild pp pl pr n Hpc Hps Hlt Hn]; cbn [link_to older_runs prev_row prev_child].
    - split; [|done]. cbn [no_link older_runs]. rewrite (proj2 (Z.ltb_ge (Z.of_nat c) 0)) by lia. by destruct Ho as [-> | ->].
    - unfold previous_run. cbn [prev_row prev_child]. destruct (Z.eqb_spec (Z.of_nat pp + 1) 0); [lia|]. replace (Z.of_nat pp + 1 - 1) with (Z.of_nat pp) by lia. split.
      + rewrite (proj2 (Z.ltb_ge (Z.of_nat c) n)), (proj2 (Z.leb_gt (Z.of_nat c) _)) by lia. destruct Ho as [-> | ->]; [done|]. by rewrite Z.eqb_refl.
      + destruct Hps as [Q1 Q2 Q3 _ _ _]. pose proof (fragments_some pr Q1). apply (locate_run pc pchild); [done|lia]. }
  cbn [fails]. run_ok. destruct (previous_run (link h)) as [[pc row]|]; [rewrite Hl; by run_ok|done].
Qed.

(** The first fragment of a run, read and checked *)
Lemma head_run store s c child p prev n r older : misses store -> children !! c = Some child -> run_stored g child s p (link_to prev n) r ->
  run_before s c prev n -> (older = None \/ older = Some n) ->
  exists h f raw, fragment wk s (Z.of_nat c) (fetch (MkRowRequest (Z.of_nat c) (Z.of_nat p))) 0 None = Ok h /\
    check_located wk store s h (MkRunCursor (Z.of_nat c) (Z.of_nat p) older) 1 = Ok () /\ encode_fragment h = Ok raw /\
    fragments r !! 0%nat = Some f /\ fragment_of child s (link_to prev n) r 0 f h.
Proof using All.
  intros Hm Hc Hst Hprev Ho. pose proof (rs_some _ _ _ _ _ _ Hst) as Hne. pose proof (fragments_some r Hne) as Hfs.
  destruct (lookup_lt_is_Some_2 (fragments r) 0) as [f Hf]; [unfold blen in Hfs; lia|].
  destruct (fragment_run c child s p _ r 0 f None Hc Hst Hf (or_introl eq_refl)) as (h & Hh & Hof). rewrite Nat.add_0_r in Hh. change (Z.of_nat 0) with 0 in Hh.
  destruct (fo_encodes _ _ _ _ _ _ _ Hof) as (raw & Hraw). exists h, f, raw. split_and!; try done. by eapply check_located_run.
Qed.

(** ** Commits *)

Definition within (e : TransparentEvent) : Prop := wk_start wk <= event_height e <= wk_end wk.

(** A commit of the walk of a script: its events up to the target, and the state of the walk *)
Record walk_commit (s : script) (events : list TransparentEvent) (progressed : option PendingPages) (finished : option Z) (c : ShardCommit) : Prop := {
  wc_script : sc_script c = s; wc_events : sc_events c = filter (fun e => event_height e <= an_height (wk_target wk)) events;
  wc_covered : sc_covered c = match progressed with None => [s] | Some _ => [] end;
  wc_pending : sc_pending c = option_list progressed; wc_complete : sc_complete c = option_list finished;
  wc_source : sc_source c = Some (MkAnchor (wk_end wk) (wk_terminal wk)); wc_end : sc_end c = Z.min (wk_end wk) (an_height (wk_target wk)) }.

Lemma commit_run store s events progressed finished cs : Forall within events -> (forall item, progressed = Some item -> Forall within (pp_carried item)) ->
  exists store' c, commit wk store s events progressed finished cs = Ok store' /\ store_log store' = store_log store ++ [c] /\
    walk_commit s events progressed finished c /\ (cs = [] -> misses store -> misses store').
Proof using Type.
  intros He Hp. unfold commit, commit_bounded. cbn [sc_end sc_terminal sc_start sc_events sc_pending sc_script sc_covered sc_complete sc_cached].
  match goal with |- context [existsb ?f ?l] => assert (existsb f l = false) as -> end.
  { assert (Forall within (events ++ concat (map pp_carried (option_list progressed)))) as Hw.
    { apply Forall_app. split; [done|]. destruct progressed as [item|]; [|constructor]. cbn. rewrite app_nil_r. by apply Hp. }
    clear -Hw. induction Hw as [|x l [H1 H2] _ IH]; [done|]. cbn [existsb]. rewrite IH, orb_false_r. cbn. apply orb_false_iff. split; apply Z.ltb_ge; lia. }
  set (pair := if an_height (wk_target wk) <=? wk_end wk then _ else _).
  assert (fst pair = Z.min (wk_end wk) (an_height (wk_target wk))) as Hpair by (unfold pair; destruct (Z.leb_spec (an_height (wk_target wk)) (wk_end wk)); cbn [fst]; lia).
  destruct pair as [e t]. cbn [fst] in Hpair.
  match goal with |- context [commit_shard store ?c] => destruct (commit_law store c) as (store' & -> & Hl & Hm); exists store', c end.
  split_and!; [done|done|by constructor|]. intros -> Hms d s'. by rewrite Hm.
Qed.

Lemma commit_entry_run store s e : Forall within (inline e) ->
  exists store' c, commit_entry wk store s (Some e) = Ok store' /\ store_log store' = store_log store ++ [c] /\
    walk_commit s (inline e) (pending_of s e) None c /\ (misses store -> misses store').
Proof using Type.
  intros He. assert (forall item, pending_of s e = Some item -> Forall within (pp_carried item)) as Hp.
  { unfold pending_of. intros item Hi. destruct (directory_head e) as [[c row]|]; [|done]. by injection Hi as <-. }
  destruct (commit_run store s (inline e) (pending_of s e) None [] He Hp) as (store' & c & Hc & Hlog & Hwc & Hm).
  exists store', c. split; [|split_and!; [done|done|by apply Hm]]. rewrite <- Hc. unfold commit_entry, commit. cbn [option_bind mbind].
  by destruct (pending_of s e).
Qed.

(** ** Rounds *)

Definition walked_ok (l : list (Z * list TransparentEvent)) : Prop := Forall (fun x => exists k, x.1 = Z.of_nat k /\ is_Some (children !! k)) l.

Lemma cache_walked_run s l : walked_ok l -> forall below, exists cs, cache_walked wk s l below = Ok cs.
Proof using Hwk.
  induction 1 as [|[z events] l (k & E & child & Hc) _ IH]; intros below; cbn [cache_walked]; [by exists []|]. cbn [fst] in E. subst z.
  rewrite (page_child_run k child Hc). run_ok. destruct (pc_sealed _); [|by exists []]. cbn [negb]. rewrite Nat2Z.id.
  destruct (lookup_lt_is_Some_2 (wk_identities wk) k) as [d Hd]; [rewrite (wo_identities _ _ Hwk); by eapply lookup_lt_Some|]. unfold at_index. rewrite Hd. run_ok.
  destruct (IH (Some d)) as [cs ->]. run_ok. by eexists.
Qed.

(** The walk is at a run, with its first fragment. *)
Record at_run (id : option Z) (w : Walk) (s : script) (c p : nat) (child : BuiltChild) (l : RunLink) (r carried : list TransparentEvent) : Prop := {
  ar_id : pp_id (w_item w) = id; ar_script : pp_script (w_item w) = s;
  ar_cursor : exists older, pp_cursor (w_item w) = MkRunCursor (Z.of_nat c) (Z.of_nat p) older;
  ar_carried : pp_carried (w_item w) = carried;
  ar_head : exists h f, w_head w = Some h /\ fragments r !! 0%nat = Some f /\ fragment_of child s l r 0 f h;
  ar_fragments : length (pp_fragments (w_item w)) = 1%nat; ar_walked : walked_ok (w_walked w); ar_done : w_done w = false }.

(** What is asked of a run so that the walk takes it *)
Record readable (s : script) (c p : nat) (child : BuiltChild) (prev : option (Z * Z)) (n : Z) (r carried : list TransparentEvent) : Prop := {
  rd_child : children !! c = Some child; rd_stored : run_stored g child s p (link_to prev n) r; rd_before : run_before s c prev n;
  rd_carried : length carried = 2%nat; rd_open : pushed_while_open child r carried; rd_order : not_increasing (r ++ carried) = false;
  rd_fits : Forall event_fits r; rd_within : Forall within (r ++ carried) }.

Lemma link_previous prev n s c : run_before s c prev n ->
  previous_run (link_to prev n) = match prev with Some (pc, pr) => Some (pc, pr - 1) | None => None end /\ older_runs (link_to prev n) = n.
Proof using Type.
  destruct 1 as [|pc child p l r n _ _ _ Hn]; [done|]. unfold previous_run. cbn [link_to prev_row prev_child older_runs]. destruct (Z.eqb_spec (Z.of_nat p + 1) 0); [lia|done].
Qed.

Lemma plan_run id store w s c p child prev n r carried : misses store -> readable s c p child prev n r carried -> at_run id w s c p child (link_to prev n) r carried ->
  plan wk store w = Ok (row_requests c (p + 1) (length (fragments r) - 1) ++ match prev with Some (pc, pr) => [MkRowRequest pc (pr - 1)] | None => [] end, None).
Proof using All.
  intros Hm [Hc Hst Hb Hl Hop Hor Hfi Hwi] [Hid Hs [older Hcu] Hca (h & f & Hh & Hf & [E1 E2 E3 E4 _]) Hfr _ _]. rewrite decide_True in E4 by done.
  unfold plan. rewrite Hh, Hcu, E2, Hs. assert (blen (pp_fragments (w_item w)) = Z.of_nat 1) as -> by (unfold blen; by rewrite Hfr).
  pose proof (lookup_lt_Some _ _ _ Hf) as Hlt. rewrite (plan_fragments_run c child p s (link_to prev n) r) by (done || (unfold blen; lia)). run_ok.
  replace (Z.to_nat (blen (fragments r) - Z.of_nat 1)) with (length (fragments r) - 1)%nat by (unfold blen; lia).
  rewrite E4, (proj1 (link_previous _ _ _ _ Hb)). destruct Hb as [|pc pchild pp pl pr n Hpc Hps Hltc Hn]; [by rewrite app_nil_r|].
  rewrite (cached_miss store s pc pchild Hm Hpc). run_ok. destruct Hps as [Q1 Q2 Q3 _ _ _]. pose proof (fragments_some pr Q1).
  rewrite (locate_run pc pchild) by (done || lia). by run_ok.
Qed.

(** The run is read in full: what [advance] does up to the check of the run *)
Lemma run_read id w s c p child l r carried unsent : children !! c = Some child -> run_stored g child s p l r -> Forall event_fits r -> not_increasing (r ++ carried) = false ->
  at_run id w s c p child l r carried -> forall h, w_head w = Some h ->
  exists boundary raws, validate_page_boundary None (pe_events h) = Ok boundary /\ tail (pp_fragments (w_item w)) = [] /\
    take_answers wk (Z.of_nat c) unsent (blen (fragments r)) (map fetch (row_requests c (p + 1) (length (fragments r) - 1))) (w_item w) boundary (pe_events h) =
      Ok (MkPending id s (pp_cursor (w_item w)) carried (pp_fragments (w_item w) ++ raws) (pp_attempts (w_item w)), r) /\
    length (pp_fragments (w_item w) ++ raws) = length (fragments r).
Proof using All.
  intros Hc Hst Hfi Hor [Hid Hs Hcu Hca (h' & f & Hh & Hf & [E1 E2 E3 E4 _]) Hfr _ _] h Hh'. rewrite Hh in Hh'. injection Hh' as <-.
  destruct (fragments_spec r Hfi) as (Hcat & Hok & Hgr). apply not_increasing_prefix, increasing_in_order in Hor. rewrite <- Hcat in Hor.
  destruct (fragments r) as [|f0 fs] eqn:Hfrag; [done|]. injection Hf as ->. apply Forall_cons in Hok as [Hf0 Hok]. cbn [concat] in Hcat, Hor.
  destruct (boundary_run None f Hf0) as (boundary & Hbd & Hbo); [done|].
  destruct (take_answers_run c child s p l r unsent fs Hc Hst 1 (w_item w) boundary f f) as (raws & Hrun & Hlen); try done.
  { by rewrite Hfrag. } { unfold blen. by rewrite Hfr. }
  exists boundary, raws. rewrite E3. split; [done|]. split; [by destruct (pp_fragments (w_item w)) as [|? [|]]|]. cbn [length]. rewrite Nat.sub_succ, Nat.sub_0_r.
  rewrite Hfrag in Hrun. rewrite Hrun, Hid, Hca, Hcat. split; [done|]. rewrite length_app, Hfr. lia.
Qed.

(** [advance] with every reply of a round, up to what the last reply is for *)
Lemma advance_read id store w s c p child prev n r carried next : readable s c p child prev n r carried -> at_run id w s c p child (link_to prev n) r carried ->
  (length next <= 1)%nat ->
  exists h item, fragments r <> [] /\ pp_id item = id /\ pp_carried item = carried /\ pp_script item = s /\
    let walked := w_walked w ++ [(Z.of_nat c, r)] in
    let w1 := MkWalk item (Some h) walked false in
    advance wk store w (map fetch (row_requests c (p + 1) (length (fragments r) - 1)) ++ next) None =
    match prev with
    | None => sw ← as_failure (walk_finish wk store w1 r None); let (store, w) := sw : S * Walk in Ok (store, w, None)
    | Some (child, row) =>
        older_left ← panics (checked_minus n 1);
        let progressed := MkPending id s (MkRunCursor child (row - 1) (Some older_left)) (take 2 (r ++ carried)) [] (pp_attempts item) in
        phf ← next_head wk store s progressed next;
        let '(progressed, next_h, failure) := phf : PendingPages * option PageEntry * option Failure in
        let progressed := MkPending (pp_id progressed) (pp_script progressed) (pp_cursor progressed) (pp_carried progressed)
                            (pp_fragments progressed) (pp_attempts progressed + 1) in
        store ← as_failure (commit wk store s r (Some progressed) None []);
        Ok (store, MkWalk progressed next_h walked false, failure)
    end.
Proof using All.
  intros [Hc Hst Hb Hl Hop Hor Hfi Hwi] Hat Hnext. pose proof Hat as [Hid Hs [older Hcu] Hca (h & f & Hh & Hf & [E1 E2 E3 E4 _]) Hfr Hwa Hdone].
  rewrite decide_True in E4 by done. pose proof (lookup_lt_Some _ _ _ Hf) as Hlt. set (fs := fragments r) in *.
  unfold advance. rewrite Hh, Hcu, Hs, E2. cbn [cu_child]. assert (blen (pp_fragments (w_item w)) = 1) as Hb1 by (unfold blen; by rewrite Hfr). rewrite Hb1.
  rewrite (proj2 (Z.ltb_ge (blen fs) 1)) by (unfold blen; lia). set (own := map fetch _). assert (length own = (length fs - 1)%nat) as Hown by (unfold own; rewrite length_map; unfold row_requests; by rewrite length_map, length_seq).
  replace (Z.to_nat (blen fs - 1)) with (length own) by (unfold blen; lia). rewrite take_app_length, drop_app_length.
  rewrite (proj2 (Z.ltb_ge 1 (blen next))) by (unfold blen; lia). match goal with |- context [with_dummies (Z.of_nat c) ?u _] => set (unsent := u) end.
  destruct (run_read id w s c p child (link_to prev n) r carried unsent Hc Hst Hfi Hor Hat h Hh) as (boundary & raws & Hbd & Htail & Hta & Hlen). fold fs own in Hta, Hlen.
  set (item := MkPending id s _ carried _ _) in Hta. exists h, item. split; [by destruct fs|]. split_and!; [done..|].
  rewrite Hbd. cbn [with_dummies]. run_ok. rewrite Htail. cbn [recheck with_dummies]. run_ok. rewrite Hta. run_ok.
  rewrite (proj2 (Z.ltb_ge _ _)) by (unfold item, blen; cbn [pp_fragments]; lia). rewrite (page_child_run c child Hc). cbn [fails as_failure]. run_ok.
  rewrite check_run_ok; [|by apply Hst|done..]. cbn [with_dummies]. run_ok. rewrite Hdone, E4, (proj1 (link_previous _ _ _ _ Hb)).
  destruct prev as [[pc pr]|]; [|done]. rewrite (proj2 (link_previous _ _ _ _ Hb)). destruct (checked_minus n 1); run_ok; done.
Qed.

(** The oldest run: the walk ends, and what it read is covered. *)
Lemma advance_last id store w s c p child r carried : readable s c p child None 0 r carried -> at_run id w s c p child (link_to None 0) r carried ->
  exists store' w' cm, advance wk store w (map fetch (row_requests c (p + 1) (length (fragments r) - 1))) None = Ok (store', w', None) /\
    w_done w' = true /\ store_log store' = store_log store ++ [cm] /\ walk_commit s r None id cm.
Proof using All.
  intros Hrd Hat. destruct (advance_read id store w s c p child None 0 r carried [] Hrd Hat ltac:(cbn; lia)) as (h & item & _ & Hi & Hca & Hs & Hadv).
  rewrite app_nil_r in Hadv. rewrite Hadv. clear Hadv. unfold walk_finish. run_ok. cbn [last w_item w_walked].
  destruct (cache_walked_run (pp_script item) (rev (w_walked w ++ [(Z.of_nat c, r)]))) with (below := @None (list byte)) as [cs ->].
  { unfold walked_ok. apply List.Forall_rev. apply Forall_app. split; [apply Hat|]. apply Forall_singleton. exists c. split; [done|]. rewrite (rd_child _ _ _ _ _ _ _ _ Hrd). by eexists. }
  run_ok. destruct (commit_run store s r None id cs) as (store' & cm & Hcm & Hlog & Hwc & _); [by destruct (proj1 (Forall_app _ _ _) (rd_within _ _ _ _ _ _ _ _ Hrd))|done|].
  rewrite Hs, Hi. cbn [app]. rewrite Hcm. run_ok. cbn [as_failure]. run_ok. by eexists _, _, cm.
Qed.

(** A run with a link: what was read is committed, and the walk is at the run before. *)
Lemma advance_next id store w s c p child pc pp pchild prev n r pr carried : misses store ->
  readable s c p child (Some (Z.of_nat pc, Z.of_nat pp + 1)) (n + 1) r carried -> at_run id w s c p child (link_to (Some (Z.of_nat pc, Z.of_nat pp + 1)) (n + 1)) r carried ->
  children !! pc = Some pchild -> run_stored g pchild s pp (link_to prev n) pr -> run_before s pc prev n -> 0 <= n ->
  exists store' w' item cm,
    advance wk store w (map fetch (row_requests c (p + 1) (length (fragments r) - 1) ++ [MkRowRequest (Z.of_nat pc) (Z.of_nat pp)])) None = Ok (store', w', None) /\
    at_run id w' s pc pp pchild (link_to prev n) pr (take 2 (r ++ carried)) /\ misses store' /\
    store_log store' = store_log store ++ [cm] /\ walk_commit s r (Some item) None cm.
Proof using All.
  intros Hm Hrd Hat Hpc Hps Hpb Hn. rewrite map_app. cbn [map].
  destruct (advance_read id store w s c p child _ _ r carried [fetch (MkRowRequest (Z.of_nat pc) (Z.of_nat pp))] Hrd Hat ltac:(cbn; lia)) as (h & item & _ & Hi & Hca & Hs & ->).
  rewrite checked_minus_Ok by lia. run_ok. replace (n + 1 - 1) with n by lia. replace (Z.of_nat pp + 1 - 1) with (Z.of_nat pp) by lia.
  destruct (head_run store s pc pchild pp prev n pr (Some n) Hm Hpc Hps Hpb (or_intror eq_refl)) as (h' & f & raw & Hf & Hloc & Hraw & Hf0 & Hof).
  cbn [next_head pp_cursor cu_child]. rewrite Hf. cbn [as_failure]. run_ok. rewrite Hloc. run_ok. rewrite Hraw. cbn [as_failure]. run_ok.
  cbn [with_fragment pp_id pp_script pp_cursor pp_carried pp_fragments pp_attempts app]. set (progressed := MkPending _ _ _ _ _ _).
  destruct (commit_run store s r (Some progressed) None []) as (store' & cm & -> & Hlog & Hwc & Hm'); [by destruct (proj1 (Forall_app _ _ _) (rd_within _ _ _ _ _ _ _ _ Hrd))| |].
  { intros i [= <-]. cbn [progressed pp_carried]. apply Forall_take, Hrd. }
  cbn [as_failure]. run_ok. eexists _, _, _, cm. split; [done|]. split; [|by split_and!; [apply Hm'| |]]. constructor; cbn; try done; [by eexists|by eexists _, _|].
  apply Forall_app. split; [apply Hat|]. apply Forall_singleton. exists c. split; [done|]. rewrite (rd_child _ _ _ _ _ _ _ _ Hrd). by eexists.
Qed.

(** The commits of a walk: newest run first, the script is covered with the last. *)
Record walk_log (s : script) (id : option Z) (old : list TransparentEvent) (cs : list ShardCommit) : Prop := {
  wl_script : Forall (fun c => sc_script c = s) cs;
  wl_events : concat (map sc_events (rev cs)) = filter (fun e => event_height e <= an_height (wk_target wk)) old;
  wl_last : exists init cm, cs = init ++ [cm] /\ Forall (fun c => sc_covered c = [] /\ sc_complete c = []) init /\
    sc_covered cm = [s] /\ sc_complete cm = option_list id /\ sc_pending cm = [] }.

Lemma walk_log_one s id r cm : walk_commit s r None id cm -> walk_log s id r [cm].
Proof using Type.
  intros [H1 H2 H3 H4 H5 _ _]. constructor; [by repeat constructor|cbn; by rewrite app_nil_r|]. exists [], cm. by split_and!.
Qed.

Lemma walk_log_cons s id old r item cm cs : walk_commit s r (Some item) None cm -> walk_log s id old cs -> walk_log s id (old ++ r) (cm :: cs).
Proof using Type.
  intros [H1 H2 H3 H4 H5 _ _] [W1 W2 (init & cm' & -> & W3 & W4)]. constructor; [by constructor| |].
  - cbn [rev]. rewrite map_app, concat_app, W2, filter_app. cbn. by rewrite app_nil_r, H2.
  - exists (cm :: init), cm'. split; [done|]. split; [|done]. constructor; [by split|done].
Qed.

(** The walk from a run on reads it and all older ones. *)
Definition walk_reads (s : script) (N : Z) (old carried : list TransparentEvent) (hd : option (Z * Z)) : Prop :=
  exists c p child prev n r, hd = Some (Z.of_nat c, Z.of_nat p + 1) /\ N = n + 1 /\ readable s c p child prev n r carried /\
    forall fuel id store w, (Z.to_nat N <= fuel)%nat -> misses store -> at_run id w s c p child (link_to prev n) r carried ->
    exists store' w' cs, walk_rounds wk fuel fetch store w = Ok (store', w') /\ w_done w' = true /\
      store_log store' = store_log store ++ cs /\ walk_log s id old cs.

Lemma walk_from s hd N old carried : chain g children s hd N old carried -> not_increasing (old ++ carried) = false -> Forall event_fits old ->
  Forall within (old ++ carried) -> hd <> None -> walk_reads s N old carried hd.
Proof using All.
  intros Hch. induction Hch as [|c child p prev n old r carried Hc Hst Hl Hop Hlt Hch IH]; intros Hor Hfi Hwi Hne; [done|].
  pose proof (chain_before _ _ _ _ _ _ Hch Hlt) as Hb. apply Forall_app in Hfi as [Hfo Hfr]. rewrite <- app_assoc in Hor, Hwi.
  assert (readable s c p child prev n r carried) as Hrd.
  { constructor; try done; [by eapply not_increasing_suffix|by apply Forall_app in Hwi as [_ ?]]. }
  exists c, p, child, prev, n, r. split_and!; [done..|]. intros fuel id store w Hfuel Hm Hat.
  pose proof (chain_head_bound _ _ _ _ _ _ _ Hch) as (Hn0 & _). destruct fuel as [|fuel]; [lia|]. cbn [walk_rounds]. unfold stop_at_cached.
  destruct (ar_head _ _ _ _ _ _ _ _ _ Hat) as (h & _ & Hh & _). rewrite Hh. cbn [as_failure]. run_ok. rewrite (ar_done _ _ _ _ _ _ _ _ _ Hat).
  rewrite (plan_run id store w s c p child prev n r carried Hm Hrd Hat). cbn [as_failure]. run_ok. destruct prev as [[pz prz]|].
  - destruct IH as (pc & pp & pchild & pprev & pn & pr & [= -> ->] & -> & Hprd & Hcont); [|done|rewrite <- (firstn_skipn 2 (r ++ carried)), app_assoc in Hwi; by apply Forall_app in Hwi as [? _]|done|].
    { rewrite <- (firstn_skipn 2 (r ++ carried)), app_assoc in Hor. by apply not_increasing_prefix in Hor. }
    replace (Z.of_nat pp + 1 - 1) with (Z.of_nat pp) by lia.
    pose proof (rd_stored _ _ _ _ _ _ _ _ Hprd) as Hps. pose proof (rd_before _ _ _ _ _ _ _ _ Hprd) as Hpb. pose proof (rd_child _ _ _ _ _ _ _ _ Hprd) as Hpc.
    assert (0 <= pn) as Hpn by (destruct Hpb; lia).
    destruct (advance_next id store w s c p child pc pp pchild pprev pn r pr carried Hm Hrd Hat Hpc Hps Hpb Hpn) as (store1 & w1 & item & cm & Hadv & Hat1 & Hm1 & Hlog1 & Hwc1).
    rewrite Hadv. run_ok. rewrite (ar_done _ _ _ _ _ _ _ _ _ Hat1).
    destruct (Hcont fuel id store1 w1) as (store2 & w2 & cs & Hrun & Hd & Hlog2 & Hwl); [lia|done|done|].
    exists store2, w2, (cm :: cs). split; [exact Hrun|]. split; [done|]. split; [by rewrite Hlog2, Hlog1, <- app_assoc|]. by eapply walk_log_cons.
  - assert (n = 0 /\ old = []) as [-> ->] by (inversion Hch; done). rewrite app_nil_r.
    destruct (advance_last id store w s c p child r carried Hrd Hat) as (store' & w' & cm & -> & Hd & Hlog & Hwc). run_ok. rewrite Hd.
    exists store', w', [cm]. split_and!; try done. by apply walk_log_one.
Qed.

(** The whole walk, from the pointer of a directory entry *)
Lemma walk_run s cz row N old carried id attempts fuel store : chain g children s (Some (cz, row)) N old carried ->
  not_increasing (old ++ carried) = false -> Forall event_fits old -> Forall within (old ++ carried) -> misses store -> (Z.to_nat N < fuel)%nat ->
  exists store' w' cs, walk_rounds wk fuel fetch store (MkWalk (MkPending id s (MkRunCursor cz (row - 1) None) carried [] attempts) None [] false) = Ok (store', w') /\
    w_done w' = true /\ store_log store' = store_log store ++ cs /\ walk_log s id old cs.
Proof using All.
  intros Hch Hor Hfi Hwi Hm Hfuel. destruct (walk_from s _ N old carried Hch Hor Hfi Hwi ltac:(done)) as (c & p & child & prev & n & r & [= -> ->] & -> & Hrd & Hcont).
  replace (Z.of_nat p + 1 - 1) with (Z.of_nat p) by lia. pose proof (rd_child _ _ _ _ _ _ _ _ Hrd) as Hc. pose proof (rd_stored _ _ _ _ _ _ _ _ Hrd) as Hst.
  destruct fuel as [|fuel]; [lia|]. cbn [walk_rounds]. unfold stop_at_cached. cbn [w_head w_item pp_cursor cu_child pp_script]. rewrite (cached_miss store s c child Hm Hc). run_ok. cbn [as_failure]. run_ok. cbn [w_done].
  unfold plan. cbn [w_head w_item pp_cursor cu_child cu_row]. destruct Hst as [Q1 Q2 Q3 Q4 Q5 Q6]. pose proof (fragments_some r Q1). rewrite (locate_run c child) by (done || lia). run_ok. cbn [as_failure map]. run_ok.
  destruct (head_run store s c child p prev n r None Hm Hc (rd_stored _ _ _ _ _ _ _ _ Hrd) (rd_before _ _ _ _ _ _ _ _ Hrd) (or_introl eq_refl)) as (h & f & raw & Hf & Hloc & Hraw & Hf0 & Hof).
  unfold advance. cbn [w_head w_item pp_cursor cu_child pp_script map]. rewrite Hf. cbn [as_failure]. run_ok. rewrite Hloc. run_ok. rewrite Hraw. cbn [as_failure]. run_ok.
  set (item := with_fragment _ raw). destruct (commit_run store s [] (Some item) None []) as (store1 & cm & -> & Hlog1 & Hwc1 & Hm1); [constructor| |].
  { intros i [= <-]. by apply Forall_app in Hwi as [_ ?]. }
  cbn [as_failure]. run_ok. cbn [w_done w_walked].
  destruct (Hcont fuel id store1 (MkWalk item (Some h) [] false)) as (store2 & w2 & cs & Hrun & Hd & Hlog2 & Hwl); [lia|by apply Hm1| |].
  { constructor; cbn; try done; [by eexists|by eexists _, _|constructor]. }
  exists store2, w2, (cm :: cs). split; [exact Hrun|]. split; [done|]. split; [by rewrite Hlog2, Hlog1, <- app_assoc|].
  pose proof (walk_log_cons s id old [] item cm cs Hwc1 Hwl) as Hx. by rewrite app_nil_r in Hx.
Qed.
End Honest.

(** ** The directory *)

(** Every segment of the directory answers. *)
Definition service_directory (tables : list (list byte)) (g : Geometry) (row : Z) : Reply :=
  map (fun k => match built_directory_row tables g (k * directory_rows g + row mod directory_rows g) with Ok bytes => bytes | Err _ => [] end)
    (seqZ 0 (blen tables)).

Definition first_hit (row : Z) (l : list DirectoryEntry) : option (Z * DirectoryEntry) := match l with e :: _ => Some (row, e) | [] => None end.

Section PickEntry.
Context (wanted : list byte) (row : Z).
Abbreviation hits := (filter (fun e => de_tag e = wanted)).

Definition after (found : option (Z * DirectoryEntry)) (l : list DirectoryEntry) : option (Z * DirectoryEntry) :=
  match found with Some f => Some f | None => first_hit row (hits l) end.

Lemma pick_entry_run l : forall found, (forall seen x, found = Some (seen, x) -> hits l <> [] -> seen = row) ->
  pick_entry row l wanted found = Ok (after found l).
Proof.
  induction l as [|e l IH]; intros found Hf; cbn [pick_entry]; [by destruct found|]. unfold after in *. rewrite filter_cons in *. destruct (decide (de_tag e = wanted)) as [E|E].
  - rewrite bool_decide_eq_true_2 by done. cbn [negb]. destruct found as [[seen x]|].
    + assert (seen = row) as -> by (by apply (Hf seen x)). rewrite Z.eqb_refl. apply IH. by intros s y [= <- <-].
    + rewrite IH; [done|]. by intros seen x [= <- <-].
  - rewrite bool_decide_eq_false_2 by done. by apply IH.
Qed.

Lemma search_reply_run children reply ess : Forall2 (fun raw es => decode_directory_row raw children = Ok es) reply ess -> forall found,
  (forall seen x, found = Some (seen, x) -> hits (concat ess) <> [] -> seen = row) -> search_reply row reply wanted children found = Ok (after found (concat ess)).
Proof.
  induction 1 as [|raw es reply ess Hd _ IH]; intros found Hf; cbn [search_reply]; [by destruct found|]. rewrite Hd. run_ok. cbn [concat] in Hf. rewrite filter_app in Hf.
  rewrite pick_entry_run by (intros seen x E Hn; apply (Hf seen x E); by destruct (hits es)). run_ok. rewrite IH.
  - unfold after. cbn [concat]. rewrite filter_app. destruct found; [done|]. by destruct (hits es).
  - intros seen x E Hn. unfold after in E. destruct found as [f|]; [apply (Hf seen x E); by destruct (hits es)|]. unfold first_hit in E. destruct (hits es) as [|y l]; [done|]. by injection E as <- <-.
Qed.
(** An entry that was seen in another row is refused. *)
Lemma reply_twice children reply ess : Forall2 (fun raw es => decode_directory_row raw children = Ok es) reply ess -> forall seen x,
  hits (concat ess) <> [] -> seen <> row -> search_reply row reply wanted children (Some (seen, x)) = Err (Failed (Content "a script tag twice")).
Proof.
  assert (forall l seen x, hits l <> [] -> seen <> row -> pick_entry row l wanted (Some (seen, x)) = Err (Content "a script tag twice")) as Hpick.
  { induction l as [|e l IH]; intros seen x Hh Hne; [done|]. cbn [pick_entry]. rewrite filter_cons in Hh. destruct (decide (de_tag e = wanted)) as [E|E].
    - rewrite bool_decide_eq_true_2 by done. cbn [negb]. by destruct (Z.eqb_spec seen row).
    - rewrite bool_decide_eq_false_2 by done. by apply IH. }
  induction 1 as [|raw es reply ess Hd _ IH]; intros seen x Hh Hne; [done|]. cbn [search_reply]. rewrite Hd. run_ok. cbn [concat] in Hh. rewrite filter_app in Hh.
  destruct (hits es) as [|y l] eqn:Ef; [|by rewrite Hpick by (done || by rewrite Ef)].
  rewrite pick_entry_run by (intros s y E; by rewrite Ef). run_ok. by apply IH.
Qed.
End PickEntry.

Lemma tag_row (held : list (list DirectoryEntry)) : NoDup (map de_tag (concat held)) -> forall i j li lj x y, held !! i = Some li -> held !! j = Some lj ->
  x ∈ li -> y ∈ lj -> de_tag x = de_tag y -> i = j.
Proof.
  induction held as [|l held IH]; intros Hn i j li lj x y Hi Hj Hx Hy E; [done|]. cbn [concat] in Hn. rewrite map_app in Hn. apply NoDup_app in Hn as (_ & Hd & Hn).
  assert (forall k lk z, held !! k = Some lk -> z ∈ lk -> de_tag z ∈ map de_tag (concat held)) as Hin.
  { intros k lk z Hk Hz. apply list_elem_of_fmap_2, list_elem_of_In, in_concat. exists lk. by split; apply list_elem_of_In; [eapply list_elem_of_lookup_2|]. }
  destruct i as [|i], j as [|j]; cbn in Hi, Hj; [done|exfalso..|f_equal; by eapply IH].
  - injection Hi as <-. apply (Hd (de_tag x)); [by apply list_elem_of_fmap_2|]. rewrite E. by eapply Hin.
  - injection Hj as <-. apply (Hd (de_tag y)); [by apply list_elem_of_fmap_2|]. rewrite <- E. by eapply Hin.
Qed.

Section Directory.
Context `{HS : !Sha256} (wk : Walker) (tables : list (list byte)) (table : option ChoiceTable) (held : list (list DirectoryEntry)).
Abbreviation g := (wk_geometry wk).
Abbreviation children := (blen (wk_children wk)).
Abbreviation R := (directory_rows (wk_geometry wk)).
Context (HR : 0 < R) (Hn : NoDup (map de_tag (concat held))).
Context (Hheld : Forall2 (fun r l => exists bytes, built_directory_row tables g (Z.of_nat r) = Ok bytes /\ decode_directory_row bytes children = Ok l)
  (seq 0 (Z.to_nat (R * blen tables))) held).

Lemma held_row row l bytes : 0 <= row < R * blen tables -> built_directory_row tables g row = Ok bytes -> decode_directory_row bytes children = Ok l ->
  held !! Z.to_nat row = Some l.
Proof using Hheld.
  intros Hr Hb Hd. assert (seq 0 (Z.to_nat (R * blen tables)) !! Z.to_nat row = Some (Z.to_nat row)) as Hk by (apply lookup_seq; lia).
  destruct (Forall2_lookup_l _ _ _ _ _ Hheld Hk) as (l' & Hl & b' & Hb' & Hd'). rewrite Z2Nat.id in Hb' by lia. congruence.
Qed.

(** The reply to a row holds the entry if the row lies at the same place of its segment. *)
Lemma reply_hits row l e q : 0 <= row < R * blen tables -> held !! Z.to_nat row = Some l -> filter (fun o => de_tag o = de_tag e) l = [e] ->
  exists ess, Forall2 (fun raw es => decode_directory_row raw children = Ok es) (service_directory tables g q) ess /\
    filter (fun o => de_tag o = de_tag e) (concat ess) = if decide (row mod R = q mod R) then [e] else [].
Proof using HR Hn Hheld.
  intros Hr Hl He. pose proof (Z.mod_pos_bound q R HR) as Hq. set (at_ := fun k => k * R + q mod R).
  set (ess := map (fun k => default [] (held !! Z.to_nat (at_ k))) (seqZ 0 (blen tables))). exists ess.
  assert (forall k, 0 <= k < blen tables -> exists bytes es, built_directory_row tables g (at_ k) = Ok bytes /\ decode_directory_row bytes children = Ok es /\ held !! Z.to_nat (at_ k) = Some es) as Hrow.
  { intros k Hk. assert (0 <= at_ k < R * blen tables) as Ha by (unfold at_; nia). assert (seq 0 (Z.to_nat (R * blen tables)) !! Z.to_nat (at_ k) = Some (Z.to_nat (at_ k))) as Hs by (apply lookup_seq; lia).
    destruct (Forall2_lookup_l _ _ _ _ _ Hheld Hs) as (es & Hes & bytes & Hb & Hd). rewrite Z2Nat.id in Hb by lia. by exists bytes, es. }
  split.
  - unfold service_directory, ess. apply Forall2_fmap_l, Forall2_fmap_r, Forall_Forall2_diag, Forall_forall. intros k Hk%elem_of_seqZ.
    destruct (Hrow k ltac:(lia)) as (bytes & es & Hb & Hd & Hes). cbv beta. unfold compose, at_ in *. by rewrite Hb, Hes.
  - assert (e ∈ l) as Hel by (assert (e ∈ filter (fun o => de_tag o = de_tag e) l) as Hx by (rewrite He; left); by apply list_elem_of_filter in Hx as [_ ?]).
    assert (forall j es, ess !! j = Some es -> at_ (Z.of_nat j) <> row -> filter (fun o => de_tag o = de_tag e) es = []) as Hother.
    { intros j es Hj Hne. unfold ess in Hj. rewrite list_lookup_fmap in Hj. destruct (seqZ 0 (blen tables) !! j) as [k|] eqn:Ek; [|done]. injection Hj as <-. apply lookup_seqZ in Ek as [-> Hk].
      destruct (Hrow (0 + Z.of_nat j) ltac:(lia)) as (_ & es & _ & _ & Hes). rewrite Hes. cbn [default from_option id]. destruct (filter _ es) as [|x fs] eqn:Ef; [done|]. exfalso.
      assert (x ∈ filter (fun o => de_tag o = de_tag e) es) as [Ht Hx]%list_elem_of_filter by (rewrite Ef; left).
      pose proof (tag_row held Hn _ _ _ _ _ _ Hes Hl Hx Hel Ht) as Eij. apply Hne. change (0 + Z.of_nat j) with (Z.of_nat j) in Eij. unfold at_ in *. nia. }
    pose proof (Z.div_mod row R ltac:(lia)) as Hdm. destruct (decide (row mod R = q mod R)) as [Em|Em].
    + assert (0 <= row / R < blen tables) as Hdiv by (split; [apply Z.div_pos; lia|apply Z.div_lt_upper_bound; lia]).
      assert (at_ (row / R) = row) as Ea by (unfold at_; lia).
      apply (filter_concat_one _ ess (Z.to_nat (row / R)) l e); [|done|].
      * unfold ess. rewrite list_lookup_fmap. rewrite (proj2 (lookup_seqZ 0 (blen tables) _ (row / R))) by lia. cbn. by rewrite Ea, Hl.
      * intros j es Hj Hes. apply (Hother j es Hes). unfold at_ in *. intros E. apply Hj. enough (Z.of_nat j = row / R) by lia. nia.
    + clear -Em Hother HR. enough (forall ls, (forall es, es ∈ ls -> filter (fun o => de_tag o = de_tag e) es = []) -> filter (fun o => de_tag o = de_tag e) (concat ls) = []) as Hx.
      { apply Hx. intros es (j & Hj)%list_elem_of_lookup. apply (Hother j es Hj). unfold at_. intros <-. apply Em. rewrite Z.add_comm, Z_mod_plus_full. apply Z.mod_mod. lia. }
      induction ls as [|x ls IH]; intros Hls; [done|]. cbn [concat]. rewrite filter_app, (Hls x) by left. apply IH. intros. apply Hls. by right.
Qed.

Abbreviation replies qs := (map (fun q => (q, service_directory tables g q)) qs).

(** The rows that are asked for hold the entry. *)
Lemma directory_read e : found (wk_shard wk) g children tables table e ->
  (table = None -> forall a b, candidate_rows (wk_shard wk) (de_script e) (R * blen tables) = Ok (a, b) -> a mod R = b mod R -> a = b) -> 0 < blen tables ->
  exists qs q, queried_rows wk table (de_script e) (R * blen tables) = Ok qs /\
    search_replies (replies qs) (de_tag e) children None = Ok (Some (q, published e)).
Proof using HR Hn Hheld.
  intros (a & b & row & bytes & l & Hcand & Hrow & Hchoice & Hb & Hd & Hfil) Hclash Ht.
  destruct (candidates_range (shard_salts (wk_shard wk)) (de_script e) (R * blen tables) ltac:(lia)) as (a' & b' & Hc' & Ha & Hb').
  unfold candidate_rows in Hcand. rewrite Hc' in Hcand. injection Hcand as -> ->. assert (0 <= row < R * blen tables) as Hr by (destruct Hrow; subst; lia).
  pose proof (held_row row l bytes Hr Hb Hd) as Hl. change (de_tag e) with (de_tag (published e)) in *.
  unfold queried_rows, candidate_rows. rewrite Hc'. run_ok. cbn [fst snd]. destruct table as [t|].
  - destruct (Hchoice t eq_refl) as (bit & -> & Hbit). run_ok. exists [row], row. split; [by destruct Hbit as [[-> ->]|[-> ->]]|]. cbn [map search_replies].
    destruct (reply_hits row l (published e) row Hr Hl Hfil) as (ess & Hess & Hf). rewrite (search_reply_run _ _ _ _ ess Hess) by done. run_ok. unfold after. by rewrite Hf, decide_True.
  - specialize (Hclash eq_refl a b Hc'). exists [a; b], row. split; [done|]. cbn [map search_replies].
    destruct (reply_hits row l (published e) a Hr Hl Hfil) as (essa & Hessa & Hfa). destruct (reply_hits row l (published e) b Hr Hl Hfil) as (essb & Hessb & Hfb).
    rewrite (search_reply_run _ _ _ _ essa Hessa) by done. run_ok. unfold after. rewrite Hfa.
    destruct Hrow as [-> | ->].
    + rewrite decide_True by done. cbn [first_hit]. rewrite (search_reply_run _ _ _ _ essb Hessb); [by run_ok|]. intros seen x [= <- <-]. rewrite Hfb. case_decide; [|done]. intros _. by apply Hclash.
    + destruct (decide (b mod R = a mod R)) as [E|E]; cbn [first_hit].
      * rewrite Hclash in * by done. rewrite (search_reply_run _ _ _ _ essb Hessb); [by run_ok|]. by intros seen x [= <- <-].
      * rewrite (search_reply_run _ _ _ _ essb Hessb) by done. run_ok. unfold after. by rewrite Hfb, decide_True.
Qed.

(** Without a choice table, an entry whose candidate rows lie at the same place of two
    segments is answered twice, and refused. *)
Lemma directory_refused e a b : found (wk_shard wk) g children tables None e -> 0 < blen tables ->
  candidate_rows (wk_shard wk) (de_script e) (R * blen tables) = Ok (a, b) -> a mod R = b mod R -> a <> b ->
  exists qs, queried_rows wk None (de_script e) (R * blen tables) = Ok qs /\
    entry_in wk (de_tag e) (replies qs) = Err (Failed (Content "a script tag twice")).
Proof using HR Hn Hheld.
  intros (a' & b' & row & bytes & l & Hcand & Hrow & _ & Hb & Hd & Hfil) Ht Hc Em Hne. rewrite Hc in Hcand. injection Hcand as <- <-.
  destruct (candidates_range (shard_salts (wk_shard wk)) (de_script e) (R * blen tables) ltac:(lia)) as (a' & b' & Hc' & Ha & Hb').
  unfold candidate_rows in Hc. rewrite Hc in Hc'. injection Hc' as <- <-. assert (0 <= row < R * blen tables) as Hr by (destruct Hrow; subst; lia).
  pose proof (held_row row l bytes Hr Hb Hd) as Hl. change (de_tag e) with (de_tag (published e)) in *.
  unfold queried_rows, candidate_rows. rewrite Hc. run_ok. exists [a; b]. split; [done|]. unfold entry_in. cbn [map search_replies].
  destruct (reply_hits row l (published e) a Hr Hl Hfil) as (essa & Hessa & Hfa). destruct (reply_hits row l (published e) b Hr Hl Hfil) as (essb & Hessb & Hfb).
  rewrite (search_reply_run _ _ _ _ essa Hessa) by done. run_ok. unfold after. rewrite Hfa. rewrite decide_True by (destruct Hrow; subst; done). cbn [first_hit].
  rewrite decide_True in Hfb by (destruct Hrow; subst; done). rewrite (reply_twice _ _ _ _ essb Hessb); [done| |done]. by rewrite Hfb.
Qed.
End Directory.

(** ** A wallet and an honest service *)

Definition service_pages (g : Geometry) (children : list BuiltChild) (rq : RowRequest) : Reply :=
  match children !! Z.to_nat (rq_child rq) with
  | Some c => map (fun k => match page_row c g (k * page_rows g + rq_row rq mod page_rows g) with Ok bytes => bytes | Err _ => [] end) (seqZ 0 (bc_segments c))
  | None => []
  end.

Definition walker_for `{!Sha256} (identity : BuiltChild -> list byte) (target : Anchor) (terminal : list byte) (d : BuiltDirectory) (children : list BuiltChild) : Walker :=
  MkWalker (bd_shard_id d) (bd_start d) (bd_end d) terminal (map (fun c => describe c (bd_geometry d)) children) (bd_geometry d)
    (map identity children) (map child_salt children) target.

Lemma service_honest g children : page_row_bytes g = 4096 -> 2048 <= page_rows g -> honest g children (service_pages g children).
Proof.
  intros Hb Hp c child row Hc Hr. unfold service_pages. cbn [rq_child rq_row]. rewrite Nat2Z.id, Hc. apply Forall2_fmap_r, Forall_Forall2_diag, Forall_forall. intros k Hk%elem_of_seqZ.
  unfold compose. pose proof (Z.mod_pos_bound row (page_rows g) ltac:(lia)) as Hm.
  assert (exists bytes, page_row child g (k * page_rows g + row mod page_rows g) = Ok bytes) as (bytes & ->); [|done].
  unfold page_row. rewrite (proj2 (Z.ltb_lt _ _)) by nia. cbn [assert_that]. run_ok. rewrite Hb. destruct (_ <=? _); by eexists.
Qed.

Lemma history_within s blocks ends start e : shard_blocks blocks ends start -> e ∈ history s blocks -> start <= event_height e <= start + blen blocks - 1.
Proof.
  intros Hsk He. destruct (history_height s blocks e (shard_blocks_ok _ _ _ Hsk) He) as (bl & Hbl & ->).
  assert (bl.1 ∈ map fst blocks) as Hin by (by apply list_elem_of_fmap_2). rewrite (sk_heights _ _ _ Hsk), elem_of_seqZ in Hin. lia.
Qed.

Section Wallet.
Context `{HS : !Sha256, HL : !Sha256Laws} {S : Type} `{!WalletStore S, !StoreLaws S}.
Context (siphash : Z -> Z -> list byte -> Z) (siphash_u64 : forall k0 k1 e, 0 <= siphash k0 k1 e < 2 ^ 64).
Context (shard_id : Z) (g : Geometry) (genesis : list byte) (profile : string) (blocks : list Block) (child_ends : list Z) (start : Z).
Context (terminal : Z -> list byte) (range : RangeProfile).
Context (Hsk : shard_blocks blocks child_ends start) (Hg : validate_publishable g = Ok ()).
Context (d : BuiltDirectory) (children : list BuiltChild).
Context (Hpub : shard_published siphash shard_id g genesis profile blocks child_ends start terminal range d children).
Context (identity : BuiltChild -> list byte) (target : Anchor).

Abbreviation wk := (walker_for identity target (terminal (bd_end d)) d children).
Abbreviation answer := (fun q => (q, service_directory (bd_directory d) g q)).

Lemma walker_published : walker_of wk children.
Proof using Hg Hpub.
  destruct (publishable_pages g Hg) as [_ Hp]. constructor; cbn; [done|done|by rewrite length_map| |by rewrite (sp_geometry _ _ _ _ _ _ _ _ _ _ _ _ Hpub)].
  rewrite (sp_shard _ _ _ _ _ _ _ _ _ _ _ _ Hpub), (sp_geometry _ _ _ _ _ _ _ _ _ _ _ _ Hpub). apply (sp_facts _ _ _ _ _ _ _ _ _ _ _ _ Hpub).
Qed.

(** The wallet finds the entry of a script, with its newest events; the entry points at the
    chain of the older ones. *)
Lemma wallet_entry s : indexable s -> history s blocks <> [] ->
  (bd_choice d = None -> forall a b, candidate_rows shard_id s (directory_rows g * blen (bd_directory d)) = Ok (a, b) ->
    a mod directory_rows g = b mod directory_rows g -> a = b) ->
  exists qs entry old head n, queried_rows wk (bd_choice d) s (directory_rows g * blen (bd_directory d)) = Ok qs /\
    entry_in wk (script_tag (tag_salt shard_id (terminal (bd_end d)) (bd_counter d)) s) (map answer qs) = Ok (Some entry) /\
    history s blocks = old ++ inline entry /\ chain g children s head n old (inline entry) /\
    pending_of s entry = match head with Some (c, row) => Some (MkPending None s (MkRunCursor c (row - 1) None) (inline entry) [] 0) | None => None end.
Proof using Hsk Hg Hpub.
  intros Hs Hne Hclash. destruct (sp_scripts _ _ _ _ _ _ _ _ _ _ _ _ Hpub s Hs Hne) as (head & n & old & recent & e & Hh & _ & Hch & He & Hf).
  pose proof (sp_shard _ _ _ _ _ _ _ _ _ _ _ _ Hpub) as E1. pose proof (sp_geometry _ _ _ _ _ _ _ _ _ _ _ _ Hpub) as E2. pose proof (sp_children _ _ _ _ _ _ _ _ _ _ _ _ Hpub) as E3.
  destruct (sp_rows _ _ _ _ _ _ _ _ _ _ _ _ Hpub) as (held & Hheld & Hn). rewrite E2, E3 in Hheld.
  pose proof (sp_segments _ _ _ _ _ _ _ _ _ _ _ _ Hpub) as Hseg. destruct (publishable_fields g Hg) as [_ HR]. pose proof walker_published as Hwk.
  assert (blen (wk_children wk) = blen children) as El by (unfold blen; cbn; by rewrite length_map).
  destruct (directory_read wk (bd_directory d) (bd_choice d) held) with (e := e) as (qs & q & Hq & Hsr); rewrite ?El; cbn [wk_geometry wk_shard walker_for]; rewrite ?E1, ?E2; try done; [by rewrite He|lia|].
  assert (de_script e = s) as Es by (by rewrite He). rewrite Es in Hq. cbn [wk_geometry walker_for] in Hq, Hsr. rewrite E2 in Hq, Hsr. rewrite El in Hsr.
  exists qs, (published e), old, head, n. split; [done|]. assert (de_tag e = script_tag (tag_salt shard_id (terminal (bd_end d)) (bd_counter d)) s) as Et by (by rewrite He).
  assert (inline (published e) = recent) as Ei by (by rewrite He). rewrite Ei.
  assert (directory_head (published e) = match head with Some (c, row) => Some (c, row - 1) | None => None end) as Ehd.
  { unfold directory_head. rewrite He. cbn. destruct head as [[c row]|]; [|done]. pose proof (chain_head_bound _ _ _ _ _ _ _ Hch) as (_ & _ & Hb). destruct (Hb c row eq_refl) as (_ & _ & ? & _).
    destruct (Z.eqb_spec row 0); [lia|done]. }
  split_and!; try done.
  - unfold entry_in. rewrite El, <- Et, Hsr. run_ok. rewrite Ei, Ehd. cbn [wk_start wk_end walker_for].
    assert (existsb (fun e => (event_height e <? bd_start d) || (bd_end d <? event_height e)) recent = false) as ->.
    { rewrite (sp_start _ _ _ _ _ _ _ _ _ _ _ _ Hpub), (sp_end _ _ _ _ _ _ _ _ _ _ _ _ Hpub). assert (forall x, x ∈ recent -> start <= event_height x <= start + blen blocks - 1) as Hw.
      { intros x Hx. eapply history_within; [exact Hsk|]. rewrite Hh. apply elem_of_app. by right. }
      clear -Hw. induction recent as [|x l IH]; [done|]. cbn [existsb]. rewrite IH by (intros; apply Hw; by right). destruct (Hw x ltac:(left)). rewrite orb_false_r. apply orb_false_iff. split; apply Z.ltb_ge; lia. }
    destruct head as [[c row]|]; run_ok; [|done]. inversion Hch as [|cn child p prev n' old' r carried Hc Hst _ _ _ _]; subst. destruct Hst as [Q1 Q2 Q3 _ _ _].
    pose proof (fragments_some r Q1). replace (Z.of_nat p + 1 - 1) with (Z.of_nat p) by lia. rewrite (locate_run wk children Hwk cn child) by (done || lia). by run_ok.
  - unfold pending_of. rewrite Ehd, Ei. by destruct head as [[c row]|].
Qed.

(** The whole history is read. *)
Lemma wallet_history s (store : S) fuel : indexable s -> history s blocks <> [] -> not_increasing (history s blocks) = false -> misses store ->
  blen children < Z.of_nat fuel ->
  (bd_choice d = None -> forall a b, candidate_rows shard_id s (directory_rows g * blen (bd_directory d)) = Ok (a, b) ->
    a mod directory_rows g = b mod directory_rows g -> a = b) ->
  exists qs entry store1 c1, queried_rows wk (bd_choice d) s (directory_rows g * blen (bd_directory d)) = Ok qs /\
    entry_in wk (script_tag (tag_salt shard_id (terminal (bd_end d)) (bd_counter d)) s) (map answer qs) = Ok (Some entry) /\
    commit_entry wk store s (Some entry) = Ok store1 /\ store_log store1 = store_log store ++ [c1] /\
    match pending_of s entry with
    | None => walk_log wk s None (history s blocks) [c1]
    | Some item => sc_pending c1 = [item] /\ forall id, exists store' w' cs,
        walk_rounds wk fuel (service_pages g children) store1 (MkWalk (with_id item id) None [] false) = Ok (store', w') /\
        w_done w' = true /\ store_log store' = store_log store ++ c1 :: cs /\ walk_log wk s id (history s blocks) (c1 :: cs)
    end.
Proof using All.
  intros Hs Hne Hor Hm Hfuel Hclash. destruct (wallet_entry s Hs Hne Hclash) as (qs & entry & old & head & n & Hq & He & Hh & Hch & Hpend).
  assert (Forall (within wk) (history s blocks)) as Hw.
  { apply Forall_forall. intros e Hin. unfold within. cbn [wk_start wk_end walker_for]. rewrite (sp_start _ _ _ _ _ _ _ _ _ _ _ _ Hpub), (sp_end _ _ _ _ _ _ _ _ _ _ _ _ Hpub). by eapply history_within. }
  rewrite Hh in Hor, Hw |- *. destruct (commit_entry_run wk store s entry) as (store1 & c1 & Hc1 & Hlog1 & Hwc & Hm1); [by apply Forall_app in Hw as [_ ?]|].
  exists qs, entry, store1, c1. split_and!; try done. rewrite Hpend in Hwc |- *. pose proof (chain_head_bound _ _ _ _ _ _ _ Hch) as (_ & _ & Hb).
  destruct head as [[c row]|]; [|inversion Hch; by apply walk_log_one].
  split; [apply Hwc|]. intros id. destruct (Hb c row eq_refl) as (Hc & Hn & _). destruct (publishable_pages g Hg) as [Hbytes Hpages].
  pose proof (sp_geometry _ _ _ _ _ _ _ _ _ _ _ _ Hpub) as E2. assert (Forall event_fits old) as Hfit.
  { pose proof (history_good s blocks (shard_blocks_ok _ _ _ Hsk)) as Hgood. rewrite Hh in Hgood. apply Forall_app in Hgood as [Hgood _].
    eapply Forall_impl; [exact Hgood|]. intros e (Hwf & _). by apply event_wf_fits. }
  assert (honest (wk_geometry wk) children (service_pages g children)) as Hhon by (cbn [wk_geometry walker_for]; rewrite E2; by apply service_honest).
  destruct (walk_run wk children (service_pages g children) walker_published Hhon s c row n old (inline entry) id 0 fuel store1) as (store' & w' & cs & Hrun & Hd & Hlog & Hwl);
    [cbn [wk_geometry walker_for]; by rewrite E2|done..|by apply Hm1|lia|].
  exists store', w', cs. split_and!; [exact Hrun|done|by rewrite Hlog, Hlog1, <- app_assoc|by eapply walk_log_cons].
Qed.
End Wallet.

(** C18: A wallet reads the whole history.  A directory shard is built from blocks, a wallet asks
    for the rows of a script of its own, and an honest service answers from every segment.
    [entry_in] accepts the entry, and the first commit takes its inline events, the newest of
    the history, with the pages that are left as work to do.  The walk of that work, under
    whatever number the store gave it, ends after at most 33 rounds without a failure: every
    check of [fragment], [check_located], [validate_page_boundary] and [check_run] passes.
    The events committed, the inline ones included, are together the whole history up to the
    target, each run with one commit, the newest first; only the last commit covers the script
    and ends its work.  If the entry has no pages, its commit alone does all this.

    The hypotheses are these.  The blocks, the geometry and the range profile are those of a
    shard that can be published, and the build succeeds.  The script is indexable and has
    events, at distinct places ([not_increasing]: strictly increasing in the order of
    [sort_key]).  Nothing is cached ([misses]), and no commit of the store fails
    ([StoreLaws]).  If the shard has no choice table, two candidate rows of the script at the
    same place of a segment are one row: without this the entry is refused, which is
    [directory_reply_refused]. *)
Theorem wallet_reads_history `{HS : !Sha256, HL : !Sha256Laws} {S : Type} `{!WalletStore S, !StoreLaws S}
    siphash shard_id g genesis profile blocks child_ends start terminal sealed range identity target s (store : S) fuel :
  (forall k0 k1 e, 0 <= siphash k0 k1 e < 2 ^ 64) ->
  shard_blocks blocks child_ends start -> validate_publishable g = Ok () -> directory_rows g * MAX_DIRECTORY_SEGMENTS < u32_limit ->
  range_profile profile = Some range -> indexable s -> history s blocks <> [] -> not_increasing (history s blocks) = false -> misses store -> (32 < fuel)%nat ->
  match build_directory_shard siphash shard_id g genesis profile blocks child_ends terminal sealed with
  | Ok (d, children) =>
      let wk := walker_for identity target (terminal (bd_end d)) d children in
      let rows := directory_rows g * blen (bd_directory d) in
      (bd_choice d = None -> forall a b, candidate_rows shard_id s rows = Ok (a, b) -> a mod directory_rows g = b mod directory_rows g -> a = b) ->
      exists qs entry store1 c1, queried_rows wk (bd_choice d) s rows = Ok qs /\
        entry_in wk (script_tag (tag_salt shard_id (terminal (bd_end d)) (bd_counter d)) s)
          (map (fun q => (q, service_directory (bd_directory d) g q)) qs) = Ok (Some entry) /\
        commit_entry wk store s (Some entry) = Ok store1 /\ store_log store1 = store_log store ++ [c1] /\
        match pending_of s entry with
        | None => walk_log wk s None (history s blocks) [c1]
        | Some item => sc_pending c1 = [item] /\ forall id, exists store' w' cs,
            walk_rounds wk fuel (service_pages g children) store1 (MkWalk (with_id item id) None [] false) = Ok (store', w') /\
            w_done w' = true /\ store_log store' = store_log store ++ c1 :: cs /\ walk_log wk s id (history s blocks) (c1 :: cs)
        end
  | Err (Failed e) => e = counter_exceeded \/ exists s, e = DirectoryFull s /\ indexable s /\ history s blocks <> []
  | Err (Panicked _) => False
  end.
Proof.
  intros Hsip Hsk Hg Hsegs Hr Hs Hne Hor Hm Hfuel.
  pose proof (build_directory_run siphash Hsip shard_id g genesis profile blocks child_ends start terminal sealed range Hsk Hg Hsegs Hr) as Hb.
  destruct (build_directory_shard _ _ _ _ _ _ _ _ _) as [[d children]|[e|]]; [|done..]. intros wk rows Hclash.
  eapply wallet_history; try done. pose proof (sp_count _ _ _ _ _ _ _ _ _ _ _ _ Hb) as Hc. pose proof (sk_children _ _ _ Hsk). unfold blen in *. lia.
Qed.

(** C39: An honest entry that is refused.  The directory has several segments and no choice table,
    and the two candidate rows of a script lie at the same place of two segments.  Every
    segment answers both requests, so that each reply holds the entry; [entry_in] takes the
    second sighting, under the other row, for a second entry, and refuses the script. *)
Theorem directory_reply_refused `{HS : !Sha256} (wk : Walker) tables held e a b :
  0 < directory_rows (wk_geometry wk) -> NoDup (map de_tag (concat held)) ->
  Forall2 (fun r l => exists bytes, built_directory_row tables (wk_geometry wk) (Z.of_nat r) = Ok bytes /\ decode_directory_row bytes (blen (wk_children wk)) = Ok l)
    (seq 0 (Z.to_nat (directory_rows (wk_geometry wk) * blen tables))) held ->
  found (wk_shard wk) (wk_geometry wk) (blen (wk_children wk)) tables None e -> 0 < blen tables ->
  candidate_rows (wk_shard wk) (de_script e) (directory_rows (wk_geometry wk) * blen tables) = Ok (a, b) ->
  a mod directory_rows (wk_geometry wk) = b mod directory_rows (wk_geometry wk) -> a <> b ->
  exists qs, queried_rows wk None (de_script e) (directory_rows (wk_geometry wk) * blen tables) = Ok qs /\
    entry_in wk (de_tag e) (map (fun q => (q, service_directory tables (wk_geometry wk) q)) qs) = Err (Failed (Content "a script tag twice")).
Proof. intros. by eapply (directory_refused wk tables held). Qed.
