(* ===== verification/DirectorySample.v ===== *)
(** * A small directory

    Concrete inputs on which the theorems about directories are evaluated, with a hash that
    mixes the bytes of its input. *)

From stdpp Require Import sorting.
From S2P Require Import Prelude BitStream ShardEvents ShardEventProofs ShardCompact ShardRecords ShardPacking.
From S2P Require Import ShardBestFit ShardFreeSpace ShardPrediction ShardLayout ShardLayoutProofs DirectoryPlacement DirectoryRelocation DirectoryPlaceTheorems.
From S2P Require Import DirectoryChoice DirectoryPeel DirectoryChoiceTheorems DirectoryTable DirectoryTableTheorems.
From S2P Require Import ShardPageRow ShardDemand ShardBuilder ShardBuilderProofs ShardChain ShardPublish ChainWalk ChainWalkProofs.

(** ** A small page shard

    Runs of which one fills more than a fragment and two are short *)

Definition sample_txid (n : Z) : list byte := le_split 4 n ++ replicate 28 Byte.x07.
Definition sample_receive (h n : Z) : TransparentEvent :=
  Receive (MkReceive None h (sample_txid n) 1 (n mod 7) 5000 false).
Definition sample_spend (h n : Z) : TransparentEvent :=
  Spend (MkSpend None h (sample_txid (n + 1)) 2 0 (sample_txid n) (n mod 7)).

Definition sample_run (from : Z) (n : nat) : list TransparentEvent :=
  concat (map (fun i => let h := from + Z.of_nat i in [sample_receive h h; sample_spend h h]) (seq 0 n)).

Definition sample_runs : list (script * list TransparentEvent) :=
  [([Byte.x01], sample_run 1000 3); ([Byte.x02], sample_run 2000 50); ([Byte.x03], sample_run 3000 1)].
Definition sample_tag (s : script) : list byte := pad_to 14 (take 14 s).
Definition sample_link (s : script) : RunLink :=
  if decide (s = [Byte.x01]) then MkRunLink 2 17 1 else no_link.

Lemma sample_run_wf from n : 0 <= from -> from + Z.of_nat n < 2 ^ 31 -> Forall event_wf (sample_run from n).
Proof.
  intros H0 Hn. unfold sample_run. apply Forall_concat, Forall_map, Forall_forall.
  intros i Hi%list_elem_of_In%in_seq. cbn [map]. unfold sample_receive, sample_spend, sample_txid, event_wf, width. cbn [event_wf].
  pose proof (Z.mod_pos_bound (from + Z.of_nat i) 7 ltac:(lia)).
  repeat constructor; cbn; try lia.
Qed.

Lemma sample_input : shard_input sample_runs sample_tag sample_link.
Proof.
  split.
  - apply (bool_decide_unpack _). vm_compute. exact I.
  - assert (Forall (fun s => Forall (fun s' => sample_tag s = sample_tag s' -> s = s') sample_runs.*1) sample_runs.*1) as H.
    { apply (bool_decide_unpack _). vm_compute. exact I. }
    intros s s' Hs Hs'. rewrite Forall_forall in H. specialize (H s Hs). rewrite Forall_forall in H. by apply H.
  - repeat constructor; try (apply sample_run_wf; lia); cbn; try done; vm_compute; done.
  - assert (Forall (fun s => link_well_formed (sample_link s) = true) sample_runs.*1) as H.
    { apply (bool_decide_unpack _). vm_compute. exact I. }
    intros s Hs. rewrite Forall_forall in H. by apply H.
  - vm_compute. done.
Qed.

Lemma sample_valid : shard_valid sample_runs sample_tag sample_link.
Proof.
  split.
  - assert (Forall (fun s => blen (sample_tag s) = SCRIPT_TAG_BYTES) sample_runs.*1) as H.
    { repeat constructor. }
    intros s Hs. rewrite Forall_forall in H. by apply H.
  - assert (Forall (fun s => link_wf (sample_link s)) sample_runs.*1) as H.
    { repeat constructor; vm_compute; done. }
    intros s Hs. rewrite Forall_forall in H. by apply H.
  - repeat constructor.
Qed.

(** ** The theorems on these runs *)

Lemma fragments_correct_witness :
  Forall event_wf (sample_run 2000 50) /\ length (fragments (sample_run 2000 50)) = 2%nat /\
  concat (fragments (sample_run 2000 50)) = sample_run 2000 50.
Proof.
  assert (Forall event_wf (sample_run 2000 50)) as Hwf by (apply sample_run_wf; lia).
  destruct (fragments_correct (sample_run 2000 50) Hwf) as [Hc _].
  split; [exact Hwf|]. split; [vm_compute; reflexivity|exact Hc].
Defined.

Lemma history_layout_incremental_witness :
  exists h, push_all history_default (sample_run 2000 50) 2 = Ok h /\ layout_of 2 (sample_run 2000 50) h /\ hl_fragments h = 2.
Proof.
  pose proof (history_layout_incremental 2 (sample_run 2000 50) ltac:(lia) (sample_run_wf 2000 50 ltac:(lia) ltac:(lia))) as H.
  destruct (push_all history_default (sample_run 2000 50) 2) as [h|p] eqn:E.
  - exists h. destruct H as [_ H]. split_and!; [done|exact H|]. destruct H as (_ & _ & -> & _). vm_compute. reflexivity.
  - exfalso. vm_compute in E. discriminate.
Defined.

Definition sample_history : HistoryLayout := MkHistoryLayout 100 [] 2 658 4700 (Some (sample_receive 1 1)).
Definition sample_short (n : Z) : HistoryLayout := MkHistoryLayout 2 [] 1 n n (Some (sample_receive 1 1)).
Definition sample_demand : PackedDemand :=
  MkPackedDemand (<[91 := 3]> (<[2040 := 1]> ∅)) (<[3394 := 1]> ∅) 2 1 6853 PAGE_ENTRY_HEADER_BYTES None.
Definition sample_histories : list HistoryLayout :=
  [sample_short 51; sample_history; sample_short 2000; sample_short 51; sample_short 51].

Lemma sample_represents : represents PAGE_ENTRY_HEADER_BYTES sample_demand sample_histories.
Proof. split; apply (bool_decide_unpack _); vm_compute; exact I. Qed.

Lemma sample_histories_ok : Forall (history_ok PAGE_ENTRY_HEADER_BYTES) sample_histories.
Proof. repeat constructor; vm_compute; done. Qed.

Lemma sample_sizes : sizes_of PAGE_ENTRY_HEADER_BYTES sample_histories [2040; 91; 91; 91].
Proof. split; [repeat constructor; vm_compute; done|]. vm_compute. apply (bool_decide_unpack _). vm_compute. exact I. Qed.

Lemma dense_best_fit_is_sparse_witness :
  unsigned_demand sample_demand /\ calculate_mixed_rows sample_demand = Ok 2 /\
  calculate_mixed_rows sample_demand = calculate_mixed_rows_sparse sample_demand.
Proof.
  assert (unsigned_demand sample_demand) as H by (split; apply (bool_decide_unpack _); vm_compute; exact I).
  split_and!; [done|vm_compute; reflexivity|]. exact (dense_best_fit_is_sparse sample_demand H).
Defined.

Lemma demand_tracks_histories_witness :
  exists d', shift sample_demand (sample_short 51) (sample_short 800) = Ok d' /\
    represents PAGE_ENTRY_HEADER_BYTES d' (sample_short 800 :: tail sample_histories).
Proof.
  destruct (demand_tracks_histories PAGE_ENTRY_HEADER_BYTES sample_demand (tail sample_histories) (sample_short 51) (sample_short 800))
    as (d' & E & Hd & _).
  - done.
  - exact sample_represents.
  - repeat constructor; vm_compute; done.
  - by exists d'.
Defined.

Lemma predicted_rows_exact_witness : exists d', rows sample_demand = Ok (2, d') /\ cache_ok d'.
Proof.
  destruct (predicted_rows_exact PAGE_ENTRY_HEADER_BYTES sample_demand sample_histories [2040; 91; 91; 91]) as (d' & _ & E & _ & Hc & _).
  - done.
  - exact sample_represents.
  - exact sample_histories_ok.
  - exact sample_sizes.
  - intros c Hc. discriminate Hc.
  - exists d'. split; [|exact Hc]. rewrite E. vm_compute. reflexivity.
Defined.

Lemma lay_out_runs_as_predicted_witness :
  exists out, lay_out_runs sample_runs sample_tag sample_link = Ok out /\ laid_fragments out = 4.
Proof.
  destruct (lay_out_runs_as_predicted sample_runs sample_tag sample_link sample_input) as (out & E & Hf & _).
  exists out. split; [exact E|]. rewrite Hf. vm_compute. reflexivity.
Defined.

Lemma page_shard_readable_witness :
  exists out table p, lay_out_runs sample_runs sample_tag sample_link = Ok out /\ encode_rows (laid_rows out) = Ok table /\
    read_run table (sample_tag [Byte.x02]) p 2 = Some (sample_run 2000 50).
Proof.
  destruct (page_shard_readable sample_runs sample_tag sample_link sample_input sample_valid) as (out & table & E & Et & H).
  destruct (H [Byte.x02] (sample_run 2000 50)) as (p & _ & Hr); [right; left|].
  exists out, table, p. split_and!; [exact E|exact Et|exact Hr].
Defined.

Lemma segments_hold_rows_witness : exists n segment within,
  segments_for 10000 8192 = Ok n /\ split_row 9000 8192 = Ok (segment, within) /\ 0 <= segment < n.
Proof.
  destruct (segments_hold_rows 10000 8192 ltac:(lia) ltac:(vm_compute; split; congruence)) as (n & E & _ & _ & _ & H).
  destruct (H 9000 ltac:(lia)) as (sg & w & Es & Hs & _). exists n, sg, w. split; [exact E|]. split; [exact Es|exact Hs].
Defined.

(** ** A directory *)

#[local] Instance sample_sha : Sha256 :=
  {| sha256 b := le_split 32 (fold_left (fun n x => (n * 16777619 + byte.unsigned x + 97) mod 2 ^ 61) b 14695981039346656037) |}.

Definition sample_salts : list byte * list byte := bucket_salts [Byte.x01] [Byte.x02].
Definition sample_keys (n : nat) : list (list byte) := map (fun i => le_split 2 (Z.of_nat i)) (seq 0 n).

(** Five rows of 20 bytes *)
Definition sample_rows : FixedRows := fixed_rows_new sample_salts 5 20.

Lemma sample_rows_ok : rows_ok_for sample_rows.
Proof.
  assert (forall r l, occupants sample_rows !! r = Some l -> l = [] /\ used sample_rows !! r = Some 0) as Hr.
  { intros r l [-> H]%lookup_replicate. split; [done|]. by apply lookup_replicate_2. }
  split; [done|done|done|apply Forall_nil_2| |].
  - intros r l [-> _]%Hr. split; [apply NoDup_nil_2|]. intros i. split; [by intros ?%not_elem_of_nil|]. by intros (? & ? & _).
  - intros r l [-> ->]%Hr. done.
Qed.

Lemma insert_batch_atomic_witness : exists fr,
  insert_batch sample_rows (sample_keys 9) (replicate 9 10) = Ok (fr, Ok ()) /\ rows_ok_for fr /\
  assignment fr = [0; 4; 3; 2; 1; 0; 4; 3; 2]%nat.
Proof.
  destruct (insert_batch_atomic sample_rows (sample_keys 9) (replicate 9 10) sample_rows_ok) as (fr & r & Hrun & Hr);
    [done|apply Forall_replicate; lia|vm_compute; lia|done|].
  exists fr. revert Hrun. vm_compute (insert_batch _ _ _). intros [= <- <-]. split; [done|]. split; [apply Hr|done].
Defined.

(** Twelve keys of 10 bytes do not fit five rows of 20 bytes, so that there are two segments. *)
Lemma place_correct_witness : exists p rows_of,
  place sample_salts (sample_keys 12) (replicate 12 10) 5 20 4 = Ok (Ok (p, rows_of)) /\ pl_segments p = 2 /\
  placement_ok sample_salts (sample_keys 12) (replicate 12 10) 5 20 p rows_of.
Proof.
  destruct (place_correct sample_salts (sample_keys 12) (replicate 12 10) 5 20 4) as (r & Hrun & Hr);
    [done|apply Forall_replicate; lia|lia|lia|lia|done|done|].
  revert Hr. revert Hrun. vm_compute (place _ _ _ _ _ _). intros [= <-]. intros [_ Hp]. eauto.
Defined.

Lemma batches_compose_witness : exists fr1 fr2,
  insert_batch sample_rows (take 4 (sample_keys 9)) (replicate 4 10) = Ok (fr1, Ok ()) /\
  insert_batch fr1 (drop 4 (sample_keys 9)) (replicate 5 10) = Ok (fr2, Ok ()) /\
  insert_batch sample_rows (take 4 (sample_keys 9) ++ drop 4 (sample_keys 9)) (replicate 4 10 ++ replicate 5 10) = Ok (fr2, Ok ()).
Proof.
  eexists _, _. split; [|split; [|eapply batches_compose]]; [vm_compute; reflexivity..].
Defined.

(** ** Choice tables *)

Definition sample_bits : list (list byte * Z) := zip (sample_keys 5) [0; 1; 1; 0; 1].

Lemma choice_build_order_witness :
  choice_build [Byte.x03] [Byte.x04] [0; 1; 2] (rev sample_bits) = choice_build [Byte.x03] [Byte.x04] [0; 1; 2] sample_bits.
Proof.
  apply choice_build_order; [apply (bool_decide_unpack _); vm_compute; exact I|apply Permutation_rev].
Defined.

(** ** The directory of a shard *)

Definition sample_entries : list DirectoryEntry :=
  [MkDirectoryEntry [Byte.x01] (sample_tag [Byte.x01]) 2 (sample_run 1000 1) 0 0;
   MkDirectoryEntry [Byte.x02] (sample_tag [Byte.x02]) 2 (sample_run 2000 1) 1 7].

Lemma sample_placeable : Forall (placeable 3) sample_entries.
Proof.
  repeat constructor; cbn; try lia; try (eexists; vm_compute; reflexivity); try (apply sample_run_wf; lia); done.
Qed.

Lemma place_directory_correct_witness :
  match place_directory 3 sample_entries DECOUPLED_2K_8K 3 with
  | Ok (tables, scripts, table) => scripts = 2 /\ Forall (found 3 DECOUPLED_2K_8K 3 tables table) sample_entries
  | Err (Failed (DirectoryFull s)) => s ∈ map de_script sample_entries
  | Err _ => False
  end.
Proof.
  assert (NoDup (map de_script sample_entries) /\ NoDup (map de_tag sample_entries)) as [Hs Ht] by (split; apply (bool_decide_unpack _); vm_compute; exact I).
  pose proof (place_directory_correct 3 sample_entries DECOUPLED_2K_8K 3 eq_refl eq_refl sample_placeable Hs Ht eq_refl) as H.
  destruct (place_directory _ _ _ _) as [[[tables scripts] table]|]; [|exact H]. destruct H as (-> & _ & Hf & _). split; [reflexivity|exact Hf].
Defined.

(** ** A directory shard and a wallet *)

#[local] Instance sample_sha_laws : Sha256Laws.
Proof. constructor. intros b. apply (blen_le_split 32). Qed.

Definition sample_hash (k0 k1 : Z) (b : list byte) : Z := fold_left (fun n x => n * 31 + byte.unsigned x + k0) b k1 mod 2 ^ 64.

Lemma sample_hash_u64 k0 k1 e : 0 <= sample_hash k0 k1 e < 2 ^ 64.
Proof. apply Z.mod_pos_bound. lia. Qed.

(** Four blocks, each with two events of a script and one of another, in two page shards *)
Definition sample_blocks : list Block :=
  map (fun h => (h, [([Byte.x01], sample_receive h h); ([Byte.x01], sample_spend h h); ([Byte.x02], sample_receive h (h + 50))])) [100; 101; 102; 103].

Lemma sample_shard_blocks : shard_blocks sample_blocks [101; 103] 100.
Proof.
  constructor; [done|done| |done|repeat constructor|done|repeat constructor; lia|done].
  repeat constructor; cbn; try lia; done.
Qed.

Definition sample_terminal (h : Z) : list byte := le_split 32 h.

Lemma directory_shard_published_witness :
  match build_directory_shard sample_hash 3 DECOUPLED_2K_8K (zeros 32) RANGE_PROFILE sample_blocks [101; 103] sample_terminal true with
  | Ok (d, children) => shard_published sample_hash 3 DECOUPLED_2K_8K (zeros 32) RANGE_PROFILE sample_blocks [101; 103] 100 sample_terminal RANGE_PROFILE_V1 d children
  | Err (Failed e) => e = counter_exceeded \/ exists s, e = DirectoryFull s /\ indexable s /\ history s sample_blocks <> []
  | Err (Panicked _) => False
  end.
Proof.
  apply directory_shard_published; [exact sample_hash_u64|exact sample_shard_blocks|reflexivity|reflexivity|reflexivity].
Defined.

(** A store that keeps what is committed *)
#[local] Instance sample_store : WalletStore (list ShardCommit) :=
  {| cached_run st d s := Ok (List.find (fun r => bool_decide (cr_digest r = d /\ cr_script r = s)) (concat (map sc_cached st)));
     commit_shard st c := Ok (st ++ [c]) |}.

#[local] Instance sample_store_laws : StoreLaws (list ShardCommit).
Proof.
  refine {| store_log st := st |}. intros st c. exists (st ++ [c]). split; [done|]. split; [done|]. intros Hc d s. cbn. rewrite map_app, concat_app. cbn. by rewrite Hc, !app_nil_r.
Defined.

Lemma wallet_reads_history_witness :
  length (history [Byte.x01] sample_blocks) = 8%nat /\
  match build_directory_shard sample_hash 3 DECOUPLED_2K_8K (zeros 32) RANGE_PROFILE sample_blocks [101; 103] sample_terminal true with
  | Ok (d, children) =>
      let wk := walker_for bc_terminal (MkAnchor 102 (sample_terminal 102)) (sample_terminal (bd_end d)) d children in
      let rows := directory_rows DECOUPLED_2K_8K * blen (bd_directory d) in
      (bd_choice d = None -> forall a b, candidate_rows 3 [Byte.x01] rows = Ok (a, b) ->
        a mod directory_rows DECOUPLED_2K_8K = b mod directory_rows DECOUPLED_2K_8K -> a = b) ->
      exists qs entry store1 c1, queried_rows wk (bd_choice d) [Byte.x01] rows = Ok qs /\
        entry_in wk (script_tag (tag_salt 3 (sample_terminal (bd_end d)) (bd_counter d)) [Byte.x01])
          (map (fun q => (q, service_directory (bd_directory d) DECOUPLED_2K_8K q)) qs) = Ok (Some entry) /\
        commit_entry wk ([] : list ShardCommit) [Byte.x01] (Some entry) = Ok store1 /\ store_log store1 = store_log ([] : list ShardCommit) ++ [c1] /\
        match pending_of [Byte.x01] entry with
        | None => walk_log wk [Byte.x01] None (history [Byte.x01] sample_blocks) [c1]
        | Some item => sc_pending c1 = [item] /\ forall id, exists store' w' cs,
            walk_rounds wk 33 (service_pages DECOUPLED_2K_8K children) store1 (MkWalk (with_id item id) None [] false) = Ok (store', w') /\
            w_done w' = true /\ store_log store' = store_log ([] : list ShardCommit) ++ c1 :: cs /\
            walk_log wk [Byte.x01] id (history [Byte.x01] sample_blocks) (c1 :: cs)
        end
  | Err (Failed e) => e = counter_exceeded \/ exists s, e = DirectoryFull s /\ indexable s /\ history s sample_blocks <> []
  | Err (Panicked _) => False
  end.
Proof.
  split; [reflexivity|]. apply (wallet_reads_history sample_hash 3 DECOUPLED_2K_8K (zeros 32) RANGE_PROFILE sample_blocks [101; 103] 100 sample_terminal true RANGE_PROFILE_V1);
    [exact sample_hash_u64|exact sample_shard_blocks|reflexivity|reflexivity|reflexivity|done| |reflexivity|done|lia].
  vm_compute. discriminate.
Defined.

(** Two segments of one row: the candidate rows of the script are 0 and 1. *)
Definition clash_geometry : Geometry := MkGeometry "one row" 1 4096 8192 4096 2.
Definition clash_entry : DirectoryEntry := MkDirectoryEntry [Byte.x01] (sample_tag [Byte.x01]) 2 (sample_run 1000 1) 0 0.
Definition clash_row : list byte := match encode_directory_row [clash_entry] with Ok row => row | Err _ => [] end.
Definition clash_tables : list (list byte) := [clash_row; zeros 4096].
Definition clash_walker : Walker := MkWalker 3 1000 1003 [] [] clash_geometry [] [] (MkAnchor 1003 []).

Lemma clash_rows : built_directory_row clash_tables clash_geometry 0 = Ok clash_row /\ built_directory_row clash_tables clash_geometry 1 = Ok (zeros 4096) /\
  decode_directory_row clash_row 0 = Ok [published clash_entry] /\ decode_directory_row (zeros 4096) 0 = Ok [].
Proof. split_and!; vm_compute; reflexivity. Qed.

Lemma directory_reply_refused_witness :
  candidate_rows 3 [Byte.x01] 2 = Ok (0, 1) /\
  exists qs, queried_rows clash_walker None [Byte.x01] 2 = Ok qs /\
    entry_in clash_walker (sample_tag [Byte.x01]) (map (fun q => (q, service_directory clash_tables clash_geometry q)) qs)
    = Err (Failed (Content "a script tag twice")).
Proof.
  split; [vm_compute; reflexivity|].
  apply (directory_reply_refused clash_walker clash_tables [[published clash_entry]; []] clash_entry 0 1);
    [reflexivity|apply NoDup_singleton| | |reflexivity|vm_compute; reflexivity|reflexivity|discriminate].
  - destruct clash_rows as (H1 & H2 & H3 & H4). apply Forall2_cons. split; [exists clash_row; split; [exact H1|exact H3]|]. apply Forall2_cons. split; [exists (zeros 4096); split; [exact H2|exact H4]|apply Forall2_nil_2].
  - destruct clash_rows as (H1 & _ & H3 & _). exists 0, 1, 0, clash_row, [published clash_entry]. split; [vm_compute; reflexivity|]. split; [by left|]. split; [done|]. split; [exact H1|]. split; [exact H3|reflexivity].
Defined.
